(* ===== verification/_CoqProject ===== *)
-Q . S2P
Prelude.v
Errno.v
Text.v
UAccess.v
Seccomp.v
SeccompProofs.v
NetPacket.v
Firewall.v
FirewallProofs.v
Crc32.v
Codec.v
Pattern.v
BuddyModel.v
BuddyList.v
BuddyInv.v
BuddyOps.v
BuddyAlloc.v
BuddyRange.v
BuddySpec.v
Vma.v
Frame.v
FrameBuddy.v
Paging.v
PagingProofs.v
Cgroup.v
Swap.v
AddrSpace.v
PhysInv.v
PteBits.v
SpaceInv.v
SpaceSteps.v
SpaceReclaim.v
SpaceFault.v
SpaceDemo.v
SpaceMem.v
SpaceUnmap.v
SpaceMap.v
SpaceProtect.v
SpaceDrop.v
SpaceFork.v
SpaceBrk.v
SpaceSystem.v
Signal.v
SignalProofs.v
SignalFrame.v
Pipe.v
PipeProofs.v
FdTable.v
Arith.v
ArithProofs.v
ArithSpec.v
ArithText.v
EventFd.v
ArchivePath.v
ArchiveTime.v
SshWire.v
Bytes.v
Ext2.v
Ext2Fs.v
Ext2Names.v
Ext2Disk.v
Ext2Alloc.v
Ext2Blocks.v
Ext2Inode.v
Ext2Tree.v
Ext2Map.v
Ext2File.v
Ext2Spec.v
Ext2Free.v
Ext2Trunc.v
Ext2Dirent.v
Ext2Dir.v
Ext2Inodes.v
Ext2Links.v
Ext2Create.v
Ext2Link.v
Ext2Mkdir.v
Ext2Rename.v
Ext2Demo.v
Ext2Contract.v
