(* ===== verification/Prelude.v ===== *)
(** * FastROS: a verification library

    FastROS is a kernel written in Rust with its libraries ([kernel/], [lib/]).
    This library models the parts of it whose behaviour is determined by their
    own code, and proves them correct.  Paths below are relative to [src/].

    ** Conventions

    An operation is a function that may panic ([None]), because the build keeps
    integer overflow checks on, and an [Err] is a value, [inl] of [KResult].
    Stateful code is in the execution monad [Exec] below, with [wp] for total
    correctness: no panic, and the result is as stated; [runs] also states when a
    call panics.  Machine integers are
    [Z] with the width written out ([add64], [sub64], ...).  Where a loop is not
    structural the definition has fuel and a theorem shows the fuel suffices.
    Code that is not under [src/] is a parameter or a class.  Constants have
    the names of the source.

    ** The parts

    - Frames.  [lib/alloc/src/buddy.rs] is [BuddyModel]; [BuddyList], [BuddyInv],
      [BuddyOps], [BuddyAlloc] and [BuddyRange] prove its operations over the
      invariant and [BuddySpec] that it refines a ledger of frames.  [Frame] is
      the interface of [kernel/src/mm/frame.rs] the rest uses; [FrameBuddy]
      discharges its laws.
    - Address spaces.  [Vma] (regions), [Paging] and [PagingProofs]
      ([arch/x86_64/paging.rs] as finite maps), [Cgroup] (container limits),
      [Swap] (the swap device) and [AddrSpace] ([mm/aspace.rs],
      [syscall/mem.rs]).  [PhysInv], [PteBits] and [SpaceInv] give the invariant
      of all spaces on one machine; [SpaceSteps], [SpaceReclaim], [SpaceFault],
      [SpaceMem], [SpaceUnmap], [SpaceMap], [SpaceProtect], [SpaceDrop],
      [SpaceFork], [SpaceBrk] prove each operation; [SpaceSystem] puts them
      together over sequences of calls.  [SpaceDemo] is the concrete machine the
      witnesses run on.
    - Processes.  [UAccess] ([uaccess.rs], [usermode.rs]) is user memory;
      [Seccomp] and [SeccompProofs] are filters and capabilities
      ([syscall/seccomp.rs]); [Signal], [SignalProofs] and [SignalFrame] are
      signals ([proc/signal.rs], with the task and process methods and the system
      calls that use them); [Errno] is [errno.rs] and the return convention.
    - Descriptors.  [FdTable] is [proc/fdtable.rs], a finite map; [EventFd] is
      [fs/eventfd.rs], an event counter.
    - Pipes.  [Pipe] and [PipeProofs] are [fs/pipe.rs] and its wait queue
      ([sync/waitq.rs]), over interleavings of concurrent calls.
    - Network filter.  [NetPacket] (parsing), [Firewall] and [FirewallProofs]
      ([lib/netfilter/src/lib.rs], [kernel/src/firewall.rs]).
    - Libraries.  [Crc32], [Codec] and [Pattern] ([lib/archive/src/crc32.rs],
      [lib/codec/src/lib.rs], [lib/sh/src/pattern.rs]); [Text] holds what they
      use of strings.
    - Formats.  [ArchivePath] and [ArchiveTime] are [lib/archive/src/path.rs] and
      [time.rs]; [SshWire] is [kernel/src/ssh/wire.rs].
    - The ext2 file system.  [lib/ext2/src/lib.rs] is [Ext2] (structures on disk,
      mounting, allocation), [Ext2Fs] (block map, files) and [Ext2Names]
      (directories and the operations on names), over a class [Device] for the
      trait; [Bytes] holds what they use of byte buffers.  [Ext2Disk] has the
      device of the proofs and the geometry of a file system.  [Ext2Alloc],
      [Ext2Blocks] and [Ext2Inodes] prove the allocators against the bit maps,
      [Ext2Inode] the inode records, [Ext2Tree], [Ext2Map] and [Ext2Free] the block
      trees, [Ext2File], [Ext2Spec] and [Ext2Trunc] the bytes of files, [Ext2Dirent]
      and [Ext2Dir] the records of directories and the finite maps they denote.
      [Ext2Links] is the invariant of a whole file system; [Ext2Create],
      [Ext2Link], [Ext2Mkdir] and [Ext2Rename] prove the operations on names over
      it, and [Ext2Contract] states what each call promises.  [Ext2Demo] is the
      file system the witnesses run on.
    - Shell arithmetic.  [Arith] is [lib/sh/src/arith.rs]; [ArithProofs] shows it
      total and typed, [ArithSpec] gives trees, their meaning and their
      precedences, [ArithText] the round trip through text.

    ** What is shown

    The allocator implements its ledger for every sequence of calls and fails
    only when no block fits.

    Address spaces stay isolated over every sequence of calls that meet stated
    conditions: reference counts have room, ranges lie in user space, no shared
    mapping is cut in two, and [mprotect] makes no page writable whose frame has a
    second reference.  The code checks neither of the last two; [SpaceSystem] has
    a run in which isolation fails without the last.  User copies read and write
    exactly the bytes addressed, faults are transparent while no frame is at the
    limit of its count, and [mmap], [munmap], [mprotect], [brk], [fork] and
    teardown do what they promise.  What [mmap], [munmap] and [mprotect] do to the
    pages behind a cut of a shared mapping is part of their theorems.

    Privileges only shrink; filters combine by severity, with one exception that
    the theorem states.  SIGKILL and SIGSTOP can be neither blocked nor caught,
    delivery terminates and panics exactly when the addresses of a frame overflow,
    and a handler's frame gives back the interrupted context.  Pipes are bounded
    FIFO queues with atomic small writes and no lost wake-ups; a descriptor table
    is a finite map.  The packet filter denies by default and never panics.

    On every ext2 file system that satisfies the invariant (disjoint block trees,
    exact bit maps and counters, well-formed directories, link counts that are the
    number of names) [read], [write], [truncate], [create], [mkdir], [link],
    [unlink], [rmdir] and [rename] do what they promise to the file or directory
    they are about, touch nothing else and keep the invariant.  They do not panic,
    [rename] excepted where it would give a directory more links than a 16-bit
    count holds.  They are proved for a device that never fails, block sizes below
    64 KiB, sizes that the block map addresses and the counters of an inode can
    hold, and a file system that is mounted for writing; the cases in which space
    is lost or a file in use is given back are part of what is stated.

    Shell arithmetic evaluates the text of a tree to its meaning, in 64 bits.
    Archive members stay below their destination, dates are those of the Gregorian
    calendar, and messages survive the wire.  Checksums, codecs and patterns equal
    their reference definitions.

    ** Fuel

    The loops of [BuddyModel] over orders have one unit for each order, those
    over a range of frames one for each frame.  The user copies of [AddrSpace]
    have one for each byte and [Pipe.pipe_write_loop] one for each byte of the
    buffer, since every pass that goes on moves a byte.  [Signal.deliver] has 65:
    each pass takes a different one of the 64 signals.  The loops of [Ext2Fs] that
    read and write have one unit for each byte, that of [Ext2Names] over directory
    records one for each eight bytes of the block; [free_tree] is structural in
    the depth.  [Pattern.match_loop] has
    [match_fuel], which bounds the backtracking to the last star.  [Text.dec] has
    64 digits for numbers of at most 64 bits.  [Arith.parse_fuel] is three calls
    for each token, and its lexer has one pass for each character.

    ** Concurrency

    The kernel is not preemptive and schedules on one processor (the other
    processors park), so a call runs until it returns or blocks.  The memory and
    signal models take each method as one step; [Pipe] models the blocking.

    ** Not modelled

    Boot, interrupt and device code, whose effect is the hardware's; the heap and
    kernel page tables (raw pointers into memory that is handed out); the network
    stack, TLS and the SSH protocol, which rest on third-party code; the virtual
    file system, the other file systems and the block cache, the process table and ELF loading, the system call dispatch,
    the shell language and its commands, archive formats, the
    container tools, users and time: these are larger than what is done so far,
    not beyond the method.  Of pipes, the flag word, [ioctl], the named-FIFO table
    and socket pairs; of ext2, [format] (making a file system), and [symlink],
    [readlink], [set_attr], [sync] and [open] are defined but no theorem is about
    them; of signals, the target selection of [kill] and timers. *)

From stdpp Require Export base gmap list fin_maps.
From Stdlib Require Export ZArith Lia Bool.

Open Scope Z_scope.

(** ** Executions that may panic

    Rust code that mutates a state and may abort (an integer overflow with
    [overflow-checks = true], an out-of-bounds index, an [expect] on [None])
    is a function from the state to [None] (the abort) or to a result with the
    new state. *)

Definition Exec (S A : Type) : Type := S → option (A * S).

#[export] Instance exec_ret {S} : MRet (Exec S) := λ A a s, Some (a, s).
#[export] Instance exec_bind {S} : MBind (Exec S) := λ A B f m s,
  match m s with
  | Some (a, s') => f a s'
  | None => None
  end.

Definition panic {S A} : Exec S A := λ _, None.
Definition get {S} : Exec S S := λ s, Some (s, s).
Definition gets {S A} (f : S → A) : Exec S A := λ s, Some (f s, s).
Definition modify {S} (f : S → S) : Exec S unit := λ s, Some (tt, f s).

(** A Rust value that is only available when the index, the checked operation
    or the [expect] it comes from succeeds. *)
Definition need {S A} (o : option A) : Exec S A := λ s,
  match o with
  | Some a => Some (a, s)
  | None => None
  end.

(** Total correctness: [wp m Q s] says that [m] run from [s] does not panic
    and ends in a result and a state related by [Q]. *)
Definition wp {S A} (m : Exec S A) (Q : A → S → Prop) (s : S) : Prop :=
  match m s with
  | Some (a, s') => Q a s'
  | None => False
  end.

Section wp_rules.
Context {S : Type}.
Implicit Types s : S.

Lemma wp_ret {A} (a : A) Q s : Q a s → wp (mret a) Q s.
Proof. done. Qed.

Lemma wp_bind {A B} (m : Exec S A) (f : A → Exec S B) Q s :
  wp m (λ a, wp (f a) Q) s → wp (m ≫= f) Q s.
Proof. unfold wp, mbind, exec_bind. by destruct (m s) as [[a s']|]. Qed.

Lemma wp_mono {A} (m : Exec S A) (Q R : A → S → Prop) s :
  wp m Q s → (∀ a s', Q a s' → R a s') → wp m R s.
Proof. unfold wp. destruct (m s) as [[a s']|]; eauto. Qed.

Lemma wp_get Q s : Q s s → wp get Q s.
Proof. done. Qed.

Lemma wp_gets {A} (f : S → A) Q s : Q (f s) s → wp (gets f) Q s.
Proof. done. Qed.

Lemma wp_modify (f : S → S) Q s : Q tt (f s) → wp (modify f) Q s.
Proof. done. Qed.

Lemma wp_need {A} (o : option A) a Q s : o = Some a → Q a s → wp (need o) Q s.
Proof. by intros ->. Qed.

Lemma wp_run {A} (m : Exec S A) Q s :
  wp m Q s → ∃ a s', m s = Some (a, s') ∧ Q a s'.
Proof. unfold wp. destruct (m s) as [[a s']|]; [eauto|done]. Qed.

Lemma run_wp {A} (m : Exec S A) (Q : A → S → Prop) s a s' :
  m s = Some (a, s') → Q a s' → wp m Q s.
Proof. unfold wp. by intros ->. Qed.
End wp_rules.

(** ** Panics as part of a statement

    [runs m P Q s] says that [m] run from [s] either ends in a result and a
    state related by [Q], or panics while [P] holds. *)
Definition runs {S A} (m : Exec S A) (P : Prop) (Q : A → S → Prop) (s : S) : Prop :=
  match m s with
  | Some (a, s') => Q a s'
  | None => P
  end.

Section runs_rules.
Context {S : Type} (P : Prop).
Implicit Types s : S.

Lemma wp_runs {A} (m : Exec S A) Q s : wp m Q s → runs m P Q s.
Proof. unfold wp, runs. by destruct (m s) as [[a s']|]. Qed.

Lemma runs_mono {A} (m : Exec S A) (Q R : A → S → Prop) s :
  runs m P Q s → (∀ a s', Q a s' → R a s') → runs m P R s.
Proof. unfold runs. destruct (m s) as [[a s']|]; eauto. Qed.

Lemma runs_bind {A B} (m : Exec S A) (f : A → Exec S B) Q s :
  runs m P (λ a, runs (f a) P Q) s → runs (m ≫= f) P Q s.
Proof. unfold runs, mbind, exec_bind. by destruct (m s) as [[a s']|]. Qed.

Lemma runs_wp {A} (m : Exec S A) Q s : runs m False Q s → wp m Q s.
Proof. unfold wp, runs. destruct (m s) as [[a s']|]; by try eauto. Qed.

Lemma runs_need {A} (o : option A) Q s :
  match o with Some a => Q a s | None => P end → runs (need o) P Q s.
Proof. by destruct o. Qed.
End runs_rules.

(** One step of symbolic execution of a monadic goal. *)
Ltac wp_step :=
  match goal with
  | |- wp (_ ≫= _) _ _ => apply wp_bind
  | |- wp (mret _) _ _ => apply wp_ret
  | |- wp get _ _ => apply wp_get
  | |- wp (gets _) _ _ => apply wp_gets
  | |- wp (modify _) _ _ => apply wp_modify
  | |- wp (need (Some _)) _ _ => eapply wp_need; [reflexivity|]
  | |- runs (_ ≫= _) _ _ _ => apply runs_bind
  | |- runs (mret _) _ _ _ => apply wp_runs, wp_ret
  | |- runs get _ _ _ => apply wp_runs, wp_get
  | |- runs (gets _) _ _ _ => apply wp_runs, wp_gets
  | |- runs (modify _) _ _ _ => apply wp_runs, wp_modify
  | |- runs (need (Some _)) _ _ _ => apply runs_need
  end.
Ltac wp_steps := repeat (wp_step; cbn beta iota).

(** ** Machine integers

    [usize] and [u64] values are [Z] in [0 .. 2^64).  With overflow checks on,
    [+] and [-] abort when the exact result does not fit. *)

Definition U64 : Z := 2 ^ 64.
Definition U32 : Z := 2 ^ 32.
Definition u64_max : Z := U64 - 1.

Definition add64 (a b : Z) : option Z := if a + b <? U64 then Some (a + b) else None.
Definition sub64 (a b : Z) : option Z := if b <=? a then Some (a - b) else None.

Definition mul64 (a b : Z) : option Z := if a * b <? U64 then Some (a * b) else None.
Definition sat_sub (a b : Z) : Z := Z.max 0 (a - b).
Definition sat_mul64 (a b : Z) : Z := Z.min (a * b) u64_max.

Lemma mul64_ok a b : a * b < U64 → mul64 a b = Some (a * b).
Proof. unfold mul64. intros. by rewrite (proj2 (Z.ltb_lt _ _)). Qed.

Lemma add64_ok a b : a + b < U64 → add64 a b = Some (a + b).
Proof. unfold add64. intros. by rewrite (proj2 (Z.ltb_lt _ _)). Qed.

Lemma sub64_ok a b : b ≤ a → sub64 a b = Some (a - b).
Proof. unfold sub64. intros. by rewrite (proj2 (Z.leb_le _ _)). Qed.

(** ** Fallible steps

    [?] on a [Result]: stop with the error, or go on with the value.  [inl] is
    [Err], [inr] is [Ok]. *)

Definition try_bind {S E A B} (m : Exec S (E + A)) (f : A → Exec S (E + B)) : Exec S (E + B) :=
  m ≫= λ r, match r with inl e => mret (inl e) | inr a => f a end.

Notation "x ←? m ; k" := (try_bind m (λ x, k))
  (at level 20, m at level 100, k at level 200, right associativity).

Lemma wp_try {S E A B} (m : Exec S (E + A)) (f : A → Exec S (E + B)) Q s :
  wp m (λ r s', match r with inl e => Q (inl e) s' | inr a => wp (f a) Q s' end) s →
  wp (try_bind m f) Q s.
Proof. intros H. apply wp_bind. eapply wp_mono; [exact H|]. by intros [e|a] s'. Qed.

Lemma runs_try {S E A B} (P : Prop) (m : Exec S (E + A)) (f : A → Exec S (E + B)) Q s :
  runs m P (λ r s', match r with inl e => Q (inl e) s' | inr a => runs (f a) P Q s' end) s →
  runs (try_bind m f) P Q s.
Proof. intros H. apply runs_bind. eapply runs_mono; [exact H|]. by intros [e|a] s'. Qed.

(** ** Bits of disjoint fields *)

Lemma lor_shiftl_add x k y : 0 ≤ k → 0 ≤ y < 2 ^ k → Z.lor (Z.shiftl x k) y = x * 2 ^ k + y.
Proof.
  intros Hk Hy. rewrite <- Z.shiftl_mul_pow2 by done.
  assert (Z.land (Z.shiftl x k) y = 0) as H0.
  { apply Z.bits_inj'. intros i Hi. rewrite Z.land_spec, Z.bits_0. destruct (decide (i < k)).
    - by rewrite Z.shiftl_spec_low.
    - rewrite <- (Z.mod_small y (2 ^ k)), Z.mod_pow2_bits_high by lia. apply andb_false_r. }
  by rewrite <- Z.lxor_lor, <- Z.add_nocarry_lxor.
Qed.

(** ** Little-endian bytes *)

Fixpoint le_bytes (n : nat) (v : Z) : list Z :=
  match n with
  | O => []
  | S n' => v mod 256 :: le_bytes n' (v / 256)
  end.

Fixpoint le_val (l : list Z) : Z :=
  match l with
  | [] => 0
  | b :: l' => b + 256 * le_val l'
  end.

Definition is_byte (b : Z) : Prop := 0 ≤ b < 256.

Lemma length_le_bytes n v : length (le_bytes n v) = n.
Proof. revert v. induction n; intros; simpl; [done|]. by rewrite IHn. Qed.

Lemma le_bytes_byte n v : Forall is_byte (le_bytes n v).
Proof.
  revert v. induction n; intros; simpl; constructor; [|done].
  unfold is_byte. pose proof (Z.mod_pos_bound v 256). lia.
Qed.

Lemma le_val_bytes n v : le_val (le_bytes n v) = v mod 256 ^ Z.of_nat n.
Proof.
  revert v. induction n as [|n IH]; intros v; cbn [le_bytes le_val].
  { by rewrite Z.mod_1_r. }
  rewrite IH, Nat2Z.inj_succ, Z.pow_succ_r by lia.
  rewrite (Z.rem_mul_r v 256) by lia. lia.
Qed.

Lemma le_val_range l : Forall is_byte l → 0 ≤ le_val l < 256 ^ Z.of_nat (length l).
Proof.
  induction 1 as [|b l Hb _ IH]; [done|]. cbn [le_val length].
  rewrite Nat2Z.inj_succ, Z.pow_succ_r by lia. unfold is_byte in Hb. lia.
Qed.

Create HintDb fastros.
#[export] Hint Resolve add64_ok sub64_ok mul64_ok : fastros.
