(* ===== verification/Errno.v ===== *)
(** * Error numbers and the system call return convention

    [Errno] is the enumeration of [kernel/src/errno.rs] with its Linux codes and
    messages; [ret] is the encoding of [kernel/src/syscall/mod.rs] of a kernel
    result in the 64-bit return register. *)

From S2P Require Import Prelude.
From Stdlib Require Import Strings.String.

Inductive Errno :=
  | EPERM | ENOENT | ESRCH | EINTR | EIO | ENXIO | E2BIG | ENOEXEC | EBADF | ECHILD
  | EAGAIN | ENOMEM | EACCES | EFAULT | ENOTBLK | EBUSY | EEXIST | EXDEV | ENODEV
  | ENOTDIR | EISDIR | EINVAL | ENFILE | EMFILE | ENOTTY | ETXTBSY | EFBIG | ENOSPC
  | ESPIPE | EROFS | EMLINK | EPIPE | EDOM | ERANGE | EDEADLK | ENAMETOOLONG | ENOLCK
  | ENOSYS | ENOTEMPTY | ELOOP | ENOMSG | ENODATA | ETIME | EPROTO | EBADMSG
  | EOVERFLOW | EILSEQ | ENOTSOCK | EDESTADDRREQ | EMSGSIZE | EPROTOTYPE | ENOPROTOOPT
  | EPROTONOSUPPORT | EOPNOTSUPP | EAFNOSUPPORT | EADDRINUSE | EADDRNOTAVAIL | ENETDOWN
  | ENETUNREACH | ECONNABORTED | ECONNRESET | ENOBUFS | EISCONN | ENOTCONN | ESHUTDOWN
  | ETIMEDOUT | ECONNREFUSED | EHOSTDOWN | EHOSTUNREACH | EALREADY | EINPROGRESS
  | ESTALE | EDQUOT | ECANCELED.

(** [KResult<T>]: [inl] is [Err], [inr] is [Ok]. *)
Definition KResult (A : Type) : Type := Errno + A.

Definition code (e : Errno) : Z :=
  match e with
  | EPERM => 1 | ENOENT => 2 | ESRCH => 3 | EINTR => 4 | EIO => 5 | ENXIO => 6
  | E2BIG => 7 | ENOEXEC => 8 | EBADF => 9 | ECHILD => 10 | EAGAIN => 11 | ENOMEM => 12
  | EACCES => 13 | EFAULT => 14 | ENOTBLK => 15 | EBUSY => 16 | EEXIST => 17
  | EXDEV => 18 | ENODEV => 19 | ENOTDIR => 20 | EISDIR => 21 | EINVAL => 22
  | ENFILE => 23 | EMFILE => 24 | ENOTTY => 25 | ETXTBSY => 26 | EFBIG => 27
  | ENOSPC => 28 | ESPIPE => 29 | EROFS => 30 | EMLINK => 31 | EPIPE => 32 | EDOM => 33
  | ERANGE => 34 | EDEADLK => 35 | ENAMETOOLONG => 36 | ENOLCK => 37 | ENOSYS => 38
  | ENOTEMPTY => 39 | ELOOP => 40 | ENOMSG => 42 | ENODATA => 61 | ETIME => 62
  | EPROTO => 71 | EBADMSG => 74 | EOVERFLOW => 75 | EILSEQ => 84 | ENOTSOCK => 88
  | EDESTADDRREQ => 89 | EMSGSIZE => 90 | EPROTOTYPE => 91 | ENOPROTOOPT => 92
  | EPROTONOSUPPORT => 93 | EOPNOTSUPP => 95 | EAFNOSUPPORT => 97 | EADDRINUSE => 98
  | EADDRNOTAVAIL => 99 | ENETDOWN => 100 | ENETUNREACH => 101 | ECONNABORTED => 103
  | ECONNRESET => 104 | ENOBUFS => 105 | EISCONN => 106 | ENOTCONN => 107
  | ESHUTDOWN => 108 | ETIMEDOUT => 110 | ECONNREFUSED => 111 | EHOSTDOWN => 112
  | EHOSTUNREACH => 113 | EALREADY => 114 | EINPROGRESS => 115 | ESTALE => 116
  | EDQUOT => 122 | ECANCELED => 125
  end.

Definition desc (e : Errno) : string :=
  match e with
  | EPERM => "Operation not permitted"
  | ENOENT => "No such file or directory"
  | ESRCH => "No such process"
  | EINTR => "Interrupted system call"
  | EIO => "Input/output error"
  | ENXIO => "No such device or address"
  | E2BIG => "Argument list too long"
  | ENOEXEC => "Exec format error"
  | EBADF => "Bad file descriptor"
  | ECHILD => "No child processes"
  | EAGAIN => "Resource temporarily unavailable"
  | ENOMEM => "Cannot allocate memory"
  | EACCES => "Permission denied"
  | EFAULT => "Bad address"
  | ENOTBLK => "Block device required"
  | EBUSY => "Device or resource busy"
  | EEXIST => "File exists"
  | EXDEV => "Invalid cross-device link"
  | ENODEV => "No such device"
  | ENOTDIR => "Not a directory"
  | EISDIR => "Is a directory"
  | EINVAL => "Invalid argument"
  | ENFILE => "Too many open files in system"
  | EMFILE => "Too many open files"
  | ENOTTY => "Inappropriate ioctl for device"
  | ETXTBSY => "Text file busy"
  | EFBIG => "File too large"
  | ENOSPC => "No space left on device"
  | ESPIPE => "Illegal seek"
  | EROFS => "Read-only file system"
  | EMLINK => "Too many links"
  | EPIPE => "Broken pipe"
  | EDOM => "Numerical argument out of domain"
  | ERANGE => "Numerical result out of range"
  | EDEADLK => "Resource deadlock avoided"
  | ENAMETOOLONG => "File name too long"
  | ENOLCK => "No locks available"
  | ENOSYS => "Function not implemented"
  | ENOTEMPTY => "Directory not empty"
  | ELOOP => "Too many levels of symbolic links"
  | ENOMSG => "No message of desired type"
  | ENODATA => "No data available"
  | ETIME => "Timer expired"
  | EPROTO => "Protocol error"
  | EBADMSG => "Bad message"
  | EOVERFLOW => "Value too large for defined data type"
  | EILSEQ => "Invalid or incomplete multibyte or wide character"
  | ENOTSOCK => "Socket operation on non-socket"
  | EDESTADDRREQ => "Destination address required"
  | EMSGSIZE => "Message too long"
  | EPROTOTYPE => "Protocol wrong type for socket"
  | ENOPROTOOPT => "Protocol not available"
  | EPROTONOSUPPORT => "Protocol not supported"
  | EOPNOTSUPP => "Operation not supported"
  | EAFNOSUPPORT => "Address family not supported by protocol"
  | EADDRINUSE => "Address already in use"
  | EADDRNOTAVAIL => "Cannot assign requested address"
  | ENETDOWN => "Network is down"
  | ENETUNREACH => "Network is unreachable"
  | ECONNABORTED => "Software caused connection abort"
  | ECONNRESET => "Connection reset by peer"
  | ENOBUFS => "No buffer space available"
  | EISCONN => "Transport endpoint is already connected"
  | ENOTCONN => "Transport endpoint is not connected"
  | ESHUTDOWN => "Cannot send after transport endpoint shutdown"
  | ETIMEDOUT => "Connection timed out"
  | ECONNREFUSED => "Connection refused"
  | EHOSTDOWN => "Host is down"
  | EHOSTUNREACH => "No route to host"
  | EALREADY => "Operation already in progress"
  | EINPROGRESS => "Operation now in progress"
  | ESTALE => "Stale file handle"
  | EDQUOT => "Disk quota exceeded"
  | ECANCELED => "Operation canceled"
  end.

(** The result register: [v as u64], or [-(e as i32 as i64) as u64]. *)
Definition ret (r : KResult Z) : Z :=
  match r with
  | inr v => v mod U64
  | inl e => (- code e) mod U64
  end.

(** The inverse a C library applies: values in [-4095 .. -1] are errors. *)
Definition is_error (rax : Z) : bool := U64 - 4095 <=? rax.

Lemma code_range e : 1 ≤ code e ≤ 125.
Proof. destruct e; simpl; lia. Qed.

Definition all_errnos : list Errno :=
  [EPERM; ENOENT; ESRCH; EINTR; EIO; ENXIO; E2BIG; ENOEXEC; EBADF; ECHILD; EAGAIN;
   ENOMEM; EACCES; EFAULT; ENOTBLK; EBUSY; EEXIST; EXDEV; ENODEV; ENOTDIR; EISDIR;
   EINVAL; ENFILE; EMFILE; ENOTTY; ETXTBSY; EFBIG; ENOSPC; ESPIPE; EROFS; EMLINK;
   EPIPE; EDOM; ERANGE; EDEADLK; ENAMETOOLONG; ENOLCK; ENOSYS; ENOTEMPTY; ELOOP;
   ENOMSG; ENODATA; ETIME; EPROTO; EBADMSG; EOVERFLOW; EILSEQ; ENOTSOCK; EDESTADDRREQ;
   EMSGSIZE; EPROTOTYPE; ENOPROTOOPT; EPROTONOSUPPORT; EOPNOTSUPP; EAFNOSUPPORT;
   EADDRINUSE; EADDRNOTAVAIL; ENETDOWN; ENETUNREACH; ECONNABORTED; ECONNRESET; ENOBUFS;
   EISCONN; ENOTCONN; ESHUTDOWN; ETIMEDOUT; ECONNREFUSED; EHOSTDOWN; EHOSTUNREACH;
   EALREADY; EINPROGRESS; ESTALE; EDQUOT; ECANCELED].

Lemma find_code e : List.find (λ e', code e' =? code e) all_errnos = Some e.
Proof. by destruct e. Qed.

Lemma code_inj e e' : code e = code e' → e = e'.
Proof. intros E. pose proof (find_code e) as H. rewrite E, find_code in H. congruence. Qed.

#[export] Instance Errno_eq_dec : EqDecision Errno.
Proof.
  intros e e'. destruct (decide (code e = code e')) as [E|E].
  - left. by apply code_inj.
  - right. by intros ->.
Defined.

(** System call results can be told apart by the caller: the register is in
    the error window exactly for an error, and two results with the same
    register value are the same result (results below [2^64 - 4095], as every
    length, descriptor and user address is). *)
Theorem ret_decodes (r r' : KResult Z) :
  (∀ v, r = inr v → 0 ≤ v < U64 - 4095) → (∀ v, r' = inr v → 0 ≤ v < U64 - 4095) →
  is_error (ret r) = match r with inl _ => true | inr _ => false end ∧ (ret r = ret r' → r = r').
Proof.
  intros Hr Hr'.
  assert (∀ x : KResult Z, (∀ v, x = inr v → 0 ≤ v < U64 - 4095) →
    ret x = match x with inl e => U64 - code e | inr v => v end) as E.
  { intros [e|v] Hx; simpl.
    - pose proof (code_range e). rewrite <- (Z.mod_add _ 1), Z.mod_small; unfold U64; lia.
    - apply Z.mod_small. specialize (Hx v eq_refl). lia. }
  rewrite (E r Hr), (E r' Hr'). unfold is_error. split.
  - destruct r as [e|v]; [pose proof (code_range e); lia|specialize (Hr v eq_refl); lia].
  - destruct r as [e|v], r' as [e'|v']; intros H;
      try (pose proof (code_range e)); try (pose proof (code_range e'));
      try (specialize (Hr v eq_refl)); try (specialize (Hr' v' eq_refl)); try lia.
    + f_equal. apply code_inj. lia.
    + by subst.
Qed.

Lemma ret_decodes_witness :
  is_error (ret (inl EFAULT)) = true ∧ (ret (inl EFAULT) = ret (inr 7) → @inl Errno Z EFAULT = inr 7).
Proof. apply (ret_decodes (inl EFAULT) (inr 7)); [done|]. intros v [= <-]. unfold U64. lia. Defined.
