(* ===== verification/Text.v ===== *)
(** * Text

    What the code uses of Rust's [char], [str] and number parsing: text is the
    list of its Unicode scalar values, a byte string the list of its bytes. *)

From stdpp Require Import sorting.
From S2P Require Import Prelude.
From Stdlib Require Import Strings.String Strings.Ascii.
Import Datatypes.

(** The text of a literal. *)
Fixpoint txt (s : string) : list Z :=
  match s with
  | EmptyString => []
  | String a s' => Z.of_nat (nat_of_ascii a) :: txt s'
  end.
Arguments txt _%_string_scope.

(** ** Characters *)

Definition between (lo c hi : Z) : bool := (lo <=? c) && (c <=? hi).

Definition is_ascii_digit (c : Z) : bool := between 48 c 57.
Definition is_ascii_upper (c : Z) : bool := between 65 c 90.
Definition is_ascii_lower (c : Z) : bool := between 97 c 122.
Definition is_ascii_hexdigit (c : Z) : bool :=
  is_ascii_digit c || between 65 c 70 || between 97 c 102.
Definition is_ascii_punctuation (c : Z) : bool :=
  between 33 c 47 || between 58 c 64 || between 91 c 96 || between 123 c 126.

(** [char::is_control]: the general category Cc. *)
Definition is_control (c : Z) : bool := between 0 c 31 || between 127 c 159.

(** [char::is_whitespace]: the Unicode property White_Space. *)
Definition is_whitespace (c : Z) : bool :=
  between 9 c 13 || (c =? 32) || (c =? 0x85) || (c =? 0xA0) || (c =? 0x1680) ||
  between 0x2000 c 0x200A || (c =? 0x2028) || (c =? 0x2029) || (c =? 0x202F) ||
  (c =? 0x205F) || (c =? 0x3000).

Definition to_ascii_uppercase (c : Z) : Z := if is_ascii_lower c then c - 32 else c.
Definition to_ascii_lowercase (c : Z) : Z := if is_ascii_upper c then c + 32 else c.

(** ** Strings *)

Fixpoint drop_while (p : Z → bool) (l : list Z) : list Z :=
  match l with
  | [] => []
  | c :: l' => if p c then drop_while p l' else l
  end.

Definition trim (l : list Z) : list Z :=
  reverse (drop_while is_whitespace (reverse (drop_while is_whitespace l))).

Fixpoint strip_prefix (p l : list Z) : option (list Z) :=
  match p, l with
  | [], _ => Some l
  | a :: p', b :: l' => if a =? b then strip_prefix p' l' else None
  | _ :: _, [] => None
  end.

Definition starts_with (p l : list Z) : bool :=
  match strip_prefix p l with Some _ => true | None => false end.

Definition str_eqb (a b : list Z) : bool := bool_decide (a = b).

Definition eq_ignore_ascii_case (a b : list Z) : bool :=
  str_eqb (to_ascii_lowercase <$> a) (to_ascii_lowercase <$> b).

(** [str::split] on a character: always at least one piece. *)
Fixpoint split_char (sep : Z) (l : list Z) : list (list Z) :=
  match l with
  | [] => [[]]
  | c :: l' =>
      if c =? sep then [] :: split_char sep l'
      else match split_char sep l' with
           | [] => [[c]]
           | w :: ws => (c :: w) :: ws
           end
  end.

Lemma split_char_word sep l : Forall (λ c, c ≠ sep) l → split_char sep l = [l].
Proof.
  induction 1 as [|c l Hc _ IH]; simpl; [done|]. by rewrite (proj2 (Z.eqb_neq _ _) Hc), IH.
Qed.

Lemma split_char_cons sep l r :
  Forall (λ c, c ≠ sep) l → split_char sep (l ++ sep :: r) = l :: split_char sep r.
Proof.
  induction 1 as [|c l Hc _ IH]; simpl; [by rewrite Z.eqb_refl|].
  by rewrite (proj2 (Z.eqb_neq _ _) Hc), IH.
Qed.

Lemma strip_prefix_app p l : strip_prefix p (p ++ l) = Some l.
Proof. induction p as [|a p IH]; simpl; [done|]. by rewrite Z.eqb_refl. Qed.

Lemma strip_prefix_Some p l r : strip_prefix p l = Some r → l = p ++ r.
Proof.
  revert l. induction p as [|a p IH]; intros l; [by intros [= ->]|].
  destruct l as [|b l]; simpl; [done|]. destruct (Z.eqb_spec a b) as [->|]; [|done].
  intros ->%IH. done.
Qed.

(** ** Numbers *)

(** [FromStr] of the unsigned integers: an optional [+], then digits only, at
    least one, and the value must fit. *)
Fixpoint parse_digits (max acc : Z) (l : list Z) : option Z :=
  match l with
  | [] => Some acc
  | c :: l' =>
      if is_ascii_digit c then
        let v := acc * 10 + (c - 48) in
        if v <=? max then parse_digits max v l' else None
      else None
  end.

Definition parse_uint (max : Z) (l : list Z) : option Z :=
  match l with
  | [] => None
  | [c] => if (c =? 43) || (c =? 45) then None else parse_digits max 0 l
  | c :: l' => if c =? 43 then parse_digits max 0 l' else parse_digits max 0 l
  end.

(** Decimal formatting; sixty-four digits are more than any 64-bit value has. *)
Fixpoint dec_go (fuel : nat) (n : Z) (acc : list Z) : list Z :=
  match fuel with
  | O => acc
  | S f =>
      let acc' := (48 + n mod 10) :: acc in
      if n <? 10 then acc' else dec_go f (n / 10) acc'
  end.

Definition dec (n : Z) : list Z := dec_go 64 n [].
Arguments dec : simpl never.

Lemma parse_digits_app max a l l' :
  parse_digits max a (l ++ l') = v ← parse_digits max a l; parse_digits max v l'.
Proof.
  revert a. induction l as [|c l IH]; intros a; simpl; [done|].
  destruct (is_ascii_digit c); [|done]. destruct (_ <=? max); [apply IH|done].
Qed.

Lemma is_ascii_digit_mod n : is_ascii_digit (48 + n mod 10) = true.
Proof. unfold is_ascii_digit, between. pose proof (Z.mod_pos_bound n 10). lia. Qed.

(** The digits produced for [n] parse back to [n] and are followed by [acc]. *)
Lemma parse_dec_go max fuel n acc :
  fuel ≠ 0%nat → 0 ≤ n ≤ max → n < 10 ^ Z.of_nat fuel →
  ∃ l, dec_go fuel n acc = l ++ acc ∧ parse_digits max 0 l = Some n ∧
    l ≠ [] ∧ Forall (λ c, is_ascii_digit c = true) l.
Proof.
  revert n acc. induction fuel as [|fuel IH]; intros n acc H0 Hn Hf; [done|].
  cbn [dec_go]. pose proof (Z.mod_pos_bound n 10 ltac:(lia)) as Hm.
  pose proof (Z.div_mod n 10 ltac:(lia)) as Hdm.
  destruct (Z.ltb_spec n 10) as [Hlt|Hge].
  - exists [48 + n mod 10]. split_and!; [done| |done|by repeat constructor; apply is_ascii_digit_mod].
    cbn [parse_digits]. rewrite is_ascii_digit_mod, Z.mod_small, (proj2 (Z.leb_le _ _)) by lia.
    f_equal. lia.
  - rewrite Nat2Z.inj_succ, Z.pow_succ_r in Hf by lia.
    destruct (IH (n / 10) ((48 + n mod 10) :: acc)) as (l & Hl & Hp & Hne & Hd);
      [intros ->; simpl in Hf; lia|lia|lia|].
    exists (l ++ [48 + n mod 10]). rewrite Hl, <- app_assoc. split_and!; [done| | |].
    + rewrite parse_digits_app, Hp. cbn [mbind option_bind parse_digits].
      rewrite is_ascii_digit_mod, (proj2 (Z.leb_le _ _)) by lia. f_equal. lia.
    + by destruct l.
    + apply Forall_app. split; [done|]. repeat constructor. apply is_ascii_digit_mod.
Qed.

Lemma parse_uint_dec max n : 0 ≤ n ≤ max → n < 2 ^ 64 → parse_uint max (dec n) = Some n.
Proof.
  intros Hn Hb. destruct (parse_dec_go max 64 n []) as (l & Hl & Hp & Hne & Hd); [done|done| |].
  { assert (2 ^ 64 < 10 ^ 64) by (vm_compute; reflexivity). lia. }
  unfold dec. rewrite Hl, app_nil_r. unfold parse_uint.
  destruct l as [|c l]; [done|]. apply Forall_cons in Hd as [Hc Hd].
  unfold is_ascii_digit, between in Hc.
  destruct l; rewrite (proj2 (Z.eqb_neq c 43)) by lia; [|done].
  by rewrite (proj2 (Z.eqb_neq c 45)) by lia.
Qed.

(** ** UTF-8 *)

Definition cont (l : list Z) : bool :=
  match l with b :: _ => between 0x80 b 0xBF | [] => false end.

(** One step of [String::from_utf8_lossy] on a byte string that starts with
    [b]: whether the next character is well formed, and how many of the bytes
    after [b] it (or the ill-formed sequence that is replaced) takes. *)
Definition utf8_step (b : Z) (l : list Z) : bool * nat :=
  if b <? 0x80 then (true, 0%nat)
  else if between 0xC2 b 0xDF then if cont l then (true, 1%nat) else (false, 0%nat)
  else if between 0xE0 b 0xEF then
    let ok := match l with
      | c :: _ => ((b =? 0xE0) && between 0xA0 c 0xBF) ||
                  (between 0xE1 b 0xEC && between 0x80 c 0xBF) ||
                  ((b =? 0xED) && between 0x80 c 0x9F) ||
                  (between 0xEE b 0xEF && between 0x80 c 0xBF)
      | [] => false
      end in
    if ok then if cont (drop 1 l) then (true, 2%nat) else (false, 1%nat) else (false, 0%nat)
  else if between 0xF0 b 0xF4 then
    let ok := match l with
      | c :: _ => ((b =? 0xF0) && between 0x90 c 0xBF) ||
                  (between 0xF1 b 0xF3 && between 0x80 c 0xBF) ||
                  ((b =? 0xF4) && between 0x80 c 0x8F)
      | [] => false
      end in
    if ok then
      if cont (drop 1 l) then if cont (drop 2 l) then (true, 3%nat) else (false, 2%nat)
      else (false, 1%nat)
    else (false, 0%nat)
  else (false, 0%nat).

(** U+FFFD in UTF-8. *)
Definition REPLACEMENT : list Z := [0xEF; 0xBF; 0xBD].

(** [String::from_utf8_lossy], as a list of characters, each its UTF-8 bytes. *)
Fixpoint utf8_chars (fuel : nat) (l : list Z) : list (list Z) :=
  match fuel, l with
  | S f, b :: l' =>
      let '(ok, n) := utf8_step b l' in
      (if ok then b :: take n l' else REPLACEMENT) :: utf8_chars f (drop n l')
  | _, _ => []
  end.

Definition from_utf8_lossy (l : list Z) : list (list Z) := utf8_chars (length l) l.

(** [&s[..n]] on text given by the bytes of its characters: a panic unless [n]
    falls between two characters (or at an end) of [s]. *)
Fixpoint str_take (n : nat) (s : list (list Z)) : option (list (list Z)) :=
  match n, s with
  | O, _ => Some []
  | _, [] => None
  | _, c :: s' => if (length c <=? n)%nat then cons c <$> str_take (n - length c) s' else None
  end.

Fixpoint str_len (s : list (list Z)) : nat :=
  match s with
  | [] => 0
  | c :: s' => length c + str_len s'
  end.

(** Characters of one byte: every cut is between two characters. *)
Lemma str_take_ascii n s :
  Forall (λ c, length c = 1%nat) s → (n ≤ str_len s)%nat → str_take n s = Some (take n s).
Proof.
  revert n. induction s as [|c s IH]; intros n Hs Hn; (destruct n as [|n]; [done|]); simpl in Hn; [lia|].
  apply Forall_cons in Hs as [Hc Hs]. cbn [str_take]. rewrite Hc in *. cbn [Nat.leb].
  rewrite IH; [|done|lia]. simpl. by rewrite Nat.sub_0_r.
Qed.

Lemma utf8_chars_ascii fuel l :
  Forall (λ b, 0 ≤ b < 128) l → Forall (λ c, length c = 1%nat) (utf8_chars fuel l).
Proof.
  revert l. induction fuel as [|fuel IH]; intros l Hl; [constructor|].
  destruct Hl as [|b l Hb Hl]; [constructor|]. cbn [utf8_chars]. unfold utf8_step.
  rewrite (proj2 (Z.ltb_lt b 0x80)) by lia. constructor; [done|]. by apply IH.
Qed.

(** ** Order *)

(** Strings are ordered by their characters, as their UTF-8 bytes are. *)
Fixpoint str_leb (a b : list Z) : bool :=
  match a, b with
  | [], _ => true
  | _ :: _, [] => false
  | x :: a', y :: b' => (x <? y) || ((x =? y) && str_leb a' b')
  end.

Definition str_le (a b : list Z) : Prop := str_leb a b = true.

#[global] Instance str_le_dec : RelDecision str_le.
Proof. intros a b. unfold str_le. apply _. Defined.

Definition sort (l : list (list Z)) : list (list Z) := merge_sort str_le l.

#[global] Instance str_le_trans : Transitive str_le.
Proof.
  unfold str_le. intros a. induction a as [|x a IH]; intros [|y b] [|z c]; simpl; try done.
  rewrite !orb_true_iff, !andb_true_iff, !Z.ltb_lt, !Z.eqb_eq.
  intros [?|[-> Hab]] [?|[-> Hbc]]; try (left; lia). right. split; [done|]. by eapply IH.
Qed.

#[global] Instance str_le_total : Total str_le.
Proof.
  unfold str_le. intros a. induction a as [|x a IH]; intros [|y b]; simpl; try (by (left + right)).
  rewrite !orb_true_iff, !andb_true_iff, !Z.ltb_lt, !Z.eqb_eq.
  destruct (Z.lt_trichotomy x y) as [?|[->|?]]; [tauto| |tauto]. destruct (IH b); tauto.
Qed.

