(* ===== verification/UAccess.v ===== *)
(** * Copying across the kernel/user boundary

    Models [kernel/src/uaccess.rs] and [kernel/src/usermode.rs] over an
    interface to memory: the address space of the current process (its
    [verify], [read] and [write], of [kernel/src/mm/aspace.rs]) and the kernel
    memory that native callers may name directly. *)

From S2P Require Import Prelude Errno.

Definition PHYS_OFFSET : Z := 0xFFFF800000000000.
Definition USER_START : Z := 0x10000.
Definition USER_END : Z := 0x7FFFFFFFF000.

(** What the copies rely on.  [has_aspace] is [current_aspace().is_some()];
    reading and writing user memory may fault pages in, so both return a new
    memory.  [as_read_part] is what a read that fails has put at the front of the
    destination by then: the pages before the one that could not be resolved. *)
Class Memory (M : Type) := {
  has_aspace : M → bool;
  as_verify : M → Z → Z → bool → bool;
  as_read : M → Z → Z → KResult (list Z) * M;
  as_read_part : M → Z → Z → list Z;
  as_write : M → Z → list Z → KResult unit * M;
  k_read : M → Z → Z → list Z;
  k_write : M → Z → list Z → M;
}.

Class MemoryLaws (M : Type) `{Memory M} := {
  as_read_length m a n l m' : 0 ≤ n → as_read m a n = (inr l, m') →
    Z.of_nat (length l) = n ∧ Forall is_byte l;
  k_read_length m a n : 0 ≤ n →
    Z.of_nat (length (k_read m a n)) = n ∧ Forall is_byte (k_read m a n);
  as_read_aspace m a n : has_aspace (as_read m a n).2 = has_aspace m;
  as_write_aspace m a l : has_aspace (as_write m a l).2 = has_aspace m;
}.

Section UAccess.
Context {M : Type} `{Memory M}.

(** [usize::checked_add]. *)
Definition checked_add (a b : Z) : option Z := if a + b <? U64 then Some (a + b) else None.

Definition is_kernel (addr : Z) : bool := PHYS_OFFSET <=? addr.

Definition current_is_user (m : M) : bool := has_aspace m.

Definition check_user_range (m : M) (addr len : Z) (write : bool) : KResult unit :=
  if len =? 0 then inr tt
  else if negb (has_aspace m) then inl EFAULT
  else if as_verify m addr len write then inr tt else inl EFAULT.

Definition check (m : M) (addr len : Z) (write : bool) : KResult unit :=
  if len =? 0 then inr tt
  else match checked_add addr len with
  | None => inl EFAULT
  | Some end_ =>
      if is_kernel addr then if current_is_user m then inl EFAULT else inr tt
      else if (addr <? USER_START) || (USER_END <? end_) then inl EFAULT
      else check_user_range m addr len write
  end.

Definition copy_to (addr : Z) (src : list Z) : Exec M (KResult unit) := λ m,
  match check m addr (Z.of_nat (length src)) true with
  | inl e => Some (inl e, m)
  | inr _ =>
      if is_kernel addr then Some (inr tt, k_write m addr src)
      else if negb (has_aspace m) then Some (inl EFAULT, m)
      else Some (as_write m addr src)
  end.

Definition copy_from (addr len : Z) : Exec M (KResult (list Z)) := λ m,
  match check m addr len false with
  | inl e => Some (inl e, m)
  | inr _ =>
      if is_kernel addr then Some (inr (k_read m addr len), m)
      else if negb (has_aspace m) then Some (inl EFAULT, m)
      else Some (as_read m addr len)
  end.

(** The front of the destination after a [copy_from] that failed. *)
Definition copied_before (m : M) (addr len : Z) : list Z :=
  match check m addr len false with
  | inl _ => []
  | inr _ => if is_kernel addr || negb (has_aspace m) then [] else as_read_part m addr len
  end.

(** Objects of [n] bytes, little-endian integers here. *)
Definition write_obj (n : nat) (addr v : Z) : Exec M (KResult unit) :=
  copy_to addr (le_bytes n v).

Definition read_obj (n : nat) (addr : Z) : Exec M (KResult Z) :=
  l ←? copy_from addr (Z.of_nat n); mret (inr (le_val l)).

(** A pointer range the checks let through. *)
Lemma check_ok m addr len write :
  len ≠ 0 → check m addr len write = inr tt →
  addr + len < U64 ∧
  (PHYS_OFFSET ≤ addr ∧ has_aspace m = false ∨
   USER_START ≤ addr ∧ addr + len ≤ USER_END ∧ has_aspace m = true ∧
   as_verify m addr len write = true).
Proof.
  intros Hlen. unfold check, check_user_range, checked_add, is_kernel, current_is_user.
  rewrite (proj2 (Z.eqb_neq _ _) Hlen).
  destruct (Z.ltb_spec (addr + len) U64); [|done].
  destruct (Z.leb_spec PHYS_OFFSET addr).
  { destruct (has_aspace m); [done|]. auto. }
  destruct (Z.ltb_spec addr USER_START); [done|].
  destruct (Z.ltb_spec USER_END (addr + len)); [done|]. cbn [orb].
  destruct (has_aspace m); [|done]. cbn [negb].
  destruct (as_verify m addr len write); [|done]. auto 10.
Qed.

Context `{!MemoryLaws M}.

(** Reading an object: no panic, no change of the kind of context, and on
    success the address range is one the caller may name. *)
Lemma wp_read_obj n addr m :
  n ≠ 0%nat →
  wp (read_obj n addr) (λ r m', has_aspace m' = has_aspace m ∧
    match r with
    | inl _ => True
    | inr v => 0 ≤ v < 256 ^ Z.of_nat n ∧ addr + Z.of_nat n < U64 ∧
        (has_aspace m = true → USER_START ≤ addr ∧ addr + Z.of_nat n ≤ USER_END)
    end) m.
Proof.
  intros Hn. unfold read_obj. apply wp_try. unfold wp, copy_from.
  destruct (check m addr (Z.of_nat n) false) as [e|[]] eqn:Hc; [done|].
  apply check_ok in Hc as [Hov Hc]; [|lia].
  destruct (is_kernel addr) eqn:Hk.
  - simpl. destruct (k_read_length m addr (Z.of_nat n)) as [Hl Hb]; [lia|].
    apply le_val_range in Hb. rewrite Hl in Hb. unfold is_kernel, PHYS_OFFSET in *.
    unfold USER_END in Hc. split_and!; [done|lia..|]. intros. destruct Hc as [[_ ?]|?]; [congruence|lia].
  - destruct (has_aspace m) eqn:Ha; [|done]. cbn [negb].
    pose proof (as_read_aspace m addr (Z.of_nat n)) as Hkeep.
    destruct (as_read m addr (Z.of_nat n)) as [[e|l] m'] eqn:Hr; simpl in *; [by rewrite Hkeep|].
    apply as_read_length in Hr as [Hl Hb]; [|lia]. apply le_val_range in Hb. rewrite Hl in Hb.
    unfold is_kernel, PHYS_OFFSET in *. split_and!; [by rewrite Hkeep|lia..|].
    intros _. destruct Hc as [[_ ?]|?]; [done|lia].
Qed.

Lemma wp_write_obj n addr v m :
  n ≠ 0%nat →
  wp (write_obj n addr v) (λ r m', has_aspace m = true → has_aspace m' = true ∧
    match r with
    | inl _ => True
    | inr _ => USER_START ≤ addr ∧ addr + Z.of_nat n ≤ USER_END
    end) m.
Proof.
  intros Hn. unfold write_obj, wp, copy_to. rewrite length_le_bytes.
  destruct (check m addr (Z.of_nat n) true) as [e|[]] eqn:Hc; [done|].
  apply check_ok in Hc as [Hov Hc]; [|lia].
  destruct (is_kernel addr) eqn:Hk.
  - intros Ha. unfold is_kernel, PHYS_OFFSET, USER_END in *. destruct Hc as [[_ ?]|?]; [congruence|lia].
  - destruct (has_aspace m) eqn:Ha; [|done]. cbn [negb].
    pose proof (as_write_aspace m addr (le_bytes n v)) as Hkeep.
    destruct (as_write m addr (le_bytes n v)) as [[e|[]] m'] eqn:Hr; simpl in *; [by rewrite Hkeep|].
    intros _. split; [by rewrite Hkeep|]. unfold PHYS_OFFSET in Hc.
    destruct Hc as [[_ ?]|?]; [done|lia].
Qed.

(** A user program cannot reach kernel memory through a system call
    pointer: copying to or from any range that is not inside the user half
    fails with [EFAULT] and leaves all memory as it was. *)
Theorem user_pointer_confined m addr src len :
  has_aspace m = true → 0 ≤ addr → len = Z.of_nat (length src) → len ≠ 0 →
  ¬ (USER_START ≤ addr ∧ addr + len ≤ USER_END) →
  copy_to addr src m = Some (inl EFAULT, m) ∧ copy_from addr len m = Some (inl EFAULT, m).
Proof.
  intros Ha Haddr -> Hlen Hout.
  assert (∀ w, check m addr (Z.of_nat (length src)) w = inl EFAULT) as Hc.
  { intros w. destruct (check m addr (Z.of_nat (length src)) w) as [e|[]] eqn:E.
    - revert E. unfold check, check_user_range, is_kernel. repeat case_match; congruence.
    - apply check_ok in E; [|done]. destruct E as [_ [[_ E]|E]]; [congruence|tauto]. }
  unfold copy_to, copy_from. by rewrite !Hc.
Qed.

End UAccess.

(** ** A concrete memory: one readable and writable user page, no faults *)

Module PageMem.

Definition mem : Type := gmap Z Z.

Definition base : Z := 0x20000.

Definition bytes (m : mem) (a n : Z) : list Z :=
  (λ i, default 0 (m !! (a + i)) mod 256) <$> seqZ 0 n.

Fixpoint put (m : mem) (a : Z) (l : list Z) : mem :=
  match l with
  | [] => m
  | b :: l' => put (<[a := b]> m) (a + 1) l'
  end.

#[global] Instance page_memory : Memory mem := {
  has_aspace _ := true;
  as_verify _ a n _ := (base <=? a) && (a + n <=? base + 4096);
  as_read m a n := (inr (bytes m a n), m);
  as_read_part _ _ _ := [];
  as_write m a l := (inr tt, put m a l);
  k_read m a n := bytes m a n;
  k_write m a l := put m a l;
}.

Lemma bytes_ok m a n :
  0 ≤ n → Z.of_nat (length (bytes m a n)) = n ∧ Forall is_byte (bytes m a n).
Proof.
  intros Hn. unfold bytes. rewrite length_fmap, length_seqZ. split; [lia|].
  apply Forall_fmap, Forall_true. intros i. unfold compose, is_byte.
  pose proof (Z.mod_pos_bound (default 0 (m !! (a + i))) 256). lia.
Qed.

#[global] Instance page_memory_laws : MemoryLaws mem.
Proof.
  split; simpl; [|intros; by apply bytes_ok|done|done].
  intros m a n l m' Hn [= <- <-]. by apply bytes_ok.
Qed.

End PageMem.

Lemma user_pointer_confined_witness :
  copy_to PHYS_OFFSET [1; 2] (∅ : PageMem.mem) = Some (inl EFAULT, ∅) ∧
  copy_from PHYS_OFFSET 2 (∅ : PageMem.mem) = Some (inl EFAULT, ∅).
Proof.
  apply (user_pointer_confined (∅ : PageMem.mem) PHYS_OFFSET [1; 2] 2); [done|done|done|done|].
  unfold PHYS_OFFSET, USER_END. lia.
Defined.
