(* ===== verification/Seccomp.v ===== *)
(** * seccomp filters and capabilities

    Models [kernel/src/syscall/seccomp.rs] (the classic BPF interpreter, the
    stacking of filters, installation from user memory, capability names) and
    the system calls of [kernel/src/syscall/proc_sys.rs] and
    [kernel/src/syscall/mod.rs] that change or consult a process's privileges:
    [prctl], [seccomp], [capget], [capset], the check before every call, and
    inheritance by a child. *)

From S2P Require Import Prelude Errno Text UAccess.
From Stdlib Require Import Strings.String.
Import Datatypes.

(** ** Capabilities *)

Definition CAP_NET_BIND_SERVICE : Z := 10.
Definition CAP_NET_RAW : Z := 13.
Definition CAP_SYS_ADMIN : Z := 21.
Definition CAP_SYS_BOOT : Z := 22.
Definition CAP_LAST : Z := 40.
Definition CAP_ALL : Z := Z.shiftl 1 (CAP_LAST + 1) - 1.

Definition default_caps (uid : Z) : Z := if uid =? 0 then CAP_ALL else 0.

Definition cap_by_name (name : list Z) : option Z :=
  let n := to_ascii_uppercase <$> trim name in
  let n := default n (strip_prefix (txt "CAP_") n) in
  if str_eqb n (txt "NET_BIND_SERVICE") then Some CAP_NET_BIND_SERVICE
  else if str_eqb n (txt "NET_RAW") then Some CAP_NET_RAW
  else if str_eqb n (txt "SYS_ADMIN") then Some CAP_SYS_ADMIN
  else if str_eqb n (txt "SYS_BOOT") then Some CAP_SYS_BOOT
  else if str_eqb n (txt "CHOWN") then Some 0
  else if str_eqb n (txt "DAC_OVERRIDE") then Some 1
  else if str_eqb n (txt "KILL") then Some 5
  else if str_eqb n (txt "SETGID") then Some 6
  else if str_eqb n (txt "SETUID") then Some 7
  else if str_eqb n (txt "NET_ADMIN") then Some 12
  else if str_eqb n (txt "SYS_CHROOT") then Some 18
  else if str_eqb n (txt "SYS_PTRACE") then Some 19
  else if str_eqb n (txt "MKNOD") then Some 27
  else parse_uint (U32 - 1) n.

Definition cap_name (bit : Z) : option (list Z) :=
  if bit =? 0 then Some (txt "CAP_CHOWN")
  else if bit =? 1 then Some (txt "CAP_DAC_OVERRIDE")
  else if bit =? 5 then Some (txt "CAP_KILL")
  else if bit =? 6 then Some (txt "CAP_SETGID")
  else if bit =? 7 then Some (txt "CAP_SETUID")
  else if bit =? 12 then Some (txt "CAP_NET_ADMIN")
  else if bit =? CAP_NET_BIND_SERVICE then Some (txt "CAP_NET_BIND_SERVICE")
  else if bit =? CAP_NET_RAW then Some (txt "CAP_NET_RAW")
  else if bit =? 18 then Some (txt "CAP_SYS_CHROOT")
  else if bit =? 19 then Some (txt "CAP_SYS_PTRACE")
  else if bit =? CAP_SYS_ADMIN then Some (txt "CAP_SYS_ADMIN")
  else if bit =? CAP_SYS_BOOT then Some (txt "CAP_SYS_BOOT")
  else if bit =? 27 then Some (txt "CAP_MKNOD")
  else None.

Definition has_bit (mask bit : Z) : bool := negb (Z.land mask (Z.shiftl 1 bit) =? 0).

Definition cap_names (mask : Z) : list (list Z) :=
  (λ bit, default (txt "CAP_" ++ dec bit) (cap_name bit)) <$>
    List.filter (has_bit mask) (seqZ 0 (CAP_LAST + 1)).

(** [parse_caps] of [shell/cmds/fastman/mod.rs]: [None] is the panic of an
    overflowing shift, [inl] the unknown name. *)
Fixpoint parse_caps_loop (parts : list (list Z)) (mask : Z) : option (list Z + Z) :=
  match parts with
  | [] => Some (inr mask)
  | part :: rest =>
      let part := trim part in
      if bool_decide (part = []) then parse_caps_loop rest mask
      else if eq_ignore_ascii_case part (txt "all") then Some (inr CAP_ALL)
      else match cap_by_name part with
           | None => Some (inl part)
           | Some bit =>
               if bit <? 64 then parse_caps_loop rest (Z.lor mask (Z.shiftl 1 bit)) else None
           end
  end.

Definition parse_caps (s : list Z) : option (list Z + Z) :=
  parse_caps_loop (split_char 44 s) 0.

(** ** The filter machine *)

Record SockFilter := mkIns { icode : Z; jt : Z; jf : Z; k : Z }.

Record Filters := mkFilters { strict : bool; progs : list (list SockFilter) }.

Definition Filters_default : Filters := mkFilters false [].

Definition AUDIT_ARCH_X86_64 : Z := 0xC000003E.
Definition SECCOMP_SET_MODE_STRICT : Z := 0.
Definition SECCOMP_SET_MODE_FILTER : Z := 1.

Definition RET_ACTION_FULL : Z := 0xffff0000.
Definition RET_DATA : Z := 0x0000ffff.
Definition RET_KILL_PROCESS : Z := 0x80000000.
Definition RET_KILL_THREAD : Z := 0x00000000.
Definition RET_TRAP : Z := 0x00030000.
Definition RET_ERRNO : Z := 0x00050000.
Definition RET_TRACE : Z := 0x7ff00000.
Definition RET_LOG : Z := 0x7ffc0000.
Definition RET_ALLOW : Z := 0x7fff0000.

Inductive Action :=
  | Allow
  | ErrnoAct (e : Z)
  | Trap
  | KillThread
  | KillProcess.

(** [Data::new]: the 64 bytes of [struct seccomp_data]. *)
Definition data_new (nr ip : Z) (args : list Z) : list Z :=
  le_bytes 4 nr ++ le_bytes 4 AUDIT_ARCH_X86_64 ++ le_bytes 8 ip ++ (args ≫= le_bytes 8).

Definition word (buf : list Z) (off : Z) : option Z :=
  if Z.of_nat (length buf) <? off + 4 then None
  else Some (le_val (take 4 (drop (Z.to_nat off) buf))).

Definition BPF_LD : Z := 0x00.
Definition BPF_LDX : Z := 0x01.
Definition BPF_ALU : Z := 0x04.
Definition BPF_JMP : Z := 0x05.
Definition BPF_RET : Z := 0x06.
Definition BPF_MISC : Z := 0x07.
Definition BPF_ABS : Z := 0x20.
Definition BPF_IMM : Z := 0x00.
Definition BPF_MEM : Z := 0x60.
Definition BPF_LEN : Z := 0x80.
Definition BPF_JA : Z := 0x00.
Definition BPF_JEQ : Z := 0x10.
Definition BPF_JGT : Z := 0x20.
Definition BPF_JGE : Z := 0x30.
Definition BPF_JSET : Z := 0x40.
Definition BPF_ADD : Z := 0x00.
Definition BPF_SUB : Z := 0x10.
Definition BPF_AND : Z := 0x50.
Definition BPF_OR : Z := 0x40.
Definition BPF_LSH : Z := 0x60.
Definition BPF_RSH : Z := 0x70.
Definition BPF_X : Z := 0x08.
Definition BPF_A : Z := 0x10.
Definition BPF_CLASS : Z := 0x07.

(** The scratch memory, which no instruction of the interpreter writes. *)
Definition scratch : list Z := replicate 16 0.

Definition load_mem (mem : list Z) (off : Z) : Z :=
  if off <? Z.of_nat (length mem) then default 0 (mem !! Z.to_nat off) else 0.

(** The value an [LD] or [LDX] loads, [None] for a kill. *)
Definition load_abs (modes : Z) (buf mem : list Z) (kk : Z) : option Z :=
  if modes =? BPF_ABS then word buf kk
  else if modes =? BPF_IMM then Some kk
  else if modes =? BPF_MEM then Some (load_mem mem kk)
  else if modes =? BPF_LEN then Some 64
  else None.

Definition load_idx (modes : Z) (mem : list Z) (kk : Z) : option Z :=
  if modes =? BPF_IMM then Some kk
  else if modes =? BPF_MEM then Some (load_mem mem kk)
  else if modes =? BPF_LEN then Some 64
  else None.

Definition alu (op a val : Z) : Z :=
  if op =? BPF_ADD then (a + val) mod U32
  else if op =? BPF_SUB then (a - val) mod U32
  else if op =? BPF_AND then Z.land a val
  else if op =? BPF_OR then Z.lor a val
  else if op =? BPF_LSH then Z.shiftl a (val mod 32) mod U32
  else if op =? BPF_RSH then Z.shiftr a (val mod 32)
  else a.

Definition jump_cond (op a val : Z) : bool :=
  if op =? BPF_JEQ then a =? val
  else if op =? BPF_JGT then val <? a
  else if op =? BPF_JGE then val <=? a
  else if op =? BPF_JSET then negb (Z.land a val =? 0)
  else false.

(** One turn of the interpreter's loop. *)
Inductive outcome :=
  | Done (r : Z)
  | Next (a x pc : Z).

Definition step (ins : SockFilter) (buf mem : list Z) (a x pc : Z) : outcome :=
  let class := Z.land (icode ins) BPF_CLASS in
  let modes := Z.land (icode ins) 0xe0 in
  let src := Z.land (icode ins) 0x08 in
  let op := Z.land (icode ins) 0xf0 in
  let val := if src =? BPF_X then x else k ins in
  if class =? BPF_LD then
    match load_abs modes buf mem (k ins) with
    | Some a' => Next a' x (pc + 1)
    | None => Done RET_KILL_PROCESS
    end
  else if class =? BPF_LDX then
    match load_idx modes mem (k ins) with
    | Some x' => Next a x' (pc + 1)
    | None => Done RET_KILL_PROCESS
    end
  else if class =? BPF_ALU then Next (alu op a val) x (pc + 1)
  else if class =? BPF_JMP then
    if op =? BPF_JA then Next a x ((pc + (1 + k ins)) mod U64)
    else Next a x ((pc + (1 + (if jump_cond op a val then jt ins else jf ins))) mod U64)
  else if class =? BPF_RET then
    Done (if Z.land (icode ins) 0x18 =? BPF_A then a else k ins)
  else if class =? BPF_MISC then Next a x (pc + 1)
  else Done RET_KILL_PROCESS.

(** The loop; [left] is the number of turns before [steps > 4096]. *)
Fixpoint run_loop (left : nat) (prog : list SockFilter) (buf mem : list Z) (a x pc : Z) : Z :=
  if pc <? Z.of_nat (length prog) then
    match left with
    | O => RET_KILL_PROCESS
    | S left' =>
        match prog !! Z.to_nat pc with
        | None => RET_KILL_PROCESS
        | Some ins =>
            match step ins buf mem a x pc with
            | Done r => r
            | Next a' x' pc' => run_loop left' prog buf mem a' x' pc'
            end
        end
    end
  else RET_KILL_PROCESS.

Definition run_prog (prog : list SockFilter) (buf : list Z) : Z :=
  run_loop 4096 prog buf scratch 0 0 0.

Definition more_severe (a b : Z) : Z :=
  if (a =? RET_KILL_PROCESS) || (b =? RET_KILL_PROCESS) then RET_KILL_PROCESS
  else if Z.land a RET_ACTION_FULL <=? Z.land b RET_ACTION_FULL then a else b.

Definition classify (r : Z) : Action :=
  let act := Z.land r RET_ACTION_FULL in
  if act =? RET_KILL_PROCESS then KillProcess
  else if act =? RET_KILL_THREAD then KillThread
  else if act =? RET_TRAP then Trap
  else if act =? RET_ERRNO then ErrnoAct (Z.land r RET_DATA)
  else Allow.

Fixpoint decide_loop (ps : list (list SockFilter)) (buf : list Z) (best : option Z) : option Z :=
  match ps with
  | [] => best
  | prog :: ps' =>
      let r := run_prog prog buf in
      decide_loop ps' buf (Some match best with None => r | Some cur => more_severe cur r end)
  end.

Definition decide_call (f : Filters) (nr ip : Z) (args : list Z) : Action :=
  if strict f then
    if (nr =? 0) || (nr =? 1) || (nr =? 15) || (nr =? 60) || (nr =? 231) then Allow
    else KillProcess
  else
    match decide_loop (progs f) (data_new nr ip args) None with
    | None => Allow
    | Some r => classify r
    end.

(** ** The privileges of a process *)

Record Proc := mkProc {
  caps : Z;
  no_new_privs : bool;
  seccomp : option Filters;
  seccomp_active : bool;
  comm : list (list Z);
}.

Definition with_caps c p := mkProc c (no_new_privs p) (seccomp p) (seccomp_active p) (comm p).
Definition with_nnp b p := mkProc (caps p) b (seccomp p) (seccomp_active p) (comm p).
Definition with_seccomp f p := mkProc (caps p) (no_new_privs p) f true (comm p).
Definition with_comm n p := mkProc (caps p) (no_new_privs p) (seccomp p) (seccomp_active p) n.

Definition has_cap (p : Proc) (cap : Z) : bool :=
  if CAP_LAST <? cap then false else has_bit (caps p) cap.

(** [Process::set_comm]: a panic when byte 15 is inside a character. *)
Definition set_comm (name : list (list Z)) (p : Proc) : option Proc :=
  c ← str_take (str_len name `min` 15) name; Some (with_comm c p).

(** A child made by [Spawn::inherit] and [spawn]. *)
Definition inherit (p : Proc) : Proc :=
  mkProc (caps p) (no_new_privs p) (seccomp p)
    match seccomp p with Some _ => true | None => false end (comm p).

Section Calls.
Context {M : Type} `{Memory M}.

(** The calling process and the memory it names. *)
Record World := mkWorld { w_proc : Proc; w_mem : M }.

Definition on_mem {A} (m : Exec M A) : Exec World A := λ w,
  match m (w_mem w) with
  | Some (a, m') => Some (a, mkWorld (w_proc w) m')
  | None => None
  end.

Definition set_proc (p : Proc) : Exec World unit := modify (λ w, mkWorld p (w_mem w)).

(** The instructions of the program at [filter_ptr], from index [i] on. *)
Fixpoint read_insns (filter_ptr i : Z) (n : nat) : Exec World (KResult (list SockFilter)) :=
  match n with
  | O => mret (inr [])
  | S n' =>
      base ← need (add64 filter_ptr (i * 8));
      c ←? on_mem (read_obj 2 base);
      a2 ← need (add64 base 2);
      t ←? on_mem (read_obj 1 a2);
      a3 ← need (add64 base 3);
      f ←? on_mem (read_obj 1 a3);
      a4 ← need (add64 base 4);
      kk ←? on_mem (read_obj 4 a4);
      rest ←? read_insns filter_ptr (i + 1) n';
      mret (inr (mkIns c t f kk :: rest))
  end.

Definition read_fprog (prog_ptr : Z) : Exec World (KResult (list SockFilter)) :=
  if prog_ptr =? 0 then mret (inl EFAULT)
  else
    len ←? on_mem (read_obj 2 prog_ptr);
    if (len =? 0) || (4096 <? len) then mret (inl EINVAL)
    else
      a ← need (add64 prog_ptr 8);
      filter_ptr ←? on_mem (read_obj 8 a);
      if filter_ptr =? 0 then mret (inl EFAULT)
      else read_insns filter_ptr 0 (Z.to_nat len).

Definition install_filter (prog_ptr : Z) : Exec World (KResult Z) :=
  p ← gets w_proc;
  if negb (no_new_privs p) && negb (has_cap p CAP_SYS_ADMIN) then mret (inl EACCES)
  else
    prog ←? read_fprog prog_ptr;
    p ← gets w_proc;
    let filters := match seccomp p with
      | Some f => mkFilters (strict f) (progs f)
      | None => Filters_default
      end in
    _ ← set_proc (with_seccomp (Some (mkFilters (strict filters) (progs filters ++ [prog]))) p);
    mret (inr 0).

Definition set_strict : Exec World (KResult Z) :=
  p ← gets w_proc;
  let ps := match seccomp p with Some f => progs f | None => [] end in
  _ ← set_proc (with_seccomp (Some (mkFilters true ps)) p);
  mret (inr 0).

Definition PR_SET_NO_NEW_PRIVS : Z := 38.
Definition PR_GET_NO_NEW_PRIVS : Z := 39.
Definition PR_SET_SECCOMP : Z := 22.
Definition PR_GET_SECCOMP : Z := 21.
Definition PR_CAPBSET_READ : Z := 23.
Definition PR_CAPBSET_DROP : Z := 24.
Definition PR_SET_NAME : Z := 15.
Definition PR_GET_NAME : Z := 16.
Definition SECCOMP_MODE_STRICT : Z := 1.
Definition SECCOMP_MODE_FILTER : Z := 2.

(** The bytes before the first zero. *)
Fixpoint until_nul (l : list Z) : list Z :=
  match l with
  | [] => []
  | b :: l' => if b =? 0 then [] else b :: until_nul l'
  end.

(** The buffer [copy_from] fills, zero where a copy that fails has not come to. *)
Definition name_buf (part : list Z) (r : KResult (list Z)) : list Z :=
  match r with inr l => l | inl _ => take 16 (part ++ replicate 16 0) end.

Definition prctl (option arg2 arg3 : Z) : Exec World (KResult Z) :=
  p ← gets w_proc;
  if option =? PR_SET_NO_NEW_PRIVS then
    _ ← (if arg2 =? 1 then set_proc (with_nnp true p) else mret tt);
    mret (inr 0)
  else if option =? PR_GET_NO_NEW_PRIVS then mret (inr (Z.b2z (no_new_privs p)))
  else if option =? PR_SET_SECCOMP then
    if arg2 =? SECCOMP_MODE_STRICT then set_strict
    else if arg2 =? SECCOMP_MODE_FILTER then install_filter arg3
    else mret (inl EINVAL)
  else if option =? PR_GET_SECCOMP then mret (inr (if seccomp_active p then 2 else 0))
  else if option =? PR_CAPBSET_READ then
    if CAP_LAST <? arg2 then mret (inl EINVAL)
    else mret (inr (Z.land (Z.shiftr (caps p) arg2) 1))
  else if option =? PR_CAPBSET_DROP then
    if CAP_LAST <? arg2 then mret (inl EINVAL)
    else
      _ ← set_proc (with_caps (Z.land (caps p) (u64_max - Z.shiftl 1 arg2)) p);
      mret (inr 0)
  else if option =? PR_SET_NAME then
    m ← gets w_mem;
    r ← on_mem (copy_from arg2 16);
    p' ← need (set_comm (from_utf8_lossy (until_nul (name_buf (copied_before m arg2 16) r))) p);
    _ ← set_proc p';
    mret (inr 0)
  else if option =? PR_GET_NAME then
    let name := take 16 (mjoin (comm p) ++ replicate 16 0) in
    _ ←? on_mem (copy_to arg2 name);
    mret (inr 0)
  else mret (inr 0).

Definition seccomp_call (op args : Z) : Exec World (KResult Z) :=
  if op =? SECCOMP_SET_MODE_STRICT then set_strict
  else if op =? SECCOMP_SET_MODE_FILTER then install_filter args
  else mret (inl EINVAL).

(** The three words written for one half of the capability set. *)
Definition write_cap_word (base v : Z) : Exec World (KResult unit) :=
  _ ←? on_mem (write_obj 4 base v);
  a4 ← need (add64 base 4);
  _ ←? on_mem (write_obj 4 a4 v);
  a8 ← need (add64 base 8);
  on_mem (write_obj 4 a8 v).

Definition capget (hdrp datap : Z) : Exec World (KResult Z) :=
  if hdrp =? 0 then mret (inl EFAULT)
  else
    p ← gets w_proc;
    if datap =? 0 then mret (inr 0)
    else
      let lo := Z.land (caps p) 0xffffffff in
      let hi := Z.shiftr (caps p) 32 mod U32 in
      _ ←? write_cap_word datap lo;
      base ← need (add64 datap 12);
      _ ←? write_cap_word base hi;
      mret (inr 0).

Definition capset (hdrp datap : Z) : Exec World (KResult Z) :=
  if (hdrp =? 0) || (datap =? 0) then mret (inl EFAULT)
  else
    e0 ←? on_mem (read_obj 4 datap);
    a ← need (add64 datap 12);
    e1 ←? on_mem (read_obj 4 a);
    p ← gets w_proc;
    let requested := Z.lor e0 (Z.shiftl e1 32) in
    _ ← set_proc (with_caps (Z.land requested (caps p)) p);
    mret (inr 0).

(** The privilege-related calls of a process; [CFork] goes on as the child. *)
Inductive call :=
  | CPrctl (option arg2 arg3 : Z)
  | CSeccomp (op args : Z)
  | CCapget (hdrp datap : Z)
  | CCapset (hdrp datap : Z)
  | CFork.

Definition do_call (c : call) : Exec World Z :=
  match c with
  | CPrctl o a2 a3 => r ← prctl o a2 a3; mret (ret r)
  | CSeccomp op a => r ← seccomp_call op a; mret (ret r)
  | CCapget h d => r ← capget h d; mret (ret r)
  | CCapset h d => r ← capset h d; mret (ret r)
  | CFork => p ← gets w_proc; _ ← set_proc (inherit p); mret 0
  end.

Fixpoint do_calls (cs : list call) : Exec World unit :=
  match cs with
  | [] => mret tt
  | c :: cs' => _ ← do_call c; do_calls cs'
  end.

End Calls.
Arguments World : clear implicits.

(** [seccomp_check]: run the call, answer [rax] instead (after raising
    [SIGSYS] or not), or end the process. *)
Inductive verdict :=
  | Run
  | Answer (rax : Z)
  | Signalled (rax : Z)
  | Killed.

Definition seccomp_check (p : Proc) (nr : Z) (a : list Z) (rip : Z) : verdict :=
  if negb (seccomp_active p) then Run
  else match seccomp p with
  | None => Run
  | Some filters =>
      match decide_call filters nr rip a with
      | Allow => Run
      | ErrnoAct e => Answer ((- e) mod U64)
      | Trap => Signalled ((- code ENOSYS) mod U64)
      | KillThread | KillProcess => Killed
      end
  end.
