(* ===== verification/SeccompProofs.v ===== *)
(** * seccomp and capabilities: theorems

    The filter interpreter against a step-unbounded semantics, the precedence
    of stacked filters, and the monotonicity of a process's privileges under
    every sequence of the calls that touch them. *)

From S2P Require Import Prelude Errno Text UAccess Seccomp.
From Stdlib Require Import Strings.String.
Import Datatypes.

(** ** The interpreter *)

(** Instruction fields within their widths. *)
Definition ins_ok (i : SockFilter) : Prop :=
  0 ≤ jt i < 256 ∧ 0 ≤ jf i < 256 ∧ 0 ≤ k i < U32.

(** Execution with no bound on the number of steps. *)
Inductive bpf_eval (prog : list SockFilter) (buf mem : list Z) : Z → Z → Z → Z → Prop :=
  | eval_end a x pc :
      Z.of_nat (length prog) ≤ pc → bpf_eval prog buf mem a x pc RET_KILL_PROCESS
  | eval_done a x pc ins r :
      prog !! Z.to_nat pc = Some ins → step ins buf mem a x pc = Done r →
      bpf_eval prog buf mem a x pc r
  | eval_next a x pc ins a' x' pc' r :
      prog !! Z.to_nat pc = Some ins → step ins buf mem a x pc = Next a' x' pc' →
      bpf_eval prog buf mem a' x' pc' r → bpf_eval prog buf mem a x pc r.

(** Jumps only go forward, and never wrap around. *)
Lemma step_forward ins buf mem a x pc a' x' pc' :
  ins_ok ins → 0 ≤ pc < 2 ^ 32 → step ins buf mem a x pc = Next a' x' pc' → pc < pc'.
Proof.
  intros (Ht & Hf & Hk) Hpc. unfold step. repeat case_match; intros [= <- <- <-]; try lia;
    rewrite Z.mod_small; unfold U64, U32 in *; lia.
Qed.

Lemma run_loop_eval left prog buf mem a x pc :
  Forall ins_ok prog → Z.of_nat (length prog) < 2 ^ 32 → 0 ≤ pc →
  Z.of_nat (length prog) - pc ≤ Z.of_nat left →
  bpf_eval prog buf mem a x pc (run_loop left prog buf mem a x pc).
Proof.
  intros Hok Hlen. revert a x pc. induction left as [|left IH]; intros a x pc Hpc Hleft; cbn [run_loop];
    (destruct (Z.ltb_spec pc (Z.of_nat (length prog))) as [Hlt|Hge]; [|by constructor]); [lia|].
  destruct (lookup_lt_is_Some_2 prog (Z.to_nat pc)) as [ins Hins]; [lia|]. rewrite Hins.
  destruct (step ins buf mem a x pc) as [r|a' x' pc'] eqn:Hs; [by eapply eval_done|].
  eapply eval_next; [done..|]. eapply Forall_lookup_1 in Hok as Hi; [|done].
  apply step_forward in Hs; [|done|lia]. apply IH; lia.
Qed.

(** The 4096-step limit of the interpreter is never what decides: on every
    program the kernel accepts (at most 4096 instructions) [run_prog] computes
    the value of unbounded execution. *)
Theorem run_prog_unbounded prog buf :
  Forall ins_ok prog → (length prog ≤ 4096)%nat →
  bpf_eval prog buf scratch 0 0 0 (run_prog prog buf).
Proof. intros Hok Hlen. apply run_loop_eval; [done|lia..]. Qed.

(** Allow [openat] (257), answer EPERM to everything else. *)
Definition demo_filter : list SockFilter :=
  [mkIns 0x20 0 0 0; mkIns 0x15 0 1 257; mkIns 0x06 0 0 RET_ALLOW; mkIns 0x06 0 0 (RET_ERRNO + 1)].

Lemma run_prog_unbounded_witness :
  bpf_eval demo_filter (data_new 257 0 [0; 0; 0; 0; 0; 0]) scratch 0 0 0
    (run_prog demo_filter (data_new 257 0 [0; 0; 0; 0; 0; 0])).
Proof.
  apply (run_prog_unbounded demo_filter).
  - unfold demo_filter, ins_ok. repeat constructor; simpl; unfold U32, RET_ALLOW, RET_ERRNO; lia.
  - simpl. lia.
Defined.

Lemma step_done ins buf mem a x pc r :
  step ins buf mem a x pc = Done r → Z.land (icode ins) BPF_CLASS ≠ BPF_RET → r = RET_KILL_PROCESS.
Proof.
  unfold step. intros H Hne. revert H. rewrite (proj2 (Z.eqb_neq _ _) Hne).
  repeat case_match; congruence.
Qed.

Lemma run_loop_no_ret left prog buf mem a x pc :
  Forall (λ i, Z.land (icode i) BPF_CLASS ≠ BPF_RET) prog →
  run_loop left prog buf mem a x pc = RET_KILL_PROCESS.
Proof.
  intros Hno. revert a x pc. induction left as [|left IH]; intros a x pc;
    cbn [run_loop]; (destruct (pc <? Z.of_nat (length prog)); [|done]); [done|].
  destruct (prog !! Z.to_nat pc) as [ins|] eqn:Hins; [|done].
  destruct (step ins buf mem a x pc) as [r|a' x' pc'] eqn:Hs; [|apply IH].
  apply (step_done _ _ _ _ _ _ _ Hs). by eapply Forall_lookup_1 in Hno.
Qed.

(** A filter that cannot return fails closed: a program in which no
    [BPF_RET] instruction occurs kills the process, whatever it does. *)
Theorem run_prog_fails_closed prog buf :
  Forall (λ i, Z.land (icode i) BPF_CLASS ≠ BPF_RET) prog →
  run_prog prog buf = RET_KILL_PROCESS.
Proof. apply run_loop_no_ret. Qed.

Lemma run_prog_fails_closed_witness :
  run_prog [mkIns 0x20 0 0 0; mkIns 0x15 0 1 257] (data_new 1 0 [0; 0; 0; 0; 0; 0]) = RET_KILL_PROCESS.
Proof. apply run_prog_fails_closed. repeat constructor; vm_compute; discriminate. Defined.

(** ** The data a filter sees *)

Lemma le_bytes_8_split v : le_bytes 8 v = le_bytes 4 v ++ le_bytes 4 (v / 2 ^ 32).
Proof.
  cbn [le_bytes app]. rewrite !Z.div_div by lia. reflexivity.
Qed.

Lemma word_at off p q v :
  off = Z.of_nat (length p) → word (p ++ le_bytes 4 v ++ q) off = Some (v mod U32).
Proof.
  intros ->. unfold word. rewrite !length_app, length_le_bytes.
  destruct (Z.ltb_spec (Z.of_nat (length p + (4 + length q))) (Z.of_nat (length p) + 4)); [lia|].
  rewrite Nat2Z.id, drop_app_length, take_app_length' by (by rewrite length_le_bytes).
  by rewrite le_val_bytes.
Qed.

Lemma length_bind_le args : length (args ≫= le_bytes 8) = (8 * length args)%nat.
Proof.
  induction args as [|a args IH]; [done|]. cbn [mbind list_bind].
  rewrite length_app, length_le_bytes. change (list_bind _ _ (le_bytes 8) args) with (args ≫= le_bytes 8).
  rewrite IH. simpl. lia.
Qed.

(** Filters see the Linux [seccomp_data] layout: the word at offset 0 is
    the call number, at 4 the architecture, and the two words at [16 + 8i] are
    the low and high half of argument [i]. *)
Theorem data_layout nr ip args i v :
  args !! i = Some v →
  word (data_new nr ip args) 0 = Some (nr mod U32) ∧
  word (data_new nr ip args) 4 = Some AUDIT_ARCH_X86_64 ∧
  word (data_new nr ip args) (16 + 8 * Z.of_nat i) = Some (v mod U32) ∧
  word (data_new nr ip args) (20 + 8 * Z.of_nat i) = Some ((v / U32) mod U32).
Proof.
  intros Hi. unfold data_new. split_and!.
  - apply (word_at 0 []). done.
  - apply (word_at 4 (le_bytes 4 nr) _ AUDIT_ARCH_X86_64). done.
  - apply list_elem_of_split_length in Hi as (l1 & l2 & -> & ->).
    rewrite bind_app, bind_cons, (le_bytes_8_split v), <- app_assoc.
    set (p := le_bytes 4 nr ++ le_bytes 4 AUDIT_ARCH_X86_64 ++ le_bytes 8 ip ++ (l1 ≫= le_bytes 8)).
    pose proof (word_at (16 + 8 * Z.of_nat (length l1)) p
      (le_bytes 4 (v / 2 ^ 32) ++ (l2 ≫= le_bytes 8)) v) as Hw.
    unfold p in Hw. rewrite <- !app_assoc in Hw. apply Hw.
    rewrite !length_app, !length_le_bytes, length_bind_le. lia.
  - apply list_elem_of_split_length in Hi as (l1 & l2 & -> & ->).
    rewrite bind_app, bind_cons, (le_bytes_8_split v), <- app_assoc.
    set (p := le_bytes 4 nr ++ le_bytes 4 AUDIT_ARCH_X86_64 ++ le_bytes 8 ip ++
      (l1 ≫= le_bytes 8) ++ le_bytes 4 v).
    pose proof (word_at (20 + 8 * Z.of_nat (length l1)) p (l2 ≫= le_bytes 8) (v / 2 ^ 32)) as Hw.
    unfold p in Hw. rewrite <- !app_assoc in Hw. apply Hw.
    rewrite !length_app, !length_le_bytes, length_bind_le. lia.
Qed.

Lemma data_layout_witness :
  word (data_new 257 0 [7; 8; 9; 10; 11; 12]) 0 = Some (257 mod U32) ∧
  word (data_new 257 0 [7; 8; 9; 10; 11; 12]) 4 = Some AUDIT_ARCH_X86_64 ∧
  word (data_new 257 0 [7; 8; 9; 10; 11; 12]) (16 + 8 * Z.of_nat 2) = Some (9 mod U32) ∧
  word (data_new 257 0 [7; 8; 9; 10; 11; 12]) (20 + 8 * Z.of_nat 2) = Some ((9 / U32) mod U32).
Proof. apply (data_layout 257 0 [7; 8; 9; 10; 11; 12] 2 9). reflexivity. Defined.

(** ** Precedence of stacked filters *)

Definition severity (a : Action) : Z :=
  match a with
  | Allow => 0
  | ErrnoAct _ => 1
  | Trap => 2
  | KillThread => 3
  | KillProcess => 4
  end.

(** Results with an action Linux defines. *)
Definition defined (r : Z) : Prop :=
  Z.land r RET_ACTION_FULL ∈
    [RET_KILL_PROCESS; RET_KILL_THREAD; RET_TRAP; RET_ERRNO; RET_TRACE; RET_LOG; RET_ALLOW].

Lemma defined_cases r :
  defined r →
  r = RET_KILL_PROCESS ∨ r ≠ RET_KILL_PROCESS ∧
  ∃ act, Z.land r RET_ACTION_FULL = act ∧
    (act = RET_KILL_PROCESS ∨ act = RET_KILL_THREAD ∨ act = RET_TRAP ∨ act = RET_ERRNO ∨
     act = RET_TRACE ∨ act = RET_LOG ∨ act = RET_ALLOW).
Proof.
  intros H. destruct (decide (r = RET_KILL_PROCESS)); [by left|right].
  split; [done|]. eexists. split; [done|]. unfold defined in H. set_solver.
Qed.

(** A process kill with data in its low half, which [more_severe] does not
    recognise. *)
Definition kill_with_data (r : Z) : bool :=
  (Z.land r RET_ACTION_FULL =? RET_KILL_PROCESS) && negb (r =? RET_KILL_PROCESS).

(** How the results rank: by the severity of what they decide, but for a process
    kill with data, which comes last. *)
Definition rank (r : Z) : Z := if kill_with_data r then -1 else severity (classify r).

Definition action_severity (act : Z) : Z :=
  if act =? RET_KILL_PROCESS then 4
  else if act =? RET_KILL_THREAD then 3
  else if act =? RET_TRAP then 2
  else if act =? RET_ERRNO then 1
  else 0.

Lemma severity_classify r : severity (classify r) = action_severity (Z.land r RET_ACTION_FULL).
Proof. unfold classify, action_severity. by repeat case_match. Qed.

(** [more_severe] keeps one of the two results, and the one that ranks higher. *)
Lemma more_severe_max a b :
  defined a → defined b →
  (more_severe a b = a ∨ more_severe a b = b) ∧ rank (more_severe a b) = rank a `max` rank b.
Proof.
  intros Ha%defined_cases Hb%defined_cases. unfold more_severe, rank, kill_with_data. rewrite !severity_classify.
  destruct Ha as [->|(Hna & xa & Ea & Ha)], Hb as [->|(Hnb & xb & Eb & Hb)].
  - by split; [left|].
  - rewrite Z.eqb_refl. cbn [orb]. split; [by left|]. rewrite Eb, (proj2 (Z.eqb_neq _ _) Hnb).
    by destruct_or! Hb; rewrite Hb.
  - rewrite Z.eqb_refl, orb_true_r. split; [by right|]. rewrite Ea, (proj2 (Z.eqb_neq _ _) Hna).
    by destruct_or! Ha; rewrite Ha.
  - rewrite (proj2 (Z.eqb_neq _ _) Hna), (proj2 (Z.eqb_neq _ _) Hnb). cbn [orb]. rewrite Ea, Eb.
    split; [by destruct (xa <=? xb); auto|].
    destruct (Z.leb_spec xa xb); rewrite ?Ea, ?Eb, ?(proj2 (Z.eqb_neq _ _) Hna), ?(proj2 (Z.eqb_neq _ _) Hnb); clear Hna Hnb Ea Eb;
      destruct_or! Ha; destruct_or! Hb; subst xa xb; first [reflexivity|exfalso; by vm_compute in *].
Qed.

Section decide.
Context (buf : list Z).

Lemma decide_loop_max ps r :
  defined r → Forall (λ p, defined (run_prog p buf)) ps →
  ∃ best, decide_loop ps buf (Some r) = Some best ∧
    (best = r ∨ ∃ p, p ∈ ps ∧ best = run_prog p buf) ∧
    rank r ≤ rank best ∧ ∀ p, p ∈ ps → rank (run_prog p buf) ≤ rank best.
Proof.
  revert r. induction ps as [|p ps IH]; intros r Hr Hps.
  { exists r. split_and!; [done|by left|done|]. by intros p Hp%elem_of_nil. }
  apply Forall_cons in Hps as [Hp Hps]. cbn [decide_loop].
  destruct (more_severe_max r (run_prog p buf) Hr Hp) as [Hor Hmax].
  destruct (IH (more_severe r (run_prog p buf))) as (best & Hb & Hin & Hge & Hall).
  { by destruct Hor as [->| ->]. }
  { done. }
  exists best. split_and!; [done| |lia|].
  - destruct Hin as [->|(q & Hq & ->)]; [|right; exists q; set_solver].
    destruct Hor as [->| ->]; [by left|right; exists p; set_solver].
  - intros q [->|Hq]%elem_of_cons; [lia|by apply Hall].
Qed.

End decide.

(** C24. How stacked filters combine when every program returns a defined
    action: the decision is the one of a program that ranks highest.  The ranks
    are Linux's precedence (process kill, thread kill, trap, errno, allow) with
    one exception: a process kill whose low half is not zero ranks below every
    other result, and so decides only when every program returns one. *)
Theorem decide_most_severe ps nr ip args :
  let result p := run_prog p (data_new nr ip args) in
  ps ≠ [] → Forall (λ p, defined (result p)) ps →
  ∃ p, p ∈ ps ∧ decide_call (mkFilters false ps) nr ip args = classify (result p) ∧
    ∀ q, q ∈ ps → rank (result q) ≤ rank (result p).
Proof.
  cbv zeta. set (buf := data_new nr ip args). intros Hne Hps. unfold decide_call. cbn [strict progs]. fold buf.
  destruct ps as [|p ps]; [done|]. apply Forall_cons in Hps as [Hp Hps]. cbn [decide_loop].
  destruct (decide_loop_max buf ps _ Hp Hps) as (best & -> & Hin & Hge & Hall).
  assert (∀ q, q ∈ p :: ps → rank (run_prog q buf) ≤ rank best) as Htop by (intros q [->|Hq]%elem_of_cons; [done|by apply Hall]).
  destruct Hin as [->|(q & Hq & ->)]; [exists p|exists q]; split_and!; set_solver.
Qed.

(** The filter of the example, a trap and a process kill with data. *)
Definition demo_stack : list (list SockFilter) :=
  [demo_filter; [mkIns 0x06 0 0 RET_TRAP]; [mkIns 0x06 0 0 (RET_KILL_PROCESS + 1)]].

Lemma decide_most_severe_witness :
  let result p := run_prog p (data_new 257 0 [0; 0; 0; 0; 0; 0]) in
  ∃ p, p ∈ demo_stack ∧ decide_call (mkFilters false demo_stack) 257 0 [0; 0; 0; 0; 0; 0] = classify (result p) ∧
    ∀ q, q ∈ demo_stack → rank (result q) ≤ rank (result p).
Proof.
  apply (decide_most_severe demo_stack 257 0 [0; 0; 0; 0; 0; 0]); [done|].
  repeat constructor; apply list_elem_of_In; vm_compute; tauto.
Defined.

(** A process kill that carries data in its low half loses to a later
    [RET_ALLOW]: [more_severe] compares the whole value with
    [RET_KILL_PROCESS] and then takes the numerically smaller action. *)
Lemma kill_process_with_data_loses :
  decide_call (mkFilters false [[mkIns 0x06 0 0 (RET_KILL_PROCESS + 1)]; [mkIns 0x06 0 0 RET_ALLOW]])
    1 0 [0; 0; 0; 0; 0; 0] = Allow ∧
  classify (RET_KILL_PROCESS + 1) = KillProcess.
Proof. by vm_compute. Qed.

(** An undefined action below [RET_TRAP] outranks a trap and is then allowed. *)
Lemma undefined_action_beats_trap :
  decide_call (mkFilters false [[mkIns 0x06 0 0 RET_TRAP]; [mkIns 0x06 0 0 0x10000]])
    1 0 [0; 0; 0; 0; 0; 0] = Allow.
Proof. by vm_compute. Qed.

(** Entering strict mode makes a process forget what its filters denied. *)
Lemma strict_forgets_filters :
  decide_call (mkFilters false [[mkIns 0x06 0 0 (RET_ERRNO + 1)]]) 1 0 [0; 0; 0; 0; 0; 0] = ErrnoAct 1 ∧
  decide_call (mkFilters true [[mkIns 0x06 0 0 (RET_ERRNO + 1)]]) 1 0 [0; 0; 0; 0; 0; 0] = Allow.
Proof. by vm_compute. Qed.

(** ** Capability names *)

Definition cap_label (bit : Z) : list Z := default (txt "CAP_" ++ dec bit) (cap_name bit).

Lemma cap_label_parses bit : 0 ≤ bit ≤ CAP_LAST → cap_by_name (cap_label bit) = Some bit.
Proof.
  intros Hb. assert (forallb (λ b, bool_decide (cap_by_name (cap_label b) = Some b))
    (seqZ 0 (CAP_LAST + 1)) = true) as E by (vm_compute; reflexivity).
  rewrite forallb_forall in E. apply (bool_decide_eq_true_1 _), E.
  apply list_elem_of_In, elem_of_seqZ. lia.
Qed.

(** Printing and parsing capabilities agree: parsing the names printed for
    a mask gives back exactly its set bits, lowest first, named or not. *)
Theorem cap_names_roundtrip mask :
  cap_by_name <$> cap_names mask =
  Some <$> List.filter (has_bit mask) (seqZ 0 (CAP_LAST + 1)).
Proof.
  unfold cap_names. rewrite <- list_fmap_compose. apply list_fmap_ext. intros i bit Hi.
  apply (cap_label_parses bit). apply list_elem_of_lookup_2, list_elem_of_In, filter_In in Hi as [Hi _].
  apply list_elem_of_In, elem_of_seqZ in Hi. lia.
Qed.

(** A capability number of 64 or more makes [--cap-add] panic. *)
Lemma parse_caps_panics : parse_caps (txt "NET_RAW,64") = None.
Proof. by vm_compute. Qed.

(** ** Privileges only shrink *)

Definition prog_ok (prog : list SockFilter) : Prop := (length prog ≤ 4096)%nat ∧ Forall ins_ok prog.

Record proc_ok (p : Proc) : Prop := {
  po_active : seccomp_active p = true ↔ is_Some (seccomp p);
  po_progs f : seccomp p = Some f → Forall prog_ok (progs f);
  po_caps : 0 ≤ caps p < U64;
}.

(** [p'] has no capability that [p] lacks, keeps [no_new_privs] and strict
    mode, and keeps every installed program. *)
Record tighter (p p' : Proc) : Prop := {
  ti_caps : Z.land (caps p') (caps p) = caps p';
  ti_nnp : no_new_privs p = true → no_new_privs p' = true;
  ti_filters f : seccomp p = Some f →
    ∃ f', seccomp p' = Some f' ∧ (strict f = true → strict f' = true) ∧ progs f `prefix_of` progs f';
}.

#[export] Instance tighter_preorder : PreOrder tighter.
Proof.
  split.
  - intros p. split; [apply Z.land_diag|done|]. intros f Hf. by exists f.
  - intros p q r [C1 N1 F1] [C2 N2 F2]. split; [|auto|].
    + by rewrite <- C2, <- Z.land_assoc, C1.
    + intros f (g & Hg & Hs & Hp)%F1. apply F2 in Hg as (h & Hh & Hs' & Hp').
      exists h. split_and!; [done|auto|by etrans].
Qed.

Section calls.
Context {M : Type} `{HM : Memory M, HL : !MemoryLaws M}.
Implicit Types w : World M.

Lemma wp_on_mem {A} (m : Exec M A) Q w :
  wp m (λ a m', Q a (mkWorld (w_proc w) m')) (w_mem w) → wp (on_mem m) Q w.
Proof using Type. unfold wp, on_mem. by destruct (m (w_mem w)) as [[a m']|]. Qed.

(** States of a user process that is the same as in [w] but for memory. *)
Definition same w w' : Prop := w_proc w' = w_proc w ∧ has_aspace (w_mem w') = true.

Lemma wp_user_read {A} n addr (f : Z → Exec (World M) (KResult A)) Q w :
  n ≠ 0%nat → has_aspace (w_mem w) = true →
  (∀ e w', same w w' → Q (inl e) w') →
  (∀ v w', same w w' → 0 ≤ v < 256 ^ Z.of_nat n → USER_START ≤ addr →
     addr + Z.of_nat n ≤ USER_END → wp (f v) Q w') →
  wp (v ←? on_mem (read_obj n addr); f v) Q w.
Proof.
  intros Hn Ha Herr Hok. apply wp_try, wp_on_mem. eapply wp_mono; [by apply wp_read_obj|].
  intros [e|v] m' [Hk Hv]; [apply Herr; by split; simpl; [|rewrite Hk]|].
  destruct Hv as (Hv & _ & Hr). destruct (Hr Ha). apply Hok; [by split; simpl; [|rewrite Hk]|done..].
Qed.

Lemma wp_user_write {A} n addr v (f : Exec (World M) (KResult A)) Q w :
  n ≠ 0%nat → has_aspace (w_mem w) = true →
  (∀ e w', same w w' → Q (inl e) w') →
  (∀ w', same w w' → USER_START ≤ addr → addr + Z.of_nat n ≤ USER_END → wp f Q w') →
  wp (_ ←? on_mem (write_obj n addr v); f) Q w.
Proof.
  intros Hn Ha Herr Hok. apply wp_try, wp_on_mem. eapply wp_mono; [by apply wp_write_obj|].
  intros [e|[]] m' Hw; destruct (Hw Ha) as [Hk Hr]; [by apply Herr|].
  destruct Hr. by apply Hok.
Qed.

Lemma wp_add64 {S A} a b (f : Z → Exec S A) Q s :
  a + b < U64 → wp (f (a + b)) Q s → wp (x ← need (add64 a b); f x) Q s.
Proof using Type. intros Hab Hf. apply wp_bind. by eapply wp_need; [apply add64_ok|]. Qed.

Lemma same_trans w w1 w2 : same w w1 → same w1 w2 → same w w2.
Proof using Type. intros [E1 _] [E2 ?]. split; [congruence|done]. Qed.

(** What reading a program leaves: the process, and a well-formed program. *)
Definition read_post (n : Z) w (r : KResult (list SockFilter)) w' : Prop :=
  same w w' ∧ match r with
  | inl _ => True
  | inr l => Z.of_nat (length l) = n ∧ Forall ins_ok l
  end.

Lemma read_post_err n w w1 e w2 : same w w1 → same w1 w2 → read_post n w (inl e) w2.
Proof using Type. intros. split; [by eapply same_trans|done]. Qed.

Lemma wp_read_insns fp i n w :
  has_aspace (w_mem w) = true → fp + i * 8 < U64 →
  wp (read_insns fp i n) (read_post (Z.of_nat n) w) w.
Proof.
  revert i w. induction n as [|n IH]; intros i w Ha Hb; cbn [read_insns].
  { apply wp_ret. split; [done|]. split; [done|constructor]. }
  apply wp_add64; [done|].
  apply wp_user_read; [done|done|intros; by split|]. intros c w1 S1 Hc Hlo Hhi.
  change (Z.of_nat 2) with 2 in *. unfold USER_END in *.
  apply wp_add64; [unfold U64; lia|].
  apply wp_user_read; [done|apply S1|intros; by eapply read_post_err|]. intros t w2 S2 Ht _ _.
  pose proof (same_trans _ _ _ S1 S2) as S12.
  apply wp_add64; [unfold U64; lia|].
  apply wp_user_read; [done|apply S12|intros; by eapply read_post_err|]. intros f w3 S3 Hf _ _.
  pose proof (same_trans _ _ _ S12 S3) as S13.
  apply wp_add64; [unfold U64; lia|].
  apply wp_user_read; [done|apply S13|intros; by eapply read_post_err|]. intros kk w4 S4 Hk _ Hhi4.
  pose proof (same_trans _ _ _ S13 S4) as S14. change (Z.of_nat 4) with 4 in *. unfold USER_END in *.
  apply wp_try. eapply wp_mono; [apply (IH (i + 1)); [apply S14|unfold U64; lia]|].
  intros [e|rest] w5 [S5 Hrest]; [by eapply read_post_err|]. apply wp_ret.
  split; [by eapply same_trans|]. destruct Hrest as [Hl Hr]. split; [simpl; lia|].
  constructor; [|done]. unfold ins_ok, U32. simpl. split_and!; lia.
Qed.

Lemma wp_read_fprog ptr w :
  has_aspace (w_mem w) = true →
  wp (read_fprog ptr) (λ r w', same w w' ∧
    match r with inl _ => True | inr prog => prog_ok prog end) w.
Proof.
  intros Ha. unfold read_fprog. destruct (ptr =? 0); [by apply wp_ret|].
  apply wp_user_read; [done|done|intros; by split|]. intros len w1 S1 Hlen Hlo Hhi.
  change (Z.of_nat 2) with 2 in *. unfold USER_END in *.
  destruct (Z.eqb_spec len 0); [by apply wp_ret|]. destruct (Z.ltb_spec 4096 len); [by apply wp_ret|].
  cbn [orb]. apply wp_add64; [unfold U64; lia|].
  apply wp_user_read; [done|apply S1|intros; by split; [eapply same_trans|]|].
  intros fp w2 S2 Hfp _ _. pose proof (same_trans _ _ _ S1 S2) as S12.
  destruct (fp =? 0); [by apply wp_ret|].
  eapply wp_mono; [apply (wp_read_insns fp 0)|].
  - apply S12.
  - change (256 ^ Z.of_nat 8) with U64 in Hfp. lia.
  - intros [e|prog] w3 [S3 Hp]; (split; [by eapply same_trans|]); [done|].
    destruct Hp as [Hl Hp]. split; [lia|done].
Qed.

(** The states a privilege call may leave. *)
Definition good w w' : Prop :=
  has_aspace (w_mem w') = true ∧ proc_ok (w_proc w') ∧ tighter (w_proc w) (w_proc w').

Lemma same_good w w' : proc_ok (w_proc w) → same w w' → good w w'.
Proof using Type. intros Hp [E Ha]. split_and!; [done|by rewrite E|by rewrite E]. Qed.

Lemma good_refl w : has_aspace (w_mem w) = true → proc_ok (w_proc w) → good w w.
Proof using Type. intros. by split_and!. Qed.

(** Replacing the process's filters by tighter ones. *)
Lemma good_filters w w' s ps :
  proc_ok (w_proc w) → same w w' → Forall prog_ok ps →
  (∀ f, seccomp (w_proc w) = Some f → (strict f = true → s = true) ∧ progs f `prefix_of` ps) →
  good w (mkWorld (with_seccomp (Some (mkFilters s ps)) (w_proc w')) (w_mem w')).
Proof using Type.
  intros [Ha Hp Hc] [E Has] Hps Hf. rewrite E. split_and!; [done| |].
  - split; [done| |done]. intros f [= <-]. done.
  - split; [apply Z.land_diag|done|]. intros f [Hs Hpre]%Hf. eexists. split; [done|]. by split.
Qed.

Lemma wp_install_filter ptr w :
  has_aspace (w_mem w) = true → proc_ok (w_proc w) →
  wp (install_filter ptr) (λ _, good w) w.
Proof.
  intros Ha Hp. unfold install_filter. wp_steps.
  destruct (_ && _); [by apply wp_ret, good_refl|].
  apply wp_try. eapply wp_mono; [by apply wp_read_fprog|].
  intros [e|prog] w1 [S1 Hprog]; [by apply same_good|]. wp_steps. unfold set_proc. wp_steps.
  pose proof (po_progs _ Hp) as Hps. destruct S1 as [E Has]. rewrite E.
  destruct (seccomp (w_proc w)) as [f|] eqn:Hf; simpl; rewrite <- E; (apply good_filters; [done|done| |]).
  - apply Forall_app. split; [by apply Hps|by apply Forall_singleton].
  - intros g. rewrite Hf. intros [= <-]. split; [done|by apply prefix_app_r].
  - by apply Forall_singleton.
  - intros g. by rewrite Hf.
Qed.

Lemma wp_set_strict w :
  has_aspace (w_mem w) = true → proc_ok (w_proc w) → wp set_strict (λ _, good w) w.
Proof using Type.
  intros Ha Hp. unfold set_strict, set_proc. wp_steps. apply good_filters; [done|done| |].
  - destruct (seccomp (w_proc w)) as [f|] eqn:Hf; [|constructor]. by apply (po_progs _ Hp).
  - intros f ->. done.
Qed.

Lemma good_caps w w' c :
  proc_ok (w_proc w) → same w w' → 0 ≤ c → Z.land c (caps (w_proc w)) = c →
  good w (mkWorld (with_caps c (w_proc w')) (w_mem w')).
Proof using Type.
  intros [Ha Hp Hc] [E Has] Hc0 Hland. rewrite E. split_and!; [done| |].
  - split; [done|done|]. simpl. rewrite <- Hland. split; [apply Z.land_nonneg; lia|].
    destruct (decide (Z.land c (caps (w_proc w)) = 0)) as [->|Hn]; [unfold U64; lia|].
    apply Z.log2_lt_pow2; [pose proof (Z.land_nonneg c (caps (w_proc w))); lia|].
    pose proof (Z.log2_land c (caps (w_proc w)) ltac:(lia) ltac:(lia)).
    assert (Z.log2 (caps (w_proc w)) < 64); [|lia].
    destruct (decide (caps (w_proc w) = 0)) as [->|]; [done|].
    apply Z.log2_lt_pow2; unfold U64 in *; lia.
  - split; [done|done|]. intros f Hf. by exists f.
Qed.

Lemma wp_capset h d w :
  has_aspace (w_mem w) = true → proc_ok (w_proc w) → wp (capset h d) (λ _, good w) w.
Proof.
  intros Ha Hp. unfold capset. destruct (_ || _); [by apply wp_ret, good_refl|].
  apply wp_user_read; [done|done|intros; by apply same_good|]. intros e0 w1 S1 He0 Hlo Hhi.
  apply wp_add64; [unfold USER_END, U64 in *; lia|].
  apply wp_user_read; [done|apply S1|intros; by apply same_good; [|eapply same_trans]|].
  intros e1 w2 S2 He1 _ _. pose proof (same_trans _ _ _ S1 S2) as S12.
  wp_steps. unfold set_proc. wp_steps. pose proof (po_caps _ Hp).
  destruct S12 as [E ?]. rewrite E. rewrite <- E at 2. apply good_caps; [done|by split| |].
  - apply Z.land_nonneg. lia.
  - by rewrite <- Z.land_assoc, Z.land_diag.
Qed.

Lemma wp_write_cap_word {A} base v (f : Exec (World M) (KResult A)) Q w :
  has_aspace (w_mem w) = true →
  (∀ e w', same w w' → Q (inl e) w') →
  (∀ w', same w w' → base + 12 ≤ USER_END → wp f Q w') →
  wp (_ ←? write_cap_word base v; f) Q w.
Proof.
  intros Ha Herr Hok. apply wp_try. unfold write_cap_word.
  apply wp_user_write; [done|done|done|]. intros w1 S1 Hlo Hhi.
  change (Z.of_nat 4) with 4 in *. unfold USER_END in *.
  apply wp_add64; [unfold U64; lia|].
  apply wp_user_write; [done|apply S1|intros; apply Herr; by eapply same_trans|]. intros w2 S2 _ Hhi2.
  pose proof (same_trans _ _ _ S1 S2) as S12.
  apply wp_add64; [unfold U64; lia|]. apply wp_on_mem. eapply wp_mono; [by apply wp_write_obj|].
  change (Z.of_nat 4) with 4 in *. unfold USER_END.
  intros [e|[]] m' Hw; destruct (Hw (proj2 S12)) as [Hk Hr].
  - apply Herr. split; [apply S12|done].
  - apply Hok; [split; [apply S12|done]|lia].
Qed.

Lemma wp_capget h d w :
  has_aspace (w_mem w) = true → proc_ok (w_proc w) → wp (capget h d) (λ _, good w) w.
Proof.
  intros Ha Hp. unfold capget. destruct (h =? 0); [by apply wp_ret, good_refl|]. wp_steps.
  destruct (d =? 0); [by apply wp_ret, good_refl|].
  apply wp_write_cap_word; [done|intros; by apply same_good|]. intros w1 S1 Hhi.
  apply wp_add64; [unfold USER_END, U64 in *; lia|].
  apply wp_write_cap_word; [apply S1|intros; by apply same_good; [|eapply same_trans]|].
  intros w2 S2 _. apply wp_ret, same_good; [done|by eapply same_trans].
Qed.

Lemma wp_user_copy_to addr src w :
  src ≠ [] → has_aspace (w_mem w) = true → wp (on_mem (copy_to addr src)) (λ _, same w) w.
Proof.
  intros Hne Ha. apply wp_on_mem. unfold wp, copy_to.
  destruct (check (w_mem w) addr (Z.of_nat (length src)) true) as [e|[]] eqn:Hc; [done|].
  apply check_ok in Hc as [_ Hc]; [|by destruct src]. destruct (is_kernel addr) eqn:Hk.
  - unfold is_kernel, PHYS_OFFSET, USER_END in *. destruct Hc as [[_ ?]|?]; [congruence|].
    destruct src; simpl in *; lia.
  - rewrite Ha. cbn [negb]. pose proof (as_write_aspace (w_mem w) addr src) as Hkeep.
    destruct (as_write (w_mem w) addr src) as [r m']. split; [done|]. simpl in *. congruence.
Qed.

Lemma wp_user_copy_from addr n w :
  n ≠ 0 → has_aspace (w_mem w) = true → wp (on_mem (copy_from addr n)) (λ _, same w) w.
Proof.
  intros Hne Ha. apply wp_on_mem. unfold wp, copy_from.
  destruct (check (w_mem w) addr n false) as [e|[]] eqn:Hc; [done|].
  apply check_ok in Hc as [_ Hc]; [|done]. destruct (is_kernel addr) eqn:Hk; [done|].
  rewrite Ha. cbn [negb]. pose proof (as_read_aspace (w_mem w) addr n) as Hkeep.
  destruct (as_read (w_mem w) addr n) as [r m']. split; [done|]. simpl in *. congruence.
Qed.

(** The one call that can panic. *)
Definition sets_name (c : call) : bool :=
  match c with CPrctl o _ _ => o =? PR_SET_NAME | _ => false end.

Lemma wp_prctl o a2 a3 w :
  has_aspace (w_mem w) = true → proc_ok (w_proc w) → o ≠ PR_SET_NAME →
  wp (prctl o a2 a3) (λ _, good w) w.
Proof.
  intros Ha Hp Hname. unfold prctl. wp_steps. pose proof (good_refl w Ha Hp) as Hrefl.
  destruct (o =? PR_SET_NO_NEW_PRIVS).
  { destruct (a2 =? 1); unfold set_proc; wp_steps; [|done]. destruct Hp as [Hac Hps Hc].
    split_and!; [done|by split|]. split; [apply Z.land_diag|done|]. intros f Hf. by exists f. }
  destruct (o =? PR_GET_NO_NEW_PRIVS); [done|].
  destruct (o =? PR_SET_SECCOMP).
  { destruct (a2 =? SECCOMP_MODE_STRICT); [by apply wp_set_strict|].
    destruct (a2 =? SECCOMP_MODE_FILTER); [by apply wp_install_filter|done]. }
  destruct (o =? PR_GET_SECCOMP); [done|].
  destruct (o =? PR_CAPBSET_READ); [by destruct (CAP_LAST <? a2)|].
  destruct (o =? PR_CAPBSET_DROP).
  { destruct (CAP_LAST <? a2); [done|]. unfold set_proc. wp_steps.
    pose proof (po_caps _ Hp). apply good_caps; [done|done|apply Z.land_nonneg; lia|].
    by rewrite (Z.land_comm (caps _)), <- Z.land_assoc, Z.land_diag. }
  rewrite (proj2 (Z.eqb_neq _ _) Hname).
  destruct (o =? PR_GET_NAME); [|done].
  apply wp_try. eapply wp_mono; [apply wp_user_copy_to; [|done]|].
  { intros E%(f_equal length). rewrite length_take, length_app, length_replicate in E.
    cbn [length] in E. lia. }
  intros [e|[]] w' Hs; by apply same_good.
Qed.

Lemma wp_do_call c w :
  has_aspace (w_mem w) = true → proc_ok (w_proc w) → sets_name c = false →
  wp (do_call c) (λ _, good w) w.
Proof.
  intros Ha Hp Hn. destruct c as [o a2 a3|op a|h d|h d|]; cbn [do_call]; apply wp_bind.
  - eapply wp_mono; [apply wp_prctl; [done|done|]|by intros]. by apply Z.eqb_neq.
  - unfold seccomp_call. destruct (op =? SECCOMP_SET_MODE_STRICT);
      [|destruct (op =? SECCOMP_SET_MODE_FILTER)].
    + eapply wp_mono; [by apply wp_set_strict|by intros].
    + eapply wp_mono; [by apply wp_install_filter|by intros].
    + by apply wp_ret, wp_ret, good_refl.
  - eapply wp_mono; [by apply wp_capget|by intros].
  - eapply wp_mono; [by apply wp_capset|by intros].
  - unfold set_proc. wp_steps. destruct Hp as [Hac Hps Hc]. split_and!; [done| |].
    + split; simpl; [|done|done]. destruct (seccomp (w_proc w)); split;
        [by eexists|done|done|by intros [? [=]]].
    + split; simpl; [apply Z.land_diag|done|]. intros f Hf. by exists f.
Qed.

(** Naming the process: if it does not panic, only the name changes. *)
Lemma set_name_good o a2 a3 w r w' :
  has_aspace (w_mem w) = true → proc_ok (w_proc w) → o = PR_SET_NAME →
  prctl o a2 a3 w = Some (r, w') → good w w'.
Proof.
  intros Ha Hp ->. unfold prctl. cbn. unfold mbind, exec_bind, gets.
  pose proof (wp_user_copy_from a2 16 w ltac:(done) Ha) as Hc. unfold wp in Hc.
  destruct (on_mem (copy_from a2 16) w) as [[l w1]|]; [|done]. destruct Hc as [E Has].
  unfold need, set_comm. destruct (str_take _ _) as [nm|]; [|done]. cbn.
  intros [= _ <-]. destruct Hp as [Hac Hps Hc]. split_and!; [done|by split|].
  split; [apply Z.land_diag|done|]. intros f Hf. by exists f.
Qed.

(** C23. Privileges only shrink: over every sequence of [prctl], [seccomp],
    [capset], [capget] and fork by a user process, no capability is gained,
    [no_new_privs] and strict mode stay, every installed filter program stays
    (and is a well-formed program of at most 4096 instructions), and the
    fast-path flag is set exactly when there are filters.  The calls never
    panic, [PR_SET_NAME] excepted. *)
Theorem privileges_only_shrink cs w :
  has_aspace (w_mem w) = true → proc_ok (w_proc w) →
  match do_calls cs w with
  | Some (_, w') => proc_ok (w_proc w') ∧ tighter (w_proc w) (w_proc w')
  | None => ∃ c, c ∈ cs ∧ sets_name c = true
  end.
Proof.
  revert w. induction cs as [|c cs IH]; intros w Ha Hp; [done|].
  cbn [do_calls]. unfold mbind, exec_bind.
  assert (match do_call c w with
    | Some (_, w') => good w w' | None => sets_name c = true end) as Hc.
  { destruct (sets_name c) eqn:Hn.
    - destruct c as [o a2 a3| | | |]; try done. apply Z.eqb_eq in Hn. cbn [do_call].
      unfold mbind, exec_bind. destruct (prctl o a2 a3 w) as [[r w']|] eqn:Hr; [|done].
      by eapply set_name_good.
    - pose proof (wp_do_call c w Ha Hp Hn) as Hw. unfold wp in Hw.
      by destruct (do_call c w) as [[]|]. }
  destruct (do_call c w) as [[z w1]|]; [|exists c; set_solver].
  destruct Hc as (Ha1 & Hp1 & Ht1). specialize (IH w1 Ha1 Hp1).
  destruct (do_calls cs w1) as [[u w2]|].
  - destruct IH as [Hp2 Ht2]. split; [done|by etrans].
  - destruct IH as (c' & Hin & Hc'). exists c'. split; [by right|done].
Qed.

End calls.

(** The page of a demonstration process: a program of two instructions at
    [0x20010], its [sock_fprog] at [0x20000]. *)
Definition demo_page : PageMem.mem :=
  PageMem.put ∅ 0x20000 (le_bytes 8 2 ++ le_bytes 8 0x20010 ++
    [0x20; 0; 0; 0; 0; 0; 0; 0] ++ [0x06; 0; 0; 0] ++ le_bytes 4 RET_ALLOW).

Definition demo_world : World PageMem.mem := mkWorld (mkProc CAP_ALL false None false []) demo_page.

Definition demo_calls : list call :=
  [CPrctl PR_SET_NO_NEW_PRIVS 1 0; CPrctl PR_CAPBSET_DROP CAP_SYS_ADMIN 0;
   CSeccomp SECCOMP_SET_MODE_FILTER 0x20000; CFork].

Lemma privileges_only_shrink_witness :
  match do_calls demo_calls demo_world with
  | Some (_, w') => proc_ok (w_proc w') ∧ tighter (w_proc demo_world) (w_proc w')
  | None => ∃ c, c ∈ demo_calls ∧ sets_name c = true
  end ∧ (match do_calls demo_calls demo_world with
         | Some (_, w') => length <$> (progs <$> seccomp (w_proc w')) | None => None end = Some 1%nat).
Proof.
  split; [|vm_compute; reflexivity]. apply (privileges_only_shrink demo_calls demo_world); [done|].
  split; [split; [done|by intros [? [=]]]|done|]. vm_compute. split; [discriminate|reflexivity].
Defined.

(** [prctl(PR_SET_NAME)] with a 16-byte name whose 15th byte falls inside a
    (replaced) character panics: the name is cut at byte 15 without regard to
    character boundaries. *)
Lemma set_name_panics :
  prctl PR_SET_NAME 0x20000 0
    (mkWorld (mkProc 0 false None false []) (PageMem.put ∅ 0x20000 (97 :: replicate 15 255))) = None.
Proof. vm_compute. reflexivity. Qed.
