(* ===== verification/NetPacket.v ===== *)
(** * Packets, addresses and ports

    Models the first part of [lib/netfilter/src/lib.rs]: the Ethernet/IPv4
    parser, CIDR blocks, port ranges, and their text forms.  A slice access out
    of range, or a subtraction below zero, is [None]. *)

From S2P Require Import Prelude Text.
From Stdlib Require Import Strings.String.
Import Datatypes.

Definition Ip : Type := Z * Z * Z * Z.

Inductive Proto :=
  | Tcp
  | Udp
  | Icmp
  | OtherProto (n : Z).

#[export] Instance Proto_eq_dec : EqDecision Proto.
Proof. solve_decision. Defined.

Definition number (p : Proto) : Z :=
  match p with Icmp => 1 | Tcp => 6 | Udp => 17 | OtherProto n => n end.

Definition from_number (n : Z) : Proto :=
  if n =? 1 then Icmp else if n =? 6 then Tcp else if n =? 17 then Udp else OtherProto n.

Definition proto_name (p : Proto) : list Z :=
  match p with
  | Tcp => txt "tcp" | Udp => txt "udp" | Icmp => txt "icmp" | OtherProto _ => txt "ip"
  end.

Definition FIN : Z := 0x01.
Definition SYN : Z := 0x02.
Definition RST : Z := 0x04.
Definition PSH : Z := 0x08.
Definition ACK : Z := 0x10.
Definition URG : Z := 0x20.

Record Packet := mkPacket {
  src : Ip; dst : Ip; proto : Proto; sport : Z; dport : Z;
  tcp_flags : Z; icmp_type : Z; len : Z; fragment : bool;
}.

Inductive Frame :=
  | Ipv4 (p : Packet)
  | Arp
  | Malformed
  | OtherFrame.

(** ** Parsing frames *)

(** [slice[i]], [u16::from_be_bytes([s[i], s[i + 1]])], [&s[i..j]]. *)
Definition byte_at (s : list Z) (i : nat) : option Z := s !! i.
Definition be16_at (s : list Z) (i : nat) : option Z :=
  a ← byte_at s i; b ← byte_at s (S i); Some (256 * a + b).
Definition ip_at (s : list Z) (i : nat) : option Ip :=
  a ← byte_at s i; b ← byte_at s (i + 1); c ← byte_at s (i + 2); d ← byte_at s (i + 3);
  Some (a, b, c, d).
Definition slice (s : list Z) (i j : Z) : option (list Z) :=
  if (i <=? j) && (j <=? Z.of_nat (length s))
  then Some (take (Z.to_nat j - Z.to_nat i) (drop (Z.to_nat i) s)) else None.

(** The transport part of [parse_ipv4]. *)
Definition parse_l4 (pkt : Packet) (l4 : list Z) : option Frame :=
  let n := Z.of_nat (length l4) in
  match proto pkt with
  | Tcp =>
      if n <? 20 then Some Malformed
      else
        sp ← be16_at l4 0; dp ← be16_at l4 2; fl ← byte_at l4 13;
        Some (Ipv4 (mkPacket (src pkt) (dst pkt) Tcp sp dp (Z.land fl 0x3F) 0 (len pkt) false))
  | Udp =>
      if n <? 8 then Some Malformed
      else
        sp ← be16_at l4 0; dp ← be16_at l4 2;
        Some (Ipv4 (mkPacket (src pkt) (dst pkt) Udp sp dp 0 0 (len pkt) false))
  | Icmp =>
      if n <? 8 then Some Malformed
      else
        ty ← byte_at l4 0; id ← be16_at l4 4;
        Some (Ipv4 (mkPacket (src pkt) (dst pkt) Icmp id id 0 ty (len pkt) false))
  | OtherProto _ => Some (Ipv4 pkt)
  end.

Definition parse_ipv4 (p : list Z) : option Frame :=
  if Z.of_nat (length p) <? 20 then Some Malformed
  else
    b0 ← byte_at p 0;
    if negb (Z.shiftr b0 4 =? 4) then Some Malformed
    else
      let ihl := Z.land b0 0x0F * 4 in
      total ← be16_at p 2;
      if (ihl <? 20) || (total <? ihl) || (Z.of_nat (length p) <? total) then Some Malformed
      else
        frag ← be16_at p 6;
        let more_fragments := negb (Z.land frag 0x2000 =? 0) in
        let offset := Z.land frag 0x1FFF in
        pr ← byte_at p 9;
        s ← ip_at p 12;
        d ← ip_at p 16;
        l4 ← slice p ihl total;
        let is_frag := more_fragments || negb (offset =? 0) in
        let pkt := mkPacket s d (from_number pr) 0 0 0 0 total is_frag in
        if is_frag then Some (Ipv4 pkt) else parse_l4 pkt l4.

Definition parse_ethernet (frame : list Z) : option Frame :=
  if Z.of_nat (length frame) <? 14 then Some Malformed
  else
    ty ← be16_at frame 12;
    if ty =? 0x0806 then Some Arp
    else if ty =? 0x0800 then
      rest ← slice frame 14 (Z.of_nat (length frame)); parse_ipv4 rest
    else Some OtherFrame.

(** ** Addresses *)

Record Cidr := mkCidr { addr : Ip; prefix : Z }.

Definition be32 (ip : Ip) : Z :=
  let '(a, b, c, d) := ip in ((a * 256 + b) * 256 + c) * 256 + d.

(** [None]: [32 - prefix] below zero. *)
Definition cidr_contains (c : Cidr) (ip : Ip) : option bool :=
  if prefix c =? 0 then Some true
  else
    if 32 <? prefix c then None
    else
      let mask := Z.shiftl (U32 - 1) (32 - prefix c) mod U32 in
      Some (Z.land (be32 (addr c)) mask =? Z.land (be32 ip) mask).

(** One octet of [parse_ip]; [part.len()] counts bytes, but a part with a
    character of more than one byte is refused by the digit test anyway. *)
Definition parse_octet (part : list Z) : option Z :=
  if bool_decide (part = []) || (3 <? Z.of_nat (length part)) || negb (forallb is_ascii_digit part)
  then None
  else parse_uint 255 part.

Fixpoint parse_octets (parts : list (list Z)) (o : list Z) : option (list Z) :=
  match parts with
  | [] => Some o
  | part :: rest =>
      if (length o =? 4)%nat then None
      else v ← parse_octet part; parse_octets rest (o ++ [v])
  end.

Definition parse_ip (s : list Z) : option Ip :=
  o ← parse_octets (split_char 46 s) [];
  match o with [a; b; c; d] => Some (a, b, c, d) | _ => None end.

(** [str::split_once] on the first character that [p] accepts. *)
Fixpoint split_once (p : Z → bool) (s : list Z) : option (list Z * list Z) :=
  match s with
  | [] => None
  | c :: s' => if p c then Some ([], s') else '(a, b) ← split_once p s'; Some (c :: a, b)
  end.

Definition cidr_parse (s : list Z) : option Cidr :=
  match split_once (Z.eqb 47) s with
  | Some (a, ps) =>
      p ← parse_uint 255 ps;
      if p <=? 32 then ip ← parse_ip a; Some (mkCidr ip p) else None
  | None => ip ← parse_ip s; Some (mkCidr ip 32)
  end.

Definition fmt_ip (ip : Ip) : list Z :=
  let '(a, b, c, d) := ip in dec a ++ 46 :: dec b ++ 46 :: dec c ++ 46 :: dec d.

Definition cidr_fmt (c : Cidr) : list Z :=
  if prefix c =? 32 then fmt_ip (addr c) else fmt_ip (addr c) ++ 47 :: dec (prefix c).

(** ** Ports *)

Record PortRange := mkPorts { lo : Z; hi : Z }.

Definition ports_parse (s : list Z) : option PortRange :=
  match split_once (λ c, (c =? 45) || (c =? 58)) s with
  | Some (a, b) =>
      l ← parse_uint 65535 a; h ← parse_uint 65535 b;
      if l <=? h then Some (mkPorts l h) else None
  | None => p ← parse_uint 65535 s; Some (mkPorts p p)
  end.

Definition ports_contains (r : PortRange) (p : Z) : bool := (lo r <=? p) && (p <=? hi r).

Definition ports_fmt (r : PortRange) : list Z :=
  if lo r =? hi r then dec (lo r) else dec (lo r) ++ 45 :: dec (hi r).

(** ** The parser never reads out of bounds *)

Lemma byte_at_ok s i : (i < length s)%nat → ∃ b, byte_at s i = Some b.
Proof. intros H. by apply lookup_lt_is_Some_2. Qed.

Lemma be16_at_ok s i : (S i < length s)%nat → ∃ b, be16_at s i = Some b.
Proof.
  intros H. unfold be16_at. destruct (byte_at_ok s i) as [a ->]; [lia|].
  destruct (byte_at_ok s (S i)) as [b ->]; [lia|]. simpl. eauto.
Qed.

Lemma ip_at_ok s i : (i + 3 < length s)%nat → ∃ b, ip_at s i = Some b.
Proof.
  intros H. unfold ip_at. destruct (byte_at_ok s i) as [a ->]; [lia|].
  destruct (byte_at_ok s (i + 1)) as [b ->]; [lia|]. destruct (byte_at_ok s (i + 2)) as [c ->]; [lia|].
  destruct (byte_at_ok s (i + 3)) as [d ->]; [lia|]. simpl. eauto.
Qed.

Lemma slice_ok s i j :
  0 ≤ i ≤ j → j ≤ Z.of_nat (length s) →
  ∃ l, slice s i j = Some l ∧ Z.of_nat (length l) = j - i.
Proof.
  intros Hij Hj. unfold slice. rewrite !(proj2 (Z.leb_le _ _)) by lia. cbn [andb].
  eexists. split; [done|]. rewrite length_take, length_drop. lia.
Qed.

(** Rewrite with the next in-bounds access of the goal. *)
Ltac in_bounds :=
  match goal with
  | |- context [byte_at ?s ?i] => destruct (byte_at_ok s i) as [? ->]; [lia|]
  | |- context [be16_at ?s ?i] => destruct (be16_at_ok s i) as [? ->]; [lia|]
  | |- context [ip_at ?s ?i] => destruct (ip_at_ok s i) as [? ->]; [lia|]
  end; cbn [mbind option_bind].

(** What a parsed packet promises: it is no longer than the buffer. *)
Definition frame_ok (n : Z) (f : Frame) : Prop :=
  match f with Ipv4 p => 20 ≤ len p ≤ n | _ => True end.

Lemma parse_l4_ok pkt l4 n :
  20 ≤ len pkt ≤ n → ∃ f, parse_l4 pkt l4 = Some f ∧ frame_ok n f.
Proof.
  intros Hn. unfold parse_l4. destruct (proto pkt);
    [destruct (Z.ltb_spec (Z.of_nat (length l4)) 20)|
     destruct (Z.ltb_spec (Z.of_nat (length l4)) 8)|
     destruct (Z.ltb_spec (Z.of_nat (length l4)) 8)|]; repeat in_bounds;
    (eexists; split; [done|first [done|simpl; lia]]).
Qed.

Lemma parse_ipv4_ok p : ∃ f, parse_ipv4 p = Some f ∧ frame_ok (Z.of_nat (length p)) f.
Proof.
  unfold parse_ipv4. destruct (Z.ltb_spec (Z.of_nat (length p)) 20); [by eexists|].
  destruct (byte_at_ok p 0) as [b0 ->]; [lia|]. cbn [mbind option_bind].
  destruct (negb _); [by eexists|].
  destruct (be16_at_ok p 2) as [total ->]; [lia|]. cbn [mbind option_bind].
  destruct (Z.ltb_spec (Z.land b0 15 * 4) 20); [by eexists|].
  destruct (Z.ltb_spec total (Z.land b0 15 * 4)); [by eexists|].
  destruct (Z.ltb_spec (Z.of_nat (length p)) total); [by eexists|]. cbn [orb].
  destruct (be16_at_ok p 6) as [fr ->]; [lia|]. cbn [mbind option_bind]. repeat in_bounds.
  destruct (slice_ok p (Z.land b0 15 * 4) total) as (l4 & -> & Hl4); [lia..|]. cbn [mbind option_bind].
  destruct (_ || _); [eexists; split; [done|simpl; lia]|]. apply parse_l4_ok. simpl. lia.
Qed.

(** The frame parser is total: on every byte string it returns a frame
    without reading out of bounds, and the length it reports for an IPv4 packet
    never exceeds the bytes received. *)
Theorem parse_ethernet_total frame :
  ∃ f, parse_ethernet frame = Some f ∧ frame_ok (Z.of_nat (length frame) - 14) f.
Proof.
  unfold parse_ethernet. destruct (Z.ltb_spec (Z.of_nat (length frame)) 14); [by eexists|].
  destruct (be16_at_ok frame 12) as [ty ->]; [lia|]. cbn [mbind option_bind].
  destruct (ty =? 0x0806); [by eexists|]. destruct (ty =? 0x0800); [|by eexists].
  destruct (slice_ok frame 14 (Z.of_nat (length frame))) as (rest & -> & <-); [lia..|].
  apply parse_ipv4_ok.
Qed.

(** ** CIDR blocks *)

Definition ip_ok (ip : Ip) : Prop :=
  let '(a, b, c, d) := ip in is_byte a ∧ is_byte b ∧ is_byte c ∧ is_byte d.

Lemma be32_range ip : ip_ok ip → 0 ≤ be32 ip < U32.
Proof. destruct ip as [[[a b] c] d]. unfold ip_ok, is_byte, be32, U32. lia. Qed.

(** Masking with a run of high ones compares the bits above it. *)
Lemma mask_eq n x y :
  0 ≤ n → 0 ≤ x < U32 → 0 ≤ y < U32 → n ≤ 32 →
  let mask := Z.shiftl (U32 - 1) n mod U32 in
  Z.land x mask = Z.land y mask ↔ Z.shiftr x n = Z.shiftr y n.
Proof.
  intros Hn Hx Hy Hn' mask.
  assert (∀ i, 0 ≤ i < 32 → Z.testbit mask i = (n <=? i)) as Hm.
  { intros i Hi. unfold mask, U32. rewrite Z.mod_pow2_bits_low by lia. rewrite Z.shiftl_spec by lia.
    change (2 ^ 32 - 1) with (Z.ones 32). destruct (Z.leb_spec n i).
    - apply Z.ones_spec_low. lia.
    - apply Z.testbit_neg_r. lia. }
  assert (∀ z i, 0 ≤ z < U32 → 32 ≤ i → Z.testbit z i = false) as Hhigh.
  { intros z i Hz Hi. rewrite <- (Z.mod_small z (2 ^ 32)) by (unfold U32 in Hz; lia).
    apply Z.mod_pow2_bits_high. lia. }
  split; intros E; apply Z.bits_inj'; intros i Hi.
  - rewrite !Z.shiftr_spec by lia. destruct (decide (i + n < 32)).
    + apply (f_equal (λ z, Z.testbit z (i + n))) in E. rewrite !Z.land_spec, !Hm in E by lia.
      destruct (Z.leb_spec n (i + n)); [|lia]. by rewrite !andb_true_r in E.
    + by rewrite !Hhigh by lia.
  - rewrite !Z.land_spec. destruct (decide (i < 32)); [|by rewrite (Hhigh x), (Hhigh y) by lia].
    rewrite Hm by lia. destruct (Z.leb_spec n i); [|by rewrite !andb_false_r].
    rewrite !andb_true_r. apply (f_equal (λ z, Z.testbit z (i - n))) in E.
    rewrite !Z.shiftr_spec in E by lia. by replace (i - n + n) with i in E by lia.
Qed.

(** CIDR membership is equality of the network prefix: for a prefix of at
    most 32 bits the test does not panic and holds exactly when the top
    [prefix] bits of the two addresses agree. *)
Theorem cidr_contains_prefix c ip :
  0 ≤ prefix c ≤ 32 → ip_ok (addr c) → ip_ok ip →
  cidr_contains c ip =
  Some (bool_decide (Z.shiftr (be32 (addr c)) (32 - prefix c) = Z.shiftr (be32 ip) (32 - prefix c))).
Proof.
  intros Hp Ha%be32_range Hi%be32_range. unfold cidr_contains.
  destruct (Z.eqb_spec (prefix c) 0) as [E|Hne].
  - rewrite E. f_equal. symmetry. apply bool_decide_eq_true.
    rewrite !Z.shiftr_div_pow2, !Z.div_small by (unfold U32 in *; lia). done.
  - destruct (Z.ltb_spec 32 (prefix c)); [lia|]. f_equal.
    pose proof (mask_eq (32 - prefix c) _ _ ltac:(lia) Ha Hi ltac:(lia)) as H'. cbv zeta in H'.
    destruct (Z.eqb_spec (Z.land (be32 (addr c)) (Z.shiftl (U32 - 1) (32 - prefix c) mod U32))
      (Z.land (be32 ip) (Z.shiftl (U32 - 1) (32 - prefix c) mod U32))) as [E|E];
      symmetry; [apply bool_decide_eq_true|apply bool_decide_eq_false]; by rewrite <- H'.
Qed.

Lemma cidr_contains_prefix_witness :
  cidr_contains (mkCidr (10, 0, 0, 0) 8) (10, 200, 3, 4) = Some true.
Proof.
  rewrite (cidr_contains_prefix (mkCidr (10, 0, 0, 0) 8) (10, 200, 3, 4)).
  - vm_compute. reflexivity.
  - simpl. lia.
  - simpl. unfold is_byte. lia.
  - simpl. unfold is_byte. lia.
Defined.

(** ** Text round trips *)

Lemma dec_digits n :
  0 ≤ n < 2 ^ 64 → dec n ≠ [] ∧ Forall (λ c, is_ascii_digit c = true) (dec n).
Proof.
  intros Hn. destruct (parse_dec_go n 64 n []) as (l & Hl & _ & Hne & Hd); [done|lia| |].
  { assert (2 ^ 64 < 10 ^ 64) by (vm_compute; reflexivity). lia. }
  unfold dec. by rewrite Hl, app_nil_r.
Qed.

Lemma split_once_none p l : Forall (λ c, p c = false) l → split_once p l = None.
Proof. induction 1 as [|c l Hc _ IH]; cbn [split_once]; [done|]. by rewrite Hc, IH. Qed.

Lemma split_once_digits p l :
  (∀ c, is_ascii_digit c = true → p c = false) → Forall (λ c, is_ascii_digit c = true) l →
  split_once p l = None.
Proof. intros Hp Hl. apply split_once_none. by eapply Forall_impl. Qed.

Lemma split_once_app p l c r :
  Forall (λ c, p c = false) l → p c = true → split_once p (l ++ c :: r) = Some (l, r).
Proof. intros Hl Hc. induction Hl as [|d l Hd _ IH]; simpl; [by rewrite Hc|]. by rewrite Hd, IH. Qed.

Lemma dec_no_dot n : 0 ≤ n < 2 ^ 64 → Forall (λ c, c ≠ 46) (dec n).
Proof.
  intros [_ Hd]%dec_digits. eapply Forall_impl; [exact Hd|]. intros c.
  unfold is_ascii_digit, between. lia.
Qed.

Lemma dec_go_length fuel n acc k :
  0 ≤ n < 10 ^ Z.of_nat k → (k ≠ 0)%nat → (length (dec_go fuel n acc) ≤ k + length acc)%nat.
Proof.
  revert n acc k. induction fuel as [|fuel IH]; intros n acc k Hn Hk; cbn [dec_go]; [lia|].
  destruct (Z.ltb_spec n 10); [simpl; lia|]. destruct k as [|k]; [done|].
  rewrite Nat2Z.inj_succ, Z.pow_succ_r in Hn by lia. destruct (decide (k = 0%nat)) as [->|].
  { simpl in Hn. lia. }
  etrans; [apply (IH (n / 10) _ k); [|done]|simpl; lia].
  split; [apply Z.div_pos; lia|]. apply Z.div_lt_upper_bound; lia.
Qed.

Lemma dec_length n : 0 ≤ n < 1000 → (length (dec n) ≤ 3)%nat.
Proof. intros Hn. exact (dec_go_length 64 n [] 3 Hn (Nat.neq_succ_0 2)). Qed.

Lemma parse_octet_dec n : is_byte n → parse_octet (dec n) = Some n.
Proof.
  unfold is_byte. intros Hn. destruct (dec_digits n) as [Hne Hd]; [lia|]. unfold parse_octet.
  rewrite bool_decide_eq_false_2 by done. pose proof (dec_length n) as Hl.
  destruct (Z.ltb_spec 3 (Z.of_nat (length (dec n)))); [lia|].
  replace (forallb is_ascii_digit (dec n)) with true; [apply parse_uint_dec; lia|].
  symmetry. apply forallb_forall. intros c Hc%list_elem_of_In. by eapply Forall_forall in Hd.
Qed.

Lemma parse_ip_fmt ip : ip_ok ip → parse_ip (fmt_ip ip) = Some ip.
Proof.
  destruct ip as [[[a b] c] d]. intros (Ha & Hb & Hc & Hd). unfold parse_ip, fmt_ip.
  unfold is_byte in *. rewrite !split_char_cons, split_char_word by (apply dec_no_dot; lia).
  cbn [parse_octets length Nat.eqb]. rewrite !parse_octet_dec by done. done.
Qed.

Lemma fmt_ip_no_slash ip : ip_ok ip → Forall (λ c, (47 =? c) = false) (fmt_ip ip).
Proof.
  destruct ip as [[[a b] c] d]. intros (Ha & Hb & Hc & Hd). unfold is_byte in *.
  assert (∀ n, 0 ≤ n < 256 → Forall (λ c, (47 =? c) = false) (dec n)) as Hn.
  { intros n Hn. destruct (dec_digits n) as [_ H]; [lia|]. eapply Forall_impl; [exact H|].
    intros x. unfold is_ascii_digit, between. lia. }
  unfold fmt_ip. repeat (apply Forall_app; split; [by apply Hn|]; constructor; [done|]). by apply Hn.
Qed.

(** CIDR blocks and port ranges survive printing and parsing: the text
    shown for a block or a range parses back to it. *)
Theorem cidr_ports_roundtrip c r :
  0 ≤ prefix c ≤ 32 → ip_ok (addr c) → 0 ≤ lo r ≤ hi r → hi r < 65536 →
  cidr_parse (cidr_fmt c) = Some c ∧ ports_parse (ports_fmt r) = Some r.
Proof.
  intros Hp Ha Hr Hr'. split.
  - unfold cidr_parse, cidr_fmt. destruct (Z.eqb_spec (prefix c) 32) as [E|Hne].
    + rewrite split_once_none by (by apply fmt_ip_no_slash).
      rewrite parse_ip_fmt by done. simpl. rewrite <- E. by destruct c.
    + rewrite split_once_app by (done || by apply fmt_ip_no_slash).
      rewrite parse_uint_dec by lia. cbn [mbind option_bind].
      rewrite (proj2 (Z.leb_le _ _)), parse_ip_fmt by (done || lia). simpl. by destruct c.
  - unfold ports_parse, ports_fmt.
    set (p := λ x, (x =? 45) || (x =? 58)).
    assert (∀ x, is_ascii_digit x = true → p x = false) as Hd.
    { intros x. unfold p, is_ascii_digit, between. lia. }
    destruct (dec_digits (lo r)) as [_ Hl]; [lia|].
    destruct (Z.eqb_spec (lo r) (hi r)) as [E|Hne].
    + rewrite (split_once_digits _ _ Hd Hl), parse_uint_dec by lia. simpl. rewrite E at 2. by destruct r.
    + rewrite split_once_app; [|by eapply Forall_impl|done].
      rewrite !parse_uint_dec by lia. cbn [mbind option_bind].
      rewrite (proj2 (Z.leb_le _ _)) by lia. by destruct r.
Qed.

Lemma cidr_ports_roundtrip_witness :
  cidr_parse (cidr_fmt (mkCidr (192, 168, 0, 0) 16)) = Some (mkCidr (192, 168, 0, 0) 16) ∧
  ports_parse (ports_fmt (mkPorts 8000 8080)) = Some (mkPorts 8000 8080).
Proof.
  apply (cidr_ports_roundtrip (mkCidr (192, 168, 0, 0) 16) (mkPorts 8000 8080));
    simpl; unfold is_byte; lia.
Defined.
