(* ===== verification/Firewall.v ===== *)
(** * The packet filter

    Models the stateful part of [lib/netfilter/src/lib.rs] (rules, token
    buckets, connection tracking, bans, scan detection, [check] and [expire])
    and its use in [kernel/src/firewall.rs] (authentication failures, opening
    and closing ports).  An arithmetic overflow is a panic, [None]. *)

From Stdlib Require Import Strings.String.
From S2P Require Import Prelude Text NetPacket.
Import Datatypes.

Inductive Dir := In | Out.
Inductive Action := Accept | Drop.

#[export] Instance Dir_eq_dec : EqDecision Dir.
Proof. solve_decision. Defined.
#[export] Instance Action_eq_dec : EqDecision Action.
Proof. solve_decision. Defined.

(** ** Token buckets *)

Record Bucket := mkBucket { rate : Z; burst : Z; tokens_milli : Z; b_last_ms : Z }.

Definition bucket_new (r b : Z) : Bucket := mkBucket r b (b * 1000) 0.

Definition bucket_take (b : Bucket) (now_ms : Z) : option (bool * Bucket) :=
  let elapsed := sat_sub now_ms (b_last_ms b) in
  gain ← mul64 elapsed (rate b);
  sum ← add64 (tokens_milli b) gain;
  let tokens := Z.min sum (burst b * 1000) in
  if 1000 <=? tokens then Some (true, mkBucket (rate b) (burst b) (tokens - 1000) now_ms)
  else Some (false, mkBucket (rate b) (burst b) tokens now_ms).

(** ** Rules *)

Record Rule := mkRule {
  r_dir : Dir; r_action : Action; r_proto : option Proto;
  r_src : option Cidr; r_dst : option Cidr;
  r_sport : option PortRange; r_dport : option PortRange;
  r_icmp_type : option Z; limit : option Bucket;
  comment : list Z; hits : Z; bytes : Z; system : bool;
}.

Definition rule_new (d : Dir) (a : Action) : Rule :=
  mkRule d a None None None None None None None [] 0 0 false.

Definition none_or {A} (o : option A) (f : A → bool) : bool :=
  match o with None => true | Some a => f a end.

(** [None] is the panic of a CIDR test; [&&] stops at the first [false]. *)
Definition rule_matches (r : Rule) (d : Dir) (p : Packet) : option bool :=
  if negb (bool_decide (r_dir r = d)) then Some false
  else if negb (none_or (r_proto r) (λ x, bool_decide (x = proto p))) then Some false
  else
    s ← match r_src r with None => Some true | Some c => cidr_contains c (src p) end;
    if negb s then Some false
    else
      t ← match r_dst r with None => Some true | Some c => cidr_contains c (dst p) end;
      Some (t && none_or (r_sport r) (λ x, ports_contains x (sport p))
              && none_or (r_dport r) (λ x, ports_contains x (dport p))
              && none_or (r_icmp_type r) (λ x, x =? icmp_type p)).

Definition with_limit (b : option Bucket) (r : Rule) : Rule :=
  mkRule (r_dir r) (r_action r) (r_proto r) (r_src r) (r_dst r) (r_sport r) (r_dport r)
    (r_icmp_type r) b (comment r) (hits r) (bytes r) (system r).
Definition with_hit (h n : Z) (r : Rule) : Rule :=
  mkRule (r_dir r) (r_action r) (r_proto r) (r_src r) (r_dst r) (r_sport r) (r_dport r)
    (r_icmp_type r) (limit r) (comment r) h n (system r).

Inductive Reason :=
  | RMalformed | RFragment | RBadFlags | RSpoofed | RBanned | RSynFlood
  | RRule (i : nat) | RPolicy.

#[export] Instance Reason_eq_dec : EqDecision Reason.
Proof. solve_decision. Defined.

Inductive Verdict :=
  | VAccept
  | VDrop (r : Reason).

#[export] Instance Verdict_eq_dec : EqDecision Verdict.
Proof. solve_decision. Defined.

(** The rule loop of [decide]: the rules with their updated limiters and
    counters, and the decision of the first one that matches within its rate. *)
Fixpoint apply_rules (i : nat) (rs : list Rule) (d : Dir) (p : Packet) (now_ms : Z)
  : option (list Rule * option (Action * Reason)) :=
  match rs with
  | [] => Some ([], None)
  | r :: rs' =>
      m ← rule_matches r d p;
      if negb m then
        '(rs'', dec) ← apply_rules (S i) rs' d p now_ms; Some (r :: rs'', dec)
      else
        '(ok, r1) ← match limit r with
                    | None => Some (true, r)
                    | Some b => '(t, b') ← bucket_take b now_ms; Some (t, with_limit (Some b') r)
                    end;
        if negb ok then
          '(rs'', dec) ← apply_rules (S i) rs' d p now_ms; Some (r1 :: rs'', dec)
        else
          h ← add64 (hits r1) 1;
          n ← add64 (bytes r1) (len p);
          Some (with_hit h n r1 :: rs', Some (r_action r1, RRule i))
  end.

(** ** Connection tracking *)

Record FlowKey := mkKey {
  k_proto : Z; k_local : Ip * Z; k_remote : Ip * Z;
}.

#[export] Instance FlowKey_eq_dec : EqDecision FlowKey.
Proof. solve_decision. Defined.

#[export] Program Instance FlowKey_countable : Countable FlowKey :=
  inj_countable' (λ k, (k_proto k, k_local k, k_remote k)) (λ '(a, b, c), mkKey a b c) _.
Next Obligation. by intros []. Qed.

Record Flow := mkFlow {
  created_ms : Z; last_ms : Z; packets : Z; f_bytes : Z;
  replied : bool; opened_by : Dir; closing : bool;
}.

Definition TCP_EST_TIMEOUT_MS : Z := 3600000.
Definition TCP_CLOSE_TIMEOUT_MS : Z := 10000.
Definition TCP_NEW_TIMEOUT_MS : Z := 60000.
Definition UDP_TIMEOUT_MS : Z := 30000.
Definition UDP_STREAM_TIMEOUT_MS : Z := 180000.
Definition ICMP_TIMEOUT_MS : Z := 30000.

Definition flow_key (d : Dir) (p : Packet) : FlowKey :=
  match d with
  | Out => mkKey (number (proto p)) (src p, sport p) (dst p, dport p)
  | In => mkKey (number (proto p)) (dst p, dport p) (src p, sport p)
  end.

Definition flow_timeout (pr : Z) (f : Flow) : Z :=
  if pr =? 6 then
    if closing f then TCP_CLOSE_TIMEOUT_MS
    else if replied f then TCP_EST_TIMEOUT_MS
    else TCP_NEW_TIMEOUT_MS
  else if pr =? 17 then
    if replied f then UDP_STREAM_TIMEOUT_MS else UDP_TIMEOUT_MS
  else ICMP_TIMEOUT_MS.

(** A flow that has not timed out. *)
Definition flow_live (now_ms : Z) (k : FlowKey) (f : Flow) : bool :=
  sat_sub now_ms (last_ms f) <=? flow_timeout (k_proto k) f.

(** Position of a key in the order of the map: field by field, bytes first. *)
Definition key_code (k : FlowKey) : Z :=
  (((k_proto k * U32 + be32 (k_local k).1) * 65536 + (k_local k).2) * U32 +
    be32 (k_remote k).1) * 65536 + (k_remote k).2.

(** ** The firewall *)

Record Ban := mkBan { until_ms : Z; b_reason : list Z; strikes : Z }.

Record Counters := mkCounters {
  accepted_in : Z; accepted_out : Z; dropped_in : Z; dropped_out : Z; c_malformed : Z;
  c_spoofed : Z; c_banned : Z; c_syn_flood : Z; scans_detected : Z; bans_issued : Z;
}.

Record ScanTracker := mkScan { window_start_ms : Z; ports : list Z }.

Record Protections := mkProt {
  syn_rate : Z; syn_burst : Z; scan_ports : Z; scan_window_ms : Z; scan_ban_ms : Z;
  drop_fragments : bool;
}.

Definition Protections_default : Protections := mkProt 20 40 20 10000 3600000 true.

Record Firewall := mkFw {
  rules : list Rule; policy_in : Action; policy_out : Action; protections : Protections;
  enabled : bool; flows : gmap FlowKey Flow; max_flows : Z; bans : gmap Ip Ban;
  syn_buckets : gmap Ip Bucket; scans : gmap Ip ScanTracker; local_ips : list Ip;
  allowlist : list Cidr; counters : Counters; log : list (Dir * Packet * Reason);
  log_drops : bool;
}.

Definition with_rules v f := mkFw v (policy_in f) (policy_out f) (protections f) (enabled f) (flows f)
  (max_flows f) (bans f) (syn_buckets f) (scans f) (local_ips f) (allowlist f) (counters f) (log f) (log_drops f).
Definition with_flows v f := mkFw (rules f) (policy_in f) (policy_out f) (protections f) (enabled f) v
  (max_flows f) (bans f) (syn_buckets f) (scans f) (local_ips f) (allowlist f) (counters f) (log f) (log_drops f).
Definition with_bans v f := mkFw (rules f) (policy_in f) (policy_out f) (protections f) (enabled f) (flows f)
  (max_flows f) v (syn_buckets f) (scans f) (local_ips f) (allowlist f) (counters f) (log f) (log_drops f).
Definition with_syn_buckets v f := mkFw (rules f) (policy_in f) (policy_out f) (protections f) (enabled f) (flows f)
  (max_flows f) (bans f) v (scans f) (local_ips f) (allowlist f) (counters f) (log f) (log_drops f).
Definition with_scans v f := mkFw (rules f) (policy_in f) (policy_out f) (protections f) (enabled f) (flows f)
  (max_flows f) (bans f) (syn_buckets f) v (local_ips f) (allowlist f) (counters f) (log f) (log_drops f).
Definition with_counters v f := mkFw (rules f) (policy_in f) (policy_out f) (protections f) (enabled f) (flows f)
  (max_flows f) (bans f) (syn_buckets f) (scans f) (local_ips f) (allowlist f) v (log f) (log_drops f).
Definition with_log v f := mkFw (rules f) (policy_in f) (policy_out f) (protections f) (enabled f) (flows f)
  (max_flows f) (bans f) (syn_buckets f) (scans f) (local_ips f) (allowlist f) (counters f) v (log_drops f).

Definition ssh_rule : Rule :=
  mkRule In Accept (Some Tcp) None None None (Some (mkPorts 22 22)) None None (txt "ssh") 0 0 true.
Definition ping_rule : Rule :=
  mkRule In Accept (Some Icmp) None None None None (Some 8) (Some (bucket_new 10 20))
    (txt "ping (rate limited)") 0 0 true.
Definition dhcp_rule : Rule :=
  mkRule In Accept (Some Udp) None None (Some (mkPorts 67 67)) (Some (mkPorts 68 68)) None None
    (txt "dhcp client") 0 0 true.

Definition with_defaults : Firewall :=
  mkFw [ssh_rule; ping_rule; dhcp_rule] Drop Accept Protections_default true ∅ 32768 ∅ ∅ ∅ [] []
    (mkCounters 0 0 0 0 0 0 0 0 0 0) [] true.

(** [a & b != 0] on flag bytes. *)
Definition flag (f m : Z) : bool := negb (Z.land f m =? 0).

Definition bad_flags (f : Z) : bool :=
  let syn := flag f SYN in
  (Z.land f (Z.lor FIN (Z.lor SYN (Z.lor RST (Z.lor ACK (Z.lor PSH URG))))) =? 0)
  || ((Z.land f (Z.lor FIN (Z.lor PSH URG)) =? Z.lor FIN (Z.lor PSH URG)) && negb syn && negb (flag f ACK))
  || (syn && flag f FIN)
  || (syn && flag f RST).

Definition first_octet (ip : Ip) : Z := ip.1.1.1.

Definition sanity (fw : Firewall) (d : Dir) (p : Packet) : option Reason :=
  if fragment p && drop_fragments (protections fw) then Some RFragment
  else if bool_decide (proto p = Tcp) && bad_flags (tcp_flags p) then Some RBadFlags
  else if bool_decide (d = In) &&
          ((first_octet (src p) =? 127) || bool_decide (src p ∈ local_ips fw) || (first_octet (src p) =? 0))
       then Some RSpoofed
  else None.

(** [iter().any]: stops at the first block that contains the address. *)
Fixpoint any_contains (cs : list Cidr) (ip : Ip) : option bool :=
  match cs with
  | [] => Some false
  | c :: cs' => b ← cidr_contains c ip; if b : bool then Some true else any_contains cs' ip
  end.

Definition allowlisted (fw : Firewall) (ip : Ip) : option bool := any_contains (allowlist fw) ip.

(** [self.counters.x += 1]. *)
Definition bump (sel : Counters → Z) (upd : Z → Counters → Counters) : Exec Firewall unit :=
  c ← gets counters;
  v ← need (add64 (sel c) 1);
  modify (with_counters (upd v c)).

Definition set_accepted_in v c := mkCounters v (accepted_out c) (dropped_in c) (dropped_out c) (c_malformed c)
  (c_spoofed c) (c_banned c) (c_syn_flood c) (scans_detected c) (bans_issued c).
Definition set_accepted_out v c := mkCounters (accepted_in c) v (dropped_in c) (dropped_out c) (c_malformed c)
  (c_spoofed c) (c_banned c) (c_syn_flood c) (scans_detected c) (bans_issued c).
Definition set_dropped_in v c := mkCounters (accepted_in c) (accepted_out c) v (dropped_out c) (c_malformed c)
  (c_spoofed c) (c_banned c) (c_syn_flood c) (scans_detected c) (bans_issued c).
Definition set_dropped_out v c := mkCounters (accepted_in c) (accepted_out c) (dropped_in c) v (c_malformed c)
  (c_spoofed c) (c_banned c) (c_syn_flood c) (scans_detected c) (bans_issued c).
Definition set_malformed v c := mkCounters (accepted_in c) (accepted_out c) (dropped_in c) (dropped_out c) v
  (c_spoofed c) (c_banned c) (c_syn_flood c) (scans_detected c) (bans_issued c).
Definition set_spoofed v c := mkCounters (accepted_in c) (accepted_out c) (dropped_in c) (dropped_out c)
  (c_malformed c) v (c_banned c) (c_syn_flood c) (scans_detected c) (bans_issued c).
Definition set_banned v c := mkCounters (accepted_in c) (accepted_out c) (dropped_in c) (dropped_out c)
  (c_malformed c) (c_spoofed c) v (c_syn_flood c) (scans_detected c) (bans_issued c).
Definition set_syn_flood v c := mkCounters (accepted_in c) (accepted_out c) (dropped_in c) (dropped_out c)
  (c_malformed c) (c_spoofed c) (c_banned c) v (scans_detected c) (bans_issued c).
Definition set_scans_detected v c := mkCounters (accepted_in c) (accepted_out c) (dropped_in c) (dropped_out c)
  (c_malformed c) (c_spoofed c) (c_banned c) (c_syn_flood c) v (bans_issued c).
Definition set_bans_issued v c := mkCounters (accepted_in c) (accepted_out c) (dropped_in c) (dropped_out c)
  (c_malformed c) (c_spoofed c) (c_banned c) (c_syn_flood c) (scans_detected c) v.

Definition count (d : Dir) (accepted : bool) : Exec Firewall unit :=
  match d, accepted with
  | In, true => bump accepted_in set_accepted_in
  | Out, true => bump accepted_out set_accepted_out
  | In, false => bump dropped_in set_dropped_in
  | Out, false => bump dropped_out set_dropped_out
  end.

(** [self.bans.get(&ip).map_or(0, |b| b.strikes) + 1] on [u32], and so on. *)
Definition ban (ip : Ip) (now_ms duration_ms : Z) (reason : list Z) : Exec Firewall Z :=
  fw ← get;
  allowed ← need (allowlisted fw ip);
  if allowed || bool_decide (ip ∈ local_ips fw) then mret 0
  else
    let s := match bans fw !! ip with Some b => strikes b | None => 0 end + 1 in
    if U32 <=? s then panic
    else
      let dur := sat_mul64 duration_ms (Z.shiftl 1 (Z.min (s - 1) 6)) in
      until ← need (add64 now_ms dur);
      _ ← modify (with_bans (<[ip := mkBan until reason s]> (bans fw)));
      _ ← bump bans_issued set_bans_issued;
      _ ← modify (λ fw, with_flows (filter (λ kf, (k_remote kf.1).1 ≠ ip) (flows fw)) fw);
      mret dur.

Definition unban (ip : Ip) : Exec Firewall bool :=
  fw ← get;
  _ ← modify (with_bans (delete ip (bans fw)));
  mret (bool_decide (is_Some (bans fw !! ip))).

Definition is_banned (fw : Firewall) (ip : Ip) (now_ms : Z) : bool :=
  match bans fw !! ip with Some b => now_ms <? until_ms b | None => false end.

Definition expire (now_ms : Z) : Exec Firewall unit :=
  modify (λ fw,
    let fw := with_flows (filter (λ kf, flow_live now_ms kf.1 kf.2 = true) (flows fw)) fw in
    let fw := with_bans (filter (λ kb, now_ms < until_ms kb.2) (bans fw)) fw in
    let fw := with_syn_buckets
      (filter (λ kb, sat_sub now_ms (b_last_ms kb.2) < 60000) (syn_buckets fw)) fw in
    with_scans (filter (λ kt, sat_sub now_ms (window_start_ms kt.2) ≤ scan_window_ms (protections fw))
      (scans fw)) fw).

(** [min_by_key(last_ms)] over the ordered map: the first of the stalest. *)
Definition before (a b : FlowKey * Flow) : bool :=
  (last_ms a.2 <? last_ms b.2) || ((last_ms a.2 =? last_ms b.2) && (key_code a.1 <? key_code b.1)).

Definition stalest (m : gmap FlowKey Flow) : option (FlowKey * Flow) :=
  foldr (λ kf best, match best with
    | None => Some kf
    | Some b => if before kf b then Some kf else best
    end) None (map_to_list m).

Definition flow_count (fw : Firewall) : Z := Z.of_nat (size (flows fw)).

Definition track (key : FlowKey) (d : Dir) (p : Packet) (now_ms : Z) : Exec Firewall unit :=
  fw ← get;
  _ ← (if max_flows fw <=? flow_count fw then
         _ ← expire now_ms;
         fw ← get;
         if max_flows fw <=? flow_count fw then
           match stalest (flows fw) with
           | Some (k, _) => modify (λ fw, with_flows (delete k (flows fw)) fw)
           | None => mret tt
           end
         else mret tt
       else mret tt);
  modify (λ fw, with_flows (<[key := mkFlow now_ms now_ms 1 (len p) false d false]> (flows fw)) fw).

Definition note_refused (p : Packet) (now_ms : Z) : Exec Firewall unit :=
  fw ← get;
  if scan_ports (protections fw) =? 0 then mret tt
  else
    allowed ← need (allowlisted fw (src p));
    if allowed || negb (bool_decide (proto p = Tcp) || bool_decide (proto p = Udp)) then mret tt
    else
      let t := default (mkScan now_ms []) (scans fw !! src p) in
      let t := if scan_window_ms (protections fw) <? sat_sub now_ms (window_start_ms t)
               then mkScan now_ms [] else t in
      let t := if bool_decide (dport p ∈ ports t) then t
               else mkScan (window_start_ms t) (ports t ++ [dport p]) in
      _ ← modify (with_scans (<[src p := t]> (scans fw)));
      if scan_ports (protections fw) <=? Z.of_nat (length (ports t)) then
        _ ← modify (λ fw, with_scans (delete (src p) (scans fw)) fw);
        _ ← bump scans_detected set_scans_detected;
        _ ← ban (src p) now_ms (scan_ban_ms (protections fw)) (txt "port scan");
        mret tt
      else mret tt.

(** The flow as a further packet of it leaves it. *)
Definition flow_update (d : Dir) (p : Packet) (now_ms : Z) (f : Flow) : option Flow :=
  n ← add64 (packets f) 1;
  b ← add64 (f_bytes f) (len p);
  Some (mkFlow (created_ms f) now_ms n b
    (if bool_decide (d = opened_by f) then replied f else true) (opened_by f)
    (if bool_decide (proto p = Tcp) && flag (tcp_flags p) (Z.lor FIN RST) then true else closing f)).

(** The rate limit on new inbound connections, and tracking. *)
Definition admit_new (key : FlowKey) (d : Dir) (p : Packet) (now_ms : Z) (new_tcp_in : bool)
  : Exec Firewall Verdict :=
  fw ← get;
  limited ← (if new_tcp_in && (0 <? syn_rate (protections fw)) then
               a ← need (allowlisted fw (src p)); mret (negb a)
             else mret false);
  if limited : bool then
    let b := default (bucket_new (syn_rate (protections fw)) (syn_burst (protections fw)))
               (syn_buckets fw !! src p) in
    '(ok, b') ← need (bucket_take b now_ms);
    _ ← modify (with_syn_buckets (<[src p := b']> (syn_buckets fw)));
    if negb ok then
      _ ← bump c_syn_flood set_syn_flood;
      mret (VDrop RSynFlood)
    else _ ← track key d p now_ms; mret VAccept
  else _ ← track key d p now_ms; mret VAccept.

(** [decide] once neither sanity, bans nor a live flow have settled it. *)
Definition decide_new (key : FlowKey) (d : Dir) (p : Packet) (now_ms : Z) : Exec Firewall Verdict :=
  let new_tcp_in := bool_decide (d = In) && bool_decide (proto p = Tcp) && flag (tcp_flags p) SYN
                    && negb (flag (tcp_flags p) ACK) in
  if bool_decide (d = In) && bool_decide (proto p = Tcp) && negb new_tcp_in then mret (VDrop RPolicy)
  else
    fw ← get;
    '(rs, decision) ← need (apply_rules 0 (rules fw) d p now_ms);
    _ ← modify (with_rules rs);
    let '(action, reason) :=
      default (if bool_decide (d = In) then policy_in fw else policy_out fw, RPolicy) decision in
    if bool_decide (action = Drop) then
      _ ← (if bool_decide (d = In) then note_refused p now_ms else mret tt);
      mret (VDrop reason)
    else admit_new key d p now_ms new_tcp_in.

(** [decide] after the sanity checks: bans, then the flow table. *)
Definition decide_flow (d : Dir) (p : Packet) (now_ms : Z) : Exec Firewall Verdict :=
  let key := flow_key d p in
  fw ← get;
  match flows fw !! key with
  | Some f =>
      if flow_live now_ms key f then
        f' ← need (flow_update d p now_ms f);
        _ ← modify (with_flows (<[key := f']> (flows fw)));
        mret VAccept
      else
        _ ← modify (with_flows (delete key (flows fw)));
        decide_new key d p now_ms
  | None => decide_new key d p now_ms
  end.

Definition decide_packet (d : Dir) (p : Packet) (now_ms : Z) : Exec Firewall Verdict :=
  fw ← get;
  if negb (enabled fw) then mret VAccept
  else match sanity fw d p with
  | Some r =>
      _ ← (if bool_decide (r = RSpoofed) then bump c_spoofed set_spoofed else mret tt);
      mret (VDrop r)
  | None =>
      let remote := if bool_decide (d = In) then src p else dst p in
      match bans fw !! remote with
      | Some b =>
          if now_ms <? until_ms b then
            _ ← bump c_banned set_banned; mret (VDrop RBanned)
          else
            _ ← modify (with_bans (delete remote (bans fw)));
            decide_flow d p now_ms
      | None => decide_flow d p now_ms
      end
  end.

Definition check (d : Dir) (p : Packet) (now_ms : Z) : Exec Firewall Verdict :=
  v ← decide_packet d p now_ms;
  match v with
  | VAccept => _ ← count d true; mret v
  | VDrop r =>
      _ ← count d false;
      fw ← get;
      _ ← (if log_drops fw && (Z.of_nat (length (log fw)) <? 64) && negb (bool_decide (r = RPolicy))
           then modify (with_log (log fw ++ [(d, p, r)])) else mret tt);
      mret v
  end.

Definition check_frame (d : Dir) (frame : list Z) (now_ms : Z) : Exec Firewall Verdict :=
  fr ← need (parse_ethernet frame);
  match fr with
  | Ipv4 p => check d p now_ms
  | Malformed =>
      _ ← bump c_malformed set_malformed;
      _ ← count d false;
      mret (VDrop RMalformed)
  | Arp | OtherFrame => mret VAccept
  end.

Definition add_rule (r : Rule) : Exec Firewall nat :=
  fw ← get; _ ← modify (with_rules (rules fw ++ [r])); mret (length (rules fw)).

Definition remove_rule (idx : nat) : Exec Firewall (option Rule) :=
  fw ← get;
  match rules fw !! idx with
  | Some r => _ ← modify (with_rules (delete idx (rules fw))); mret (Some r)
  | None => mret None
  end.

(** ** The kernel's side ([kernel/src/firewall.rs]) *)

Definition AUTH_FAIL_LIMIT : Z := 5.
Definition AUTH_FAIL_WINDOW_MS : Z := 600000.
Definition AUTH_BAN_MS : Z := 600000.

Record Kernel := mkKernel { k_fw : Firewall; auth_fails : gmap Ip (Z * Z) }.

Definition on_fw {A} (m : Exec Firewall A) : Exec Kernel A := λ s,
  match m (k_fw s) with
  | Some (a, fw) => Some (a, mkKernel fw (auth_fails s))
  | None => None
  end.

Definition auth_failure (ip : Ip) (now : Z) : Exec Kernel unit :=
  s ← get;
  let e := default (now, 0) (auth_fails s !! ip) in
  age ← need (sub64 now e.1);
  let e := if AUTH_FAIL_WINDOW_MS <? age then (now, 0) else e in
  if U32 <=? e.2 + 1 then panic
  else
    let e := (e.1, e.2 + 1) in
    let hit := AUTH_FAIL_LIMIT <=? e.2 in
    _ ← modify (λ s, mkKernel (k_fw s)
          (if hit then delete ip (auth_fails s) else <[ip := e]> (auth_fails s)));
    if hit then
      _ ← on_fw (ban ip now AUTH_BAN_MS (txt "repeated authentication failures")); mret tt
    else mret tt.

Definition auth_success (ip : Ip) : Exec Kernel unit :=
  modify (λ s, mkKernel (k_fw s) (delete ip (auth_fails s))).

#[export] Instance PortRange_eq_dec : EqDecision PortRange.
Proof. solve_decision. Defined.

Definition port_rule (pr : Proto) (port : Z) (r : Rule) : bool :=
  system r && bool_decide (r_proto r = Some pr) && bool_decide (r_dport r = Some (mkPorts port port)).

Definition open_port (pr : Proto) (port : Z) (c : list Z) : Exec Firewall unit :=
  fw ← get;
  if existsb (port_rule pr port) (rules fw) then mret tt
  else
    _ ← add_rule (mkRule In Accept (Some pr) None None None (Some (mkPorts port port)) None None c 0 0 true);
    mret tt.

Definition close_port (pr : Proto) (port : Z) : Exec Firewall unit :=
  modify (λ fw, with_rules
    (List.filter (λ r, negb (port_rule pr port r && starts_with (txt "container") (comment r))) (rules fw)) fw).
