(* ===== verification/FirewallProofs.v ===== *)
(** * The packet filter: theorems

    Token buckets keep their rate; no packet makes the filter panic and the
    flow table stays within its bound; over every sequence of packets an
    inbound packet is accepted only for an open service or a flow that one
    opened; bans drop everything of their source. *)

From Stdlib Require Import Strings.String.
From S2P Require Import Prelude Text NetPacket Firewall.
Import Datatypes.

(** ** Token buckets *)

Definition bucket_ok (b : Bucket) : Prop :=
  0 ≤ rate b < 2 ^ 20 ∧ 0 ≤ burst b < 2 ^ 32 ∧ 0 ≤ tokens_milli b ≤ burst b * 1000.

(** Times: milliseconds since boot, for 139 years. *)
Definition time_ok (t : Z) : Prop := 0 ≤ t < 2 ^ 42.

Lemma bucket_take_ok b now :
  bucket_ok b → time_ok now → 0 ≤ b_last_ms b →
  ∃ ok b', bucket_take b now = Some (ok, b') ∧ bucket_ok b' ∧ b_last_ms b' = now ∧
    rate b' = rate b ∧ burst b' = burst b ∧
    1000 * Z.b2z ok + tokens_milli b' ≤ tokens_milli b + sat_sub now (b_last_ms b) * rate b.
Proof.
  intros (Hr & Hb & Ht) Hn Hl. unfold bucket_take, time_ok, sat_sub in *.
  assert (0 ≤ Z.max 0 (now - b_last_ms b) * rate b ≤ 2 ^ 42 * 2 ^ 20) as Hg by nia.
  rewrite mul64_ok by (unfold U64; lia). cbn [mbind option_bind].
  rewrite add64_ok by (unfold U64; lia). cbn [mbind option_bind].
  destruct (Z.leb_spec 1000 (Z.min (tokens_milli b + Z.max 0 (now - b_last_ms b) * rate b) (burst b * 1000)));
    (eexists _, _; split; [done|]); unfold bucket_ok; cbn; split_and!; lia.
Qed.

Fixpoint take_all (b : Bucket) (ts : list Z) : option (list bool * Bucket) :=
  match ts with
  | [] => Some ([], b)
  | t :: ts' =>
      '(ok, b') ← bucket_take b t; '(rs, b'') ← take_all b' ts'; Some (ok :: rs, b'')
  end.

Fixpoint nondecreasing (t0 : Z) (ts : list Z) : Prop :=
  match ts with
  | [] => True
  | t :: ts' => t0 ≤ t ∧ nondecreasing t ts'
  end.

Fixpoint granted (rs : list bool) : Z :=
  match rs with [] => 0 | r :: rs' => Z.b2z r + granted rs' end.

(** The time of the last request. *)
Fixpoint last_time (t0 : Z) (ts : list Z) : Z :=
  match ts with [] => t0 | t :: ts' => last_time t ts' end.

Lemma take_all_ok b ts :
  bucket_ok b → 0 ≤ b_last_ms b → nondecreasing (b_last_ms b) ts → Forall time_ok ts →
  ∃ rs b', take_all b ts = Some (rs, b') ∧ 0 ≤ tokens_milli b' ∧
    1000 * granted rs + tokens_milli b' ≤
      tokens_milli b + (last_time (b_last_ms b) ts - b_last_ms b) * rate b.
Proof.
  intros Hb Hl Hs Ht. revert b Hb Hl Hs. induction Ht as [|t ts Hto Hts IH]; intros b Hb Hl Hs.
  - exists [], b. cbn. destruct Hb as (_ & _ & Hb). split_and!; [done|lia..].
  - destruct Hs as [Hle Hs]. cbn [take_all last_time].
    destruct (bucket_take_ok b t Hb Hto Hl) as (ok & b1 & -> & Hb1 & Hl1 & Hr1 & _ & Hg).
    cbn [mbind option_bind]. rewrite <- Hl1 in Hs.
    destruct (IH b1 Hb1 ltac:(unfold time_ok in *; lia) Hs) as (rs & b2 & -> & Hpos & Hg2).
    exists (ok :: rs), b2. split_and!; [done|done|]. cbn [granted]. rewrite Hl1, Hr1 in Hg2.
    unfold sat_sub in Hg. rewrite Z.max_r in Hg by lia. nia.
Qed.

(** A token bucket enforces its rate: over any requests at nondecreasing
    times the bucket never panics and grants at most what was in it plus
    [rate] tokens per second of elapsed time (in thousandths of a token); a
    fresh bucket holds [burst]. *)
Theorem bucket_rate_bound b ts :
  bucket_ok b → 0 ≤ b_last_ms b → nondecreasing (b_last_ms b) ts → Forall time_ok ts →
  ∃ rs b', take_all b ts = Some (rs, b') ∧
    1000 * granted rs ≤ tokens_milli b + (last_time (b_last_ms b) ts - b_last_ms b) * rate b.
Proof.
  intros Hb Hl Hs Ht. destruct (take_all_ok b ts Hb Hl Hs Ht) as (rs & b' & -> & Hp & H).
  exists rs, b'. split; [done|lia].
Qed.

Lemma bucket_rate_bound_witness :
  ∃ rs b', take_all (mkBucket 10 20 20000 1000) [1000; 1000; 1500; 3000] = Some (rs, b') ∧
    1000 * granted rs ≤ 20000 + (3000 - 1000) * 10.
Proof.
  apply (bucket_rate_bound (mkBucket 10 20 20000 1000) [1000; 1000; 1500; 3000]).
  - unfold bucket_ok. simpl. lia.
  - simpl. lia.
  - simpl. lia.
  - repeat constructor; unfold time_ok; lia.
Defined.

(** ** Well-formed filters

    [fw_ok B fw]: blocks and buckets are well formed, the flow table is within
    its bound, and every counter is at most [B]. *)

Definition cidr_ok (c : Cidr) : Prop := 0 ≤ prefix c ≤ 32.
Definition opt_ok {A} (P : A → Prop) (o : option A) : Prop :=
  match o with None => True | Some a => P a end.

Definition limiter_ok (b : Bucket) : Prop := bucket_ok b ∧ 0 ≤ b_last_ms b.

Record rule_ok (B : Z) (r : Rule) : Prop := {
  ro_src : opt_ok cidr_ok (r_src r);
  ro_dst : opt_ok cidr_ok (r_dst r);
  ro_limit : opt_ok limiter_ok (limit r);
  ro_hits : 0 ≤ hits r ≤ B;
  ro_bytes : 0 ≤ bytes r ≤ B;
}.

Definition flow_ok (B : Z) (f : Flow) : Prop := 0 ≤ packets f ≤ B ∧ 0 ≤ f_bytes f ≤ B.

Definition prot_ok (p : Protections) : Prop :=
  0 ≤ syn_rate p < 2 ^ 20 ∧ 0 ≤ syn_burst p < 2 ^ 32 ∧ 0 ≤ scan_ban_ms p < 2 ^ 57.

Definition counters_ok (B : Z) (c : Counters) : Prop :=
  0 ≤ accepted_in c ≤ B ∧ 0 ≤ accepted_out c ≤ B ∧ 0 ≤ dropped_in c ≤ B ∧ 0 ≤ dropped_out c ≤ B ∧
  0 ≤ c_malformed c ≤ B ∧ 0 ≤ c_spoofed c ≤ B ∧ 0 ≤ c_banned c ≤ B ∧ 0 ≤ c_syn_flood c ≤ B ∧
  0 ≤ scans_detected c ≤ B ∧ 0 ≤ bans_issued c ≤ B.

Record fw_ok (B : Z) (fw : Firewall) : Prop := {
  fo_rules : Forall (rule_ok B) (rules fw);
  fo_flows : map_Forall (λ _, flow_ok B) (flows fw);
  fo_size : flow_count fw ≤ max_flows fw;
  fo_max : 1 ≤ max_flows fw;
  fo_syn : map_Forall (λ _, limiter_ok) (syn_buckets fw);
  fo_allow : Forall cidr_ok (allowlist fw);
  fo_prot : prot_ok (protections fw);
  fo_counters : counters_ok B (counters fw);
}.

Lemma rule_ok_mono B B' r : B ≤ B' → rule_ok B r → rule_ok B' r.
Proof. intros H []. split; [done..|lia|lia]. Qed.

Lemma fw_ok_mono B B' fw : B ≤ B' → fw_ok B fw → fw_ok B' fw.
Proof.
  intros H [Hr Hf ? ? ? ? ? Hc]. split; try done.
  - eapply Forall_impl; [exact Hr|]. intros r. by apply rule_ok_mono.
  - eapply map_Forall_impl; [exact Hf|]. intros k f. unfold flow_ok. lia.
  - unfold counters_ok in *. lia.
Qed.

(** What no packet changes: everything but the tables, the counters and the
    rules' limiters and counters. *)
Definition same_rule (r r' : Rule) : Prop :=
  r_dir r' = r_dir r ∧ r_action r' = r_action r ∧ r_proto r' = r_proto r ∧
  r_src r' = r_src r ∧ r_dst r' = r_dst r ∧ r_sport r' = r_sport r ∧ r_dport r' = r_dport r ∧
  r_icmp_type r' = r_icmp_type r.

Lemma same_rule_matches r r' d p : same_rule r r' → rule_matches r' d p = rule_matches r d p.
Proof. unfold same_rule, rule_matches. intros (-> & _ & -> & -> & -> & -> & -> & ->). done. Qed.

#[export] Instance same_rule_preorder : PreOrder same_rule.
Proof. split; [intros r; by split_and!|]. intros r1 r2 r3. unfold same_rule. naive_solver congruence. Qed.

Record same_config (fw fw' : Firewall) : Prop := {
  sc_rules : Forall2 same_rule (rules fw) (rules fw');
  sc_in : policy_in fw' = policy_in fw;
  sc_out : policy_out fw' = policy_out fw;
  sc_prot : protections fw' = protections fw;
  sc_enabled : enabled fw' = enabled fw;
  sc_max : max_flows fw' = max_flows fw;
  sc_local : local_ips fw' = local_ips fw;
  sc_allow : allowlist fw' = allowlist fw;
}.

#[export] Instance same_config_preorder : PreOrder same_config.
Proof.
  split.
  - intros fw. by split.
  - intros f1 f2 f3 [] []. split; [by etrans|congruence..].
Qed.

(** ** The rule list *)

Lemma cidr_contains_ok c ip : cidr_ok c → ∃ b, cidr_contains c ip = Some b.
Proof.
  unfold cidr_ok, cidr_contains. intros H. destruct (prefix c =? 0); [eauto|].
  destruct (Z.ltb_spec 32 (prefix c)); [lia|eauto].
Qed.

Lemma rule_matches_ok B r d p : rule_ok B r → ∃ m, rule_matches r d p = Some m.
Proof.
  intros [Hs Hd _ _ _]. unfold rule_matches.
  destruct (negb (bool_decide (r_dir r = d))); [eauto|]. destruct (negb (none_or _ _)); [eauto|].
  assert (∃ b, match r_src r with None => Some true | Some c => cidr_contains c (src p) end = Some b) as [bs ->].
  { destruct (r_src r); [by apply cidr_contains_ok|eauto]. }
  cbn [mbind option_bind]. destruct (negb bs); [eauto|].
  assert (∃ b, match r_dst r with None => Some true | Some c => cidr_contains c (dst p) end = Some b) as [bd ->].
  { destruct (r_dst r); [by apply cidr_contains_ok|eauto]. }
  cbn [mbind option_bind]. eauto.
Qed.

(** Packets: the length is that of a [u16] field. *)
Definition packet_ok (p : Packet) : Prop := 0 ≤ len p < 65536.

(** The most a counter can grow by for one packet. *)
Definition STEP : Z := 65536.

Lemma apply_rules_ok B i rs d p now :
  Forall (rule_ok B) rs → packet_ok p → time_ok now → B + STEP < U64 →
  ∃ rs' dec, apply_rules i rs d p now = Some (rs', dec) ∧
    Forall2 same_rule rs rs' ∧ Forall (rule_ok (B + STEP)) rs' ∧
    match dec with
    | None => True
    | Some (a, _) => ∃ r, r ∈ rs ∧ r_action r = a ∧ rule_matches r d p = Some true
    end.
Proof.
  intros Hrs Hp Hn HB. unfold STEP in *. revert i. induction Hrs as [|r rs Hr Hrs IH]; intros i; cbn [apply_rules].
  { exists [], None. by repeat constructor. }
  destruct (rule_matches_ok B r d p Hr) as [m Hm]. rewrite Hm. cbn [mbind option_bind].
  destruct (IH (S i)) as (rs' & dec & E & Hsame & Hok & Hdec).
  assert (match dec with None => True | Some (a, _) =>
    ∃ r0, r0 ∈ r :: rs ∧ r_action r0 = a ∧ rule_matches r0 d p = Some true end) as Hdec'.
  { destruct dec as [[a re]|]; [|done]. destruct Hdec as (r0 & ? & ?). exists r0. set_solver. }
  destruct m; cbn [negb].
  2:{ rewrite E. cbn [mbind option_bind]. eexists _, _. split_and!; [done|by constructor| |done].
      constructor; [by eapply rule_ok_mono; [|done]; lia|done]. }
  assert (∃ ok r1, match limit r with None => Some (true, r)
      | Some b => '(t, b') ← bucket_take b now; Some (t, with_limit (Some b') r) end = Some (ok, r1) ∧
    same_rule r r1 ∧ rule_ok B r1) as (ok & r1 & -> & Hs1 & Hr1).
  { pose proof (ro_limit _ _ Hr) as Hlim. destruct (limit r) as [b|]; [|by eexists _, _; split_and!].
    destruct Hlim as [Hb Hl]. destruct (bucket_take_ok b now Hb Hn Hl) as (ok & b' & -> & Hb' & Hl' & _).
    eexists _, _. split_and!; [done|by split_and!|]. destruct Hr. split; try done. split; [done|].
    rewrite Hl'. apply Hn. }
  cbn [mbind option_bind]. destruct ok; cbn [negb].
  2:{ rewrite E. cbn [mbind option_bind]. eexists _, _. split_and!; [done|by constructor| |done].
      constructor; [by eapply rule_ok_mono; [|done]; lia|done]. }
  unfold packet_ok in Hp. destruct Hr1 as [Hsrc Hdst Hlim Hh Hb]. rewrite !add64_ok by lia. cbn [mbind option_bind].
  eexists _, _. split_and!; [done| | |].
  - constructor; [|done]. etrans; [exact Hs1|]. by split_and!.
  - constructor; [split; [done..|simpl; lia|simpl; lia]|].
    eapply Forall_impl; [done|]. intros r0. apply rule_ok_mono. lia.
  - exists r. split_and!; [by left| |done]. symmetry. apply Hs1.
Qed.

(** ** Counters *)

(** The selectors and updaters used by the filter. *)
Definition counter_pair (sel : Counters → Z) (upd : Z → Counters → Counters) : Prop :=
  ∀ B c, counters_ok B c → 0 ≤ sel c ≤ B ∧ counters_ok (B + 1) (upd (sel c + 1) c).

Ltac solve_counter := intros B c; unfold counters_ok; simpl; lia.
Lemma cp_accepted_in : counter_pair accepted_in set_accepted_in. Proof. solve_counter. Qed.
Lemma cp_accepted_out : counter_pair accepted_out set_accepted_out. Proof. solve_counter. Qed.
Lemma cp_dropped_in : counter_pair dropped_in set_dropped_in. Proof. solve_counter. Qed.
Lemma cp_dropped_out : counter_pair dropped_out set_dropped_out. Proof. solve_counter. Qed.
Lemma cp_malformed : counter_pair c_malformed set_malformed. Proof. solve_counter. Qed.
Lemma cp_spoofed : counter_pair c_spoofed set_spoofed. Proof. solve_counter. Qed.
Lemma cp_banned : counter_pair c_banned set_banned. Proof. solve_counter. Qed.
Lemma cp_syn_flood : counter_pair c_syn_flood set_syn_flood. Proof. solve_counter. Qed.
Lemma cp_scans : counter_pair scans_detected set_scans_detected. Proof. solve_counter. Qed.
Lemma cp_bans : counter_pair bans_issued set_bans_issued. Proof. solve_counter. Qed.
#[export] Hint Resolve cp_accepted_in cp_accepted_out cp_dropped_in cp_dropped_out cp_malformed
  cp_spoofed cp_banned cp_syn_flood cp_scans cp_bans : fastros.

Lemma wp_bump sel upd B fw Q :
  counter_pair sel upd → fw_ok B fw → B + 1 < U64 →
  (∀ c, fw_ok (B + 1) (with_counters c fw) → Q tt (with_counters c fw)) →
  wp (bump sel upd) Q fw.
Proof.
  intros Hcp Hok HB HQ. unfold bump. wp_steps.
  destruct (Hcp B (counters fw) (fo_counters _ _ Hok)) as [Hs Hu].
  eapply wp_need; [apply add64_ok; lia|]. wp_steps. apply HQ.
  pose proof (fw_ok_mono B (B + 1) fw ltac:(lia) Hok) as []. by split.
Qed.

Lemma same_config_counters c fw : same_config fw (with_counters c fw).
Proof. by split. Qed.

(** ** Tables *)

Lemma fw_ok_shrink B fw m : m ⊆ flows fw → fw_ok B fw → fw_ok B (with_flows m fw).
Proof.
  intros Hm [Hr Hf Hs Hx Hsyn Ha Hp Hc]. split; try done; unfold flow_count in *; simpl.
  - intros k f Hk. apply (Hf k). by eapply lookup_weaken.
  - apply map_subseteq_size in Hm. lia.
Qed.

Lemma fw_ok_bans B fw m : fw_ok B fw → fw_ok B (with_bans m fw).
Proof. intros []. by split. Qed.
Lemma fw_ok_scans B fw m : fw_ok B fw → fw_ok B (with_scans m fw).
Proof. intros []. by split. Qed.
Lemma fw_ok_log B fw m : fw_ok B fw → fw_ok B (with_log m fw).
Proof. intros []. by split. Qed.
Lemma fw_ok_rules B fw m : Forall (rule_ok B) m → fw_ok B fw → fw_ok B (with_rules m fw).
Proof. intros ? []. by split. Qed.
Lemma fw_ok_syn B fw m : map_Forall (λ _, limiter_ok) m → fw_ok B fw → fw_ok B (with_syn_buckets m fw).
Proof. intros ? []. by split. Qed.
#[export] Hint Resolve fw_ok_shrink fw_ok_bans fw_ok_scans fw_ok_log : fastros.

(** [fw'] has no flow that [fw] lacks. *)
Definition flows_within (fw fw' : Firewall) : Prop := flows fw' ⊆ flows fw.

#[export] Instance flows_within_preorder : PreOrder flows_within.
Proof. split; [by intros fw; unfold flows_within|]. unfold flows_within. intros a b c ? ?. by etrans. Qed.

(** The bans of [fw] still running at [now] are in [fw'] too. *)
Definition kept (now : Z) (fw fw' : Firewall) : Prop :=
  ∀ i b, bans fw !! i = Some b → now < until_ms b → bans fw' !! i = Some b.

Lemma kept_same now fw fw' : bans fw' = bans fw → kept now fw fw'.
Proof. intros E i b Hi _. by rewrite E. Qed.

#[export] Instance kept_preorder now : PreOrder (kept now).
Proof. split; [by intros fw i b|]. intros a b c H1 H2 i x Hi Hx. by apply H2, Hx; apply H1. Qed.

Lemma wp_allowlisted B fw (fw1 : Firewall) ip (Q : bool → Firewall → Prop) :
  fw_ok B fw → (∀ b, Q b fw1) → wp (need (allowlisted fw ip)) Q fw1.
Proof.
  intros Hok Hf. assert (∃ b, allowlisted fw ip = Some b) as [b ->]; [|by apply Hf].
  unfold allowlisted. induction (fo_allow _ _ Hok) as [|c cs Hc _ IH]; cbn [any_contains]; [eauto|].
  destruct (cidr_contains_ok c ip Hc) as [[] ->]; cbn [mbind option_bind]; eauto.
Qed.

(** What [ban] leaves: nothing changed, or one ban added and the flows of the
    banned address removed. *)
Definition ban_post (ip : Ip) (now dur : Z) (fw : Firewall) (r : Z) (fw' : Firewall) : Prop :=
  r = 0 ∧ fw' = fw ∨
  (∃ b, bans fw' = <[ip := b]> (bans fw) ∧ until_ms b = now + r ∧
     strikes b = match bans fw !! ip with Some b0 => strikes b0 | None => 0 end + 1 ∧
     r = sat_mul64 dur (Z.shiftl 1 (Z.min (strikes b - 1) 6)) ∧
     flows fw' = filter (λ kf, (k_remote kf.1).1 ≠ ip) (flows fw)).

Lemma wp_ban B fw ip now dur reason :
  fw_ok B fw → B + 1 < U64 → 0 ≤ now → 0 ≤ dur → now + dur * 64 < U64 →
  (∀ b, bans fw !! ip = Some b → 0 ≤ strikes b < U32 - 1) →
  wp (ban ip now dur reason) (λ r fw', fw_ok (B + 1) fw' ∧ same_config fw fw' ∧
    ban_post ip now dur fw r fw') fw.
Proof.
  intros Hok HB Hn Hd Hov Hst. unfold ban. wp_steps. eapply wp_allowlisted; [done|]. intros al.
  destruct (_ || _); wp_steps.
  { split_and!; [eapply fw_ok_mono; [|done]; lia|done|by left]. }
  set (s := match bans fw !! ip with Some b => strikes b | None => 0 end + 1).
  assert (1 ≤ s < U32) as Hs.
  { unfold s. destruct (bans fw !! ip) as [b|] eqn:E; [specialize (Hst b eq_refl)|]; unfold U32 in *; lia. }
  rewrite (proj2 (Z.leb_gt _ _)) by lia.
  assert (0 ≤ sat_mul64 dur (Z.shiftl 1 (Z.min (s - 1) 6)) ≤ dur * 64) as Hdur.
  { unfold sat_mul64, u64_max. rewrite Z.shiftl_1_l.
    assert (2 ^ Z.min (s - 1) 6 ≤ 2 ^ 6) by (apply Z.pow_le_mono_r; lia).
    pose proof (Z.pow_nonneg 2 (Z.min (s - 1) 6)). unfold U64 in *. nia. }
  wp_steps. eapply wp_need; [apply add64_ok; lia|]. wp_steps.
  eapply wp_bump; [auto with fastros|by apply fw_ok_bans|done|]. intros c Hc. wp_steps.
  split_and!; [|by split|].
  - apply fw_ok_shrink; [|done]. simpl. apply map_filter_subseteq.
  - right. by eexists.
Qed.

Lemma stalest_in m k f : stalest m = Some (k, f) → m !! k = Some f.
Proof.
  unfold stalest. intros H. apply elem_of_map_to_list. revert H.
  induction (map_to_list m) as [|kf l IH]; cbn [foldr]; [done|].
  destruct (foldr _ None l) as [b|] eqn:E; [destruct (before kf b)|]; intros H; simplify_eq.
  - by left.
  - right. by apply IH.
  - by left.
Qed.

Lemma stalest_none m : stalest m = None → m = ∅.
Proof.
  unfold stalest. intros H. apply map_to_list_empty_iff. destruct (map_to_list m) as [|kf l]; [done|].
  simpl in H. destruct (foldr _ None l) as [b|]; [by destruct (before kf b)|done].
Qed.

Lemma wp_expire B now fw :
  fw_ok B fw →
  wp (expire now) (λ _ fw', fw_ok B fw' ∧ same_config fw fw' ∧ flows_within fw fw' ∧
    bans fw' ⊆ bans fw ∧ kept now fw fw') fw.
Proof.
  intros Hok. unfold expire. wp_steps.
  split_and!; [|by split|apply map_filter_subseteq|apply map_filter_subseteq|].
  2:{ intros i b Hi Hb. simpl. by apply map_lookup_filter_Some. }
  destruct (fw_ok_shrink B fw _ (map_filter_subseteq (λ kf, flow_live now kf.1 kf.2 = true) _) Hok).
  split; try done. simpl.
  intros k b [Hb _]%map_lookup_filter_Some. by eapply (fo_syn _ _ Hok).
Qed.

(** Tracking a new flow keeps the table within its bound. *)
Lemma wp_track B key d p now fw :
  fw_ok B fw → packet_ok p → 65536 ≤ B →
  wp (track key d p now) (λ _ fw', fw_ok B fw' ∧ same_config fw fw' ∧ bans fw' ⊆ bans fw ∧ kept now fw fw' ∧
    ∀ k, is_Some (flows fw' !! k) → is_Some (flows fw !! k) ∨ k = key) fw.
Proof.
  intros Hok Hp HB. unfold track. wp_steps.
  eapply wp_mono with (Q := λ _ fw1, fw_ok B fw1 ∧ same_config fw fw1 ∧ flows_within fw fw1 ∧
    bans fw1 ⊆ bans fw ∧ kept now fw fw1 ∧ flow_count fw1 < max_flows fw1).
  - destruct (Z.leb_spec (max_flows fw) (flow_count fw)); wp_steps; [|by split_and!].
    eapply wp_mono; [by apply wp_expire|]. intros u fw1 (Hok1 & Hc1 & Hf1 & Hb1 & Hk1). wp_steps.
    destruct (Z.leb_spec (max_flows fw1) (flow_count fw1)); wp_steps; [|by split_and!].
    destruct (stalest (flows fw1)) as [[k f]|] eqn:E.
    + wp_steps. split_and!; [by apply fw_ok_shrink; [apply delete_subseteq|]|by destruct Hc1; split| |done|done|].
      * unfold flows_within in *. simpl. by etrans; [apply delete_subseteq|].
      * apply stalest_in in E. pose proof (fo_size _ _ Hok1). unfold flow_count in *. simpl.
        rewrite map_size_delete_Some by eauto. assert (size (flows fw1) ≠ 0%nat); [|lia].
        apply map_size_non_empty_iff. intros E'. by rewrite E' in E.
    + apply stalest_none in E. pose proof (fo_max _ _ Hok1). unfold flow_count in *.
      rewrite E, map_size_empty in *. lia.
  - intros u fw1 (Hok1 & Hc1 & Hf1 & Hb1 & Hk1 & Hlt). wp_steps. split_and!; [|by destruct Hc1; split|done|done|].
    + destruct Hok1. split; try done; unfold flow_count in *; simpl.
      * apply map_Forall_insert_2; [|done]. unfold flow_ok, packet_ok in *. simpl. lia.
      * rewrite map_size_insert. destruct (flows fw1 !! key); simpl; lia.
    + intros k. simpl. destruct (decide (k = key)) as [->|Hne]; [by right|].
      rewrite lookup_insert_ne by done. intros [f Hk]. left. exists f. by eapply lookup_weaken.
Qed.

(** ** Deciding one packet *)

(** The bans [fw'] has beyond those of [fw]: at most a first strike of [ip]. *)
Definition bans_within (ip : Ip) (fw fw' : Firewall) : Prop :=
  ∀ i b, bans fw' !! i = Some b → bans fw !! i = Some b ∨ i = ip ∧ strikes b = 1.

Lemma bans_within_sub ip fw fw' : bans fw' ⊆ bans fw → bans_within ip fw fw'.
Proof. intros H i b Hi. left. by eapply lookup_weaken. Qed.

Lemma wp_note_refused B p now fw :
  fw_ok B fw → B + 2 < U64 → time_ok now → bans fw !! src p = None →
  wp (note_refused p now) (λ _ fw', fw_ok (B + 2) fw' ∧ same_config fw fw' ∧ flows_within fw fw' ∧
    bans_within (src p) fw fw' ∧ kept now fw fw') fw.
Proof.
  intros Hok HB Hn Hnone. unfold note_refused.
  assert (fw_ok (B + 2) fw) as Hok2 by (eapply fw_ok_mono; [|done]; lia).
  assert (bans_within (src p) fw fw) as Hrefl by by apply bans_within_sub.
  wp_steps. destruct (_ =? 0); [by apply wp_ret|]. wp_steps.
  eapply wp_allowlisted; [done|]. intros al. destruct (_ || _); [by apply wp_ret|]. wp_steps.
  destruct (_ <=? _); wp_steps.
  2:{ split_and!; [by apply fw_ok_scans|by split|by unfold flows_within|by apply bans_within_sub|by apply kept_same]. }
  apply (wp_bump _ _ B); [auto with fastros|by apply fw_ok_scans, fw_ok_scans|lia|]. intros c Hc. wp_steps.
  pose proof (fo_prot _ _ Hok) as (_ & _ & Hban). unfold time_ok in Hn.
  eapply wp_mono; [eapply wp_ban; [exact Hc|lia|lia|lia|unfold U64; lia|]|].
  { intros b. simpl. by rewrite Hnone. }
  simpl. intros r fw1 (Hok1 & Hc1 & Hpost).
  split_and!; [by replace (B + 2) with (B + 1 + 1) by lia|by destruct Hc1; split| | |].
  - destruct Hpost as [[_ ->]|(b & _ & _ & _ & _ & Hf)]; [by unfold flows_within|]. unfold flows_within. rewrite Hf.
    apply map_filter_subseteq.
  - intros i b. destruct Hpost as [[_ ->]|(b' & -> & _ & Hst & _)]; [by left|].
    simpl in Hst. rewrite Hnone in Hst. intros [[<- <-]|[_ ?]]%lookup_insert_Some; [by right|by left].
  - intros i b Hi _. destruct Hpost as [[_ ->]|(b' & -> & _)]; [done|]. simpl.
    rewrite lookup_insert_ne; [done|]. intros <-. by rewrite Hnone in Hi.
Qed.

(** A packet the rules or the policy let in. *)
Definition admissible (fw : Firewall) (d : Dir) (p : Packet) : Prop :=
  ((∃ r, r ∈ rules fw ∧ r_action r = Accept ∧ rule_matches r d p = Some true) ∨
   (match d with In => policy_in fw | Out => policy_out fw end) = Accept) ∧
  (d = In → proto p = Tcp → flag (tcp_flags p) SYN = true ∧ flag (tcp_flags p) ACK = false).

Record new_post (B : Z) (d : Dir) (p : Packet) (now : Z) (fw : Firewall) (v : Verdict) (fw' : Firewall) : Prop := {
  np_ok : fw_ok (B + STEP + 2) fw';
  np_config : same_config fw fw';
  np_flows k : is_Some (flows fw' !! k) → is_Some (flows fw !! k) ∨ k = flow_key d p ∧ v = VAccept;
  np_accept : v = VAccept → admissible fw d p;
  np_bans : bans_within (src p) fw fw';
  np_keep : kept now fw fw';
}.

Lemma wp_admit_new B d p now nti fw0 fw :
  fw_ok (B + STEP) fw → 0 ≤ B → B + STEP + 2 < U64 → time_ok now → packet_ok p →
  same_config fw0 fw → flows fw = flows fw0 → bans fw = bans fw0 → admissible fw0 d p →
  wp (admit_new (flow_key d p) d p now nti) (new_post B d p now fw0) fw.
Proof.
  intros Hok HB0 HB Hn Hp Hcfg Hfl Hbn Hadm. unfold admit_new. wp_steps.
  assert (∀ fw1, fw_ok (B + STEP) fw1 → same_config fw0 fw1 → flows fw1 = flows fw0 →
    bans fw1 = bans fw0 → wp (track (flow_key d p) d p now)
      (λ _, wp (mret VAccept) (new_post B d p now fw0)) fw1) as Htrack.
  { intros fw1 Hok1 Hcfg1 Hfl1 Hbn1. eapply wp_mono; [apply (wp_track (B + STEP)); [done|done|unfold STEP in *; lia]|].
    intros u fw2 (Hok2 & Hcfg2 & Hb2 & Hk2 & Hf2). apply wp_ret. split.
    - eapply fw_ok_mono; [|done]. lia.
    - by etrans.
    - intros k [Hk| ->]%Hf2; [rewrite Hfl1 in Hk; by left|by right].
    - done.
    - apply bans_within_sub. by rewrite <- Hbn1.
    - etrans; [by apply (kept_same now fw0 fw1)|done]. }
  eapply wp_mono with (Q := λ _ fw1, fw1 = fw).
  { destruct (nti && _); wp_steps; [|done]. by eapply wp_allowlisted. }
  intros limited fw1 ->. destruct limited; wp_steps; [|by apply Htrack].
  set (b := default _ _). assert (limiter_ok b) as [Hb Hl].
  { unfold b. destruct (syn_buckets fw !! src p) as [b0|] eqn:E; simpl.
    - by apply (fo_syn _ _ Hok (src p)).
    - pose proof (fo_prot _ _ Hok) as (Hr & Hbu & _). unfold limiter_ok, bucket_ok. simpl. lia. }
  destruct (bucket_take_ok b now Hb Hn Hl) as (ok & b' & -> & Hb' & Hl' & _).
  wp_steps. set (fw2 := with_syn_buckets _ fw).
  assert (fw_ok (B + STEP) fw2) as Hok2.
  { apply fw_ok_syn; [|done]. apply map_Forall_insert_2; [|apply (fo_syn _ _ Hok)].
    split; [done|]. rewrite Hl'. apply Hn. }
  assert (same_config fw0 fw2) as Hcfg2 by (destruct Hcfg; by split).
  destruct ok; cbn [negb]; wp_steps; [by apply Htrack|].
  apply (wp_bump _ _ (B + STEP)); [auto with fastros|done|lia|]. intros c Hc. wp_steps. split.
  - eapply fw_ok_mono; [|done]. lia.
  - destruct Hcfg2. by split.
  - intros k. simpl. rewrite Hfl. by left.
  - done.
  - apply bans_within_sub. simpl. by rewrite Hbn.
  - by apply kept_same.
Qed.

Lemma wp_decide_new B d p now fw :
  fw_ok B fw → 0 ≤ B → B + STEP + 2 < U64 → time_ok now → packet_ok p →
  (d = In → bans fw !! src p = None) →
  wp (decide_new (flow_key d p) d p now) (new_post B d p now fw) fw.
Proof.
  intros Hok HB0 HB Hn Hp Hnone. unfold decide_new.
  set (nti := bool_decide (d = In) && bool_decide (proto p = Tcp) && flag (tcp_flags p) SYN
    && negb (flag (tcp_flags p) ACK)).
  assert (fw_ok (B + STEP + 2) fw) as Hok' by (eapply fw_ok_mono; [|done]; unfold STEP; lia).
  destruct (bool_decide (d = In) && bool_decide (proto p = Tcp) && negb nti) eqn:Hstray.
  { apply wp_ret. split; [done|done|by left|done|by apply bans_within_sub|done]. }
  assert (B + STEP < U64) as HB' by lia.
  destruct (apply_rules_ok B 0%nat (rules fw) d p now (fo_rules _ _ Hok) Hp Hn HB')
    as (rs & dec & Hrun & Hsame & Hrs & Hdec).
  wp_steps. rewrite Hrun. wp_steps. set (fw1 := with_rules rs fw).
  assert (fw_ok (B + STEP) fw1) as Hok1.
  { apply fw_ok_rules; [done|]. apply (fw_ok_mono B); [unfold STEP; lia|done]. }
  assert (same_config fw fw1) as Hcfg1 by by split.
  destruct (default _ dec) as [action reason] eqn:Hact. cbn beta iota.
  destruct (bool_decide_reflect (action = Drop)) as [->|Hacc].
  - apply wp_bind. eapply wp_mono with (Q := λ _ fw2, fw_ok (B + STEP + 2) fw2 ∧ same_config fw1 fw2 ∧
      flows_within fw1 fw2 ∧ bans_within (src p) fw1 fw2 ∧ kept now fw1 fw2).
    { destruct (bool_decide_reflect (d = In)) as [Hd|Hd].
      - apply wp_note_refused; [done|lia|done|]. by apply Hnone.
      - apply wp_ret. split_and!; [eapply fw_ok_mono; [|done]; lia|done|done|by apply bans_within_sub|done]. }
    intros u fw2 (Hok2 & Hc2 & Hf2 & Hb2 & Hk2). wp_steps. split; [done|by etrans| |done|done|done].
    intros k [f Hk]. left. exists f. by eapply lookup_weaken in Hf2.
  - assert (action = Accept) as -> by by destruct action.
    apply wp_admit_new; try done. split.
    + destruct dec as [[a re]|]; simpl in Hact; simplify_eq.
      * left. destruct Hdec as (r & ? & ? & ?). by exists r.
      * right. by destruct d.
    + intros -> Htcp. unfold nti in Hstray. rewrite !bool_decide_eq_true_2 in Hstray by done.
      cbn [andb] in Hstray. apply negb_false_iff, andb_true_iff in Hstray as [? ?%negb_true_iff]. done.
Qed.

(** ** What one packet may do *)

Definition remote_of (d : Dir) (p : Packet) : Ip := match d with In => src p | Out => dst p end.

Record decide_post (B : Z) (d : Dir) (p : Packet) (now : Z) (fw : Firewall) (v : Verdict)
    (fw' : Firewall) : Prop := {
  dp_ok : fw_ok B fw';
  dp_config : same_config fw fw';
  dp_flows k : is_Some (flows fw' !! k) → is_Some (flows fw !! k) ∨ k = flow_key d p ∧ v = VAccept;
  dp_accept : v = VAccept → enabled fw = true →
    sanity fw d p = None ∧ is_banned fw (remote_of d p) now = false ∧
    ((∃ f, flows fw !! flow_key d p = Some f ∧ flow_live now (flow_key d p) f = true) ∨
     admissible fw d p);
  dp_bans : bans_within (src p) fw fw';
  dp_keep : kept now fw fw';
}.

Lemma fw_ok_flow B fw k f :
  is_Some (flows fw !! k) → flow_ok B f → fw_ok B fw → fw_ok B (with_flows (<[k := f]> (flows fw)) fw).
Proof.
  intros [f0 Hk] Hf []. split; try done; unfold flow_count in *; simpl.
  - by apply map_Forall_insert_2.
  - by rewrite map_size_insert_Some.
Qed.

Lemma wp_decide_flow B d p now fw0 fw :
  fw_ok B fw → 0 ≤ B → B + STEP + 2 < U64 → time_ok now → packet_ok p →
  same_config fw0 fw → rules fw = rules fw0 → flows fw = flows fw0 → bans fw ⊆ bans fw0 → kept now fw0 fw →
  (d = In → bans fw !! src p = None) →
  sanity fw0 d p = None → is_banned fw0 (remote_of d p) now = false →
  wp (decide_flow d p now) (decide_post (B + STEP + 2) d p now fw0) fw.
Proof.
  intros Hok HB0 HB Hn Hp Hcfg Hru Hfl Hbn Hkp Hnone Hsan Hban. unfold decide_flow. wp_steps.
  assert (∀ fw1, fw_ok B fw1 → same_config fw0 fw1 → rules fw1 = rules fw0 → flows_within fw0 fw1 →
    bans fw1 = bans fw → wp (decide_new (flow_key d p) d p now) (decide_post (B + STEP + 2) d p now fw0) fw1) as Hnew.
  { intros fw1 Hok1 Hcfg1 Hru1 Hfl1 Hbn1.
    eapply wp_mono; [apply (wp_decide_new B); try done; by rewrite Hbn1|].
    intros v fw2 [Hok2 Hc2 Hf2 Ha2 Hb2 Hk2]. split; [done|by etrans| | | |].
    - intros k [[f Hk]|?]%Hf2; [|by right]. left. exists f. by eapply lookup_weaken.
    - intros Hv _. split_and!; [done..|]. right. destruct (Ha2 Hv) as [Hr Htcp]. split; [|done].
      destruct Hcfg1. rewrite Hru1 in Hr. destruct Hr as [?|Hr]; [by left|right].
      destruct d; congruence.
    - intros i b [Hi|?]%Hb2; [|by right]. left. rewrite Hbn1 in Hi. by eapply lookup_weaken.
    - etrans; [exact Hkp|]. etrans; [by apply (kept_same now fw fw1)|done]. }
  destruct (flows fw !! flow_key d p) as [f|] eqn:Hk; [|by apply Hnew; rewrite ?Hfl; try done; unfold flows_within; rewrite Hfl].
  destruct (flow_live now (flow_key d p) f) eqn:Hlive.
  - pose proof (fo_flows _ _ Hok _ _ Hk) as [Hpk Hby]. unfold flow_update, packet_ok, STEP in *.
    rewrite !add64_ok by lia. cbn [mbind option_bind]. wp_steps. split.
    + eapply (fw_ok_mono (B + 65536)); [unfold STEP; lia|]. apply fw_ok_flow; [eauto|unfold flow_ok; simpl; lia|].
      eapply fw_ok_mono; [|done]. lia.
    + destruct Hcfg. by split.
    + intros k. simpl. destruct (decide (k = flow_key d p)) as [->|Hne]; [by right|].
      rewrite lookup_insert_ne, Hfl by done. by left.
    + intros _ _. split_and!; [done..|]. left. exists f. by rewrite <- Hfl.
    + apply bans_within_sub. done.
    + done.
  - wp_steps. apply Hnew; [by apply fw_ok_shrink; [apply delete_subseteq|]|by destruct Hcfg; split|done| |done].
    unfold flows_within. simpl. rewrite <- Hfl. apply delete_subseteq.
Qed.

Lemma wp_decide_packet B d p now fw :
  fw_ok B fw → 0 ≤ B → B + STEP + 2 < U64 → time_ok now → packet_ok p →
  wp (decide_packet d p now) (decide_post (B + STEP + 2) d p now fw) fw.
Proof.
  intros Hok HB0 HB Hn Hp. unfold decide_packet. wp_steps.
  assert (fw_ok (B + STEP + 2) fw) as Hok' by (eapply fw_ok_mono; [|done]; unfold STEP; lia).
  assert (∀ v c, v ≠ VAccept → fw_ok (B + 1) (with_counters c fw) →
    decide_post (B + STEP + 2) d p now fw v (with_counters c fw)) as Hdrop.
  { intros v c Hv Hc. split; [|by split|by left|done|by apply bans_within_sub|by apply kept_same].
    eapply fw_ok_mono; [|done]. unfold STEP. lia. }
  destruct (enabled fw) eqn:Hen; cbn [negb]; wp_steps.
  2:{ split; [done|done|by left|congruence|by apply bans_within_sub|done]. }
  destruct (sanity fw d p) as [r|] eqn:Hsan.
  { destruct (bool_decide (r = RSpoofed)); wp_steps.
    - apply (wp_bump _ _ B); [auto with fastros|done|unfold STEP in *; lia|]. intros c Hc. wp_steps. by apply Hdrop.
    - split; [done|done|by left|done|by apply bans_within_sub|done]. }
  replace (if bool_decide (d = In) then src p else dst p) with (remote_of d p) by by destruct d.
  destruct (bans fw !! remote_of d p) as [b|] eqn:Hb.
  - destruct (now <? until_ms b) eqn:Hu.
    + wp_steps. apply (wp_bump _ _ B); [auto with fastros|done|unfold STEP in *; lia|].
      intros c Hc. wp_steps. by apply Hdrop.
    + wp_steps. apply wp_decide_flow; try done; [by apply fw_ok_bans|apply delete_subseteq| | |].
      * intros i x Hi Hx. simpl. rewrite lookup_delete_ne; [done|]. intros <-.
        rewrite Hb in Hi. simplify_eq. lia.
      * intros ->. simpl. apply lookup_delete_eq.
      * unfold is_banned. by rewrite Hb.
  - apply wp_decide_flow; try done; [by intros ->|]. unfold is_banned. by rewrite Hb.
Qed.

Lemma wp_count B d acc fw Q :
  fw_ok B fw → B + 1 < U64 →
  (∀ c, fw_ok (B + 1) (with_counters c fw) → Q tt (with_counters c fw)) →
  wp (count d acc) Q fw.
Proof.
  intros Hok HB HQ. unfold count. destruct d, acc; by apply (wp_bump _ _ B); auto with fastros.
Qed.

Lemma decide_post_log B B' d p now fw v fw' c lg :
  decide_post B d p now fw v fw' → fw_ok B' (with_counters c fw') →
  decide_post B' d p now fw v (with_log lg (with_counters c fw')).
Proof.
  intros [Hok [] Hf Ha Hb Hk] Hc. split; [by apply fw_ok_log|by split|done|done|done|done].
Qed.

Lemma wp_check B d p now fw :
  fw_ok B fw → 0 ≤ B → B + 2 * STEP < U64 → time_ok now → packet_ok p →
  wp (check d p now) (decide_post (B + 2 * STEP) d p now fw) fw.
Proof.
  intros Hok HB0 HB Hn Hp. unfold check, STEP in *. wp_steps.
  eapply wp_mono; [apply (wp_decide_packet B); [done|done|unfold STEP; lia|done|done]|].
  unfold STEP. intros v fw1 Hpost. pose proof (dp_ok _ _ _ _ _ _ _ Hpost) as Hok1.
  assert (∀ c, fw_ok (B + 65536 + 2 + 1) (with_counters c fw1) →
    fw_ok (B + 2 * 65536) (with_counters c fw1)) as Hmono by (intros c; apply fw_ok_mono; lia).
  destruct v as [|r]; wp_steps; (apply (wp_count (B + 65536 + 2)); [done|lia|]);
    intros c Hc%Hmono; wp_steps.
  - exact (decide_post_log _ _ _ _ _ _ _ _ _ (log fw1) Hpost Hc).
  - destruct (_ && _); wp_steps.
    + exact (decide_post_log _ _ _ _ _ _ _ _ _ _ Hpost Hc).
    + exact (decide_post_log _ _ _ _ _ _ _ _ _ (log fw1) Hpost Hc).
Qed.

(** ** Frames *)

Lemma be16_at_range s i v : Forall is_byte s → be16_at s i = Some v → 0 ≤ v < 65536.
Proof.
  intros Hs. unfold be16_at, byte_at. destruct (s !! i) as [a|] eqn:Ha; [|done].
  destruct (s !! S i) as [b|] eqn:Hb; [|done]. simpl. intros [= <-].
  eapply Forall_lookup_1 in Ha; [|done]. eapply Forall_lookup_1 in Hb; [|done].
  unfold is_byte in *. lia.
Qed.

Lemma parse_l4_len pkt l4 q : parse_l4 pkt l4 = Some (Ipv4 q) → len q = len pkt.
Proof.
  unfold parse_l4. destruct (proto pkt);
    [destruct (_ <? 20)|destruct (_ <? 8)|destruct (_ <? 8)|]; intros H; simplify_option_eq; done.
Qed.

Lemma parse_ipv4_len p q : Forall is_byte p → parse_ipv4 p = Some (Ipv4 q) → packet_ok q.
Proof.
  intros Hp. unfold parse_ipv4. case_match; [done|].
  destruct (byte_at p 0); [|done]. cbn [mbind option_bind]. case_match; [done|].
  destruct (be16_at p 2) as [total|] eqn:Ht; [|done]. cbn [mbind option_bind].
  apply be16_at_range in Ht; [|done]. case_match; [done|].
  destruct (be16_at p 6); [|done]. cbn [mbind option_bind].
  destruct (byte_at p 9); [|done]. cbn [mbind option_bind].
  destruct (ip_at p 12); [|done]. cbn [mbind option_bind].
  destruct (ip_at p 16); [|done]. cbn [mbind option_bind].
  destruct (slice p _ total); [|done]. cbn [mbind option_bind].
  unfold packet_ok. case_match.
  - intros [= <-]. done.
  - intros ->%parse_l4_len. done.
Qed.

Lemma parse_ethernet_len frame q :
  Forall is_byte frame → parse_ethernet frame = Some (Ipv4 q) → packet_ok q.
Proof.
  intros Hf. unfold parse_ethernet. case_match; [done|].
  destruct (be16_at frame 12); [|done]. cbn [mbind option_bind]. case_match; [done|]. case_match; [|done].
  unfold slice. case_match; [|done]. cbn [mbind option_bind].
  apply parse_ipv4_len. by apply Forall_take, Forall_drop.
Qed.

Lemma wp_check_frame B d frame now fw :
  fw_ok B fw → 0 ≤ B → B + 2 * STEP < U64 → time_ok now → Forall is_byte frame →
  wp (check_frame d frame now) (λ _ fw', fw_ok (B + 2 * STEP) fw' ∧ same_config fw fw') fw.
Proof.
  intros Hok HB0 HB Hn Hf. unfold check_frame. wp_steps.
  destruct (parse_ethernet frame) as [fr|] eqn:E.
  2:{ destruct (parse_ethernet_total frame) as (f & E' & _). congruence. }
  wp_steps. assert (fw_ok (B + 2 * STEP) fw) as Hok' by (apply (fw_ok_mono B); [unfold STEP; lia|done]).
  destruct fr as [p| | |]; wp_steps; [| done| |done].
  - eapply wp_mono; [apply (wp_check B); [done..|by eapply parse_ethernet_len]|]. by intros v fw' [].
  - apply (wp_bump _ _ B); [auto with fastros|done|unfold STEP in *; lia|]. intros c Hc. wp_steps.
    apply (wp_count (B + 1)); [done|unfold STEP in *; lia|]. intros c' Hc'. wp_steps.
    split; [|by split]. apply (fw_ok_mono (B + 1 + 1)); [unfold STEP; lia|done].
Qed.

Fixpoint run_frames (evs : list (Dir * list Z * Z)) : Exec Firewall (list Verdict) :=
  match evs with
  | [] => mret []
  | (d, f, t) :: evs' => v ← check_frame d f t; vs ← run_frames evs'; mret (v :: vs)
  end.

Definition frame_event_ok (ev : Dir * list Z * Z) : Prop := Forall is_byte ev.1.2 ∧ time_ok ev.2.

Lemma wp_run_frames evs B fw :
  Forall frame_event_ok evs → fw_ok B fw → 0 ≤ B →
  B + Z.of_nat (length evs) * (2 * STEP) < U64 →
  wp (run_frames evs) (λ vs fw', fw_ok (B + Z.of_nat (length evs) * (2 * STEP)) fw' ∧
    same_config fw fw' ∧ length vs = length evs) fw.
Proof.
  intros Hevs. revert B fw. induction Hevs as [|[[d f] t] evs [Hf Ht] _ IH]; intros B fw Hok HB0 HB;
    cbn [run_frames length] in *; wp_steps.
  { split_and!; [|done|done]. eapply fw_ok_mono; [|done]. lia. }
  eapply wp_mono; [apply (wp_check_frame B); [done|done|unfold STEP in *; lia|done|done]|].
  intros v fw1 [Hok1 Hc1]. wp_steps.
  eapply wp_mono; [apply (IH (B + 2 * STEP)); [done|unfold STEP; lia|unfold STEP in *; lia]|].
  intros vs fw2 (Hok2 & Hc2 & Hl). wp_steps. split_and!; [|by etrans|simpl; lia].
  eapply fw_ok_mono; [|done]. lia.
Qed.

Lemma defaults_ok : fw_ok 0 with_defaults.
Proof.
  split; unfold flow_count; simpl; try done.
  repeat (constructor; [split; simpl; unfold limiter_ok, bucket_ok; simpl; lia || done|]). constructor.
Qed.

(** C33. No traffic can panic the filter: from the default configuration, every
    sequence of up to 2^46 frames, whatever their bytes, is decided frame by
    frame without overflow or out-of-bounds access, and the flow table never
    holds more than [max_flows] entries. *)
Theorem firewall_never_panics evs :
  Forall frame_event_ok evs → Z.of_nat (length evs) ≤ 2 ^ 46 →
  ∃ vs fw', run_frames evs with_defaults = Some (vs, fw') ∧ length vs = length evs ∧
    flow_count fw' ≤ max_flows with_defaults.
Proof.
  intros Hevs Hlen. assert (0 + Z.of_nat (length evs) * (2 * STEP) < U64) as HB by (unfold STEP, U64; lia).
  destruct (wp_run _ _ _ (wp_run_frames evs 0 with_defaults Hevs defaults_ok (Z.le_refl 0) HB))
    as (vs & fw' & Hr & Hok & Hc & Hl).
  exists vs, fw'. split_and!; [done..|]. rewrite <- (sc_max _ _ Hc). apply (fo_size _ _ Hok).
Qed.

(** A TCP SYN from 93.184.216.34 to port 22 of 10.0.2.15. *)
Definition demo_frame : list Z :=
  replicate 12 0 ++ [8; 0] ++ [0x45; 0; 0; 40; 0; 0; 0; 0; 64; 6; 0; 0] ++
  [93; 184; 216; 34] ++ [10; 0; 2; 15] ++ [4; 210; 0; 22] ++ replicate 9 0 ++ [2] ++ replicate 6 0.

Lemma firewall_never_panics_witness :
  ∃ vs fw', run_frames [(In, demo_frame, 5); (In, [1; 2; 3], 6)] with_defaults = Some (vs, fw') ∧
    length vs = 2%nat ∧ flow_count fw' ≤ max_flows with_defaults.
Proof.
  apply (firewall_never_panics [(In, demo_frame, 5); (In, [1; 2; 3], 6)]).
  - repeat constructor; unfold is_byte; simpl; lia.
  - simpl. lia.
Defined.

(** ** Traffic over time *)

Definition event : Type := Dir * Packet * Z.
Definition event_ok (ev : event) : Prop := packet_ok ev.1.2 ∧ time_ok ev.2.

Fixpoint run_checks (evs : list event) : Exec Firewall (list Verdict) :=
  match evs with
  | [] => mret []
  | (d, p, t) :: evs' => v ← check d p t; vs ← run_checks evs'; mret (v :: vs)
  end.

(** The services the default rules open: SSH connections, ping, DHCP replies. *)
Definition service (p : Packet) : Prop :=
  (proto p = Tcp ∧ dport p = 22 ∧ flag (tcp_flags p) SYN = true ∧ flag (tcp_flags p) ACK = false) ∨
  (proto p = Icmp ∧ icmp_type p = 8) ∨
  (proto p = Udp ∧ sport p = 67 ∧ dport p = 68).

(** The default configuration, limiters and counters aside. *)
Record default_config (fw : Firewall) : Prop := {
  dc_rules : Forall2 same_rule [ssh_rule; ping_rule; dhcp_rule] (rules fw);
  dc_policy : policy_in fw = Drop;
  dc_enabled : enabled fw = true;
}.

Lemma default_config_same fw fw' : same_config fw fw' → default_config fw → default_config fw'.
Proof. intros [] []. split; [by etrans|congruence..]. Qed.

Lemma default_service fw p : default_config fw → admissible fw In p → service p.
Proof.
  intros [Hr Hp _] [Hadm Htcp]. specialize (Htcp eq_refl). unfold service.
  destruct Hadm as [(r & Hin & _ & Hm)|Hpol]; [|congruence].
  apply list_elem_of_lookup_1 in Hin as [i Hi].
  destruct (Forall2_lookup_r _ _ _ _ _ Hr Hi) as (r0 & Hi0 & Hsame).
  rewrite (same_rule_matches _ _ _ _ Hsame) in Hm.
  destruct i as [|[|[|i]]]; simpl in Hi0; simplify_eq; unfold rule_matches in Hm;
    cbn -[Z.eqb Z.leb bool_decide] in Hm;
    repeat (case_bool_decide; cbn -[Z.eqb Z.leb bool_decide] in Hm; [|done]).
  - left. injection Hm as Hm. unfold ports_contains in Hm. cbn [lo hi] in Hm. split_and!; [done|lia|by apply Htcp..].
  - right. left. assert ((8 =? icmp_type p) = true) as E by (by injection Hm). split; [done|lia].
  - right. right. injection Hm as Hm. unfold ports_contains in Hm. cbn [lo hi] in Hm. split_and!; [done|lia|lia].
Qed.

(** Reading a trace from the left with the flows opened so far by accepted
    outbound packets and accepted service requests: every accepted inbound
    packet is a service request or belongs to an opened flow. *)
Fixpoint justified (opened : FlowKey → Prop) (evs : list event) (vs : list Verdict) : Prop :=
  match evs, vs with
  | (d, p, t) :: evs', v :: vs' =>
      (v = VAccept → d = In → service p ∨ opened (flow_key d p)) ∧
      justified (λ k, opened k ∨ k = flow_key d p ∧ v = VAccept ∧ (d = Out ∨ service p)) evs' vs'
  | _, _ => True
  end.

Lemma wp_run_justified evs (opened : FlowKey → Prop) B fw :
  Forall event_ok evs → fw_ok B fw → 0 ≤ B → B + Z.of_nat (length evs) * (2 * STEP) < U64 →
  default_config fw → (∀ k, is_Some (flows fw !! k) → opened k) →
  wp (run_checks evs) (λ vs _, length vs = length evs ∧ justified opened evs vs) fw.
Proof.
  intros Hevs. revert opened B fw.
  induction Hevs as [|[[d p] t] evs [Hp Ht] _ IH]; intros opened B fw Hok HB0 HB Hdc Hop;
    cbn [run_checks length] in *; wp_steps; [done|].
  eapply wp_mono; [apply (wp_check B); [done|done|unfold STEP in *; lia|done|done]|].
  intros v fw1 [Hok1 Hc1 Hf1 Ha1 _ _]. wp_steps.
  assert (v = VAccept → d = In → service p ∨ opened (flow_key d p)) as Hin.
  { intros Hv ->. destruct (Ha1 Hv (dc_enabled _ Hdc)) as (_ & _ & [(f & Hk & _)|Hadm]).
    - right. apply Hop. eauto.
    - left. by eapply default_service. }
  eapply wp_mono.
  { apply (IH (λ k, opened k ∨ k = flow_key d p ∧ v = VAccept ∧ (d = Out ∨ service p)) (B + 2 * STEP));
      [done|unfold STEP; lia|unfold STEP in *; lia|by eapply default_config_same|].
    intros k [Hk|[-> Hv]]%Hf1; [left; by apply Hop|].
    destruct d; [|right; auto]. destruct (Hin Hv eq_refl) as [Hs|Ho]; [right; auto|by left]. }
  intros vs fw2 [Hl Hj]. wp_steps. split; [simpl; lia|]. by split.
Qed.

(** C32. Inbound is closed by default: over any traffic seen by the default
    configuration (with any local addresses), every inbound packet the filter
    accepts is a request to an open service (SSH, ping, DHCP) or belongs to a
    flow that an earlier accepted outbound packet or service request opened. *)
Theorem inbound_default_deny evs ips :
  Forall event_ok evs → Z.of_nat (length evs) ≤ 2 ^ 46 →
  ∃ vs fw', run_checks evs (mkFw (rules with_defaults) Drop Accept Protections_default true ∅ 32768
      ∅ ∅ ∅ ips [] (counters with_defaults) [] true) = Some (vs, fw') ∧
    length vs = length evs ∧ justified (λ _, False) evs vs.
Proof.
  intros Hevs Hlen. apply wp_run. eapply (wp_run_justified _ _ 0); [done| |done|unfold STEP, U64; lia| |].
  - destruct defaults_ok. by split.
  - split; simpl; [|done|done]. by repeat constructor.
  - intros k. simpl. rewrite lookup_empty. by intros [].
Qed.

Definition demo_packet (s d : Ip) (sp dp fl : Z) : Packet := mkPacket s d Tcp sp dp fl 0 60 false.
Definition PEER : Ip := (93, 184, 216, 34).
Definition ME : Ip := (10, 0, 2, 15).
Definition demo_trace : list event :=
  [(Out, demo_packet ME PEER 40000 443 SYN, 1); (In, demo_packet PEER ME 443 40000 (Z.lor SYN ACK), 2);
   (In, demo_packet PEER ME 443 40001 ACK, 3); (In, demo_packet PEER ME 5000 22 SYN, 4)].

Lemma demo_trace_ok : Forall event_ok demo_trace.
Proof. repeat constructor; unfold event_ok, packet_ok, time_ok; simpl; lia. Qed.

Lemma inbound_default_deny_witness :
  ∃ vs fw', run_checks demo_trace (mkFw (rules with_defaults) Drop Accept Protections_default true ∅ 32768
      ∅ ∅ ∅ [ME] [] (counters with_defaults) [] true) = Some (vs, fw') ∧
    length vs = 4%nat ∧ justified (λ _, False) demo_trace vs.
Proof. apply (inbound_default_deny demo_trace [ME]); [apply demo_trace_ok|simpl; lia]. Defined.

(** ** Bans *)

Lemma wp_run_banned evs ip b B fw :
  Forall event_ok evs → fw_ok B fw → 0 ≤ B → B + Z.of_nat (length evs) * (2 * STEP) < U64 →
  enabled fw = true → bans fw !! ip = Some b → Forall (λ ev, ev.2 < until_ms b) evs →
  wp (run_checks evs) (λ vs fw', bans fw' !! ip = Some b ∧
    Forall2 (λ ev v, remote_of ev.1.1 ev.1.2 = ip → v ≠ VAccept) evs vs) fw.
Proof.
  intros Hevs. revert B fw. induction Hevs as [|[[d p] t] evs [Hp Ht] _ IH];
    intros B fw Hok HB0 HB Hen Hb Hts; cbn [run_checks length] in *; wp_steps; [by split|].
  apply Forall_cons in Hts as [Hlt Hts]. simpl in Hlt.
  eapply wp_mono; [apply (wp_check B); [done|done|unfold STEP in *; lia|done|done]|].
  intros v fw1 [Hok1 Hc1 _ Ha1 _ Hk1]. wp_steps.
  eapply wp_mono; [apply (IH (B + 2 * STEP)); [done|unfold STEP; lia|unfold STEP in *; lia| | |done]|].
  - by rewrite (sc_enabled _ _ Hc1).
  - by apply Hk1.
  - intros vs fw2 [Hb2 Hvs]. wp_steps. split; [done|]. constructor; [|done]. simpl. intros Hrem Hv.
    destruct (Ha1 Hv Hen) as (_ & Hnb & _). unfold is_banned in Hnb. rewrite Hrem, Hb in Hnb. lia.
Qed.

(** A ban holds: when [ban] reports a duration [r > 0] at time [t0], the
    address is on the list until [t0 + r] and every packet from it or to it
    before then is dropped, whatever other traffic comes between. *)
Theorem ban_holds B fw ip t0 dur reason evs :
  fw_ok B fw → 0 ≤ B → B + 1 + Z.of_nat (length evs) * (2 * STEP) < U64 →
  enabled fw = true → 0 ≤ t0 → 0 ≤ dur → t0 + dur * 64 < U64 →
  (∀ b, bans fw !! ip = Some b → 0 ≤ strikes b < U32 - 1) → Forall event_ok evs →
  ∃ r fw1, ban ip t0 dur reason fw = Some (r, fw1) ∧
    (0 < r → Forall (λ ev, ev.2 < t0 + r) evs →
     ∃ vs fw2, run_checks evs fw1 = Some (vs, fw2) ∧ is_banned fw2 ip (t0 + r - 1) = true ∧
       Forall2 (λ ev v, remote_of ev.1.1 ev.1.2 = ip → v ≠ VAccept) evs vs).
Proof.
  intros Hok HB0 HB Hen Ht0 Hdur Hov Hst Hevs.
  assert (B + 1 < U64) as HB1 by (unfold STEP in HB; lia).
  destruct (wp_run _ _ _ (wp_ban B fw ip t0 dur reason Hok HB1 Ht0 Hdur Hov Hst))
    as (r & fw1 & Hrun & Hok1 & Hc1 & Hpost).
  exists r, fw1. split; [done|]. intros Hr Hts.
  destruct Hpost as [[-> _]|(b & Hb & Hu & _)]; [lia|].
  assert (bans fw1 !! ip = Some b) as Hip by (rewrite Hb; apply lookup_insert_eq).
  destruct (wp_run _ _ _ (wp_run_banned evs ip b (B + 1) fw1 Hevs Hok1 ltac:(lia) HB
    (eq_trans (sc_enabled _ _ Hc1) Hen) Hip ltac:(by rewrite Hu))) as (vs & fw2 & Hrun2 & Hb2 & Hvs).
  exists vs, fw2. split_and!; [done| |done]. unfold is_banned. rewrite Hb2. lia.
Qed.

Lemma ban_holds_witness :
  ∃ r fw1, ban PEER 0 1000 (txt "manual") with_defaults = Some (r, fw1) ∧
    (0 < r → Forall (λ ev : event, ev.2 < 0 + r) demo_trace →
     ∃ vs fw2, run_checks demo_trace fw1 = Some (vs, fw2) ∧ is_banned fw2 PEER (0 + r - 1) = true ∧
       Forall2 (λ (ev : event) v, remote_of ev.1.1 ev.1.2 = PEER → v ≠ VAccept) demo_trace vs).
Proof.
  apply (ban_holds 0 with_defaults PEER 0 1000 (txt "manual") demo_trace defaults_ok).
  - lia.
  - unfold STEP, U64. simpl. lia.
  - reflexivity.
  - lia.
  - lia.
  - unfold U64. lia.
  - intros b. simpl. by rewrite lookup_empty.
  - apply demo_trace_ok.
Defined.

(** Automatic bans do not escalate: a ban that deciding a packet puts on the
    list always has strike count one, because an earlier ban of the source has
    either dropped the packet or been removed before the strike is counted. *)
Theorem scan_bans_never_escalate B d p now fw :
  fw_ok B fw → 0 ≤ B → B + 2 * STEP < U64 → time_ok now → packet_ok p →
  ∃ v fw', check d p now fw = Some (v, fw') ∧
    ∀ ip b, bans fw' !! ip = Some b → bans fw !! ip ≠ Some b → strikes b = 1.
Proof.
  intros Hok HB0 HB Hn Hp.
  destruct (wp_run _ _ _ (wp_check B d p now fw Hok HB0 HB Hn Hp)) as (v & fw' & Hr & Hpost).
  exists v, fw'. split; [done|]. intros ip b Hb Hne.
  destruct (dp_bans _ _ _ _ _ _ _ Hpost ip b Hb) as [?|[_ ?]]; done.
Qed.

Lemma scan_bans_never_escalate_witness :
  ∃ v fw', check In (demo_packet PEER ME 5000 80 SYN) 7 with_defaults = Some (v, fw') ∧
    ∀ ip b, bans fw' !! ip = Some b → bans with_defaults !! ip ≠ Some b → strikes b = 1.
Proof.
  apply (scan_bans_never_escalate 0 In (demo_packet PEER ME 5000 80 SYN) 7 with_defaults defaults_ok).
  - lia.
  - unfold STEP, U64. lia.
  - unfold time_ok. lia.
  - unfold packet_ok. simpl. lia.
Defined.

(** ** Authentication failures *)

(** A failure below the limit is counted and changes nothing else. *)
Lemma auth_failure_counts s ip t0 c now :
  default (now, 0) (auth_fails s !! ip) = (t0, c) → 0 ≤ c < 4 →
  t0 ≤ now ≤ t0 + AUTH_FAIL_WINDOW_MS →
  auth_failure ip now s = Some (tt, mkKernel (k_fw s) (<[ip := (t0, c + 1)]> (auth_fails s))).
Proof.
  intros He Hc Hw. unfold auth_failure, mbind, exec_bind, get, need. rewrite He. simpl.
  rewrite sub64_ok by lia. cbn [fst snd].
  rewrite (proj2 (Z.ltb_ge AUTH_FAIL_WINDOW_MS (now - t0))) by lia. cbn [fst snd].
  rewrite (proj2 (Z.leb_gt U32 (c + 1))) by (unfold U32; lia).
  rewrite (proj2 (Z.leb_gt AUTH_FAIL_LIMIT (c + 1))) by (unfold AUTH_FAIL_LIMIT; lia). done.
Qed.

(** The failure that reaches the limit clears the count and bans. *)
Lemma auth_failure_hits s ip t0 now r fw' :
  auth_fails s !! ip = Some (t0, 4) → t0 ≤ now ≤ t0 + AUTH_FAIL_WINDOW_MS →
  ban ip now AUTH_BAN_MS (txt "repeated authentication failures") (k_fw s) = Some (r, fw') →
  auth_failure ip now s = Some (tt, mkKernel fw' (delete ip (auth_fails s))).
Proof.
  intros He Hw Hban. unfold auth_failure, mbind, exec_bind, get, need. rewrite He. cbn [default from_option id fst snd].
  rewrite sub64_ok by lia. cbn [fst snd].
  rewrite (proj2 (Z.ltb_ge AUTH_FAIL_WINDOW_MS (now - t0))) by lia. cbn [fst snd].
  change (U32 <=? 4 + 1) with false. change (AUTH_FAIL_LIMIT <=? 4 + 1) with true.
  unfold modify, on_fw. cbn [k_fw auth_fails].
  by rewrite Hban.
Qed.

Fixpoint auth_failures (ip : Ip) (ts : list Z) : Exec Kernel unit :=
  match ts with
  | [] => mret tt
  | t :: ts' => _ ← auth_failure ip t; auth_failures ip ts'
  end.

(** Brute force is cut off: five authentication failures of one address
    within ten minutes put it on the ban list for ten minutes (it being neither
    allowlisted nor local), and its failure count starts over. *)
Theorem brute_force_banned B s ip t1 t2 t3 t4 t5 :
  fw_ok B (k_fw s) → B + 1 < U64 → auth_fails s !! ip = None → bans (k_fw s) !! ip = None →
  allowlisted (k_fw s) ip = Some false → ip ∉ local_ips (k_fw s) →
  0 ≤ t1 ≤ t2 → t2 ≤ t3 ≤ t4 → t4 ≤ t5 ≤ t1 + AUTH_FAIL_WINDOW_MS → time_ok t5 →
  ∃ s', auth_failures ip [t1; t2; t3; t4; t5] s = Some (tt, s') ∧ auth_fails s' !! ip = None ∧
    is_banned (k_fw s') ip (t5 + AUTH_BAN_MS - 1) = true.
Proof.
  intros Hok HB Hnone Hnb Hal Hloc H12 H34 H5 Ht5. unfold time_ok in *.
  assert (∀ b, bans (k_fw s) !! ip = Some b → 0 ≤ strikes b < U32 - 1) as Hst by (by rewrite Hnb).
  destruct (wp_run _ _ _ (wp_ban B (k_fw s) ip t5 AUTH_BAN_MS (txt "repeated authentication failures")
    Hok HB ltac:(lia) ltac:(done) ltac:(unfold AUTH_BAN_MS, U64; lia) Hst)) as (r & fw' & Hban & _ & _ & Hpost).
  assert (r = AUTH_BAN_MS ∧ ∃ b, bans fw' !! ip = Some b ∧ until_ms b = t5 + r) as (-> & b & Hb & Hu).
  { destruct Hpost as [[-> ->]|(b & Hb & Hu & Hs & Hr & _)].
    - exfalso. revert Hban. unfold ban, mbind, exec_bind, get, need. rewrite Hal, Hnb. cbn [orb].
      rewrite bool_decide_eq_false_2 by done. simpl. unfold add64, bump, mbind, exec_bind.
      repeat case_match; intros; simplify_eq.
    - rewrite Hnb in Hs. rewrite Hs in Hr. split; [exact Hr|]. exists b. rewrite Hb. split; [apply lookup_insert_eq|done]. }
  cbn [auth_failures]. unfold mbind, exec_bind.
  rewrite (auth_failure_counts s ip t1 0 t1) by (rewrite ?Hnone; done || lia).
  rewrite (auth_failure_counts _ ip t1 1 t2) by (simpl; rewrite ?lookup_insert_eq; done || lia).
  rewrite (auth_failure_counts _ ip t1 2 t3) by (simpl; rewrite ?lookup_insert_eq; done || lia).
  rewrite (auth_failure_counts _ ip t1 3 t4) by (simpl; rewrite ?lookup_insert_eq; done || lia).
  erewrite auth_failure_hits; [|simpl; apply lookup_insert_eq|lia|exact Hban].
  eexists. split_and!; [done|simpl; apply lookup_delete_eq|]. unfold is_banned. simpl. rewrite Hb. lia.
Qed.

Lemma brute_force_banned_witness :
  ∃ s', auth_failures PEER [10; 20; 20; 30; 45] (mkKernel with_defaults ∅) = Some (tt, s') ∧
    auth_fails s' !! PEER = None ∧ is_banned (k_fw s') PEER (45 + AUTH_BAN_MS - 1) = true.
Proof.
  apply (brute_force_banned 0 (mkKernel with_defaults ∅) PEER 10 20 20 30 45 defaults_ok).
  - unfold U64. lia.
  - apply lookup_empty.
  - simpl. apply lookup_empty.
  - reflexivity.
  - simpl. by apply not_elem_of_nil.
  - lia.
  - lia.
  - unfold AUTH_FAIL_WINDOW_MS. lia.
  - unfold time_ok. lia.
Defined.
