(* ===== verification/Crc32.v ===== *)
(** * CRC-32

    Models [lib/archive/src/crc32.rs]: the table construction, the slice-by-8
    loop and the running state; proved equal to the bit-by-bit definition of
    the checksum. *)

From Stdlib Require Import Btauto.
From S2P Require Import Prelude.

(** Equality of sums of [Z.lxor] up to their order. *)
Ltac lxor_ac := apply Z.bits_inj'; intros ? _; rewrite !Z.lxor_spec; btauto.

Definition POLY : Z := 0xEDB88320.

(** One bit of the reflected division. *)
Definition crc_bit (c : Z) : Z :=
  if negb (Z.land c 1 =? 0) then Z.lxor POLY (Z.shiftr c 1) else Z.shiftr c 1.

(** [n] turns of the inner loop. *)
Fixpoint steps (n : nat) (c : Z) : Z :=
  match n with
  | O => c
  | S n' => crc_bit (steps n' c)
  end.

Definition table0 : list Z := steps 8 <$> seqZ 0 256.

(** [t[s][i]] from [t[s - 1][i]]; the index is a byte, so always in range. *)
Definition next_entry (prev : Z) : Z :=
  Z.lxor (Z.shiftr prev 8) (default 0 (table0 !! Z.to_nat (Z.land prev 0xFF))).

Fixpoint make_tables (n : nat) (t : list Z) : list (list Z) :=
  match n with
  | O => []
  | S n' => t :: make_tables n' (next_entry <$> t)
  end.

Definition TABLES : list (list Z) := make_tables 8 table0.

(** [t[s][i]], [None] out of range. *)
Definition entry (s : nat) (i : Z) : option Z := t ← TABLES !! s; t !! Z.to_nat i.

Definition crc_new : Z := 0xFFFFFFFF.

Definition step8 (c : Z) (b : list Z) : option Z :=
  let lo := Z.lxor c (le_val (take 4 b)) in
  let hi := le_val (drop 4 b) in
  e7 ← entry 7 (Z.land lo 0xFF);
  e6 ← entry 6 (Z.land (Z.shiftr lo 8) 0xFF);
  e5 ← entry 5 (Z.land (Z.shiftr lo 16) 0xFF);
  e4 ← entry 4 (Z.shiftr lo 24);
  e3 ← entry 3 (Z.land hi 0xFF);
  e2 ← entry 2 (Z.land (Z.shiftr hi 8) 0xFF);
  e1 ← entry 1 (Z.land (Z.shiftr hi 16) 0xFF);
  e0 ← entry 0 (Z.shiftr hi 24);
  Some (Z.lxor (Z.lxor (Z.lxor (Z.lxor (Z.lxor (Z.lxor (Z.lxor e7 e6) e5) e4) e3) e2) e1) e0).

Definition step1 (c b : Z) : option Z :=
  e ← entry 0 (Z.land (Z.lxor c b) 0xFF); Some (Z.lxor (Z.shiftr c 8) e).

(** The bytes left after the exact chunks. *)
Fixpoint remainder (c : Z) (data : list Z) : option Z :=
  match data with
  | [] => Some c
  | b :: data' => c' ← step1 c b; remainder c' data'
  end.

Fixpoint crc_update (c : Z) (data : list Z) : option Z :=
  match data with
  | b0 :: b1 :: b2 :: b3 :: b4 :: b5 :: b6 :: b7 :: data' =>
      c' ← step8 c [b0; b1; b2; b3; b4; b5; b6; b7]; crc_update c' data'
  | _ => remainder c data
  end.

(** [!state] on [u32]. *)
Definition crc_value (c : Z) : Z := U32 - 1 - c.

Definition checksum (data : list Z) : option Z := c ← crc_update crc_new data; Some (crc_value c).

(** ** The definition of the checksum: eight bit steps per byte *)

Definition byte_step (c b : Z) : Z := steps 8 (Z.lxor c b).

Definition crc_bitwise (c : Z) (data : list Z) : Z := foldl byte_step c data.

(** ** Algebra of the bit step *)

Lemma crc_bit_spec c : crc_bit c = Z.lxor (if Z.testbit c 0 then POLY else 0) (Z.shiftr c 1).
Proof.
  unfold crc_bit. change 1 with (Z.ones 1) at 1. rewrite Z.land_ones by lia.
  change (2 ^ 1) with 2. rewrite Zmod_odd, <- Z.bit0_odd. by destruct (Z.testbit c 0).
Qed.

Lemma crc_bit_lxor a b : crc_bit (Z.lxor a b) = Z.lxor (crc_bit a) (crc_bit b).
Proof.
  rewrite !crc_bit_spec, Z.lxor_spec, Z.shiftr_lxor.
  apply Z.bits_inj'. intros i _. rewrite !Z.lxor_spec.
  by destruct (Z.testbit a 0), (Z.testbit b 0); simpl; rewrite ?Z.bits_0;
    destruct (Z.testbit POLY i), (Z.testbit (Z.shiftr a 1) i), (Z.testbit (Z.shiftr b 1) i).
Qed.

Lemma steps_lxor n a b : steps n (Z.lxor a b) = Z.lxor (steps n a) (steps n b).
Proof. induction n as [|n IH]; [done|]. cbn [steps]. by rewrite IH, crc_bit_lxor. Qed.

Lemma steps_add n m a : steps (n + m) a = steps n (steps m a).
Proof. induction n as [|n IH]; [done|]. cbn [Nat.add steps]. by rewrite IH. Qed.

Lemma crc_bit_double y : crc_bit (Z.shiftl y 1) = y.
Proof.
  rewrite crc_bit_spec, Z.shiftl_spec_low, Z.lxor_0_l, Z.shiftr_shiftl_l by lia. apply Z.shiftl_0_r.
Qed.

(** [n] steps take the low [n] bits away when they are zero. *)
Lemma steps_shiftl n y : steps n (Z.shiftl y (Z.of_nat n)) = y.
Proof.
  revert y. induction n as [|n IH]; intros y; [apply Z.shiftl_0_r|].
  rewrite <- Nat.add_1_l, Nat.add_comm, steps_add, Nat2Z.inj_add.
  rewrite <- Z.shiftl_shiftl by lia. change (steps 1 ?x) with (crc_bit x).
  by rewrite crc_bit_double, IH.
Qed.

Lemma split_low n x :
  x = Z.lxor (Z.shiftl (Z.shiftr x (Z.of_nat n)) (Z.of_nat n)) (Z.land x (Z.ones (Z.of_nat n))).
Proof.
  apply Z.bits_inj'. intros i Hi. rewrite Z.lxor_spec, Z.land_spec, Z.testbit_ones by lia.
  destruct (decide (i < Z.of_nat n)).
  - rewrite Z.shiftl_spec_low by lia. rewrite (proj2 (Z.ltb_lt _ _)) by lia.
    rewrite (proj2 (Z.leb_le 0 i)) by lia. simpl. by destruct (Z.testbit x i).
  - rewrite Z.shiftl_spec, Z.shiftr_spec by lia. replace (i - Z.of_nat n + Z.of_nat n) with i by lia.
    rewrite (proj2 (Z.ltb_ge _ _)) by lia. rewrite andb_false_r. simpl. rewrite andb_false_r.
    by destruct (Z.testbit x i).
Qed.

(** Eight steps: shift the byte out, and divide it alone. *)
Lemma steps_byte n x :
  steps (8 + n) x = Z.lxor (steps n (Z.shiftr x 8)) (steps (8 + n) (Z.land x 0xFF)).
Proof.
  rewrite (split_low 8 x) at 1. rewrite steps_lxor. f_equal.
  rewrite Nat.add_comm, steps_add. change 8 with (Z.of_nat 8). by rewrite steps_shiftl.
Qed.

Lemma steps_byte8 x : steps 8 x = Z.lxor (Z.shiftr x 8) (steps 8 (Z.land x 0xFF)).
Proof. exact (steps_byte 0 x). Qed.

Lemma steps_cons m n b y :
  m = (8 + n)%nat → 0 ≤ b < 256 → steps m (b + 256 * y) = Z.lxor (steps m b) (steps n y).
Proof.
  intros -> Hb. rewrite steps_byte, Z.lxor_comm. change 0xFF with (Z.ones 8).
  rewrite Z.land_ones, Z.shiftr_div_pow2 by lia. change (2 ^ 8) with 256. f_equal; f_equal.
  - rewrite (Z.mul_comm 256), Z.mod_add, Z.mod_small by lia. done.
  - rewrite (Z.mul_comm 256), Z.div_add, Z.div_small by lia. lia.
Qed.

(** ** The tables *)

Lemma table0_entry i : 0 ≤ i < 256 → table0 !! Z.to_nat i = Some (steps 8 i).
Proof.
  intros Hi. unfold table0. rewrite list_lookup_fmap, lookup_seqZ_lt by lia. cbn [fmap option_fmap option_map].
  do 2 f_equal. lia.
Qed.

Lemma land_byte x : 0 ≤ Z.land x 0xFF < 256.
Proof.
  change 0xFF with (Z.ones 8). rewrite Z.land_ones by lia. by apply Z.mod_pos_bound.
Qed.

Lemma next_entry_steps x : next_entry x = steps 8 x.
Proof.
  unfold next_entry. rewrite (table0_entry _ (land_byte x)). cbn [default from_option].
  by rewrite (steps_byte8 x).
Qed.

Lemma make_tables_lookup n t s :
  (s < n)%nat → make_tables n t !! s = Some (steps (8 * s) <$> t).
Proof.
  revert t s. induction n as [|n IH]; intros t s Hs; [lia|]. destruct s as [|s]; cbn [make_tables].
  - cbn [lookup list_lookup]. f_equal. rewrite <- (list_fmap_id t) at 1. by apply list_fmap_ext.
  - cbn [lookup list_lookup]. change (list_lookup s ?l) with (l !! s). rewrite IH by lia. f_equal.
    rewrite <- list_fmap_compose. apply list_fmap_ext. intros _ x _. unfold compose.
    rewrite next_entry_steps, <- steps_add. f_equal. lia.
Qed.

Lemma entry_steps s i :
  (s < 8)%nat → 0 ≤ i < 256 → entry s i = Some (steps (8 * S s) i).
Proof.
  intros Hs Hi. unfold entry, TABLES. rewrite make_tables_lookup by done. cbn [mbind option_bind].
  rewrite list_lookup_fmap, table0_entry by done. cbn [fmap option_fmap option_map].
  rewrite <- steps_add. do 2 f_equal. lia.
Qed.

Lemma step1_bitwise c b : is_byte b → step1 c b = Some (byte_step c b).
Proof.
  intros Hb. unfold step1, byte_step. rewrite entry_steps by (lia || apply land_byte).
  cbn [mbind option_bind]. f_equal. rewrite (steps_byte8 (Z.lxor c b)), Z.shiftr_lxor.
  change (8 * 1)%nat with 8%nat. f_equal.
  rewrite (Z.shiftr_eq_0 b), Z.lxor_0_r; [done|unfold is_byte in Hb; lia|].
  unfold is_byte in Hb. destruct (decide (b = 0)) as [->|]; [done|]. apply Z.log2_lt_pow2; lia.
Qed.

(** A 32-bit word divided byte by byte. *)
Lemma steps_word n x :
  0 ≤ x < U32 →
  steps (32 + n) x =
  Z.lxor (Z.lxor (Z.lxor (steps (32 + n) (Z.land x 0xFF)) (steps (24 + n) (Z.land (Z.shiftr x 8) 0xFF)))
    (steps (16 + n) (Z.land (Z.shiftr x 16) 0xFF))) (steps (8 + n) (Z.shiftr x 24)).
Proof.
  intros Hx. change (32 + n)%nat with (8 + (24 + n))%nat. rewrite steps_byte.
  change (24 + n)%nat with (8 + (16 + n))%nat at 1. rewrite steps_byte, Z.shiftr_shiftr by lia.
  change (16 + n)%nat with (8 + (8 + n))%nat at 1. rewrite steps_byte, Z.shiftr_shiftr by lia.
  cbn [Nat.add]. change (8 + 8 + 8) with 24. change (8 + 8) with 16. lxor_ac.
Qed.

Lemma le_val_4 a b c d : le_val [a; b; c; d] = a + 256 * (b + 256 * (c + 256 * d)).
Proof. cbn [le_val]. lia. Qed.

Lemma steps_le_val_4 n a b c d :
  is_byte a → is_byte b → is_byte c → is_byte d →
  steps (32 + n) (le_val [a; b; c; d]) =
  Z.lxor (steps (32 + n) a) (Z.lxor (steps (24 + n) b) (Z.lxor (steps (16 + n) c) (steps (8 + n) d))).
Proof.
  intros. rewrite le_val_4, (steps_cons (32 + n) (24 + n)), (steps_cons (24 + n) (16 + n)),
    (steps_cons (16 + n) (8 + n)) by (lia || done). done.
Qed.

Lemma lxor_u32 a b : 0 ≤ a < U32 → 0 ≤ b < U32 → 0 ≤ Z.lxor a b < U32.
Proof.
  intros Ha Hb. split; [apply Z.lxor_nonneg; lia|].
  destruct (decide (Z.lxor a b = 0)) as [->|Hn]; [unfold U32; lia|].
  apply Z.log2_lt_pow2; [pose proof (Z.lxor_nonneg a b); lia|].
  pose proof (Z.log2_lxor a b ltac:(lia) ltac:(lia)).
  assert (∀ x, 0 ≤ x < U32 → Z.log2 x < 32) as Hl.
  { intros x Hx. destruct (decide (x = 0)) as [->|]; [done|]. apply Z.log2_lt_pow2; unfold U32 in Hx; lia. }
  pose proof (Hl a Ha). pose proof (Hl b Hb). lia.
Qed.

Lemma le_val_4_u32 a b c d :
  is_byte a → is_byte b → is_byte c → is_byte d → 0 ≤ le_val [a; b; c; d] < U32.
Proof. intros. rewrite le_val_4. unfold is_byte, U32 in *. lia. Qed.

Lemma word_bytes x i : 0 ≤ x < U32 → i = 24 → 0 ≤ Z.shiftr x i < 256.
Proof.
  intros Hx ->. rewrite Z.shiftr_div_pow2 by lia. unfold U32 in Hx.
  split; [apply Z.div_pos; lia|apply Z.div_lt_upper_bound; lia].
Qed.

Lemma step8_bitwise c b0 b1 b2 b3 b4 b5 b6 b7 :
  0 ≤ c < U32 → Forall is_byte [b0; b1; b2; b3; b4; b5; b6; b7] →
  step8 c [b0; b1; b2; b3; b4; b5; b6; b7] = Some (crc_bitwise c [b0; b1; b2; b3; b4; b5; b6; b7]).
Proof.
  intros Hc Hb. rewrite !Forall_cons in Hb. destruct Hb as (H0 & H1 & H2 & H3 & H4 & H5 & H6 & H7 & _).
  unfold step8. cbn [take drop]. pose proof (le_val_4_u32 b0 b1 b2 b3 H0 H1 H2 H3) as Hlo.
  pose proof (le_val_4_u32 b4 b5 b6 b7 H4 H5 H6 H7) as Hhi. pose proof (lxor_u32 _ _ Hc Hlo) as Hx.
  rewrite !entry_steps by (lia || apply land_byte || by apply word_bytes). cbn [mbind option_bind]. f_equal.
  change (8 * 8)%nat with (32 + 32)%nat. change (8 * 7)%nat with (24 + 32)%nat.
  change (8 * 6)%nat with (16 + 32)%nat. change (8 * 5)%nat with (8 + 32)%nat.
  change (8 * 4)%nat with (32 + 0)%nat. change (8 * 3)%nat with (24 + 0)%nat.
  change (8 * 2)%nat with (16 + 0)%nat. change (8 * 1)%nat with (8 + 0)%nat.
  rewrite <- (steps_word 32 (Z.lxor c (le_val [b0; b1; b2; b3])) Hx).
  transitivity (Z.lxor (steps (32 + 32) (Z.lxor c (le_val [b0; b1; b2; b3])))
    (steps (32 + 0) (le_val [b4; b5; b6; b7]))).
  { rewrite (steps_word 0 _ Hhi). lxor_ac. }
  rewrite steps_lxor, !steps_le_val_4 by done.
  unfold crc_bitwise, byte_step. cbn [foldl]. rewrite !steps_lxor, <- !steps_add. cbn [Nat.add]. lxor_ac.
Qed.

(** ** The running checksum *)

Lemma crc_bit_u32 c : 0 ≤ c < U32 → 0 ≤ crc_bit c < U32.
Proof.
  intros Hc. rewrite crc_bit_spec. apply lxor_u32.
  - destruct (Z.testbit c 0); unfold POLY, U32; lia.
  - rewrite Z.shiftr_div_pow2 by lia. change (2 ^ 1) with 2.
    split; [apply Z.div_pos; lia|apply Z.div_lt_upper_bound; unfold U32 in *; lia].
Qed.

Lemma byte_step_u32 c b : 0 ≤ c < U32 → is_byte b → 0 ≤ byte_step c b < U32.
Proof.
  intros Hc Hb. unfold byte_step. assert (0 ≤ Z.lxor c b < U32) as Hx.
  { apply lxor_u32; [done|]. unfold is_byte, U32 in *. lia. }
  cbn [steps]. do 8 apply crc_bit_u32. done.
Qed.

Lemma crc_bitwise_u32 c data : 0 ≤ c < U32 → Forall is_byte data → 0 ≤ crc_bitwise c data < U32.
Proof.
  intros Hc Hd. unfold crc_bitwise. revert c Hc.
  induction Hd as [|b data Hb _ IH]; intros c Hc; cbn [foldl]; [done|]. by apply IH, byte_step_u32.
Qed.

Lemma remainder_bitwise c data : Forall is_byte data → remainder c data = Some (crc_bitwise c data).
Proof.
  intros Hd. unfold crc_bitwise. revert c. induction Hd as [|b data Hb _ IH]; intros c; [done|].
  cbn [remainder foldl]. rewrite step1_bitwise by done. cbn [mbind option_bind]. apply IH.
Qed.

Lemma crc_update_bitwise c data :
  0 ≤ c < U32 → Forall is_byte data → crc_update c data = Some (crc_bitwise c data).
Proof.
  intros Hc Hd. remember (length data) as n eqn:Hn. revert c data Hn Hc Hd.
  induction (lt_wf n) as [n _ IH]; intros c data -> Hc Hd.
  destruct data as [|b0 [|b1 [|b2 [|b3 [|b4 [|b5 [|b6 [|b7 data]]]]]]]];
    cbn [crc_update]; try by apply remainder_bitwise.
  change (b0 :: b1 :: b2 :: b3 :: b4 :: b5 :: b6 :: b7 :: data)
    with ([b0; b1; b2; b3; b4; b5; b6; b7] ++ data) in *.
  apply Forall_app in Hd as [Hb Hd]. rewrite step8_bitwise by done. cbn [mbind option_bind].
  rewrite (IH (length data)); [|simpl; lia|done|by apply crc_bitwise_u32|done].
  unfold crc_bitwise. by rewrite foldl_app.
Qed.

(** C40. The slice-by-8 checksum is CRC-32: over any split of the data into
    [update] calls, the table-driven loop (no access out of range) computes
    the bit-by-bit division of the whole. *)
Theorem crc32_slice_by_8 c d1 d2 :
  0 ≤ c < U32 → Forall is_byte d1 → Forall is_byte d2 →
  (c1 ← crc_update c d1; crc_update c1 d2) = Some (crc_bitwise c (d1 ++ d2)).
Proof.
  intros Hc H1 H2. rewrite crc_update_bitwise by done. cbn [mbind option_bind].
  rewrite crc_update_bitwise by (try apply crc_bitwise_u32; done).
  unfold crc_bitwise. by rewrite foldl_app.
Qed.

Lemma crc32_slice_by_8_witness :
  (c1 ← crc_update crc_new [49; 50; 51; 52; 53; 54; 55; 56; 57]; crc_update c1 [48]) =
  Some (crc_bitwise crc_new [49; 50; 51; 52; 53; 54; 55; 56; 57; 48]).
Proof.
  apply (crc32_slice_by_8 crc_new [49; 50; 51; 52; 53; 54; 55; 56; 57] [48]).
  - unfold crc_new, U32. lia.
  - repeat constructor; unfold is_byte; lia.
  - repeat constructor; unfold is_byte; lia.
Defined.

(** The standard check value of the nine digits. *)
Lemma crc32_check_value : checksum [49; 50; 51; 52; 53; 54; 55; 56; 57] = Some 0xCBF43926.
Proof. vm_compute. reflexivity. Qed.
