(* ===== verification/Codec.v ===== *)
(** * Base64 and hexadecimal

    Models [lib/codec/src/lib.rs].  Text is given by its bytes; the decoders
    look at bytes only. *)

From Stdlib Require Import Strings.String.
From S2P Require Import Prelude Text.
Import Datatypes.

Module Base64.

Definition STD : list Z := txt "ABCDEFGHIJKLMNOPQRSTUVWXYZabcdefghijklmnopqrstuvwxyz0123456789+/".
Definition URL : list Z := txt "ABCDEFGHIJKLMNOPQRSTUVWXYZabcdefghijklmnopqrstuvwxyz0123456789-_".

Definition EQ : Z := 61.

(** The character for the [i]-th sextet of a 24-bit group. *)
Definition sextet (alpha : list Z) (n : Z) (i : Z) : Z :=
  default 0 (alpha !! Z.to_nat (Z.land (Z.shiftr n (18 - 6 * i)) 63)).

(** One chunk of one to three bytes. *)
Definition enc_chunk (alpha : list Z) (pad : bool) (chunk : list Z) : list Z :=
  let b := λ i, default 0 (chunk !! i) in
  let n := Z.lor (Z.lor (Z.shiftl (b 0%nat) 16) (Z.shiftl (b 1%nat) 8)) (b 2%nat) in
  let chars := Z.of_nat (length chunk) + 1 in
  seqZ 0 4 ≫= λ i, if i <? chars then [sextet alpha n i] else if pad then [EQ] else [].

Fixpoint enc (data alpha : list Z) (pad : bool) : list Z :=
  match data with
  | a :: b :: c :: data' => enc_chunk alpha pad [a; b; c] ++ enc data' alpha pad
  | [] => []
  | _ => enc_chunk alpha pad data
  end.

(** The reverse table: 255 marks a byte outside the alphabet. *)
Definition rev_map (alpha : list Z) : gmap Z Z :=
  foldl (λ m ic, <[ic.2 := ic.1]> m) ∅ (zip (seqZ 0 64) alpha).

Definition rev_at (alpha : list Z) (c : Z) : Z := default 255 (rev_map alpha !! c).

Record st := mkSt { out : list Z; acc : Z; bits : Z }.

Definition push_sextet (s : st) (v : Z) : st :=
  let acc := Z.lor (Z.shiftl (acc s) 6 mod U32) v in
  let bits := bits s + 6 in
  if 8 <=? bits then
    let bits := bits - 8 in
    mkSt (out s ++ [Z.shiftr acc bits mod 256]) (Z.land acc (Z.shiftl 1 bits - 1)) bits
  else mkSt (out s) acc bits.

Fixpoint dec_loop (alpha s : list Z) (t : st) : option st :=
  match s with
  | [] => Some t
  | c :: s' =>
      if (c =? 10) || (c =? 13) || (c =? 32) then dec_loop alpha s' t
      else
        let v := rev_at alpha c in
        if v =? 255 then None else dec_loop alpha s' (push_sextet t v)
  end.

(** [trim_end_matches('=')]. *)
Definition trim_eq (s : list Z) : list Z := reverse (drop_while (Z.eqb EQ) (reverse s)).

Definition dec (s alpha : list Z) : option (list Z) :=
  t ← dec_loop alpha (trim_eq s) (mkSt [] 0 0);
  if (6 <=? bits t) || negb (acc t =? 0) then None else Some (out t).

Definition encode (data : list Z) : list Z := enc data STD true.
Definition encode_nopad (data : list Z) : list Z := enc data STD false.
Definition encode_url (data : list Z) : list Z := enc data URL false.
Definition decode (s : list Z) : option (list Z) := dec s STD.
Definition decode_url (s : list Z) : option (list Z) := dec s URL.

End Base64.

Module Hex.

Definition H : list Z := txt "0123456789abcdef".

Definition digit (n : Z) : Z := default 0 (H !! Z.to_nat n).

Definition encode (data : list Z) : list Z :=
  data ≫= λ b, [digit (Z.shiftr b 4); digit (Z.land b 15)].

Definition hex_value (c : Z) : option Z :=
  if is_ascii_digit c then Some (c - 48)
  else if between 97 c 102 then Some (c - 87)
  else if between 65 c 70 then Some (c - 55)
  else None.

(** [u8::from_str_radix] on two bytes in base 16: a leading [+] is accepted. *)
Definition from_str_radix16 (a b : Z) : option Z :=
  if a =? 43 then hex_value b
  else x ← hex_value a; y ← hex_value b; Some (x * 16 + y).

Fixpoint decode_pairs (s : list Z) : option (list Z) :=
  match s with
  | [] => Some []
  | a :: b :: s' => v ← from_str_radix16 a b; r ← decode_pairs s'; Some (v :: r)
  | [_] => None
  end.

Definition decode (s : list Z) : option (list Z) :=
  if Z.of_nat (length s) mod 2 =? 0 then decode_pairs s else None.

End Hex.

(** ** Hexadecimal *)

Lemma hex_digit_value n : 0 ≤ n < 16 → Hex.hex_value (Hex.digit n) = Some n ∧ Hex.digit n ≠ 43.
Proof.
  intros Hn. assert (forallb (λ n, bool_decide (Hex.hex_value (Hex.digit n) = Some n ∧ Hex.digit n ≠ 43))
    (seqZ 0 16) = true) as E by (vm_compute; reflexivity).
  rewrite forallb_forall in E. apply (bool_decide_eq_true_1 _), E, list_elem_of_In, elem_of_seqZ. lia.
Qed.

Lemma hex_decode_pairs data : Forall is_byte data → Hex.decode_pairs (Hex.encode data) = Some data.
Proof.
  induction 1 as [|b data Hb _ IH]; [done|]. unfold Hex.encode in *. rewrite bind_cons. cbn [app Hex.decode_pairs].
  unfold is_byte in Hb. assert (0 ≤ Z.shiftr b 4 < 16) as Hh.
  { rewrite Z.shiftr_div_pow2 by lia. split; [apply Z.div_pos; lia|apply Z.div_lt_upper_bound; lia]. }
  assert (Z.land b 15 = b mod 16) as El by (change 15 with (Z.ones 4); by rewrite Z.land_ones by lia).
  pose proof (Z.mod_pos_bound b 16 ltac:(lia)) as Hl. rewrite El.
  destruct (hex_digit_value _ Hh) as [Eh Hne], (hex_digit_value _ Hl) as [Ell _].
  unfold Hex.from_str_radix16. rewrite (proj2 (Z.eqb_neq _ _) Hne), Eh, Ell. cbn [mbind option_bind].
  rewrite IH. cbn [mbind option_bind]. do 2 f_equal. rewrite Z.shiftr_div_pow2 by lia. change (2 ^ 4) with 16.
  rewrite (Z.div_mod b 16) at 3 by lia. lia.
Qed.

Lemma hex_encode_length data : length (Hex.encode data) = (2 * length data)%nat.
Proof.
  unfold Hex.encode. induction data as [|b data IH]; [done|]. rewrite bind_cons. cbn [app length]. lia.
Qed.

(** Hexadecimal survives a round trip: decoding the encoding of any bytes
    gives them back. *)
Theorem hex_roundtrip data : Forall is_byte data → Hex.decode (Hex.encode data) = Some data.
Proof.
  intros Hd. unfold Hex.decode. rewrite hex_encode_length, Nat2Z.inj_mul.
  change (Z.of_nat 2) with 2. rewrite Z.mul_comm, Z.mod_mul by lia. by apply hex_decode_pairs.
Qed.

Lemma hex_roundtrip_witness : Hex.decode (Hex.encode [0; 171; 255]) = Some [0; 171; 255].
Proof. apply (hex_roundtrip [0; 171; 255]). repeat constructor; unfold is_byte; lia. Defined.

(** The decoder is not strict: a sign is taken for a digit. *)
Lemma hex_accepts_sign : Hex.decode (txt "+f") = Some [15].
Proof. by vm_compute. Qed.

(** ** Base64: the alphabet *)

Section base64.
Import Base64.
Context (alpha : list Z).

Definition dig (v : Z) : Z := default 0 (alpha !! Z.to_nat v).

Definition is_space (c : Z) : bool := (c =? 10) || (c =? 13) || (c =? 32).

Definition sextet_ok (v : Z) : Prop := 0 ≤ v < 64.

(** What both alphabets provide: sixty-four characters, inverted by the
    reverse table, none of them a space or the padding. *)
Record alphabet : Prop := {
  al_dig v : sextet_ok v → rev_at alpha (dig v) = v ∧ is_space (dig v) = false ∧ dig v ≠ EQ;
  al_rev c : rev_at alpha c ≠ 255 → sextet_ok (rev_at alpha c) ∧ dig (rev_at alpha c) = c;
}.

Hypothesis Hal : alphabet.

(** ** Base64: arithmetic of a group *)

Lemma push_low s v :
  0 ≤ acc s < 64 → sextet_ok v → bits s < 2 →
  push_sextet s v = mkSt (out s) (acc s * 64 + v) (bits s + 6).
Proof using Type.
  intros Ha Hv Hb. unfold push_sextet. cbv zeta. rewrite (Z.mod_small (Z.shiftl (acc s) 6)).
  - rewrite lor_shiftl_add by (unfold sextet_ok in Hv; lia). destruct (Z.leb_spec 8 (bits s + 6)); [lia|done].
  - rewrite Z.shiftl_mul_pow2 by lia. unfold U32. lia.
Qed.

Lemma push_high s v :
  0 ≤ acc s < 64 → sextet_ok v → 2 ≤ bits s ≤ 6 →
  push_sextet s v = mkSt (out s ++ [(acc s * 64 + v) / 2 ^ (bits s - 2) mod 256])
    ((acc s * 64 + v) mod 2 ^ (bits s - 2)) (bits s - 2).
Proof using Type.
  intros Ha Hv Hb. unfold push_sextet. cbv zeta. rewrite (Z.mod_small (Z.shiftl (acc s) 6)).
  - rewrite lor_shiftl_add by (unfold sextet_ok in Hv; lia). destruct (Z.leb_spec 8 (bits s + 6)); [|lia].
    replace (bits s + 6 - 8) with (bits s - 2) by lia. change (2 ^ 6) with 64.
    rewrite Z.shiftr_div_pow2, Z.shiftl_1_l by lia.
    rewrite Z.sub_1_r, <- Z.ones_equiv, Z.land_ones by lia. done.
  - rewrite Z.shiftl_mul_pow2 by lia. unfold U32. lia.
Qed.

(** The four sextets of a group, and what pushing them yields. *)
Lemma push_group o v1 v2 v3 v4 :
  sextet_ok v1 → sextet_ok v2 → sextet_ok v3 → sextet_ok v4 →
  foldl push_sextet (mkSt o 0 0) [v1; v2] = mkSt (o ++ [v1 * 4 + v2 / 16]) (v2 mod 16) 4 ∧
  foldl push_sextet (mkSt o 0 0) [v1; v2; v3] =
    mkSt (o ++ [v1 * 4 + v2 / 16; v2 mod 16 * 16 + v3 / 4]) (v3 mod 4) 2 ∧
  foldl push_sextet (mkSt o 0 0) [v1; v2; v3; v4] =
    mkSt (o ++ [v1 * 4 + v2 / 16; v2 mod 16 * 16 + v3 / 4; v3 mod 4 * 64 + v4]) 0 0.
Proof using Type.
  unfold sextet_ok. intros H1 H2 H3 H4.
  assert (foldl push_sextet (mkSt o 0 0) [v1; v2] = mkSt (o ++ [v1 * 4 + v2 / 16]) (v2 mod 16) 4) as E2.
  { cbn [foldl]. rewrite (push_low (mkSt o 0 0)) by (simpl; unfold sextet_ok; lia).
    rewrite push_high by (simpl; unfold sextet_ok; lia). cbn [acc bits out]. change (2 ^ (0 + 6 - 2)) with 16.
    f_equal; [do 2 f_equal|]; Z.div_mod_to_equations; lia. }
  assert (foldl push_sextet (mkSt o 0 0) [v1; v2; v3] =
    mkSt (o ++ [v1 * 4 + v2 / 16; v2 mod 16 * 16 + v3 / 4]) (v3 mod 4) 2) as E3.
  { change [v1; v2; v3] with ([v1; v2] ++ [v3]). rewrite foldl_app, E2. cbn [foldl].
    rewrite push_high by (simpl; unfold sextet_ok; Z.div_mod_to_equations; lia). cbn [acc bits out].
    change (2 ^ (4 - 2)) with 4. rewrite <- app_assoc.
    f_equal; [do 2 f_equal; simpl; do 2 f_equal|]; Z.div_mod_to_equations; lia. }
  split_and!; [done|done|]. change [v1; v2; v3; v4] with ([v1; v2; v3] ++ [v4]). rewrite foldl_app, E3.
  cbn [foldl]. rewrite push_high by (simpl; unfold sextet_ok; Z.div_mod_to_equations; lia).
  cbn [acc bits out]. change (2 ^ (2 - 2)) with 1. rewrite <- app_assoc.
  f_equal; [do 2 f_equal; simpl; do 3 f_equal|]; Z.div_mod_to_equations; lia.
Qed.

Definition code3 (a b c : Z) : list Z :=
  [a / 4; a mod 4 * 16 + b / 16; b mod 16 * 4 + c / 64; c mod 64].

(** A chunk in arithmetic form. *)
Lemma enc_chunk_arith pad chunk a b c :
  (a = default 0 (chunk !! 0%nat)) → (b = default 0 (chunk !! 1%nat)) → (c = default 0 (chunk !! 2%nat)) →
  is_byte a → is_byte b → is_byte c → (1 ≤ length chunk ≤ 3)%nat →
  enc_chunk alpha pad chunk =
    (dig <$> take (S (length chunk)) (code3 a b c)) ++ (if pad then replicate (3 - length chunk) EQ else []).
Proof using Type.
  unfold is_byte. intros -> -> -> Ha Hb Hc Hl. unfold enc_chunk, sextet.
  set (a := default 0 (chunk !! 0%nat)) in *. set (b := default 0 (chunk !! 1%nat)) in *.
  set (c := default 0 (chunk !! 2%nat)) in *.
  assert (Z.lor (Z.lor (Z.shiftl a 16) (Z.shiftl b 8)) c = a * 65536 + b * 256 + c) as ->.
  { rewrite <- Z.lor_assoc, (lor_shiftl_add b 8) by lia. rewrite lor_shiftl_add by lia. lia. }
  assert (∀ i, 0 ≤ i ≤ 3 → Z.land (Z.shiftr (a * 65536 + b * 256 + c) (18 - 6 * i)) 63 =
    (a * 65536 + b * 256 + c) / 2 ^ (18 - 6 * i) mod 64) as Hs.
  { intros i Hi. change 63 with (Z.ones 6). by rewrite Z.land_ones, Z.shiftr_div_pow2 by lia. }
  change (seqZ 0 4) with [0; 1; 2; 3]. rewrite !bind_cons. cbn [mbind list_bind]. rewrite !Hs by lia.
  change (2 ^ (18 - 6 * 0)) with 262144. change (2 ^ (18 - 6 * 1)) with 4096.
  change (2 ^ (18 - 6 * 2)) with 64. change (2 ^ (18 - 6 * 3)) with 1.
  assert (code3 a b c = [(a * 65536 + b * 256 + c) / 262144 mod 64; (a * 65536 + b * 256 + c) / 4096 mod 64;
    (a * 65536 + b * 256 + c) / 64 mod 64; (a * 65536 + b * 256 + c) / 1 mod 64]) as ->.
  { unfold code3. f_equal; [|f_equal; [|f_equal; [|f_equal]]]; Z.div_mod_to_equations; lia. }
  destruct (length chunk) as [|[|[|[|?]]]]; [lia| | | |lia]; by destruct pad.
Qed.

Lemma code3_ok a b c : is_byte a → is_byte b → is_byte c → Forall sextet_ok (code3 a b c).
Proof using Type.
  unfold is_byte, code3. intros. repeat constructor; unfold sextet_ok; Z.div_mod_to_equations; lia.
Qed.

(** ** Base64: encoding is a list of sextets and padding *)

Fixpoint digits (data : list Z) : list Z :=
  match data with
  | a :: b :: c :: data' => code3 a b c ++ digits data'
  | [a; b] => take 3 (code3 a b 0)
  | [a] => take 2 (code3 a 0 0)
  | [] => []
  end.

Definition padding (data : list Z) : nat :=
  match (length data mod 3)%nat with 1%nat => 2 | 2%nat => 1 | _ => 0 end.

Lemma enc_digits pad data :
  Forall is_byte data →
  enc data alpha pad = (dig <$> digits data) ++ (if pad then replicate (padding data) EQ else []).
Proof using Type.
  intros Hd. remember (length data) as n eqn:Hn. revert data Hn Hd.
  induction (lt_wf n) as [n _ IH]; intros data -> Hd.
  assert (is_byte 0) as H0 by (unfold is_byte; lia).
  destruct data as [|a [|b [|c data]]]; rewrite ?Forall_cons in Hd; cbn [enc digits].
  - by destruct pad.
  - by rewrite (enc_chunk_arith pad [a] a 0 0) by (done || apply Hd || simpl; lia).
  - by rewrite (enc_chunk_arith pad [a; b] a b 0) by (done || apply Hd || simpl; lia).
  - destruct Hd as (Ha & Hb & Hc & Hd).
    rewrite (enc_chunk_arith pad [a; b; c] a b c) by (done || simpl; lia).
    rewrite (IH (length data)) by (done || simpl; lia). rewrite fmap_app, <- !app_assoc. f_equal.
    replace (padding (a :: b :: c :: data)) with (padding data).
    { by destruct pad. }
    unfold padding. cbn [length]. replace (S (S (S (length data)))) with (length data + 1 * 3)%nat by lia.
    by rewrite Nat.Div0.mod_add.
Qed.

Lemma digits_ok data : Forall is_byte data → Forall sextet_ok (digits data).
Proof using Type.
  intros Hd. remember (length data) as n eqn:Hn. revert data Hn Hd.
  induction (lt_wf n) as [n _ IH]; intros data -> Hd.
  assert (is_byte 0) as H0 by (unfold is_byte; lia).
  destruct data as [|a [|b [|c data]]]; rewrite ?Forall_cons in Hd; cbn [digits].
  - constructor.
  - apply Forall_take, code3_ok; [apply Hd|done..].
  - apply Forall_take, code3_ok; [apply Hd..|done].
  - destruct Hd as (Ha & Hb & Hc & Hd). apply Forall_app. split; [by apply code3_ok|].
    apply (IH (length data)); [simpl; lia|done..].
Qed.

(** Pushing the digits of [data] gives back [data] and leaves nothing over. *)
Lemma push_digits data o :
  Forall is_byte data →
  ∃ k, foldl push_sextet (mkSt o 0 0) (digits data) = mkSt (o ++ data) 0 k ∧ k < 6.
Proof using Type.
  intros Hd. remember (length data) as n eqn:Hn. revert o data Hn Hd.
  induction (lt_wf n) as [n _ IH]; intros o data -> Hd.
  assert (is_byte 0) as H0 by (unfold is_byte; lia).
  destruct data as [|a [|b [|c data]]]; rewrite ?Forall_cons in Hd; cbn [digits].
  - exists 0. cbn. by rewrite app_nil_r.
  - exists 4. pose proof (code3_ok a 0 0 (proj1 Hd) H0 H0) as Hc. unfold code3 in *. rewrite !Forall_cons in Hc.
    destruct Hc as (H1 & H2 & H3 & H4 & _). cbn [take].
    destruct (push_group o _ _ _ _ H1 H2 H3 H4) as [-> _]. unfold is_byte in *. split; [|lia].
    f_equal; [do 2 f_equal|]; Z.div_mod_to_equations; lia.
  - exists 2. destruct Hd as (Ha & Hb & _). pose proof (code3_ok a b 0 Ha Hb H0) as Hc. unfold code3 in *.
    rewrite !Forall_cons in Hc. destruct Hc as (H1 & H2 & H3 & H4 & _). cbn [take].
    destruct (push_group o _ _ _ _ H1 H2 H3 H4) as (_ & -> & _). unfold is_byte in *. split; [|lia].
    f_equal; [do 2 f_equal; [|f_equal]|]; Z.div_mod_to_equations; lia.
  - destruct Hd as (Ha & Hb & Hc & Hd). pose proof (code3_ok a b c Ha Hb Hc) as Hg.
    rewrite foldl_app. unfold code3 in *. rewrite !Forall_cons in Hg. destruct Hg as (H1 & H2 & H3 & H4 & _).
    destruct (push_group o _ _ _ _ H1 H2 H3 H4) as (_ & _ & ->).
    destruct (IH (length data) ltac:(simpl; lia)
      (o ++ [a / 4 * 4 + (a mod 4 * 16 + b / 16) / 16;
        (a mod 4 * 16 + b / 16) mod 16 * 16 + (b mod 16 * 4 + c / 64) / 4;
        (b mod 16 * 4 + c / 64) mod 4 * 64 + c mod 64]) data eq_refl Hd) as (k & -> & Hk).
    exists k. split; [|done]. unfold is_byte in *. rewrite <- app_assoc. simpl.
    f_equal. f_equal. f_equal; [|f_equal; [|f_equal]]; Z.div_mod_to_equations; lia.
Qed.

(** ** Base64: the decoding loop *)

Lemma dec_loop_digits vs t :
  Forall sextet_ok vs → dec_loop alpha (dig <$> vs) t = Some (foldl push_sextet t vs).
Proof using Hal.
  intros Hvs. revert t. induction Hvs as [|v vs Hv _ IH]; intros t; [done|].
  rewrite fmap_cons. cbn [dec_loop foldl]. destruct (al_dig Hal v Hv) as (Hr & Hs & _).
  unfold is_space in Hs. rewrite Hs, Hr. unfold sextet_ok in Hv.
  destruct (Z.eqb_spec v 255); [lia|]. apply IH.
Qed.

(** The characters the loop looks at. *)
Definition visible (s : list Z) : list Z := List.filter (λ c, negb (is_space c)) s.

Lemma dec_loop_inv s t t' :
  dec_loop alpha s t = Some t' →
  ∃ vs, Forall sextet_ok vs ∧ visible s = dig <$> vs ∧ t' = foldl push_sextet t vs.
Proof using Hal.
  revert t. induction s as [|c s IH]; intros t; cbn [dec_loop].
  { intros [= <-]. exists []. by split_and!. }
  unfold visible. cbn [List.filter]. unfold is_space at 1.
  destruct ((c =? 10) || (c =? 13) || (c =? 32)); cbn [negb]; [by intros ?%IH|].
  destruct (Z.eqb_spec (rev_at alpha c) 255) as [|Hne]; [done|].
  intros (vs & Hvs & Hvis & ->)%IH. destruct (al_rev Hal c Hne) as [Hr Hd].
  exists (rev_at alpha c :: vs). split_and!; [by constructor| |done].
  rewrite fmap_cons, Hd. f_equal. exact Hvis.
Qed.

(** Sextets that leave no set bits over are the digits of some bytes. *)
Lemma push_canonical vs o t :
  Forall sextet_ok vs → foldl push_sextet (mkSt o 0 0) vs = t → bits t < 6 → acc t = 0 →
  ∃ data, out t = o ++ data ∧ Forall is_byte data ∧ digits data = vs.
Proof using Type.
  intros Hvs. remember (length vs) as n eqn:Hn. revert o t vs Hn Hvs.
  induction (lt_wf n) as [n _ IH]; intros o t vs -> Hvs Ht Hb Ha.
  assert (sextet_ok 0) as H0 by (unfold sextet_ok; lia).
  destruct vs as [|v1 [|v2 [|v3 [|v4 vs]]]]; rewrite ?Forall_cons in Hvs.
  - subst t. exists []. by rewrite app_nil_r.
  - cbn [foldl] in Ht. destruct Hvs as [H1 _].
    rewrite push_low in Ht by (simpl; unfold sextet_ok in *; lia). subst t. simpl in Hb. lia.
  - destruct Hvs as (H1 & H2 & _). destruct (push_group o v1 v2 0 0 H1 H2 H0 H0) as [E _].
    rewrite E in Ht. subst t. cbn [bits acc out] in *. unfold sextet_ok in *.
    exists [v1 * 4 + v2 / 16]. split_and!; [done| |].
    + repeat constructor; unfold is_byte; Z.div_mod_to_equations; lia.
    + cbn [digits]. unfold code3. cbn [take]. f_equal; [|f_equal]; Z.div_mod_to_equations; lia.
  - destruct Hvs as (H1 & H2 & H3 & _). destruct (push_group o v1 v2 v3 0 H1 H2 H3 H0) as (_ & E & _).
    rewrite E in Ht. subst t. cbn [bits acc out] in *. unfold sextet_ok in *.
    exists [v1 * 4 + v2 / 16; v2 mod 16 * 16 + v3 / 4]. split_and!; [done| |].
    + repeat constructor; unfold is_byte; Z.div_mod_to_equations; lia.
    + cbn [digits]. unfold code3. cbn [take].
      f_equal; [|f_equal; [|f_equal]]; Z.div_mod_to_equations; lia.
  - destruct Hvs as (H1 & H2 & H3 & H4 & Hvs). destruct (push_group o v1 v2 v3 v4 H1 H2 H3 H4) as (_ & _ & E).
    change (v1 :: v2 :: v3 :: v4 :: vs) with ([v1; v2; v3; v4] ++ vs) in Ht. rewrite foldl_app, E in Ht.
    destruct (IH (length vs) ltac:(simpl; lia) _ t vs eq_refl Hvs Ht Hb Ha) as (data & Ho & Hd & Hg).
    unfold sextet_ok in *. eexists (_ :: _ :: _ :: data). rewrite Ho, <- app_assoc. split_and!; [done| |].
    + repeat (constructor; [unfold is_byte; Z.div_mod_to_equations; lia|]). done.
    + cbn [digits]. rewrite Hg. unfold code3. cbn [app].
      f_equal; [|f_equal; [|f_equal; [|f_equal]]]; Z.div_mod_to_equations; lia.
Qed.

(** Trimming removes exactly the padding. *)
Lemma drop_while_replicate k l :
  (∀ c l', l = c :: l' → c ≠ EQ) → drop_while (Z.eqb EQ) (replicate k EQ ++ l) = l.
Proof using Type.
  intros Hl. induction k as [|k IH]; [|done]. destruct l as [|c l]; [done|]. cbn [replicate app drop_while].
  destruct (Z.eqb_spec EQ c) as [E|]; [|done]. by destruct (Hl c l eq_refl).
Qed.

Lemma trim_enc pad data : Forall is_byte data → trim_eq (enc data alpha pad) = dig <$> digits data.
Proof using Hal.
  intros Hd. rewrite enc_digits by done. set (k := if pad then padding data else 0%nat).
  replace (if pad then replicate (padding data) EQ else []) with (replicate k EQ) by by destruct pad.
  unfold trim_eq. rewrite reverse_app, reverse_replicate, drop_while_replicate, reverse_involutive; [done|].
  intros c l' E. assert (c ∈ reverse (dig <$> digits data)) as Hc by (rewrite E; by left).
  apply elem_of_reverse, list_elem_of_fmap in Hc as (v & -> & Hv).
  pose proof (digits_ok data Hd) as Hok. rewrite Forall_forall in Hok. apply (al_dig Hal v), Hok, Hv.
Qed.

Lemma dec_enc pad data : Forall is_byte data → dec (enc data alpha pad) alpha = Some data.
Proof using Hal.
  intros Hd. unfold dec. rewrite trim_enc, dec_loop_digits by (done || by apply digits_ok).
  destruct (push_digits data [] Hd) as (k & -> & Hk). cbn [mbind option_bind bits acc out app].
  by rewrite (proj2 (Z.leb_gt _ _) Hk).
Qed.

Lemma dec_canonical s data :
  dec s alpha = Some data → Forall is_byte data ∧ visible (trim_eq s) = enc data alpha false.
Proof using Hal.
  unfold dec. destruct (dec_loop alpha (trim_eq s) (mkSt [] 0 0)) as [t|] eqn:E; [|done].
  cbn [mbind option_bind]. destruct (Z.leb_spec 6 (bits t)); [done|].
  destruct (Z.eqb_spec (acc t) 0) as [Ha|]; [|done]. cbn [orb negb]. intros [= <-].
  apply dec_loop_inv in E as (vs & Hvs & Hvis & Ht). symmetry in Ht.
  destruct (push_canonical vs [] t Hvs Ht ltac:(lia) Ha) as (data & Ho & Hd & Hg).
  rewrite app_nil_l in Ho. rewrite Ho. split; [done|]. by rewrite enc_digits, app_nil_r, Hg, Hvis.
Qed.

End base64.

(** ** The two alphabets *)

Definition alphabet_check (alpha : list Z) : bool :=
  forallb (λ v, bool_decide (Base64.rev_at alpha (dig alpha v) = v ∧ is_space (dig alpha v) = false ∧
    dig alpha v ≠ Base64.EQ)) (seqZ 0 64) &&
  bool_decide (map_Forall (λ c v, 0 ≤ v < 64 ∧ dig alpha v = c) (Base64.rev_map alpha)).

Lemma alphabet_by_check alpha : alphabet_check alpha = true → alphabet alpha.
Proof.
  intros [H1 H2]%andb_true_iff. rewrite forallb_forall in H1. apply bool_decide_eq_true_1 in H2. split.
  - intros v Hv. apply (bool_decide_eq_true_1 _), H1, list_elem_of_In, elem_of_seqZ. unfold sextet_ok in Hv. lia.
  - intros c. unfold Base64.rev_at. destruct (Base64.rev_map alpha !! c) as [v|] eqn:E; [|done].
    intros _. by apply (H2 c v).
Qed.

Lemma std_alphabet : alphabet Base64.STD.
Proof. apply alphabet_by_check. vm_compute. reflexivity. Qed.

Lemma url_alphabet : alphabet Base64.URL.
Proof. apply alphabet_by_check. vm_compute. reflexivity. Qed.

(** Base64 survives a round trip in all three forms: padded, unpadded and
    URL-safe encodings of any bytes decode to those bytes. *)
Theorem base64_roundtrip data :
  Forall is_byte data →
  Base64.decode (Base64.encode data) = Some data ∧
  Base64.decode (Base64.encode_nopad data) = Some data ∧
  Base64.decode_url (Base64.encode_url data) = Some data.
Proof.
  intros Hd. split_and!; [by apply dec_enc; [apply std_alphabet|]|by apply dec_enc; [apply std_alphabet|]|].
  by apply dec_enc; [apply url_alphabet|].
Qed.

Lemma base64_roundtrip_witness :
  Base64.decode (Base64.encode [102; 111; 111; 98]) = Some [102; 111; 111; 98] ∧
  Base64.decode (Base64.encode_nopad [102; 111; 111; 98]) = Some [102; 111; 111; 98] ∧
  Base64.decode_url (Base64.encode_url [102; 111; 111; 98]) = Some [102; 111; 111; 98].
Proof. apply (base64_roundtrip [102; 111; 111; 98]). repeat constructor; unfold is_byte; lia. Defined.

(** Decoding is strict: a text that decodes is, once trailing padding and
    spaces are removed, exactly the unpadded encoding of the result, so each
    byte string has one spelling. *)
Theorem base64_decode_canonical s data :
  Base64.decode s = Some data →
  Forall is_byte data ∧ visible (Base64.trim_eq s) = Base64.encode_nopad data.
Proof. apply dec_canonical, std_alphabet. Qed.

Lemma base64_decode_canonical_witness :
  Forall is_byte [102; 111; 111; 98] ∧
  visible (Base64.trim_eq (txt "Zm9v Yg==")) = Base64.encode_nopad [102; 111; 111; 98].
Proof. apply (base64_decode_canonical (txt "Zm9v Yg==") [102; 111; 111; 98]). vm_compute. reflexivity. Defined.
