(* ===== verification/Pattern.v ===== *)
(** * Shell patterns

    Models [lib/sh/src/pattern.rs]: the iterative [fnmatch] with backtracking
    to the last star, bracket expressions, escapes, and pathname expansion.
    Text is the list of its characters. *)

From Stdlib Require Import Strings.String.
From stdpp Require Import sorting.
From S2P Require Import Prelude Text.
Import Datatypes.

Section Pattern.

(** The Unicode tables behind [char]'s classification methods. *)
Context (is_alphabetic is_alphanumeric is_uppercase is_lowercase : Z → bool).

Definition class_match (class : list Z) (c : Z) : bool :=
  if str_eqb class (txt "alpha") then is_alphabetic c
  else if str_eqb class (txt "digit") then is_ascii_digit c
  else if str_eqb class (txt "alnum") then is_alphanumeric c
  else if str_eqb class (txt "upper") then is_uppercase c
  else if str_eqb class (txt "lower") then is_lowercase c
  else if str_eqb class (txt "space") then is_whitespace c
  else if str_eqb class (txt "blank") then (c =? 32) || (c =? 9)
  else if str_eqb class (txt "punct") then is_ascii_punctuation c
  else if str_eqb class (txt "xdigit") then is_ascii_hexdigit c
  else if str_eqb class (txt "cntrl") then is_control c
  else if str_eqb class (txt "print") then negb (is_control c)
  else if str_eqb class (txt "graph") then negb (is_control c) && negb (c =? 32)
  else false.

(** [* ? [ ] \ - : ! ^ . /] *)
Definition STAR : Z := 42.
Definition QUESTION : Z := 63.
Definition LBRACKET : Z := 91.
Definition RBRACKET : Z := 93.
Definition BACKSLASH : Z := 92.
Definition DASH : Z := 45.
Definition COLON : Z := 58.
Definition BANG : Z := 33.
Definition CARET : Z := 94.
Definition DOT : Z := 46.
Definition SLASH : Z := 47.

Definition is_at (p : list Z) (i : nat) (c : Z) : bool :=
  match p !! i with Some x => x =? c | None => false end.

(** The first [j] in [from .. from + n) with [:] at [j] and a closing bracket after it. *)
Fixpoint find_class_end (p : list Z) (from n : nat) : option nat :=
  match n with
  | O => None
  | S n' =>
      if is_at p from COLON && is_at p (S from) RBRACKET then Some from
      else find_class_end p (S from) n'
  end.

(** The loop of [bracket]; every turn moves [i] forward, so [length p] turns
    reach the end of the pattern. *)
Fixpoint bracket_loop (fuel : nat) (p : list Z) (c : Z) (negate : bool) (i : nat) (hit first : bool)
  : option (bool * nat) :=
  match fuel with
  | O => None
  | S fuel' =>
      ch ← p !! i;
      if (ch =? RBRACKET) && negb first then Some (xorb hit negate, S i)
      else if (ch =? LBRACKET) && is_at p (S i) COLON then
        end_ ← find_class_end p (i + 2) (length p - 1 - (i + 2));
        bracket_loop fuel' p c negate (end_ + 2)
          (if class_match (take (end_ - (i + 2)) (drop (i + 2) p)) c then true else hit) false
      else
        let i := if ch =? BACKSLASH then S i else i in
        lo ← p !! i;
        if is_at p (S i) DASH && match p !! S (S i) with Some x => negb (x =? RBRACKET) | None => false end then
          hi ← p !! S (S i);
          bracket_loop fuel' p c negate (i + 3) (if (lo <=? c) && (c <=? hi) then true else hit) false
        else bracket_loop fuel' p c negate (S i) (if c =? lo then true else hit) false
  end.

Definition bracket (p : list Z) (pi : nat) (c : Z) : option (bool * nat) :=
  let negate := is_at p (S pi) BANG || is_at p (S pi) CARET in
  bracket_loop (S (length p)) p c negate (if negate then S (S pi) else S pi) false true.

(** One pattern element (not a star) at [pi] against [t[ti]]: the positions
    after it when it matches. *)
Definition match_one (p t : list Z) (pi ti : nat) (ch : Z) : option (nat * nat) :=
  c ← t !! ti;
  if ch =? QUESTION then Some (S pi, S ti)
  else if ch =? LBRACKET then
    match bracket p pi c with
    | Some (ok, next) => if ok : bool then Some (next, S ti) else None
    | None => if c =? LBRACKET then Some (S pi, S ti) else None
    end
  else if ch =? BACKSLASH then
    if is_at p (S pi) c then Some (S (S pi), S ti) else None
  else if ch =? c then Some (S pi, S ti) else None.

Fixpoint skip_stars (n : nat) (p : list Z) (pi : nat) : nat :=
  match n with
  | O => pi
  | S n' => if is_at p pi STAR then skip_stars n' p (S pi) else pi
  end.

(** The loop of [match_at]; [None] is out of fuel. *)
Fixpoint match_loop (fuel : nat) (p t : list Z) (pi ti : nat) (star : option (nat * nat)) : option bool :=
  match fuel with
  | O => None
  | S fuel' =>
      let backtrack :=
        match star with
        | Some (sp, st) =>
            if (st <? length t)%nat then match_loop fuel' p t sp (S st) (Some (sp, S st)) else Some false
        | None => Some false
        end in
      match p !! pi with
      | Some ch =>
          if ch =? STAR then
            let pi' := skip_stars (length p) p pi in
            if (pi' =? length p)%nat then Some true else match_loop fuel' p t pi' ti (Some (pi', ti))
          else match match_one p t pi ti ch with
               | Some (pi', ti') => match_loop fuel' p t pi' ti' star
               | None => backtrack
               end
      | None => if (ti =? length t)%nat then Some true else backtrack
      end
  end.

Definition match_fuel (p t : list Z) : nat := (length t + 2) * (length p + 2).

(** [matches]: total, because the fuel always suffices ([matches_iff]). *)
Definition matches (pat s : list Z) : bool :=
  default false (match_loop (match_fuel pat s) pat s 0 0 None).

Fixpoint has_magic_loop (esc : bool) (pat : list Z) : bool :=
  match pat with
  | [] => false
  | c :: pat' =>
      if esc then has_magic_loop false pat'
      else if c =? BACKSLASH then has_magic_loop true pat'
      else if (c =? STAR) || (c =? QUESTION) || (c =? LBRACKET) then true
      else has_magic_loop false pat'
  end.

Definition has_magic (pat : list Z) : bool := has_magic_loop false pat.

Fixpoint unescape_loop (esc : bool) (pat : list Z) : list Z :=
  match pat with
  | [] => if esc then [BACKSLASH] else []
  | c :: pat' =>
      if esc then c :: unescape_loop false pat'
      else if c =? BACKSLASH then unescape_loop true pat'
      else c :: unescape_loop false pat'
  end.

Definition unescape (pat : list Z) : list Z := unescape_loop false pat.

(** ** Pathname expansion *)

Definition ends_with_slash (s : list Z) : bool :=
  match last s with Some c => c =? SLASH | None => false end.

Definition join (base name : list Z) : list Z :=
  match base with
  | [] => name
  | _ => if ends_with_slash base then base ++ name else base ++ [SLASH] ++ name
  end.

Section glob.
(** The entry names of a directory, [None] when it cannot be read. *)
Context (list_dir : list Z → option (list (list Z))).

Definition dir_of (base : list Z) : list Z := match base with [] => txt "." | _ => base end.

(** What one base path expands to under the component [comp]. *)
Definition glob_base (comp base : list Z) : list (list Z) :=
  if negb (has_magic comp) then
    let lit := unescape comp in
    match list_dir (dir_of base) with
    | Some entries =>
        if existsb (str_eqb lit) entries || str_eqb lit (txt ".") || str_eqb lit (txt "..")
        then [join base lit] else []
    | None => []
    end
  else
    match list_dir (dir_of base) with
    | Some entries =>
        join base <$>
          List.filter
            (λ e, negb (is_at e 0 DOT && negb (is_at comp 0 DOT)) && matches comp e)
            (sort entries)
    | None => []
    end.

Fixpoint glob_comps (comps paths : list (list Z)) : list (list Z) :=
  match comps with
  | [] => paths
  | comp :: comps' =>
      match paths ≫= glob_base comp with
      | [] => []
      | next => glob_comps comps' next
      end
  end.

Definition components (pattern : list Z) : list (list Z) :=
  List.filter (λ c, negb (bool_decide (c = []))) (split_char SLASH pattern).

Definition glob (pattern : list Z) : list (list Z) :=
  let paths := glob_comps (components pattern) [if is_at pattern 0 SLASH then [SLASH] else []] in
  sort (if ends_with_slash pattern then (λ p, p ++ [SLASH]) <$> paths else paths).

(** *** What expansion means

    A name a component stands for in a directory, and the paths a list of
    components leads to from a base. *)

Definition names (comp dir name : list Z) : Prop :=
  ∃ entries, list_dir dir = Some entries ∧
    if has_magic comp then
      name ∈ entries ∧ matches comp name = true ∧ (is_at name 0 DOT = true → is_at comp 0 DOT = true)
    else name = unescape comp ∧ (name ∈ entries ∨ name = txt "." ∨ name = txt "..").

Inductive leads : list (list Z) → list Z → list Z → Prop :=
  | leads_nil base : leads [] base base
  | leads_cons comp comps base name path :
      names comp (dir_of base) name → leads comps (join base name) path →
      leads (comp :: comps) base path.
End glob.

(** ** The meaning of a pattern

    A pattern denotes a list of tokens: a star, or a test on one character. *)

Inductive token :=
  | TStar
  | TOne (f : Z → bool).

(** A bracket expression is a set of items, read once from the pattern. *)
Inductive item :=
  | IClass (class : list Z)
  | IRange (lo hi : Z)
  | IChar (lo : Z).

Definition item_match (c : Z) (it : item) : bool :=
  match it with
  | IClass class => class_match class c
  | IRange lo hi => (lo <=? c) && (c <=? hi)
  | IChar lo => c =? lo
  end.

Definition consi (it : item) (r : list item * nat) : list item * nat := (it :: r.1, r.2).

Fixpoint set_items (fuel : nat) (p : list Z) (i : nat) (first : bool) : option (list item * nat) :=
  match fuel with
  | O => None
  | S fuel' =>
      ch ← p !! i;
      if (ch =? RBRACKET) && negb first then Some ([], S i)
      else if (ch =? LBRACKET) && is_at p (S i) COLON then
        end_ ← find_class_end p (i + 2) (length p - 1 - (i + 2));
        consi (IClass (take (end_ - (i + 2)) (drop (i + 2) p))) <$> set_items fuel' p (end_ + 2) false
      else
        let i := if ch =? BACKSLASH then S i else i in
        lo ← p !! i;
        if is_at p (S i) DASH && match p !! S (S i) with Some x => negb (x =? RBRACKET) | None => false end then
          hi ← p !! S (S i);
          consi (IRange lo hi) <$> set_items fuel' p (i + 3) false
        else consi (IChar lo) <$> set_items fuel' p (S i) false
  end.

(** The set at [pi]: whether it is negated, its items, the position after it. *)
Definition set_at (p : list Z) (pi : nat) : option (bool * (list item * nat)) :=
  let negate := is_at p (S pi) BANG || is_at p (S pi) CARET in
  pair negate <$> set_items (S (length p)) p (if negate then S (S pi) else S pi) true.

Definition set_test (negate : bool) (its : list item) (c : Z) : bool :=
  xorb (existsb (item_match c) its) negate.

(** The token at [pi] and the position after it. *)
Definition token_at (p : list Z) (pi : nat) (ch : Z) : token * nat :=
  if ch =? STAR then (TStar, S pi)
  else if ch =? QUESTION then (TOne (λ _, true), S pi)
  else if ch =? LBRACKET then
    match set_at p pi with
    | Some (negate, (its, next)) => (TOne (set_test negate its), next)
    | None => (TOne (Z.eqb LBRACKET), S pi)
    end
  else if ch =? BACKSLASH then
    match p !! S pi with
    | Some e => (TOne (Z.eqb e), S (S pi))
    | None => (TOne (λ _, false), S pi)
    end
  else (TOne (Z.eqb ch), S pi).

Fixpoint tokens (fuel : nat) (p : list Z) (pi : nat) : list token :=
  match fuel with
  | O => []
  | S fuel' =>
      match p !! pi with
      | Some ch => let '(tk, next) := token_at p pi ch in tk :: tokens fuel' p next
      | None => []
      end
  end.

Inductive denotes : list token → list Z → Prop :=
  | den_nil : denotes [] []
  | den_one f ts c s : f c = true → denotes ts s → denotes (TOne f :: ts) (c :: s)
  | den_star ts s1 s2 : denotes ts s2 → denotes (TStar :: ts) (s1 ++ s2).

(** ** Bracket expressions *)

Lemma find_class_end_ge p from n j : find_class_end p from n = Some j → (from ≤ j)%nat.
Proof using Type.
  revert from. induction n as [|n IH]; intros from; cbn [find_class_end]; [done|].
  destruct (_ && _); [by intros [= <-]|]. intros H%IH. lia.
Qed.

(** The end of a bracket expression lies after its start. *)
Lemma set_items_gt fuel p i first its n : set_items fuel p i first = Some (its, n) → (i < n)%nat.
Proof using Type.
  revert i first its. induction fuel as [|fuel IH]; intros i first its; [done|].
  cbn [set_items]. destruct (p !! i) as [ch|]; [|done]. cbn [mbind option_bind].
  destruct ((ch =? RBRACKET) && negb first); [intros [= _ <-]; lia|].
  assert (∀ it j, (i < j)%nat → consi it <$> set_items fuel p j false = Some (its, n) → (i < n)%nat) as Hgo.
  { intros it j Hj ([l m] & H & [= _ ->])%fmap_Some. apply IH in H. lia. }
  destruct ((ch =? LBRACKET) && is_at p (S i) COLON).
  { destruct (find_class_end _ _ _) as [e|] eqn:E; [|done]. cbn [mbind option_bind].
    apply find_class_end_ge in E. apply Hgo. lia. }
  assert (i ≤ (if (ch =? BACKSLASH)%Z then S i else i))%nat by (destruct (ch =? BACKSLASH); lia).
  destruct (p !! (if ch =? BACKSLASH then S i else i)); [|done]. cbn [mbind option_bind].
  destruct (_ && _); [|apply Hgo; lia]. destruct (p !! _); [|done]. cbn [mbind option_bind].
  apply Hgo. lia.
Qed.

(** The loop's fuel is enough: more of it reads the same set. *)
Lemma set_items_enough p f1 f2 i first :
  (length p - i < f1)%nat → (length p - i < f2)%nat → set_items f1 p i first = set_items f2 p i first.
Proof using Type.
  revert f2 i first. induction f1 as [|f1 IH]; intros f2 i first H1 H2; [lia|]. destruct f2 as [|f2]; [lia|].
  cbn [set_items]. destruct (p !! i) as [ch|] eqn:Hp; [|done]. cbn [mbind option_bind].
  apply lookup_lt_Some in Hp. destruct (_ && negb first); [done|].
  assert (∀ j, (i < j)%nat → set_items f1 p j false = set_items f2 p j false) as Hgo.
  { intros j Hj. apply IH; lia. }
  destruct (_ && is_at p (S i) COLON).
  { destruct (find_class_end _ _ _) as [e|] eqn:E; [|done]. cbn [mbind option_bind].
    apply find_class_end_ge in E. rewrite Hgo by lia. done. }
  assert (i ≤ (if (ch =? BACKSLASH)%Z then S i else i))%nat by (destruct (ch =? BACKSLASH); lia).
  destruct (p !! (if ch =? BACKSLASH then S i else i)); [|done]. cbn [mbind option_bind].
  destruct (_ && _); [destruct (p !! _); [|done]; cbn [mbind option_bind]|]; rewrite Hgo by lia; done.
Qed.

(** Testing while reading is reading the set, then testing. *)
Lemma bracket_loop_items fuel p c negate i hit first :
  bracket_loop fuel p c negate i hit first =
    (λ r, (xorb (hit || existsb (item_match c) r.1) negate, r.2)) <$> set_items fuel p i first.
Proof using Type.
  revert i hit first. induction fuel as [|fuel IH]; intros i hit first; [done|].
  cbn [bracket_loop set_items]. destruct (p !! i) as [ch|]; [|done]. cbn [mbind option_bind].
  destruct (_ && negb first). { simpl. by rewrite orb_false_r. }
  assert (∀ it j, bracket_loop fuel p c negate j (if item_match c it then true else hit) false =
    (λ r, (xorb (hit || existsb (item_match c) r.1) negate, r.2)) <$> (consi it <$> set_items fuel p j false)) as Hgo.
  { intros it j. rewrite IH, <- option_fmap_compose. apply option_fmap_ext. intros [l m]. simpl.
    destruct hit, (item_match c it); done. }
  destruct (_ && is_at p (S i) COLON).
  { destruct (find_class_end _ _ _) as [e|]; [|done]. cbn [mbind option_bind].
    apply (Hgo (IClass _)). }
  destruct (p !! (if ch =? BACKSLASH then S i else i)) as [lo|]; [|done]. cbn [mbind option_bind].
  destruct (_ && _); [|apply (Hgo (IChar lo))]. destruct (p !! _) as [hi|]; [|done]. cbn [mbind option_bind].
  apply (Hgo (IRange lo hi)).
Qed.

Lemma bracket_set p pi c :
  bracket p pi c = (λ '(negate, (its, n)), (set_test negate its c, n)) <$> set_at p pi.
Proof using Type.
  unfold bracket, set_at. rewrite bracket_loop_items, <- option_fmap_compose.
  apply option_fmap_ext. by intros [its n].
Qed.

Lemma token_at_gt p pi ch tk n : token_at p pi ch = (tk, n) → (pi < n)%nat.
Proof using Type.
  unfold token_at. repeat case_match; intros [= _ <-]; try lia. unfold set_at in *.
  match goal with H : _ <$> _ = _ |- _ => apply fmap_Some in H as ([? ?] & Hs & ?) end. simplify_eq.
  apply set_items_gt in Hs. destruct (_ || _); lia.
Qed.

(** ** Tokens of a suffix *)

Lemma tokens_enough p f1 f2 pi :
  (length p - pi ≤ f1)%nat → (length p - pi ≤ f2)%nat → tokens f1 p pi = tokens f2 p pi.
Proof using Type.
  revert f2 pi. induction f1 as [|f1 IH]; intros f2 pi H1 H2.
  - destruct f2 as [|f2]; [done|]. cbn [tokens]. by rewrite lookup_ge_None_2 by lia.
  - cbn [tokens]. destruct (p !! pi) as [ch|] eqn:Hp.
    + apply lookup_lt_Some in Hp as Hlt. destruct f2 as [|f2]; [lia|]. cbn [tokens]. rewrite Hp.
      destruct (token_at p pi ch) as [tk n] eqn:E. apply token_at_gt in E. f_equal. apply IH; lia.
    + destruct f2 as [|f2]; [done|]. cbn [tokens]. by rewrite Hp.
Qed.

Definition tk (p : list Z) (pi : nat) : list token := tokens (length p - pi) p pi.

Lemma tk_cons p pi ch t n : p !! pi = Some ch → token_at p pi ch = (t, n) → tk p pi = t :: tk p n.
Proof using Type.
  intros Hp Ht. unfold tk. apply lookup_lt_Some in Hp as Hlt. apply token_at_gt in Ht as Hn.
  destruct (length p - pi)%nat as [|f] eqn:Hf; [lia|]. cbn [tokens]. rewrite Hp, Ht. f_equal.
  apply tokens_enough; lia.
Qed.

Lemma tk_nil p pi : p !! pi = None → tk p pi = [].
Proof using Type. intros Hp. unfold tk. destruct (length p - pi)%nat; cbn [tokens]; by rewrite ?Hp. Qed.

Definition one (t : token) : Prop := match t with TOne _ => True | TStar => False end.

(** A non-star element tests one character with its token. *)
Lemma match_one_token p t pi ti ch :
  ch ≠ STAR →
  ∃ f n, token_at p pi ch = (TOne f, n) ∧
    match_one p t pi ti ch =
      match t !! ti with Some c => if f c then Some (n, S ti) else None | None => None end.
Proof using Type.
  intros Hs. unfold token_at, match_one. rewrite (proj2 (Z.eqb_neq _ _) Hs).
  destruct (ch =? QUESTION). { eexists _, _. split; [done|]. by destruct (t !! ti). }
  destruct (ch =? LBRACKET).
  { destruct (set_at p pi) as [[negate [its n]]|] eqn:E; (eexists _, _; split; [done|]);
      (destruct (t !! ti) as [c|]; [|done]); cbn [mbind option_bind]; rewrite bracket_set, E; simpl;
      [done|by rewrite Z.eqb_sym]. }
  destruct (ch =? BACKSLASH); [unfold is_at; destruct (p !! S pi) as [e|]|];
    (eexists _, _; split; [done|]; by destruct (t !! ti)).
Qed.

(** ** Stars *)

Lemma den_star_iff ts t ti :
  (ti ≤ length t)%nat →
  denotes (TStar :: ts) (drop ti t) ↔ ∃ k, (ti ≤ k ≤ length t)%nat ∧ denotes ts (drop k t).
Proof using Type.
  intros Hti. split.
  - intros H. inversion H as [| |ts' s1 s2 Hd E1 E2]; subst. exists (ti + length s1)%nat. split.
    + apply (f_equal length) in E2. rewrite length_app, length_drop in E2. lia.
    + rewrite <- drop_drop, <- E2, drop_app_length. done.
  - intros (k & Hk & Hd). rewrite <- (take_drop (k - ti) (drop ti t)), drop_drop.
    replace (ti + (k - ti))%nat with k by lia. by constructor.
Qed.

Lemma den_star_weaken ts t ti j :
  (ti ≤ j ≤ length t)%nat → denotes (TStar :: ts) (drop j t) → denotes (TStar :: ts) (drop ti t).
Proof using Type.
  intros Hj. rewrite !den_star_iff by lia. intros (k & Hk & Hd). exists k. split; [lia|done].
Qed.

Lemma den_star_star ts s : denotes (TStar :: TStar :: ts) s ↔ denotes (TStar :: ts) s.
Proof using Type.
  rewrite <- (drop_0 s). split.
  - rewrite den_star_iff by lia. intros (k & Hk & Hd). by eapply den_star_weaken; [|exact Hd]; lia.
  - intros Hd. apply den_star_iff; [lia|]. exists 0%nat. split; [lia|done].
Qed.

(** Fixed-width tokens take as many characters as there are of them. *)
Lemma den_ones_app seg ts t k :
  Forall one seg → (k ≤ length t)%nat → denotes (seg ++ ts) (drop k t) →
  denotes ts (drop (k + length seg) t) ∧ (k + length seg ≤ length t)%nat.
Proof using Type.
  intros Hs. revert k. induction Hs as [|tok seg Ho _ IH]; intros k Hk Hd.
  { simpl in Hd. by rewrite Nat.add_0_r. }
  destruct tok as [|f]; [done|]. inversion Hd as [|f' ts' c s Hf Hd' E1 E2|]; subst.
  assert (t !! k = Some c ∧ s = drop (S k) t) as [Hc ->].
  { apply (f_equal (λ l, (l !! 0%nat, drop 1 l))) in E2. rewrite lookup_drop, drop_drop in E2.
    simpl in E2. rewrite Nat.add_0_r, Nat.add_1_r in E2. simplify_eq. done. }
  apply lookup_lt_Some in Hc. destruct (IH (S k)) as [Hd2 Hl]; [lia|done|].
  cbn [length]. rewrite <- Nat.add_succ_comm. done.
Qed.

Lemma skip_stars_le n p pi : (pi ≤ skip_stars n p pi)%nat.
Proof using Type.
  revert pi. induction n as [|n IH]; intros pi; cbn [skip_stars]; [done|].
  destruct (is_at p pi STAR); [|done]. specialize (IH (S pi)). lia.
Qed.

Lemma tk_star p pi : is_at p pi STAR = true → tk p pi = TStar :: tk p (S pi).
Proof using Type.
  unfold is_at. destruct (p !! pi) as [ch|] eqn:Hp; [|done]. intros ->%Z.eqb_eq. by eapply tk_cons.
Qed.

Lemma skip_stars_den n p pi s :
  denotes (TStar :: tk p pi) s ↔ denotes (TStar :: tk p (skip_stars n p pi)) s.
Proof using Type.
  revert pi. induction n as [|n IH]; intros pi; cbn [skip_stars]; [done|].
  destruct (is_at p pi STAR) eqn:E; [|done]. rewrite <- IH, (tk_star p pi E). apply den_star_star.
Qed.
(** ** The matching loop *)

Section match_loop.
Context (p t : list Z).

(** The pattern since the last star has matched the text since then. *)
Definition star_ok (pi ti : nat) (star : option (nat * nat)) : Prop :=
  match star with
  | None => True
  | Some (sp, st) => ∃ seg, tk p sp = seg ++ tk p pi ∧ Forall one seg ∧ ti = (st + length seg)%nat
  end.

(** What moving the last star further right could still match. *)
Definition later (star : option (nat * nat)) : Prop :=
  match star with
  | None => False
  | Some (sp, st) => ∃ k, (st < k ≤ length t)%nat ∧ denotes (tk p sp) (drop k t)
  end.

Definition turns (pi : nat) (star : option (nat * nat)) : nat :=
  (match star with None => S (length t) | Some (_, st) => length t - st end) * (length p + 2)
  + (length p - pi).

(** A star that follows makes moving the earlier one pointless. *)
Lemma later_absorbed pi ti star ts :
  (ti ≤ length t)%nat → star_ok pi ti star → tk p pi = TStar :: ts → later star →
  denotes (tk p pi) (drop ti t).
Proof using Type.
  intros Hti Hst Htk. destruct star as [[sp st]|]; [|done]. destruct Hst as (seg & Hsp & Hone & ->).
  intros (k & Hk & Hd). rewrite Hsp in Hd. apply den_ones_app in Hd as [Hd Hl]; [|done|lia].
  rewrite Htk in *. eapply den_star_weaken; [|exact Hd]. lia.
Qed.

(** What the loop does when the element at hand does not match. *)
Definition backtrack (fuel : nat) (star : option (nat * nat)) : option bool :=
  match star with
  | Some (sp, st) => if (st <? length t)%nat then match_loop fuel p t sp (S st) (Some (sp, S st)) else Some false
  | None => Some false
  end.

Definition loop_spec (fuel pi ti : nat) (star : option (nat * nat)) : Prop :=
  (turns pi star < fuel)%nat → (ti ≤ length t)%nat → star_ok pi ti star →
  ∃ b, match_loop fuel p t pi ti star = Some b ∧
    (b = true ↔ denotes (tk p pi) (drop ti t) ∨ later star).

Lemma backtrack_ok fuel pi ti star :
  (∀ pi ti star, loop_spec fuel pi ti star) →
  (turns pi star < S fuel)%nat → ¬ denotes (tk p pi) (drop ti t) →
  ∃ b, backtrack fuel star = Some b ∧ (b = true ↔ denotes (tk p pi) (drop ti t) ∨ later star).
Proof using Type.
  intros IH Hfuel Hno. destruct star as [[sp st]|]; [|exists false; naive_solver]. cbn [backtrack].
  destruct (Nat.ltb_spec st (length t)) as [Hlt|Hge].
  - destruct (IH sp (S st) (Some (sp, S st))) as (b & -> & Hb).
    + unfold turns in *. replace (length t - st)%nat with (S (length t - S st)) in Hfuel by lia. nia.
    + lia.
    + exists []. simpl. split_and!; [done|done|lia].
    + exists b. split; [done|]. rewrite Hb. split.
      * intros [Hd|(k & Hk & Hd)]; right; [exists (S st)|exists k]; (split; [lia|done]).
      * intros [?|(k & Hk & Hd)]; [done|]. destruct (decide (k = S st)) as [->|]; [by left|right].
        exists k. split; [lia|done].
  - exists false. split; [done|]. split; [done|]. intros [?|(k & Hk & _)]; [done|lia].
Qed.

Lemma loop_star_ok fuel pi ti star :
  (∀ pi ti star, loop_spec fuel pi ti star) →
  is_at p pi STAR = true → (pi < length p)%nat →
  (turns pi star < S fuel)%nat → (ti ≤ length t)%nat → star_ok pi ti star →
  let pi' := skip_stars (length p) p pi in
  ∃ b, (if (pi' =? length p)%nat then Some true else match_loop fuel p t pi' ti (Some (pi', ti))) = Some b ∧
    (b = true ↔ denotes (tk p pi) (drop ti t) ∨ later star).
Proof using Type.
  intros IH Hat Hlt Hfuel Hti Hst pi'. pose proof (tk_star p pi Hat) as Htk.
  assert (pi' = skip_stars (pred (length p)) p (S pi)) as Epi.
  { unfold pi'. destruct (length p) as [|n]; [lia|]. cbn [skip_stars pred]. by rewrite Hat. }
  pose proof (skip_stars_le (pred (length p)) p (S pi)) as Hgt. rewrite <- Epi in Hgt.
  assert (denotes (tk p pi) (drop ti t) ∨ later star ↔ denotes (TStar :: tk p pi') (drop ti t)) as Hv.
  { rewrite Epi, <- skip_stars_den, <- Htk. split; [|by left]. intros [?|Hl]; [done|]. by eapply later_absorbed. }
  rewrite den_star_iff in Hv by done. destruct (Nat.eqb_spec pi' (length p)) as [E|Hne].
  - exists true. split; [done|]. split; [|done]. intros _. apply Hv. exists (length t). split; [lia|].
    rewrite E, tk_nil, drop_all by (apply lookup_ge_None_2; lia). constructor.
  - destruct (IH pi' ti (Some (pi', ti))) as (b & -> & Hb).
    + unfold turns in *. destruct star as [[sp st]|]; [destruct Hst as (seg & _ & _ & ->)|]; nia.
    + done.
    + exists []. simpl. split_and!; [done|done|lia].
    + exists b. split; [done|]. rewrite Hb, Hv. split.
      * intros [Hd|(k & Hk & Hd)]; [exists ti|exists k]; (split; [lia|done]).
      * intros (k & Hk & Hd). destruct (decide (k = ti)) as [->|]; [by left|right].
        exists k. split; [lia|done].
Qed.

Lemma match_loop_ok fuel pi ti star : loop_spec fuel pi ti star.
Proof using Type.
  revert pi ti star. induction fuel as [|fuel IH]; intros pi ti star Hfuel Hti Hst; [lia|].
  cbn [match_loop]. fold (backtrack fuel star).
  pose proof (backtrack_ok fuel pi ti star IH Hfuel) as Hback. destruct (p !! pi) as [ch|] eqn:Hp.
  2:{ destruct (Nat.eqb_spec ti (length t)) as [->|Hne].
      - exists true. split; [done|]. split; [|done]. intros _. left. rewrite tk_nil, drop_all by done. constructor.
      - apply Hback. rewrite tk_nil by done. intros Hd.
        assert (length (drop ti t) = 0%nat) as E by (by inversion Hd). rewrite length_drop in E. lia. }
  apply lookup_lt_Some in Hp as Hlt. destruct (Z.eqb_spec ch STAR) as [->|Hns].
  { apply loop_star_ok; try done. unfold is_at. by rewrite Hp. }
  destruct (match_one_token p t pi ti ch Hns) as (f & n & Htok & ->).
  pose proof (tk_cons _ _ _ _ _ Hp Htok) as Htk. apply token_at_gt in Htok.
  destruct (t !! ti) as [c|] eqn:Hc.
  2:{ apply Hback. rewrite Htk, drop_ge by (by apply lookup_ge_None). intros Hd. inversion Hd. }
  apply lookup_lt_Some in Hc as Hcl. destruct (f c) eqn:Hfc.
  2:{ apply Hback. rewrite Htk, (drop_S t c ti Hc). intros Hd. inversion Hd. congruence. }
  destruct (IH n (S ti) star) as (b & -> & Hb).
  { unfold turns in *. destruct star as [[sp st]|]; lia. }
  { lia. }
  { destruct star as [[sp st]|]; [|done]. destruct Hst as (seg & Hsp & Hone & ->).
    exists (seg ++ [TOne f]). rewrite <- app_assoc, length_app. simpl. rewrite <- Htk.
    split_and!; [done|by apply Forall_app; repeat constructor|lia]. }
  exists b. split; [done|]. rewrite Hb, Htk, (drop_S t c ti Hc).
  split; (intros [Hd|?]; [left|by right]); [by constructor|by inversion Hd].
Qed.

End match_loop.

Lemma matches_run pat s :
  match_loop (match_fuel pat s) pat s 0 0 None = Some (matches pat s) ∧
  (matches pat s = true ↔ denotes (tk pat 0) s).
Proof using Type.
  destruct (match_loop_ok pat s (match_fuel pat s) 0 0 None) as (b & Hr & Hb); [|lia|done|].
  { unfold turns, match_fuel. lia. }
  unfold matches. rewrite Hr. cbn [default from_option]. rewrite Hb, drop_0. simpl. tauto.
Qed.

(** C39. Pattern matching is correct: the iterative matcher always terminates
    (its fuel is enough) and accepts exactly the texts the pattern denotes,
    where a star stands for any run of characters and every other element for
    one character it admits; backtracking only to the last star loses nothing. *)
Theorem matches_iff pat s :
  match_loop (match_fuel pat s) pat s 0 0 None = Some (matches pat s) ∧
  (matches pat s = true ↔ denotes (tokens (length pat) pat 0) s).
Proof using Type. pose proof (matches_run pat s) as H. unfold tk in H. by rewrite Nat.sub_0_r in H. Qed.

(** ** Literal patterns *)

(** The pattern ends in a backslash that escapes nothing. *)
Fixpoint dangling (esc : bool) (pat : list Z) : bool :=
  match pat with
  | [] => esc
  | c :: pat' => dangling (negb esc && (c =? BACKSLASH)) pat'
  end.

Lemma tk_literal p pi s :
  has_magic_loop false (drop pi p) = false →
  denotes (tk p pi) s ↔ dangling false (drop pi p) = false ∧ s = unescape_loop false (drop pi p).
Proof using Type.
  remember (length p - pi)%nat as n eqn:Hn. revert pi s Hn.
  induction (lt_wf n) as [n _ IH]; intros pi s Hn Hm.
  assert (∀ e pi', (pi < pi')%nat → (pi < length p)%nat → has_magic_loop false (drop pi' p) = false →
    denotes (TOne (Z.eqb e) :: tk p pi') s ↔
    dangling false (drop pi' p) = false ∧ s = e :: unescape_loop false (drop pi' p)) as Hone.
  { intros e pi' Hlt Hl Hm'. pose proof (λ s', IH (length p - pi')%nat ltac:(lia) pi' s' eq_refl Hm') as IH'.
    split.
    - intros Hd. inversion Hd as [|? ? c s' Hc Hd'|]; subst. apply Z.eqb_eq in Hc as ->.
      apply IH' in Hd' as [? ->]. done.
    - intros [? ->]. constructor; [apply Z.eqb_refl|]. by apply IH'. }
  destruct (p !! pi) as [ch|] eqn:Hp.
  2:{ rewrite tk_nil by done. rewrite drop_ge by (by apply lookup_ge_None). simpl.
      split; [intros Hd; by inversion Hd|]. intros [_ ->]. constructor. }
  apply lookup_lt_Some in Hp as Hlt. rewrite (drop_S p ch pi Hp) in *.
  cbn [has_magic_loop dangling unescape_loop negb andb] in *.
  destruct (ch =? BACKSLASH) eqn:Eb.
  - apply Z.eqb_eq in Eb as ->. destruct (p !! S pi) as [e|] eqn:He.
    + rewrite (tk_cons p pi _ (TOne (Z.eqb e)) (S (S pi)) Hp); [|by unfold token_at; simpl; rewrite He].
      rewrite (drop_S p e (S pi) He) in *. apply Hone; [lia|done|done].
    + rewrite (tk_cons p pi _ (TOne (λ _, false)) (S pi) Hp); [|by unfold token_at; simpl; rewrite He].
      rewrite drop_ge by (by apply lookup_ge_None). simpl. split; [intros Hd; by inversion Hd|naive_solver].
  - destruct (ch =? STAR) eqn:Es; [done|]. destruct (ch =? QUESTION) eqn:Eq; [done|].
    destruct (ch =? LBRACKET) eqn:El; [done|]. cbn [orb] in Hm.
    rewrite (tk_cons p pi _ (TOne (Z.eqb ch)) (S pi) Hp); [|by unfold token_at; rewrite Es, Eq, El, Eb].
    apply Hone; [lia|done|done].
Qed.

(** [has_magic], [unescape] and [matches] agree: a pattern without
    metacharacters matches exactly its unescaped text, so looking the literal
    up in a directory is the same as matching it, except that a pattern that
    ends in a lone backslash, which [unescape] keeps, matches nothing. *)
Theorem literal_matches pat s :
  has_magic pat = false →
  (matches pat s = true ↔ dangling false pat = false ∧ s = unescape pat).
Proof using Type.
  intros Hm. rewrite (proj2 (matches_run pat s)). apply (tk_literal pat 0 s Hm).
Qed.

(** ** Expansion *)

Lemma glob_base_elem ld comp base path :
  path ∈ glob_base ld comp base ↔ ∃ name, names ld comp (dir_of base) name ∧ path = join base name.
Proof using Type.
  unfold glob_base, names. destruct (has_magic comp); cbn [negb].
  - destruct (ld (dir_of base)) as [entries|]; [|split; [set_solver|naive_solver]].
    rewrite list_elem_of_fmap. setoid_rewrite list_elem_of_In. setoid_rewrite filter_In.
    setoid_rewrite <- list_elem_of_In. unfold sort. setoid_rewrite (merge_sort_Permutation str_le entries).
    setoid_rewrite andb_true_iff. split.
    + intros (name & -> & Hin & Hd & Hm). exists name. split; [|done]. exists entries.
      split_and!; [done|done|done|]. by destruct (is_at name 0 DOT), (is_at comp 0 DOT).
    + intros (name & (? & [= <-] & Hin & Hm & Hd) & ->). exists name. split_and!; [done|done| |done].
      destruct (is_at name 0 DOT); [|done]. by rewrite Hd.
  - destruct (ld (dir_of base)) as [entries|]; [|split; [set_solver|naive_solver]].
    assert (existsb (str_eqb (unescape comp)) entries || str_eqb (unescape comp) (txt ".") ||
      str_eqb (unescape comp) (txt "..") = true ↔
      unescape comp ∈ entries ∨ unescape comp = txt "." ∨ unescape comp = txt "..") as Hc.
    { rewrite !orb_true_iff, existsb_exists. setoid_rewrite <- list_elem_of_In.
      unfold str_eqb. setoid_rewrite bool_decide_eq_true. naive_solver. }
    destruct (_ || _); rewrite ?list_elem_of_singleton.
    + split; [|naive_solver]. intros ->. exists (unescape comp). split; [|done]. exists entries.
      split_and!; [done|done|by apply Hc].
    + split; [set_solver|]. intros (name & (? & [= <-] & -> & H) & _). by apply Hc in H.
Qed.

Lemma glob_comps_elem ld comps paths path :
  path ∈ glob_comps ld comps paths ↔ ∃ base, base ∈ paths ∧ leads ld comps base path.
Proof using Type.
  revert paths. induction comps as [|comp comps IH]; intros paths; cbn [glob_comps].
  { split; [intros H; exists path; split; [done|constructor]|]. intros (base & Hb & Hl). by inversion Hl; subst. }
  trans (∃ mid, mid ∈ (paths ≫= glob_base ld comp) ∧ leads ld comps mid path).
  { destruct (paths ≫= glob_base ld comp) as [|q next]; [|apply IH]. split; [set_solver|].
    intros (mid & Hmid & _). set_solver. }
  setoid_rewrite list_elem_of_bind. setoid_rewrite glob_base_elem. split.
  - intros (mid & (base & (name & Hn & ->) & Hb) & Hl). exists base. split; [done|]. by econstructor.
  - intros (base & Hb & Hl). inversion Hl; subst. naive_solver.
Qed.

(** Pathname expansion is correct: the result is sorted, and holds exactly
    the paths reached by choosing for each component of the pattern an entry
    it stands for in the directory reached so far (a hidden entry only for a
    component that starts with a dot), with the trailing slash kept. *)
Theorem glob_correct ld pattern path :
  StronglySorted str_le (glob ld pattern) ∧
  (path ∈ glob ld pattern ↔
   ∃ p, leads ld (components pattern) (if is_at pattern 0 SLASH then [SLASH] else []) p ∧
        path = p ++ (if ends_with_slash pattern then [SLASH] else [])).
Proof using Type.
  unfold glob, sort. split; [apply StronglySorted_merge_sort; apply _|].
  rewrite (merge_sort_Permutation str_le). destruct (ends_with_slash pattern).
  - rewrite list_elem_of_fmap. setoid_rewrite glob_comps_elem. setoid_rewrite list_elem_of_singleton.
    naive_solver.
  - setoid_rewrite glob_comps_elem. setoid_rewrite list_elem_of_singleton. setoid_rewrite app_nil_r. naive_solver.
Qed.

End Pattern.

Lemma literal_matches_witness :
  has_magic (txt "a\b") = false ∧
  (matches (λ _, false) (λ _, false) (λ _, false) (λ _, false) (txt "a\b") (txt "ab") = true ↔
   dangling false (txt "a\b") = false ∧ txt "ab" = unescape (txt "a\b")).
Proof.
  split; [reflexivity|].
  apply (literal_matches (λ _, false) (λ _, false) (λ _, false) (λ _, false) (txt "a\b") (txt "ab")).
  reflexivity.
Defined.
