(* ===== verification/BuddyModel.v ===== *)
(** * The buddy frame allocator ([lib/alloc/src/buddy.rs]): definitions

    [Buddy] is the struct of the same name: the per-frame state bytes, the
    intrusive free-list links that live inside the free frames, the list heads
    and the counters.  The raw pointers are maps: reading a state byte or a
    link that does not exist is undefined behaviour in the source and [None]
    here.  Every operation is the function of the same name, in the execution
    monad of [Prelude]. *)

From S2P Require Import Prelude.

Module Buddy.

Definition MAX_ORDER : nat := 10.
Definition NIL : Z := u64_max.

Definition ST_NONE : Z := 0x00.
Definition ST_RESERVED : Z := 0x40.
Definition ST_FREE : Z := 0x80.
Definition ST_USED : Z := 0xC0.
Definition ST_KIND : Z := 0xC0.
Definition ST_ORDER : Z := 0x0F.

Record Link := mkLink { next : Z; prev : Z }.

Inductive FreeError :=
  | OutOfRange
  | NotAllocated
  | WrongOrder (allocated : nat).

Record t := mkBuddy {
  mem : gmap Z Link;
  state : gmap Z Z;
  frames : Z;
  heads : list Z;
  counts : list Z;
  free_frames : Z;
  managed_frames : Z;
}.

(** Field updates. *)
Definition with_mem (m : gmap Z Link) (b : t) : t :=
  mkBuddy m (state b) (frames b) (heads b) (counts b) (free_frames b) (managed_frames b).
Definition with_state (s : gmap Z Z) (b : t) : t :=
  mkBuddy (mem b) s (frames b) (heads b) (counts b) (free_frames b) (managed_frames b).
Definition with_heads (h : list Z) (b : t) : t :=
  mkBuddy (mem b) (state b) (frames b) h (counts b) (free_frames b) (managed_frames b).
Definition with_counts (c : list Z) (b : t) : t :=
  mkBuddy (mem b) (state b) (frames b) (heads b) c (free_frames b) (managed_frames b).
Definition with_free_frames (n : Z) (b : t) : t :=
  mkBuddy (mem b) (state b) (frames b) (heads b) (counts b) n (managed_frames b).
Definition with_managed_frames (n : Z) (b : t) : t :=
  mkBuddy (mem b) (state b) (frames b) (heads b) (counts b) (free_frames b) n.

(** [1 << order], and the state bytes [ST_FREE | order as u8] and
    [ST_USED | order as u8]. *)
Definition block (order : nat) : Z := Z.shiftl 1 (Z.of_nat order).
Definition as_u8 (order : nat) : Z := Z.of_nat order mod 256.
Definition free_tag (order : nat) : Z := Z.lor ST_FREE (as_u8 order).
Definition used_tag (order : nat) : Z := Z.lor ST_USED (as_u8 order).

(** All frames reserved. *)
Definition new (m : gmap Z Link) (n : Z) : t :=
  {| mem := m;
     state := gset_to_gmap ST_RESERVED (list_to_set (seqZ 0 n));
     frames := n;
     heads := replicate (S MAX_ORDER) NIL;
     counts := replicate (S MAX_ORDER) 0;
     free_frames := 0;
     managed_frames := 0 |}.

(** ** State bytes and list nodes *)

Definition st (b : t) (idx : Z) : option Z := state b !! idx.

Definition set (idx v : Z) : Exec t unit :=
  b ← get;
  _ ← need (st b idx);
  modify (with_state (<[idx := v]> (state b))).

Definition link (b : t) (idx : Z) : option Link := mem b !! idx.

Definition write_link (idx : Z) (l : Link) : Exec t unit :=
  modify (λ b, with_mem (<[idx := l]> (mem b)) b).

Definition write_next (idx n : Z) : Exec t unit :=
  b ← get;
  l ← need (link b idx);
  write_link idx (mkLink n (prev l)).

Definition write_prev (idx p : Z) : Exec t unit :=
  b ← get;
  l ← need (link b idx);
  write_link idx (mkLink (next l) p).

Definition write_head (order : nat) (h : Z) : Exec t unit :=
  modify (λ b, with_heads (<[order := h]> (heads b)) b).

Definition write_count (order : nat) (c : Z) : Exec t unit :=
  modify (λ b, with_counts (<[order := c]> (counts b)) b).

Definition push (idx : Z) (order : nat) : Exec t unit :=
  b ← get;
  head ← need (heads b !! order);
  _ ← write_link idx (mkLink head NIL);
  _ ← (if head =? NIL then mret tt else write_prev head idx);
  _ ← write_head order idx;
  c ← need (counts b !! order);
  c' ← need (add64 c 1);
  _ ← write_count order c';
  set idx (free_tag order).

Definition unlink (idx : Z) (order : nat) : Exec t unit :=
  b ← get;
  l ← need (link b idx);
  _ ← (if prev l =? NIL
       then (_ ← need (heads b !! order); write_head order (next l))
       else write_next (prev l) (next l));
  _ ← (if next l =? NIL then mret tt else write_prev (next l) (prev l));
  c ← need (counts b !! order);
  c' ← need (sub64 c 1);
  write_count order c'.

(** ** Queries *)

(** A free block of order [o] containing [idx] starts at [idx] rounded down
    to [2^o]; the smallest order wins. *)
Fixpoint find_free_head (b : t) (idx : Z) (order : nat) (todo : nat)
    : option (option (Z * nat)) :=
  match todo with
  | O => Some None
  | S todo' =>
      let head := Z.ldiff idx (block order - 1) in
      s ← st b head;
      if s =? free_tag order then Some (Some (head, order))
      else find_free_head b idx (S order) todo'
  end.

Definition free_block_containing (b : t) (idx : Z) : option (option (Z * nat)) :=
  if frames b <=? idx then Some None
  else find_free_head b idx 0 (S MAX_ORDER).

Definition is_free (b : t) (idx : Z) : option bool :=
  r ← free_block_containing b idx;
  Some (match r with Some _ => true | None => false end).

Definition allocated_order (b : t) (idx : Z) : option (option nat) :=
  if frames b <=? idx then Some None
  else
    s ← st b idx;
    Some (if Z.land s ST_KIND =? ST_USED
          then Some (Z.to_nat (Z.land s ST_ORDER)) else None).

(** ** Allocation *)

(** [while o <= MAX_ORDER && heads[o] == NIL { o += 1 }] *)
Fixpoint first_nonempty (fuel : nat) (o : nat) : Exec t nat :=
  match fuel with
  | O => panic
  | S fuel' =>
      if (MAX_ORDER <? o)%nat then mret o
      else
        b ← get;
        h ← need (heads b !! o);
        if h =? NIL then first_nonempty fuel' (S o) else mret o
  end.

(** [while o > order { o -= 1; push(idx + (1 << o), o) }] with [n = o - order]
    iterations left. *)
Fixpoint split_down (idx : Z) (order : nat) (n : nat) : Exec t unit :=
  match n with
  | O => mret tt
  | S n' =>
      let o := (order + n')%nat in
      i ← need (add64 idx (block o));
      _ ← push i o;
      split_down idx order n'
  end.

Definition alloc (order : nat) : Exec t (option Z) :=
  if (MAX_ORDER <? order)%nat then mret None
  else
    o ← first_nonempty (S (S MAX_ORDER)) order;
    if (MAX_ORDER <? o)%nat then mret None
    else
      b ← get;
      idx ← need (heads b !! o);
      _ ← unlink idx o;
      _ ← split_down idx order (o - order);
      _ ← set idx (used_tag order);
      b ← get;
      n ← need (sub64 (free_frames b) (block order));
      _ ← modify (with_free_frames n);
      mret (Some idx).

(** ** Release and coalescing *)

Fixpoint merge (fuel : nat) (idx : Z) (order : nat) : Exec t (Z * nat) :=
  match fuel with
  | O => panic
  | S fuel' =>
      if (order <? MAX_ORDER)%nat then
        let buddy := Z.lxor idx (block order) in
        b ← get;
        if frames b <=? buddy then mret (idx, order)
        else
          s ← need (st b buddy);
          if s =? free_tag order then
            _ ← unlink buddy order;
            _ ← set buddy ST_NONE;
            merge fuel' (Z.min idx buddy) (S order)
          else mret (idx, order)
      else mret (idx, order)
  end.

Definition release (idx : Z) (order : nat) : Exec t unit :=
  _ ← set idx ST_NONE;
  r ← merge (S MAX_ORDER) idx order;
  push (fst r) (snd r).

Definition free (idx : Z) (order : nat) : Exec t (FreeError + unit) :=
  b ← get;
  if frames b <=? idx then mret (inl OutOfRange)
  else
    s ← need (st b idx);
    if negb (Z.land s ST_KIND =? ST_USED) then mret (inl NotAllocated)
    else
      let allocated := Z.to_nat (Z.land s ST_ORDER) in
      if negb (allocated =? order)%nat then mret (inl (WrongOrder allocated))
      else
        n ← need (add64 (free_frames b) (block order));
        _ ← modify (with_free_frames n);
        _ ← release idx order;
        mret (inr tt).

(** ** Handing frames to the allocator *)

(** The largest aligned block at [idx] that fits before [end_]. *)
Fixpoint pick_order (order : nat) (idx end_ : Z) : option nat :=
  match order with
  | O => Some O
  | S order' =>
      if negb (Z.land idx (block order - 1) =? 0) then pick_order order' idx end_
      else
        e ← add64 idx (block order);
        if end_ <? e then pick_order order' idx end_ else Some order
  end.

(** [for i in idx .. idx + n { set(i, ST_NONE) }] *)
Fixpoint clear_run (idx : Z) (n : nat) : Exec t unit :=
  match n with
  | O => mret tt
  | S n' => _ ← set idx ST_NONE; clear_run (idx + 1) n'
  end.

Fixpoint add_run (fuel : nat) (idx end_ : Z) : Exec t unit :=
  match fuel with
  | O => panic
  | S fuel' =>
      if idx <? end_ then
        order ← need (pick_order MAX_ORDER idx end_);
        e ← need (add64 idx (block order));
        _ ← clear_run idx (Z.to_nat (block order));
        b ← get;
        n ← need (add64 (free_frames b) (block order));
        m ← need (add64 (managed_frames b) (block order));
        _ ← modify (λ b, with_managed_frames m (with_free_frames n b));
        _ ← release idx order;
        add_run fuel' e end_
      else mret tt
  end.

(** The end of the run of reserved frames starting at [run_end]. *)
Fixpoint scan_reserved (fuel : nat) (b : t) (run_end end_ : Z) : option Z :=
  match fuel with
  | O => None
  | S fuel' =>
      if run_end <? end_ then
        s ← st b run_end;
        if s =? ST_RESERVED then scan_reserved fuel' b (run_end + 1) end_
        else Some run_end
      else Some run_end
  end.

Fixpoint add_range_loop (fuel : nat) (idx end_ : Z) : Exec t unit :=
  match fuel with
  | O => panic
  | S fuel' =>
      if idx <? end_ then
        b ← get;
        s ← need (st b idx);
        if negb (s =? ST_RESERVED) then add_range_loop fuel' (idx + 1) end_
        else
          run_end ← need (scan_reserved (S (Z.to_nat (end_ - idx))) b idx end_);
          _ ← add_run (S (Z.to_nat (run_end - idx))) idx run_end;
          add_range_loop fuel' run_end end_
      else mret tt
  end.

Definition add_range (start end_ : Z) : Exec t unit :=
  b ← get;
  let end_ := Z.min end_ (frames b) in
  add_range_loop (S (Z.to_nat (end_ - start))) start end_.

(** ** Taking free frames back *)

(** [for idx in start..end { if !is_free(idx) { return false } }] *)
Fixpoint all_free (b : t) (idx : Z) (n : nat) : option bool :=
  match n with
  | O => Some true
  | S n' =>
      f ← is_free b idx;
      if negb f then Some false else all_free b (idx + 1) n'
  end.

(** The inner loop: frames [i .. i + n) of an unlinked block. *)
Fixpoint reserve_block (start end_ i : Z) (n : nat) : Exec t unit :=
  match n with
  | O => mret tt
  | S n' =>
      _ ← (if (start <=? i) && (i <? end_) then
             _ ← set i ST_RESERVED;
             b ← get;
             m ← need (sub64 (managed_frames b) 1);
             modify (with_managed_frames m)
           else
             b ← get;
             f ← need (add64 (free_frames b) 1);
             _ ← modify (with_free_frames f);
             release i 0);
      reserve_block start end_ (i + 1) n'
  end.

Fixpoint reserve_loop (fuel : nat) (start end_ idx : Z) : Exec t unit :=
  match fuel with
  | O => panic
  | S fuel' =>
      if idx <? end_ then
        b ← get;
        r ← need (free_block_containing b idx);
        r ← need r;
        let '(head, order) := r in
        _ ← unlink head order;
        b ← get;
        f ← need (sub64 (free_frames b) (block order));
        _ ← modify (with_free_frames f);
        e ← need (add64 head (block order));
        _ ← reserve_block start end_ head (Z.to_nat (block order));
        reserve_loop fuel' start end_ e
      else mret tt
  end.

Definition reserve_range (start end_ : Z) : Exec t bool :=
  b ← get;
  let end_ := Z.min end_ (frames b) in
  ok ← need (all_free b start (Z.to_nat (end_ - start)));
  if negb ok then mret false
  else
    _ ← reserve_loop (S (Z.to_nat (end_ - start))) start end_ start;
    mret true.

End Buddy.
