(* ===== verification/BuddyList.v ===== *)
(** * Buddy allocator: geometry of blocks and the intrusive free lists

    Arithmetic of naturally aligned blocks and of the buddy map
    [idx ^ (1 << order)], and list segments over the link memory: what
    inserting at the head and removing an arbitrary node do to a
    doubly-linked list. *)

From S2P Require Import Prelude BuddyModel.
Import Buddy.

(** ** Blocks *)

Definition zrange (i n : Z) : gset Z := list_to_set (seqZ i n).
Definition brange (i : Z) (o : nat) : gset Z := zrange i (block o).
Definition aligned (i : Z) (o : nat) : Prop := (block o | i).

Lemma elem_of_zrange j i n : j ∈ zrange i n ↔ i ≤ j < i + n.
Proof. unfold zrange. rewrite elem_of_list_to_set, elem_of_seqZ. lia. Qed.

Lemma elem_of_brange j i o : j ∈ brange i o ↔ i ≤ j < i + block o.
Proof. apply elem_of_zrange. Qed.

Lemma size_zrange i n : Z.of_nat (size (zrange i n)) = Z.max 0 n.
Proof.
  unfold zrange. rewrite size_list_to_set by apply NoDup_seqZ.
  rewrite length_seqZ. lia.
Qed.

Lemma block_pow o : block o = 2 ^ Z.of_nat o.
Proof. unfold block. by rewrite Z.shiftl_1_l. Qed.

Lemma block_pos o : 0 < block o.
Proof. rewrite block_pow. apply Z.pow_pos_nonneg; lia. Qed.

Lemma block_0 : block 0 = 1.
Proof. done. Qed.

Lemma block_S o : block (S o) = 2 * block o.
Proof. rewrite !block_pow, Nat2Z.inj_succ, Z.pow_succ_r by lia. lia. Qed.

Lemma block_le o o' : (o ≤ o')%nat → block o ≤ block o'.
Proof. intros. rewrite !block_pow. apply Z.pow_le_mono_r; lia. Qed.

Lemma block_max o : (o ≤ MAX_ORDER)%nat → block o ≤ 1024.
Proof. intros H. apply block_le in H. done. Qed.

Lemma size_brange i o : Z.of_nat (size (brange i o)) = block o.
Proof. unfold brange. rewrite size_zrange. pose proof (block_pos o). lia. Qed.

Lemma brange_self i o : i ∈ brange i o.
Proof. apply elem_of_brange. pose proof (block_pos o). lia. Qed.

(** ** Alignment and the buddy of a block *)

Lemma aligned_le i o o' : (o ≤ o')%nat → aligned i o' → aligned i o.
Proof.
  intros Ho. apply Z.divide_trans. rewrite !block_pow.
  exists (2 ^ (Z.of_nat o' - Z.of_nat o)). rewrite <-Z.pow_add_r by lia. f_equal. lia.
Qed.

Lemma aligned_add i o : aligned i (S o) → aligned (i + block o) o.
Proof.
  intros H. apply Z.divide_add_r; [by apply (aligned_le _ _ (S o)); [lia|]|].
  apply Z.divide_refl.
Qed.

Lemma aligned_testbit i o n :
  aligned i o → 0 ≤ n < Z.of_nat o → Z.testbit i n = false.
Proof.
  intros [k ->] Hn. rewrite block_pow. apply Z.mul_pow2_bits_low. lia.
Qed.

(** The buddy is the block next to it: above when the parent starts at [i],
    below otherwise. *)
Lemma buddy_cases i o :
  0 ≤ i → aligned i o →
  (Z.lxor i (block o) = i + block o ∧ aligned i (S o)) ∨
  (Z.lxor i (block o) = i - block o ∧ aligned (i - block o) (S o)).
Proof.
  intros Hi [k ->]. pose proof (block_pos o) as Hp.
  assert (Hx : Z.lxor (k * block o) (block o) = Z.lxor k 1 * block o).
  { rewrite !block_pow, <-!Z.shiftl_mul_pow2 by lia.
    replace (2 ^ Z.of_nat o) with (Z.shiftl 1 (Z.of_nat o))
      by (rewrite Z.shiftl_mul_pow2; lia).
    by rewrite Z.shiftl_lxor. }
  rewrite Hx. unfold aligned. rewrite block_S.
  destruct (Z.Even_or_Odd k) as [[m ->]|[m ->]].
  - left. replace (Z.lxor (2 * m) 1) with (2 * m + 1); [split; [lia|exists m; lia]|].
    destruct m as [|[]|[]]; done.
  - right. replace (Z.lxor (2 * m + 1) 1) with (2 * m); [split; [lia|exists m; lia]|].
    destruct m as [|p|p]; [done|done|]. nia.
Qed.

Lemma buddy_above i o :
  0 ≤ i → aligned i (S o) → Z.lxor i (block o) = i + block o.
Proof.
  intros Hi Ha. pose proof (block_pos o).
  destruct (buddy_cases i o) as [[E _]|[_ [k' Hk']]];
    [done|by apply (aligned_le _ _ (S o)); [lia|]|done|].
  destruct Ha as [k Hk]. rewrite block_S in Hk, Hk'.
  assert (block o * (2 * k - 1 - 2 * k') = 0) as [?|?]%Z.eq_mul_0 by lia; lia.
Qed.

Lemma buddy_involutive i o : Z.lxor (Z.lxor i (block o)) (block o) = i.
Proof. by rewrite Z.lxor_assoc, Z.lxor_nilpotent, Z.lxor_0_r. Qed.

(** Rounding down to a block boundary. *)
Lemma round_down_eq h o j :
  0 ≤ h → aligned h o → h ≤ j < h + block o → Z.ldiff j (block o - 1) = h.
Proof.
  intros Hh [k ->] Hj. pose proof (block_pos o).
  replace (block o - 1) with (Z.ones (Z.of_nat o))
    by (rewrite Z.ones_equiv, block_pow; lia).
  rewrite Z.ldiff_ones_r by lia.
  rewrite Z.shiftr_div_pow2, Z.shiftl_mul_pow2, <-block_pow by lia.
  f_equal. symmetry. apply Z.div_unique with (j - k * block o); lia.
Qed.

Lemma round_down_range j o :
  0 ≤ j → let h := Z.ldiff j (block o - 1) in
  0 ≤ h ∧ aligned h o ∧ h ≤ j < h + block o.
Proof.
  intros Hj h. pose proof (block_pos o).
  assert (h = j / block o * block o) as ->.
  { apply round_down_eq; [|by eexists|]; pose proof (Z.mod_pos_bound j (block o));
      pose proof (Z.div_mod j (block o)); pose proof (Z.div_pos j (block o)); nia. }
  pose proof (Z.mod_pos_bound j (block o)).
  pose proof (Z.div_mod j (block o)). pose proof (Z.div_pos j (block o)).
  split_and!; [nia|by eexists|nia|nia].
Qed.

(** ** State bytes *)

Lemma tag_inj o o' :
  (o ≤ MAX_ORDER)%nat → (o' ≤ MAX_ORDER)%nat →
  (free_tag o = free_tag o' → o = o') ∧ (used_tag o = used_tag o' → o = o') ∧
  free_tag o ≠ used_tag o'.
Proof.
  unfold MAX_ORDER. intros H H'.
  do 11 (destruct o as [|o]; [do 11 (destruct o' as [|o']; [vm_compute; intuition congruence|]); lia|]).
  lia.
Qed.

Lemma free_tag_inj o o' :
  (o ≤ MAX_ORDER)%nat → (o' ≤ MAX_ORDER)%nat → free_tag o = free_tag o' → o = o'.
Proof. intros H H'. by destruct (tag_inj o o' H H') as (? & _). Qed.

Lemma used_tag_inj o o' :
  (o ≤ MAX_ORDER)%nat → (o' ≤ MAX_ORDER)%nat → used_tag o = used_tag o' → o = o'.
Proof. intros H H'. by destruct (tag_inj o o' H H') as (_ & ? & _). Qed.

Lemma free_used_tag o o' :
  (o ≤ MAX_ORDER)%nat → (o' ≤ MAX_ORDER)%nat → free_tag o ≠ used_tag o'.
Proof. intros H H'. by destruct (tag_inj o o' H H') as (_ & _ & ?). Qed.

Lemma tag_facts o :
  (o ≤ MAX_ORDER)%nat →
  free_tag o ≠ ST_NONE ∧ free_tag o ≠ ST_RESERVED ∧
  used_tag o ≠ ST_NONE ∧ used_tag o ≠ ST_RESERVED ∧
  Z.land (free_tag o) ST_KIND ≠ ST_USED ∧
  Z.land (used_tag o) ST_KIND = ST_USED ∧ Z.to_nat (Z.land (used_tag o) ST_ORDER) = o.
Proof.
  unfold MAX_ORDER. intros H.
  do 11 (destruct o as [|o]; [vm_compute; intuition congruence|]). lia.
Qed.

(** ** List segments

    [dseg m p q l p' q']: the nodes [l] are linked from pointer [q], the first
    one with predecessor [p]; the last one is [p'] and its successor [q']. *)
Fixpoint dseg (m : gmap Z Link) (p q : Z) (l : list Z) (p' q' : Z) : Prop :=
  match l with
  | [] => p = p' ∧ q = q'
  | x :: l' => q = x ∧ ∃ n, m !! x = Some (mkLink n p) ∧ dseg m x n l' p' q'
  end.

Definition dlist (m : gmap Z Link) (h : Z) (l : list Z) : Prop :=
  ∃ last, dseg m NIL h l last NIL.

Lemma dseg_app m l1 l2 p q p' q' :
  dseg m p q (l1 ++ l2) p' q' ↔
  ∃ p1 q1, dseg m p q l1 p1 q1 ∧ dseg m p1 q1 l2 p' q'.
Proof.
  revert p q. induction l1 as [|x l1 IH]; intros p q; simpl.
  - split; [eauto 6|]. by intros (? & ? & [-> ->] & ?).
  - setoid_rewrite IH. naive_solver.
Qed.

Lemma dseg_insert m l p q p' q' i v :
  i ∉ l → dseg m p q l p' q' → dseg (<[i:=v]> m) p q l p' q'.
Proof.
  revert p q. induction l as [|x l IH]; intros p q Hi; simpl; [done|].
  apply not_elem_of_cons in Hi as [Hix Hi].
  intros [-> (n & Hx & Hs)]. split; [done|]. exists n.
  rewrite lookup_insert_ne by done. eauto.
Qed.

(** The node before a non-empty segment's end is the last of the list. *)
Lemma dseg_last m l p q p' q' :
  dseg m p q l p' q' → (l = [] ∧ p = p' ∧ q = q') ∨ ∃ l', l = l' ++ [p'].
Proof.
  destruct l as [|x l0 _] using rev_ind; intros Hs; [by left; destruct Hs|].
  right. exists l0. f_equal. apply dseg_app in Hs as (? & ? & _ & Hs).
  simpl in Hs. naive_solver.
Qed.

(** Redirecting the successor of the last node. *)
Lemma dseg_set_last m l p q p' q' n v :
  NoDup (l ++ [p']) → dseg m p q (l ++ [p']) p' q' →
  m !! p' = Some v → dseg (<[p' := mkLink n (prev v)]> m) p q (l ++ [p']) p' n.
Proof.
  intros Hnd Hs Hv. apply NoDup_app in Hnd as (_ & Hnd & _).
  apply dseg_app in Hs as (p1 & q1 & Hs1 & Hs2). apply dseg_app.
  exists p1, q1. split.
  - apply dseg_insert; [|done]. intros Hin. apply (Hnd p' Hin). by constructor.
  - simpl in *. destruct Hs2 as [-> (n' & Hp & [_ _])]. simplify_eq.
    split; [done|]. exists n. by rewrite lookup_insert_eq.
Qed.

(** Redirecting the predecessor of the first node. *)
Lemma dseg_set_first m l p q p' q' pn v :
  NoDup l → l ≠ [] → dseg m p q l p' q' → m !! q = Some v →
  dseg (<[q := mkLink (next v) pn]> m) pn q l p' q'.
Proof.
  destruct l as [|x l]; [done|]. intros Hnd _ [-> (n & Hx & Hs)] Hv.
  apply NoDup_cons in Hnd as [Hx' Hnd]. simplify_eq. simpl.
  split; [done|]. exists n. rewrite lookup_insert_eq. split; [done|].
  by apply dseg_insert.
Qed.

Lemma dseg_mem m l p q p' q' x :
  dseg m p q l p' q' → x ∈ l → is_Some (m !! x).
Proof.
  revert p q. induction l as [|y l IH]; intros p q; simpl; [intros _; by intros ?%not_elem_of_nil|].
  intros [-> (n & Hy & Hs)] [->|?]%elem_of_cons; eauto.
Qed.

Lemma dlist_head m h l :
  dlist m h l → (l = [] ∧ h = NIL) ∨ ∃ l', l = h :: l'.
Proof.
  intros [lst Hs]. destruct l; simpl in Hs; [naive_solver|].
  right. destruct Hs as [-> _]. eauto.
Qed.

Lemma dlist_insert m h l i v :
  i ∉ l → dlist m h l → dlist (<[i:=v]> m) h l.
Proof. intros Hi [lst Hs]. exists lst. by apply dseg_insert. Qed.

(** ** The pointer updates of [unlink] and [push] *)

Definition set_next (m : gmap Z Link) (i n : Z) : gmap Z Link :=
  alter (λ l, mkLink n (prev l)) i m.
Definition set_prev (m : gmap Z Link) (i p : Z) : gmap Z Link :=
  alter (λ l, mkLink (next l) p) i m.

Lemma alter_insert {A} (f : A → A) (m : gmap Z A) i x :
  m !! i = Some x → alter f i m = <[i := f x]> m.
Proof.
  intros Hi. apply map_eq. intros j. destruct (decide (i = j)) as [->|Hj].
  - by rewrite lookup_alter_eq, lookup_insert_eq, Hi.
  - by rewrite lookup_alter_ne, lookup_insert_ne.
Qed.

Definition mem_unlink (m : gmap Z Link) (nx pv : Z) : gmap Z Link :=
  let m1 := if pv =? NIL then m else set_next m pv nx in
  if nx =? NIL then m1 else set_prev m1 nx pv.

Definition mem_push (m : gmap Z Link) (h i : Z) : gmap Z Link :=
  let m1 := <[i := mkLink h NIL]> m in
  if h =? NIL then m1 else set_prev m1 h i.

(** Removing a node found anywhere in the list. *)
Lemma dlist_unlink m h l1 x l2 :
  NoDup (l1 ++ x :: l2) → NIL ∉ l1 ++ x :: l2 → dlist m h (l1 ++ x :: l2) →
  ∃ nx pv, m !! x = Some (mkLink nx pv) ∧
    (pv = NIL ∨ pv ∈ l1 ∧ is_Some (m !! pv)) ∧
    (nx = NIL ∨ nx ∈ l2 ∧ is_Some (m !! nx)) ∧
    dlist (mem_unlink m nx pv) (if pv =? NIL then nx else h) (l1 ++ l2).
Proof.
  intros Hnd Hnil [lst Hs]. apply dseg_app in Hs as (pv & q & Hs1 & Hs2).
  simpl in Hs2. destruct Hs2 as [-> (nx & Hx & Hs2)]. exists nx, pv.
  apply NoDup_app in Hnd as (Hnd1 & Hdisj & Hnd2).
  apply NoDup_cons in Hnd2 as [Hx2 Hnd2].
  rewrite not_elem_of_app, not_elem_of_cons in Hnil. destruct Hnil as (Hn1 & Hnx & Hn2).
  assert (Hpv : (l1 = [] ∧ pv = NIL ∧ h = x) ∨ ∃ l', l1 = l' ++ [pv])
    by (destruct (dseg_last _ _ _ _ _ _ Hs1); naive_solver).
  assert (Hn : (l2 = [] ∧ nx = NIL ∧ x = lst) ∨ ∃ l', l2 = nx :: l').
  { destruct l2; simpl in Hs2; [naive_solver|]. right. destruct Hs2 as [-> _]. eauto. }
  split; [done|]. split; [|split].
  - destruct Hpv as [(_ & -> & _)|[l' ->]]; [by left|]. right.
    split; [set_solver|]. eapply dseg_mem; [exact Hs1|set_solver].
  - destruct Hn as [(_ & -> & _)|[l' ->]]; [by left|]. right.
    split; [set_solver|]. eapply dseg_mem; [exact Hs2|set_solver].
  - unfold mem_unlink.
    (* the memory after the first update, with both segments *)
    assert (∃ m1, (if pv =? NIL then m else set_next m pv nx) = m1 ∧
      dseg m1 NIL (if pv =? NIL then nx else h) l1 pv nx ∧ dseg m1 x nx l2 lst NIL)
      as (m1 & -> & H1 & H2).
    { destruct Hpv as [(-> & -> & ->)|[l' ->]].
      - eexists; split; [done|]. by rewrite Z.eqb_refl.
      - assert (pv ≠ NIL) as Hpv by set_solver.
        rewrite (proj2 (Z.eqb_neq _ _) Hpv).
        destruct (dseg_mem _ _ _ _ _ _ pv Hs1) as [v Hv]; [set_solver|].
        eexists; split; [done|]. unfold set_next. rewrite (alter_insert _ _ _ _ Hv).
        split; [by eapply dseg_set_last|]. apply dseg_insert; [|done].
        intros ?. apply (Hdisj pv); set_solver. }
    destruct Hn as [(-> & -> & ->)|[l' ->]].
    + rewrite Z.eqb_refl. exists pv. rewrite app_nil_r. done.
    + assert (nx ≠ NIL) as Hne by set_solver.
      rewrite (proj2 (Z.eqb_neq _ _) Hne). exists lst.
      destruct (dseg_mem _ _ _ _ _ _ nx H2) as [v Hv]; [set_solver|].
      unfold set_prev. rewrite (alter_insert _ _ _ _ Hv).
      apply dseg_app. exists pv, nx. split.
      * apply dseg_insert; [|done]. intros ?. apply (Hdisj nx); set_solver.
      * by eapply dseg_set_first.
Qed.

(** Inserting a node in front of the list. *)
Lemma dlist_push m h l x :
  NoDup l → NIL ∉ l → x ∉ l → dlist m h l → dlist (mem_push m h x) x (x :: l).
Proof.
  intros Hnd Hnil Hx Hl. unfold mem_push.
  destruct (dlist_head _ _ _ Hl) as [[-> ->]|[l' ->]].
  - rewrite Z.eqb_refl. exists x. simpl. split; [done|]. exists NIL.
    by rewrite lookup_insert_eq.
  - assert (h ≠ NIL ∧ x ≠ h) as [Hh Hxh] by set_solver.
    rewrite (proj2 (Z.eqb_neq _ _) Hh).
    destruct Hl as [lst Hs]. exists lst.
    apply (dseg_insert _ _ _ _ _ _ x (mkLink h NIL) Hx) in Hs.
    destruct (dseg_mem _ _ _ _ _ _ h Hs) as [v Hv]; [set_solver|].
    unfold set_prev. rewrite (alter_insert _ _ _ _ Hv). simpl.
    split; [done|]. exists h. rewrite lookup_insert_ne, lookup_insert_eq by done.
    split; [done|]. apply (dseg_set_first _ (h :: l') NIL h lst NIL x v); done.
Qed.

(** Where the updates happen. *)
Lemma mem_unlink_frame m nx pv j :
  nx = NIL ∨ j ≠ nx → pv = NIL ∨ j ≠ pv → mem_unlink m nx pv !! j = m !! j.
Proof.
  intros Hn Hp. unfold mem_unlink, set_next, set_prev.
  destruct (Z.eqb_spec nx NIL), (Z.eqb_spec pv NIL);
    rewrite ?lookup_alter_ne by naive_solver; done.
Qed.

Lemma mem_push_frame m h i j :
  h = NIL ∨ j ≠ h → j ≠ i → mem_push m h i !! j = m !! j.
Proof.
  intros Hh Hi. unfold mem_push, set_prev.
  destruct (Z.eqb_spec h NIL);
    rewrite ?lookup_alter_ne, lookup_insert_ne by naive_solver; done.
Qed.

Lemma dseg_ext m m' l p q p' q' :
  (∀ x, x ∈ l → m' !! x = m !! x) → dseg m p q l p' q' → dseg m' p q l p' q'.
Proof.
  revert p q. induction l as [|x l IH]; intros p q Hm; simpl; [done|].
  intros [-> (n & Hx & Hs)]. split; [done|]. exists n.
  rewrite Hm by constructor. split; [done|]. apply IH; [|done].
  intros y Hy. apply Hm. by constructor.
Qed.

Lemma dlist_ext m m' h l :
  (∀ x, x ∈ l → m' !! x = m !! x) → dlist m h l → dlist m' h l.
Proof. intros Hm [lst Hs]. exists lst. by eapply dseg_ext. Qed.
