(* ===== verification/BuddyInv.v ===== *)
(** * Buddy allocator: the invariant and the list operations

    [core H F b] is the invariant of the allocator while the frames [H] are in
    transit (unlinked from every list and not yet handed out or released):
    outside [H] every state byte describes a partition of the frames into
    naturally aligned blocks, free buddies are always coalesced, the free
    lists hold exactly the heads of the free blocks, and [F] is the set of
    frames inside free blocks. *)

From S2P Require Import Prelude BuddyModel BuddyList.
Import Buddy.

(** A byte that heads a block of order [o]. *)
Definition is_tag (v : Z) (o : nat) : Prop :=
  (o ≤ MAX_ORDER)%nat ∧ (v = free_tag o ∨ v = used_tag o).

Record shape (H : gset Z) (b : t) : Prop := {
  sh_frames : 0 ≤ frames b < 2 ^ 63;
  sh_dom i : is_Some (state b !! i) ↔ 0 ≤ i < frames b;
  sh_vals i v : state b !! i = Some v → i ∉ H →
    v = ST_NONE ∨ v = ST_RESERVED ∨ ∃ o, is_tag v o;
  sh_block i v o : i ∉ H → state b !! i = Some v → is_tag v o →
    aligned i o ∧ i + block o ≤ frames b ∧
    ∀ j, i < j < i + block o → j ∉ H ∧ state b !! j = Some ST_NONE;
  sh_none j : j ∉ H → state b !! j = Some ST_NONE →
    ∃ i v o, i ∉ H ∧ state b !! i = Some v ∧ is_tag v o ∧ i < j < i + block o;
  sh_coal i o : (o < MAX_ORDER)%nat → i ∉ H → Z.lxor i (block o) ∉ H →
    state b !! i = Some (free_tag o) →
    state b !! Z.lxor i (block o) ≠ Some (free_tag o);
}.

Record lists (H : gset Z) (b : t) (fl : nat → list Z) : Prop := {
  li_heads : length (heads b) = S MAX_ORDER;
  li_counts : length (counts b) = S MAX_ORDER;
  li_list o : (o ≤ MAX_ORDER)%nat →
    ∃ h, heads b !! o = Some h ∧ dlist (mem b) h (fl o);
  li_nodup o : (o ≤ MAX_ORDER)%nat → NoDup (fl o);
  li_elem o i : (o ≤ MAX_ORDER)%nat →
    i ∈ fl o ↔ i ∉ H ∧ state b !! i = Some (free_tag o);
  li_count o : (o ≤ MAX_ORDER)%nat →
    counts b !! o = Some (Z.of_nat (length (fl o)));
}.

(** Frame [j] lies in a free block. *)
Definition free_in (H : gset Z) (b : t) (j : Z) : Prop :=
  ∃ i o, (o ≤ MAX_ORDER)%nat ∧ i ∉ H ∧ state b !! i = Some (free_tag o) ∧
    i ≤ j < i + block o.

Record core (H F : gset Z) (b : t) : Prop := {
  co_shape : shape H b;
  co_lists : ∃ fl, lists H b fl;
  co_free j : j ∈ F ↔ free_in H b j;
}.

(** The frames ever released into the allocator and not taken back. *)
Definition managed_set (s : gmap Z Z) : gset Z :=
  dom (filter (λ kv, kv.2 ≠ ST_RESERVED) s).

(** The invariant of an allocator at rest. *)
Record inv (F : gset Z) (b : t) : Prop := {
  inv_core : core ∅ F b;
  inv_free : free_frames b = Z.of_nat (size F);
  inv_managed : managed_frames b = Z.of_nat (size (managed_set (state b)));
}.

(** What an operation leaves alone: the state bytes and the memory of the
    frames outside [X], and the counters. *)
Record keeps (X : gset Z) (b b' : t) : Prop := {
  k_frames : frames b' = frames b;
  k_state j : j ∉ X → state b' !! j = state b !! j;
  k_mem j : j ∉ X → mem b' !! j = mem b !! j;
  k_free : free_frames b' = free_frames b;
  k_managed : managed_frames b' = managed_frames b;
  k_mset : managed_set (state b') = managed_set (state b);
}.

(** A byte of a reserved frame or of an allocated head. *)
Definition pinned (v : Z) : Prop :=
  v = ST_RESERVED ∨ ∃ o, (o ≤ MAX_ORDER)%nat ∧ v = used_tag o.

(** ** Consequences of the shape *)

Section shape_facts.
Context {H : gset Z} {b : t}.
Hypothesis Hsh : shape H b.

Lemma shape_lookup_range i v : state b !! i = Some v → 0 ≤ i < frames b.
Proof. intros Hi. apply (sh_dom _ _ Hsh). eauto. Qed.

Lemma shape_head_order i v o o' :
  state b !! i = Some v → is_tag v o → is_tag v o' → o = o'.
Proof.
  intros _ [Ho Hv] [Ho' Hv'].
  destruct Hv as [->| ->], Hv' as [Hv'|Hv'].
  - by apply free_tag_inj.
  - by apply free_used_tag in Hv'.
  - symmetry in Hv'. by apply free_used_tag in Hv'.
  - by apply used_tag_inj.
Qed.

Lemma is_tag_not_none v o : is_tag v o → v ≠ ST_NONE ∧ v ≠ ST_RESERVED.
Proof. intros [Ho [->| ->]]; destruct (tag_facts o Ho); naive_solver. Qed.

(** Blocks headed by different frames do not overlap. *)
Lemma blocks_disjoint i v o i' v' o' :
  i ∉ H → state b !! i = Some v → is_tag v o →
  i' ∉ H → state b !! i' = Some v' → is_tag v' o' →
  i ≠ i' → i + block o ≤ i' ∨ i' + block o' ≤ i.
Proof.
  intros HiH Hi Ht HiH' Hi' Ht' Hne.
  destruct (sh_block _ _ Hsh i v o HiH Hi Ht) as (_ & _ & Hin).
  destruct (sh_block _ _ Hsh i' v' o' HiH' Hi' Ht') as (_ & _ & Hin').
  destruct (is_tag_not_none _ _ Ht), (is_tag_not_none _ _ Ht').
  destruct (decide (i + block o ≤ i')); [by left|].
  destruct (decide (i' + block o' ≤ i)); [by right|]. exfalso.
  destruct (decide (i < i')).
  - destruct (Hin i') as [_ ?]; [lia|]. congruence.
  - destruct (Hin' i) as [_ ?]; [lia|]. congruence.
Qed.

(** The block of a head outside [H] avoids [H]. *)
Lemma block_not_transit i v o j :
  i ∉ H → state b !! i = Some v → is_tag v o → i ≤ j < i + block o → j ∉ H.
Proof.
  intros HiH Hi Ht Hj. destruct (decide (j = i)) as [->|]; [done|].
  destruct (sh_block _ _ Hsh i v o HiH Hi Ht) as (_ & _ & Hin).
  apply (Hin j). lia.
Qed.
End shape_facts.

Section core_facts.
Context {H F : gset Z} {b : t}.
Hypothesis Hc : core H F b.

Lemma core_free_not_transit j : j ∈ F → j ∉ H.
Proof.
  intros (i & o & Ho & Hi & Hs & Hj)%(co_free _ _ _ Hc).
  eapply (block_not_transit (co_shape _ _ _ Hc) i (free_tag o) o); eauto.
  split; auto.
Qed.

Lemma core_free_range j : j ∈ F → 0 ≤ j < frames b.
Proof.
  intros (i & o & Ho & Hi & Hs & Hj)%(co_free _ _ _ Hc).
  pose proof (shape_lookup_range (co_shape _ _ _ Hc) _ _ Hs).
  destruct (sh_block _ _ (co_shape _ _ _ Hc) i (free_tag o) o) as (_ & ? & _); auto.
  { split; auto. } lia.
Qed.

Lemma core_free_size : Z.of_nat (size F) ≤ frames b.
Proof.
  pose proof (sh_frames _ _ (co_shape _ _ _ Hc)).
  assert (F ⊆ zrange 0 (frames b)) as Hsub%subseteq_size.
  { intros j Hj%core_free_range. apply elem_of_zrange. lia. }
  pose proof (size_zrange 0 (frames b)). lia.
Qed.

(** The block of a free head is part of [F]. *)
Lemma core_block_free i o :
  (o ≤ MAX_ORDER)%nat → i ∉ H → state b !! i = Some (free_tag o) →
  brange i o ⊆ F.
Proof.
  intros Ho Hi Hs j Hj%elem_of_brange. apply (co_free _ _ _ Hc).
  exists i, o. auto.
Qed.

(** A frame of [F] is never reserved, and is no allocated head. *)
Lemma core_free_not_pinned j v : j ∈ F → state b !! j = Some v → ¬ pinned v.
Proof.
  intros (i & o & Ho & Hi & Hs & Hj)%(co_free _ _ _ Hc) Hv.
  destruct (sh_block _ _ (co_shape _ _ _ Hc) i (free_tag o) o) as (_ & _ & Hin); auto.
  { split; auto. }
  assert (v = free_tag o ∨ v = ST_NONE) as [-> | ->].
  { destruct (decide (j = i)) as [->|]; [left; congruence|].
    destruct (Hin j); [lia|]. right; congruence. }
  - intros [?|(o' & Ho' & ?)]; [destruct (tag_facts o); naive_solver|].
    by apply (free_used_tag o o').
  - intros [?|(o' & Ho' & ?)]; [done|]. destruct (tag_facts o'); naive_solver.
Qed.
End core_facts.

Lemma elem_of_managed_set s j :
  j ∈ managed_set s ↔ ∃ v, s !! j = Some v ∧ v ≠ ST_RESERVED.
Proof.
  unfold managed_set. rewrite elem_of_dom. unfold is_Some.
  setoid_rewrite map_lookup_filter_Some. naive_solver.
Qed.

Lemma managed_set_insert s i v v0 :
  s !! i = Some v0 → v0 ≠ ST_RESERVED → v ≠ ST_RESERVED →
  managed_set (<[i := v]> s) = managed_set s.
Proof.
  intros Hi Hv0 Hv. apply set_eq. intros j. rewrite !elem_of_managed_set.
  destruct (decide (i = j)) as [->|].
  - rewrite lookup_insert_eq. naive_solver.
  - by rewrite lookup_insert_ne.
Qed.

Lemma keeps_refl X b : keeps X b b.
Proof. by split. Qed.

Lemma keeps_trans X b1 b2 b3 : keeps X b1 b2 → keeps X b2 b3 → keeps X b1 b3.
Proof.
  intros H1 H2. split.
  - by rewrite (k_frames _ _ _ H2), (k_frames _ _ _ H1).
  - intros j Hj. by rewrite (k_state _ _ _ H2), (k_state _ _ _ H1).
  - intros j Hj. by rewrite (k_mem _ _ _ H2), (k_mem _ _ _ H1).
  - by rewrite (k_free _ _ _ H2), (k_free _ _ _ H1).
  - by rewrite (k_managed _ _ _ H2), (k_managed _ _ _ H1).
  - by rewrite (k_mset _ _ _ H2), (k_mset _ _ _ H1).
Qed.

Lemma keeps_weaken X X' b b' : X ⊆ X' → keeps X b b' → keeps X' b b'.
Proof. intros HX []. split; auto. Qed.

(** ** Running the list primitives *)

Lemma wp_set b idx v v0 Q :
  state b !! idx = Some v0 → Q tt (with_state (<[idx := v]> (state b)) b) →
  wp (set idx v) Q b.
Proof.
  intros Hi HQ. unfold set. wp_steps. eapply wp_need; [exact Hi|]. by wp_steps.
Qed.

Lemma wp_write_prev b i p Q :
  is_Some (mem b !! i) → Q tt (with_mem (set_prev (mem b) i p) b) →
  wp (write_prev i p) Q b.
Proof.
  intros [l Hl] HQ. unfold write_prev. wp_steps. eapply wp_need; [exact Hl|].
  unfold write_link. wp_steps. unfold set_prev in HQ.
  by rewrite (alter_insert _ _ _ _ Hl) in HQ.
Qed.

Lemma wp_write_next b i n Q :
  is_Some (mem b !! i) → Q tt (with_mem (set_next (mem b) i n) b) →
  wp (write_next i n) Q b.
Proof.
  intros [l Hl] HQ. unfold write_next. wp_steps. eapply wp_need; [exact Hl|].
  unfold write_link. wp_steps. unfold set_next in HQ.
  by rewrite (alter_insert _ _ _ _ Hl) in HQ.
Qed.

(** The allocator after [unlink] of a node with links [nx] and [pv]. *)
Definition unlinked (nx pv : Z) (o : nat) (c : Z) (b : t) : t :=
  {| mem := mem_unlink (mem b) nx pv;
     state := state b;
     frames := frames b;
     heads := if pv =? NIL then <[o := nx]> (heads b) else heads b;
     counts := <[o := c - 1]> (counts b);
     free_frames := free_frames b;
     managed_frames := managed_frames b |}.

Lemma wp_unlink_raw b idx o nx pv h c Q :
  mem b !! idx = Some (mkLink nx pv) →
  heads b !! o = Some h → counts b !! o = Some c → 1 ≤ c →
  (pv = NIL ∨ is_Some (mem b !! pv)) → (nx = NIL ∨ is_Some (mem b !! nx)) →
  Q tt (unlinked nx pv o c b) → wp (unlink idx o) Q b.
Proof.
  intros Hl Hh Hct Hc1 Hpv Hnx HQ. unfold unlink. wp_steps.
  eapply wp_need; [exact Hl|]. wp_steps. cbn [next prev].
  assert (∀ b1, mem b1 = (if pv =? NIL then mem b else set_next (mem b) pv nx) →
    wp (if nx =? NIL then mret tt else write_prev nx pv)
      (λ _ b2, b2 = with_mem (mem_unlink (mem b) nx pv) b1) b1) as Hsnd.
  { intros b1 Hm. unfold mem_unlink. rewrite <-Hm.
    destruct (nx =? NIL) eqn:E; [wp_steps; by destruct b1|].
    apply wp_write_prev; [|done]. apply Z.eqb_neq in E.
    destruct Hnx as [?|[v Hv]]; [done|]. rewrite Hm. case_match; [by eexists|].
    unfold set_next. destruct (decide (pv = nx)) as [->|].
    - rewrite lookup_alter_eq, Hv. by eexists.
    - rewrite lookup_alter_ne, Hv by done. by eexists. }
  destruct (pv =? NIL) eqn:E.
  - wp_steps. eapply wp_need; [exact Hh|]. unfold write_head. wp_steps.
    eapply wp_mono; [by apply Hsnd|]. cbn beta. intros _ b2 ->. wp_steps.
    eapply wp_need; [exact Hct|]. eapply wp_bind, wp_need; [by apply sub64_ok|].
    unfold write_count. wp_steps. unfold unlinked in HQ. by rewrite E in HQ.
  - apply Z.eqb_neq in E as E'. destruct Hpv as [?|Hpv]; [done|].
    apply wp_write_next; [done|].
    eapply wp_bind, wp_mono; [by apply Hsnd|]. cbn beta. intros _ b2 ->. wp_steps.
    eapply wp_need; [exact Hct|]. eapply wp_bind, wp_need; [by apply sub64_ok|].
    unfold write_count. wp_steps. unfold unlinked in HQ. by rewrite E in HQ.
Qed.

(** The allocator after [push]. *)
Definition pushed (idx : Z) (o : nat) (h c : Z) (b : t) : t :=
  {| mem := mem_push (mem b) h idx;
     state := <[idx := free_tag o]> (state b);
     frames := frames b;
     heads := <[o := idx]> (heads b);
     counts := <[o := c + 1]> (counts b);
     free_frames := free_frames b;
     managed_frames := managed_frames b |}.

Lemma wp_push_raw b idx o h c v Q :
  heads b !! o = Some h → counts b !! o = Some c → c + 1 < U64 →
  (h = NIL ∨ is_Some (mem b !! h)) → state b !! idx = Some v →
  Q tt (pushed idx o h c b) → wp (push idx o) Q b.
Proof.
  intros Hh Hct Hc1 Hm Hs HQ. unfold push. wp_steps.
  eapply wp_need; [exact Hh|]. unfold write_link. wp_steps.
  assert (∀ b1, mem b1 = <[idx := mkLink h NIL]> (mem b) →
    wp (if h =? NIL then mret tt else write_prev h idx)
      (λ _ b2, b2 = with_mem (mem_push (mem b) h idx) b1) b1) as Hsnd.
  { intros b1 Hb1. unfold mem_push. rewrite <-Hb1.
    destruct (h =? NIL) eqn:E; [wp_steps; by destruct b1|].
    apply wp_write_prev; [|done]. apply Z.eqb_neq in E.
    destruct Hm as [?|[w Hw]]; [done|]. rewrite Hb1.
    destruct (decide (idx = h)) as [->|].
    - rewrite lookup_insert_eq. by eexists.
    - rewrite lookup_insert_ne, Hw by done. by eexists. }
  eapply wp_mono; [by apply Hsnd|]. cbn beta. intros _ b2 ->.
  unfold write_head, write_count. wp_steps.
  eapply wp_need; [exact Hct|]. eapply wp_bind, wp_need; [by apply add64_ok|].
  wp_steps. by eapply wp_set.
Qed.

Section lists_facts.
Context {H F : gset Z} {b : t} {fl : nat → list Z}.
Hypothesis Hc : core H F b.
Hypothesis Hl : lists H b fl.

(** Nodes of the lists are frame numbers, so none is [NIL]. *)
Lemma lists_elem_not_nil o' x :
  (o' ≤ MAX_ORDER)%nat → x ∈ fl o' → x ≠ NIL.
Proof.
  intros Ho' Hin. apply (li_elem _ _ _ Hl) in Hin as [_ Hin]; [|done].
  apply (shape_lookup_range (co_shape _ _ _ Hc)) in Hin. pose proof (sh_frames _ _ (co_shape _ _ _ Hc)).
  unfold NIL, u64_max, U64. lia.
Qed.

Lemma lists_disjoint o1 o2 x :
  (o1 ≤ MAX_ORDER)%nat → (o2 ≤ MAX_ORDER)%nat → x ∈ fl o1 → x ∈ fl o2 → o1 = o2.
Proof.
  intros H1 H2 [_ Hx]%(li_elem _ _ _ Hl) [_ Hy]%(li_elem _ _ _ Hl); [|done..].
  apply free_tag_inj; [done..|]. congruence.
Qed.
End lists_facts.

(** ** Putting the frames of a block in transit *)

Section take.
Context {H F : gset Z} {b : t} {idx tag : Z} {o : nat}.
Hypothesis Hc : core H F b.
Hypothesis HiH : idx ∉ H.
Hypothesis Hst : state b !! idx = Some tag.
Hypothesis Htag : is_tag tag o.

Let Hsh := co_shape _ _ _ Hc.

(** A head outside [H] and outside the block has its block outside too. *)
Lemma take_other i v o' j :
  i ∉ H → state b !! i = Some v → is_tag v o' → i ≠ idx →
  i ≤ j < i + block o' → j ∉ brange idx o.
Proof.
  intros HiH' Hi Ht Hne Hj Hj'%elem_of_brange.
  destruct (blocks_disjoint Hsh i v o' idx tag o); auto; lia.
Qed.

Lemma take_head_in i v o' :
  i ∉ H → state b !! i = Some v → is_tag v o' → i ∈ brange idx o → i = idx.
Proof.
  intros HiH' Hi Ht Hin. destruct (decide (i = idx)); [done|].
  exfalso. eapply (take_other i v o' i); eauto. pose proof (block_pos o'). lia.
Qed.

Lemma shape_take b' :
  state b' = state b → frames b' = frames b → shape (H ∪ brange idx o) b'.
Proof.
  intros Es Ef. destruct Hsh as [Hf Hd Hv Hb Hn Hco]. split; rewrite ?Es, ?Ef; auto.
  - intros i v Hi HiH'. apply (Hv i); [done|set_solver].
  - intros i v o' HiH' Hi Ht. destruct (Hb i v o') as (Ha & Hle & Hin); [set_solver|done..|].
    split; [done|]. split; [done|]. intros j Hj. destruct (Hin j Hj) as [HjH Hjn].
    split; [|done]. apply not_elem_of_union. split; [done|].
    apply (take_other i v o'); [set_solver|done..| |lia].
    intros ->. apply HiH', elem_of_union_r, brange_self.
  - intros j HjH Hj. destruct (Hn j) as (i & v & o' & HiH' & Hi & Ht & Hij); [set_solver|done|].
    exists i, v, o'. split; [|done]. apply not_elem_of_union. split; [done|].
    intros Hin. pose proof (take_head_in i v o' HiH' Hi Ht Hin) as ->.
    assert (v = tag) as -> by congruence.
    pose proof (shape_head_order idx _ o o' Hst Htag Ht) as <-.
    apply HjH, elem_of_union_r, elem_of_brange. lia.
  - intros i o' Ho' Hi Hbud. apply Hco; [done|set_solver..].
Qed.
End take.

(** ** Unlinking a free block *)

Section unlink.
Context {H F : gset Z} {b : t} {idx : Z} {o : nat}.
Hypothesis Hc : core H F b.
Hypothesis Ho : (o ≤ MAX_ORDER)%nat.
Hypothesis HiH : idx ∉ H.
Hypothesis Hst : state b !! idx = Some (free_tag o).

Let Hsh := co_shape _ _ _ Hc.

Lemma free_is_tag o' : (o' ≤ MAX_ORDER)%nat → is_tag (free_tag o') o'.
Proof using. split; auto. Qed.

Lemma unlink_free_in i o' :
  (o' ≤ MAX_ORDER)%nat → i ∉ H → state b !! i = Some (free_tag o') →
  i ∈ brange idx o → i = idx ∧ o' = o.
Proof.
  intros Ho' Hi Hs Hin.
  assert (i = idx) as ->
    by (apply (take_head_in Hc HiH Hst (free_is_tag o Ho) i (free_tag o') o'); auto using free_is_tag).
  split; [done|]. apply free_tag_inj; [done..|]. congruence.
Qed.

Lemma free_unlink b' j :
  state b' = state b →
  j ∈ F ∖ brange idx o ↔ free_in (H ∪ brange idx o) b' j.
Proof.
  intros Es. rewrite elem_of_difference, (co_free _ _ _ Hc). unfold free_in. rewrite Es. split.
  - intros [(i & o' & Ho' & Hi & Hs & Hj) Hnin]. exists i, o'.
    split_and!; [done| |done|lia..]. apply not_elem_of_union. split; [done|]. intros Hin.
    apply (unlink_free_in i o' Ho' Hi Hs) in Hin as [-> ->].
    apply Hnin, elem_of_brange. lia.
  - intros (i & o' & Ho' & [Hi Hib]%not_elem_of_union & Hs & Hj). split; [by exists i, o'|].
    apply (take_other Hc HiH Hst (free_is_tag o Ho) i (free_tag o') o');
      [done|done|by apply free_is_tag| |done].
    intros ->. apply Hib, brange_self.
Qed.

Context {fl : nat → list Z} {l1 l2 : list Z}.
Hypothesis Hl : lists H b fl.
Hypothesis Hfl : fl o = l1 ++ idx :: l2.

Lemma lists_unlink nx pv :
  (pv = NIL ∨ pv ∈ fl o) → (nx = NIL ∨ nx ∈ fl o) →
  (∀ h, heads b !! o = Some h →
    dlist (mem_unlink (mem b) nx pv) (if pv =? NIL then nx else h) (l1 ++ l2)) →
  lists (H ∪ brange idx o) (unlinked nx pv o (Z.of_nat (length (fl o))) b)
    (λ o', if decide (o' = o) then l1 ++ l2 else fl o').
Proof.
  intros Hpv Hnx Hdl. pose proof (li_nodup _ _ _ Hl o Ho) as Hnd.
  rewrite Hfl in Hnd. apply NoDup_app in Hnd as (Hnd1 & Hdj & [Hnd2 Hnd3]%NoDup_cons).
  pose proof (lists_elem_not_nil Hc Hl) as Hnil. pose proof (lists_disjoint Hl) as Hdisj.
  destruct Hl as [Hlh Hlc Hll Hln Hle Hlct]. split; simpl.
  - case_match; by rewrite ?length_insert.
  - by rewrite length_insert.
  - intros o' Ho'. destruct (Hll o' Ho') as (h' & Hh' & Hd').
    case_decide as Heq; [subst o'|].
    + eexists. split; [|by apply Hdl]. case_match; [|done].
      apply list_lookup_insert_eq. lia.
    + exists h'. split; [case_match; by rewrite ?list_lookup_insert_ne|].
      eapply dlist_ext; [|exact Hd']. intros x Hx.
      apply mem_unlink_frame; [destruct Hnx|destruct Hpv];
        [by left|right; intros ->; naive_solver|by left|right; intros ->; naive_solver].
  - intros o' Ho'. case_decide; [|by auto]. apply NoDup_app. set_solver.
  - intros o' i Ho'. rewrite not_elem_of_union. case_decide as Heq; [subst o'|].
    + assert (i ∈ l1 ++ l2 ↔ i ∈ fl o ∧ i ≠ idx) as -> by (rewrite Hfl; set_solver).
      rewrite Hle by done. split.
      * intros [[Hi Hs] Hne]. split_and!; [done| |done]. intros Hin. apply Hne.
        by apply (unlink_free_in i o).
      * intros [[Hi Hnin] Hs]. split; [done|]. intros ->. apply Hnin, brange_self.
    + rewrite Hle by done. split; [|naive_solver]. intros [Hi Hs].
      split_and!; [done| |done]. intros Hin. by apply (unlink_free_in i o') in Hin as [_ ->].
  - intros o' Ho'. case_decide as Heq; [subst o'|].
    + rewrite list_lookup_insert_eq by lia. rewrite Hfl, !length_app. simpl. f_equal. lia.
    + rewrite list_lookup_insert_ne by done. auto.
Qed.
End unlink.

Lemma wp_unlink H F b idx o :
  core H F b → (o ≤ MAX_ORDER)%nat → idx ∉ H → state b !! idx = Some (free_tag o) →
  wp (unlink idx o) (λ _ b',
    core (H ∪ brange idx o) (F ∖ brange idx o) b' ∧
    state b' = state b ∧ keeps F b b') b.
Proof.
  intros Hc Ho HiH Hst. destruct (co_lists _ _ _ Hc) as [fl Hl].
  assert (idx ∈ fl o) as Hin by (apply (li_elem _ _ _ Hl); auto).
  apply list_elem_of_split in Hin as (l1 & l2 & Hfl).
  destruct (li_list _ _ _ Hl o Ho) as (h & Hh & Hdl).
  pose proof (li_nodup _ _ _ Hl o Ho) as Hnd.
  assert (NIL ∉ fl o) as Hnil by (intros Hn; by apply (lists_elem_not_nil Hc Hl o) in Hn).
  rewrite Hfl in Hdl, Hnd, Hnil.
  destruct (dlist_unlink _ _ _ _ _ Hnd Hnil Hdl) as (nx & pv & Hm & Hpv & Hnx & Hdl').
  assert (Hpvl : pv = NIL ∨ pv ∈ fl o) by (rewrite Hfl; set_solver).
  assert (Hnxl : nx = NIL ∨ nx ∈ fl o) by (rewrite Hfl; set_solver).
  eapply wp_unlink_raw; [exact Hm|exact Hh|by apply (li_count _ _ _ Hl)| |naive_solver..|].
  { rewrite Hfl, length_app. simpl. lia. }
  split; [split|split; [done|]].
  - by apply (shape_take Hc HiH Hst (free_is_tag o Ho)).
  - eexists. apply (lists_unlink Hc Ho HiH Hst Hl Hfl); [done..|]. intros. by simplify_eq.
  - intros j. by apply (free_unlink Hc).
  - assert (∀ y, y = NIL ∨ y ∈ fl o → ∀ j, j ∉ F → y = NIL ∨ j ≠ y) as HF.
    { intros y [->|Hy] j Hj; [by left|right]. intros ->. apply Hj.
      apply (li_elem _ _ _ Hl) in Hy as [Hy Hy']; [|done].
      apply (core_block_free Hc y o Ho Hy Hy'), brange_self. }
    split; try done. simpl. intros j Hj. apply mem_unlink_frame; eauto.
Qed.

(** ** Giving frames in transit a head

    The frames of an aligned block in transit, all interior bytes clear. *)
Record hole (H : gset Z) (idx : Z) (o : nat) (b : t) : Prop := {
  ho_order : (o ≤ MAX_ORDER)%nat;
  ho_fresh : brange idx o ## H;
  ho_aligned : aligned idx o;
  ho_range : 0 ≤ idx ∧ idx + block o ≤ frames b;
  ho_head : ∃ v, state b !! idx = Some v ∧ v ≠ ST_RESERVED;
  ho_clear j : idx < j < idx + block o → state b !! j = Some ST_NONE;
}.

(** The buddy of [idx] is not free, as [release] checks before it pushes. *)
Definition lonely (H : gset Z) (idx : Z) (o : nat) (b : t) : Prop :=
  (o < MAX_ORDER)%nat → Z.lxor idx (block o) ∉ H →
  state b !! Z.lxor idx (block o) ≠ Some (free_tag o).

Section close.
Context {H F : gset Z} {b b' : t} {idx tag : Z} {o : nat}.
Hypothesis Hc : core (H ∪ brange idx o) F b.
Hypothesis Hh : hole H idx o b.
Hypothesis Ht : is_tag tag o.
Hypothesis Hal : tag = free_tag o → lonely H idx o b.
Hypothesis Es : state b' = <[idx := tag]> (state b).
Hypothesis Ef : frames b' = frames b.

Let Hsh := co_shape _ _ _ Hc.

Lemma close_lookup i v :
  i ∉ H → state b' !! i = Some v → v ≠ ST_NONE →
  (i = idx ∧ v = tag) ∨ (i ∉ H ∪ brange idx o ∧ state b !! i = Some v).
Proof using Hh Es.
  clear Ht Hal. rewrite Es. intros Hi Hv Hn. destruct (decide (idx = i)) as [<-|].
  - rewrite lookup_insert_eq in Hv. left. by simplify_eq.
  - rewrite lookup_insert_ne in Hv by done. right. split; [|done].
    apply not_elem_of_union. split; [done|]. intros Hr%elem_of_brange.
    assert (state b !! i = Some ST_NONE) by (apply (ho_clear _ _ _ _ Hh); lia).
    congruence.
Qed.

Lemma close_lookup_out j v :
  j ∉ brange idx o → state b' !! j = Some v ↔ state b !! j = Some v.
Proof using Es.
  intros Hj. rewrite Es, lookup_insert_ne; [done|]. intros <-. by apply Hj, brange_self.
Qed.

(** A free head after closing is the new one or an old one. *)
Lemma close_free_lookup i o' :
  (o' ≤ MAX_ORDER)%nat → i ∉ H → state b' !! i = Some (free_tag o') →
  (i = idx ∧ tag = free_tag o ∧ o' = o) ∨
  (i ∉ H ∪ brange idx o ∧ state b !! i = Some (free_tag o')).
Proof using Hh Ht Es.
  clear Hal. intros Ho' Hi Hs. destruct (tag_facts o' Ho') as [Hn _].
  destruct (close_lookup i _ Hi Hs Hn) as [[-> Hv]|?]; [left|by right].
  destruct Ht as [Ho [Ht'|Ht']].
  - split_and!; [done..|]. apply free_tag_inj; [done..|]. congruence.
  - rewrite <-Hv in Ht'. by apply free_used_tag in Ht'.
Qed.

Lemma close_coal i o' :
  (o' < MAX_ORDER)%nat → i ∉ H → Z.lxor i (block o') ∉ H →
  state b' !! i = Some (free_tag o') →
  state b' !! Z.lxor i (block o') ≠ Some (free_tag o').
Proof using Hc Hh Ht Hal Es.
  intros Ho' Hi Hb Hs Hs'. pose proof (buddy_involutive i o') as Hinv.
  apply close_free_lookup in Hs; [|lia|done]. apply close_free_lookup in Hs'; [|lia|done].
  destruct Hs as [(-> & Et & ->)|[Hi' Hs]].
  - destruct Hs' as [(E & _ & _)|[Hb' Hs']]; [|by apply (Hal Et)].
    rewrite E in Hinv. apply (f_equal (Z.lxor idx)) in E.
    rewrite <-Z.lxor_assoc, Z.lxor_nilpotent, Z.lxor_0_l in E.
    pose proof (block_pos o). lia.
  - destruct Hs' as [(E & Et & ->)|[Hb' Hs']].
    + rewrite E in Hinv. apply (Hal Et); rewrite ?Hinv; done.
    + by apply (sh_coal _ _ Hsh i o').
Qed.

Lemma shape_close : shape H b'.
Proof using Hc Hh Ht Hal Es Ef.
  pose proof (is_tag_not_none _ _ Ht) as [Hnone _].
  destruct Hsh as [Hf Hd Hv Hb Hn Hco].
  destruct Hh as [Ho Hfr Hali Hrng (v0 & Hv0 & _) Hcl].
  split; rewrite ?Ef; auto.
  - intros i. rewrite Es. destruct (decide (idx = i)) as [<-|].
    + rewrite lookup_insert_eq, <-Hd, Hv0. split; by eexists.
    + by rewrite lookup_insert_ne.
  - intros i v Hi HiH. destruct (decide (v = ST_NONE)); [by left|].
    destruct (close_lookup i v HiH Hi) as [[_ ->]|[? ?]]; [done|eauto..].
  - intros i v o' HiH Hi Ht'. destruct (is_tag_not_none _ _ Ht') as [Hn' _].
    destruct (close_lookup i v HiH Hi Hn') as [[-> ->]|[HiP Hi']].
    + pose proof (shape_head_order idx _ o' o Hi Ht' Ht) as ->.
      split; [done|]. split; [lia|]. intros j Hj. split.
      * intros HjH. apply (Hfr j); [|done]. apply elem_of_brange. lia.
      * rewrite Es, lookup_insert_ne by lia. auto.
    + destruct (Hb i v o' HiP Hi' Ht') as (? & ? & Hin). split; [done|]. split; [done|].
      intros j Hj. destruct (Hin j Hj) as [HjH Hjn].
      split; [set_solver|]. apply close_lookup_out; [set_solver|done].
  - intros j HjH Hj. destruct (decide (j ∈ brange idx o)) as [Hin|Hout].
    + exists idx, tag, o. split_and!; [|by rewrite Es, lookup_insert_eq|done| |].
      * intros ?. by apply (Hfr idx); [apply brange_self|].
      * apply elem_of_brange in Hin. destruct (decide (j = idx)) as [->|]; [|lia].
        rewrite Es, lookup_insert_eq in Hj. congruence.
      * apply elem_of_brange in Hin. lia.
    + rewrite close_lookup_out in Hj by done.
      destruct (Hn j) as (i & v & o' & HiH & Hi & Ht' & Hij); [set_solver|done|].
      exists i, v, o'. split_and!; [set_solver| |done|lia..].
      apply close_lookup_out; [set_solver|done].
  - apply close_coal.
Qed.

Lemma free_close j :
  (j ∈ F ∨ tag = free_tag o ∧ j ∈ brange idx o) ↔ free_in H b' j.
Proof using Hc Hh Ht Es.
  clear Hal Ef. rewrite (co_free _ _ _ Hc). unfold free_in. split.
  - intros [(i & o' & Ho' & Hi & Hs & Hj)|[Et Hj]].
    + exists i, o'. split_and!; [done|set_solver| |lia..].
      apply close_lookup_out; [set_solver|done].
    + apply elem_of_brange in Hj. exists idx, o. destruct Ht as [Ho _].
      split_and!; [done| |by rewrite Es, lookup_insert_eq, Et|lia..].
      intros ?. by apply (ho_fresh _ _ _ _ Hh idx); [apply brange_self|].
  - intros (i & o' & Ho' & Hi & Hs & Hj).
    destruct (close_free_lookup i o' Ho' Hi Hs) as [(-> & Et & ->)|[Hi' Hs']].
    + right. split; [done|]. by apply elem_of_brange.
    + left. by exists i, o'.
Qed.
End close.
