(* ===== verification/BuddyOps.v ===== *)
(** * Buddy allocator: what each step does to the invariant

    [push], [set], the split loop of [alloc] and the merge loop of [release],
    each as a total-correctness rule over [core]. *)

From S2P Require Import Prelude BuddyModel BuddyList BuddyInv.
Import Buddy.

(** ** [push] *)

Section push.
Context {H F : gset Z} {b : t} {idx : Z} {o : nat} {fl : nat → list Z} {h : Z}.
Hypothesis Hc : core (H ∪ brange idx o) F b.
Hypothesis Hh : hole H idx o b.
Hypothesis Hal : lonely H idx o b.
Hypothesis Hl : lists (H ∪ brange idx o) b fl.
Hypothesis Hhd : heads b !! o = Some h.

Lemma push_fresh o' : (o' ≤ MAX_ORDER)%nat → idx ∉ fl o'.
Proof.
  intros Ho' [Hi _]%(li_elem _ _ _ Hl); [|done]. apply Hi, elem_of_union_r, brange_self.
Qed.

Lemma push_head_free : h = NIL ∨ h ∈ fl o.
Proof.
  destruct (li_list _ _ _ Hl o (ho_order _ _ _ _ Hh)) as (h' & Hh' & Hd). simplify_eq.
  destruct (dlist_head _ _ _ Hd) as [[_ ->]|[l' ->]]; [by left|right; constructor].
Qed.

Lemma lists_push :
  lists H (pushed idx o h (Z.of_nat (length (fl o))) b)
    (λ o', if decide (o' = o) then idx :: fl o else fl o').
Proof.
  pose proof (ho_order _ _ _ _ Hh) as Ho. pose proof push_fresh as Hfresh.
  pose proof push_head_free as Hhf.
  pose proof (lists_elem_not_nil Hc Hl) as Hnil. pose proof (lists_disjoint Hl) as Hdisj.
  assert (is_tag (free_tag o) o) as Ht by (split; auto).
  set (b' := pushed idx o h (Z.of_nat (length (fl o))) b).
  assert (state b' = <[idx := free_tag o]> (state b)) as Es by done.
  destruct Hl as [Hlh Hlc Hll Hln Hle Hlct]. split; simpl.
  - by rewrite length_insert.
  - by rewrite length_insert.
  - intros o' Ho'. destruct (Hll o' Ho') as (h' & Hh' & Hd').
    case_decide as Heq; [subst o'; simplify_eq|].
    + exists idx. split; [apply list_lookup_insert_eq; lia|].
      apply dlist_push; [by auto|intros ?; naive_solver|by auto|done].
    + exists h'. rewrite list_lookup_insert_ne by done. split; [done|].
      eapply dlist_ext; [|exact Hd']. intros x Hx. apply mem_push_frame.
      * destruct Hhf; [by left|right; intros ->; naive_solver].
      * intros ->. naive_solver.
  - intros o' Ho'. case_decide as Heq; [subst o'; constructor; auto|auto].
  - intros o' i Ho'. change (<[idx:=free_tag o]> (state b)) with (state b').
    case_decide as Heq; [subst o'; rewrite elem_of_cons|]; rewrite Hle by done; split.
    + intros [->|[Hi Hs]].
      * split; [intros ?; by apply (ho_fresh _ _ _ _ Hh idx); [apply brange_self|]|].
        by rewrite Es, lookup_insert_eq.
      * split; [set_solver|]. apply (close_lookup_out (o := o) Es); [set_solver|done].
    + intros [Hi Hs]. apply (close_free_lookup Hh Ht Es) in Hs; [|done..]. naive_solver.
    + intros [Hi Hs]. split; [set_solver|]. apply (close_lookup_out (o := o) Es); [set_solver|done].
    + intros [Hi Hs]. apply (close_free_lookup Hh Ht Es) in Hs; [|done..]. naive_solver.
  - intros o' Ho'. case_decide as Heq; [subst o'|].
    + rewrite list_lookup_insert_eq by lia. simpl. f_equal. lia.
    + rewrite list_lookup_insert_ne by done. auto.
Qed.
End push.

(** The number of free blocks is bounded by the number of frames. *)
Lemma lists_length H F b fl o :
  core H F b → lists H b fl → (o ≤ MAX_ORDER)%nat →
  Z.of_nat (length (fl o)) ≤ frames b.
Proof.
  intros Hc Hl Ho. pose proof (sh_frames _ _ (co_shape _ _ _ Hc)).
  pose proof (li_nodup _ _ _ Hl o Ho) as Hnd.
  rewrite <-(size_list_to_set (C := gset Z) (fl o) Hnd).
  assert (list_to_set (fl o) ⊆ zrange 0 (frames b)) as Hsub%subseteq_size.
  { intros i. rewrite elem_of_list_to_set, (li_elem _ _ _ Hl) by done. intros [_ Hi].
    apply elem_of_zrange. apply (shape_lookup_range (co_shape _ _ _ Hc)) in Hi. lia. }
  pose proof (size_zrange 0 (frames b)). lia.
Qed.

Lemma wp_push H F b idx o :
  core (H ∪ brange idx o) F b → hole H idx o b → lonely H idx o b →
  wp (push idx o) (λ _ b',
    core H (F ∪ brange idx o) b' ∧ state b' = <[idx := free_tag o]> (state b) ∧
    keeps (F ∪ brange idx o) b b') b.
Proof.
  intros Hc Hh Hal. destruct (co_lists _ _ _ Hc) as [fl Hl].
  pose proof (ho_order _ _ _ _ Hh) as Ho.
  destruct (li_list _ _ _ Hl o Ho) as (h & Hhd & Hdl).
  pose proof (push_head_free Hh Hl Hhd) as Hhf.
  destruct (ho_head _ _ _ _ Hh) as (v0 & Hv0 & Hvr).
  pose proof (lists_length _ _ _ _ _ Hc Hl Ho).
  pose proof (sh_frames _ _ (co_shape _ _ _ Hc)).
  assert (is_tag (free_tag o) o) as Ht by (split; auto).
  destruct (tag_facts o Ho) as (_ & Hfr & _).
  eapply wp_push_raw; [exact Hhd|by apply (li_count _ _ _ Hl)|unfold U64; lia| |exact Hv0|].
  { destruct Hhf as [?|Hin]; [by left|right]. destruct Hdl as [? Hs]. by eapply dseg_mem. }
  split; [split|split; [done|]].
  - by apply (shape_close Hc Hh Ht (λ _, Hal)).
  - eexists. by apply (lists_push Hc Hh Hal Hl Hhd).
  - intros j. rewrite <-(free_close Hc Hh Ht (b' := pushed idx o h _ b)) by done. set_solver.
  - assert (∀ j, j ∉ F ∪ brange idx o → (h = NIL ∨ j ≠ h) ∧ j ≠ idx) as Hmem.
    { intros j Hj. split; [|intros ->; apply Hj, elem_of_union_r, brange_self].
      destruct Hhf as [?|Hin]; [by left|right]. intros ->. apply Hj, elem_of_union_l.
      apply (li_elem _ _ _ Hl) in Hin as [? ?]; [|done].
      by apply (core_block_free Hc h o), brange_self. }
    split; try done; simpl.
    + intros j Hj. rewrite lookup_insert_ne; [done|]. intros <-. by apply (Hmem idx).
    + intros j Hj. apply mem_push_frame; by apply Hmem.
    + by eapply managed_set_insert.
Qed.

(** ** [set] on frames in transit, and handing a block out *)

(** The byte of a frame in transit may be anything. *)
Lemma core_set_transit H F b idx v :
  core H F b → idx ∈ H → is_Some (state b !! idx) →
  core H F (with_state (<[idx := v]> (state b)) b).
Proof.
  intros Hc HiH [v0 Hv0]. set (b' := with_state _ b).
  assert (∀ j w, j ∉ H → state b' !! j = Some w ↔ state b !! j = Some w) as Hs.
  { intros j w Hj. simpl. rewrite lookup_insert_ne by set_solver. done. }
  destruct Hc as [[Hf Hd Hv Hb Hn Hco] [fl [Hlh Hlc Hll Hln Hle Hlct]] HF].
  split; [split; simpl|exists fl; split; simpl|]; auto.
  - intros i. destruct (decide (idx = i)) as [<-|].
    + rewrite lookup_insert_eq, <-Hd, Hv0. split; by eexists.
    + by rewrite lookup_insert_ne.
  - intros i w Hi HiH'. apply (Hv i); [|done]. by apply Hs.
  - intros i w o Hi Hi' Ht. destruct (Hb i w o) as (? & ? & Hin); [done|by apply Hs|done|].
    split; [done|]. split; [done|]. intros j Hj. destruct (Hin j Hj) as [? ?].
    split; [done|by apply Hs].
  - intros j Hj Hjs. destruct (Hn j) as (i & w & o & ? & ? & ? & ?); [done|by apply Hs|].
    exists i, w, o. split_and!; [done|by apply Hs|done|lia..].
  - intros i o Ho Hi Hb' Hi' Hi2. apply (Hco i o); [done..| |]; by apply Hs.
  - intros o i Ho. rewrite Hle by done. split; intros [? ?]; (split; [done|by apply Hs]).
  - intros j. rewrite HF. unfold free_in. split; intros (i & o & ? & ? & ? & ?);
      exists i, o; (split_and!; [done|done|by apply Hs|lia..]).
Qed.

Lemma wp_set_transit H F b idx v v0 :
  core H F b → idx ∈ H → state b !! idx = Some v0 →
  v0 ≠ ST_RESERVED → v ≠ ST_RESERVED →
  wp (set idx v) (λ _ b',
    core H F b' ∧ b' = with_state (<[idx := v]> (state b)) b ∧ keeps {[ idx ]} b b') b.
Proof.
  intros Hc HiH Hv0 Hr0 Hr. eapply wp_set; [exact Hv0|].
  split; [by apply core_set_transit; [| |eexists]|]. split; [done|].
  split; try done; simpl.
  - intros j Hj. by rewrite lookup_insert_ne by set_solver.
  - by eapply managed_set_insert.
Qed.

Lemma wp_set_used H F b idx o :
  core (H ∪ brange idx o) F b → hole H idx o b →
  wp (set idx (used_tag o)) (λ _ b',
    core H F b' ∧ b' = with_state (<[idx := used_tag o]> (state b)) b ∧
    keeps {[ idx ]} b b') b.
Proof.
  intros Hc Hh. pose proof (ho_order _ _ _ _ Hh) as Ho.
  destruct (ho_head _ _ _ _ Hh) as (v0 & Hv0 & Hvr).
  assert (is_tag (used_tag o) o) as Ht by (split; auto).
  assert (used_tag o = free_tag o → False) as Huf by (intros E; symmetry in E; by apply free_used_tag in E).
  destruct (tag_facts o Ho) as (_ & _ & _ & Hur & _).
  eapply wp_set; [exact Hv0|]. set (b' := with_state _ b).
  assert (state b' = <[idx := used_tag o]> (state b)) as Es by done.
  split; [split|split; [done|]].
  - apply (shape_close Hc Hh Ht); [intros E; by destruct (Huf E)|done|done].
  - destruct (co_lists _ _ _ Hc) as [fl Hl]. exists fl.
    destruct Hl as [Hlh Hlc Hll Hln Hle Hlct]. split; auto.
    intros o' i Ho'. rewrite Hle by done. split.
    + intros [Hi Hs]. split; [set_solver|]. apply (close_lookup_out (o := o) Es); [set_solver|done].
    + intros [Hi Hs]. apply (close_free_lookup Hh Ht Es) in Hs; [|done..]. naive_solver.
  - intros j. rewrite <-(free_close Hc Hh Ht (b' := b')) by done. naive_solver.
  - split; try done; simpl.
    + intros j Hj. by rewrite lookup_insert_ne by set_solver.
    + by eapply managed_set_insert.
Qed.

(** ** The merge loop of [release] *)

(** No frame in transit still carries a free head. *)
Definition quiet (H : gset Z) (b : t) : Prop :=
  ∀ j o, j ∈ H → (o ≤ MAX_ORDER)%nat → state b !! j ≠ Some (free_tag o).

(** A block and its buddy form the block of the next order. *)
Lemma buddy_union idx o :
  0 ≤ idx → aligned idx o →
  let buddy := Z.lxor idx (block o) in
  aligned (Z.min idx buddy) (S o) ∧ Z.max idx buddy = Z.min idx buddy + block o ∧
  brange idx o ## brange buddy o ∧
  brange (Z.min idx buddy) (S o) = brange idx o ∪ brange buddy o.
Proof.
  intros Hi Ha buddy. pose proof (block_pos o).
  destruct (buddy_cases idx o Hi Ha) as [[E Ha']|[E Ha']]; subst buddy; rewrite E.
  - rewrite Z.min_l by lia. split; [done|]. split; [lia|]. split.
    + intros j. rewrite !elem_of_brange. lia.
    + apply set_eq. intros j. rewrite elem_of_union, !elem_of_brange, block_S. lia.
  - rewrite Z.min_r by lia. split; [done|]. split; [lia|]. split.
    + intros j. rewrite !elem_of_brange. lia.
    + apply set_eq. intros j. rewrite elem_of_union, !elem_of_brange, block_S. lia.
Qed.

(** Absorbing a free buddy: one iteration of the loop. *)
Lemma wp_absorb {A} H F b idx o (m : Exec t A) Q :
  let buddy := Z.lxor idx (block o) in
  core (H ∪ brange idx o) F b → hole H idx o b → (o < MAX_ORDER)%nat →
  state b !! idx = Some ST_NONE → buddy ∉ H → state b !! buddy = Some (free_tag o) →
  (∀ b', core (H ∪ brange (Z.min idx buddy) (S o)) (F ∖ brange buddy o) b' →
     hole H (Z.min idx buddy) (S o) b' →
     state b' !! Z.min idx buddy = Some ST_NONE →
     brange buddy o ⊆ F → keeps F b b' → wp m Q b') →
  wp (_ ← unlink buddy o; _ ← set buddy ST_NONE; m) Q b.
Proof.
  intros buddy Hc Hh Hlt Hst HbH Hs Hk.
  pose proof (ho_range _ _ _ _ Hh) as Hrange. pose proof (ho_order _ _ _ _ Hh) as Ho.
  destruct (buddy_union idx o (proj1 Hrange) (ho_aligned _ _ _ _ Hh)) as (Hpa & Hmax & Hdis & Hun).
  fold buddy in Hpa, Hmax, Hdis, Hun.
  assert (buddy ∉ H ∪ brange idx o) as HbP by (pose proof (brange_self buddy o); set_solver).
  assert (is_tag (free_tag o) o) as Ht by (split; auto).
  destruct (sh_block _ _ (co_shape _ _ _ Hc) buddy _ o HbP Hs Ht) as (_ & Hbr & Hbclr).
  pose proof (core_block_free Hc buddy o Ho HbP Hs) as HbF.
  pose proof (shape_lookup_range (co_shape _ _ _ Hc) _ _ Hs) as Hb0.
  wp_steps. eapply wp_mono; [by apply (wp_unlink _ _ _ _ _ Hc Ho)|].
  cbn beta. intros _ b1 (Hc1 & Es1 & Hk1). wp_steps.
  eapply wp_mono.
  { apply (wp_set_transit _ _ _ buddy ST_NONE (free_tag o) Hc1);
      [apply elem_of_union_r, brange_self|by rewrite Es1|by destruct (tag_facts o Ho); naive_solver|done]. }
  cbn beta. intros _ b2 (Hc2 & Eb2 & Hk2).
  assert (∀ j, j ∈ brange (Z.min idx buddy) (S o) → state b2 !! j = Some ST_NONE) as Hclr.
  { intros j. rewrite Hun, elem_of_union, !elem_of_brange, Eb2. simpl. rewrite Es1.
    intros Hj. destruct (decide (buddy = j)) as [<-|]; [by rewrite lookup_insert_eq|].
    rewrite lookup_insert_ne by done. destruct (decide (j = idx)) as [->|]; [done|].
    destruct Hj; [apply (ho_clear _ _ _ _ Hh); lia|apply Hbclr; lia]. }
  assert (frames b2 = frames b) as Ef2
    by (by rewrite (k_frames _ _ _ Hk2), (k_frames _ _ _ Hk1)).
  pose proof (brange_self (Z.min idx buddy) (S o)) as Hself.
  apply Hk; [| |by apply Hclr|done|].
  - by rewrite Hun, (assoc_L (∪)).
  - split; [lia| |done|rewrite Ef2, block_S; lia|by exists ST_NONE; auto|].
    + rewrite Hun. intros j Hj HjH. apply elem_of_union in Hj as [Hj|Hj].
      * by apply (ho_fresh _ _ _ _ Hh j).
      * apply HbF in Hj. apply (core_free_not_transit Hc) in Hj. set_solver.
    + intros j Hj. apply Hclr, elem_of_brange. lia.
  - eapply keeps_trans; [exact Hk1|]. eapply keeps_weaken; [|exact Hk2].
    pose proof (brange_self buddy o). set_solver.
Qed.

Definition merged (H F : gset Z) (idx : Z) (o : nat) (b : t) (r : Z * nat) (b' : t) : Prop :=
  let P := brange (fst r) (snd r) in
  core (H ∪ P) (F ∖ P) b' ∧ hole H (fst r) (snd r) b' ∧
  lonely H (fst r) (snd r) b' ∧
  brange idx o ⊆ P ∧ P ⊆ F ∪ brange idx o ∧ keeps F b b'.

Lemma quiet_keeps H X b b' : X ## H → keeps X b b' → quiet H b → quiet H b'.
Proof. intros HX Hk Hq j o Hj Ho. rewrite (k_state _ _ _ Hk) by set_solver. by apply Hq. Qed.

Lemma wp_merge fuel H F b idx o :
  (MAX_ORDER - o < fuel)%nat →
  core (H ∪ brange idx o) F b → hole H idx o b →
  state b !! idx = Some ST_NONE → quiet H b →
  wp (merge fuel idx o) (merged H F idx o b) b.
Proof.
  revert F b idx o. induction fuel as [|fuel IH]; intros F b idx o Hfuel Hc Hh Hst Hq; [lia|].
  assert (F ## H ∪ brange idx o) as HFd.
  { intros j Hj. by apply (core_free_not_transit Hc). }
  assert (lonely H idx o b → wp (mret (idx, o)) (merged H F idx o b) b) as Hstop.
  { intros Hal. apply wp_ret. unfold merged. simpl.
    replace (F ∖ brange idx o) with F by set_solver.
    split_and!; [done..|set_solver|apply keeps_refl]. }
  simpl. destruct (Nat.ltb_spec o MAX_ORDER) as [Hlt|Hge]; [|apply Hstop; intros ?; lia].
  pose proof (ho_range _ _ _ _ Hh) as Hrange.
  set (buddy := Z.lxor idx (block o)). wp_steps.
  destruct (Z.leb_spec (frames b) buddy) as [Hout|Hin].
  { apply Hstop. intros _ _ Hs. apply (shape_lookup_range (co_shape _ _ _ Hc)) in Hs.
    fold buddy in Hs. lia. }
  assert (0 ≤ buddy) by (apply Z.lxor_nonneg; pose proof (block_pos o); lia).
  destruct (proj2 (sh_dom _ _ (co_shape _ _ _ Hc) buddy)) as [s Hs]; [lia|].
  wp_steps. eapply wp_need; [exact Hs|]. destruct (Z.eqb_spec s (free_tag o)) as [->|Hne];
    [|apply Hstop; intros _ _; fold buddy; congruence].
  assert (buddy ∉ H) as HbH.
  { intros ?. apply (Hq buddy o); [done|apply (ho_order _ _ _ _ Hh)|done]. }
  apply (wp_absorb H F); [done..|]. fold buddy. intros b' Hc' Hh' Hst' HbF Hk.
  destruct (buddy_union idx o (proj1 Hrange) (ho_aligned _ _ _ _ Hh)) as (_ & _ & _ & Hun).
  fold buddy in Hun. eapply wp_mono.
  { apply (IH (F ∖ brange buddy o) b' (Z.min idx buddy) (S o)); [lia|done..|].
    eapply quiet_keeps; [|done..]. set_solver. }
  intros [idx' o'] b2 (Hc2 & Hh2 & Hal2 & Hsub & Hsub' & Hk2).
  unfold merged in *. simpl in *. rewrite Hun in Hsub, Hsub'.
  split_and!; [|done|done|set_solver|set_solver|].
  - replace (F ∖ brange idx' o') with (F ∖ brange buddy o ∖ brange idx' o') by set_solver. done.
  - eapply keeps_trans; [exact Hk|]. eapply keeps_weaken; [|exact Hk2]. set_solver.
Qed.

(** Releasing a block in transit frees exactly its frames. *)
Lemma wp_release H F b idx o :
  core (H ∪ brange idx o) F b → hole H idx o b → quiet H b →
  wp (release idx o) (λ _ b',
    core H (F ∪ brange idx o) b' ∧ keeps (F ∪ brange idx o) b b') b.
Proof.
  intros Hc Hh Hq. destruct (ho_head _ _ _ _ Hh) as (v0 & Hv0 & Hr0).
  pose proof (brange_self idx o) as Hself. pose proof (ho_fresh _ _ _ _ Hh) as Hfr.
  unfold release. wp_steps. eapply wp_mono.
  { apply (wp_set_transit _ _ _ idx ST_NONE v0 Hc); [set_solver|done..]. }
  cbn beta. intros _ b1 (Hc1 & Eb1 & Hk1).
  assert (state b1 !! idx = Some ST_NONE) as Hst1 by (by rewrite Eb1; simpl; rewrite lookup_insert_eq).
  assert (hole H idx o b1) as Hh1.
  { destruct Hh as [? ? ? ? _ Hcl]. subst b1. split; simpl; [done..|by exists ST_NONE|].
    intros j Hj. rewrite lookup_insert_ne by lia. auto. }
  wp_steps. eapply wp_mono.
  { apply (wp_merge (S MAX_ORDER) H F b1 idx o); [lia|done..|].
    eapply quiet_keeps; [|exact Hk1|exact Hq]. set_solver. }
  intros [idx' o'] b2 (Hc2 & Hh2 & Hal2 & Hsub & Hsub' & Hk2). cbn [fst snd] in *.
  eapply wp_mono; [by apply (wp_push _ _ _ _ _ Hc2)|].
  cbn beta. intros _ b3 (Hc3 & _ & Hk3). split.
  - replace (F ∪ brange idx o) with (F ∖ brange idx' o' ∪ brange idx' o'); [done|].
    apply set_eq. intros j. destruct (decide (j ∈ brange idx' o')); set_solver.
  - eapply keeps_trans; [eapply keeps_weaken; [|exact Hk1]; set_solver|].
    eapply keeps_trans; [eapply keeps_weaken; [|exact Hk2]; set_solver|].
    eapply keeps_weaken; [|exact Hk3]. set_solver.
Qed.
