(* ===== verification/BuddyAlloc.v ===== *)
(** * Buddy allocator: [alloc] and [free]

    Total correctness of the two operations over the invariant [inv], and the
    completeness of [alloc]: thanks to coalescing, it fails only when no
    naturally aligned run of free frames of the requested size exists. *)

From S2P Require Import Prelude BuddyModel BuddyList BuddyInv BuddyOps.
Import Buddy.

(** State bytes and memory outside [X] are the same. *)
Record touches (X : gset Z) (b b' : t) : Prop := {
  to_frames : frames b' = frames b;
  to_state j : j ∉ X → state b' !! j = state b !! j;
  to_mem j : j ∉ X → mem b' !! j = mem b !! j;
}.

Lemma keeps_touches X b b' : keeps X b b' → touches X b b'.
Proof. intros []. by split. Qed.

Lemma touches_refl X b : touches X b b.
Proof. by split. Qed.

Lemma touches_trans X b1 b2 b3 : touches X b1 b2 → touches X b2 b3 → touches X b1 b3.
Proof.
  intros [F1 S1 M1] [F2 S2 M2]. split; [by rewrite F2| |].
  - intros j Hj. by rewrite S2, S1.
  - intros j Hj. by rewrite M2, M1.
Qed.

Lemma touches_weaken X X' b b' : X ⊆ X' → touches X b b' → touches X' b b'.
Proof. intros HX []. split; auto. Qed.

(** [core] does not look at the two counters. *)
Lemma core_free_counter H F b n : core H F b → core H F (with_free_frames n b).
Proof. intros [[] [fl []] HF]. split; [by split|exists fl; by split|done]. Qed.

Lemma core_managed_counter H F b n : core H F b → core H F (with_managed_frames n b).
Proof. intros [[] [fl []] HF]. split; [by split|exists fl; by split|done]. Qed.

Lemma size_diff (F P : gset Z) :
  P ⊆ F → Z.of_nat (size (F ∖ P)) = Z.of_nat (size F) - Z.of_nat (size P).
Proof. intros HP. pose proof (subseteq_size _ _ HP). rewrite size_difference by done. lia. Qed.

Lemma size_disj_union (F P : gset Z) :
  F ## P → Z.of_nat (size (F ∪ P)) = Z.of_nat (size F) + Z.of_nat (size P).
Proof. intros HP. rewrite size_union by done. lia. Qed.

(** ** The split loop *)

Lemma brange_split idx o :
  brange idx (S o) = brange idx o ∪ brange (idx + block o) o.
Proof.
  apply set_eq. intros j. pose proof (block_pos o).
  rewrite elem_of_union, !elem_of_brange, block_S. lia.
Qed.

Lemma brange_mono idx o o' : (o ≤ o')%nat → brange idx o ⊆ brange idx o'.
Proof. intros Ho j. rewrite !elem_of_brange. pose proof (block_le _ _ Ho). lia. Qed.

(** The upper half of a block in transit goes back to its list. *)
Lemma wp_push_half H F b idx o :
  core (H ∪ brange idx (S o)) F b → hole H idx (S o) b →
  wp (push (idx + block o) o) (λ _ b',
    core (H ∪ brange idx o) (F ∪ brange (idx + block o) o) b' ∧ hole H idx o b' ∧
    keeps (F ∪ brange (idx + block o) o) b b') b.
Proof.
  intros Hc Hh. pose proof (block_pos o). destruct Hh as [Ho Hfr Ha Hr Hhd Hcl].
  pose proof (brange_split idx o) as Hsp.
  pose proof (block_S o). eapply wp_mono.
  { apply (wp_push (H ∪ brange idx o)).
    - by rewrite <-(assoc_L (∪)), <-Hsp.
    - split; [lia| |by apply aligned_add|lia| |].
      + rewrite Hsp in Hfr. intros j Hj. rewrite elem_of_union. intros [Hj'|Hj'].
        * apply (Hfr j); set_solver.
        * apply elem_of_brange in Hj, Hj'. lia.
      + exists ST_NONE. split; [apply Hcl; lia|done].
      + intros j Hj. apply Hcl. lia.
    - intros Hlt Hb. exfalso. apply Hb, elem_of_union_r.
      rewrite <-(buddy_above idx o), buddy_involutive by (done || lia). apply brange_self. }
  cbn beta. intros _ b' (Hc' & Es & Hk). split; [done|]. split; [|done].
  split; [lia| | |by rewrite (k_frames _ _ _ Hk); lia| |].
  - rewrite Hsp in Hfr. set_solver.
  - by apply (aligned_le _ _ (S o)); [lia|].
  - destruct Hhd as (v & Hv & Hv'). exists v. by rewrite Es, lookup_insert_ne by lia.
  - intros j Hj. rewrite Es, lookup_insert_ne by lia. apply Hcl. lia.
Qed.

Lemma wp_split_down H F b idx order n :
  core (H ∪ brange idx (order + n)) F b → hole H idx (order + n) b →
  wp (split_down idx order n) (λ _ b',
    core (H ∪ brange idx order) (F ∪ (brange idx (order + n) ∖ brange idx order)) b' ∧
    hole H idx order b' ∧ keeps (F ∪ brange idx (order + n)) b b') b.
Proof.
  revert F b. induction n as [|n IH]; intros F b; simpl.
  - rewrite Nat.add_0_r. intros Hc Hh. apply wp_ret.
    rewrite difference_diag_L, union_empty_r_L. split_and!; [done..|apply keeps_refl].
  - rewrite Nat.add_succ_r. intros Hc Hh.
    pose proof (ho_range _ _ _ _ Hh) as Hr. pose proof (sh_frames _ _ (co_shape _ _ _ Hc)).
    pose proof (block_pos (order + n)). pose proof (block_S (order + n)).
    wp_steps. eapply wp_need; [apply add64_ok; unfold U64; lia|].
    wp_steps. eapply wp_mono; [by apply (wp_push_half H F)|].
    cbn beta. intros _ b1 (Hc1 & Hh1 & Hk1).
    eapply wp_mono; [by apply IH|]. cbn beta. intros _ b2 (Hc2 & Hh2 & Hk2).
    pose proof (brange_split idx (order + n)) as Hsp.
    pose proof (brange_mono idx order (order + n) ltac:(lia)) as Hm.
    assert (brange (idx + block (order + n)) (order + n) ## brange idx order).
    { intros j Hj Hj'. apply Hm in Hj'. apply elem_of_brange in Hj, Hj'. lia. }
    split; [|split; [done|]].
    + replace (F ∪ brange idx (S (order + n)) ∖ brange idx order)
        with (F ∪ brange (idx + block (order + n)) (order + n)
          ∪ brange idx (order + n) ∖ brange idx order); [done|]. rewrite Hsp. set_solver.
    + eapply keeps_trans; (eapply keeps_weaken; [|done]); rewrite Hsp; set_solver.
Qed.

(** ** Searching the lists *)

Lemma wp_first_nonempty H F fuel b o :
  core H F b → (S MAX_ORDER - o < fuel)%nat →
  wp (first_nonempty fuel o) (λ r b', b' = b ∧ (o ≤ r)%nat ∧
    (∀ o', (o ≤ o' < r)%nat → (o' ≤ MAX_ORDER)%nat →
       ∀ i, i ∉ H → state b !! i ≠ Some (free_tag o')) ∧
    ((r ≤ MAX_ORDER)%nat → ∃ i, heads b !! r = Some i ∧ i ∉ H ∧ state b !! i = Some (free_tag r))) b.
Proof.
  intros Hc. destruct (co_lists _ _ _ Hc) as [fl Hl]. revert o.
  induction fuel as [|fuel IH]; intros o Hfuel; [lia|]. simpl.
  destruct (Nat.ltb_spec MAX_ORDER o) as [Hgt|Hle]; [apply wp_ret; split_and!; [done|lia..]|].
  destruct (li_list _ _ _ Hl o Hle) as (h & Hh & Hdl).
  wp_steps. eapply wp_need; [exact Hh|].
  destruct (dlist_head _ _ _ Hdl) as [[Hnil ->]|[l' Hfl]].
  - rewrite Z.eqb_refl. eapply wp_mono; [apply IH; lia|]. cbn beta.
    intros r b' (-> & Hr & Hno & Hyes). split_and!; [done|lia| |done].
    intros o' Ho' Hm i Hi Hs. destruct (decide (o' = o)) as [->|]; [|by apply (Hno o' ltac:(lia) Hm i)].
    assert (i ∈ fl o) as Hin by (by apply (li_elem _ _ _ Hl)). rewrite Hnil in Hin. set_solver.
  - assert (h ∈ fl o) as Hin by (rewrite Hfl; constructor).
    pose proof (lists_elem_not_nil Hc Hl o h Hle Hin) as Hne.
    rewrite (proj2 (Z.eqb_neq _ _) Hne). apply wp_ret. split_and!; [done|lia|lia|].
    intros _. exists h. apply (li_elem _ _ _ Hl) in Hin as [? ?]; done.
Qed.

(** ** Coalescing makes [alloc] complete *)

Lemma multiple_lt b x y : 0 < b → (b | x) → (b | y) → x < y + b → x ≤ y.
Proof. intros Hb [k ->] [m ->] H. assert (k < m + 1) by nia. nia. Qed.

(** Aligned blocks that meet are nested. *)
Lemma aligned_nested i o idx o' j :
  (o' ≤ o)%nat → aligned i o → aligned idx o' →
  j ∈ brange i o → j ∈ brange idx o' → brange idx o' ⊆ brange i o.
Proof.
  intros Ho Hi Hidx. rewrite !elem_of_brange. intros Hj Hj'.
  pose proof (block_pos o') as Hb. pose proof (aligned_le _ _ _ Ho Hi) as Hi'.
  assert (aligned (block o) o') as Hbo by (apply (aligned_le _ _ o Ho), Z.divide_refl).
  assert (i ≤ idx) by (apply (multiple_lt (block o')); [done..|lia]).
  assert (idx ≤ i + block o - block o').
  { apply (multiple_lt (block o')); [done|done| |lia].
    apply Z.divide_sub_r; [by apply Z.divide_add_r|apply Z.divide_refl]. }
  intros k. rewrite !elem_of_brange. lia.
Qed.

(** A free aligned run lies inside one free block. *)
Lemma coalesced_run F b order idx :
  core ∅ F b → (order ≤ MAX_ORDER)%nat → 0 ≤ idx → aligned idx order →
  brange idx order ⊆ F →
  ∃ i o, (order ≤ o ≤ MAX_ORDER)%nat ∧ state b !! i = Some (free_tag o) ∧
    brange idx order ⊆ brange i o.
Proof.
  intros Hc. revert idx. induction order as [|order IH]; intros idx Ho Hi Ha HF.
  - destruct (proj1 (co_free _ _ _ Hc idx)) as (i & o & Ho' & _ & Hs & Hj).
    { apply HF, brange_self. }
    exists i, o. split; [lia|]. split; [done|]. intros j. rewrite !elem_of_brange, block_0. lia.
  - pose proof (brange_split idx order) as Hsp. pose proof (block_pos order) as Hpos.
    assert (∀ i o, state b !! i = Some (free_tag o) → (o ≤ MAX_ORDER)%nat → aligned i o) as Hal.
    { intros i o Hs Hm. by apply (sh_block _ _ (co_shape _ _ _ Hc) i (free_tag o) o); [set_solver|done|split; auto]. }
    destruct (IH idx) as (i1 & o1 & Ho1 & Hs1 & H1);
      [lia|done|by apply (aligned_le _ _ (S order)); [lia|]|set_solver|].
    destruct (IH (idx + block order)) as (i2 & o2 & Ho2 & Hs2 & H2);
      [lia|lia|by apply aligned_add|set_solver|].
    destruct (decide (order = o1)) as [<-|].
    + destruct (decide (order = o2)) as [<-|].
      * exfalso. assert (i1 = idx) as ->.
        { pose proof (H1 idx (brange_self _ _)) as Hx%elem_of_brange.
          pose proof (H1 (idx + block order - 1) ltac:(apply elem_of_brange; lia)) as Hy%elem_of_brange. lia. }
        assert (i2 = idx + block order) as ->.
        { pose proof (H2 _ (brange_self _ _)) as Hx%elem_of_brange.
          pose proof (H2 (idx + block order + block order - 1) ltac:(apply elem_of_brange; lia)) as Hy%elem_of_brange. lia. }
        assert (Z.lxor idx (block order) = idx + block order) as E.
        { by apply buddy_above. }
        apply (sh_coal _ _ (co_shape _ _ _ Hc) idx order); [lia|set_solver..|done|].
        by rewrite E.
      * exists i2, o2. split; [lia|]. split; [done|].
        eapply (aligned_nested _ _ _ _ (idx + block order)); [lia|by apply Hal; [|lia]|done| |].
        { apply H2, brange_self. } rewrite Hsp. apply elem_of_union_r, brange_self.
    + exists i1, o1. split; [lia|]. split; [done|].
      eapply (aligned_nested _ _ _ _ idx); [lia|by apply Hal; [|lia]|done| |apply brange_self].
      apply H1, brange_self.
Qed.

(** ** [alloc] *)

Definition alloc_post (F : gset Z) (b : t) (order : nat) (r : option Z) (b' : t) : Prop :=
  match r with
  | None => b' = b ∧
      ∀ idx, (order ≤ MAX_ORDER)%nat → 0 ≤ idx → aligned idx order → ¬ brange idx order ⊆ F
  | Some idx =>
      (order ≤ MAX_ORDER)%nat ∧ 0 ≤ idx ∧ aligned idx order ∧ brange idx order ⊆ F ∧
      inv (F ∖ brange idx order) b' ∧ state b' !! idx = Some (used_tag order) ∧ touches F b b'
  end.

(** Unlinking a block, returning its upper halves and marking the rest used. *)
Lemma wp_carve {A} F b idx order n (m : Exec t A) Q :
  core ∅ F b → (order + n ≤ MAX_ORDER)%nat →
  state b !! idx = Some (free_tag (order + n)) →
  (∀ b', core ∅ (F ∖ brange idx order) b' → keeps F b b' →
     state b' !! idx = Some (used_tag order) → wp m Q b') →
  wp (_ ← unlink idx (order + n); _ ← split_down idx order n;
      _ ← set idx (used_tag order); m) Q b.
Proof.
  intros Hc Hom Hs Hm. set (o := (order + n)%nat) in *.
  assert (idx ∉ (∅ : gset Z)) as Hi by set_solver.
  pose proof (shape_lookup_range (co_shape _ _ _ Hc) _ _ Hs) as Hi0.
  destruct (sh_block _ _ (co_shape _ _ _ Hc) idx (free_tag o) o Hi Hs) as (Ha & Hrg & Hcl);
    [by split; auto|].
  pose proof (core_block_free Hc idx o Hom Hi Hs) as HbF.
  wp_steps. eapply wp_mono; [by apply (wp_unlink _ _ _ _ _ Hc Hom)|].
  cbn beta. intros _ b1 (Hc1 & Es1 & Hk1).
  assert (hole ∅ idx o b1) as Hh1.
  { split; [done|set_solver|done|rewrite (k_frames _ _ _ Hk1); lia| |].
    - exists (free_tag o). rewrite Es1. split; [done|]. destruct (tag_facts o Hom). naive_solver.
    - intros j Hj. rewrite Es1. by apply Hcl. }
  wp_steps. eapply wp_mono; [by apply (wp_split_down _ _ _ _ _ _ Hc1)|].
  cbn beta. intros _ b2 (Hc2 & Hh2 & Hk2). wp_steps.
  eapply wp_mono; [by apply (wp_set_used _ _ _ _ _ Hc2)|].
  cbn beta. intros _ b3 (Hc3 & Eb3 & Hk3).
  pose proof (brange_mono idx order o ltac:(lia)) as Hmono. pose proof (brange_self idx o).
  apply Hm.
  - replace (F ∖ brange idx order) with (F ∖ brange idx o ∪ brange idx o ∖ brange idx order);
      [done|]. apply set_eq. intros j. destruct (decide (j ∈ brange idx o)); set_solver.
  - eapply keeps_trans; [exact Hk1|].
    eapply keeps_trans; (eapply keeps_weaken; [|done]); set_solver.
  - rewrite Eb3. simpl. by rewrite lookup_insert_eq.
Qed.

Lemma wp_alloc F b order : inv F b → wp (alloc order) (alloc_post F b order) b.
Proof.
  intros [Hc Hfr Hmg]. unfold alloc.
  destruct (Nat.ltb_spec MAX_ORDER order) as [|Hle]; [apply wp_ret; split; [done|lia]|].
  wp_steps. eapply wp_mono; [apply (wp_first_nonempty ∅ F _ b order Hc); lia|].
  cbn beta. intros o b0 (-> & Hro & Hno & Hyes).
  destruct (Nat.ltb_spec MAX_ORDER o) as [Hgt|Hom].
  { apply wp_ret. split; [done|]. intros idx _ Hi Ha HF.
    destruct (coalesced_run F b order idx Hc Hle Hi Ha HF) as (i & o' & Ho' & Hs & _).
    by apply (Hno o' ltac:(lia) ltac:(lia) i ltac:(set_solver)). }
  destruct (Hyes Hom) as (idx & Hh & Hi & Hs). wp_steps. eapply wp_need; [exact Hh|].
  pose proof (shape_lookup_range (co_shape _ _ _ Hc) _ _ Hs) as Hi0.
  destruct (sh_block _ _ (co_shape _ _ _ Hc) idx (free_tag o) o Hi Hs) as (Ha & _ & _);
    [by split; auto|].
  pose proof (core_block_free Hc idx o Hom Hi Hs) as HbF.
  pose proof (brange_mono idx order o Hro) as Hmono.
  assert (brange idx order ⊆ F) as HPF by set_solver.
  assert (∃ n, o = order + n)%nat as [n ->] by (exists (o - order)%nat; lia).
  replace (order + n - order)%nat with n by lia.
  apply (wp_carve F); [done..|]. intros b3 Hc3 Hk Hu.
  pose proof (subseteq_size _ _ HPF) as Hsz. pose proof (size_brange idx order) as Hsb.
  pose proof (k_free _ _ _ Hk) as Eff.
  wp_steps. eapply wp_need; [apply sub64_ok; lia|]. wp_steps.
  split_and!; [done|lia|by apply (aligned_le _ _ (order + n))|done| |done|].
  - split; [by apply core_free_counter|..]; simpl.
    + rewrite size_diff by done. lia.
    + by rewrite (k_managed _ _ _ Hk), (k_mset _ _ _ Hk).
  - apply (touches_trans _ _ b3); [by apply keeps_touches|by split].
Qed.

(** ** [free] *)

(** Taking an allocated block in transit. *)
Lemma core_take_used H F b idx o :
  core H F b → idx ∉ H → (o ≤ MAX_ORDER)%nat → state b !! idx = Some (used_tag o) →
  core (H ∪ brange idx o) F b ∧ hole H idx o b.
Proof.
  intros Hc HiH Ho Hs. assert (is_tag (used_tag o) o) as Ht by (split; auto).
  pose proof (shape_lookup_range (co_shape _ _ _ Hc) _ _ Hs) as Hi0.
  destruct (sh_block _ _ (co_shape _ _ _ Hc) idx _ o HiH Hs Ht) as (Ha & Hr & Hcl).
  assert (∀ i o', (o' ≤ MAX_ORDER)%nat → i ∉ H → state b !! i = Some (free_tag o') →
    i ∉ brange idx o) as Hfin.
  { intros i o' Ho' Hi Hv Hij.
    assert (i = idx) as -> by (apply (take_head_in Hc HiH Hs Ht i (free_tag o') o'); auto using free_is_tag).
    apply (free_used_tag o' o Ho' Ho). congruence. }
  split.
  - pose proof (shape_take Hc HiH Hs Ht b eq_refl eq_refl) as Hsh'.
    destruct Hc as [_ [fl [Hlh Hlc Hll Hln Hle Hlct]] HF]. split; [done|..].
    + exists fl. split; auto. intros o' i Ho'. rewrite Hle, not_elem_of_union by done. naive_solver.
    + intros j. rewrite HF. unfold free_in. split; intros (i & o' & Ho' & Hi & Hv & Hj);
        exists i, o'; (split_and!; [done| |done|lia..]); [|set_solver].
      pose proof (Hfin i o' Ho' Hi Hv). set_solver.
  - split; [done| |done|lia| |].
    + intros j Hj HjH. apply elem_of_brange in Hj. destruct (decide (j = idx)) as [->|]; [done|].
      by destruct (Hcl j) as [? _]; [lia|].
    + exists (used_tag o). split; [done|]. destruct (tag_facts o Ho). naive_solver.
    + intros j Hj. by apply Hcl.
Qed.

Definition free_post (F : gset Z) (b : t) (idx : Z) (order : nat)
    (r : FreeError + unit) (b' : t) : Prop :=
  match r with
  | inl OutOfRange => b' = b ∧ frames b ≤ idx
  | inl NotAllocated => b' = b ∧ idx < frames b ∧
      ∀ o, (o ≤ MAX_ORDER)%nat → state b !! idx ≠ Some (used_tag o)
  | inl (WrongOrder o) => b' = b ∧ (o ≤ MAX_ORDER)%nat ∧
      state b !! idx = Some (used_tag o) ∧ o ≠ order
  | inr _ => (order ≤ MAX_ORDER)%nat ∧ state b !! idx = Some (used_tag order) ∧
      brange idx order ## F ∧ inv (F ∪ brange idx order) b' ∧
      touches (F ∪ brange idx order) b b'
  end.

(** The bytes whose kind is [ST_USED] are the [used_tag]s. *)
Lemma used_kind H b idx v :
  shape H b → idx ∉ H → state b !! idx = Some v →
  (∃ o, (o ≤ MAX_ORDER)%nat ∧ v = used_tag o) ∨
  Z.land v ST_KIND ≠ ST_USED ∧ ∀ o, (o ≤ MAX_ORDER)%nat → v ≠ used_tag o.
Proof.
  intros Hsh Hi Hv. destruct (sh_vals _ _ Hsh idx v Hv Hi) as [->|[->|(o & Ho & [->| ->])]].
  - right. split; [done|]. intros o Ho. destruct (tag_facts o Ho). naive_solver.
  - right. split; [done|]. intros o Ho. destruct (tag_facts o Ho). naive_solver.
  - right. split; [destruct (tag_facts o Ho); naive_solver|].
    intros o' Ho'. by apply free_used_tag.
  - left. eauto.
Qed.

Lemma wp_free F b idx order :
  inv F b → 0 ≤ idx → wp (free idx order) (free_post F b idx order) b.
Proof.
  intros [Hc Hfr Hmg] Hi. unfold free. wp_steps.
  destruct (Z.leb_spec (frames b) idx) as [|Hlt]; [by apply wp_ret|].
  destruct (proj2 (sh_dom _ _ (co_shape _ _ _ Hc) idx)) as [v Hv]; [lia|].
  wp_steps. eapply wp_need; [exact Hv|].
  destruct (used_kind ∅ b idx v (co_shape _ _ _ Hc) ltac:(set_solver) Hv)
    as [(o & Ho & ->)|[Hk Hno]].
  2:{ rewrite (proj2 (Z.eqb_neq _ _) Hk). apply wp_ret. split; [done|]. split; [done|].
      intros o Ho. rewrite Hv. intros [=E]. by apply (Hno o). }
  destruct (tag_facts o Ho) as (_ & _ & _ & _ & _ & -> & ->). rewrite Z.eqb_refl. simpl.
  destruct (Nat.eqb_spec o order) as [->|Hne]; [|by apply wp_ret]. simpl.
  destruct (core_take_used ∅ F b idx order Hc) as [Hc' Hh]; [set_solver|done..|].
  pose proof (core_free_size Hc). pose proof (sh_frames _ _ (co_shape _ _ _ Hc)).
  pose proof (block_max order Ho).
  assert (F ## brange idx order) as Hdis.
  { intros j Hj Hj'. apply (core_free_not_transit Hc') in Hj. set_solver. }
  wp_steps. eapply wp_need; [apply add64_ok; unfold U64; lia|]. wp_steps.
  set (b1 := with_free_frames (free_frames b + block order) b).
  assert (core (∅ ∪ brange idx order) F b1) as Hc1 by (by apply core_free_counter).
  eapply wp_mono.
  { apply (wp_release ∅ F b1 idx order Hc1); [by destruct Hh|]. intros j o Hj. set_solver. }
  cbn beta. intros _ b2 (Hc2 & Hk2). wp_steps.
  split_and!; [done|done|set_solver| |].
  - split; [done|..].
    + rewrite (k_free _ _ _ Hk2), size_disj_union, size_brange by done. simpl. lia.
    + rewrite (k_managed _ _ _ Hk2), (k_mset _ _ _ Hk2). done.
  - apply (touches_trans _ _ b1); [by split|by apply keeps_touches].
Qed.
