(* ===== verification/BuddyRange.v ===== *)
(** * Buddy allocator: [add_range] and [reserve_range]

    Handing reserved frames to the allocator and taking free frames back. *)

From S2P Require Import Prelude BuddyModel BuddyList BuddyInv BuddyOps BuddyAlloc.
Import Buddy.

Definition reserved_set (s : gmap Z Z) : gset Z :=
  dom (filter (λ kv, kv.2 = ST_RESERVED) s).

Lemma elem_of_reserved_set s j : j ∈ reserved_set s ↔ s !! j = Some ST_RESERVED.
Proof.
  unfold reserved_set. rewrite elem_of_dom. unfold is_Some.
  setoid_rewrite map_lookup_filter_Some. naive_solver.
Qed.

(** ** [add_run] *)

(** Reserved frames are outside every block. *)
Lemma core_take_reserved F b P :
  core ∅ F b → (∀ j, j ∈ P → state b !! j = Some ST_RESERVED) → core P F b.
Proof.
  intros Hc HP. pose proof (co_shape _ _ _ Hc) as Hsh.
  assert (∀ j v, state b !! j = Some v → v ≠ ST_RESERVED → j ∉ P) as Hout.
  { intros j v Hv Hne Hj. apply HP in Hj. congruence. }
  assert (∀ i v o, state b !! i = Some v → is_tag v o → i ∉ P) as Htag.
  { intros i v o Hi Ht. apply (Hout i v Hi). by apply (is_tag_not_none v o). }
  destruct Hc as [_ [fl [Hlh Hlc Hll Hln Hle Hlct]] HF].
  destruct Hsh as [Hf Hd Hv Hb Hn Hco].
  split; [split|exists fl; split|]; auto.
  - intros i v Hi _. apply (Hv i); [done|set_solver].
  - intros i v o _ Hi Ht. destruct (Hb i v o) as (? & ? & Hin); [set_solver|done..|].
    split; [done|]. split; [done|]. intros j Hj. destruct (Hin j Hj) as [_ Hj'].
    split; [by apply (Hout j _ Hj')|done].
  - intros j _ Hj. destruct (Hn j) as (i & v & o & _ & Hi & Ht & Hij); [set_solver|done|].
    exists i, v, o. eauto.
  - intros i o Ho _ _. apply Hco; [done|set_solver..].
  - intros o i Ho. rewrite Hle by done. split; [|set_solver]. intros [_ Hi].
    split; [|done]. eapply Htag; [done|by apply free_is_tag].
  - intros j. rewrite HF. unfold free_in. split; intros (i & o & Ho & Hi & Hs & Hj);
      exists i, o; (split_and!; [done| |done|lia..]); [|set_solver].
    eapply Htag; [done|by apply free_is_tag].
Qed.

Lemma wp_clear_run H F b idx n :
  core H F b → zrange idx (Z.of_nat n) ⊆ H →
  (∀ j, j ∈ zrange idx (Z.of_nat n) → is_Some (state b !! j)) →
  wp (clear_run idx n) (λ _ b', core H F b' ∧ ∃ s, b' = with_state s b ∧
    ∀ j, s !! j = if decide (j ∈ zrange idx (Z.of_nat n)) then Some ST_NONE else state b !! j) b.
Proof.
  revert idx b. induction n as [|n IH]; intros idx b Hc HH Hs; simpl.
  - apply wp_ret. split; [done|]. exists (state b). split; [by destruct b|].
    intros j. rewrite decide_False; [done|]. rewrite elem_of_zrange. lia.
  - assert (idx ∈ zrange idx (Z.of_nat (S n))) as Hself by (apply elem_of_zrange; lia).
    assert (zrange (idx + 1) (Z.of_nat n) ⊆ zrange idx (Z.of_nat (S n))) as Hsub.
    { intros j. rewrite !elem_of_zrange. lia. }
    destruct (Hs idx Hself) as [v0 Hv0]. wp_steps. eapply wp_set; [exact Hv0|].
    eapply wp_mono.
    { apply IH; [apply core_set_transit; [done|by apply HH|by eexists]|set_solver|].
      intros j Hj. simpl. destruct (decide (idx = j)) as [<-|].
      - rewrite lookup_insert_eq. by eexists.
      - rewrite lookup_insert_ne by done. by apply Hs, Hsub. }
    cbn beta. intros _ b' (Hc' & s & -> & Hls). split; [done|]. exists s. split; [done|].
    intros j. rewrite Hls. cbn [state with_state]. destruct (decide (idx = j)) as [<-|Hne].
    + rewrite lookup_insert_eq. repeat case_decide; rewrite elem_of_zrange in *; first [done|lia].
    + rewrite lookup_insert_ne by done.
      repeat case_decide; rewrite elem_of_zrange in *; first [done|lia].
Qed.

Lemma pick_order_ok order idx end_ :
  0 ≤ idx < end_ → end_ < 2 ^ 63 → (order ≤ MAX_ORDER)%nat →
  ∃ o, pick_order order idx end_ = Some o ∧ (o ≤ order)%nat ∧
    aligned idx o ∧ idx + block o ≤ end_.
Proof.
  intros Hi He. induction order as [|order IH]; intros Ho; cbn [pick_order].
  - exists 0%nat. split_and!; [done|lia|by exists idx; rewrite block_0; lia|rewrite block_0; lia].
  - destruct IH as (o & Hp & Hle & Ha & Hfit); [lia|].
    destruct (Z.eqb_spec (Z.land idx (block (S order) - 1)) 0) as [Hz|Hnz]; simpl; [|eauto with lia].
    pose proof (block_max (S order) Ho). rewrite add64_ok by (unfold U64; lia). simpl.
    destruct (Z.ltb_spec end_ (idx + block (S order))); [eauto with lia|].
    exists (S order). split_and!; [done|lia| |lia].
    replace (block (S order) - 1) with (Z.ones (Z.of_nat (S order))) in Hz
      by (rewrite Z.ones_equiv, block_pow; lia).
    rewrite Z.land_ones, <-block_pow in Hz by lia.
    by apply Z.mod_divide in Hz; [|pose proof (block_pos (S order)); lia].
Qed.

Lemma brange_zrange idx o : zrange idx (Z.of_nat (Z.to_nat (block o))) = brange idx o.
Proof. unfold brange. pose proof (block_pos o). by rewrite Z2Nat.id by lia. Qed.

(** One iteration: a reserved aligned block becomes free. *)
Lemma wp_add_block {A} F b idx order (m : Exec t A) Q :
  inv F b → (order ≤ MAX_ORDER)%nat → 0 ≤ idx → aligned idx order →
  idx + block order ≤ frames b →
  (∀ j, j ∈ brange idx order → state b !! j = Some ST_RESERVED) →
  (∀ b', inv (F ∪ brange idx order) b' → touches (F ∪ brange idx order) b b' → wp m Q b') →
  wp (_ ← clear_run idx (Z.to_nat (block order));
      b ← get;
      n ← need (add64 (free_frames b) (block order));
      m' ← need (add64 (managed_frames b) (block order));
      _ ← modify (λ b, with_managed_frames m' (with_free_frames n b));
      _ ← release idx order; m) Q b.
Proof.
  intros [Hc Hfr Hmg] Ho Hi Ha Hr HP Hm. set (P := brange idx order) in *.
  assert (F ## P) as Hdis.
  { intros j Hj Hj'. eapply (core_free_not_pinned Hc j); [done|by apply HP|]. by left. }
  assert (managed_set (state b) ## P) as HdisM.
  { intros j Hj Hj'. apply elem_of_managed_set in Hj as (v & Hv & ?). apply HP in Hj'. congruence. }
  wp_steps. eapply wp_mono.
  { apply (wp_clear_run P F); [by apply core_take_reserved|by rewrite brange_zrange|].
    rewrite brange_zrange. intros j Hj. rewrite HP by done. by eexists. }
  cbn beta. intros _ b0 (Hc0 & s & -> & Hs). rewrite brange_zrange in Hs. fold P in Hs.
  assert (∀ j, j ∈ P → s !! j = Some ST_NONE) as HsP by (intros j Hj; by rewrite Hs, decide_True).
  assert (managed_set s = managed_set (state b) ∪ P) as EM.
  { apply set_eq. intros j. rewrite elem_of_union, !elem_of_managed_set, Hs. case_decide; set_solver. }
  pose proof (sh_frames _ _ (co_shape _ _ _ Hc)) as Hf.
  assert (Z.of_nat (size F) ≤ frames b ∧ Z.of_nat (size (managed_set (state b))) ≤ frames b) as [? ?].
  { split; [by eapply core_free_size|].
    assert (managed_set (state b) ⊆ zrange 0 (frames b)) as Hsub%subseteq_size.
    { intros j (v & Hv & _)%elem_of_managed_set. apply elem_of_zrange.
      apply (shape_lookup_range (co_shape _ _ _ Hc)) in Hv. lia. }
    pose proof (size_zrange 0 (frames b)). lia. }
  pose proof (block_max order Ho).
  wp_steps. eapply wp_need; [apply add64_ok; unfold U64; simpl; lia|]. wp_steps.
  eapply wp_need; [apply add64_ok; unfold U64; simpl; lia|]. wp_steps.
  set (b1 := with_managed_frames _ _).
  assert (core (∅ ∪ P) F b1) as Hc1.
  { rewrite (left_id_L ∅ (∪)). by apply core_managed_counter, core_free_counter. }
  eapply wp_mono.
  { apply (wp_release ∅ F b1 idx order Hc1); [|intros ? ? ?; set_solver].
    split; [done|set_solver|done|done| |].
    - exists ST_NONE. split; [apply HsP, brange_self|done].
    - intros j Hj. apply HsP, elem_of_brange. lia. }
  cbn beta. intros _ b2 (Hc2 & Hk2). apply Hm.
  - split; [done|..].
    + rewrite (k_free _ _ _ Hk2), size_disj_union by done. subst P. rewrite size_brange.
      simpl. by rewrite Hfr.
    + rewrite (k_managed _ _ _ Hk2), (k_mset _ _ _ Hk2). simpl. rewrite EM, size_disj_union by done.
      subst P. rewrite size_brange. by rewrite Hmg.
  - apply (touches_trans _ _ b1); [|by apply keeps_touches]. split; [done| |done].
    intros j Hj. simpl. rewrite Hs, decide_False; [done|set_solver].
Qed.

(** A byte that is not touched stays reserved. *)
Lemma touches_reserved F P b b' j :
  core ∅ F b → touches (F ∪ P) b b' → j ∉ P →
  state b !! j = Some ST_RESERVED → state b' !! j = Some ST_RESERVED.
Proof.
  intros Hc Ht Hj Hs. rewrite (to_state _ _ _ Ht); [done|]. intros [HF|?]%elem_of_union; [|done].
  eapply (core_free_not_pinned Hc j); [done..|]. by left.
Qed.

Lemma wp_add_run fuel F b idx end_ :
  inv F b → 0 ≤ idx → end_ ≤ frames b → (Z.to_nat (end_ - idx) < fuel)%nat →
  (∀ j, j ∈ zrange idx (end_ - idx) → state b !! j = Some ST_RESERVED) →
  wp (add_run fuel idx end_) (λ _ b',
    inv (F ∪ zrange idx (end_ - idx)) b' ∧ touches (F ∪ zrange idx (end_ - idx)) b b') b.
Proof.
  revert F b idx. induction fuel as [|fuel IH]; intros F b idx Hinv Hi He Hfuel HR; [lia|].
  cbn [add_run]. destruct (Z.ltb_spec idx end_) as [Hlt|Hge].
  2:{ apply wp_ret. replace (zrange idx (end_ - idx)) with (∅ : gset Z).
      - rewrite (right_id_L ∅ (∪)). split; [done|apply touches_refl].
      - apply set_eq. intros j. rewrite elem_of_zrange. set_solver by lia. }
  pose proof (sh_frames _ _ (co_shape _ _ _ (inv_core _ _ Hinv))) as Hf.
  destruct (pick_order_ok MAX_ORDER idx end_) as (o & Hp & Ho & Ha & Hfit); [lia..|].
  pose proof (block_pos o) as Hb. pose proof (block_max o Ho).
  wp_steps. eapply wp_need; [exact Hp|]. wp_steps.
  eapply wp_need; [apply add64_ok; unfold U64; lia|].
  assert (brange idx o ⊆ zrange idx (end_ - idx)) as Hsub.
  { intros j. rewrite elem_of_brange, elem_of_zrange. lia. }
  apply (wp_add_block F); [done..|lia|by auto|]. intros b1 Hinv1 Ht1.
  pose proof (to_frames _ _ _ Ht1).
  eapply wp_mono; [apply (IH (F ∪ brange idx o) b1); [done|lia|lia|lia|]|].
  - intros j Hj. eapply touches_reserved; [by apply Hinv|done| |].
    + rewrite elem_of_brange. apply elem_of_zrange in Hj. lia.
    + apply HR. apply elem_of_zrange in Hj. apply elem_of_zrange. lia.
  - assert (brange idx o ∪ zrange (idx + block o) (end_ - (idx + block o))
      = zrange idx (end_ - idx)) as E.
    { apply set_eq. intros j. rewrite elem_of_union, elem_of_brange, !elem_of_zrange. lia. }
    cbn beta. intros _ b2 (Hinv2 & Ht2). rewrite <-E, (assoc_L (∪)). split; [done|].
    eapply touches_trans; [|exact Ht2]. eapply touches_weaken; [|exact Ht1].
    apply union_subseteq_l.
Qed.

Lemma scan_reserved_ok H fuel b run_end end_ :
  shape H b → 0 ≤ run_end → end_ ≤ frames b → (Z.to_nat (end_ - run_end) < fuel)%nat →
  ∃ e, scan_reserved fuel b run_end end_ = Some e ∧ run_end ≤ e ∧
    (run_end ≤ end_ → e ≤ end_) ∧
    (∀ j, run_end ≤ j < e → state b !! j = Some ST_RESERVED) ∧
    (run_end < end_ → state b !! run_end = Some ST_RESERVED → run_end < e).
Proof.
  intros Hsh. revert run_end. induction fuel as [|fuel IH]; intros r Hr He Hfuel; [lia|].
  cbn [scan_reserved]. destruct (Z.ltb_spec r end_) as [Hlt|Hge].
  - destruct (proj2 (sh_dom _ _ Hsh r)) as [v Hv]; [lia|]. unfold st. rewrite Hv. simpl.
    destruct (Z.eqb_spec v ST_RESERVED) as [->|Hne].
    + destruct (IH (r + 1)) as (e & Hs & H1 & H2 & H3 & H4); [lia..|].
      exists e. split_and!; [done|lia|lia| |lia].
      intros j Hj. destruct (decide (j = r)) as [->|]; [done|]. apply H3. lia.
    + exists r. split_and!; [done|lia|lia|lia|]. congruence.
  - exists r. split_and!; [done|lia|lia|lia|lia].
Qed.

(** ** [add_range] *)

Lemma reserved_touches F P b b' R :
  core ∅ F b → core ∅ (F ∪ P) b' → touches (F ∪ P) b b' → R ## P →
  R ∩ reserved_set (state b') = R ∩ reserved_set (state b).
Proof.
  intros Hc Hc' Ht HR. apply set_eq. intros j.
  rewrite !elem_of_intersection, !elem_of_reserved_set. split; intros [Hj Hs]; (split; [done|]).
  - rewrite <-(to_state _ _ _ Ht); [done|]. intros HF.
    eapply (core_free_not_pinned Hc' j); [done..|]. by left.
  - apply (touches_reserved F P b); [done|done|set_solver|done].
Qed.

Lemma wp_add_range_loop fuel F b idx end_ :
  inv F b → 0 ≤ idx → end_ ≤ frames b → (Z.to_nat (end_ - idx) < fuel)%nat →
  wp (add_range_loop fuel idx end_) (λ _ b',
    let P := zrange idx (end_ - idx) ∩ reserved_set (state b) in
    inv (F ∪ P) b' ∧ touches (F ∪ P) b b') b.
Proof.
  revert F b idx. induction fuel as [|fuel IH]; intros F b idx Hinv Hi He Hfuel; [lia|].
  cbn [add_range_loop]. destruct (Z.ltb_spec idx end_) as [Hlt|Hge].
  2:{ apply wp_ret. replace (zrange idx (end_ - idx)) with (∅ : gset Z).
      - rewrite (left_absorb_L ∅ (∩)), (right_id_L ∅ (∪)). split; [done|apply touches_refl].
      - apply set_eq. intros j. rewrite elem_of_zrange. set_solver by lia. }
  pose proof (co_shape _ _ _ (inv_core _ _ Hinv)) as Hsh.
  destruct (proj2 (sh_dom _ _ Hsh idx)) as [v Hv]; [lia|].
  wp_steps. eapply wp_need; [exact Hv|]. destruct (Z.eqb_spec v ST_RESERVED) as [->|Hne]; cbn [negb].
  - destruct (scan_reserved_ok ∅ (S (Z.to_nat (end_ - idx))) b idx end_ Hsh)
      as (e & Hs & H1 & H2 & H3 & H4); [lia..|].
    specialize (H2 ltac:(lia)). specialize (H4 Hlt Hv).
    wp_steps. eapply wp_need; [exact Hs|]. wp_steps.
    set (P := zrange idx (e - idx)). eapply wp_mono.
    { apply (wp_add_run _ F); [done|lia..|]. intros j Hj%elem_of_zrange. apply H3. lia. }
    cbn beta. fold P. intros _ b1 (Hinv1 & Ht1). pose proof (to_frames _ _ _ Ht1).
    eapply wp_mono; [apply (IH (F ∪ P) b1); [done|lia|lia|lia]|].
    cbn beta zeta. intros _ b2 (Hinv2 & Ht2).
    assert (zrange e (end_ - e) ## P) as HeP by (intros j; unfold P; rewrite !elem_of_zrange; lia).
    rewrite (reserved_touches F P b b1 _ (inv_core _ _ Hinv) (inv_core _ _ Hinv1) Ht1 HeP)
      in Hinv2, Ht2.
    assert (P ∪ zrange e (end_ - e) ∩ reserved_set (state b)
      = zrange idx (end_ - idx) ∩ reserved_set (state b)) as E.
    { apply set_eq. intros j. unfold P.
      rewrite elem_of_union, !elem_of_intersection, !elem_of_zrange, !elem_of_reserved_set. split; [|destruct (decide (j < e)); [left; lia|right; split; [lia|tauto]]].
      intros [Hj|[Hj Hjs]]; [|split; [lia|done]]. split; [lia|]. apply H3. lia. }
    rewrite <-E, (assoc_L (∪)). split; [done|].
    eapply touches_trans; [|exact Ht2]. eapply touches_weaken; [|exact Ht1].
    apply union_subseteq_l.
  - eapply wp_mono; [apply (IH F b (idx + 1)); [done|lia|lia|lia]|]. cbn beta zeta.
    assert (zrange (idx + 1) (end_ - (idx + 1)) ∩ reserved_set (state b)
      = zrange idx (end_ - idx) ∩ reserved_set (state b)) as ->; [|done].
    apply set_eq. intros j. rewrite !elem_of_intersection, !elem_of_zrange, !elem_of_reserved_set.
    destruct (decide (j = idx)) as [->|]; [|split; intros [? ?]; (split; [lia|done])].
    rewrite Hv. split; intros [? [=]]; congruence.
Qed.

Lemma wp_add_range F b start end_ :
  inv F b → 0 ≤ start →
  wp (add_range start end_) (λ _ b',
    let P := zrange start (Z.min end_ (frames b) - start) ∩ reserved_set (state b) in
    inv (F ∪ P) b' ∧ touches (F ∪ P) b b') b.
Proof. intros Hinv Hs. unfold add_range. wp_steps. apply wp_add_range_loop; [done|lia..]. Qed.

(** ** Queries *)

(** Two free heads whose blocks share a frame are the same. *)
Lemma find_free_head_ok F b idx order todo :
  core ∅ F b → 0 ≤ idx < frames b → (order + todo = S MAX_ORDER)%nat →
  (∀ o, (o < order)%nat → state b !! Z.ldiff idx (block o - 1) ≠ Some (free_tag o)) →
  ∃ r, find_free_head b idx order todo = Some r ∧
    match r with
    | Some (h, o) => (o ≤ MAX_ORDER)%nat ∧ state b !! h = Some (free_tag o) ∧ idx ∈ brange h o
    | None => idx ∉ F
    end.
Proof.
  intros Hc Hi. revert order. induction todo as [|todo IH]; intros order Ho Hno; cbn [find_free_head].
  - exists None. split; [done|]. intros (i & o & Hom & _ & Hs & Hj)%(co_free _ _ _ Hc).
    apply (Hno o ltac:(lia)).
    pose proof (shape_lookup_range (co_shape _ _ _ Hc) _ _ Hs).
    destruct (sh_block _ _ (co_shape _ _ _ Hc) i _ o ltac:(set_solver) Hs (free_is_tag o Hom)) as (Ha & _).
    by rewrite (round_down_eq i o idx) by (done || lia).
  - destruct (round_down_range idx order) as (H0 & _ & Hr); [lia|].
    set (h := Z.ldiff idx (block order - 1)) in *.
    destruct (proj2 (sh_dom _ _ (co_shape _ _ _ Hc) h)) as [v Hv]; [lia|].
    unfold st. rewrite Hv. cbn [mbind option_bind]. destruct (Z.eqb_spec v (free_tag order)) as [->|Hne].
    + exists (Some (h, order)). split_and!; [done|lia|done|]. by apply elem_of_brange.
    + apply IH; [lia|]. intros o Hlt. destruct (decide (o = order)) as [->|]; [|apply Hno; lia].
      fold h. congruence.
Qed.

Lemma free_block_containing_ok F b idx :
  core ∅ F b → 0 ≤ idx →
  ∃ r, free_block_containing b idx = Some r ∧
    match r with
    | Some (h, o) => (o ≤ MAX_ORDER)%nat ∧ state b !! h = Some (free_tag o) ∧ idx ∈ brange h o
    | None => idx ∉ F
    end.
Proof.
  intros Hc Hi. unfold free_block_containing. destruct (Z.leb_spec (frames b) idx) as [Hge|Hlt].
  - exists None. split; [done|]. intros Hj%(core_free_range Hc). lia.
  - apply (find_free_head_ok F); [done|lia|done|]. lia.
Qed.

Lemma is_free_ok F b idx : core ∅ F b → 0 ≤ idx → is_free b idx = Some (bool_decide (idx ∈ F)).
Proof.
  intros Hc Hi. unfold is_free.
  destruct (free_block_containing_ok F b idx Hc Hi) as ([[h o]|] & -> & Hr); simpl; f_equal; symmetry.
  - destruct Hr as (Ho & Hs & Hj). apply bool_decide_eq_true.
    by apply (core_block_free Hc h o Ho ltac:(set_solver) Hs).
  - by apply bool_decide_eq_false.
Qed.

Lemma zrange_cons i n : zrange i (Z.of_nat (S n)) = {[i]} ∪ zrange (i + 1) (Z.of_nat n).
Proof.
  apply set_eq. intros j. rewrite elem_of_union, elem_of_singleton, !elem_of_zrange. lia.
Qed.

Lemma all_free_ok F b idx n :
  core ∅ F b → 0 ≤ idx →
  all_free b idx n = Some (bool_decide (zrange idx (Z.of_nat n) ⊆ F)).
Proof.
  intros Hc. revert idx. induction n as [|n IH]; intros idx Hi; cbn [all_free].
  - f_equal. symmetry. apply bool_decide_eq_true. intros j. rewrite elem_of_zrange. lia.
  - rewrite (is_free_ok F) by done. cbn [mbind option_bind].
    rewrite IH by lia. rewrite zrange_cons. destruct (decide (idx ∈ F)) as [Hin|Hout].
    + rewrite bool_decide_true by done. simpl. f_equal. apply bool_decide_ext. set_solver.
    + rewrite bool_decide_false by done. simpl. f_equal. symmetry. apply bool_decide_eq_false. set_solver.
Qed.

(** ** [reserve_range] *)

Lemma core_set_reserved H F b i :
  core (H ∪ {[i]}) F b → i ∉ H → is_Some (state b !! i) →
  core H F (with_state (<[i := ST_RESERVED]> (state b)) b).
Proof.
  intros Hc HiH [v0 Hv0]. set (b' := with_state _ b).
  assert (∀ j w, j ∉ H ∪ {[i]} → state b' !! j = Some w ↔ state b !! j = Some w) as Hs.
  { intros j w Hj. simpl. rewrite lookup_insert_ne by set_solver. done. }
  assert (∀ j w, j ∉ H → state b' !! j = Some w → w ≠ ST_RESERVED →
    j ∉ H ∪ {[i]} ∧ state b !! j = Some w) as Hs'.
  { intros j w Hj Hw Hne. assert (j ≠ i); [|split; [set_solver|apply Hs; [set_solver|done]]].
    intros ->. simpl in Hw. rewrite lookup_insert_eq in Hw. congruence. }
  destruct Hc as [[Hf Hd Hv Hb Hn Hco] [fl [Hlh Hlc Hll Hln Hle Hlct]] HF].
  assert (∀ o, (o ≤ MAX_ORDER)%nat → free_tag o ≠ ST_RESERVED) as Hfr
    by (intros o Ho; destruct (tag_facts o Ho); naive_solver).
  split; [split|exists fl; split|]; auto.
  - intros j. simpl. destruct (decide (i = j)) as [<-|].
    + rewrite lookup_insert_eq, <-Hd, Hv0. split; by eexists.
    + by rewrite lookup_insert_ne.
  - intros j w Hj HjH. destruct (decide (w = ST_RESERVED)) as [|Hne]; [by right; left|].
    destruct (Hs' j w HjH Hj Hne). by apply (Hv j).
  - intros j w o HjH Hj Ht. destruct (is_tag_not_none _ _ Ht) as [_ Hne].
    destruct (Hs' j w HjH Hj Hne) as [HjH' Hj']. destruct (Hb j w o HjH' Hj' Ht) as (? & ? & Hin).
    split; [done|]. split; [done|]. intros k Hk. destruct (Hin k Hk).
    split; [set_solver|by apply Hs].
  - intros j HjH Hj. destruct (Hs' j _ HjH Hj) as [HjH' Hj']; [done|].
    destruct (Hn j HjH' Hj') as (k & w & o & Hk & Hw & Ht & Hkj).
    exists k, w, o. split_and!; [set_solver|by apply Hs|done|lia..].
  - intros j o Ho HjH HbH Hj Hbj.
    destruct (Hs' j _ HjH Hj) as [? ?]; [apply Hfr; lia|].
    destruct (Hs' _ _ HbH Hbj) as [? ?]; [apply Hfr; lia|]. by apply (Hco j o).
  - intros o j Ho. rewrite Hle by done. split; intros [? Hj].
    + split; [set_solver|by apply Hs].
    + destruct (Hs' j _ ltac:(done) Hj) as [? ?]; [by apply Hfr|done].
  - intros j. rewrite HF. unfold free_in. split; intros (k & o & Ho & Hk & Hw & Hj); exists k, o.
    + split_and!; [done|set_solver|by apply Hs|lia..].
    + destruct (Hs' k _ Hk Hw) as [? ?]; [by apply Hfr|]. done.
Qed.

Lemma managed_set_reserve s i v :
  s !! i = Some v → v ≠ ST_RESERVED →
  managed_set (<[i := ST_RESERVED]> s) = managed_set s ∖ {[i]} ∧ {[i]} ⊆ managed_set s.
Proof.
  intros Hi Hv. split; [apply set_eq; intros j|intros j ->%elem_of_singleton].
  - rewrite elem_of_difference, elem_of_singleton, !elem_of_managed_set.
    destruct (decide (i = j)) as [->|]; [rewrite lookup_insert_eq|rewrite lookup_insert_ne by done];
      naive_solver.
  - apply elem_of_managed_set. eauto.
Qed.

(** A block in transit, counted: bytes not reserved, and clear past the first. *)
Record transit (i : Z) (n : nat) (F : gset Z) (b : t) : Prop := {
  tr_core : core (zrange i (Z.of_nat n)) F b;
  tr_free : free_frames b = Z.of_nat (size F);
  tr_managed : managed_frames b = Z.of_nat (size (managed_set (state b)));
  tr_head : (n ≠ 0)%nat → ∃ v, state b !! i = Some v ∧ v ≠ ST_RESERVED;
  tr_clear j : i < j < i + Z.of_nat n → state b !! j = Some ST_NONE;
}.

Lemma transit_next i n F F' b b' :
  transit i (S n) F b → core (zrange (i + 1) (Z.of_nat n)) F' b' →
  free_frames b' = Z.of_nat (size F') →
  managed_frames b' = Z.of_nat (size (managed_set (state b'))) →
  (∀ j, i < j < i + Z.of_nat (S n) → state b' !! j = state b !! j) →
  transit (i + 1) n F' b'.
Proof.
  intros [_ _ _ _ Hcl] Hc Hf Hm Hs. split; [done..| |].
  - intros Hn. exists ST_NONE. rewrite Hs, Hcl by lia. done.
  - intros j Hj. rewrite Hs, Hcl by lia. done.
Qed.

(** One frame inside the range becomes reserved. *)
Lemma wp_reserve_in i n F b :
  transit i (S n) F b →
  wp (_ ← set i ST_RESERVED;
      b ← get;
      m ← need (sub64 (managed_frames b) 1);
      modify (with_managed_frames m)) (λ _ b',
    transit (i + 1) n F b' ∧ touches {[i]} b b' ∧ state b' !! i = Some ST_RESERVED) b.
Proof.
  intros Htr. destruct (tr_head _ _ _ _ Htr) as (v & Hv & Hvr); [done|].
  pose proof (tr_core _ _ _ _ Htr) as Hc. rewrite zrange_cons, (comm_L (∪)) in Hc.
  wp_steps. eapply wp_set; [exact Hv|]. wp_steps.
  destruct (managed_set_reserve _ _ _ Hv Hvr) as [EM HM].
  pose proof (subseteq_size _ _ HM) as Hsz. rewrite size_singleton in Hsz.
  pose proof (tr_managed _ _ _ _ Htr) as Hmg.
  eapply wp_need; [apply sub64_ok; simpl; lia|]. wp_steps. split_and!.
  - eapply (transit_next i n F F b); [done|..].
    + apply core_managed_counter, core_set_reserved; [done|rewrite elem_of_zrange; lia|by eexists].
    + apply (tr_free _ _ _ _ Htr).
    + simpl. rewrite EM, size_diff, size_singleton by done. lia.
    + intros j Hj. simpl. by rewrite lookup_insert_ne by lia.
  - split; [done| |done]. intros j Hj. simpl. rewrite lookup_insert_ne; [done|set_solver].
  - simpl. by rewrite lookup_insert_eq.
Qed.

(** One frame outside the range is released again. *)
Lemma wp_reserve_out i n F b :
  0 ≤ i → transit i (S n) F b →
  wp (b ← get;
      f ← need (add64 (free_frames b) 1);
      _ ← modify (with_free_frames f);
      release i 0) (λ _ b',
    transit (i + 1) n (F ∪ {[i]}) b' ∧ touches (F ∪ {[i]}) b b') b.
Proof.
  intros Hi Htr. destruct (tr_head _ _ _ _ Htr) as (v & Hv & Hvr); [done|].
  pose proof (tr_core _ _ _ _ Htr) as Hc. rewrite zrange_cons, (comm_L (∪)) in Hc.
  pose proof (core_free_size Hc). pose proof (sh_frames _ _ (co_shape _ _ _ Hc)).
  pose proof (tr_free _ _ _ _ Htr) as Hfr. wp_steps.
  eapply wp_need; [apply add64_ok; unfold U64; lia|]. wp_steps.
  set (T := zrange (i + 1) (Z.of_nat n)) in *. set (b1 := with_free_frames _ _).
  assert (brange i 0 = {[i]}) as EP.
  { apply set_eq. intros j. rewrite elem_of_brange, elem_of_singleton, block_0. lia. }
  assert (F ## {[i]}) as HFi.
  { intros j Hj ->%elem_of_singleton. apply (core_free_not_transit Hc) in Hj. set_solver. }
  eapply wp_mono; [apply (wp_release T F b1 i 0)|].
  - rewrite EP. by apply core_free_counter.
  - split; [lia| |by exists i; rewrite block_0; lia| |by exists v|].
    + rewrite EP. intros j ->%elem_of_singleton. unfold T. rewrite elem_of_zrange. lia.
    + rewrite block_0. apply (shape_lookup_range (co_shape _ _ _ Hc)) in Hv. simpl. lia.
    + rewrite block_0. lia.
  - intros j o Hj Ho Hs. apply elem_of_zrange in Hj. simpl in Hs.
    rewrite (tr_clear _ _ _ _ Htr) in Hs by lia. destruct (tag_facts o Ho). naive_solver.
  - rewrite EP. cbn beta. intros _ b2 (Hc2 & Hk2). split.
    + apply (transit_next i n F _ b b2 Htr Hc2).
      * rewrite (k_free _ _ _ Hk2), size_disj_union, size_singleton by done. simpl. lia.
      * rewrite (k_managed _ _ _ Hk2), (k_mset _ _ _ Hk2). apply (tr_managed _ _ _ _ Htr).
      * intros j Hj. apply (k_state _ _ _ Hk2). intros [HjF|?%elem_of_singleton]%elem_of_union; [|lia].
        apply (core_free_not_transit Hc) in HjF. apply HjF, elem_of_union_l, elem_of_zrange. lia.
    + apply (touches_trans _ _ b1); [by split|by apply keeps_touches].
Qed.

Lemma wp_reserve_block start end_ i n F b :
  0 ≤ i → transit i n F b →
  wp (reserve_block start end_ i n) (λ _ b',
    let H := zrange i (Z.of_nat n) in let R := zrange start (end_ - start) in
    inv (F ∪ (H ∖ R)) b' ∧ touches (F ∪ H) b b' ∧
    ∀ j, j ∈ H ∩ R → state b' !! j = Some ST_RESERVED) b.
Proof.
  revert i F b. induction n as [|n IH]; intros i F b Hi Htr; cbn [reserve_block].
  { apply wp_ret. destruct Htr as [Hc Hf Hm _ _].
    replace (zrange i (Z.of_nat 0)) with (∅ : gset Z) in *
      by (apply set_eq; intros j; rewrite elem_of_zrange; set_solver by lia).
    replace (F ∪ ∅ ∖ zrange start (end_ - start)) with F by set_solver.
    split_and!; [done|apply touches_refl|set_solver]. }
  set (R := zrange start (end_ - start)) in *.
  assert ((start <=? i) && (i <? end_) = bool_decide (i ∈ R)) as ->.
  { unfold R. destruct (Z.leb_spec start i), (Z.ltb_spec i end_); simpl; symmetry;
      first [apply bool_decide_eq_true; apply elem_of_zrange; lia
            |apply bool_decide_eq_false; rewrite elem_of_zrange; lia]. }
  rewrite zrange_cons. set (H := zrange (i + 1) (Z.of_nat n)) in *.
  pose proof (tr_core _ _ _ _ Htr) as Hc. rewrite zrange_cons in Hc. fold H in Hc.
  apply wp_bind. case_bool_decide as HiR; (eapply wp_mono; [by eapply wp_reserve_in || by apply wp_reserve_out|]).
  - cbn beta. intros _ b1 (Htr1 & Ht1 & Hs1). eapply wp_mono; [apply (IH (i + 1) F b1); [lia|done]|].
    cbn beta zeta. fold H R. intros _ b2 (Hinv & Ht & Hres). split_and!.
    + replace (({[i]} ∪ H) ∖ R) with (H ∖ R) by set_solver. done.
    + apply (touches_trans _ _ b1); (eapply touches_weaken; [|done]); set_solver.
    + intros j Hj. destruct (decide (j = i)) as [->|]; [|apply Hres; set_solver].
      rewrite (to_state _ _ _ Ht); [done|]. apply not_elem_of_union. split.
      * intros HiF. apply (core_free_not_transit Hc) in HiF. set_solver.
      * unfold H. rewrite elem_of_zrange. lia.
  - cbn beta. intros _ b1 (Htr1 & Ht1).
    eapply wp_mono; [apply (IH (i + 1) (F ∪ {[i]}) b1); [lia|done]|].
    cbn beta zeta. fold H R. intros _ b2 (Hinv & Ht & Hres). split_and!.
    + replace (F ∪ ({[i]} ∪ H) ∖ R) with (F ∪ {[i]} ∪ H ∖ R) by set_solver. done.
    + apply (touches_trans _ _ b1); (eapply touches_weaken; [|done]); set_solver.
    + intros j Hj. apply Hres. set_solver.
Qed.

(** The outer loop: [F] holds no frame of the part of the range already done. *)
Lemma wp_reserve_loop fuel start end_ idx F b :
  inv F b → 0 ≤ idx → end_ ≤ frames b → (Z.to_nat (end_ - idx) < fuel)%nat →
  start ≤ idx → zrange start (Z.min idx end_ - start) ## F → zrange idx (end_ - idx) ⊆ F →
  wp (reserve_loop fuel start end_ idx) (λ _ b',
    inv (F ∖ zrange idx (end_ - idx)) b' ∧ touches F b b' ∧
    ∀ j, j ∈ zrange idx (end_ - idx) → state b' !! j = Some ST_RESERVED) b.
Proof.
  revert idx F b. induction fuel as [|fuel IH]; intros idx F b Hinv Hi He Hfuel Hst Hdone HF; [lia|].
  cbn [reserve_loop]. destruct (Z.ltb_spec idx end_) as [Hlt|Hge].
  2:{ apply wp_ret. replace (zrange idx (end_ - idx)) with (∅ : gset Z)
        by (apply set_eq; intros j; rewrite elem_of_zrange; set_solver by lia).
      rewrite difference_empty_L. split_and!; [done|apply touches_refl|set_solver]. }
  destruct Hinv as [Hc Hfr Hmg]. pose proof (sh_frames _ _ (co_shape _ _ _ Hc)) as Hf.
  assert (idx ∈ F) as HidF by (apply HF, elem_of_zrange; lia).
  destruct (free_block_containing_ok F b idx Hc Hi) as ([[h o]|] & Hfb & Hr); [|done].
  destruct Hr as (Ho & Hs & Hin%elem_of_brange).
  assert (h ∉ (∅ : gset Z)) as Hh0 by set_solver.
  destruct (sh_block _ _ (co_shape _ _ _ Hc) h _ o Hh0 Hs (free_is_tag o Ho)) as (_ & Hrg & Hcl).
  pose proof (shape_lookup_range (co_shape _ _ _ Hc) _ _ Hs) as Hhr.
  pose proof (core_block_free Hc h o Ho Hh0 Hs) as HbF.
  wp_steps. eapply wp_need; [exact Hfb|]. wp_steps.
  eapply wp_mono; [by apply (wp_unlink _ _ _ _ _ Hc Ho)|].
  cbn beta. intros _ b1 (Hc1 & Es1 & Hk1). rewrite (left_id_L ∅ (∪)) in Hc1.
  pose proof (subseteq_size _ _ HbF) as Hsz. pose proof (size_brange h o) as Hsb.
  wp_steps. eapply wp_need; [apply sub64_ok; rewrite (k_free _ _ _ Hk1); lia|]. wp_steps.
  eapply wp_need; [apply add64_ok; unfold U64; lia|]. wp_steps.
  set (b2 := with_free_frames _ _). set (R := zrange start (end_ - start)).
  eapply wp_mono.
  { apply (wp_reserve_block start end_ h _ (F ∖ brange h o) b2); [lia|].
    split; rewrite ?brange_zrange.
    - by apply core_free_counter.
    - simpl. rewrite size_diff, size_brange by done. rewrite (k_free _ _ _ Hk1). lia.
    - simpl. by rewrite (k_managed _ _ _ Hk1), (k_mset _ _ _ Hk1).
    - intros _. exists (free_tag o). simpl. rewrite Es1. split; [done|].
      destruct (tag_facts o Ho). naive_solver.
    - intros j Hj. simpl. rewrite Es1. apply Hcl. lia. }
  rewrite brange_zrange. cbn beta zeta. fold R. intros _ b3 (Hinv3 & Ht3 & Hres3).
  assert (∀ j, j ∈ F → ¬ start ≤ j < idx) as Hdone'.
  { intros j Hj Hr. apply (Hdone j); [apply elem_of_zrange; lia|done]. }
  assert (brange h o ∩ R = zrange idx (Z.min (h + block o) end_ - idx)) as EbR.
  { apply set_eq. intros j. unfold R. rewrite elem_of_intersection, elem_of_brange, !elem_of_zrange.
    split; [|lia]. intros [Hj1 Hj2]. pose proof (Hdone' j (HbF j ltac:(apply elem_of_brange; lia))). lia. }
  set (e := h + block o) in *. set (F3 := F ∖ brange h o ∪ brange h o ∖ R) in *.
  assert (F3 = F ∖ (brange h o ∩ R)) as EF3.
  { apply set_eq. intros j. unfold F3. destruct (decide (j ∈ brange h o)); set_solver. }
  assert (touches F b b3) as Ht.
  { apply (touches_trans _ _ b1); [by apply keeps_touches|].
    apply (touches_trans _ _ b2); [by split|]. eapply touches_weaken; [|exact Ht3]. set_solver. }
  pose proof (to_frames _ _ _ Ht).
  rewrite EF3, EbR in Hinv3. rewrite EbR in Hres3.
  eapply wp_mono; [apply (IH e _ b3 Hinv3); [lia|lia|lia|lia| |]|].
  - intros j. rewrite elem_of_difference, !elem_of_zrange. intros Hj [HjF Hnj].
    pose proof (Hdone' j HjF). lia.
  - intros j Hj%elem_of_zrange. rewrite elem_of_difference, elem_of_zrange. split; [|lia].
    apply HF, elem_of_zrange. lia.
  - cbn beta. intros _ b4 (Hinv4 & Ht4 & Hres4).
    assert (zrange idx (Z.min e end_ - idx) ∪ zrange e (end_ - e) = zrange idx (end_ - idx)) as E.
    { apply set_eq. intros j. rewrite elem_of_union, !elem_of_zrange. lia. }
    split_and!.
    + rewrite <-E. by rewrite difference_difference_l_L in Hinv4.
    + apply (touches_trans _ _ b3); [done|]. eapply touches_weaken; [|exact Ht4]. set_solver.
    + intros j. rewrite <-E, elem_of_union. intros [Hj|Hj]; [|by apply Hres4].
      rewrite (to_state _ _ _ Ht4); [by apply Hres3|]. set_solver.
Qed.

Lemma wp_reserve_range F b start end_ :
  inv F b → 0 ≤ start →
  let R := zrange start (Z.min end_ (frames b) - start) in
  wp (reserve_range start end_) (λ r b',
    r = bool_decide (R ⊆ F) ∧
    if r then inv (F ∖ R) b' ∧ touches F b b' ∧ ∀ j, j ∈ R → state b' !! j = Some ST_RESERVED
    else b' = b) b.
Proof.
  intros Hinv Hs R. unfold reserve_range. wp_steps.
  set (e := Z.min end_ (frames b)) in *.
  assert (zrange start (Z.of_nat (Z.to_nat (e - start))) = R) as ER.
  { apply set_eq. intros j. unfold R. rewrite !elem_of_zrange. lia. }
  eapply wp_need; [apply (all_free_ok F); [apply Hinv|done]|]. rewrite ER.
  case_bool_decide as Hsub; cbn [negb]; [|by apply wp_ret].
  wp_steps. eapply wp_mono.
  { apply (wp_reserve_loop _ start e start F); [done|lia|lia|lia|lia| |done].
    intros j. rewrite elem_of_zrange. lia. }
  cbn beta. intros _ b' Hpost. by apply wp_ret.
Qed.
