(* ===== verification/BuddySpec.v ===== *)
(** * Buddy allocator: abstract specification and refinement

    The specification is a frame ledger: which frames are free, which are
    reserved, and which allocated blocks exist.  [spec_step] says what each
    call may answer and how it changes the ledger; the theorems say that the
    allocator of [buddy.rs] implements it, for every sequence of calls. *)

From S2P Require Import Prelude BuddyModel BuddyList BuddyInv BuddyOps BuddyAlloc BuddyRange.
Import Buddy.

(** The calls of the public interface and their answers. *)
Inductive op :=
  | OpAlloc (order : nat)
  | OpFree (idx : Z) (order : nat)
  | OpAddRange (start end_ : Z)
  | OpReserveRange (start end_ : Z).

Inductive answer :=
  | AAlloc (r : option Z)
  | AFree (r : FreeError + unit)
  | AUnit
  | ABool (r : bool).

Definition run (o : op) : Exec t answer :=
  match o with
  | OpAlloc order => r ← alloc order; mret (AAlloc r)
  | OpFree idx order => r ← free idx order; mret (AFree r)
  | OpAddRange s e => _ ← add_range s e; mret AUnit
  | OpReserveRange s e => r ← reserve_range s e; mret (ABool r)
  end.

Fixpoint run_all (ops : list op) : Exec t (list answer) :=
  match ops with
  | [] => mret []
  | o :: ops' => a ← run o; r ← run_all ops'; mret (a :: r)
  end.

(** Arguments are [usize] values, never negative. *)
Definition op_ok (o : op) : Prop :=
  match o with
  | OpAlloc _ => True
  | OpFree idx _ => 0 ≤ idx
  | OpAddRange s _ | OpReserveRange s _ => 0 ≤ s
  end.

Record ledger := mkLedger {
  l_frames : Z;
  l_free : gset Z;
  l_reserved : gset Z;
  l_used : gmap Z nat;
}.

Definition l_range (l : ledger) (start end_ : Z) : gset Z :=
  zrange start (Z.min end_ (l_frames l) - start).

Inductive spec_step : ledger → op → answer → ledger → Prop :=
  | spec_alloc l order idx :
      (order ≤ MAX_ORDER)%nat → 0 ≤ idx → aligned idx order →
      brange idx order ⊆ l_free l →
      spec_step l (OpAlloc order) (AAlloc (Some idx))
        (mkLedger (l_frames l) (l_free l ∖ brange idx order) (l_reserved l)
           (<[idx := order]> (l_used l)))
  | spec_alloc_fail l order :
      (∀ idx, (order ≤ MAX_ORDER)%nat → 0 ≤ idx → aligned idx order →
         ¬ brange idx order ⊆ l_free l) →
      spec_step l (OpAlloc order) (AAlloc None) l
  | spec_free l idx order :
      l_used l !! idx = Some order →
      spec_step l (OpFree idx order) (AFree (inr tt))
        (mkLedger (l_frames l) (l_free l ∪ brange idx order) (l_reserved l)
           (delete idx (l_used l)))
  | spec_free_range l idx order :
      l_frames l ≤ idx →
      spec_step l (OpFree idx order) (AFree (inl OutOfRange)) l
  | spec_free_none l idx order :
      idx < l_frames l → l_used l !! idx = None →
      spec_step l (OpFree idx order) (AFree (inl NotAllocated)) l
  | spec_free_order l idx order o :
      l_used l !! idx = Some o → o ≠ order →
      spec_step l (OpFree idx order) (AFree (inl (WrongOrder o))) l
  | spec_add l start end_ :
      spec_step l (OpAddRange start end_) AUnit
        (mkLedger (l_frames l) (l_free l ∪ (l_range l start end_ ∩ l_reserved l))
           (l_reserved l ∖ l_range l start end_) (l_used l))
  | spec_reserve l start end_ :
      l_range l start end_ ⊆ l_free l →
      spec_step l (OpReserveRange start end_) (ABool true)
        (mkLedger (l_frames l) (l_free l ∖ l_range l start end_)
           (l_reserved l ∪ l_range l start end_) (l_used l))
  | spec_reserve_fail l start end_ :
      ¬ l_range l start end_ ⊆ l_free l →
      spec_step l (OpReserveRange start end_) (ABool false) l.

Inductive spec_steps : ledger → list op → list answer → ledger → Prop :=
  | steps_nil l : spec_steps l [] [] l
  | steps_cons l o a l' ops r l'' :
      spec_step l o a l' → spec_steps l' ops r l'' → spec_steps l (o :: ops) (a :: r) l''.

(** The ledger an allocator state stands for. *)
Record refines (l : ledger) (b : t) : Prop := {
  rf_inv : inv (l_free l) b;
  rf_frames : l_frames l = frames b;
  rf_reserved : l_reserved l = reserved_set (state b);
  rf_used idx o : l_used l !! idx = Some o ↔
    (o ≤ MAX_ORDER)%nat ∧ state b !! idx = Some (used_tag o);
}.

(** ** Allocated and reserved frames through an operation *)

Lemma touches_used X b b' j o :
  touches X b b' → j ∉ X → state b' !! j = Some (used_tag o) ↔ state b !! j = Some (used_tag o).
Proof. intros Ht Hj. by rewrite (to_state _ _ _ Ht). Qed.

(** A free frame carries neither a reserved nor an allocated byte. *)
Lemma free_not_used F b j o :
  core ∅ F b → j ∈ F → (o ≤ MAX_ORDER)%nat → state b !! j ≠ Some (used_tag o).
Proof. intros Hc Hj Ho Hs. eapply (core_free_not_pinned Hc j); [done..|]. right. eauto. Qed.

Lemma free_not_reserved F b j : core ∅ F b → j ∈ F → state b !! j ≠ Some ST_RESERVED.
Proof. intros Hc Hj Hs. eapply (core_free_not_pinned Hc j); [done..|]. by left. Qed.

Lemma refines_alloc l b b' idx order :
  refines l b → alloc_post (l_free l) b order (Some idx) b' →
  refines (mkLedger (l_frames l) (l_free l ∖ brange idx order) (l_reserved l)
             (<[idx := order]> (l_used l))) b'.
Proof.
  intros [Hinv Hf Hr Hu] (Ho & Hi & Ha & HF & Hinv' & Hs & Ht).
  pose proof (inv_core _ _ Hinv) as Hc. pose proof (inv_core _ _ Hinv') as Hc'.
  assert (∀ j v, j ∈ l_free l → pinned v → state b' !! j = Some v → j = idx) as Hnew.
  { intros j v Hj Hv Hjv. destruct (decide (j ∈ brange idx order)) as [Hin|Hout].
    - destruct (decide (j = idx)) as [|Hne]; [done|]. apply elem_of_brange in Hin.
      destruct (sh_block _ _ (co_shape _ _ _ Hc') idx (used_tag order) order) as (_ & _ & Hcl);
        [set_solver|done|split; auto|]. destruct (Hcl j) as [_ Hn]; [lia|].
      assert (v = ST_NONE) as -> by congruence. destruct Hv as [?|(o & Hom & E)]; [done|].
      destruct (tag_facts o Hom). naive_solver.
    - exfalso. apply (core_free_not_pinned Hc' j v); [set_solver|done..]. }
  assert (idx ∈ l_free l) as HidF by (apply HF, brange_self).
  split; simpl; [done|by rewrite (to_frames _ _ _ Ht)| |].
  - rewrite Hr. apply set_eq. intros j. rewrite !elem_of_reserved_set.
    destruct (decide (j ∈ l_free l)) as [Hj|Hj]; [|by rewrite (to_state _ _ _ Ht)].
    split; intros Hjs; exfalso; [by apply (free_not_reserved _ _ j Hc Hj)|].
    assert (j = idx) as -> by (apply (Hnew j ST_RESERVED); [done|by left|done]).
    rewrite Hs in Hjs. destruct (tag_facts order Ho). naive_solver.
  - intros j o. destruct (decide (idx = j)) as [<-|Hne].
    + rewrite lookup_insert_eq. split; [intros [= <-]; done|]. intros [Hom E].
      f_equal. apply used_tag_inj; [done..|]. congruence.
    + rewrite lookup_insert_ne, Hu by done.
      destruct (decide (j ∈ l_free l)) as [Hj|Hj]; [|by rewrite (to_state _ _ _ Ht)].
      split; intros [Hom E]; exfalso; [by apply (free_not_used _ _ j o Hc Hj Hom)|].
      apply Hne. symmetry. apply (Hnew j (used_tag o)); [done|right; eauto|done].
Qed.

Lemma refines_free l b b' idx order :
  refines l b → free_post (l_free l) b idx order (inr tt) b' →
  refines (mkLedger (l_frames l) (l_free l ∪ brange idx order) (l_reserved l)
             (delete idx (l_used l))) b'.
Proof.
  intros [Hinv Hf Hr Hu] (Ho & Hs & HF & Hinv' & Ht).
  pose proof (inv_core _ _ Hinv) as Hc. pose proof (inv_core _ _ Hinv') as Hc'.
  (* in the freed block only [idx] carried a pinned byte *)
  assert (∀ j v, j ∈ brange idx order → pinned v → state b !! j = Some v → j = idx) as Hold.
  { intros j v Hin Hv Hjv. destruct (decide (j = idx)) as [|Hne]; [done|].
    apply elem_of_brange in Hin.
    destruct (sh_block _ _ (co_shape _ _ _ Hc) idx (used_tag order) order) as (_ & _ & Hcl);
      [set_solver|done|split; auto|]. destruct (Hcl j) as [_ Hn]; [lia|].
    assert (v = ST_NONE) as -> by congruence. destruct Hv as [?|(o & Hom & E)]; [done|].
    destruct (tag_facts o Hom). naive_solver. }
  split; simpl; [done|by rewrite (to_frames _ _ _ Ht)| |].
  - rewrite Hr. apply set_eq. intros j. rewrite !elem_of_reserved_set.
    destruct (decide (j ∈ l_free l ∪ brange idx order)) as [Hj|Hj]; [|by rewrite (to_state _ _ _ Ht)].
    split; intros Hjs; exfalso; [|by apply (free_not_reserved _ _ j Hc' Hj)].
    apply elem_of_union in Hj as [Hj|Hj]; [by apply (free_not_reserved _ _ j Hc Hj)|].
    assert (j = idx) as -> by (apply (Hold j ST_RESERVED); [done|by left|done]).
    rewrite Hs in Hjs. destruct (tag_facts order Ho). naive_solver.
  - intros j o. destruct (decide (idx = j)) as [<-|Hne].
    + rewrite lookup_delete_eq. split; [done|]. intros [Hom E]. exfalso.
      apply (free_not_used _ _ idx o Hc'); [|done..]. apply elem_of_union_r, brange_self.
    + rewrite lookup_delete_ne, Hu by done.
      destruct (decide (j ∈ l_free l ∪ brange idx order)) as [Hj|Hj]; [|by rewrite (to_state _ _ _ Ht)].
      split; intros [Hom E]; exfalso; [|by apply (free_not_used _ _ j o Hc' Hj Hom)].
      apply elem_of_union in Hj as [Hj|Hj]; [by apply (free_not_used _ _ j o Hc Hj Hom)|].
      apply Hne. symmetry. apply (Hold j (used_tag o)); [done|right; eauto|done].
Qed.

Lemma refines_add l b b' P :
  refines l b → P ⊆ l_reserved l → inv (l_free l ∪ P) b' → touches (l_free l ∪ P) b b' →
  refines (mkLedger (l_frames l) (l_free l ∪ P) (l_reserved l ∖ P) (l_used l)) b'.
Proof.
  intros [Hinv Hf Hr Hu] HP Hinv' Ht.
  pose proof (inv_core _ _ Hinv) as Hc. pose proof (inv_core _ _ Hinv') as Hc'.
  split; simpl; [done|by rewrite (to_frames _ _ _ Ht)| |].
  - apply set_eq. intros j. rewrite elem_of_difference, Hr, !elem_of_reserved_set.
    destruct (decide (j ∈ l_free l ∪ P)) as [Hj|Hj].
    + split; [|by intros ?%(free_not_reserved _ _ j Hc' Hj)]. intros [Hjs HjP].
      apply elem_of_union in Hj as [Hj|Hj]; [|done]. by apply (free_not_reserved _ _ j Hc) in Hjs.
    + rewrite (to_state _ _ _ Ht) by done. set_solver.
  - intros j o. rewrite Hu. destruct (decide (j ∈ l_free l ∪ P)) as [Hj|Hj]; [|by rewrite (to_state _ _ _ Ht)].
    split; intros [Hom E]; exfalso; [|by apply (free_not_used _ _ j o Hc' Hj Hom)].
    apply elem_of_union in Hj as [Hj|Hj]; [by apply (free_not_used _ _ j o Hc Hj Hom)|].
    apply HP in Hj. rewrite Hr, elem_of_reserved_set in Hj.
    destruct (tag_facts o Hom). naive_solver.
Qed.

Lemma refines_reserve l b b' P :
  refines l b → P ⊆ l_free l → inv (l_free l ∖ P) b' → touches (l_free l) b b' →
  (∀ j, j ∈ P → state b' !! j = Some ST_RESERVED) →
  refines (mkLedger (l_frames l) (l_free l ∖ P) (l_reserved l ∪ P) (l_used l)) b'.
Proof.
  intros [Hinv Hf Hr Hu] HP Hinv' Ht Hres.
  pose proof (inv_core _ _ Hinv) as Hc. pose proof (inv_core _ _ Hinv') as Hc'.
  split; simpl; [done|by rewrite (to_frames _ _ _ Ht)| |].
  - apply set_eq. intros j. rewrite elem_of_union, Hr, !elem_of_reserved_set.
    destruct (decide (j ∈ P)) as [HjP|HjP]; [split; [by intros _; apply Hres|by right]|].
    destruct (decide (j ∈ l_free l)) as [Hj|Hj]; [|rewrite (to_state _ _ _ Ht) by done; naive_solver].
    split; [intros [Hjs|?]; [|done]|intros Hjs]; exfalso.
    + by apply (free_not_reserved _ _ j Hc Hj).
    + by apply (free_not_reserved _ _ j Hc'); [set_solver|].
  - intros j o. rewrite Hu. destruct (decide (j ∈ l_free l)) as [Hj|Hj]; [|by rewrite (to_state _ _ _ Ht)].
    split; intros [Hom E]; exfalso; [by apply (free_not_used _ _ j o Hc Hj Hom)|].
    destruct (decide (j ∈ P)) as [HjP|HjP].
    + rewrite (Hres j HjP) in E. destruct (tag_facts o Hom). naive_solver.
    + by apply (free_not_used _ _ j o Hc'); [set_solver|..].
Qed.

(** ** Refinement *)

(** What one call guarantees: an answer the specification allows, a state that
    stands for the new ledger, and untouched memory outside the free frames. *)
Definition step_post (l : ledger) (b : t) (o : op) (a : answer) (b' : t) : Prop :=
  ∃ l', spec_step l o a l' ∧ refines l' b' ∧
    ∀ j, j ∉ l_free l ∪ l_free l' → mem b' !! j = mem b !! j.

Lemma step_post_same l b o a : refines l b → spec_step l o a l → step_post l b o a b.
Proof. intros ? ?. by exists l. Qed.

Lemma run_alloc_ok l b order :
  refines l b → wp (run (OpAlloc order)) (step_post l b (OpAlloc order)) b.
Proof.
  intros Hl. simpl. wp_steps. eapply wp_mono; [apply (wp_alloc _ _ order (rf_inv _ _ Hl))|].
  intros r b' Hpost. wp_steps. destruct r as [idx|].
  - eexists. split; [|split]; [|by eapply refines_alloc|].
    + destruct Hpost as (? & ? & ? & ? & _). by constructor.
    + destruct Hpost as (_ & _ & _ & _ & _ & _ & Ht). intros j Hj.
      apply (to_mem _ _ _ Ht). set_solver.
  - destruct Hpost as [-> Hno]. apply step_post_same; [done|]. by constructor.
Qed.

Lemma run_free_ok l b idx order :
  refines l b → 0 ≤ idx → wp (run (OpFree idx order)) (step_post l b (OpFree idx order)) b.
Proof.
  intros Hl Hi. simpl. wp_steps.
  eapply wp_mono; [apply (wp_free _ _ idx order (rf_inv _ _ Hl) Hi)|].
  intros r b' Hpost. wp_steps. pose proof (rf_used _ _ Hl idx) as Hu.
  pose proof (rf_frames _ _ Hl) as Hf.
  destruct r as [[| |o]|[]].
  - destruct Hpost as (-> & Hge). apply step_post_same; [done|]. constructor. lia.
  - destruct Hpost as (-> & Hlt & Hno). apply step_post_same; [done|].
    constructor; [lia|]. destruct (l_used l !! idx) as [o|] eqn:E; [|done].
    destruct (proj1 (Hu o) eq_refl) as [Hom Hs]. by apply Hno in Hs.
  - destruct Hpost as (-> & Hom & Hs & Hne). apply step_post_same; [done|].
    constructor; [|done]. by apply Hu.
  - eexists. split; [|split]; [|by eapply refines_free|].
    + destruct Hpost as (Hom & Hs & _). constructor. by apply Hu.
    + destruct Hpost as (_ & _ & _ & _ & Ht). intros j Hj.
      apply (to_mem _ _ _ Ht). simpl in Hj. set_solver.
Qed.

Lemma run_add_ok l b start end_ :
  refines l b → 0 ≤ start →
  wp (run (OpAddRange start end_)) (step_post l b (OpAddRange start end_)) b.
Proof.
  intros Hl Hs. simpl. wp_steps.
  eapply wp_mono; [apply (wp_add_range _ _ start end_ (rf_inv _ _ Hl) Hs)|].
  intros u b' Hpost. wp_steps. cbn zeta in Hpost.
  rewrite <- (rf_frames _ _ Hl), <- (rf_reserved _ _ Hl) in Hpost.
  fold (l_range l start end_) in Hpost. destruct Hpost as [Hinv Ht].
  eexists. split; [apply spec_add|]. split.
  - replace (l_reserved l ∖ l_range l start end_)
      with (l_reserved l ∖ (l_range l start end_ ∩ l_reserved l)) by (apply set_eq; set_solver).
    apply (refines_add _ b); [done|set_solver|done..].
  - intros j Hj. apply (to_mem _ _ _ Ht). simpl in Hj. set_solver.
Qed.

Lemma run_reserve_ok l b start end_ :
  refines l b → 0 ≤ start →
  wp (run (OpReserveRange start end_)) (step_post l b (OpReserveRange start end_)) b.
Proof.
  intros Hl Hs. simpl. wp_steps.
  eapply wp_mono; [apply (wp_reserve_range _ _ start end_ (rf_inv _ _ Hl) Hs)|].
  intros r b' Hpost. wp_steps. rewrite <- (rf_frames _ _ Hl) in Hpost.
  fold (l_range l start end_) in Hpost. destruct Hpost as [Hr Hpost]. destruct r.
  - symmetry in Hr. apply bool_decide_eq_true in Hr. destruct Hpost as (Hinv & Ht & Hres).
    eexists. split; [by apply spec_reserve|]. split; [by apply (refines_reserve _ b)|].
    intros j Hj. apply (to_mem _ _ _ Ht). set_solver.
  - symmetry in Hr. apply bool_decide_eq_false in Hr. subst b'.
    apply step_post_same; [done|]. by apply spec_reserve_fail.
Qed.

Lemma run_ok l b o : refines l b → op_ok o → wp (run o) (step_post l b o) b.
Proof.
  destruct o; intros Hl Hok; [by apply run_alloc_ok|by apply run_free_ok|
    by apply run_add_ok|by apply run_reserve_ok].
Qed.

Lemma run_all_ok ops l b :
  refines l b → Forall op_ok ops →
  wp (run_all ops) (λ r b', ∃ l', spec_steps l ops r l' ∧ refines l' b') b.
Proof.
  revert l b. induction ops as [|o ops IH]; intros l b Hl Hops; simpl; wp_steps.
  { eexists. by split; [constructor|]. }
  apply Forall_cons in Hops as [Ho Hops].
  eapply wp_mono; [by apply (run_ok l b o)|]. intros a b1 (l1 & Hst & Hl1 & _). wp_steps.
  eapply wp_mono; [by apply (IH l1)|]. intros r b2 (l2 & Hsts & Hl2). wp_steps.
  exists l2. split; [by econstructor|done].
Qed.

(** The ledger of a fresh allocator: every frame reserved. *)
Definition l_new (n : Z) : ledger := mkLedger n ∅ (zrange 0 n) ∅.

Lemma new_state m n i : state (new m n) !! i = Some ST_RESERVED ↔ 0 ≤ i < n.
Proof.
  simpl. rewrite lookup_gset_to_gmap_Some. rewrite elem_of_list_to_set, elem_of_seqZ.
  naive_solver lia.
Qed.

Lemma new_state_inv m n i v : state (new m n) !! i = Some v → v = ST_RESERVED ∧ 0 ≤ i < n.
Proof.
  intros Hi. assert (v = ST_RESERVED) as ->.
  { simpl in Hi. apply lookup_gset_to_gmap_Some in Hi. naive_solver. }
  by rewrite <- (new_state m n i).
Qed.

Lemma reserved_not_tag o : ¬ is_tag ST_RESERVED o.
Proof. intros [Ho [E|E]]; destruct (tag_facts o Ho); naive_solver. Qed.

Lemma new_shape m n : 0 ≤ n < 2 ^ 63 → shape ∅ (new m n).
Proof.
  intros Hn. split; [done|..].
  - intros i. split; [by intros [v [_ Hv]%new_state_inv]|]. intros ?%(new_state m). eauto.
  - intros i v ?%new_state_inv. naive_solver.
  - intros i v o _ [-> _]%new_state_inv []%reserved_not_tag.
  - intros j _ [? _]%new_state_inv. done.
  - intros i o Ho _ _ [E _]%new_state_inv. exfalso. apply (reserved_not_tag o).
    rewrite <- E. split; [lia|by left].
Qed.

Lemma new_lists m n : lists ∅ (new m n) (λ _, []).
Proof.
  split; [done|done|..].
  - intros o Ho. exists NIL. split; [|by exists NIL]. cbn [new heads]. apply lookup_replicate_2. lia.
  - intros o Ho. constructor.
  - intros o i Ho. split; [by intros ?%elem_of_nil|]. intros [_ [E _]%new_state_inv].
    exfalso. apply (reserved_not_tag o). rewrite <- E. split; [lia|by left].
  - intros o Ho. cbn [new counts]. apply lookup_replicate_2. lia.
Qed.

Lemma new_refines m n : 0 ≤ n < 2 ^ 63 → refines (l_new n) (new m n).
Proof.
  intros Hn. split; cbn [l_new l_free l_frames l_reserved l_used]; [split|done|..].
  - split; [by apply new_shape|by eexists; apply new_lists|]. intros j. split; [set_solver|].
    intros (i & o & Ho & _ & [E _]%new_state_inv & _). exfalso.
    apply (reserved_not_tag o). rewrite <- E. split; [lia|by left].
  - by rewrite size_empty.
  - replace (managed_set (state (new m n))) with (∅ : gset Z); [by rewrite size_empty|].
    apply set_eq. intros j. split; [set_solver|]. unfold managed_set.
    rewrite elem_of_dom. intros [v [Hv Hne]%map_lookup_filter_Some].
    apply new_state_inv in Hv as [-> _]. done.
  - apply set_eq. intros j. rewrite elem_of_reserved_set, new_state, elem_of_zrange. lia.
  - intros i o. rewrite lookup_empty. split; [done|].
    intros [Ho [E _]%new_state_inv]. exfalso. apply (reserved_not_tag o).
    rewrite <- E. split; [lia|by right].
Qed.

(** ** Blocks do not overlap; every frame is accounted for *)

Lemma tags_disjoint b i v o i' v' o' :
  shape ∅ b → state b !! i = Some v → is_tag v o → state b !! i' = Some v' → is_tag v' o' →
  i ≠ i' → brange i o ## brange i' o'.
Proof.
  intros Hsh Hi Hv Hi' Hv' Hne j. rewrite !elem_of_brange. intros Hj Hj'.
  assert (∀ i v o i' v' o', state b !! i = Some v → is_tag v o → state b !! i' = Some v' →
    is_tag v' o' → i < i' < i + block o → False) as Hno.
  { clear -Hsh. intros i v o i' v' o' Hi Hv Hi' [Ho' Hv'] Hr.
    destruct (sh_block _ _ Hsh i v o) as (_ & _ & Hc); [set_solver|done..|].
    destruct (Hc i' Hr) as [_ Hn]. destruct Hv' as [->| ->], (tag_facts o' Ho'); naive_solver. }
  destruct (decide (i < i')); [eapply (Hno i v o i')|eapply (Hno i' v' o' i)]; eauto; lia.
Qed.

Definition used_set (u : gmap Z nat) : gset Z :=
  ⋃ ((λ kv, brange kv.1 kv.2) <$> map_to_list u).

Definition used_total (u : gmap Z nat) : Z :=
  foldr (λ kv a, block kv.2 + a) 0 (map_to_list u).

Lemma elem_of_used_set u j : j ∈ used_set u ↔ ∃ i o, u !! i = Some o ∧ j ∈ brange i o.
Proof.
  unfold used_set. rewrite elem_of_union_list. split.
  - intros (X & HX & Hj). apply list_elem_of_fmap in HX as ([i o] & -> & Hin).
    apply elem_of_map_to_list in Hin. eauto.
  - intros (i & o & Hio & Hj). exists (brange i o). split; [|done].
    apply list_elem_of_fmap. exists (i, o). by rewrite elem_of_map_to_list.
Qed.

Lemma size_used_set u :
  (∀ i o i' o', u !! i = Some o → u !! i' = Some o' → i ≠ i' → brange i o ## brange i' o') →
  Z.of_nat (size (used_set u)) = used_total u.
Proof.
  intros Hd. unfold used_set, used_total.
  assert (∀ kv kv', kv ∈ map_to_list u → kv' ∈ map_to_list u → kv ≠ kv' →
    brange kv.1 kv.2 ## brange kv'.1 kv'.2) as Hd'.
  { intros [i o] [i' o']. rewrite !elem_of_map_to_list. intros Hi Hi' Hne.
    apply Hd; [done..|]. simpl. intros ->. naive_solver. }
  pose proof (NoDup_map_to_list u) as Hnd. clear Hd. revert Hd' Hnd.
  induction (map_to_list u) as [|[i o] l IH]; intros Hd Hnd; [done|].
  apply NoDup_cons in Hnd as [Hni Hnd]. rewrite fmap_cons, union_list_cons, size_union.
  - rewrite Nat2Z.inj_add, size_brange, IH; [done| |done].
    intros. apply Hd; [by right..|done].
  - intros j Hj Hj'. apply elem_of_union_list in Hj' as (X & HX & HjX).
    apply list_elem_of_fmap in HX as (kv & -> & Hkv).
    apply (Hd (i, o) kv) with j; [by left|by right|by intros <-|done..].
Qed.

Section ledger_facts.
Context (l : ledger) (b : t).
Hypothesis Hl : refines l b.

Lemma ledger_shape : shape ∅ b.
Proof using Hl. apply (co_shape _ _ _ (inv_core _ _ (rf_inv _ _ Hl))). Qed.

Lemma used_is_tag i o : l_used l !! i = Some o → state b !! i = Some (used_tag o) ∧ is_tag (used_tag o) o.
Proof using Hl. intros [Ho Hs]%(rf_used _ _ Hl). by split; [|split; [|right]]. Qed.

Lemma used_disjoint i o i' o' :
  l_used l !! i = Some o → l_used l !! i' = Some o' → i ≠ i' → brange i o ## brange i' o'.
Proof using Hl.
  intros [? ?]%used_is_tag [? ?]%used_is_tag ?. eapply tags_disjoint; eauto. apply ledger_shape.
Qed.

Lemma used_free_disjoint i o : l_used l !! i = Some o → brange i o ## l_free l.
Proof using Hl.
  intros [Hi Ht]%used_is_tag j Hj HjF.
  apply (co_free _ _ _ (inv_core _ _ (rf_inv _ _ Hl))) in HjF as (i' & o' & Ho' & _ & Hi' & Hr).
  assert (i ≠ i') as Hne.
  { intros ->. rewrite Hi' in Hi. destruct Ht as [Ho _]. injection Hi. by apply free_used_tag. }
  apply (tags_disjoint b i (used_tag o) o i' (free_tag o') o' ledger_shape Hi Ht Hi'
    (conj Ho' (or_introl eq_refl)) Hne j Hj). by apply elem_of_brange.
Qed.

Lemma managed_split : managed_set (state b) = l_free l ∪ used_set (l_used l).
Proof using Hl.
  pose proof ledger_shape as Hsh. apply set_eq. intros j.
  pose proof (co_free _ _ _ (inv_core _ _ (rf_inv _ _ Hl)) j) as Hfree.
  unfold managed_set. rewrite elem_of_union, elem_of_used_set, elem_of_dom, Hfree.
  assert (∀ i v o, state b !! i = Some v → is_tag v o → j ∈ brange i o →
    free_in ∅ b j ∨ ∃ i o, l_used l !! i = Some o ∧ j ∈ brange i o) as Hcase.
  { intros i v o Hi [Ho [->| ->]] Hj; [left|right].
    - exists i, o. apply elem_of_brange in Hj. set_solver.
    - exists i, o. split; [|done]. by apply (rf_used _ _ Hl). }
  split.
  - intros [v [Hv Hne]%map_lookup_filter_Some].
    destruct (sh_vals _ _ Hsh j v Hv) as [->|[->|[o Ho]]]; [set_solver| |done|].
    + destruct (sh_none _ _ Hsh j) as (i & v & o & _ & Hi & Ho & Hr); [set_solver|done|].
      apply (Hcase i v o); [done..|]. apply elem_of_brange. lia.
    + apply (Hcase j v o); [done..|]. apply brange_self.
  - assert (∀ i v o, state b !! i = Some v → is_tag v o → i ≤ j < i + block o →
      is_Some (filter (λ kv : Z * Z, kv.2 ≠ ST_RESERVED) (state b) !! j)) as Hin.
    { intros i v o Hi Ho Hr. destruct (decide (i = j)) as [->|Hne].
      - exists v. apply map_lookup_filter_Some. split; [done|]. intros E. simpl in E. subst v.
        by apply reserved_not_tag in Ho.
      - destruct (sh_block _ _ Hsh i v o) as (_ & _ & Hc); [set_solver|done..|].
        destruct (Hc j) as [_ Hn]; [lia|]. exists ST_NONE. by apply map_lookup_filter_Some. }
    intros [(i & o & Ho & _ & Hi & Hr)|(i & o & Hu & Hj)].
    + apply (Hin i (free_tag o) o); [done|by split; [|left]|done].
    + apply used_is_tag in Hu as [Hi Ht]. apply (Hin i _ o Hi Ht). by apply elem_of_brange.
Qed.

Lemma frames_split :
  frames b = Z.of_nat (size (managed_set (state b))) + Z.of_nat (size (reserved_set (state b))).
Proof using Hl.
  pose proof ledger_shape as Hsh. pose proof (sh_frames _ _ Hsh).
  rewrite <- size_disj_union.
  - transitivity (Z.of_nat (size (zrange 0 (frames b)))); [rewrite size_zrange; lia|].
    do 2 f_equal. apply set_eq. intros j. unfold managed_set.
    rewrite elem_of_union, elem_of_zrange, elem_of_reserved_set, elem_of_dom.
    transitivity (is_Some (state b !! j)); [rewrite (sh_dom _ _ Hsh); lia|].
    unfold is_Some. setoid_rewrite map_lookup_filter_Some. split.
    + intros [v Hv]. destruct (decide (v = ST_RESERVED)) as [->|]; [by right|left; by exists v].
    + intros [[v [Hv _]]|Hv]; eauto.
  - intros j. unfold managed_set. rewrite elem_of_reserved_set, elem_of_dom.
    intros [v [Hv Hne]%map_lookup_filter_Some] Hr. simpl in Hne. congruence.
Qed.

End ledger_facts.

(** ** Properties *)

(** C1. Every call of the allocator's interface, made in a state that stands
    for a ledger, returns without a panic; its answer and the new state follow
    the ledger specification, and no frame outside the free ones (before or
    after the call) has its memory written. *)
Theorem buddy_step_refines l b o :
  refines l b → op_ok o →
  ∃ a b' l', run o b = Some (a, b') ∧ spec_step l o a l' ∧ refines l' b' ∧
    ∀ j, j ∉ l_free l ∪ l_free l' → mem b' !! j = mem b !! j.
Proof.
  intros Hl Ho. destruct (wp_run _ _ _ (run_ok l b o Hl Ho)) as (a & b' & Hr & l' & H).
  by exists a, b', l'.
Qed.

Lemma buddy_step_refines_witness :
  ∃ a b' l', run (OpAddRange 3 64) (new ∅ 64) = Some (a, b') ∧
    spec_step (l_new 64) (OpAddRange 3 64) a l' ∧ refines l' b' ∧
    ∀ j, j ∉ l_free (l_new 64) ∪ l_free l' → mem b' !! j = (∅ : gmap Z Link) !! j.
Proof.
  apply (buddy_step_refines (l_new 64) (new ∅ 64) (OpAddRange 3 64)).
  - apply new_refines. lia.
  - simpl. lia.
Defined.

(** C11. From a fresh allocator over [n] frames, every sequence of calls runs to
    completion without a panic and answers as the ledger specification does. *)
Theorem buddy_lifetime_refines m n ops :
  0 ≤ n < 2 ^ 63 → Forall op_ok ops →
  ∃ r b l, run_all ops (new m n) = Some (r, b) ∧ spec_steps (l_new n) ops r l ∧ refines l b.
Proof.
  intros Hn Hops.
  destruct (wp_run _ _ _ (run_all_ok ops _ _ (new_refines m n Hn) Hops)) as (r & b & Hr & l & H).
  by exists r, b, l.
Qed.

Lemma buddy_lifetime_refines_witness :
  ∃ r b l, run_all [OpAddRange 0 64; OpAlloc 3; OpFree 0 3; OpReserveRange 8 20] (new ∅ 64)
    = Some (r, b) ∧
    spec_steps (l_new 64) [OpAddRange 0 64; OpAlloc 3; OpFree 0 3; OpReserveRange 8 20] r l ∧
    refines l b.
Proof.
  apply (buddy_lifetime_refines ∅ 64); [lia|]. repeat constructor; simpl; lia.
Defined.

(** The state after [add_range 0 64] on a fresh allocator of 64 frames. *)
Definition demo : t :=
  match add_range 0 64 (new ∅ 64) with Some (_, b) => b | None => new ∅ 64 end.

Definition l_demo : ledger := mkLedger 64 (∅ ∪ (l_range (l_new 64) 0 64 ∩ zrange 0 64))
  (zrange 0 64 ∖ l_range (l_new 64) 0 64) ∅.

Lemma demo_refines : refines l_demo demo.
Proof.
  assert (wp (run (OpAddRange 0 64)) (step_post (l_new 64) (new ∅ 64) (OpAddRange 0 64)) (new ∅ 64)) as H.
  { apply run_ok; [apply new_refines; lia|simpl; lia]. }
  apply wp_run in H as (a & b' & Hr & l' & Hst & Hl' & _). inversion Hst; subst.
  simpl in Hl'. unfold demo. change (run (OpAddRange 0 64)) with
    (_ ← add_range 0 64; mret (M := Exec t) AUnit) in Hr.
  unfold mbind, exec_bind in Hr. destruct (add_range 0 64 (new ∅ 64)) as [[[] b0]|]; [|done].
  injection Hr as <-. exact Hl'.
Qed.

(** No frame is lost or counted twice: the free counter, the reserved
    frames and the allocated blocks add up to the frames of the map, and the
    managed counter is the first and the last of these. *)
Theorem buddy_frames_conserved l b :
  refines l b →
  frames b = free_frames b + Z.of_nat (size (l_reserved l)) + used_total (l_used l) ∧
  managed_frames b = free_frames b + used_total (l_used l).
Proof.
  intros Hl. pose proof (rf_inv _ _ Hl) as Hinv.
  assert (managed_frames b = free_frames b + used_total (l_used l)) as Hm.
  { rewrite (inv_managed _ _ Hinv), (inv_free _ _ Hinv), (managed_split l b Hl).
    rewrite size_union, Nat2Z.inj_add, size_used_set; [done|apply (used_disjoint l b Hl)|].
    intros j HjF (i & o & Hu & Hj)%elem_of_used_set.
    by apply (used_free_disjoint l b Hl i o Hu j). }
  split; [|done]. rewrite (rf_reserved _ _ Hl), (frames_split l b Hl), <- (inv_managed _ _ Hinv). lia.
Qed.

Lemma buddy_frames_conserved_witness :
  frames demo = free_frames demo + Z.of_nat (size (l_reserved l_demo)) + used_total (l_used l_demo) ∧
  managed_frames demo = free_frames demo + used_total (l_used l_demo).
Proof. apply (buddy_frames_conserved l_demo demo), demo_refines. Defined.

(** Live allocations never alias: allocated blocks are aligned to their
    size, lie inside the frame map, and are disjoint from each other, from
    every free frame and from every reserved frame. *)
Theorem buddy_blocks_isolated l b i o :
  refines l b → l_used l !! i = Some o →
  aligned i o ∧ brange i o ⊆ zrange 0 (frames b) ∧
  brange i o ## l_free l ∧ brange i o ## l_reserved l ∧
  ∀ i' o', l_used l !! i' = Some o' → i ≠ i' → brange i o ## brange i' o'.
Proof.
  intros Hl Hu. pose proof (ledger_shape l b Hl) as Hsh.
  destruct (used_is_tag l b Hl i o Hu) as [Hi Ht].
  destruct (sh_block _ _ Hsh i _ o ltac:(set_solver) Hi Ht) as (Ha & Hb & Hc).
  assert (is_Some (state b !! i)) as [Hr _]%(sh_dom _ _ Hsh) by eauto.
  split_and!; [done| |by eapply used_free_disjoint| |].
  - intros j. rewrite elem_of_brange, elem_of_zrange. lia.
  - intros j Hj. rewrite (rf_reserved _ _ Hl), elem_of_reserved_set. intros Hjr.
    destruct (decide (j = i)) as [->|Hne].
    + rewrite Hi in Hjr. injection Hjr as E. apply (reserved_not_tag o). by rewrite <- E.
    + apply elem_of_brange in Hj. destruct (Hc j) as [_ Hn]; [lia|]. by rewrite Hjr in Hn.
  - intros i' o' Hu' Hne. by eapply used_disjoint.
Qed.

(** A block allocated from [demo]. *)
Definition demo2 : t :=
  match alloc 3 demo with Some (_, b) => b | None => demo end.

Definition l_demo2 : ledger :=
  mkLedger 64 (l_free l_demo ∖ brange 0 3) (l_reserved l_demo) (<[0 := 3%nat]> ∅).

Lemma demo2_run : alloc 3 demo = Some (Some 0, demo2).
Proof.
  destruct (wp_run _ _ _ (wp_alloc _ _ 3 (rf_inv _ _ demo_refines))) as (r & b' & Hr & _).
  assert (fst <$> alloc 3 demo = Some (Some 0)) as E by (vm_compute; reflexivity).
  unfold demo2. rewrite Hr in *. simpl in E. congruence.
Qed.

Lemma demo2_refines : refines l_demo2 demo2.
Proof.
  pose proof (wp_alloc _ _ 3 (rf_inv _ _ demo_refines)) as H. unfold wp in H.
  rewrite demo2_run in H. by apply (refines_alloc _ _ _ _ _ demo_refines) in H.
Qed.

Lemma buddy_blocks_isolated_witness :
  aligned 0 3 ∧ brange 0 3 ⊆ zrange 0 (frames demo2) ∧
  brange 0 3 ## l_free l_demo2 ∧ brange 0 3 ## l_reserved l_demo2 ∧
  ∀ i' o', l_used l_demo2 !! i' = Some o' → 0 ≠ i' → brange 0 3 ## brange i' o'.
Proof.
  apply (buddy_blocks_isolated l_demo2 demo2 0 3); [apply demo2_refines|reflexivity].
Defined.

(** Freeing what [alloc] returned, with the same order, succeeds and
    restores the ledger exactly: the same free set, counters included. *)
Theorem buddy_alloc_free_roundtrip l b order idx b1 :
  refines l b → alloc order b = Some (Some idx, b1) →
  ∃ b2, free idx order b1 = Some (inr tt, b2) ∧ refines l b2.
Proof.
  intros Hl Hr. pose proof (wp_alloc _ _ order (rf_inv _ _ Hl)) as H. unfold wp in H. rewrite Hr in H.
  pose proof (refines_alloc _ _ _ _ _ Hl H) as Hl1. pose proof (rf_inv _ _ Hl1) as Hinv1.
  destruct H as (Ho & Hi & Ha & HF & _ & Hs & _).
  assert (l_used l !! idx = None) as Hnone.
  { destruct (l_used l !! idx) as [o|] eqn:E; [|done]. exfalso.
    apply (used_free_disjoint l b Hl idx o E idx); [apply brange_self|apply HF, brange_self]. }
  destruct (wp_run _ _ _ (wp_free _ _ idx order Hinv1 Hi)) as (r & b2 & Hr2 & Hp).
  pose proof (shape_lookup_range (co_shape _ _ _ (inv_core _ _ Hinv1)) idx _ Hs).
  destruct r as [[| |o]|[]].
  - destruct Hp as [_ Hp]. lia.
  - destruct Hp as (_ & _ & Hp). by apply Hp in Hs.
  - destruct Hp as (_ & Hom & Hp & Hne). exfalso. apply Hne, used_tag_inj; [done..|]. congruence.
  - exists b2. split; [done|]. apply (refines_free _ _ _ _ _ Hl1) in Hp.
    simpl in Hp. rewrite difference_union_L, delete_insert_id in Hp by done.
    replace (l_free l ∪ brange idx order) with (l_free l) in Hp by set_solver.
    by destruct l.
Qed.

Lemma buddy_alloc_free_roundtrip_witness :
  ∃ b2, free 0 3 demo2 = Some (inr tt, b2) ∧ refines l_demo b2.
Proof. apply (buddy_alloc_free_roundtrip l_demo demo 3 0 demo2 demo_refines demo2_run). Defined.

(** A double free is refused and changes nothing: after a successful
    [free] of a block, freeing it again with any order answers
    [NotAllocated]. *)
Theorem buddy_double_free_refused l b idx order b1 order' :
  refines l b → 0 ≤ idx → free idx order b = Some (inr tt, b1) →
  free idx order' b1 = Some (inl NotAllocated, b1).
Proof.
  intros Hl Hi Hr. pose proof (wp_free _ _ idx order (rf_inv _ _ Hl) Hi) as H.
  unfold wp in H. rewrite Hr in H. destruct H as (Ho & Hs & HF & Hinv1 & Ht).
  assert (∀ o, (o ≤ MAX_ORDER)%nat → state b1 !! idx ≠ Some (used_tag o)) as Hno.
  { intros o Hom. apply (free_not_used _ _ idx o (inv_core _ _ Hinv1)); [|done].
    apply elem_of_union_r, brange_self. }
  destruct (wp_run _ _ _ (wp_free _ _ idx order' Hinv1 Hi)) as (r & b2 & Hr2 & Hp).
  pose proof (shape_lookup_range (ledger_shape l b Hl) idx _ Hs).
  destruct r as [[| |o]|[]].
  - destruct Hp as [_ Hp]. rewrite (to_frames _ _ _ Ht) in Hp. lia.
  - destruct Hp as (-> & _). done.
  - destruct Hp as (_ & Hom & Hp & _). by apply Hno in Hp.
  - destruct Hp as (Hom & Hp & _). by apply Hno in Hp.
Qed.

Definition demo3 : t :=
  match free 0 3 demo2 with Some (_, b) => b | None => demo2 end.

Lemma demo3_run : free 0 3 demo2 = Some (inr tt, demo3).
Proof.
  destruct (wp_run _ _ _ (wp_free _ _ 0 3 (rf_inv _ _ demo2_refines) ltac:(lia))) as (r & b' & Hr & _).
  assert (fst <$> free 0 3 demo2 = Some (inr tt)) as E by (vm_compute; reflexivity).
  unfold demo3. rewrite Hr in *. simpl in E. congruence.
Qed.

Lemma buddy_double_free_refused_witness : free 0 5 demo3 = Some (inl NotAllocated, demo3).
Proof.
  apply (buddy_double_free_refused l_demo2 demo2 0 3 demo3 5 demo2_refines); [lia|apply demo3_run].
Defined.
