(* ===== verification/Vma.v ===== *)
(** * The regions of a user address space

    Models the region (VMA) level of [kernel/src/mm/aspace.rs]: the list of
    regions of an [AddressSpace], and how mapping, unmapping, [mprotect], stack
    growth and [brk] change it.  The pages behind the regions are in
    [AddrSpace]. *)

From S2P Require Import Prelude UAccess.

Definition PAGE_SIZE : Z := 4096.

(** [align_down] and [align_up] to a page; the addition in [align_up] may overflow. *)
Definition align_down (v : Z) : Z := Z.ldiff v (PAGE_SIZE - 1).
Definition align_up (v : Z) : option Z :=
  s ← add64 v PAGE_SIZE; Some (Z.ldiff (s - 1) (PAGE_SIZE - 1)).

(** ** Protections *)

Module Prot.
Definition NONE : Z := 0.
Definition READ : Z := 1.
Definition WRITE : Z := 2.
Definition EXEC : Z := 4.
Definition contains (p o : Z) : bool := Z.land p o =? o.
End Prot.

Section Vma.
(** The open files a mapping can be backed by ([Arc<dyn File>]). *)
Context {F : Type}.

Record FileBacking := mkBacking {
  file : F;
  offset : Z;
  length_ : Z;
}.

(** [shared] names a [SharedAnon] object; [Arc]s to it are equal names. *)
Record Region := mkRegion {
  start : Z;
  end_ : Z;
  prot : Z;
  grows_down : bool;
  backing : option FileBacking;
  shared : option Z;
  shared_base : Z;
}.

Definition shifted (b : FileBacking) (delta : Z) : option FileBacking :=
  o ← add64 (offset b) delta; Some (mkBacking (file b) o (sat_sub (length_ b) delta)).

(** [None] is the overflow of the file offset. *)
Definition shift_backing (b : option FileBacking) (delta : Z) : option (option FileBacking) :=
  match b with
  | Some b => Some <$> shifted b delta
  | None => Some None
  end.

Definition overlaps (regions : list Region) (s e : Z) : bool :=
  existsb (λ r, (s <? end_ r) && (start r <? e)) regions.

Definition outside (s e : Z) (r : Region) : bool := (e <=? start r) || (end_ r <=? s).

(** The part of [r] below [s]. *)
Definition head_piece (s : Z) (r : Region) : list Region :=
  if start r <? s then [mkRegion (start r) s (prot r) (grows_down r) (backing r) (shared r) (shared_base r)]
  else [].

(** The part of [r] from [e] on: the file offset moves, [shared_base] does not. *)
Definition tail_piece (e : Z) (r : Region) : option (list Region) :=
  if e <? end_ r then
    b ← shift_backing (backing r) (e - start r);
    Some [mkRegion e (end_ r) (prot r) (grows_down r) b (shared r) (shared_base r)]
  else Some [].

(** Every region replaced by its pieces, in order. *)
Definition rebuild (pieces : Region → option (list Region)) (regions : list Region) : option (list Region) :=
  mjoin <$> mapM pieces regions.

(** What [unmap] leaves of one region, and of all of them. *)
Definition carve1 (s e : Z) (r : Region) : option (list Region) :=
  if outside s e r then Some [r]
  else t ← tail_piece e r; Some (head_piece s r ++ t).

Definition carve (s e : Z) (regions : list Region) : option (list Region) := rebuild (carve1 s e) regions.

(** The part of [r] inside [s, e), with its new protection. *)
Definition mid_piece (s e p : Z) (r : Region) : option Region :=
  let mid_start := Z.max s (start r) in
  b ← shift_backing (backing r) (mid_start - start r);
  sb ← add64 (shared_base r) (mid_start - start r);
  Some (mkRegion mid_start (Z.min e (end_ r)) p (grows_down r) b (shared r) sb).

(** What [protect] makes of one region, and of all of them. *)
Definition split1 (s e p : Z) (r : Region) : option (list Region) :=
  if outside s e r then Some [r]
  else m ← mid_piece s e p r;
       t ← tail_piece e r;
       Some (head_piece s r ++ m :: t).

Definition split_prot (s e p : Z) (regions : list Region) : option (list Region) :=
  rebuild (split1 s e p) regions.

Definition contains_addr (a : Z) (r : Region) : bool := (start r <=? a) && (a <? end_ r).

Definition region_at (regions : list Region) (addr : Z) : option Region :=
  List.find (contains_addr addr) regions.

Definition set_start (s : Z) (r : Region) : Region :=
  mkRegion s (end_ r) (prot r) (grows_down r) (backing r) (shared r) (shared_base r).

Definition set_end (e : Z) (r : Region) : Region :=
  mkRegion (start r) e (prot r) (grows_down r) (backing r) (shared r) (shared_base r).

Fixpoint position {A} (f : A → bool) (l : list A) : option nat :=
  match l with
  | [] => None
  | x :: l' => if f x then Some O else S <$> position f l'
  end.

(** [try_grow_stack]: the new regions and the grown one. *)
Definition grow_stack (regions : list Region) (page : Z) : option (Region * list Region) :=
  idx ← position (λ r, grows_down r && (page <? start r) && (start r - page <=? 64 * PAGE_SIZE)) regions;
  r ← regions !! idx;
  if overlaps (delete idx regions) page (end_ r) then None
  else Some (set_start page r, <[idx := set_start page r]> regions).

(** The growing half of [brk]: extend the region that ends at the break, or
    add one when nothing overlaps; [None] when neither is possible. *)
Definition brk_extend (base cur new : Z) (regions : list Region) : option (list Region) :=
  match position (λ r, (end_ r =? cur) && (base <=? start r) && negb (grows_down r)) regions with
  | Some i => r ← regions !! i; Some (<[i := set_end new r]> regions)
  | None =>
      if negb (overlaps regions cur new) then
        Some (regions ++ [mkRegion (Z.max base cur) new (Z.lor Prot.READ Prot.WRITE) false None None 0])
      else None
  end.

(** [verify]: every page of the range lies in a region with the access asked
    for.  [n] counts the pages of the range. *)
Fixpoint verify_pages (n : nat) (regions : list Region) (va : Z) (write : bool) : bool :=
  match n with
  | O => true
  | S n' =>
      match region_at regions va with
      | Some r =>
          Prot.contains (prot r) Prot.READ && (negb write || Prot.contains (prot r) Prot.WRITE)
          && verify_pages n' regions (va + PAGE_SIZE) write
      | None => false
      end
  end.

Definition pages_between (va e : Z) : nat := Z.to_nat ((e - va + PAGE_SIZE - 1) / PAGE_SIZE).

Definition verify (regions : list Region) (addr len : Z) (write : bool) : bool :=
  match checked_add addr len with
  | None => false
  | Some e =>
      if (addr <? USER_START) || (USER_END <? e) then false
      else verify_pages (pages_between (align_down addr) e) regions (align_down addr) write
  end.

(** ** What the regions mean

    Where the initial contents of a byte come from. *)
Inductive Source :=
  | Zero
  | FileAt (f : F) (off : Z)
  | SharedAt (obj : Z) (off : Z).

Definition source (r : Region) (a : Z) : Source :=
  match shared r with
  | Some o => SharedAt o (shared_base r + (a - start r))
  | None =>
      match backing r with
      | Some b => if a - start r <? length_ b then FileAt (file b) (offset b + (a - start r)) else Zero
      | None => Zero
      end
  end.

(** What an address is: its protection, whether its region grows, its source. *)
Definition view (regions : list Region) (a : Z) : option (Z * bool * Source) :=
  r ← region_at regions a; Some (prot r, grows_down r, source r a).

Definition aligned (v : Z) : Prop := v mod PAGE_SIZE = 0.

Definition backing_fits (r : Region) : Prop :=
  (∀ b, backing r = Some b → 0 ≤ offset b ∧ 0 ≤ length_ b ∧ offset b + (end_ r - start r) < U64) ∧
  0 ≤ shared_base r ∧ shared_base r + (end_ r - start r) < U64.

Record region_ok (r : Region) : Prop := {
  ok_low : USER_START ≤ start r;
  ok_order : start r < end_ r;
  ok_high : end_ r ≤ USER_END;
  ok_start : aligned (start r);
  ok_end : aligned (end_ r);
  ok_fits : backing_fits r;
  ok_stack : grows_down r = true → backing r = None ∧ shared r = None;
}.

Definition apart (r1 r2 : Region) : Prop := end_ r1 ≤ start r2 ∨ end_ r2 ≤ start r1.

Definition regions_wf (regions : list Region) : Prop :=
  Forall region_ok regions ∧ ForallOrdPairs apart regions.

(** ** Page alignment *)

Lemma align_down_val v : align_down v = v - v mod PAGE_SIZE.
Proof using Type.
  unfold align_down. change (PAGE_SIZE - 1) with (Z.ones 12). rewrite Z.ldiff_ones_r by lia.
  rewrite Z.shiftl_mul_pow2, Z.shiftr_div_pow2 by lia. change (2 ^ 12) with PAGE_SIZE.
  pose proof (Z.div_mod v PAGE_SIZE). unfold PAGE_SIZE in *. lia.
Qed.

Lemma align_down_spec v : aligned (align_down v) ∧ v - PAGE_SIZE < align_down v ≤ v.
Proof using Type.
  rewrite align_down_val. unfold aligned. pose proof (Z.mod_pos_bound v PAGE_SIZE). split; [|unfold PAGE_SIZE in *; lia].
  rewrite Zminus_mod_idemp_r, Z.sub_diag. done.
Qed.

Lemma align_up_spec v : v + PAGE_SIZE < U64 → ∃ w, align_up v = Some w ∧ aligned w ∧ v ≤ w < v + PAGE_SIZE.
Proof using Type.
  intros Hv. unfold align_up. rewrite add64_ok by done. cbn [mbind option_bind]. eexists. split; [done|].
  destruct (align_down_spec (v + PAGE_SIZE - 1)) as [? ?]. unfold align_down in *. split; [done|]. lia.
Qed.

Lemma page_aligned_le v w : aligned v → aligned w → v < w → v + PAGE_SIZE ≤ w.
Proof using Type.
  unfold aligned, PAGE_SIZE. intros Hv Hw Hlt.
  apply Z.div_exact in Hv; [|lia]. apply Z.div_exact in Hw; [|lia]. lia.
Qed.

(** ** Looking addresses up *)

Implicit Types (r : Region) (rs ps : list Region).

Lemma contains_addr_spec a r : contains_addr a r = true ↔ start r ≤ a < end_ r.
Proof using Type. unfold contains_addr. rewrite andb_true_iff, Z.leb_le, Z.ltb_lt. done. Qed.

Lemma region_at_app rs ps a :
  region_at (rs ++ ps) a = match region_at rs a with Some r => Some r | None => region_at ps a end.
Proof using Type.
  unfold region_at. induction rs as [|r rs IH]; [done|]. simpl. by destruct (contains_addr a r).
Qed.

Lemma region_at_Some rs a r : region_at rs a = Some r → r ∈ rs ∧ start r ≤ a < end_ r.
Proof using Type.
  intros [Hin Hc]%find_some. by rewrite list_elem_of_In, <- contains_addr_spec.
Qed.

Lemma region_at_None rs a : region_at rs a = None ↔ ∀ r, r ∈ rs → ¬ start r ≤ a < end_ r.
Proof using Type.
  split.
  - intros H r Hin Hc. apply list_elem_of_In in Hin. apply (find_none _ _ H) in Hin.
    apply contains_addr_spec in Hc. congruence.
  - intros H. destruct (region_at rs a) as [r|] eqn:E; [|done].
    apply region_at_Some in E as [Hin Hc]. by apply H in Hin.
Qed.

Lemma apart_forall_app rs ps :
  ForallOrdPairs apart (rs ++ ps) ↔
  ForallOrdPairs apart rs ∧ ForallOrdPairs apart ps ∧ ∀ r q, r ∈ rs → q ∈ ps → apart r q.
Proof using Type.
  induction rs as [|r rs IH]; simpl.
  { split; [|tauto]. intros H. split_and!; [constructor|done|set_solver]. }
  split.
  - intros H. inversion H as [|? ? Hr Hrest]; subst. apply IH in Hrest as (H1 & H2 & H3).
    apply Forall_app in Hr as [Hr1 Hr2]. split_and!; [by constructor|done|].
    intros r' q [->|Hin]%elem_of_cons Hq; [by eapply Forall_forall in Hr2|by apply H3].
  - intros (H1 & H2 & H3). inversion H1 as [|? ? Hr Hrest]; subst. constructor.
    + apply Forall_app. split; [done|]. apply Forall_forall. intros q Hq. apply H3; [by left|done].
    + apply IH. split_and!; [done|done|]. intros r' q Hr' Hq. apply H3; [by right|done].
Qed.

Lemma view_None rs a : (∀ r, r ∈ rs → ¬ start r ≤ a < end_ r) → view rs a = None.
Proof using Type. intros H%region_at_None. unfold view. by rewrite H. Qed.

Lemma view_app rs ps a :
  view (rs ++ ps) a = match view rs a with Some v => Some v | None => view ps a end.
Proof using Type. unfold view. rewrite region_at_app. by destruct (region_at rs a). Qed.

Lemma view_singleton r a :
  view [r] a = if contains_addr a r then Some (prot r, grows_down r, source r a) else None.
Proof using Type. unfold view, region_at. simpl. by destruct (contains_addr a r). Qed.

(** ** Replacing regions by their pieces *)

Definition within (r q : Region) : Prop := start r ≤ start q ∧ end_ q ≤ end_ r.

Definition pieces_ok (r : Region) (ps : list Region) : Prop :=
  Forall (λ q, region_ok q ∧ within r q) ps ∧ ForallOrdPairs apart ps.

Lemma apart_within r1 r2 q1 q2 : apart r1 r2 → within r1 q1 → within r2 q2 → apart q1 q2.
Proof using Type. unfold apart, within. lia. Qed.

Lemma rebuild_ok f rs :
  regions_wf rs → (∀ r, region_ok r → ∃ ps, f r = Some ps ∧ pieces_ok r ps) →
  ∃ rs', rebuild f rs = Some rs' ∧ regions_wf rs' ∧
    (∀ q, q ∈ rs' → ∃ r, r ∈ rs ∧ within r q) ∧
    ∀ a, view rs' a = r ← region_at rs a; ps ← f r; view ps a.
Proof using Type.
  intros [Hok Hap] Hf. unfold rebuild.
  induction Hok as [|r rs Hr Hok IH]; [by exists []; split_and!; [|split; constructor|set_solver|]|].
  inversion Hap as [|? ? Hrs Hap']; subst. destruct (IH Hap') as (rs' & Hm & [Hok' Hpair'] & Hsub & Hv).
  destruct (Hf r Hr) as (ps & Hps & [Hq Hpp]). apply fmap_Some in Hm as (pss & Hm & ->).
  exists (ps ++ mjoin pss). split_and!.
  - simpl. by rewrite Hps, Hm.
  - split; [apply Forall_app; split; [|done]; eapply Forall_impl; [exact Hq|]; naive_solver|].
    apply apart_forall_app. split_and!; [done|done|]. intros q q' Hin Hin'.
    apply Hsub in Hin' as (r' & Hr' & Hw'). rewrite Forall_forall in Hq, Hrs.
    eapply apart_within; [by apply Hrs|by apply Hq|done].
  - intros q [Hin|Hin]%elem_of_app.
    + rewrite Forall_forall in Hq. exists r. split; [by left|by apply Hq].
    + apply Hsub in Hin as (r' & ? & ?). exists r'. split; [by right|done].
  - intros a. rewrite view_app, Hv. unfold region_at. simpl. fold (region_at rs a).
    destruct (contains_addr a r) eqn:Ec.
    + simpl. rewrite Hps. simpl. destruct (view ps a); [done|].
      rewrite (proj2 (region_at_None rs a)); [done|]. intros r' Hr' Hc. rewrite Forall_forall in Hrs.
      apply contains_addr_spec in Ec. apply Hrs in Hr' as [?|?]; lia.
    + rewrite (view_None ps a); [done|]. intros q Hin Hc. rewrite Forall_forall in Hq.
      apply Hq in Hin as [_ [? ?]]. assert (contains_addr a r = true) by (apply contains_addr_spec; lia). congruence.
Qed.

(** ** Cutting one region *)

Ltac unfold_ok :=
  repeat match goal with H : region_ok _ |- _ => destruct H as [? ? ? ? ? [? [? ?]] ?] end.

Lemma shift_backing_ok r d :
  region_ok r → 0 ≤ d ≤ end_ r - start r →
  ∃ b, shift_backing (backing r) d = Some b ∧
    (∀ b', b = Some b' → 0 ≤ offset b' ∧ 0 ≤ length_ b' ∧ offset b' + (end_ r - start r - d) < U64) ∧
    (b = None ↔ backing r = None) ∧
    (∀ b0 b', backing r = Some b0 → b = Some b' →
       file b' = file b0 ∧ offset b' = offset b0 + d ∧ length_ b' = Z.max 0 (length_ b0 - d)).
Proof using Type.
  intros Hok Hd. unfold_ok. unfold shift_backing, shifted. destruct (backing r) as [b0|]; [|by exists None].
  destruct (H b0 eq_refl) as (? & ? & ?). rewrite add64_ok by lia. simpl. eexists. split; [done|].
  split_and!; [|done|].
  - intros b' [= <-]. simpl. unfold sat_sub. lia.
  - intros ? b' [= <-] [= <-]. done.
Qed.

Lemma head_piece_ok s r :
  region_ok r → aligned s → s ≤ end_ r → pieces_ok r (head_piece s r) ∧ Forall (λ q, end_ q ≤ s) (head_piece s r).
Proof using Type.
  intros Hok Hs Hle. unfold head_piece. destruct (Z.ltb_spec (start r) s) as [Hlt|].
  2:{ split; [split; constructor|constructor]. }
  unfold_ok. split; [split|]; (constructor; [|constructor]); simpl; [|constructor|done].
  split; [|unfold within; simpl; lia]. split; simpl; try done; try lia.
  split; simpl; [|lia]. intros b Hb. destruct (H b Hb) as (? & ? & ?). lia.
Qed.

Lemma tail_piece_ok e r :
  region_ok r → aligned e → start r ≤ e →
  ∃ t, tail_piece e r = Some t ∧ pieces_ok r t ∧ Forall (λ q, start q = e) t.
Proof using Type.
  intros Hok He Hle. unfold tail_piece. destruct (Z.ltb_spec e (end_ r)) as [Hlt|].
  2:{ exists []. split_and!; [done|split; constructor|constructor]. }
  destruct (shift_backing_ok r (e - start r) Hok ltac:(lia)) as (b & -> & Hb & Hn & _). simpl.
  eexists. split; [done|]. unfold_ok.
  split; [split|]; (constructor; [|constructor]); simpl; [|constructor|done].
  split; [|unfold within; simpl; lia]. split; simpl; try done; try lia.
  - split; simpl; [|lia]. intros b' Hb'. destruct (Hb b' Hb') as (? & ? & ?). lia.
  - intros Hg. rewrite Hn. naive_solver.
Qed.

Lemma mid_piece_ok s e p r :
  region_ok r → aligned s → aligned e → s < e → start r < e → s < end_ r →
  ∃ m, mid_piece s e p r = Some m ∧ region_ok m ∧ within r m ∧
    start m = Z.max s (start r) ∧ end_ m = Z.min e (end_ r).
Proof using Type.
  intros Hok Hs He Hse H1 H2. unfold mid_piece. pose proof (ok_order r Hok).
  destruct (shift_backing_ok r (Z.max s (start r) - start r) Hok) as (b & -> & Hb & Hn & _); [lia|].
  unfold_ok. cbn [mbind option_bind]. rewrite add64_ok by lia. cbn [mbind option_bind].
  eexists. split; [done|]. simpl. split_and!; [|unfold within; simpl; lia|done|done].
  split; simpl; try lia.
  - destruct (Z.max_spec s (start r)) as [[_ ->]|[_ ->]]; done.
  - destruct (Z.min_spec e (end_ r)) as [[_ ->]|[_ ->]]; done.
  - split; simpl; [|lia]. intros b' Hb'. destruct (Hb b' Hb') as (? & ? & ?). lia.
  - intros Hg. rewrite Hn. naive_solver.
Qed.

(** The source of an address survives a cut in front of it, when the offset
    of the backing moves with the start. *)
Lemma source_shifted r q a b :
  region_ok r → shared r = None → start r ≤ start q ≤ a → a < end_ r →
  shift_backing (backing r) (start q - start r) = Some b → backing q = b → shared q = None →
  source q a = source r a.
Proof using Type.
  intros Hok Hsh Hst Ha Hb Hq Hqs. unfold source. rewrite Hsh, Hqs, Hq.
  destruct (shift_backing_ok r (start q - start r) Hok) as (b' & Hb' & _ & Hn & Hc); [lia|].
  rewrite Hb in Hb'. injection Hb' as Eb. subst b'. destruct (backing r) as [b0|].
  - destruct b as [b'|]; [|by pose proof (proj1 Hn eq_refl)].
    destruct (Hc b0 b' eq_refl eq_refl) as (-> & -> & ->).
    destruct (Z.ltb_spec (a - start q) (Z.max 0 (length_ b0 - (start q - start r)))),
      (Z.ltb_spec (a - start r) (length_ b0)); try done; try lia. f_equal. lia.
  - by rewrite (proj2 Hn eq_refl).
Qed.

(** ** Unmapping *)

Lemma outside_spec s e r : outside s e r = true ↔ e ≤ start r ∨ end_ r ≤ s.
Proof using Type. unfold outside. by rewrite orb_true_iff, !Z.leb_le. Qed.

Lemma pieces_app r ps qs m :
  pieces_ok r ps → pieces_ok r qs → Forall (λ q, end_ q ≤ m) ps → Forall (λ q, m ≤ start q) qs →
  pieces_ok r (ps ++ qs).
Proof using Type.
  intros [Hp1 Hp2] [Hq1 Hq2] Hp Hq. split; [by apply Forall_app|].
  apply apart_forall_app. split_and!; [done|done|]. intros q q' Hin Hin'.
  rewrite Forall_forall in Hp, Hq. left. apply Hp in Hin. apply Hq in Hin'. lia.
Qed.

Lemma pieces_one r q : region_ok q → within r q → pieces_ok r [q].
Proof using Type.
  intros Hq Hw. split; [by apply Forall_singleton|]. constructor; constructor.
Qed.

Lemma carve1_ok s e r :
  aligned s → aligned e → s ≤ e → region_ok r → ∃ ps, carve1 s e r = Some ps ∧ pieces_ok r ps.
Proof using Type.
  intros Hs He Hse Hok. unfold carve1. destruct (outside s e r) eqn:Ho.
  { exists [r]. split; [done|]. apply pieces_one; [done|by split]. }
  assert (start r < e ∧ s < end_ r) as [H1 H2].
  { destruct (decide (e ≤ start r ∨ end_ r ≤ s)) as [H|]; [apply outside_spec in H; congruence|lia]. }
  destruct (tail_piece_ok e r Hok He ltac:(lia)) as (t & -> & Ht & Hst).
  destruct (head_piece_ok s r Hok Hs ltac:(lia)) as [Hh Heh]. simpl. eexists. split; [done|].
  apply (pieces_app r _ _ e); [done|done|eapply Forall_impl; [exact Heh|]; simpl; lia|].
  eapply Forall_impl; [exact Hst|]. simpl. lia.
Qed.

Lemma view_head s r a :
  region_ok r → start r ≤ a < end_ r →
  view (head_piece s r) a = if a <? s then Some (prot r, grows_down r, source r a) else None.
Proof using Type.
  intros Hok Ha. unfold head_piece. destruct (Z.ltb_spec (start r) s), (Z.ltb_spec a s); try lia; try done.
  - rewrite view_singleton, (proj2 (contains_addr_spec _ _)) by (simpl; lia). done.
  - apply view_None. intros q [-> |[]%elem_of_nil]%elem_of_cons. simpl. lia.
Qed.

(** The tail keeps its private source; a shared source restarts at its base. *)
Definition tail_source (e : Z) (r : Region) (a : Z) : Source :=
  match shared r with
  | Some o => SharedAt o (shared_base r + (a - e))
  | None => source r a
  end.

Lemma view_tail e r a t :
  region_ok r → start r ≤ a < end_ r → start r ≤ e → tail_piece e r = Some t →
  view t a = if e <=? a then Some (prot r, grows_down r, tail_source e r a) else None.
Proof using Type.
  intros Hok Ha He. unfold tail_piece. destruct (Z.ltb_spec e (end_ r)) as [Hlt|].
  2:{ intros [= <-]. destruct (Z.leb_spec e a); [lia|]. done. }
  destruct (shift_backing (backing r) (e - start r)) as [b|] eqn:Hb; [|done]. intros [= <-].
  rewrite view_singleton. destruct (Z.leb_spec e a) as [Hle|Hgt].
  - rewrite (proj2 (contains_addr_spec _ _)) by (simpl; lia). simpl. do 2 f_equal. unfold tail_source.
    destruct (shared r) as [o|] eqn:Hsh; [unfold source; simpl; by rewrite ?Hsh|].
    eapply source_shifted; [exact Hok|exact Hsh|simpl; lia|lia|simpl; exact Hb|done|done].
  - destruct (contains_addr a _) eqn:E; [|done]. apply contains_addr_spec in E. simpl in E. lia.
Qed.

Lemma carve1_view s e r a ps :
  region_ok r → s ≤ e → start r ≤ a < end_ r → carve1 s e r = Some ps →
  view ps a =
    if (s <=? a) && (a <? e) then None
    else Some (prot r, grows_down r, if (e <=? a) && (start r <? e) then tail_source e r a else source r a).
Proof using Type.
  intros Hok Hse Ha. unfold carve1. destruct (outside s e r) eqn:Ho.
  - intros [= <-]. rewrite view_singleton, (proj2 (contains_addr_spec a r) Ha). apply outside_spec in Ho.
    destruct (Z.leb_spec s a), (Z.ltb_spec a e), (Z.leb_spec e a), (Z.ltb_spec (start r) e); simpl; try lia; done.
  - assert (start r < e ∧ s < end_ r) as [H1 H2].
    { destruct (decide (e ≤ start r ∨ end_ r ≤ s)) as [H|]; [apply outside_spec in H; congruence|lia]. }
    destruct (tail_piece e r) as [t|] eqn:Ht; [|done]. intros [= <-].
    rewrite view_app, (view_head s r a Hok Ha), (view_tail e r a t Hok Ha ltac:(lia) Ht).
    destruct (Z.leb_spec s a), (Z.ltb_spec a s), (Z.ltb_spec a e), (Z.leb_spec e a), (Z.ltb_spec (start r) e);
      simpl; try lia; done.
Qed.

(** What is left at an address after unmapping [s, e). *)
Definition carved (s e : Z) (rs : list Region) (a : Z) : option (Z * bool * Source) :=
  if (s <=? a) && (a <? e) then None
  else r ← region_at rs a;
       Some (prot r, grows_down r, if (e <=? a) && (start r <? e) then tail_source e r a else source r a).

Lemma carve_ok s e rs :
  regions_wf rs → aligned s → aligned e → s ≤ e →
  ∃ rs', carve s e rs = Some rs' ∧ regions_wf rs' ∧ ∀ a, view rs' a = carved s e rs a.
Proof using Type.
  intros Hwf Hs He Hse.
  destruct (rebuild_ok (carve1 s e) rs Hwf) as (rs' & Hr & Hwf' & _ & Hv); [by intros; apply carve1_ok|].
  exists rs'. split_and!; [done|done|]. intros a. rewrite Hv. unfold carved.
  destruct (region_at rs a) as [r|] eqn:Hr'; simpl; [|by destruct (_ && _)].
  apply region_at_Some in Hr' as [Hin Ha]. destruct Hwf as [Hall _]. rewrite Forall_forall in Hall.
  destruct (carve1_ok s e r Hs He Hse (Hall r Hin)) as (ps & Hps & _). rewrite Hps. simpl.
  apply carve1_view; [by apply Hall|done|done|done].
Qed.

(** ** Changing protections *)

Lemma split1_ok s e p r :
  aligned s → aligned e → s < e → region_ok r → ∃ ps, split1 s e p r = Some ps ∧ pieces_ok r ps.
Proof using Type.
  intros Hs He Hse Hok. unfold split1. destruct (outside s e r) eqn:Ho.
  { exists [r]. split; [done|]. apply pieces_one; [done|by split]. }
  assert (start r < e ∧ s < end_ r) as [H1 H2].
  { destruct (decide (e ≤ start r ∨ end_ r ≤ s)) as [H|]; [apply outside_spec in H; congruence|lia]. }
  destruct (mid_piece_ok s e p r Hok Hs He Hse H1 H2) as (m & -> & Hm & Hw & Hms & Hme).
  destruct (tail_piece_ok e r Hok He ltac:(lia)) as (t & -> & Ht & Hst).
  destruct (head_piece_ok s r Hok Hs ltac:(lia)) as [Hh Heh]. simpl. eexists. split; [done|].
  apply (pieces_app r (head_piece s r) (m :: t) s); [done| |done|].
  - apply (pieces_app r [m] t e); [by apply pieces_one|done| |].
    + constructor; [lia|constructor].
    + eapply Forall_impl; [exact Hst|]. simpl. lia.
  - constructor; [lia|]. eapply Forall_impl; [exact Hst|]. simpl. lia.
Qed.

Lemma view_mid s e p r a m :
  region_ok r → start r ≤ a < end_ r → mid_piece s e p r = Some m →
  view [m] a = if (s <=? a) && (a <? e) then Some (p, grows_down r, source r a) else None.
Proof using Type.
  intros Hok Ha. unfold mid_piece. set (ms := Z.max s (start r)).
  destruct (shift_backing (backing r) (ms - start r)) as [b|] eqn:Hb; [|done]. simpl.
  unfold add64. case_match; [|done]. simpl. intros [= <-]. rewrite view_singleton.
  destruct (contains_addr a _) eqn:E; [apply contains_addr_spec in E|]; simpl in *.
  - rewrite (proj2 (Z.leb_le s a)), (proj2 (Z.ltb_lt a e)) by lia. simpl. do 2 f_equal.
    destruct (shared r) as [o|] eqn:Hsh.
    + unfold source. simpl. rewrite Hsh. f_equal. lia.
    + eapply source_shifted; [exact Hok|exact Hsh|simpl; lia|lia|simpl; exact Hb|done|done].
  - destruct (Z.leb_spec s a), (Z.ltb_spec a e); simpl; try done.
    apply not_true_iff_false in E. exfalso. apply E, contains_addr_spec. simpl. lia.
Qed.

Lemma split1_view s e p r a ps :
  region_ok r → s ≤ e → start r ≤ a < end_ r → split1 s e p r = Some ps →
  view ps a =
    Some (if (s <=? a) && (a <? e) then p else prot r, grows_down r,
          if (e <=? a) && (start r <? e) && (s <? end_ r) then tail_source e r a else source r a).
Proof using Type.
  intros Hok Hse Ha. unfold split1. destruct (outside s e r) eqn:Ho.
  - intros [= <-]. rewrite view_singleton, (proj2 (contains_addr_spec a r) Ha). apply outside_spec in Ho.
    destruct (Z.leb_spec s a), (Z.ltb_spec a e), (Z.leb_spec e a), (Z.ltb_spec (start r) e), (Z.ltb_spec s (end_ r));
      simpl; try lia; done.
  - assert (start r < e ∧ s < end_ r) as [H1 H2].
    { destruct (decide (e ≤ start r ∨ end_ r ≤ s)) as [H|]; [apply outside_spec in H; congruence|lia]. }
    destruct (mid_piece s e p r) as [m|] eqn:Hm; [|done]. cbn [mbind option_bind].
    destruct (tail_piece e r) as [t|] eqn:Ht; [|done]. intros [= <-].
    rewrite view_app, (view_head s r a Hok Ha). change (m :: t) with ([m] ++ t).
    rewrite view_app, (view_mid s e p r a m Hok Ha Hm), (view_tail e r a t Hok Ha ltac:(lia) Ht).
    destruct (Z.leb_spec s a), (Z.ltb_spec a s), (Z.ltb_spec a e), (Z.leb_spec e a), (Z.ltb_spec (start r) e),
      (Z.ltb_spec s (end_ r)); simpl; try lia; done.
Qed.

(** What is at an address after [protect] of [s, e) with [p]. *)
Definition protected (s e p : Z) (rs : list Region) (a : Z) : option (Z * bool * Source) :=
  r ← region_at rs a;
  Some (if (s <=? a) && (a <? e) then p else prot r, grows_down r,
        if (e <=? a) && (start r <? e) && (s <? end_ r) then tail_source e r a else source r a).

Lemma split_ok s e p rs :
  regions_wf rs → aligned s → aligned e → s < e →
  ∃ rs', split_prot s e p rs = Some rs' ∧ regions_wf rs' ∧ ∀ a, view rs' a = protected s e p rs a.
Proof using Type.
  intros Hwf Hs He Hse.
  destruct (rebuild_ok (split1 s e p) rs Hwf) as (rs' & Hr & Hwf' & _ & Hv); [by intros; apply split1_ok|].
  exists rs'. split_and!; [done|done|]. intros a. rewrite Hv. unfold protected.
  destruct (region_at rs a) as [r|] eqn:Hr'; simpl; [|done].
  apply region_at_Some in Hr' as [Hin Ha]. destruct Hwf as [Hall _]. rewrite Forall_forall in Hall.
  destruct (split1_ok s e p r Hs He Hse (Hall r Hin)) as (ps & Hps & _). rewrite Hps. simpl.
  apply split1_view; [by apply Hall|lia|done|done].
Qed.

(** ** Adding and growing regions *)

Lemma overlaps_false rs s e :
  overlaps rs s e = false ↔ ∀ r, r ∈ rs → end_ r ≤ s ∨ e ≤ start r.
Proof using Type.
  unfold overlaps. rewrite <- not_true_iff_false, existsb_exists. split.
  - intros H r Hin. destruct (decide (end_ r ≤ s ∨ e ≤ start r)) as [|Hn]; [done|]. exfalso. apply H.
    exists r. rewrite <- list_elem_of_In, andb_true_iff, !Z.ltb_lt. split; [done|lia].
  - intros H (r & Hin & Hb). apply list_elem_of_In, H in Hin. rewrite andb_true_iff, !Z.ltb_lt in Hb. lia.
Qed.

Lemma push_ok rs q :
  regions_wf rs → region_ok q → overlaps rs (start q) (end_ q) = false →
  regions_wf (rs ++ [q]) ∧
  ∀ a, view (rs ++ [q]) a = if contains_addr a q then Some (prot q, grows_down q, source q a) else view rs a.
Proof using Type.
  intros [Hall Hap] Hq Ho. pose proof (proj1 (overlaps_false _ _ _) Ho) as Ho'. split.
  - split; [by apply Forall_app; split; [|apply Forall_singleton]|].
    apply apart_forall_app. split_and!; [done|constructor; constructor|].
    intros r q' Hr ->%list_elem_of_singleton. by apply Ho'.
  - intros a. rewrite view_app, view_singleton. destruct (contains_addr a q) eqn:E; [|by destruct (view rs a)].
    apply contains_addr_spec in E. rewrite view_None; [done|]. intros r Hr. apply Ho' in Hr. lia.
Qed.

Lemma position_Some {A} (f : A → bool) l i :
  position f l = Some i → ∃ x, l !! i = Some x ∧ f x = true.
Proof using Type.
  revert i. induction l as [|x l IH]; intros i; simpl; [done|]. destruct (f x) eqn:E.
  - intros [= <-]. by exists x.
  - intros (j & Hj & ->)%fmap_Some. by apply IH.
Qed.

Lemma apart_sym r q : apart r q → apart q r.
Proof using Type. unfold apart. lia. Qed.

(** A region may be replaced by one that stays clear of the others. *)
Lemma replace_ok rs i r q :
  regions_wf rs → rs !! i = Some r → region_ok q → overlaps (delete i rs) (start q) (end_ q) = false →
  regions_wf (<[i := q]> rs) ∧
  ∀ a, view (<[i := q]> rs) a =
    if contains_addr a q then Some (prot q, grows_down q, source q a) else view (delete i rs) a.
Proof using Type.
  intros [Hall Hap] Hi Hq Ho. pose proof (proj1 (overlaps_false _ _ _) Ho) as Ho'.
  apply list_elem_of_split_length in Hi as (l1 & l2 & -> & ->).
  rewrite delete_middle in *. rewrite insert_app_r_alt by done. rewrite Nat.sub_diag. simpl.
  apply Forall_app in Hall as [H1 [_ H2]%Forall_cons]. apply apart_forall_app in Hap as (A1 & A2 & A3).
  inversion A2 as [|? ? A4 A5]; subst. split.
  - split; [by apply Forall_app; split; [|constructor]|]. apply apart_forall_app. split_and!; [done| |].
    + constructor; [|done]. apply Forall_forall. intros q' Hq'. apply apart_sym, Ho'. set_solver.
    + intros r' q' Hr' [->|Hq']%elem_of_cons; [apply Ho'; set_solver|]. apply A3; [done|by right].
  - intros a. rewrite view_app. change (q :: l2) with ([q] ++ l2). rewrite view_app, view_singleton, view_app.
    destruct (contains_addr a q) eqn:E; [|done]. apply contains_addr_spec in E.
    rewrite (view_None l1); [done|]. intros r' Hr'. assert (end_ r' ≤ start q ∨ end_ q ≤ start r'); [|lia].
    apply Ho'. set_solver.
Qed.

Lemma region_at_app_wf rs i r a :
  regions_wf rs → rs !! i = Some r → start r ≤ a < end_ r → region_at rs a = Some r.
Proof using Type.
  intros [_ Hap] Hi Ha. apply list_elem_of_split_length in Hi as (l1 & l2 & -> & _).
  apply apart_forall_app in Hap as (_ & _ & H). rewrite region_at_app.
  rewrite (proj2 (region_at_None l1 a)).
  - unfold region_at. simpl. by rewrite (proj2 (contains_addr_spec a r) Ha).
  - intros q Hq. assert (apart q r) by (apply H; [done|by left]). unfold apart in *. lia.
Qed.

Lemma delete_apart rs i r q :
  regions_wf rs → rs !! i = Some r → q ∈ delete i rs → q ∈ rs ∧ apart q r.
Proof using Type.
  intros [_ Hap] Hi. apply list_elem_of_split_length in Hi as (l1 & l2 & -> & ->).
  rewrite delete_middle. apply apart_forall_app in Hap as (_ & H2 & H3). inversion H2 as [|? ? H4 _]; subst.
  rewrite Forall_forall in H4. intros [Hq|Hq]%elem_of_app; (split; [set_solver|]).
  - apply H3; [done|by left].
  - by apply apart_sym, H4.
Qed.

(** The view of the regions without [r] is the view outside of [r]. *)
Lemma view_delete rs i r a :
  regions_wf rs → rs !! i = Some r →
  view rs a = if contains_addr a r then Some (prot r, grows_down r, source r a) else view (delete i rs) a.
Proof using Type.
  intros Hwf Hi. pose proof Hwf as [Hall _]. rewrite <- (list_insert_id rs i r Hi) at 1.
  apply (replace_ok rs i r r Hwf Hi); [by eapply Forall_lookup_1|].
  apply overlaps_false. intros q [_ Hq]%(delete_apart rs i r q Hwf Hi). done.
Qed.

(** [protect] moves the [shared_base] of private regions too; the offset it
    accumulates in a region that grows stays far from overflow. *)
Definition stack_room (rs : list Region) : Prop :=
  Forall (λ r, grows_down r = true → shared_base r < 2 ^ 63) rs.

Lemma grow_stack_ok rs page r' rs' :
  regions_wf rs → stack_room rs → aligned page → USER_START ≤ page → grow_stack rs page = Some (r', rs') →
  regions_wf rs' ∧ region_at rs' page = Some r' ∧ grows_down r' = true ∧
  ∀ a, view rs' a =
    if contains_addr a r' then Some (prot r', true, Zero) else view rs a.
Proof using Type.
  intros Hwf Hroom Hp Hlow. unfold grow_stack. destruct (position _ rs) as [i|] eqn:Hpos; [|done]. simpl.
  apply position_Some in Hpos as (r & Hi & Hr). rewrite Hi. simpl.
  rewrite !andb_true_iff, Z.ltb_lt, Z.leb_le in Hr. destruct Hr as [[Hg Hlt] Hle].
  destruct (overlaps (delete i rs) page (end_ r)) eqn:Ho; [done|]. intros [= <- <-].
  assert (region_ok r) as Hok by (destruct Hwf as [Hall _]; by eapply Forall_lookup_1).
  destruct (ok_stack r Hok Hg) as [Hb Hs].
  assert (region_ok (set_start page r)) as Hok'.
  { destruct Hok. destruct ok_fits0 as [_ [? ?]]. split; simpl; try done; try lia. split; simpl; [by rewrite Hb|].
    split; [done|]. pose proof (Forall_lookup_1 _ _ _ _ Hroom Hi Hg). unfold U64, USER_END, USER_START in *. lia. }
  destruct (replace_ok rs i r (set_start page r) Hwf Hi Hok' Ho) as [Hwf' Hv]. split_and!; [done| |done|].
  - eapply region_at_app_wf; [done|apply list_lookup_insert_eq; by eapply lookup_lt_Some|]. simpl.
    pose proof (ok_order r Hok). lia.
  - intros a. rewrite Hv. destruct (contains_addr a (set_start page r)) eqn:E.
    + simpl. unfold source. simpl. by rewrite Hb, Hs, Hg.
    + rewrite (view_delete rs i r a Hwf Hi). destruct (contains_addr a r) eqn:E'; [|done].
      apply contains_addr_spec in E'. apply not_true_iff_false in E. exfalso. apply E, contains_addr_spec.
      simpl. lia.
Qed.

(** ** The heap *)

(** The region the break would extend is plain anonymous memory. *)
Definition heap_plain (base cur : Z) (rs : list Region) : Prop :=
  Forall (λ r, end_ r = cur → base ≤ start r → backing r = None ∧ shared r = None ∧ shared_base r < 2 ^ 63) rs.

Lemma brk_extend_ok base cur new rs :
  regions_wf rs → heap_plain base cur rs → USER_START ≤ base ≤ cur → cur < new ≤ USER_END →
  aligned cur → aligned new → overlaps rs cur new = false →
  ∃ rs' p, brk_extend base cur new rs = Some rs' ∧ regions_wf rs' ∧
    ∀ a, view rs' a = if (cur <=? a) && (a <? new) then Some (p, false, Zero) else view rs a.
Proof using Type.
  intros Hwf Hplain Hb Hn Hc Hal Ho. unfold brk_extend.
  pose proof (proj1 (overlaps_false _ _ _) Ho) as Ho'. pose proof Hwf as [Hall _].
  destruct (position _ rs) as [i|] eqn:Hpos.
  - apply position_Some in Hpos as (r & Hi & Hr). rewrite !andb_true_iff, Z.eqb_eq, Z.leb_le in Hr.
    destruct Hr as [[He Hs] Hg]. apply negb_true_iff in Hg.
    destruct (Forall_lookup_1 _ _ _ _ Hplain Hi He Hs) as (Hbk & Hsh & Hroom).
    pose proof (Forall_lookup_1 _ _ _ _ Hall Hi) as Hok.
    exists (<[i := set_end new r]> rs), (prot r). split; [by rewrite Hi|].
    destruct (replace_ok rs i r (set_end new r) Hwf Hi) as [Hwf' Hv].
    + destruct Hok. split; simpl; try done; try lia. destruct ok_fits0 as [_ [? ?]].
      split; simpl; [by rewrite Hbk|]. split; [done|]. unfold U64, USER_END, USER_START in *. lia.
    + apply overlaps_false. simpl. intros q Hq. apply (delete_apart rs i r q Hwf Hi) in Hq as [Hin Hap].
      pose proof (ok_order q (proj1 (Forall_forall _ _) Hall q Hin)). apply Ho' in Hin. unfold apart in Hap. lia.
    + split; [done|]. intros a. rewrite Hv, (view_delete rs i r a Hwf Hi). unfold contains_addr. simpl.
      unfold source. simpl. rewrite Hbk, Hsh, Hg, He. pose proof (ok_order r Hok).
      destruct (Z.leb_spec (start r) a), (Z.ltb_spec a new), (Z.leb_spec cur a), (Z.ltb_spec a cur); simpl; try lia; done.
  - rewrite Ho. cbn [negb]. rewrite Z.max_r by lia. eexists _, _. split; [done|].
    destruct (push_ok rs (mkRegion cur new (Z.lor Prot.READ Prot.WRITE) false None None 0) Hwf) as [Hwf' Hv]; [|done|].
    + split; simpl; try done; try lia. split; simpl; [done|]. unfold U64, USER_END, USER_START in *. lia.
    + split; [done|]. intros a. rewrite Hv. unfold contains_addr, source. done.
Qed.

(** ** Checking user ranges *)

Lemma contains_page a r : region_ok r → contains_addr (align_down a) r = contains_addr a r.
Proof using Type.
  intros Hok. destruct (align_down_spec a) as [Hal Hle]. pose proof (ok_start r Hok). pose proof (ok_end r Hok).
  apply eq_bool_prop_intro. rewrite !Is_true_true, !contains_addr_spec. split; intros [H1 H2].
  - split; [lia|]. apply (page_aligned_le (align_down a)) in H2; [lia|done|done].
  - split; [|lia]. destruct (Z.le_gt_cases (start r) (align_down a)) as [|Hgt]; [done|].
    apply page_aligned_le in Hgt; [lia|done|done].
Qed.

Lemma region_at_page rs a : Forall region_ok rs → region_at rs (align_down a) = region_at rs a.
Proof using Type.
  unfold region_at. induction 1 as [|r rs Hr _ IH]; [done|]. simpl. by rewrite contains_page, IH.
Qed.

(** The access asked for is allowed at an address. *)
Definition access (rs : list Region) (write : bool) (a : Z) : bool :=
  match view rs a with
  | Some (p, _, _) => Prot.contains p Prot.READ && (negb write || Prot.contains p Prot.WRITE)
  | None => false
  end.

Lemma verify_pages_spec n rs va w :
  verify_pages n rs va w = true ↔ ∀ i, 0 ≤ i < Z.of_nat n → access rs w (va + i * PAGE_SIZE) = true.
Proof using Type.
  revert va. induction n as [|n IH]; intros va; cbn [verify_pages]; [split; [lia|done]|].
  assert (match region_at rs va with
    | Some r => Prot.contains (prot r) Prot.READ && (negb w || Prot.contains (prot r) Prot.WRITE) && verify_pages n rs (va + PAGE_SIZE) w
    | None => false end = access rs w va && verify_pages n rs (va + PAGE_SIZE) w) as ->.
  { unfold access, view. by destruct (region_at rs va). }
  rewrite andb_true_iff, IH. split.
  - intros [H0 Hn] i Hi. destruct (decide (i = 0)) as [->|]; [by rewrite Z.mul_0_l, Z.add_0_r|].
    specialize (Hn (i - 1)). rewrite <- Hn by lia. f_equal. lia.
  - intros H. split; [rewrite <- (H 0) by lia; f_equal; lia|]. intros i Hi. rewrite <- (H (i + 1)) by lia. f_equal. lia.
Qed.

Lemma verify_spec rs addr len w :
  regions_wf rs → 0 ≤ addr → 0 < len →
  verify rs addr len w = true ↔
  addr + len < U64 ∧ USER_START ≤ addr ∧ addr + len ≤ USER_END ∧
  ∀ a, addr ≤ a < addr + len → access rs w a = true.
Proof using Type.
  intros [Hall _] Ha Hl. unfold verify, checked_add. destruct (Z.ltb_spec (addr + len) U64) as [Hlt|]; [|split; [done|lia]].
  destruct (Z.ltb_spec addr USER_START); simpl; [split; [done|lia]|].
  destruct (Z.ltb_spec USER_END (addr + len)); simpl; [split; [done|lia]|].
  rewrite verify_pages_spec. destruct (align_down_spec addr) as [Hal Hb]. unfold pages_between.
  set (n := (addr + len - align_down addr + PAGE_SIZE - 1) / PAGE_SIZE).
  assert (0 ≤ n) as Hn by (unfold n, PAGE_SIZE in *; apply Z.div_pos; lia). rewrite Z2Nat.id by done.
  assert (∀ a, access rs w (align_down a) = access rs w a) as Hpage.
  { intros a. unfold access, view. rewrite region_at_page by done. by destruct (region_at rs a). }
  assert (align_down addr = addr / PAGE_SIZE * PAGE_SIZE) as EA.
  { rewrite align_down_val. pose proof (Z.div_mod addr PAGE_SIZE). unfold PAGE_SIZE in *. lia. }
  split.
  - intros H'. split_and!; [done|done|done|]. intros a Hra. rewrite <- Hpage.
    assert (align_down a = align_down addr + (a / PAGE_SIZE - addr / PAGE_SIZE) * PAGE_SIZE) as ->.
    { rewrite EA, align_down_val. pose proof (Z.div_mod a PAGE_SIZE). unfold PAGE_SIZE in *. lia. }
    apply H'. pose proof (Z.div_le_mono addr a PAGE_SIZE). pose proof (Z.mul_div_le a PAGE_SIZE).
    split; [unfold PAGE_SIZE in *; lia|]. apply Z.lt_le_trans with (a / PAGE_SIZE - addr / PAGE_SIZE + 1); [lia|].
    apply Z.div_le_lower_bound; unfold PAGE_SIZE in *; lia.
  - intros (_ & _ & _ & H') i Hi. pose proof (Z.mul_div_le (addr + len - align_down addr + PAGE_SIZE - 1) PAGE_SIZE ltac:(done)) as Hmul.
    fold n in Hmul. destruct (decide (i = 0)) as [->|Hi0].
    + rewrite Z.mul_0_l, Z.add_0_r, Hpage. apply H'. lia.
    + apply H'. unfold PAGE_SIZE in *. lia.
Qed.

End Vma.

Arguments FileBacking : clear implicits.
Arguments Region : clear implicits.
Arguments Source : clear implicits.
