(* ===== verification/Frame.v ===== *)
(** * Physical frames

    Models the part of [kernel/src/mm/frame.rs] the address spaces use: single
    frames taken from and returned to the frame allocator, and the reference
    counts of user pages.  The allocator itself is an interface, which the
    buddy allocator implements. *)

From S2P Require Import Prelude Vma.

(** A physical frame's address fits the address bits of a page-table entry. *)
Definition frame_addr (f : Z) : Prop := f mod PAGE_SIZE = 0 ∧ 0 ≤ f < 2 ^ 52.

(** What address spaces need of the frame allocator: one frame at a time. *)
Class FrameAllocator (A : Type) := {
  fa_alloc : Exec A (option Z);
  fa_free : Z → Exec A unit;
}.

(** [fa_rep F U a]: in allocator state [a] the frames [F] are free and the
    frames [U] are allocated one by one. *)
Class FrameAllocatorLaws (A : Type) `{FrameAllocator A} := {
  fa_rep : gset Z → gset Z → A → Prop;
  fa_disjoint F U a : fa_rep F U a → F ## U;
  fa_addr F U a f : fa_rep F U a → f ∈ F ∪ U → frame_addr f;
  fa_alloc_ok F U a :
    fa_rep F U a →
    wp fa_alloc (λ r a',
      match r with
      | Some f => f ∈ F ∧ fa_rep (F ∖ {[f]}) (U ∪ {[f]}) a'
      | None => F = ∅ ∧ fa_rep F U a'
      end) a;
  fa_free_ok F U a f :
    fa_rep F U a → f ∈ U → wp (fa_free f) (λ _ a', fa_rep (F ∪ {[f]}) (U ∖ {[f]}) a') a;
}.

(** What a frame in use holds: a page table (entries not written are 0) or the
    bytes of a user page. *)
Inductive Contents :=
  | Table (es : gmap Z Z)
  | Page (bytes : list Z).

Record Phys (A : Type) := mkPhys {
  allocator : A;
  mem : gmap Z Contents;
  refs : gmap Z Z;
  ref_frames : Z;
}.
Arguments mkPhys {A}.
Arguments allocator {A}.
Arguments mem {A}.
Arguments refs {A}.
Arguments ref_frames {A}.

Section Frame.
Context {A : Type} `{FrameAllocator A}.

Definition with_allocator (a : A) (p : Phys A) : Phys A := mkPhys a (mem p) (refs p) (ref_frames p).
Definition with_mem (m : gmap Z Contents) (p : Phys A) : Phys A := mkPhys (allocator p) m (refs p) (ref_frames p).
Definition with_refs (r : gmap Z Z) (p : Phys A) : Phys A := mkPhys (allocator p) (mem p) r (ref_frames p).

Definition on_allocator {X} (f : Exec A X) : Exec (Phys A) X := λ p,
  '(x, a) ← f (allocator p); Some (x, with_allocator a p).

Definition write_frame (f : Z) (c : Contents) : Exec (Phys A) unit := modify (λ p, with_mem (<[f := c]> (mem p)) p).

Definition alloc : Exec (Phys A) (option Z) := on_allocator fa_alloc.

Definition zero_page : list Z := replicate (Z.to_nat PAGE_SIZE) 0.

(** [alloc_zeroed(0)]; [zero] is the zeroed frame as its user sees it. *)
Definition alloc_zeroed (zero : Contents) : Exec (Phys A) (option Z) :=
  r ← alloc;
  match r with
  | Some f => _ ← write_frame f zero; mret (Some f)
  | None => mret None
  end.

Definition free (f : Z) : Exec (Phys A) unit := on_allocator (fa_free f).

Definition count (p : Phys A) (f : Z) : Z := default 0 (refs p !! f).

(** [ref_slot]'s assertion: the frame lies in RAM. *)
Definition ref_slot (f : Z) : Exec (Phys A) unit :=
  p ← get;
  if f / PAGE_SIZE <? ref_frames p then mret tt else panic.

Definition set_count (f n : Z) : Exec (Phys A) unit := modify (λ p, with_refs (<[f := n]> (refs p)) p).

Definition U16 : Z := 2 ^ 16.

Definition alloc_user_page : Exec (Phys A) (option Z) :=
  r ← alloc_zeroed (Page zero_page);
  match r with
  | Some f => _ ← ref_slot f; _ ← set_count f 1; mret (Some f)
  | None => mret None
  end.

Definition page_get (f : Z) : Exec (Phys A) unit :=
  _ ← ref_slot f;
  old ← gets (λ p, count p f);
  _ ← set_count f ((old + 1) mod U16);
  if negb (old =? 0) && negb (old =? U16 - 1) then mret tt else panic.

Definition page_put (f : Z) : Exec (Phys A) unit :=
  _ ← ref_slot f;
  old ← gets (λ p, count p f);
  _ ← set_count f ((old - 1) mod U16);
  if old =? 0 then panic
  else if old =? 1 then free f else mret tt.

Definition page_count (f : Z) : Exec (Phys A) Z := _ ← ref_slot f; gets (λ p, count p f).
End Frame.
