(* ===== verification/FrameBuddy.v ===== *)
(** * The buddy allocator as the frame allocator

    [kernel/src/mm/frame.rs] hands single frames out of one [Buddy].  This
    file implements the interface of [Frame] with the model of [buddy.rs] and
    discharges its laws with the allocator's refinement theorem's lemmas. *)

From S2P Require Import Prelude Vma Frame BuddyModel BuddyList BuddyInv BuddyOps BuddyAlloc BuddyRange BuddySpec.

(** [frame::alloc(0)] and [frame::free(p, 0)]. *)
Definition buddy_frame_alloc : Exec Buddy.t (option Z) :=
  r ← Buddy.alloc 0;
  match r with
  | Some idx => p ← need (mul64 idx PAGE_SIZE); mret (Some p)
  | None => mret None
  end.

Definition buddy_frame_free (p : Z) : Exec Buddy.t unit :=
  r ← Buddy.free (p / PAGE_SIZE) 0;
  match r with inr _ => mret tt | inl _ => panic end.

#[export] Instance buddy_frames : FrameAllocator Buddy.t := {
  fa_alloc := buddy_frame_alloc;
  fa_free := buddy_frame_free;
}.

Definition frame_of (i : Z) : Z := i * PAGE_SIZE.

#[export] Instance frame_of_inj : Inj (=) (=) frame_of.
Proof. intros i j. unfold frame_of, PAGE_SIZE. lia. Qed.

(** [F] are the addresses of all free frames, [U] of frames allocated singly. *)
Definition buddy_rep (F U : gset Z) (b : Buddy.t) : Prop :=
  ∃ l, refines l b ∧ l_frames l ≤ 2 ^ 40 ∧ F = set_map frame_of (l_free l) ∧
    ∀ f, f ∈ U → ∃ i, f = frame_of i ∧ l_used l !! i = Some 0%nat.

Lemma brange_0 i : brange i 0 = {[i]}.
Proof.
  apply set_eq. intros j. rewrite elem_of_brange, elem_of_singleton. change (Buddy.block 0) with 1. lia.
Qed.

Lemma ledger_index l b i : refines l b → i ∈ l_free l ∨ is_Some (l_used l !! i) → 0 ≤ i < l_frames l.
Proof.
  intros Hl Hi. pose proof (ledger_shape l b Hl) as Hsh. rewrite (rf_frames _ _ Hl). destruct Hi as [Hi|[o Ho]].
  - apply (co_free _ _ _ (inv_core _ _ (rf_inv _ _ Hl))) in Hi as (i' & o' & Ho' & _ & Hi' & Hr).
    destruct (sh_block _ _ Hsh i' _ o' ltac:(set_solver) Hi') as (_ & Hb & _); [split; auto|].
    pose proof (shape_lookup_range Hsh _ _ Hi'). lia.
  - destruct (used_is_tag l b Hl i o Ho) as [Hs _]. exact (shape_lookup_range Hsh _ _ Hs).
Qed.

Lemma frame_of_addr i n : 0 ≤ i < n → n ≤ 2 ^ 40 → frame_addr (frame_of i).
Proof.
  intros Hi Hn. unfold frame_addr, frame_of. split; [apply Z.mod_mul; done|]. unfold PAGE_SIZE. lia.
Qed.

Lemma frames_take (X : gset Z) i :
  (set_map frame_of (X ∖ {[i]}) : gset Z) = set_map frame_of X ∖ {[frame_of i]}.
Proof.
  apply set_eq. intros f. rewrite elem_of_difference, elem_of_singleton, !elem_of_map. split.
  - intros (j & -> & Hj). split; [set_solver +Hj|]. intros <-%(inj frame_of). set_solver +Hj.
  - intros [(j & -> & Hj) Hne]. exists j. split; [done|]. apply elem_of_difference. split; [done|].
    intros ->%elem_of_singleton. done.
Qed.

Lemma buddy_rep_disjoint F U b : buddy_rep F U b → F ## U.
Proof.
  intros (l & Hl & _ & -> & HU) f (i & -> & Hi)%elem_of_map (j & Hj & Hu)%HU.
  apply (inj frame_of) in Hj as <-. apply (used_free_disjoint l b Hl i 0 Hu i); [|done].
  rewrite brange_0. set_solver.
Qed.

Lemma buddy_rep_addr F U b f : buddy_rep F U b → f ∈ F ∪ U → frame_addr f.
Proof.
  intros (l & Hl & Hn & -> & HU) [(i & -> & Hi)%elem_of_map|(i & -> & Hu)%HU]%elem_of_union;
    (eapply frame_of_addr; [eapply ledger_index; [done|]|done]); eauto.
Qed.

Lemma wp_buddy_frame_alloc F U b :
  buddy_rep F U b →
  wp buddy_frame_alloc (λ r b',
    match r with
    | Some f => f ∈ F ∧ buddy_rep (F ∖ {[f]}) (U ∪ {[f]}) b'
    | None => F = ∅ ∧ buddy_rep F U b'
    end) b.
Proof.
  intros (l & Hl & Hn & -> & HU). unfold buddy_frame_alloc. wp_steps.
  eapply wp_mono; [apply (wp_alloc _ _ 0 (rf_inv _ _ Hl))|]. intros [i|] b' Hpost.
  + pose proof Hpost as (_ & _ & _ & HF & _). rewrite brange_0 in HF.
    assert (i ∈ l_free l) as Hi by set_solver +HF. pose proof (ledger_index l b i Hl (or_introl Hi)) as Hr.
    wp_steps. rewrite mul64_ok by (unfold U64, PAGE_SIZE; lia). wp_steps. fold (frame_of i).
    split; [by apply elem_of_map_2|]. pose proof (refines_alloc l b b' i 0 Hl Hpost) as Hl'. rewrite brange_0 in Hl'.
    eexists. split; [exact Hl'|]. simpl. split; [done|]. split; [by rewrite frames_take|].
    intros f [(j & -> & Hj)%HU| ->%elem_of_singleton]%elem_of_union.
    * exists j. split; [done|]. rewrite lookup_insert_ne; [done|]. intros <-.
      apply (used_free_disjoint l b Hl i 0 Hj i); [rewrite brange_0; set_solver +|done].
    * exists i. by rewrite lookup_insert_eq.
  + destruct Hpost as [-> Hno]. wp_steps. split; [|by exists l].
    apply set_eq. intros f. split; [|set_solver +]. intros (i & -> & Hi)%elem_of_map. exfalso.
    pose proof (ledger_index l b i Hl (or_introl Hi)). apply (Hno i); [lia|lia|apply Z.divide_1_l|].
    rewrite brange_0. set_solver +Hi.
Qed.

Lemma wp_buddy_frame_free F U b f :
  buddy_rep F U b → f ∈ U → wp (buddy_frame_free f) (λ _ b', buddy_rep (F ∪ {[f]}) (U ∖ {[f]}) b') b.
Proof.
  intros (l & Hl & Hn & -> & HU) Hf. destruct (HU f Hf) as (i & -> & Hu).
  pose proof (ledger_index l b i Hl (or_intror (mk_is_Some _ _ Hu))) as Hr.
  unfold buddy_frame_free, frame_of at 1. rewrite Z.div_mul by done. wp_steps.
  eapply wp_mono; [apply (wp_free _ _ i 0 (rf_inv _ _ Hl)); lia|].
  pose proof (proj1 (rf_used _ _ Hl i 0%nat) Hu) as [_ Hs].
  intros [[| |o]|[]] b' Hpost; simpl in Hpost.
  + rewrite <- (rf_frames _ _ Hl) in Hpost. lia.
  + destruct Hpost as (_ & _ & Hno). exfalso. apply (Hno 0%nat); [unfold Buddy.MAX_ORDER; lia|done].
  + destruct Hpost as (_ & Ho & Hs' & Hne). exfalso. apply Hne.
    assert (l_used l !! i = Some o) as Hu' by (apply (rf_used _ _ Hl); by split). congruence.
  + wp_steps. pose proof (refines_free l b b' i 0 Hl Hpost) as Hl'. rewrite brange_0 in Hl'.
    eexists. split; [exact Hl'|]. simpl. split; [done|]. split; [by rewrite set_map_union_L, set_map_singleton_L|].
    intros f [(j & -> & Hj)%HU Hne]%elem_of_difference. exists j. split; [done|].
    rewrite lookup_delete_ne; [done|]. intros <-. set_solver +Hne.
Qed.

#[export] Instance buddy_frames_laws : FrameAllocatorLaws Buddy.t := {
  fa_rep := buddy_rep;
  fa_disjoint := buddy_rep_disjoint;
  fa_addr := buddy_rep_addr;
  fa_alloc_ok := wp_buddy_frame_alloc;
  fa_free_ok := wp_buddy_frame_free;
}.
