(* ===== verification/Paging.v ===== *)
(** * Page tables

    Models [kernel/src/arch/x86_64/paging.rs]: the four-level tables in
    physical memory, the walk that creates the missing levels, and mapping,
    unmapping and translating 4 KiB pages; with the teardown of the lower half
    from [kernel/src/mm/aspace.rs].  The proofs are in [PagingProofs]. *)

From S2P Require Import Prelude Vma Frame.

Definition PRESENT : Z := 2 ^ 0.
Definition WRITABLE : Z := 2 ^ 1.
Definition USER : Z := 2 ^ 2.
Definition ACCESSED : Z := 2 ^ 5.
Definition DIRTY : Z := 2 ^ 6.
Definition HUGE : Z := 2 ^ 7.
Definition COW : Z := 2 ^ 9.
Definition NO_EXECUTE : Z := 2 ^ 63.

Definition ADDR_MASK : Z := 0x000FFFFFFFFFF000.

Inductive MapError :=
  | OutOfMemory
  | AlreadyMapped
  | HugePageInTheWay.

Definition index (virt : Z) (level : nat) : Z := Z.land (Z.shiftr virt (12 + 9 * Z.of_nat level)) 0x1FF.

Definition has (e flag : Z) : bool := negb (Z.land e flag =? 0).

Definition entry_addr (e : Z) : Z := Z.land e ADDR_MASK.

Section Paging.
Context {A : Type} `{FrameAllocator A}.

(** [table]: the frame must hold a table. *)
Definition table (p : Phys A) (t : Z) : option (gmap Z Z) :=
  match mem p !! t with Some (Table es) => Some es | _ => None end.

(** The entry a pointer [(t, i)] points to. *)
Definition read_entry (ptr : Z * Z) : Exec (Phys A) Z :=
  p ← get;
  es ← need (table p ptr.1);
  mret (default 0 (es !! ptr.2)).

Definition write_entry (ptr : Z * Z) (e : Z) : Exec (Phys A) unit :=
  p ← get;
  es ← need (table p ptr.1);
  write_frame ptr.1 (Table (<[ptr.2 := e]> es)).

Definition alloc_table : Exec (Phys A) (option Z) := alloc_zeroed (Table ∅).

(** The loop of [walk] over the levels [level .. 1]. *)
Fixpoint walk_level (level : nat) (t virt : Z) (create : bool) : Exec (Phys A) (MapError + option (Z * Z)) :=
  match level with
  | O => mret (inr (Some (t, index virt 0)))
  | S level' =>
      e ← read_entry (t, index virt level);
      if negb (has e PRESENT) then
        if negb create then mret (inr None)
        else
          r ← alloc_table;
          match r with
          | None => mret (inl OutOfMemory)
          | Some new =>
              let user := if virt <? 0x800000000000 then USER else 0 in
              let e := Z.lor (Z.lor (Z.lor new PRESENT) WRITABLE) user in
              _ ← write_entry (t, index virt level) e;
              walk_level level' (entry_addr e) virt create
          end
      else if has e HUGE then mret (inl HugePageInTheWay)
      else walk_level level' (entry_addr e) virt create
  end.

Definition walk (root virt : Z) (create : bool) : Exec (Phys A) (MapError + option (Z * Z)) :=
  walk_level 3 root virt create.

Definition map_4k (root virt phys fl : Z) : Exec (Phys A) (MapError + unit) :=
  r ←? walk root virt true;
  ptr ← need r;
  e ← read_entry ptr;
  if has e PRESENT then mret (inl AlreadyMapped)
  else _ ← write_entry ptr (Z.lor (Z.lor (Z.land phys ADDR_MASK) fl) PRESENT); mret (inr tt).

(** The loop of [map_2m] over the levels [3 .. 2]. *)
Fixpoint walk_2m (n : nat) (t virt : Z) : Exec (Phys A) (MapError + Z) :=
  match n with
  | O => mret (inr t)
  | S n' =>
      let level := S n in
      e ← read_entry (t, index virt level);
      if negb (has e PRESENT) then
        r ← alloc_table;
        match r with
        | None => mret (inl OutOfMemory)
        | Some new =>
            let e := Z.lor (Z.lor new PRESENT) WRITABLE in
            _ ← write_entry (t, index virt level) e;
            walk_2m n' (entry_addr e) virt
        end
      else walk_2m n' (entry_addr e) virt
  end.

Definition map_2m (root virt phys fl : Z) : Exec (Phys A) (MapError + unit) :=
  t ←? walk_2m 2 root virt;
  e ← read_entry (t, index virt 1);
  if has e PRESENT then mret (inl AlreadyMapped)
  else
    _ ← write_entry (t, index virt 1) (Z.lor (Z.lor (Z.lor (Z.land phys ADDR_MASK) fl) PRESENT) HUGE);
    mret (inr tt).

(** [Ok] and [Some], or nothing. *)
Definition leaf_entry (root virt : Z) : Exec (Phys A) (option (Z * Z)) :=
  r ← walk root virt false;
  mret (match r with inr o => o | inl _ => None end).

Definition unmap_4k (root virt : Z) : Exec (Phys A) (option (Z * Z)) :=
  r ← leaf_entry root virt;
  match r with
  | None => mret None
  | Some ptr =>
      old ← read_entry ptr;
      if negb (has old PRESENT) then mret None
      else _ ← write_entry ptr 0; mret (Some (entry_addr old, Z.ldiff old ADDR_MASK))
  end.

Definition update_flags (root virt set clear : Z) : Exec (Phys A) bool :=
  r ← leaf_entry root virt;
  match r with
  | None => mret false
  | Some ptr =>
      e ← read_entry ptr;
      if has e PRESENT then _ ← write_entry ptr (Z.ldiff (Z.lor e set) clear); mret true
      else mret false
  end.

(** [translate], over the levels [level .. 0]. *)
Fixpoint translate_level (level : nat) (t virt : Z) : Exec (Phys A) (option (Z * Z)) :=
  e ← read_entry (t, index virt level);
  if negb (has e PRESENT) then mret None
  else match level with
  | O => mret (Some (entry_addr e + Z.land virt 0xFFF, Z.ldiff e ADDR_MASK))
  | S level' =>
      if (level =? 1)%nat && has e HUGE then
        mret (Some (Z.land e 0x000FFFFFFFE00000 + Z.land virt 0x1FFFFF, Z.ldiff e ADDR_MASK))
      else translate_level level' (entry_addr e) virt
  end.

Definition translate (root virt : Z) : Exec (Phys A) (option (Z * Z)) := translate_level 3 root virt.

(** ** Teardown *)

Fixpoint seq_M {X} (f : X → Exec (Phys A) unit) (l : list X) : Exec (Phys A) unit :=
  match l with
  | [] => mret tt
  | x :: l' => _ ← f x; seq_M f l'
  end.

(** The entries of a table, in order. *)
Definition entries (es : gmap Z Z) (n : Z) : list Z := (λ i, default 0 (es !! i)) <$> seqZ 0 n.

Fixpoint free_table (level : nat) (phys : Z) : Exec (Phys A) unit :=
  match level with
  | O | S O => free phys
  | S level' =>
      p ← get;
      es ← need (table p phys);
      _ ← seq_M (λ e,
            if has e PRESENT && negb (has e HUGE) then free_table level' (entry_addr e) else mret tt)
          (entries es 512);
      free phys
  end.

Definition free_lower_tables (pml4 : Z) : Exec (Phys A) unit :=
  p ← get;
  es ← need (table p pml4);
  seq_M (λ e, if has e PRESENT then free_table 3 (entry_addr e) else mret tt) (entries es 256).
End Paging.
