(* ===== verification/PagingProofs.v ===== *)
(** * Page tables are finite maps

    The tables of every address space form a tree of their own: [pt_wf]
    records, as a ghost map, the root, level and address prefix each table
    frame serves.  Walking, mapping and unmapping then act on one leaf. *)

From S2P Require Import Prelude UAccess BuddyModel BuddySpec Vma Frame FrameBuddy Paging.

(** ** Indices and prefixes *)

(** The address bits above the reach of a level. *)
Definition prefix (virt : Z) (level : nat) : Z := Z.shiftr virt (12 + 9 * Z.of_nat level).

Lemma index_val virt l : index virt l = prefix virt l mod 512.
Proof. unfold index, prefix. change 0x1FF with (Z.ones 9). by rewrite Z.land_ones. Qed.

Lemma index_range virt l : 0 ≤ index virt l < 512.
Proof. rewrite index_val. by apply Z.mod_pos_bound. Qed.

Lemma prefix_div virt l : prefix virt (S l) = prefix virt l / 512.
Proof.
  unfold prefix. rewrite Nat2Z.inj_succ. change 512 with (2 ^ 9). rewrite <- (Z.shiftr_div_pow2 _ 9) by done.
  rewrite Z.shiftr_shiftr by lia. f_equal. lia.
Qed.

Lemma prefix_split virt l : prefix virt l = prefix virt (S l) * 512 + index virt l.
Proof. rewrite prefix_div, index_val. pose proof (Z.div_mod (prefix virt l) 512). lia. Qed.

Definition user_va (va : Z) : Prop := 0 ≤ va < 2 ^ 47.

Lemma prefix_user va : user_va va → prefix va 4 = 0.
Proof.
  unfold user_va, prefix. intros. rewrite Z.shiftr_div_pow2 by lia. apply Z.div_small.
  change (2 ^ (12 + 9 * Z.of_nat 4)) with (2 ^ 48). lia.
Qed.

Lemma index_user va : user_va va → index va 3 < 256.
Proof.
  intros Hva. rewrite index_val. unfold prefix, user_va in *. rewrite Z.shiftr_div_pow2 by lia.
  change (2 ^ (12 + 9 * Z.of_nat 3)) with (2 ^ 39).
  assert (0 ≤ va / 2 ^ 39 < 256) by (split; [apply Z.div_pos; lia|apply Z.div_lt_upper_bound; lia]).
  rewrite Z.mod_small; lia.
Qed.

(** A page is its leaf table's prefix and its index there. *)
Lemma same_page va va' :
  prefix va 1 = prefix va' 1 → index va 0 = index va' 0 → align_down va = align_down va'.
Proof.
  intros H1 H2. assert (prefix va 0 = prefix va' 0) as H0 by (rewrite !(prefix_split _ 0); congruence).
  unfold prefix in H0. rewrite !Z.shiftr_div_pow2 in H0 by lia. change (2 ^ (12 + 9 * Z.of_nat 0)) with PAGE_SIZE in H0.
  rewrite !align_down_val. pose proof (Z.div_mod va PAGE_SIZE). pose proof (Z.div_mod va' PAGE_SIZE).
  unfold PAGE_SIZE in *. lia.
Qed.

Lemma same_page_iff va va' :
  align_down va = align_down va' ↔ prefix va 1 = prefix va' 1 ∧ index va 0 = index va' 0.
Proof.
  split; [|by intros []; apply same_page]. rewrite !align_down_val. intros Hal.
  assert (prefix va 0 = prefix va' 0) as H0.
  { unfold prefix. rewrite !Z.shiftr_div_pow2 by lia. change (2 ^ (12 + 9 * Z.of_nat 0)) with PAGE_SIZE.
    pose proof (Z.div_mod va PAGE_SIZE). pose proof (Z.div_mod va' PAGE_SIZE). unfold PAGE_SIZE in *. lia. }
  by rewrite !index_val, !(prefix_div _ 0), H0.
Qed.

(** ** Bits of entries *)

Lemma frame_addr_bits f n : frame_addr f → (n < 12 ∨ 52 ≤ n) → Z.testbit f n = false.
Proof.
  intros [Hm Hr] Hn. destruct (decide (n < 0)); [by rewrite Z.testbit_neg_r|].
  destruct (decide (n < 12)) as [Hlt|].
  - apply Z.div_exact in Hm; [|done]. rewrite Hm. change PAGE_SIZE with (2 ^ 12).
    rewrite Z.mul_comm, <- Z.shiftl_mul_pow2, Z.shiftl_spec_low; done.
  - rewrite <- (Z.mod_small f (2 ^ 52)) by lia. by rewrite Z.mod_pow2_bits_high by lia.
Qed.

Lemma mask_bits n : 0 ≤ n → Z.testbit ADDR_MASK n = bool_decide (12 ≤ n < 52).
Proof.
  intros Hn. change ADDR_MASK with (Z.shiftl (Z.ones 40) 12). rewrite Z.shiftl_spec by done.
  destruct (decide (n < 12)); [rewrite Z.testbit_neg_r by lia; symmetry; apply bool_decide_eq_false; lia|].
  rewrite Z.testbit_ones by lia. case_bool_decide.
  - apply andb_true_iff. rewrite Z.leb_le, Z.ltb_lt. lia.
  - apply andb_false_iff. rewrite Z.leb_gt, Z.ltb_ge. lia.
Qed.

(** An entry made of a frame and flags gives both back. *)
Lemma entry_addr_make f fl : frame_addr f → Z.land fl ADDR_MASK = 0 → entry_addr (Z.lor f fl) = f.
Proof.
  intros Hf Hfl. unfold entry_addr. rewrite Z.land_lor_distr_l, Hfl, Z.lor_0_r.
  apply Z.bits_inj'. intros n Hn. rewrite Z.land_spec, mask_bits by done. case_bool_decide.
  - by rewrite andb_true_r.
  - rewrite andb_false_r. symmetry. apply frame_addr_bits; [done|lia].
Qed.

Lemma land_frame_flag f fl : frame_addr f → Z.land fl ADDR_MASK = 0 → 0 ≤ fl → Z.land f fl = 0.
Proof.
  intros Hf Hfl H0. apply Z.bits_inj'. intros n Hn. rewrite Z.land_spec, Z.bits_0.
  assert (Z.testbit (Z.land fl ADDR_MASK) n = false) as Hb by (by rewrite Hfl, Z.bits_0).
  rewrite Z.land_spec, mask_bits in Hb by done. case_bool_decide.
  - rewrite andb_true_r in Hb. by rewrite Hb, andb_false_r.
  - rewrite (frame_addr_bits f n Hf) by lia. done.
Qed.

Lemma has_make f fl flag :
  frame_addr f → Z.land flag ADDR_MASK = 0 → 0 ≤ flag → has (Z.lor f fl) flag = has fl flag.
Proof. intros Hf Hm H0. unfold has. by rewrite Z.land_lor_distr_l, (land_frame_flag f flag Hf Hm H0). Qed.

Section PagingProofs.
Context {A : Type} `{FrameAllocatorLaws A}.
Implicit Types (p : Phys A) (own : gmap Z (Z * nat * Z)).

(** ** The trees

    [own !! t = Some (root, level, pfx)]: frame [t] is the table of level
    [level] (3 for the PML4) under [root] for the addresses with prefix [pfx]. *)

Definition limit (level : nat) : Z := if (level =? 3)%nat then 256 else 512.

Record pt_wf own p : Prop := {
  wf_table t x : own !! t = Some x → is_Some (table p t);
  wf_level t root l pfx : own !! t = Some (root, l, pfx) → (l ≤ 3)%nat;
  wf_root t root pfx : own !! t = Some (root, 3%nat, pfx) → t = root ∧ pfx = 0;
  wf_child t root l pfx es i e :
    own !! t = Some (root, S l, pfx) → table p t = Some es → es !! i = Some e →
    0 ≤ i < limit (S l) → has e PRESENT = true →
    has e HUGE = false ∧ own !! entry_addr e = Some (root, l, pfx * 512 + i);
  wf_parent t root l pfx :
    own !! t = Some (root, l, pfx) → (l < 3)%nat →
    ∃ t' es e, own !! t' = Some (root, S l, pfx / 512) ∧ table p t' = Some es ∧
      es !! (pfx mod 512) = Some e ∧ has e PRESENT = true ∧ entry_addr e = t ∧
      pfx mod 512 < limit (S l);
  wf_inj t t' x : own !! t = Some x → own !! t' = Some x → t = t';
}.

Lemma pt_wf_mem own p p' : mem p' = mem p → pt_wf own p → pt_wf own p'.
Proof using Type.
  intros E Hwf. assert (∀ t, table p' t = table p t) as Et by (intros t; unfold table; by rewrite E).
  destruct Hwf as [Wa Wb Wc Wd We Wf]. split; try done.
  - intros t x Ht. rewrite Et. by eapply Wa.
  - intros t root l pfx es i e Ho Ht. rewrite Et in Ht. by eapply Wd.
  - intros t root l pfx Ho Hl. setoid_rewrite Et. by eapply We.
Qed.

Lemma limit_index va l : user_va va → 0 ≤ index va l < limit l.
Proof using Type.
  intros Hva. unfold limit. destruct (Nat.eqb_spec l 3) as [->|].
  - pose proof (index_range va 3). pose proof (index_user va Hva). lia.
  - apply index_range.
Qed.

(** ** Looking a page up *)

Lemma read_entry_ok p t i es Q :
  table p t = Some es → Q (default 0 (es !! i)) p → wp (read_entry (t, i)) Q p.
Proof using Type. intros Ht HQ. unfold read_entry. wp_steps. simpl. by rewrite Ht. Qed.

(** The table below a leaf table's ancestor exists, so its entry is present. *)
Lemma ancestor own p root va t l :
  pt_wf own p → own !! t = Some (root, 0%nat, prefix va 1) → (l ≤ 3)%nat →
  ∃ t', own !! t' = Some (root, l, prefix va (S l)).
Proof using Type.
  intros Hwf Ht. induction l as [|l IH]; intros Hl; [by exists t|].
  destruct IH as [t' Ht']; [lia|]. destruct (wf_parent _ _ Hwf _ _ _ _ Ht') as (t'' & es & e & Ht'' & _); [lia|].
  exists t''. by rewrite (prefix_div va (S l)).
Qed.

Lemma absent_none own p root va t l es t' :
  pt_wf own p → (S l ≤ 3)%nat → own !! t = Some (root, S l, prefix va (S (S l))) → table p t = Some es →
  has (default 0 (es !! index va (S l))) PRESENT = false →
  own !! t' ≠ Some (root, l, prefix va (S l)).
Proof using Type.
  intros Hwf Hl Ht Hes Hno Ht'.
  destruct (wf_parent _ _ Hwf _ _ _ _ Ht') as (t'' & es' & e & Ht'' & Hes' & He & Hp & _ & _); [lia|].
  rewrite <- prefix_div in Ht''. assert (t'' = t) as -> by (by eapply wf_inj).
  rewrite Hes in Hes'. simplify_eq. rewrite <- index_val in He. rewrite He in Hno. simpl in Hno. congruence.
Qed.

(** Walking without creating finds the leaf table when there is one. *)
Lemma walk_find own p root va t l :
  pt_wf own p → user_va va → own !! t = Some (root, l, prefix va (S l)) →
  ∃ o, walk_level l t va false p = Some (inr o, p) ∧
    match o with
    | Some ptr => ptr.2 = index va 0 ∧ own !! ptr.1 = Some (root, 0%nat, prefix va 1)
    | None => ∀ t', own !! t' ≠ Some (root, 0%nat, prefix va 1)
    end.
Proof using Type.
  intros Hwf Hva. revert t. induction l as [|l IH]; intros t Ht.
  { by exists (Some (t, index va 0)). }
  destruct (wf_table _ _ Hwf _ _ Ht) as [es Hes]. pose proof (wf_level _ _ Hwf _ _ _ _ Ht) as Hl.
  cbn [walk_level]. unfold read_entry, mbind, exec_bind, get, need. cbn [fst snd]. rewrite Hes. cbn [mret exec_ret].
  unfold mret, exec_ret. destruct (has (default 0 (es !! index va (S l))) PRESENT) eqn:Hp; cbn [negb].
  - destruct (es !! index va (S l)) as [e|] eqn:He; simpl in *; [|done].
    destruct (wf_child _ _ Hwf _ _ _ _ _ _ _ Ht Hes He (limit_index va (S l) Hva) Hp) as [-> Hc].
    apply IH. by rewrite Hc, <- prefix_split.
  - exists None. split; [done|]. intros t' Ht'.
    destruct (ancestor own p root va t' l Hwf Ht') as [t'' Ht'']; [lia|].
    by eapply absent_none in Ht''.
Qed.

Definition root_ok own (root : Z) : Prop := own !! root = Some (root, 3%nat, 0).

Lemma root_prefix own root va : user_va va → root_ok own root → own !! root = Some (root, 3%nat, prefix va 4).
Proof using Type. intros Hva Hr. by rewrite (prefix_user va Hva). Qed.

(** The leaf entry of a page: 0 when a level is missing. *)
Definition pte p (root va : Z) : Z :=
  match leaf_entry root va p with
  | Some (Some ptr, _) => match table p ptr.1 with Some es => default 0 (es !! ptr.2) | None => 0 end
  | _ => 0
  end.

Lemma leaf_entry_ok own p root va :
  pt_wf own p → user_va va → root_ok own root →
  ∃ o, leaf_entry root va p = Some (o, p) ∧
    match o with
    | Some ptr => ptr.2 = index va 0 ∧ own !! ptr.1 = Some (root, 0%nat, prefix va 1) ∧
        ∃ es, table p ptr.1 = Some es ∧ pte p root va = default 0 (es !! ptr.2)
    | None => pte p root va = 0 ∧ ∀ t', own !! t' ≠ Some (root, 0%nat, prefix va 1)
    end.
Proof using Type.
  intros Hwf Hva Hr. apply (root_prefix own root va Hva) in Hr.
  destruct (walk_find own p root va root 3 Hwf Hva Hr) as (o & Hw & Ho). exists o.
  assert (leaf_entry root va p = Some (o, p)) as E.
  { unfold leaf_entry, mbind, exec_bind, walk. by rewrite Hw. }
  split; [done|]. unfold pte. rewrite E. destruct o as [ptr|]; [|done]. destruct Ho as [Hi Ho].
  split; [done|]. split; [done|]. destruct (wf_table _ _ Hwf _ _ Ho) as [es Hes]. exists es. by rewrite Hes.
Qed.

(** The leaf entry read off the ghost map. *)
Lemma pte_own own p root va t es :
  pt_wf own p → user_va va → root_ok own root →
  own !! t = Some (root, 0%nat, prefix va 1) → table p t = Some es →
  pte p root va = default 0 (es !! index va 0).
Proof using Type.
  intros Hwf Hva Hr Ht Hes. destruct (leaf_entry_ok own p root va Hwf Hva Hr) as (o & _ & Ho).
  destruct o as [[t' i]|]; [|by destruct Ho as [_ []%(λ f, f t)]]. simpl in Ho.
  destruct Ho as (-> & Ht' & es' & Hes' & ->). assert (t' = t) as -> by (by eapply wf_inj). congruence.
Qed.

Lemma pte_missing own p root va :
  pt_wf own p → user_va va → root_ok own root →
  (∀ t, own !! t ≠ Some (root, 0%nat, prefix va 1)) → pte p root va = 0.
Proof using Type.
  intros Hwf Hva Hr Hno. destruct (leaf_entry_ok own p root va Hwf Hva Hr) as (o & _ & Ho).
  destruct o as [[t' i]|]; [|by destruct Ho]. by destruct Ho as (_ & []%Hno & _).
Qed.

(** ** Adding a table *)

Lemma table_insert p p' t c : mem p' = <[t := c]> (mem p) →
  table p' t = (match c with Table es => Some es | Page _ => None end) ∧
  ∀ t', t' ≠ t → table p' t' = table p t'.
Proof using Type.
  intros E. unfold table. rewrite E. split; [by rewrite lookup_insert_eq; destruct c|].
  intros t' Hne. by rewrite lookup_insert_ne.
Qed.

Lemma no_child own p root l pfx t es i t' :
  pt_wf own p → own !! t = Some (root, S l, pfx) → table p t = Some es → 0 ≤ i < limit (S l) →
  has (default 0 (es !! i)) PRESENT = false → own !! t' ≠ Some (root, l, pfx * 512 + i).
Proof using Type.
  intros Hwf Ht Hes Hi Hno Ht'. pose proof (wf_level _ _ Hwf _ _ _ _ Ht).
  destruct (wf_parent _ _ Hwf _ _ _ _ Ht') as (t'' & es' & e & Ht'' & Hes' & He & Hp & _ & _); [lia|].
  assert (i < 512) by (unfold limit in Hi; destruct (_ =? _)%nat; lia).
  rewrite Z.div_add_l, (Z.div_small i), Z.add_0_r in Ht'' by lia. assert (t'' = t) as -> by (by eapply wf_inj).
  rewrite Z.add_comm, Z.mod_add, Z.mod_small in He by lia. simplify_eq. rewrite He in Hno. simpl in Hno. congruence.
Qed.

Lemma add_table_wf own p p' root l pfx t es i f e :
  pt_wf own p → own !! t = Some (root, S l, pfx) → table p t = Some es → 0 ≤ i < limit (S l) →
  has (default 0 (es !! i)) PRESENT = false → own !! f = None →
  entry_addr e = f → has e PRESENT = true → has e HUGE = false →
  mem p' = <[t := Table (<[i := e]> es)]> (<[f := Table ∅]> (mem p)) →
  pt_wf (<[f := (root, l, pfx * 512 + i)]> own) p'.
Proof using Type.
  intros Hwf Ht Hes Hi Hno Hf He Hp Hh Em.
  assert (f ≠ t) as Hft by congruence. pose proof (wf_level _ _ Hwf _ _ _ _ Ht) as Hl.
  assert (table p' t = Some (<[i := e]> es)) as Tt by (unfold table; by rewrite Em, lookup_insert_eq).
  assert (table p' f = Some ∅) as Tf by (unfold table; by rewrite Em, lookup_insert_ne, lookup_insert_eq).
  assert (∀ t', t' ≠ t → t' ≠ f → table p' t' = table p t') as To.
  { intros t' ? ?. unfold table. by rewrite Em, !lookup_insert_ne. }
  pose proof (no_child own p root l pfx t es i) as Hnc.
  split.
  - intros t' x [[<- _]|[? Ht']]%lookup_insert_Some; [eauto|]. destruct (decide (t' = t)) as [->|]; [eauto|].
    rewrite To by done. by eapply wf_table.
  - intros t' root' l' pfx' [[_ [= _ <- _]]|[? Ht']]%lookup_insert_Some; [lia|]. by eapply wf_level.
  - intros t' root' pfx' [[_ [= _ -> _]]|[? Ht']]%lookup_insert_Some; [lia|]. by eapply wf_root.
  - intros t' root' l' pfx' es' i' e' [[<- [= <- -> <-]]|[? Ht']]%lookup_insert_Some Hes' He' Hi' Hp'.
    { rewrite Tf in Hes'. simplify_eq. }
    destruct (decide (t' = t)) as [->|Hne].
    + rewrite Tt in Hes'. simplify_eq. apply lookup_insert_Some in He' as [[-> ->]|[Hne He']].
      * split; [done|]. by rewrite lookup_insert_eq.
      * destruct (wf_child _ _ Hwf _ _ _ _ _ _ _ Ht Hes He' Hi' Hp') as [? Ho]. split; [done|].
        rewrite lookup_insert_ne; [done|congruence].
    + rewrite To in Hes' by done. destruct (wf_child _ _ Hwf _ _ _ _ _ _ _ Ht' Hes' He' Hi' Hp') as [? Ho].
      split; [done|]. rewrite lookup_insert_ne; [done|congruence].
  - intros t' root' l' pfx' [[<- [= <- <- <-]]|[Hne Ht']]%lookup_insert_Some Hl'.
    + exists t, (<[i := e]> es), e. assert (i < 512) by (unfold limit in Hi; destruct (_ =? _)%nat; lia).
      rewrite Z.div_add_l, (Z.div_small i), Z.add_0_r by lia. rewrite (Z.add_comm (pfx * 512)), Z.mod_add, Z.mod_small by lia.
      rewrite lookup_insert_ne by done. split_and!; try done; [by rewrite lookup_insert_eq|lia].
    + destruct (wf_parent _ _ Hwf _ _ _ _ Ht' Hl') as (t'' & es' & e' & Ho & Hes' & He' & Hp' & Ha' & Hlim).
      assert (t'' ≠ f) by congruence. destruct (decide (t'' = t)) as [->|].
      * rewrite Hes in Hes'. simplify_eq. exists t, (<[i := e]> es'), e'.
        rewrite lookup_insert_ne by done. split_and!; try done. rewrite lookup_insert_ne; [done|].
        intros Ei. rewrite Ei, He' in Hno. simpl in Hno. congruence.
      * exists t'', es', e'. rewrite lookup_insert_ne, To by done. done.
  - intros t1 t2 x [[<- <-]|[? Ho1]]%lookup_insert_Some [[<- E2]|[? Ho2]]%lookup_insert_Some; try done.
    + exfalso. by eapply Hnc.
    + subst x. exfalso. by eapply Hnc.
    + by eapply wf_inj.
Qed.

(** A new root: its lower half is empty. *)
Lemma new_root_wf own p p' root es :
  pt_wf own p → own !! root = None → mem p' = <[root := Table es]> (mem p) →
  (∀ i e, es !! i = Some e → 256 ≤ i) → pt_wf (<[root := (root, 3%nat, 0)]> own) p'.
Proof using Type.
  intros Hwf Hn Em Hes. destruct (table_insert p p' root _ Em) as [Tr To].
  assert (∀ t x, own !! t = Some x → t ≠ root) as Hne by congruence.
  split.
  - intros t x [[<- _]|[? Ht]]%lookup_insert_Some; [eauto|]. rewrite To by eauto. by eapply wf_table.
  - intros t r l pfx [[_ [= _ <- _]]|[? Ht]]%lookup_insert_Some; [done|]. by eapply wf_level.
  - intros t r pfx [[<- [= <- <-]]|[? Ht]]%lookup_insert_Some; [done|]. by eapply wf_root.
  - intros t r l pfx es' i e [[<- [= <- <- <-]]|[? Ht]]%lookup_insert_Some Hes' He Hi Hp.
    { rewrite Tr in Hes'. simplify_eq. apply Hes in He. unfold limit in Hi. simpl in Hi. lia. }
    rewrite To in Hes' by eauto. destruct (wf_child _ _ Hwf _ _ _ _ _ _ _ Ht Hes' He Hi Hp) as [? Ho].
    split; [done|]. rewrite lookup_insert_ne; [done|]. apply not_eq_sym. by eapply Hne.
  - intros t r l pfx [[_ [= _ <- _]]|[? Ht]]%lookup_insert_Some Hl; [lia|].
    destruct (wf_parent _ _ Hwf _ _ _ _ Ht Hl) as (t' & es' & e & Ht' & Hrest). exists t', es', e.
    rewrite lookup_insert_ne, To by (eauto using not_eq_sym). done.
  - intros t t' x [[<- <-]|[? Ht]]%lookup_insert_Some [[<- E]|[? Ht']]%lookup_insert_Some; try done.
    + destruct (wf_root _ _ Hwf _ _ _ Ht'). done.
    + subst x. destruct (wf_root _ _ Hwf _ _ _ Ht). done.
    + by eapply wf_inj.
Qed.

(** ** Walking with creation *)

(** The allocator's view, the trees and the frames agree. *)
Record paging_inv (F U : gset Z) own p : Prop := {
  pi_rep : fa_rep F U (allocator p);
  pi_own : dom own ⊆ U;
  pi_wf : pt_wf own p;
}.

(** What adding tables may change: tables only grow, out of free frames, the
    new leaf tables are empty, and all other frames keep their contents. *)
Record grown (F U : gset Z) own p (F' U' : gset Z) own' p' : Prop := {
  g_inv : paging_inv F' U' own' p';
  g_own : own ⊆ own';
  g_new t x : own' !! t = Some x → own !! t = None → t ∈ F ∧ (x.1.2 < 3)%nat;
  g_used : U ⊆ U' ∧ F' ∪ U' = F ∪ U;
  g_split : U' = U ∪ (dom own' ∖ dom own);
  g_refs : refs p' = refs p ∧ ref_frames p' = ref_frames p;
  g_mem f : f ∈ U → f ∉ dom own → mem p' !! f = mem p !! f;
  g_leaf t root x : own !! t = Some (root, 0%nat, x) → table p' t = table p t;
  g_zero t root x : own' !! t = Some (root, 0%nat, x) → own !! t = None → table p' t = Some ∅;
}.

Lemma pi_disjoint F U own p t x : paging_inv F U own p → own !! t = Some x → t ∈ U ∧ t ∉ F.
Proof using Type.
  intros Hp Ht. pose proof (fa_disjoint _ _ _ (pi_rep _ _ _ _ Hp)) as Hd.
  assert (t ∈ U) by (apply (pi_own _ _ _ _ Hp); by eapply elem_of_dom_2). set_solver.
Qed.

Lemma grown_refl F U own p : paging_inv F U own p → grown F U own p F U own p.
Proof using Type. intros Hp. split; try done; try congruence. set_solver. Qed.

Lemma grown_trans F U own p F1 U1 own1 p1 F2 U2 own2 p2 :
  paging_inv F U own p →
  grown F U own p F1 U1 own1 p1 → grown F1 U1 own1 p1 F2 U2 own2 p2 → grown F U own p F2 U2 own2 p2.
Proof using Type.
  intros Hp Ga Gb. pose proof (fa_disjoint _ _ _ (pi_rep _ _ _ _ Hp)) as Hd.
  pose proof (fa_disjoint _ _ _ (pi_rep _ _ _ _ (g_inv _ _ _ _ _ _ _ _ Ga))) as Hd1.
  destruct Ga as [Ia Oa Na [Ua FUa] Sa [Ra Ra'] Ma La Za]. destruct Gb as [Ib Ob Nb [Ub FUb] Sb [Rb Rb'] Mb Lb Zb].
  assert (∀ t x, own2 !! t = Some x → own1 !! t = None → own !! t = None) as Hnone.
  { intros t x _ Ho1. destruct (own !! t) eqn:E; [|done]. eapply lookup_weaken in E; [|exact Oa]. congruence. }
  split.
  - done.
  - by trans own1.
  - intros t x Ht Hn. destruct (own1 !! t) as [x'|] eqn:E1.
    + assert (x' = x) as -> by (eapply lookup_weaken in E1; [|exact Ob]; congruence). by eapply Na.
    + destruct (Nb t x Ht E1) as [HF Hlt]. split; [|done]. assert (t ∉ U1) as HnU by set_solver +HF Hd1. set_solver +HF HnU FUa Ua.
  - split; [by trans U1|]. by rewrite FUb.
  - rewrite Sb, Sa. assert (dom own ⊆ dom own1) as D1 by (by apply subseteq_dom).
    assert (dom own1 ⊆ dom own2) as D2 by (by apply subseteq_dom).
    apply set_eq. intros t. destruct (decide (t ∈ dom own1)) as [Hi|Hi], (decide (t ∈ dom own)) as [Hj|Hj];
      set_solver +D1 D2 Hi Hj.
  - by rewrite Rb, Ra, Rb', Ra'.
  - intros f Hf Hn. rewrite Mb; [by apply Ma|by apply Ua|]. intros [x Hx]%elem_of_dom.
    destruct (Na f x Hx) as [HF _]; [by apply not_elem_of_dom|]. set_solver +HF Hf Hd.
  - intros t root x Ht. rewrite (Lb t root x); [by eapply La|]. by eapply lookup_weaken.
  - intros t root x Ht Hn. destruct (own1 !! t) as [x'|] eqn:E1; [|by eapply Zb].
    assert (x' = (root, 0%nat, x)) as -> by (eapply lookup_weaken in E1; [|exact Ob]; congruence).
    rewrite (Lb t root x E1). by eapply Za.
Qed.

Lemma wp_on_allocator {X} (m : Exec A X) Q p :
  wp m (λ x a', Q x (with_allocator a' p)) (allocator p) → wp (on_allocator m) Q p.
Proof using Type.
  unfold wp, on_allocator. destruct (m (allocator p)) as [[x a']|]; simpl; done.
Qed.

(** The entry for a new table. *)
Lemma new_entry_bits f user :
  frame_addr f → user = 0 ∨ user = USER →
  let e := Z.lor (Z.lor (Z.lor f PRESENT) WRITABLE) user in
  entry_addr e = f ∧ has e PRESENT = true ∧ has e HUGE = false.
Proof using Type.
  intros Hf Hu e. unfold e. rewrite <- !Z.lor_assoc. rewrite !(has_make f) by done.
  rewrite entry_addr_make; [|done|]; destruct Hu as [-> | ->]; done.
Qed.

Lemma add_table_grown F U own p p' root l pfx t es i f e :
  paging_inv F U own p → own !! t = Some (root, S l, pfx) → table p t = Some es → 0 ≤ i < limit (S l) →
  has (default 0 (es !! i)) PRESENT = false → f ∈ F → entry_addr e = f → has e PRESENT = true →
  has e HUGE = false → fa_rep (F ∖ {[f]}) (U ∪ {[f]}) (allocator p') →
  mem p' = <[t := Table (<[i := e]> es)]> (<[f := Table ∅]> (mem p)) →
  refs p' = refs p → ref_frames p' = ref_frames p →
  grown F U own p (F ∖ {[f]}) (U ∪ {[f]}) (<[f := (root, l, pfx * 512 + i)]> own) p'.
Proof using Type.
  intros Hp Ht Hes Hi Hno HfF He1 He2 He3 Hrep Em Hr Hr'.
  pose proof (pi_wf _ _ _ _ Hp) as Hwf. pose proof (pi_own _ _ _ _ Hp) as Hown.
  pose proof (fa_disjoint _ _ _ (pi_rep _ _ _ _ Hp)) as Hd.
  assert (own !! f = None) as Hfn.
  { destruct (own !! f) eqn:E; [|done]. by destruct (pi_disjoint F U own p f _ Hp E) as [_ []]. }
  assert (t ≠ f) as Htf by congruence. assert (t ∈ U) as HtU by (by eapply pi_disjoint).
  assert (f ∉ U) as HfU by set_solver.
  split.
  - split; [done|rewrite dom_insert_L; set_solver +Hown|]. by eapply add_table_wf.
  - by apply insert_subseteq.
  - intros t' x [[<- <-]|[_ Hx]]%lookup_insert_Some Hn; [|congruence]. split; [done|].
    pose proof (wf_level _ _ Hwf _ _ _ _ Ht). simpl. lia.
  - split; [set_solver +|]. apply set_eq. intros x. destruct (decide (x = f)) as [->|]; set_solver.
  - rewrite dom_insert_L. apply not_elem_of_dom in Hfn. apply set_eq. intros x.
    destruct (decide (x = f)) as [->|]; set_solver +Hfn.
  - done.
  - intros f' Hf' Hn. rewrite Em, !lookup_insert_ne; [done|by intros ->|].
    intros <-. apply Hn. by eapply elem_of_dom_2.
  - intros t' root' x Ht'. unfold table. rewrite Em, !lookup_insert_ne by congruence. done.
  - intros t' root' x [[<- _]|[_ Hx]]%lookup_insert_Some Hn; [|congruence]. unfold table.
    by rewrite Em, lookup_insert_ne, lookup_insert_eq.
Qed.

Lemma walk_create F U own p root va t l :
  paging_inv F U own p → user_va va → own !! t = Some (root, l, prefix va (S l)) →
  wp (walk_level l t va true) (λ r p', ∃ F' U' own',
    grown F U own p F' U' own' p' ∧
    match r with
    | inl e => e = OutOfMemory ∧ F' = ∅
    | inr o => ∃ t', o = Some (t', index va 0) ∧ own' !! t' = Some (root, 0%nat, prefix va 1)
    end) p.
Proof using Type.
  intros Hp Hva. revert F U own p t Hp. induction l as [|l IH]; intros F U own p t Hp Ht; cbn [walk_level].
  { wp_steps. exists F, U, own. split; [by apply grown_refl|]. eauto. }
  pose proof (pi_wf _ _ _ _ Hp) as Hwf. destruct (wf_table _ _ Hwf _ _ Ht) as [es Hes].
  pose proof (limit_index va (S l) Hva) as Hi. wp_steps. apply (read_entry_ok p t _ es _ Hes).
  destruct (has (default 0 (es !! index va (S l))) PRESENT) eqn:Hpr; cbn [negb].
  - destruct (es !! index va (S l)) as [e|] eqn:He; simpl in *; [|done].
    destruct (wf_child _ _ Hwf _ _ _ _ _ _ _ Ht Hes He Hi Hpr) as [-> Hc].
    apply IH; [done|]. by rewrite Hc, <- prefix_split.
  - wp_steps. unfold alloc_table, alloc_zeroed. wp_steps. unfold alloc. apply wp_on_allocator.
    eapply wp_mono; [apply (fa_alloc_ok _ _ _ (pi_rep _ _ _ _ Hp))|]. intros [f|] a' Hpost.
    2:{ wp_steps. destruct Hpost as [-> Hrep]. exists ∅, U, own. split; [|done]. split; try done; try congruence.
        - destruct Hp as [_ ? _]. split; [done|done|]. by apply (pt_wf_mem own p).
        - set_solver. }
    destruct Hpost as [HfF Hrep]. wp_steps. unfold write_frame. wp_steps.
    set (user := if va <? 0x800000000000 then USER else 0).
    set (e := Z.lor (Z.lor (Z.lor f PRESENT) WRITABLE) user).
    assert (frame_addr f) as Hfa by (eapply (fa_addr F U); [apply (pi_rep _ _ _ _ Hp)|set_solver]).
    destruct (new_entry_bits f user Hfa) as (He1 & He2 & He3); [unfold user; destruct (_ <? _); eauto|].
    fold e in He1, He2, He3.
    assert (t ≠ f) as Htf by (intros ->; by destruct (pi_disjoint F U own p f _ Hp Ht) as [_ []]).
    unfold write_entry. wp_steps. cbn [fst snd]. unfold table at 1. cbn [mem with_mem with_allocator].
    rewrite lookup_insert_ne by done. pose proof Hes as Hes'. unfold table in Hes'.
    destruct (mem p !! t) as [[es'|]|] eqn:Emt; [|done|done]. injection Hes' as ->. wp_steps. unfold write_frame. wp_steps.
    match goal with |- wp _ _ ?q => set (p' := q) end.
    assert (grown F U own p (F ∖ {[f]}) (U ∪ {[f]}) (<[f := (root, l, prefix va (S l))]> own) p') as Hg.
    { rewrite (prefix_split va (S l)). by eapply add_table_grown. }
    pose proof (g_inv _ _ _ _ _ _ _ _ Hg) as Hp'.
    rewrite He1. eapply wp_mono; [apply (IH _ _ _ p' f Hp'); by rewrite lookup_insert_eq|].
    intros r p2 (F2 & U2 & own2 & Hg2 & Hr). exists F2, U2, own2. split; [by eapply grown_trans|done].
Qed.

(** ** Changing one leaf *)

(** What every page-table operation keeps: frames outside the tables, the
    reference counts, and the tables' trees up to new tables. *)
Record pt_ext (F U : gset Z) own p (F' U' : gset Z) own' p' : Prop := {
  x_inv : paging_inv F' U' own' p';
  x_own : own ⊆ own';
  x_new t x : own' !! t = Some x → own !! t = None → t ∈ F ∧ (x.1.2 < 3)%nat;
  x_split : U' = U ∪ (dom own' ∖ dom own);
  x_free : F' = F ∖ dom own';
  x_refs : refs p' = refs p ∧ ref_frames p' = ref_frames p;
  x_mem f : f ∈ U → f ∉ dom own → mem p' !! f = mem p !! f;
}.

Lemma grown_ext F U own p F' U' own' p' :
  paging_inv F U own p → grown F U own p F' U' own' p' → pt_ext F U own p F' U' own' p'.
Proof using Type.
  intros Hp [Ia Oa Na [Ua FUa] Sa Ra Ma La Za]. split; try done.
  pose proof (fa_disjoint _ _ _ (pi_rep _ _ _ _ Hp)) as Hd. pose proof (fa_disjoint _ _ _ (pi_rep _ _ _ _ Ia)) as Hd'.
  pose proof (pi_own _ _ _ _ Hp) as Ho. pose proof (pi_own _ _ _ _ Ia) as Ho'.
  apply set_eq. intros f. rewrite elem_of_difference. split.
  - intros Hf. split; [|set_solver +Hf Hd' Ho']. assert (f ∉ U) as Hu by set_solver +Hf Hd' Ua. set_solver +Hf FUa Hu.
  - intros [Hf Hn]. assert (f ∉ U') as Hu by (rewrite Sa; set_solver +Hf Hn Hd). set_solver +Hf FUa Hu.
Qed.

(** All leaves but those of one page are as before; that one becomes [v]. *)
Definition leaf_set own p p' (root va v : Z) : Prop :=
  ∀ root' va', root_ok own root' → user_va va' →
    pte p' root' va' =
      if bool_decide (root' = root ∧ align_down va' = align_down va) then v else pte p root' va'.

Definition leaves_same own p p' : Prop :=
  ∀ root' va', root_ok own root' → user_va va' → pte p' root' va' = pte p root' va'.

Lemma grown_leaves F U own p F' U' own' p' :
  paging_inv F U own p → grown F U own p F' U' own' p' → leaves_same own p p'.
Proof using Type.
  intros Hp Hg root va Hr Hva. pose proof (pi_wf _ _ _ _ Hp) as Hwf.
  pose proof (pi_wf _ _ _ _ (g_inv _ _ _ _ _ _ _ _ Hg)) as Hwf'.
  assert (root_ok own' root) as Hr' by (eapply lookup_weaken; [exact Hr|apply (g_own _ _ _ _ _ _ _ _ Hg)]).
  destruct (leaf_entry_ok own p root va Hwf Hva Hr) as (o & _ & Ho). destruct o as [[t i]|]; simpl in Ho.
  - destruct Ho as (-> & Ht & es & Hes & ->). eapply pte_own; [exact Hwf'|done|done| |].
    + eapply lookup_weaken; [exact Ht|apply (g_own _ _ _ _ _ _ _ _ Hg)].
    + by rewrite (g_leaf _ _ _ _ _ _ _ _ Hg _ _ _ Ht).
  - destruct Ho as [-> Hno]. destruct (leaf_entry_ok own' p' root va Hwf' Hva Hr') as (o' & _ & Ho').
    destruct o' as [[t i]|]; simpl in Ho'; [|by destruct Ho']. destruct Ho' as (-> & Ht & es & Hes & ->).
    rewrite (g_zero _ _ _ _ _ _ _ _ Hg t root (prefix va 1)) in Hes; [by simplify_eq|done|].
    destruct (own !! t) as [x|] eqn:E; [|done]. exfalso. apply (Hno t).
    pose proof (lookup_weaken _ _ _ _ E (g_own _ _ _ _ _ _ _ _ Hg)). congruence.
Qed.

(** Writing an entry of a leaf table. *)
Lemma leaf_write_wf own p p' root x t es :
  pt_wf own p → own !! t = Some (root, 0%nat, x) → mem p' = <[t := Table es]> (mem p) → pt_wf own p'.
Proof using Type.
  intros Hwf Ht Em. destruct (table_insert p p' t _ Em) as [Tt To]. split.
  - intros t' y Ht'. destruct (decide (t' = t)) as [->|]; [eauto|]. rewrite To by done. by eapply wf_table.
  - apply (wf_level _ _ Hwf).
  - apply (wf_root _ _ Hwf).
  - intros t' root' l pfx es' i e Ho Hes. rewrite To in Hes by congruence. by eapply wf_child.
  - intros t' root' l pfx Ho Hl.
    destruct (wf_parent _ _ Hwf _ _ _ _ Ho Hl) as (t'' & es' & e & Ho' & Hes' & Hrest).
    exists t'', es', e. rewrite To by congruence. done.
  - apply (wf_inj _ _ Hwf).
Qed.

Lemma leaf_write_set own p p' root va t es v :
  pt_wf own p → user_va va → own !! t = Some (root, 0%nat, prefix va 1) → table p t = Some es →
  mem p' = <[t := Table (<[index va 0 := v]> es)]> (mem p) →
  leaf_set own p p' root va v.
Proof using Type.
  intros Hwf Hva Ht Hes Em root' va' Hr' Hva'. pose proof (leaf_write_wf own p p' _ _ _ _ Hwf Ht Em) as Hwf'.
  destruct (table_insert p p' t _ Em) as [Tt To].
  destruct (leaf_entry_ok own p root' va' Hwf Hva' Hr') as (o & _ & Ho). destruct o as [[t' i]|]; simpl in Ho.
  - destruct Ho as (-> & Ht' & es' & Hes' & ->). destruct (decide (t' = t)) as [->|Hne].
    + rewrite Ht in Ht'. simplify_eq. rewrite (pte_own own p' root' va' t (<[index va 0 := v]> es) Hwf' Hva' Hr'); [|congruence|exact Tt].
      case_bool_decide as Hb; rewrite same_page_iff in Hb.
      * destruct Hb as (_ & _ & ->). by rewrite lookup_insert_eq.
      * rewrite lookup_insert_ne; [done|]. intros Hi. apply Hb. split_and!; congruence.
    + rewrite (pte_own own p' root' va' t' es' Hwf' Hva' Hr' Ht') by (by rewrite To).
      rewrite bool_decide_eq_false_2; [done|]. rewrite same_page_iff. intros (-> & Hx & _). apply Hne.
      eapply wf_inj; [exact Hwf|exact Ht'|congruence].
  - destruct Ho as [-> Hno]. rewrite bool_decide_eq_false_2; [by eapply pte_missing|].
    rewrite same_page_iff. intros (-> & Hx & _). apply (Hno t). congruence.
Qed.

Lemma pt_ext_refl F U own p : paging_inv F U own p → pt_ext F U own p F U own p.
Proof using Type. intros Hp. by apply grown_ext, grown_refl. Qed.

(** Writing a leaf through its pointer. *)
Lemma wp_write_leaf F U own p root va t v Q :
  paging_inv F U own p → user_va va → own !! t = Some (root, 0%nat, prefix va 1) →
  (∀ p', pt_ext F U own p F U own p' → leaf_set own p p' root va v → Q tt p') →
  wp (write_entry (t, index va 0) v) Q p.
Proof using Type.
  intros Hp Hva Ht HQ. pose proof (pi_wf _ _ _ _ Hp) as Hwf. destruct (wf_table _ _ Hwf _ _ Ht) as [es Hes].
  unfold write_entry. wp_steps. cbn [fst snd]. rewrite Hes. wp_steps. unfold write_frame. wp_steps.
  match goal with |- Q tt ?q => set (p' := q) end. apply HQ; [|by eapply leaf_write_set].
  destruct (pt_ext_refl F U own p Hp) as [[? ? _] ? ? ? ? ? ?]. split; try done.
  - split; [done|done|]. by eapply leaf_write_wf.
  - intros f Hf Hn. simpl. apply lookup_insert_ne. intros <-. apply Hn. by eapply elem_of_dom_2.
Qed.

Lemma wp_leaf_entry own p root va Q :
  pt_wf own p → user_va va → root_ok own root →
  (∀ t, own !! t = Some (root, 0%nat, prefix va 1) →
     (∀ R, R (pte p root va) p → wp (read_entry (t, index va 0)) R p) → Q (Some (t, index va 0)) p) →
  (pte p root va = 0 → Q None p) →
  wp (leaf_entry root va) Q p.
Proof using Type.
  intros Hwf Hva Hr Hs Hn. unfold wp. destruct (leaf_entry_ok own p root va Hwf Hva Hr) as (o & -> & Ho).
  destruct o as [[t i]|]; simpl in Ho; [|by destruct Ho; apply Hn]. destruct Ho as (-> & Ht & es & Hes & Hpte).
  apply Hs; [done|]. intros R HR. apply (read_entry_ok p t _ es); [done|]. by rewrite <- Hpte.
Qed.

(** An entry for a page. *)
Definition page_entry (phys fl : Z) : Z := Z.lor (Z.lor phys fl) PRESENT.

Lemma frame_land_mask f : frame_addr f → Z.land f ADDR_MASK = f.
Proof using Type. intros Hf. rewrite <- (entry_addr_make f 0 Hf eq_refl) at 2. by rewrite Z.lor_0_r. Qed.

Definition map_post F U own p (root va phys fl : Z) (r : MapError + unit) p' : Prop :=
  ∃ F' U' own', pt_ext F U own p F' U' own' p' ∧
    match r with
    | inl OutOfMemory => F' = ∅ ∧ leaves_same own p p'
    | inl AlreadyMapped => has (pte p root va) PRESENT = true ∧ leaves_same own p p'
    | inl HugePageInTheWay => False
    | inr _ => has (pte p root va) PRESENT = false ∧ leaf_set own p p' root va (page_entry phys fl)
    end.

Lemma wp_map_4k F U own p root va phys fl :
  paging_inv F U own p → root_ok own root → user_va va → frame_addr phys →
  wp (map_4k root va phys fl) (map_post F U own p root va phys fl) p.
Proof using Type.
  intros Hp Hr Hva Hf. unfold map_4k. apply wp_try. unfold walk.
  eapply wp_mono; [apply (walk_create F U own p root va root 3 Hp Hva (root_prefix own root va Hva Hr))|].
  intros [e|o] p1 (F1 & U1 & own1 & Hg & Hres).
  { destruct Hres as [-> ->]. exists ∅, U1, own1. split; [by apply grown_ext|]. split; [done|].
    by eapply grown_leaves. }
  destruct Hres as (t & -> & Ht). pose proof (grown_leaves _ _ _ _ _ _ _ _ Hp Hg) as Hsame.
  pose proof (g_inv _ _ _ _ _ _ _ _ Hg) as Hp1. pose proof (pi_wf _ _ _ _ Hp1) as Hwf1.
  assert (root_ok own1 root) as Hr1 by (eapply lookup_weaken; [exact Hr|apply (g_own _ _ _ _ _ _ _ _ Hg)]).
  wp_steps. destruct (wf_table _ _ Hwf1 _ _ Ht) as [es Hes]. apply (read_entry_ok p1 t _ es _ Hes).
  rewrite <- (pte_own own1 p1 root va t es Hwf1 Hva Hr1 Ht Hes), (Hsame root va Hr Hva).
  destruct (has (pte p root va) PRESENT) eqn:Hpr.
  { wp_steps. exists F1, U1, own1. split; [by apply grown_ext|done]. }
  wp_steps. rewrite frame_land_mask by done. apply (wp_write_leaf F1 U1 own1 p1 root va t _ _ Hp1 Hva Ht).
  intros p2 He2 Hl2. wp_steps. exists F1, U1, own1. split; [|split; [done|]].
  - destruct (grown_ext _ _ _ _ _ _ _ _ Hp Hg) as [_ ? Hnew Hsp ? [? ?] Hm]. destruct He2 as [? _ _ _ _ [? ?] Hm2].
    split; try done; [split; congruence|]. intros f HfU Hfo. rewrite Hm2; [by apply Hm|rewrite Hsp; set_solver +HfU|].
    intros [x Hx]%elem_of_dom. destruct (Hnew f x Hx) as [HF _]; [by apply not_elem_of_dom|].
    pose proof (fa_disjoint _ _ _ (pi_rep _ _ _ _ Hp)) as Hd. set_solver +HF HfU Hd.
  - intros root' va' Hr' Hva'. rewrite (Hl2 root' va'); [|by eapply lookup_weaken; [|apply (g_own _ _ _ _ _ _ _ _ Hg)]|done].
    case_bool_decide; [done|]. by apply Hsame.
Qed.

Lemma wp_unmap_4k F U own p root va Q :
  paging_inv F U own p → root_ok own root → user_va va →
  (has (pte p root va) PRESENT = false → Q None p) →
  (∀ p', has (pte p root va) PRESENT = true → pt_ext F U own p F U own p' → leaf_set own p p' root va 0 →
     Q (Some (entry_addr (pte p root va), Z.ldiff (pte p root va) ADDR_MASK)) p') →
  wp (unmap_4k root va) Q p.
Proof using Type.
  intros Hp Hr Hva Hn Hs. unfold unmap_4k. wp_steps. pose proof (pi_wf _ _ _ _ Hp) as Hwf.
  apply (wp_leaf_entry own p root va _ Hwf Hva Hr).
  - intros t Ht Hread. wp_steps. apply Hread. destruct (has (pte p root va) PRESENT) eqn:Hpr; cbn [negb].
    + wp_steps. apply (wp_write_leaf F U own p root va t _ _ Hp Hva Ht). intros p' Hx Hl. wp_steps. by apply Hs.
    + wp_steps. by apply Hn.
  - intros Hz. wp_steps. apply Hn. by rewrite Hz.
Qed.

(** Translation is the leaf entry: walking the four levels gives the frame and
    flags of the page's leaf when it is present, and nothing otherwise. *)
Lemma translate_leaf own p root va :
  pt_wf own p → root_ok own root → user_va va →
  translate root va p =
    Some (if has (pte p root va) PRESENT
          then Some (entry_addr (pte p root va) + va mod PAGE_SIZE, Z.ldiff (pte p root va) ADDR_MASK)
          else None, p).
Proof using Type.
  intros Hwf Hr Hva. apply (root_prefix own root va Hva) in Hr as Hr3. unfold translate.
  assert (∀ l t, own !! t = Some (root, l, prefix va (S l)) →
    translate_level l t va p = Some (if has (pte p root va) PRESENT
          then Some (entry_addr (pte p root va) + va mod PAGE_SIZE, Z.ldiff (pte p root va) ADDR_MASK)
          else None, p)) as Hgo; [|by apply Hgo].
  induction l as [|l IH]; intros t Ht; destruct (wf_table _ _ Hwf _ _ Ht) as [es Hes]; cbn [translate_level];
    unfold read_entry, mbind, exec_bind, get, need; cbn [fst snd]; rewrite Hes; unfold mret, exec_ret.
  - rewrite <- (pte_own own p root va t es Hwf Hva Hr Ht Hes).
    destruct (has (pte p root va) PRESENT); [|done]. simpl. change 0xFFF with (Z.ones 12). by rewrite Z.land_ones.
  - destruct (has (default 0 (es !! index va (S l))) PRESENT) eqn:Hpr; cbn [negb].
    + destruct (es !! index va (S l)) as [e|] eqn:He; simpl in Hpr; [|done]. change (default 0 (Some e)) with e.
      destruct (wf_child _ _ Hwf _ _ _ _ _ _ _ Ht Hes He (limit_index va (S l) Hva) Hpr) as [Hh Hc].
      rewrite Hh, andb_false_r. apply IH. by rewrite Hc, <- prefix_split.
    + rewrite (pte_missing own p root va Hwf Hva Hr); [done|]. intros t' Ht'.
      pose proof (wf_level _ _ Hwf _ _ _ _ Ht). destruct (ancestor own p root va t' l Hwf Ht') as [t'' Ht'']; [lia|].
      by eapply absent_none in Ht''.
Qed.

(** ** Teardown *)

(** The table above a table at any level. *)
Lemma ancestor_at own p root j x t l :
  pt_wf own p → own !! t = Some (root, j, x) → (j ≤ l ≤ 3)%nat →
  ∃ t', own !! t' = Some (root, l, x / 512 ^ Z.of_nat (l - j)).
Proof using Type.
  intros Hwf Ht Hl. assert (∃ n, l = (j + n)%nat) as [n ->] by (exists (l - j)%nat; lia).
  replace (j + n - j)%nat with n by lia. induction n as [|n IH].
  - exists t. by rewrite Nat.add_0_r, Z.div_1_r.
  - destruct IH as [t' Ht']; [lia|]. destruct (wf_parent _ _ Hwf _ _ _ _ Ht') as (t'' & _ & _ & Ht'' & _); [lia|].
    exists t''. rewrite Nat.add_succ_r, Ht''. do 2 f_equal. rewrite Z.div_div by lia.
    by rewrite Nat2Z.inj_succ, Z.pow_succ_r, (Z.mul_comm 512) by lia.
Qed.

(** The tables of [root] up to level [l] whose prefix at level [l] is in
    [lo .. hi). *)
Definition in_band own root l lo hi (t : Z) : Prop :=
  match own !! t with
  | Some (root', j, x) => root' = root ∧ (j ≤ l)%nat ∧ lo ≤ x / 512 ^ Z.of_nat (l - j) < hi
  | None => False
  end.

#[global] Instance in_band_dec own root l lo hi t : Decision (in_band own root l lo hi t).
Proof using Type. unfold in_band. destruct (own !! t) as [[[? ?] ?]|]; apply _. Defined.

Definition band own root l lo hi : gset Z := filter (in_band own root l lo hi) (dom own).

Lemma elem_of_band own root l lo hi t :
  t ∈ band own root l lo hi ↔
  ∃ j x, own !! t = Some (root, j, x) ∧ (j ≤ l)%nat ∧ lo ≤ x / 512 ^ Z.of_nat (l - j) < hi.
Proof using Type.
  unfold band, in_band. rewrite elem_of_filter, elem_of_dom. destruct (own !! t) as [[[root' j] x]|].
  - split; [intros [(-> & ? & ?) _]; eauto|]. intros (j' & x' & [= -> -> ->] & ? & ?). eauto.
  - split; [by intros [[] _]|]. by intros (? & ? & ? & _).
Qed.

Lemma band_split own root l lo mid hi :
  lo ≤ mid ≤ hi → band own root l lo hi = band own root l lo mid ∪ band own root l mid hi ∧
  band own root l lo mid ## band own root l mid hi.
Proof using Type.
  intros Hm. split.
  - apply set_eq. intros t. rewrite elem_of_union, !elem_of_band. split.
    + intros (j & x & Ho & Hj & Hx). destruct (decide (x / 512 ^ Z.of_nat (l - j) < mid)); [left|right];
        exists j, x; (split; [done|]; split; [done|]; lia).
    + intros [(j & x & Ho & Hj & Hx)|(j & x & Ho & Hj & Hx)]; exists j, x; (split; [done|]; split; [done|]; lia).
  - intros t. rewrite !elem_of_band. intros (j & x & Ho & Hj & Hx) (j' & x' & Ho' & Hj' & Hx'). simplify_eq. lia.
Qed.

Lemma band_empty own root l lo : band own root l lo lo = ∅.
Proof using Type.
  apply set_eq. intros t. rewrite elem_of_band. split; [|set_solver]. intros (j & x & _ & _ & Hx). lia.
Qed.

(** The tables below a table are those with its prefix, and it. *)
Lemma band_table own p root l pfx t :
  pt_wf own p → own !! t = Some (root, S l, pfx) →
  band own root (S l) pfx (pfx + 1) = band own root l (pfx * 512) (pfx * 512 + 512) ∪ {[t]} ∧
  t ∉ band own root l (pfx * 512) (pfx * 512 + 512).
Proof using Type.
  intros Hwf Ht. split.
  - apply set_eq. intros t'. rewrite elem_of_union, elem_of_singleton, !elem_of_band. split.
    + intros (j & x & Ho & Hj & Hx). destruct (decide (j = S l)) as [->|].
      * right. rewrite Nat.sub_diag, Z.div_1_r in Hx. assert (x = pfx) as -> by lia. by eapply wf_inj.
      * left. exists j, x. split; [done|]. split; [lia|].
        rewrite Nat.sub_succ_l, Nat2Z.inj_succ, Z.pow_succ_r, Z.mul_comm, <- Z.div_div in Hx by lia.
        pose proof (Z.div_mod (x / 512 ^ Z.of_nat (l - j)) 512). pose proof (Z.mod_pos_bound (x / 512 ^ Z.of_nat (l - j)) 512). lia.
    + intros [(j & x & Ho & Hj & Hx)| ->].
      * exists j, x. split; [done|]. split; [lia|].
        rewrite Nat.sub_succ_l, Nat2Z.inj_succ, Z.pow_succ_r, Z.mul_comm, <- Z.div_div by lia.
        pose proof (Z.div_mod (x / 512 ^ Z.of_nat (l - j)) 512). pose proof (Z.mod_pos_bound (x / 512 ^ Z.of_nat (l - j)) 512). lia.
      * exists (S l), pfx. rewrite Nat.sub_diag, Z.div_1_r. split; [done|]. lia.
  - rewrite elem_of_band. intros (j & x & Ho & Hj & _). simplify_eq. lia.
Qed.

Lemma band_leaf own p root pfx t :
  pt_wf own p → own !! t = Some (root, 0%nat, pfx) → band own root 0 pfx (pfx + 1) = {[t]}.
Proof using Type.
  intros Hwf Ht. apply set_eq. intros t'. rewrite elem_of_singleton, elem_of_band. split.
  - intros (j & x & Ho & Hj & Hx). assert (j = 0%nat) as -> by lia. rewrite Z.div_1_r in Hx.
    assert (x = pfx) as -> by lia. by eapply wf_inj.
  - intros ->. exists 0%nat, pfx. rewrite Z.div_1_r. split; [done|]. lia.
Qed.

(** Nothing lies below an absent entry. *)
Lemma band_absent own p root l pfx t es i :
  pt_wf own p → own !! t = Some (root, S l, pfx) → table p t = Some es → 0 ≤ i < limit (S l) →
  has (default 0 (es !! i)) PRESENT = false →
  band own root l (pfx * 512 + i) (pfx * 512 + i + 1) = ∅.
Proof using Type.
  intros Hwf Ht Hes Hi Hno. apply set_eq. intros t'. rewrite elem_of_band. split; [|set_solver].
  intros (j & x & Ho & Hj & Hx). exfalso. pose proof (wf_level _ _ Hwf _ _ _ _ Ht).
  destruct (ancestor_at own p root j x t' l Hwf Ho) as [t'' Ht'']; [lia|].
  replace (x / 512 ^ Z.of_nat (l - j)) with (pfx * 512 + i) in Ht'' by lia.
  by eapply no_child in Ht''.
Qed.

(** Returning the frames [T] to the allocator. *)
Definition freed F U p (T : gset Z) p' : Prop :=
  fa_rep (F ∪ T) (U ∖ T) (allocator p') ∧ mem p' = mem p ∧ refs p' = refs p ∧ ref_frames p' = ref_frames p.

Lemma freed_nil F U p : fa_rep F U (allocator p) → freed F U p ∅ p.
Proof using Type. intros Hrep. split; [|done]. by rewrite union_empty_r_L, difference_empty_L. Qed.

Lemma freed_app F U p T p1 T' p2 :
  freed F U p T p1 → freed (F ∪ T) (U ∖ T) p1 T' p2 → freed F U p (T ∪ T') p2.
Proof using Type.
  intros (_ & Em & Er & Erf) (Hrep & Em' & Er' & Erf'). split; [|split_and!; congruence].
  replace (F ∪ (T ∪ T')) with (F ∪ T ∪ T') by set_solver +. replace (U ∖ (T ∪ T')) with ((U ∖ T) ∖ T') by set_solver +.
  done.
Qed.

Lemma wp_free_frame F U p t : fa_rep F U (allocator p) → t ∈ U → wp (free t) (λ _ p', freed F U p {[t]} p') p.
Proof using Type.
  intros Hrep Ht. unfold free. apply wp_on_allocator. eapply wp_mono; [by apply fa_free_ok|].
  intros u a' Ha. by split.
Qed.

(** The loop over the entries of a table, given how each child is freed. *)
Lemma wp_free_children own root l pfx t es (step : Z → Exec (Phys A) unit) :
  (∀ F U p i, pt_wf own p → fa_rep F U (allocator p) → table p t = Some es → 0 ≤ i < limit (S l) →
     band own root l (pfx * 512 + i) (pfx * 512 + i + 1) ⊆ U →
     wp (step (default 0 (es !! i)))
       (λ _ p', freed F U p (band own root l (pfx * 512 + i) (pfx * 512 + i + 1)) p') p) →
  ∀ n i F U p, pt_wf own p → fa_rep F U (allocator p) → table p t = Some es →
    0 ≤ i → i + Z.of_nat n ≤ limit (S l) →
    band own root l (pfx * 512 + i) (pfx * 512 + i + Z.of_nat n) ⊆ U →
    wp (seq_M step ((λ i, default 0 (es !! i)) <$> seqZ i (Z.of_nat n)))
      (λ _ p', freed F U p (band own root l (pfx * 512 + i) (pfx * 512 + i + Z.of_nat n)) p') p.
Proof using Type.
  intros Hstep. induction n as [|n IH]; intros i F U p Hwf Hrep Hes Hi Hn HU.
  - simpl. wp_steps. rewrite Z.add_0_r, band_empty. by apply freed_nil.
  - rewrite seqZ_cons by lia. cbn [fmap list_fmap seq_M]. rewrite Nat2Z.inj_succ in *. wp_steps.
    destruct (band_split own root l (pfx * 512 + i) (pfx * 512 + i + 1) (pfx * 512 + i + Z.succ (Z.of_nat n))) as [E D]; [lia|].
    rewrite E in HU |- *. replace (pfx * 512 + i + Z.succ (Z.of_nat n)) with (pfx * 512 + (i + 1) + Z.of_nat n) in * by lia.
    replace (pfx * 512 + i + 1) with (pfx * 512 + (i + 1)) in * by lia.
    eapply wp_mono; [apply (Hstep F U); [done|done|done|lia|rewrite <- Z.add_assoc; set_solver +HU]|].
    replace (pfx * 512 + i + 1) with (pfx * 512 + (i + 1)) by lia.
    intros u p1 Hf1. pose proof Hf1 as (Hrep1 & Em1 & _). replace (Z.pred (Z.succ (Z.of_nat n))) with (Z.of_nat n) by lia.
    replace (Z.succ i) with (i + 1) by lia.
    eapply wp_mono; [eapply (IH (i + 1) _ _ p1); [by apply (pt_wf_mem own p)|exact Hrep1|unfold table; by rewrite Em1|lia|lia|]|].
    + intros x Hx. assert (x ∈ U) as Hu by set_solver +HU Hx. set_solver +Hx D Hu.
    + intros u2 p2 Hf2. by eapply freed_app.
Qed.

Lemma free_table_SS l t :
  free_table (S (S l)) t =
    (p ← get;
     es ← need (table p t);
     _ ← seq_M (λ e, if has e PRESENT && negb (has e HUGE) then free_table (S l) (entry_addr e) else mret tt)
           ((λ i, default 0 (es !! i)) <$> seqZ 0 (Z.of_nat 512));
     free t).
Proof using Type. done. Qed.

Lemma wp_free_entry own root l pfx t es (child : Z → Exec (Phys A) unit) F U p i :
  (∀ t pfx F U p, pt_wf own p → fa_rep F U (allocator p) → own !! t = Some (root, l, pfx) →
     band own root l pfx (pfx + 1) ⊆ U →
     wp (child t) (λ _ p', freed F U p (band own root l pfx (pfx + 1)) p') p) →
  pt_wf own p → own !! t = Some (root, S l, pfx) → fa_rep F U (allocator p) → table p t = Some es →
  0 ≤ i < limit (S l) → band own root l (pfx * 512 + i) (pfx * 512 + i + 1) ⊆ U →
  let e := default 0 (es !! i) in
  (has e PRESENT = true → has e HUGE = false) ∧
  wp (if has e PRESENT then child (entry_addr e) else mret tt)
    (λ _ p', freed F U p (band own root l (pfx * 512 + i) (pfx * 512 + i + 1)) p') p.
Proof using Type.
  intros Hchild Hwf Ht Hrep Hes Hi HU e. unfold e. destruct (has (default 0 (es !! i)) PRESENT) eqn:Hpr.
  - destruct (es !! i) as [e'|] eqn:He; [|done]. change (default 0 (Some e')) with e' in *.
    destruct (wf_child _ _ Hwf _ _ _ _ _ _ _ Ht Hes He Hi Hpr) as [Hh Hc]. split; [done|]. by apply Hchild.
  - split; [done|]. wp_steps. rewrite (band_absent own p root l pfx t es i) by done. by apply freed_nil.
Qed.

Lemma wp_free_table own root l : ∀ t pfx F U p,
  (l < 3)%nat → pt_wf own p → fa_rep F U (allocator p) → own !! t = Some (root, l, pfx) →
  band own root l pfx (pfx + 1) ⊆ U →
  wp (free_table (S l) t) (λ _ p', freed F U p (band own root l pfx (pfx + 1)) p') p.
Proof using Type.
  induction l as [|l IH]; intros t pfx F U p Hl Hwf Hrep Ht HU.
  - rewrite (band_leaf own p root pfx t Hwf Ht) in *. apply wp_free_frame; [done|set_solver +HU].
  - destruct (wf_table _ _ Hwf _ _ Ht) as [es Hes]. destruct (band_table own p root l pfx t Hwf Ht) as [E Hn].
    rewrite free_table_SS. wp_steps. rewrite Hes. wp_steps. rewrite E in HU |- *.
    assert (limit (S l) = 512) as Hlim by (unfold limit; destruct (Nat.eqb_spec (S l) 3); [lia|done]).
    eapply wp_mono.
    + apply (wp_free_children own root l pfx t es _); [|done|exact Hrep|done|done|lia|].
      2:{ rewrite Z.add_0_r. set_solver +HU. }
      intros F' U' p' i Hwf' Hrep' Hes' Hi HU'.
      destruct (wp_free_entry own root l pfx t es (free_table (S l)) F' U' p' i) as [Hh Hw]; try done.
      { intros. apply IH; [lia|done..]. }
      cbn beta. destruct (has (default 0 (es !! i)) PRESENT); [|done]. rewrite Hh by done. done.
    + intros u p1 Hf. rewrite Z.add_0_r in Hf. change (Z.of_nat 512) with 512 in Hf. pose proof Hf as (Hrep1 & _).
      eapply wp_mono; [apply (wp_free_frame _ _ p1 t Hrep1)|].
      * set_solver +HU Hn.
      * intros u2 p2 Hf2. by eapply freed_app.
Qed.

(** The owner of a table. *)
Definition owned_by own (root : Z) : gset Z :=
  dom (filter (λ kv : Z * (Z * nat * Z), kv.2.1.1 = root) own).

Lemma elem_of_owned own root t : t ∈ owned_by own root ↔ ∃ l x, own !! t = Some (root, l, x).
Proof using Type.
  unfold owned_by. rewrite elem_of_dom. split.
  - intros [[[r l] x] Hx]. apply map_lookup_filter_Some in Hx as [Ho Hr]. simpl in Hr. subst. eauto.
  - intros (l & x & Ho). exists (root, l, x). by apply map_lookup_filter_Some.
Qed.

Definition disown own (root : Z) : gmap Z (Z * nat * Z) :=
  filter (λ kv : Z * (Z * nat * Z), kv.2.1.1 ≠ root) own.

Lemma disown_lookup own root t r l x :
  disown own root !! t = Some (r, l, x) ↔ own !! t = Some (r, l, x) ∧ r ≠ root.
Proof using Type. unfold disown. by rewrite map_lookup_filter_Some. Qed.

Lemma disown_wf own p root : pt_wf own p → pt_wf (disown own root) p.
Proof using Type.
  intros Hwf. split.
  - intros t [[r l] x] [Ho _]%disown_lookup. by eapply wf_table.
  - intros t r l x [Ho _]%disown_lookup. by eapply wf_level.
  - intros t r x [Ho _]%disown_lookup. by eapply wf_root.
  - intros t r l x es i e [Ho Hr]%disown_lookup Hes He Hi Hp.
    destruct (wf_child _ _ Hwf _ _ _ _ _ _ _ Ho Hes He Hi Hp). split; [done|]. by apply disown_lookup.
  - intros t r l x [Ho Hr]%disown_lookup Hl.
    destruct (wf_parent _ _ Hwf _ _ _ _ Ho Hl) as (t' & es & e & Ho' & Hrest).
    exists t', es, e. split; [by apply disown_lookup|done].
  - intros t t' [[r l] x] [Ho _]%disown_lookup [Ho' _]%disown_lookup. by eapply wf_inj.
Qed.

(** The lower-half tables and the root of an address space, freed. *)
Definition free_tables (root : Z) : Exec (Phys A) unit := _ ← free_lower_tables root; free root.

Lemma wp_free_tables F U own p root :
  paging_inv F U own p → root_ok own root →
  wp (free_tables root) (λ _ p', freed F U p (owned_by own root) p') p.
Proof using Type.
  intros [Hrep Hown Hwf] Hr. destruct (wf_table _ _ Hwf _ _ Hr) as [es Hes].
  assert (owned_by own root = band own root 2 (0 * 512) (0 * 512 + 0 + Z.of_nat 256) ∪ {[root]}) as E.
  { apply set_eq. intros t. rewrite elem_of_union, elem_of_singleton, elem_of_owned, elem_of_band. split.
    - intros (l & x & Ho). pose proof (wf_level _ _ Hwf _ _ _ _ Ho).
      destruct (decide (l = 3%nat)) as [->|]; [right; by eapply wf_root|left]. exists l, x. split; [done|]. split; [lia|].
      destruct (ancestor_at own p root l x t 2 Hwf Ho) as [t' Ht']; [lia|].
      destruct (wf_parent _ _ Hwf _ _ _ _ Ht') as (t'' & ? & ? & Ht'' & _ & _ & _ & _ & Hlim); [lia|].
      destruct (wf_root _ _ Hwf _ _ _ Ht'') as [_ Hz]. unfold limit in Hlim. simpl in Hlim.
      pose proof (Z.div_mod (x / 512 ^ Z.of_nat (2 - l)) 512). pose proof (Z.mod_pos_bound (x / 512 ^ Z.of_nat (2 - l)) 512). lia.
    - intros [(j & x & Ho & _)| ->]; eauto. }
  assert (owned_by own root ⊆ U) as HU.
  { intros t (l & x & Ho)%elem_of_owned. apply Hown. by eapply elem_of_dom_2. }
  rewrite E in HU |- *. unfold free_tables, free_lower_tables. wp_steps. rewrite Hes. wp_steps. unfold entries.
  change 256 with (Z.of_nat 256) at 1. eapply wp_mono.
  - apply (wp_free_children own root 2 0 root es _); [|done|exact Hrep|done|done|done|set_solver +HU].
    intros F' U' p' i Hwf' Hrep' Hes' Hi HU'.
    destruct (wp_free_entry own root 2 0 root es (free_table 3) F' U' p' i) as [_ Hw]; try done.
    intros. apply wp_free_table; [lia|done..].
  - intros u p1 Hf. rewrite Z.add_0_r in Hf |- *. pose proof Hf as (Hrep1 & _).
    eapply wp_mono; [apply (wp_free_frame _ _ p1 root Hrep1)|].
    + assert (root ∉ band own root 2 (0 * 512) (0 * 512 + Z.of_nat 256)) as Hn; [|set_solver +HU Hn].
      rewrite elem_of_band. intros (j & x & Ho & Hj & _). rewrite Hr in Ho. simplify_eq. lia.
    + intros u2 p2 Hf2. by eapply freed_app.
Qed.

(** ** Translation as a finite map *)

Definition translation p (root va : Z) : option (Z * Z) :=
  match translate root va p with Some (r, _) => r | None => None end.

Lemma translation_leaf own p root va :
  pt_wf own p → root_ok own root → user_va va →
  translation p root va =
    if has (pte p root va) PRESENT
    then Some (entry_addr (pte p root va) + va mod PAGE_SIZE, Z.ldiff (pte p root va) ADDR_MASK) else None.
Proof using Type. intros. unfold translation. by erewrite translate_leaf. Qed.

Lemma translation_same own p own' p' root va :
  pt_wf own p → pt_wf own' p' → root_ok own root → root_ok own' root → user_va va →
  pte p' root va = pte p root va → translation p' root va = translation p root va.
Proof using Type.
  intros ? ? ? ? ? E. by rewrite (translation_leaf own p), (translation_leaf own' p'), E.
Qed.

Lemma page_entry_parts phys fl :
  frame_addr phys → Z.land fl ADDR_MASK = 0 →
  entry_addr (page_entry phys fl) = phys ∧ has (page_entry phys fl) PRESENT = true ∧
  Z.ldiff (page_entry phys fl) ADDR_MASK = Z.lor fl PRESENT.
Proof using Type.
  intros Hf Hfl. unfold page_entry. rewrite <- Z.lor_assoc.
  assert (Z.land (Z.lor fl PRESENT) ADDR_MASK = 0) as Hm by (by rewrite Z.land_lor_distr_l, Hfl).
  split; [by apply entry_addr_make|]. split.
  - rewrite has_make by done. unfold has. rewrite Z.land_lor_distr_l, negb_true_iff. apply Z.eqb_neq.
    change (Z.land PRESENT PRESENT) with 1. intros E%Z.lor_eq_0_iff. lia.
  - apply Z.bits_inj'. intros n Hn. rewrite Z.ldiff_spec, Z.lor_spec, mask_bits by done.
    assert (Z.testbit (Z.land (Z.lor fl PRESENT) ADDR_MASK) n = false) as Hb by (by rewrite Hm, Z.bits_0).
    rewrite Z.land_spec, mask_bits in Hb by done. case_bool_decide; simpl in *.
    + rewrite andb_true_r in Hb. by rewrite Hb, orb_false_r, andb_false_r.
    + rewrite (frame_addr_bits phys n Hf) by lia. simpl. by rewrite andb_true_r.
Qed.

(** Translations of all pages but one are as before. *)
Definition others_same own p p' (root va : Z) : Prop :=
  ∀ root' va', root_ok own root' → user_va va' → root' ≠ root ∨ align_down va' ≠ align_down va →
    translation p' root' va' = translation p root' va'.

Lemma leaf_set_others F U own p F' U' own' p' root va v :
  paging_inv F U own p → pt_ext F U own p F' U' own' p' → leaf_set own p p' root va v → others_same own p p' root va.
Proof using Type.
  intros Hp Hx Hl root' va' Hr Hva Hne. pose proof (pi_wf _ _ _ _ Hp). pose proof (pi_wf _ _ _ _ (x_inv _ _ _ _ _ _ _ _ Hx)).
  eapply (translation_same own p own' p'); try done; [eapply lookup_weaken; [exact Hr|apply (x_own _ _ _ _ _ _ _ _ Hx)]|].
  rewrite (Hl root' va' Hr Hva). rewrite bool_decide_eq_false_2; [done|]. naive_solver.
Qed.

(** C21. Page tables implement a finite map from pages to frames. Mapping a page
    never panics; on success exactly that page of that space translates to the
    new frame and flags and it did not before; on failure nothing translates
    differently, the page was mapped already or the allocator ran dry while
    creating a level. Other pages and other spaces never change. *)
Theorem map_translate F U own p root va phys fl :
  paging_inv F U own p → root_ok own root → user_va va → frame_addr phys → Z.land fl ADDR_MASK = 0 →
  wp (map_4k root va phys fl) (λ r p',
    others_same own p p' root va ∧
    match r with
    | inr _ => translation p root va = None ∧
        ∀ va', user_va va' → align_down va' = align_down va →
          translation p' root va' = Some (phys + va' mod PAGE_SIZE, Z.lor fl PRESENT)
    | inl e => translation p' root va = translation p root va ∧
        (e = AlreadyMapped ∧ is_Some (translation p root va) ∨
         e = OutOfMemory ∧ ∃ U', fa_rep ∅ U' (allocator p'))
    end) p.
Proof using Type.
  intros Hp Hr Hva Hf Hfl. eapply wp_mono; [by apply wp_map_4k|].
  intros r p' (F' & U' & own' & Hx & Hres). pose proof (pi_wf _ _ _ _ Hp) as Hwf.
  pose proof (x_inv _ _ _ _ _ _ _ _ Hx) as Hp'. pose proof (pi_wf _ _ _ _ Hp') as Hwf'.
  pose proof (x_own _ _ _ _ _ _ _ _ Hx) as Ho.
  assert (leaves_same own p p' → ∀ root' va', root_ok own root' → user_va va' →
    translation p' root' va' = translation p root' va') as Hsame.
  { intros Hl root' va' Hr' Hva'. eapply (translation_same own p own' p'); try done; [by eapply lookup_weaken|]. by apply Hl. }
  assert (root_ok own' root) as Hr' by (by eapply lookup_weaken).
  destruct r as [[| |]|[]]; [| |done|].
  - destruct Hres as [-> Hl]. split; [intros ????; auto|]. split; [auto|]. right. split; [done|]. exists U'. apply Hp'.
  - destruct Hres as [Hpr Hl]. split; [intros ????; auto|]. split; [auto|]. left. split; [done|].
    rewrite (translation_leaf own), Hpr by done. eauto.
  - destruct Hres as [Hpr Hl]. split; [by eapply leaf_set_others|]. split; [by rewrite (translation_leaf own), Hpr|].
    intros va' Hva' Hal. destruct (page_entry_parts phys fl Hf Hfl) as (Ea & Ep & Efl).
    rewrite (translation_leaf own') by done. rewrite (Hl root va' Hr Hva'), bool_decide_eq_true_2 by done.
    by rewrite Ep, Ea, Efl.
Qed.

(** Unmapping a page never panics and removes exactly its translation,
    returning the frame and flags it had, or nothing when it had none. *)
Theorem unmap_translate F U own p root va :
  paging_inv F U own p → root_ok own root → user_va va →
  wp (unmap_4k root va) (λ r p',
    others_same own p p' root va ∧ translation p' root va = None ∧
    (λ x, (x.1 + va mod PAGE_SIZE, x.2)) <$> r = translation p root va) p.
Proof using Type.
  intros Hp Hr Hva. pose proof (pi_wf _ _ _ _ Hp) as Hwf.
  apply (wp_unmap_4k F U own p root va _ Hp Hr Hva).
  - intros Hpr. rewrite (translation_leaf own) by done. by rewrite Hpr.
  - intros p' Hpr Hx Hl. pose proof (pi_wf _ _ _ _ (x_inv _ _ _ _ _ _ _ _ Hx)).
    split; [by eapply leaf_set_others|]. rewrite (translation_leaf own p), (translation_leaf own p'), Hpr by done.
    by rewrite (Hl root va Hr Hva), bool_decide_eq_true_2.
Qed.

(** C22. Tearing an address space down frees exactly its page tables: every
    table of the space, once each and without panic, and no other frame; the
    other spaces translate as before. *)
Theorem teardown_exact F U own p root :
  paging_inv F U own p → root_ok own root →
  wp (free_tables root) (λ _ p',
    paging_inv (F ∪ owned_by own root) (U ∖ owned_by own root) (disown own root) p' ∧
    mem p' = mem p ∧
    ∀ root' va, root_ok own root' → root' ≠ root → user_va va → translation p' root' va = translation p root' va) p.
Proof using Type.
  intros Hp Hr. eapply wp_mono; [by apply wp_free_tables|]. intros u p' (Hrep & Em & _).
  pose proof (pi_wf _ _ _ _ Hp) as Hwf. assert (pt_wf own p') as Hwf' by (by apply (pt_wf_mem own p)). split_and!.
  - split; [done| |by apply disown_wf]. intros t [[[r l] x] [Ho Hne]%disown_lookup]%elem_of_dom.
    apply elem_of_difference. split; [apply (pi_own _ _ _ _ Hp); by eapply elem_of_dom_2|].
    intros (l' & x' & Ho')%elem_of_owned. congruence.
  - done.
  - intros root' va Hr' Hne Hva. eapply (translation_same own p own p'); try done.
    destruct (leaf_entry_ok own p root' va Hwf Hva Hr') as (o & _ & Ho).
    destruct o as [[t i]|]; simpl in Ho.
    + destruct Ho as (-> & Ht & es & Hes & ->). eapply pte_own; try done. unfold table. by rewrite Em.
    + destruct Ho as [-> Hno]. by eapply pte_missing.
Qed.

End PagingProofs.

(** ** A concrete state *)

(** One address space over the 64 frames of the buddy allocator. *)
Definition demo_frame : Z * Buddy.t :=
  match buddy_frame_alloc demo with Some (Some f, b) => (f, b) | _ => (0, demo) end.

Definition demo_phys : Phys Buddy.t := mkPhys demo_frame.2 {[demo_frame.1 := Table ∅]} ∅ 64.

Definition demo_own : gmap Z (Z * nat * Z) := {[demo_frame.1 := (demo_frame.1, 3%nat, 0)]}.

Definition demo_free_frames : gset Z := set_map frame_of (l_free l_demo) ∖ {[demo_frame.1]}.

Lemma demo_paging : paging_inv demo_free_frames {[demo_frame.1]} demo_own demo_phys ∧ root_ok demo_own demo_frame.1.
Proof.
  assert (fa_rep (set_map frame_of (l_free l_demo)) ∅ demo) as Hrep.
  { exists l_demo. split; [apply demo_refines|]. split; [done|]. split; [done|]. set_solver. }
  assert (buddy_frame_alloc demo = Some (Some demo_frame.1, demo_frame.2)) as Hrun.
  { assert (match fst <$> buddy_frame_alloc demo with Some (Some _) => true | _ => false end = true) as E
      by (vm_compute; reflexivity).
    unfold demo_frame. destruct (buddy_frame_alloc demo) as [[[f|] b]|]; done. }
  pose proof (fa_alloc_ok _ _ _ Hrep) as Hal. unfold wp in Hal. cbn [fa_alloc buddy_frames] in Hal. rewrite Hrun in Hal.
  destruct Hal as [_ Hrep']. rewrite union_empty_l_L in Hrep'. split.
  - split; [exact Hrep'|unfold demo_own; by rewrite dom_singleton_L|].
    apply (new_root_wf ∅ (mkPhys demo ∅ ∅ 64) demo_phys demo_frame.1 ∅); [|done|done|done].
    split; try done; by intros ? ?.
  - unfold root_ok, demo_own. by rewrite lookup_singleton_eq.
Qed.

Lemma map_translate_witness :
  wp (map_4k demo_frame.1 0x400000 0x2000 (Z.lor USER WRITABLE)) (λ r p',
    others_same demo_own demo_phys p' demo_frame.1 0x400000 ∧
    match r with
    | inr _ => translation demo_phys demo_frame.1 0x400000 = None ∧
        ∀ va', user_va va' → align_down va' = align_down 0x400000 →
          translation p' demo_frame.1 va' = Some (0x2000 + va' mod PAGE_SIZE, Z.lor (Z.lor USER WRITABLE) PRESENT)
    | inl e => translation p' demo_frame.1 0x400000 = translation demo_phys demo_frame.1 0x400000 ∧
        (e = AlreadyMapped ∧ is_Some (translation demo_phys demo_frame.1 0x400000) ∨
         e = OutOfMemory ∧ ∃ U', fa_rep ∅ U' (allocator p'))
    end) demo_phys.
Proof.
  apply (map_translate demo_free_frames {[demo_frame.1]} demo_own demo_phys demo_frame.1 0x400000 0x2000 (Z.lor USER WRITABLE));
    [apply demo_paging|apply demo_paging|split; done|split; done|reflexivity].
Defined.

Lemma unmap_translate_witness :
  wp (unmap_4k demo_frame.1 0x400000) (λ r p',
    others_same demo_own demo_phys p' demo_frame.1 0x400000 ∧ translation p' demo_frame.1 0x400000 = None ∧
    (λ x, (x.1 + 0x400000 mod PAGE_SIZE, x.2)) <$> r = translation demo_phys demo_frame.1 0x400000) demo_phys.
Proof.
  apply (unmap_translate demo_free_frames {[demo_frame.1]} demo_own demo_phys demo_frame.1 0x400000);
    [apply demo_paging|apply demo_paging|split; done].
Defined.

Lemma teardown_exact_witness :
  wp (free_tables demo_frame.1) (λ _ p',
    paging_inv (demo_free_frames ∪ owned_by demo_own demo_frame.1) ({[demo_frame.1]} ∖ owned_by demo_own demo_frame.1)
      (disown demo_own demo_frame.1) p' ∧
    mem p' = mem demo_phys ∧
    ∀ root' va, root_ok demo_own root' → root' ≠ demo_frame.1 → user_va va →
      translation p' root' va = translation demo_phys root' va) demo_phys.
Proof.
  apply (teardown_exact demo_free_frames {[demo_frame.1]} demo_own demo_phys demo_frame.1); apply demo_paging.
Defined.
