(* ===== verification/Cgroup.v ===== *)
(** * Resource limits of containers

    Models [kernel/src/cgroup.rs].  Every function loads a container's record
    anew and works on its atomics, so the registry is a map from container ids
    to records; the retry loops of compare-and-swap are one atomic update. *)

From S2P Require Import Prelude.


Record Cgroup := mkCgroup {
  mem_limit_pages : Z;
  swap_limit_pages : Z;
  pids_limit : Z;
  mem_pages : Z;
  swap_pages : Z;
  pids : Z;
}.


(** [AtomicI64] arithmetic wraps; [as u64] reinterprets the sign bit. *)
Definition wrap_i64 (v : Z) : Z := (v + 2 ^ 63) mod U64 - 2 ^ 63.
Definition as_u64 (v : Z) : Z := v mod U64.

Definition PAGE : Z := 4096.

(** [u64::div_ceil]. *)
Definition div_ceil (a b : Z) : Z := (a + b - 1) / b.

Definition no_limits : Cgroup := mkCgroup 0 0 0 0 0 0.

Definition get_or_new (c : list Z) (g : gmap (list Z) Cgroup) : Cgroup := default no_limits (g !! c).

Definition create (c : list Z) (mem_bytes pids : Z) (g : gmap (list Z) Cgroup) : gmap (list Z) Cgroup :=
  let mem_pages := div_ceil mem_bytes PAGE in
  <[c := mkCgroup mem_pages mem_pages pids 0 0 0]> g.

Definition set_limits (c : list Z) (mem_bytes pids_ : Z) (g : gmap (list Z) Cgroup) : gmap (list Z) Cgroup :=
  let cg := get_or_new c g in
  let mem := div_ceil mem_bytes PAGE in
  <[c := mkCgroup mem mem pids_ (mem_pages cg) (swap_pages cg) (pids cg)]> g.

Definition remove (c : list Z) (g : gmap (list Z) Cgroup) : gmap (list Z) Cgroup := delete c g.

Definition with_pids (n : Z) (cg : Cgroup) : Cgroup :=
  mkCgroup (mem_limit_pages cg) (swap_limit_pages cg) (pids_limit cg) (mem_pages cg) (swap_pages cg) n.
Definition with_mem_pages (n : Z) (cg : Cgroup) : Cgroup :=
  mkCgroup (mem_limit_pages cg) (swap_limit_pages cg) (pids_limit cg) n (swap_pages cg) (pids cg).
Definition with_swap_pages (n : Z) (cg : Cgroup) : Cgroup :=
  mkCgroup (mem_limit_pages cg) (swap_limit_pages cg) (pids_limit cg) (mem_pages cg) n (pids cg).

(** [cur + 1] on a [u32] may overflow. *)
Definition try_add_pid (c : list Z) : Exec (gmap (list Z) Cgroup) bool := λ g,
  match g !! c with
  | None => Some (true, g)
  | Some cg =>
      if negb (pids_limit cg =? 0) && (pids_limit cg <=? pids cg) then Some (false, g)
      else if pids cg + 1 <? U32 then Some (true, <[c := with_pids (pids cg + 1) cg]> g) else None
  end.

Definition sub_pid (c : list Z) (n : Z) (g : gmap (list Z) Cgroup) : gmap (list Z) Cgroup :=
  match g !! c with
  | None => g
  | Some cg => <[c := with_pids (sat_sub (pids cg) n) cg]> g
  end.

(** [fetch_add(1)], compared through [as u64], and taken back over the limit. *)
Definition try_charge_page (c : list Z) (g : gmap (list Z) Cgroup) : bool * gmap (list Z) Cgroup :=
  match g !! c with
  | None => (true, g)
  | Some cg =>
      if mem_limit_pages cg =? 0 then (true, g)
      else
        let old := mem_pages cg in
        let up := wrap_i64 (old + 1) in
        if mem_limit_pages cg <=? as_u64 old
        then (false, <[c := with_mem_pages (wrap_i64 (up - 1)) cg]> g)
        else (true, <[c := with_mem_pages up cg]> g)
  end.

Definition uncharge_pages (c : list Z) (n : Z) (g : gmap (list Z) Cgroup) : gmap (list Z) Cgroup :=
  if n =? 0 then g
  else match g !! c with
  | None => g
  | Some cg => <[c := with_mem_pages (wrap_i64 (mem_pages cg - wrap_i64 n)) cg]> g
  end.

Definition try_charge_swap (c : list Z) (g : gmap (list Z) Cgroup) : bool * gmap (list Z) Cgroup :=
  match g !! c with
  | None => (true, g)
  | Some cg =>
      if swap_limit_pages cg =? 0 then (true, g)
      else
        let old := swap_pages cg in
        let up := wrap_i64 (old + 1) in
        if swap_limit_pages cg <=? as_u64 old
        then (false, <[c := with_swap_pages (wrap_i64 (up - 1)) cg]> g)
        else (true, <[c := with_swap_pages up cg]> g)
  end.

Definition uncharge_swap (c : list Z) (n : Z) (g : gmap (list Z) Cgroup) : gmap (list Z) Cgroup :=
  if n =? 0 then g
  else match g !! c with
  | None => g
  | Some cg => <[c := with_swap_pages (wrap_i64 (swap_pages cg - wrap_i64 n)) cg]> g
  end.

(** Used and limit in bytes, tasks and their limit; [None] inside is the
    overflow of a product. *)
Definition usage (c : list Z) (g : gmap (list Z) Cgroup) : option (option (Z * Z * Z * Z)) :=
  match g !! c with
  | None => Some None
  | Some cg =>
      used ← mul64 (Z.max (mem_pages cg) 0) PAGE;
      limit ← mul64 (mem_limit_pages cg) PAGE;
      Some (Some (used, limit, pids cg, pids_limit cg))
  end.

(** ** Charging memory *)

(** Memory events of one container: a page charged, pages returned. *)
Inductive event :=
  | Charge
  | Uncharge (n : Z).

Fixpoint run (c : list Z) (es : list event) (g : gmap (list Z) Cgroup) : list bool * gmap (list Z) Cgroup :=
  match es with
  | [] => ([], g)
  | Charge :: es' =>
      let '(ok, g) := try_charge_page c g in
      let '(r, g) := run c es' g in (ok :: r, g)
  | Uncharge n :: es' => run c es' (uncharge_pages c n g)
  end.

(** The pages a container holds along the events, when every charge that finds
    room succeeds and pages are only returned once: [None] otherwise. *)
Fixpoint held (limit : Z) (es : list event) (n : Z) : option (list bool * Z) :=
  match es with
  | [] => Some ([], n)
  | Charge :: es' =>
      if n <? limit then (λ r, (true :: r.1, r.2)) <$> held limit es' (n + 1)
      else (λ r, (false :: r.1, r.2)) <$> held limit es' n
  | Uncharge k :: es' => if (0 <=? k) && (k <=? n) then held limit es' (n - k) else None
  end.

Lemma wrap_small v : - 2 ^ 63 ≤ v < 2 ^ 63 → wrap_i64 v = v.
Proof. intros. unfold wrap_i64. rewrite Z.mod_small; unfold U64; lia. Qed.

Lemma as_u64_small v : 0 ≤ v < U64 → as_u64 v = v.
Proof. apply Z.mod_small. Qed.

Lemma run_held c es g cg n r n' :
  g !! c = Some cg → 0 < mem_limit_pages cg < 2 ^ 62 → mem_pages cg = n → 0 ≤ n ≤ mem_limit_pages cg →
  held (mem_limit_pages cg) es n = Some (r, n') →
  (run c es g).1 = r ∧ (run c es g).2 = <[c := with_mem_pages n' cg]> g ∧ 0 ≤ n' ≤ mem_limit_pages cg.
Proof.
  revert g cg n r n'. induction es as [|e es IH]; intros g cg n r n' Hc Hl Hm Hn Hh; cbn [run held] in *.
  - injection Hh as <- <-. split_and!; [done| |lia|lia]. rewrite insert_id; [done|]. rewrite Hc. f_equal.
    destruct cg. simpl in *. by subst.
  - destruct e as [|k].
    + unfold try_charge_page. rewrite Hc, (proj2 (Z.eqb_neq _ _)), Hm, as_u64_small by (unfold U64; lia).
      destruct (Z.ltb_spec n (mem_limit_pages cg)) as [Hlt|Hge].
      * apply fmap_Some in Hh as ([r0 n0] & Hh & [= -> ->]). rewrite (proj2 (Z.leb_gt _ _)), wrap_small by lia. simpl.
        destruct (IH (<[c := with_mem_pages (n + 1) cg]> g) (with_mem_pages (n + 1) cg) (n + 1) r0 n0) as (H1 & H2 & H3);
          [by rewrite lookup_insert_eq|done|done|simpl; lia|done|].
        destruct (run c es _) as [r1 g1]. simpl in *. subst. rewrite insert_insert_eq. done.
      * apply fmap_Some in Hh as ([r0 n0] & Hh & [= -> ->]). rewrite (proj2 (Z.leb_le _ _)), !wrap_small by (rewrite ?wrap_small; lia). simpl.
        replace (n + 1 - 1) with (mem_pages cg) by lia.
        replace (with_mem_pages (mem_pages cg) cg) with cg by (by destruct cg). rewrite insert_id by done.
        destruct (IH g cg n r0 n0) as (H1 & H2 & H3); try done. destruct (run c es g) as [r1 g1]. simpl in *. by subst.
    + destruct (Z.leb_spec 0 k), (Z.leb_spec k n); try done. cbn [andb] in Hh. unfold uncharge_pages.
      destruct (Z.eqb_spec k 0) as [->|]; [apply (IH g cg n); [done..|by rewrite Z.sub_0_r in Hh]|].
      rewrite Hc, Hm, !wrap_small by (rewrite ?wrap_small; lia).
      destruct (IH (<[c := with_mem_pages (n - k) cg]> g) (with_mem_pages (n - k) cg) (n - k) r n') as (H1 & H2 & H3);
        [by rewrite lookup_insert_eq|done|done|simpl; lia|done|].
      rewrite H2, insert_insert_eq. done.
Qed.

(** A container's memory cap holds: from a fresh start with a limit, along
    any charges and any returns of charged pages, a charge succeeds exactly
    when the pages held are below the limit, and the counter is exactly the
    pages held, never above the limit. *)
Theorem memory_cap_holds c bytes npids es r n g :
  0 < bytes < 2 ^ 62 → held (div_ceil bytes PAGE) es 0 = Some (r, n) →
  (run c es (create c bytes npids g)).1 = r ∧
  ∃ cg, (run c es (create c bytes npids g)).2 !! c = Some cg ∧ mem_pages cg = n ∧
    0 ≤ n ≤ mem_limit_pages cg ∧ mem_limit_pages cg = div_ceil bytes PAGE.
Proof.
  intros Hb Hh. set (lim := div_ceil bytes PAGE) in *.
  assert (0 < lim < 2 ^ 62) as Hl.
  { unfold lim, div_ceil, PAGE. split; [apply Z.div_str_pos; lia|apply Z.div_lt_upper_bound; lia]. }
  destruct (run_held c es (create c bytes npids g) (mkCgroup lim lim npids 0 0 0) 0 r n) as (H1 & H2 & H3); try done.
  - unfold create. by rewrite lookup_insert_eq.
  - simpl. lia.
  - split; [done|]. rewrite H2. eexists. rewrite lookup_insert_eq. done.
Qed.

Lemma memory_cap_holds_witness :
  (run [] [Charge; Charge; Uncharge 1; Charge] (create [] 4096 0 ∅)).1 = [true; false; true] ∧
  ∃ cg, (run [] [Charge; Charge; Uncharge 1; Charge] (create [] 4096 0 ∅)).2 !! [] = Some cg ∧ mem_pages cg = 1 ∧
    0 ≤ 1 ≤ mem_limit_pages cg ∧ mem_limit_pages cg = div_ceil 4096 PAGE.
Proof. apply (memory_cap_holds [] 4096 0 [Charge; Charge; Uncharge 1; Charge] [true; false; true] 1 ∅); [lia|reflexivity]. Defined.

(** A counter below zero locks the container out: once more pages were
    returned than charged, every later charge is refused, because the counter
    is compared as an unsigned number. *)
Theorem negative_counter_refuses c g cg k :
  g !! c = Some cg → mem_pages cg < 0 → - 2 ^ 63 ≤ mem_pages cg → 0 < mem_limit_pages cg ≤ 2 ^ 63 →
  Forall (eq false) (run c (replicate k Charge) g).1 ∧
  (run c (replicate k Charge) g).2 = g.
Proof.
  intros Hc Hneg Hlow Hl. induction k as [|k IH]; [by split|]. cbn [replicate run].
  assert (try_charge_page c g = (false, g)) as ->.
  { unfold try_charge_page. rewrite Hc, (proj2 (Z.eqb_neq _ _)) by lia.
    assert (as_u64 (mem_pages cg) = mem_pages cg + U64) as ->.
    { unfold as_u64. symmetry. apply (Z.mod_unique _ _ (-1)); unfold U64; lia. }
    rewrite (proj2 (Z.leb_le _ _)) by (unfold U64; lia).
    rewrite (wrap_small (mem_pages cg + 1)), wrap_small by lia. rewrite Z.add_simpl_r.
    replace (with_mem_pages (mem_pages cg) cg) with cg by (by destruct cg). by rewrite insert_id. }
  destruct (run c (replicate k Charge) g) as [r g'] eqn:E. simpl in *. destruct IH as [Hr ->]. split; [by constructor|done].
Qed.

(** The unlimited container returns its pages below zero; a limit set later
    then refuses every page. *)
Lemma negative_counter_refuses_witness :
  let g := set_limits [] 8192 0 (uncharge_pages [] 3 (create [] 0 0 ∅)) in
  Forall (eq false) (run [] (replicate 5 Charge) g).1 ∧ (run [] (replicate 5 Charge) g).2 = g.
Proof.
  apply (negative_counter_refuses [] (set_limits [] 8192 0 (uncharge_pages [] 3 (create [] 0 0 ∅)))
    (mkCgroup 2 2 0 (-3) 0 0) 5); [reflexivity|simpl; lia..].
Defined.
