(* ===== verification/Swap.v ===== *)
(** * Swap slots

    Models [kernel/src/mm/swap.rs]: the slot bitmap of the swap device, and
    storing and reading pages.  The block device is an interface. *)

From S2P Require Import Prelude Vma.

(** What swap needs of a block device: whole pages at sector numbers.  A read
    or a write may fail; a failed write may still have changed the device. *)
Class BlockDevice (D : Type) := {
  dev_sectors : D → Z;
  dev_read : D → Z → option (list Z);
  dev_write : D → Z → list Z → bool * D;
}.

Definition SECTORS_PER_SLOT : Z := PAGE_SIZE / 512.

(** A read fills a page.  A page written reads back, and writing one slot's sectors leaves the
    other slots as they were, also when the write fails. *)
Class BlockDeviceLaws (D : Type) `{BlockDevice D} := {
  dev_sectors_same d s page : dev_sectors (dev_write d s page).2 = dev_sectors d;
  dev_read_size d s page : dev_read d s = Some page → length page = Z.to_nat PAGE_SIZE;
  dev_read_write d s page d' : dev_write d s page = (true, d') → dev_read d' s = Some page;
  dev_read_other d i j page : i ≠ j →
    dev_read (dev_write d (i * SECTORS_PER_SLOT) page).2 (j * SECTORS_PER_SLOT) = dev_read d (j * SECTORS_PER_SLOT);
}.

Record SwapDev (D : Type) := mkSwap {
  dev : D;
  bitmap : list Z;
  slots : Z;
  used : Z;
}.
Arguments mkSwap {D}.
Arguments dev {D}.
Arguments bitmap {D}.
Arguments slots {D}.
Arguments used {D}.

Definition with_dev {D} (d : D) (s : SwapDev D) : SwapDev D := mkSwap d (bitmap s) (slots s) (used s).

(** [(!w).trailing_zeros()]: the lowest clear bit, 64 when there is none. *)
Fixpoint lowest_clear (n : nat) (bit w : Z) : Z :=
  match n with
  | O => bit
  | S n' => if Z.testbit w bit then lowest_clear n' (bit + 1) w else bit
  end.

Definition trailing_ones (w : Z) : Z := lowest_clear 64 0 w.

Section Swap.
Context {D : Type} `{BlockDevice D}.
Implicit Types s : SwapDev D.

(** [init]: no slot, no swap. *)
Definition init (d : D) : option (SwapDev D) :=
  let n := dev_sectors d / SECTORS_PER_SLOT in
  if n =? 0 then None
  else Some (mkSwap d (replicate (Z.to_nat ((n + 63) / 64)) 0) n 0).

(** The first word with a clear bit, and the slot it gives. *)
Fixpoint find_slot (wi : nat) (words : list Z) : option (nat * Z * Z) :=
  match words with
  | [] => None
  | w :: words' =>
      if negb (w =? u64_max) then Some (wi, w, Z.of_nat wi * 64 + trailing_ones w)
      else find_slot (S wi) words'
  end.

Definition alloc_slot (s : SwapDev D) : option Z * SwapDev D :=
  match find_slot 0 (bitmap s) with
  | None => (None, s)
  | Some (wi, w, idx) =>
      if slots s <=? idx then (None, s)
      else (Some idx,
            mkSwap (dev s) (<[wi := Z.lor w (Z.shiftl 1 (trailing_ones w))]> (bitmap s)) (slots s) ((used s + 1) mod U64))
  end.

Definition free_slot (idx : Z) (s : SwapDev D) : SwapDev D :=
  let wi := Z.to_nat (idx / 64) in
  let bit := idx mod 64 in
  match bitmap s !! wi with
  | None => s
  | Some w =>
      if negb (Z.land w (Z.shiftl 1 bit) =? 0)
      then mkSwap (dev s) (<[wi := Z.ldiff w (Z.shiftl 1 bit)]> (bitmap s)) (slots s) ((used s - 1) mod U64)
      else s
  end.

Definition write_slot (idx : Z) (page : list Z) (s : SwapDev D) : bool * SwapDev D :=
  let '(ok, d) := dev_write (dev s) (idx * SECTORS_PER_SLOT) page in (ok, with_dev d s).

Definition read_slot (idx : Z) (s : SwapDev D) : option (list Z) := dev_read (dev s) (idx * SECTORS_PER_SLOT).

(** [store_page] of a page with contents [page]. *)
Definition store_page (page : list Z) (s : SwapDev D) : option Z * SwapDev D :=
  match alloc_slot s with
  | (None, s) => (None, s)
  | (Some idx, s) =>
      match write_slot idx page s with
      | (true, s) => (Some idx, s)
      | (false, s) => (None, free_slot idx s)
      end
  end.

(** [usage]: used and total slots. *)
Definition swap_usage (s : option (SwapDev D)) : Z * Z :=
  match s with Some s => (used s, slots s) | None => (0, 0) end.

(** ** The set of slots in use *)

Definition bit_at (words : list Z) (i : Z) : bool :=
  match words !! Z.to_nat (i / 64) with Some w => Z.testbit w (i mod 64) | None => false end.

(** [X] is the set of slots in use. *)
Record swap_rep (X : gset Z) s : Prop := {
  sr_slots : 0 ≤ slots s < 2 ^ 63;
  sr_words : Forall (λ w, 0 ≤ w < U64) (bitmap s);
  sr_length : Z.of_nat (length (bitmap s)) = (slots s + 63) / 64;
  sr_bits i : 0 ≤ i → bit_at (bitmap s) i = bool_decide (i ∈ X);
  sr_range i : i ∈ X → 0 ≤ i < slots s;
  sr_used : used s = Z.of_nat (size X);
}.

Lemma lowest_clear_spec n bit w :
  bit ≤ lowest_clear n bit w ≤ bit + Z.of_nat n ∧
  (∀ i, bit ≤ i < lowest_clear n bit w → Z.testbit w i = true) ∧
  (lowest_clear n bit w < bit + Z.of_nat n → Z.testbit w (lowest_clear n bit w) = false).
Proof using Type.
  revert bit. induction n as [|n IH]; intros bit; cbn [lowest_clear]; [split; [lia|split; [lia|lia]]|].
  destruct (Z.testbit w bit) eqn:E.
  - destruct (IH (bit + 1)) as (Ha & Hb & Hc). split; [lia|]. split.
    + intros i Hi. destruct (decide (i = bit)) as [->|]; [done|]. apply Hb. lia.
    + intros. apply Hc. lia.
  - split; [lia|]. split; [lia|done].
Qed.

Lemma all_ones w : 0 ≤ w < U64 → (∀ i, 0 ≤ i < 64 → Z.testbit w i = true) → w = u64_max.
Proof using Type.
  intros Hw Hb. change u64_max with (Z.ones 64). apply Z.bits_inj'. intros i Hi.
  rewrite Z.testbit_ones_nonneg by lia. destruct (Z.ltb_spec i 64); [by apply Hb|].
  rewrite <- (Z.mod_small w (2 ^ 64)) by done. by apply Z.mod_pow2_bits_high.
Qed.

Lemma trailing_ones_spec w :
  0 ≤ w < U64 → w ≠ u64_max → 0 ≤ trailing_ones w < 64 ∧ Z.testbit w (trailing_ones w) = false ∧
  ∀ i, 0 ≤ i < trailing_ones w → Z.testbit w i = true.
Proof using Type.
  intros Hw Hne. destruct (lowest_clear_spec 64 0 w) as (Ha & Hb & Hc). fold (trailing_ones w) in *.
  assert (trailing_ones w < 64) as Hlt.
  { destruct (decide (trailing_ones w < 64)); [done|]. destruct Hne. apply all_ones; [done|]. intros i Hi. apply Hb. lia. }
  split; [lia|]. split; [apply Hc; lia|done].
Qed.

Lemma find_slot_spec wi words r :
  Forall (λ w, 0 ≤ w < U64) words → find_slot wi words = r →
  match r with
  | Some (wj, w, idx) => (wi ≤ wj)%nat ∧ words !! (wj - wi)%nat = Some w ∧ 0 ≤ w < U64 ∧ w ≠ u64_max ∧
      idx = Z.of_nat wj * 64 + trailing_ones w ∧ Forall (eq u64_max) (take (wj - wi) words)
  | None => Forall (eq u64_max) words
  end.
Proof using Type.
  intros Hw. revert wi r. induction Hw as [|w words Hw Hws IH]; intros wi r; cbn [find_slot]; [by intros <-|].
  destruct (Z.eqb_spec w u64_max) as [->|Hne]; cbn [negb].
  - intros Hr. specialize (IH (S wi) r Hr). destruct r as [[[wj w] idx]|]; [|by constructor].
    destruct IH as (Hle & Hl & ? & ? & ? & Ht). replace (wj - wi)%nat with (S (wj - S wi)) by lia. simpl.
    split_and!; try done; try lia. by constructor.
  - intros <-. rewrite Nat.sub_diag. simpl. split_and!; try done; lia.
Qed.

Lemma bit_at_insert words wi w' i :
  (wi < length words)%nat → 0 ≤ i →
  bit_at (<[wi := w']> words) i =
    if bool_decide (i / 64 = Z.of_nat wi) then Z.testbit w' (i mod 64) else bit_at words i.
Proof using Type.
  intros Hl Hi. unfold bit_at. case_bool_decide as E.
  - rewrite E, Nat2Z.id, list_lookup_insert_eq by done. done.
  - rewrite list_lookup_insert_ne; [done|]. intros ->. apply E. rewrite Z2Nat.id; [done|]. apply Z.div_pos; lia.
Qed.

Lemma full_word_bit words i :
  0 ≤ i → words !! Z.to_nat (i / 64) = Some u64_max → bit_at words i = true.
Proof using Type.
  intros Hi Hw. unfold bit_at. rewrite Hw. change u64_max with (Z.ones 64).
  pose proof (Z.mod_pos_bound i 64). apply Z.ones_spec_low. lia.
Qed.

Lemma split_index i : i = i / 64 * 64 + i mod 64 ∧ 0 ≤ i mod 64 < 64.
Proof using Type. pose proof (Z.div_mod i 64). pose proof (Z.mod_pos_bound i 64). lia. Qed.

(** A word with one bit changed. *)
Lemma set_bit_spec w b j : 0 ≤ b < 64 → 0 ≤ j → Z.testbit (Z.lor w (Z.shiftl 1 b)) j = (b =? j) || Z.testbit w j.
Proof using Type.
  intros Hb Hj. rewrite Z.lor_spec, Z.shiftl_1_l, Z.pow2_bits_eqb by lia. apply orb_comm.
Qed.

Lemma clear_bit_spec w b j : 0 ≤ b < 64 → 0 ≤ j → Z.testbit (Z.ldiff w (Z.shiftl 1 b)) j = negb (b =? j) && Z.testbit w j.
Proof using Type.
  intros Hb Hj. rewrite Z.ldiff_spec, Z.shiftl_1_l, Z.pow2_bits_eqb by lia. apply andb_comm.
Qed.

Lemma word_range w : 0 ≤ w → (∀ i, 64 ≤ i → Z.testbit w i = false) → 0 ≤ w < U64.
Proof using Type.
  intros Hw Hb. split; [done|]. destruct (decide (w = 0)) as [->|]; [done|].
  apply Z.log2_lt_pow2; [lia|]. destruct (decide (Z.log2 w < 64)); [done|].
  pose proof (Z.bit_log2 w ltac:(lia)) as Hbit. rewrite Hb in Hbit by lia. done.
Qed.

Lemma word_high w i : 0 ≤ w < U64 → 64 ≤ i → Z.testbit w i = false.
Proof using Type. intros Hw Hi. rewrite <- (Z.mod_small w (2 ^ 64)) by done. by apply Z.mod_pow2_bits_high. Qed.

Lemma size_below (X : gset Z) n : 0 ≤ n → (∀ i, i ∈ X → 0 ≤ i < n) → Z.of_nat (size X) ≤ n.
Proof using Type.
  intros Hn HX. assert (X ⊆ list_to_set (seqZ 0 n)) as Hsub.
  { intros i Hi%HX. apply elem_of_list_to_set, elem_of_seqZ. lia. }
  apply subseteq_size in Hsub. rewrite size_list_to_set in Hsub by apply NoDup_seqZ. rewrite length_seqZ in Hsub. lia.
Qed.

Lemma alloc_slot_ok X s :
  swap_rep X s →
  match alloc_slot s with
  | (Some i, s') => 0 ≤ i < slots s ∧ i ∉ X ∧ swap_rep (X ∪ {[i]}) s' ∧ dev s' = dev s ∧ slots s' = slots s
  | (None, s') => s' = s ∧ ∀ i, 0 ≤ i < slots s → i ∈ X
  end.
Proof using Type.
  intros [Hs Hw Hlen Hb Hr Hu]. unfold alloc_slot.
  pose proof (find_slot_spec 0 (bitmap s) _ Hw eq_refl) as Hf. destruct (find_slot 0 (bitmap s)) as [[[wi w] idx]|].
  - destruct Hf as (_ & Hl & Hwr & Hne & -> & Hfull). rewrite Nat.sub_0_r in *.
    destruct (trailing_ones_spec w Hwr Hne) as (Ht & Hclr & Hlow). set (b := trailing_ones w) in *.
    assert ((Z.of_nat wi * 64 + b) / 64 = Z.of_nat wi ∧ (Z.of_nat wi * 64 + b) mod 64 = b) as [Hd Hm].
    { rewrite Z.div_add_l, Z.div_small, (Z.add_comm _ b), Z.mod_add, Z.mod_small by lia. lia. }
    assert (Z.of_nat wi * 64 + b ∉ X) as Hnew.
    { intros Hin. specialize (Hb (Z.of_nat wi * 64 + b) ltac:(lia)). unfold bit_at in Hb.
      rewrite Hd, Hm, Nat2Z.id, Hl, Hclr, bool_decide_eq_true_2 in Hb by done. done. }
    destruct (Z.leb_spec (slots s) (Z.of_nat wi * 64 + b)) as [Hge|Hlt].
    + split; [done|]. intros i Hi. pose proof (split_index i). apply (bool_decide_eq_true_1 _). rewrite <- Hb by lia.
      destruct (decide (i / 64 < Z.of_nat wi)) as [Hlt|].
      * eapply full_word_bit; [lia|]. assert (Z.to_nat (i / 64) < wi)%nat as Hlt' by lia.
        rewrite <- (lookup_take_lt _ wi) by done. apply lookup_lt_Some in Hl as Hll.
        destruct (take wi (bitmap s) !! Z.to_nat (i / 64)) as [x|] eqn:Ex.
        { by rewrite (Forall_lookup_1 _ _ _ _ Hfull Ex). }
        apply lookup_ge_None in Ex. rewrite length_take in Ex. lia.
      * assert (i / 64 = Z.of_nat wi) as E by lia. unfold bit_at. rewrite E, Nat2Z.id, Hl. apply Hlow. lia.
    + apply lookup_lt_Some in Hl as Hll. split; [lia|]. split; [done|]. split; [|done]. split; simpl.
      * done.
      * apply Forall_insert; [done|]. apply word_range; [apply Z.lor_nonneg; split; [lia|apply Z.shiftl_nonneg; lia]|].
        intros j Hj. rewrite set_bit_spec, (word_high w) by lia. apply orb_false_iff. split; [apply Z.eqb_neq; lia|done].
      * by rewrite length_insert.
      * intros j Hj. rewrite bit_at_insert by done. pose proof (split_index j). case_bool_decide as E.
        { rewrite set_bit_spec by lia. specialize (Hb j Hj). unfold bit_at in Hb. rewrite E, Nat2Z.id, Hl in Hb. rewrite Hb.
          apply eq_bool_prop_intro. rewrite orb_True, !bool_decide_spec, Is_true_true, Z.eqb_eq. set_solver by lia. }
        rewrite Hb by done. apply bool_decide_ext. assert (j ≠ Z.of_nat wi * 64 + b) by (intros ->; lia). set_solver.
      * intros j Hj. apply elem_of_union in Hj as [Hj| ->%elem_of_singleton]; [by apply Hr|lia].
      * rewrite size_union, size_singleton, Hu by set_solver. rewrite Z.mod_small; [lia|].
        pose proof (size_below X (slots s) ltac:(lia) Hr). unfold U64. lia.
  - split; [done|]. intros i Hi. apply (bool_decide_eq_true_1 _). rewrite <- Hb by lia. pose proof (split_index i).
    destruct (bitmap s !! Z.to_nat (i / 64)) as [x|] eqn:Ex.
    + eapply full_word_bit; [lia|]. by rewrite Ex, (Forall_lookup_1 _ _ _ _ Hf Ex).
    + apply lookup_ge_None in Ex. assert (i / 64 < (slots s + 63) / 64); [|lia].
      replace (slots s + 63) with (slots s - 1 + 1 * 64) by lia. rewrite Z.div_add by lia.
      pose proof (Z.div_le_mono i (slots s - 1) 64). lia.
Qed.

Lemma free_slot_ok X s i :
  swap_rep X s → 0 ≤ i → swap_rep (X ∖ {[i]}) (free_slot i s) ∧ dev (free_slot i s) = dev s ∧ slots (free_slot i s) = slots s.
Proof using Type.
  intros [Hs Hw Hlen Hb Hr Hu] Hi. unfold free_slot. destruct (split_index i) as [Ei Hm].
  pose proof (Hb i Hi) as Hbi. unfold bit_at in Hbi.
  assert (i ∉ X → X ∖ {[i]} = X) as Hsame by (intros; set_solver).
  destruct (bitmap s !! Z.to_nat (i / 64)) as [w|] eqn:Hl.
  2:{ rewrite Hsame by (by apply bool_decide_eq_false_1 || (intros ?; by rewrite bool_decide_eq_true_2 in Hbi)). by split. }
  assert (Z.land w (Z.shiftl 1 (i mod 64)) = 0 ↔ Z.testbit w (i mod 64) = false) as Hland.
  { rewrite Z.shiftl_1_l. split.
    - intros E. assert (Z.testbit (Z.land w (2 ^ (i mod 64))) (i mod 64) = false) as Hz by (by rewrite E, Z.bits_0).
      rewrite Z.land_spec, Z.pow2_bits_true, andb_true_r in Hz by lia. done.
    - intros E. apply Z.bits_inj'. intros j Hj. rewrite Z.land_spec, Z.pow2_bits_eqb, Z.bits_0 by lia.
      destruct (Z.eqb_spec (i mod 64) j) as [<-|]; [by rewrite E|apply andb_false_r]. }
  destruct (Z.eqb_spec (Z.land w (Z.shiftl 1 (i mod 64))) 0) as [E|E]; cbn [negb].
  { rewrite (proj1 Hland E) in Hbi. rewrite Hsame; [by split|]. intros ?. by rewrite bool_decide_eq_true_2 in Hbi. }
  destruct (Z.testbit w (i mod 64)) eqn:Ht; [|by destruct E; apply Hland].
  symmetry in Hbi. apply bool_decide_eq_true_1 in Hbi. apply lookup_lt_Some in Hl as Hll.
  pose proof (Forall_lookup_1 _ _ _ _ Hw Hl) as Hwr. cbn beta in Hwr. split; [|done]. split; simpl.
  - done.
  - apply Forall_insert; [done|]. apply word_range; [rewrite Z.ldiff_land; apply Z.land_nonneg; lia|].
    intros j Hj. rewrite clear_bit_spec, (word_high w) by lia. apply andb_false_r.
  - by rewrite length_insert.
  - intros j Hj. rewrite bit_at_insert by done. pose proof (split_index j).
    rewrite Z2Nat.id by (apply Z.div_pos; lia). case_bool_decide as Ej.
    + rewrite clear_bit_spec by lia. specialize (Hb j Hj). unfold bit_at in Hb. rewrite Ej, Hl in Hb. rewrite Hb.
      apply eq_bool_prop_intro. rewrite andb_True, negb_True, !bool_decide_spec, Is_true_true, Z.eqb_eq. set_solver by lia.
    + rewrite Hb by done. apply bool_decide_ext. assert (j ≠ i) by (intros ->; lia). set_solver.
  - intros j Hj. apply Hr. set_solver.
  - rewrite size_difference, size_singleton, Hu by set_solver.
    assert (0 < size X)%nat by (apply Nat.neq_0_lt_0; intros Hz%size_empty_inv; set_solver +Hz Hbi).
    pose proof (size_below X (slots s) ltac:(lia) Hr). rewrite Z.mod_small; unfold U64; lia.
Qed.

Lemma store_page_ok `{!BlockDeviceLaws D} X s page :
  swap_rep X s →
  slots (store_page page s).2 = slots s ∧
  match store_page page s with
  | (Some i, s') => i ∉ X ∧ 0 ≤ i < slots s ∧ swap_rep (X ∪ {[i]}) s' ∧ read_slot i s' = Some page ∧
      ∀ j, j ∈ X → read_slot j s' = read_slot j s
  | (None, s') => swap_rep X s' ∧ (∀ j, j ∈ X → read_slot j s' = read_slot j s) ∧
      ((∀ i, 0 ≤ i < slots s → i ∈ X) ∨ ∃ i, (dev_write (dev s) (i * SECTORS_PER_SLOT) page).1 = false)
  end.
Proof using Type.
  intros Hrep. unfold store_page, write_slot, read_slot. pose proof (alloc_slot_ok X s Hrep) as Ha.
  destruct (alloc_slot s) as [[i|] s1].
  2:{ destruct Ha as [-> Ha]. split_and!; [done|done|done|by left]. }
  destruct Ha as (Hi & Hn & Hrep1 & Hd & Hsl). rewrite Hd. destruct (dev_write (dev s) (i * SECTORS_PER_SLOT) page) as [ok d] eqn:Ew.
  assert (swap_rep (X ∪ {[i]}) (with_dev d s1)) as Hrep2 by (destruct Hrep1; by split).
  assert (∀ j, j ∈ X → dev_read d (j * SECTORS_PER_SLOT) = dev_read (dev s) (j * SECTORS_PER_SLOT)) as Hother.
  { intros j Hj. pose proof (dev_read_other (dev s) i j page) as Ho. rewrite Ew in Ho. apply Ho. by intros ->. }
  destruct ok.
  - split_and!; [done|done|lia|lia|done|by eapply dev_read_write|]. intros j Hj. simpl. by apply Hother.
  - destruct (free_slot_ok (X ∪ {[i]}) (with_dev d s1) i Hrep2 ltac:(lia)) as (Hrep3 & Hd3 & Hs3).
    replace ((X ∪ {[i]}) ∖ {[i]}) with X in Hrep3 by set_solver. simpl in Hs3. split_and!; [by rewrite <- Hsl|done| |right; exists i; by rewrite Ew].
    intros j Hj. rewrite Hd3. simpl. by apply Hother.
Qed.

(** Swap keeps pages: the slot bitmap is a set of slots. Storing a page
    takes a slot no page uses, and the page reads back from it; when storing
    fails, no slot is lost, and it fails only when every slot is in use or the
    device refused the write. Pages stored earlier read back unchanged in
    either case, and the used counter is the size of the set. *)
Theorem swap_store_read `{!BlockDeviceLaws D} X s page :
  swap_rep X s →
  match store_page page s with
  | (Some i, s') => i ∉ X ∧ 0 ≤ i < slots s ∧ swap_rep (X ∪ {[i]}) s' ∧ read_slot i s' = Some page ∧
      ∀ j, j ∈ X → read_slot j s' = read_slot j s
  | (None, s') => swap_rep X s' ∧ (∀ j, j ∈ X → read_slot j s' = read_slot j s) ∧
      ((∀ i, 0 ≤ i < slots s → i ∈ X) ∨ ∃ i, (dev_write (dev s) (i * SECTORS_PER_SLOT) page).1 = false)
  end.
Proof using Type. intros Hrep. apply (store_page_ok X s page Hrep). Qed.

End Swap.

(** ** A device in memory *)

(** It refuses what is not a page. *)
#[export] Instance mem_device : BlockDevice (Z * gmap Z (list Z)) := {
  dev_sectors d := d.1;
  dev_read d s := page ← d.2 !! s; if decide (length page = Z.to_nat PAGE_SIZE) then Some page else None;
  dev_write d s page :=
    if decide (length page = Z.to_nat PAGE_SIZE) then (true, (d.1, <[s := page]> d.2)) else (false, d);
}.

#[export] Instance mem_device_laws : BlockDeviceLaws (Z * gmap Z (list Z)).
Proof.
  split; simpl.
  - intros d s page. by case_decide.
  - intros d s page. destruct (d.2 !! s); simpl; [|done]. case_decide; naive_solver.
  - intros d s page d'. case_decide; [|done]. intros [= <-]. simpl. rewrite lookup_insert_eq. simpl. by rewrite decide_True.
  - intros d i j page Hij. case_decide; [|done]. simpl. rewrite lookup_insert_ne; [done|]. change SECTORS_PER_SLOT with 8. lia.
Qed.

Definition demo_swap : SwapDev (Z * gmap Z (list Z)) := mkSwap (16, ∅) [0] 2 0.

Lemma demo_swap_rep : swap_rep ∅ demo_swap.
Proof.
  split; simpl; try done.
  - by repeat constructor.
  - intros i Hi. unfold bit_at. rewrite bool_decide_eq_false_2 by set_solver.
    destruct (Z.to_nat (i / 64)) as [|n]; simpl; [apply Z.bits_0|done].
Qed.

Lemma swap_store_read_witness :
  match store_page (replicate 4096 7) demo_swap with
  | (Some i, s') => i ∉ (∅ : gset Z) ∧ 0 ≤ i < 2 ∧ swap_rep (∅ ∪ {[i]}) s' ∧ read_slot i s' = Some (replicate 4096 7) ∧
      ∀ j, j ∈ (∅ : gset Z) → read_slot j s' = read_slot j demo_swap
  | (None, s') => swap_rep ∅ s' ∧ (∀ j, j ∈ (∅ : gset Z) → read_slot j s' = read_slot j demo_swap) ∧
      ((∀ i, 0 ≤ i < 2 → i ∈ (∅ : gset Z)) ∨ ∃ i, (dev_write (dev demo_swap) (i * SECTORS_PER_SLOT) (replicate 4096 7)).1 = false)
  end.
Proof. apply (swap_store_read ∅ demo_swap (replicate 4096 7) demo_swap_rep). Defined.
