(* ===== verification/AddrSpace.v ===== *)
(** * User address spaces

    Models [kernel/src/mm/aspace.rs] and the memory system calls of
    [kernel/src/syscall/mem.rs]: regions with demand-filled, copy-on-write,
    shared and swapped pages.  A method of [AddressSpace] is an execution on
    the machine (frames, swap, container limits, shared objects) and the space
    itself; locks make each method atomic.  The invariant is in
    [SpaceInv] and the theorems in the [Space] files. *)

From stdpp Require Import sorting.
From S2P Require Import Prelude Errno UAccess Vma Frame Paging Cgroup Swap.

(** What a mapping needs of an open file: at most [n] bytes from an offset (an
    error reads as no bytes), and the shared page set of files that have one. *)
Class MappedFile (F : Type) := {
  pread : F → Z → Z → list Z;
  shared_mmap : F → option Z;
}.

Record AddressSpace (F : Type) := mkSpace {
  pml4 : Z;
  regions : list (Region F);
  brk : Z;
  brk_base : Z;
  mmap_top : Z;
  container : option (list Z);
  committed : Z;
}.
Arguments mkSpace {F}.
Arguments pml4 {F}.
Arguments regions {F}.
Arguments brk {F}.
Arguments brk_base {F}.
Arguments mmap_top {F}.
Arguments container {F}.
Arguments committed {F}.

(** The machine and the space a method runs on.  [live] names the [SharedAnon]
    objects in existence; [pages] maps an object and an offset to the frame. *)
Record St (A D F : Type) := mkSt {
  phys : Phys A;
  swap : option (SwapDev D);
  cgroups : gmap (list Z) Cgroup;
  live : gset Z;
  pages : gmap (Z * Z) Z;
  space : AddressSpace F;
}.
Arguments mkSt {A D F}.
Arguments phys {A D F}.
Arguments swap {A D F}.
Arguments cgroups {A D F}.
Arguments live {A D F}.
Arguments pages {A D F}.
Arguments space {A D F}.

Definition PTE_SWAPPED : Z := 2 ^ 10.
Definition RECLAIM_BATCH : Z := 32.
Definition MMAP_TOP : Z := 0x7F0000000000.

Definition to_page_flags (prot : Z) : Z :=
  let f := USER in
  let f := if Prot.contains prot Prot.WRITE then Z.lor f WRITABLE else f in
  if negb (Prot.contains prot Prot.EXEC) then Z.lor f NO_EXECUTE else f.

Definition map_err (e : MapError) : Errno := match e with OutOfMemory => ENOMEM | _ => EFAULT end.

Section AddrSpace.
Context {A D F : Type} `{FrameAllocator A} `{BlockDevice D} `{MappedFile F}.
(** The entries of the kernel's half of every root table. *)
Context (kernel_half : gmap Z Z).
Implicit Types σ : St A D F.

(** ** Fields *)

Definition with_phys (p : Phys A) σ : St A D F := mkSt p (swap σ) (cgroups σ) (live σ) (pages σ) (space σ).
Definition with_swap (s : option (SwapDev D)) σ : St A D F := mkSt (phys σ) s (cgroups σ) (live σ) (pages σ) (space σ).
Definition with_cgroups (g : gmap (list Z) Cgroup) σ : St A D F := mkSt (phys σ) (swap σ) g (live σ) (pages σ) (space σ).
Definition with_live (l : gset Z) σ : St A D F := mkSt (phys σ) (swap σ) (cgroups σ) l (pages σ) (space σ).
Definition with_pages (o : gmap (Z * Z) Z) σ : St A D F := mkSt (phys σ) (swap σ) (cgroups σ) (live σ) o (space σ).
Definition with_space (s : AddressSpace F) σ : St A D F := mkSt (phys σ) (swap σ) (cgroups σ) (live σ) (pages σ) s.

Definition set_regions (rs : list (Region F)) (s : AddressSpace F) : AddressSpace F :=
  mkSpace (pml4 s) rs (brk s) (brk_base s) (mmap_top s) (container s) (committed s).
Definition set_brk (b : Z) (s : AddressSpace F) : AddressSpace F :=
  mkSpace (pml4 s) (regions s) b (brk_base s) (mmap_top s) (container s) (committed s).
Definition set_base (b : Z) (s : AddressSpace F) : AddressSpace F :=
  mkSpace (pml4 s) (regions s) (brk s) b (mmap_top s) (container s) (committed s).
Definition set_top (t : Z) (s : AddressSpace F) : AddressSpace F :=
  mkSpace (pml4 s) (regions s) (brk s) (brk_base s) t (container s) (committed s).
Definition set_committed (n : Z) (s : AddressSpace F) : AddressSpace F :=
  mkSpace (pml4 s) (regions s) (brk s) (brk_base s) (mmap_top s) (container s) n.

(** [set_container] *)
Definition set_container (c : option (list Z)) (s : AddressSpace F) : AddressSpace F :=
  mkSpace (pml4 s) (regions s) (brk s) (brk_base s) (mmap_top s) c (committed s).

Definition on_phys {X} (m : Exec (Phys A) X) : Exec (St A D F) X := λ σ,
  match m (phys σ) with Some (x, p) => Some (x, with_phys p σ) | None => None end.

Definition upd_space (f : AddressSpace F → AddressSpace F) : Exec (St A D F) unit :=
  modify (λ σ, with_space (f (space σ)) σ).

Definition root : Exec (St A D F) Z := gets (λ σ, pml4 (space σ)).

(** [?] on an option. *)
Definition ok_or {X} (e : Errno) (o : option X) : Exec (St A D F) (KResult X) :=
  mret (match o with Some x => inr x | None => inl e end).

(** ** Creation and accounting *)

Definition new_space : Exec (St A D F) (KResult (AddressSpace F)) :=
  r ← on_phys (alloc_zeroed (Table ∅));
  match r with
  | None => mret (inl ENOMEM)
  | Some pml4 =>
      _ ← on_phys (write_frame pml4 (Table kernel_half));
      mret (inr (mkSpace pml4 [] 0 0 MMAP_TOP None 0))
  end.

Definition rss_bytes (s : AddressSpace F) : option Z := mul64 (committed s) PAGE_SIZE.

Definition virt_bytes (s : AddressSpace F) : option Z :=
  foldl (λ acc r, n ← acc; add64 n (end_ r - start r)) (Some 0) (regions s).

Definition charge_page : Exec (St A D F) bool :=
  σ ← get;
  let '(ok, g) :=
    match container (space σ) with
    | Some c => try_charge_page c (cgroups σ)
    | None => (true, cgroups σ)
    end in
  _ ← modify (with_cgroups g);
  if negb ok then mret false
  else _ ← upd_space (λ s, set_committed ((committed s + 1) mod U64) s); mret true.

Definition uncharge_pages (n : Z) : Exec (St A D F) unit :=
  if n =? 0 then mret tt
  else
    _ ← upd_space (λ s, set_committed (committed s - Z.min n (committed s)) s);
    modify (λ σ, match container (space σ) with
                 | Some c => with_cgroups (Cgroup.uncharge_pages c n (cgroups σ)) σ
                 | None => σ
                 end).

Definition charge_swap : Exec (St A D F) bool := λ σ,
  match container (space σ) with
  | Some c => let '(ok, g) := try_charge_swap c (cgroups σ) in Some (ok, with_cgroups g σ)
  | None => Some (true, σ)
  end.

Definition uncharge_swap (n : Z) : Exec (St A D F) unit :=
  modify (λ σ, match container (space σ) with
               | Some c => with_cgroups (Cgroup.uncharge_swap c n (cgroups σ)) σ
               | None => σ
               end).

(** ** Adding regions *)

(** The body the four [map_*_region] functions share: [mk] is the region they
    push. *)
Definition insert_region (s e : Z) (mk : Z → Z → Exec (St A D F) (Region F)) : Exec (St A D F) (KResult unit) :=
  let s := align_down s in
  e ← need (align_up e);
  if (s <? USER_START) || (USER_END <? e) || (e <=? s) then mret (inl EINVAL)
  else
    σ ← get;
    if overlaps (regions (space σ)) s e then mret (inl EEXIST)
    else
      r ← mk s e;
      _ ← upd_space (λ sp, set_regions (regions sp ++ [r]) sp);
      mret (inr tt).

Definition map_region (s e prot : Z) (grows_down : bool) : Exec (St A D F) (KResult unit) :=
  insert_region s e (λ s e, mret (mkRegion s e prot grows_down None None 0)).

(** [SharedAnon::new]: an object no one has. *)
Definition new_object : Exec (St A D F) Z :=
  σ ← get;
  let o := fresh (live σ) in
  _ ← modify (with_live ({[o]} ∪ live σ));
  mret o.

Definition map_shared_region (s e prot : Z) : Exec (St A D F) (KResult unit) :=
  insert_region s e (λ s e, o ← new_object; mret (mkRegion s e prot false None (Some o) 0)).

Definition map_file_region (s e prot : Z) (f : F) (offset length : Z) : Exec (St A D F) (KResult unit) :=
  insert_region s e (λ s e, mret (mkRegion s e prot false (Some (mkBacking f offset length)) None 0)).

Definition map_shared_file_region (s e prot obj base : Z) : Exec (St A D F) (KResult unit) :=
  insert_region s e (λ s e, mret (mkRegion s e prot false None (Some obj) base)).

Definition map_segment (s e prot : Z) (f : F) (offset length : Z) : Exec (St A D F) (KResult unit) :=
  map_file_region s e prot f offset length.

Definition attach_shared (hint len prot obj : Z) : Exec (St A D F) (KResult Z) :=
  len ← need (align_up (Z.max len 1));
  σ ← get;
  hinted ← (if USER_START <=? hint then
              let s := align_down hint in
              e ← need (add64 s len);
              mret (if negb (overlaps (regions (space σ)) s e) && (e <=? USER_END) then Some s else None)
            else mret None);
  s ←? match hinted with
       | Some s => mret (inr s)
       | None =>
           top ← gets (λ σ, mmap_top (space σ));
           s ←? ok_or ENOMEM (sub64 top len);
           let s := align_down s in
           _ ← upd_space (set_top s);
           mret (inr s)
       end;
  e ← need (add64 s len);
  σ ← get;
  if overlaps (regions (space σ)) s e then mret (inl EEXIST)
  else
    _ ← upd_space (λ sp, set_regions (regions sp ++ [mkRegion s e prot false None (Some obj) 0]) sp);
    mret (inr s).

(** ** Unmapping *)

Definition swap_free (slot : Z) : Exec (St A D F) unit :=
  modify (λ σ, with_swap (free_slot slot <$> swap σ) σ).

Definition free_swap_entry (pml4 va : Z) : Exec (St A D F) bool :=
  o ← on_phys (leaf_entry pml4 va);
  match o with
  | None => mret false
  | Some ptr =>
      pte ← on_phys (read_entry ptr);
      if negb (has pte PRESENT) && has pte PTE_SWAPPED then
        _ ← swap_free (Z.shiftr pte 12);
        _ ← on_phys (write_entry ptr 0);
        mret true
      else mret false
  end.

(** The loop over [n] pages from [va]: pages freed and swap slots released. *)
Fixpoint unmap_pages (n : nat) (pml4 va : Z) (freed swapped : Z) : Exec (St A D F) (Z * Z) :=
  match n with
  | O => mret (freed, swapped)
  | S n' =>
      s ← free_swap_entry pml4 va;
      if s : bool then unmap_pages n' pml4 (va + PAGE_SIZE) freed (swapped + 1)
      else
        r ← on_phys (unmap_4k pml4 va);
        match r with
        | Some (frame, fl) =>
            if has fl PRESENT then
              _ ← on_phys (page_put frame);
              unmap_pages n' pml4 (va + PAGE_SIZE) (freed + 1) swapped
            else unmap_pages n' pml4 (va + PAGE_SIZE) freed swapped
        | None => unmap_pages n' pml4 (va + PAGE_SIZE) freed swapped
        end
  end.

Definition unmap (s len : Z) : Exec (St A D F) (KResult unit) :=
  e ← need (add64 s len);
  e ← need (align_up e);
  let s := align_down s in
  σ ← get;
  rs ← need (carve s e (regions (space σ)));
  _ ← upd_space (set_regions rs);
  pml4 ← root;
  r ← unmap_pages (pages_between s e) pml4 s 0 0;
  _ ← uncharge_pages r.1;
  _ ← uncharge_swap r.2;
  mret (inr tt).

(** ** Mapping *)

(** [place] of [mmap]. *)
Definition place (s len prot : Z) (file : option (F * Z)) (shared : bool) : Exec (St A D F) (KResult unit) :=
  e ← need (add64 s len);
  match file with
  | Some (f, off) =>
      if shared then
        match shared_mmap f with
        | Some obj => map_shared_file_region s e prot obj off
        | None => map_file_region s e prot f off len
        end
      else map_file_region s e prot f off len
  | None => if shared then map_shared_region s e prot else map_region s e prot false
  end.

(** The fall-back: below everything placed so far. *)
Definition mmap_below (len prot : Z) (file : option (F * Z)) (shared : bool) : Exec (St A D F) (KResult Z) :=
  top ← gets (λ σ, mmap_top (space σ));
  s ←? ok_or ENOMEM (sub64 top len);
  let s := align_down s in
  _ ←? place s len prot file shared;
  _ ← upd_space (set_top s);
  mret (inr s).

Definition mmap (hint len prot : Z) (fixed : bool) (file : option (F * Z)) (shared : bool) : Exec (St A D F) (KResult Z) :=
  len ← need (align_up (Z.max len 1));
  if fixed then
    let s := align_down hint in
    _ ← unmap s len;
    _ ←? place s len prot file shared;
    mret (inr s)
  else if USER_START <=? hint then
    let s := align_down hint in
    e ← need (add64 s len);
    σ ← get;
    if negb (overlaps (regions (space σ)) s e) && (e <=? USER_END) then
      _ ←? place s len prot file shared;
      mret (inr s)
    else mmap_below len prot file shared
  else mmap_below len prot file shared.

(** ** Protection *)

(** The new entry of a present page; a copy-on-write page stays read-only. *)
Definition reflag (e prot : Z) : Z :=
  let fl := to_page_flags prot in
  let fl := if has e COW then Z.ldiff fl WRITABLE else fl in
  Z.lor (Z.land e (Z.lor (Z.lor (Z.lor (Z.lor (entry_addr e) PRESENT) COW) ACCESSED) DIRTY)) fl.

Fixpoint protect_pages (n : nat) (pml4 va prot : Z) : Exec (St A D F) unit :=
  match n with
  | O => mret tt
  | S n' =>
      o ← on_phys (leaf_entry pml4 va);
      _ ← match o with
          | Some ptr =>
              e ← on_phys (read_entry ptr);
              if has e PRESENT then on_phys (write_entry ptr (reflag e prot)) else mret tt
          | None => mret tt
          end;
      protect_pages n' pml4 (va + PAGE_SIZE) prot
  end.

Definition protect (s len prot : Z) : Exec (St A D F) (KResult unit) :=
  e ← need (add64 s len);
  e ← need (align_up e);
  let s := align_down s in
  σ ← get;
  if negb (existsb (λ r, (start r <=? s) && (e <=? end_ r)) (regions (space σ))) then mret (inl ENOMEM)
  else
    rs ← need (split_prot s e prot (regions (space σ)));
    _ ← upd_space (set_regions rs);
    pml4 ← root;
    _ ← protect_pages (pages_between s e) pml4 s prot;
    mret (inr tt).

(** [describe] *)
Definition describe (s : AddressSpace F) (addr : Z) : option (Z * Z * Z * bool) :=
  r ← region_at (regions s) addr;
  Some (start r, addr - start r, prot r, match backing r with Some _ => true | None => false end).

(** ** Swapping out *)

Definition enabled : Exec (St A D F) bool := gets (λ σ, match swap σ with Some _ => true | None => false end).

(** The bytes of a user page. *)
Definition page_bytes (frame : Z) : Exec (St A D F) (list Z) :=
  σ ← get;
  need (match mem (phys σ) !! frame with Some (Page bs) => Some bs | _ => None end).

Definition swap_store (frame : Z) : Exec (St A D F) (option Z) :=
  σ ← get;
  match swap σ with
  | None => mret None
  | Some sw =>
      bs ← page_bytes frame;
      let '(r, sw) := store_page bs sw in
      _ ← modify (with_swap (Some sw));
      mret r
  end.

(** The second half of [try_evict], after the page was written out. *)
Definition evict_commit (va frame slot : Z) : Exec (St A D F) bool :=
  pml4 ← root;
  o ← on_phys (leaf_entry pml4 va);
  match o with
  | None => _ ← swap_free slot; mret false
  | Some ptr =>
      pte ← on_phys (read_entry ptr);
      if negb (has pte PRESENT) || negb (entry_addr pte =? frame) || has pte DIRTY then
        _ ← swap_free slot; mret false
      else
        ok ← charge_swap;
        if negb ok then _ ← swap_free slot; mret false
        else
          _ ← on_phys (write_entry ptr (Z.lor (Z.shiftl slot 12 mod U64) PTE_SWAPPED));
          _ ← on_phys (page_put frame);
          _ ← uncharge_pages 1;
          mret true
  end.

(** The first half: the frame to write out, its DIRTY bit cleared. *)
Definition evict_stage (va : Z) (force : bool) : Exec (St A D F) (option Z) :=
  pml4 ← root;
  o ← on_phys (leaf_entry pml4 va);
  match o with
  | None => mret None
  | Some ptr =>
      pte ← on_phys (read_entry ptr);
      if negb (has pte PRESENT) || has pte COW then mret None
      else
        n ← on_phys (page_count (entry_addr pte));
        if negb (n =? 1) then mret None
        else if negb force && has pte ACCESSED then
          _ ← on_phys (write_entry ptr (Z.ldiff pte ACCESSED)); mret None
        else
          _ ← on_phys (write_entry ptr (Z.ldiff pte DIRTY)); mret (Some (entry_addr pte))
  end.

Definition try_evict (va : Z) (force : bool) : Exec (St A D F) bool :=
  o ← evict_stage va force;
  match o with
  | None => mret false
  | Some frame =>
      r ← swap_store frame;
      match r with
      | None => mret false
      | Some slot => evict_commit va frame slot
      end
  end.

Fixpoint reclaim_range (n : nat) (va target : Z) (force : bool) (freed : Z) : Exec (St A D F) Z :=
  match n with
  | O => mret freed
  | S n' =>
      if target <=? freed then mret freed
      else
        ok ← try_evict va force;
        reclaim_range n' (va + PAGE_SIZE) target force (if ok : bool then freed + 1 else freed)
  end.

Definition reclaimable (r : Region F) : bool :=
  match backing r, shared r with
  | None, None => Prot.contains (prot r) Prot.WRITE
  | _, _ => false
  end.

Fixpoint reclaim_regions (rs : list (Region F)) (target : Z) (force : bool) (freed : Z) : Exec (St A D F) Z :=
  match rs with
  | [] => mret freed
  | r :: rs' =>
      freed ← reclaim_range (pages_between (start r) (end_ r)) (start r) target force freed;
      reclaim_regions rs' target force freed
  end.

Definition reclaim_pass (target : Z) (force : bool) : Exec (St A D F) Z :=
  σ ← get;
  reclaim_regions (List.filter reclaimable (regions (space σ))) target force 0.

Definition reclaim (target : Z) : Exec (St A D F) Z :=
  on ← enabled;
  if negb on then mret 0
  else
    freed ← reclaim_pass target false;
    if freed <? target then
      more ← reclaim_pass (target - freed) true; mret (freed + more)
    else mret freed.

Definition alloc_pressure : Exec (St A D F) (option Z) :=
  r ← on_phys alloc_user_page;
  match r with
  | Some p => mret (Some p)
  | None => _ ← reclaim RECLAIM_BATCH; on_phys alloc_user_page
  end.

(** [charge_page], reclaiming once. *)
Definition charge_pressure : Exec (St A D F) bool :=
  ok ← charge_page;
  if ok : bool then mret true
  else _ ← reclaim RECLAIM_BATCH; charge_page.

(** ** Bringing pages in *)

Definition map_page (pml4 page frame prot : Z) : Exec (St A D F) (KResult unit) :=
  r ← on_phys (map_4k pml4 page frame (to_page_flags prot));
  mret (match r with inl e => inl (map_err e) | inr _ => inr tt end).

Definition do_cow (ptr : Z * Z) : Exec (St A D F) (KResult unit) :=
  e ← on_phys (read_entry ptr);
  let old := entry_addr e in
  n ← on_phys (page_count old);
  if n =? 1 then
    _ ← on_phys (write_entry ptr (Z.lor (Z.ldiff e COW) WRITABLE)); mret (inr tt)
  else
    r ← on_phys alloc_user_page;
    match r with
    | None => mret (inl ENOMEM)
    | Some new =>
        bs ← page_bytes old;
        _ ← on_phys (write_frame new (Page bs));
        let keep := Z.land e (Z.lor USER NO_EXECUTE) in
        _ ← on_phys (write_entry ptr (Z.lor (Z.lor (Z.lor new PRESENT) WRITABLE) keep));
        _ ← on_phys (page_put old);
        mret (inr tt)
    end.

Definition swap_in (page : Z) (ptr : Z * Z) (r : Region F) : Exec (St A D F) (KResult unit) :=
  e ← on_phys (read_entry ptr);
  let slot := Z.shiftr e 12 in
  ok ← charge_pressure;
  if negb ok then mret (inl ENOMEM)
  else
    o ← alloc_pressure;
    match o with
    | None => _ ← uncharge_pages 1; mret (inl ENOMEM)
    | Some frame =>
        σ ← get;
        match swap σ ≫= read_slot slot with
        | None => _ ← on_phys (page_put frame); _ ← uncharge_pages 1; mret (inl EIO)
        | Some bs =>
            _ ← on_phys (write_frame frame (Page bs));
            pml4 ← root;
            _ ←? map_page pml4 page frame (prot r);
            _ ← swap_free slot;
            _ ← uncharge_swap 1;
            mret (inr tt)
        end
    end.

(** The frame behind an offset of a shared object, with a reference for the
    page table; allocated on first use. *)
Definition shared_frame (obj off : Z) : Exec (St A D F) (KResult Z) :=
  σ ← get;
  match pages σ !! (obj, off) with
  | Some p => _ ← on_phys (page_get p); mret (inr p)
  | None =>
      o ← alloc_pressure;
      match o with
      | None => _ ← uncharge_pages 1; mret (inl ENOMEM)
      | Some p =>
          _ ← modify (λ σ, with_pages (<[(obj, off) := p]> (pages σ)) σ);
          _ ← on_phys (page_get p);
          mret (inr p)
      end
  end.

(** [bs] written over the start of a zeroed page. *)
Definition fill (bs : list Z) : list Z := bs ++ drop (length bs) zero_page.

(** What a fresh page of a private region holds. *)
Definition initial (r : Region F) (page : Z) : option (list Z) :=
  match backing r with
  | None => Some zero_page
  | Some b =>
      let page_off := page - start r in
      if page_off <? length_ b then
        off ← add64 (offset b) page_off;
        Some (fill (take (Z.to_nat (Z.min (length_ b - page_off) PAGE_SIZE))
                      (pread (file b) off (Z.min (length_ b - page_off) PAGE_SIZE))))
      else Some zero_page
  end.

Definition new_page (page : Z) (r : Region F) : Exec (St A D F) (KResult unit) :=
  ok ← charge_pressure;
  if negb ok then mret (inl ENOMEM)
  else
    pml4 ← root;
    match shared r with
    | Some obj =>
        off ← need (add64 (shared_base r) (page - start r));
        frame ←? shared_frame obj off;
        map_page pml4 page frame (prot r)
    | None =>
        o ← alloc_pressure;
        match o with
        | None => _ ← uncharge_pages 1; mret (inl ENOMEM)
        | Some frame =>
            bs ← need (initial r page);
            _ ← on_phys (write_frame frame (Page bs));
            map_page pml4 page frame (prot r)
        end
    end.

Definition ensure_page (page : Z) (r : Region F) (write : bool) : Exec (St A D F) (KResult unit) :=
  pml4 ← root;
  o ← on_phys (leaf_entry pml4 page);
  match o with
  | None => new_page page r
  | Some ptr =>
      e ← on_phys (read_entry ptr);
      if has e PRESENT then
        if write && has e COW then do_cow ptr else mret (inr tt)
      else if has e PTE_SWAPPED then swap_in page ptr r
      else new_page page r
  end.

(** ** Faults and access by the kernel *)

Definition try_grow_stack (page : Z) : Exec (St A D F) (option (Region F)) :=
  σ ← get;
  match grow_stack (regions (space σ)) page with
  | Some (r, rs) => _ ← upd_space (set_regions rs); mret (Some r)
  | None => mret None
  end.

Definition handle_fault (addr : Z) (write exec : bool) : Exec (St A D F) bool :=
  if negb ((USER_START <=? addr) && (addr <? USER_END)) then mret false
  else
    let page := align_down addr in
    σ ← get;
    o ← match region_at (regions (space σ)) page with
        | Some r => mret (Some r)
        | None => try_grow_stack page
        end;
    match o with
    | None => mret false
    | Some r =>
        if write && negb (Prot.contains (prot r) Prot.WRITE) then mret false
        else if exec && negb (Prot.contains (prot r) Prot.EXEC) then mret false
        else
          res ← ensure_page page r write;
          mret (match res with inr _ => true | inl _ => false end)
    end.

Definition fault_in (page : Z) (write : bool) : Exec (St A D F) (KResult unit) :=
  σ ← get;
  r ←? ok_or EFAULT (region_at (regions (space σ)) page);
  if write && negb (Prot.contains (prot r) Prot.WRITE) then mret (inl EFAULT)
  else ensure_page page r write.

Fixpoint fault_in_pages (n : nat) (page : Z) (write : bool) : Exec (St A D F) (KResult unit) :=
  match n with
  | O => mret (inr tt)
  | S n' => _ ←? fault_in page write; fault_in_pages n' (page + PAGE_SIZE) write
  end.

Definition fault_in_range (addr len : Z) (write : bool) : Exec (St A D F) (KResult unit) :=
  if len =? 0 then mret (inr tt)
  else
    e ←? ok_or EFAULT (add64 addr len);
    fault_in_pages (pages_between (align_down addr) e) (align_down addr) write.

Definition phys_of (va : Z) : Exec (St A D F) (option Z) :=
  pml4 ← root;
  r ← on_phys (translate pml4 va);
  mret (fst <$> r).

Definition phys_translate (va : Z) : Exec (St A D F) (KResult Z) :=
  let page := align_down va in
  _ ←? fault_in page false;
  o ← phys_of page;
  base ←? ok_or EFAULT o;
  p ← need (add64 base (Z.land va (PAGE_SIZE - 1)));
  mret (inr p).

(** [bs] over a page from [off] on. *)
Definition splice (page : list Z) (off : nat) (bs : list Z) : list Z :=
  take off page ++ bs ++ drop (off + length bs) page.

(** The copies through the direct map, at physical address [pa]. *)
Definition store_bytes (pa : Z) (bs : list Z) : Exec (St A D F) unit :=
  page ← page_bytes (align_down pa);
  on_phys (write_frame (align_down pa) (Page (splice page (Z.to_nat (pa mod PAGE_SIZE)) bs))).

Definition load_bytes (pa n : Z) : Exec (St A D F) (list Z) :=
  page ← page_bytes (align_down pa);
  mret (take (Z.to_nat n) (drop (Z.to_nat (pa mod PAGE_SIZE)) page)).

(** [write] and [read]; each turn handles the rest of one page, so one turn
    more than the bytes is enough. *)
Fixpoint write_loop (fuel : nat) (va : Z) (data : list Z) : Exec (St A D F) (KResult unit) :=
  match fuel with
  | O => panic
  | S fuel' =>
      match data with
      | [] => mret (inr tt)
      | _ =>
          let page := align_down va in
          _ ←? fault_in page true;
          let n := Z.min (PAGE_SIZE - (va - page)) (Z.of_nat (length data)) in
          o ← phys_of va;
          pa ←? ok_or EFAULT o;
          _ ← store_bytes pa (take (Z.to_nat n) data);
          va ← need (add64 va n);
          write_loop fuel' va (drop (Z.to_nat n) data)
      end
  end.

Definition write (addr : Z) (data : list Z) : Exec (St A D F) (KResult unit) :=
  write_loop (S (length data)) addr data.

Fixpoint read_loop (fuel : nat) (va len : Z) : Exec (St A D F) (KResult (list Z)) :=
  match fuel with
  | O => panic
  | S fuel' =>
      if len <=? 0 then mret (inr [])
      else
        let page := align_down va in
        _ ←? fault_in page false;
        let n := Z.min (PAGE_SIZE - (va - page)) len in
        o ← phys_of va;
        pa ←? ok_or EFAULT o;
        bs ← load_bytes pa n;
        va ← need (add64 va n);
        rest ←? read_loop fuel' va (len - n);
        mret (inr (bs ++ rest))
  end.

Definition read (addr len : Z) : Exec (St A D F) (KResult (list Z)) :=
  read_loop (S (Z.to_nat len)) addr len.

(** [read_cstr]: at most [max] bytes before the NUL. *)
Fixpoint read_cstr (max : nat) (addr : Z) : Exec (St A D F) (KResult (list Z)) :=
  match max with
  | O => mret (inl ENAMETOOLONG)
  | S max' =>
      b ←? read addr 1;
      if bool_decide (b = [0]) then mret (inr [])
      else
        addr ← need (add64 addr 1);
        rest ←? read_cstr max' addr;
        mret (inr (b ++ rest))
  end.

(** ** Fork, break and teardown *)

Fixpoint fork_pages (n : nat) (child va : Z) (r : Region F) : Exec (St A D F) (KResult unit) :=
  match n with
  | O => mret (inr tt)
  | S n' =>
      pml4 ← root;
      o ← on_phys (leaf_entry pml4 va);
      _ ← match o with
          | Some ptr =>
              e ← on_phys (read_entry ptr);
              if negb (has e PRESENT) && has e PTE_SWAPPED
              then _ ← swap_in va ptr r; mret tt
              else mret tt
          | None => mret tt
          end;
      o ← on_phys (leaf_entry pml4 va);
      _ ←? match o with
           | Some ptr =>
               e ← on_phys (read_entry ptr);
               if has e PRESENT then
                 let private := match shared r with Some _ => false | None => true end in
                 let e' := if private && has e WRITABLE then Z.lor (Z.ldiff e WRITABLE) COW else e in
                 _ ← on_phys (write_entry ptr e');
                 _ ← on_phys (page_get (entry_addr e));
                 m ← on_phys (map_4k child va (entry_addr e) (Z.ldiff e' (entry_addr e')));
                 mret (match m with inl x => inl (map_err x) | inr _ => inr tt end)
               else mret (inr tt)
           | None => mret (inr tt)
           end;
      fork_pages n' child (va + PAGE_SIZE) r
  end.

Fixpoint fork_regions (child : Z) (rs : list (Region F)) : Exec (St A D F) (KResult unit) :=
  match rs with
  | [] => mret (inr tt)
  | r :: rs' =>
      _ ←? fork_pages (pages_between (start r) (end_ r)) child (start r) r;
      fork_regions child rs'
  end.

(** A child that fails half-way is dropped with no regions: its tables go. *)
Definition fork : Exec (St A D F) (KResult (AddressSpace F)) :=
  child ←? new_space;
  σ ← get;
  let rs := regions (space σ) in
  res ← fork_regions (pml4 child) rs;
  match res with
  | inl e => _ ← on_phys (_ ← free_lower_tables (pml4 child); free (pml4 child)); mret (inl e)
  | inr _ =>
      σ ← get;
      mret (inr (mkSpace (pml4 child) rs (brk (space σ)) (brk_base (space σ)) (mmap_top (space σ)) None 0))
  end.

Definition set_brk_base (base : Z) : Exec (St A D F) unit :=
  base ← need (align_up base);
  upd_space (λ s, set_brk base (set_base base s)).

Definition do_brk (addr : Z) : Exec (St A D F) Z :=
  σ ← get;
  let base := brk_base (space σ) in
  let cur := brk (space σ) in
  if addr <? base then mret cur
  else
    new ← need (align_up addr);
    if cur <? new then
      match brk_extend base cur new (regions (space σ)) with
      | Some rs => _ ← upd_space (λ s, set_brk new (set_regions rs s)); mret new
      | None => mret cur
      end
    else if new <? cur then
      _ ← unmap new (cur - new);
      _ ← upd_space (set_brk new);
      mret new
    else _ ← upd_space (set_brk new); mret new.

Fixpoint drop_regions (pml4 : Z) (rs : list (Region F)) (freed swapped : Z) : Exec (St A D F) (Z * Z) :=
  match rs with
  | [] => mret (freed, swapped)
  | r :: rs' =>
      x ← unmap_pages (pages_between (start r) (end_ r)) pml4 (start r) freed swapped;
      drop_regions pml4 rs' x.1 x.2
  end.

(** [Drop for AddressSpace]. *)
Definition drop_space : Exec (St A D F) unit :=
  σ ← get;
  let pml4 := pml4 (space σ) in
  let rs := regions (space σ) in
  _ ← upd_space (set_regions []);
  x ← drop_regions pml4 rs 0 0;
  _ ← uncharge_pages x.1;
  _ ← uncharge_swap x.2;
  _ ← on_phys (free_lower_tables pml4);
  on_phys (free pml4).

(** [Drop for SharedAnon]: the object's own references go. *)
Fixpoint put_all (frames : list Z) : Exec (St A D F) unit :=
  match frames with
  | [] => mret tt
  | p :: frames' => _ ← on_phys (page_put p); put_all frames'
  end.

(** The offsets an object has pages at, in order. *)
Definition offsets (obj : Z) (m : gmap (Z * Z) Z) : list Z :=
  merge_sort Z.le ((λ kv, kv.1.2) <$> map_to_list (filter (λ kv, kv.1.1 = obj) m)).

Definition drop_object (obj : Z) : Exec (St A D F) unit :=
  σ ← get;
  _ ← put_all (omap (λ off, pages σ !! (obj, off)) (offsets obj (pages σ)));
  modify (λ σ, with_live (live σ ∖ {[obj]}) (with_pages (filter (λ kv, kv.1.1 ≠ obj) (pages σ)) σ)).

(** ** System calls *)

Definition MAP_SHARED : Z := 0x01.
Definition MAP_PRIVATE : Z := 0x02.
Definition MAP_FIXED : Z := 0x10.
Definition MAP_ANONYMOUS : Z := 0x20.

Definition prot_from (bits : Z) : Z :=
  let p := Prot.NONE in
  let p := if has bits 1 then Z.lor p Prot.READ else p in
  let p := if has bits 2 then Z.lor p Prot.WRITE else p in
  if has bits 4 then Z.lor p Prot.EXEC else p.

(** [fds] is the process's descriptor table. *)
Definition sys_mmap (fds : Z → KResult F) (addr len prot flags fd off : Z) : Exec (St A D F) (KResult Z) :=
  if len =? 0 then mret (inl EINVAL)
  else if negb (has flags (Z.lor MAP_SHARED MAP_PRIVATE)) then mret (inl EINVAL)
  else
    let p := prot_from prot in
    let p := if p =? Prot.NONE then Prot.READ else p in
    file ←? (if negb (has flags MAP_ANONYMOUS) && (0 <=? fd)
             then mret (match fds fd with inl e => inl e | inr f => inr (Some (f, off)) end)
             else mret (inr None));
    mmap addr len p (has flags MAP_FIXED) file (has flags MAP_SHARED).

Definition sys_munmap (addr len : Z) : Exec (St A D F) (KResult Z) :=
  _ ←? unmap addr len; mret (inr 0).

Definition sys_mprotect (addr len prot : Z) : Exec (St A D F) (KResult Z) :=
  _ ←? protect addr len (prot_from prot); mret (inr 0).

Definition sys_brk (addr : Z) : Exec (St A D F) (KResult Z) := r ← do_brk addr; mret (inr r).

End AddrSpace.
