(* ===== verification/PhysInv.v ===== *)
(** * Frames and their references

    The invariant of physical memory shared by all address spaces: every page
    table entry and every other holder of a user page is covered by the page's
    reference count.  Holders outside the tables are a function [ext] from
    frames to numbers; taking a reference adds to it, installing a page-table
    entry moves one from it to the tables. *)

From S2P Require Import Prelude UAccess Vma Frame Paging PagingProofs.

(** ** Page-table entries as a finite map *)


Definition get_pte (maps : gmap (Z * Z) Z) (k : Z * Z) : Z := default 0 (maps !! k).

Definition set_pte (k : Z * Z) (e : Z) (maps : gmap (Z * Z) Z) : gmap (Z * Z) Z :=
  if e =? 0 then delete k maps else <[k := e]> maps.

Lemma get_set_pte maps k k' e : get_pte (set_pte k e maps) k' = if decide (k' = k) then e else get_pte maps k'.
Proof.
  unfold get_pte, set_pte. case_decide as Hk; [subst k'|]; destruct (Z.eqb_spec e 0) as [->|].
  - by rewrite lookup_delete_eq.
  - by rewrite lookup_insert_eq.
  - by rewrite lookup_delete_ne.
  - by rewrite lookup_insert_ne.
Qed.

(** The frame a present entry refers to. *)
Definition pfn (e : Z) : option Z := if has e PRESENT then Some (entry_addr e) else None.

(** The number of entries of [m] that [sel] maps to [f]. *)
Definition tally {K} `{Countable K} (sel : Z → option Z) (m : gmap K Z) (f : Z) : Z :=
  Z.of_nat (size (filter (λ kv : K * Z, sel kv.2 = Some f) m)).

Definition one_if (P : Prop) `{Decision P} : Z := if decide P then 1 else 0.

Lemma one_if_nonneg (P : Prop) `{Decision P} : 0 ≤ one_if P ≤ 1.
Proof. unfold one_if. case_decide; lia. Qed.

Section Tally.
Context {K : Type} `{Countable K} (sel : Z → option Z).
Implicit Types m : gmap K Z.

Lemma tally_nonneg m f : 0 ≤ tally sel m f.
Proof using Type. unfold tally. lia. Qed.

Lemma tally_fresh m k e f : m !! k = None → tally sel (<[k := e]> m) f = tally sel m f + one_if (sel e = Some f).
Proof using Type.
  intros Hk. unfold tally, one_if. case_decide as He.
  - rewrite map_filter_insert_True by done. rewrite map_size_insert_None; [lia|]. apply map_lookup_filter_None. by left.
  - rewrite map_filter_insert_False, delete_id by done. lia.
Qed.

Lemma tally_delete m k f : tally sel m f = tally sel (delete k m) f + one_if ((m !! k ≫= sel) = Some f).
Proof using Type.
  destruct (m !! k) as [e|] eqn:Hk; simpl.
  - rewrite <- (insert_delete_id m k e) at 1 by done. apply tally_fresh, lookup_delete_eq.
  - rewrite delete_id by done. unfold one_if. case_decide; [done|lia].
Qed.

Lemma tally_pos m k e f : m !! k = Some e → sel e = Some f → 1 ≤ tally sel m f.
Proof using Type.
  intros Hk He. rewrite (tally_delete m k f), Hk. pose proof (tally_nonneg (delete k m) f).
  unfold one_if. simpl. rewrite decide_True by done. lia.
Qed.

Lemma tally_split m f (P : K * Z → Prop) `{∀ x, Decision (P x)} :
  tally sel m f = tally sel (filter P m) f + tally sel (filter (λ x, ¬ P x) m) f.
Proof using Type.
  induction m as [|k e m Hk IH] using map_ind; [by rewrite !map_filter_empty|]. rewrite tally_fresh by done.
  destruct (decide (P (k, e))) as [HP|HP].
  - rewrite (map_filter_insert_True P), (map_filter_insert_False (λ x, ¬ P x)), delete_id by (done || naive_solver).
    rewrite tally_fresh by (apply map_lookup_filter_None; by left). lia.
  - rewrite (map_filter_insert_False P), (map_filter_insert_True (λ x, ¬ P x)), delete_id by done.
    rewrite tally_fresh by (apply map_lookup_filter_None; by left). lia.
Qed.
End Tally.

(** The number of page-table entries that refer to [f]. *)
Definition refs_to (maps : gmap (Z * Z) Z) (f : Z) : Z := tally pfn maps f.

Lemma pfn_0 : pfn 0 = None.
Proof. done. Qed.

Lemma refs_delete maps k f :
  refs_to maps f = refs_to (delete k maps) f + one_if (pfn (get_pte maps k) = Some f).
Proof. unfold refs_to. rewrite (tally_delete pfn maps k f). unfold get_pte. by destruct (maps !! k). Qed.

(** Replacing an entry moves one reference. *)
Lemma refs_set maps k e f :
  refs_to (set_pte k e maps) f + one_if (pfn (get_pte maps k) = Some f) = refs_to maps f + one_if (pfn e = Some f).
Proof.
  rewrite (refs_delete maps k f). unfold set_pte. destruct (Z.eqb_spec e 0) as [->|].
  - rewrite pfn_0. unfold one_if at 3. case_decide; [done|lia].
  - rewrite <- (insert_delete_eq maps k e). unfold refs_to. rewrite tally_fresh by apply lookup_delete_eq. lia.
Qed.

Lemma refs_nonneg maps f : 0 ≤ refs_to maps f.
Proof. apply tally_nonneg. Qed.

(** A reference is at least one. *)
Lemma refs_pos maps k f : pfn (get_pte maps k) = Some f → 1 ≤ refs_to maps f.
Proof.
  intros Hk. rewrite (refs_delete maps k f). pose proof (refs_nonneg (delete k maps) f).
  unfold one_if. rewrite decide_True by done. lia.
Qed.

(** Two references are at least two. *)
Lemma refs_two maps k k' f :
  k ≠ k' → pfn (get_pte maps k) = Some f → pfn (get_pte maps k') = Some f → 2 ≤ refs_to maps f.
Proof.
  intros Hne Hk Hk'. rewrite (refs_delete maps k f). unfold one_if. rewrite decide_True by done.
  assert (1 ≤ refs_to (delete k maps) f); [|lia]. apply (refs_pos _ k').
  unfold get_pte in *. by rewrite lookup_delete_ne.
Qed.

(** [K] are the frames other parts of the kernel hold. *)
Section PhysInv.
Context {A : Type} `{FrameAllocatorLaws A} (K : gset Z).
Implicit Types (p : Phys A) (own : gmap Z (Z * nat * Z)) (maps : gmap (Z * Z) Z) (ext : Z → Z).

(** [maps] holds the entries of all spaces. *)
Record pt_abs own p maps : Prop := {
  pa_pte root va : root_ok own root → user_va va → aligned va → pte p root va = get_pte maps (root, va);
  pa_dom root va e : maps !! (root, va) = Some e → e ≠ 0 ∧ root_ok own root ∧ user_va va ∧ aligned va;
}.

Definition a_page (c : option Contents) : Prop :=
  ∃ bs, c = Some (Page bs) ∧ length bs = Z.to_nat PAGE_SIZE.

Record phys_inv (F U : gset Z) own maps ext p : Prop := {
  ph_paging : paging_inv F U own p;
  ph_abs : pt_abs own p maps;
  ph_ext f : 0 ≤ ext f;
  ph_refs f : count p f = refs_to maps f + ext f;
  ph_max f : count p f < U16;
  ph_used f : 0 < count p f → f ∈ U ∧ f ∉ dom own ∧ a_page (mem p !! f);
  ph_known f : f ∈ U → f ∈ dom own ∨ 0 < count p f ∨ f ∈ K;
  ph_ram f : f ∈ F ∪ U → f / PAGE_SIZE < ref_frames p;
}.
#[local] Arguments ph_paging {F U own maps ext p}.
#[local] Arguments ph_abs {F U own maps ext p}.
#[local] Arguments ph_ext {F U own maps ext p}.
#[local] Arguments ph_refs {F U own maps ext p}.
#[local] Arguments ph_max {F U own maps ext p}.
#[local] Arguments ph_used {F U own maps ext p}.
#[local] Arguments ph_known {F U own maps ext p}.
#[local] Arguments ph_ram {F U own maps ext p}.

(** One more holder of [f]. *)
Definition tok (f : Z) (ext : Z → Z) : Z → Z := λ x, ext x + one_if (x = f).

Lemma phys_inv_ext F U own maps ext ext' p :
  phys_inv F U own maps ext p → (∀ x, ext' x = ext x) → phys_inv F U own maps ext' p.
Proof using Type. intros [? ? ? ? ? ? ? ?] Hext. split; try done; intros x; by rewrite Hext. Qed.

Lemma count_nonneg F U own maps ext p f : phys_inv F U own maps ext p → 0 ≤ count p f.
Proof using Type.
  intros Hi. pose proof (ph_refs Hi f). pose proof (ph_ext Hi f). pose proof (refs_nonneg maps f). lia.
Qed.

Lemma free_count F U own maps ext p f : phys_inv F U own maps ext p → f ∈ F → count p f = 0.
Proof using Type.
  intros Hi Hf. pose proof (count_nonneg _ _ _ _ _ _ f Hi). destruct (decide (count p f = 0)); [done|].
  destruct (ph_used Hi f) as [HU _]; [lia|].
  pose proof (fa_disjoint _ _ _ (pi_rep _ _ _ _ (ph_paging Hi))) as Hd. set_solver +HU Hf Hd.
Qed.

(** A present entry's frame is a counted page. *)
Lemma mapped_frame F U own maps ext p k f :
  phys_inv F U own maps ext p → pfn (get_pte maps k) = Some f →
  1 ≤ count p f ∧ f ∈ U ∧ f ∉ dom own ∧ a_page (mem p !! f).
Proof using Type.
  intros Hi Hk. pose proof (refs_pos _ _ _ Hk). pose proof (ph_refs Hi f). pose proof (ph_ext Hi f).
  split; [lia|]. apply (ph_used Hi). lia.
Qed.

Lemma held_frame F U own maps ext p f :
  phys_inv F U own maps (tok f ext) p → 0 ≤ ext f → 1 ≤ count p f ∧ f ∈ U ∧ f ∉ dom own ∧ a_page (mem p !! f).
Proof using Type.
  intros Hi Hext. pose proof (refs_nonneg maps f). pose proof (ph_refs Hi f) as Hr. unfold tok, one_if in Hr.
  rewrite decide_True in Hr by done. split; [lia|]. apply (ph_used Hi). lia.
Qed.
(** ** Reading and writing entries *)

(** [ptr] is the entry of the page [va] of [root]. *)
Definition leaf_ptr own (root va : Z) (ptr : Z * Z) : Prop :=
  ptr.2 = index va 0 ∧ own !! ptr.1 = Some (root, 0%nat, prefix va 1).

(** A page of a space. *)
Record page_of own (root va : Z) : Prop := {
  po_root : root_ok own root;
  po_user : user_va va;
  po_aligned : aligned va;
}.

Lemma wp_leaf F U own maps ext p root va Q :
  phys_inv F U own maps ext p → page_of own root va →
  (∀ ptr, leaf_ptr own root va ptr → Q (Some ptr) p) →
  (get_pte maps (root, va) = 0 → Q None p) →
  wp (leaf_entry root va) Q p.
Proof using Type.
  intros Hi [Hr Hv Ha] Hs Hn. apply (wp_leaf_entry own p root va); [apply (pi_wf _ _ _ _ (ph_paging Hi))|done|done| |].
  - intros t Ht _. by apply Hs.
  - intros Hz. apply Hn. by rewrite <- (pa_pte _ _ _ (ph_abs Hi) root va Hr Hv Ha).
Qed.

Lemma wp_read_leaf F U own maps ext p root va ptr Q :
  phys_inv F U own maps ext p → page_of own root va → leaf_ptr own root va ptr →
  Q (get_pte maps (root, va)) p → wp (read_entry ptr) Q p.
Proof using Type.
  intros Hi [Hr Hv Ha] [Hp Ht] HQ. destruct ptr as [t i]. simpl in *. subst i.
  pose proof (pi_wf _ _ _ _ (ph_paging Hi)) as Hwf. destruct (wf_table _ _ Hwf _ _ Ht) as [es Hes].
  apply (read_entry_ok p t _ es); [done|].
  rewrite <- (pte_own own p root va t es Hwf Hv Hr Ht Hes). by rewrite (pa_pte _ _ _ (ph_abs Hi) root va Hr Hv Ha).
Qed.

Lemma pt_abs_set own p own' p' maps root va v :
  pt_abs own p maps → own ⊆ own' → page_of own root va →
  (∀ root', root_ok own' root' → root_ok own root') →
  leaf_set own p p' root va v → pt_abs own' p' (set_pte (root, va) v maps).
Proof using Type.
  intros [Hpte Hdom] Hsub [Hr Hv Ha] Hroots Hl. split.
  - intros root' va' Hr' Hv' Ha'. apply Hroots in Hr' as Hr0. rewrite (Hl root' va' Hr0 Hv'), get_set_pte, (Hpte root' va') by done.
    assert (∀ x, aligned x → align_down x = x) as Hal by (intros x Hx; rewrite align_down_val; unfold aligned in Hx; lia).
    rewrite !Hal by done. case_bool_decide; case_decide; naive_solver.
  - intros root' va' e. unfold set_pte. destruct (Z.eqb_spec v 0) as [->|].
    + intros [_ Hm]%lookup_delete_Some. destruct (Hdom _ _ _ Hm) as (? & ? & ? & ?). split_and!; try done. by eapply lookup_weaken.
    + intros [[[= <- <-] <-]|[_ Hm]]%lookup_insert_Some.
      * split_and!; try done. by eapply lookup_weaken.
      * destruct (Hdom _ _ _ Hm) as (? & ? & ? & ?). split_and!; try done. by eapply lookup_weaken.
Qed.

Lemma pt_ext_roots F U own p F' U' own' p' root :
  pt_ext F U own p F' U' own' p' → root_ok own' root → root_ok own root.
Proof using Type.
  intros Hx Hr. unfold root_ok in *. destruct (own !! root) as [x|] eqn:E.
  - pose proof (lookup_weaken _ _ _ _ E (x_own _ _ _ _ _ _ _ _ Hx)). congruence.
  - destruct (x_new _ _ _ _ _ _ _ _ Hx _ _ Hr E) as [_ Hlt]. simpl in Hlt. lia.
Qed.

(** The counting part of the invariant, through a change of the tables. *)
Lemma phys_inv_tables F U own maps ext p F' U' own' p' maps' ext' :
  phys_inv F U own maps ext p → pt_ext F U own p F' U' own' p' → pt_abs own' p' maps' →
  (∀ f, 0 ≤ ext' f) → (∀ f, refs_to maps' f + ext' f = refs_to maps f + ext f) →
  phys_inv F' U' own' maps' ext' p'.
Proof using Type.
  intros Hi Hx Habs Hext Hle. pose proof (x_refs _ _ _ _ _ _ _ _ Hx) as [Er Er'].
  assert (∀ f, count p' f = count p f) as Ec by (intros f; unfold count; by rewrite Er).
  pose proof (fa_disjoint _ _ _ (pi_rep _ _ _ _ (ph_paging Hi))) as Hd.
  split; [apply Hx|done|done| | | | |].
  - intros f. rewrite Ec. pose proof (ph_refs Hi f). specialize (Hle f). lia.
  - intros f. rewrite Ec. apply (ph_max Hi).
  - intros f Hf. rewrite Ec in Hf. destruct (ph_used Hi f Hf) as (HU & Hn & Hpg).
    rewrite (x_split _ _ _ _ _ _ _ _ Hx). split; [set_solver +HU|]. split.
    + intros [y Hy]%elem_of_dom. apply not_elem_of_dom in Hn.
      destruct (x_new _ _ _ _ _ _ _ _ Hx f y Hy Hn) as [HF _]. set_solver +HF HU Hd.
    + by rewrite (x_mem _ _ _ _ _ _ _ _ Hx f HU Hn).
  - intros f. rewrite Ec, (x_split _ _ _ _ _ _ _ _ Hx). pose proof (ph_known Hi f).
    pose proof (subseteq_dom _ _ (x_own _ _ _ _ _ _ _ _ Hx)) as Hs. set_solver.
  - intros f Hf. rewrite Er'. apply (ph_ram Hi). rewrite (x_split _ _ _ _ _ _ _ _ Hx), (x_free _ _ _ _ _ _ _ _ Hx) in Hf.
    apply elem_of_union in Hf as [Hf|Hf]; [set_solver +Hf|]. apply elem_of_union in Hf as [Hf|Hf]; [set_solver +Hf|].
    apply elem_of_difference in Hf as [[y Hy]%elem_of_dom Hn%not_elem_of_dom].
    destruct (x_new _ _ _ _ _ _ _ _ Hx f y Hy Hn) as [HF _]. set_solver +HF.
Qed.

(** Pages keep their contents. *)
Definition pages_kept (U : gset Z) own p p' : Prop :=
  refs p' = refs p ∧ ∀ f, f ∈ U → f ∉ dom own → mem p' !! f = mem p !! f.

Lemma wp_write_pte F U own maps ext ext' p root va ptr v Q :
  phys_inv F U own maps ext p → page_of own root va → leaf_ptr own root va ptr → (∀ f, 0 ≤ ext' f) →
  (∀ f, refs_to (set_pte (root, va) v maps) f + ext' f = refs_to maps f + ext f) →
  (∀ p', phys_inv F U own (set_pte (root, va) v maps) ext' p' → pages_kept U own p p' → Q tt p') →
  wp (write_entry ptr v) Q p.
Proof using Type.
  intros Hi Hpg [Hp Ht] Hext Hle HQ. destruct ptr as [t i]. simpl in *. subst i.
  apply (wp_write_leaf F U own p root va t v Q); [apply (ph_paging Hi)|apply Hpg|done|].
  intros p' Hx Hl. apply HQ.
  - eapply phys_inv_tables; [exact Hi|exact Hx| |done|done].
    eapply pt_abs_set; [apply (ph_abs Hi)|done|done|done|done].
  - split; [apply Hx|]. intros f. apply (x_mem _ _ _ _ _ _ _ _ Hx).
Qed.

(** Writing an entry for the same frame. *)
Lemma wp_write_flags F U own maps ext p root va ptr v Q :
  phys_inv F U own maps ext p → page_of own root va → leaf_ptr own root va ptr →
  pfn v = pfn (get_pte maps (root, va)) →
  (∀ p', phys_inv F U own (set_pte (root, va) v maps) ext p' → pages_kept U own p p' → Q tt p') →
  wp (write_entry ptr v) Q p.
Proof using Type.
  intros Hi Hpg Hptr Hpfn HQ. eapply (wp_write_pte F U own maps ext ext); try done; [apply (ph_ext Hi)|].
  intros f. pose proof (refs_set maps (root, va) v f) as Hs. rewrite Hpfn in Hs. lia.
Qed.

(** Taking a frame out of its entry: its reference is now held outside. *)
Lemma wp_write_take F U own maps ext p root va ptr v f Q :
  phys_inv F U own maps ext p → page_of own root va → leaf_ptr own root va ptr →
  pfn (get_pte maps (root, va)) = Some f → pfn v = None →
  (∀ p', phys_inv F U own (set_pte (root, va) v maps) (tok f ext) p' → pages_kept U own p p' → Q tt p') →
  wp (write_entry ptr v) Q p.
Proof using Type.
  intros Hi Hpg Hptr Hold Hnew HQ. eapply (wp_write_pte F U own maps ext (tok f ext)); try done.
  - intros x. unfold tok. pose proof (ph_ext Hi x). pose proof (one_if_nonneg (x = f)). lia.
  - intros x. pose proof (refs_set maps (root, va) v x) as Hs. rewrite Hold, Hnew in Hs. unfold tok, one_if in *.
    repeat case_decide; simplify_eq; lia.
Qed.

(** Installing a held frame: on success the reference moves to the table. *)
Lemma pt_ext_total F U own p F' U' own' p' :
  paging_inv F U own p → pt_ext F U own p F' U' own' p' → F' ∪ U' = F ∪ U.
Proof using Type.
  intros Hp Hx. pose proof (fa_disjoint _ _ _ (pi_rep _ _ _ _ Hp)) as Hd. pose proof (pi_own _ _ _ _ Hp) as Hown.
  assert (dom own' ∖ dom own ⊆ F) as Hn.
  { intros t [[x Hx']%elem_of_dom Hno%not_elem_of_dom]%elem_of_difference. by eapply (x_new _ _ _ _ _ _ _ _ Hx). }
  rewrite (x_split _ _ _ _ _ _ _ _ Hx), (x_free _ _ _ _ _ _ _ _ Hx). apply set_eq. intros t.
  specialize (Hd t). specialize (Hown t). specialize (Hn t). destruct (decide (t ∈ dom own')), (decide (t ∈ dom own)); set_solver.
Qed.

Lemma wp_install F U own maps ext p root va f fl Q :
  phys_inv F U own maps (tok f ext) p → (∀ x, 0 ≤ ext x) → page_of own root va → Z.land fl ADDR_MASK = 0 →
  (∀ F' U' own' p', F' ∪ U' = F ∪ U → own ⊆ own' → (∀ r, root_ok own' r → root_ok own r) → pages_kept U own p p' →
     pfn (get_pte maps (root, va)) = None →
     phys_inv F' U' own' (set_pte (root, va) (page_entry f fl) maps) ext p' → Q (inr tt) p') →
  (∀ F' U' own' p' e, F' ∪ U' = F ∪ U → own ⊆ own' → (∀ r, root_ok own' r → root_ok own r) → pages_kept U own p p' →
     phys_inv F' U' own' maps (tok f ext) p' →
     e = OutOfMemory ∧ F' = ∅ ∨ e = AlreadyMapped ∧ is_Some (pfn (get_pte maps (root, va))) → Q (inl e) p') →
  wp (map_4k root va f fl) Q p.
Proof using Type.
  intros Hi Hext Hpg Hfl Hs Hn. pose proof Hpg as [Hr Hv Ha].
  destruct (held_frame _ _ _ _ _ _ _ Hi (Hext f)) as (_ & HU & Hno & _).
  pose proof (ph_paging Hi) as Hp. pose proof (ph_abs Hi) as Habs.
  assert (frame_addr f) as Hf by (eapply (fa_addr F U); [apply (pi_rep _ _ _ _ Hp)|set_solver +HU]).
  eapply wp_mono; [apply (wp_map_4k F U own p root va f fl Hp Hr Hv Hf)|].
  intros r p' (F' & U' & own' & Hx & Hres). rewrite (pa_pte _ _ _ Habs root va Hr Hv Ha) in Hres.
  assert (∀ r, root_ok own' r → root_ok own r) as Hroots by (intros; by eapply pt_ext_roots).
  assert (pages_kept U own p p') as Hk by (split; [apply Hx|intros x; apply (x_mem _ _ _ _ _ _ _ _ Hx)]).
  assert (leaves_same own p p' → phys_inv F' U' own' maps (tok f ext) p') as Hsame.
  { intros Hl. eapply phys_inv_tables; [exact Hi|exact Hx| |apply (ph_ext Hi)|done]. split.
    - intros root' va' Hr' Hv' Ha'. rewrite (Hl root' va') by (by try apply Hroots). by apply (pa_pte _ _ _ Habs); [apply Hroots|..].
    - intros root' va' e Hm. destruct (pa_dom _ _ _ Habs _ _ _ Hm) as (? & ? & ? & ?). split_and!; try done.
      eapply lookup_weaken; [done|apply Hx]. }
  destruct r as [[| |]|[]]; [| |done|].
  - destruct Hres as [HF Hl]. eapply Hn; [by eapply pt_ext_total|apply Hx|done|done|by apply Hsame|by left].
  - destruct Hres as [Hpr Hl]. eapply Hn; [by eapply pt_ext_total|apply Hx|done|done|by apply Hsame|right]. split; [done|]. unfold pfn. rewrite Hpr. eauto.
  - destruct Hres as [Hpr Hl]. assert (pfn (get_pte maps (root, va)) = None) as Hpf by (unfold pfn; by rewrite Hpr).
    eapply Hs; [by eapply pt_ext_total|apply Hx|done|done|done|]. destruct (page_entry_parts f fl Hf Hfl) as (Ea & Ep & _).
    eapply phys_inv_tables; [exact Hi|exact Hx| |done|].
    + eapply pt_abs_set; [exact Habs|apply Hx|done|done|done].
    + intros x. pose proof (refs_set maps (root, va) (page_entry f fl) x) as Hset. rewrite Hpf in Hset.
      assert (pfn (page_entry f fl) = Some f) as Epf by (unfold pfn; by rewrite Ep, Ea). rewrite Epf in Hset.
      unfold tok, one_if in *. repeat case_decide; simplify_eq; lia.
Qed.

(** ** Allocating and counting pages *)

Lemma paging_inv_mem F U own p p' F' U' :
  paging_inv F U own p → fa_rep F' U' (allocator p') → U ⊆ U' →
  (∀ t, t ∈ dom own → mem p' !! t = mem p !! t) → paging_inv F' U' own p'.
Proof using Type.
  intros [Hrep Hown Hwf] Hrep' HU Hmem. split; [done|set_solver +Hown HU|].
  assert (∀ t x, own !! t = Some x → table p' t = table p t) as Et.
  { intros t x Ht. unfold table. rewrite Hmem; [done|by eapply elem_of_dom_2]. }
  destruct Hwf as [Wa Wb Wc Wd We Wf]. split; try done.
  - intros t x Ht. rewrite (Et t x Ht). by eapply Wa.
  - intros t root l pfx es i e Ho Ht. rewrite (Et _ _ Ho) in Ht. by eapply Wd.
  - intros t root l pfx Ho Hl. destruct (We t root l pfx Ho Hl) as (t' & es & e & Ho' & Hes & Hrest).
    exists t', es, e. by rewrite (Et _ _ Ho').
Qed.

Lemma pt_abs_mem F U own p p' maps F' U' :
  paging_inv F U own p → paging_inv F' U' own p' → pt_abs own p maps →
  (∀ t, t ∈ dom own → mem p' !! t = mem p !! t) → pt_abs own p' maps.
Proof using Type.
  intros Hp Hp' [Hpte Hdom] Hmem. split; [|done]. intros root va Hr Hv Ha. rewrite <- Hpte by done.
  pose proof (pi_wf _ _ _ _ Hp) as Hwf. pose proof (pi_wf _ _ _ _ Hp') as Hwf'.
  destruct (leaf_entry_ok own p root va Hwf Hv Hr) as (o & _ & Ho). destruct o as [[t i]|]; simpl in Ho.
  - destruct Ho as (-> & Ht & es & Hes & ->). eapply pte_own; try done. unfold table. rewrite Hmem; [done|by eapply elem_of_dom_2].
  - destruct Ho as [-> Hno]. by eapply pte_missing.
Qed.

Lemma wp_alloc_user_page F U own maps ext p Q :
  phys_inv F U own maps ext p →
  (∀ f p', f ∈ F → phys_inv (F ∖ {[f]}) (U ∪ {[f]}) own maps (tok f ext) p' →
     mem p' !! f = Some (Page zero_page) → (∀ f', f' ≠ f → mem p' !! f' = mem p !! f') →
     refs p' = <[f := 1]> (refs p) → Q (Some f) p') →
  (∀ p', F = ∅ → phys_inv F U own maps ext p' → mem p' = mem p → refs p' = refs p → Q None p') →
  wp alloc_user_page Q p.
Proof using Type.
  intros Hi Hs Hn. pose proof (ph_paging Hi) as Hp. unfold alloc_user_page, alloc_zeroed. wp_steps.
  unfold alloc. apply wp_on_allocator. eapply wp_mono; [apply (fa_alloc_ok _ _ _ (pi_rep _ _ _ _ Hp))|].
  intros [f|] a' Hpost.
  2:{ wp_steps. destruct Hpost as [HF Hrep]. apply Hn; [done| |done|done].
      assert (paging_inv F U own (with_allocator a' p)) as Hp' by (by apply (paging_inv_mem F U own p)).
      destruct Hi. split; try done. by apply (pt_abs_mem F U own p _ _ F U). }
  destruct Hpost as [HfF Hrep]. wp_steps. unfold write_frame. wp_steps. unfold ref_slot. wp_steps.
  pose proof (ph_ram Hi f ltac:(set_solver +HfF)) as Hram. cbn [ref_frames with_mem with_allocator].
  rewrite (proj2 (Z.ltb_lt _ _)) by done. wp_steps. unfold set_count. wp_steps.
  pose proof (fa_disjoint _ _ _ (pi_rep _ _ _ _ Hp)) as Hd.
  assert (f ∉ dom own) as Hno by (pose proof (pi_own _ _ _ _ Hp) as Ho; set_solver +HfF Hd Ho).
  pose proof (free_count _ _ _ _ _ _ f Hi HfF) as Hc0. pose proof (ph_ext Hi) as Hext.
  apply Hs; simpl; [done| |by rewrite lookup_insert_eq|by intros; rewrite lookup_insert_ne|done].
  assert (paging_inv (F ∖ {[f]}) (U ∪ {[f]}) own
    (with_refs (<[f := 1]> (refs p)) (with_mem (<[f := Page zero_page]> (mem p)) (with_allocator a' p)))) as Hp'.
  { apply (paging_inv_mem F U own p); [done|done|set_solver +|]. intros t Ht. apply lookup_insert_ne. by intros <-. }
  assert (∀ x, count (with_refs (<[f := 1]> (refs p)) (with_mem (<[f := Page zero_page]> (mem p)) (with_allocator a' p))) x
    = count p x + one_if (x = f)) as Ec.
  { intros x. unfold count, one_if in *. simpl. case_decide as E; [subst x; rewrite lookup_insert_eq; simpl; lia|].
    rewrite lookup_insert_ne by done. lia. }
  split; [done| | | | | | |].
  - eapply pt_abs_mem; [exact Hp|exact Hp'|apply (ph_abs Hi)|]. intros t Ht. apply lookup_insert_ne. by intros <-.
  - intros x. unfold tok. pose proof (one_if_nonneg (x = f)). specialize (Hext x). lia.
  - intros x. rewrite Ec. pose proof (ph_refs Hi x). unfold tok. lia.
  - intros x. rewrite Ec. pose proof (ph_max Hi x). unfold one_if. case_decide; [subst; rewrite Hc0; unfold U16; lia|lia].
  - intros x Hx. rewrite Ec in Hx. simpl. destruct (decide (x = f)) as [->|Hne].
    + split; [set_solver +|]. split; [done|]. rewrite lookup_insert_eq. exists zero_page. split; [done|]. apply length_replicate.
    + unfold one_if in Hx. rewrite decide_False in Hx by done. destruct (ph_used Hi x) as (? & ? & ?); [lia|].
      split; [set_solver|]. split; [done|]. by rewrite lookup_insert_ne.
  - intros x [Hx| ->%elem_of_singleton]%elem_of_union; rewrite Ec; unfold one_if.
    + destruct (ph_known Hi x Hx) as [?|[?|?]]; [tauto| |tauto]. right. left. case_decide; lia.
    + right. left. rewrite decide_True by done. lia.
  - intros x Hx. simpl. apply (ph_ram Hi). set_solver +Hx HfF.
Qed.

Lemma ref_slot_ok F U own maps ext p f Q :
  phys_inv F U own maps ext p → f ∈ F ∪ U → Q tt p → wp (ref_slot f) Q p.
Proof using Type.
  intros Hi Hf HQ. unfold ref_slot. wp_steps. rewrite (proj2 (Z.ltb_lt _ _)); [done|]. by apply (ph_ram Hi).
Qed.

(** The invariant through a change of one count. *)
Lemma phys_inv_count F U own maps ext ext' p f n :
  phys_inv F U own maps ext p → 0 < n < U16 → f ∈ U → f ∉ dom own → a_page (mem p !! f) →
  (∀ x, 0 ≤ ext' x) → (∀ x, x ≠ f → ext' x = ext x) → n = refs_to maps f + ext' f →
  phys_inv F U own maps ext' (with_refs (<[f := n]> (refs p)) p).
Proof using Type.
  intros Hi Hn HU Hno Hpg Hext Hoth Hle.
  assert (∀ x, count (with_refs (<[f := n]> (refs p)) p) x = if decide (x = f) then n else count p x) as Ec.
  { intros x. unfold count. simpl. case_decide as E; [subst; by rewrite lookup_insert_eq|by rewrite lookup_insert_ne]. }
  pose proof (ph_paging Hi) as Hp. split.
  - apply (paging_inv_mem F U own p); [done|apply (pi_rep _ _ _ _ Hp)|done|done].
  - eapply (pt_abs_mem F U own p _ _ F U); [done| |apply (ph_abs Hi)|done].
    apply (paging_inv_mem F U own p); [done|apply (pi_rep _ _ _ _ Hp)|done|done].
  - done.
  - intros x. rewrite Ec. case_decide as E; [by subst|]. rewrite Hoth by done. apply (ph_refs Hi).
  - intros x. rewrite Ec. case_decide; [lia|apply (ph_max Hi)].
  - intros x. rewrite Ec. case_decide as E; [by subst|apply (ph_used Hi)].
  - intros x Hx. rewrite Ec. pose proof (ph_known Hi x Hx). case_decide; [lia|done].
  - apply (ph_ram Hi).
Qed.

Lemma wp_page_get F U own maps ext p f Q :
  phys_inv F U own maps ext p → 1 ≤ count p f < U16 - 1 →
  (∀ p', phys_inv F U own maps (tok f ext) p' → mem p' = mem p → refs p' = <[f := count p f + 1]> (refs p) → Q tt p') →
  wp (page_get f) Q p.
Proof using Type.
  intros Hi Hc HQ. destruct (ph_used Hi f) as (HU & Hno & Hpg); [lia|]. unfold page_get. wp_steps.
  apply (ref_slot_ok F U own maps ext p f _ Hi ltac:(set_solver +HU)). wp_steps. unfold set_count. wp_steps.
  rewrite (proj2 (Z.eqb_neq (count p f) 0)), (proj2 (Z.eqb_neq (count p f) (U16 - 1))) by lia. cbn [negb andb]. wp_steps.
  rewrite Z.mod_small by lia. apply HQ; [|done|done]. pose proof (ph_ext Hi) as Hext.
  eapply phys_inv_count; [exact Hi|lia|done|done|done| | |].
  - intros x. unfold tok. pose proof (one_if_nonneg (x = f)). specialize (Hext x). lia.
  - intros x Hx. unfold tok, one_if. rewrite decide_False by done. lia.
  - unfold tok, one_if. rewrite decide_True by done. pose proof (ph_refs Hi f). lia.
Qed.

Lemma wp_page_put F U own maps ext p f Q :
  phys_inv F U own maps (tok f ext) p → (∀ x, 0 ≤ ext x) →
  (∀ F' U' p', phys_inv F' U' own maps ext p' → mem p' = mem p → refs p' = <[f := count p f - 1]> (refs p) →
     (F' = F ∧ U' = U ∧ 1 < count p f ∨ F' = F ∪ {[f]} ∧ U' = U ∖ {[f]} ∧ count p f = 1) → Q tt p') →
  wp (page_put f) Q p.
Proof using Type.
  intros Hi Hext HQ. destruct (held_frame _ _ _ _ _ _ _ Hi (Hext f)) as (Hc & HU & Hno & Hpg).
  pose proof (ph_max Hi f) as Hmax. pose proof (ph_refs Hi f) as Hrf.
  assert (tok f ext f = ext f + 1) as Etok by (unfold tok, one_if; by rewrite decide_True).
  unfold page_put. wp_steps. apply (ref_slot_ok F U own maps (tok f ext) p f _ Hi ltac:(set_solver +HU)). wp_steps.
  unfold set_count. wp_steps. rewrite (proj2 (Z.eqb_neq (count p f) 0)) by lia. rewrite Z.mod_small by lia.
  destruct (Z.eqb_spec (count p f) 1) as [E1|Hn1].
  2:{ wp_steps. apply (HQ F U); [|done|done|left; split_and!; [done|done|lia]]. eapply phys_inv_count; [exact Hi|lia|done|done|done|done| |lia].
      intros x Hx. unfold tok, one_if. rewrite decide_False by done. lia. }
  set (p1 := with_refs (<[f := count p f - 1]> (refs p)) p). pose proof (ph_paging Hi) as Hp.
  unfold free. apply wp_on_allocator. eapply wp_mono; [apply (fa_free_ok _ _ _ f (pi_rep _ _ _ _ Hp) HU)|].
  intros [] a' Hrep. apply (HQ (F ∪ {[f]}) (U ∖ {[f]})); [|done|done|by right]. cbn beta.
  assert (paging_inv (F ∪ {[f]}) (U ∖ {[f]}) own (with_allocator a' p1)) as Hp'.
  { destruct Hp as [_ Hown Hwf]. split; [done|set_solver +Hown Hno|]. by apply (pt_wf_mem own p). }
  assert (∀ x, count (with_allocator a' p1) x = if decide (x = f) then 0 else count p x) as Ec.
  { intros x. unfold count. simpl. case_decide as E; [subst; rewrite lookup_insert_eq; simpl; lia|by rewrite lookup_insert_ne]. }
  split; [done| | | | | | |].
  - by apply (pt_abs_mem F U own p _ _ (F ∪ {[f]}) (U ∖ {[f]}) Hp Hp' (ph_abs Hi)).
  - done.
  - intros x. rewrite Ec. pose proof (ph_refs Hi x) as Hx. unfold tok, one_if in Hx. case_decide; subst; lia.
  - intros x. rewrite Ec. case_decide; [done|apply (ph_max Hi)].
  - intros x. rewrite Ec. case_decide as E; [lia|]. intros Hx. destruct (ph_used Hi x Hx) as (? & ? & ?).
    split; [set_solver|done].
  - intros x [Hx Hxf]%elem_of_difference. rewrite Ec. rewrite decide_False by set_solver +Hxf. by apply (ph_known Hi).
  - intros x Hx. simpl. apply (ph_ram Hi). set_solver +Hx HU.
Qed.

Lemma wp_page_count F U own maps ext p f Q :
  phys_inv F U own maps ext p → f ∈ U → Q (count p f) p → wp (page_count f) Q p.
Proof using Type.
  intros Hi HU HQ. unfold page_count. wp_steps. apply (ref_slot_ok F U own maps ext p f _ Hi ltac:(set_solver +HU)). wp_steps. done.
Qed.

(** Writing the bytes of a page. *)
Lemma wp_write_page F U own maps ext p f bs Q :
  phys_inv F U own maps ext p → 0 < count p f → length bs = Z.to_nat PAGE_SIZE →
  (∀ p', phys_inv F U own maps ext p' → mem p' = <[f := Page bs]> (mem p) → refs p' = refs p → Q tt p') →
  wp (write_frame f (Page bs)) Q p.
Proof using Type.
  intros Hi Hc Hl HQ. destruct (ph_used Hi f Hc) as (HU & Hno & _). unfold write_frame. wp_steps.
  apply HQ; [|done|done]. pose proof (ph_paging Hi) as Hp.
  assert (∀ t, t ∈ dom own → <[f := Page bs]> (mem p) !! t = mem p !! t) as Hm by (intros t Ht; apply lookup_insert_ne; by intros <-).
  assert (paging_inv F U own (with_mem (<[f := Page bs]> (mem p)) p)) as Hp'.
  { apply (paging_inv_mem F U own p); [done|apply (pi_rep _ _ _ _ Hp)|done|done]. }
  split; [done| |apply (ph_ext Hi)|apply (ph_refs Hi)|apply (ph_max Hi)| |apply (ph_known Hi)|apply (ph_ram Hi)].
  - by apply (pt_abs_mem F U own p _ _ F U Hp Hp' (ph_abs Hi)).
  - intros x Hx. destruct (ph_used Hi x Hx) as (? & ? & ?). split; [done|]. split; [done|]. simpl.
    destruct (decide (x = f)) as [->|]; [rewrite lookup_insert_eq; eexists; eauto|by rewrite lookup_insert_ne].
Qed.

End PhysInv.
