(* ===== verification/PteBits.v ===== *)
(** * Bits of page-table entries

    The entries the address spaces write, and what their bits are: the frame,
    the permissions, the copy-on-write mark, and swap slots. *)

From S2P Require Import Prelude Vma Frame Paging PagingProofs Cgroup Swap AddrSpace PhysInv.

(** ** Flags as bits *)

Lemma has_bit e n : 0 ≤ n → has e (2 ^ n) = Z.testbit e n.
Proof.
  intros Hn. unfold has. destruct (Z.testbit e n) eqn:E.
  - apply negb_true_iff, Z.eqb_neq. intros Hz. assert (Z.testbit (Z.land e (2 ^ n)) n = false) as Hf by (by rewrite Hz, Z.bits_0).
    rewrite Z.land_spec, E, Z.pow2_bits_true in Hf by done. done.
  - apply negb_false_iff, Z.eqb_eq, Z.bits_inj'. intros i Hi. rewrite Z.land_spec, Z.pow2_bits_eqb, Z.bits_0 by done.
    destruct (Z.eqb_spec n i) as [->|]; [by rewrite E|apply andb_false_r].
Qed.

Lemma has_present e : has e PRESENT = Z.testbit e 0.
Proof. by apply (has_bit e 0). Qed.
Lemma has_writable e : has e WRITABLE = Z.testbit e 1.
Proof. by apply (has_bit e 1). Qed.
Lemma has_user e : has e USER = Z.testbit e 2.
Proof. by apply (has_bit e 2). Qed.
Lemma has_cow e : has e COW = Z.testbit e 9.
Proof. by apply (has_bit e 9). Qed.
Lemma has_swapped e : has e PTE_SWAPPED = Z.testbit e 10.
Proof. by apply (has_bit e 10). Qed.
Lemma has_nx e : has e NO_EXECUTE = Z.testbit e 63.
Proof. by apply (has_bit e 63). Qed.

Create HintDb pte.
Create Rewrite HintDb pte.
#[export] Hint Rewrite has_present has_writable has_user has_cow has_swapped has_nx : pte.
#[export] Hint Rewrite Z.lor_spec Z.land_spec Z.ldiff_spec : pte.

Lemma land_mask_pow n : 0 ≤ n < 12 ∨ 52 ≤ n → Z.land (2 ^ n) ADDR_MASK = 0.
Proof.
  intros Hn. apply Z.bits_inj'. intros i Hi. rewrite Z.land_spec, Z.pow2_bits_eqb, mask_bits, Z.bits_0 by lia.
  destruct (Z.eqb_spec n i); [|done]. case_bool_decide; [lia|done].
Qed.

(** [fl] has no address bits. *)
Definition flags_only (fl : Z) : Prop := Z.land fl ADDR_MASK = 0.

Lemma flags_lor a b : flags_only a → flags_only b → flags_only (Z.lor a b).
Proof. unfold flags_only. intros Ha Hb. by rewrite Z.land_lor_distr_l, Ha, Hb. Qed.

Lemma flags_land a b : flags_only b → flags_only (Z.land a b).
Proof. unfold flags_only. intros Hb. by rewrite <- Z.land_assoc, Hb, Z.land_0_r. Qed.

Lemma flags_ldiff a b : flags_only a → flags_only (Z.ldiff a b).
Proof.
  unfold flags_only. intros Ha. apply Z.bits_inj'. intros i Hi. pose proof (f_equal (λ x, Z.testbit x i) Ha) as H. cbv beta in H.
  rewrite Z.land_spec, Z.bits_0 in *. rewrite Z.ldiff_spec. by destruct (Z.testbit a i), (Z.testbit b i), (Z.testbit ADDR_MASK i).
Qed.

Lemma flags_0 : flags_only 0.
Proof. done. Qed.

#[export] Hint Resolve flags_lor flags_land flags_ldiff flags_0 : pte.
#[export] Hint Extern 0 (flags_only _) => reflexivity : pte.

Lemma entry_addr_lor e fl : flags_only fl → entry_addr (Z.lor e fl) = entry_addr e.
Proof. unfold flags_only, entry_addr. intros H. by rewrite Z.land_lor_distr_l, H, Z.lor_0_r. Qed.

Lemma entry_addr_ldiff e fl : flags_only fl → entry_addr (Z.ldiff e fl) = entry_addr e.
Proof.
  unfold flags_only, entry_addr. intros H. apply Z.bits_inj'. intros i Hi. pose proof (f_equal (λ x, Z.testbit x i) H) as Hb. cbv beta in Hb.
  rewrite Z.land_spec, Z.bits_0 in Hb. rewrite !Z.land_spec, Z.ldiff_spec. by destruct (Z.testbit e i), (Z.testbit fl i), (Z.testbit ADDR_MASK i).
Qed.

Lemma entry_addr_idem e : entry_addr (entry_addr e) = entry_addr e.
Proof. unfold entry_addr. by rewrite <- Z.land_assoc, Z.land_diag. Qed.

(** The flag bits of an entry do not depend on its address. *)
Lemma entry_addr_bit e n : (0 ≤ n < 12 ∨ 52 ≤ n) → Z.testbit (entry_addr e) n = false.
Proof. intros Hn. unfold entry_addr. rewrite Z.land_spec, mask_bits by lia. rewrite bool_decide_eq_false_2 by lia. apply andb_false_r. Qed.

Lemma flags_part e : flags_only (Z.ldiff e (entry_addr e)).
Proof.
  unfold flags_only, entry_addr. apply Z.bits_inj'. intros i Hi. rewrite Z.land_spec, Z.ldiff_spec, Z.land_spec, Z.bits_0.
  by destruct (Z.testbit e i), (Z.testbit ADDR_MASK i).
Qed.
#[export] Hint Resolve flags_part : pte.

(** ** Permissions *)

Definition can_write (p : Z) : bool := Prot.contains p Prot.WRITE.
Definition can_exec (p : Z) : bool := Prot.contains p Prot.EXEC.

(** The hardware bits of a present entry are those of protection [p]: a
    copy-on-write page is read-only, every other one has exactly [p]. *)
Record perms (e p : Z) : Prop := {
  pm_user : has e USER = true;
  pm_write : has e WRITABLE = can_write p && negb (has e COW);
  pm_exec : has e NO_EXECUTE = negb (can_exec p);
}.

Lemma to_page_flags_only p : flags_only (to_page_flags p).
Proof. unfold to_page_flags. by repeat case_match. Qed.
#[export] Hint Resolve to_page_flags_only : pte.

Lemma to_page_flags_bits p :
  let fl := to_page_flags p in
  Z.testbit fl 0 = false ∧ Z.testbit fl 1 = can_write p ∧ Z.testbit fl 2 = true ∧ Z.testbit fl 9 = false ∧
  Z.testbit fl 63 = negb (can_exec p).
Proof. unfold to_page_flags, can_write, can_exec. by repeat case_match. Qed.

Lemma pfn_page_entry f fl : frame_addr f → flags_only fl → pfn (page_entry f fl) = Some f.
Proof. intros Hf Hfl. destruct (page_entry_parts f fl Hf Hfl) as (Ea & Ep & _). unfold pfn. by rewrite Ep, Ea. Qed.

Lemma page_entry_bit f fl n : frame_addr f → (0 < n < 12 ∨ 52 ≤ n) → Z.testbit (page_entry f fl) n = Z.testbit fl n.
Proof.
  intros Hf Hn. unfold page_entry. rewrite !Z.lor_spec, (frame_addr_bits f n Hf) by lia. unfold PRESENT.
  rewrite Z.pow2_bits_false by lia. by rewrite orb_false_r.
Qed.

Lemma new_entry_perms f p : frame_addr f → perms (page_entry f (to_page_flags p)) p ∧ has (page_entry f (to_page_flags p)) COW = false.
Proof.
  intros Hf. destruct (to_page_flags_bits p) as (_ & H1 & H2 & H9 & H63).
  split; [split|]; autorewrite with pte; rewrite !page_entry_bit by (done || lia); rewrite ?H1, ?H2, ?H9, ?H63; try done. by rewrite andb_true_r.
Qed.

Lemma pfn_same e e' : entry_addr e' = entry_addr e → has e' PRESENT = has e PRESENT → pfn e' = pfn e.
Proof. intros Ea Ep. unfold pfn. by rewrite Ea, Ep. Qed.

(** Clearing ACCESSED or DIRTY. *)
Lemma clear_soft e n : n = 5 ∨ n = 6 →
  pfn (Z.ldiff e (2 ^ n)) = pfn e ∧ has (Z.ldiff e (2 ^ n)) COW = has e COW ∧ (∀ p, perms e p → perms (Z.ldiff e (2 ^ n)) p).
Proof.
  intros Hn. assert (∀ m, m = 0 ∨ m = 1 ∨ m = 2 ∨ m = 9 ∨ m = 63 → Z.testbit (Z.ldiff e (2 ^ n)) m = Z.testbit e m) as Hb.
  { intros m Hm. rewrite Z.ldiff_spec, Z.pow2_bits_false by lia. by rewrite andb_true_r. }
  split_and!.
  - apply pfn_same; [apply entry_addr_ldiff, land_mask_pow; lia|]. rewrite !has_present. apply Hb. lia.
  - rewrite !has_cow. apply Hb. lia.
  - intros p [H1 H2 H3]. rewrite has_user, has_writable, has_cow, has_nx in *. split; rewrite ?has_user, ?has_writable, ?has_cow, ?has_nx, !Hb by lia; done.
Qed.

(** Taking a copy-on-write page over. *)
Lemma uncow_entry e p :
  let e' := Z.lor (Z.ldiff e COW) WRITABLE in
  perms e p → can_write p = true → pfn e' = pfn e ∧ has e' COW = false ∧ perms e' p.
Proof.
  intros e' [H1 H2 H3] Hw. split_and!.
  - apply pfn_same; [unfold e'; by rewrite entry_addr_lor, entry_addr_ldiff|]. unfold e'. autorewrite with pte. by rewrite andb_true_r, orb_false_r.
  - unfold e'. autorewrite with pte. by rewrite andb_false_r.
  - rewrite has_user, has_writable, has_cow, has_nx in *. split; unfold e'; autorewrite with pte.
    + by rewrite H1.
    + rewrite Hw. change (Z.testbit WRITABLE 1) with true. change (Z.testbit WRITABLE 9) with false. change (Z.testbit COW 9) with true.
      by rewrite orb_true_r, andb_false_r.
    + rewrite H3. change (Z.testbit COW 63) with false. change (Z.testbit WRITABLE 63) with false. by rewrite andb_true_r, orb_false_r.
Qed.

(** The copy of a copy-on-write page. *)
Lemma copy_entry e f p :
  let e' := Z.lor (Z.lor (Z.lor f PRESENT) WRITABLE) (Z.land e (Z.lor USER NO_EXECUTE)) in
  frame_addr f → perms e p → can_write p = true → pfn e' = Some f ∧ has e' COW = false ∧ perms e' p.
Proof.
  intros e' Hf [H1 H2 H3] Hw. split_and!.
  - unfold pfn, e'. rewrite !entry_addr_lor by auto with pte. rewrite has_present. autorewrite with pte.
    change (Z.testbit PRESENT 0) with true. rewrite orb_true_r. simpl. unfold entry_addr. by rewrite frame_land_mask.
  - unfold e'. autorewrite with pte. rewrite (frame_addr_bits f 9) by (done || lia). by rewrite andb_false_r.
  - rewrite has_user, has_writable, has_cow, has_nx in *. split; unfold e'; autorewrite with pte.
    + rewrite H1. apply orb_true_r.
    + rewrite Hw, (frame_addr_bits f 9) by (done || lia). by destruct (Z.testbit f 1), (Z.testbit e 1), (Z.testbit e 9).
    + rewrite H3, (frame_addr_bits f 63) by (done || lia). by destruct (can_exec p).
Qed.

(** The entry [protect] writes. *)
Lemma reflag_entry e p :
  pfn (reflag e p) = pfn e ∧ has (reflag e p) COW = has e COW ∧ perms (reflag e p) p.
Proof.
  unfold reflag. set (fl := if has e COW then Z.ldiff (to_page_flags p) WRITABLE else to_page_flags p).
  destruct (to_page_flags_bits p) as (B0 & B1 & B2 & B9 & B63).
  assert (flags_only fl) as Hfl by (unfold fl; case_match; auto with pte).
  assert (∀ n, n ≠ 1 → 0 ≤ n → Z.testbit fl n = Z.testbit (to_page_flags p) n) as Hb.
  { intros n Hn1 Hn. unfold fl. case_match; [|done]. rewrite Z.ldiff_spec. unfold WRITABLE. rewrite Z.pow2_bits_false by lia. apply andb_true_r. }
  assert (Z.testbit fl 1 = can_write p && negb (has e COW)) as Hb1.
  { unfold fl. case_match; rewrite ?Z.ldiff_spec, B1; by rewrite ?andb_false_r, ?andb_true_r. }
  set (keep := Z.lor (Z.lor (Z.lor (Z.lor (entry_addr e) PRESENT) COW) ACCESSED) DIRTY).
  assert (∀ n, n < 12 ∨ 52 ≤ n → 0 ≤ n → Z.testbit keep n = Z.testbit (Z.lor (Z.lor (Z.lor PRESENT COW) ACCESSED) DIRTY) n) as Hk.
  { intros n Hn Hn0. unfold keep. by rewrite !Z.lor_spec, entry_addr_bit by lia. }
  split_and!.
  - apply pfn_same.
    + rewrite entry_addr_lor by done.
      assert (entry_addr keep = entry_addr e) as Ek by (unfold keep; rewrite !entry_addr_lor by done; apply entry_addr_idem).
      unfold entry_addr at 1. rewrite <- Z.land_assoc. change (Z.land keep ADDR_MASK) with (entry_addr keep). rewrite Ek.
      unfold entry_addr. by rewrite Z.land_assoc, Z.land_diag.
    + rewrite !has_present, Z.lor_spec, Z.land_spec, Hk, Hb, B0 by lia. simpl. by rewrite andb_true_r, orb_false_r.
  - rewrite !has_cow, Z.lor_spec, Z.land_spec, Hk, Hb, B9 by lia. simpl. by rewrite andb_true_r, orb_false_r.
  - split; rewrite ?has_user, ?has_writable, ?has_cow, ?has_nx, !Z.lor_spec, !Z.land_spec, !Hk by lia.
    + rewrite Hb, B2 by lia. apply orb_true_r.
    + rewrite Hb1, (Hb 9), B9 by lia. simpl. rewrite has_cow. by rewrite andb_false_r, andb_true_r, orb_false_r.
    + rewrite Hb, B63 by lia. simpl. by rewrite andb_false_r.
Qed.

(** What [fork] makes of a private writable page, and the child's entry. *)
Lemma cow_entry e p :
  let e' := Z.lor (Z.ldiff e WRITABLE) COW in
  perms e p → pfn e' = pfn e ∧ has e' COW = true ∧ perms e' p.
Proof.
  intros e' [H1 H2 H3]. split_and!.
  - apply pfn_same; [unfold e'; by rewrite entry_addr_lor, entry_addr_ldiff|]. unfold e'. autorewrite with pte. by rewrite andb_true_r, orb_false_r.
  - unfold e'. autorewrite with pte. apply orb_true_r.
  - rewrite has_user, has_writable, has_cow, has_nx in *. split; unfold e'; autorewrite with pte.
    + by rewrite H1.
    + change (Z.testbit WRITABLE 1) with true. change (Z.testbit COW 1) with false. change (Z.testbit COW 9) with true.
      by rewrite orb_true_r, !andb_false_r.
    + rewrite H3. change (Z.testbit COW 63) with false. change (Z.testbit WRITABLE 63) with false. by rewrite andb_true_r, orb_false_r.
Qed.

Lemma child_entry e f p :
  let e' := page_entry f (Z.ldiff e (entry_addr e)) in
  frame_addr f → perms e p → pfn e' = Some f ∧ has e' COW = has e COW ∧ perms e' p.
Proof.
  intros e' Hf [H1 H2 H3].
  assert (∀ n, 0 < n < 12 ∨ 52 ≤ n → Z.testbit e' n = Z.testbit e n) as Hb.
  { intros n Hn. unfold e'. rewrite page_entry_bit, Z.ldiff_spec, entry_addr_bit by (done || lia). apply andb_true_r. }
  split_and!; [apply pfn_page_entry; auto with pte|rewrite !has_cow; apply Hb; lia|].
  rewrite has_user, has_writable, has_cow, has_nx in *. split; rewrite ?has_user, ?has_writable, ?has_cow, ?has_nx, !Hb by lia; done.
Qed.

(** ** Swap entries *)

Definition swapped (e : Z) : option Z :=
  if negb (has e PRESENT) && has e PTE_SWAPPED then Some (Z.shiftr e 12) else None.

Definition swap_entry (slot : Z) : Z := Z.lor (Z.shiftl slot 12 mod U64) PTE_SWAPPED.

Lemma swap_entry_ok slot : 0 ≤ slot < 2 ^ 52 → swapped (swap_entry slot) = Some slot ∧ pfn (swap_entry slot) = None ∧ swap_entry slot ≠ 0.
Proof.
  intros Hs. assert (swap_entry slot = slot * 2 ^ 12 + 1024) as E.
  { unfold swap_entry. rewrite Z.mod_small by (rewrite Z.shiftl_mul_pow2; unfold U64; lia). by rewrite lor_shiftl_add. }
  assert (has (swap_entry slot) PRESENT = false) as Hp.
  { rewrite has_present, E, Z.bit0_odd, Z.odd_add, Z.odd_mul. by rewrite andb_false_r. }
  split_and!; [|unfold pfn; by rewrite Hp|lia].
  unfold swapped. rewrite Hp. assert (has (swap_entry slot) PTE_SWAPPED = true) as ->.
  { rewrite has_swapped. unfold swap_entry. rewrite Z.lor_spec. apply orb_true_r. }
  simpl. f_equal. rewrite E, Z.shiftr_div_pow2 by lia. rewrite Z.div_add_l, (Z.div_small 1024) by lia. lia.
Qed.

Lemma swapped_not_present e s : swapped e = Some s → pfn e = None.
Proof. unfold swapped, pfn. by destruct (has e PRESENT). Qed.

Lemma pfn_not_swapped e f : pfn e = Some f → swapped e = None.
Proof. unfold swapped, pfn. by destruct (has e PRESENT). Qed.
