(* ===== verification/SpaceInv.v ===== *)
(** * The invariant of the address spaces

    All spaces live on one machine.  The invariant ties the page tables of
    every space to its regions (permissions, shared pages, exclusive private
    pages), the reference counts to the tables, and the swap slots to the
    swapped entries.  [evolves] is what a method of one space guarantees to
    every other space. *)

From S2P Require Import Prelude Errno UAccess Vma Frame Paging PagingProofs Cgroup Swap AddrSpace PhysInv PteBits.

(** The part of the state the code does not store: free and used frames, the
    owner of each table, the entries of all spaces, the slots in use, and
    references the code has lost track of. *)
Record Ghost := mkGhost {
  gF : gset Z;
  gU : gset Z;
  gown : gmap Z (Z * nat * Z);
  gmaps : gmap (Z * Z) Z;
  gX : gset Z;
  glost : Z → Z;
}.

(** The references of shared objects to [f]. *)
Definition obj_refs (m : gmap (Z * Z) Z) (f : Z) : Z := tally Some m f.

Definition private {F : Type} (src : Source F) : bool := match src with SharedAt _ _ => false | _ => true end.

(** What an entry of a page with protection [p] and source [src] must be:
    [pages] are the pages of the shared objects, [cnt] the reference counts. *)
Definition pte_ok {F : Type} (pages : gmap (Z * Z) Z) (cnt : Z → Z) (p : Z) (src : Source F) (e : Z) : Prop :=
  match pfn e with
  | Some f =>
      perms e p ∧
      match src with
      | SharedAt o off => has e COW = false ∧ pages !! (o, off) = Some f
      | _ => (∀ ko, pages !! ko ≠ Some f) ∧ (can_write p = true → has e COW = false → cnt f = 1)
      end
  | None => is_Some (swapped e) ∧ private src = true
  end.

(** Spaces that differ only in their accounting. *)
Record same_space {F : Type} (s s' : AddressSpace F) : Prop := {
  ss_pml4 : pml4 s' = pml4 s;
  ss_regions : regions s' = regions s;
  ss_brk : brk s' = brk s;
  ss_base : brk_base s' = brk_base s;
  ss_top : mmap_top s' = mmap_top s;
  ss_container : container s' = container s;
}.

Lemma same_space_refl {F : Type} (s : AddressSpace F) : same_space s s.
Proof. by split. Qed.

Lemma same_space_trans {F : Type} (s1 s2 s3 : AddressSpace F) : same_space s1 s2 → same_space s2 s3 → same_space s1 s3.
Proof. intros [? ? ? ? ? ?] [? ? ? ? ? ?]. split; congruence. Qed.

#[export] Hint Resolve same_space_refl : fastros.

Section SpaceInv.
Context {A D F : Type} `{FrameAllocatorLaws A} `{BlockDeviceLaws D} `{MappedFile F}.
Context (K : gset Z).
Implicit Types (σ : St A D F) (G : Ghost) (sp : AddressSpace F) (h : Z → Z) (others : list (AddressSpace F)).

Record machine h G σ : Prop := {
  mc_phys : phys_inv K (gF G) (gU G) (gown G) (gmaps G) (λ f, obj_refs (pages σ) f + glost G f + h f) (phys σ);
  mc_held f : 0 ≤ h f;
  mc_lost f : 0 ≤ glost G f;
  mc_live k f : pages σ !! k = Some f → k.1 ∈ live σ;
  mc_inj ko ko' f : pages σ !! ko = Some f → pages σ !! ko' = Some f → ko = ko';
  mc_swap : match swap σ with Some sw => swap_rep (gX G) sw ∧ slots sw ≤ 2 ^ 52 | None => gX G = ∅ end;
  mc_slots k s : swapped (get_pte (gmaps G) k) = Some s → s ∈ gX G;
  mc_distinct k k' s : swapped (get_pte (gmaps G) k) = Some s → swapped (get_pte (gmaps G) k') = Some s → k = k';
}.

Record space_ok G σ sp : Prop := {
  so_root : root_ok (gown G) (pml4 sp);
  so_regions : regions_wf (regions sp);
  so_live r o : r ∈ regions sp → shared r = Some o → o ∈ live σ;
  so_pte va e : gmaps G !! (pml4 sp, va) = Some e →
    ∃ p g src, view (regions sp) va = Some (p, g, src) ∧ pte_ok (pages σ) (count (phys σ)) p src e;
}.

(** [others] are the other spaces of the machine, [h] counts references held
    in the middle of an operation. *)
Record inv h others G σ : Prop := {
  iv_machine : machine h G σ;
  iv_space : space_ok G σ (space σ);
  iv_others : Forall (space_ok G σ) others;
  iv_roots : Forall (λ sp, pml4 sp ≠ pml4 (space σ)) others;
}.

Definition none : Z → Z := λ _, 0.

(** ** Contents of pages *)

(** The bytes of a frame. *)
Definition frame_bytes (p : Phys A) (f : Z) : option (list Z) := match mem p !! f with Some (Page bs) => Some bs | _ => None end.

(** The bytes of a page of a shared object; zero when it was never touched. *)
Definition obj_bytes σ (ko : Z * Z) : option (list Z) :=
  match pages σ !! ko with Some f => frame_bytes (phys σ) f | None => Some zero_page end.

(** The bytes of a page: in its frame, in its swap slot, or [None] when it was
    never touched. *)
Definition data G σ (k : Z * Z) : option (option (list Z)) :=
  let e := get_pte (gmaps G) k in
  match pfn e, swapped e with
  | Some f, _ => Some (frame_bytes (phys σ) f)
  | None, Some s => Some (swap σ ≫= read_slot s)
  | None, None => None
  end.

(** A place with contents: a page of a space, or a page of a shared object. *)
Inductive Place :=
  | Mapped (k : Z * Z)
  | Shared (ko : Z * Z).

(** [evolves T]: other spaces keep their tables and exclusive pages, shared
    objects keep their pages; outside [T] pages without a frame stay so, the
    others keep their frame or lose it, and no place changes contents. *)
Record evolves (T : Place → Prop) G σ G' σ' : Prop := {
  ev_root : pml4 (space σ') = pml4 (space σ);
  ev_roots r : root_ok (gown G') r ↔ root_ok (gown G) r;
  ev_own : gown G ⊆ gown G';
  ev_total : gF G' ∪ gU G' = gF G ∪ gU G;
  ev_entry k : k.1 ≠ pml4 (space σ) → get_pte (gmaps G') k = get_pte (gmaps G) k;
  ev_count k f : k.1 ≠ pml4 (space σ) → pfn (get_pte (gmaps G) k) = Some f →
    count (phys σ) f = 1 → count (phys σ') f = 1;
  ev_pages : pages σ ⊆ pages σ';
  ev_fresh ko k f : pages σ' !! ko = Some f → k.1 ≠ pml4 (space σ) → pfn (get_pte (gmaps G) k) = Some f → pages σ !! ko = Some f;
  ev_live : live σ ⊆ live σ';
  ev_absent k : ¬ T (Mapped k) → pfn (get_pte (gmaps G) k) = None → get_pte (gmaps G') k = get_pte (gmaps G) k;
  ev_keep k f : ¬ T (Mapped k) → pfn (get_pte (gmaps G') k) = Some f → pfn (get_pte (gmaps G) k) = Some f;
  ev_data k : ¬ T (Mapped k) → data G' σ' k = data G σ k;
  ev_shared ko : ¬ T (Shared ko) → obj_bytes σ' ko = obj_bytes σ ko;
}.

Definition nothing : Place → Prop := λ _, False.

(** Only the page [k] changes. *)
Definition only (k : Z * Z) : Place → Prop := λ t, t = Mapped k.

Lemma evolves_refl T G σ : evolves T G σ G σ.
Proof using Type. by split. Qed.

Lemma evolves_trans T G σ G1 σ1 G2 σ2 : evolves T G σ G1 σ1 → evolves T G1 σ1 G2 σ2 → evolves T G σ G2 σ2.
Proof using Type.
  intros [R1 B1 O1 U1 E1 C1 P1 X1 L1 N1 Q1 D1 S1] [R2 B2 O2 U2 E2 C2 P2 X2 L2 N2 Q2 D2 S2]. split.
  - congruence.
  - intros r. by rewrite B2.
  - by trans (gown G1).
  - congruence.
  - intros k Hk. rewrite E2 by (by rewrite R1). by apply E1.
  - intros k f Hk Hf Hc. eapply C2; [by rewrite R1|rewrite E1; done|by eapply C1].
  - by trans (pages σ1).
  - intros ko k f Hko Hk Hf. eapply X1; [|done|done]. eapply X2; [done|by rewrite R1|by rewrite E1].
  - by trans (live σ1).
  - intros k Hk Hn. rewrite N2; [by apply N1|done|by rewrite N1].
  - intros k f Hk Hf. by apply Q1, Q2.
  - intros k Hk. by rewrite D2, D1.
  - intros ko Hk. by rewrite S2, S1.
Qed.

Lemma evolves_weaken (T T' : Place → Prop) G σ G' σ' : (∀ k, T k → T' k) → evolves T G σ G' σ' → evolves T' G σ G' σ'.
Proof using Type. intros HT [R E O U B C P X L N Q Dt S']. split; try done; naive_solver. Qed.

(** Counts grow by at most [n], not counting the allocation of free frames. *)
Definition grows (n : Z) (p p' : Phys A) : Prop := ∀ f, count p' f ≤ Z.max 1 (count p f) + n.
Definition shrinks : Phys A → Phys A → Prop := grows 0.

Lemma grows_trans n m p1 p2 p3 : 0 ≤ n → 0 ≤ m → grows n p1 p2 → grows m p2 p3 → grows (n + m) p1 p3.
Proof using Type. intros Hn Hm H1' H2' f. specialize (H1' f). specialize (H2' f). lia. Qed.

Lemma grows_after p1 p2 p3 n : 0 ≤ n → shrinks p1 p2 → grows n p2 p3 → grows n p1 p3.
Proof using Type. intros Hn H1' H2'. replace n with (0 + n) by lia. by eapply grows_trans. Qed.

Lemma grows_before p1 p2 p3 n : 0 ≤ n → grows n p1 p2 → shrinks p2 p3 → grows n p1 p3.
Proof using Type. intros Hn H1' H2'. replace n with (n + 0) by lia. by eapply grows_trans. Qed.

(** Every page can take [n] more references. *)
Definition room (n : Z) (p : Phys A) : Prop := 0 ≤ n ∧ n + 1 < U16 ∧ ∀ f, count p f + n < U16.

Lemma room_shrinks n p p' : shrinks p p' → room n p → room n p'.
Proof using Type. intros Hs (H0' & H1' & Hr). split_and!; [done|done|]. intros f. specialize (Hs f). specialize (Hr f). lia. Qed.

Lemma room_grows n m p p' : 0 ≤ m ≤ n → grows m p p' → room n p → room (n - m) p'.
Proof using Type. intros Hm Hs (H0' & H1' & Hr). split_and!; [lia|lia|]. intros f. specialize (Hs f). specialize (Hr f). lia. Qed.

Lemma room_le n m p : 0 ≤ m ≤ n → room n p → room m p.
Proof using Type. intros Hm (H0' & H1' & Hr). split_and!; [lia|lia|]. intros f. specialize (Hr f). lia. Qed.

(** What most steps do: the shared objects stay as they are, too. *)
Record calm (T : Place → Prop) G σ G' σ' : Prop := {
  cm_evolves : evolves T G σ G' σ';
  cm_shrinks : shrinks (phys σ) (phys σ');
  cm_pages : pages σ' = pages σ;
  cm_live : live σ' = live σ;
  cm_lost : glost G' = glost G;
}.

Lemma calm_refl T G σ : calm T G σ G σ.
Proof using Type. split; [apply evolves_refl|intros f; lia|done..]. Qed.

Lemma calm_trans T G σ G1 σ1 G2 σ2 : calm T G σ G1 σ1 → calm T G1 σ1 G2 σ2 → calm T G σ G2 σ2.
Proof using Type.
  intros [E1 S1 P1 L1 O1] [E2 S2 P2 L2 O2]. split; [by eapply evolves_trans| |congruence..]. by apply (grows_after _ (phys σ1)).
Qed.

Lemma calm_weaken (T T' : Place → Prop) G σ G' σ' : (∀ k, T k → T' k) → calm T G σ G' σ' → calm T' G σ G' σ'.
Proof using Type. intros HT [He Hs ? ? ?]. split; try done. by eapply evolves_weaken. Qed.

Lemma counts_shrink (p p' : Phys A) : (∀ x, count p' x = count p x) → shrinks p p'.
Proof using Type. intros Hc f. rewrite Hc. lia. Qed.

(** ** What the invariant gives *)

Lemma inv_phys h others G σ : inv h others G σ →
  phys_inv K (gF G) (gU G) (gown G) (gmaps G) (λ f, obj_refs (pages σ) f + glost G f + h f) (phys σ).
Proof using Type. intros Hi. apply (mc_phys _ _ _ (iv_machine _ _ _ _ Hi)). Qed.

Lemma maps_get G σ h k e : machine h G σ → gmaps G !! k = Some e ↔ get_pte (gmaps G) k = e ∧ e ≠ 0.
Proof using Type.
  intros Hm. unfold get_pte. split.
  - intros Hk. rewrite Hk. split; [done|]. destruct k as [r va].
    by destruct (pa_dom _ _ _ (ph_abs _ _ _ _ _ _ _ (mc_phys _ _ _ Hm)) _ _ _ Hk).
  - destruct (gmaps G !! k) as [e'|]; simpl; naive_solver.
Qed.

(** The frames a machine refers to, and how often. *)
Lemma count_split h G σ f : machine h G σ →
  count (phys σ) f = refs_to (gmaps G) f + obj_refs (pages σ) f + glost G f + h f ∧
  0 ≤ refs_to (gmaps G) f ∧ 0 ≤ obj_refs (pages σ) f ∧ 0 ≤ glost G f ∧ 0 ≤ h f.
Proof using Type.
  intros Hm. pose proof (ph_refs _ _ _ _ _ _ _ (mc_phys _ _ _ Hm) f) as Hr. cbv beta in Hr. pose proof (refs_nonneg (gmaps G) f).
  pose proof (tally_nonneg Some (pages σ) f). pose proof (mc_lost _ _ _ Hm f). pose proof (mc_held _ _ _ Hm f). unfold obj_refs in *. lia.
Qed.

Lemma obj_pos m k f : m !! k = Some f → 1 ≤ obj_refs m f.
Proof using Type. intros Hk. by eapply tally_pos. Qed.

(** A page with one reference is referred to by one entry only. *)
Lemma exclusive h G σ k f : machine h G σ → pfn (get_pte (gmaps G) k) = Some f → count (phys σ) f = 1 →
  h f = 0 ∧ (∀ k', pfn (get_pte (gmaps G) k') = Some f → k' = k) ∧ ∀ ko, pages σ !! ko ≠ Some f.
Proof using Type.
  intros Hm Hk Hc. destruct (count_split h G σ f Hm) as (Hs & ? & ? & ? & ?). pose proof (refs_pos _ _ _ Hk).
  split_and!; [lia| |].
  - intros k' Hk'. destruct (decide (k' = k)) as [|Hne]; [done|]. pose proof (refs_two _ _ _ _ Hne Hk' Hk). lia.
  - intros ko Hko. pose proof (obj_pos _ _ _ Hko). lia.
Qed.

(** A held page with one reference is referred to by no one else. *)
Lemma held_alone h G σ f : machine (tok f h) G σ → (∀ x, 0 ≤ h x) → count (phys σ) f = 1 →
  (∀ k, pfn (get_pte (gmaps G) k) ≠ Some f) ∧ (∀ ko, pages σ !! ko ≠ Some f) ∧ h f = 0.
Proof using Type.
  intros Hm Hh Hc. destruct (count_split _ _ _ f Hm) as (Hs & ? & ? & ? & ?). specialize (Hh f).
  unfold tok, one_if in Hs. rewrite decide_True in Hs by done. split_and!; [| |lia].
  - intros k Hk. pose proof (refs_pos _ _ _ Hk). lia.
  - intros ko Hko. pose proof (obj_pos _ _ _ Hko). lia.
Qed.

Lemma entry_cases h others G σ va e : inv h others G σ → gmaps G !! (pml4 (space σ), va) = Some e →
  (∃ f, pfn e = Some f) ∨ (∃ s, swapped e = Some s).
Proof using Type.
  intros Hi Hk. destruct (so_pte _ _ _ (iv_space _ _ _ _ Hi) va e Hk) as (p & g & src & _ & Hok).
  unfold pte_ok in Hok. destruct (pfn e); [eauto|]. destruct Hok as [[s ?] _]. eauto.
Qed.

(** A page of the space, for the page-table rules. *)
Lemma space_page h others G σ va p g src : inv h others G σ → view (regions (space σ)) va = Some (p, g, src) → aligned va →
  page_of (gown G) (pml4 (space σ)) va.
Proof using Type.
  intros Hi Hv Ha. destruct (iv_space _ _ _ _ Hi) as [Hr [Hall _] _ _]. split; [done| |done].
  unfold view in Hv. destruct (region_at (regions (space σ)) va) as [r|] eqn:Er; [|done].
  apply region_at_Some in Er as [Hin Hva]. rewrite Forall_forall in Hall. destruct (Hall r Hin) as [? ? ? _ _ _ _].
  unfold user_va, USER_START, USER_END in *. lia.
Qed.

(** ** Keeping the invariant *)

Lemma pte_ok_mono (pg pg' : gmap (Z * Z) Z) cnt cnt' p (src : Source F) e :
  pte_ok pg cnt p src e → pg ⊆ pg' → (∀ f, pfn e = Some f → cnt f = 1 → cnt' f = 1) →
  (∀ ko f, pfn e = Some f → pg' !! ko = Some f → pg !! ko = Some f) → pte_ok pg' cnt' p src e.
Proof using Type.
  unfold pte_ok. destruct (pfn e) as [f|]; [|done]. intros [Hp Hs] Hsub Hc Hx. split; [done|].
  assert (∀ ko, pg !! ko ≠ Some f → pg' !! ko ≠ Some f) as Hno by (intros ko Hno Hko; by eapply Hno, Hx).
  destruct src; [naive_solver..|]. destruct Hs. split; [done|]. by eapply lookup_weaken.
Qed.

(** Other spaces survive what [evolves] allows. *)
Lemma other_ok h' T G σ G' σ' sp :
  evolves T G σ G' σ' → machine h' G' σ' → space_ok G σ sp → pml4 sp ≠ pml4 (space σ) → space_ok G' σ' sp.
Proof using Type.
  intros He Hm [Hr Hg Hl Hp] Hne. split.
  - by apply (ev_roots _ _ _ _ _ He).
  - done.
  - intros r o Hin Ho. apply (ev_live _ _ _ _ _ He). by eapply Hl.
  - intros va e Hk. apply (maps_get _ _ _ _ _ Hm) in Hk as [Hk Hz]. rewrite (ev_entry _ _ _ _ _ He) in Hk by done.
    assert (gmaps G !! (pml4 sp, va) = Some e) as Hk' by (unfold get_pte in Hk; destruct (gmaps G !! (pml4 sp, va)); simpl in *; congruence).
    destruct (Hp va e Hk') as (p & g & src & Hv & Hok). exists p, g, src. split; [done|].
    eapply pte_ok_mono; [done|apply (ev_pages _ _ _ _ _ He)|intros f Hf Hc|].
    + eapply (ev_count _ _ _ _ _ He (pml4 sp, va)); [done|by rewrite Hk|done].
    + intros ko f Hf Hko. eapply (ev_fresh _ _ _ _ _ He ko (pml4 sp, va)); [done|done|by rewrite Hk].
Qed.

Lemma inv_step h h' others T G σ G' σ' :
  inv h others G σ → evolves T G σ G' σ' → machine h' G' σ' → space_ok G' σ' (space σ') → inv h' others G' σ'.
Proof using Type.
  intros [Hm Hs Ho Hr] He Hm' Hs'. split; [done|done| |].
  - rewrite Forall_forall in *. intros sp Hin. eapply other_ok; eauto.
  - rewrite (ev_root _ _ _ _ _ He). done.
Qed.

(** The space itself, when its entries are unchanged or acceptable. *)
Lemma self_ok h h' T G σ G' σ' :
  machine h G σ → space_ok G σ (space σ) → evolves T G σ G' σ' → machine h' G' σ' →
  regions (space σ') = regions (space σ) →
  (∀ va e p g src, get_pte (gmaps G') (pml4 (space σ), va) = e → e ≠ 0 → view (regions (space σ)) va = Some (p, g, src) →
     get_pte (gmaps G) (pml4 (space σ), va) = e ∧ (∀ f, pfn e = Some f → count (phys σ) f = 1 → count (phys σ') f = 1) ∧
       (∀ ko f, pfn e = Some f → pages σ' !! ko = Some f → pages σ !! ko = Some f) ∨
     pte_ok (pages σ') (count (phys σ')) p src e) →
  (∀ va, get_pte (gmaps G') (pml4 (space σ), va) ≠ 0 → get_pte (gmaps G) (pml4 (space σ), va) = 0 →
     is_Some (view (regions (space σ)) va)) →
  space_ok G' σ' (space σ').
Proof using Type.
  intros Hm [Hr Hg Hl Hp] He Hm' Hrs Hpte Hnew. split.
  - rewrite (ev_root _ _ _ _ _ He). by apply (ev_roots _ _ _ _ _ He).
  - by rewrite Hrs.
  - rewrite Hrs. intros r o Hin Ho. apply (ev_live _ _ _ _ _ He). by eapply Hl.
  - rewrite Hrs, (ev_root _ _ _ _ _ He). intros va e Hk. apply (maps_get _ _ _ _ _ Hm') in Hk as [Hk Hz].
    assert (∃ p g src, view (regions (space σ)) va = Some (p, g, src)) as (p & g & src & Hv).
    { destruct (decide (get_pte (gmaps G) (pml4 (space σ), va) = 0)) as [E|E].
      - destruct (Hnew va) as [[[p g] src] Hv]; [by rewrite Hk|done|eauto].
      - destruct (Hp va (get_pte (gmaps G) (pml4 (space σ), va))) as (p & g & src & Hv & _); [by apply (maps_get _ _ _ _ _ Hm)|eauto]. }
    exists p, g, src. split; [done|]. destruct (Hpte va e p g src Hk Hz Hv) as [(Ek & Hc & Hx)|]; [|done].
    destruct (Hp va e) as (p' & g' & src' & Hv' & Hok); [by apply (maps_get _ _ _ _ _ Hm)|]. simplify_eq.
    eapply pte_ok_mono; [done|apply (ev_pages _ _ _ _ _ He)|done|done].
Qed.

(** A change of accounting only. *)
Record acct σ σ' : Prop := {
  ac_phys : phys σ' = phys σ;
  ac_swap : swap σ' = swap σ;
  ac_live : live σ' = live σ;
  ac_pages : pages σ' = pages σ;
  ac_space : same_space (space σ) (space σ');
}.

Lemma acct_inv h others G σ σ' : acct σ σ' → inv h others G σ → inv h others G σ'.
Proof using Type.
  intros [E1 E2 E3 E4 [Es1 Es2 _ _ _ _]] [Hm [Hr Hg Hl Hp] Ho Hn].
  assert (∀ sp, space_ok G σ sp → space_ok G σ' sp) as Hsp.
  { intros sp [? ? ? ?]. split; rewrite ?E1, ?E3, ?E4; done. }
  split.
  - destruct Hm. split; rewrite ?E1, ?E2, ?E3, ?E4; done.
  - apply Hsp. split; rewrite ?Es1, ?Es2; done.
  - eapply Forall_impl; [exact Ho|]. apply Hsp.
  - by rewrite Es1.
Qed.

Lemma acct_evolves T G σ σ' : acct σ σ' → evolves T G σ G σ'.
Proof using Type.
  intros [E1 E2 E3 E4 [Es1 _ _ _ _ _]]. split; try done; rewrite ?E1, ?E3, ?E4; try done.
  - intros k _. unfold data. by rewrite E1, E2.
  - intros ko _. unfold obj_bytes. by rewrite E1, E4.
Qed.

Lemma acct_calm T G σ σ' : acct σ σ' → calm T G σ G σ'.
Proof using Type. intros Ha. split; [by apply acct_evolves| |apply Ha|apply Ha|done]. destruct Ha as [-> _ _ _ _]. by apply counts_shrink. Qed.

Lemma acct_refl σ : acct σ σ.
Proof using Type. by split; auto with fastros. Qed.

Lemma acct_trans σ1 σ2 σ3 : acct σ1 σ2 → acct σ2 σ3 → acct σ1 σ3.
Proof using Type. intros [? ? ? ? S1] [? ? ? ? S2]. split; try congruence. by eapply same_space_trans. Qed.

End SpaceInv.
