(* ===== verification/SpaceSteps.v ===== *)
(** * Steps of the address spaces

    One rule per way the code changes frames, entries, swap slots and shared
    pages, each keeping the invariant of all spaces. *)

From S2P Require Import Prelude Errno UAccess Vma Frame Paging PagingProofs Cgroup Swap AddrSpace PhysInv PteBits SpaceInv.

Section SpaceSteps.
Context {A D F : Type} `{FrameAllocatorLaws A} `{BlockDeviceLaws D} `{MappedFile F}.
Context (K : gset Z).
Implicit Types (σ : St A D F) (G : Ghost) (sp : AddressSpace F) (h : Z → Z) (others : list (AddressSpace F)).

(** ** Executions on the machine *)

Lemma wp_on_phys {X} (m : Exec (Phys A) X) Q σ :
  wp m (λ x p, Q x (with_phys p σ)) (phys σ) → wp (on_phys m) Q σ.
Proof using Type. unfold wp, on_phys. by destruct (m (phys σ)) as [[x p]|]. Qed.

Lemma data_same G σ G' σ' k :
  get_pte (gmaps G') k = get_pte (gmaps G) k → (∀ f, pfn (get_pte (gmaps G) k) = Some f → mem (phys σ') !! f = mem (phys σ) !! f) →
  (∀ s, swapped (get_pte (gmaps G) k) = Some s → swap σ' ≫= read_slot s = swap σ ≫= read_slot s) → data G' σ' k = data G σ k.
Proof using Type.
  intros Ek Hm Hs. unfold data, frame_bytes. rewrite Ek. destruct (pfn (get_pte (gmaps G) k)) as [f|] eqn:E; [by rewrite (Hm f)|].
  destruct (swapped (get_pte (gmaps G) k)) as [s|]; [by rewrite (Hs s)|done].
Qed.

Lemma obj_same σ σ' :
  pages σ' = pages σ → (∀ ko f, pages σ !! ko = Some f → mem (phys σ') !! f = mem (phys σ) !! f) → ∀ ko, obj_bytes σ' ko = obj_bytes σ ko.
Proof using Type.
  intros Ep Hm ko. unfold obj_bytes, frame_bytes. rewrite Ep. destruct (pages σ !! ko) as [f|] eqn:E; [by rewrite (Hm ko f)|done].
Qed.

(** ** Steps that change no entry *)

Lemma keep_maps h h' others G σ G' σ' :
  inv K h others G σ → machine K h' G' σ' → gmaps G' = gmaps G → (∀ r, root_ok (gown G') r ↔ root_ok (gown G) r) → gown G ⊆ gown G' → gF G' ∪ gU G' = gF G ∪ gU G →
  pages σ ⊆ pages σ' → live σ ⊆ live σ' → same_space (space σ) (space σ') →
  (∀ k f, pfn (get_pte (gmaps G) k) = Some f → count (phys σ) f = 1 → count (phys σ') f = 1) →
  (∀ k, data G' σ' k = data G σ k) → (∀ ko, obj_bytes σ' ko = obj_bytes σ ko) →
  (∀ ko k f, pages σ' !! ko = Some f → pfn (get_pte (gmaps G) k) = Some f → pages σ !! ko = Some f) →
  inv K h' others G' σ' ∧ evolves nothing G σ G' σ'.
Proof using Type.
  intros Hi Hm' Em Hr Hown Htot Hp Hl Hs Hc Hd Ho Hx.
  assert (evolves nothing G σ G' σ') as He.
  { split; try done; [apply Hs| | | | |]; rewrite ?Em; try done.
    - intros k f _ Hf. by eapply Hc.
    - intros ko k f Hko _ Hf. by eapply Hx. }
  split; [|done]. eapply inv_step; [exact Hi|exact He|done|].
  eapply self_ok; [apply (iv_machine _ _ _ _ _ Hi)|apply (iv_space _ _ _ _ _ Hi)|exact He|done|apply Hs| |].
  - intros va e p g src He' _ _. left. rewrite Em in He'. split; [done|]. split.
    + intros f Hf. eapply Hc. by rewrite He'.
    + intros ko f Hf Hko. eapply Hx; [done|by rewrite He'].
  - intros va Hne Hz. rewrite Em in Hne. done.
Qed.

Lemma obj_counted h G σ ko x : machine K h G σ → pages σ !! ko = Some x → 1 ≤ count (phys σ) x.
Proof using Type. intros Hm Hk. destruct (count_split _ _ _ _ x Hm) as (? & ? & ? & ? & ?). pose proof (obj_pos _ _ _ Hk). lia. Qed.

(** Frames behind shared objects keep their contents through table writes. *)
Lemma kept_shared h G σ p' ko x :
  machine K h G σ → pages_kept (gU G) (gown G) (phys σ) p' → pages σ !! ko = Some x → mem p' !! x = mem (phys σ) !! x.
Proof using Type.
  intros Hm [_ Hmem] Hk. pose proof (obj_counted _ _ _ _ _ Hm Hk).
  destruct (ph_used _ _ _ _ _ _ _ (mc_phys _ _ _ _ Hm) x) as (HU & Hno & _); [lia|]. by apply Hmem.
Qed.

Lemma calm_counts T G σ G' p' : evolves T G σ G' (with_phys p' σ) → shrinks (phys σ) p' → glost G' = glost G → calm T G σ G' (with_phys p' σ).
Proof using Type. by split. Qed.

Lemma calm_frames T G σ G' σ' :
  evolves T G σ G' σ' → (∀ x, count (phys σ') x = count (phys σ) x) → pages σ' = pages σ → live σ' = live σ →
  glost G' = glost G → calm T G σ G' σ'.
Proof using Type. intros ? ? ? ? ?. split; try done. by apply counts_shrink. Qed.

(** The machine after a change of frames alone. *)
Definition on_frames (F' U' : gset Z) own' (G : Ghost) : Ghost := mkGhost F' U' own' (gmaps G) (gX G) (glost G).

Lemma machine_frames h h' G σ F' U' own' p' :
  machine K h G σ → (∀ x, 0 ≤ h' x) →
  phys_inv K F' U' own' (gmaps G) (λ f, obj_refs (pages σ) f + glost G f + h' f) p' →
  machine K h' (on_frames F' U' own' G) (with_phys p' σ).
Proof using Type. intros [? ? ? ? ? ? ? ?] Hh Hp. by split. Qed.

Lemma tok_nonneg f h : (∀ x, 0 ≤ h x) → ∀ x, 0 ≤ tok f h x.
Proof using Type. intros Hh x. unfold tok. specialize (Hh x). pose proof (one_if_nonneg (x = f)). lia. Qed.

Lemma tok_self f h : tok f h f = h f + 1.
Proof using Type. unfold tok, one_if. by rewrite decide_True. Qed.

Lemma tok_other f h x : x ≠ f → tok f h x = h x.
Proof using Type. intros. unfold tok, one_if. rewrite decide_False by done. lia. Qed.

Lemma wp_st_alloc h others G σ Q :
  inv K h others G σ →
  (∀ f G' p', inv K (tok f h) others G' (with_phys p' σ) → calm nothing G σ G' (with_phys p' σ) → gmaps G' = gmaps G →
     count p' f = 1 → mem p' !! f = Some (Page zero_page) → frame_addr f → f ∈ gF G →
     (∀ x, 0 < count (phys σ) x → count p' x = count (phys σ) x) →
     Q (Some f) (with_phys p' σ)) →
  (∀ p', inv K h others G (with_phys p' σ) → calm nothing G σ G (with_phys p' σ) → gF G = ∅ → Q None (with_phys p' σ)) →
  wp (on_phys alloc_user_page) Q σ.
Proof using Type.
  intros Hi Hs Hn. pose proof (inv_phys _ _ _ _ _ Hi) as Hp. pose proof (iv_machine _ _ _ _ _ Hi) as Hm.
  pose proof (mc_held _ _ _ _ Hm) as Hh. apply wp_on_phys. eapply wp_alloc_user_page; [exact Hp| |].
  - intros f p' HfF Hp' Hmf Hmo Hrefs.
    assert (∀ x, 0 < count (phys σ) x → x ≠ f) as Hne by (intros x Hx ->; rewrite (free_count _ _ _ _ _ _ _ _ Hp HfF) in Hx; lia).
    assert (∀ x, x ≠ f → count p' x = count (phys σ) x) as Ec by (intros x Hx; unfold count; by rewrite Hrefs, lookup_insert_ne).
    destruct (keep_maps h (tok f h) others G σ (on_frames (gF G ∖ {[f]}) (gU G ∪ {[f]}) (gown G) G) (with_phys p' σ)) as [Hi' He]; try done.
    + apply (machine_frames h); [done|by apply tok_nonneg|]. eapply phys_inv_ext; [exact Hp'|]. intros x. unfold tok. lia.
    + simpl. rewrite union_comm_L, <- (union_assoc_L (gU G)), (union_comm_L {[f]}), difference_union_L. set_solver +HfF.
    + intros k x Hk Hc. rewrite Ec; [done|]. apply Hne. lia.
    + intros k. apply data_same; [done| |done]. intros x Hk. apply Hmo, Hne. pose proof (mapped_frame _ _ _ _ _ _ _ _ _ Hp Hk). lia.
    + apply obj_same; [done|]. intros ko x Hk. apply Hmo, Hne. pose proof (obj_counted _ _ _ _ _ Hm Hk). lia.
    + assert (count p' f = 1) as Ef by (unfold count; by rewrite Hrefs, lookup_insert_eq).
      apply (Hs f (on_frames (gF G ∖ {[f]}) (gU G ∪ {[f]}) (gown G) G)); try done.
      * apply calm_counts; [done| |done]. intros x. simpl. destruct (decide (x = f)) as [->|Hx]; [lia|]. rewrite Ec by done. lia.
      * eapply (fa_addr (gF G) (gU G)); [apply (pi_rep _ _ _ _ (ph_paging _ _ _ _ _ _ _ Hp))|set_solver +HfF].
      * intros x Hx. apply Ec, Hne. lia.
  - intros p' HF Hp' Hmem Hrefs. assert (∀ x, count p' x = count (phys σ) x) as Ec by (intros; unfold count; by rewrite Hrefs).
    destruct (keep_maps h h others G σ G (with_phys p' σ)) as [Hi' He]; try done.
    + apply (machine_frames h _ G σ (gF G) (gU G) (gown G)) in Hp'; [|done|done]. by destruct G.
    + intros k x _. by rewrite Ec.
    + intros k. apply data_same; [done| |done]. intros. simpl. by rewrite Hmem.
    + apply obj_same; [done|]. intros. simpl. by rewrite Hmem.
    + apply Hn; [done|by apply calm_frames|done].
Qed.

Lemma wp_st_put h others G σ f Q :
  inv K (tok f h) others G σ → (∀ x, 0 ≤ h x) →
  (∀ G' p', inv K h others G' (with_phys p' σ) → calm nothing G σ G' (with_phys p' σ) → gmaps G' = gmaps G →
     mem p' = mem (phys σ) → (∀ x, x ≠ f → count p' x = count (phys σ) x) → count p' f = count (phys σ) f - 1 →
     Q tt (with_phys p' σ)) →
  wp (on_phys (page_put f)) Q σ.
Proof using Type.
  intros Hi Hh HQ. pose proof (inv_phys _ _ _ _ _ Hi) as Hp. pose proof (iv_machine _ _ _ _ _ Hi) as Hm.
  apply wp_on_phys. eapply (wp_page_put K _ _ _ _ (λ x, obj_refs (pages σ) x + glost G x + h x)).
  - eapply phys_inv_ext; [exact Hp|]. intros x. unfold tok. lia.
  - intros x. destruct (count_split _ _ _ _ x Hm) as (? & ? & ? & ? & ?). specialize (Hh x). lia.
  - intros F' U' p' Hp' Hmem Hrefs Hsplit.
    assert (∀ x, x ≠ f → count p' x = count (phys σ) x) as Ec by (intros x Hx; unfold count; by rewrite Hrefs, lookup_insert_ne).
    destruct (keep_maps (tok f h) h others G σ (on_frames F' U' (gown G) G) (with_phys p' σ)) as [Hi' He]; try done.
    + by apply (machine_frames (tok f h)).
    + simpl. destruct (held_frame K (gF G) (gU G) (gown G) (gmaps G) (λ x, obj_refs (pages σ) x + glost G x + h x) (phys σ) f) as (_ & HfU & _); [eapply phys_inv_ext; [exact Hp|]; intros x; unfold tok; lia| |].
      { destruct (count_split _ _ _ _ f Hm) as (? & ? & ? & ? & ?). specialize (Hh f). lia. }
      destruct Hsplit as [(-> & -> & _)|(-> & -> & _)]; [done|]. rewrite <- (union_assoc_L (gF G)). f_equal. rewrite union_comm_L, difference_union_L. set_solver +HfU.
    + intros k x Hk Hc. rewrite Ec; [done|]. intros ->. destruct (exclusive _ _ _ _ _ _ Hm Hk Hc) as [Hz _].
      rewrite tok_self in Hz. specialize (Hh f). lia.
    + intros k. apply data_same; [done| |done]. intros. simpl. by rewrite Hmem.
    + apply obj_same; [done|]. intros. simpl. by rewrite Hmem.
    + assert (count p' f = count (phys σ) f - 1) as Ef by (unfold count; by rewrite Hrefs, lookup_insert_eq).
      apply (HQ (on_frames F' U' (gown G) G)); try done. apply calm_counts; [done| |done]. intros x. simpl.
      destruct (decide (x = f)) as [->|Hx]; [lia|]. rewrite Ec by done. lia.
Qed.

(** Another reference to a page of a shared object. *)
Lemma wp_st_get_shared h others G σ ko f Q :
  inv K h others G σ → pages σ !! ko = Some f → count (phys σ) f < U16 - 1 →
  (∀ p', inv K (tok f h) others G (with_phys p' σ) → evolves nothing G σ G (with_phys p' σ) → mem p' = mem (phys σ) →
     grows 1 (phys σ) p' → Q tt (with_phys p' σ)) →
  wp (on_phys (page_get f)) Q σ.
Proof using Type.
  intros Hi Hk Hmax HQ. pose proof (inv_phys _ _ _ _ _ Hi) as Hp. pose proof (iv_machine _ _ _ _ _ Hi) as Hm.
  pose proof (mc_held _ _ _ _ Hm) as Hh. destruct (count_split _ _ _ _ f Hm) as (? & ? & ? & ? & ?). pose proof (obj_pos _ _ _ Hk).
  apply wp_on_phys. eapply (wp_page_get K); [exact Hp|lia|]. intros p' Hp' Hmem Hrefs.
  assert (∀ x, x ≠ f → count p' x = count (phys σ) x) as Ec by (intros x Hx; unfold count; by rewrite Hrefs, lookup_insert_ne).
  destruct (keep_maps h (tok f h) others G σ G (with_phys p' σ)) as [Hi' He]; try done.
  - assert (machine K (tok f h) (on_frames (gF G) (gU G) (gown G) G) (with_phys p' σ)) as Hm'; [|by destruct G].
    apply (machine_frames h); [done|by apply tok_nonneg|]. eapply phys_inv_ext; [exact Hp'|]. intros x. unfold tok. lia.
  - intros k x Hkx Hc. rewrite Ec; [done|]. intros ->. by destruct (exclusive _ _ _ _ _ _ Hm Hkx Hc) as (_ & _ & Hno); destruct (Hno ko).
  - intros k. apply data_same; [done| |done]. intros. simpl. by rewrite Hmem.
  - apply obj_same; [done|]. intros. simpl. by rewrite Hmem.
  - apply HQ; try done. intros x. destruct (decide (x = f)) as [->|Hx]; [|rewrite Ec by done; lia].
    unfold count at 1. rewrite Hrefs, lookup_insert_eq. simpl. lia.
Qed.

(** Writing to a page no one else refers to. *)
Lemma wp_st_fill h others G σ f bs Q :
  inv K (tok f h) others G σ → (∀ x, 0 ≤ h x) → count (phys σ) f = 1 → length bs = Z.to_nat PAGE_SIZE →
  (∀ p', inv K (tok f h) others G (with_phys p' σ) → calm nothing G σ G (with_phys p' σ) → count p' f = 1 →
     mem p' !! f = Some (Page bs) → Q tt (with_phys p' σ)) →
  wp (on_phys (write_frame f (Page bs))) Q σ.
Proof using Type.
  intros Hi Hh Hc Hl HQ. pose proof (inv_phys _ _ _ _ _ Hi) as Hp. pose proof (iv_machine _ _ _ _ _ Hi) as Hm.
  destruct (held_alone _ _ _ _ _ Hm Hh Hc) as (Hno & Hnp & _).
  apply wp_on_phys. eapply (wp_write_page K); [exact Hp|lia|done|]. intros p' Hp' Hmem Hrefs.
  assert (∀ x, count p' x = count (phys σ) x) as Ec by (intros; unfold count; by rewrite Hrefs).
  destruct (keep_maps (tok f h) (tok f h) others G σ G (with_phys p' σ)) as [Hi' He]; try done.
  - assert (machine K (tok f h) (on_frames (gF G) (gU G) (gown G) G) (with_phys p' σ)) as Hm'; [|by destruct G].
    apply (machine_frames (tok f h)); [done|by apply tok_nonneg|done].
  - intros k x _. by rewrite Ec.
  - intros k. apply data_same; [done| |done]. intros x Hk. simpl. rewrite Hmem, lookup_insert_ne; [done|]. intros ->. by apply (Hno k).
  - apply obj_same; [done|]. intros ko x Hk. simpl. rewrite Hmem, lookup_insert_ne; [done|]. intros ->. by apply (Hnp ko).
  - apply HQ; [done|by apply calm_frames|by rewrite Ec|]. rewrite Hmem. apply lookup_insert_eq.
Qed.

(** Losing track of a held page. *)
Lemma inv_lose h others G σ f :
  inv K (tok f h) others G σ → (∀ x, 0 ≤ h x) →
  let G' := mkGhost (gF G) (gU G) (gown G) (gmaps G) (gX G) (tok f (glost G)) in
  inv K h others G' σ ∧ evolves nothing G σ G' σ.
Proof using Type.
  intros Hi Hh G'. pose proof (iv_machine _ _ _ _ _ Hi) as Hm. apply (keep_maps (tok f h)); try done; auto with fastros.
  destruct Hm as [Hp ? Hlost ? ? ? ? ?]. split; try done; [|by apply tok_nonneg].
  eapply phys_inv_ext; [exact Hp|]. intros x. simpl. unfold tok. lia.
Qed.

(** ** Steps that change one entry *)

Lemma set_entry h h' others T G σ G' σ' va v :
  inv K h others G σ → machine K h' G' σ' → gmaps G' = set_pte (pml4 (space σ), va) v (gmaps G) →
  (∀ r, root_ok (gown G') r ↔ root_ok (gown G) r) → gown G ⊆ gown G' → gF G' ∪ gU G' = gF G ∪ gU G →
  pages σ' = pages σ → live σ ⊆ live σ' → same_space (space σ) (space σ') →
  (∀ k f, k ≠ (pml4 (space σ), va) → pfn (get_pte (gmaps G) k) = Some f → count (phys σ) f = 1 → count (phys σ') f = 1) →
  (v = 0 ∨ ∃ p g src, view (regions (space σ)) va = Some (p, g, src) ∧ pte_ok (pages σ') (count (phys σ')) p src v) →
  is_Some (pfn (get_pte (gmaps G) (pml4 (space σ), va))) ∨ T (Mapped (pml4 (space σ), va)) →
  pfn v = None ∨ pfn v = pfn (get_pte (gmaps G) (pml4 (space σ), va)) ∨ T (Mapped (pml4 (space σ), va)) →
  (∀ k, ¬ T (Mapped k) → data G' σ' k = data G σ k) → (∀ ko, obj_bytes σ' ko = obj_bytes σ ko) →
  inv K h' others G' σ' ∧ evolves T G σ G' σ'.
Proof using Type.
  intros Hi Hm' Em Hr Hown Htot Hp Hl Hs Hc Hv Hold Hnew Hd Ho.
  assert (∀ k, get_pte (gmaps G') k = if decide (k = (pml4 (space σ), va)) then v else get_pte (gmaps G) k) as Eg.
  { intros k. rewrite Em. apply get_set_pte. }
  assert (evolves T G σ G' σ') as He.
  { split; try done; [apply Hs| | |by rewrite Hp|by rewrite Hp| |].
    - intros k Hk. rewrite Eg, decide_False; [done|]. by intros ->.
    - intros k f Hk. apply Hc. by intros ->.
    - intros k Hk Hn. rewrite Eg, decide_False; [done|]. intros ->. destruct Hold as [[? ?]|?]; [congruence|done].
    - intros k f Hk. rewrite Eg. case_decide as E; [subst k|done]. destruct Hnew as [->|[->|?]]; done. }
  split; [|done]. eapply inv_step; [exact Hi|exact He|done|].
  eapply self_ok; [apply (iv_machine _ _ _ _ _ Hi)|apply (iv_space _ _ _ _ _ Hi)|exact He|done|apply Hs| |].
  - intros va' e p g src He' Hne Hv'. rewrite Eg in He'. case_decide as Ek.
    + injection Ek as ->. subst e. destruct Hv as [->|(p0 & g0 & src0 & Hv0 & Hok)]; [done|]. simplify_eq. by right.
    + left. rewrite Hp. split_and!; [done| |done]. intros f Hf. apply (Hc (pml4 (space σ), va')); [done|by rewrite He'].
  - intros va' Hne Hz. rewrite Eg in Hne. case_decide as Ek; [|done].
    injection Ek as ->. destruct Hv as [->|(p0 & g0 & src0 & Hv0 & _)]; [done|]. eauto.
Qed.

Definition on_entry (F' U' : gset Z) own' (k : Z * Z) (v : Z) (G : Ghost) : Ghost :=
  mkGhost F' U' own' (set_pte k v (gmaps G)) (gX G) (glost G).

(** The machine after one entry became [v], not a new swap entry. *)
Lemma machine_entry h h' G σ F' U' own' p' k v :
  machine K h G σ → (∀ x, 0 ≤ h' x) → swapped v = None →
  phys_inv K F' U' own' (set_pte k v (gmaps G)) (λ f, obj_refs (pages σ) f + glost G f + h' f) p' →
  machine K h' (on_entry F' U' own' k v G) (with_phys p' σ).
Proof using Type.
  intros [? ? ? ? ? ? Hs Hd] Hh Hv Hp. split; try done; simpl.
  - intros k' s. rewrite get_set_pte. case_decide; [congruence|apply Hs].
  - intros k1 k2 s. rewrite !get_set_pte. repeat case_decide; try congruence. apply Hd.
Qed.

(** New flags for a page. *)
Lemma wp_st_flags h others G σ va ptr v p g src Q :
  inv K h others G σ → page_of (gown G) (pml4 (space σ)) va → leaf_ptr (gown G) (pml4 (space σ)) va ptr →
  pfn v = pfn (get_pte (gmaps G) (pml4 (space σ), va)) → is_Some (pfn v) →
  view (regions (space σ)) va = Some (p, g, src) → pte_ok (pages σ) (count (phys σ)) p src v →
  (∀ G' p', inv K h others G' (with_phys p' σ) → calm nothing G σ G' (with_phys p' σ) →
     gmaps G' = set_pte (pml4 (space σ), va) v (gmaps G) → gown G' = gown G → refs p' = refs (phys σ) → Q tt (with_phys p' σ)) →
  wp (on_phys (write_entry ptr v)) Q σ.
Proof using Type.
  intros Hi Hpg Hptr Hpfn [f Hf] Hv Hok HQ. pose proof (inv_phys _ _ _ _ _ Hi) as Hp. pose proof (iv_machine _ _ _ _ _ Hi) as Hm.
  apply wp_on_phys. eapply (wp_write_flags K); [exact Hp|done|done|done|]. intros p' Hp' Hkept. pose proof Hkept as [Hrefs Hmem].
  assert (∀ x, count p' x = count (phys σ) x) as Ec by (intros; unfold count; by rewrite Hrefs).
  destruct (set_entry h h others nothing G σ (on_entry (gF G) (gU G) (gown G) (pml4 (space σ), va) v G) (with_phys p' σ) va v) as [Hi' He]; try done.
  - apply (machine_entry h); [done|apply (mc_held _ _ _ _ Hm)|by eapply pfn_not_swapped|done].
  - intros k x _ _. by rewrite Ec.
  - right. exists p, g, src. split; [done|]. eapply pte_ok_mono; [exact Hok|done| |done]. intros x _. by rewrite Ec.
  - left. rewrite <- Hpfn, Hf. eauto.
  - by right; left.
  - intros k _. assert (pfn (get_pte (gmaps (on_entry (gF G) (gU G) (gown G) (pml4 (space σ), va) v G)) k) = pfn (get_pte (gmaps G) k) ∧
      swapped (get_pte (gmaps (on_entry (gF G) (gU G) (gown G) (pml4 (space σ), va) v G)) k) = swapped (get_pte (gmaps G) k)) as [E1 E2].
    { simpl. rewrite get_set_pte. case_decide as Ek; [subst k|done]. split; [done|].
      rewrite (pfn_not_swapped v f Hf). symmetry. eapply pfn_not_swapped. by rewrite <- Hpfn. }
    unfold data. rewrite E1, E2. destruct (pfn (get_pte (gmaps G) k)) as [x|] eqn:Ex; [|done].
    destruct (mapped_frame _ _ _ _ _ _ _ _ _ Hp Ex) as (_ & HU & Hno & _). unfold frame_bytes. simpl. by rewrite (Hmem x HU Hno).
  - apply obj_same; [done|]. intros ko x Hk. by eapply kept_shared.
  - apply (HQ (on_entry (gF G) (gU G) (gown G) (pml4 (space σ), va) v G)); try done. by apply calm_frames.
Qed.
Lemma data_present G σ k f : pfn (get_pte (gmaps G) k) = Some f → data G σ k = Some (frame_bytes (phys σ) f).
Proof using Type. intros Hk. unfold data. by rewrite Hk. Qed.

Lemma mapped_bytes h G σ k f : machine K h G σ → pfn (get_pte (gmaps G) k) = Some f →
  ∃ bs, mem (phys σ) !! f = Some (Page bs) ∧ length bs = Z.to_nat PAGE_SIZE.
Proof using Type. intros Hm Hk. destruct (mapped_frame _ _ _ _ _ _ _ _ _ (mc_phys _ _ _ _ Hm) Hk) as (_ & _ & _ & Hpg). done. Qed.

(** Frames that stay mapped keep their contents through table writes. *)
Lemma kept_mapped h G σ p' k x :
  machine K h G σ → pages_kept (gU G) (gown G) (phys σ) p' → pfn (get_pte (gmaps G) k) = Some x → mem p' !! x = mem (phys σ) !! x.
Proof using Type.
  intros Hm [_ Hmem] Hk. destruct (mapped_frame _ _ _ _ _ _ _ _ _ (mc_phys _ _ _ _ Hm) Hk) as (_ & HU & Hno & _). by apply Hmem.
Qed.

(** Installing a held frame. *)
Lemma wp_st_install h others G σ va f p g src Q :
  inv K (tok f h) others G σ → (∀ x, 0 ≤ h x) → page_of (gown G) (pml4 (space σ)) va →
  view (regions (space σ)) va = Some (p, g, src) →
  match src with SharedAt o off => pages σ !! (o, off) = Some f | _ => count (phys σ) f = 1 end →
  (∀ G' p', inv K h others G' (with_phys p' σ) → calm (only (pml4 (space σ), va)) G σ G' (with_phys p' σ) →
     pfn (get_pte (gmaps G) (pml4 (space σ), va)) = None →
     gmaps G' = set_pte (pml4 (space σ), va) (page_entry f (to_page_flags p)) (gmaps G) →
     pfn (get_pte (gmaps G') (pml4 (space σ), va)) = Some f → mem p' !! f = mem (phys σ) !! f → gX G' = gX G →
     Q (inr tt) (with_phys p' σ)) →
  (∀ G' p' e, inv K (tok f h) others G' (with_phys p' σ) → calm nothing G σ G' (with_phys p' σ) → gmaps G' = gmaps G →
     e = OutOfMemory ∧ gF G' = ∅ ∨ e = AlreadyMapped ∧ is_Some (pfn (get_pte (gmaps G) (pml4 (space σ), va))) → Q (inl e) (with_phys p' σ)) →
  wp (on_phys (map_4k (pml4 (space σ)) va f (to_page_flags p))) Q σ.
Proof using Type.
  intros Hi Hh Hpg Hv Hsrc Hs Hn. pose proof (inv_phys _ _ _ _ _ Hi) as Hp. pose proof (iv_machine _ _ _ _ _ Hi) as Hm.
  assert (phys_inv K (gF G) (gU G) (gown G) (gmaps G) (tok f (λ x, obj_refs (pages σ) x + glost G x + h x)) (phys σ)) as Hpt.
  { eapply phys_inv_ext; [exact Hp|]. intros x. unfold tok. lia. }
  assert (∀ x, 0 ≤ obj_refs (pages σ) x + glost G x + h x) as Hext.
  { intros x. destruct (count_split _ _ _ _ x Hm) as (? & ? & ? & ? & ?). specialize (Hh x). lia. }
  destruct (held_frame _ _ _ _ _ _ _ _ Hpt (Hext f)) as (_ & HfU & Hfno & _).
  assert (frame_addr f) as Hfa by (eapply (fa_addr (gF G) (gU G)); [apply (pi_rep _ _ _ _ (ph_paging _ _ _ _ _ _ _ Hp))|set_solver +HfU]).
  apply wp_on_phys. eapply (wp_install K); [exact Hpt|exact Hext|exact Hpg|apply to_page_flags_only| |].
  - intros F' U' own' p' Htot Hsub Hroots Hkept Hnone Hp'. pose proof Hkept as [Hrefs Hmem].
    assert (∀ x, count p' x = count (phys σ) x) as Ec by (intros; unfold count; by rewrite Hrefs).
    set (v := page_entry f (to_page_flags p)) in *. destruct (new_entry_perms f p Hfa) as [Hperm Hcow]. fold v in Hperm, Hcow.
    assert (pfn v = Some f) as Hpv by (apply pfn_page_entry; auto with pte).
    destruct (set_entry (tok f h) h others (only (pml4 (space σ), va)) G σ (on_entry F' U' own' (pml4 (space σ), va) v G) (with_phys p' σ) va v)
      as [Hi' He]; try done.
    + apply (machine_entry (tok f h)); [done|done|by eapply pfn_not_swapped|done].
    + intros r. split; [apply Hroots|]. intros Hr. by eapply lookup_weaken.
    + intros k x _ _. by rewrite Ec.
    + right. exists p, g, src. split; [done|]. unfold pte_ok. rewrite Hpv. split; [done|].
      assert (count (phys σ) f = 1 → ∀ ko, pages σ !! ko ≠ Some f) as Hnp by (intros Hc1; by apply (held_alone _ _ _ _ _ Hm Hh Hc1)).
      destruct src; [rewrite Ec; split; [by apply Hnp|done]..|done].
    + by right.
    + by right; right.
    + intros k Hk. apply data_same; [simpl; rewrite get_set_pte, decide_False; [done|]; by intros ->| |done].
      intros x Hx. by eapply kept_mapped.
    + apply obj_same; [done|]. intros ko x Hk. by eapply kept_shared.
    + apply (Hs (on_entry F' U' own' (pml4 (space σ), va) v G)); try done.
      * by apply calm_frames.
      * simpl. rewrite get_set_pte. by rewrite decide_True.
      * by apply Hmem.
  - intros F' U' own' p' e Htot Hsub Hroots Hkept Hp' He. pose proof Hkept as [Hrefs Hmem].
    assert (∀ x, count p' x = count (phys σ) x) as Ec by (intros; unfold count; by rewrite Hrefs).
    destruct (keep_maps (tok f h) (tok f h) others G σ (on_frames F' U' own' G) (with_phys p' σ)) as [Hi' Hev]; try done.
    + apply (machine_frames (tok f h)); [done|by apply tok_nonneg|]. eapply phys_inv_ext; [exact Hp'|]. intros x. unfold tok. lia.
    + intros r. split; [apply Hroots|]. intros Hr. by eapply lookup_weaken.
    + intros k x _. by rewrite Ec.
    + intros k. apply data_same; [done| |done]. intros x Hx. by eapply kept_mapped.
    + apply obj_same; [done|]. intros ko x Hk. by eapply kept_shared.
    + apply (Hn (on_frames F' U' own' G)); try done. by apply calm_frames.
Qed.

(** Taking a frame out of its entry; [v] is 0 or a fresh swap entry with the
    same contents. *)
Lemma wp_st_take h others T G σ va ptr f v Q :
  inv K h others G σ → page_of (gown G) (pml4 (space σ)) va → leaf_ptr (gown G) (pml4 (space σ)) va ptr →
  pfn (get_pte (gmaps G) (pml4 (space σ), va)) = Some f → pfn v = None →
  (v = 0 ∧ T (Mapped (pml4 (space σ), va)) ∨
   ∃ s p g src, swapped v = Some s ∧ s ∈ gX G ∧ (∀ k, swapped (get_pte (gmaps G) k) ≠ Some s) ∧
     view (regions (space σ)) va = Some (p, g, src) ∧ private src = true ∧
     swap σ ≫= read_slot s = frame_bytes (phys σ) f) →
  (∀ G' p', inv K (tok f h) others G' (with_phys p' σ) → calm T G σ G' (with_phys p' σ) →
     gmaps G' = set_pte (pml4 (space σ), va) v (gmaps G) → gown G' = gown G → Q tt (with_phys p' σ)) →
  wp (on_phys (write_entry ptr v)) Q σ.
Proof using Type.
  intros Hi Hpg Hptr Hf Hv Hcase HQ. pose proof (inv_phys _ _ _ _ _ Hi) as Hp. pose proof (iv_machine _ _ _ _ _ Hi) as Hm.
  pose proof (mc_held _ _ _ _ Hm) as Hh.
  apply wp_on_phys. eapply (wp_write_take K); [exact Hp|done|done|exact Hf|done|]. intros p' Hp' Hkept. pose proof Hkept as [Hrefs Hmem].
  assert (∀ x, count p' x = count (phys σ) x) as Ec by (intros; unfold count; by rewrite Hrefs).
  set (k0 := (pml4 (space σ), va)) in *. set (G' := on_entry (gF G) (gU G) (gown G) k0 v G).
  assert (∀ k, get_pte (gmaps G') k = if decide (k = k0) then v else get_pte (gmaps G) k) as Eg by (intros; apply get_set_pte).
  destruct (set_entry h (tok f h) others T G σ G' (with_phys p' σ) va v) as [Hi' He]; try done.
  - destruct Hm as [? ? ? ? ? ? Hsl Hds]. split; try done; [| by apply tok_nonneg| |].
    + eapply phys_inv_ext; [exact Hp'|]. intros x. simpl. unfold tok. lia.
    + intros k s. rewrite Eg. case_decide; [|apply Hsl]. intros Hsw.
      destruct Hcase as [[-> _]|(s' & ? & ? & ? & Hsw' & Hin & _)]; [done|]. by simplify_eq.
    + intros k1 k2 s. rewrite !Eg. repeat case_decide; try congruence; [| |apply Hds]; intros H1' H2';
        (destruct Hcase as [[-> _]|(s' & ? & ? & ? & Hsw' & _ & Hfresh & _)]; [done|]; simplify_eq; by edestruct Hfresh).
  - intros k x _ _. by rewrite Ec.
  - destruct Hcase as [[-> _]|(s' & p & g & src & Hsw' & _ & _ & Hvw & Hpr & _)]; [by left|right].
    exists p, g, src. split; [done|]. unfold pte_ok. rewrite Hv. split; [by rewrite Hsw'|done].
  - left. fold k0. rewrite Hf. eauto.
  - by left.
  - intros k Hk. destruct (decide (k = k0)) as [->|Hne].
    + destruct Hcase as [[_ HT]|(s' & p & g & src & Hsw' & _ & _ & _ & _ & Hb)]; [done|].
      rewrite (data_present G σ k0 f Hf). unfold data. rewrite Eg, decide_True, Hv, Hsw' by done. simpl. by rewrite Hb.
    + apply data_same; [rewrite Eg; by rewrite decide_False| |done]. intros x Hx. by eapply kept_mapped.
  - apply obj_same; [done|]. intros ko x Hk. by eapply kept_shared.
  - apply (HQ G'); try done. by apply calm_frames.
Qed.

(** Replacing the frame of a page by a held copy. *)
Lemma wp_st_copy h others G σ va ptr f old v p g src Q :
  inv K (tok f h) others G σ → (∀ x, 0 ≤ h x) → page_of (gown G) (pml4 (space σ)) va → leaf_ptr (gown G) (pml4 (space σ)) va ptr →
  pfn (get_pte (gmaps G) (pml4 (space σ), va)) = Some old → pfn v = Some f → count (phys σ) f = 1 →
  mem (phys σ) !! f = mem (phys σ) !! old →
  view (regions (space σ)) va = Some (p, g, src) → private src = true → perms v p →
  (∀ G' p', inv K (tok old h) others G' (with_phys p' σ) → calm (only (pml4 (space σ), va)) G σ G' (with_phys p' σ) →
     data G' (with_phys p' σ) (pml4 (space σ), va) = data G σ (pml4 (space σ), va) → gmaps G' = set_pte (pml4 (space σ), va) v (gmaps G) → gown G' = gown G → Q tt (with_phys p' σ)) →
  wp (on_phys (write_entry ptr v)) Q σ.
Proof using Type.
  intros Hi Hh Hpg Hptr Hold Hv Hc Hcopy Hvw Hpr Hperm HQ. pose proof (inv_phys _ _ _ _ _ Hi) as Hp. pose proof (iv_machine _ _ _ _ _ Hi) as Hm.
  assert (∀ x, 0 ≤ obj_refs (pages σ) x + glost G x + tok old h x) as Hext.
  { intros x. destruct (count_split _ _ _ _ x Hm) as (? & ? & ? & ? & ?). pose proof (tok_nonneg old h Hh x). lia. }
  set (k0 := (pml4 (space σ), va)) in *.
  assert (f ∈ gU G ∧ f ∉ dom (gown G)) as [HfU Hfno] by (destruct (ph_used _ _ _ _ _ _ _ Hp f) as (? & ? & _); [lia|done]).
  apply wp_on_phys. eapply (wp_write_pte K _ _ _ _ _ (λ x, obj_refs (pages σ) x + glost G x + tok old h x)); [exact Hp|done|done|done| |].
  { intros x. pose proof (refs_set (gmaps G) k0 v x) as Hs. rewrite Hold, Hv in Hs. unfold tok, one_if in *. fold k0.
    repeat case_decide; simplify_eq; lia. }
  intros p' Hp' Hkept. pose proof Hkept as [Hrefs Hmem].
  assert (∀ x, count p' x = count (phys σ) x) as Ec by (intros; unfold count; by rewrite Hrefs).
  set (G' := on_entry (gF G) (gU G) (gown G) k0 v G).
  destruct (set_entry (tok f h) (tok old h) others (only k0) G σ G' (with_phys p' σ) va v) as [Hi' He]; try done.
  - apply (machine_entry (tok f h)); [done|by apply tok_nonneg|by eapply pfn_not_swapped|done].
  - intros k x _ _. by rewrite Ec.
  - right. exists p, g, src. split; [done|]. unfold pte_ok. rewrite Hv. split; [done|].
    destruct (held_alone _ _ _ _ _ Hm Hh Hc) as (_ & Hnp & _). destruct src; [by rewrite Ec|by rewrite Ec|done].
  - left. fold k0. rewrite Hold. eauto.
  - by right; right.
  - intros k Hne. apply data_same; [simpl; rewrite get_set_pte; rewrite decide_False; [done|]; by intros ->| |done]. intros x Hx. by eapply kept_mapped.
  - apply obj_same; [done|]. intros ko x Hk. by eapply kept_shared.
  - apply (HQ G'); try done; [by apply calm_frames|].
    rewrite (data_present G σ k0 old Hold). rewrite (data_present G' _ k0 f).
    + unfold frame_bytes. simpl. by rewrite (Hmem f HfU Hfno), Hcopy.
    + simpl. rewrite get_set_pte. by rewrite decide_True.
Qed.

(** ** Swap slots *)

Definition on_slots (X : gset Z) (G : Ghost) : Ghost := mkGhost (gF G) (gU G) (gown G) (gmaps G) X (glost G).

Lemma wp_st_store h others G σ f bs Q :
  inv K h others G σ → mem (phys σ) !! f = Some (Page bs) →
  (∀ s G' σ', inv K h others G' σ' → calm nothing G σ G' σ' → phys σ' = phys σ → space σ' = space σ → pages σ' = pages σ →
     cgroups σ' = cgroups σ → gown G' = gown G →
     gmaps G' = gmaps G → s ∈ gX G' → 0 ≤ s < 2 ^ 52 → (∀ k, swapped (get_pte (gmaps G) k) ≠ Some s) →
     swap σ' ≫= read_slot s = Some bs → Q (Some s) σ') →
  (∀ σ', inv K h others G σ' → calm nothing G σ G σ' → phys σ' = phys σ → space σ' = space σ → Q None σ') →
  wp (swap_store f) Q σ.
Proof using Type*.
  intros Hi Hbs Hs Hn. pose proof (iv_machine _ _ _ _ _ Hi) as Hm. unfold swap_store. wp_steps.
  destruct (swap σ) as [sw|] eqn:Esw.
  2:{ wp_steps. apply Hn; [done|apply calm_refl|done|done]. }
  unfold page_bytes. wp_steps. rewrite Hbs. wp_steps. pose proof (mc_swap _ _ _ _ Hm) as Hrep. rewrite Esw in Hrep. destruct Hrep as [Hrep H52].
  pose proof (store_page_ok (gX G) sw bs Hrep) as [Hsl Hst]. destruct (store_page bs sw) as [[s|] sw'] eqn:Est; simpl in Hsl; wp_steps.
  - destruct Hst as (Hnew & Hr & Hrep' & Hread & Hother). set (σ' := with_swap (Some sw') σ).
    assert (∀ k, swapped (get_pte (gmaps G) k) ≠ Some s) as Hfresh by (intros k Hk; by apply (mc_slots _ _ _ _ Hm) in Hk).
    destruct (keep_maps h h others G σ (on_slots (gX G ∪ {[s]}) G) σ') as [Hi' He]; try done; auto with fastros.
    + destruct Hm as [? ? ? ? ? ? Hslot ?]. split; try done; simpl; [split; [done|by rewrite Hsl]|]. intros k s' Hk. apply Hslot in Hk. set_solver +Hk.
    + intros k. apply data_same; [done|done|]. intros s' Hk. simpl. rewrite Esw. simpl. apply Hother. by apply (mc_slots _ _ _ _ Hm) in Hk.
    + apply (Hs s (on_slots (gX G ∪ {[s]}) G)); try done; [by apply calm_frames|simpl; set_solver +|lia].
  - destruct Hst as (Hrep' & Hother & _). set (σ' := with_swap (Some sw') σ).
    destruct (keep_maps h h others G σ G σ') as [Hi' He]; try done; auto with fastros.
    + destruct Hm. split; try done; simpl. split; [done|by rewrite Hsl].
    + intros k. apply data_same; [done|done|]. intros s' Hk. simpl. rewrite Esw. simpl. apply Hother. by apply (mc_slots _ _ _ _ Hm) in Hk.
    + apply Hn; try done. by apply calm_frames.
Qed.

(** Releasing a slot no entry refers to. *)
Lemma wp_st_slot_free h others G σ s Q :
  inv K h others G σ → 0 ≤ s → (∀ k, swapped (get_pte (gmaps G) k) ≠ Some s) →
  (∀ G' σ', inv K h others G' σ' → calm nothing G σ G' σ' → phys σ' = phys σ → space σ' = space σ → pages σ' = pages σ →
     cgroups σ' = cgroups σ → gown G' = gown G → gmaps G' = gmaps G → Q tt σ') →
  wp (swap_free s) Q σ.
Proof using Type*.
  intros Hi Hs0 Hfresh HQ. pose proof (iv_machine _ _ _ _ _ Hi) as Hm. unfold swap_free. wp_steps.
  set (X := match swap σ with Some _ => gX G ∖ {[s]} | None => gX G end).
  destruct (keep_maps h h others G σ (on_slots X G) (with_swap (free_slot s <$> swap σ) σ)) as [Hi' He]; try done; auto with fastros.
  - pose proof (mc_swap _ _ _ _ Hm) as Hrep. destruct Hm as [? ? ? ? ? ? Hslot ?]. split; try done; simpl.
    + unfold X. destruct (swap σ) as [sw|]; [|done]. destruct Hrep as [Hrep H52]. simpl.
      destruct (free_slot_ok (gX G) sw s Hrep Hs0) as (? & _ & ->). done.
    + intros k s' Hk. pose proof (Hslot _ _ Hk). assert (s' ≠ s) by (intros ->; by apply (Hfresh k)). unfold X. destruct (swap σ); set_solver.
  - intros k. apply data_same; [done|done|]. intros s' Hk. simpl. pose proof (mc_swap _ _ _ _ Hm) as Hrep.
    destruct (swap σ) as [sw|]; [|done]. destruct Hrep as [Hrep _]. simpl. unfold read_slot.
    by destruct (free_slot_ok (gX G) sw s Hrep Hs0) as (_ & -> & _).
  - apply (HQ (on_slots X G)); try done. by apply calm_frames.
Qed.
End SpaceSteps.
