(* ===== verification/SpaceReclaim.v ===== *)
(** * Swapping out

    Evicting pages and the reclaim passes: whatever is written to swap, every
    page of every space keeps its contents, and no reference count or slot is
    lost. *)

From S2P Require Import Prelude Errno UAccess Vma Frame Paging PagingProofs Cgroup Swap AddrSpace PhysInv PteBits SpaceInv SpaceSteps.

Section Reclaim.
Context {A D F : Type} `{FrameAllocatorLaws A} `{BlockDeviceLaws D} `{MappedFile F}.
Context (K : gset Z).
Implicit Types (σ : St A D F) (G : Ghost) (h : Z → Z) (others : list (AddressSpace F)).

(** ** Accounting *)

(** The space's container refuses another page. *)
Definition over_limit σ : Prop := ∃ c, container (space σ) = Some c ∧ (try_charge_page c (cgroups σ)).1 = false.

(** A refused charge leaves the counter where it was, modulo 2^64. *)
Lemma charge_refused c g g' : try_charge_page c g = (false, g') → (try_charge_page c g').1 = false.
Proof using Type.
  unfold try_charge_page. destruct (g !! c) as [cg|]; [|done]. destruct (mem_limit_pages cg =? 0) eqn:El; [done|].
  destruct (mem_limit_pages cg <=? as_u64 (mem_pages cg)) eqn:Ele; [|done]. intros [= <-].
  rewrite lookup_insert_eq. simpl. rewrite El.
  assert (as_u64 (wrap_i64 (wrap_i64 (mem_pages cg + 1) - 1)) = as_u64 (mem_pages cg)) as ->; [|by rewrite Ele].
  unfold as_u64, wrap_i64, U64. rewrite Zminus_mod_idemp_l.
  replace (_ - _ - 1 + _ - _) with ((mem_pages cg + 1 + 2 ^ 63) mod 2 ^ 64 - (2 ^ 63 + 1)) by lia.
  rewrite Zminus_mod_idemp_l. f_equal. lia.
Qed.

Lemma wp_charge_page σ (Q : bool → St A D F → Prop) :
  (∀ b σ', acct σ σ' → (b = false → over_limit σ') → Q b σ') → wp charge_page Q σ.
Proof using Type.
  intros HQ. unfold charge_page, upd_space. wp_steps. destruct (container (space σ)) as [c|] eqn:Ec.
  - destruct (try_charge_page c (cgroups σ)) as [[] g] eqn:Et; wp_steps; apply HQ; try done.
    intros _. exists c. simpl. split; [done|]. by eapply charge_refused.
  - wp_steps. apply HQ; [by split|done].
Qed.

Lemma wp_uncharge_pages n σ (Q : unit → St A D F → Prop) : (∀ σ', acct σ σ' → Q tt σ') → wp (AddrSpace.uncharge_pages n) Q σ.
Proof using Type.
  intros HQ. unfold AddrSpace.uncharge_pages, upd_space. case_match; wp_steps; [by apply HQ, acct_refl|].
  apply HQ. destruct (container (space σ)) eqn:E; simpl; rewrite E; by split.
Qed.

Lemma wp_charge_swap σ (Q : bool → St A D F → Prop) : (∀ b σ', acct σ σ' → Q b σ') → wp charge_swap Q σ.
Proof using Type.
  intros HQ. unfold charge_swap, wp. destruct (container (space σ)); [|by apply HQ, acct_refl].
  destruct (try_charge_swap _ _) as [ok g]. apply HQ. by split.
Qed.

Lemma wp_uncharge_swap n σ (Q : unit → St A D F → Prop) : (∀ σ', acct σ σ' → Q tt σ') → wp (AddrSpace.uncharge_swap n) Q σ.
Proof using Type.
  intros HQ. unfold AddrSpace.uncharge_swap. wp_steps. apply HQ. destruct (container (space σ)); [by split|apply acct_refl].
Qed.

(** ** Reading the tables *)

Lemma with_phys_id σ : with_phys (phys σ) σ = σ.
Proof using Type. by destruct σ. Qed.

Lemma wp_st_leaf h others G σ va Q :
  inv K h others G σ → page_of (gown G) (pml4 (space σ)) va →
  (∀ ptr, leaf_ptr (gown G) (pml4 (space σ)) va ptr → Q (Some ptr) σ) →
  (get_pte (gmaps G) (pml4 (space σ), va) = 0 → Q None σ) →
  wp (on_phys (leaf_entry (pml4 (space σ)) va)) Q σ.
Proof using Type.
  intros Hi Hpg Hs Hn. apply wp_on_phys. eapply (wp_leaf K); [apply (inv_phys _ _ _ _ _ Hi)|done| |]; rewrite with_phys_id; done.
Qed.

Lemma wp_st_read h others G σ va ptr Q :
  inv K h others G σ → page_of (gown G) (pml4 (space σ)) va → leaf_ptr (gown G) (pml4 (space σ)) va ptr →
  Q (get_pte (gmaps G) (pml4 (space σ), va)) σ → wp (on_phys (read_entry ptr)) Q σ.
Proof using Type.
  intros Hi Hpg Hptr HQ. apply wp_on_phys. eapply (wp_read_leaf K); [apply (inv_phys _ _ _ _ _ Hi)|done|done|]. by rewrite with_phys_id.
Qed.

Lemma wp_st_count h others G σ k f Q :
  inv K h others G σ → pfn (get_pte (gmaps G) k) = Some f → Q (count (phys σ) f) σ → wp (on_phys (page_count f)) Q σ.
Proof using Type.
  intros Hi Hk HQ. pose proof (inv_phys _ _ _ _ _ Hi) as Hp. apply wp_on_phys.
  destruct (mapped_frame _ _ _ _ _ _ _ _ _ Hp Hk) as (_ & HU & _). eapply (wp_page_count K); [done|done|]. by rewrite with_phys_id.
Qed.

Lemma wp_root σ (Q : Z → St A D F → Prop) : Q (pml4 (space σ)) σ → wp root Q σ.
Proof using Type. done. Qed.

Lemma present_pfn e : has e PRESENT = true → pfn e = Some (entry_addr e).
Proof using Type. unfold pfn. by intros ->. Qed.

(** What is known of a present page of the space. *)
Lemma present_page h others G σ va p g src e :
  inv K h others G σ → view (regions (space σ)) va = Some (p, g, src) →
  get_pte (gmaps G) (pml4 (space σ), va) = e → has e PRESENT = true →
  pfn e = Some (entry_addr e) ∧ pte_ok (pages σ) (count (phys σ)) p src e ∧ perms e p.
Proof using Type.
  intros Hi Hv He Hp. pose proof (present_pfn e Hp) as Hf. split; [done|].
  destruct (so_pte _ _ _ (iv_space _ _ _ _ _ Hi) va e) as (p' & g' & src' & Hv' & Hok).
  { apply (maps_get _ _ _ _ _ _ (iv_machine _ _ _ _ _ Hi)). split; [done|]. by intros ->. }
  simplify_eq. split; [done|]. unfold pte_ok in Hok. rewrite Hf in Hok. apply Hok.
Qed.

(** New bits for the same frame. *)
Lemma pte_ok_bits (pg : gmap (Z * Z) Z) cnt p p' (src : Source F) e e' f :
  pte_ok pg cnt p src e → pfn e = Some f → pfn e' = Some f → perms e' p' → has e' COW = has e COW →
  (private src = true → can_write p' = true → has e COW = false → cnt f = 1) → pte_ok pg cnt p' src e'.
Proof using Type.
  unfold pte_ok. intros Hok He He' Hperm Hc Hex. rewrite He in Hok. rewrite He'. destruct Hok as [_ Hs].
  split; [done|]. rewrite Hc. destruct src; naive_solver.
Qed.

Lemma private_exclusive (pg : gmap (Z * Z) Z) cnt p (src : Source F) e f :
  pte_ok pg cnt p src e → pfn e = Some f → private src = true → can_write p = true → has e COW = false → cnt f = 1.
Proof using Type. unfold pte_ok. intros Hok He. rewrite He in Hok. destruct Hok as [_ Hs]. destruct src; naive_solver. Qed.

Lemma private_unshared (pg : gmap (Z * Z) Z) cnt p (src : Source F) e f :
  pte_ok pg cnt p src e → pfn e = Some f → private src = true → ∀ ko, pg !! ko ≠ Some f.
Proof using Type. unfold pte_ok. intros Hok He. rewrite He in Hok. destruct Hok as [_ Hs]. destruct src; naive_solver. Qed.

Lemma shared_none_private (r : Region F) a : shared r = None → private (source r a) = true.
Proof using Type. intros Hs. unfold source. rewrite Hs. by repeat case_match. Qed.

(** ** Evicting a page *)

(** Clearing ACCESSED or DIRTY of a page. *)
Lemma wp_st_soft h others G σ va ptr n p g src e Q :
  inv K h others G σ → page_of (gown G) (pml4 (space σ)) va → leaf_ptr (gown G) (pml4 (space σ)) va ptr →
  view (regions (space σ)) va = Some (p, g, src) → get_pte (gmaps G) (pml4 (space σ), va) = e → has e PRESENT = true → n = 5 ∨ n = 6 →
  (∀ G' p', inv K h others G' (with_phys p' σ) → calm nothing G σ G' (with_phys p' σ) →
     pfn (get_pte (gmaps G') (pml4 (space σ), va)) = Some (entry_addr e) → Q tt (with_phys p' σ)) →
  wp (on_phys (write_entry ptr (Z.ldiff e (2 ^ n)))) Q σ.
Proof using Type.
  intros Hi Hpg Hptr Hv He Hpr Hn HQ. destruct (present_page _ _ _ _ _ _ _ _ _ Hi Hv He Hpr) as (Hf & Hok & Hperm).
  destruct (clear_soft e n Hn) as (E1 & E2 & E3).
  eapply (wp_st_flags K h others G σ va ptr _ p g src); [done..|by rewrite E1, He|rewrite E1, Hf; eauto|done| |].
  - eapply pte_ok_bits; [exact Hok|exact Hf|by rewrite E1|by apply E3|done|]. intros. by eapply private_exclusive.
  - intros G' p' Hi' Hev Em _ _. apply (HQ G' p' Hi' Hev). rewrite Em, get_set_pte, decide_True by done. by rewrite E1.
Qed.

Lemma wp_evict_stage h others G σ va force p g src Q :
  inv K h others G σ → view (regions (space σ)) va = Some (p, g, src) → aligned va →
  (∀ G' σ', inv K h others G' σ' → calm nothing G σ G' σ' → same_space (space σ) (space σ') → Q None σ') →
  (∀ G' σ' f, inv K h others G' σ' → calm nothing G σ G' σ' → same_space (space σ) (space σ') →
     pfn (get_pte (gmaps G') (pml4 (space σ), va)) = Some f → Q (Some f) σ') →
  wp (evict_stage va force) Q σ.
Proof using Type.
  intros Hi Hv Ha Hn Hs. pose proof (space_page _ _ _ _ _ _ _ _ _ Hi Hv Ha) as Hpg.
  assert (Q None σ) as Hnone by (apply (Hn G); auto using calm_refl with fastros).
  unfold evict_stage. wp_step. apply wp_root. wp_step. eapply (wp_st_leaf h others G); [done|done| |by intros; wp_steps].
  intros ptr Hptr. wp_step. eapply wp_st_read; [done..|]. set (e := get_pte (gmaps G) (pml4 (space σ), va)) in *.
  destruct (has e PRESENT) eqn:Ep; [|by wp_steps]. destruct (has e COW); [by wp_steps|]. simpl. wp_step.
  pose proof (present_pfn e Ep) as Hf. eapply (wp_st_count h others G σ (pml4 (space σ), va)); [done|exact Hf|].
  destruct (negb _); [by wp_steps|]. destruct (negb force && has e ACCESSED); wp_step.
  - eapply (wp_st_soft h others G σ va ptr 5); [done..|by left|]. intros G' p' Hi' Hev _. wp_steps. by apply (Hn G').
  - eapply (wp_st_soft h others G σ va ptr 6); [done..|by right|]. intros G' p' Hi' Hev Hpf. wp_steps. by apply (Hs G').
Qed.

(** The slot is written; the page is replaced only when it is still the same. *)
Lemma wp_evict_commit h others G σ va f s p g src bs Q :
  inv K h others G σ → view (regions (space σ)) va = Some (p, g, src) → aligned va → private src = true →
  s ∈ gX G → 0 ≤ s < 2 ^ 52 → (∀ k, swapped (get_pte (gmaps G) k) ≠ Some s) → swap σ ≫= read_slot s = Some bs →
  mem (phys σ) !! f = Some (Page bs) →
  (∀ b G' σ', inv K h others G' σ' → calm nothing G σ G' σ' → same_space (space σ) (space σ') → Q b σ') →
  wp (evict_commit va f s) Q σ.
Proof using Type*.
  intros Hi Hv Ha Hpr HX Hs Hfresh Hread Hbs HQ. pose proof (space_page _ _ _ _ _ _ _ _ _ Hi Hv Ha) as Hpg.
  assert (wp (_ ← swap_free s; mret false) Q σ) as Hgive.
  { wp_step. eapply (wp_st_slot_free K h others G); [done|lia|done|]. intros G' σ' Hi' Hev _ Esp _ _ _ _. wp_steps.
    apply (HQ false G'); [done|done|rewrite Esp; auto with fastros]. }
  unfold evict_commit. wp_step. apply wp_root. wp_step. eapply (wp_st_leaf h others G); [done|done| |by intros].
  intros ptr Hptr. wp_step. eapply wp_st_read; [done..|]. set (e := get_pte (gmaps G) (pml4 (space σ), va)) in *.
  destruct (has e PRESENT) eqn:Ep; [|done]. destruct (Z.eqb_spec (entry_addr e) f) as [Ef|]; [|done]. simpl.
  destruct (has e DIRTY); [done|]. wp_step. apply wp_charge_swap. intros ok σ1 Hac.
  pose proof (acct_inv K h others G σ σ1 Hac Hi) as Hi1. pose proof (acct_calm nothing G σ σ1 Hac) as Hev1.
  destruct Hac as [E1 E2 E3 E4 Hsp]. pose proof (ss_pml4 _ _ Hsp) as Epml. pose proof (ss_regions _ _ Hsp) as Ereg.
  destruct ok; simpl.
  2:{ wp_step. eapply (wp_st_slot_free K h others G); [done|lia|done|]. intros G' σ' Hi' Hev _ Esp _ _ _ _. wp_steps.
      apply (HQ false G'); [done|by eapply calm_trans|by rewrite Esp]. }
  pose proof (present_pfn e Ep) as Hf. rewrite Ef in Hf. destruct (swap_entry_ok s Hs) as (Hsw & Hpn & _). wp_step.
  eapply (wp_st_take K h others nothing G σ1 va ptr f (swap_entry s)); [done|by rewrite Epml|by rewrite Epml|by rewrite Epml|done| |].
  { right. exists s, p, g, src. rewrite Ereg, E2, E1. split_and!; try done. unfold frame_bytes. by rewrite Hbs. }
  intros G2 p2 Hi2 Hev2 _ _. wp_step. eapply (wp_st_put K h others); [exact Hi2|apply (mc_held _ _ _ _ (iv_machine _ _ _ _ _ Hi))|].
  intros G3 p3 Hi3 Hev3 _ _ _ _. wp_step. apply wp_uncharge_pages. intros σ4 Hac4. wp_steps. apply (HQ true G3).
  - by eapply acct_inv.
  - eapply calm_trans; [exact Hev1|]. eapply calm_trans; [exact Hev2|]. eapply calm_trans; [exact Hev3|]. by apply acct_calm.
  - eapply same_space_trans; [exact Hsp|]. apply (ac_space _ _ Hac4).
Qed.

Lemma wp_try_evict h others G σ va force p g src Q :
  inv K h others G σ → view (regions (space σ)) va = Some (p, g, src) → aligned va → private src = true →
  (∀ b G' σ', inv K h others G' σ' → calm nothing G σ G' σ' → same_space (space σ) (space σ') → Q b σ') →
  wp (try_evict va force) Q σ.
Proof using Type*.
  intros Hi Hv Ha Hpr HQ. unfold try_evict. wp_step. eapply wp_evict_stage; [done..| |].
  { intros G' σ' Hi' Hev Hsp. wp_steps. by apply (HQ false G'). }
  intros G1 σ1 f Hi1 Hev1 Hsp1 Hf. destruct (mapped_bytes K h G1 σ1 _ f (iv_machine _ _ _ _ _ Hi1) Hf) as (bs & Hbs & _).
  wp_step. eapply (wp_st_store K h others G1 σ1 f bs); [done|done| |].
  - intros s G2 σ2 Hi2 Hev2 Eph Esp _ _ Eown Em HX Hs Hfresh Hread.
    eapply (wp_evict_commit h others G2 σ2 va f s p g src bs); try done.
    + by rewrite Esp, (ss_regions _ _ Hsp1).
    + by rewrite Em.
    + by rewrite Eph.
    + intros b G3 σ3 Hi3 Hev3 Hsp3. apply (HQ b G3); [done| |].
      * eapply calm_trans; [exact Hev1|]. by eapply calm_trans.
      * eapply same_space_trans; [exact Hsp1|]. by rewrite <- Esp.
  - intros σ2 Hi2 Hev2 _ Esp. wp_steps. apply (HQ false G1); [done|by eapply calm_trans|by rewrite Esp].
Qed.

(** ** Reclaim passes *)

Lemma reclaimable_view rs (r : Region F) va :
  regions_wf rs → r ∈ rs → reclaimable r = true → start r ≤ va < end_ r →
  ∃ g src, view rs va = Some (prot r, g, src) ∧ private src = true.
Proof using Type.
  intros Hwf Hin Hr Hva. apply list_elem_of_lookup in Hin as [i Hi]. unfold view.
  rewrite (region_at_app_wf rs i r va Hwf Hi Hva). simpl. eexists _, _. split; [done|].
  unfold reclaimable in Hr. unfold source. destruct (backing r); [done|]. by destruct (shared r).
Qed.

Lemma wp_reclaim_range n h others r target force : ∀ va G σ freed Q,
  inv K h others G σ → r ∈ regions (space σ) → reclaimable r = true → aligned va → start r ≤ va → va + Z.of_nat n * PAGE_SIZE ≤ end_ r →
  (∀ k G' σ', inv K h others G' σ' → calm nothing G σ G' σ' → same_space (space σ) (space σ') → Q k σ') →
  wp (reclaim_range n va target force freed) Q σ.
Proof using Type*.
  induction n as [|n IH]; intros va G σ freed Q Hi Hr Hrec Ha Hlo Hhi HQ; cbn [reclaim_range].
  { wp_steps. apply (HQ freed G); auto using calm_refl with fastros. }
  destruct (target <=? freed). { wp_steps. apply (HQ freed G); auto using calm_refl with fastros. }
  pose proof (so_regions _ _ _ (iv_space _ _ _ _ _ Hi)) as Hwf. assert (start r ≤ va < end_ r) as Hva by (unfold PAGE_SIZE in *; lia).
  destruct (reclaimable_view _ r va Hwf Hr Hrec Hva) as (g & src & Hv & Hpr).
  wp_step. eapply (wp_try_evict h others G σ va force); [done..|]. intros b G1 σ1 Hi1 Hev1 Hsp1.
  eapply (IH _ G1); [done|by rewrite (ss_regions _ _ Hsp1)|done| |unfold PAGE_SIZE in *; lia..|].
  - unfold aligned, PAGE_SIZE in *. rewrite <- Z.add_mod_idemp_r by lia. simpl. by rewrite Z.add_0_r.
  - intros k G2 σ2 Hi2 Hev2 Hsp2. apply (HQ k G2); [done|by eapply calm_trans|by eapply same_space_trans].
Qed.

Lemma pages_fit (r : Region F) : region_ok r → start r + Z.of_nat (pages_between (start r) (end_ r)) * PAGE_SIZE = end_ r.
Proof using Type.
  intros [? ? ? Hs He _ _]. unfold pages_between, aligned, PAGE_SIZE in *.
  apply Z.div_exact in Hs; [|lia]. apply Z.div_exact in He; [|lia]. rewrite Z2Nat.id by (apply Z.div_pos; lia).
  replace (end_ r - start r + 4096 - 1) with ((end_ r / 4096 - start r / 4096) * 4096 + 4095) by lia. rewrite Z.div_add_l, (Z.div_small 4095) by lia. lia.
Qed.

Lemma wp_reclaim_regions rs h others target force : ∀ G σ freed Q,
  inv K h others G σ → (∀ r, r ∈ rs → r ∈ regions (space σ) ∧ reclaimable r = true) →
  (∀ k G' σ', inv K h others G' σ' → calm nothing G σ G' σ' → same_space (space σ) (space σ') → Q k σ') →
  wp (reclaim_regions rs target force freed) Q σ.
Proof using Type*.
  induction rs as [|r rs IH]; intros G σ freed Q Hi Hin HQ; cbn [reclaim_regions].
  { wp_steps. apply (HQ freed G); auto using calm_refl with fastros. }
  destruct (Hin r ltac:(by left)) as [Hr Hrec]. pose proof (so_regions _ _ _ (iv_space _ _ _ _ _ Hi)) as [Hall _].
  pose proof (proj1 (Forall_forall _ _) Hall r Hr) as Hok. wp_step.
  eapply (wp_reclaim_range _ h others r); [exact Hi|done|done|apply Hok|done|by rewrite pages_fit|].
  intros k G1 σ1 Hi1 Hev1 Hsp1. eapply (IH G1); [done| |].
  - intros r' Hr'. rewrite (ss_regions _ _ Hsp1). apply Hin. by right.
  - intros k2 G2 σ2 Hi2 Hev2 Hsp2. apply (HQ k2 G2); [done|by eapply calm_trans|by eapply same_space_trans].
Qed.

Lemma wp_reclaim_pass target force h others G σ Q :
  inv K h others G σ →
  (∀ k G' σ', inv K h others G' σ' → calm nothing G σ G' σ' → same_space (space σ) (space σ') → Q k σ') →
  wp (reclaim_pass target force) Q σ.
Proof using Type*.
  intros Hi HQ. unfold reclaim_pass. wp_steps. eapply (wp_reclaim_regions _ h others); [done| |done].
  intros r Hr%list_elem_of_In. apply filter_In in Hr as [Hr Hc]. by apply list_elem_of_In in Hr.
Qed.

Lemma wp_reclaim target h others G σ Q :
  inv K h others G σ →
  (∀ k G' σ', inv K h others G' σ' → calm nothing G σ G' σ' → same_space (space σ) (space σ') → Q k σ') →
  wp (reclaim target) Q σ.
Proof using Type*.
  intros Hi HQ. unfold reclaim, enabled. wp_steps. destruct (negb _).
  { wp_steps. apply (HQ 0 G); auto using calm_refl with fastros. }
  wp_step. eapply (wp_reclaim_pass _ _ h others); [done|]. intros k G1 σ1 Hi1 Hev1 Hsp1. destruct (k <? target); [|wp_steps; by apply (HQ k G1)].
  wp_step. eapply (wp_reclaim_pass _ _ h others); [done|]. intros k2 G2 σ2 Hi2 Hev2 Hsp2. wp_steps.
  apply (HQ _ G2); [done|by eapply calm_trans|by eapply same_space_trans].
Qed.

(** Allocating and charging under pressure. *)
Lemma wp_alloc_pressure h others G σ Q :
  inv K h others G σ →
  (∀ f G' σ', inv K (tok f h) others G' σ' → calm nothing G σ G' σ' → same_space (space σ) (space σ') →
     count (phys σ') f = 1 → mem (phys σ') !! f = Some (Page zero_page) → frame_addr f → Q (Some f) σ') →
  (∀ G' σ', inv K h others G' σ' → calm nothing G σ G' σ' → same_space (space σ) (space σ') → gF G' = ∅ → Q None σ') →
  wp alloc_pressure Q σ.
Proof using Type*.
  intros Hi Hs Hn. unfold alloc_pressure. wp_step. eapply (wp_st_alloc K h others G); [done| |].
  - intros f G' p' Hi' Hev Em Hc Hz Hfa _ _. wp_steps. apply (Hs f G'); auto with fastros.
  - intros p' Hi1 Hev1 _. wp_step. eapply (wp_reclaim _ h others); [done|]. intros _ G2 σ2 Hi2 Hev2 Hsp2.
    eapply (wp_st_alloc K h others G2); [done| |].
    + intros f G3 p3 Hi3 Hev3 Em Hc Hz Hfa _ _. apply (Hs f G3); try done. eapply calm_trans; [exact Hev1|]. by eapply calm_trans.
    + intros p3 Hi3 Hev3 HF. apply (Hn G2); try done. eapply calm_trans; [exact Hev1|]. by eapply calm_trans.
Qed.

Lemma wp_charge_pressure h others G σ Q :
  inv K h others G σ →
  (∀ b G' σ', inv K h others G' σ' → calm nothing G σ G' σ' → same_space (space σ) (space σ') → (b = false → over_limit σ') → Q b σ') →
  wp charge_pressure Q σ.
Proof using Type*.
  intros Hi HQ. unfold charge_pressure. wp_step. apply wp_charge_page. intros b σ1 Hac Hlim.
  pose proof (acct_inv K h others G σ σ1 Hac Hi) as Hi1. pose proof (acct_calm nothing G σ σ1 Hac) as Hev1.
  destruct b; [wp_steps; apply (HQ true G); [done|done|apply Hac|done]|]. wp_step. eapply (wp_reclaim _ h others); [done|].
  intros _ G2 σ2 Hi2 Hev2 Hsp2. apply wp_charge_page. intros b σ3 Hac3 Hlim3. apply (HQ b G2).
  - by eapply acct_inv.
  - eapply calm_trans; [exact Hev1|]. eapply calm_trans; [exact Hev2|]. by apply acct_calm.
  - eapply same_space_trans; [apply Hac|]. eapply same_space_trans; [exact Hsp2|]. apply Hac3.
  - done.
Qed.
End Reclaim.
