(* ===== verification/SpaceFault.v ===== *)
(** * Bringing pages in

    Faults: first touches of private, file and shared pages, pages read back
    from swap, and copies of copy-on-write pages.  Each makes one page present
    and changes the contents of no page. *)

From S2P Require Import Prelude Errno UAccess Vma Frame Paging PagingProofs Cgroup Swap AddrSpace PhysInv PteBits SpaceInv SpaceSteps SpaceReclaim.

Section Fault.
Context {A D F : Type} `{FrameAllocatorLaws A} `{BlockDeviceLaws D} `{MappedFile F}.
Context (K : gset Z).
Implicit Types (σ : St A D F) (G : Ghost) (h : Z → Z) (others : list (AddressSpace F)) (r : Region F).

(** ** What a page holds on first touch *)

Definition first_touch σ r (page : Z) : option (list Z) :=
  match shared r with
  | Some o => obj_bytes σ (o, shared_base r + (page - start r))
  | None => initial r page
  end.

Lemma fill_length bs : (length bs ≤ Z.to_nat PAGE_SIZE)%nat → length (fill bs) = Z.to_nat PAGE_SIZE.
Proof using Type. intros Hl. unfold fill. rewrite length_app, length_drop. unfold zero_page. rewrite length_replicate. lia. Qed.

Lemma initial_ok r page : region_ok r → start r ≤ page < end_ r →
  ∃ bs, initial r page = Some bs ∧ length bs = Z.to_nat PAGE_SIZE.
Proof using Type.
  intros Hok Hp. unfold initial. destruct (backing r) as [b|] eqn:Hb.
  2:{ exists zero_page. split; [done|]. apply length_replicate. }
  destruct (ok_fits r Hok) as [Hfit _]. destruct (Hfit b Hb) as (? & ? & ?). case_match.
  - rewrite add64_ok by lia. simpl. eexists. split; [done|]. apply fill_length. rewrite length_take. unfold PAGE_SIZE. lia.
  - exists zero_page. split; [done|]. apply length_replicate.
Qed.

(** A region's page, and what the page-table rules need of it. *)
Lemma region_page h others G σ page r :
  inv K h others G σ → region_at (regions (space σ)) page = Some r → aligned page →
  region_ok r ∧ start r ≤ page < end_ r ∧ r ∈ regions (space σ) ∧
  view (regions (space σ)) page = Some (prot r, grows_down r, source r page) ∧ page_of (gown G) (pml4 (space σ)) page.
Proof using Type.
  intros Hi Hr Ha. pose proof (so_regions _ _ _ (iv_space _ _ _ _ _ Hi)) as [Hall _].
  apply region_at_Some in Hr as Hin. destruct Hin as [Hin Hva].
  assert (view (regions (space σ)) page = Some (prot r, grows_down r, source r page)) as Hv by (unfold view; by rewrite Hr).
  split_and!; [by apply (proj1 (Forall_forall _ _) Hall)|lia|lia|done|done|]. by eapply space_page.
Qed.

Lemma none_nonneg x : 0 ≤ none x.
Proof using Type. done. Qed.

(** ** Installing and losing *)

Lemma wp_map_page h others G σ page r f Q :
  inv K (tok f h) others G σ → (∀ x, 0 ≤ h x) → region_at (regions (space σ)) page = Some r → aligned page →
  match source r page with SharedAt o off => pages σ !! (o, off) = Some f | _ => count (phys σ) f = 1 end →
  pfn (get_pte (gmaps G) (pml4 (space σ), page)) = None →
  (∀ G' p', inv K h others G' (with_phys p' σ) → calm (only (pml4 (space σ), page)) G σ G' (with_phys p' σ) →
     pfn (get_pte (gmaps G') (pml4 (space σ), page)) = Some f → has (get_pte (gmaps G') (pml4 (space σ), page)) COW = false →
     mem p' !! f = mem (phys σ) !! f → gX G' = gX G → gmaps G' = set_pte (pml4 (space σ), page) (page_entry f (to_page_flags (prot r))) (gmaps G) →
     Q (inr tt) (with_phys p' σ)) →
  (∀ G' p' e, inv K h others G' (with_phys p' σ) → evolves nothing G σ G' (with_phys p' σ) → shrinks (phys σ) p' → gF G' = ∅ → Q (inl e) (with_phys p' σ)) →
  wp (map_page (pml4 (space σ)) page f (prot r)) Q σ.
Proof using Type.
  intros Hi Hh Hr Ha Hsrc Hpn Hs Hn. destruct (region_page _ _ _ _ _ _ Hi Hr Ha) as (Hok & Hva & Hin & Hv & Hpg).
  unfold map_page. wp_step. eapply (wp_st_install K h others G σ page f); [done|done|done|exact Hv|done| |].
  - intros G' p' Hi' Hc _ Em Hpf Hmem HX. wp_steps. apply (Hs G'); try done. rewrite Em, get_set_pte, decide_True by done.
    assert (frame_addr f) as Hfa; [|by apply new_entry_perms].
    pose proof (inv_phys _ _ _ _ _ Hi') as Hp'. destruct (mapped_frame _ _ _ _ _ _ _ _ _ Hp' Hpf) as (_ & HU & _).
    eapply (fa_addr (gF G') (gU G')); [apply (pi_rep _ _ _ _ (ph_paging _ _ _ _ _ _ _ Hp'))|set_solver +HU].
  - intros G' p' e Hi' Hc Em He. assert (gF G' = ∅) as HF by (rewrite Hpn in He; by destruct He as [[_ ?]|[_ [? ?]]]). wp_steps. destruct (inv_lose K h others G' (with_phys p' σ) f Hi' Hh) as [Hi2 Hev2].
    eapply Hn; [exact Hi2| |apply Hc|done]. eapply evolves_trans; [apply Hc|exact Hev2].
Qed.

(** ** The outcome of a fault *)

(** The page is present, its contents are what they were or what a first touch
    gives, and it is ready for a write when one was asked for. *)
Record faulted (page : Z) r (write : bool) G σ G' σ' : Prop := {
  fl_evolves : evolves (only (pml4 (space σ), page)) G σ G' σ';
  fl_space : same_space (space σ) (space σ');
  fl_counts : grows 1 (phys σ) (phys σ');
  fl_present : is_Some (pfn (get_pte (gmaps G') (pml4 (space σ), page)));
  fl_data : data G' σ' (pml4 (space σ), page) =
    match data G σ (pml4 (space σ), page) with Some d => Some d | None => Some (first_touch σ r page) end;
  fl_write : write = true → has (get_pte (gmaps G') (pml4 (space σ), page)) COW = false;
}.

Lemma only_data G σ G' σ' k : evolves nothing G σ G' σ' → data G' σ' k = data G σ k.
Proof using Type. intros He. apply (ev_data _ _ _ _ _ He). by intros []. Qed.

Lemma nothing_only k G σ G' σ' : evolves nothing G σ G' σ' → evolves (only k) G σ G' σ'.
Proof using Type. apply evolves_weaken. by intros ? []. Qed.

(** Steps before the fault proper are invisible. *)
Lemma faulted_after page r write G σ G1 σ1 G2 σ2 :
  calm nothing G σ G1 σ1 → same_space (space σ) (space σ1) → faulted page r write G1 σ1 G2 σ2 → faulted page r write G σ G2 σ2.
Proof using Type.
  intros [He Hsh _ _] Hs [Hev Hsp Hg Hpr Hd Hw]. rewrite (ev_root _ _ _ _ _ He) in *. split; try done.
  - eapply evolves_trans; [by apply nothing_only|done].
  - by eapply same_space_trans.
  - by apply (grows_after _ (phys σ1)).
  - rewrite Hd, (only_data G σ G1 σ1) by done. destruct (data G σ _); [done|]. unfold first_touch.
    destruct (shared r) as [o|]; [|done]. by rewrite (ev_shared _ _ _ _ _ He _ (λ x, x)).
Qed.

Lemma calm_grows T G σ G' σ' : calm T G σ G' σ' → grows 1 (phys σ) (phys σ').
Proof using Type. intros [_ Hs _ _] f. specialize (Hs f). lia. Qed.

Lemma faulted_acct page r write G σ G1 σ1 σ2 :
  faulted page r write G σ G1 σ1 → acct σ1 σ2 → faulted page r write G σ G1 σ2.
Proof using Type.
  intros [Hev Hsp Hg Hpr Hd Hw] Hac. split; try done.
  - eapply evolves_trans; [exact Hev|]. by apply acct_evolves.
  - eapply same_space_trans; [done|apply Hac].
  - by rewrite (ac_phys _ _ Hac).
  - rewrite <- Hd. destruct Hac as [E1 E2 _ _ _]. unfold data. by rewrite E1, E2.
Qed.

(** Why a permitted fault can fail: no free frame, the container's limit, or a
    page that cannot be read back. *)
Definition stuck (page : Z) G σ : Prop :=
  gF G = ∅ ∨ over_limit σ ∨ data G σ (pml4 (space σ), page) = Some None.

(** ** Copying on write *)

(** The page of another owner is copied to a new frame. *)
Lemma wp_cow_copy others G σ page r ptr Q :
  let e := get_pte (gmaps G) (pml4 (space σ), page) in
  inv K none others G σ → region_at (regions (space σ)) page = Some r → aligned page → can_write (prot r) = true →
  leaf_ptr (gown G) (pml4 (space σ)) page ptr → has e PRESENT = true → private (source r page) = true →
  (∀ G' σ', inv K none others G' σ' → faulted page r true G σ G' σ' → Q (inr tt) σ') →
  (∀ G' σ', inv K none others G' σ' → calm nothing G σ G' σ' → same_space (space σ) (space σ') → gF G' = ∅ → Q (inl ENOMEM) σ') →
  wp (r ← on_phys alloc_user_page;
      match r with
      | None => mret (inl ENOMEM)
      | Some new =>
          bs ← page_bytes (entry_addr e);
          _ ← on_phys (write_frame new (Page bs));
          _ ← on_phys (write_entry ptr (Z.lor (Z.lor (Z.lor new PRESENT) WRITABLE) (Z.land e (Z.lor USER NO_EXECUTE))));
          _ ← on_phys (page_put (entry_addr e));
          mret (inr tt)
      end) Q σ.
Proof using Type.
  intros e Hi Hr Ha Hw Hptr Hpr Hpriv Hs Hn. destruct (region_page _ _ _ _ _ _ Hi Hr Ha) as (Hok & Hva & Hin & Hv & Hpg).
  set (k := (pml4 (space σ), page)) in *. destruct (present_page _ _ _ _ _ _ _ _ _ _ Hi Hv eq_refl Hpr) as (Hf & Hpte & Hperm). fold k e in Hf, Hpte, Hperm.
  wp_step. eapply (wp_st_alloc K none others G); [done| |].
  2:{ intros p' Hi' Hcm HF. wp_steps. apply (Hn G); auto with fastros. }
  intros f G1 p1 Hi1 Hcm1 Em1 Hcf _ Hfa HfF Hcs. assert (pfn (get_pte (gmaps G1) k) = Some (entry_addr e)) as Hf1 by (by rewrite Em1).
  destruct (mapped_bytes K _ G1 _ _ _ (iv_machine _ _ _ _ _ Hi1) Hf1) as (bs & Hbs & Hlen).
  wp_step. unfold page_bytes. wp_steps. rewrite Hbs. wp_steps.
  eapply (wp_st_fill K none others G1); [done|apply none_nonneg|done|done|]. intros p2 Hi2 Hcm2 Hcf2 Hbs2. wp_step.
  assert (mem p2 !! entry_addr e = Some (Page bs)) as Hbs0.
  { pose proof (only_data G1 _ G1 _ k (cm_evolves _ _ _ _ _ Hcm2)) as Ed. rewrite !(data_present _ _ _ _ Hf1) in Ed.
    unfold frame_bytes in Ed. simpl in Ed, Hbs. rewrite Hbs in Ed.
    destruct (mapped_bytes K _ G1 _ _ _ (iv_machine _ _ _ _ _ Hi2) Hf1) as (bs' & Hbs' & _). simpl in Hbs'. rewrite Hbs' in *. congruence. }
  destruct (copy_entry e f (prot r) Hfa Hperm Hw) as (E1 & E2 & E3).
  assert (page_of (gown G1) (pml4 (space σ)) page) as Hpg1 by (by destruct (region_page _ _ _ _ _ _ Hi1 Hr Ha) as (_ & _ & _ & _ & ?)).
  assert (leaf_ptr (gown G1) (pml4 (space σ)) page ptr) as Hptr1.
  { destruct Hptr as [? ?]. split; [done|]. eapply lookup_weaken; [done|apply Hcm1]. }
  eapply (wp_st_copy K none others G1 _ page ptr f (entry_addr e)); [exact Hi2|apply none_nonneg|done|done|done|exact E1|done| |exact Hv|done|done|].
  { simpl. by rewrite Hbs2, Hbs0. }
  intros G3 p3 Hi3 Hcm3 Hd3 Em3 _. wp_step. eapply (wp_st_put K none others); [exact Hi3|apply none_nonneg|].
  intros G4 p4 Hi4 Hcm4 Em4 _ _ _. wp_steps. apply (Hs G4); [done|]. simpl in Em3, Hcm3, Hd3. fold k in Em3, Hcm3, Hd3.
  pose proof (calm_trans _ _ _ _ _ _ _ Hcm1 Hcm2) as Hcm12. split; fold k.
  - eapply evolves_trans; [apply nothing_only, Hcm12|]. eapply evolves_trans; [apply Hcm3|]. apply nothing_only, Hcm4.
  - auto with fastros.
  - eapply (grows_after _ (phys (with_phys p2 (with_phys p1 σ)))); [lia|apply Hcm12|].
    eapply grows_before; [lia|by eapply calm_grows|apply Hcm4].
  - rewrite Em4, Em3, get_set_pte, decide_True by done. eauto.
  - rewrite (only_data _ _ _ _ _ (cm_evolves _ _ _ _ _ Hcm4)), Hd3, (only_data _ _ _ _ _ (cm_evolves _ _ _ _ _ Hcm12)).
    unfold data. fold e. by rewrite Hf.
  - intros _. rewrite Em4, Em3, get_set_pte, decide_True by done. done.
Qed.

Lemma wp_do_cow others G σ page r ptr Q :
  inv K none others G σ → region_at (regions (space σ)) page = Some r → aligned page → can_write (prot r) = true →
  leaf_ptr (gown G) (pml4 (space σ)) page ptr → has (get_pte (gmaps G) (pml4 (space σ), page)) PRESENT = true →
  has (get_pte (gmaps G) (pml4 (space σ), page)) COW = true →
  (∀ G' σ', inv K none others G' σ' → faulted page r true G σ G' σ' → Q (inr tt) σ') →
  (∀ G' σ', inv K none others G' σ' → calm nothing G σ G' σ' → same_space (space σ) (space σ') → gF G' = ∅ → Q (inl ENOMEM) σ') →
  wp (do_cow ptr) Q σ.
Proof using Type.
  intros Hi Hr Ha Hw Hptr Hpr Hcow Hs Hn. destruct (region_page _ _ _ _ _ _ Hi Hr Ha) as (Hok & Hva & Hin & Hv & Hpg).
  set (k := (pml4 (space σ), page)) in *. unfold do_cow. wp_step. eapply wp_st_read; [done..|]. fold k. set (e := get_pte (gmaps G) k) in *.
  destruct (present_page _ _ _ _ _ _ _ _ _ _ Hi Hv eq_refl Hpr) as (Hf & Hpte & Hperm). fold k e in Hf, Hpte, Hperm.
  assert (private (source r page) = true) as Hpriv.
  { unfold pte_ok in Hpte. rewrite Hf in Hpte. destruct Hpte as [_ Hx]. destruct (source r page); [done..|]. destruct Hx; congruence. }
  wp_step. eapply (wp_st_count K none others G σ k); [done|exact Hf|]. destruct (Z.eqb_spec (count (phys σ) (entry_addr e)) 1) as [Hc1|Hc1].
  2:{ by eapply (wp_cow_copy others G σ page r ptr). }
  destruct (uncow_entry e (prot r) Hperm Hw) as (E1 & E2 & E3). wp_step.
  eapply (wp_st_flags K none others G σ page ptr _ (prot r)); [done..|rewrite E1, Hf; eauto|exact Hv| |].
  { unfold pte_ok in *. rewrite Hf in Hpte. rewrite E1, Hf. split; [done|]. destruct Hpte as [_ Hx]. destruct (source r page); [naive_solver..|done]. }
  intros G' p' Hi' Hcm Em _ _. wp_steps. apply (Hs G'); [done|]. fold k in Em. split; fold k.
  - apply nothing_only, Hcm.
  - auto with fastros.
  - by eapply calm_grows.
  - rewrite Em, get_set_pte, decide_True by done. rewrite E1, Hf. eauto.
  - rewrite (only_data G σ) by apply Hcm. unfold data. fold e. by rewrite Hf.
  - intros _. rewrite Em, get_set_pte, decide_True by done. done.
Qed.

(** ** Reading back from swap *)

Lemma swapped_entry h others G σ page r :
  inv K h others G σ → region_at (regions (space σ)) page = Some r →
  has (get_pte (gmaps G) (pml4 (space σ), page)) PRESENT = false → get_pte (gmaps G) (pml4 (space σ), page) ≠ 0 →
  is_Some (swapped (get_pte (gmaps G) (pml4 (space σ), page))) ∧ shared r = None.
Proof using Type.
  intros Hi Hr Hpr Hz. destruct (so_pte _ _ _ (iv_space _ _ _ _ _ Hi) page _ (proj2 (maps_get _ _ _ _ _ _ (iv_machine _ _ _ _ _ Hi)) (conj eq_refl Hz)))
    as (p & g & src & Hv & Hok).
  unfold view in Hv. rewrite Hr in Hv. simplify_eq/=. unfold pte_ok, pfn in Hok. rewrite Hpr in Hok. destruct Hok as [Hs Hp].
  split; [done|]. unfold source in Hp. by destruct (shared r).
Qed.

Lemma slot_range h G σ k s : machine K h G σ → swapped (get_pte (gmaps G) k) = Some s → 0 ≤ s.
Proof using Type.
  intros Hm Hk. apply (mc_slots _ _ _ _ Hm) in Hk. pose proof (mc_swap _ _ _ _ Hm) as Hsw. destruct (swap σ) as [sw|].
  - destruct Hsw as [Hrep _]. by apply (sr_range _ _ Hrep).
  - rewrite Hsw in Hk. set_solver +Hk.
Qed.

Lemma private_source r page : shared r = None → ∀ o off, source r page ≠ SharedAt o off.
Proof using Type. intros Hs o off. unfold source. rewrite Hs. by repeat case_match. Qed.

(** The page has a frame of its own. *)
Definition page_alone G σ (k : Z * Z) : Prop := ∀ f, pfn (get_pte (gmaps G) k) = Some f → count (phys σ) f = 1.

Lemma frame_alone h others G σ k f : inv K h others G σ → pfn (get_pte (gmaps G) k) = Some f → count (phys σ) f ≤ 1 → page_alone G σ k.
Proof using Type.
  intros Hi Hk Hc x Hx. simplify_eq. pose proof (mapped_frame _ _ _ _ _ _ _ _ _ (inv_phys _ _ _ _ _ Hi) Hk) as [? _]. lia.
Qed.

(** The held frame is filled and installed in a private region. *)
Lemma wp_fill_install others G σ page r f bs Q :
  inv K (tok f none) others G σ → region_at (regions (space σ)) page = Some r → aligned page → shared r = None →
  count (phys σ) f = 1 → length bs = Z.to_nat PAGE_SIZE → pfn (get_pte (gmaps G) (pml4 (space σ), page)) = None →
  (∀ G' σ', inv K none others G' σ' → calm (only (pml4 (space σ), page)) G σ G' σ' → space σ' = space σ →
     is_Some (pfn (get_pte (gmaps G') (pml4 (space σ), page))) → has (get_pte (gmaps G') (pml4 (space σ), page)) COW = false →
     data G' σ' (pml4 (space σ), page) = Some (Some bs) → (∀ k, k ≠ (pml4 (space σ), page) → get_pte (gmaps G') k = get_pte (gmaps G) k) →
     page_alone G' σ' (pml4 (space σ), page) →
     swapped (get_pte (gmaps G') (pml4 (space σ), page)) = None → Q (inr tt) σ') →
  (∀ G' σ' e, inv K none others G' σ' → evolves nothing G σ G' σ' → same_space (space σ) (space σ') → shrinks (phys σ) (phys σ') → gF G' = ∅ → Q (inl e) σ') →
  wp (on_phys (write_frame f (Page bs))) (λ _ σ', space σ' = space σ ∧ wp (map_page (pml4 (space σ)) page f (prot r)) Q σ') σ.
Proof using Type.
  intros Hi Hr Ha Hsh Hc Hl Hpn Hs Hn. eapply (wp_st_fill K none others G); [done|apply none_nonneg|done|done|].
  intros p1 Hi1 Hcm1 Hc1 Hb1. split; [done|]. apply (wp_map_page none others G (with_phys p1 σ) page r f); [exact Hi1|apply none_nonneg|done|done| |done| |].
  - destruct (source r page) as [|? ?|o off] eqn:Es; [done..|]. by destruct (private_source r page Hsh o off).
  - intros G' p' Hi' Hcm' Hpf Hcow Hmem _ Em. apply (Hs G'); try done.
    + eapply calm_trans; [eapply calm_weaken; [|exact Hcm1]; by intros ? []|exact Hcm'].
    + rewrite (data_present _ _ _ _ Hpf). unfold frame_bytes. simpl. simpl in Hmem. by rewrite Hmem, Hb1.
    + intros k Hk. rewrite Em, get_set_pte. by rewrite decide_False.
    + eapply (frame_alone none others); [exact Hi'|exact Hpf|]. pose proof (cm_shrinks _ _ _ _ _ Hcm' f) as Hle. simpl in *. lia.
    + by eapply pfn_not_swapped.
  - intros G' p' e Hi' Hev Hle HF. eapply Hn; [exact Hi'| |auto with fastros|by eapply grows_after; [|apply Hcm1|exact Hle]|done]. eapply evolves_trans; [apply Hcm1|done].
Qed.

Lemma evolves_acct G σ G1 σ1 σ2 T : evolves T G σ G1 σ1 → acct σ1 σ2 → evolves T G σ G1 σ2.
Proof using Type. intros He Ha. eapply evolves_trans; [exact He|]. by apply acct_evolves. Qed.

Lemma space_acct (s : AddressSpace F) σ1 σ2 : same_space s (space σ1) → acct σ1 σ2 → same_space s (space σ2).
Proof using Type. intros Hs Ha. eapply same_space_trans; [done|apply Ha]. Qed.

(** Charging and allocating a frame for [page], then going on with [m]. *)
Lemma wp_charged_frame {X} others G σ (m : Z → Exec (St A D F) (KResult X)) Q :
  inv K none others G σ →
  (∀ f G1 σ1, inv K (tok f none) others G1 σ1 → calm nothing G σ G1 σ1 → same_space (space σ) (space σ1) →
     count (phys σ1) f = 1 → mem (phys σ1) !! f = Some (Page zero_page) → wp (m f) Q σ1) →
  (∀ G' σ' e, inv K none others G' σ' → evolves nothing G σ G' σ' → same_space (space σ) (space σ') → shrinks (phys σ) (phys σ') → gF G' = ∅ → Q (inl e) σ') →
  wp (o ← alloc_pressure; match o with None => _ ← AddrSpace.uncharge_pages 1; mret (inl ENOMEM) | Some f => m f end) Q σ.
Proof using Type*.
  intros Hi Hs Hn. wp_step. eapply (wp_alloc_pressure K none others); [done| |].
  - intros f G1 σ1 Hi1 Hcm1 Hsp1 Hc Hz Hfa. by apply (Hs f G1).
  - intros G1 σ1 Hi1 Hcm1 Hsp1 HF. wp_step. apply wp_uncharge_pages. intros σ2 Hac. wp_steps. apply (Hn G1).
    + by eapply acct_inv.
    + eapply evolves_acct; [apply Hcm1|done].
    + by eapply space_acct.
    + rewrite (ac_phys _ _ Hac). apply Hcm1.
    + done.
Qed.

Lemma wp_swap_in others G σ page r ptr Q :
  inv K none others G σ → region_at (regions (space σ)) page = Some r → aligned page →
  leaf_ptr (gown G) (pml4 (space σ)) page ptr → has (get_pte (gmaps G) (pml4 (space σ), page)) PRESENT = false →
  has (get_pte (gmaps G) (pml4 (space σ), page)) PTE_SWAPPED = true →
  (∀ G' σ', inv K none others G' σ' → faulted page r true G σ G' σ' →
     page_alone G' σ' (pml4 (space σ), page) → calm (only (pml4 (space σ), page)) G σ G' σ' → Q (inr tt) σ') →
  (∀ G' σ' e, inv K none others G' σ' → evolves nothing G σ G' σ' → same_space (space σ) (space σ') → shrinks (phys σ) (phys σ') → stuck page G' σ' → Q (inl e) σ') →
  wp (swap_in page ptr r) Q σ.
Proof using Type*.
  intros Hi Hr Ha Hptr Hpr Hsw Hs Hn. destruct (region_page _ _ _ _ _ _ Hi Hr Ha) as (Hok & Hva & Hin & Hv & Hpg).
  set (k := (pml4 (space σ), page)) in *. unfold swap_in. wp_step. eapply wp_st_read; [done..|]. fold k. set (e := get_pte (gmaps G) k) in *.
  assert (e ≠ 0) as Hz by (intros E; by rewrite E in Hsw).
  assert (shared r = None) as Hsh by (by eapply swapped_entry).
  assert (pfn e = None) as Hpn by (unfold pfn; by rewrite Hpr).
  assert (swapped e = Some (Z.shiftr e 12)) as Hsl by (unfold swapped; by rewrite Hpr, Hsw).
  wp_step. eapply (wp_charge_pressure K none others); [done|]. intros ok G1 σ1 Hi1 Hcm1 Hsp1 Hlim.
  destruct ok; simpl; [|wp_steps; apply (Hn G1); [done|apply Hcm1|done|apply Hcm1|right; left; by apply Hlim]].
  apply (wp_charged_frame others G1 σ1); [done| |].
  2:{ intros G2 σ2 x Hi2 Hev2 Hsp2 Hle HF. apply (Hn G2); [done|eapply evolves_trans; [apply Hcm1|done]|by eapply same_space_trans|by eapply grows_after; [|apply Hcm1|exact Hle]|by left]. }
  intros f G2 σ2 Hi2 Hcm2 Hsp2 Hc2 _. pose proof (calm_trans _ _ _ _ _ _ _ Hcm1 Hcm2) as Hcm. pose proof (same_space_trans _ _ _ Hsp1 Hsp2) as Hsp.
  assert (get_pte (gmaps G2) k = e) as Ek by (apply (ev_absent _ _ _ _ _ (cm_evolves _ _ _ _ _ Hcm)); [by intros []|done]).
  assert (pml4 (space σ2) = pml4 (space σ)) as Epml by apply Hsp.
  assert (data G2 σ2 k = data G σ k) as Ed by (apply only_data, Hcm).
  assert (data G2 σ2 k = Some (swap σ2 ≫= read_slot (Z.shiftr e 12))) as Ed2 by (unfold data; by rewrite Ek, Hpn, Hsl).
  wp_step. wp_step. destruct (swap σ2 ≫= read_slot (Z.shiftr e 12)) as [bs|] eqn:Erd.
  2:{ wp_step. eapply (wp_st_put K none others); [done|apply none_nonneg|]. intros G3 p3 Hi3 Hcm3 _ _ _ _. wp_step. apply wp_uncharge_pages.
      intros σ4 Hac. assert (evolves nothing G σ G3 σ4) as Hev.
      { eapply evolves_acct; [|done]. eapply evolves_trans; [apply Hcm|apply Hcm3]. }
      wp_steps. apply (Hn G3); [by eapply acct_inv|done|by eapply space_acct; [|exact Hac]|rewrite (ac_phys _ _ Hac); by eapply grows_after; [|apply Hcm|apply Hcm3]|]. right; right.
      rewrite (ev_root _ _ _ _ _ Hev), (only_data _ _ _ _ _ Hev). fold k. congruence. }
  assert (length bs = Z.to_nat PAGE_SIZE) as Hlen.
  { destruct (swap σ2); [|done]. simpl in Erd. by eapply dev_read_size. }
  wp_step. eapply wp_mono; [apply (wp_fill_install others G2 σ2 page r f bs)|].
  5: done. 5: exact Hlen. done. by rewrite (ss_regions _ _ Hsp). done. done. by rewrite Epml; fold k; rewrite Ek.
  3:{ intros u σ3 [Esp Hw]. wp_step. apply wp_root. apply wp_try. rewrite Esp. exact Hw. }
  - rewrite Epml. fold k. intros G3 σ3 Hi3 Hev3 Esp3 Hpf Hcow Hd Hoth Halone Hsw3. wp_step.
    pose proof (iv_machine _ _ _ _ _ Hi2) as Hm2. assert (swapped (get_pte (gmaps G2) k) = Some (Z.shiftr e 12)) as Hsl2 by (by rewrite Ek).
    eapply (wp_st_slot_free K none others G3); [done|by eapply (slot_range _ G2)| |].
    { intros k' Hk'. destruct (decide (k' = k)) as [->|Hne]; [congruence|]. rewrite Hoth in Hk' by done. by apply Hne, (mc_distinct _ _ _ _ Hm2 _ _ _ Hk'). }
    intros G4 σ4 Hi4 Hcm4 Eph4 Esp4 _ _ _ Em4. wp_step. apply wp_uncharge_swap. intros σ5 Hac. wp_steps. apply (Hs G4); [by eapply acct_inv| |..].
    2:{ intros x. rewrite Em4, (ac_phys _ _ Hac), Eph4. apply Halone. }
    2:{ eapply calm_trans; [eapply calm_weaken; [|exact Hcm]; by intros ? []|]. eapply calm_trans; [exact Hev3|].
        eapply calm_trans; [eapply calm_weaken; [|exact Hcm4]; by intros ? []|]. by apply acct_calm. }
    eapply faulted_after; [exact Hcm|exact Hsp|]. eapply faulted_acct; [|exact Hac]. split; rewrite ?Epml; fold k.
    + eapply evolves_trans; [apply Hev3|]. apply nothing_only, Hcm4.
    + rewrite Esp4, Esp3. auto with fastros.
    + rewrite Eph4. by eapply calm_grows.
    + by rewrite Em4.
    + rewrite (only_data G3 σ3) by apply Hcm4. by rewrite Hd, Ed2.
    + intros _. by rewrite Em4.
  - intros G3 σ3 x Hi3 Hev3 Hsp3 Hle HF. apply (Hn G3); [done|eapply evolves_trans; [apply Hcm|done]|by eapply same_space_trans|by eapply grows_after; [|apply Hcm|exact Hle]|by left].
Qed.
(** ** Shared pages *)

(** A held frame becomes a page of a shared object. *)
Lemma inv_new_page h others G σ ko f :
  inv K (tok f h) others G σ → (∀ x, 0 ≤ h x) → count (phys σ) f = 1 → pages σ !! ko = None → ko.1 ∈ live σ →
  mem (phys σ) !! f = Some (Page zero_page) →
  inv K h others G (with_pages (<[ko := f]> (pages σ)) σ) ∧ evolves nothing G σ G (with_pages (<[ko := f]> (pages σ)) σ).
Proof using Type.
  intros Hi Hh Hc Hko Hlive Hz. pose proof (iv_machine _ _ _ _ _ Hi) as Hm. destruct (held_alone _ _ _ _ _ Hm Hh Hc) as (Hnk & Hnp & _).
  apply (keep_maps K (tok f h)); try done; simpl; auto with fastros; [|by apply insert_subseteq| |].
  2:{ intros ko'. unfold obj_bytes. simpl. destruct (decide (ko' = ko)) as [->|]; [|by rewrite lookup_insert_ne].
      rewrite lookup_insert_eq, Hko. unfold frame_bytes. by rewrite Hz. }
  2:{ intros ko' k x [[<- <-]|[_ ?]]%lookup_insert_Some Hk; [by destruct (Hnk k)|done]. }
  destruct Hm as [Hp ? ? Hl Hinj ? ? ?]. split; try done; simpl.
  - eapply phys_inv_ext; [exact Hp|]. intros x. simpl. unfold obj_refs. rewrite tally_fresh by done. unfold tok, one_if.
    repeat case_decide; simplify_eq; try done; lia.
  - intros k x [[<- _]|[_ Hk]]%lookup_insert_Some; [done|by eapply Hl].
  - intros k1 k2 x [[<- <-]|[Hn1 Hk1]]%lookup_insert_Some [[<- Ex]|[Hn2 Hk2]]%lookup_insert_Some; subst; try done;
      [by destruct (Hnp k2)|by destruct (Hnp k1)|by eapply Hinj].
Qed.

Lemma wp_shared_frame others G σ o off Q :
  inv K none others G σ → room 1 (phys σ) → o ∈ live σ →
  (∀ f G' σ', inv K (tok f none) others G' σ' → evolves nothing G σ G' σ' → same_space (space σ) (space σ') →
     pages σ' !! (o, off) = Some f → grows 1 (phys σ) (phys σ') →
     frame_bytes (phys σ') f = obj_bytes σ (o, off) →
     Q (inr f) σ') →
  (∀ G' σ' e, inv K none others G' σ' → evolves nothing G σ G' σ' → same_space (space σ) (space σ') → gF G' = ∅ → Q (inl e) σ') →
  wp (shared_frame o off) Q σ.
Proof using Type*.
  intros Hi Hroom Hlive Hs Hn. unfold shared_frame. wp_steps. destruct (pages σ !! (o, off)) as [f|] eqn:Ef.
  - wp_step. eapply (wp_st_get_shared K none others G); [done|exact Ef|destruct Hroom as (_ & _ & Hroom); specialize (Hroom f); lia|].
    intros p' Hi' Hev Hmem Hg. wp_steps.
    apply (Hs f G); auto with fastros. unfold obj_bytes, frame_bytes. simpl. by rewrite Hmem, Ef.
  - apply (wp_charged_frame others G σ); [done| |by intros G' σ' e Hi' Hev Hsp _ HF; apply (Hn G')]. intros f G1 σ1 Hi1 Hcm1 Hsp1 Hc1 Hz1.
    destruct (inv_new_page none others G1 σ1 (o, off) f Hi1 none_nonneg Hc1) as [Hi2 Hev2].
    { by rewrite (cm_pages _ _ _ _ _ Hcm1). }
    { by rewrite (cm_live _ _ _ _ _ Hcm1). }
    { done. }
    wp_steps. eapply (wp_st_get_shared K none others G1); [exact Hi2|simpl; apply lookup_insert_eq|simpl; rewrite Hc1; done|].
    intros p' Hi3 Hev3 Hmem Hg. wp_steps. apply (Hs f G1); try done.
    + eapply evolves_trans; [apply Hcm1|]. by eapply evolves_trans.
    + simpl. apply lookup_insert_eq.
    + apply (grows_after _ (phys σ1)); [done|apply Hcm1|done].
    + unfold obj_bytes, frame_bytes. simpl. rewrite Hmem, Ef. simpl. by rewrite Hz1.
Qed.

(** ** First touch *)

Lemma region_live h others G σ page r o : inv K h others G σ → region_at (regions (space σ)) page = Some r → shared r = Some o → o ∈ live σ.
Proof using Type. intros Hi [Hin _]%region_at_Some Ho. by eapply (so_live _ _ _ (iv_space _ _ _ _ _ Hi)). Qed.

Lemma wp_touch_shared others G σ page r o Q :
  inv K none others G σ → region_at (regions (space σ)) page = Some r → aligned page → room 1 (phys σ) → shared r = Some o →
  pfn (get_pte (gmaps G) (pml4 (space σ), page)) = None → data G σ (pml4 (space σ), page) = None →
  (∀ G' σ', inv K none others G' σ' → faulted page r true G σ G' σ' → Q (inr tt) σ') →
  (∀ G' σ' e, inv K none others G' σ' → evolves nothing G σ G' σ' → same_space (space σ) (space σ') → gF G' = ∅ → Q (inl e) σ') →
  wp (frame ←? shared_frame o (shared_base r + (page - start r)); map_page (pml4 (space σ)) page frame (prot r)) Q σ.
Proof using Type*.
  intros Hi Hr Ha Hroom Ho Hpn Hd Hs Hn. apply wp_try. eapply (wp_shared_frame others G); [done|done|by eapply region_live| |done].
  intros f G1 σ1 Hi1 Hev1 Hsp1 Hpg1 Hg1 Hfb. pose proof (ss_pml4 _ _ Hsp1) as Epml. rewrite <- Epml.
  apply (wp_map_page none others G1 σ1 page r f); [done|apply none_nonneg|by rewrite (ss_regions _ _ Hsp1)|done| | | |].
  - unfold source. by rewrite Ho.
  - rewrite Epml, (ev_absent _ _ _ _ _ Hev1); [done|by intros []|done].
  - rewrite Epml. intros G2 p2 Hi2 Hcm2 Hpf Hcow Hmem _ _. apply (Hs G2); [done|]. split.
    + eapply evolves_trans; [by apply nothing_only|apply Hcm2].
    + done.
    + apply (grows_before _ (phys σ1)); [done|done|apply Hcm2].
    + by exists f.
    + rewrite (data_present _ _ _ _ Hpf), Hd. unfold first_touch. rewrite Ho, <- Hfb. unfold frame_bytes. simpl. by rewrite Hmem.
    + done.
  - intros G2 p2 e Hi2 Hev2 _ HF. apply (Hn G2); [done|by eapply evolves_trans|done|done].
Qed.

Lemma wp_new_page others G σ page r Q :
  inv K none others G σ → region_at (regions (space σ)) page = Some r → aligned page → room 1 (phys σ) →
  get_pte (gmaps G) (pml4 (space σ), page) = 0 →
  (∀ G' σ', inv K none others G' σ' → faulted page r true G σ G' σ' → Q (inr tt) σ') →
  (∀ G' σ' e, inv K none others G' σ' → evolves nothing G σ G' σ' → same_space (space σ) (space σ') → stuck page G' σ' → Q (inl e) σ') →
  wp (new_page page r) Q σ.
Proof using Type*.
  intros Hi Hr Ha Hroom Hz Hs Hn. destruct (region_page _ _ _ _ _ _ Hi Hr Ha) as (Hok & Hva & Hin & Hv & Hpg).
  unfold new_page. wp_step. eapply (wp_charge_pressure K none others); [done|]. intros ok G1 σ1 Hi1 Hcm1 Hsp1 Hlim.
  destruct ok; simpl; [|wp_steps; apply (Hn G1); [done|apply Hcm1|done|right; left; by apply Hlim]]. wp_step. apply wp_root.
  pose proof (ss_pml4 _ _ Hsp1) as Epml. set (k := (pml4 (space σ), page)) in *.
  assert (get_pte (gmaps G1) k = 0) as Hz1.
  { rewrite (ev_absent _ _ _ _ _ (cm_evolves _ _ _ _ _ Hcm1)); [done|by intros []|by rewrite Hz]. }
  assert (data G1 σ1 k = None) as Hd1 by (unfold data; by rewrite Hz1).
  assert (∀ G' σ', inv K none others G' σ' → faulted page r true G1 σ1 G' σ' → Q (inr tt) σ') as Hs1.
  { intros G' σ' Hi' Hf. apply (Hs G'); [done|]. by eapply faulted_after. }
  assert (∀ G' σ' e, inv K none others G' σ' → evolves nothing G1 σ1 G' σ' → same_space (space σ1) (space σ') → gF G' = ∅ → Q (inl e) σ') as Hn1.
  { intros G' σ' e Hi' Hev Hsp HF. apply (Hn G'); [done|eapply evolves_trans; [apply Hcm1|done]|by eapply same_space_trans|by left]. }
  assert (region_at (regions (space σ1)) page = Some r) as Hr1 by (by rewrite (ss_regions _ _ Hsp1)).
  destruct (shared r) as [o|] eqn:Hsh.
  - wp_step. rewrite add64_ok by (destruct (ok_fits r Hok) as (_ & ? & ?); lia). eapply wp_need; [done|].
    apply (wp_touch_shared others G1 σ1 page r o); try done; [by eapply room_shrinks, Hroom; apply Hcm1|rewrite Epml; fold k; by rewrite Hz1|by rewrite Epml].
  - apply (wp_charged_frame others G1 σ1); [done| |by intros G' σ' e Hi' Hev Hsp _ HF; apply (Hn1 G')]. intros f G2 σ2 Hi2 Hcm2 Hsp2 Hc2 _.
    destruct (initial_ok r page Hok Hva) as (bs & Hbs & Hlen). wp_step. eapply wp_need; [exact Hbs|]. wp_step. pose proof (ss_pml4 _ _ Hsp2) as Epml2.
    assert (get_pte (gmaps G2) k = 0) as Hz2 by (rewrite (ev_absent _ _ _ _ _ (cm_evolves _ _ _ _ _ Hcm2)); [done|by intros []|by rewrite Hz1]).
    eapply wp_mono; [apply (wp_fill_install others G2 σ2 page r f bs (λ x σ', Q x σ'))|].
    5: done. 5: done. done. by rewrite (ss_regions _ _ Hsp2). done. done. by rewrite Epml2, Epml; fold k; rewrite Hz2.
    3:{ intros u σ3 [_ Hw]. by rewrite Epml2 in Hw. }
    + rewrite Epml2, Epml. fold k. intros G3 σ3 Hi3 Hev3 Esp3 Hpf Hcow Hd3 _ _ _. apply (Hs1 G3); [done|].
      eapply faulted_after; [exact Hcm2|done|]. split; rewrite ?Epml2, ?Epml; fold k; try done.
      * apply Hev3.
      * rewrite Esp3. auto with fastros.
      * by eapply calm_grows.
      * rewrite Hd3, (only_data G1 σ1) by apply Hcm2. rewrite Hd1. unfold first_touch. by rewrite Hsh, Hbs.
    + intros G3 σ3 e Hi3 Hev3 Hsp3 _ HF. apply (Hn1 G3); [done|eapply evolves_trans; [apply Hcm2|done]|by eapply same_space_trans|done].
Qed.

(** ** Any fault *)

Lemma faulted_write page r w G σ G' σ' : faulted page r true G σ G' σ' → faulted page r w G σ G' σ'.
Proof using Type. intros [? ? ? ? ? Hw]. split; try done. intros _. by apply Hw. Qed.

Lemma wp_ensure_page others G σ page r write Q :
  inv K none others G σ → region_at (regions (space σ)) page = Some r → aligned page → room 1 (phys σ) →
  (write = true → can_write (prot r) = true) →
  (∀ G' σ', inv K none others G' σ' → faulted page r write G σ G' σ' → Q (inr tt) σ') →
  (∀ G' σ' e, inv K none others G' σ' → evolves nothing G σ G' σ' → same_space (space σ) (space σ') → stuck page G' σ' → Q (inl e) σ') →
  wp (ensure_page page r write) Q σ.
Proof using Type*.
  intros Hi Hr Ha Hroom Hw Hs Hn. destruct (region_page _ _ _ _ _ _ Hi Hr Ha) as (Hok & Hva & Hin & Hv & Hpg).
  assert (∀ G' σ', inv K none others G' σ' → faulted page r true G σ G' σ' → Q (inr tt) σ') as Hst.
  { intros G' σ' Hi' Hf. apply (Hs G'); [done|]. by apply faulted_write. }
  unfold ensure_page. wp_step. apply wp_root. wp_step. eapply (wp_st_leaf K none others G); [done|done| |].
  2:{ intros Hz. by eapply wp_new_page. }
  intros ptr Hptr. wp_step. eapply wp_st_read; [done..|]. set (e := get_pte (gmaps G) (pml4 (space σ), page)).
  destruct (has e PRESENT) eqn:Epr.
  - destruct (write && has e COW) eqn:Ewc.
    + apply andb_true_iff in Ewc as [-> Hcow]. eapply (wp_do_cow others G σ page r); try done; [by apply Hw|].
      intros G' σ' Hi' Hcm Hsp HF. apply (Hn G'); [done|apply Hcm|done|by left].
    + wp_steps. apply (Hs G); [done|]. pose proof (present_pfn e Epr) as Hf. split.
      * apply evolves_refl.
      * auto with fastros.
      * eapply calm_grows, (calm_refl nothing G).
      * unfold e in Hf. rewrite Hf. eauto.
      * unfold data. fold e. by rewrite Hf.
      * intros ->. done.
  - destruct (has e PTE_SWAPPED) eqn:Esw.
    { eapply (wp_swap_in others G σ page r); try done.
      - intros G' σ' Hi' Hf _ _. by apply (Hst G').
      - intros G' σ' x Hi' Hev Hsp _ Hwhy. by apply (Hn G'). }
   
    eapply (wp_new_page others G); [done..| |done|done]. destruct (decide (e = 0)) as [|Hz]; [done|].
    destruct (swapped_entry none others G σ page r Hi Hr Epr Hz) as [[s Hsw] _]. unfold swapped in Hsw. fold e in Hsw. rewrite Epr, Esw in Hsw. done.
Qed.

(** The access the kernel is asked for is allowed. *)
Definition allowed (page : Z) (write : bool) σ : Prop :=
  ∃ r, region_at (regions (space σ)) page = Some r ∧ (write = true → can_write (prot r) = true).

Lemma wp_fault_in others G σ page write Q :
  inv K none others G σ → aligned page → room 1 (phys σ) →
  (∀ r G' σ', region_at (regions (space σ)) page = Some r → (write = true → can_write (prot r) = true) →
     inv K none others G' σ' → faulted page r write G σ G' σ' → Q (inr tt) σ') →
  (∀ G' σ' e, inv K none others G' σ' → evolves nothing G σ G' σ' → same_space (space σ) (space σ') →
     (e = EFAULT ∧ ¬ allowed page write σ) ∨ stuck page G' σ' → Q (inl e) σ') →
  wp (fault_in page write) Q σ.
Proof using Type*.
  intros Hi Ha Hroom Hs Hn. unfold fault_in. wp_steps. apply wp_try. unfold ok_or. wp_steps.
  destruct (region_at (regions (space σ)) page) as [r|] eqn:Hr.
  2:{ apply (Hn G); auto using evolves_refl with fastros. left. split; [done|]. intros (r & ? & _). congruence. }
  destruct (write && negb (Prot.contains (prot r) Prot.WRITE)) eqn:Ew.
  { wp_steps. apply (Hn G); auto using evolves_refl with fastros. left. split; [done|]. intros (r' & Hr' & Hc).
    apply andb_true_iff in Ew as [-> Ew]. simplify_eq. specialize (Hc eq_refl). unfold can_write in Hc. by rewrite Hc in Ew. }
  assert (write = true → can_write (prot r) = true) as Hw.
  { intros ->. unfold can_write. by destruct (Prot.contains (prot r) Prot.WRITE). }
  eapply (wp_ensure_page others G); [done..| |].
  - intros G' σ' Hi' Hf. by apply (Hs r G').
  - intros G' σ' e Hi' Hev Hsp Hst. apply (Hn G'); [done..|by right].
Qed.
End Fault.
