(* ===== verification/SpaceDemo.v ===== *)
(** * A small machine

    A concrete state that meets the invariant of the address spaces: the buddy
    allocator over 64 frames, a swap device in memory, files that are byte
    strings, and one space with private, stack and shared regions, none of
    whose pages was touched yet. *)

From S2P Require Import Prelude Errno UAccess Vma BuddyModel BuddyList BuddyInv BuddyOps BuddyAlloc BuddyRange BuddySpec FrameBuddy Frame Paging PagingProofs Cgroup Swap AddrSpace PhysInv PteBits SpaceInv.

#[export] Instance byte_files : MappedFile (list Z) := {
  pread f off n := take (Z.to_nat n) (drop (Z.to_nat off) f);
  shared_mmap _ := None;
}.

Definition demo_rw : Z := Z.lor Prot.READ Prot.WRITE.

Definition demo_regions : list (Region (list Z)) := [
  mkRegion 0x400000 0x402000 demo_rw false None None 0;
  mkRegion 0x500000 0x501000 Prot.READ false (Some (mkBacking [1; 2; 3] 0 3)) None 0;
  mkRegion 0x600000 0x602000 demo_rw false None (Some 0) 0;
  mkRegion 0x7fff0000 0x7fff2000 demo_rw true None None 0].

Definition demo_space : AddressSpace (list Z) := mkSpace demo_frame.1 demo_regions 0x402000 0x400000 MMAP_TOP None 0.

Definition demo_st : St Buddy.t (Z * gmap Z (list Z)) (list Z) := mkSt demo_phys (Some demo_swap) ∅ {[0]} ∅ demo_space.

Definition demo_ghost : Ghost := mkGhost demo_free_frames {[demo_frame.1]} demo_own ∅ ∅ none.

Lemma demo_regions_wf : regions_wf demo_regions.
Proof.
  split.
  - repeat apply Forall_cons_2; [..|by apply Forall_nil]; split; simpl; try done; (split; [|done]); intros b [= <-]; done.
  - repeat (apply FOP_cons; [repeat (apply Forall_cons; split; [by left|]); by apply Forall_nil|]). apply FOP_nil.
Qed.

#[local] Opaque demo_frame demo_phys.

Lemma root_only (f t root x : Z) : ({[f := (f, 3%nat, 0)]} : gmap Z (Z * nat * Z)) !! t ≠ Some (root, 0%nat, x).
Proof. intros [_ E]%lookup_singleton_Some. discriminate E. Qed.

(** A root table with no user entry translates nothing. *)
Lemma demo_pte root va : root_ok demo_own root → user_va va → pte demo_phys root va = 0.
Proof.
  intros Hr Hva. destruct demo_paging as [Hp _]. pose proof (pi_wf _ _ _ _ Hp) as Hwf.
  destruct (leaf_entry_ok demo_own demo_phys root va Hwf Hva Hr) as (o & _ & Ho).
  destruct o as [[t i]|]; simpl in Ho.
  - destruct Ho as (_ & Ht & _). by destruct (root_only demo_frame.1 t root (prefix va 1)).
  - destruct Ho as [_ Hno]. by eapply pte_missing.
Qed.

(** Memory without user pages. *)
Lemma fresh_phys_inv {A} `{FrameAllocatorLaws A} F U own (p : Phys A) :
  paging_inv F U own p → refs p = ∅ → (∀ root va, root_ok own root → user_va va → pte p root va = 0) → U ⊆ dom own →
  (∀ f, f ∈ F ∪ U → f / PAGE_SIZE < ref_frames p) → phys_inv ∅ F U own ∅ (λ f, obj_refs ∅ f + none f + none f) p.
Proof.
  intros Hp Hrefs Hpte HU Hram. assert (∀ f, count p f = 0) as Hc by (intros f; unfold count; by rewrite Hrefs).
  split; try done.
  - split; [|done]. intros root va Hr Hva _. by apply Hpte.
  - intros f. by rewrite Hc.
  - intros f. by rewrite Hc.
  - intros f Hf. left. by apply HU.
Qed.

Lemma demo_ram f : f ∈ demo_free_frames ∪ {[demo_frame.1]} → f / PAGE_SIZE < 64.
Proof.
  assert (demo_frame.1 / PAGE_SIZE < 64) as Hroot by (apply Z.ltb_lt; vm_compute; reflexivity).
  intros [Hf|E%elem_of_singleton]%elem_of_union; [|by rewrite E].
  apply elem_of_difference in Hf as [(i & -> & Hi)%elem_of_map _]. unfold frame_of. rewrite Z.div_mul by done.
  unfold l_demo in Hi. cbn [l_free] in Hi. rewrite elem_of_union, elem_of_intersection, elem_of_zrange in Hi. destruct Hi as [[]%not_elem_of_empty|Hi]; lia.
Qed.

Lemma demo_phys_inv : phys_inv ∅ demo_free_frames {[demo_frame.1]} demo_own ∅ (λ f, obj_refs ∅ f + none f + none f) demo_phys.
Proof.
  apply fresh_phys_inv; [apply demo_paging|reflexivity|exact demo_pte| |exact demo_ram].
  unfold demo_own. by rewrite dom_singleton_L.
Qed.

Lemma demo_live r o : r ∈ demo_regions → shared r = Some o → o = 0.
Proof.
  intros Hr Ho. assert (Forall (λ r, shared r = Some o → o = 0) demo_regions) as Hall
    by (repeat apply Forall_cons_2; [naive_solver..|by apply Forall_nil]).
  rewrite Forall_forall in Hall. by apply (Hall r).
Qed.

Lemma demo_inv : inv ∅ none [] demo_ghost demo_st.
Proof.
  split; [| |by apply Forall_nil|by apply Forall_nil].
  - split; [exact demo_phys_inv|done|done|done|done| |done|done]. split; [apply demo_swap_rep|done].
  - split; [apply demo_paging|apply demo_regions_wf| |done].
    intros r o Hr Ho. rewrite (demo_live r o Hr Ho). by apply elem_of_singleton.
Qed.

Lemma demo_room n : 0 ≤ n → n + 1 < U16 → room n demo_phys.
Proof. intros H0 H1. split_and!; [done|done|]. intros f. change (count demo_phys f) with 0. lia. Qed.

Lemma demo_stack_room : stack_room demo_regions.
Proof. unfold stack_room. repeat apply Forall_cons_2; [done..|by apply Forall_nil]. Qed.
