(* ===== verification/SpaceMem.v ===== *)
(** * User memory

    What programs see: the bytes of each page, wherever they are.  Faults,
    reclaim, swapping and copy-on-write never change them; the kernel's copies
    to and from user memory read and write exactly them. *)

From S2P Require Import Prelude Errno UAccess Vma FrameBuddy Frame Paging PagingProofs Cgroup Swap AddrSpace PhysInv PteBits SpaceInv SpaceSteps SpaceDemo SpaceReclaim SpaceFault.

(** The identity of a page: private to a space, or a page of an object that
    all its mappings share. *)
Inductive Ident :=
  | Private (root page : Z)
  | InObject (obj off : Z).

#[export] Instance Ident_eq_dec : EqDecision Ident.
Proof. solve_decision. Defined.

Section Mem.
Context {A D F : Type} `{FrameAllocatorLaws A} `{BlockDeviceLaws D} `{MappedFile F}.
Context (K : gset Z).
Implicit Types (σ : St A D F) (G : Ghost) (sp : AddressSpace F) (h : Z → Z) (others : list (AddressSpace F)) (r : Region F).

(** ** The contents of pages *)

(** The contents of a page of a space; [None] outside of every region, or
    when the swap device cannot read it back. *)
Definition contents G σ sp (page : Z) : option (list Z) :=
  match data G σ (pml4 sp, page) with
  | Some d => d
  | None => r ← region_at (regions sp) page; first_touch σ r page
  end.

Definition ident sp (page : Z) : Ident :=
  match region_at (regions sp) page with
  | Some r => match shared r with Some o => InObject o (shared_base r + (page - start r)) | None => Private (pml4 sp) page end
  | None => Private (pml4 sp) page
  end.

Lemma contents_nothing G σ G' σ' sp page : evolves nothing G σ G' σ' → contents G' σ' sp page = contents G σ sp page.
Proof using Type.
  intros He. unfold contents. rewrite (only_data _ _ _ _ _ He). destruct (data G σ (pml4 sp, page)); [done|].
  destruct (region_at (regions sp) page) as [r|]; [|done]. simpl. unfold first_touch. destruct (shared r); [|done].
  apply (ev_shared _ _ _ _ _ He). by intros [].
Qed.

(** A fault changes the contents of no page of any space. *)
Lemma contents_faulted page0 r write G σ G' σ' sp page :
  faulted page0 r write G σ G' σ' → region_at (regions (space σ)) page0 = Some r → (pml4 sp = pml4 (space σ) → regions sp = regions (space σ)) →
  contents G' σ' sp page = contents G σ sp page.
Proof using Type.
  intros Hf Hr Hsp. unfold contents. destruct (decide ((pml4 sp, page) = (pml4 (space σ), page0))) as [E|E].
  - injection E as Ep ->. rewrite Ep, (fl_data _ _ _ _ _ _ _ Hf), Hsp by done. destruct (data G σ _); [done|]. by rewrite Hr.
  - rewrite (ev_data _ _ _ _ _ (fl_evolves _ _ _ _ _ _ _ Hf)) by (unfold only; congruence). destruct (data G σ (pml4 sp, page)); [done|].
    destruct (region_at (regions sp) page) as [r'|]; [|done]. simpl. unfold first_touch. destruct (shared r'); [|done].
    by apply (ev_shared _ _ _ _ _ (fl_evolves _ _ _ _ _ _ _ Hf)).
Qed.

(** A shared page shows its object. *)
Lemma contents_shared h G σ sp page r o :
  machine K h G σ → space_ok G σ sp → region_at (regions sp) page = Some r → shared r = Some o →
  contents G σ sp page = obj_bytes σ (o, shared_base r + (page - start r)).
Proof using Type.
  intros Hm Hsp Hr Ho. unfold contents, data. set (e := get_pte (gmaps G) (pml4 sp, page)). destruct (decide (e = 0)) as [Hz|Hz].
  - rewrite Hz. simpl. rewrite Hr. simpl. unfold first_touch. by rewrite Ho.
  - destruct (so_pte _ _ _ Hsp page e) as (p & g & src & Hv & Hok); [by apply (maps_get _ _ _ _ _ _ Hm)|].
    unfold view in Hv. rewrite Hr in Hv. simplify_eq/=. unfold pte_ok, source in Hok. rewrite Ho in Hok.
    destruct (pfn e) as [f|]; [|by destruct Hok]. destruct Hok as (_ & _ & Hpg). unfold obj_bytes. by rewrite Hpg.
Qed.

(** ** Changing the regions *)

(** The source of an address, whatever its protection. *)
Definition source_at (rs : list (Region F)) (a : Z) : option (Source F) := snd <$> view rs a.

Lemma source_region rs page r a :
  regions_wf rs → region_at rs page = Some r → aligned page → page ≤ a < page + PAGE_SIZE → source_at rs a = Some (source r a).
Proof using Type.
  intros [Hall _] Hr Ha Hin. unfold source_at, view. rewrite <- (region_at_page rs a Hall).
  assert (align_down a = page) as ->; [|by rewrite Hr].
  rewrite align_down_val. unfold aligned in Ha. assert (a mod PAGE_SIZE = a - page) as ->; [|lia].
  symmetry. apply (Z.mod_unique _ _ (page / PAGE_SIZE)); [unfold PAGE_SIZE in *; lia|]. apply Z.div_exact in Ha; [lia|done].
Qed.

(** Regions with the same sources fill a page the same way. *)
Lemma initial_same r r' page :
  shared r = None → shared r' = None →
  (∀ a, page ≤ a < page + PAGE_SIZE → source r' a = source r a) → initial r' page = initial r page.
Proof using Type.
  intros Hs Hs' Hsrc. unfold source in Hsrc. rewrite Hs, Hs' in Hsrc. unfold initial.
  assert (0 < PAGE_SIZE) as Hpos by done.
  destruct (backing r) as [b|], (backing r') as [b'|]; [| | |done].
  - destruct (Z.ltb_spec (page - start r) (length_ b)) as [Hl|Hl], (Z.ltb_spec (page - start r') (length_ b')) as [Hl'|Hl'].
    + pose proof (Hsrc page ltac:(lia)) as H0'. rewrite !(proj2 (Z.ltb_lt _ _)) in H0' by done. injection H0' as Ef Eo.
      assert (Z.min (length_ b' - (page - start r')) PAGE_SIZE = Z.min (length_ b - (page - start r)) PAGE_SIZE) as ->.
      { set (n := length_ b - (page - start r)). set (n' := length_ b' - (page - start r')).
        destruct (Z.lt_trichotomy (Z.min n PAGE_SIZE) (Z.min n' PAGE_SIZE)) as [Hlt|[?|Hlt]]; [|done|]; exfalso.
        - pose proof (Hsrc (page + n) ltac:(lia)) as Hb. rewrite (proj2 (Z.ltb_lt _ _)), (proj2 (Z.ltb_ge _ _)) in Hb by lia. done.
        - pose proof (Hsrc (page + n') ltac:(lia)) as Hb. rewrite (proj2 (Z.ltb_ge _ _)), (proj2 (Z.ltb_lt _ _)) in Hb by lia. done. }
      unfold add64. by rewrite Ef, Eo.
    + pose proof (Hsrc page ltac:(lia)) as Hb. rewrite (proj2 (Z.ltb_ge _ _)), (proj2 (Z.ltb_lt _ _)) in Hb by lia. done.
    + pose proof (Hsrc page ltac:(lia)) as Hb. rewrite (proj2 (Z.ltb_lt _ _)), (proj2 (Z.ltb_ge _ _)) in Hb by lia. done.
    + done.
  - destruct (Z.ltb_spec (page - start r) (length_ b)) as [Hl|Hl]; [|done]. pose proof (Hsrc page ltac:(lia)) as Hb.
    rewrite (proj2 (Z.ltb_lt _ _)) in Hb by lia. done.
  - destruct (Z.ltb_spec (page - start r') (length_ b')) as [Hl|Hl]; [|done]. pose proof (Hsrc page ltac:(lia)) as Hb.
    rewrite (proj2 (Z.ltb_lt _ _)) in Hb by lia. done.
Qed.

Lemma contents_sources G σ sp rs page :
  regions_wf (regions sp) → regions_wf rs → aligned page →
  (∀ a, page ≤ a < page + PAGE_SIZE → source_at rs a = source_at (regions sp) a) →
  contents G σ (set_regions rs sp) page = contents G σ sp page.
Proof using Type.
  intros Hwf Hwf' Ha Hsrc. unfold contents. simpl. destruct (data G σ (pml4 sp, page)); [done|].
  assert (page ≤ page < page + PAGE_SIZE) as Hp by (unfold PAGE_SIZE; lia).
  destruct (region_at rs page) as [r'|] eqn:Hr', (region_at (regions sp) page) as [r|] eqn:Hr; simpl; [| | |done].
  - assert (∀ a, page ≤ a < page + PAGE_SIZE → source r' a = source r a) as Hs.
    { intros a Hin. specialize (Hsrc a Hin). rewrite (source_region rs page r' a), (source_region (regions sp) page r a) in Hsrc by done. congruence. }
    pose proof (Hs page Hp) as H0'. unfold first_touch. destruct (shared r) as [o|] eqn:Eo, (shared r') as [o'|] eqn:Eo';
      unfold source in H0'; rewrite Eo, Eo' in H0'; [injection H0' as -> E'; by rewrite E'|by repeat case_match|by repeat case_match|]. by apply initial_same.
  - specialize (Hsrc page Hp). rewrite (source_region rs page r' page) in Hsrc by done. unfold source_at, view in Hsrc. by rewrite Hr in Hsrc.
  - specialize (Hsrc page Hp). rewrite (source_region (regions sp) page r page) in Hsrc by done. unfold source_at, view in Hsrc. by rewrite Hr' in Hsrc.
Qed.

Lemma inv_regions h others G σ rs :
  inv K h others G σ → regions_wf rs → (∀ r o, r ∈ rs → shared r = Some o → o ∈ live σ) →
  (∀ va, get_pte (gmaps G) (pml4 (space σ), va) ≠ 0 → view rs va = view (regions (space σ)) va) →
  let σ' := with_space (set_regions rs (space σ)) σ in
  inv K h others G σ' ∧ evolves nothing G σ G σ'.
Proof using Type.
  intros [Hm Hs Ho Hr] Hwf Hl Hv σ'. assert (machine K h G σ') as Hm' by (by destruct Hm).
  split; [|by split]. split; [done| | |done].
  - destruct Hs as [Hroot _ _ Hpte]. split; try done. simpl. intros va e Hk. destruct (Hpte va e Hk) as (p & g & src & Hvw & Hok).
    exists p, g, src. split; [|done]. rewrite Hv; [done|]. by apply (maps_get _ _ _ _ _ _ Hm) in Hk as [-> ?].
  - eapply Forall_impl; [exact Ho|]. intros sp [? ? ? ?]. by split.
Qed.

(** ** Faults *)

(** The fault was resolved: the page is present and the hardware allows the
    access. *)
Definition resolved (page : Z) (write exec : bool) G' σ' : Prop :=
  ∃ r, region_at (regions (space σ')) page = Some r ∧
    let e := get_pte (gmaps G') (pml4 (space σ'), page) in
    is_Some (pfn e) ∧ perms e (prot r) ∧ (write = true → has e WRITABLE = true) ∧ (exec = true → has e NO_EXECUTE = false).

Lemma faulted_resolved others G σ G' σ' page r write exec :
  inv K none others G' σ' → faulted page r write G σ G' σ' → region_at (regions (space σ)) page = Some r →
  (write = true → can_write (prot r) = true) → (exec = true → can_exec (prot r) = true) → resolved page write exec G' σ'.
Proof using Type.
  intros Hi' Hf Hr Hw He. destruct Hf as [_ Hsp _ [f Hpf] _ Hcow]. exists r. rewrite (ss_pml4 _ _ Hsp), (ss_regions _ _ Hsp).
  split; [done|]. set (e := get_pte (gmaps G') (pml4 (space σ), page)) in *. split; [by exists f|].
  assert (has e PRESENT = true) as Hpr by (unfold pfn in Hpf; by destruct (has e PRESENT)).
  destruct (present_page K none others G' σ' page (prot r) (grows_down r) (source r page) e) as (_ & _ & Hperm); [done| |by rewrite (ss_pml4 _ _ Hsp)|done|].
  { unfold view. by rewrite (ss_regions _ _ Hsp), Hr. }
  split_and!; [done| |].
  - intros Ew. by rewrite (pm_write _ _ Hperm), Hw, Hcow.
  - intros Ee. by rewrite (pm_exec _ _ Hperm), He.
Qed.

Lemma grow_stack_view rs page r' rs' :
  regions_wf rs → stack_room rs → aligned page → USER_START ≤ page → grow_stack rs page = Some (r', rs') →
  regions_wf rs' ∧ region_at rs' page = Some r' ∧ (∀ a, is_Some (view rs a) → view rs' a = view rs a) ∧
  (∀ r o, r ∈ rs' → shared r = Some o → ∃ r0, r0 ∈ rs ∧ shared r0 = Some o).
Proof using Type.
  intros Hwf Hroom Hp Hlow Hg. destruct (grow_stack_ok rs page r' rs' Hwf Hroom Hp Hlow Hg) as (Hwf' & Hr' & Hgd & Hv).
  unfold grow_stack in Hg. destruct (position _ rs) as [i|] eqn:Hpos; [|done]. simpl in Hg.
  apply position_Some in Hpos as (r & Hi & Hr). rewrite Hi in Hg. simpl in Hg.
  destruct (overlaps (delete i rs) page (end_ r)) eqn:Ho; [done|]. injection Hg as <- <-.
  rewrite !andb_true_iff, Z.ltb_lt, Z.leb_le in Hr. destruct Hr as [[Hgr Hlt] _].
  assert (region_ok r) as Hok by (destruct Hwf as [Hall _]; by eapply Forall_lookup_1). destruct (ok_stack r Hok Hgr) as [Hb Hs].
  split_and!; [done|done| |].
  - intros a [v Hva]. rewrite Hv. destruct (contains_addr a (set_start page r)) eqn:Ec; [|done].
    rewrite (view_delete rs i r a Hwf Hi) in *. destruct (contains_addr a r) eqn:Ec'.
    + simpl. unfold source. by rewrite Hb, Hs, Hgr.
    + apply contains_addr_spec in Ec. simpl in Ec. unfold view in Hva. destruct (region_at (delete i rs) a) as [q|] eqn:Eq; [|done].
      apply region_at_Some in Eq as [Hq Ha]. rewrite overlaps_false in Ho. specialize (Ho q Hq). lia.
  - intros q o Hq Hsh. apply list_elem_of_lookup in Hq as [j Hj]. apply list_lookup_insert_Some in Hj as [(<- & <- & _)|[_ Hj]].
    + simpl in Hsh. congruence.
    + exists q. split; [by eapply list_elem_of_lookup_2|done].
Qed.

Lemma page_user addr : USER_START ≤ addr → USER_START ≤ align_down addr.
Proof using Type.
  intros Ha. destruct (align_down_spec addr) as [Hal Hb]. destruct (Z.le_gt_cases USER_START (align_down addr)) as [|Hlt]; [done|].
  apply page_aligned_le in Hlt; [lia|done|done].
Qed.

(** All pages of the other spaces and the pages [P] of this one keep their
    contents. *)
Definition same_contents others (P : Z → Prop) G σ G' σ' : Prop :=
  (∀ sp page, sp ∈ others → contents G' σ' sp page = contents G σ sp page) ∧
  (∀ page, P page → contents G' σ' (space σ') page = contents G σ (space σ) page).

(** Any page, and any page of a region. *)
Definition any : Z → Prop := λ _, True.
Definition in_region σ : Z → Prop := λ page, aligned page ∧ is_Some (region_at (regions (space σ)) page).

Lemma same_contents_weaken others (P P' : Z → Prop) G σ G' σ' :
  (∀ p, P' p → P p) → same_contents others P G σ G' σ' → same_contents others P' G σ G' σ'.
Proof using Type. intros HP [Ho Hs]. split; [done|]. intros p Hp. by apply Hs, HP. Qed.

Lemma same_contents_nothing others P G σ G' σ' : evolves nothing G σ G' σ' → same_space (space σ) (space σ') → same_contents others P G σ G' σ'.
Proof using Type.
  intros He Hs. split; [by intros; apply contents_nothing|]. intros page _. rewrite (contents_nothing _ _ _ _ _ _ He).
  unfold contents. by rewrite (ss_pml4 _ _ Hs), (ss_regions _ _ Hs).
Qed.

Lemma same_contents_faulted others P page r write G σ G' σ' :
  inv K none others G σ → faulted page r write G σ G' σ' → region_at (regions (space σ)) page = Some r → same_contents others P G σ G' σ'.
Proof using Type.
  intros Hi Hf Hr. pose proof (fl_space _ _ _ _ _ _ _ Hf) as Hs. split.
  - intros sp p Hsp. eapply contents_faulted; [exact Hf|done|]. intros E. by pose proof (proj1 (Forall_forall _ _) (iv_roots _ _ _ _ _ Hi) sp Hsp).
  - intros p _. rewrite <- (contents_faulted page r write G σ G' σ' (space σ) p) by done. unfold contents. by rewrite (ss_pml4 _ _ Hs), (ss_regions _ _ Hs).
Qed.

Lemma same_contents_trans others P G σ G1 σ1 G2 σ2 :
  same_contents others P G σ G1 σ1 → same_contents others P G1 σ1 G2 σ2 → same_contents others P G σ G2 σ2.
Proof using Type.
  intros [O1 S1] [O2 S2]. split.
  - intros sp p Hsp. by rewrite O2, O1.
  - intros p Hp. by rewrite S2, S1.
Qed.

(** The region of [page] allows the access. *)
Definition permitted (page : Z) (write exec : bool) σ : Prop :=
  ∃ r, region_at (regions (space σ)) page = Some r ∧
    (write = true → can_write (prot r) = true) ∧ (exec = true → can_exec (prot r) = true).

Lemma wp_checked_fault others G σ page r write exec Q :
  inv K none others G σ → region_at (regions (space σ)) page = Some r → aligned page → room 1 (phys σ) →
  (∀ ok G' σ', inv K none others G' σ' → same_contents others any G σ G' σ' → same_space (space σ) (space σ') →
     (if ok : bool then resolved page write exec G' σ' else ¬ permitted page write exec σ ∨ stuck page G' σ') → Q ok σ') →
  wp (if write && negb (Prot.contains (prot r) Prot.WRITE) then mret false
      else if exec && negb (Prot.contains (prot r) Prot.EXEC) then mret false
      else res ← ensure_page page r write; mret (match res with inr _ => true | inl _ => false end)) Q σ.
Proof using Type*.
  intros Hi Hr Ha Hroom HQ.
  assert (¬ permitted page write exec σ → Q false σ) as Hno by (intros; apply (HQ false G); auto using same_contents_nothing, evolves_refl with fastros).
  destruct (write && _) eqn:Ew.
  { wp_steps. apply Hno. intros (r' & Hr' & Hw' & _). apply andb_true_iff in Ew as [-> Ew]. simplify_eq. unfold can_write in Hw'. by rewrite Hw' in Ew. }
  destruct (exec && _) eqn:Ee.
  { wp_steps. apply Hno. intros (r' & Hr' & _ & He'). apply andb_true_iff in Ee as [-> Ee]. simplify_eq. unfold can_exec in He'. by rewrite He' in Ee. }
  assert (write = true → can_write (prot r) = true) as Hw by (intros ->; unfold can_write; by destruct (Prot.contains _ _)).
  assert (exec = true → can_exec (prot r) = true) as He by (intros ->; unfold can_exec; by destruct (Prot.contains (prot r) Prot.EXEC)).
  wp_step. eapply (wp_ensure_page K others G); [done..| |].
  - intros G' σ' Hi' Hf. wp_steps. apply (HQ true G'); [done|by eapply same_contents_faulted|apply Hf|]. by eapply faulted_resolved.
  - intros G' σ' e Hi' Hev Hsp Hst. wp_steps. apply (HQ false G'); [done|by apply same_contents_nothing|done|by right].
Qed.

(** The regions after a fault at [addr], which may have grown a stack. *)
Definition after_growth (rs : list (Region F)) (addr : Z) : list (Region F) :=
  if negb ((USER_START <=? addr) && (addr <? USER_END)) then rs
  else match region_at rs (align_down addr), grow_stack rs (align_down addr) with None, Some (_, rs') => rs' | _, _ => rs end.

Lemma outside_user h others G σ addr write exec :
  inv K h others G σ → (USER_START <=? addr) && (addr <? USER_END) = false → ¬ permitted (align_down addr) write exec σ.
Proof using Type.
  intros Hi Hu (r & Hr & _). destruct (region_page K _ _ _ _ _ _ Hi Hr) as (Hok & Hva & _); [apply align_down_spec|].
  pose proof (ok_low r Hok) as Hlo. pose proof (ok_high r Hok) as Hhi. pose proof (ok_end r Hok) as Hend.
  destruct (align_down_spec addr) as [Hal Hb]. assert (align_down addr + PAGE_SIZE ≤ end_ r) by (apply page_aligned_le; [done|done|lia]).
  apply andb_false_iff in Hu as [Hu|Hu]; lia.
Qed.

Lemma inv_grown others G σ page r rs :
  inv K none others G σ → stack_room (regions (space σ)) → aligned page → USER_START ≤ page →
  grow_stack (regions (space σ)) page = Some (r, rs) →
  let σ' := with_space (set_regions rs (space σ)) σ in
  inv K none others G σ' ∧ region_at rs page = Some r ∧ same_contents others (in_region σ) G σ G σ'.
Proof using Type.
  intros Hi Hstack Ha Hlo Hg. pose proof (so_regions _ _ _ (iv_space _ _ _ _ _ Hi)) as Hwf.
  destruct (grow_stack_view _ _ _ _ Hwf Hstack Ha Hlo Hg) as (Hwf' & Hr' & Hv & Hsh).
  destruct (inv_regions none others G σ rs Hi Hwf') as [Hi1 Hev1].
  { intros q o Hq Ho. destruct (Hsh q o Hq Ho) as (r0 & Hin & Ho'). by eapply (so_live _ _ _ (iv_space _ _ _ _ _ Hi)). }
  { intros va Hz. apply Hv. destruct (so_pte _ _ _ (iv_space _ _ _ _ _ Hi) va _ (proj2 (maps_get _ _ _ _ _ _ (iv_machine _ _ _ _ _ Hi)) (conj eq_refl Hz)))
      as (p & g & src & -> & _). eauto. }
  split_and!; [done|done|]. split; [by intros; apply contents_nothing|]. intros p [Hal [q Hq]]. rewrite (contents_nothing _ _ _ _ _ _ Hev1).
  apply contents_sources; [done|done|done|].
  intros a Hin. unfold source_at. rewrite Hv; [done|]. pose proof (source_region _ p q a Hwf Hq Hal Hin) as E.
  unfold source_at in E. destruct (view (regions (space σ)) a); [eauto|done].
Qed.

Lemma permitted_same page write exec σ σ' :
  regions (space σ') = regions (space σ) → permitted page write exec σ' → permitted page write exec σ.
Proof using Type. unfold permitted. by intros ->. Qed.

Lemma wp_handle_fault others G σ addr write exec Q :
  inv K none others G σ → room 1 (phys σ) → stack_room (regions (space σ)) →
  (∀ ok G' σ', inv K none others G' σ' → same_contents others (in_region σ) G σ G' σ' → pml4 (space σ') = pml4 (space σ) →
     regions (space σ') = after_growth (regions (space σ)) addr →
     (if ok : bool then resolved (align_down addr) write exec G' σ'
      else ¬ permitted (align_down addr) write exec σ' ∨ stuck (align_down addr) G' σ') → Q ok σ') →
  wp (handle_fault addr write exec) Q σ.
Proof using Type*.
  intros Hi Hroom Hstack HQ.
  assert (after_growth (regions (space σ)) addr = regions (space σ) → ¬ permitted (align_down addr) write exec σ → Q false σ) as Hno.
  { intros. apply (HQ false G); auto using same_contents_nothing, evolves_refl with fastros. }
  unfold handle_fault, after_growth in *. destruct (_ && _) eqn:Eu; simpl in *; [|wp_steps; apply Hno; [done|by eapply outside_user]].
  apply andb_true_iff in Eu as [Hlo _]. apply Z.leb_le, page_user in Hlo.
  set (page := align_down addr) in *. assert (aligned page) as Ha by apply align_down_spec. wp_steps.
  destruct (region_at (regions (space σ)) page) as [r|] eqn:Hr.
  { wp_steps. eapply (wp_checked_fault others G); [done..|]. intros ok G' σ' Hi' Hc Hsp Hok.
    apply (HQ ok G'); [done|by eapply same_contents_weaken; [|exact Hc]|apply Hsp|apply Hsp|].
    destruct ok; [done|]. destruct Hok as [Hok|]; [|by right]. left. intros Hp. apply Hok. eapply permitted_same; [apply Hsp|done]. }
  unfold try_grow_stack. wp_steps. destruct (grow_stack (regions (space σ)) page) as [[r rs]|] eqn:Hg.
  2:{ wp_steps. apply Hno; [done|]. intros (q & ? & _). congruence. }
  destruct (inv_grown others G σ page r rs) as (Hi1 & Hr1 & Hc1); [done..|].
  unfold upd_space. wp_steps. eapply (wp_checked_fault others G); [exact Hi1|done|done|done|].
  intros ok G' σ' Hi' Hc Hsp Hok. apply (HQ ok G'); [done| |by rewrite (ss_pml4 _ _ Hsp)|by rewrite (ss_regions _ _ Hsp)|].
  - eapply same_contents_trans; [exact Hc1|by eapply same_contents_weaken; [|exact Hc]].
  - destruct ok; [done|]. destruct Hok as [Hok|]; [|by right]. left. intros Hp. apply Hok. eapply permitted_same; [apply Hsp|done].
Qed.

(** ** Writing to a page *)

(** Writing to a mapped page changes exactly the pages with its identity, in
    every space. *)
Lemma poked_contents others G σ page r f bs p' sp p :
  inv K none others G σ → inv K none others G (with_phys p' σ) → mem p' = <[f := Page bs]> (mem (phys σ)) →
  region_at (regions (space σ)) page = Some r → pfn (get_pte (gmaps G) (pml4 (space σ), page)) = Some f →
  can_write (prot r) = true → has (get_pte (gmaps G) (pml4 (space σ), page)) COW = false →
  sp ∈ space σ :: others → is_Some (region_at (regions sp) p) →
  contents G (with_phys p' σ) sp p = if decide (ident sp p = ident (space σ) page) then Some bs else contents G σ sp p.
Proof using Type.
  intros Hi Hi' Hmem Hr Hf Hw Hcow Hsp [q Hq]. pose proof (iv_machine _ _ _ _ _ Hi) as Hm. pose proof (iv_machine _ _ _ _ _ Hi') as Hm'.
  assert (space_ok G σ sp ∧ space_ok G (with_phys p' σ) sp) as [Hok Hok'].
  { apply elem_of_cons in Hsp as [->|Hsp]; [split; [apply Hi|apply Hi']|].
    split; [apply (proj1 (Forall_forall _ _) (iv_others _ _ _ _ _ Hi) sp Hsp)|apply (proj1 (Forall_forall _ _) (iv_others _ _ _ _ _ Hi') sp Hsp)]. }
  assert (has (get_pte (gmaps G) (pml4 (space σ), page)) PRESENT = true) as Hpr by (unfold pfn in Hf; by destruct (has _ PRESENT)).
  assert (view (regions (space σ)) page = Some (prot r, grows_down r, source r page)) as Hv by (unfold view; by rewrite Hr).
  destruct (present_page _ _ _ _ _ _ _ _ _ _ Hi Hv eq_refl Hpr) as (_ & Hpte & _).
  assert (frame_bytes p' f = Some bs) as Hfb by (unfold frame_bytes; by rewrite Hmem, lookup_insert_eq).
  assert (∀ x, x ≠ f → frame_bytes p' x = frame_bytes (phys σ) x) as Hoth by (intros x Hx; unfold frame_bytes; by rewrite Hmem, lookup_insert_ne).
  (* contents of a private page not mapped to [f] *)
  assert (shared q = None → pfn (get_pte (gmaps G) (pml4 sp, p)) ≠ Some f → contents G (with_phys p' σ) sp p = contents G σ sp p) as Hkeep.
  { intros Hs Hne. unfold contents, data. simpl. destruct (pfn (get_pte (gmaps G) (pml4 sp, p))) as [x|] eqn:Ex.
    - apply Hoth. congruence.
    - destruct (swapped (get_pte (gmaps G) (pml4 sp, p))); [done|]. rewrite Hq. simpl. unfold first_touch. by rewrite Hs. }
  unfold ident. rewrite Hr, Hq. destruct (shared q) as [o'|] eqn:Eo'.
  - rewrite (contents_shared _ _ _ _ _ _ _ Hm' Hok' Hq Eo'), (contents_shared _ _ _ _ _ _ _ Hm Hok Hq Eo'). unfold obj_bytes. simpl.
    destruct (shared r) as [o|] eqn:Eo.
    + unfold pte_ok, source in Hpte. rewrite Hf, Eo in Hpte. destruct Hpte as (_ & _ & Hpg). case_decide as Ei.
      * injection Ei as -> ->. by rewrite Hpg.
      * destruct (pages σ !! (o', shared_base q + (p - start q))) as [x|] eqn:Ex; [|done]. apply Hoth. intros ->.
        pose proof (mc_inj _ _ _ _ Hm _ _ _ Ex Hpg). congruence.
    + rewrite decide_False by done. destruct (pages σ !! (o', shared_base q + (p - start q))) as [x|] eqn:Ex; [|done]. apply Hoth. intros ->.
      by eapply (private_unshared _ _ _ _ _ _ Hpte Hf (shared_none_private r page Eo)).
  - destruct (shared r) as [o|] eqn:Eo.
    + rewrite decide_False by done. apply Hkeep; [done|]. intros Hk.
      unfold pte_ok, source in Hpte. rewrite Hf, Eo in Hpte. destruct Hpte as (_ & _ & Hpg).
      destruct (so_pte _ _ _ Hok p (get_pte (gmaps G) (pml4 sp, p))) as (p0 & g0 & src0 & Hv0 & Hok0).
      { apply (maps_get _ _ _ _ _ _ Hm). split; [done|]. intros E. by rewrite E in Hk. }
      unfold view in Hv0. rewrite Hq in Hv0. simplify_eq/=.
      by eapply (private_unshared _ _ _ _ _ _ Hok0 Hk (shared_none_private q p Eo')).
    + assert (count (phys σ) f = 1) as Hc.
      { eapply private_exclusive; [exact Hpte|done|by apply shared_none_private|done|done]. }
      destruct (exclusive _ _ _ _ _ _ Hm Hf Hc) as (_ & Huniq & _). case_decide as Ei.
      * injection Ei as Ep ->. unfold contents, data. rewrite Ep, Hf. done.
      * apply Hkeep; [done|]. intros Hk%Huniq. congruence.
Qed.
Lemma wp_poke others G σ page r f bs Q :
  inv K none others G σ → region_at (regions (space σ)) page = Some r → pfn (get_pte (gmaps G) (pml4 (space σ), page)) = Some f →
  can_write (prot r) = true → has (get_pte (gmaps G) (pml4 (space σ), page)) COW = false → length bs = Z.to_nat PAGE_SIZE →
  (∀ p', inv K none others G (with_phys p' σ) → refs p' = refs (phys σ) →
     (∀ sp p, sp ∈ space σ :: others → is_Some (region_at (regions sp) p) →
        contents G (with_phys p' σ) sp p = if decide (ident sp p = ident (space σ) page) then Some bs else contents G σ sp p) →
     Q tt (with_phys p' σ)) →
  wp (on_phys (write_frame f (Page bs))) Q σ.
Proof using Type.
  intros Hi Hr Hf Hw Hcow Hl HQ. pose proof (inv_phys _ _ _ _ _ Hi) as Hp. pose proof (iv_machine _ _ _ _ _ Hi) as Hm.
  destruct (mapped_frame _ _ _ _ _ _ _ _ _ Hp Hf) as (Hc & _). apply wp_on_phys.
  eapply (wp_write_page K); [exact Hp|lia|done|]. intros p' Hp' Hmem Hrefs.
  assert (∀ x, count p' x = count (phys σ) x) as Ec by (intros; unfold count; by rewrite Hrefs).
  assert (machine K none G (with_phys p' σ)) as Hm'.
  { assert (machine K none (on_frames (gF G) (gU G) (gown G) G) (with_phys p' σ)); [|by destruct G]. by apply (machine_frames K none). }
  assert (evolves (λ _, True) G σ G (with_phys p' σ)) as Hev.
  { split; try done; [|naive_solver..]. intros k x _ _. by rewrite Ec. }
  assert (inv K none others G (with_phys p' σ)) as Hi'.
  { eapply inv_step; [exact Hi|exact Hev|done|]. destruct (iv_space _ _ _ _ _ Hi) as [? ? ? Hpte]. split; try done. simpl.
    intros va e Hk. destruct (Hpte va e Hk) as (p & g & src & Hv & Hok). exists p, g, src. split; [done|].
    eapply pte_ok_mono; [exact Hok|done| |done]. intros x _. by rewrite Ec. }
  apply HQ; [done|done|]. intros sp p Hsp Hq. by eapply poked_contents.
Qed.

(** ** An abstract memory *)

(** A byte of a page, by the page's identity. *)
Definition cell sp (a : Z) : Ident * Z := (ident sp (align_down a), a mod PAGE_SIZE).

Definition user_byte G σ sp (a : Z) : option Z := bs ← contents G σ sp (align_down a); bs !! Z.to_nat (a mod PAGE_SIZE).

(** The machine shows memory [m] to all its spaces. *)
Definition shows others (m : Ident * Z → option Z) G σ : Prop :=
  ∀ sp a, sp ∈ space σ :: others → is_Some (region_at (regions sp) a) → user_byte G σ sp a = m (cell sp a).

(** [m] with the bytes [bs] written at [a ..], through [c]. *)
Fixpoint poke_all (c : Z → Ident * Z) (a : Z) (bs : list Z) (m : Ident * Z → option Z) : Ident * Z → option Z :=
  match bs with
  | [] => m
  | b :: bs' => poke_all c (a + 1) bs' (λ x, if decide (x = c a) then Some b else m x)
  end.

Lemma poke_all_app c a bs bs' m x :
  poke_all c a (bs ++ bs') m x = poke_all c (a + Z.of_nat (length bs)) bs' (poke_all c a bs m) x.
Proof using Type.
  revert a m. induction bs as [|b bs IH]; intros a m; simpl; [by rewrite Z.add_0_r|].
  rewrite IH. f_equal. lia.
Qed.

Lemma poke_all_cells c c' a bs m x : (∀ y, c y = c' y) → poke_all c a bs m x = poke_all c' a bs m x.
Proof using Type. intros Hc. revert a m. induction bs as [|b bs IH]; intros a m; simpl; [done|]. by rewrite IH, Hc. Qed.

(** Bytes of one page land at their offsets. *)
Lemma poke_all_page c i o bs : ∀ a m, 
  (∀ j, 0 ≤ j < Z.of_nat (length bs) → c (a + j) = (i, o + j)) → 0 ≤ o →
  ∀ i' o', poke_all c a bs m (i', o') =
    if decide (i' = i ∧ o ≤ o' < o + Z.of_nat (length bs)) then bs !! Z.to_nat (o' - o) else m (i', o').
Proof using Type.
  revert o. induction bs as [|b bs IH]; intros o a m Hc Ho i' o'; cbn [poke_all length].
  { case_decide; [lia|done]. }
  rewrite (IH (o + 1)); [|intros j Hj; replace (a + 1 + j) with (a + (j + 1)) by lia; rewrite Hc by (simpl; lia); f_equal; lia|lia].
  pose proof (Hc 0 ltac:(simpl; lia)) as H0'. rewrite !Z.add_0_r in H0'.
  destruct (decide (i' = i ∧ o + 1 ≤ o' < o + 1 + Z.of_nat (length bs))) as [[-> Hr]|Hn].
  - rewrite decide_True by (split; [done|lia]). replace (Z.to_nat (o' - o)) with (S (Z.to_nat (o' - (o + 1)))) by lia. done.
  - rewrite H0'. destruct (decide ((i', o') = (i, o))) as [[= -> ->]|Hne].
    + rewrite decide_True by (split; [done|lia]). by rewrite Z.sub_diag.
    + rewrite decide_False; [done|]. intros [-> Hr]. apply Hne. f_equal. assert (¬ (o + 1 ≤ o')) by (intros ?; apply Hn; split; [done|lia]). lia.
Qed.

(** Faults keep the memory shown. *)
Lemma shows_same others m G σ G' σ' :
  shows others m G σ → same_contents others any G σ G' σ' → same_space (space σ) (space σ') → shows others m G' σ'.
Proof using Type.
  intros Hm [Ho Hs] Hsp sp a Hin Hr. apply elem_of_cons in Hin as [->|Hin].
  - assert (cell (space σ') a = cell (space σ) a) as -> by (unfold cell, ident; by rewrite (ss_regions _ _ Hsp), (ss_pml4 _ _ Hsp)).
    rewrite (ss_regions _ _ Hsp) in Hr. rewrite <- (Hm (space σ) a) by (done || by left). unfold user_byte.
    by rewrite Hs.
  - rewrite <- (Hm sp a) by (done || by right). unfold user_byte. by rewrite Ho.
Qed.

Lemma splice_lookup (pg bs : list Z) off i : (off + length bs ≤ length pg)%nat →
  splice pg off bs !! i = if decide (off ≤ i < off + length bs)%nat then bs !! (i - off)%nat else pg !! i.
Proof using Type.
  intros Hl. unfold splice. destruct (decide (i < off)%nat) as [Hlt|Hge].
  - rewrite lookup_app_l by (rewrite length_take; lia). rewrite lookup_take_lt by done. rewrite decide_False by lia. done.
  - rewrite lookup_app_r by (rewrite length_take; lia). rewrite length_take, Nat.min_l by lia. case_decide.
    + rewrite lookup_app_l by lia. done.
    + rewrite lookup_app_r by lia. rewrite lookup_drop. f_equal. lia.
Qed.

Lemma splice_length (pg bs : list Z) off : (off + length bs ≤ length pg)%nat → length (splice pg off bs) = length pg.
Proof using Type. intros Hl. unfold splice. rewrite !length_app, length_take, length_drop. lia. Qed.

(** ** Through the direct map *)

Lemma wp_phys_of h others G σ va page r f Q :
  inv K h others G σ → region_at (regions (space σ)) page = Some r → page = align_down va →
  pfn (get_pte (gmaps G) (pml4 (space σ), page)) = Some f → Q (Some (f + va mod PAGE_SIZE)) σ → wp (phys_of va) Q σ.
Proof using Type.
  intros Hi Hr -> Hf HQ. assert (aligned (align_down va)) as Hal by apply align_down_spec.
  destruct (region_page _ _ _ _ _ _ _ Hi Hr Hal) as (Hok & Hva & _ & _ & [Hroot Huser _]).
  pose proof (inv_phys _ _ _ _ _ Hi) as Hp. pose proof (pi_wf _ _ _ _ (ph_paging _ _ _ _ _ _ _ Hp)) as Hwf.
  assert (user_va va) as Huv.
  { pose proof (align_down_spec va) as [_ Hb]. pose proof (ok_low r Hok). pose proof (ok_high r Hok). unfold user_va, USER_START, USER_END, PAGE_SIZE in *.
    assert (align_down va < 0x7FFFFFFFF000) as Hlt by lia. apply (page_aligned_le _ 0x7FFFFFFFF000 Hal) in Hlt; [unfold PAGE_SIZE in *; lia|done]. }
  assert (pte (phys σ) (pml4 (space σ)) va = get_pte (gmaps G) (pml4 (space σ), align_down va)) as Epte.
  { rewrite <- (pa_pte _ _ _ (ph_abs _ _ _ _ _ _ _ Hp)) by done.
    assert (align_down va = align_down (align_down va)) as Hsame by (rewrite (align_down_val (align_down va)); unfold aligned in Hal; lia).
    apply same_page_iff in Hsame as [E1 E2]. destruct (leaf_entry_ok _ _ _ va Hwf Huv Hroot) as (o & _ & Ho).
    destruct o as [[t i]|]; simpl in Ho.
    - destruct Ho as (-> & Ht & es & Hes & ->). rewrite E2. symmetry. eapply pte_own; try done. by rewrite <- E1.
    - destruct Ho as [-> Hno]. symmetry. eapply pte_missing; try done. by rewrite <- E1. }
  unfold phys_of. wp_step. apply wp_root. wp_step. apply wp_on_phys. unfold wp. rewrite (translate_leaf _ _ _ va Hwf Hroot Huv), Epte.
  unfold pfn in Hf. destruct (has _ PRESENT); [|done]. injection Hf as <-. by rewrite with_phys_id.
Qed.

Lemma frame_offset f o : frame_addr f → 0 ≤ o < PAGE_SIZE → align_down (f + o) = f ∧ (f + o) mod PAGE_SIZE = o.
Proof using Type.
  intros [Hf _] Ho. assert ((f + o) mod PAGE_SIZE = o) as E by (rewrite <- Z.add_mod_idemp_l, Hf, Z.add_0_l, Z.mod_small by done; done).
  split; [|done]. rewrite align_down_val, E. lia.
Qed.
(** ** Copying to user memory *)

Lemma same_cell (s s' : AddressSpace F) a : same_space s s' → cell s' a = cell s a.
Proof using Type. intros Hs. unfold cell, ident. by rewrite (ss_regions _ _ Hs), (ss_pml4 _ _ Hs). Qed.

Lemma mod_of_page va j : 0 ≤ j < PAGE_SIZE - va mod PAGE_SIZE → align_down (va + j) = align_down va ∧ (va + j) mod PAGE_SIZE = va mod PAGE_SIZE + j.
Proof using Type.
  intros Hj. pose proof (Z.mod_pos_bound va PAGE_SIZE ltac:(done)).
  assert ((va + j) mod PAGE_SIZE = va mod PAGE_SIZE + j) as E by (rewrite <- Z.add_mod_idemp_l, Z.mod_small by (done || lia); done).
  split; [|done]. rewrite !align_down_val, E. lia.
Qed.

Lemma fault_shows others m G σ page r write G' σ' :
  inv K none others G σ → shows others m G σ → faulted page r write G σ G' σ' → region_at (regions (space σ)) page = Some r → shows others m G' σ'.
Proof using Type.
  intros Hi Hm Hf Hr. eapply shows_same; [exact Hm|by eapply same_contents_faulted|apply Hf].
Qed.

Lemma nothing_shows others m G σ G' σ' :
  shows others m G σ → evolves nothing G σ G' σ' → same_space (space σ) (space σ') → shows others m G' σ'.
Proof using Type. intros Hm He Hs. eapply shows_same; [exact Hm|by apply same_contents_nothing|done].
Qed.

Lemma space_regions h others G σ sp : inv K h others G σ → sp ∈ space σ :: others → regions_wf (regions sp).
Proof using Type.
  intros Hi [->|Hin]%elem_of_cons; [apply (iv_space _ _ _ _ _ Hi)|]. apply (proj1 (Forall_forall _ _) (iv_others _ _ _ _ _ Hi) sp Hin).
Qed.

(** The memory after the bytes of one page were stored. *)
Lemma poke_shows others m G σ va page r pg bs p' :
  inv K none others G σ → shows others m G σ → page = align_down va → region_at (regions (space σ)) page = Some r →
  contents G σ (space σ) page = Some pg → length pg = Z.to_nat PAGE_SIZE → Z.of_nat (length bs) ≤ PAGE_SIZE - va mod PAGE_SIZE →
  (∀ sp p, sp ∈ space σ :: others → is_Some (region_at (regions sp) p) →
     contents G (with_phys p' σ) sp p =
       if decide (ident sp p = ident (space σ) page) then Some (splice pg (Z.to_nat (va mod PAGE_SIZE)) bs) else contents G σ sp p) →
  shows others (poke_all (cell (space σ)) va bs m) G (with_phys p' σ).
Proof using Type.
  intros Hi Hm Hpg Hr Hc Hl Hn Hpoke sp a Hin Hra. set (off := va mod PAGE_SIZE) in *.
  assert (0 ≤ off < PAGE_SIZE) as Hoff by (apply Z.mod_pos_bound; done). pose proof (Z.mod_pos_bound a PAGE_SIZE ltac:(done)) as Hai.
  rewrite (surjective_pairing (cell sp a)). unfold cell at 2 3. simpl.
  rewrite (poke_all_page (cell (space σ)) (ident (space σ) page) off bs va m).
  2:{ intros j Hj. unfold cell. destruct (mod_of_page va j) as [-> ->]; [lia|]. by rewrite <- Hpg. }
  2:{ lia. }
  unfold user_byte. pose proof (space_regions _ _ _ _ _ Hi Hin) as [Hall _].
  rewrite Hpoke; [|done|by rewrite region_at_page]. case_decide as Ei.
  - simpl. rewrite splice_lookup by lia. case_decide as Ein.
    + rewrite decide_True by (split; [done|lia]). f_equal. lia.
    + rewrite decide_False by lia. rewrite Ei.
      assert (aligned page) as Hal by (rewrite Hpg; apply align_down_spec).
      destruct (mod_of_page page (a mod PAGE_SIZE)) as [E1 E2]; [unfold aligned in Hal; rewrite Hal; lia|].
      assert (align_down page = page) as Epp by (rewrite align_down_val; unfold aligned in Hal; lia). unfold aligned in Hal.
      pose proof (Hm (space σ) (page + a mod PAGE_SIZE) ltac:(by left)) as Hown. unfold user_byte, cell in Hown. rewrite E1, E2, Epp, Hal, Hc in Hown.
      rewrite Z.add_0_l in Hown. apply Hown. rewrite <- region_at_page by apply (space_regions _ _ _ _ _ Hi ltac:(by left)). rewrite E1, Epp, Hr. eauto.
  - rewrite decide_False by (intros [? _]; done). by apply Hm.
Qed.

Lemma next_pages va len n : 0 < len → n = Z.min (PAGE_SIZE - va mod PAGE_SIZE) len → 0 < len - n →
  Z.of_nat (pages_between (align_down (va + n)) (va + n + (len - n))) = Z.of_nat (pages_between (align_down va) (va + len)) - 1.
Proof using Type.
  intros Hl -> Hr. pose proof (Z.mod_pos_bound va PAGE_SIZE ltac:(done)). assert (Z.min (PAGE_SIZE - va mod PAGE_SIZE) len = PAGE_SIZE - va mod PAGE_SIZE) as -> by lia.
  assert (align_down (va + (PAGE_SIZE - va mod PAGE_SIZE)) = align_down va + PAGE_SIZE) as ->.
  { rewrite !align_down_val. replace (va + (PAGE_SIZE - va mod PAGE_SIZE)) with (va - va mod PAGE_SIZE + 1 * PAGE_SIZE) by lia.
    rewrite Z.mod_add by done. rewrite Zminus_mod_idemp_r, Z.sub_diag, Z.mod_0_l by done. lia. }
  unfold pages_between. rewrite align_down_val. replace (va + (PAGE_SIZE - va mod PAGE_SIZE) + (len - (PAGE_SIZE - va mod PAGE_SIZE))) with (va + len) by lia.
  replace (va + len - (va - va mod PAGE_SIZE) + PAGE_SIZE - 1) with (va + len - (va - va mod PAGE_SIZE + PAGE_SIZE) + PAGE_SIZE - 1 + 1 * PAGE_SIZE) by lia.
  rewrite Z.div_add by done. assert (0 ≤ (va + len - (va - va mod PAGE_SIZE + PAGE_SIZE) + PAGE_SIZE - 1) / PAGE_SIZE) by (apply Z.div_pos; lia). lia.
Qed.

Lemma some_pages va len : 0 < len → 1 ≤ Z.of_nat (pages_between (align_down va) (va + len)).
Proof using Type.
  intros Hl. unfold pages_between. rewrite align_down_val. pose proof (Z.mod_pos_bound va PAGE_SIZE ltac:(done)).
  assert (1 ≤ (va + len - (va - va mod PAGE_SIZE) + PAGE_SIZE - 1) / PAGE_SIZE) by (apply Z.div_le_lower_bound; lia). lia.
Qed.

(** The frame behind a page that was faulted in. *)
Lemma faulted_frame others G σ G1 σ1 page r write :
  inv K none others G1 σ1 → faulted page r write G σ G1 σ1 → region_at (regions (space σ)) page = Some r → aligned page →
  ∃ f pg, pfn (get_pte (gmaps G1) (pml4 (space σ1), page)) = Some f ∧ frame_addr f ∧ mem (phys σ1) !! f = Some (Page pg) ∧
    length pg = Z.to_nat PAGE_SIZE ∧ contents G1 σ1 (space σ1) page = Some pg ∧ region_at (regions (space σ1)) page = Some r ∧
    (write = true → has (get_pte (gmaps G1) (pml4 (space σ1), page)) COW = false) ∧ page + PAGE_SIZE < U64.
Proof using Type.
  intros Hi1 Hf Hr Hal. pose proof (fl_space _ _ _ _ _ _ _ Hf) as Hsp1. destruct (fl_present _ _ _ _ _ _ _ Hf) as [f Hpf].
  rewrite <- (ss_pml4 _ _ Hsp1) in Hpf. rewrite <- (ss_regions _ _ Hsp1) in Hr. pose proof (inv_phys _ _ _ _ _ Hi1) as Hp1.
  destruct (mapped_bytes K _ G1 σ1 _ f (iv_machine _ _ _ _ _ Hi1) Hpf) as (pg & Hpg & Hlpg).
  destruct (mapped_frame _ _ _ _ _ _ _ _ _ Hp1 Hpf) as (_ & HU & _). exists f, pg. split_and!; try done.
  - eapply (fa_addr (gF G1) (gU G1)); [apply (pi_rep _ _ _ _ (ph_paging _ _ _ _ _ _ _ Hp1))|set_solver +HU].
  - unfold contents. rewrite (data_present _ _ _ _ Hpf). unfold frame_bytes. by rewrite Hpg.
  - rewrite (ss_pml4 _ _ Hsp1). apply Hf.
  - destruct (region_page _ _ _ _ _ _ _ Hi1 Hr Hal) as (Hok & Hva & _). pose proof (ok_high r Hok). unfold U64, USER_END, PAGE_SIZE in *. lia.
Qed.

(** Why access to [page] was refused with [e]. *)
Definition refused (e : Errno) (page : Z) (write : bool) G σ : Prop := e = EFAULT ∧ ¬ allowed page write σ ∨ stuck page G σ.

Lemma refused_after e page write G' σ σ' :
  same_space (space σ) (space σ') → e = EFAULT ∧ ¬ allowed page write σ ∨ stuck page G' σ' → refused e page write G' σ'.
Proof using Type. intros Hsp [[-> Hn]|]; [left|by right]. split; [done|]. unfold allowed in *. by rewrite (ss_regions _ _ Hsp). Qed.

Lemma wp_write_loop others fuel : ∀ G σ va dat m N (c : Z → Ident * Z) Q,
  inv K none others G σ → shows others m G σ → (length dat < fuel)%nat → room N (phys σ) → (∀ a, c a = cell (space σ) a) →
  (dat ≠ [] → Z.of_nat (pages_between (align_down va) (va + Z.of_nat (length dat))) ≤ N) →
  (∀ res G' σ' n, inv K none others G' σ' → same_space (space σ) (space σ') → (n ≤ length dat)%nat →
     match res with inr _ => n = length dat | inl e => refused e (align_down (va + Z.of_nat n)) true G' σ' end →
     shows others (poke_all c va (take n dat) m) G' σ' → Q res σ') →
  wp (write_loop fuel va dat) Q σ.
Proof using Type*.
  induction fuel as [|fuel IH]; intros G σ va dat m N c Q Hi Hm Hfuel Hroom Hcell HN HQ; [lia|]. cbn [write_loop].
  destruct dat as [|b0 dat0]; [wp_steps; apply (HQ (inr tt) G σ 0%nat); auto with fastros|]. set (dat := b0 :: dat0) in *.
  set (page := align_down va). set (len := Z.of_nat (length dat)) in *. assert (0 < len) as Hlen by (unfold len, dat; simpl; lia).
  specialize (HN ltac:(done)). pose proof (some_pages va len Hlen). pose proof (Z.mod_pos_bound va PAGE_SIZE ltac:(done)) as Hoff.
  assert (va - page = va mod PAGE_SIZE) as Epage by (unfold page; rewrite align_down_val; lia). rewrite Epage.
  set (n := Z.min (PAGE_SIZE - va mod PAGE_SIZE) len). assert (aligned page) as Hal by apply align_down_spec.
  apply wp_try. eapply (wp_fault_in K others G); [done|done|eapply room_le; [|exact Hroom]; lia| |].
  2:{ intros G' σ' e Hi' Hev Hsp Hwhy. apply (HQ (inl e) G' σ' 0%nat); [done|done|lia|rewrite Z.add_0_r; by eapply refused_after|]. exact (nothing_shows others m G σ G' σ' Hm Hev Hsp). }
  intros r G1 σ1 Hr Hw Hi1 Hf. pose proof (fl_space _ _ _ _ _ _ _ Hf) as Hsp1. pose proof (fault_shows _ _ _ _ _ _ _ _ _ Hi Hm Hf Hr) as Hm1.
  destruct (faulted_frame others G σ G1 σ1 page r true Hi1 Hf Hr Hal) as (f & pg & Hpf & Hfa & Hpg & Hlpg & Hcont & Hr1 & Hcow & Hend).
  wp_step. eapply (wp_phys_of _ _ _ σ1 va page r f); [done..|]. apply wp_try. unfold ok_or. wp_steps.
  destruct (frame_offset f (va mod PAGE_SIZE) Hfa Hoff) as [Ef Eo]. unfold store_bytes. wp_step. unfold page_bytes. wp_steps.
  rewrite Ef, Hpg. wp_steps. rewrite Eo. set (bs := take (Z.to_nat n) dat).
  assert (Z.of_nat (length bs) = n) as Hbs by (unfold bs; rewrite length_take; lia).
  eapply (wp_poke others G1 σ1 page r f); [done|done|done|by apply Hw|by apply Hcow|rewrite splice_length; lia|]. intros p2 Hi2 Hrefs Hpoke.
  pose proof (poke_shows others m G1 σ1 va page r pg bs p2 Hi1 Hm1 eq_refl Hr1 Hcont Hlpg ltac:(lia) Hpoke) as Hm2.
  rewrite add64_ok by lia. wp_step. eapply wp_need; [done|].
  eapply (IH G1 (with_phys p2 σ1) (va + n) (drop (Z.to_nat n) dat) (poke_all c va bs m) (N - 1) c); try done.
  - intros sp a Hin Hra. rewrite (Hm2 sp a Hin Hra). apply poke_all_cells. intros x. rewrite Hcell. by apply same_cell.
  - rewrite length_drop. simpl in Hfuel. unfold dat in *. simpl in *. lia.
  - apply (room_grows N 1 (phys σ)); [lia| |done]. intros x. pose proof (fl_counts _ _ _ _ _ _ _ Hf x) as Hg. unfold count in *. simpl. by rewrite Hrefs.
  - intros a. rewrite Hcell. symmetry. by apply same_cell.
  - intros Hne. assert (0 < len - n) as Hmore.
    { destruct (Z.lt_ge_cases 0 (len - n)) as [|Hle]; [done|]. exfalso. apply Hne. apply drop_ge. lia. }
    rewrite length_drop. replace (Z.of_nat (length dat - Z.to_nat n)) with (len - n) by lia. rewrite (next_pages va len n) by done. lia.
  - intros res G3 σ3 k Hi3 Hsp3 Hk Hres Hm3. apply (HQ res G3 σ3 (Z.to_nat n + k)%nat); [done|by eapply same_space_trans| | |].
    + rewrite length_drop in Hk. lia.
    + destruct res; [|by rewrite Hres, length_drop; lia]. replace (va + Z.of_nat (Z.to_nat n + k)) with (va + n + Z.of_nat k) by lia. done.
    + intros sp a Hin Hra. rewrite (Hm3 sp a Hin Hra), <- take_take_drop. fold bs. rewrite poke_all_app. by rewrite Hbs.
Qed.
(** ** Copying from user memory *)

Lemma wp_read_loop others fuel : ∀ G σ va len N Q,
  inv K none others G σ → 0 ≤ len < Z.of_nat fuel → room N (phys σ) →
  (0 < len → Z.of_nat (pages_between (align_down va) (va + len)) ≤ N) →
  (∀ res G' σ', inv K none others G' σ' → same_space (space σ) (space σ') → same_contents others any G σ G' σ' →
     match res with
     | inr bs => length bs = Z.to_nat len ∧ ∀ i, 0 ≤ i < len → bs !! Z.to_nat i = user_byte G σ (space σ) (va + i)
     | inl e => ∃ i, 0 ≤ i < len ∧ refused e (align_down (va + i)) false G' σ'
     end → Q res σ') →
  wp (read_loop fuel va len) Q σ.
Proof using Type*.
  induction fuel as [|fuel IH]; intros G σ va len N Q Hi Hfuel Hroom HN HQ; [lia|]. cbn [read_loop].
  assert (same_contents others any G σ G σ) as Hrefl by (apply same_contents_nothing; auto using evolves_refl with fastros).
  destruct (Z.leb_spec len 0) as [Hle|Hlen].
  { wp_steps. apply (HQ (inr []) G σ); auto with fastros. split; [simpl; lia|lia]. }
  set (page := align_down va). specialize (HN Hlen). pose proof (some_pages va len Hlen). pose proof (Z.mod_pos_bound va PAGE_SIZE ltac:(done)) as Hoff.
  assert (va - page = va mod PAGE_SIZE) as Epage by (unfold page; rewrite align_down_val; lia). rewrite Epage.
  set (n := Z.min (PAGE_SIZE - va mod PAGE_SIZE) len). assert (aligned page) as Hal by apply align_down_spec.
  apply wp_try. eapply (wp_fault_in K others G); [done|done|eapply room_le; [|exact Hroom]; lia| |].
  2:{ intros G' σ' e Hi' Hev Hsp Hwhy. apply (HQ (inl e) G' σ'); [done|done|by apply same_contents_nothing|].
      exists 0. split; [lia|]. rewrite Z.add_0_r. by eapply refused_after. }
  intros r G1 σ1 Hr Hw Hi1 Hf. pose proof (fl_space _ _ _ _ _ _ _ Hf) as Hsp1.
  pose proof (same_contents_faulted others any _ _ _ _ _ _ _ Hi Hf Hr) as Hc1.
  destruct (faulted_frame others G σ G1 σ1 page r false Hi1 Hf Hr Hal) as (f & pg & Hpf & Hfa & Hpg & Hlpg & Hcont & Hr1 & _ & Hend).
  wp_step. eapply (wp_phys_of _ _ _ σ1 va page r f); [done..|]. apply wp_try. unfold ok_or. wp_steps.
  destruct (frame_offset f (va mod PAGE_SIZE) Hfa Hoff) as [Ef Eo]. unfold load_bytes. wp_step. unfold page_bytes. wp_steps.
  rewrite Ef, Hpg. wp_steps. rewrite Eo, add64_ok by lia. eapply wp_need; [done|]. set (bs := take (Z.to_nat n) (drop (Z.to_nat (va mod PAGE_SIZE)) pg)).
  assert (Z.of_nat (length bs) = n) as Hbs by (unfold bs; rewrite length_take, length_drop; lia).
  assert (∀ a, user_byte G1 σ1 (space σ1) a = user_byte G σ (space σ) a) as Hub by (intros a; unfold user_byte; by rewrite (proj2 Hc1)).
  apply wp_try. eapply (IH G1 σ1 (va + n) (len - n) (N - 1)); [done|lia| | |].
  - apply (room_grows N 1 (phys σ)); [lia|apply Hf|done].
  - intros Hmore. rewrite (next_pages va len n) by done. lia.
  - intros res G2 σ2 Hi2 Hsp2 Hc2 Hres.
    assert (same_contents others any G σ G2 σ2) as Hc by (by eapply same_contents_trans).
    assert (same_space (space σ) (space σ2)) as Hsp by (by eapply same_space_trans).
    destruct res as [e|rest].
    { apply (HQ (inl e) G2 σ2); [done..|]. destruct Hres as (i & Hir & Hwhy). exists (n + i). split; [lia|]. by replace (va + (n + i)) with (va + n + i) by lia. }
    wp_steps. apply (HQ (inr (bs ++ rest)) G2 σ2); [done..|].
    destruct Hres as [Hl2 Hb2]. split; [rewrite length_app; lia|]. intros i Hi'. destruct (Z.lt_ge_cases i n) as [Hin|Hge].
    + rewrite lookup_app_l by lia. unfold bs. rewrite lookup_take_lt, lookup_drop by lia. rewrite <- Hub. unfold user_byte.
      destruct (mod_of_page va i) as [-> ->]; [lia|]. fold page. rewrite Hcont. simpl. f_equal. lia.
    + rewrite lookup_app_r by lia. replace (Z.to_nat i - length bs)%nat with (Z.to_nat (i - n)) by lia. rewrite Hb2 by lia.
      rewrite Hub. f_equal. lia.
Qed.
End Mem.

(** ** What programs and the kernel see *)

Section Theorems.
Context {A D F : Type} `{FrameAllocatorLaws A} `{BlockDeviceLaws D} `{MappedFile F}.
Context (K : gset Z).
Implicit Types (σ : St A D F) (G : Ghost) (others : list (AddressSpace F)).

(** C14. A page fault is invisible: every page of every space keeps its contents,
    whatever was allocated, copied, swapped out or read back on the way.  When it
    reports success the page is present with exactly its region's permissions and
    the access can be retried; it is refused only when the region forbids the
    access, memory or the container's limit is exhausted, or the swap device
    fails.  It does not panic as long as no frame has the 65535 references that a
    count can hold, where taking one more overflows, and no stack region has an
    object offset of [2^63] or more, which only [mprotect] calls add to. *)
Theorem fault_transparent others G σ addr write exec :
  inv K none others G σ → room 1 (phys σ) → stack_room (regions (space σ)) →
  wp (handle_fault addr write exec) (λ ok σ', ∃ G',
    inv K none others G' σ' ∧ same_contents others (in_region σ) G σ G' σ' ∧
    regions (space σ') = after_growth (regions (space σ)) addr ∧
    if ok then resolved (align_down addr) write exec G' σ'
    else ¬ permitted (align_down addr) write exec σ' ∨ stuck (align_down addr) G' σ') σ.
Proof using Type*. intros Hi Hr Hs. eapply (wp_handle_fault K others G); [done..|]. intros ok G' σ' Hi' Hc _ Hrs Hok. by exists G'. Qed.

(** C13. Copying into user memory is a write to an abstract memory that all
    spaces share: it stores exactly the given bytes at the given addresses,
    through the page identities, so private pages of other spaces never change
    and shared pages change in every space that maps them.  On an error the
    bytes before the refused page are stored, and nothing else. *)
Theorem copy_to_user others G σ addr data m :
  inv K none others G σ → shows others m G σ → room (Z.of_nat (pages_between (align_down addr) (addr + Z.of_nat (length data)))) (phys σ) →
  wp (write addr data) (λ res σ', ∃ G' n,
    inv K none others G' σ' ∧ same_space (space σ) (space σ') ∧ (n ≤ length data)%nat ∧
    shows others (poke_all (cell (space σ)) addr (take n data) m) G' σ' ∧
    match res with
    | inr _ => n = length data
    | inl e => refused e (align_down (addr + Z.of_nat n)) true G' σ'
    end) σ.
Proof using Type*.
  intros Hi Hm Hr. eapply (wp_write_loop K others _ G σ addr data m _ (cell (space σ))); [done|done|lia|exact Hr|done|done|].
  intros res G' σ' n Hi' Hsp Hn Hres Hm'. by exists G', n.
Qed.

(** C20. Copying from user memory returns exactly the bytes the program sees
    at those addresses, whether they are in a frame, in a file, in swap or
    still zero, and changes the contents of no page. *)
Theorem copy_from_user others G σ addr len :
  inv K none others G σ → 0 ≤ len → room (Z.of_nat (pages_between (align_down addr) (addr + len))) (phys σ) →
  wp (read addr len) (λ res σ', ∃ G',
    inv K none others G' σ' ∧ same_space (space σ) (space σ') ∧ same_contents others any G σ G' σ' ∧
    match res with
    | inr bs => length bs = Z.to_nat len ∧ ∀ i, 0 ≤ i < len → bs !! Z.to_nat i = user_byte G σ (space σ) (addr + i)
    | inl e => ∃ i, 0 ≤ i < len ∧ refused e (align_down (addr + i)) false G' σ'
    end) σ.
Proof using Type*.
  intros Hi Hl Hr. eapply (wp_read_loop K others _ G σ addr len); [done|lia|exact Hr|done|].
  intros res G' σ' Hi' Hsp Hc Hres. by exists G'.
Qed.

(** The memory a machine with the spaces [l] shows. *)
Definition memory_of (l : list (AddressSpace F)) G σ (x : Ident * Z) : option Z :=
  bs ← match x.1 with
       | Private root page => sp ← list_find (λ sp, pml4 sp = root) l; contents G σ sp.2 page
       | InObject obj off => obj_bytes σ (obj, off)
       end; bs !! Z.to_nat x.2.

Lemma find_root (l : list (AddressSpace F)) sp : NoDup (pml4 <$> l) → sp ∈ l → ∃ i, list_find (λ sp', pml4 sp' = pml4 sp) l = Some (i, sp).
Proof using Type.
  intros Hnd [i Hi]%list_elem_of_lookup. exists i. apply list_find_Some. split_and!; [done|done|]. intros j y Hj Hlt Hy.
  assert (j = i) as ->; [|lia]. eapply NoDup_lookup; [exact Hnd|by rewrite list_lookup_fmap, Hj|rewrite list_lookup_fmap, Hi; simpl; by rewrite Hy].
Qed.

Lemma shows_all h others G σ : inv K h others G σ → NoDup (pml4 <$> space σ :: others) → shows others (memory_of (space σ :: others) G σ) G σ.
Proof using Type.
  intros Hi Hnd sp a Hin [r Hr]. assert (space_ok G σ sp) as Hok.
  { apply elem_of_cons in Hin as [->|Hin]; [apply Hi|]. pose proof (iv_others _ _ _ _ _ Hi) as Ho. rewrite Forall_forall in Ho. by apply Ho. }
  assert (region_at (regions sp) (align_down a) = Some r) as Hr' by (rewrite region_at_page; [done|]; apply Hok).
  destruct (find_root _ sp Hnd Hin) as [i Hf]. unfold user_byte, memory_of, cell, ident. simpl in *. rewrite Hr'.
  destruct (shared r) as [o|] eqn:Ho; simpl; [|by rewrite Hf].
  by rewrite (contents_shared K h G σ sp (align_down a) r o (iv_machine _ _ _ _ _ Hi) Hok Hr' Ho).
Qed.
End Theorems.

#[local] Opaque demo_frame.

Lemma fault_transparent_witness :
  wp (handle_fault 0x400010 true false) (λ ok σ', ∃ G',
    inv ∅ none [] G' σ' ∧ same_contents [] (in_region demo_st) demo_ghost demo_st G' σ' ∧
    regions (space σ') = after_growth (regions (space demo_st)) 0x400010 ∧
    if ok then resolved (align_down 0x400010) true false G' σ'
    else ¬ permitted (align_down 0x400010) true false σ' ∨ stuck (align_down 0x400010) G' σ') demo_st.
Proof.
  apply (fault_transparent ∅ [] demo_ghost demo_st 0x400010 true false demo_inv); [by apply demo_room|apply demo_stack_room].
Defined.

Lemma copy_to_user_witness :
  wp (write 0x400ffe [1; 2; 3; 4]) (λ res σ', ∃ G' n,
    inv ∅ none [] G' σ' ∧ same_space (space demo_st) (space σ') ∧ (n ≤ 4)%nat ∧
    shows [] (poke_all (cell (space demo_st)) 0x400ffe (take n [1; 2; 3; 4]) (memory_of [demo_space] demo_ghost demo_st)) G' σ' ∧
    match res with
    | inr _ => n = 4%nat
    | inl e => refused e (align_down (0x400ffe + Z.of_nat n)) true G' σ'
    end) demo_st.
Proof.
  apply (copy_to_user ∅ [] demo_ghost demo_st 0x400ffe [1; 2; 3; 4] (memory_of [demo_space] demo_ghost demo_st) demo_inv);
    [exact (shows_all ∅ none [] demo_ghost demo_st demo_inv (NoDup_singleton _))|by apply demo_room].
Defined.

Lemma copy_from_user_witness :
  wp (read 0x500001 2) (λ res σ', ∃ G',
    inv ∅ none [] G' σ' ∧ same_space (space demo_st) (space σ') ∧ same_contents [] any demo_ghost demo_st G' σ' ∧
    match res with
    | inr bs => length bs = Z.to_nat 2 ∧ ∀ i, 0 ≤ i < 2 → bs !! Z.to_nat i = user_byte demo_ghost demo_st (space demo_st) (0x500001 + i)
    | inl e => ∃ i, 0 ≤ i < 2 ∧ refused e (align_down (0x500001 + i)) false G' σ'
    end) demo_st.
Proof. apply (copy_from_user ∅ [] demo_ghost demo_st 0x500001 2 demo_inv); [done|by apply demo_room]. Defined.
