(* ===== verification/SpaceUnmap.v ===== *)
(** * Unmapping

    Clearing the entries of a range: frames and swap slots go back, every
    entry outside the range stays.  [munmap] and the teardown of a space run
    this loop after the regions were changed; the loop does not look at them. *)

From S2P Require Import Prelude Errno UAccess Vma FrameBuddy Frame Paging PagingProofs Cgroup Swap AddrSpace PhysInv PteBits SpaceInv SpaceSteps SpaceDemo SpaceReclaim SpaceFault SpaceMem.

Section Unmap.
Context {A D F : Type} `{FrameAllocatorLaws A} `{BlockDeviceLaws D} `{MappedFile F}.
Context (K : gset Z).
Implicit Types (σ : St A D F) (G : Ghost) (sp : AddressSpace F) (h : Z → Z) (others : list (AddressSpace F)) (r : Region F).

(** ** Computations that do not use the space *)

Definition spaceless {X} (m : Exec (St A D F) X) : Prop :=
  ∀ s σ, m (with_space s σ) = match m σ with Some (x, σ') => Some (x, with_space s σ') | None => None end.

Lemma spaceless_ret {X} (x : X) : spaceless (mret x).
Proof using Type. done. Qed.

Lemma spaceless_bind {X Y} (m : Exec (St A D F) X) (k : X → Exec (St A D F) Y) :
  spaceless m → (∀ x, spaceless (k x)) → spaceless (m ≫= k).
Proof using Type.
  intros Hm Hk s σ. unfold mbind, exec_bind. simpl. rewrite Hm. destruct (m σ) as [[x σ']|]; [|done]. apply Hk.
Qed.

Lemma spaceless_on_phys {X} (m : Exec (Phys A) X) : spaceless (on_phys m).
Proof using Type. intros s σ. unfold on_phys. simpl. by destruct (m (phys σ)) as [[x p]|]. Qed.

Lemma spaceless_swap_free n : spaceless (swap_free n).
Proof using Type. done. Qed.

Lemma wp_spaceless {X} (m : Exec (St A D F) X) Q s σ :
  spaceless m → wp m (λ x σ', Q x (with_space s σ')) σ → wp m Q (with_space s σ).
Proof using Type. intros Hm. unfold wp. rewrite Hm. by destruct (m σ) as [[x σ']|]. Qed.

#[local] Hint Resolve spaceless_ret spaceless_on_phys spaceless_swap_free : fastros.

Lemma spaceless_free_swap root va : spaceless (free_swap_entry root va).
Proof using Type.
  apply spaceless_bind; [auto with fastros|]. intros [ptr|]; [|auto with fastros].
  apply spaceless_bind; [auto with fastros|]. intros e. case_match; [|auto with fastros].
  apply spaceless_bind; [auto with fastros|]. intros _. apply spaceless_bind; auto with fastros.
Qed.

Lemma spaceless_unmap_pages n : ∀ root va freed swapped, spaceless (unmap_pages n root va freed swapped).
Proof using Type.
  induction n as [|n IH]; intros root va freed swapped; cbn [unmap_pages]; [auto with fastros|].
  apply spaceless_bind; [apply spaceless_free_swap|]. intros []; [apply IH|].
  apply spaceless_bind; [auto with fastros|]. intros [[f fl]|]; [|apply IH]. case_match; [|apply IH].
  apply spaceless_bind; [auto with fastros|]. intros _. apply IH.
Qed.

Lemma spaceless_drop_regions root rs : ∀ freed swapped, spaceless (drop_regions root rs freed swapped).
Proof using Type.
  induction rs as [|r rs IH]; intros freed swapped; cbn [drop_regions]; [auto with fastros|].
  apply spaceless_bind; [apply spaceless_unmap_pages|]. intros x. apply IH.
Qed.

Lemma wp_on_phys_bind {X Y} (m : Exec (Phys A) X) (k : X → Exec (Phys A) Y) Q σ :
  wp (on_phys m) (λ x σ1, wp (on_phys (k x)) Q σ1) σ → wp (on_phys (m ≫= k)) Q σ.
Proof using Type.
  unfold wp, on_phys, mbind, exec_bind. destruct (m (phys σ)) as [[x p]|]; [|done]. simpl. by destruct (k x p) as [[y p']|].
Qed.

Lemma wp_on_phys_ret {X} (x : X) Q σ : Q x σ → wp (on_phys (mret x)) Q σ.
Proof using Type. unfold wp, on_phys. simpl. by rewrite with_phys_id. Qed.

(** Releasing a slot and writing an entry commute. *)
Lemma wp_swap_free_first s (m : Exec (Phys A) unit) Q σ :
  wp (on_phys m) (λ x σ1, wp (swap_free s) (λ _, Q x) σ1) σ → wp (swap_free s) (λ _ σ1, wp (on_phys m) Q σ1) σ.
Proof using Type. unfold wp, swap_free, on_phys, modify. simpl. by destruct (m (phys σ)) as [[x p]|]. Qed.

(** ** One page *)

Lemma wp_st_clear_swap h others G σ va ptr s Q :
  inv K h others G σ → page_of (gown G) (pml4 (space σ)) va → leaf_ptr (gown G) (pml4 (space σ)) va ptr →
  swapped (get_pte (gmaps G) (pml4 (space σ), va)) = Some s →
  (∀ G' p', inv K h others G' (with_phys p' σ) → calm (only (pml4 (space σ), va)) G σ G' (with_phys p' σ) →
     gmaps G' = set_pte (pml4 (space σ), va) 0 (gmaps G) → Q tt (with_phys p' σ)) →
  wp (on_phys (write_entry ptr 0)) Q σ.
Proof using Type.
  intros Hi Hpg Hptr Hsw HQ. pose proof (inv_phys _ _ _ _ _ Hi) as Hp. pose proof (iv_machine _ _ _ _ _ Hi) as Hm.
  set (k0 := (pml4 (space σ), va)) in *. pose proof (swapped_not_present _ _ Hsw) as Hpn.
  apply wp_on_phys. eapply (wp_write_pte K); [exact Hp|done|done|apply (ph_ext _ _ _ _ _ _ _ Hp)| |].
  { intros f. pose proof (refs_set (gmaps G) k0 0 f) as Hs. rewrite Hpn, pfn_0 in Hs. fold k0. unfold one_if in Hs.
    repeat case_decide; simplify_eq; lia. }
  intros p' Hp' Hkept. pose proof Hkept as [Hrefs Hmem].
  assert (∀ x, count p' x = count (phys σ) x) as Ec by (intros; unfold count; by rewrite Hrefs).
  set (G' := on_entry (gF G) (gU G) (gown G) k0 0 G).
  destruct (set_entry K h h others (only k0) G σ G' (with_phys p' σ) va 0) as [Hi' He]; try done.
  - apply (machine_entry K h); [done|apply (mc_held _ _ _ _ Hm)|done|done].
  - intros k x _ _. by rewrite Ec.
  - by left.
  - by right.
  - by left.
  - intros k Hk. assert (k ≠ k0) by (intros ->; by apply Hk).
    apply data_same; [simpl; rewrite get_set_pte; by rewrite decide_False| |done]. intros x Hx. by eapply kept_mapped.
  - apply obj_same; [done|]. intros ko x Hk. by eapply kept_shared.
  - apply (HQ G'); try done. by apply calm_frames.
Qed.

(** The page is gone and nothing else changed. *)
Record cleared (k : Z * Z) G σ G' σ' : Prop := {
  cl_calm : calm (only k) G σ G' σ';
  cl_maps : gmaps G' = set_pte k 0 (gmaps G);
  cl_space : space σ' = space σ;
  cl_cgroups : cgroups σ' = cgroups σ;
}.

Lemma wp_free_swap_entry h others G σ va Q :
  inv K h others G σ → page_of (gown G) (pml4 (space σ)) va →
  (∀ G' σ', inv K h others G' σ' → cleared (pml4 (space σ), va) G σ G' σ' →
     is_Some (swapped (get_pte (gmaps G) (pml4 (space σ), va))) → Q true σ') →
  (swapped (get_pte (gmaps G) (pml4 (space σ), va)) = None → Q false σ) →
  wp (free_swap_entry (pml4 (space σ)) va) Q σ.
Proof using Type*.
  intros Hi Hpg Hs Hn. unfold free_swap_entry. wp_step. eapply (wp_st_leaf K h others G); [done|done| |].
  2:{ intros Hz. wp_steps. apply Hn. by rewrite Hz. }
  intros ptr Hptr. wp_step. eapply wp_st_read; [done..|]. set (k := (pml4 (space σ), va)) in *.
  destruct (negb (has (get_pte (gmaps G) k) PRESENT) && has (get_pte (gmaps G) k) PTE_SWAPPED) eqn:Esw.
  2:{ wp_steps. apply Hn. unfold swapped. by rewrite Esw. }
  assert (swapped (get_pte (gmaps G) k) = Some (Z.shiftr (get_pte (gmaps G) k) 12)) as Hsw by (unfold swapped; by rewrite Esw).
  wp_step. eapply (wp_mono _ (λ _ σ1, wp (on_phys (write_entry ptr 0)) (λ _, wp (mret true) Q) σ1)); [|intros [] σ' Hw; by wp_step].
  apply wp_swap_free_first.
  eapply (wp_st_clear_swap h others G); [done..|]. intros G1 p1 Hi1 Hc1 Em1. fold k in Em1.
  eapply (wp_st_slot_free K h others G1); [done|by eapply (slot_range K h G σ k), Hsw; apply (iv_machine _ _ _ _ _ Hi)| |].
  - intros k'. rewrite Em1, get_set_pte. case_decide as Hk; [done|]. intros Hsw'. apply Hk.
    by eapply (mc_distinct _ _ _ _ (iv_machine _ _ _ _ _ Hi)).
  - intros G2 σ2 Hi2 Hc2 _ Esp _ Ecg _ Em2. wp_steps. apply (Hs G2); [done| |by eauto]. split.
    + eapply calm_trans; [exact Hc1|]. eapply calm_weaken; [|exact Hc2]. by intros ? [].
    + by rewrite Em2.
    + by rewrite Esp.
    + by rewrite Ecg.
Qed.

Lemma flags_present e : has (Z.ldiff e ADDR_MASK) PRESENT = has e PRESENT.
Proof using Type. by rewrite !has_present, Z.ldiff_spec, andb_true_r. Qed.

Lemma no_entry h G σ k : machine K h G σ → get_pte (gmaps G) k = 0 → set_pte k 0 (gmaps G) = gmaps G.
Proof using Type.
  intros Hm Hz. unfold set_pte. rewrite Z.eqb_refl. apply delete_id. destruct (gmaps G !! k) as [e|] eqn:Ek; [|done].
  apply (maps_get _ _ _ _ _ _ Hm) in Ek as [? ?]. congruence.
Qed.

Lemma wp_unmap_page {X} h others G σ va (k1 k2 : Exec (St A D F) X) Q :
  inv K h others G σ → page_of (gown G) (pml4 (space σ)) va → swapped (get_pte (gmaps G) (pml4 (space σ), va)) = None →
  (∀ G' σ', inv K h others G' σ' → cleared (pml4 (space σ), va) G σ G' σ' →
     is_Some (pfn (get_pte (gmaps G) (pml4 (space σ), va))) → wp k1 Q σ') →
  (get_pte (gmaps G) (pml4 (space σ), va) = 0 → wp k2 Q σ) →
  wp (r ← on_phys (unmap_4k (pml4 (space σ)) va);
      match r with
      | Some (frame, fl) => if has fl PRESENT then _ ← on_phys (page_put frame); k1 else k2
      | None => k2
      end) Q σ.
Proof using Type.
  intros Hi Hpg Hsw Hs Hn. set (k := (pml4 (space σ), va)) in *. pose proof (iv_machine _ _ _ _ _ Hi) as Hm.
  wp_step. unfold unmap_4k. apply wp_on_phys_bind. eapply (wp_st_leaf K h others G); [done|done| |].
  2:{ intros Hz. apply wp_on_phys_ret. by apply Hn. }
  intros ptr Hptr. apply wp_on_phys_bind. eapply wp_st_read; [done..|]. fold k. set (e := get_pte (gmaps G) k) in *.
  destruct (has e PRESENT) eqn:Hpr; simpl.
  2:{ apply wp_on_phys_ret. apply Hn. destruct (decide (e = 0)) as [|Hz]; [done|].
      destruct (entry_cases K h others G σ va e Hi) as [[f Hf]|[s Hs']]; [by apply (maps_get _ _ _ _ _ _ Hm)| |congruence].
      unfold pfn in Hf. by rewrite Hpr in Hf. }
  pose proof (present_pfn e Hpr) as Hf. apply wp_on_phys_bind.
  eapply (wp_st_take K h others (only k) G σ va ptr (entry_addr e) 0); [done..|by left|]. intros G1 p1 Hi1 Hc1 Em1 _.
  apply wp_on_phys_ret. rewrite flags_present, Hpr. wp_step.
  eapply (wp_st_put K h others G1); [done|apply (mc_held _ _ _ _ Hm)|]. intros G2 p2 Hi2 Hc2 Em2 _ _ _. apply (Hs G2); [done| |by rewrite Hf].
  split; try done.
  - eapply calm_trans; [exact Hc1|]. eapply calm_weaken; [|exact Hc2]. by intros ? [].
  - by rewrite Em2.
Qed.

(** ** A range *)

Definition in_range (root lo hi : Z) (t : Place) : Prop := ∃ a, t = Mapped (root, a) ∧ lo ≤ a < hi.

(** How many of the [n] pages from [va] have an entry that [sel] accepts. *)
Fixpoint pages_with (sel : Z → option Z) (maps : gmap (Z * Z) Z) (root va : Z) (n : nat) : Z :=
  match n with
  | O => 0
  | S n' => one_if (is_Some (sel (get_pte maps (root, va)))) + pages_with sel maps root (va + PAGE_SIZE) n'
  end.

Record wiped (root lo hi : Z) G σ G' σ' : Prop := {
  wi_calm : calm (in_range root lo hi) G σ G' σ';
  wi_entry k : get_pte (gmaps G') k = if decide (k.1 = root ∧ lo ≤ k.2 < hi) then 0 else get_pte (gmaps G) k;
  wi_space : space σ' = space σ;
  wi_cgroups : cgroups σ' = cgroups σ;
}.

Lemma pages_with_same sel maps maps' root va n :
  (∀ a, va ≤ a < va + Z.of_nat n * PAGE_SIZE → get_pte maps' (root, a) = get_pte maps (root, a)) → pages_with sel maps' root va n = pages_with sel maps root va n.
Proof using Type.
  revert va. induction n as [|n IH]; intros va Hs; cbn [pages_with]; [done|]. rewrite Hs by (unfold PAGE_SIZE; lia). f_equal. apply IH.
  intros a Ha. apply Hs. unfold PAGE_SIZE in *. lia.
Qed.

Lemma entry_aligned h G σ root a : machine K h G σ → get_pte (gmaps G) (root, a) ≠ 0 → aligned a.
Proof using Type.
  intros Hm Hz. apply (pa_dom _ _ _ (ph_abs _ _ _ _ _ _ _ (mc_phys _ _ _ _ Hm)) root a (get_pte (gmaps G) (root, a))).
  by apply (maps_get _ _ _ _ _ _ Hm).
Qed.

Lemma wiped_refl root lo G σ : wiped root lo lo G σ G σ.
Proof using Type. split; [apply calm_refl|intros k; case_decide; [lia|done]|done|done]. Qed.

Lemma wiped_page h root va G σ G' σ' : machine K h G σ → aligned va → cleared (root, va) G σ G' σ' → wiped root va (va + PAGE_SIZE) G σ G' σ'.
Proof using Type.
  intros Hm Ha [Hc Em Es Eg]. split; [|intros [r a]; simpl|done|done].
  - eapply calm_weaken; [|exact Hc]. intros t ->. exists va. split; [done|]. unfold PAGE_SIZE. lia.
  - rewrite Em, get_set_pte. destruct (decide ((r, a) = (root, va))) as [[= -> ->]|Hne].
    + rewrite decide_True by (unfold PAGE_SIZE; lia). done.
    + case_decide as Hr; [|done]. destruct Hr as [-> Hr]. destruct (decide (get_pte (gmaps G) (root, a) = 0)) as [|Hz]; [done|].
      apply (entry_aligned h G σ) in Hz; [|done]. exfalso. assert (va < a) as Hlt by (assert (a ≠ va) by congruence; lia).
      apply page_aligned_le in Hlt; [lia|done|done].
Qed.

Lemma cleared_refl h k G σ : machine K h G σ → get_pte (gmaps G) k = 0 → cleared k G σ G σ.
Proof using Type. intros Hm Hz. split; [apply calm_refl|by erewrite no_entry|done|done]. Qed.

Lemma wiped_trans root lo mid hi G σ G1 σ1 G2 σ2 :
  lo ≤ mid ≤ hi → wiped root lo mid G σ G1 σ1 → wiped root mid hi G1 σ1 G2 σ2 → wiped root lo hi G σ G2 σ2.
Proof using Type.
  intros Hm [C1 E1 S1 X1] [C2 E2 S2 X2]. split; [|intros k|congruence..].
  - eapply calm_trans; (eapply calm_weaken; [|done]); intros t (a & -> & ?); exists a; split; try done; lia.
  - rewrite E2, E1. repeat case_decide; try done; lia.
Qed.

Lemma wp_unmap_pages n h others : ∀ G σ va freed sw Q,
  inv K h others G σ → aligned va → 0 ≤ va → va + Z.of_nat n * PAGE_SIZE ≤ USER_END →
  (∀ G' σ', inv K h others G' σ' → wiped (pml4 (space σ)) va (va + Z.of_nat n * PAGE_SIZE) G σ G' σ' →
     Q (freed + pages_with pfn (gmaps G) (pml4 (space σ)) va n, sw + pages_with swapped (gmaps G) (pml4 (space σ)) va n) σ') →
  wp (unmap_pages n (pml4 (space σ)) va freed sw) Q σ.
Proof using Type*.
  induction n as [|n IH]; intros G σ va freed sw Q Hi Ha Hlo Hhi HQ; cbn [unmap_pages].
  { wp_steps. specialize (HQ G σ Hi). simpl in HQ. rewrite !Z.add_0_r in HQ. apply HQ, wiped_refl. }
  pose proof (iv_machine _ _ _ _ _ Hi) as Hm. set (k := (pml4 (space σ), va)).
  assert (page_of (gown G) (pml4 (space σ)) va) as Hpg.
  { split; [apply (so_root _ _ _ (iv_space _ _ _ _ _ Hi))| |done]. unfold user_va, USER_END, PAGE_SIZE in *. lia. }
  assert (∀ G1 σ1 f' s', inv K h others G1 σ1 → cleared k G σ G1 σ1 →
    f' = freed + one_if (is_Some (pfn (get_pte (gmaps G) k))) → s' = sw + one_if (is_Some (swapped (get_pte (gmaps G) k))) →
    wp (unmap_pages n (pml4 (space σ)) (va + PAGE_SIZE) f' s') Q σ1) as Hnext.
  { intros G1 σ1 f' s' Hi1 Hc -> ->. rewrite <- (cl_space _ _ _ _ _ Hc). apply (IH G1); [done| |unfold PAGE_SIZE in *; lia..|].
    - unfold aligned, PAGE_SIZE in *. rewrite <- Z.add_mod_idemp_r by lia. simpl. by rewrite Z.add_0_r.
    - intros G2 σ2 Hi2 Hw2. specialize (HQ G2 σ2 Hi2). rewrite (cl_space _ _ _ _ _ Hc) in *. cbn [pages_with] in HQ. fold k in HQ.
      rewrite !(pages_with_same _ (gmaps G) (gmaps G1)), <- !Z.add_assoc.
      2,3: intros a Hap; rewrite (cl_maps _ _ _ _ _ Hc), get_set_pte, decide_False; [done|]; unfold PAGE_SIZE in *; intros [= ->]; lia.
      apply HQ. eapply (wiped_trans _ _ (va + PAGE_SIZE)); [unfold PAGE_SIZE; lia|by eapply wiped_page|].
      by replace (va + Z.of_nat (S n) * PAGE_SIZE) with (va + PAGE_SIZE + Z.of_nat n * PAGE_SIZE) by lia. }
  assert (∀ x : option Z, is_Some x → one_if (is_Some x) = 1) as H1' by (intros x Hx; unfold one_if; by rewrite decide_True).
  assert (one_if (is_Some (None : option Z)) = 0) as H0' by done.
  wp_step. eapply (wp_free_swap_entry h others G); [done|done| |].
  - intros G1 σ1 Hi1 Hc [s Hs]. fold k in Hs. apply (Hnext G1); [done|done|..]; rewrite ?(swapped_not_present _ _ Hs), ?Hs, ?H0', ?H1' by eauto; lia.
  - intros Hns. eapply (wp_unmap_page h others G); [done..| |].
    + intros G1 σ1 Hi1 Hc Hpf. apply (Hnext G1); [done|done| |]; fold k in Hns; rewrite ?Hns, ?H0', ?H1'; [done|done|lia].
    + intros Hz. apply (Hnext G); [done|by eapply cleared_refl|..]; unfold k; rewrite Hz; simpl; unfold one_if; simpl; lia.
Qed.

(** ** Contents outside a range *)

Lemma contents_outside (T : Place → Prop) G σ G' σ' sp page :
  evolves T G σ G' σ' → ¬ T (Mapped (pml4 sp, page)) → (∀ ko, ¬ T (Shared ko)) → contents G' σ' sp page = contents G σ sp page.
Proof using Type.
  intros He Hk Hs. unfold contents. rewrite (ev_data _ _ _ _ _ He) by done. destruct (data G σ (pml4 sp, page)); [done|].
  destruct (region_at (regions sp) page) as [r|]; [|done]. simpl. unfold first_touch. destruct (shared r); [|done].
  by apply (ev_shared _ _ _ _ _ He).
Qed.

Lemma in_range_mapped root lo hi ko : ¬ in_range root lo hi (Shared ko).
Proof using Type. by intros (a & ? & _). Qed.

(** The pages outside [lo, hi). *)
Definition beyond (lo hi : Z) : Z → Prop := λ page, aligned page ∧ ¬ lo ≤ page < hi.

Lemma wiped_contents others lo hi G σ G' σ' :
  Forall (λ sp, pml4 sp ≠ pml4 (space σ)) others → wiped (pml4 (space σ)) lo hi G σ G' σ' → same_contents others (beyond lo hi) G σ G' σ'.
Proof using Type.
  intros Hr [[He _ _ _ _] _ Es _]. rewrite Forall_forall in Hr. split.
  - intros sp page Hsp. eapply contents_outside; [exact He| |apply in_range_mapped]. intros (a & [= E _] & _). by apply (Hr sp Hsp).
  - intros page [_ Hb]. rewrite Es. eapply contents_outside; [exact He| |apply in_range_mapped]. intros (a & [= <-] & Ha). by apply Hb.
Qed.

(** ** Regions after an unmapping *)

(** No shared region is cut at [e].  The part behind a cut keeps the base of
    the object, so that its pages show other pages of the object than before. *)
Definition no_shared_cut (e : Z) (rs : list (Region F)) : Prop :=
  Forall (λ r, is_Some (shared r) → ¬ start r < e < end_ r) rs.

(** The page of the object that a cut at [e] moves to [page]. *)
Definition moved_to (e : Z) (rs : list (Region F)) (page : Z) : option (Z * Z) :=
  r ← region_at rs page; o ← shared r;
  if (e <=? page) && (start r <? e) then Some (o, shared_base r + (page - e)) else None.

(** The contents of a page after a cut at [e]: the same, except that a page
    behind the cut that has no frame yet shows the page that moved to it. *)
Definition cut_contents (e : Z) G σ (page : Z) : option (list Z) :=
  match moved_to e (regions (space σ)) page, data G σ (pml4 (space σ), page) with
  | Some ko, None => obj_bytes σ ko
  | _, _ => contents G σ (space σ) page
  end.

(** The pages of other spaces keep their contents, the pages [P] of this one but
    for the cut at [e]. *)
Definition cut_at others (P : Z → Prop) (e : Z) G σ G' σ' : Prop :=
  (∀ sp page, sp ∈ others → contents G' σ' sp page = contents G σ sp page) ∧
  (∀ page, P page → contents G' σ' (space σ') page = cut_contents e G σ page).

Lemma uncut e rs page : no_shared_cut e rs → moved_to e rs page = None.
Proof using Type.
  intros Hc. unfold moved_to. destruct (region_at rs page) as [r|] eqn:Hr; [|done]. simpl. destruct (shared r) as [o|] eqn:Ho; [|done]. simpl.
  apply region_at_Some in Hr as [Hin Ha]. unfold no_shared_cut in Hc. rewrite Forall_forall in Hc. specialize (Hc r Hin).
  destruct (Z.leb_spec e page), (Z.ltb_spec (start r) e); simpl; try done. exfalso. apply Hc; [by rewrite Ho|lia].
Qed.

Lemma uncut_contents others P e G σ G' σ' : no_shared_cut e (regions (space σ)) → cut_at others P e G σ G' σ' → same_contents others P G σ G' σ'.
Proof using Type. intros Hc [Ho Hs]. split; [done|]. intros page Hp. rewrite (Hs page Hp). unfold cut_contents. by rewrite uncut. Qed.

(** The source of an address after a cut. *)
Definition cut_source (e : Z) (rs : list (Region F)) (a : Z) : option (Source F) :=
  r ← region_at rs a; Some (if (e <=? a) && (start r <? e) then tail_source e r a else source r a).

Lemma contents_cut e G σ rs page :
  regions_wf (regions (space σ)) → regions_wf rs → aligned page → aligned e →
  (∀ a, page ≤ a < page + PAGE_SIZE → source_at rs a = cut_source e (regions (space σ)) a) →
  contents G σ (set_regions rs (space σ)) page = cut_contents e G σ page.
Proof using Type.
  intros Hwf Hwf' Ha He Hsrc. unfold cut_contents. assert (page ≤ page < page + PAGE_SIZE) as Hp by (unfold PAGE_SIZE; lia).
  destruct (moved_to e (regions (space σ)) page) as [[o off]|] eqn:Hmv.
  - destruct (data G σ (pml4 (space σ), page)) eqn:Hd; unfold contents; simpl; rewrite Hd; [done|]. specialize (Hsrc page Hp).
    unfold moved_to in Hmv. unfold cut_source in Hsrc. destruct (region_at (regions (space σ)) page) as [r|]; [|done]. cbn [mbind option_bind] in *.
    destruct (shared r) as [o'|] eqn:Ho; [|done]. cbn [mbind option_bind] in *. destruct (_ && _); [|done]. injection Hmv as -> <-.
    unfold source_at, view, tail_source in Hsrc. rewrite Ho in Hsrc. destruct (region_at rs page) as [r'|]; [|done]. simpl in *. injection Hsrc as Hs.
    unfold source in Hs. unfold first_touch. destruct (shared r') as [o'|]; [|by repeat case_match]. by injection Hs as -> ->.
  - apply contents_sources; [done..|]. intros a Hin. rewrite (Hsrc a Hin). unfold cut_source, source_at, view. pose proof Hwf as [Hall _].
    rewrite <- (region_at_page (regions (space σ)) a Hall). assert (align_down a = page) as ->.
    { destruct (align_down_spec a) as [Hal Hb]. destruct (Z.lt_trichotomy (align_down a) page) as [Hlt|[|Hlt]]; [|done|]; apply page_aligned_le in Hlt; try done; lia. }
    unfold moved_to in Hmv. destruct (region_at (regions (space σ)) page) as [r|]; [|done]. cbn [mbind option_bind fmap option_map option_fmap snd] in *. f_equal.
    destruct ((e <=? a) && _) eqn:E; [|done]. unfold tail_source. destruct (shared r) as [o|]; [|done]. cbn [mbind option_bind] in Hmv. exfalso.
    apply andb_true_iff in E as [E1%Z.leb_le E2]. rewrite E2, (proj2 (Z.leb_le _ _)) in Hmv; [done|].
    destruct (Z.le_gt_cases e page) as [|Hlt]; [done|]. apply page_aligned_le in Hlt; [lia|done|done].
Qed.

Lemma carved_source s e rs a : ¬ s ≤ a < e → snd <$> carved s e rs a = cut_source e rs a.
Proof using Type.
  intros Hout. unfold carved, cut_source. destruct (_ && _) eqn:E; [apply andb_true_iff in E as [? ?]; lia|]. by destruct (region_at rs a).
Qed.

Lemma cut_source_shared e rs a o off : cut_source e rs a = Some (SharedAt o off) → ∃ r, r ∈ rs ∧ shared r = Some o.
Proof using Type.
  unfold cut_source. destruct (region_at rs a) as [r|] eqn:Hr; [|done]. apply region_at_Some in Hr as [Hin _]. cbn [mbind option_bind].
  unfold tail_source, source. destruct (shared r) as [o'|] eqn:Ho; [|by repeat case_match]. intros Hs. exists r. split; [done|]. by destruct (_ && _); injection Hs as -> _.
Qed.

Lemma shared_view rs r o : regions_wf rs → r ∈ rs → shared r = Some o → ∃ p g off, view rs (start r) = Some (p, g, SharedAt o off).
Proof using Type.
  intros Hwf Hin Ho. pose proof Hwf as [Hall _]. rewrite Forall_forall in Hall. pose proof (ok_order r (Hall r Hin)).
  apply list_elem_of_lookup in Hin as [i Hi]. unfold view. rewrite (region_at_app_wf rs i r (start r) Hwf Hi) by lia. simpl.
  unfold source. rewrite Ho. eauto.
Qed.

Lemma view_shared rs a p g o off : view rs a = Some (p, g, SharedAt o off) → ∃ r, r ∈ rs ∧ shared r = Some o.
Proof using Type.
  unfold view. destruct (region_at rs a) as [r|] eqn:Hr; [|done]. apply region_at_Some in Hr as [Hin _]. simpl.
  unfold source. destruct (shared r) as [o'|] eqn:Ho; [|by repeat case_match]. intros [= _ _ <- _]. eauto.
Qed.

(** Everything the invariant says but for what the entries of the space are. *)
Record base_inv others G σ : Prop := {
  bi_machine : machine K none G σ;
  bi_root : root_ok (gown G) (pml4 (space σ));
  bi_regions : regions_wf (regions (space σ));
  bi_live r o : r ∈ regions (space σ) → shared r = Some o → o ∈ live σ;
  bi_entry a : get_pte (gmaps G) (pml4 (space σ), a) ≠ 0 → is_Some (view (regions (space σ)) a);
  bi_others : Forall (space_ok G σ) others;
  bi_roots : Forall (λ sp, pml4 sp ≠ pml4 (space σ)) others;
}.

Lemma inv_base others G σ : inv K none others G σ → base_inv others G σ.
Proof using Type.
  intros [Hm [Hr Hg Hl Hp] Ho Hn]. split; try done. intros a Hz.
  destruct (Hp a _ (proj2 (maps_get _ _ _ _ _ _ Hm) (conj eq_refl Hz))) as (p & g & src & -> & _). eauto.
Qed.

(** New regions that show no object the old ones did not, and that hold the
    pages with an entry. *)
Lemma base_set_regions others G σ rs :
  base_inv others G σ → regions_wf rs → (∀ a o off, source_at rs a = Some (SharedAt o off) → ∃ r, r ∈ regions (space σ) ∧ shared r = Some o) →
  (∀ a, get_pte (gmaps G) (pml4 (space σ), a) ≠ 0 → is_Some (view rs a)) → base_inv others G (with_space (set_regions rs (space σ)) σ).
Proof using Type.
  intros [Hm Hr Hg Hl Hp Ho Hn] Hwf Hsrc Hv. split; try done; [by destruct Hm| |].
  - simpl. intros r o Hin Hsh. destruct (shared_view rs r o Hwf Hin Hsh) as (p & g & off & Hw).
    destruct (Hsrc (start r) o off) as (r' & Hin' & Hsh'); [unfold source_at; by rewrite Hw|]. by eapply Hl.
  - eapply Forall_impl; [exact Ho|]. intros sp [? ? ? ?]. by split.
Qed.

Lemma acct_base others G σ σ' : acct σ σ' → base_inv others G σ → base_inv others G σ'.
Proof using Type.
  intros [E1 E2 E3 E4 [Es1 Es2 _ _ _ _]] [Hm Hr Hg Hl Hp Ho Hn]. split; rewrite ?Es1, ?Es2, ?E3; try done.
  - destruct Hm. split; rewrite ?E1, ?E2, ?E3, ?E4; done.
  - eapply Forall_impl; [exact Ho|]. intros sp [? ? ? ?]. split; rewrite ?E1, ?E3, ?E4; done.
Qed.

Lemma carved_view s e rs a :
  no_shared_cut e rs → carved s e rs a = if (s <=? a) && (a <? e) then None else view rs a.
Proof using Type.
  intros Hc. unfold carved, view. destruct (_ && _); [done|]. destruct (region_at rs a) as [r|] eqn:Hr; [|done]. simpl.
  apply region_at_Some in Hr as [Hin Ha]. unfold no_shared_cut in Hc. rewrite Forall_forall in Hc. specialize (Hc r Hin).
  destruct (Z.leb_spec e a), (Z.ltb_spec (start r) e); simpl; try done. unfold tail_source. destruct (shared r); [|done].
  exfalso. apply Hc; [done|lia].
Qed.

(** New regions that show no object the old ones did not. *)
Lemma regions_live h others G σ rs :
  inv K h others G σ → regions_wf rs → (∀ a v, view rs a = Some v → ∃ v', view (regions (space σ)) a = Some v' ∧ v'.2 = v.2) →
  ∀ r o, r ∈ rs → shared r = Some o → o ∈ live σ.
Proof using Type.
  intros Hi Hwf Hv r o Hin Ho. destruct (shared_view rs r o Hwf Hin Ho) as (p & g & off & Hw).
  destruct (Hv _ _ Hw) as ([[p' g'] src] & Hv' & E). simpl in E. subst src.
  apply view_shared in Hv' as (r' & Hin' & Ho'). by eapply (so_live _ _ _ (iv_space _ _ _ _ _ Hi)).
Qed.

(** ** [munmap] *)

(** The container's counters after [n] pages and [m] slots were given back. *)
Definition refund σ (n m : Z) : gmap (list Z) Cgroup :=
  match container (space σ) with
  | Some c => Cgroup.uncharge_swap c m (Cgroup.uncharge_pages c n (cgroups σ))
  | None => cgroups σ
  end.

Lemma wp_refund n m σ (Q : unit → St A D F → Prop) :
  (∀ σ', acct σ σ' → cgroups σ' = refund σ n m → Q tt σ') →
  wp (AddrSpace.uncharge_pages n) (λ _, wp (AddrSpace.uncharge_swap m) Q) σ.
Proof using Type.
  intros HQ. unfold AddrSpace.uncharge_pages, AddrSpace.uncharge_swap, upd_space, refund in *. destruct (n =? 0) eqn:En; wp_steps.
  - apply HQ; destruct (container (space σ)); try by split. unfold Cgroup.uncharge_pages. by rewrite En.
  - destruct (container (space σ)) as [c|] eqn:Ec; simpl; rewrite ?Ec; simpl; rewrite ?Ec; apply HQ; by split.
Qed.

(** The regions are exactly those outside of [lo, hi), cut at [hi]. *)
Record unmapped others (lo hi : Z) G σ G' σ' : Prop := {
  un_base : base_inv others G' σ';
  un_inv : no_shared_cut hi (regions (space σ)) → inv K none others G' σ';
  un_contents : cut_at others (beyond lo hi) hi G σ G' σ';
  un_view a : view (regions (space σ')) a = carved lo hi (regions (space σ)) a;
  un_entry k : get_pte (gmaps G') k = if decide (k.1 = pml4 (space σ) ∧ lo ≤ k.2 < hi) then 0 else get_pte (gmaps G) k;
  un_calm : calm (in_range (pml4 (space σ)) lo hi) G σ G' σ';
  un_refund : cgroups σ' = refund σ (pages_with pfn (gmaps G) (pml4 (space σ)) lo (pages_between lo hi))
                                    (pages_with swapped (gmaps G) (pml4 (space σ)) lo (pages_between lo hi));
  un_fields : brk (space σ') = brk (space σ) ∧ brk_base (space σ') = brk_base (space σ) ∧
    mmap_top (space σ') = mmap_top (space σ) ∧ container (space σ') = container (space σ);
}.

Lemma pages_exact lo hi : aligned lo → aligned hi → lo ≤ hi → lo + Z.of_nat (pages_between lo hi) * PAGE_SIZE = hi.
Proof using Type.
  intros Hs He Hle. unfold pages_between, aligned, PAGE_SIZE in *.
  apply Z.div_exact in Hs; [|lia]. apply Z.div_exact in He; [|lia]. rewrite Z2Nat.id by (apply Z.div_pos; lia).
  replace (hi - lo + 4096 - 1) with ((hi / 4096 - lo / 4096) * 4096 + 4095) by lia. rewrite Z.div_add_l, (Z.div_small 4095) by lia. lia.
Qed.

(** The regions change after the entries are gone. *)
Lemma inv_carved others lo hi G σ G1 σ1 rs :
  inv K none others G1 σ1 → wiped (pml4 (space σ)) lo hi G σ G1 σ1 → regions_wf rs →
  (∀ a, view rs a = if (lo <=? a) && (a <? hi) then None else view (regions (space σ)) a) →
  inv K none others G1 (with_space (set_regions rs (space σ)) σ1).
Proof using Type.
  intros Hi1 Hw Hwf Hv. pose proof (wi_space _ _ _ _ _ _ _ Hw) as Es. rewrite <- Es in *.
  apply (inv_regions K none others G1 σ1 rs Hi1 Hwf).
  - eapply regions_live; [exact Hi1|done|]. intros a v. rewrite Hv. destruct (_ && _); [done|eauto].
  - intros va Hz. rewrite Hv. destruct ((lo <=? va) && (va <? hi)) eqn:E; [|done]. exfalso. apply Hz.
    rewrite (wi_entry _ _ _ _ _ _ _ Hw). apply decide_True. split; [done|]. simpl. apply andb_true_iff in E as [? ?]. lia.
Qed.

Lemma base_carved others lo hi G σ G1 σ1 rs :
  inv K none others G σ → inv K none others G1 σ1 → wiped (pml4 (space σ)) lo hi G σ G1 σ1 → regions_wf rs →
  (∀ a, view rs a = carved lo hi (regions (space σ)) a) → base_inv others G1 (with_space (set_regions rs (space σ)) σ1).
Proof using Type.
  intros Hi Hi1 Hw Hwf Hv. pose proof (wi_space _ _ _ _ _ _ _ Hw) as Es. pose proof (wi_entry _ _ _ _ _ _ _ Hw) as Ee. rewrite <- Es in *.
  pose proof (inv_base others G1 σ1 Hi1) as Hb. apply base_set_regions; [done|done| |].
  - intros a o off. unfold source_at. rewrite Hv. destruct (decide (lo ≤ a < hi)) as [Hin|Hout].
    + unfold carved. rewrite (proj2 (Z.leb_le _ _)), (proj2 (Z.ltb_lt _ _)) by lia. done.
    + rewrite carved_source by done. apply cut_source_shared.
  - intros a Hz. rewrite Hv. unfold carved. destruct ((lo <=? a) && (a <? hi)) eqn:E.
    + exfalso. apply Hz. rewrite Ee. apply decide_True. split; [done|]. simpl. apply andb_true_iff in E as [? ?]. lia.
    + destruct (bi_entry _ _ _ Hb a Hz) as [v Hva]. unfold view in Hva. destruct (region_at (regions (space σ1)) a); [|done]. simpl. eauto.
Qed.

Lemma cut_carved others lo hi G σ G1 σ1 rs :
  inv K none others G σ → wiped (pml4 (space σ)) lo hi G σ G1 σ1 → regions_wf rs →
  (∀ a, view rs a = carved lo hi (regions (space σ)) a) → aligned lo → aligned hi →
  cut_at others (beyond lo hi) hi G σ G1 (with_space (set_regions rs (space σ)) σ1).
Proof using Type.
  intros Hi Hw Hwf Hv Hlo Hhi. set (σ2 := with_space _ σ1). assert (evolves nothing G1 σ1 G1 σ2) as Hev by (by split; [simpl; by rewrite (wi_space _ _ _ _ _ _ _ Hw)|..]).
  destruct (wiped_contents others lo hi G σ G1 σ1 (iv_roots _ _ _ _ _ Hi) Hw) as [Ho Hs]. split.
  { intros sp page Hsp. rewrite (contents_nothing _ _ _ _ _ _ Hev). by apply Ho. }
  intros page Hb. pose proof Hb as [Hal Hout]. rewrite (contents_nothing _ _ _ _ _ _ Hev). simpl. pose proof (wi_space _ _ _ _ _ _ _ Hw) as Es.
  rewrite <- Es. rewrite (contents_cut hi); rewrite ?Es; [|apply (so_regions _ _ _ (iv_space _ _ _ _ _ Hi))|done|done|done|].
  - unfold cut_contents. pose proof (cm_evolves _ _ _ _ _ (wi_calm _ _ _ _ _ _ _ Hw)) as He.
    rewrite (Hs page Hb), Es, (ev_data _ _ _ _ _ He) by (intros (a & [= <-] & ?); by apply Hout).
    destruct (moved_to _ _ _); [|done]. destruct (data _ _ _); [done|]. apply (ev_shared _ _ _ _ _ He), in_range_mapped.
  - intros a Ha. unfold source_at. rewrite Hv. apply carved_source. intros Hin. apply Hout. split; [|lia].
    destruct (Z.lt_ge_cases page lo) as [Hlt|]; [|lia]. apply page_aligned_le in Hlt; [lia|done|done].
Qed.

Lemma cut_at_acct others P e G σ G1 σ1 σ2 : cut_at others P e G σ G1 σ1 → acct σ1 σ2 → cut_at others P e G σ G1 σ2.
Proof using Type.
  intros [Ho Hs] Ha. destruct (same_contents_nothing others P G1 σ1 G1 σ2 (acct_evolves _ _ _ _ Ha) (ac_space _ _ Ha)) as [Ho2 Hs2]. split.
  - intros sp page Hsp. by rewrite Ho2, Ho.
  - intros page Hp. by rewrite Hs2, Hs.
Qed.

(** The first page boundary at or above [v]. *)
Definition round_up (v : Z) : Z := align_down (v + (PAGE_SIZE - 1)).

Lemma align_up_val v : v + PAGE_SIZE < U64 → align_up v = Some (round_up v).
Proof using Type. intros Hv. unfold align_up. rewrite add64_ok by done. simpl. by replace (v + PAGE_SIZE - 1) with (v + (PAGE_SIZE - 1)) by lia. Qed.

Lemma round_up_spec v : aligned (round_up v) ∧ v ≤ round_up v < v + PAGE_SIZE.
Proof using Type. unfold round_up. destruct (align_down_spec (v + (PAGE_SIZE - 1))). split; [done|lia]. Qed.

Lemma round_up_le v w : aligned w → v ≤ w → round_up v ≤ w.
Proof using Type.
  intros Hw Hle. destruct (round_up_spec v) as [Ha Hb]. destruct (Z.le_gt_cases (round_up v) w) as [|Hlt]; [done|].
  apply page_aligned_le in Hlt; [lia|done|done].
Qed.

Lemma range_bounds addr len : 0 ≤ addr → 0 ≤ len → addr + len ≤ USER_END →
  aligned (align_down addr) ∧ aligned (round_up (addr + len)) ∧ 0 ≤ align_down addr ≤ round_up (addr + len) ∧ round_up (addr + len) ≤ USER_END.
Proof using Type.
  intros H0' Hl Hend. destruct (align_down_spec addr) as [Ha Hb]. destruct (round_up_spec (addr + len)) as [Ha' Hb'].
  split_and!; [done|done| |lia|by apply round_up_le]. destruct (Z.le_gt_cases 0 (align_down addr)) as [|Hlt]; [done|].
  apply page_aligned_le in Hlt; [lia|done|done].
Qed.

Lemma wp_unmap others G σ addr len Q :
  inv K none others G σ → 0 ≤ addr → 0 ≤ len → addr + len ≤ USER_END →
  (∀ G' σ', unmapped others (align_down addr) (round_up (addr + len)) G σ G' σ' → Q (inr tt) σ') →
  wp (unmap addr len) Q σ.
Proof using Type*.
  intros Hi Ha0 Hl Hend HQ. destruct (range_bounds addr len Ha0 Hl Hend) as (Hlo & Hhi & Hle & Htop).
  set (lo := align_down addr) in *. set (hi := round_up (addr + len)) in *. unfold unmap. wp_step.
  rewrite add64_ok by (unfold U64, USER_END in *; lia). eapply wp_need; [done|]. wp_step.
  rewrite align_up_val by (unfold U64, USER_END, PAGE_SIZE in *; lia). eapply wp_need; [done|]. fold lo hi. wp_steps.
  destruct (carve_ok lo hi (regions (space σ))) as (rs & Hrs & Hwf & Hv); [apply (so_regions _ _ _ (iv_space _ _ _ _ _ Hi))|done|done|lia|].
  rewrite Hrs. wp_steps. unfold upd_space. wp_steps. apply wp_root. simpl.
  wp_step. apply wp_spaceless; [apply spaceless_unmap_pages|]. pose proof (pages_exact lo hi Hlo Hhi ltac:(lia)) as Hn.
  eapply (wp_unmap_pages _ none others G); [done|done|lia|by rewrite Hn|]. rewrite Hn. intros G1 σ1 Hi1 Hw.
  assert (evolves nothing G1 σ1 G1 (with_space (set_regions rs (space σ)) σ1)) as Hev2 by (by split; [simpl; by rewrite (wi_space _ _ _ _ _ _ _ Hw)|..]).
  wp_step. eapply wp_mono; [apply wp_refund with (Q := λ _, Q (inr tt))|]. 2:{ intros [] σ3 Hw3. wp_step. eapply wp_mono; [exact Hw3|]. by intros [] σ4 ?. }
  intros σ3 Hac Ecg. apply (HQ G1). pose proof (ac_space _ _ Hac) as Hsp. split.
  - eapply acct_base; [done|]. by apply (base_carved others lo hi G).
  - intros Hcut. eapply acct_inv; [done|]. apply (inv_carved others lo hi G); [done..|]. intros a. by rewrite Hv, carved_view.
  - eapply cut_at_acct; [|done]. by apply cut_carved.
  - intros a. rewrite (ss_regions _ _ Hsp). simpl. apply Hv.
  - apply (wi_entry _ _ _ _ _ _ _ Hw).
  - eapply calm_trans; [apply (wi_calm _ _ _ _ _ _ _ Hw)|]. eapply calm_trans; [|by apply acct_calm].
    split; [eapply evolves_weaken; [|exact Hev2]; by intros ? []|by apply counts_shrink|done..].
  - rewrite Ecg. unfold refund. simpl. by rewrite (wi_cgroups _ _ _ _ _ _ _ Hw).
  - rewrite (ss_brk _ _ Hsp), (ss_base _ _ Hsp), (ss_top _ _ Hsp), (ss_container _ _ Hsp). done.
Qed.

End Unmap.

#[local] Opaque demo_frame.

Lemma demo_no_cut e : e ≤ 0x600000 ∨ 0x602000 ≤ e → no_shared_cut e demo_regions.
Proof. intros He. repeat apply Forall_cons_2; [by intros [? ?]..| | |by apply Forall_nil]; [simpl; lia|by intros [? ?]]. Qed.

