(* ===== verification/SpaceMap.v ===== *)
(** * Mapping

    Adding regions: [mmap] in its three forms and the region functions behind
    it.  The new range shows its file, its object or zeros; everything else
    stays, but for the pages behind the cut of a shared mapping. *)

From S2P Require Import Prelude Errno UAccess Vma FrameBuddy Frame Paging PagingProofs Cgroup Swap AddrSpace PhysInv PteBits SpaceInv SpaceSteps SpaceDemo SpaceReclaim SpaceFault SpaceMem SpaceUnmap.

Section Map.
Context {A D F : Type} `{FrameAllocatorLaws A} `{BlockDeviceLaws D} `{MappedFile F}.
Context (K : gset Z).
Implicit Types (σ : St A D F) (G : Ghost) (sp : AddressSpace F) (others : list (AddressSpace F)) (q r : Region F).

(** [q] was added where nothing was. *)
Record pushed others q G σ G' σ' : Prop := {
  pu_region : region_ok q;
  pu_base : base_inv K others G' σ';
  pu_inv : inv K none others G σ → inv K none others G' σ';
  pu_view a : view (regions (space σ')) a = if contains_addr a q then Some (prot q, grows_down q, source q a) else view (regions (space σ)) a;
  pu_contents : same_contents others (beyond (start q) (end_ q)) G σ G' σ';
  pu_fresh page : aligned page → contains_addr page q = true →
    get_pte (gmaps G') (pml4 (space σ'), page) = 0 ∧ contents G' σ' (space σ') page = first_touch σ' q page;
  pu_root : pml4 (space σ') = pml4 (space σ);
}.

(** [q] was added over whatever [σ] had there, which was cut at its end. *)
Record placed others q G σ G' σ' : Prop := {
  pl_region : region_ok q;
  pl_base : base_inv K others G' σ';
  pl_inv : no_shared_cut (end_ q) (regions (space σ)) → inv K none others G' σ';
  pl_view a : view (regions (space σ')) a =
    if contains_addr a q then Some (prot q, grows_down q, source q a) else carved (start q) (end_ q) (regions (space σ)) a;
  pl_contents : cut_at others (beyond (start q) (end_ q)) (end_ q) G σ G' σ';
  pl_fresh page : aligned page → contains_addr page q = true →
    get_pte (gmaps G') (pml4 (space σ'), page) = 0 ∧ contents G' σ' (space σ') page = first_touch σ' q page;
  pl_root : pml4 (space σ') = pml4 (space σ);
}.

Lemma overlap_view (rs : list (Region F)) s e a : overlaps rs s e = false → s ≤ a < e → view rs a = None.
Proof using Type. intros Ho Ha. apply view_None. intros r Hr. apply (overlaps_false rs s e) with (r := r) in Ho; [lia|done]. Qed.

Lemma entry_view h others G σ a : inv K h others G σ → get_pte (gmaps G) (pml4 (space σ), a) ≠ 0 → is_Some (view (regions (space σ)) a).
Proof using Type.
  intros Hi Hz. destruct (so_pte _ _ _ (iv_space _ _ _ _ _ Hi) a _ (proj2 (maps_get _ _ _ _ _ _ (iv_machine _ _ _ _ _ Hi)) (conj eq_refl Hz)))
    as (p & g & src & -> & _). eauto.
Qed.

Lemma inv_more_live h others G σ L : live σ ⊆ L → inv K h others G σ →
  inv K h others G (with_live L σ) ∧ evolves nothing G σ G (with_live L σ).
Proof using Type.
  intros HL [Hm Hs Ho Hr]. assert (∀ sp, space_ok G σ sp → space_ok G (with_live L σ) sp) as Hsp.
  { intros sp [? ? Hl ?]. split; try done. intros r o Hin Ho'. simpl. apply HL. by eapply Hl. }
  split; [|by split]. split; [|by apply Hsp|by eapply Forall_impl; [exact Ho|apply Hsp]|done].
  destruct Hm as [? ? ? Hl ? ? ? ?]. split; try done. intros k f Hk. simpl. by eapply HL, Hl.
Qed.

Lemma base_more_live others G σ L : live σ ⊆ L → base_inv K others G σ → base_inv K others G (with_live L σ).
Proof using Type.
  intros HL [Hm Hr Hg Hl Hp Ho Hn]. split; try done.
  - destruct Hm as [? ? ? Hl' ? ? ? ?]. split; try done. intros k f Hk. simpl. by eapply HL, Hl'.
  - intros r o Hin Hsh. apply HL. by eapply Hl.
  - eapply Forall_impl; [exact Ho|]. intros sp [? ? Hl' ?]. split; try done. intros r o Hin Hsh. simpl. apply HL. by eapply Hl'.
Qed.

Lemma base_push others G σ q L :
  base_inv K others G σ → region_ok q → overlaps (regions (space σ)) (start q) (end_ q) = false →
  live σ ⊆ L → (∀ o, shared q = Some o → o ∈ L) →
  pushed others q G σ G (with_space (set_regions (regions (space σ) ++ [q]) (space σ)) (with_live L σ)).
Proof using Type.
  intros Hi Hq Ho HL Hlive. set (σ' := with_space _ _). pose proof (bi_regions _ _ _ _ Hi) as Hwf.
  destruct (push_ok (regions (space σ)) q Hwf Hq Ho) as [Hwf' Hv].
  assert (∀ a, is_Some (view (regions (space σ)) a) → contains_addr a q = false) as Hout.
  { intros a [v Hva]. destruct (contains_addr a q) eqn:E; [|done]. apply contains_addr_spec in E. by rewrite (overlap_view _ _ _ _ Ho E) in Hva. }
  assert (∀ r o, r ∈ regions (space σ) ++ [q] → shared r = Some o → o ∈ L) as Hl.
  { intros r o [Hr|Er%list_elem_of_singleton]%elem_of_app Hsh; [|subst r; by apply Hlive]. apply HL. by eapply (bi_live _ _ _ _ Hi). }
  assert (evolves nothing G σ G σ') as Hev by (by split). split; [done| | |done| | |done].
  - destruct (base_more_live others G σ L HL Hi) as [Hm Hr _ _ Hp Hot Hn]. split; [by destruct Hm|done|done|done| | |done].
    + intros a Hz. simpl. rewrite Hv. destruct (contains_addr a q); [eauto|]. by apply Hp.
    + eapply Forall_impl; [exact Hot|]. intros sp [? ? ? ?]. by split.
  - intros Hinv. destruct (inv_more_live none others G σ L HL Hinv) as [Hi1 _].
    apply (inv_regions K none others G (with_live L σ) (regions (space σ) ++ [q]) Hi1 Hwf'); [done|].
    intros a Hz. rewrite Hv. simpl. by rewrite (Hout a) by (by apply (bi_entry _ _ _ _ Hi)).
  - split; [by intros; apply (contents_nothing _ _ _ _ _ _ Hev)|]. intros page [Hal Hb].
    rewrite (contents_nothing _ _ _ _ _ _ Hev). apply contents_sources; [done|done|done|].
    intros a Ha. unfold source_at. rewrite Hv. destruct (contains_addr a q) eqn:E; [|done]. exfalso. apply Hb.
    apply contains_addr_spec in E. destruct (Z.lt_ge_cases page (start q)) as [Hlt|]; [|lia]. apply page_aligned_le in Hlt; [lia|done|apply Hq].
  - intros page Hal Hin. assert (get_pte (gmaps G) (pml4 (space σ), page) = 0) as Hz.
    { destruct (decide (get_pte (gmaps G) (pml4 (space σ), page) = 0)) as [|Hz]; [done|]. apply (bi_entry _ _ _ _ Hi) in Hz.
      rewrite (Hout page Hz) in Hin. done. }
    split; [done|]. unfold contents, data. simpl. rewrite Hz. simpl. pose proof Hin as Hin'. apply contains_addr_spec in Hin'.
    assert (region_at (regions (space σ) ++ [q]) page = Some q) as ->; [|done].
    apply (region_at_app_wf _ (length (regions (space σ)))); [done| |done]. by rewrite lookup_app_r, Nat.sub_diag by lia.
Qed.

(** A free range cuts nothing. *)
Lemma free_uncut (rs : list (Region F)) s e : overlaps rs s e = false → s < e → no_shared_cut e rs.
Proof using Type. intros Ho Hlt. apply Forall_forall. intros r Hr _ Hc. apply (overlaps_false rs s e) with (r := r) in Ho; [lia|done]. Qed.

Lemma pushed_placed others q G σ G' σ' :
  overlaps (regions (space σ)) (start q) (end_ q) = false → inv K none others G σ → pushed others q G σ G' σ' → placed others q G σ G' σ'.
Proof using Type.
  intros Ho Hi [Hq Hb Hinv Hv [Hco Hcs] Hf Hr]. pose proof (free_uncut _ _ _ Ho (ok_order q Hq)) as Hcut. split; try done; [by auto| |].
  - intros a. rewrite Hv, carved_view by done. unfold contains_addr. by destruct (_ && _).
  - split; [done|]. intros page Hp. unfold cut_contents. rewrite uncut by done. by apply Hcs.
Qed.

(** ** The region functions *)

Lemma aligned_down v : aligned v → align_down v = v.
Proof using Type. intros Ha. rewrite align_down_val. unfold aligned in Ha. lia. Qed.

Lemma aligned_up v : aligned v → v + PAGE_SIZE < U64 → align_up v = Some v.
Proof using Type.
  intros Ha Hv. rewrite align_up_val by done. f_equal. destruct (round_up_spec v) as [Ha' Hb].
  pose proof (round_up_le v v Ha ltac:(lia)). lia.
Qed.

Definition in_user (s e : Z) : Prop := USER_START ≤ s ∧ e ≤ USER_END ∧ s < e.

Lemma wp_insert_region others G σ s e mk q L Q :
  base_inv K others G σ → aligned s → aligned e → e + PAGE_SIZE < U64 →
  (∀ Q', Q' q (with_live L σ) → wp (mk s e) Q' σ) → start q = s → end_ q = e → (in_user s e → region_ok q) →
  live σ ⊆ L → (∀ o, shared q = Some o → o ∈ L) →
  (∀ σ', pushed others q G σ G σ' → overlaps (regions (space σ)) s e = false → Q (inr tt) σ') →
  (∀ er, er = EINVAL ∧ ¬ in_user s e ∨ er = EEXIST ∧ overlaps (regions (space σ)) s e = true → Q (inl er) σ) →
  wp (insert_region s e mk) Q σ.
Proof using Type.
  intros Hi Hs He Hmax Hmk Es Ee Hok HL Hlive HQ Hn. unfold insert_region. rewrite aligned_down by done. wp_step.
  rewrite aligned_up by done. wp_step. destruct (_ || _) eqn:Eb.
  { wp_steps. apply Hn. left. split; [done|]. intros (? & ? & ?). rewrite !orb_true_iff, !Z.ltb_lt, Z.leb_le in Eb. lia. }
  assert (in_user s e) as Hin by (rewrite !orb_false_iff, !Z.ltb_ge, Z.leb_gt in Eb; unfold in_user; lia).
  wp_steps. destruct (overlaps (regions (space σ)) s e) eqn:Eo; [wp_steps; apply Hn; by right|]. wp_step. apply Hmk.
  unfold upd_space. wp_steps. apply HQ; [|done]. apply (base_push others G σ q L); [done|by apply Hok|by rewrite Es, Ee|done|done].
Qed.

(** The region [place] adds. *)
Definition new_region (s len prot : Z) (file : option (F * Z)) (shared : bool) σ : Region F :=
  match file with
  | Some (f, off) =>
      match (if shared then shared_mmap f else None) with
      | Some obj => mkRegion s (s + len) prot false None (Some obj) off
      | None => mkRegion s (s + len) prot false (Some (mkBacking f off len)) None 0
      end
  | None => mkRegion s (s + len) prot false None (if shared then Some (fresh (live σ)) else None) 0
  end.

(** The file offset does not overflow, and a file's page set exists. *)
Definition file_ok (len : Z) (file : option (F * Z)) (shared : bool) σ : Prop :=
  match file with
  | Some (f, off) => 0 ≤ off ∧ off + len < U64 ∧ ∀ o, shared = true → shared_mmap f = Some o → o ∈ live σ
  | None => True
  end.

Lemma new_bounds s len prot file shared σ :
  start (new_region s len prot file shared σ) = s ∧ end_ (new_region s len prot file shared σ) = s + len.
Proof using Type. unfold new_region. by repeat case_match. Qed.

Lemma new_region_ok s len prot file shared σ :
  file_ok len file shared σ → aligned s → aligned (s + len) → in_user s (s + len) → region_ok (new_region s len prot file shared σ).
Proof using Type.
  intros Hf Hs He (H1' & H2' & H3'). assert (s + len - s = len) as El by lia. assert (0 ≤ len < U64) as Hlen by (unfold U64, USER_END, USER_START in *; lia).
  unfold new_region, file_ok in *. destruct file as [[f off]|].
  - destruct Hf as (? & ? & _). destruct (if shared then shared_mmap f else None);
      (split; simpl; try done; split; simpl; rewrite El; [|lia]); [done|]. intros b [= <-]. simpl. lia.
  - split; simpl; try done. split; simpl; [done|lia].
Qed.

Lemma wp_place others G σ s len prot file shared Q :
  base_inv K others G σ → aligned s → aligned (s + len) → s + len + PAGE_SIZE < U64 → file_ok len file shared σ →
  (∀ σ', pushed others (new_region s len prot file shared σ) G σ G σ' → overlaps (regions (space σ)) s (s + len) = false → Q (inr tt) σ') →
  (∀ er, er = EINVAL ∧ ¬ in_user s (s + len) ∨ er = EEXIST ∧ overlaps (regions (space σ)) s (s + len) = true → Q (inl er) σ) →
  wp (place s len prot file shared) Q σ.
Proof using Type.
  intros Hi Hs He Hmax Hf HQ Hn. pose proof (new_region_ok s len prot file shared σ Hf Hs He) as Hok.
  unfold place. wp_step. rewrite add64_ok by (unfold PAGE_SIZE in *; lia). wp_step.
  assert (∀ mk L, (∀ Q', Q' (new_region s len prot file shared σ) (with_live L σ) → wp (mk s (s + len)) Q' σ) → live σ ⊆ L →
    (∀ o, Vma.shared (new_region s len prot file shared σ) = Some o → o ∈ L) → wp (insert_region s (s + len) mk) Q σ) as Hins.
  { intros mk L Hmk HL Hlive. destruct (new_bounds s len prot file shared σ) as [Es Ee].
    eapply (wp_insert_region others G σ s (s + len) mk (new_region s len prot file shared σ) L); try done. }
  assert (with_live (live σ) σ = σ) as Eid by (by destruct σ).
  unfold new_region, file_ok in *. destruct file as [[f off]|].
  - destruct Hf as (_ & _ & Hobj). destruct shared.
    + destruct (shared_mmap f) as [obj|] eqn:Em.
      * apply (Hins _ (live σ)); [intros Q' HQ'; wp_steps; by rewrite Eid in HQ'|done|]. intros o [= <-]. by apply Hobj.
      * apply (Hins _ (live σ)); [intros Q' HQ'; wp_steps; by rewrite Eid in HQ'|done|done].
    + apply (Hins _ (live σ)); [intros Q' HQ'; wp_steps; by rewrite Eid in HQ'|done|done].
  - destruct shared.
    + apply (Hins _ ({[fresh (live σ)]} ∪ live σ)); [|set_solver +|intros o [= <-]; set_solver +].
      intros Q' HQ'. unfold new_object. wp_steps. done.
    + apply (Hins _ (live σ)); [intros Q' HQ'; wp_steps; by rewrite Eid in HQ'|done|done].
Qed.

(** ** [mmap] *)

Lemma unmapped_placed others q G σ G1 σ1 G2 σ2 :
  unmapped K others (start q) (end_ q) G σ G1 σ1 → pushed others q G1 σ1 G2 σ2 → placed others q G σ G2 σ2.
Proof using Type.
  intros Hu [Hq Hb Hinv Hv [Hco Hcs] Hf Hr]. destruct (un_contents _ _ _ _ _ _ _ _ Hu) as [Huo Hus]. split; try done.
  - intros Hcut. apply Hinv. by apply (un_inv _ _ _ _ _ _ _ _ Hu).
  - intros a. rewrite Hv. destruct (contains_addr a q) eqn:E; [done|]. apply (un_view _ _ _ _ _ _ _ _ Hu).
  - split; [intros sp page Hsp; by rewrite Hco, Huo|]. intros page Hp. by rewrite Hcs, Hus.
  - rewrite Hr. apply (ev_root _ _ _ _ _ (cm_evolves _ _ _ _ _ (un_calm _ _ _ _ _ _ _ _ Hu))).
Qed.

Lemma unmapped_free others lo hi G σ G1 σ1 :
  lo < hi → unmapped K others lo hi G σ G1 σ1 → overlaps (regions (space σ1)) lo hi = false.
Proof using Type.
  intros Hlt Hu. apply overlaps_false. intros r Hr. pose proof (bi_regions _ _ _ _ (un_base _ _ _ _ _ _ _ _ Hu)) as Hwf.
  pose proof Hwf as [Hall _]. rewrite Forall_forall in Hall. pose proof (ok_order r (Hall r Hr)).
  destruct (decide (end_ r ≤ lo ∨ hi ≤ start r)) as [|Hnd]; [done|]. exfalso.
  apply list_elem_of_lookup in Hr as [i Hri]. set (a := Z.max lo (start r)).
  pose proof (un_view _ _ _ _ _ _ _ _ Hu a) as Hv. unfold view, carved in Hv. rewrite (region_at_app_wf _ i r a Hwf Hri) in Hv by lia.
  destruct (Z.leb_spec lo a), (Z.ltb_spec a hi); simpl in Hv; try done; lia.
Qed.

Lemma inv_top h others G σ t : inv K h others G σ → inv K h others G (with_space (set_top t (space σ)) σ).
Proof using Type.
  intros [Hm Hs Ho Hr]. split; [by destruct Hm|by destruct Hs| |done]. eapply Forall_impl; [exact Ho|]. by intros sp [].
Qed.

Lemma base_top others G σ t : base_inv K others G σ → base_inv K others G (with_space (set_top t (space σ)) σ).
Proof using Type.
  intros [Hm ? ? ? ? Ho ?]. split; [by destruct Hm|done..| |done]. eapply Forall_impl; [exact Ho|]. by intros sp [].
Qed.

Lemma placed_top others q G σ G' σ' t : placed others q G σ G' σ' → placed others q G σ G' (with_space (set_top t (space σ')) σ').
Proof using Type.
  intros [Hq Hb Hinv Hv Hc Hf Hr]. split; [exact Hq|by apply base_top|intros Hcut; by apply inv_top, Hinv|exact Hv|exact Hc|exact Hf|exact Hr].
Qed.

(** Where [mmap] without a usable hint goes, and when it cannot. *)
Definition no_place (L : Z) (er : Errno) σ : Prop :=
  let top := mmap_top (space σ) in
  let s := align_down (top - L) in
  er = ENOMEM ∧ top < L ∨ er = EINVAL ∧ ¬ in_user s (s + L) ∨ er = EEXIST ∧ overlaps (regions (space σ)) s (s + L) = true.

Lemma page_aligned_add v w : aligned v → aligned w → aligned (v + w).
Proof using Type. unfold aligned. intros Hv Hw. rewrite <- Z.add_mod_idemp_r, Hw, Z.add_0_r; done. Qed.

Lemma wp_mmap_below others G σ L prot file shared Q :
  inv K none others G σ → aligned L → 0 ≤ L → 0 ≤ mmap_top (space σ) → mmap_top (space σ) + PAGE_SIZE < U64 → file_ok L file shared σ →
  (∀ s G' σ', placed others (new_region s L prot file shared σ) G σ G' σ' → overlaps (regions (space σ)) s (s + L) = false → s < s + L → Q (inr s) σ') →
  (∀ er, no_place L er σ → Q (inl er) σ) →
  wp (mmap_below L prot file shared) Q σ.
Proof using Type.
  intros Hi HL HL0 Ht Htop Hf HQ Hn. unfold mmap_below, ok_or. wp_steps. apply wp_try. wp_steps. unfold sub64.
  destruct (Z.leb_spec L (mmap_top (space σ))) as [Hle|Hlt]; [|apply Hn; by left].
  set (s := align_down (mmap_top (space σ) - L)). destruct (align_down_spec (mmap_top (space σ) - L)) as [Hs Hb]. fold s in Hs, Hb.
  apply wp_try. eapply (wp_place others G); [by apply inv_base|done|by apply page_aligned_add|lia|done| |].
  - intros σ' Hp Ho. destruct (new_bounds s L prot file shared σ) as [Es Ee]. pose proof (ok_order _ (pu_region _ _ _ _ _ _ Hp)) as Hlt. rewrite Es, Ee in Hlt.
    unfold upd_space. wp_steps. apply (HQ s G); [|done|done]. apply placed_top, pushed_placed; [by rewrite Es, Ee|done|done].
  - intros er [He|He]; apply Hn; right; [by left|by right].
Qed.

Lemma wp_mmap others G σ hint len prot fixed file shared Q :
  let L := round_up (Z.max len 1) in
  inv K none others G σ → 0 ≤ hint → hint + L + PAGE_SIZE < U64 → 0 ≤ mmap_top (space σ) → mmap_top (space σ) + PAGE_SIZE < U64 → file_ok L file shared σ →
  (fixed = true → in_user (align_down hint) (align_down hint + L)) →
  (∀ s G' σ', placed others (new_region s L prot file shared σ) G σ G' σ' →
     (if fixed then s = align_down hint else overlaps (regions (space σ)) s (s + L) = false ∧ s < s + L) → Q (inr s) σ') →
  (∀ er, fixed = false → no_place L er σ → Q (inl er) σ) →
  wp (mmap hint len prot fixed file shared) Q σ.
Proof using Type*.
  intros L Hi Hh Hmax Ht Htop Hf Hfix HQ Hn. destruct (round_up_spec (Z.max len 1)) as [HLa HLb]. fold L in HLa, HLb.
  destruct (align_down_spec hint) as [Hsa Hsb]. set (s := align_down hint) in *. destruct (new_bounds s L prot file shared σ) as [Es Ee].
  unfold mmap. wp_step. rewrite align_up_val by lia. fold L. wp_step. destruct fixed.
  - specialize (Hfix eq_refl). fold s. pose proof Hfix as (Hu1 & Hu2 & Hu3).
    assert (round_up (s + L) = s + L) as Er by (destruct (round_up_spec (s + L)); pose proof (round_up_le (s + L) (s + L) (page_aligned_add _ _ Hsa HLa)); lia).
    wp_step. eapply (wp_unmap K others G); [done|unfold USER_START in *; lia|lia|done|].
    intros G1 σ1 Hu. rewrite Er, aligned_down in Hu by done.
    assert (live σ1 = live σ) as El by apply (un_calm _ _ _ _ _ _ _ _ Hu).
    assert (new_region s L prot file shared σ1 = new_region s L prot file shared σ) as Eq by (unfold new_region; by rewrite El).
    apply wp_try. eapply (wp_place others G1); [apply (un_base _ _ _ _ _ _ _ _ Hu)|done|by apply page_aligned_add|lia|unfold file_ok in *; by rewrite El| |].
    + intros σ' Hp Ho. wp_steps. rewrite Eq in Hp. apply (HQ s G1); [|done]. eapply unmapped_placed; [|exact Hp]. by rewrite Es, Ee.
    + intros er [[_ []]|[_ Ho]]; [done|]. by rewrite (unmapped_free others s (s + L) G σ G1 σ1 Hu3 Hu) in Ho.
  - assert (wp (mmap_below L prot file shared) Q σ) as Hbelow.
    { eapply (wp_mmap_below others G); [done|done|lia|done..| |]; [intros s' G' σ' Hp Ho Hlt; by eapply HQ|intros er He; by apply Hn]. }
    destruct (Z.leb_spec USER_START hint) as [Hlow|]; [|done]. fold s. wp_step. rewrite add64_ok by (unfold PAGE_SIZE in *; lia). wp_steps.
    destruct (overlaps (regions (space σ)) s (s + L)) eqn:Eo; simpl; [done|]. destruct (Z.leb_spec (s + L) USER_END) as [Hhigh|]; [|done].
    apply wp_try. eapply (wp_place others G); [by apply inv_base|done|by apply page_aligned_add|lia|done| |].
    + intros σ' Hp Ho. wp_steps. apply (HQ s G); [|split; [done|lia]]. apply pushed_placed; [by rewrite Es, Ee|done|done].
    + intros er [[He Hbad]|[_ ?]]; [|congruence]. exfalso. apply Hbad. apply page_user in Hlow. unfold in_user. fold s in Hlow. lia.
Qed.

(** C18. [mmap] places the mapping it was asked for: at the given address, which
    must lie in user space, when it is fixed, and in a free range otherwise.  The
    range shows the file, the shared object or zeros, nothing of an older
    mapping.  A mapping in a free range keeps the invariant and the contents of
    every other page.  So does a fixed mapping, unless it ends inside a shared
    mapping: what is behind the end then starts over where the mapping began in
    the object, and a page there that has no frame yet shows another page of it.
    A fixed mapping never fails; another one fails only when there is no place. *)
Theorem mmap_places others G σ hint len prot fixed file shared :
  let L := round_up (Z.max len 1) in
  inv K none others G σ → 0 ≤ hint → hint + L + PAGE_SIZE < U64 → 0 ≤ mmap_top (space σ) → mmap_top (space σ) + PAGE_SIZE < U64 → file_ok L file shared σ →
  (fixed = true → in_user (align_down hint) (align_down hint + L)) →
  wp (mmap hint len prot fixed file shared) (λ res σ',
    match res with
    | inr s => ∃ G', placed others (new_region s L prot file shared σ) G σ G' σ' ∧
        if fixed then s = align_down hint
        else overlaps (regions (space σ)) s (s + L) = false ∧ inv K none others G' σ' ∧ same_contents others (beyond s (s + L)) G σ G' σ'
    | inl er => fixed = false ∧ σ' = σ ∧ no_place L er σ
    end) σ.
Proof using Type*.
  intros L Hi Hh Hmax Ht Htop Hf Hfix. eapply (wp_mmap others G); [done..| |].
  - intros s G' σ' Hp Hs. exists G'. split; [done|]. destruct fixed; [done|]. destruct Hs as [Ho Hlt]. split; [done|].
    destruct (new_bounds s L prot file shared σ) as [Es Ee]. pose proof (free_uncut _ _ _ Ho Hlt) as Hcut. split.
    + eapply pl_inv; [exact Hp|]. fold L. by rewrite Ee.
    + pose proof (pl_contents _ _ _ _ _ _ Hp) as Hc. fold L in Hc. rewrite Es, Ee in Hc. by apply (uncut_contents _ _ (s + L)).
  - intros er Hx Hno. done.
Qed.
End Map.

#[local] Opaque demo_frame.

Lemma mmap_places_witness :
  wp (mmap 0x500000 0x2000 demo_rw true None false) (λ res σ',
    match res with
    | inr s => ∃ G', placed ∅ [] (new_region s (round_up (Z.max 0x2000 1)) demo_rw None false demo_st) demo_ghost demo_st G' σ' ∧ s = align_down 0x500000
    | inl er => true = false ∧ σ' = demo_st ∧ no_place (round_up (Z.max 0x2000 1)) er demo_st
    end) demo_st.
Proof.
  apply (mmap_places ∅ [] demo_ghost demo_st 0x500000 0x2000 demo_rw true None false demo_inv); done.
Defined.
