(* ===== verification/SpaceProtect.v ===== *)
(** * Changing protections

    [mprotect] rewrites the regions and then the flags of the present pages.
    Between the two the tables lag behind the regions, so the loop is followed
    on the machine alone and the space is checked at the end. *)

From S2P Require Import Prelude Errno UAccess Vma FrameBuddy Frame Paging PagingProofs Cgroup Swap AddrSpace PhysInv PteBits SpaceInv SpaceSteps SpaceDemo SpaceReclaim SpaceFault SpaceMem SpaceUnmap.

Section Protect.
Context {A D F : Type} `{FrameAllocatorLaws A} `{BlockDeviceLaws D} `{MappedFile F}.
Context (K : gset Z).
Implicit Types (σ : St A D F) (G : Ghost) (sp : AddressSpace F) (others : list (AddressSpace F)) (r : Region F).

(** The present pages of [lo, hi) have the flags of [p], the rest is as before. *)
Definition retag (p root lo hi : Z) (k : Z * Z) (e : Z) : Z :=
  if decide (k.1 = root ∧ lo ≤ k.2 < hi) then if has e PRESENT then reflag e p else e else e.

Record retagged (p root lo hi : Z) G σ G' σ' : Prop := {
  rt_entry k : get_pte (gmaps G') k = retag p root lo hi k (get_pte (gmaps G) k);
  rt_frames : gF G' = gF G ∧ gU G' = gU G ∧ gown G' = gown G;
  rt_rest : gX G' = gX G ∧ glost G' = glost G;
  rt_state : σ' = with_phys (phys σ') σ;
  rt_kept : pages_kept (gU G) (gown G) (phys σ) (phys σ');
}.

Lemma retag_bits p root lo hi k e : pfn (retag p root lo hi k e) = pfn e ∧ swapped (retag p root lo hi k e) = swapped e.
Proof using Type.
  unfold retag. case_decide; [|done]. destruct (has e PRESENT) eqn:Hp; [|done]. destruct (reflag_entry e p) as (E1 & _ & _). split; [done|].
  pose proof (present_pfn e Hp) as Hf. rewrite (pfn_not_swapped e _ Hf). eapply pfn_not_swapped. by rewrite E1.
Qed.

Lemma retagged_refl p root lo G σ : retagged p root lo lo G σ G σ.
Proof using Type. split; try done; [|by destruct σ]. intros k. unfold retag. rewrite decide_False; [done|lia]. Qed.

Lemma retagged_trans p root lo mid hi G σ G1 σ1 G2 σ2 :
  lo ≤ mid ≤ hi → retagged p root lo mid G σ G1 σ1 → retagged p root mid hi G1 σ1 G2 σ2 → retagged p root lo hi G σ G2 σ2.
Proof using Type.
  intros Hm [E1 (F1 & U1 & O1) [X1 L1] S1 [R1 M1]] [E2 (F2 & U2 & O2) [X2 L2] S2 [R2 M2]]. split.
  - intros k. rewrite E2, E1. unfold retag. repeat case_decide; try done; lia.
  - by rewrite F2, U2, O2.
  - by rewrite X2, L2.
  - rewrite S2, S1. done.
  - rewrite U1, O1 in M2. split; [congruence|]. intros f HU Ho. rewrite (M2 f HU Ho). by apply M1.
Qed.

Lemma wp_retag_page h G σ root va ptr p Q :
  machine K h G σ → page_of (gown G) root va → leaf_ptr (gown G) root va ptr → has (get_pte (gmaps G) (root, va)) PRESENT = true →
  (∀ G' σ', machine K h G' σ' → retagged p root va (va + PAGE_SIZE) G σ G' σ' → Q tt σ') →
  wp (on_phys (write_entry ptr (reflag (get_pte (gmaps G) (root, va)) p))) Q σ.
Proof using Type.
  intros Hm Hpg Hptr Hpr HQ. set (e := get_pte (gmaps G) (root, va)) in *. destruct (reflag_entry e p) as (E1 & E2 & _).
  pose proof (present_pfn e Hpr) as Hf. apply wp_on_phys. eapply (wp_write_flags K); [apply (mc_phys _ _ _ _ Hm)|done|done|exact E1|].
  intros p' Hp' Hkept. apply (HQ (on_entry (gF G) (gU G) (gown G) (root, va) (reflag e p) G)).
  - apply (machine_entry K h); [done|apply (mc_held _ _ _ _ Hm)| |done]. eapply pfn_not_swapped. by rewrite E1.
  - split; try done. intros [r a]. simpl. rewrite get_set_pte. unfold retag. simpl. destruct (decide ((r, a) = (root, va))) as [[= -> ->]|Hne].
    + rewrite decide_True by (unfold PAGE_SIZE; lia). fold e. by rewrite Hpr.
    + case_decide as Hd; [|done]. destruct Hd as (-> & Ha). destruct (has (get_pte (gmaps G) (root, a)) PRESENT) eqn:Hpa; [|done]. exfalso.
      assert (aligned a) as Hal. { apply (entry_aligned K h G σ root a Hm). intros Ez. by rewrite Ez in Hpa. }
      assert (va < a) as Hlt by (assert (a ≠ va) by congruence; lia). apply page_aligned_le in Hlt; [lia|apply Hpg|done].
Qed.

Lemma retagged_none h p root va G σ : machine K h G σ → aligned va → has (get_pte (gmaps G) (root, va)) PRESENT = false →
  retagged p root va (va + PAGE_SIZE) G σ G σ.
Proof using Type.
  intros Hm Hal Hno. split; try done; [|by destruct σ]. intros [r a]. unfold retag. simpl. case_decide as Hd; [|done].
  destruct Hd as (-> & Ha). destruct (has (get_pte (gmaps G) (root, a)) PRESENT) eqn:Hpa; [|done]. exfalso. assert (aligned a) as Hal'. { apply (entry_aligned K h G σ root a Hm). intros Ez. by rewrite Ez in Hpa. }
  destruct (decide (a = va)) as [->|]; [congruence|]. assert (va < a) as Hlt by lia. apply page_aligned_le in Hlt; [lia|done|done].
Qed.

Lemma wp_protect_pages n h root p : ∀ G σ va Q,
  machine K h G σ → root_ok (gown G) root → aligned va → 0 ≤ va → va + Z.of_nat n * PAGE_SIZE ≤ USER_END →
  (∀ G' σ', machine K h G' σ' → retagged p root va (va + Z.of_nat n * PAGE_SIZE) G σ G' σ' → Q tt σ') →
  wp (protect_pages n root va p) Q σ.
Proof using Type.
  induction n as [|n IH]; intros G σ va Q Hm Hr Ha Hlo Hhi HQ; cbn [protect_pages].
  { wp_steps. apply (HQ G); [done|]. rewrite Z.add_0_r. apply retagged_refl. }
  assert (page_of (gown G) root va) as Hpg by (split; [done|unfold user_va, USER_END, PAGE_SIZE in *; lia|done]).
  assert (∀ G1 σ1, machine K h G1 σ1 → retagged p root va (va + PAGE_SIZE) G σ G1 σ1 → wp (protect_pages n root (va + PAGE_SIZE) p) Q σ1) as Hnext.
  { intros G1 σ1 Hm1 Hrt. apply (IH G1); [done| | |unfold PAGE_SIZE in *; lia..|].
    - destruct (rt_frames _ _ _ _ _ _ _ _ Hrt) as (_ & _ & ->). done.
    - unfold aligned, PAGE_SIZE in *. rewrite <- Z.add_mod_idemp_r by lia. simpl. by rewrite Z.add_0_r.
    - intros G2 σ2 Hm2 Hrt2. apply (HQ G2); [done|]. eapply (retagged_trans _ _ _ (va + PAGE_SIZE)); [unfold PAGE_SIZE; lia|exact Hrt|].
      by replace (va + Z.of_nat (S n) * PAGE_SIZE) with (va + PAGE_SIZE + Z.of_nat n * PAGE_SIZE) by lia. }
  wp_step. apply wp_on_phys. eapply (wp_leaf K); [apply (mc_phys _ _ _ _ Hm)|done| |].
  - intros ptr Hptr. rewrite with_phys_id. wp_step. wp_step. apply wp_on_phys.
    eapply (wp_read_leaf K); [apply (mc_phys _ _ _ _ Hm)|done|done|]. rewrite with_phys_id.
    destruct (has (get_pte (gmaps G) (root, va)) PRESENT) eqn:Hpr; [by eapply wp_retag_page|]. wp_steps. apply (Hnext G); [done|by eapply retagged_none].
  - intros Hz. rewrite with_phys_id. wp_steps. apply (Hnext G); [done|]. eapply retagged_none; [done|done|by rewrite Hz].
Qed.

Lemma spaceless_protect_pages n : ∀ root va p, spaceless (A := A) (D := D) (F := F) (protect_pages n root va p).
Proof using Type.
  induction n as [|n IH]; intros root va p; cbn [protect_pages]; [apply spaceless_ret|].
  apply spaceless_bind; [apply spaceless_on_phys|]. intros o. apply spaceless_bind; [|intros _; apply IH].
  destruct o as [ptr|]; [|apply spaceless_ret]. apply spaceless_bind; [apply spaceless_on_phys|]. intros e.
  destruct (has e PRESENT); [apply spaceless_on_phys|apply spaceless_ret].
Qed.

(** ** [mprotect] *)

(** The protection [p] inside of [lo, hi). *)
Definition reprotect (lo hi p : Z) (rs : list (Region F)) (a : Z) : option (Z * bool * Source F) :=
  match view rs a with
  | Some (q, g, src) => Some (if (lo <=? a) && (a <? hi) then p else q, g, src)
  | None => None
  end.

Lemma protected_view lo hi p rs a : no_shared_cut hi rs → protected lo hi p rs a = reprotect lo hi p rs a.
Proof using Type.
  intros Hc. unfold protected, reprotect, view. destruct (region_at rs a) as [r|] eqn:Hr; [|done]. simpl.
  apply region_at_Some in Hr as [Hin Ha]. unfold no_shared_cut in Hc. rewrite Forall_forall in Hc. specialize (Hc r Hin). do 2 f_equal.
  destruct (Z.leb_spec hi a), (Z.ltb_spec (start r) hi); simpl; try done. destruct (lo <? end_ r); [|done]. unfold tail_source. destruct (shared r); [|done].
  exfalso. apply Hc; [done|lia].
Qed.

(** No page that becomes writable is shared with another space: [mprotect]
    makes every page writable that is not marked copy-on-write. *)
Definition writable_alone (lo hi p : Z) G σ : Prop :=
  can_write p = true → ∀ a f, lo ≤ a < hi → pfn (get_pte (gmaps G) (pml4 (space σ), a)) = Some f →
    has (get_pte (gmaps G) (pml4 (space σ), a)) COW = false → (∀ ko, pages σ !! ko ≠ Some f) → count (phys σ) f = 1.

(** The regions have the protection [p] inside of [lo, hi) and are cut at [hi]. *)
Record reprotected others (lo hi p : Z) G σ G' σ' : Prop := {
  rp_base : base_inv K others G' σ';
  rp_inv : no_shared_cut hi (regions (space σ)) → writable_alone lo hi p G σ → inv K none others G' σ';
  rp_view a : view (regions (space σ')) a = protected lo hi p (regions (space σ)) a;
  rp_entry k : get_pte (gmaps G') k = retag p (pml4 (space σ)) lo hi k (get_pte (gmaps G) k);
  rp_contents : cut_at others aligned hi G σ G' σ';
  rp_calm : calm nothing G σ G' σ';
}.

Lemma retagged_calm h p root lo hi G σ G' σ' : machine K h G σ → retagged p root lo hi G σ G' σ' → root = pml4 (space σ) → calm nothing G σ G' σ'.
Proof using Type.
  intros Hm [E (HF & HU & HO) [HX HL] HS Hkept] ->. pose proof Hkept as [Hrefs Hmem]. rewrite HS.
  assert (∀ x, count (phys σ') x = count (phys σ) x) as Ec by (intros; unfold count; by rewrite Hrefs).
  apply calm_frames; try done. split; rewrite ?HO, ?HF, ?HU; try done.
  - intros [r a] Hne. rewrite E. unfold retag. simpl in *. rewrite decide_False; [done|]. by intros [? _].
  - intros k f _ _. simpl. by rewrite Ec.
  - intros k _ Hn. rewrite E. unfold retag. case_decide; [|done]. unfold pfn in Hn. by destruct (has (get_pte (gmaps G) k) PRESENT).
  - intros k f _. rewrite E. by destruct (retag_bits p (pml4 (space σ)) lo hi k (get_pte (gmaps G) k)) as [-> _].
  - intros k _. unfold data. rewrite E. destruct (retag_bits p (pml4 (space σ)) lo hi k (get_pte (gmaps G) k)) as [-> ->].
    destruct (pfn (get_pte (gmaps G) k)) as [x|] eqn:Ex; [|done].
    unfold frame_bytes. simpl. by rewrite (kept_mapped K h G σ (phys σ') k x Hm Hkept Ex).
  - intros ko _. apply obj_same; [done|]. intros ko' x Hk. simpl. by eapply kept_shared.
Qed.

Lemma space_ok_protected others lo hi p G σ G1 σ1 rs :
  inv K none others G σ → machine K none G1 σ1 → retagged p (pml4 (space σ)) lo hi G σ G1 σ1 → writable_alone lo hi p G σ →
  regions_wf rs → (∀ a, view rs a = reprotect lo hi p (regions (space σ)) a) →
  space_ok G1 (with_space (set_regions rs (space σ)) σ1) (set_regions rs (space σ)).
Proof using Type.
  intros Hi Hm1 Hrt Hw Hwf Hv. pose proof Hrt as [E (_ & _ & HO) _ HS [Hrefs _]]. pose proof (iv_space _ _ _ _ _ Hi) as [Hr _ _ Hpte].
  assert (live σ1 = live σ ∧ pages σ1 = pages σ) as [El Ep] by (by rewrite HS).
  assert (∀ x, count (phys σ1) x = count (phys σ) x) as Ec by (intros; unfold count; by rewrite Hrefs).
  split; simpl; [by rewrite HO|done| |].
  - rewrite El. eapply (regions_live K none others G σ); [done|done|]. intros a v. rewrite Hv. unfold reprotect.
    destruct (view (regions (space σ)) a) as [[[q g] src]|]; [|done]. intros [= <-]. eexists. by split.
  - intros va e Hk. apply (maps_get _ _ _ _ _ _ Hm1) in Hk as [Hk Hz]. rewrite E in Hk. set (e0 := get_pte (gmaps G) (pml4 (space σ), va)) in *.
    assert (e0 ≠ 0) as Hz0. { intros E0. rewrite E0 in Hk. unfold retag in Hk. by case_decide; simpl in Hk. }
    destruct (Hpte va e0) as (q & g & src & Hvw & Hok); [by apply (maps_get _ _ _ _ _ _ (iv_machine _ _ _ _ _ Hi))|].
    rewrite Hv. unfold reprotect. rewrite Hvw. eexists _, g, src. split; [done|]. rewrite Ep. apply (pte_ok_mono (pages σ) _ (count (phys σ))); [|done|intros f _; by rewrite Ec|done].
    unfold retag in Hk. simpl in Hk. destruct (decide (pml4 (space σ) = pml4 (space σ) ∧ lo ≤ va < hi)) as [[_ Hin]|Hout].
    + rewrite (proj2 (Z.leb_le _ _)), (proj2 (Z.ltb_lt _ _)) by lia. simpl. destruct (has e0 PRESENT) eqn:Hpr.
      * destruct (reflag_entry e0 p) as (E1 & E2 & E3). rewrite Hk in E1, E2, E3. pose proof (present_pfn e0 Hpr) as Hf.
        apply (pte_ok_bits _ _ q p src e0 e (entry_addr e0)); try done; [by rewrite E1|]. intros Hpriv Hcw Hcow.
        apply (Hw Hcw va); [done|done|done|]. by eapply private_unshared.
      * subst e. unfold pte_ok in *. assert (pfn e0 = None) as Hn by (unfold pfn; by rewrite Hpr). rewrite Hn in *. done.
    + subst e. destruct (Z.leb_spec lo va), (Z.ltb_spec va hi); simpl; try done. exfalso. apply Hout. split; [done|lia].
Qed.

Lemma protected_source lo hi p (rs : list (Region F)) a : lo < hi → snd <$> protected lo hi p rs a = cut_source hi rs a.
Proof using Type.
  intros Hlt. unfold protected, cut_source. destruct (region_at rs a) as [r|] eqn:Hr; [|done]. apply region_at_Some in Hr as [_ Ha]. simpl. f_equal.
  destruct (Z.leb_spec hi a), (Z.ltb_spec (start r) hi), (Z.ltb_spec lo (end_ r)); simpl; try done; lia.
Qed.

Lemma base_protected others lo hi p G σ G1 σ1 rs :
  inv K none others G σ → machine K none G1 σ1 → retagged p (pml4 (space σ)) lo hi G σ G1 σ1 → lo < hi →
  regions_wf rs → (∀ a, view rs a = protected lo hi p (regions (space σ)) a) → base_inv K others G1 (with_space (set_regions rs (space σ)) σ1).
Proof using Type*.
  intros Hi Hm1 Hrt Hlt Hwf Hv. destruct (inv_base K others G σ Hi) as [Hm Hr Hg Hl Hp Ho Hn]. pose proof Hrt as [E (_ & _ & HO) _ HS _].
  assert (space σ1 = space σ ∧ live σ1 = live σ) as [Es El] by (by rewrite HS).
  pose proof (cm_evolves _ _ _ _ _ (retagged_calm none p _ lo hi G σ G1 σ1 Hm Hrt eq_refl)) as Hev.
  assert (base_inv K others G1 σ1) as Hb.
  { split; rewrite ?Es, ?El, ?HO; try done.
    - intros a Hz. apply Hp. intros E0. apply Hz. rewrite E, E0. unfold retag. by case_decide.
    - rewrite Forall_forall in *. intros sp Hin. by eapply other_ok, Hn; eauto. }
  rewrite <- Es. apply base_set_regions; [done|done|..]; rewrite Es.
  - intros a o off. unfold source_at. rewrite Hv, protected_source by done. apply cut_source_shared.
  - intros a Hz. rewrite <- Es in Hz. apply (bi_entry _ _ _ _ Hb) in Hz as [v Hva]. rewrite Es in Hva. rewrite Hv. unfold protected, view in *.
    destruct (region_at (regions (space σ)) a); [|done]. simpl. eauto.
Qed.

Lemma wp_protect others G σ addr len p Q :
  inv K none others G σ → 0 ≤ addr → 0 < len → addr + len ≤ USER_END →
  (∀ G' σ', reprotected others (align_down addr) (round_up (addr + len)) p G σ G' σ' → Q (inr tt) σ') →
  (¬ (∃ r, r ∈ regions (space σ) ∧ start r ≤ align_down addr ∧ round_up (addr + len) ≤ end_ r) → Q (inl ENOMEM) σ) →
  wp (protect addr len p) Q σ.
Proof using Type*.
  intros Hi Ha0 Hl Hend HQ Hn. destruct (range_bounds addr len Ha0 ltac:(lia) Hend) as (Hlo & Hhi & Hle & Htop).
  set (lo := align_down addr) in *. set (hi := round_up (addr + len)) in *.
  assert (lo < hi) as Hlt. { pose proof (align_down_spec addr) as [_ ?]. pose proof (round_up_spec (addr + len)) as [_ ?]. unfold lo, hi. lia. }
  unfold protect. wp_step. rewrite add64_ok by (unfold U64, USER_END in *; lia). eapply wp_need; [done|]. wp_step.
  rewrite align_up_val by (unfold U64, USER_END, PAGE_SIZE in *; lia). eapply wp_need; [done|]. fold lo hi. wp_steps.
  destruct (existsb _ _) eqn:Eb; simpl.
  2:{ wp_steps. apply Hn. intros (r & Hin & ? & ?). rewrite <- not_true_iff_false in Eb. apply Eb, existsb_exists. exists r.
      rewrite <- list_elem_of_In, andb_true_iff, !Z.leb_le. done. }
  destruct (split_ok lo hi p (regions (space σ))) as (rs & Hrs & Hwf & Hv); [apply (so_regions _ _ _ (iv_space _ _ _ _ _ Hi))|done|done|done|].
  rewrite Hrs. wp_steps. unfold upd_space. wp_steps. apply wp_root. simpl.
  wp_step. pose proof (pages_exact lo hi Hlo Hhi ltac:(lia)) as Hpn.
  apply wp_spaceless; [apply spaceless_protect_pages|]. pose proof (iv_machine _ _ _ _ _ Hi) as Hm.
  eapply (wp_protect_pages _ none (pml4 (space σ)) p G σ lo); [done|apply (so_root _ _ _ (iv_space _ _ _ _ _ Hi))|done|lia|by rewrite Hpn|].
  rewrite Hpn. intros G1 σ1 Hm1 Hrt. wp_steps. pose proof (retagged_calm none p _ lo hi G σ G1 σ1 Hm Hrt eq_refl) as Hcm.
  pose proof (rt_state _ _ _ _ _ _ _ _ Hrt) as ES. set (σ2 := with_space (set_regions rs (space σ)) σ1).
  assert (calm nothing G σ G1 σ2) as Hcm2.
  { eapply calm_trans; [exact Hcm|]. apply calm_frames; try done. split; try done. by rewrite ES. }
  assert (machine K none G1 σ2) as Hm2 by (by destruct Hm1).
  apply (HQ G1). split; [by apply (base_protected others lo hi p G)| |done|apply (rt_entry _ _ _ _ _ _ _ _ Hrt)| |done].
  - intros Hcut Hw. eapply inv_step; [exact Hi|apply Hcm2|exact Hm2|]. eapply space_ok_protected; [done..|]. intros a. by rewrite Hv, protected_view.
  - split; [intros; apply contents_nothing, Hcm2|]. intros page Hal. rewrite (contents_nothing _ _ _ _ _ _ (cm_evolves _ _ _ _ _ Hcm2)). simpl.
    apply contents_cut; [apply (so_regions _ _ _ (iv_space _ _ _ _ _ Hi))|done|done|done|]. intros a _. unfold source_at. by rewrite Hv, protected_source.
Qed.

(** C19. [mprotect] changes the protection of exactly the given range, in the
    regions and in the page tables: present pages of the range get exactly the
    new permissions, and copy-on-write pages stay read-only.  It fails, without
    effect, when no region holds the range.  No page of any space changes its
    contents, except when the range ends inside a shared mapping: what is behind
    the end then starts over where the mapping began in the object, and a page
    there that has no frame yet shows another page of it.  The invariant holds
    again if no shared mapping is cut in this way and no private page that
    becomes writable is referred to a second time; the code checks neither. *)
Theorem mprotect_exact others G σ addr len bits :
  inv K none others G σ → 0 ≤ addr → 0 < len → addr + len ≤ USER_END →
  wp (sys_mprotect addr len bits) (λ res σ',
    match res with
    | inr _ => ∃ G', reprotected others (align_down addr) (round_up (addr + len)) (prot_from bits) G σ G' σ'
    | inl er => er = ENOMEM ∧ σ' = σ ∧ ¬ ∃ r, r ∈ regions (space σ) ∧ start r ≤ align_down addr ∧ round_up (addr + len) ≤ end_ r
    end) σ.
Proof using Type*.
  intros Hi Ha Hl Hend. unfold sys_mprotect. apply wp_try. eapply (wp_protect others G); [done..| |].
  - intros G' σ' Hp. wp_steps. by exists G'.
  - intros Hno. done.
Qed.
End Protect.

#[local] Opaque demo_frame.

(** The first of the two pages of the shared mapping becomes read-only. *)
Lemma mprotect_exact_witness :
  wp (sys_mprotect 0x600000 0x1000 1) (λ res σ',
    match res with
    | inr _ => ∃ G', reprotected ∅ [] (align_down 0x600000) (round_up (0x600000 + 0x1000)) (prot_from 1) demo_ghost demo_st G' σ'
    | inl er => er = ENOMEM ∧ σ' = demo_st ∧ ¬ ∃ r, r ∈ regions (space demo_st) ∧ start r ≤ align_down 0x600000 ∧ round_up (0x600000 + 0x1000) ≤ end_ r
    end) demo_st.
Proof. by apply (mprotect_exact ∅ [] demo_ghost demo_st 0x600000 0x1000 1 demo_inv). Defined.
