(* ===== verification/SpaceDrop.v ===== *)
(** * Teardown

    Dropping a space: every page, swap slot and table it has goes back, and no
    other space or object notices. *)

From S2P Require Import Prelude Errno UAccess Vma FrameBuddy Frame Paging PagingProofs Cgroup Swap AddrSpace PhysInv PteBits SpaceInv SpaceSteps SpaceDemo SpaceReclaim SpaceFault SpaceMem SpaceUnmap.

Section Drop.
Context {A D F : Type} `{FrameAllocatorLaws A} `{BlockDeviceLaws D} `{MappedFile F}.
Context (K : gset Z).
Implicit Types (σ : St A D F) (G : Ghost) (sp : AddressSpace F) (others : list (AddressSpace F)) (r : Region F).

(** ** The tables *)

Lemma pte_mem own (p p' : Phys A) root va :
  pt_wf own p → root_ok own root → user_va va → mem p' = mem p → pte p' root va = pte p root va.
Proof using Type.
  intros Hwf Hr Hva Em. assert (pt_wf own p') as Hwf' by (by apply (pt_wf_mem own p)).
  destruct (leaf_entry_ok own p root va Hwf Hva Hr) as ([[t i]|] & _ & Ho); simpl in Ho.
  - destruct Ho as (-> & Ht & es & Hes & ->). eapply pte_own; try done. unfold table. by rewrite Em.
  - destruct Ho as [-> Hno]. by eapply pte_missing.
Qed.

(** The entries of other spaces, and the references of the space [root]. *)
Definition elsewhere (root : Z) (maps : gmap (Z * Z) Z) : gmap (Z * Z) Z := filter (λ kv, kv.1.1 ≠ root) maps.
Definition refs_of (root : Z) (maps : gmap (Z * Z) Z) (f : Z) : Z := refs_to (filter (λ kv, ¬ kv.1.1 ≠ root) maps) f.

Lemma get_elsewhere root maps k : get_pte (elsewhere root maps) k = if decide (k.1 = root) then 0 else get_pte maps k.
Proof using Type.
  unfold get_pte, elsewhere. case_decide as Hk.
  - destruct (filter _ maps !! k) as [e|] eqn:E; [|done]. by apply map_lookup_filter_Some in E as [_ ?].
  - f_equal. destruct (maps !! k) as [e|] eqn:E.
    + by apply map_lookup_filter_Some.
    + apply map_lookup_filter_None. by left.
Qed.

(** Freeing the tables of a space that may still have pages: their references
    are held by no one after. *)
Lemma wp_teardown F0 U own maps ext (p : Phys A) root Q :
  phys_inv K F0 U own maps ext p → root_ok own root →
  (∀ p', phys_inv K (F0 ∪ owned_by own root) (U ∖ owned_by own root) (disown own root) (elsewhere root maps) (λ f, ext f + refs_of root maps f) p' →
     mem p' = mem p → refs p' = refs p → Q tt p') →
  wp (free_tables root) Q p.
Proof using Type.
  intros Hi Hr HQ. pose proof (ph_paging _ _ _ _ _ _ _ Hi) as Hp. pose proof (pi_wf _ _ _ _ Hp) as Hwf.
  assert (owned_by own root ⊆ U) as HS.
  { intros t (l & x & Ho)%elem_of_owned. apply (pi_own _ _ _ _ Hp). by eapply elem_of_dom_2. }
  eapply wp_mono; [by apply (wp_free_tables F0 U own)|]. intros [] p' (Hrep & Em & Erefs & Eram).
  assert (∀ x, count p' x = count p x) as Ec by (intros; unfold count; by rewrite Erefs).
  assert (∀ t, t ∈ dom (disown own root) ↔ t ∈ dom own ∧ t ∉ owned_by own root) as Hdom.
  { intros t. rewrite !elem_of_dom, elem_of_owned. split.
    - intros [[[r l] x] [Ho Hne]%disown_lookup]. split; [eauto|]. intros (l' & x' & ?). congruence.
    - intros [[[[r l] x] Ho] Hn]. exists (r, l, x). apply disown_lookup. split; [done|]. intros ->. apply Hn. eauto. }
  apply HQ; [|done|done]. split; rewrite ?Em; try setoid_rewrite Ec; [| | | |apply Hi| | |].
  - split; [done| |apply disown_wf; by apply (pt_wf_mem own p)]. intros t [Ho Hn]%Hdom. apply elem_of_difference. split; [by apply (pi_own _ _ _ _ Hp)|done].
  - split.
    + intros root' va [Ho Hne]%disown_lookup Hva Hal. rewrite (pte_mem own p), get_elsewhere, decide_False by done.
      by apply (pa_pte _ _ _ (ph_abs _ _ _ _ _ _ _ Hi)).
    + intros root' va e [Hm Hne]%map_lookup_filter_Some. destruct (pa_dom _ _ _ (ph_abs _ _ _ _ _ _ _ Hi) _ _ _ Hm) as (Hz & Hro & ? & ?).
      split_and!; try done. by apply disown_lookup.
  - intros f. pose proof (ph_ext _ _ _ _ _ _ _ Hi f). pose proof (refs_nonneg (filter (λ kv, ¬ kv.1.1 ≠ root) maps) f). unfold refs_of. lia.
  - intros f. rewrite (ph_refs _ _ _ _ _ _ _ Hi f). unfold refs_of, elsewhere, refs_to. rewrite (tally_split pfn maps f (λ kv, kv.1.1 ≠ root)). lia.
  - intros f Hf. destruct (ph_used _ _ _ _ _ _ _ Hi f Hf) as (HU & Hnd & Hpg). split_and!; [|set_solver +Hnd Hdom|done].
    apply elem_of_difference. split; [done|]. intros (l & x & Ho)%elem_of_owned. apply Hnd. by eapply elem_of_dom_2.
  - intros f [HU Hn]%elem_of_difference. destruct (ph_known _ _ _ _ _ _ _ Hi f HU) as [?|?]; [left; by apply Hdom|by right].
  - intros f Hf. rewrite Eram. apply (ph_ram _ _ _ _ _ _ _ Hi). set_solver +Hf HS.
Qed.

(** A space without pages loses no references. *)
Lemma elsewhere_none own (p : Phys A) root maps :
  pt_abs own p maps → (∀ va, get_pte maps (root, va) = 0) → elsewhere root maps = maps ∧ ∀ f, refs_of root maps f = 0.
Proof using Type.
  intros Habs Hno. assert (∀ k e, maps !! k = Some e → k.1 ≠ root) as Hne.
  { intros [r va] e Hk E. simpl in E. subst r. destruct (pa_dom _ _ _ Habs _ _ _ Hk) as (Hz & _). apply Hz. specialize (Hno va). unfold get_pte in Hno. simpl in Hno. by rewrite Hk in Hno. }
  assert (elsewhere root maps = maps) as E.
  { unfold elsewhere. apply map_filter_id. intros k e Hk. by eapply Hne. }
  split; [done|]. intros f. pose proof (tally_split pfn maps f (λ kv, kv.1.1 ≠ root)) as Hs. unfold elsewhere in E. rewrite E in Hs. unfold refs_of, refs_to. lia.
Qed.

(** ** The pages *)

(** The pages of the space [root]. *)
Definition mine (root : Z) (t : Place) : Prop := ∃ a, t = Mapped (root, a).

Definition covered (rs : list (Region F)) (a : Z) : Prop := Exists (λ r, start r ≤ a < end_ r) rs.

#[local] Instance covered_dec rs a : Decision (covered rs a).
Proof using Type. apply _. Defined.

(** How many pages of [rs] have an entry that [sel] accepts. *)
Definition total (sel : Z → option Z) (maps : gmap (Z * Z) Z) (root : Z) (rs : list (Region F)) : Z :=
  foldr (λ r n, pages_with sel maps root (start r) (pages_between (start r) (end_ r)) + n) 0 rs.

Lemma total_same sel maps maps' root rs :
  Forall region_ok rs → (∀ a, covered rs a → get_pte maps' (root, a) = get_pte maps (root, a)) → total sel maps' root rs = total sel maps root rs.
Proof using Type.
  induction 1 as [|r rs Hok Hall IH]; intros Hs; [done|]. simpl. rewrite IH by (intros a Ha; apply Hs; by right).
  f_equal. apply pages_with_same. rewrite pages_fit by done. intros a Ha. apply Hs. by left.
Qed.

Record emptied (root : Z) (rs : list (Region F)) G σ G' σ' : Prop := {
  em_calm : calm (mine root) G σ G' σ';
  em_entry k : get_pte (gmaps G') k = if decide (k.1 = root ∧ covered rs k.2) then 0 else get_pte (gmaps G) k;
  em_space : space σ' = space σ;
  em_cgroups : cgroups σ' = cgroups σ;
}.

Lemma wp_drop_regions rs others : ∀ G σ freed sw Q,
  inv K none others G σ → regions_wf rs →
  (∀ G' σ', inv K none others G' σ' → emptied (pml4 (space σ)) rs G σ G' σ' →
     Q (freed + total pfn (gmaps G) (pml4 (space σ)) rs, sw + total swapped (gmaps G) (pml4 (space σ)) rs) σ') →
  wp (drop_regions (pml4 (space σ)) rs freed sw) Q σ.
Proof using Type*.
  induction rs as [|r rs IH]; intros G σ freed sw Q Hi [Hall Hap] HQ; cbn [drop_regions].
  { wp_steps. specialize (HQ G σ Hi). cbn [total foldr] in HQ. rewrite !Z.add_0_r in HQ. apply HQ. split; [apply calm_refl| |done|done].
    intros k. rewrite decide_False; [done|]. intros [_ Hc]. by apply Exists_nil in Hc. }
  apply Forall_cons in Hall as [Hok Hall]. inversion Hap as [|? ? Har Hap']; subst. pose proof (pages_fit r Hok) as Hfit. wp_step.
  eapply (wp_unmap_pages K _ none others G); [done|apply Hok|pose proof (ok_low r Hok); unfold USER_START in *; lia|rewrite Hfit; apply Hok|].
  rewrite Hfit. intros G1 σ1 Hi1 Hw. rewrite <- (wi_space _ _ _ _ _ _ _ Hw). apply (IH G1); [done|done|].
  assert (∀ a, covered rs a → get_pte (gmaps G1) (pml4 (space σ), a) = get_pte (gmaps G) (pml4 (space σ), a)) as Hkeep.
  { intros a (q & Hq & Ha)%Exists_exists. rewrite (wi_entry _ _ _ _ _ _ _ Hw). rewrite decide_False; [done|]. simpl.
    rewrite Forall_forall in Har. specialize (Har q Hq). unfold apart in Har. lia. }
  intros G2 σ2 Hi2 [Hc2 He2 Hs2 Hg2]. rewrite (wi_space _ _ _ _ _ _ _ Hw) in *. specialize (HQ G2 σ2 Hi2). cbn [fst snd].
  rewrite !(total_same _ (gmaps G) (gmaps G1)), <- !Z.add_assoc; [|done| |done|].
  - apply HQ. split.
    + eapply calm_trans; [|exact Hc2]. eapply calm_weaken; [|apply (wi_calm _ _ _ _ _ _ _ Hw)]. intros t (a & -> & _). by exists a.
    + intros k. rewrite He2, (wi_entry _ _ _ _ _ _ _ Hw). unfold covered. repeat case_decide; try done; naive_solver (rewrite ?Exists_cons in *; naive_solver).
    + by rewrite Hs2.
    + rewrite Hg2. apply (wi_cgroups _ _ _ _ _ _ _ Hw).
  - exact Hkeep.
  - exact Hkeep.
Qed.

(** ** [Drop for AddressSpace] *)

Lemma wp_on_phys_seq (m1 m2 : Exec (Phys A) unit) Q σ :
  wp (on_phys (_ ← m1; m2)) Q σ → wp (on_phys m1) (λ _ σ1, wp (on_phys m2) Q σ1) σ.
Proof using Type.
  unfold wp, on_phys, mbind, exec_bind. destruct (m1 (phys σ)) as [[x p]|]; [|done]. simpl. by destruct (m2 p) as [[y p']|].
Qed.

(** Nothing of the space [root] is left; the other spaces, the objects and the
    lost references are as before. *)
Record dropped others G σ G' σ' : Prop := {
  dr_machine : machine K none G' σ';
  dr_others : Forall (space_ok G' σ') others;
  dr_contents sp page : sp ∈ others → contents G' σ' sp page = contents G σ sp page;
  dr_entries va : get_pte (gmaps G') (pml4 (space σ), va) = 0;
  dr_owner t x : gown G' !! t = Some x → x.1.1 ≠ pml4 (space σ);
  dr_tables : owned_by (gown G) (pml4 (space σ)) ⊆ gF G';
  dr_total : gF G' ∪ gU G' = gF G ∪ gU G;
  dr_rest : glost G' = glost G ∧ pages σ' = pages σ ∧ live σ' = live σ;
  dr_refund : cgroups σ' = refund σ (total pfn (gmaps G) (pml4 (space σ)) (regions (space σ)))
                                    (total swapped (gmaps G) (pml4 (space σ)) (regions (space σ)));
}.

Lemma emptied_all others G σ G' σ' va :
  inv K none others G σ → emptied (pml4 (space σ)) (regions (space σ)) G σ G' σ' → get_pte (gmaps G') (pml4 (space σ), va) = 0.
Proof using Type.
  intros Hi He. rewrite (em_entry _ _ _ _ _ _ He). case_decide as Hd; [done|].
  destruct (decide (get_pte (gmaps G) (pml4 (space σ), va) = 0)) as [|Hz]; [done|]. exfalso. apply Hd. split; [done|].
  destruct (so_pte _ _ _ (iv_space _ _ _ _ _ Hi) va _ (proj2 (maps_get _ _ _ _ _ _ (iv_machine _ _ _ _ _ Hi)) (conj eq_refl Hz))) as (p & g & src & Hv & _).
  unfold view in Hv. destruct (region_at (regions (space σ)) va) as [r|] eqn:Hr; [|done]. apply region_at_Some in Hr as [Hin Ha].
  apply Exists_exists. by exists r.
Qed.

(** Freeing the tables of a space without pages. *)
Lemma wp_free_space others G σ Q :
  inv K none others G σ → (∀ va, get_pte (gmaps G) (pml4 (space σ), va) = 0) →
  (∀ F' U' p', let G' := on_frames F' U' (disown (gown G) (pml4 (space σ))) G in let σ' := with_phys p' σ in
     F' = gF G ∪ owned_by (gown G) (pml4 (space σ)) → U' = gU G ∖ owned_by (gown G) (pml4 (space σ)) → mem p' = mem (phys σ) →
     machine K none G' σ' → Forall (space_ok G' σ') others → Q tt σ') →
  wp (on_phys (free_tables (pml4 (space σ)))) Q σ.
Proof using Type.
  intros Hi Hno HQ. apply wp_on_phys. eapply wp_teardown; [apply (inv_phys _ _ _ _ _ Hi)|apply (so_root _ _ _ (iv_space _ _ _ _ _ Hi))|].
  intros p' Hp' Em Erefs. destruct (elsewhere_none _ _ _ _ (ph_abs _ _ _ _ _ _ _ (inv_phys _ _ _ _ _ Hi)) Hno) as [Ee Er]. rewrite Ee in Hp'. assert (∀ x, count p' x = count (phys σ) x) as Ec by (intros; unfold count; by rewrite Erefs).
  eapply HQ; [done|done|done| |].
  - apply (machine_frames K none); [apply (iv_machine _ _ _ _ _ Hi)|done|]. eapply phys_inv_ext; [exact Hp'|]. intros x. simpl. rewrite Er. lia.
  - pose proof (iv_others _ _ _ _ _ Hi) as Ho. pose proof (iv_roots _ _ _ _ _ Hi) as Hr. rewrite Forall_forall in *. intros sp Hsp.
    destruct (Ho sp Hsp) as [Hro Hwf Hl Hpte]. split; simpl; try done; [by apply disown_lookup; split; [|apply Hr]|].
    intros va e Hk. destruct (Hpte va e Hk) as (p & g & src & Hv & Hok). exists p, g, src. split; [done|].
    eapply pte_ok_mono; [exact Hok|done| |done]. intros f _. by rewrite Ec.
Qed.

Lemma wp_drop_space others G σ Q :
  inv K none others G σ → (∀ G' σ', dropped others G σ G' σ' → Q tt σ') → wp drop_space Q σ.
Proof using Type*.
  intros Hi HQ. unfold drop_space, upd_space. wp_steps. apply wp_spaceless; [apply spaceless_drop_regions|].
  set (s0 := set_regions [] (space σ)). eapply (wp_drop_regions _ others G); [done|apply (so_regions _ _ _ (iv_space _ _ _ _ _ Hi))|].
  intros G1 σ1 Hi1 He. pose proof (emptied_all others G σ G1 σ1) as Hnone. pose proof (em_space _ _ _ _ _ _ He) as Es.
  destruct (inv_regions K none others G1 σ1 [] Hi1) as [Hi2 Hev2].
  { split; [apply Forall_nil_2|apply FOP_nil]. } { intros r o Hin. by apply not_elem_of_nil in Hin. } { intros va Hz. rewrite Es, Hnone in Hz; done. }
  rewrite Es in Hi2, Hev2. fold s0 in Hi2, Hev2. cbn [fst snd]. wp_step.
  eapply wp_mono; [apply wp_refund with (Q := λ _, wp (on_phys (free_tables (pml4 (space σ)))) Q)|].
  2:{ intros [] σ3 Hw. wp_step. eapply wp_mono; [exact Hw|]. intros [] σ4 Hw4. wp_step. by apply wp_on_phys_seq. }
  intros σ3 Hac Ecg. pose proof (acct_inv K none others G1 _ σ3 Hac Hi2) as Hi3. pose proof (ss_pml4 _ _ (ac_space _ _ Hac)) as Ep. simpl in Ep.
  rewrite <- Ep. apply (wp_free_space others G1); [done|rewrite Ep; by intros va; apply Hnone|].
  assert (calm (mine (pml4 (space σ))) G σ G1 σ3) as Hcm.
  { eapply calm_trans; [apply (em_calm _ _ _ _ _ _ He)|]. eapply calm_trans; [|by apply acct_calm].
    apply calm_frames; try done. eapply evolves_weaken; [|exact Hev2]. by intros ? []. }
  assert (owned_by (gown G) (pml4 (space σ)) ⊆ owned_by (gown G1) (pml4 (space σ))) as Hown.
  { intros t (l & x & Ho)%elem_of_owned. apply elem_of_owned. exists l, x. eapply lookup_weaken; [done|apply Hcm]. }
  assert (owned_by (gown G1) (pml4 (space σ)) ⊆ gU G1) as HU.
  { intros t (l & x & Ho)%elem_of_owned. apply (pi_own _ _ _ _ (ph_paging _ _ _ _ _ _ _ (inv_phys _ _ _ _ _ Hi3))). by eapply elem_of_dom_2. }
  intros F' U' p' G' σ' EF EU Em Hm' Ho'. rewrite Ep in EF, EU. apply (HQ G'). split; try done.
  - intros sp page Hsp. trans (contents G1 σ3 sp page).
    + unfold contents, data, first_touch, obj_bytes, frame_bytes. simpl. by rewrite Em.
    + eapply contents_outside; [apply Hcm| |by intros ko (a & ?)]. intros (a & [= E _]).
      by apply (proj1 (Forall_forall _ _) (iv_roots _ _ _ _ _ Hi) sp Hsp).
  - intros va. simpl. by apply Hnone.
  - simpl. rewrite Ep. by intros t [[r l] x] [_ Hne]%disown_lookup.
  - simpl. rewrite EF. set_solver +Hown.
  - simpl. rewrite EF, EU, <- (ev_total _ _ _ _ _ (cm_evolves _ _ _ _ _ Hcm)). apply set_eq. intros x. specialize (HU x).
    destruct (decide (x ∈ owned_by (gown G1) (pml4 (space σ)))); set_solver.
  - simpl. split_and!; apply Hcm.
  - simpl. rewrite Ecg. unfold refund. simpl. by rewrite (em_cgroups _ _ _ _ _ _ He).
Qed.

End Drop.

#[local] Opaque demo_frame.

