(* ===== verification/SpaceFork.v ===== *)
(** * Fork

    The child starts as a space with the parent's regions and no pages; each
    page of the parent is then marked copy-on-write and mapped into the child
    with a reference of its own.  A fork that fails half-way keeps the parent
    and everyone else intact, but the references of the child's pages are lost
    with its tables. *)

From S2P Require Import Prelude Errno UAccess Vma FrameBuddy Frame Paging PagingProofs Cgroup Swap AddrSpace PhysInv PteBits SpaceInv SpaceSteps SpaceDemo SpaceReclaim SpaceFault SpaceMem SpaceUnmap SpaceDrop.

Section Root.
Context {A : Type} `{FrameAllocatorLaws A} (K : gset Z).
Implicit Types (p : Phys A) (own : gmap Z (Z * nat * Z)) (maps : gmap (Z * Z) Z).

(** The kernel's entries lie in the upper half of the root table. *)
Definition upper_half (kernel_half : gmap Z Z) : Prop := ∀ i e, kernel_half !! i = Some e → 256 ≤ i.

Lemma no_root_entries own p maps root : pt_abs own p maps → own !! root = None → ∀ va, get_pte maps (root, va) = 0.
Proof using Type.
  intros Habs Hno va. unfold get_pte. destruct (maps !! (root, va)) as [e|] eqn:E; [|done].
  destruct (pa_dom _ _ _ Habs _ _ _ E) as (_ & Hr & _). unfold root_ok in Hr. congruence.
Qed.

(** A new root table, with the kernel's half. *)
Lemma phys_inv_root F U own maps ext p c kh a' :
  phys_inv K F U own maps ext p → upper_half kh → c ∈ F → fa_rep (F ∖ {[c]}) (U ∪ {[c]}) a' →
  phys_inv K (F ∖ {[c]}) (U ∪ {[c]}) (<[c := (c, 3%nat, 0)]> own) maps ext (with_mem (<[c := Table kh]> (mem p)) (with_allocator a' p)).
Proof using Type.
  intros Hi Hkh Hc Hrep. set (p' := with_mem _ _). pose proof (ph_paging _ _ _ _ _ _ _ Hi) as Hp.
  pose proof (pi_own _ _ _ _ Hp) as Hown. pose proof (fa_disjoint _ _ _ (pi_rep _ _ _ _ Hp)) as Hd.
  assert (c ∉ dom own) as Hno by set_solver. assert (own !! c = None) as Hno' by (by apply not_elem_of_dom).
  assert (∀ t, t ∈ dom own → mem p' !! t = mem p !! t) as Hmem by (intros t Ht; apply lookup_insert_ne; by intros <-).
  assert (paging_inv (F ∖ {[c]}) (U ∪ {[c]}) own p') as Hp0 by (apply (paging_inv_mem F U own p); [done|done|set_solver +|done]).
  pose proof (pt_abs_mem F U own p p' maps _ _ Hp Hp0 (ph_abs _ _ _ _ _ _ _ Hi) Hmem) as Habs.
  assert (pt_wf (<[c := (c, 3%nat, 0)]> own) p') as Hwf by (by apply (new_root_wf own p p' c kh (pi_wf _ _ _ _ Hp))).
  pose proof (free_count _ _ _ _ _ _ _ c Hi Hc) as Hc0. split.
  - split; [done| |done]. rewrite dom_insert_L. set_solver +Hown.
  - split.
    + intros root va Hr Hva Hal. apply lookup_insert_Some in Hr as [[-> _]|[_ Hr]]; [|by apply (pa_pte _ _ _ Habs)].
      rewrite (no_root_entries own p maps root (ph_abs _ _ _ _ _ _ _ Hi) Hno'). eapply pte_missing; [exact Hwf|done|by apply lookup_insert_eq|].
      intros t [[_ ?]|[_ Ht]]%lookup_insert_Some; [done|].
      destruct (ancestor_at own p root 0 (prefix va 1) t 3 (pi_wf _ _ _ _ Hp) Ht) as [t' Ht']; [lia|].
      destruct (wf_root _ _ (pi_wf _ _ _ _ Hp) _ _ _ Ht') as [-> _]. congruence.
    + intros root va e Hm. destruct (pa_dom _ _ _ Habs _ _ _ Hm) as (? & Hr & ? & ?). split_and!; try done.
      unfold root_ok in *. rewrite lookup_insert_ne; [done|]. intros <-. congruence.
  - apply Hi.
  - apply (ph_refs _ _ _ _ _ _ _ Hi).
  - apply (ph_max _ _ _ _ _ _ _ Hi).
  - intros f Hf. destruct (ph_used _ _ _ _ _ _ _ Hi f Hf) as (HU & Hn & Hpg). assert (f ≠ c) by (intros ->; change (count p' c) with (count p c) in Hf; lia).
    split_and!; [set_solver +HU|rewrite dom_insert_L; set_solver|]. simpl. by rewrite lookup_insert_ne.
  - intros f [HU| ->%elem_of_singleton]%elem_of_union; [|left; rewrite dom_insert_L; set_solver +].
    destruct (ph_known _ _ _ _ _ _ _ Hi f HU) as [?|?]; [left; rewrite dom_insert_L; set_solver|by right].
  - intros f Hf. apply (ph_ram _ _ _ _ _ _ _ Hi). destruct (decide (f = c)); set_solver.
Qed.
End Root.

Section Fork.
Context {A D F : Type} `{FrameAllocatorLaws A} `{BlockDeviceLaws D} `{MappedFile F}.
Context (K : gset Z) (kernel_half : gmap Z Z).
Implicit Types (σ : St A D F) (G : Ghost) (sp : AddressSpace F) (h : Z → Z) (others : list (AddressSpace F)) (r : Region F).

(** ** The new space *)

Lemma wp_new_space others G σ Q :
  inv K none others G σ → upper_half kernel_half →
  (∀ c G' p', let σ' := with_phys p' σ in
     (∀ sp, pml4 sp = c → regions sp = regions (space σ) → inv K none (sp :: others) G' σ') →
     Forall (λ sp, pml4 sp ≠ c) (space σ :: others) → (∀ va, get_pte (gmaps G') (c, va) = 0) →
     gmaps G' = gmaps G → glost G' = glost G → (∀ k, data G' σ' k = data G σ k) → (∀ ko, obj_bytes σ' ko = obj_bytes σ ko) → refs p' = refs (phys σ) →
     Q (inr (mkSpace c [] 0 0 MMAP_TOP None 0)) σ') →
  (∀ p', inv K none others G (with_phys p' σ) → calm nothing G σ G (with_phys p' σ) → gF G = ∅ → Q (inl ENOMEM) (with_phys p' σ)) →
  wp (new_space kernel_half) Q σ.
Proof using Type*.
  intros Hi Hkh Hs Hn. pose proof (inv_phys _ _ _ _ _ Hi) as Hp. pose proof (iv_machine _ _ _ _ _ Hi) as Hm. pose proof (ph_paging _ _ _ _ _ _ _ Hp) as Hpg.
  unfold new_space. wp_step. apply wp_on_phys. unfold alloc_zeroed, alloc. wp_step. apply wp_on_allocator.
  eapply wp_mono; [apply (fa_alloc_ok _ _ _ (pi_rep _ _ _ _ Hpg))|]. intros [c|] a' Hpost.
  2:{ wp_steps. destruct Hpost as [HF Hrep]. destruct (keep_maps K none none others G σ G (with_phys (with_allocator a' (phys σ)) σ)) as [Hi' He]; try done; auto with fastros.
      { assert (paging_inv (gF G) (gU G) (gown G) (with_allocator a' (phys σ))) as Hp' by (by apply (paging_inv_mem (gF G) (gU G) (gown G) (phys σ))).
        destruct Hm as [[] ? ? ? ? ? ? ?]. split; try done. split; try done. by apply (pt_abs_mem (gF G) (gU G) (gown G) (phys σ) _ _ (gF G) (gU G)). }
      apply Hn; [done|by apply calm_frames|done]. }
  destruct Hpost as [HcF Hrep]. wp_steps. unfold write_frame at 1. wp_steps. apply wp_on_phys. unfold write_frame. wp_steps. unfold with_phys. simpl.
  rewrite insert_insert_eq. set (p' := with_mem _ _).
  pose proof (phys_inv_root K _ _ _ _ _ (phys σ) c kernel_half a' Hp Hkh HcF Hrep) as Hp'.
  change (with_mem (<[c := Table kernel_half]> (mem (phys σ))) (with_allocator a' (phys σ))) with p' in Hp'.
  assert (c ∉ gU G) as HcU by (pose proof (fa_disjoint _ _ _ (pi_rep _ _ _ _ Hpg)); set_solver).
  assert (gown G !! c = None) as Hno by (apply not_elem_of_dom; pose proof (pi_own _ _ _ _ Hpg); set_solver).
  pose proof (no_root_entries _ _ _ _ (ph_abs _ _ _ _ _ _ _ Hp) Hno) as Hnone.
  set (G' := on_frames (gF G ∖ {[c]}) (gU G ∪ {[c]}) (<[c := (c, 3%nat, 0)]> (gown G)) G).
  assert (machine K none G' (with_phys p' σ)) as Hm' by (by apply (machine_frames K none)).
  assert (∀ x, 0 < count (phys σ) x → mem p' !! x = mem (phys σ) !! x) as Hmem.
  { intros x Hx. simpl. rewrite lookup_insert_ne; [done|]. intros <-. by destruct (ph_used _ _ _ _ _ _ _ Hp c Hx). }
  assert (∀ sp, space_ok G σ sp → space_ok G' (with_phys p' σ) sp ∧ pml4 sp ≠ c) as Hsp.
  { intros sp [Hr ? ? ?]. unfold root_ok in Hr. assert (pml4 sp ≠ c) as Hne by (intros E; rewrite E in Hr; congruence).
    split; [|done]. split; try done. unfold root_ok. simpl. by rewrite lookup_insert_ne. }
  pose proof (iv_others _ _ _ _ _ Hi) as Ho. rewrite Forall_forall in Ho.
  apply (Hs c G' p'); try done.
  - intros sp Ep Er. split; [done|apply Hsp, Hi| |].
    + apply Forall_cons. split; [|apply Forall_forall; intros s Hin; by apply Hsp, Ho]. split; simpl.
      * rewrite Ep. apply lookup_insert_eq.
      * rewrite Er. apply (so_regions _ _ _ (iv_space _ _ _ _ _ Hi)).
      * rewrite Er. apply (so_live _ _ _ (iv_space _ _ _ _ _ Hi)).
      * intros va e Hk. apply (maps_get _ _ _ _ _ _ Hm) in Hk as [Hk Hz]. rewrite Ep, Hnone in Hk. congruence.
    + apply Forall_cons. split; [|apply (iv_roots _ _ _ _ _ Hi)]. rewrite Ep. intros E. by apply (proj2 (Hsp (space σ) (iv_space _ _ _ _ _ Hi))).
  - apply Forall_forall. intros sp [->|Hin]%elem_of_cons; [apply Hsp, Hi|by apply Hsp, Ho].
  - intros k. apply data_same; [done| |done]. intros x Hk. apply Hmem. pose proof (mapped_frame _ _ _ _ _ _ _ _ _ Hp Hk). lia.
  - apply obj_same; [done|]. intros ko x Hk. apply Hmem. pose proof (obj_counted K _ _ _ _ _ Hm Hk). lia.
Qed.

(** ** Sharing a page *)

(** Another reference to a page of this space that is not exclusive. *)
Lemma wp_st_get_mapped h others G σ va f p g src Q :
  let e := get_pte (gmaps G) (pml4 (space σ), va) in
  inv K h others G σ → view (regions (space σ)) va = Some (p, g, src) → pfn e = Some f →
  (private src = true → can_write p = true → has e COW = true) → count (phys σ) f < U16 - 1 →
  (∀ p', inv K (tok f h) others G (with_phys p' σ) → (∀ k, data G (with_phys p' σ) k = data G σ k) →
     (∀ ko, obj_bytes (with_phys p' σ) ko = obj_bytes σ ko) → mem p' = mem (phys σ) →
     refs p' = <[f := count (phys σ) f + 1]> (refs (phys σ)) → Q tt (with_phys p' σ)) →
  wp (on_phys (page_get f)) Q σ.
Proof using Type.
  intros e Hi Hv Hf Hcow Hmax HQ. pose proof (inv_phys _ _ _ _ _ Hi) as Hp. pose proof (iv_machine _ _ _ _ _ Hi) as Hm.
  pose proof (mc_held _ _ _ _ Hm) as Hh. pose proof (mapped_frame _ _ _ _ _ _ _ _ _ Hp Hf) as [Hpos _].
  apply wp_on_phys. eapply (wp_page_get K); [exact Hp|lia|]. intros p' Hp' Hmem Hrefs.
  assert (∀ x, x ≠ f → count p' x = count (phys σ) x) as Ec by (intros x Hx; unfold count; by rewrite Hrefs, lookup_insert_ne).
  assert (∀ k x, k ≠ (pml4 (space σ), va) → pfn (get_pte (gmaps G) k) = Some x → count (phys σ) x = 1 → count p' x = 1) as Hone.
  { intros k x Hk Hkx Hc. rewrite Ec; [done|]. intros ->. destruct (exclusive _ _ _ _ _ _ Hm Hkx Hc) as (_ & Hu & _). by apply Hk; symmetry; apply Hu. }
  assert (machine K (tok f h) G (with_phys p' σ)) as Hm'.
  { assert (machine K (tok f h) (on_frames (gF G) (gU G) (gown G) G) (with_phys p' σ)); [|by destruct G].
    apply (machine_frames K h); [done|by apply tok_nonneg|]. eapply phys_inv_ext; [exact Hp'|]. intros x. unfold tok. lia. }
  assert (∀ k, data G (with_phys p' σ) k = data G σ k) as Hd by (intros k; apply data_same; [done|intros; simpl; by rewrite Hmem|done]).
  assert (∀ ko, obj_bytes (with_phys p' σ) ko = obj_bytes σ ko) as Ho by (apply obj_same; [done|intros; simpl; by rewrite Hmem]).
  assert (evolves nothing G σ G (with_phys p' σ)) as Hev.
  { split; try done. intros k x Hk. apply Hone. by intros ->. }
  apply HQ; try done. eapply inv_step; [exact Hi|exact Hev|done|].
  eapply self_ok; [exact Hm|apply (iv_space _ _ _ _ _ Hi)|exact Hev|done|done| |done].
  intros va' e' p1 g1 src1 He' Hz Hv'. destruct (decide (va' = va)) as [->|Hne].
  - right. fold e in He'. subst e'. simplify_eq. destruct (so_pte _ _ _ (iv_space _ _ _ _ _ Hi) va e) as (p2 & g2 & src2 & Hv2 & Hok).
    { by apply (maps_get _ _ _ _ _ _ Hm). }
    simplify_eq. unfold pte_ok in *. rewrite Hf in *. destruct Hok as [Hperm Hs]. split; [done|].
    destruct src; [| |done]; (destruct Hs as [Hs1 _]; split; [done|]; intros Hw Hc; rewrite Hcow in Hc by done; done).
  - left. split_and!; [done| |done]. intros x Hx. apply (Hone (pml4 (space σ), va')); [congruence|by rewrite He'].
Qed.

(** A space whose entries, and the counts of its frames, did not change. *)
Lemma space_ok_kept h h' G σ G' p' sp :
  machine K h G σ → machine K h' G' (with_phys p' σ) → space_ok G σ sp → root_ok (gown G') (pml4 sp) → refs p' = refs (phys σ) →
  (∀ va, get_pte (gmaps G') (pml4 sp, va) = get_pte (gmaps G) (pml4 sp, va)) → space_ok G' (with_phys p' σ) sp.
Proof using Type.
  intros Hm Hm' [Hr Hwf Hl Hpte] Hr' Hrefs Eg. split; try done. simpl. intros va e Hk.
  apply (maps_get _ _ _ _ _ _ Hm') in Hk as [Hk Hz]. rewrite Eg in Hk.
  destruct (Hpte va e) as (p & g & src & Hv & Hok); [by apply (maps_get _ _ _ _ _ _ Hm)|]. exists p, g, src. split; [done|].
  eapply pte_ok_mono; [exact Hok|done| |done]. intros f _. unfold count. by rewrite Hrefs.
Qed.

Lemma wp_st_map_child h child others G σ va f fl p g src Q :
  inv K (tok f h) (child :: others) G σ → (∀ x, 0 ≤ h x) → Forall (λ sp, pml4 sp ≠ pml4 child) others →
  page_of (gown G) (pml4 child) va → flags_only fl → view (regions child) va = Some (p, g, src) →
  get_pte (gmaps G) (pml4 child, va) = 0 → pte_ok (pages σ) (count (phys σ)) p src (page_entry f fl) →
  (∀ G' p', inv K h (child :: others) G' (with_phys p' σ) → gmaps G' = set_pte (pml4 child, va) (page_entry f fl) (gmaps G) →
     (∀ k, k ≠ (pml4 child, va) → data G' (with_phys p' σ) k = data G σ k) → data G' (with_phys p' σ) (pml4 child, va) = Some (frame_bytes (phys σ) f) →
     (∀ ko, obj_bytes (with_phys p' σ) ko = obj_bytes σ ko) → refs p' = refs (phys σ) → glost G' = glost G → Q (inr tt) (with_phys p' σ)) →
  (∀ G' p' er, inv K (tok f h) (child :: others) G' (with_phys p' σ) → evolves nothing G σ G' (with_phys p' σ) → gmaps G' = gmaps G →
     refs p' = refs (phys σ) → glost G' = glost G → gF G' = ∅ → Q (inl er) (with_phys p' σ)) →
  wp (on_phys (map_4k (pml4 child) va f fl)) Q σ.
Proof using Type.
  intros Hi Hh Hdis Hpg Hfl Hv Hz Hok Hs Hn. pose proof (inv_phys _ _ _ _ _ Hi) as Hp. pose proof (iv_machine _ _ _ _ _ Hi) as Hm.
  assert (phys_inv K (gF G) (gU G) (gown G) (gmaps G) (tok f (λ x, obj_refs (pages σ) x + glost G x + h x)) (phys σ)) as Hpt.
  { eapply phys_inv_ext; [exact Hp|]. intros x. unfold tok. lia. }
  assert (∀ x, 0 ≤ obj_refs (pages σ) x + glost G x + h x) as Hext.
  { intros x. destruct (count_split _ _ _ _ x Hm) as (? & ? & ? & ? & ?). specialize (Hh x). lia. }
  destruct (held_frame _ _ _ _ _ _ _ _ Hpt (Hext f)) as (_ & HfU & Hfno & _).
  assert (frame_addr f) as Hfa by (eapply (fa_addr (gF G) (gU G)); [apply (pi_rep _ _ _ _ (ph_paging _ _ _ _ _ _ _ Hp))|set_solver +HfU]).
  assert (pfn (page_entry f fl) = Some f) as Hpf by (by apply pfn_page_entry). set (v := page_entry f fl) in *. set (k0 := (pml4 child, va)) in *.
  apply wp_on_phys. eapply (wp_install K); [exact Hpt|exact Hext|exact Hpg|exact Hfl| |].
  - intros F' U' own' p' Htot Hsub Hroots Hkept _ Hp'. pose proof Hkept as [Hrefs Hmem]. fold v k0 in Hp'.
    set (G' := on_entry F' U' own' k0 v G).
    assert (machine K h G' (with_phys p' σ)) as Hm' by (apply (machine_entry K (tok f h)); [done|done|by eapply pfn_not_swapped|done]).
    assert (∀ k, get_pte (gmaps G') k = if decide (k = k0) then v else get_pte (gmaps G) k) as Eg by (intros; apply get_set_pte).
    assert (∀ sp, space_ok G σ sp → pml4 sp ≠ pml4 child → space_ok G' (with_phys p' σ) sp) as Hkeep.
    { intros sp Hsp Hne. apply (space_ok_kept (tok f h) h G σ); try done; [eapply lookup_weaken; [apply Hsp|done]|].
      intros a. rewrite Eg, decide_False; [done|]. unfold k0. congruence. }
    pose proof (iv_others _ _ _ _ _ Hi) as [Hch Ho]%Forall_cons. pose proof (iv_roots _ _ _ _ _ Hi) as [Hrt Hrs]%Forall_cons.
    apply (Hs G'); try done.
    + split; [done|apply Hkeep; [apply Hi|done]| |by apply Forall_cons]. apply Forall_cons. split.
      * destruct Hch as [Hr Hwf Hl Hpte]. split; try done; [by eapply lookup_weaken|]. simpl. intros a e Hk.
        apply (maps_get _ _ _ _ _ _ Hm') in Hk as [Hk Hnz]. rewrite Eg in Hk. case_decide as Ek.
        -- injection Ek as ->. subst e. exists p, g, src. split; [done|]. eapply pte_ok_mono; [exact Hok|done| |done]. intros x _. unfold count. by rewrite Hrefs.
        -- destruct (Hpte a e) as (p1 & g1 & src1 & Hv1 & Hok1); [by apply (maps_get _ _ _ _ _ _ Hm)|]. exists p1, g1, src1. split; [done|].
           eapply pte_ok_mono; [exact Hok1|done| |done]. intros x _. unfold count. by rewrite Hrefs.
      * rewrite Forall_forall in *. intros sp Hin. apply Hkeep; [by apply Ho|by apply Hdis].
    + intros k Hk. apply data_same; [rewrite Eg; by rewrite decide_False| |done]. intros x Hx. by eapply kept_mapped.
    + rewrite (data_present G' _ k0 f) by (rewrite Eg; by rewrite decide_True). unfold frame_bytes. simpl. by rewrite (Hmem f HfU Hfno).
    + apply obj_same; [done|]. intros ko x Hk. by eapply kept_shared.
  - intros F' U' own' p' e Htot Hsub Hroots Hkept Hp' He. pose proof Hkept as [Hrefs Hmem].
    assert (∀ x, count p' x = count (phys σ) x) as Ec by (intros; unfold count; by rewrite Hrefs).
    assert (F' = ∅) as HF by (destruct He as [[_ ?]|[_ [x Hx]]]; [done|]; fold k0 in Hx; by rewrite Hz in Hx).
    destruct (keep_maps K (tok f h) (tok f h) (child :: others) G σ (on_frames F' U' own' G) (with_phys p' σ)) as [Hi' Hev]; try done.
    + apply (machine_frames K (tok f h)); [done|by apply tok_nonneg|]. eapply phys_inv_ext; [exact Hp'|]. intros x. unfold tok. lia.
    + intros r. split; [apply Hroots|]. intros Hr. by eapply lookup_weaken.
    + intros k x _. by rewrite Ec.
    + intros k. apply data_same; [done| |done]. intros x Hx. by eapply kept_mapped.
    + apply obj_same; [done|]. intros ko x Hk. by eapply kept_shared.
    + by apply (Hn (on_frames F' U' own' G)).
Qed.

(** The parent's entry after the page is shared, and what any entry for the
    same frame with the same mark satisfies. *)
Definition shared_entry r (e : Z) : Z :=
  if match shared r with Some _ => false | None => true end && has e WRITABLE then Z.lor (Z.ldiff e WRITABLE) COW else e.

Lemma shared_entry_ok (pg : gmap (Z * Z) Z) cnt r va e f :
  pte_ok pg cnt (prot r) (source r va) e → pfn e = Some f →
  let e' := shared_entry r e in
  pfn e' = Some f ∧ perms e' (prot r) ∧
  (private (source r va) = true → can_write (prot r) = true → has e' COW = true) ∧
  ∀ cnt' e'', pfn e'' = Some f → perms e'' (prot r) → has e'' COW = has e' COW → pte_ok pg cnt' (prot r) (source r va) e''.
Proof using Type.
  intros Hok Hf e'. unfold pte_ok in Hok. rewrite Hf in Hok. destruct Hok as [Hperm Hsrc].
  destruct (cow_entry e (prot r) Hperm) as (C1 & C2 & C3). unfold e', shared_entry.
  destruct (shared r) as [o|] eqn:Hsh; simpl.
  - unfold source in *. rewrite Hsh in *. split_and!; [done|done|done|]. intros cnt' e'' Hf'' Hp'' Hc. unfold pte_ok. rewrite Hf''. split; [done|]. by rewrite Hc.
  - pose proof (shared_none_private r va Hsh) as Hpriv. destruct (has e WRITABLE) eqn:Hw.
    + rewrite C1. split_and!; [done|done|done|]. intros cnt' e'' Hf'' Hp'' Hc. unfold pte_ok. rewrite Hf''. split; [done|].
      destruct (source r va); [naive_solver congruence..|done].
    + split_and!; [done|done| |].
      * intros _ Hcw. rewrite (pm_write _ _ Hperm), Hcw in Hw. by destruct (has e COW).
      * intros cnt' e'' Hf'' Hp'' Hc. unfold pte_ok. rewrite Hf''. split; [done|]. rewrite Hc. rewrite (pm_write _ _ Hperm) in Hw.
        destruct (source r va); [| |done]; (destruct Hsrc as [Hs1 _]; split; [done|]; intros Hcw Hcow; rewrite Hcw, Hcow in Hw; done).
Qed.

(** ** The loop over the pages *)

(** [child] gets the pages of the space of [σ0]. *)
Section Loop.
Context (child : AddressSpace F) (others : list (AddressSpace F)) (G0 : Ghost) (σ0 : St A D F).
Context (Hregions : regions child = regions (space σ0)) (Hroots : Forall (λ sp, pml4 sp ≠ pml4 child) others) (Hself : pml4 (space σ0) ≠ pml4 child).

(** What holds whether or not the fork succeeds. *)
Record kept h G σ : Prop := {
  kp_inv : inv K h (child :: others) G σ;
  kp_space : same_space (space σ0) (space σ);
  kp_data k : k.1 ≠ pml4 child → data G σ k = data G0 σ0 k;
  kp_objs ko : obj_bytes σ ko = obj_bytes σ0 ko;
}.

(** The pages [todo] are still to be shared, the others are: the child's page
    has the contents of the parent's, unless that could not be read back from
    swap. *)
Record forking (todo : Z → Prop) G σ : Prop := {
  fk_kept : kept none G σ;
  fk_todo a : todo a → get_pte (gmaps G) (pml4 child, a) = 0;
  fk_done a : aligned a → ¬ todo a → data G σ (pml4 child, a) = data G σ (pml4 (space σ0), a) ∨
    data G σ (pml4 child, a) = None ∧ is_Some (swapped (get_pte (gmaps G) (pml4 (space σ0), a)));
}.

Definition hit (f : Z) (e : Z) : option Z := if decide (pfn e = Some f) then Some f else None.

(** Every page still has room for the references to come. *)
Definition fits (n : nat) (va : Z) (rs : list (Region F)) G σ : Prop :=
  ∀ f, count (phys σ) f + pages_with (hit f) (gmaps G) (pml4 (space σ0)) va n + total (hit f) (gmaps G) (pml4 (space σ0)) rs < U16.

Lemma hit_some f e : is_Some (hit f e) ↔ pfn e = Some f.
Proof using Type. unfold hit. case_decide; [naive_solver|]. split; [by intros [? ?]|done]. Qed.

Lemma one_hit f e : one_if (is_Some (hit f e)) = one_if (pfn e = Some f).
Proof using Type. unfold one_if. repeat case_decide; rewrite ?hit_some in *; done. Qed.

Lemma one_if_mono (P R : Prop) `{Decision P} `{Decision R} : (P → R) → one_if P ≤ one_if R.
Proof using Type. intros HPR. unfold one_if. repeat case_decide; lia || naive_solver. Qed.

Lemma hits_mono f maps maps' root n : ∀ va,
  (∀ a, va ≤ a < va + Z.of_nat n * PAGE_SIZE → pfn (get_pte maps' (root, a)) = Some f → pfn (get_pte maps (root, a)) = Some f) →
  0 ≤ pages_with (hit f) maps' root va n ≤ pages_with (hit f) maps root va n.
Proof using Type.
  induction n as [|n IH]; intros va Hm; cbn [pages_with]; [lia|]. rewrite !one_hit.
  pose proof (one_if_mono (pfn (get_pte maps' (root, va)) = Some f) (pfn (get_pte maps (root, va)) = Some f) (Hm va ltac:(unfold PAGE_SIZE; lia))). pose proof (one_if_nonneg (pfn (get_pte maps' (root, va)) = Some f)).
  assert (∀ a, va + PAGE_SIZE ≤ a < va + PAGE_SIZE + Z.of_nat n * PAGE_SIZE → pfn (get_pte maps' (root, a)) = Some f → pfn (get_pte maps (root, a)) = Some f) as Hm'
    by (intros a Ha; apply Hm; unfold PAGE_SIZE in *; lia).
  specialize (IH (va + PAGE_SIZE) Hm'). lia.
Qed.

Lemma total_mono f maps maps' root (rs : list (Region F)) :
  Forall region_ok rs →
  (∀ a, covered rs a → pfn (get_pte maps' (root, a)) = Some f → pfn (get_pte maps (root, a)) = Some f) →
  0 ≤ total (hit f) maps' root rs ≤ total (hit f) maps root rs.
Proof using Type.
  induction 1 as [|r rs Hok Hall IH]; intros Hm; simpl; [lia|].
  pose proof (IH ltac:(intros a Ha; apply Hm; by right)) as Hrest.
  pose proof (hits_mono f maps maps' root (pages_between (start r) (end_ r)) (start r)) as Hr. rewrite pages_fit in Hr by done.
  specialize (Hr ltac:(intros a Ha; apply Hm; by left)). lia.
Qed.

(** No page refers to a frame without references. *)
Lemma no_hits f maps root n va (rs : list (Region F)) :
  Forall region_ok rs → (∀ a, va ≤ a < va + Z.of_nat n * PAGE_SIZE ∨ covered rs a → pfn (get_pte maps (root, a)) ≠ Some f) →
  pages_with (hit f) maps root va n = 0 ∧ total (hit f) maps root rs = 0.
Proof using Type.
  intros Hall Hno. assert (∀ a, pfn (get_pte ∅ (root, a)) = None) as He by done.
  assert (∀ n va, pages_with (hit f) ∅ root va n = 0) as Hz.
  { clear. intros n. induction n as [|n IH]; intros va; cbn [pages_with]; [done|]. rewrite IH, one_hit. done. }
  assert (total (hit f) ∅ root rs = 0) as Hz' by (clear -Hz; induction rs as [|r rs IH]; simpl; [done|]; by rewrite Hz, IH).
  pose proof (hits_mono f ∅ maps root n va) as H1'. pose proof (total_mono f ∅ maps root rs Hall) as H2'. rewrite Hz in H1'. rewrite Hz' in H2'.
  split; [assert (0 ≤ pages_with (hit f) maps root va n ≤ 0)|assert (0 ≤ total (hit f) maps root rs ≤ 0)]; try lia.
  - apply H1'. intros a Ha Hf. exfalso. apply (Hno a); [by left|done].
  - apply H2'. intros a Ha Hf. exfalso. apply (Hno a); [by right|done].
Qed.

Lemma kept_step (T : Place → Prop) h h' G σ G' σ' :
  kept h G σ → inv K h' (child :: others) G' σ' → same_space (space σ) (space σ') → evolves T G σ G' σ' → (∀ ko, ¬ T (Shared ko)) →
  (∀ k, T (Mapped k) → k.1 ≠ pml4 child → data G' σ' k = data G σ k) → (∀ k, T (Mapped k) ∨ ¬ T (Mapped k)) → kept h' G' σ'.
Proof using Type.
  intros [Hi Hsp Hd Ho] Hi' Hsp' Hev HT Hsame Hdec. split; [done|by eapply same_space_trans| |].
  - intros k Hk. rewrite <- (Hd k Hk). destruct (Hdec k) as [Ht|Ht]; [by apply Hsame|by apply (ev_data _ _ _ _ _ Hev)].
  - intros ko. rewrite <- Ho. by apply (ev_shared _ _ _ _ _ Hev).
Qed.

Lemma kept_nothing h h' G σ G' σ' :
  kept h G σ → inv K h' (child :: others) G' σ' → same_space (space σ) (space σ') → evolves nothing G σ G' σ' → kept h' G' σ'.
Proof using Type. intros Hk Hi Hsp Hev. eapply (kept_step nothing); [done..|by intros ? []|by intros k []|]. intros k. right. by intros []. Qed.

(** Steps that change at most the page [va], which is still to do. *)
Lemma forking_step todo G σ G' σ' va :
  forking todo G σ → todo va → inv K none (child :: others) G' σ' → same_space (space σ) (space σ') →
  evolves (only (pml4 (space σ0), va)) G σ G' σ' → data G' σ' (pml4 (space σ0), va) = data G σ (pml4 (space σ0), va) → forking todo G' σ'.
Proof using Hself.
  intros [Hk Htd Hdn] Hva Hi' Hsp' Hev Hd. pose proof (ss_pml4 _ _ (kp_space _ _ _ Hk)) as Ep.
  assert (∀ a, ¬ only (pml4 (space σ0), va) (Mapped (pml4 child, a))) as Hc by (intros a [= E _]; by apply Hself).
  split.
  - eapply kept_step; [exact Hk|done|done|exact Hev|done|by intros k [= ->]|]. intros k. unfold only.
    destruct (decide (k = (pml4 (space σ0), va))) as [->|]; [by left|right; congruence].
  - intros a Ha. rewrite (ev_entry _ _ _ _ _ Hev); [by apply Htd|]. simpl. rewrite Ep. congruence.
  - intros a Hal Hn. assert (¬ only (pml4 (space σ0), va) (Mapped (pml4 (space σ0), a))) as Hne by (intros [= ->]; by apply Hn).
    rewrite (ev_data _ _ _ _ _ Hev _ (Hc a)), (ev_data _ _ _ _ _ Hev _ Hne). destruct (Hdn a Hal Hn) as [E|[E [s Hs]]]; [by left|right].
    split; [done|]. rewrite (ev_absent _ _ _ _ _ Hev); [eauto|done|by eapply swapped_not_present].
Qed.

Lemma fits_step n va rs G σ G' σ' :
  fits (S n) va rs G σ → kept none G σ → inv K none (child :: others) G' σ' → evolves (only (pml4 (space σ0), va)) G σ G' σ' → shrinks (phys σ) (phys σ') →
  Forall region_ok rs → ¬ covered rs va →
  (∀ f, pfn (get_pte (gmaps G') (pml4 (space σ0), va)) = Some f → pfn (get_pte (gmaps G) (pml4 (space σ0), va)) = Some f ∨ count (phys σ') f = 1) →
  fits (S n) va rs G' σ'.
Proof using Type.
  intros Hfit Hk Hi' Hev Hsh Hall Hnc Hva f. specialize (Hfit f). cbn [pages_with] in *. rewrite one_hit in *.
  pose proof (iv_machine _ _ _ _ _ (kp_inv _ _ _ Hk)) as Hm. pose proof (iv_machine _ _ _ _ _ Hi') as Hm'.
  set (root := pml4 (space σ0)) in *. set (va' := va + PAGE_SIZE) in *.
  assert (∀ a, va' ≤ a < va' + Z.of_nat n * PAGE_SIZE ∨ covered rs a → a ≠ va) as Hne by (intros a [Ha|Ha]; [unfold va', PAGE_SIZE in Ha; lia|by intros ->]).
  assert (∀ a, va' ≤ a < va' + Z.of_nat n * PAGE_SIZE ∨ covered rs a → pfn (get_pte (gmaps G') (root, a)) = Some f → pfn (get_pte (gmaps G) (root, a)) = Some f) as Hkeep.
  { intros a Ha. apply (ev_keep _ _ _ _ _ Hev). intros [= E]. by apply (Hne a Ha). }
  pose proof (hits_mono f (gmaps G) (gmaps G') root n va' (λ a Ha, Hkeep a (or_introl Ha))) as Hp.
  pose proof (total_mono f (gmaps G) (gmaps G') root rs Hall (λ a Ha, Hkeep a (or_intror Ha))) as Ht.
  pose proof (one_if_nonneg (pfn (get_pte (gmaps G) (root, va)) = Some f)). pose proof (one_if_nonneg (pfn (get_pte (gmaps G') (root, va)) = Some f)).
  specialize (Hsh f). pose proof (count_nonneg _ _ _ _ _ _ _ f (mc_phys _ _ _ _ Hm)) as Hc0.
  destruct (decide (count (phys σ) f = 0)) as [Hz|Hz].
  - destruct (no_hits f (gmaps G) root n va' rs Hall) as [Z1 Z2]; [|rewrite Z1 in Hp; rewrite Z2 in Ht; unfold U16; lia].
    intros a _ Ha. pose proof (mapped_frame _ _ _ _ _ _ _ _ _ (mc_phys _ _ _ _ Hm) Ha). lia.
  - destruct (decide (pfn (get_pte (gmaps G') (root, va)) = Some f)) as [Hf|Hf].
    2:{ unfold one_if at 1. rewrite decide_False by done. lia. }
    destruct (Hva f Hf) as [Hold|Hone].
    + unfold one_if in *. rewrite !decide_True in * by done. lia.
    + destruct (exclusive _ _ _ _ _ _ Hm' Hf Hone) as (_ & Hu & _). destruct (no_hits f (gmaps G') root n va' rs Hall) as [Z1 Z2]; [|rewrite Z1, Z2; unfold U16; lia].
      intros a Ha Hfa. apply Hu in Hfa. injection Hfa as ->. by apply (Hne va Ha).
Qed.

Lemma wp_fork_swap_in todo n va rs r G σ Q :
  forking todo G σ → fits (S n) va rs G σ → todo va → region_at (regions (space σ0)) va = Some r → aligned va → Forall region_ok rs → ¬ covered rs va →
  (∀ G' σ', forking todo G' σ' → fits (S n) va rs G' σ' → Q tt σ') →
  wp (o ← on_phys (leaf_entry (pml4 (space σ0)) va);
      match o with
      | Some ptr =>
          e ← on_phys (read_entry ptr);
          if negb (has e PRESENT) && has e PTE_SWAPPED then _ ← swap_in va ptr r; mret tt else mret tt
      | None => mret tt
      end) Q σ.
Proof using H2 H3 Hself.
  intros Hfk Hfit Htd Hr Hal Hall Hnc HQ. pose proof (fk_kept _ _ _ Hfk) as Hk. pose proof (kp_inv _ _ _ Hk) as Hi. pose proof (kp_space _ _ _ Hk) as Hsp.
  pose proof (ss_pml4 _ _ Hsp) as Ep. assert (region_at (regions (space σ)) va = Some r) as Hr' by (by rewrite (ss_regions _ _ Hsp)).
  destruct (region_page K _ _ _ _ _ _ Hi Hr' Hal) as (Hok & Hva & Hin & Hv & Hpg). rewrite <- Ep.
  wp_step. eapply (wp_st_leaf K none _ G); [done|done| |intros _; wp_steps; by apply (HQ G)].
  intros ptr Hptr. wp_step. eapply wp_st_read; [done..|]. set (e := get_pte (gmaps G) (pml4 (space σ), va)).
  destruct (has e PRESENT) eqn:Hpr; [wp_steps; by apply (HQ G)|]. destruct (has e PTE_SWAPPED) eqn:Hsw; [|wp_steps; by apply (HQ G)]. simpl.
  assert (data G σ (pml4 (space σ), va) = Some (swap σ ≫= read_slot (Z.shiftr e 12))) as Hdata.
  { unfold data, pfn, swapped. fold e. by rewrite Hpr, Hsw. }
  wp_step. eapply (wp_swap_in K _ G σ va r); try done; fold e.
  - intros G' σ' Hi' Hf Halone Hcm. rewrite Ep in *. wp_steps. apply (HQ G').
    + eapply forking_step; [exact Hfk|exact Htd|done|apply Hf|apply Hcm|]. pose proof (fl_data _ _ _ _ _ _ _ Hf) as Hd. rewrite Ep in Hd. rewrite Hd. by rewrite Hdata.
    + eapply fits_step; [exact Hfit|done|done|apply Hcm|apply Hcm|done|done|]. intros f Hpf. right. by apply Halone.
  - intros G' σ' x Hi' Hev Hsp' Hle Hwhy. rewrite Ep in *. wp_steps. apply (HQ G').
    + eapply forking_step; [exact Hfk|exact Htd|done|done|by apply nothing_only|by apply only_data].
    + eapply fits_step; [exact Hfit|done|done|by apply nothing_only|done|done|done|]. intros f Hpf. left.
      apply (ev_keep _ _ _ _ _ Hev) in Hpf; [done|by intros []].
Qed.

(** The page is shared with the child. *)
Lemma wp_fork_present todo todo' n va rs r G σ ptr Q :
  let e := get_pte (gmaps G) (pml4 (space σ0), va) in
  forking todo G σ → fits (S n) va rs G σ → todo va → (∀ a, todo' a → todo a ∧ a ≠ va) → (∀ a, aligned a → ¬ todo' a → ¬ todo a ∨ a = va) →
  region_at (regions (space σ0)) va = Some r → aligned va → Forall region_ok rs → ¬ covered rs va →
  leaf_ptr (gown G) (pml4 (space σ0)) va ptr → has e PRESENT = true →
  (∀ G' σ', forking todo' G' σ' → fits n (va + PAGE_SIZE) rs G' σ' → Q (inr tt) σ') →
  (∀ G' σ' er, kept none G' σ' → Q (inl er) σ') →
  wp (_ ← on_phys (write_entry ptr (shared_entry r e));
      _ ← on_phys (page_get (entry_addr e));
      m ← on_phys (map_4k (pml4 child) va (entry_addr e) (Z.ldiff (shared_entry r e) (entry_addr (shared_entry r e))));
      mret (match m with inl x => inl (map_err x) | inr _ => inr tt end)) Q σ.
Proof using Hregions Hroots Hself.
  intros e Hfk Hfit Htd Hsub Hdone Hr Hal Hall Hnc Hptr Hpr HQ Hn. pose proof (fk_kept _ _ _ Hfk) as Hk. pose proof (kp_inv _ _ _ Hk) as Hi.
  pose proof (kp_space _ _ _ Hk) as Hsp. pose proof (ss_pml4 _ _ Hsp) as Ep.
  assert (region_at (regions (space σ)) va = Some r) as Hr' by (by rewrite (ss_regions _ _ Hsp)).
  destruct (region_page K _ _ _ _ _ _ Hi Hr' Hal) as (Hok & Hva & Hin & Hv & Hpg). rewrite <- Ep in Hptr.
  destruct (present_page K _ _ _ _ _ _ _ _ e Hi Hv ltac:(by rewrite Ep) Hpr) as (Hf & Hpte & Hperm). set (f := entry_addr e) in *.
  destruct (shared_entry_ok _ _ r va e f Hpte Hf) as (S1 & S2 & S3 & S4). set (e' := shared_entry r e) in *.
  wp_step. eapply (wp_st_flags K none _ G σ va ptr e' (prot r) (grows_down r) (source r va)); [done..|rewrite Ep; fold e; by rewrite S1|by rewrite S1|done|by apply S4|].
  rewrite Ep. intros G1 p1 Hi1 Hcm1 Em1 Eo1 Er1. wp_step. set (σ1 := with_phys p1 σ) in *.
  assert (get_pte (gmaps G1) (pml4 (space σ0), va) = e') as Ee1 by (by rewrite Em1, get_set_pte, decide_True).
  pose proof (Hfit f) as Hroom. cbn [pages_with] in Hroom. rewrite one_hit in Hroom. fold e in Hroom. unfold one_if in Hroom. rewrite decide_True in Hroom by done.
  pose proof (hits_mono f (gmaps G) (gmaps G) (pml4 (space σ0)) n (va + PAGE_SIZE) (λ a _ x, x)). pose proof (total_mono f (gmaps G) (gmaps G) (pml4 (space σ0)) rs Hall (λ a _ x, x)).
  eapply (wp_st_get_mapped none _ G1 σ1 va f (prot r) (grows_down r) (source r va)); [done|done|simpl; by rewrite Ep, Ee1|simpl; by rewrite Ep, Ee1| |].
  { unfold count in *. simpl. rewrite Er1. lia. }
  intros p2 Hi2 Hd2 Ho2 Em2 Er2. wp_step. set (σ2 := with_phys p2 σ1) in *.
  assert (kept (tok f none) G1 σ2) as Hk2.
  { pose proof (kept_nothing none none G σ G1 σ1 Hk Hi1 ltac:(auto with fastros) (cm_evolves _ _ _ _ _ Hcm1)) as [_ ? Hd1 Ho1]. split; try done.
    - intros k Hk0. rewrite Hd2. by apply Hd1.
    - intros ko. rewrite Ho2. apply Ho1. }
  assert (frame_addr f) as Hfa.
  { destruct (mapped_frame _ _ _ _ _ _ _ _ _ (inv_phys _ _ _ _ _ Hi) Hf) as (_ & HU & _).
    eapply (fa_addr (gF G) (gU G)); [apply (pi_rep _ _ _ _ (ph_paging _ _ _ _ _ _ _ (inv_phys _ _ _ _ _ Hi)))|set_solver +HU]. }
  destruct (child_entry e' f (prot r) Hfa S2) as (C1 & C2 & C3).
  assert (∀ a, get_pte (gmaps G1) (pml4 child, a) = get_pte (gmaps G) (pml4 child, a)) as Ec1.
  { intros a. rewrite Em1, get_set_pte, decide_False; [done|]. intros [= E _]. by apply Hself. }
  eapply (wp_st_map_child none child others G1 σ2 va f _ (prot r) (grows_down r) (source r va));
    [exact Hi2|apply none_nonneg|done| |apply flags_part| |by rewrite Ec1; apply (fk_todo _ _ _ Hfk)|by apply S4| |].
  { pose proof (iv_others _ _ _ _ _ Hi2) as [Hch _]%Forall_cons. split; [apply Hch|apply Hpg|done]. }
  { rewrite Hregions. unfold view. by rewrite Hr. }
  2:{ intros G3 p3 er Hi3 Hev3 Em3 Er3 El3 _. destruct (inv_lose K none _ G3 _ f Hi3 none_nonneg) as [Hi4 Hev4]. wp_steps. eapply Hn.
      eapply kept_nothing; [exact Hk2|exact Hi4|done|]. by eapply evolves_trans. }
  intros G3 p3 Hi3 Em3 Hd3 Hc3 Ho3 Er3 _. wp_steps. set (σ3 := with_phys p3 σ2) in *.
  assert (∀ a, get_pte (gmaps G3) (pml4 (space σ0), a) = if decide (a = va) then e' else get_pte (gmaps G) (pml4 (space σ0), a)) as Eg3.
  { intros a. rewrite Em3, get_set_pte, decide_False by (intros [= E _]; by apply Hself). rewrite Em1, get_set_pte. repeat case_decide; congruence. }
  assert (∀ a, a ≠ va → data G3 σ3 (pml4 child, a) = data G σ (pml4 child, a)) as Hdc.
  { intros a Ha. rewrite Hd3 by congruence. rewrite Hd2. apply only_data, Hcm1. }
  assert (∀ k, k.1 ≠ pml4 child → data G3 σ3 k = data G σ k) as Hdo.
  { intros k Hk0. rewrite Hd3 by (intros ->; done). rewrite Hd2. apply only_data, Hcm1. }
  apply (HQ G3).
  - split; [split; [done|exact Hsp| |]|..].
    + intros k Hk0. rewrite Hdo by done. by apply (kp_data _ _ _ Hk).
    + intros ko. rewrite Ho3. apply (kp_objs _ _ _ Hk2).
    + intros a Ha. apply Hsub in Ha as [Ha Hne]. rewrite Em3, get_set_pte, decide_False, Ec1 by congruence. by apply (fk_todo _ _ _ Hfk).
    + intros a Hala Hna. destruct (decide (a = va)) as [->|Hne].
      * left. rewrite (data_present G3 σ3 _ f), (data_present G3 σ3 _ f); [done|by rewrite Eg3, decide_True|].
        rewrite Em3, get_set_pte. by rewrite decide_True.
      * destruct (Hdone a Hala Hna) as [Hnt|]; [|done]. rewrite (Hdc a Hne), (Hdo (pml4 (space σ0), a)) by done. rewrite Eg3, decide_False by done.
        by apply (fk_done _ _ _ Hfk).
  - intros x. specialize (Hfit x). cbn [pages_with] in Hfit. rewrite one_hit in Hfit. fold e in Hfit.
    assert (count (phys σ3) x = count (phys σ) x + one_if (pfn e = Some x)) as Ecx.
    { unfold count. simpl. rewrite Er3. change (phys σ2) with p2. rewrite Er2. change (phys σ1) with p1. unfold count. rewrite Er1.
      unfold one_if. destruct (decide (pfn e = Some x)) as [Ex|Ex].
      - assert (f = x) as Efx by congruence. rewrite <- Efx, lookup_insert_eq. done.
      - rewrite lookup_insert_ne by congruence. lia. }
    pose proof (hits_mono x (gmaps G) (gmaps G3) (pml4 (space σ0)) n (va + PAGE_SIZE)) as Hh.
    pose proof (total_mono x (gmaps G) (gmaps G3) (pml4 (space σ0)) rs Hall) as Ht.
    assert (∀ a, a ≠ va → pfn (get_pte (gmaps G3) (pml4 (space σ0), a)) = Some x → pfn (get_pte (gmaps G) (pml4 (space σ0), a)) = Some x) as Hx.
    { intros a Ha. rewrite Eg3. by rewrite decide_False. }
    specialize (Hh ltac:(intros a Ha; apply Hx; unfold PAGE_SIZE in *; lia)). specialize (Ht ltac:(intros a Ha; apply Hx; by intros ->)). lia.
Qed.

Lemma wp_fork_share todo todo' n va rs r G σ Q :
  forking todo G σ → fits (S n) va rs G σ → todo va → (∀ a, todo' a → todo a ∧ a ≠ va) → (∀ a, aligned a → ¬ todo' a → ¬ todo a ∨ a = va) →
  region_at (regions (space σ0)) va = Some r → aligned va → Forall region_ok rs → ¬ covered rs va →
  (∀ G' σ', forking todo' G' σ' → fits n (va + PAGE_SIZE) rs G' σ' → Q (inr tt) σ') →
  (∀ G' σ' er, kept none G' σ' → Q (inl er) σ') →
  wp (o ← on_phys (leaf_entry (pml4 (space σ0)) va);
      match o with
      | Some ptr =>
          e ← on_phys (read_entry ptr);
          if has e PRESENT then
            _ ← on_phys (write_entry ptr (shared_entry r e));
            _ ← on_phys (page_get (entry_addr e));
            m ← on_phys (map_4k (pml4 child) va (entry_addr e) (Z.ldiff (shared_entry r e) (entry_addr (shared_entry r e))));
            mret (match m with inl x => inl (map_err x) | inr _ => inr tt end)
          else mret (inr tt)
      | None => mret (inr tt)
      end) Q σ.
Proof using Hregions Hroots Hself.
  intros Hfk Hfit Htd Hsub Hdone Hr Hal Hall Hnc HQ Hn. pose proof (fk_kept _ _ _ Hfk) as Hk. pose proof (kp_inv _ _ _ Hk) as Hi.
  pose proof (kp_space _ _ _ Hk) as Hsp. pose proof (ss_pml4 _ _ Hsp) as Ep.
  assert (region_at (regions (space σ)) va = Some r) as Hr' by (by rewrite (ss_regions _ _ Hsp)).
  destruct (region_page K _ _ _ _ _ _ Hi Hr' Hal) as (Hok & Hva & Hin & Hv & Hpg). set (e := get_pte (gmaps G) (pml4 (space σ0), va)).
  assert (has e PRESENT = false → Q (inr tt) σ) as Hskip.
  { intros Hpr. apply (HQ G).
    - split; [done| |].
      + intros a [Ha _]%Hsub. by apply (fk_todo _ _ _ Hfk).
      + intros a Hala Hna. destruct (Hdone a Hala Hna) as [Hnt| ->]; [by apply (fk_done _ _ _ Hfk)|].
        assert (data G σ (pml4 child, va) = None) as Hdc by (unfold data; by rewrite (fk_todo _ _ _ Hfk va Htd)).
        rewrite Hdc. fold e. unfold data. fold e. unfold pfn. rewrite Hpr. destruct (swapped e); [right; eauto|by left].
    - intros f. specialize (Hfit f). cbn [pages_with] in Hfit. rewrite one_hit in Hfit. fold e in Hfit. pose proof (one_if_nonneg (pfn e = Some f)). lia. }
  wp_step. rewrite <- Ep at 1. eapply (wp_st_leaf K none _ G); [done|done| |].
  2:{ intros Hz. wp_steps. apply Hskip. unfold e. by rewrite <- Ep, Hz. }
  intros ptr Hptr. wp_step. eapply (wp_st_read K none _ G); [done|done|done|]. rewrite Ep in Hptr |- *. fold e.
  destruct (has e PRESENT) eqn:Hpr; [by eapply wp_fork_present|]. wp_steps. by apply Hskip.
Qed.

Lemma wp_seq {X Y} (m : Exec (St A D F) X) (k : X → Exec (St A D F) Y) Q σ : wp (m ≫= k) Q σ → wp m (λ x, wp (k x) Q) σ.
Proof using Type. unfold wp, mbind, exec_bind. by destruct (m σ) as [[x σ']|]. Qed.

Lemma wp_fork_pages r rs : ∀ n va G σ Q,
  forking (λ a, va ≤ a < va + Z.of_nat n * PAGE_SIZE ∨ covered rs a) G σ → fits n va rs G σ → r ∈ regions (space σ0) → regions_wf (regions (space σ0)) →
  start r ≤ va → va + Z.of_nat n * PAGE_SIZE ≤ end_ r → aligned va → Forall region_ok rs → (∀ a, start r ≤ a < end_ r → ¬ covered rs a) →
  (∀ G' σ', forking (covered rs) G' σ' → fits 0 0 rs G' σ' → Q (inr tt) σ') →
  (∀ G' σ' er, kept none G' σ' → Q (inl er) σ') →
  wp (fork_pages n (pml4 child) va r) Q σ.
Proof using H2 H3 Hregions Hroots Hself.
  induction n as [|n IH]; intros va G σ Q Hfk Hfit Hin Hwf Hlo Hhi Hal Hall Hnc HQ Hn; cbn [fork_pages].
  { wp_steps. apply (HQ G); [|done]. destruct Hfk as [Hk Htd Hdn]. split; [done|intros a Ha; apply Htd; by right|].
    intros a Ha Hna. apply Hdn; [done|]. intros [?|?]; [lia|done]. }
  assert (start r ≤ va < end_ r) as Hva by (unfold PAGE_SIZE in *; lia).
  assert (region_at (regions (space σ0)) va = Some r) as Hr.
  { apply list_elem_of_lookup in Hin as [i Hri]. by apply (region_at_app_wf _ i). }
  wp_step. apply wp_root. rewrite (ss_pml4 _ _ (kp_space _ _ _ (fk_kept _ _ _ Hfk))). wp_step.
  eapply wp_mono; [|intros o σ' Hw; wp_step; exact Hw]. apply wp_seq.
  eapply (wp_fork_swap_in _ n va rs r G); [exact Hfk|done|left; unfold PAGE_SIZE; lia|done|done|done|by apply Hnc|].
  intros G1 σ1 Hfk1 Hfit1. wp_step. eapply wp_mono; [|intros o σ' Hw; apply wp_try; exact Hw]. apply wp_seq.
  eapply (wp_fork_share _ (λ a, va + PAGE_SIZE ≤ a < va + PAGE_SIZE + Z.of_nat n * PAGE_SIZE ∨ covered rs a) n va rs r G1);
    [exact Hfk1|done|left; unfold PAGE_SIZE; lia| | |done|done|done|by apply Hnc| |done].
  - intros a [Ha|Ha]; (split; [|intros ->]); [left; unfold PAGE_SIZE in *; lia|unfold PAGE_SIZE in *; lia|by right|by eapply Hnc].
  - intros a Hala Hna. destruct (decide (a = va)) as [|Hne]; [by right|left]. intros [Ha|Ha]; apply Hna; [left|by right].
    assert (va < a) as Hlt by lia. apply page_aligned_le in Hlt; [lia|done|done].
  - intros G2 σ2 Hfk2 Hfit2. apply (IH (va + PAGE_SIZE) G2); try done; [unfold PAGE_SIZE in *; lia..|].
    unfold aligned, PAGE_SIZE in *. rewrite <- Z.add_mod_idemp_r by lia. simpl. by rewrite Z.add_0_r.
Qed.

Lemma forking_iff (todo todo' : Z → Prop) G σ : (∀ a, todo a ↔ todo' a) → forking todo G σ → forking todo' G σ.
Proof using Type. intros Hiff [Hk Htd Hdn]. split; [done|intros a ?%Hiff; by apply Htd|]. intros a Ha Hn. apply Hdn; [done|]. by rewrite Hiff. Qed.

Lemma wp_fork_regions rs : ∀ G σ Q,
  forking (covered rs) G σ → fits 0 0 rs G σ → (∀ r, r ∈ rs → r ∈ regions (space σ0)) → regions_wf rs → regions_wf (regions (space σ0)) →
  (∀ G' σ', forking (λ _, False) G' σ' → Q (inr tt) σ') → (∀ G' σ' er, kept none G' σ' → Q (inl er) σ') →
  wp (fork_regions (pml4 child) rs) Q σ.
Proof using H2 H3 Hregions Hroots Hself.
  induction rs as [|r rs IH]; intros G σ Q Hfk Hfit Hin [Hall Hap] Hwf HQ Hn; cbn [fork_regions].
  { wp_steps. apply (HQ G). eapply forking_iff; [|exact Hfk]. intros a. unfold covered. rewrite Exists_nil. done. }
  apply Forall_cons in Hall as [Hok Hall]. inversion Hap as [|? ? Har Hap']; subst. pose proof (pages_fit r Hok) as Hpf.
  apply wp_try. eapply (wp_fork_pages r rs _ (start r) G); try done; [| |by apply Hin; left|by rewrite Hpf|apply Hok| |].
  - eapply forking_iff; [|exact Hfk]. intros a. rewrite Hpf. unfold covered. by rewrite Exists_cons.
  - intros f. specialize (Hfit f). cbn [total foldr pages_with] in Hfit. fold (total (hit f) (gmaps G) (pml4 (space σ0)) rs) in Hfit. lia.
  - intros a Ha (q & Hq & Hqa)%Exists_exists. rewrite Forall_forall in Har. specialize (Har q Hq). unfold apart in Har. lia.
  - intros G1 σ1 Hfk1 Hfit1. apply (IH G1); try done. intros q Hq. apply Hin. by right.
Qed.
End Loop.

(** ** A child that is given up *)

Lemma wp_abandon child others G σ Q :
  inv K none (child :: others) G σ → Forall (λ sp, pml4 sp ≠ pml4 child) others →
  (∀ G' p', inv K none others G' (with_phys p' σ) → gmaps G' = elsewhere (pml4 child) (gmaps G) → mem p' = mem (phys σ) → Q tt (with_phys p' σ)) →
  wp (on_phys (free_tables (pml4 child))) Q σ.
Proof using Type.
  intros Hi Hdis HQ. pose proof (iv_machine _ _ _ _ _ Hi) as Hm. pose proof (iv_others _ _ _ _ _ Hi) as [Hch Ho]%Forall_cons.
  pose proof (iv_roots _ _ _ _ _ Hi) as [Hrt Hrs]%Forall_cons. apply wp_on_phys.
  eapply wp_teardown; [apply (inv_phys _ _ _ _ _ Hi)|apply (so_root _ _ _ Hch)|]. intros p' Hp' Em Erefs.
  set (c := pml4 child) in *. set (G' := mkGhost (gF G ∪ owned_by (gown G) c) (gU G ∖ owned_by (gown G) c) (disown (gown G) c) (elsewhere c (gmaps G)) (gX G)
    (λ f, glost G f + refs_of c (gmaps G) f)).
  assert (∀ k, get_pte (gmaps G') k = if decide (k.1 = c) then 0 else get_pte (gmaps G) k) as Eg by (intros k; apply get_elsewhere).
  assert (machine K none G' (with_phys p' σ)) as Hm'.
  { destruct Hm as [? ? Hl ? ? ? Hsl Hds]. split; try done; simpl.
    - eapply phys_inv_ext; [exact Hp'|]. intros x. simpl. lia.
    - intros f. specialize (Hl f). pose proof (refs_nonneg (filter (λ kv, ¬ kv.1.1 ≠ c) (gmaps G)) f). unfold refs_of. lia.
    - intros k s. change (elsewhere c (gmaps G)) with (gmaps G'). rewrite Eg. case_decide; [done|apply Hsl].
    - intros k k' s. change (elsewhere c (gmaps G)) with (gmaps G'). rewrite !Eg. repeat case_decide; [done..|apply Hds]. }
  assert (∀ sp, space_ok G σ sp → pml4 sp ≠ c → space_ok G' (with_phys p' σ) sp) as Hkeep.
  { intros sp Hsp Hne. apply (space_ok_kept none none G σ); try done; [apply disown_lookup; split; [apply Hsp|done]|].
    intros va. rewrite Eg. by rewrite decide_False. }
  apply (HQ G'); [|done|done]. split; [done|apply Hkeep; [apply Hi|done]| |done].
  rewrite Forall_forall in *. intros sp Hin. apply Hkeep; [by apply Ho|by apply Hdis].
Qed.

(** ** [fork] *)

Lemma contents_of_data (P : Z → Prop) others G σ G' σ' :
  same_space (space σ) (space σ') → (∀ sp page, sp = space σ ∨ sp ∈ others → data G' σ' (pml4 sp, page) = data G σ (pml4 sp, page)) →
  (∀ ko, obj_bytes σ' ko = obj_bytes σ ko) → same_contents others P G σ G' σ'.
Proof using Type.
  intros Hsp Hd Ho. assert (∀ sp page, sp = space σ ∨ sp ∈ others → contents G' σ' sp page = contents G σ sp page) as Hc.
  { intros sp page Hin. unfold contents. rewrite Hd by done. destruct (data G σ (pml4 sp, page)); [done|].
    destruct (region_at (regions sp) page) as [r|]; [|done]. simpl. unfold first_touch. by destruct (shared r). }
  split; [by intros; apply Hc; right|]. intros page _. rewrite <- Hc by (by left). unfold contents.
  by rewrite (ss_pml4 _ _ Hsp), (ss_regions _ _ Hsp).
Qed.

Record forked others (child : AddressSpace F) G σ G' σ' : Prop := {
  fd_inv : inv K none (child :: others) G' σ';
  fd_parent : same_space (space σ) (space σ');
  fd_child : child = mkSpace (pml4 child) (regions (space σ)) (brk (space σ)) (brk_base (space σ)) (mmap_top (space σ)) None 0;
  fd_fresh : Forall (λ sp, pml4 sp ≠ pml4 child) others;
  fd_contents : same_contents others any G σ G' σ';
  fd_copy page : aligned page → contents G' σ' child page = contents G σ (space σ) page ∨
    is_Some (swapped (get_pte (gmaps G') (pml4 (space σ), page)));
}.

(** No frame of the space runs out of references. *)
Definition fork_room G σ : Prop :=
  ∀ f, count (phys σ) f + total (hit f) (gmaps G) (pml4 (space σ)) (regions (space σ)) < U16.

(** The start of the loop: the child has no page. *)
Lemma forking_start others child G σ G1 σ1 :
  inv K none others G σ → inv K none (child :: others) G1 σ1 → space σ1 = space σ → pml4 (space σ) ≠ pml4 child →
  (∀ va, get_pte (gmaps G1) (pml4 child, va) = 0) → gmaps G1 = gmaps G → (∀ k, data G1 σ1 k = data G σ k) → (∀ ko, obj_bytes σ1 ko = obj_bytes σ ko) →
  forking child others G σ (covered (regions (space σ))) G1 σ1.
Proof using Type.
  intros Hi Hi1 Es Hne Hz Em Hd Ho. split; [split; try done; rewrite Es; auto with fastros|by intros a _; apply Hz|].
  intros a _ Hn. left. unfold data. rewrite Hz, Em. assert (get_pte (gmaps G) (pml4 (space σ), a) = 0) as ->; [|done].
  destruct (decide (get_pte (gmaps G) (pml4 (space σ), a) = 0)) as [|Hnz]; [done|]. exfalso. apply Hn.
  destruct (so_pte _ _ _ (iv_space _ _ _ _ _ Hi) a _ (proj2 (maps_get _ _ _ _ _ _ (iv_machine _ _ _ _ _ Hi)) (conj eq_refl Hnz))) as (p & g & src & Hv & _).
  unfold view in Hv. destruct (region_at (regions (space σ)) a) as [r|] eqn:Hr; [|done]. apply region_at_Some in Hr as [Hin Ha].
  apply Exists_exists. by exists r.
Qed.

Lemma forking_forked others child G σ G' σ' :
  Forall (λ sp, pml4 sp ≠ pml4 child) (space σ :: others) → regions child = regions (space σ) →
  child = mkSpace (pml4 child) (regions (space σ)) (brk (space σ)) (brk_base (space σ)) (mmap_top (space σ)) None 0 →
  forking child others G σ (λ _, False) G' σ' → forked others child G σ G' σ'.
Proof using Type.
  intros Hr Ereg Ech [[Hi Hsp Hd Ho] _ Hdn]. apply Forall_cons in Hr as [Hr1 Hr]. split; try done; rewrite Forall_forall in Hr.
  - apply contents_of_data; [done| |done]. intros sp page [->|Hin]; apply Hd; [done|by apply Hr].
  - intros page Hal. destruct (Hdn page Hal (λ x, x)) as [Ed|[_ ?]]; [left|by right]. unfold contents. rewrite Ed, Hd by done. rewrite Ereg.
    destruct (data G σ (pml4 (space σ), page)); [done|]. destruct (region_at (regions (space σ)) page) as [r|]; [|done]. simpl. unfold first_touch. by destruct (shared r).
Qed.

Lemma wp_fork others G σ Q :
  inv K none others G σ → upper_half kernel_half → fork_room G σ →
  (∀ child G' σ', forked others child G σ G' σ' → Q (inr child) σ') →
  (∀ er G' σ', inv K none others G' σ' → same_space (space σ) (space σ') → same_contents others any G σ G' σ' → Q (inl er) σ') →
  wp (fork kernel_half) Q σ.
Proof using Type*.
  intros Hi Hkh Hroom HQ Hn. unfold fork. apply wp_try. eapply (wp_new_space others G); [done|done| |].
  2:{ intros p' Hi' Hcm _. apply (Hn _ G); [done|auto with fastros|]. apply same_contents_nothing; [apply Hcm|auto with fastros]. }
  intros c G1 p1 σ1 Hi1 Hdis Hz Em El Hd Ho Er. wp_steps. cbn [pml4].
  set (child := mkSpace c (regions (space σ)) (brk (space σ)) (brk_base (space σ)) (mmap_top (space σ)) None 0).
  pose proof (Hi1 child eq_refl eq_refl) as Hic. pose proof Hdis as [Hself Hoth]%Forall_cons. pose proof (so_regions _ _ _ (iv_space _ _ _ _ _ Hi)) as Hwf.
  change c with (pml4 child). eapply (wp_fork_regions child others G σ); [done|done|done| | |done|done|done| |].
  - apply (forking_start others child G σ G1 σ1); done.
  - intros f. cbn [pages_with]. specialize (Hroom f). unfold count in *. simpl. rewrite Er, Em. lia.
  - intros G2 σ2 Hfk. wp_steps. pose proof (kp_space _ _ _ _ _ _ _ (fk_kept _ _ _ _ _ _ _ Hfk)) as Hsp. cbn [pml4] in *.
    rewrite (ss_brk _ _ Hsp), (ss_base _ _ Hsp), (ss_top _ _ Hsp). apply (HQ child G2). by apply forking_forked.
  - intros G2 σ2 er Hk. destruct Hk as [Hi2 Hsp2 Hd2 Ho2]. wp_step. eapply (wp_abandon child others G2); [done|done|].
    intros G3 p3 Hi3 Em3 Emem. wp_steps. apply (Hn er G3); [done|done|]. rewrite Forall_forall in Hoth.
    assert (∀ k, k.1 ≠ c → data G3 (with_phys p3 σ2) k = data G σ k) as Hd3.
    { intros k Hk. rewrite <- Hd2 by done. unfold data, frame_bytes. simpl. rewrite Em3, get_elsewhere, Emem. by rewrite decide_False. }
    apply contents_of_data; [done| |].
    + intros sp page [->|Hin]; apply Hd3; [done|by apply Hoth].
    + intros ko. rewrite <- Ho2. unfold obj_bytes, frame_bytes. simpl. by rewrite Emem.
Qed.
End Fork.
