(* ===== verification/SpaceBrk.v ===== *)
(** * The program break

    [brk] over the invariant: growing the heap region, or unmapping its end. *)

From S2P Require Import Prelude Errno UAccess Vma FrameBuddy Frame Paging PagingProofs Cgroup Swap AddrSpace PhysInv PteBits SpaceInv SpaceSteps SpaceDemo SpaceReclaim SpaceFault SpaceMem SpaceUnmap SpaceMap.

Section Brk.
Context {A D F : Type} `{FrameAllocatorLaws A} `{BlockDeviceLaws D} `{MappedFile F}.
Context (K : gset Z).
Implicit Types (σ : St A D F) (G : Ghost) (others : list (AddressSpace F)).

Lemma inv_brk h others G σ b : inv K h others G σ → inv K h others G (with_space (set_brk b (space σ)) σ).
Proof using Type.
  intros [Hm Hs Ho Hr]. split; [by destruct Hm|by destruct Hs| |done]. eapply Forall_impl; [exact Ho|]. intros sp [? ? ? ?]. by split.
Qed.

(** The space with a heap the break can move: it ends at the break, and what
    lies there is plain anonymous memory. *)
Record heap_ok (s : AddressSpace F) : Prop := {
  hp_base : USER_START ≤ brk_base s ≤ brk s;
  hp_end : brk s ≤ USER_END;
  hp_aligned : aligned (brk s);
  hp_plain : heap_plain (brk_base s) (brk s) (regions s);
  hp_cut : no_shared_cut (brk s) (regions s);
}.

(** The range between the old and the new break is zero-filled memory, or
    unmapped; nothing else changes. *)
Record moved others (new : Z) G σ G' σ' : Prop := {
  mv_brk : brk (space σ') = new ∧ brk_base (space σ') = brk_base (space σ);
  mv_contents : same_contents others (beyond (Z.min new (brk (space σ))) (Z.max new (brk (space σ)))) G σ G' σ';
  mv_view : ∃ p, ∀ a, view (regions (space σ')) a =
    if (brk (space σ) <=? a) && (a <? new) then Some (p, false, Zero)
    else if (new <=? a) && (a <? brk (space σ)) then None else view (regions (space σ)) a;
  mv_root : pml4 (space σ') = pml4 (space σ);
}.

Lemma wp_brk_grow others G σ new Q :
  inv K none others G σ → heap_ok (space σ) → aligned new → brk (space σ) < new ≤ USER_END → overlaps (regions (space σ)) (brk (space σ)) new = false →
  (∀ rs, let σ' := with_space (set_brk new (set_regions rs (space σ))) σ in
     inv K none others G σ' → moved others new G σ G σ' → Q rs) →
  ∃ rs, brk_extend (brk_base (space σ)) (brk (space σ)) new (regions (space σ)) = Some rs ∧ Q rs.
Proof using Type.
  intros Hi [Hb He Hal Hpl Hcut] Ha Hn Ho HQ. pose proof (so_regions _ _ _ (iv_space _ _ _ _ _ Hi)) as Hwf. set (cur := brk (space σ)) in *.
  destruct (brk_extend_ok (brk_base (space σ)) cur new (regions (space σ))) as (rs & p & Hrs & Hwf' & Hv); [done..|]. exists rs. split; [done|].
  assert (∀ a, get_pte (gmaps G) (pml4 (space σ), a) ≠ 0 → view rs a = view (regions (space σ)) a) as Hold.
  { intros a Hz. rewrite Hv. destruct (_ && _) eqn:E; [|done]. apply andb_true_iff in E as [E1%Z.leb_le E2%Z.ltb_lt].
    apply (entry_view K none others G σ a Hi) in Hz. rewrite (overlap_view _ cur new a Ho) in Hz by lia. by destruct Hz. }
  destruct (inv_regions K none others G σ rs Hi Hwf') as [Hi2 Hev2]; [|done|].
  { intros r o Hin Hsh. destruct (shared_view rs r o Hwf' Hin Hsh) as (p' & g & off & Hw). rewrite Hv in Hw. destruct (_ && _); [done|].
    apply view_shared in Hw as (r' & Hin' & Ho'). by eapply (so_live _ _ _ (iv_space _ _ _ _ _ Hi)). }
  apply HQ; [exact (inv_brk none others G _ new Hi2)|]. split; [done| |exists p; intros a; simpl; rewrite Hv|done].
  - rewrite Z.min_r, Z.max_l by lia. split; [by intros; apply (contents_nothing _ _ _ _ _ _ Hev2)|]. intros page [Hpa Hout].
    trans (contents G σ (set_regions rs (space σ)) page); [done|]. apply contents_sources; [done|done|done|].
    intros a Hr. unfold source_at. rewrite Hv. destruct (_ && _) eqn:E; [|done]. exfalso. apply Hout. apply andb_true_iff in E as [E1 E2].
    split; [|lia]. destruct (Z.lt_ge_cases page cur) as [Hlt|]; [|lia]. apply page_aligned_le in Hlt; [lia|done|done].
  - fold cur. destruct ((cur <=? a) && (a <? new)); [done|]. by destruct (Z.leb_spec new a), (Z.ltb_spec a cur); try lia.
Qed.

Lemma wp_do_brk others G σ addr Q :
  inv K none others G σ → heap_ok (space σ) → 0 ≤ addr ≤ USER_END →
  (brk (space σ) < round_up addr → overlaps (regions (space σ)) (brk (space σ)) (round_up addr) = false) →
  (addr < brk_base (space σ) → Q (brk (space σ)) σ) →
  (∀ G' σ', brk_base (space σ) ≤ addr → inv K none others G' σ' → moved others (round_up addr) G σ G' σ' → Q (round_up addr) σ') →
  wp (do_brk addr) Q σ.
Proof using Type*.
  intros Hi Hh Ha Ho Hlow HQ. unfold do_brk. wp_steps. destruct (Z.ltb_spec addr (brk_base (space σ))) as [Hlt|Hge]; [wp_steps; by apply Hlow|].
  wp_step. rewrite align_up_val by (unfold U64, USER_END, PAGE_SIZE in *; lia). eapply wp_need; [done|]. wp_steps.
  destruct (round_up_spec addr) as [Hal Hup]. pose proof (round_up_le addr USER_END ltac:(done) ltac:(lia)) as Hle. set (new := round_up addr) in *.
  destruct (Z.ltb_spec (brk (space σ)) new) as [Hgt|Hnot].
  { destruct (wp_brk_grow others G σ new (λ rs, wp (_ ← upd_space (λ s, set_brk new (set_regions rs s)); mret new) Q σ)) as (rs & -> & Hw); [done|done|done|lia|auto| |done].
    intros rs σ' Hi' Hmv. unfold upd_space. wp_steps. by apply (HQ G). }
  destruct (Z.ltb_spec new (brk (space σ))) as [Hlt|Heq].
  - pose proof (hp_end _ Hh). pose proof (hp_base _ Hh) as Hb. assert (round_up (new + (brk (space σ) - new)) = brk (space σ)) as Er.
    { replace (new + (brk (space σ) - new)) with (brk (space σ)) by lia. pose proof (round_up_le _ _ (hp_aligned _ Hh) (Z.le_refl (brk (space σ)))). destruct (round_up_spec (brk (space σ))). lia. }
    wp_step. eapply (wp_unmap K others G); [done|unfold USER_START in *; lia|lia|lia|].
    rewrite Er, aligned_down by done. intros G' σ' Hu. unfold upd_space. wp_steps. destruct (un_fields _ _ _ _ _ _ _ _ Hu) as (_ & Eb & _).
    pose proof (hp_cut _ Hh) as Hcut. apply (HQ G'); [done|by apply inv_brk, (un_inv _ _ _ _ _ _ _ _ Hu)|].
    split; [done| | |apply (ev_root _ _ _ _ _ (cm_evolves _ _ _ _ _ (un_calm _ _ _ _ _ _ _ _ Hu)))].
    + rewrite Z.min_l, Z.max_r by lia. by apply (uncut_contents _ _ _ _ _ _ _ Hcut), (un_contents _ _ _ _ _ _ _ _ Hu).
    + exists 0. intros a. simpl. rewrite (un_view _ _ _ _ _ _ _ _ Hu), carved_view by done. by destruct (Z.leb_spec (brk (space σ)) a), (Z.ltb_spec a new); try lia.
  - unfold upd_space. wp_steps. assert (brk (space σ) = new) as E by lia. apply (HQ G); [done|by apply inv_brk|]. split; [done|by split|exists 0; intros a; simpl|done].
    rewrite E. by destruct (Z.leb_spec new a), (Z.ltb_spec a new); try lia.
Qed.

(** [brk] moves the end of the heap exactly to the page boundary above the
    requested address: growing adds zero-filled memory, shrinking unmaps it,
    no other page changes; below the start of the heap it only reports the
    break. *)
Theorem brk_moves others G σ addr :
  inv K none others G σ → heap_ok (space σ) → 0 ≤ addr ≤ USER_END →
  (brk (space σ) < round_up addr → overlaps (regions (space σ)) (brk (space σ)) (round_up addr) = false) →
  wp (sys_brk addr) (λ res σ',
    if addr <? brk_base (space σ) then res = inr (brk (space σ)) ∧ σ' = σ
    else res = inr (round_up addr) ∧ ∃ G', inv K none others G' σ' ∧ moved others (round_up addr) G σ G' σ') σ.
Proof using Type*.
  intros Hi Hh Ha Ho. unfold sys_brk. wp_step. eapply (wp_do_brk others G); [done..| |].
  - intros Hlt%Z.ltb_lt. wp_steps. by rewrite Hlt.
  - intros G' σ' Hge%Z.ltb_ge Hi' Hm. wp_steps. rewrite Hge. split; [done|]. by exists G'.
Qed.
End Brk.

#[local] Opaque demo_frame.

Lemma brk_moves_witness :
  wp (sys_brk 0x403001) (λ res σ',
    if 0x403001 <? brk_base (space demo_st) then res = inr (brk (space demo_st)) ∧ σ' = demo_st
    else res = inr (round_up 0x403001) ∧ ∃ G', inv ∅ none [] G' σ' ∧ moved [] (round_up 0x403001) demo_ghost demo_st G' σ') demo_st.
Proof.
  apply (brk_moves ∅ [] demo_ghost demo_st 0x403001 demo_inv); [|done|done].
  split; [done|done|done| |apply demo_no_cut; by left]. repeat apply Forall_cons_2; [done..|by apply Forall_nil].
Defined.
