(* ===== verification/SpaceSystem.v ===== *)
(** * A machine with many spaces

    What the invariant says of two spaces that share frames, that [fork] keeps
    it, and an evaluated run of the case [mprotect] gets wrong.  Then the
    address-space calls as the calls of one machine: the current space faults,
    copies, maps, unmaps, forks and exits, and another one becomes current.  Under
    stated conditions on each call the invariant holds after every sequence of
    calls, so the spaces stay isolated. *)

From S2P Require Import Prelude Errno UAccess Vma BuddyModel FrameBuddy Frame Paging PagingProofs Cgroup Swap AddrSpace PhysInv PteBits SpaceInv SpaceSteps SpaceDemo SpaceReclaim SpaceFault SpaceMem SpaceUnmap SpaceMap SpaceProtect SpaceDrop SpaceFork SpaceBrk.

Section Calls.
Context {A D F : Type} `{FrameAllocatorLaws A} `{BlockDeviceLaws D} `{MappedFile F}.
Context (K : gset Z).
Implicit Types (σ : St A D F) (G : Ghost) (others : list (AddressSpace F)).

(** No private page is writable while a second entry refers to its frame. *)
Definition isolated (l : list (AddressSpace F)) σ : Prop :=
  ∀ sp sp' va va' p g src f, sp ∈ l → sp' ∈ l → user_va va → aligned va → user_va va' → aligned va' →
    view (regions sp) va = Some (p, g, src) → private src = true → has (pte (phys σ) (pml4 sp) va) WRITABLE = true →
    pfn (pte (phys σ) (pml4 sp) va) = Some f → pfn (pte (phys σ) (pml4 sp') va') = Some f → pml4 sp' = pml4 sp ∧ va' = va.

Lemma inv_spaces others G σ sp : inv K none others G σ → sp ∈ space σ :: others → space_ok G σ sp.
Proof using Type. intros Hi [->|Hin]%elem_of_cons; [apply Hi|]. pose proof (iv_others _ _ _ _ _ Hi) as Ho. rewrite Forall_forall in Ho. by apply Ho. Qed.

Lemma inv_isolated others G σ : inv K none others G σ → isolated (space σ :: others) σ.
Proof using Type.
  intros Hi sp sp' va va' p g src f Hin Hin' Hu Ha Hu' Ha' Hv Hp Hw Hf Hf'. pose proof (iv_machine _ _ _ _ _ Hi) as Hm.
  pose proof (inv_spaces _ _ _ _ Hi Hin) as Hok. pose proof (inv_spaces _ _ _ _ Hi Hin') as Hok'.
  rewrite (pa_pte _ _ _ (ph_abs _ _ _ _ _ _ _ (mc_phys _ _ _ _ Hm))) in Hw, Hf by (done || apply Hok).
  rewrite (pa_pte _ _ _ (ph_abs _ _ _ _ _ _ _ (mc_phys _ _ _ _ Hm))) in Hf' by (done || apply Hok').
  assert (get_pte (gmaps G) (pml4 sp, va) ≠ 0) as Hnz by (intros E; by rewrite E in Hf).
  destruct (so_pte _ _ _ Hok va _ (proj2 (maps_get _ _ _ _ _ _ Hm) (conj eq_refl Hnz))) as (p1 & g1 & src1 & Hv1 & He).
  simplify_eq. unfold pte_ok in He. rewrite Hf in He. destruct He as [Hperm He]. rewrite (pm_write _ _ Hperm) in Hw. apply andb_true_iff in Hw as [Hcw Hcow%negb_true_iff].
  assert (count (phys σ) f = 1) as Hc by (destruct src; [apply He..|done]; done).
  destruct (exclusive _ _ _ _ _ _ Hm Hf Hc) as (_ & Hx & _). by injection (Hx _ Hf').
Qed.

(** C15. [fork] gives the child a copy: every page of the child shows what the
    parent's page showed, unless it is in swap and could not be read back; no
    page of the parent or of any other space changes, and no private page is
    writable while two spaces share its frame.  A [fork] that fails leaves
    every page as it was. *)
Theorem fork_copies kernel_half others G σ :
  inv K none others G σ → upper_half kernel_half → fork_room G σ →
  wp (fork kernel_half) (λ res σ', ∃ G',
    match res with
    | inr child => forked K others child G σ G' σ' ∧ isolated (space σ' :: child :: others) σ'
    | inl _ => inv K none others G' σ' ∧ same_space (space σ) (space σ') ∧ same_contents others any G σ G' σ'
    end) σ.
Proof using Type*.
  intros Hi Hkh Hroom. eapply (wp_fork K kernel_half others G); [done..| |].
  - intros child G' σ' Hf. exists G'. split; [done|]. eapply inv_isolated, Hf.
  - intros er G' σ' Hi' Hsp Hc. by exists G'.
Qed.

End Calls.

(** ** Evaluated on a small machine *)

(** The parent reads a page of a private read-only file mapping, forks, makes
    the mapping writable and writes to it; then the child reads it. *)
Definition fork_mprotect_write : Exec (St Buddy.t (Z * gmap Z (list Z)) (list Z)) (KResult (list Z) * KResult (list Z)) :=
  before ← read 0x500000 1;
  child ← fork ∅;
  _ ← sys_mprotect 0x500000 0x1000 3;
  _ ← write 0x500000 [9];
  _ ← modify (λ σ, match child with inr c => with_space c σ | inl _ => σ end);
  after ← read 0x500000 1;
  mret (before, after).

(** What [mprotect] does not check does happen: after a [fork], it makes a
    private page writable that the child still shares, and a write of the parent
    shows in the child. *)
Theorem mprotect_after_fork_leaks : fst <$> fork_mprotect_write demo_st = Some (inr [1], inr [9]).
Proof. vm_compute. reflexivity. Qed.

#[local] Opaque demo_frame.

Lemma fork_copies_witness :
  wp (fork ∅) (λ res σ', ∃ G',
    match res with
    | inr child => forked ∅ [] child demo_ghost demo_st G' σ' ∧ isolated (space σ' :: [child]) σ'
    | inl _ => inv ∅ none [] G' σ' ∧ same_space (space demo_st) (space σ') ∧ same_contents [] any demo_ghost demo_st G' σ'
    end) demo_st.
Proof.
  apply (fork_copies ∅ ∅ [] demo_ghost demo_st demo_inv); [done|].
  intros f. vm_compute. reflexivity.
Defined.

Section System.
Context {A D F : Type} `{FrameAllocatorLaws A} `{BlockDeviceLaws D} `{MappedFile F}.
Context (K : gset Z) (kernel_half : gmap Z Z) (Hkernel : upper_half kernel_half).
Implicit Types (σ : St A D F) (G : Ghost) (l : list (AddressSpace F)).

(** What happens on the machine: faults, the calls of the current space, its
    exit, and a switch to another space.  The state is the machine and the list
    of the spaces that are not current. *)
Inductive Call :=
  | Fault (addr : Z) (write exec : bool)
  | Write (addr : Z) (dat : list Z)
  | Read (addr len : Z)
  | Mmap (hint len prot : Z) (fixed : bool) (file : option (F * Z)) (shared : bool)
  | Munmap (addr len : Z)
  | Mprotect (addr len p : Z)
  | Brk (addr : Z)
  | Fork
  | Exit (next : nat)
  | Switch (next : nat).

Definition alone {X} (m : Exec (St A D F) X) σ l : option (St A D F * list (AddressSpace F)) :=
  match m σ with Some (_, σ') => Some (σ', l) | None => None end.

Definition do_call (c : Call) (s : St A D F * list (AddressSpace F)) : option (St A D F * list (AddressSpace F)) :=
  let (σ, l) := s in
  match c with
  | Fault addr write exec => alone (handle_fault addr write exec) σ l
  | Write addr dat => alone (AddrSpace.write addr dat) σ l
  | Read addr len => alone (AddrSpace.read addr len) σ l
  | Mmap hint len prot fixed file shared => alone (mmap hint len prot fixed file shared) σ l
  | Munmap addr len => alone (unmap addr len) σ l
  | Mprotect addr len p => alone (protect addr len p) σ l
  | Brk addr => alone (do_brk addr) σ l
  | Fork =>
      match fork kernel_half σ with
      | Some (inr child, σ') => Some (σ', child :: l)
      | Some (inl _, σ') => Some (σ', l)
      | None => None
      end
  | Exit next => sp ← l !! next; '(_, σ') ← drop_space σ; Some (with_space sp σ', delete next l)
  | Switch next => sp ← l !! next; Some (with_space sp σ, <[next := space σ]> l)
  end.

Fixpoint do_calls (cs : list Call) (s : St A D F * list (AddressSpace F)) : option (St A D F * list (AddressSpace F)) :=
  match cs with
  | [] => Some s
  | c :: cs => s' ← do_call c s; do_calls cs s'
  end.

(** No private page of [lo, hi) that [mprotect] makes writable is referred to a
    second time. *)
Definition no_shared_write (lo hi p : Z) σ : Prop :=
  can_write p = true → ∀ a f, lo ≤ a < hi → aligned a → pfn (pte (phys σ) (pml4 (space σ)) a) = Some f →
    has (pte (phys σ) (pml4 (space σ)) a) COW = false → (∀ ko, pages σ !! ko ≠ Some f) → count (phys σ) f = 1.

(** What a call must meet: reference counts have room for the references it may
    add, ranges lie in user space, the heap can move, no shared mapping is cut,
    and [mprotect] makes no page writable that is referred to a second time.
    The code checks none of the last two. *)
Definition allowed (c : Call) (s : St A D F * list (AddressSpace F)) : Prop :=
  let (σ, l) := s in
  match c with
  | Fault _ _ _ => room 1 (phys σ) ∧ stack_room (regions (space σ))
  | Write addr dat => room (Z.of_nat (pages_between (align_down addr) (addr + Z.of_nat (length dat)))) (phys σ)
  | Read addr len => 0 ≤ len ∧ room (Z.of_nat (pages_between (align_down addr) (addr + len))) (phys σ)
  | Mmap hint len _ fixed file shared =>
      let L := round_up (Z.max len 1) in
      0 ≤ hint ∧ hint + L + PAGE_SIZE < U64 ∧ 0 ≤ mmap_top (space σ) ∧ mmap_top (space σ) + PAGE_SIZE < U64 ∧ file_ok L file shared σ ∧
      (fixed = true → in_user (align_down hint) (align_down hint + L) ∧ no_shared_cut (align_down hint + L) (regions (space σ)))
  | Munmap addr len => 0 ≤ addr ∧ 0 ≤ len ∧ addr + len ≤ USER_END ∧ no_shared_cut (round_up (addr + len)) (regions (space σ))
  | Mprotect addr len p =>
      0 ≤ addr ∧ 0 < len ∧ addr + len ≤ USER_END ∧ no_shared_cut (round_up (addr + len)) (regions (space σ)) ∧
      no_shared_write (align_down addr) (round_up (addr + len)) p σ
  | Brk addr => heap_ok (space σ) ∧ 0 ≤ addr ≤ USER_END ∧
      (brk (space σ) < round_up addr → overlaps (regions (space σ)) (brk (space σ)) (round_up addr) = false)
  | Fork => ∀ G, inv K none l G σ → fork_room G σ
  | Exit next | Switch next => is_Some (l !! next)
  end.

Fixpoint all_allowed (cs : list Call) (s : St A D F * list (AddressSpace F)) : Prop :=
  match cs with
  | [] => True
  | c :: cs => allowed c s ∧ ∀ s', do_call c s = Some s' → all_allowed cs s'
  end.

Definition machine_ok (s : St A D F * list (AddressSpace F)) : Prop :=
  NoDup (pml4 <$> space s.1 :: s.2) ∧ ∃ G, inv K none s.2 G s.1.

(** The call ends, in a machine that meets the invariant. *)
Definition call_ok (o : option (St A D F * list (AddressSpace F))) : Prop := ∃ s', o = Some s' ∧ machine_ok s'.

Lemma alone_ok {X} (m : Exec (St A D F) X) σ l : wp m (λ _ σ', machine_ok (σ', l)) σ → call_ok (alone m σ l).
Proof using Type. intros Hw. unfold alone. destruct (wp_run _ _ _ Hw) as (x & σ' & -> & Hok). eexists. by split. Qed.

Lemma ok_same_root σ σ' l G' : NoDup (pml4 <$> space σ :: l) → pml4 (space σ') = pml4 (space σ) → inv K none l G' σ' → machine_ok (σ', l).
Proof using Type. intros Hnd E Hi. split; [simpl in *; by rewrite E|by exists G']. Qed.

Lemma distinct_roots σ l : NoDup (pml4 <$> space σ :: l) → Forall (λ sp, pml4 sp ≠ pml4 (space σ)) l.
Proof using Type.
  rewrite fmap_cons. intros [Hn _]%NoDup_cons. apply Forall_forall. intros sp Hsp E. apply Hn. rewrite <- E. by apply list_elem_of_fmap_2.
Qed.

(** Another space becomes current. *)
Lemma ok_switch G σ l sp :
  machine K none G σ → Forall (space_ok G σ) (sp :: l) → NoDup (pml4 <$> sp :: l) → machine_ok (with_space sp σ, l).
Proof using Type.
  intros Hm [Hsp Ho]%Forall_cons Hnd. split; [done|]. exists G. split; [by destruct Hm|by destruct Hsp| |by apply distinct_roots].
  eapply Forall_impl; [exact Ho|]. intros s [? ? ? ?]. by split.
Qed.

Lemma fork_ok σ l G :
  NoDup (pml4 <$> space σ :: l) → inv K none l G σ → fork_room G σ → call_ok (do_call Fork (σ, l)).
Proof using Type*.
  intros Hnd Hi Hroom. cbn [do_call].
  assert (wp (fork kernel_half) (λ res σ', machine_ok (σ', match res with inr c => c :: l | inl _ => l end)) σ) as Hw.
  { eapply (wp_fork K kernel_half l G); [done..| |].
    - intros c G' σ1 Hf. split; [|exists G'; apply Hf].
      pose proof (iv_roots _ _ _ _ _ (fd_inv _ _ _ _ _ _ _ Hf)) as [Hne _]%Forall_cons. pose proof (fd_fresh _ _ _ _ _ _ _ Hf) as Hfr.
      simpl in *. apply NoDup_cons in Hnd as [Hn Hnd]. rewrite (ss_pml4 _ _ (fd_parent _ _ _ _ _ _ _ Hf)) in *. rewrite Forall_forall in Hfr.
      apply NoDup_cons. split; [by intros [|]%elem_of_cons|]. apply NoDup_cons. split; [|done]. intros (sp & Esp & Hin)%list_elem_of_fmap. by apply (Hfr sp Hin).
    - intros er G' σ1 Hi' Hsp _. eapply ok_same_root; [done|apply Hsp|done]. }
  destruct (wp_run _ _ _ Hw) as ([e|c] & σ' & -> & Hok); eexists; by split.
Qed.

Lemma exit_ok σ l i sp G :
  NoDup (pml4 <$> space σ :: l) → inv K none l G σ → l !! i = Some sp → call_ok (do_call (Exit i) (σ, l)).
Proof using Type*.
  intros Hnd Hi Hl. cbn [do_call]. rewrite Hl. cbn [mbind option_bind]. pose proof (delete_Permutation l i sp Hl) as Hp.
  assert (wp drop_space (λ _ σ', machine_ok (with_space sp σ', delete i l)) σ) as Hw.
  { eapply (wp_drop_space K l G); [done|]. intros G' σ1 Hd. eapply ok_switch; [apply Hd|rewrite <- Hp; apply Hd|].
    rewrite fmap_cons in Hnd. apply NoDup_cons in Hnd as [_ Hnd]. by rewrite <- Hp. }
  destruct (wp_run _ _ _ Hw) as (x & σ' & -> & Hok). eexists. by split.
Qed.

Lemma switch_ok σ l i sp G :
  NoDup (pml4 <$> space σ :: l) → inv K none l G σ → l !! i = Some sp → call_ok (do_call (Switch i) (σ, l)).
Proof using Type.
  intros Hnd Hi Hl. cbn [do_call]. rewrite Hl. cbn [mbind option_bind]. eexists. split; [done|].
  assert (space σ :: l ≡ₚ sp :: <[i := space σ]> l) as Hp.
  { rewrite insert_take_drop by (by eapply lookup_lt_Some). rewrite <- (take_drop_middle l i sp Hl) at 1. rewrite <- !Permutation_middle. apply perm_swap. }
  eapply ok_switch; [apply Hi|rewrite <- Hp; apply Forall_cons; split; apply Hi|by rewrite <- Hp].
Qed.

Lemma write_alone l G σ lo hi p : inv K none l G σ → no_shared_write lo hi p σ → writable_alone lo hi p G σ.
Proof using Type.
  intros Hi Hw Hcw a f Ha Hf Hcow. pose proof (iv_machine _ _ _ _ _ Hi) as Hm. set (e := get_pte (gmaps G) (pml4 (space σ), a)) in *.
  assert (e ≠ 0) as Hz by (intros E; by rewrite E in Hf). pose proof (ph_abs _ _ _ _ _ _ _ (mc_phys _ _ _ _ Hm)) as Habs.
  destruct (pa_dom _ _ _ Habs _ _ _ (proj2 (maps_get _ _ _ _ _ _ Hm) (conj eq_refl Hz))) as (_ & Hr & Hu & Hal).
  apply (Hw Hcw a f Ha Hal); by rewrite (pa_pte _ _ _ Habs) by done.
Qed.

Lemma do_call_ok c s : machine_ok s → allowed c s → call_ok (do_call c s).
Proof using Type*.
  destruct s as [σ l]. intros [Hnd [G Hi]] Ha. simpl in Hnd, Hi.
  destruct c as [addr w x|addr dat|addr len|hint len prot fixed file shared|addr len|addr len p|addr| |i|i]; cbn [allowed] in Ha.
  - destruct Ha as [Hr Hst]. apply alone_ok. eapply (wp_handle_fault K l G); [done..|]. intros ok' G' σ1 Hi' _ Ep _ _. by eapply ok_same_root.
  - apply alone_ok. eapply (wp_write_loop K l _ G σ addr dat _ _ (cell (space σ))); [done|by apply (shows_all K none)|lia|exact Ha|done|done|].
    intros res' G' σ1 n Hi' Hsp _ _ _. eapply ok_same_root; [done|apply Hsp|done].
  - destruct Ha as [Hl Hr]. apply alone_ok. eapply (wp_read_loop K l _ G σ addr len); [done|lia|exact Hr|done|]. intros res' G' σ1 Hi' Hsp _ _. eapply ok_same_root; [done|apply Hsp|done].
  - destruct Ha as (Hh & Hmax & Ht & Htop & Hf & Hfix). apply alone_ok. eapply (wp_mmap K l G); [done..|intros Hx; by apply Hfix| |].
    + intros s G' σ1 Hp Hs. eapply ok_same_root; [done|apply Hp|]. eapply pl_inv; [exact Hp|]. destruct (new_bounds s (round_up (Z.max len 1)) prot file shared σ) as [_ ->].
      destruct fixed; [subst s; by apply Hfix|]. destruct Hs. by eapply free_uncut.
    + intros er _ _. by split; [|exists G].
  - destruct Ha as (Ha & Hl & Hend & Hcut). apply alone_ok. eapply (wp_unmap K l G); [done..|]. intros G' σ1 Hu.
    eapply ok_same_root; [done|apply (ev_root _ _ _ _ _ (cm_evolves _ _ _ _ _ (un_calm _ _ _ _ _ _ _ _ Hu)))|by apply (un_inv _ _ _ _ _ _ _ _ Hu)].
  - destruct Ha as (Ha & Hl & Hend & Hcut & Hw). apply alone_ok. eapply (wp_protect K l G); [done..| |].
    + intros G' σ1 Hu. eapply ok_same_root; [done|apply (ev_root _ _ _ _ _ (cm_evolves _ _ _ _ _ (rp_calm _ _ _ _ _ _ _ _ _ Hu)))|].
      apply (rp_inv _ _ _ _ _ _ _ _ _ Hu); [done|by eapply write_alone].
    + intros _. by split; [|exists G].
  - destruct Ha as (Hh & Ha & Ho). apply alone_ok. eapply (wp_do_brk K l G); [done..| |].
    + intros _. by split; [|exists G].
    + intros G' σ1 _ Hi' Hm. eapply ok_same_root; [done|apply Hm|done].
  - apply (fork_ok σ l G); auto.
  - destruct Ha as [sp Hl]. by apply (exit_ok σ l i sp G).
  - destruct Ha as [sp Hl]. by apply (switch_ok σ l i sp G).
Qed.

(** C12. Isolation of processes: starting from a machine that meets the
    invariant, every sequence of faults, copies, [mmap], [munmap], [mprotect],
    [brk], [fork], exits and switches between the spaces whose calls are all
    [allowed] runs without a panic and ends in a machine that meets the invariant,
    and there no private page is writable while a second page-table entry, of
    this or of another space, refers to its frame.  [allowed] asks that no
    16-bit reference count runs out, that ranges lie in user space, that the heap
    can move, that no [munmap], [mprotect] or fixed [mmap] ends inside a shared
    mapping, and that [mprotect] makes no private page writable whose frame has a
    second reference.  The code checks neither of the last two, and
    [mprotect_after_fork_leaks] shows that isolation fails without the last. *)
Theorem reachable_isolated cs s :
  machine_ok s → all_allowed cs s →
  ∃ s', do_calls cs s = Some s' ∧ machine_ok s' ∧ isolated (space s'.1 :: s'.2) s'.1.
Proof using Type*.
  revert s. induction cs as [|c cs IH]; intros s Hok Hall.
  - exists s. split_and!; [done|done|]. destruct Hok as [_ [G Hi]]. by eapply inv_isolated.
  - destruct Hall as [Hc Hall]. destruct (do_call_ok c s Hok Hc) as (s1 & E & Hok1). cbn [do_calls]. rewrite E. cbn [mbind option_bind]. by apply IH, Hall.
Qed.
End System.

#[local] Opaque demo_frame.

Lemma demo_ok : machine_ok ∅ (demo_st, []).
Proof. split; [apply NoDup_singleton|]. exists demo_ghost. apply demo_inv. Qed.

(** A fault, then the page that came in is unmapped. *)
Definition demo_run : list (Call (F := list Z)) := [Fault 0x400010 true false; Munmap 0x400000 0x1000].

Lemma demo_fault_regions : (λ s, regions (space s.1)) <$> do_call ∅ (Fault 0x400010 true false) (demo_st, []) = Some demo_regions.
Proof. vm_compute. reflexivity. Qed.

Lemma reachable_isolated_witness :
  ∃ s', do_calls ∅ demo_run (demo_st, []) = Some s' ∧ machine_ok ∅ s' ∧ isolated (space s'.1 :: s'.2) s'.1.
Proof.
  refine (reachable_isolated ∅ ∅ _ demo_run (demo_st, []) demo_ok _); [done|].
  split; [split; [by apply demo_room|apply demo_stack_room]|]. intros [σ' l'] E. split; [|done].
  pose proof demo_fault_regions as Er. rewrite E in Er. injection Er as Er. cbn [fst] in Er. cbn [allowed]. rewrite Er.
  split_and!; [done..|]. apply demo_no_cut. by left.
Defined.
