(* ===== verification/Signal.v ===== *)
(** * Signals

    Models [kernel/src/proc/signal.rs] (default actions, signal frames on the
    user stack), the signal state of a task in [kernel/src/sched/mod.rs], the
    posting and delivery of signals in [kernel/src/proc/mod.rs], and the
    signal system calls of [kernel/src/syscall/proc_sys.rs].  User memory is
    the interface of [UAccess]; the FPU state is the 512 bytes [fxsave] gives. *)

From S2P Require Import Prelude Errno UAccess.

(** ** Numbers and default actions *)

Definition SIGKILL : Z := 9.
Definition SIGSEGV : Z := 11.
Definition SIGCHLD : Z := 17.
Definition SIGCONT : Z := 18.
Definition SIGSTOP : Z := 19.
Definition SIGTSTP : Z := 20.
Definition SIGTTIN : Z := 21.
Definition SIGTTOU : Z := 22.
Definition SIGURG : Z := 23.
Definition SIGWINCH : Z := 28.

Definition one_of (sig : Z) (l : list Z) : bool := existsb (Z.eqb sig) l.

Definition stops_by_default (sig : Z) : bool := one_of sig [SIGSTOP; SIGTSTP; SIGTTIN; SIGTTOU].
Definition ignored_by_default (sig : Z) : bool := one_of sig [SIGCHLD; SIGWINCH; SIGURG; SIGCONT].
Definition terminates_by_default (sig : Z) : bool :=
  negb (sig =? 0) && negb (ignored_by_default sig) && negb (stops_by_default sig).

Definition SIG_DFL : Z := 0.
Definition SIG_IGN : Z := 1.
Definition SA_SIGINFO : Z := 0x00000004.
Definition SA_ONSTACK : Z := 0x08000000.
Definition SA_NODEFER : Z := 0x40000000.
Definition SA_RESETHAND : Z := 0x80000000.

Record SigAction := mkAct { handler : Z; flags : Z; restorer : Z; mask : Z }.
Definition DFL : SigAction := mkAct SIG_DFL 0 0 0.
Definition default_table : list SigAction := replicate 65 DFL.

(** ** The signal state of a task *)

Record Task := mkTask { signals : Z; blocked : Z; stopped : bool; sas_sp : Z; sas_size : Z }.

Definition set_signals (v : Z) (t : Task) : Task := mkTask v (blocked t) (stopped t) (sas_sp t) (sas_size t).
Definition set_stopped (b : bool) (t : Task) : Task := mkTask (signals t) (blocked t) b (sas_sp t) (sas_size t).
Definition set_altstack (sp size : Z) (t : Task) : Task := mkTask (signals t) (blocked t) (stopped t) sp size.

(** The bit of signal [sig] in a mask. *)
Definition bit (sig : Z) : Z := Z.shiftl 1 (sig - 1).
Definition KILL_BIT : Z := bit SIGKILL.
Definition STOP_MASK : Z := Z.lor (Z.lor (Z.lor (bit SIGSTOP) (bit SIGTSTP)) (bit SIGTTIN)) (bit SIGTTOU).

Definition send_signal (sig : Z) (t : Task) : Task :=
  if (sig =? 0) || (64 <? sig) then t
  else
    let t := set_signals (Z.lor (signals t) (bit sig)) t in
    if (sig =? SIGCONT) || (sig =? SIGKILL) then set_stopped false t else t.

Definition stop_pending (t : Task) : bool := negb (Z.land (signals t) STOP_MASK =? 0).
Definition clear_stop_signals (t : Task) : Task := set_signals (Z.ldiff (signals t) STOP_MASK) t.
Definition signal_pending (t : Task) : bool := negb (signals t =? 0).
Definition deliverable_signal_pending (t : Task) : bool :=
  negb (Z.ldiff (signals t) (Z.ldiff (blocked t) KILL_BIT) =? 0).
Definition set_blocked (m : Z) (t : Task) : Task :=
  mkTask (signals t) (Z.ldiff m (Z.lor (bit SIGKILL) (bit SIGSTOP))) (stopped t) (sas_sp t) (sas_size t).
Definition clear_signals (t : Task) : Task := set_signals (Z.land (signals t) KILL_BIT) t.
Definition clear_signal (sig : Z) (t : Task) : Task :=
  if (1 <=? sig) && (sig <=? 64) && negb (sig =? SIGKILL) then set_signals (Z.ldiff (signals t) (bit sig)) t else t.
Definition kill_pending (t : Task) : bool := negb (Z.land (signals t) KILL_BIT =? 0).

(** [u64::trailing_zeros]. *)
Fixpoint lowest_set (n : nat) (i v : Z) : Z :=
  match n with
  | O => i
  | S n' => if Z.testbit v i then i else lowest_set n' (i + 1) v
  end.
Definition trailing_zeros (v : Z) : Z := lowest_set 64 0 v.

Definition take_signal (t : Task) : option Z * Task :=
  if signals t =? 0 then (None, t)
  else let b := trailing_zeros (signals t) in (Some (b + 1), set_signals (Z.ldiff (signals t) (Z.shiftl 1 b)) t).

(** ** Posting to a process *)

Record SigProc := mkProc { sigactions : list SigAction; ignored : Z }.

Definition act_of (p : SigProc) (sig : Z) : SigAction := nth (Z.to_nat sig) (sigactions p) DFL.

Definition sig_ignored (p : SigProc) (sig : Z) : bool :=
  if one_of sig [SIGKILL; SIGSTOP; SIGCONT] then false
  else
    let act := act_of p sig in
    let disp_ignored := (handler act =? SIG_IGN) || ((handler act =? SIG_DFL) && ignored_by_default sig) in
    disp_ignored || negb (Z.land (ignored p) (bit sig) =? 0).

Definition deliver_to_task (sig : Z) (ign : bool) (t : Task) : Task :=
  let blk := negb (Z.land (blocked t) (bit sig) =? 0) in
  if ign && negb blk then t else send_signal sig t.

(** [Process::signal]: to every task of the process. *)
Definition signal (p : SigProc) (sig : Z) (tasks : list Task) : list Task :=
  if negb ((1 <=? sig) && (sig <=? 64)) then tasks else deliver_to_task sig (sig_ignored p sig) <$> tasks.

Definition signal_task (p : SigProc) (sig : Z) (t : Task) : Task :=
  if negb ((1 <=? sig) && (sig <=? 64)) then t else deliver_to_task sig (sig_ignored p sig) t.

(** ** Register state *)

Record Regs := mkRegs {
  r8 : Z; r9 : Z; r10 : Z; r11 : Z; r12 : Z; r13 : Z; r14 : Z; r15 : Z;
  rdi : Z; rsi : Z; rbp : Z; rbx : Z; rdx : Z; rax : Z; rcx : Z; rsp : Z; rip : Z; rflags : Z }.

Definition UC_SIZE : Z := 512.
Definition UC_MCTX : Z := 40.
Definition UC_FPSTATE : Z := 40 + 184.
Definition UC_SIGMASK : Z := 40 + 256.
Definition SIGINFO_SIZE : Z := 128.
Definition FXSAVE_SIZE : Z := 512.

(** [buf[off..off + n].copy_from_slice(bs)]. *)
Definition splice_at (off : Z) (bs buf : list Z) : list Z :=
  take (Z.to_nat off) buf ++ bs ++ drop (Z.to_nat off + length bs) buf.

Definition put (off v : Z) (buf : list Z) : list Z := splice_at (UC_MCTX + off) (le_bytes 8 v) buf.

Definition write_mcontext (r : Regs) (buf : list Z) : list Z :=
  let buf := put 0 (r8 r) buf in
  let buf := put 8 (r9 r) buf in
  let buf := put 16 (r10 r) buf in
  let buf := put 24 (r11 r) buf in
  let buf := put 32 (r12 r) buf in
  let buf := put 40 (r13 r) buf in
  let buf := put 48 (r14 r) buf in
  let buf := put 56 (r15 r) buf in
  let buf := put 64 (rdi r) buf in
  let buf := put 72 (rsi r) buf in
  let buf := put 80 (rbp r) buf in
  let buf := put 88 (rbx r) buf in
  let buf := put 96 (rdx r) buf in
  let buf := put 104 (rax r) buf in
  let buf := put 112 (rcx r) buf in
  let buf := put 120 (rsp r) buf in
  let buf := put 128 (rip r) buf in
  put 136 (rflags r) buf.

Definition get_word (b : list Z) (off : Z) : Z := le_val (take 8 (drop (Z.to_nat (UC_MCTX + off)) b)).

Definition mcontext (b : list Z) : Regs :=
  mkRegs (get_word b 0) (get_word b 8) (get_word b 16) (get_word b 24) (get_word b 32) (get_word b 40)
    (get_word b 48) (get_word b 56) (get_word b 64) (get_word b 72) (get_word b 80) (get_word b 88)
    (get_word b 96) (get_word b 104) (get_word b 112) (get_word b 120) (get_word b 128) (get_word b 136).

(** What is left of the program after delivery: it resumes with these
    registers, it is gone, or it is stopped and delivery goes on when it is
    continued. *)
Inductive Outcome :=
  | Resume (r : Regs)
  | Exit (sig : Z)
  | Stop (r : Regs).

Section Machine.
Context {M : Type} `{Memory M}.

(** The current task, the other tasks of its process, and what they share. *)
Record World := mkWorld { w_mem : M; w_fpu : list Z; w_task : Task; w_others : list Task; w_proc : SigProc }.

Definition on_mem {A} (m : Exec M A) : Exec World A := λ w,
  match m (w_mem w) with
  | Some (a, m') => Some (a, mkWorld m' (w_fpu w) (w_task w) (w_others w) (w_proc w))
  | None => None
  end.
Definition upd_task (f : Task → Task) (w : World) : World := mkWorld (w_mem w) (w_fpu w) (f (w_task w)) (w_others w) (w_proc w).
Definition set_fpu (l : list Z) (w : World) : World := mkWorld (w_mem w) l (w_task w) (w_others w) (w_proc w).
Definition set_action (sig : Z) (a : SigAction) (w : World) : World :=
  mkWorld (w_mem w) (w_fpu w) (w_task w) (w_others w) (mkProc (<[Z.to_nat sig := a]> (sigactions (w_proc w))) (ignored (w_proc w))).
Definition set_ignored (v : Z) (w : World) : World :=
  mkWorld (w_mem w) (w_fpu w) (w_task w) (w_others w) (mkProc (sigactions (w_proc w)) v).

(** Another process, or this one, sends [sig]. *)
Definition post (sig : Z) (w : World) : World :=
  mkWorld (w_mem w) (w_fpu w) (signal_task (w_proc w) sig (w_task w)) (signal (w_proc w) sig (w_others w)) (w_proc w).

(** ** Signal frames *)

(** Where the frame goes: the top of the alternate stack, or the interrupted
    stack pointer. *)
Definition frame_base (t : Task) (regs : Regs) (act : SigAction) : option Z :=
  on_altstack ← (if negb (sas_size t =? 0) && (sas_sp t <=? rsp regs)
                 then e ← add64 (sas_sp t) (sas_size t); Some (rsp regs <? e)
                 else Some false);
  if negb (Z.land (flags act) SA_ONSTACK =? 0) && negb (sas_size t =? 0) && negb on_altstack
  then add64 (sas_sp t) (sas_size t)
  else Some (rsp regs).

Definition siginfo_bytes (sig : Z) : list Z := splice_at 0 (le_bytes 4 sig) (replicate (Z.to_nat SIGINFO_SIZE) 0).

Definition ucontext_bytes (regs : Regs) (fpstate old_mask : Z) : list Z :=
  let ucb := write_mcontext regs (replicate (Z.to_nat UC_SIZE) 0) in
  let ucb := splice_at UC_FPSTATE (le_bytes 8 fpstate) ucb in
  splice_at UC_SIGMASK (le_bytes 8 old_mask) ucb.

Definition handler_regs (regs : Regs) (sig : Z) (act : SigAction) (info uc frame : Z) : Regs :=
  let siginfo := negb (Z.land (flags act) SA_SIGINFO =? 0) in
  mkRegs (r8 regs) (r9 regs) (r10 regs) (r11 regs) (r12 regs) (r13 regs) (r14 regs) (r15 regs)
    sig (if siginfo then info else 0) (rbp regs) (rbx regs) (if siginfo then uc else 0) 0 (rcx regs)
    frame (handler act) (Z.ldiff (rflags regs) 0x400).

Definition setup_frame (regs : Regs) (sig : Z) (act : SigAction) (old_mask : Z) : Exec World (KResult Regs) :=
  t ← gets w_task;
  base ← need (frame_base t regs act);
  if base <? 128 then mret (inl EFAULT)
  else
    let sp := Z.ldiff (base - 128) 15 in
    info ← need (sub64 sp SIGINFO_SIZE);
    fpstate ← need (sub64 info FXSAVE_SIZE);
    uc ← need (sub64 fpstate UC_SIZE);
    frame ← need (sub64 uc 8);
    _ ←? on_mem (copy_to info (siginfo_bytes sig));
    fx ← gets w_fpu;
    _ ←? on_mem (copy_to fpstate fx);
    _ ←? on_mem (copy_to uc (ucontext_bytes regs fpstate old_mask));
    _ ←? on_mem (copy_to frame (le_bytes 8 (restorer act)));
    mret (inr (handler_regs regs sig act info uc frame)).

Definition read_mcontext (uc : Z) : Exec World (KResult Regs) :=
  b ←? on_mem (copy_from uc UC_SIZE); mret (inr (mcontext b)).

Definition read_sigmask (uc : Z) : Exec World (KResult Z) :=
  a ← need (add64 uc UC_SIGMASK); b ←? on_mem (copy_from a 8); mret (inr (le_val b)).

(** The registers and the mask to restore; the frame is at the stack pointer. *)
Definition restore_frame (regs : Regs) : Exec World (KResult (Regs * Z)) :=
  let uc := rsp regs in
  saved ←? read_mcontext uc;
  mask ←? read_sigmask uc;
  a ← need (add64 uc UC_FPSTATE);
  fpptr ←? on_mem (copy_from a 8);
  let fpstate := le_val fpptr in
  _ ←? (if negb (fpstate =? 0)
        then fx ←? on_mem (copy_from fpstate FXSAVE_SIZE); _ ← modify (set_fpu fx); mret (inr tt)
        else mret (inr tt));
  mret (inr (saved, mask)).

(** ** Delivery *)

(** [stop_current]: [true] when SIGKILL is pending and the task goes on. *)
Definition stop_current : Exec World bool :=
  _ ← modify (upd_task (set_stopped true));
  t ← gets w_task;
  if kill_pending t then _ ← modify (upd_task (set_stopped false)); mret true else mret false.

Definition enter_handler (regs : Regs) (sig : Z) (act : SigAction) (blk : Z) : Exec World Outcome :=
  r ← setup_frame regs sig act blk;
  match r with
  | inl _ => mret (Exit SIGSEGV)
  | inr new =>
      let newmask := Z.lor blk (mask act) in
      let newmask := if Z.land (flags act) SA_NODEFER =? 0 then Z.lor newmask (bit sig) else newmask in
      _ ← modify (upd_task (set_blocked newmask));
      _ ← (if negb (Z.land (flags act) SA_RESETHAND =? 0) then modify (set_action sig DFL) else mret tt);
      mret (Resume new)
  end.

Fixpoint deliver (fuel : nat) (regs : Regs) : Exec World Outcome :=
  match fuel with
  | O => panic
  | S fuel' =>
      t ← gets w_task;
      let deliverable := Z.ldiff (signals t) (blocked t) in
      if deliverable =? 0 then mret (Resume regs)
      else
        let sig := trailing_zeros deliverable + 1 in
        if sig =? SIGKILL then mret (Exit sig)
        else
          _ ← modify (upd_task (clear_signal sig));
          p ← gets w_proc;
          act ← need (sigactions p !! Z.to_nat sig);
          if handler act =? SIG_IGN then deliver fuel' regs
          else if handler act =? SIG_DFL then
            if stops_by_default sig then
              go ← stop_current;
              if go : bool then deliver fuel' regs else mret (Stop regs)
            else if ignored_by_default sig then deliver fuel' regs
            else if terminates_by_default sig then mret (Exit sig)
            else deliver fuel' regs
          else if restorer act =? 0 then
            if terminates_by_default sig then mret (Exit sig) else deliver fuel' regs
          else enter_handler regs sig act (blocked t)
  end.

Definition deliver_user_signals (regs : Regs) : Exec World Outcome :=
  w ← get;
  if negb (has_aspace (w_mem w)) then mret (Resume regs) else deliver 65 regs.

(** ** System calls *)

Definition read_action (act : Z) : Exec World (KResult SigAction) :=
  h ←? on_mem (read_obj 8 act);
  a ← need (add64 act 8); f ←? on_mem (read_obj 8 a);
  a ← need (add64 act 16); r ←? on_mem (read_obj 8 a);
  a ← need (add64 act 24); m ←? on_mem (read_obj 8 a);
  mret (inr (mkAct h f r m)).

Definition write_action (oact : Z) (prev : SigAction) : Exec World (KResult unit) :=
  _ ←? on_mem (write_obj 8 oact (handler prev));
  a ← need (add64 oact 8); _ ←? on_mem (write_obj 8 a (flags prev));
  a ← need (add64 oact 16); _ ←? on_mem (write_obj 8 a (restorer prev));
  a ← need (add64 oact 24); on_mem (write_obj 8 a (mask prev)).

Definition rt_sigaction (sig act oact : Z) : Exec World (KResult Z) :=
  if (sig <? 1) || (64 <? sig) then mret (inl EINVAL)
  else
    p ← gets w_proc;
    prev ← need (sigactions p !! Z.to_nat sig);
    _ ←? (if negb (oact =? 0) then write_action oact prev else mret (inr tt));
    if act =? 0 then mret (inr 0)
    else if (sig =? SIGKILL) || (sig =? SIGSTOP) then mret (inl EINVAL)
    else
      na ←? read_action act;
      _ ← modify (set_action sig na);
      p ← gets w_proc;
      let ignore := (handler na =? SIG_IGN) || ((handler na =? SIG_DFL) && ignored_by_default sig) in
      _ ← modify (set_ignored (if ignore then Z.lor (ignored p) (bit sig) else Z.ldiff (ignored p) (bit sig)));
      mret (inr 0).

Definition rt_sigprocmask (how set oldset : Z) : Exec World (KResult Z) :=
  t ← gets w_task;
  let old := blocked t in
  _ ←? (if negb (oldset =? 0) then on_mem (write_obj 8 oldset old) else mret (inr tt));
  if set =? 0 then mret (inr 0)
  else
    m ←? on_mem (read_obj 8 set);
    if how =? 0 then _ ← modify (upd_task (set_blocked (Z.lor old m))); mret (inr 0)
    else if how =? 1 then _ ← modify (upd_task (set_blocked (Z.ldiff old m))); mret (inr 0)
    else if how =? 2 then _ ← modify (upd_task (set_blocked m)); mret (inr 0)
    else mret (inl EINVAL).

Definition SS_DISABLE : Z := 2.
Definition SS_ONSTACK : Z := 1.
Definition MINSIGSTKSZ : Z := 2048.

Definition write_stack (old sp size : Z) : Exec World (KResult unit) :=
  _ ←? on_mem (write_obj 8 old sp);
  a ← need (add64 old 8); _ ←? on_mem (write_obj 4 a (if size =? 0 then SS_DISABLE else 0));
  a ← need (add64 old 16); on_mem (write_obj 8 a size).

Definition sigaltstack (new old : Z) : Exec World (KResult Z) :=
  t ← gets w_task;
  _ ←? (if negb (old =? 0) then write_stack old (sas_sp t) (sas_size t) else mret (inr tt));
  if new =? 0 then mret (inr 0)
  else
    sp ←? on_mem (read_obj 8 new);
    a ← need (add64 new 8); fl ←? on_mem (read_obj 4 a);
    a ← need (add64 new 16); size ←? on_mem (read_obj 8 a);
    if negb (Z.land fl SS_DISABLE =? 0) then _ ← modify (upd_task (set_altstack 0 0)); mret (inr 0)
    else if negb (Z.ldiff fl SS_ONSTACK =? 0) then mret (inl EINVAL)
    else if size <? MINSIGSTKSZ then mret (inl ENOMEM)
    else _ ← modify (upd_task (set_altstack sp size)); mret (inr 0).

(** [rt_sigreturn]: the program resumes with the registers of the frame. *)
Definition rt_sigreturn (regs : Regs) : Exec World Outcome :=
  r ← restore_frame regs;
  match r with
  | inl _ => mret (Exit SIGSEGV)
  | inr (saved, m) =>
      _ ← modify (upd_task (set_blocked m));
      deliver_user_signals saved
  end.
End Machine.
Arguments World : clear implicits.
