(* ===== verification/SignalProofs.v ===== *)
(** * Signals: theorems

    SIGKILL and SIGSTOP can be neither blocked nor caught, whatever calls a
    process makes; pending signals are taken lowest first, each according to
    its disposition; a handler's frame gives back exactly the interrupted
    context. *)

From S2P Require Import Prelude Errno UAccess Signal.

(** ** Bits *)

Lemma bit_spec sig i : 1 ≤ sig → 0 ≤ i → Z.testbit (bit sig) i = bool_decide (i = sig - 1).
Proof.
  intros Hs Hi. unfold bit. rewrite Z.shiftl_1_l. case_bool_decide as E; [subst; by apply Z.pow2_bits_true; lia|].
  apply Z.pow2_bits_false. lia.
Qed.

Lemma lowest_set_spec n : ∀ i v, (∃ j, i ≤ j < i + Z.of_nat n ∧ Z.testbit v j = true) →
  i ≤ lowest_set n i v < i + Z.of_nat n ∧ Z.testbit v (lowest_set n i v) = true ∧ ∀ j, i ≤ j < lowest_set n i v → Z.testbit v j = false.
Proof.
  induction n as [|n IH]; intros i v (j & Hj & Hb); [lia|]. simpl. destruct (Z.testbit v i) eqn:E.
  - split_and!; [lia|lia|done|lia].
  - destruct (IH (i + 1) v) as (H1 & H2 & H3); [exists j; destruct (decide (j = i)) as [->|]; [congruence|split; [lia|done]]|].
    split_and!; [lia|lia|done|]. intros k Hk. destruct (decide (k = i)) as [->|]; [done|]. apply H3. lia.
Qed.

Lemma nonzero_bit v : 0 ≤ v < U64 → v ≠ 0 → ∃ j, 0 ≤ j < 64 ∧ Z.testbit v j = true.
Proof.
  intros Hv Hz. exists (Z.log2 v). split; [|apply Z.bit_log2; lia]. split; [apply Z.log2_nonneg|]. apply Z.log2_lt_pow2; unfold U64 in *; lia.
Qed.

Lemma trailing_zeros_spec v : 0 ≤ v < U64 → v ≠ 0 →
  0 ≤ trailing_zeros v < 64 ∧ Z.testbit v (trailing_zeros v) = true ∧ ∀ j, 0 ≤ j < trailing_zeros v → Z.testbit v j = false.
Proof. intros Hv Hz. apply (lowest_set_spec 64 0 v). destruct (nonzero_bit v Hv Hz) as (j & ? & ?). by exists j. Qed.

Lemma ldiff_range a b : 0 ≤ a < U64 → 0 ≤ Z.ldiff a b < U64.
Proof.
  intros Ha. assert (0 ≤ Z.ldiff a b) as H0 by (apply Z.ldiff_nonneg; left; lia). split; [done|].
  destruct (decide (Z.ldiff a b = 0)) as [->|Hz]; [done|]. apply Z.log2_lt_pow2; [lia|].
  destruct (Z.lt_ge_cases (Z.log2 (Z.ldiff a b)) 64) as [|Hge]; [done|]. exfalso.
  pose proof (Z.bit_log2 (Z.ldiff a b) ltac:(lia)) as Hb. rewrite Z.ldiff_spec in Hb. apply andb_true_iff in Hb as [Hb _].
  rewrite Z.bits_above_log2 in Hb; [done|lia|]. destruct (decide (a = 0)) as [->|]; [change (Z.log2 0) with 0; lia|].
  assert (Z.log2 a < 64) by (apply Z.log2_lt_pow2; unfold U64 in Ha; lia). lia.
Qed.

Lemma lor_bit_range a sig : 0 ≤ a < U64 → 1 ≤ sig ≤ 64 → 0 ≤ Z.lor a (bit sig) < U64.
Proof.
  intros Ha Hs. unfold bit. rewrite Z.shiftl_1_l. assert (0 < 2 ^ (sig - 1)) by (apply Z.pow_pos_nonneg; lia). split; [apply Z.lor_nonneg; lia|].
  destruct (decide (a = 0)) as [->|]; [rewrite Z.lor_0_l; unfold U64; apply Z.pow_lt_mono_r; lia|].
  apply Z.log2_lt_pow2; [assert (0 ≤ Z.lor a (2 ^ (sig - 1))) by (apply Z.lor_nonneg; lia); assert (Z.lor a (2 ^ (sig - 1)) ≠ 0); [|lia]; intros [E _]%Z.lor_eq_0_iff; lia|].
  rewrite Z.log2_lor, Z.log2_pow2 by lia. assert (Z.log2 a < 64) by (apply Z.log2_lt_pow2; unfold U64 in Ha; lia). lia.
Qed.

(** ** The invariant *)

(** Signal [sig] is pending for, or blocked by, a task. *)
Definition pends (t : Task) (sig : Z) : Prop := Z.testbit (signals t) (sig - 1) = true.
Definition blocks (t : Task) (sig : Z) : Prop := Z.testbit (blocked t) (sig - 1) = true.

Record task_ok (t : Task) : Prop := {
  tk_range : 0 ≤ signals t < U64;
  tk_kill : ¬ blocks t SIGKILL;
  tk_stop : ¬ blocks t SIGSTOP;
}.

Record proc_ok (p : SigProc) : Prop := {
  pc_length : length (sigactions p) = 65%nat;
  pc_kill : act_of p SIGKILL = DFL;
  pc_stop : act_of p SIGSTOP = DFL;
}.

Lemma ok_blocked t m : task_ok t → task_ok (set_blocked m t).
Proof.
  intros [Hr _ _]. split; [done| |]; unfold blocks, set_blocked; cbn [blocked]; rewrite Z.ldiff_spec.
  - change (Z.testbit (Z.lor (bit SIGKILL) (bit SIGSTOP)) (SIGKILL - 1)) with true. by rewrite andb_false_r.
  - change (Z.testbit (Z.lor (bit SIGKILL) (bit SIGSTOP)) (SIGSTOP - 1)) with true. by rewrite andb_false_r.
Qed.

Lemma ok_signals t v : task_ok t → 0 ≤ v < U64 → task_ok (set_signals v t).
Proof. by intros [? ? ?] ?. Qed.

Lemma ok_stopped t b : task_ok t → task_ok (set_stopped b t).
Proof. by intros [? ? ?]. Qed.

Lemma ok_altstack t a b : task_ok t → task_ok (set_altstack a b t).
Proof. by intros [? ? ?]. Qed.

Lemma ok_clear t sig : task_ok t → task_ok (clear_signal sig t).
Proof. intros Ht. unfold clear_signal. case_match; [|done]. apply ok_signals; [done|]. apply ldiff_range, Ht. Qed.

Lemma ok_send t sig : 1 ≤ sig ≤ 64 → task_ok t → task_ok (send_signal sig t).
Proof.
  intros Hs Ht. unfold send_signal. case_match; [done|]. assert (task_ok (set_signals (Z.lor (signals t) (bit sig)) t)).
  { apply ok_signals; [done|]. apply lor_bit_range; [apply Ht|done]. }
  case_match; [by apply ok_stopped|done].
Qed.

Lemma ok_signal_task p t sig : task_ok t → task_ok (signal_task p sig t).
Proof.
  intros Ht. unfold signal_task. destruct ((1 <=? sig) && (sig <=? 64)) eqn:E; [|done]. apply andb_true_iff in E as [E1%Z.leb_le E2%Z.leb_le].
  unfold deliver_to_task. simpl. case_match; [done|by apply ok_send].
Qed.

Lemma ok_signal p l sig : Forall task_ok l → Forall task_ok (signal p sig l).
Proof.
  intros Hl. unfold signal. destruct ((1 <=? sig) && (sig <=? 64)) eqn:E; [|done]. apply Forall_fmap. eapply Forall_impl; [exact Hl|].
  intros t Ht. pose proof (ok_signal_task p t sig Ht) as Hp. unfold signal_task in Hp. by rewrite E in Hp.
Qed.

Create HintDb signals.
#[export] Hint Resolve ok_blocked ok_stopped ok_altstack ok_clear ok_signal_task ok_signal : signals.

Section Machine.
Context {M : Type} `{Memory M}.
Implicit Types w : World M.

Record world_ok w : Prop := {
  wd_task : task_ok (w_task w);
  wd_others : Forall task_ok (w_others w);
  wd_proc : proc_ok (w_proc w);
}.

(** ** Executions that keep the invariant *)

Definition keeps {A} (m : Exec (World M) A) : Prop := ∀ w a w', world_ok w → m w = Some (a, w') → world_ok w'.

Lemma keeps_ret {A} (a : A) : keeps (mret a).
Proof. intros w b w' Hw [= _ <-]. done. Qed.

Lemma keeps_bind {A B} (m : Exec (World M) A) (f : A → Exec (World M) B) : keeps m → (∀ a, keeps (f a)) → keeps (m ≫= f).
Proof.
  intros Hm Hf w b w' Hw. unfold mbind, exec_bind. destruct (m w) as [[a w1]|] eqn:E; [|done]. intros E'. by eapply Hf, E'; eapply Hm.
Qed.

Lemma keeps_try {E A B} (m : Exec (World M) (E + A)) (f : A → Exec (World M) (E + B)) : keeps m → (∀ a, keeps (f a)) → keeps (try_bind m f).
Proof. intros Hm Hf. apply keeps_bind; [done|]. intros [e|a]; [apply keeps_ret|apply Hf]. Qed.

Lemma keeps_get : keeps get.
Proof. intros w b w' Hw [= _ <-]. done. Qed.

Lemma keeps_gets {A} (f : World M → A) : keeps (gets f).
Proof. intros w b w' Hw [= _ <-]. done. Qed.

Lemma keeps_need {A} (o : option A) : keeps (need o).
Proof. intros w b w' Hw E. destruct o; [|done]. by injection E as _ <-. Qed.

Lemma keeps_modify (f : World M → World M) : (∀ w, world_ok w → world_ok (f w)) → keeps (modify f).
Proof. intros Hf w b w' Hw [= _ <-]. by apply Hf. Qed.

Lemma keeps_mem {A} (m : Exec M A) : keeps (on_mem m).
Proof. intros w b w' Hw. unfold on_mem. destruct (m (w_mem w)) as [[a m']|]; [|done]. intros [= _ <-]. by destruct Hw. Qed.

Lemma keeps_panic {A} : keeps (panic : Exec (World M) A).
Proof. done. Qed.

Lemma keeps_task f : (∀ t, task_ok t → task_ok (f t)) → keeps (modify (upd_task f)).
Proof. intros Hf. apply keeps_modify. intros w [Ht ? ?]. split; [by apply Hf|done|done]. Qed.

Lemma act_of_insert p sig a n : length (sigactions p) = 65%nat → 0 ≤ sig → 0 ≤ n < 65 →
  act_of (mkProc (<[Z.to_nat sig := a]> (sigactions p)) (ignored p)) n = if decide (n = sig) then a else act_of p n.
Proof.
  intros Hl Hs Hn. unfold act_of. simpl. rewrite !nth_lookup. case_decide as E.
  - subst n. by rewrite list_lookup_insert_eq by lia.
  - by rewrite list_lookup_insert_ne by lia.
Qed.

Lemma keeps_action sig a : 0 ≤ sig → (a = DFL ∨ sig ≠ SIGKILL ∧ sig ≠ SIGSTOP) → keeps (modify (set_action sig a)).
Proof.
  intros Hs Ha. apply keeps_modify. intros w [Ht Ho [Hl Hk Hst]]. split; [done|done|]. split; simpl; [by rewrite length_insert|..];
    (rewrite act_of_insert; [|done|done|done]; case_decide; [|done]; destruct Ha as [?|[? ?]]; congruence).
Qed.

Lemma keeps_ignored v : keeps (modify (set_ignored v)).
Proof. apply keeps_modify. intros w [Ht Ho [Hl Hk Hst]]. by split; [..|split]. Qed.
End Machine.

Ltac keeps_step :=
  match goal with
  | |- keeps (mret _) => apply keeps_ret
  | |- keeps (_ ≫= _) => apply keeps_bind; [|intros ?]
  | |- keeps (try_bind _ _) => apply keeps_try; [|intros ?]
  | |- keeps get => apply keeps_get
  | |- keeps (gets _) => apply keeps_gets
  | |- keeps (need _) => apply keeps_need
  | |- keeps (on_mem _) => apply keeps_mem
  | |- keeps panic => apply keeps_panic
  | |- keeps (modify (upd_task _)) => apply keeps_task; intros; auto with signals; fail
  | |- keeps (if ?b then _ else _) => destruct b eqn:?
  | |- keeps (let _ := _ in _) => cbv zeta
  | |- keeps (match ?x with _ => _ end) => destruct x
  end.
Ltac keeps_steps := repeat keeps_step; auto with signals.

Section Calls.
Context {M : Type} `{Memory M}.
Implicit Types w : World M.

Lemma keeps_restore regs : keeps (M := M) (restore_frame regs).
Proof. unfold restore_frame, read_mcontext, read_sigmask. keeps_steps. apply keeps_modify. by intros w [? ? ?]. Qed.

Lemma keeps_setup regs sig act m : keeps (M := M) (setup_frame regs sig act m).
Proof. unfold setup_frame. keeps_steps. Qed.

Lemma keeps_enter regs sig act m : 0 ≤ sig → keeps (M := M) (enter_handler regs sig act m).
Proof.
  intros Hs. unfold enter_handler. apply keeps_bind; [apply keeps_setup|]. intros [e|r]; keeps_steps; apply keeps_action; auto.
Qed.

Lemma lowest_set_ge n : ∀ i v, i ≤ lowest_set n i v.
Proof using Type. induction n as [|n IH]; intros i v; simpl; [lia|]. case_match; [lia|]. specialize (IH (i + 1) v). lia. Qed.

Lemma keeps_deliver fuel : ∀ regs, keeps (M := M) (deliver fuel regs).
Proof.
  induction fuel as [|fuel IH]; intros regs; cbn [deliver]; [apply keeps_panic|]. unfold stop_current. keeps_steps.
  apply keeps_enter. unfold trailing_zeros. match goal with |- context [lowest_set ?a ?b ?c] => pose proof (lowest_set_ge a b c) end. lia.
Qed.

Lemma keeps_deliver_user regs : keeps (M := M) (deliver_user_signals regs).
Proof. unfold deliver_user_signals. keeps_steps. apply keeps_deliver. Qed.

Lemma keeps_sigaction sig act oact : keeps (M := M) (rt_sigaction sig act oact).
Proof.
  unfold rt_sigaction, write_action, read_action. keeps_steps; [apply keeps_action|apply keeps_ignored].
  - apply orb_false_iff in Heqb as [? _]. lia.
  - right. match goal with E : (sig =? SIGKILL) || _ = false |- _ => apply orb_false_iff in E as [? ?] end. lia.
Qed.

(** What can happen to a process: its calls, signals sent to it, a return to
    user mode, its own instructions, a switch to another of its tasks, and the
    other uses the kernel makes of pending signals. *)
Inductive Call :=
  | Sigaction (sig act oact : Z)
  | Sigprocmask (how set oldset : Z)
  | Sigaltstack (new old : Z)
  | Sigreturn (regs : Regs)
  | Return (regs : Regs)
  | Post (sig : Z)
  | TakeSignal
  | ClearSignals
  | ClearStops
  | UserCode (m : M) (fpu : list Z)
  | Switch (i : nat).

Definition drop_result {A} (m : Exec (World M) A) : Exec (World M) unit := m ≫= λ _, mret tt.

Definition do_call (c : Call) : Exec (World M) unit :=
  match c with
  | Sigaction sig act oact => drop_result (rt_sigaction sig act oact)
  | Sigprocmask how set oldset => drop_result (rt_sigprocmask how set oldset)
  | Sigaltstack new old => drop_result (sigaltstack new old)
  | Sigreturn regs => drop_result (rt_sigreturn regs)
  | Return regs => drop_result (deliver_user_signals regs)
  | Post sig => modify (post sig)
  | TakeSignal => modify (upd_task (λ t, (take_signal t).2))
  | ClearSignals => modify (upd_task clear_signals)
  | ClearStops => modify (upd_task clear_stop_signals)
  | UserCode m fpu => modify (λ w, mkWorld m fpu (w_task w) (w_others w) (w_proc w))
  | Switch i => modify (λ w, match w_others w !! i with
                             | Some t => mkWorld (w_mem w) (w_fpu w) t (<[i := w_task w]> (w_others w)) (w_proc w)
                             | None => w
                             end)
  end.

Lemma ok_take t : task_ok t → task_ok (take_signal t).2.
Proof using Type. intros Ht. unfold take_signal. case_match; [done|]. apply ok_signals; [done|]. apply ldiff_range, Ht. Qed.

Lemma land_range a b : 0 ≤ a < U64 → 0 ≤ Z.land a b < U64.
Proof using Type.
  intros Ha. pose proof (ldiff_range a (Z.lnot b) Ha) as Hr. by rewrite Z.ldiff_land, Z.lnot_involutive in Hr.
Qed.

Lemma keeps_call c : keeps (do_call c).
Proof.
  destruct c; simpl; unfold drop_result; try (apply keeps_bind; [|intros; apply keeps_ret]).
  - apply keeps_sigaction.
  - unfold rt_sigprocmask. keeps_steps.
  - unfold sigaltstack, write_stack. keeps_steps.
  - unfold rt_sigreturn. apply keeps_bind; [apply keeps_restore|]. intros [e|[r m]]; keeps_steps. apply keeps_deliver_user.
  - apply keeps_deliver_user.
  - apply keeps_modify. intros w [? ? ?]. split; simpl; auto with signals.
  - apply keeps_task, ok_take.
  - apply keeps_task. intros t Ht. apply ok_signals; [done|]. apply land_range, Ht.
  - apply keeps_task. intros t Ht. apply ok_signals; [done|]. apply ldiff_range, Ht.
  - apply keeps_modify. by intros w [? ? ?].
  - apply keeps_modify. intros w [Ht Ho Hp]. destruct (w_others w !! i) as [t|] eqn:E; [|done]. split; simpl; [|by apply Forall_insert|done].
    by eapply Forall_lookup_1 in Ho.
Qed.

(** C25. SIGKILL and SIGSTOP cannot be escaped: whatever a process does - set
    dispositions and masks, return from handlers with frames of its own making,
    write its memory, use several tasks - no task of it ever blocks them and
    they keep their default action, so a pending SIGKILL is always deliverable. *)
Theorem kill_and_stop_hold w w' :
  world_ok w → rtc (λ w w', ∃ c, do_call c w = Some (tt, w')) w w' →
  (∀ t, t ∈ w_task w' :: w_others w' → ¬ blocks t SIGKILL ∧ ¬ blocks t SIGSTOP ∧ (pends t SIGKILL → deliverable_signal_pending t = true)) ∧
  act_of (w_proc w') SIGKILL = DFL ∧ act_of (w_proc w') SIGSTOP = DFL.
Proof.
  intros Hw Hs. assert (world_ok w') as [Ht Ho Hp].
  { revert Hw. induction Hs as [|w w1 w' [c Hc] _ IH]; [done|]. intros Hw. apply IH. by eapply keeps_call. }
  split; [|by split; apply Hp]. intros t Hin. assert (task_ok t) as [Hr Hk Hst].
  { apply elem_of_cons in Hin as [->|Hin]; [done|]. rewrite Forall_forall in Ho. by apply Ho. }
  split_and!; [done|done|]. intros Hpend. unfold deliverable_signal_pending. apply negb_true_iff, Z.eqb_neq. intros E.
  assert (Z.testbit 0 (SIGKILL - 1) = true) as Hb; [|by rewrite Z.bits_0 in Hb]. rewrite <- E, !Z.ldiff_spec.
  unfold pends, blocks in *. rewrite Hpend. apply not_true_iff_false in Hk. by rewrite Hk.
Qed.
End Calls.

(** ** Delivery takes signals lowest first *)

Definition deliverable (t : Task) (s : Z) : Prop := 1 ≤ s ≤ 64 ∧ pends t s ∧ ¬ blocks t s.

Inductive Disposition :=
  | Discarded
  | Fatal
  | Stops
  | Caught.

(** What happens to a signal that is delivered. *)
Definition disposition (a : SigAction) (s : Z) : Disposition :=
  if s =? SIGKILL then Fatal
  else if handler a =? SIG_IGN then Discarded
  else if handler a =? SIG_DFL then
    if stops_by_default s then Stops else if terminates_by_default s then Fatal else Discarded
  else if restorer a =? 0 then if terminates_by_default s then Fatal else Discarded
  else Caught.

(** Computing where the frame of a handler goes overflows: the alternate stack
    wraps around the end of the address space, or the stack pointer is so low
    that the frame would begin below address zero. *)
Definition frame_overflows (t : Task) (regs : Regs) (act : SigAction) : Prop :=
  match frame_base t regs act with
  | None => True
  | Some base => 128 ≤ base ∧ Z.ldiff (base - 128) 15 < SIGINFO_SIZE + FXSAVE_SIZE + UC_SIZE + 8
  end.

(** The deliverable signals up to [k] are no longer pending; the others are. *)
Definition taken (t t' : Task) (k : Z) : Prop :=
  blocked t' = blocked t ∧ sas_sp t' = sas_sp t ∧ sas_size t' = sas_size t ∧
  ∀ s, 1 ≤ s → pends t' s ↔ pends t s ∧ (blocks t s ∨ k < s).

(** [s] is the first deliverable signal that is not discarded. *)
Definition first (p : SigProc) (t : Task) (s : Z) : Prop :=
  deliverable t s ∧ disposition (act_of p s) s ≠ Discarded ∧
  ∀ s', deliverable t s' → s' < s → disposition (act_of p s') s' = Discarded.

(** The handler to enter is one whose frame cannot be laid out. *)
Definition no_frame (p : SigProc) (t : Task) (regs : Regs) : Prop :=
  ∃ s, first p t s ∧ disposition (act_of p s) s = Caught ∧ frame_overflows t regs (act_of p s).

Lemma first_unique p t s s' : first p t s → first p t s' → s = s'.
Proof.
  intros (D1 & N1 & L1) (D2 & N2 & L2). destruct (Z.lt_trichotomy s s') as [Hlt|[E|Hlt]]; [|done|].
  - by destruct N1; apply L2.
  - by destruct N2; apply L1.
Qed.

Lemma framed p t regs s : first p t s → (disposition (act_of p s) s = Caught → ¬ frame_overflows t regs (act_of p s)) → ¬ no_frame p t regs.
Proof. intros Hs Hno (s' & Hs' & Hc & Ho). rewrite (first_unique p t s' s Hs' Hs) in Hc, Ho. by apply Hno. Qed.

Lemma round_16 v : 0 ≤ v → v - 15 ≤ Z.ldiff v 15 ≤ v ∧ Z.ldiff v 15 mod 16 = 0.
Proof.
  intros Hv. change 15 with (Z.ones 4). rewrite Z.ldiff_ones_r, Z.shiftl_mul_pow2, Z.shiftr_div_pow2 by lia. change (2 ^ 4) with 16.
  pose proof (Z.div_mod v 16 ltac:(lia)). pose proof (Z.mod_pos_bound v 16 ltac:(lia)). change (Z.ones 4) with 15. split; [lia|]. by rewrite Z.mod_mul.
Qed.

(** Where the parts of a frame lie. *)
Record frame_layout (base info fpstate uc frame : Z) : Prop := {
  fl_info : info = Z.ldiff (base - 128) 15 - SIGINFO_SIZE;
  fl_fpstate : fpstate = info - FXSAVE_SIZE;
  fl_uc : uc = fpstate - UC_SIZE;
  fl_frame : frame = uc - 8;
  fl_pos : 0 ≤ frame;
}.

Section Deliver.
Context {M : Type} `{Memory M}.
Implicit Types w : World M.

Lemma wp_copy_to w addr l (Q : KResult unit → World M → Prop) :
  (∀ m' r, copy_to addr l (w_mem w) = Some (r, m') → Q r (mkWorld m' (w_fpu w) (w_task w) (w_others w) (w_proc w))) → wp (on_mem (copy_to addr l)) Q w.
Proof.
  intros HQ. unfold wp, on_mem. assert (is_Some (copy_to addr l (w_mem w))) as [[r m'] E]; [|rewrite E; by apply HQ].
  unfold copy_to. repeat case_match; eauto.
Qed.

(** Only memory changes, and only if the frame is written. *)
Lemma runs_setup_frame w regs sig act m P (Q : KResult Regs → World M → Prop) :
  (frame_overflows (w_task w) regs act → P) →
  (∀ m' e, ¬ frame_overflows (w_task w) regs act → Q (inl e) (mkWorld m' (w_fpu w) (w_task w) (w_others w) (w_proc w))) →
  (∀ base info fpstate uc frame m1 m2 m3 m', ¬ frame_overflows (w_task w) regs act → frame_base (w_task w) regs act = Some base → frame_layout base info fpstate uc frame →
     copy_to info (siginfo_bytes sig) (w_mem w) = Some (inr tt, m1) → copy_to fpstate (w_fpu w) m1 = Some (inr tt, m2) →
     copy_to uc (ucontext_bytes regs fpstate m) m2 = Some (inr tt, m3) → copy_to frame (le_bytes 8 (restorer act)) m3 = Some (inr tt, m') →
     Q (inr (handler_regs regs sig act info uc frame)) (mkWorld m' (w_fpu w) (w_task w) (w_others w) (w_proc w))) →
  runs (setup_frame regs sig act m) P Q w.
Proof.
  intros HP Hn HQ. unfold frame_overflows in *. unfold setup_frame. wp_steps. apply runs_need. destruct (frame_base (w_task w) regs act) as [b|] eqn:Hb; [|by apply HP]. cbn beta iota in HP, Hn, HQ.
  destruct (Z.ltb_spec b 128); [wp_steps; destruct w; apply Hn; lia|]. destruct (round_16 (b - 128) ltac:(lia)) as [Hr _]. set (sp := Z.ldiff (b - 128) 15) in *.
  destruct (Z.le_gt_cases (SIGINFO_SIZE + FXSAVE_SIZE + UC_SIZE + 8) sp) as [Hge|Hlt].
  2: { specialize (HP ltac:(lia)). unfold sub64. wp_step. do 4 (apply runs_need; match goal with |- context [?x <=? ?y] => destruct (Z.leb_spec x y) end; [|done]; try wp_step). unfold SIGINFO_SIZE, FXSAVE_SIZE, UC_SIZE in *. lia. }
  specialize (λ m' e, Hn m' e ltac:(lia)). specialize (λ x1 x2 x3 x4 x5 x6 x7 x8 x9, HQ x1 x2 x3 x4 x5 x6 x7 x8 x9 ltac:(lia)).
  unfold SIGINFO_SIZE, FXSAVE_SIZE, UC_SIZE in *. rewrite !sub64_ok by lia. wp_steps. rewrite sub64_ok by lia. wp_steps.
  rewrite sub64_ok by lia. wp_steps. rewrite sub64_ok by lia. wp_steps. apply wp_runs.
  apply wp_try, wp_copy_to. intros m1 [e|[]] E1; [apply Hn|]. wp_steps. apply wp_try, wp_copy_to. intros m2 [e|[]] E2; [apply Hn|].
  apply wp_try, wp_copy_to. intros m3 [e|[]] E3; [apply Hn|]. apply wp_try, wp_copy_to. intros m4 [e|[]] E4; [apply Hn|]. wp_steps.
  eapply HQ; [done| |done..]. split; try done. unfold SIGINFO_SIZE, FXSAVE_SIZE, UC_SIZE. lia.
Qed.

(** The end of delivery from [w], in terms of the signals pending at its start. *)
Definition delivered w (regs : Regs) (o : Outcome) (w' : World M) : Prop :=
  let t := w_task w in let p := w_proc w in
  match o with
  | Resume r =>
      r = regs ∧ w_proc w' = p ∧ taken t (w_task w') 64 ∧ (∀ s, deliverable t s → disposition (act_of p s) s = Discarded) ∨
      ∃ s info uc frame, first p t s ∧ disposition (act_of p s) s = Caught ∧ r = handler_regs regs s (act_of p s) info uc frame ∧
        ∃ t1, taken t t1 s ∧ w_task w' = set_blocked (let m := Z.lor (blocked t) (mask (act_of p s)) in
                                        if Z.land (flags (act_of p s)) SA_NODEFER =? 0 then Z.lor m (bit s) else m) t1
  | Exit s => first p t s ∧ disposition (act_of p s) s = Fatal ∨ s = SIGSEGV ∧ ∃ s', first p t s' ∧ disposition (act_of p s') s' = Caught
  | Stop r => r = regs ∧ ∃ s, first p t s ∧ disposition (act_of p s) s = Stops ∧ taken t (set_stopped (stopped t) (w_task w')) s ∧ stopped (w_task w') = true
  end.

Lemma deliverable_bit t s : 1 ≤ s → pends t s ∧ ¬ blocks t s ↔ Z.testbit (Z.ldiff (signals t) (blocked t)) (s - 1) = true.
Proof using Type.
  intros Hs. rewrite Z.ldiff_spec, andb_true_iff, negb_true_iff. unfold pends, blocks. by rewrite not_true_iff_false.
Qed.

Lemma taken_next t t1 k s : taken t t1 k → k < s ≤ 64 → s ≠ SIGKILL → 1 ≤ s → (∀ x, deliverable t1 x → s ≤ x) → ¬ blocks t s → taken t (clear_signal s t1) s.
Proof using Type.
  intros (Eb & Es & Ez & Hp) Hk Hnk H1 Hlow Hnb. unfold clear_signal.
  rewrite (proj2 (Z.leb_le 1 s)), (proj2 (Z.leb_le s 64)), (proj2 (Z.eqb_neq s SIGKILL)) by lia. simpl. split_and!; [done..|].
  intros x Hx. unfold pends at 1. simpl. rewrite Z.ldiff_spec, bit_spec by lia. fold (pends t1 x). rewrite andb_true_iff, negb_true_iff, bool_decide_eq_false.
  change (Z.testbit (signals t1) (x - 1) = true) with (pends t1 x). rewrite Hp by done. split.
  - intros [[Hpx Hor] Hne]. split; [done|]. destruct (Z.testbit (blocked t) (x - 1)) eqn:Ebx; [by left|]. right.
    assert (¬ blocks t x) as Hnx by (unfold blocks; congruence). destruct Hor as [|Hkx]; [done|].
    destruct (Z.le_gt_cases x 64) as [Hle|]; [|lia]. assert (deliverable t1 x) as Hd%Hlow; [|lia].
    split_and!; [lia|lia|by apply Hp; auto|]. unfold blocks. by rewrite Eb.
  - intros [Hpx Hor]. split; [split; [done|]; destruct Hor; [by left|right; lia]|]. destruct Hor as [Hb|]; [|lia].
    intros E. apply Hnb. by replace s with x by lia.
Qed.

(** The progress of the loop: signals up to [k] were taken and discarded. *)
Record progress w0 w (k : Z) : Prop := {
  pg_proc : w_proc w = w_proc w0;
  pg_taken : taken (w_task w0) (w_task w) k;
  pg_stopped : stopped (w_task w) = stopped (w_task w0);
  pg_bound : 0 ≤ k ≤ 64;
  pg_range : 0 ≤ signals (w_task w) < U64;
  pg_past s : deliverable (w_task w0) s → s ≤ k → disposition (act_of (w_proc w0) s) s = Discarded;
}.

(** Nothing deliverable is left. *)
Lemma progress_end w0 w k regs : progress w0 w k → Z.ldiff (signals (w_task w)) (blocked (w_task w)) = 0 →
  (∀ s, deliverable (w_task w0) s → disposition (act_of (w_proc w0) s) s = Discarded) ∧ delivered w0 regs (Resume regs) w.
Proof using Type.
  intros [Ep Ht Hs Hk Hr Hpast] Hz. pose proof Ht as (Eb & Es & Ez & Hp).
  assert (∀ s, deliverable (w_task w0) s → s ≤ k) as Hdone.
  { intros s (H1 & Hps & Hnb). destruct (Z.le_gt_cases s k) as [|Hgt]; [done|]. exfalso.
    assert (Z.testbit 0 (s - 1) = true) as Hb; [|by rewrite Z.bits_0 in Hb]. rewrite <- Hz. apply deliverable_bit; [lia|].
    unfold blocks. rewrite Eb. split; [apply Hp; [lia|split; [done|by right]]|done]. }
  split; [intros s Hd; auto|]. left. split_and!; [done|done| |intros s Hd; auto]. split_and!; [done..|]. intros s H1. rewrite Hp by done. split; intros [Hps Hor]; (split; [done|]).
  - destruct (Z.testbit (blocked (w_task w0)) (s - 1)) eqn:Ebs; [by left|]. right. destruct (Z.le_gt_cases s 64) as [|]; [|lia].
    assert (deliverable (w_task w0) s) as Hd%Hdone; [split_and!; [lia|lia|done|unfold blocks; congruence]|]. destruct Hor as [Hb|]; [unfold blocks in Hb; congruence|lia].
  - destruct Hor; [by left|right; lia].
Qed.

(** The next signal the loop looks at. *)
Lemma progress_next w0 w k : progress w0 w k → Z.ldiff (signals (w_task w)) (blocked (w_task w)) ≠ 0 →
  let s := trailing_zeros (Z.ldiff (signals (w_task w)) (blocked (w_task w))) + 1 in
  deliverable (w_task w0) s ∧ k < s ≤ 64 ∧ 1 ≤ s ∧ (∀ x, deliverable (w_task w) x → s ≤ x) ∧
  (disposition (act_of (w_proc w0) s) s ≠ Discarded → first (w_proc w0) (w_task w0) s).
Proof using Type.
  intros [Ep Ht Hs Hk Hr Hpast] Hnz s. pose proof Ht as (Eb & Es & Ez & Hp).
  destruct (trailing_zeros_spec _ (ldiff_range (signals (w_task w)) (blocked (w_task w)) Hr) Hnz) as (Hrange & Hbit & Hlow).
  assert (pends (w_task w) s ∧ ¬ blocks (w_task w) s) as [Hps Hnb] by (apply deliverable_bit; [lia|]; unfold s; by rewrite Z.add_simpl_r).
  unfold blocks in Hnb. rewrite Eb in Hnb. apply Hp in Hps as [Hps Hor]; [|lia]. assert (k < s) as Hks by (destruct Hor; [done|lia]).
  assert (deliverable (w_task w0) s) as Hd by (split_and!; [lia|lia|done|done]).
  assert (∀ x, deliverable (w_task w) x → s ≤ x) as Hmin.
  { intros x (Hx & Hpx). destruct (Z.le_gt_cases s x) as [|Hlt]; [done|]. apply deliverable_bit in Hpx; [|lia]. rewrite Hlow in Hpx; [done|lia]. }
  split_and!; [done|done|lia|lia|done|]. intros Hdisp. split_and!; [done|done|]. intros x Hx Hlt.
  destruct (Z.le_gt_cases x k) as [|Hgt]; [by apply Hpast|]. exfalso. destruct Hx as (Hx & Hpx & Hbx).
  assert (deliverable (w_task w) x) as Hd'%Hmin; [|lia]. split_and!; [lia|lia|apply Hp; [lia|split; [done|by right]]|unfold blocks; by rewrite Eb].
Qed.

(** A signal is cleared, and discarded. *)
Lemma progress_clear w0 w k s :
  progress w0 w k → k < s ≤ 64 → 1 ≤ s → s ≠ SIGKILL → deliverable (w_task w0) s → (∀ x, deliverable (w_task w) x → s ≤ x) →
  let w1 := upd_task (clear_signal s) w in
  w_proc w1 = w_proc w0 ∧ taken (w_task w0) (w_task w1) s ∧ 0 ≤ signals (w_task w1) < U64 ∧ stopped (w_task w1) = stopped (w_task w0) ∧
  (disposition (act_of (w_proc w0) s) s = Discarded → progress w0 w1 s).
Proof using Type.
  intros [Ep Ht Hs Hk Hr Hpast] Hks H1 Hnk Hd Hmin w1. assert (taken (w_task w0) (w_task w1) s) as Ht1 by (eapply taken_next; [done..|apply Hd]).
  assert (0 ≤ signals (w_task w1) < U64) as Hr1. { unfold w1, clear_signal. simpl. case_match; [by apply ldiff_range|done]. }
  assert (stopped (w_task w1) = stopped (w_task w0)) as Hs1. { unfold w1, clear_signal. simpl. by case_match. }
  split_and!; [done|done|lia|lia|done|]. intros Hdisc. split; try done; [lia|]. intros x Hx Hle. destruct (decide (x = s)) as [->|]; [done|].
  destruct (Z.le_gt_cases x k) as [|Hgt]; [by apply Hpast|]. exfalso. pose proof Ht as (Eb & _ & _ & Hp). destruct Hx as (Hx & Hpx & Hbx).
  assert (deliverable (w_task w) x) as Hd'%Hmin; [|lia]. split_and!; [lia|lia|apply Hp; [lia|split; [done|by right]]|unfold blocks; by rewrite Eb].
Qed.

Lemma overflows_taken t t' k regs act : taken t t' k → frame_overflows t' regs act = frame_overflows t regs act.
Proof using Type. intros (_ & Es & Ez & _). unfold frame_overflows, frame_base. by rewrite Es, Ez. Qed.

(** What delivery from [w0] is to do, and when it is to panic. *)
Definition delivers w0 (regs : Regs) (m : Exec (World M) Outcome) : World M → Prop :=
  let bad := no_frame (w_proc w0) (w_task w0) regs in runs m bad (λ o w', delivered w0 regs o w' ∧ ¬ bad).

Lemma runs_enter w0 w regs s :
  taken (w_task w0) (w_task w) s → first (w_proc w0) (w_task w0) s →
  disposition (act_of (w_proc w0) s) s = Caught →
  delivers w0 regs (enter_handler regs s (act_of (w_proc w0) s) (blocked (w_task w0))) w.
Proof using Type.
  intros Ht Hfirst Hc. unfold delivers, enter_handler. wp_step. apply runs_setup_frame; rewrite (overflows_taken _ _ _ _ _ Ht).
  - intros Ho. by exists s.
  - intros m' e Hno. wp_steps. split; [right; split; [done|]; by exists s|by eapply framed].
  - intros base info fpstate uc frame m1 m2 m3 m' Hno _ _ _ _ _ _. wp_steps.
    assert (∀ w1 : World M, w_task w1 = set_blocked (let m := Z.lor (blocked (w_task w0)) (mask (act_of (w_proc w0) s)) in
        if Z.land (flags (act_of (w_proc w0) s)) SA_NODEFER =? 0 then Z.lor m (bit s) else m) (w_task w) →
      delivered w0 regs (Resume (handler_regs regs s (act_of (w_proc w0) s) info uc frame)) w1) as Hend.
    { intros w1 E. right. exists s, info, uc, frame. split_and!; [done|done|done|]. by exists (w_task w). }
    destruct (negb _); wp_steps; (split; [by apply Hend|by eapply framed]).
Qed.

Lemma act_lookup p s : length (sigactions p) = 65%nat → 1 ≤ s ≤ 64 → sigactions p !! Z.to_nat s = Some (act_of p s).
Proof using Type.
  intros Hl Hs. destruct (lookup_lt_is_Some_2 (sigactions p) (Z.to_nat s)) as [a Ha]; [lia|]. unfold act_of. by rewrite nth_lookup, Ha.
Qed.

Lemma stops_above_kill s : stops_by_default s = true → SIGKILL < s.
Proof using Type. unfold stops_by_default, one_of. simpl. rewrite !orb_true_iff, !Z.eqb_eq. unfold SIGKILL, SIGSTOP, SIGTSTP, SIGTTIN, SIGTTOU. naive_solver lia. Qed.

Lemma no_kill_left w0 w s : world_ok w0 → taken (w_task w0) (w_task w) s → SIGKILL < s → kill_pending (set_stopped true (w_task w)) = false.
Proof using Type.
  intros Hw (_ & _ & _ & Hp) Hs. unfold kill_pending. simpl. apply negb_false_iff, Z.eqb_eq. apply Z.bits_inj'. intros i Hi.
  rewrite Z.land_spec, Z.bits_0. change KILL_BIT with (bit SIGKILL). rewrite bit_spec by done. case_bool_decide as E; [|apply andb_false_r]. subst i.
  destruct (Z.testbit (signals (w_task w)) (SIGKILL - 1)) eqn:Eb; [|done]. apply Hp in Eb as [_ [Hb|]]; [|lia|done].
  by destruct (tk_kill _ (wd_task _ Hw)).
Qed.

Lemma runs_deliver fuel : ∀ w0 w k regs,
  world_ok w0 → progress w0 w k → 65 ≤ Z.of_nat fuel + k → delivers w0 regs (deliver fuel regs) w.
Proof using Type.
  induction fuel as [|fuel IH]; intros w0 w k regs Hw Hpg Hfuel; [pose proof (pg_bound _ _ _ Hpg); lia|]. unfold delivers. cbn [deliver]. wp_steps.
  destruct (Z.eqb_spec (Z.ldiff (signals (w_task w)) (blocked (w_task w))) 0) as [Hz|Hnz].
  { wp_steps. destruct (progress_end w0 w k regs Hpg Hz) as [Hall Hend]. split; [done|]. intros (s & Hs & Hc & _). by rewrite Hall in Hc by apply Hs. }
  destruct (progress_next w0 w k Hpg Hnz) as (Hd & Hks & H1 & Hmin & Hfirst). set (s := trailing_zeros _ + 1) in *.
  assert (∀ o w', disposition (act_of (w_proc w0) s) s ≠ Discarded → disposition (act_of (w_proc w0) s) s ≠ Caught →
    (first (w_proc w0) (w_task w0) s → delivered w0 regs o w') → delivered w0 regs o w' ∧ ¬ no_frame (w_proc w0) (w_task w0) regs) as Hact.
  { intros o w' Hnd Hnc Hdel. split; [by apply Hdel, Hfirst|]. by eapply framed; [by apply Hfirst|]. }
  destruct (Z.eqb_spec s SIGKILL) as [E|Hnk]; [wp_steps|].
  { assert (disposition (act_of (w_proc w0) s) s = Fatal) as Hdis by (by rewrite E). apply Hact; rewrite ?Hdis; [done..|]. by left. }
  destruct (progress_clear w0 w k s Hpg Hks H1 Hnk Hd Hmin) as (Ep & Ht & Hr & Hs & Hgo). wp_steps. set (w1 := upd_task (clear_signal s) w) in *.
  assert (disposition (act_of (w_proc w0) s) s = Discarded → delivers w0 regs (deliver fuel regs) w1) as Hloop by (intros Hdisc; apply (IH w0 w1 s); auto; lia).
  rewrite Ep, act_lookup by (apply Hw || lia). wp_steps. unfold disposition in *. apply Z.eqb_neq in Hnk. rewrite Hnk in *. set (a := act_of (w_proc w0) s) in *.
  destruct (handler a =? SIG_IGN) eqn:Eign; [by apply Hloop|]. destruct (handler a =? SIG_DFL) eqn:Edfl.
  - destruct (stops_by_default s) eqn:Est.
    + unfold stop_current. wp_steps. change (w_task (upd_task (set_stopped true) w1)) with (set_stopped true (w_task w1)).
      rewrite (no_kill_left w0 w1 s Hw Ht) by (by apply stops_above_kill).
      wp_steps. apply Hact; [done..|]. intros Hs1. split; [done|]. exists s. split_and!; [done|unfold disposition; fold a; by rewrite Hnk, Eign, Edfl, Est| |done].
      destruct Ht as (? & ? & ? & ?). by split_and!.
    + destruct (ignored_by_default s) eqn:Ei; [apply Hloop; unfold terminates_by_default; by rewrite Ei, andb_false_r|].
      destruct (terminates_by_default s) eqn:Eterm; [|by apply Hloop]. wp_steps. apply Hact; [done..|]. intros Hs1. left. split; [done|].
      unfold disposition. fold a. by rewrite Hnk, Eign, Edfl, Est, Eterm.
  - destruct (restorer a =? 0) eqn:Er.
    + destruct (terminates_by_default s) eqn:Eterm; [|by apply Hloop]. wp_steps. apply Hact; [done..|]. intros Hs1. left. split; [done|]. unfold disposition. fold a. by rewrite Hnk, Eign, Edfl, Er, Eterm.
    + assert (blocked (w_task w) = blocked (w_task w0)) as -> by apply Hpg. apply runs_enter; [done|by apply Hfirst|unfold disposition; fold a; by rewrite Hnk, Eign, Edfl, Er].
Qed.

Lemma runs_user fuel w regs :
  65 ≤ Z.of_nat fuel → world_ok w → deliver_user_signals regs w = deliver fuel regs w → delivers w regs (deliver_user_signals regs) w.
Proof using Type.
  intros Hf Hw E. unfold delivers, runs. rewrite E. apply (runs_deliver fuel w w 0 regs Hw); [|lia].
  split; try done; [|apply (wd_task _ Hw)|by intros s (? & _) ?; lia]. split_and!; [done..|]. intros s Hs. split; [intros Hp; split; [done|right; lia]|by intros [? _]].
Qed.

(** C27. Delivery on the way back to user mode terminates and takes the pending
    unblocked signals lowest number first: signals it discards come before the
    one it acts on, and that one kills, stops or is caught as its disposition
    says.  At most one handler is entered, with the signal and the handler's mask
    blocked; higher signals stay pending.  A frame that cannot be written kills.
    Delivery panics exactly when the signal to act on is caught and computing the
    addresses of its frame overflows: the alternate stack wraps around, or the
    stack pointer leaves no room for the frame above address zero. *)
Theorem delivery_lowest_first w regs :
  world_ok w → has_aspace (w_mem w) = true →
  let bad := no_frame (w_proc w) (w_task w) regs in
  runs (deliver_user_signals regs) bad (λ o w', delivered w regs o w' ∧ ¬ bad) w.
Proof using Type.
  intros Hw Ha. apply (runs_user 65 w regs); [done|done|]. unfold deliver_user_signals, mbind, exec_bind, get. by rewrite Ha.
Qed.
End Deliver.
