(* ===== verification/SignalFrame.v ===== *)
(** * Signal frames

    A handler's frame holds the interrupted registers, the signal mask and the
    FPU state; returning from the handler gives exactly them back. *)

From S2P Require Import Prelude Errno UAccess Signal SignalProofs.

(** ** The frame of a handler *)

(** Memories with the same mappings. *)
Definition same_access {M} `{Memory M} (m m' : M) : Prop :=
  has_aspace m' = has_aspace m ∧ ∀ a n wr, as_verify m' a n wr = as_verify m a n wr.

(** What the frame functions need of user memory that does not run out: a
    checked write stores its bytes and no others, a checked read returns the
    bytes, and checking a range checks its parts. *)
Class ByteMemory (M : Type) `{Memory M} := {
  byte_at : M → Z → Z;
  as_write_bytes m a l : as_verify m a (Z.of_nat (length l)) true = true → Forall is_byte l →
    ∃ m', as_write m a l = (inr tt, m') ∧ same_access m m' ∧
      ∀ x, byte_at m' x = if decide (a ≤ x < a + Z.of_nat (length l)) then nth (Z.to_nat (x - a)) l 0 else byte_at m x;
  as_read_bytes m a n : as_verify m a n false = true →
    ∃ m', as_read m a n = (inr (byte_at m <$> seqZ a n), m') ∧ same_access m m' ∧ ∀ x, byte_at m' x = byte_at m x;
  as_verify_read m a n : as_verify m a n true = true → as_verify m a n false = true;
  as_verify_part m a n b k wr : as_verify m a n wr = true → a ≤ b → b + k ≤ a + n → 0 ≤ k → as_verify m b k wr = true;
}.

Definition u64_word (v : Z) : Prop := 0 ≤ v < U64.

Lemma word_bytes8 v : u64_word v → le_val (le_bytes 8 v) = v.
Proof. intros Hv. rewrite le_val_bytes. change (256 ^ Z.of_nat 8) with U64. by apply Z.mod_small. Qed.

(** The eight bytes at [off]. *)
Definition window (b : list Z) (off : Z) : list Z := take 8 (drop (Z.to_nat off) b).

Lemma length_splice off bs b : 0 ≤ off → (Z.to_nat off + length bs ≤ length b)%nat → length (splice_at off bs b) = length b.
Proof. intros Ho Hl. unfold splice_at. rewrite !length_app, length_take, length_drop. lia. Qed.

Lemma window_same off bs b : 0 ≤ off → length bs = 8%nat → (Z.to_nat off + 8 ≤ length b)%nat → window (splice_at off bs b) off = bs.
Proof.
  intros Ho Hb Hl. unfold window, splice_at. rewrite drop_app_length' by (rewrite length_take; lia). by rewrite take_app_length'.
Qed.

Lemma window_other off off' bs b :
  0 ≤ off → 0 ≤ off' → length bs = 8%nat → (Z.to_nat off + 8 ≤ length b)%nat → off + 8 ≤ off' ∨ off' + 8 ≤ off →
  window (splice_at off bs b) off' = window b off'.
Proof.
  intros Ho Ho' Hb Hl Hd. unfold window, splice_at. destruct Hd as [Hd|Hd].
  - rewrite app_assoc, drop_app_ge by (rewrite length_app, length_take; lia). rewrite drop_drop, length_app, length_take. do 2 f_equal. lia.
  - rewrite drop_app_le by (rewrite length_take; lia). rewrite take_app_le by (rewrite length_drop, length_take; lia).
    rewrite skipn_firstn_comm || rewrite <- take_drop_commute. by rewrite take_take, Nat.min_l by lia.
Qed.

(** The registers in the order of the context. *)
Definition reg_words (r : Regs) : list Z :=
  [r8 r; r9 r; r10 r; r11 r; r12 r; r13 r; r14 r; r15 r; rdi r; rsi r; rbp r; rbx r; rdx r; rax r; rcx r; rsp r; rip r; rflags r].

Fixpoint put_regs (off : Z) (vs : list Z) (b : list Z) : list Z :=
  match vs with [] => b | v :: vs' => put_regs (off + 8) vs' (put off v b) end.

Lemma write_mcontext_all r b : write_mcontext r b = put_regs 0 (reg_words r) b.
Proof. unfold write_mcontext, reg_words. cbn [put_regs]. reflexivity. Qed.

Lemma put_regs_length vs : ∀ off b, 0 ≤ off → (Z.to_nat (UC_MCTX + off) + 8 * length vs ≤ length b)%nat → length (put_regs off vs b) = length b.
Proof.
  induction vs as [|v vs IH]; intros off b Ho Hl; [done|]. simpl in *. unfold UC_MCTX in *. assert (length (put off v b) = length b) as E.
  { apply length_splice; [unfold UC_MCTX; lia|]. rewrite length_le_bytes. unfold UC_MCTX. lia. }
  rewrite IH; [done|lia|]. rewrite E. lia.
Qed.

Lemma put_regs_window vs : ∀ off b, 0 ≤ off → (Z.to_nat (UC_MCTX + off) + 8 * length vs ≤ length b)%nat →
  (∀ x, 0 ≤ x → x + 8 ≤ UC_MCTX + off → window (put_regs off vs b) x = window b x) ∧
  ∀ i v, vs !! i = Some v → window (put_regs off vs b) (UC_MCTX + off + 8 * Z.of_nat i) = le_bytes 8 v.
Proof.
  induction vs as [|v vs IH]; intros off b Ho Hl; [by split|]. simpl in Hl. unfold UC_MCTX in *. cbn [put_regs].
  assert (length (put off v b) = length b) as E by (apply length_splice; [unfold UC_MCTX; lia|]; rewrite length_le_bytes; unfold UC_MCTX; lia).
  destruct (IH (off + 8) (put off v b)) as [Hlow Hat]; [lia|rewrite E; lia|]. split.
  - intros x Hx Hle. rewrite Hlow by lia. apply window_other; unfold UC_MCTX; try lia. by rewrite length_le_bytes.
  - intros [|i] u Hu; simpl in Hu; [injection Hu as ->|].
    + replace (40 + off + 8 * Z.of_nat 0) with (40 + off) by lia. rewrite Hlow by lia. unfold put, UC_MCTX. apply window_same; [lia|by rewrite length_le_bytes|lia].
    + rewrite <- (Hat i u Hu). f_equal. lia.
Qed.

Lemma ucontext_length regs fp m : length (ucontext_bytes regs fp m) = 512%nat.
Proof.
  unfold ucontext_bytes. rewrite write_mcontext_all.
  assert (length (put_regs 0 (reg_words regs) (replicate (Z.to_nat UC_SIZE) 0)) = 512%nat) as E by (by rewrite put_regs_length; rewrite ?length_replicate; unfold UC_MCTX, UC_SIZE; simpl; try lia).
  rewrite !length_splice; rewrite ?length_splice, ?length_le_bytes; rewrite ?E; unfold UC_FPSTATE, UC_SIGMASK; simpl; lia.
Qed.

(** The frame holds the registers, the FPU pointer and the mask. *)
Lemma ucontext_words regs fp m :
  window (ucontext_bytes regs fp m) UC_FPSTATE = le_bytes 8 fp ∧ window (ucontext_bytes regs fp m) UC_SIGMASK = le_bytes 8 m ∧
  ∀ i v, reg_words regs !! i = Some v → window (ucontext_bytes regs fp m) (UC_MCTX + 8 * Z.of_nat i) = le_bytes 8 v.
Proof.
  unfold ucontext_bytes. rewrite write_mcontext_all. set (b0 := put_regs 0 (reg_words regs) _).
  assert (length b0 = 512%nat) as E0 by (unfold b0; by rewrite put_regs_length; rewrite ?length_replicate; unfold UC_MCTX, UC_SIZE; simpl; try lia).
  assert (length (splice_at UC_FPSTATE (le_bytes 8 fp) b0) = 512%nat) as E1 by (rewrite length_splice; rewrite ?length_le_bytes, ?E0; unfold UC_FPSTATE; simpl; lia).
  unfold UC_FPSTATE, UC_SIGMASK in *. split_and!.
  - rewrite window_other, window_same; rewrite ?length_le_bytes, ?E0, ?E1; reflexivity || lia.
  - rewrite window_same; rewrite ?length_le_bytes, ?E1; reflexivity || lia.
  - intros i v Hi. assert (i < 18)%nat as Hlt by (by apply lookup_lt_Some in Hi). unfold UC_MCTX.
    rewrite !window_other; rewrite ?length_le_bytes, ?E0, ?E1; try lia.
    destruct (put_regs_window (reg_words regs) 0 (replicate (Z.to_nat UC_SIZE) 0)) as [_ Hat]; [lia|rewrite length_replicate; unfold UC_MCTX, UC_SIZE; simpl; lia|].
    rewrite <- (Hat i v Hi). f_equal.
Qed.

Lemma mcontext_frame regs fp m : Forall u64_word (reg_words regs) → mcontext (ucontext_bytes regs fp m) = regs.
Proof.
  intros Hw. destruct (ucontext_words regs fp m) as (_ & _ & Hat).
  assert (∀ i off v, reg_words regs !! i = Some v → off = 8 * Z.of_nat i → get_word (ucontext_bytes regs fp m) off = v) as Hg.
  { intros i off v Hi ->. unfold get_word. fold (window (ucontext_bytes regs fp m) (UC_MCTX + 8 * Z.of_nat i)). rewrite (Hat i v Hi). apply word_bytes8. by eapply Forall_lookup_1. }
  unfold mcontext. rewrite (Hg 0%nat 0 _ eq_refl eq_refl), (Hg 1%nat 8 _ eq_refl eq_refl), (Hg 2%nat 16 _ eq_refl eq_refl), (Hg 3%nat 24 _ eq_refl eq_refl), (Hg 4%nat 32 _ eq_refl eq_refl), (Hg 5%nat 40 _ eq_refl eq_refl), (Hg 6%nat 48 _ eq_refl eq_refl), (Hg 7%nat 56 _ eq_refl eq_refl), (Hg 8%nat 64 _ eq_refl eq_refl), (Hg 9%nat 72 _ eq_refl eq_refl), (Hg 10%nat 80 _ eq_refl eq_refl), (Hg 11%nat 88 _ eq_refl eq_refl), (Hg 12%nat 96 _ eq_refl eq_refl), (Hg 13%nat 104 _ eq_refl eq_refl), (Hg 14%nat 112 _ eq_refl eq_refl), (Hg 15%nat 120 _ eq_refl eq_refl), (Hg 16%nat 128 _ eq_refl eq_refl), (Hg 17%nat 136 _ eq_refl eq_refl).
  by destruct regs.
Qed.

Lemma splice_bytes off bs b : Forall is_byte bs → Forall is_byte b → Forall is_byte (splice_at off bs b).
Proof. intros Hbs Hb. unfold splice_at. rewrite !Forall_app. split_and!; [by apply Forall_take|done|by apply Forall_drop]. Qed.

Lemma zeros_bytes n : Forall is_byte (replicate n 0).
Proof. apply Forall_replicate. unfold is_byte. lia. Qed.

#[local] Hint Resolve splice_bytes zeros_bytes le_bytes_byte : signals.

Lemma put_regs_bytes vs : ∀ off b, Forall is_byte b → Forall is_byte (put_regs off vs b).
Proof. induction vs as [|v vs IH]; intros off b Hb; [done|]. apply IH. unfold put. auto with signals. Qed.

Lemma ucontext_is_bytes regs fp m : Forall is_byte (ucontext_bytes regs fp m).
Proof. unfold ucontext_bytes. rewrite write_mcontext_all. apply splice_bytes; [auto with signals|]. apply splice_bytes; [auto with signals|]. apply put_regs_bytes, zeros_bytes. Qed.

Lemma siginfo_is_bytes sig : Forall is_byte (siginfo_bytes sig) ∧ length (siginfo_bytes sig) = 128%nat.
Proof.
  unfold siginfo_bytes. split; [auto with signals|]. rewrite length_splice; rewrite ?length_le_bytes, ?length_replicate; unfold SIGINFO_SIZE; lia.
Qed.

Section Memory.
Context {M : Type} `{ByteMemory M}.
Implicit Types (w : World M) (m : M).

(** [m] holds the bytes [l] at [a]. *)
Definition holds m (a : Z) (l : list Z) : Prop := byte_at m <$> seqZ a (Z.of_nat (length l)) = l.

Lemma holds_spec m a l : holds m a l ↔ ∀ x, a ≤ x < a + Z.of_nat (length l) → byte_at m x = nth (Z.to_nat (x - a)) l 0.
Proof.
  unfold holds. split.
  - intros E x Hx. rewrite nth_lookup, <- E, list_lookup_fmap, lookup_seqZ_lt by lia. simpl. f_equal. lia.
  - intros Hx. apply list_eq. intros i. destruct (decide (i < length l)%nat) as [Hi|Hi].
    + rewrite list_lookup_fmap, lookup_seqZ_lt by lia. simpl. rewrite Hx by lia. replace (Z.to_nat (a + Z.of_nat i - a)) with i by lia.
      rewrite nth_lookup. by destruct (lookup_lt_is_Some_2 l i Hi) as [y ->].
    + rewrite !lookup_ge_None_2; [done|lia|rewrite length_fmap, length_seqZ; lia].
Qed.

(** A range of user memory that may be written. *)
Record writable m (a n : Z) : Prop := {
  wr_aspace : has_aspace m = true;
  wr_range : USER_START ≤ a ∧ a + n ≤ USER_END;
  wr_verify : as_verify m a n true = true;
}.

Lemma writable_part m a n b k : writable m a n → a ≤ b → b + k ≤ a + n → 0 ≤ k → writable m b k.
Proof. intros [? ? Hv] ? ? ?. split; [done|lia|]. by eapply as_verify_part. Qed.

Lemma writable_same m m' a n : same_access m m' → writable m a n → writable m' a n.
Proof. intros [E Ev] [? ? ?]. split; [by rewrite E|done|by rewrite Ev]. Qed.

Lemma check_writable m a n wr : writable m a n → 0 < n → check m a n wr = inr tt ∧ is_kernel a = false.
Proof.
  intros [Ha Hr Hv] Hn. unfold check, check_user_range, checked_add, is_kernel, PHYS_OFFSET, U64, USER_START, USER_END in *.
  rewrite (proj2 (Z.eqb_neq n 0)), (proj2 (Z.ltb_lt (a + n) (2 ^ 64))), (proj2 (Z.leb_gt 18446603336221196288 a)) by lia.
  rewrite (proj2 (Z.ltb_ge a 65536)), (proj2 (Z.ltb_ge 140737488351232 (a + n))), Ha by lia. simpl.
  assert (as_verify m a n wr = true) as ->; [|done]. destruct wr; [done|by apply as_verify_read].
Qed.

Lemma copy_to_writable m a l : writable m a (Z.of_nat (length l)) → Forall is_byte l → (0 < length l)%nat →
  ∃ m', copy_to a l m = Some (inr tt, m') ∧ same_access m m' ∧ holds m' a l ∧
    ∀ b k, b + Z.of_nat (length k) ≤ a ∨ a + Z.of_nat (length l) ≤ b → holds m b k → holds m' b k.
Proof.
  intros Hw Hb Hl. destruct (check_writable m a (Z.of_nat (length l)) true Hw) as [Hc Hk]; [lia|].
  destruct (as_write_bytes m a l) as (m' & E & Hs & Hx); [apply Hw|done|]. exists m'. unfold copy_to. rewrite Hc, Hk, (wr_aspace _ _ _ Hw), E.
  split_and!; [done|done| |].
  - apply holds_spec. intros x Hin. rewrite Hx. by rewrite decide_True.
  - intros b k Hd Hh. rewrite holds_spec in *. intros x Hin. rewrite Hx, decide_False by lia. by apply Hh.
Qed.

Lemma copy_from_writable m a n : writable m a n → 0 < n →
  ∃ m', copy_from a n m = Some (inr (byte_at m <$> seqZ a n), m') ∧ same_access m m' ∧ ∀ x, byte_at m' x = byte_at m x.
Proof.
  intros Hw Hn. destruct (check_writable m a n false Hw Hn) as [Hc Hk]. destruct (as_read_bytes m a n) as (m' & E & Hs & Hx); [apply as_verify_read, Hw|].
  exists m'. unfold copy_from. by rewrite Hc, Hk, (wr_aspace _ _ _ Hw), E.
Qed.

Definition with_mem m w : World M := mkWorld m (w_fpu w) (w_task w) (w_others w) (w_proc w).

Lemma wp_mem {A} (x : Exec M A) w a m' (Q : A → World M → Prop) : x (w_mem w) = Some (a, m') → Q a (with_mem m' w) → wp (on_mem x) Q w.
Proof. intros E HQ. unfold wp, on_mem. by rewrite E. Qed.

Lemma same_access_trans m1 m2 m3 : same_access m1 m2 → same_access m2 m3 → same_access m1 m3.
Proof. intros [E1 V1] [E2 V2]. split; [congruence|]. intros. by rewrite V2, V1. Qed.

(** The bytes a frame takes on the stack, below [top]. *)
Definition FRAME_SIZE : Z := SIGINFO_SIZE + FXSAVE_SIZE + UC_SIZE + 8.

Lemma wp_setup_writable w regs sig act (om : Z) (Q : KResult Regs → World M → Prop) base lo :
  frame_base (w_task w) regs act = Some base → 128 ≤ base → lo = Z.ldiff (base - 128) 15 - FRAME_SIZE → 0 ≤ lo →
  writable (w_mem w) lo FRAME_SIZE → length (w_fpu w) = Z.to_nat FXSAVE_SIZE → Forall is_byte (w_fpu w) →
  (∀ m', same_access (w_mem w) m' → holds m' (lo + 8) (ucontext_bytes regs (lo + 8 + UC_SIZE) om) → holds m' (lo + 8 + UC_SIZE) (w_fpu w) →
     Q (inr (handler_regs regs sig act (lo + 8 + UC_SIZE + FXSAVE_SIZE) (lo + 8) lo)) (with_mem m' w)) →
  wp (setup_frame regs sig act om) Q w.
Proof.
  intros Hb Hge Hlo Hpos Hw Hfl Hfb HQ. unfold setup_frame. wp_steps. rewrite Hb. wp_steps. destruct (Z.ltb_spec base 128); [lia|].
  unfold FRAME_SIZE, SIGINFO_SIZE, FXSAVE_SIZE, UC_SIZE in *. wp_step. rewrite sub64_ok by lia. wp_steps. rewrite sub64_ok by lia. wp_steps.
  rewrite sub64_ok by lia. wp_steps. rewrite sub64_ok by lia. wp_steps. set (top := Z.ldiff (base - 128) 15) in *.
  replace (top - 128 - 512 - 512) with (lo + 8) by lia. replace (top - 128 - 512) with (lo + 8 + 512) by lia.
  replace (top - 128) with (lo + 8 + 512 + 512) by lia. replace (lo + 8 - 8) with lo by lia.
  destruct (siginfo_is_bytes sig) as [Hib Hil]. pose proof (ucontext_length regs (lo + 8 + 512) om) as Hul.
  destruct (copy_to_writable (w_mem w) (lo + 8 + 512 + 512) (siginfo_bytes sig)) as (m1 & E1 & S1 & _ & _); [eapply writable_part; [exact Hw|lia..]|done|lia|].
  apply wp_try. eapply wp_mem; [exact E1|]. cbn beta iota. wp_steps.
  destruct (copy_to_writable m1 (lo + 8 + 512) (w_fpu w)) as (m2 & E2 & S2 & H2 & _); [eapply writable_part; [by eapply writable_same|lia..]|done|lia|].
  apply wp_try. eapply wp_mem; [exact E2|]. cbn beta iota.
  destruct (copy_to_writable m2 (lo + 8) (ucontext_bytes regs (lo + 8 + 512) om)) as (m3 & E3 & S3 & H3 & K3);
    [eapply writable_part; [by eapply writable_same; [|eapply writable_same]|rewrite ?Hul; lia..]|apply ucontext_is_bytes|lia|].
  apply wp_try. eapply wp_mem; [exact E3|]. cbn beta iota.
  destruct (copy_to_writable m3 lo (le_bytes 8 (restorer act))) as (m4 & E4 & S4 & _ & K4);
    [eapply writable_part; [by eapply writable_same; [|eapply writable_same; [|eapply writable_same]]|rewrite ?length_le_bytes; lia..]|apply le_bytes_byte|rewrite length_le_bytes; lia|].
  apply wp_try. eapply wp_mem; [exact E4|]. cbn beta iota. wp_steps. rewrite length_le_bytes in K4.
  apply (HQ m4); [by eapply same_access_trans, same_access_trans, same_access_trans|by apply K4; [right; lia|]|apply K4; [right; lia|]; apply K3; [right; rewrite Hul; lia|done]].
Qed.

Lemma holds_bytes m m' a l : (∀ x, a ≤ x < a + Z.of_nat (length l) → byte_at m' x = byte_at m x) → holds m a l → holds m' a l.
Proof. rewrite !holds_spec. intros Hx Hl x Hin. rewrite Hx by done. by apply Hl. Qed.

Lemma holds_window m a l off : holds m a l → 0 ≤ off → off + 8 ≤ Z.of_nat (length l) → byte_at m <$> seqZ (a + off) 8 = window l off.
Proof.
  intros Hh Ho Hl. rewrite holds_spec in Hh. apply list_eq. intros i. unfold window. destruct (decide (i < 8)%nat) as [Hi|Hi].
  - rewrite list_lookup_fmap, lookup_seqZ_lt, lookup_take_lt, lookup_drop by lia. simpl. rewrite Hh by lia. rewrite nth_lookup.
    replace (Z.to_nat (a + off + Z.of_nat i - a)) with (Z.to_nat off + i)%nat by lia. by destruct (lookup_lt_is_Some_2 l (Z.to_nat off + i)) as [y ->]; [lia|].
  - rewrite !lookup_ge_None_2; [done|rewrite length_take; lia|rewrite length_fmap, length_seqZ; lia].
Qed.

Lemma wp_restore w regs2 regs om (Q : KResult (Regs * Z) → World M → Prop) uc :
  rsp regs2 = uc → writable (w_mem w) uc (UC_SIZE + FXSAVE_SIZE) → holds (w_mem w) uc (ucontext_bytes regs (uc + UC_SIZE) om) →
  (∃ fx, length fx = Z.to_nat FXSAVE_SIZE ∧ holds (w_mem w) (uc + UC_SIZE) fx ∧
     ∀ m', Q (inr (regs, om)) (set_fpu fx (with_mem m' w))) →
  Forall u64_word (reg_words regs) → u64_word om → wp (restore_frame regs2) Q w.
Proof.
  intros Hsp Hw Hh (fx & Hfl & Hf & HQ) Hr Hm. pose proof (ucontext_length regs (uc + UC_SIZE) om) as Hul. pose proof (wr_range _ _ _ Hw) as Hrange.
  destruct (ucontext_words regs (uc + UC_SIZE) om) as (Wfp & Wm & _). unfold UC_SIZE, FXSAVE_SIZE, USER_START, USER_END in *.
  unfold restore_frame, read_mcontext, read_sigmask. rewrite Hsp.
  destruct (copy_from_writable (w_mem w) uc 512) as (m1 & E1 & S1 & B1); [eapply writable_part; [exact Hw|lia..]|lia|].
  apply wp_try, wp_try. eapply wp_mem; [exact E1|]. cbn beta iota. wp_steps.
  assert (byte_at (w_mem w) <$> seqZ uc 512 = ucontext_bytes regs (uc + 512) om) as -> by (unfold holds in Hh; by rewrite Hul in Hh). rewrite mcontext_frame by done.
  unfold UC_SIGMASK, UC_FPSTATE in *. apply wp_try. wp_step. rewrite add64_ok by (unfold U64; lia). wp_steps.
  destruct (copy_from_writable m1 (uc + 296) 8) as (m2 & E2 & S2 & B2); [eapply writable_part; [by eapply writable_same|lia..]|lia|].
  apply wp_try. eapply wp_mem; [exact E2|]. cbn beta iota. wp_steps.
  rewrite (holds_window m1 uc (ucontext_bytes regs (uc + 512) om) 296) by (lia || by eapply holds_bytes; [intros; apply B1|]).
  change (40 + 256) with 296 in Wm. rewrite Wm, word_bytes8 by done. rewrite add64_ok by (unfold U64; lia). wp_steps.
  destruct (copy_from_writable m2 (uc + 224) 8) as (m3 & E3 & S3 & B3); [eapply writable_part; [by eapply writable_same; [|eapply writable_same]|lia..]|lia|].
  apply wp_try. eapply wp_mem; [exact E3|]. cbn beta iota.
  rewrite (holds_window m2 uc (ucontext_bytes regs (uc + 512) om) 224) by (lia || by eapply holds_bytes; [intros; rewrite B2; apply B1|]).
  change (40 + 184) with 224 in Wfp. rewrite Wfp, word_bytes8 by (unfold u64_word, U64; lia). destruct (Z.eqb_spec (uc + 512) 0) as [|_]; [lia|]. cbn [negb].
  destruct (copy_from_writable m3 (uc + 512) 512) as (m4 & E4 & S4 & B4); [eapply writable_part; [by eapply writable_same; [|eapply writable_same; [|eapply writable_same]]|lia..]|lia|].
  apply wp_try, wp_try. eapply wp_mem; [exact E4|]. cbn beta iota. wp_steps.
  assert (byte_at m3 <$> seqZ (uc + 512) 512 = fx) as ->; [|apply HQ].
  assert (holds m3 (uc + 512) fx) as Hh3 by (eapply holds_bytes; [intros; rewrite B3, B2; apply B1|done]). unfold holds in Hh3. by rewrite Hfl in Hh3.
Qed.

(** C26. A signal handler gives the interrupted program back untouched: the
    frame is written whenever the stack has room for it, keeps the red zone
    free and is aligned as the ABI asks, and once the handler returns -
    whatever else it changed - every register, the signal mask and the FPU
    state are those of the interruption. *)
Theorem sigframe_roundtrip w regs sig act om base :
  let lo := Z.ldiff (base - 128) 15 - FRAME_SIZE in
  frame_base (w_task w) regs act = Some base → 128 ≤ base → writable (w_mem w) lo FRAME_SIZE →
  length (w_fpu w) = Z.to_nat FXSAVE_SIZE → Forall is_byte (w_fpu w) → Forall u64_word (reg_words regs) → u64_word om →
  wp (setup_frame regs sig act om) (λ r w1, ∃ new, r = inr new ∧ rip new = handler act ∧ rdi new = sig ∧
    rsp new + FRAME_SIZE ≤ base - 128 ∧ (rsp new + 8) mod 16 = 0 ∧
    ∀ w2 regs2, rsp regs2 = rsp new + 8 → same_access (w_mem w1) (w_mem w2) →
      (∀ x, rsp new + 8 ≤ x < rsp new + 8 + (UC_SIZE + FXSAVE_SIZE) → byte_at (w_mem w2) x = byte_at (w_mem w1) x) →
      wp (restore_frame regs2) (λ r' w3, r' = inr (regs, om) ∧ w_fpu w3 = w_fpu w) w2) w.
Proof.
  intros lo Hb Hge Hw Hfl Hfb Hr Hm. pose proof (wr_range _ _ _ Hw) as Hrange. unfold USER_START in Hrange. destruct (round_16 (base - 128)) as [Hr16 Hmod]; [lia|].
  eapply (wp_setup_writable w regs sig act om _ base lo); [done|done|done|lia|done|done|done|]. intros m1 S1 Hu Hf. eexists. split_and!; [done|done|done| | |].
  - simpl. unfold lo. lia.
  - simpl. unfold lo, FRAME_SIZE, SIGINFO_SIZE, FXSAVE_SIZE, UC_SIZE. replace (Z.ldiff (base - 128) 15 - (128 + 512 + 512 + 8) + 8) with (Z.ldiff (base - 128) 15 + (-72) * 16) by lia.
    by rewrite Z.mod_add.
  - intros w2 regs2 Hsp S2 B2. simpl in Hsp, S2, B2. eapply (wp_restore w2 regs2 regs om _ (lo + 8)); [done| | | |done|done].
    + eapply writable_part; [by eapply writable_same; [|eapply writable_same]|unfold FRAME_SIZE, SIGINFO_SIZE, FXSAVE_SIZE, UC_SIZE; lia..].
    + eapply holds_bytes; [|exact Hu]. intros x. rewrite ucontext_length. intros Hx. apply B2. unfold UC_SIZE, FXSAVE_SIZE in *. lia.
    + exists (w_fpu w). split_and!; [done| |by split]. eapply holds_bytes; [|exact Hf]. intros x. rewrite Hfl. intros Hx. apply B2. unfold UC_SIZE, FXSAVE_SIZE in *. lia.
Qed.
End Memory.

(** ** Frames the kernel cannot lay out *)

(** A stack pointer with too little below it panics instead of failing: only
    the first subtraction is checked. *)
Lemma small_stack_panics {M} `{Memory M} (w : World M) regs sig act om :
  sas_size (w_task w) = 0 → 128 ≤ rsp regs < 128 + FRAME_SIZE → setup_frame regs sig act om w = None.
Proof.
  intros Hz Hr. unfold setup_frame, FRAME_SIZE, SIGINFO_SIZE, FXSAVE_SIZE, UC_SIZE in *. unfold mbind, exec_bind, gets, need, frame_base. rewrite Hz. simpl.
  rewrite andb_false_r. simpl. destruct (Z.ltb_spec (rsp regs) 128); [lia|]. destruct (round_16 (rsp regs - 128)) as [Hb _]; [lia|]. unfold sub64.
  set (sp := Z.ldiff (rsp regs - 128) 15) in *.
  destruct (Z.leb_spec 128 sp); [|done]. destruct (Z.leb_spec 512 (sp - 128)); [|done]. destruct (Z.leb_spec 512 (sp - 128 - 512)); [|done].
  destruct (Z.leb_spec 8 (sp - 128 - 512 - 512)); [lia|done].
Qed.

(** An alternate stack at the end of the address space panics the kernel. *)
Lemma altstack_wrap_panics {M} `{Memory M} (w : World M) regs sig act om :
  sas_size (w_task w) ≠ 0 → U64 ≤ sas_sp (w_task w) + sas_size (w_task w) → sas_sp (w_task w) ≤ rsp regs → setup_frame regs sig act om w = None.
Proof.
  intros Hz Ho Hr. unfold setup_frame, mbind, exec_bind, gets, need, frame_base. rewrite (proj2 (Z.eqb_neq _ _) Hz), (proj2 (Z.leb_le _ _) Hr). simpl.
  unfold add64. by rewrite (proj2 (Z.ltb_ge _ _) Ho).
Qed.

(** ** On one page of memory *)

Lemma put_lookup l : ∀ (m : gmap Z Z) a x,
  PageMem.put m a l !! x = if decide (a ≤ x < a + Z.of_nat (length l)) then l !! Z.to_nat (x - a) else m !! x.
Proof.
  induction l as [|b l IH]; intros m a x; cbn [PageMem.put length]; [by rewrite decide_False by lia|]. rewrite IH.
  destruct (decide (x = a)) as [->|Hne]; [|].
  { rewrite (decide_False (P := a + 1 ≤ a < _)), decide_True, Z.sub_diag by lia. by rewrite (lookup_insert_eq m). }
  case_decide as E1; [rewrite decide_True by lia; replace (Z.to_nat (x - a)) with (S (Z.to_nat (x - (a + 1)))) by lia; done|].
  rewrite decide_False by lia. by rewrite (lookup_insert_ne m) by lia.
Qed.

#[export] Instance page_byte_memory : ByteMemory PageMem.mem.
Proof.
  refine {| byte_at (m : PageMem.mem) x := default 0 (m !! x) mod 256 |}.
  - intros m a l _ Hl. eexists. split_and!; [done|done|]. intros x. rewrite put_lookup. case_decide as E; [|done].
    destruct (lookup_lt_is_Some_2 l (Z.to_nat (x - a))) as [y Hy]; [lia|]. rewrite nth_lookup, Hy. simpl. apply Z.mod_small. by eapply Forall_lookup_1 in Hl.
  - intros m a n _. exists m. split_and!; [|done|done]. simpl. unfold PageMem.bytes. do 2 f_equal. apply list_eq. intros i. rewrite !list_lookup_fmap.
    destruct (decide (Z.of_nat i < n)); [rewrite !lookup_seqZ_lt by lia; simpl; by rewrite Z.add_0_l|rewrite !lookup_seqZ_ge by lia; done].
  - done.
  - intros m a n b k wr Hv Hb Hk H0. simpl in *. apply andb_true_iff in Hv as [H1 H2]. apply andb_true_iff. lia.
Defined.

Definition demo_regs : Regs := mkRegs 1 2 3 4 5 6 7 8 9 10 11 12 13 14 15 0x20f00 0x401000 0x202.
Definition demo_act : SigAction := mkAct 0x402000 0 0x403000 0.
Definition demo_proc : SigProc := mkProc (<[10%nat := demo_act]> default_table) 0.
Definition demo_world : World PageMem.mem := mkWorld ∅ (replicate 512 7) (mkTask (bit 10) 0 false 0 0) [] demo_proc.

Lemma demo_world_ok : world_ok demo_world.
Proof. split; [split|by apply Forall_nil|split]; try done; vm_compute; congruence. Qed.

Lemma kill_and_stop_hold_witness :
  let w' := upd_task (set_blocked (2 ^ 64 - 1)) demo_world in
  (∀ t, t ∈ w_task w' :: w_others w' → ¬ blocks t SIGKILL ∧ ¬ blocks t SIGSTOP ∧ (pends t SIGKILL → deliverable_signal_pending t = true)) ∧
  act_of (w_proc w') SIGKILL = DFL ∧ act_of (w_proc w') SIGSTOP = DFL.
Proof.
  intros w'. set (mem := PageMem.put ∅ 0x20000 (le_bytes 8 (2 ^ 64 - 1))).
  assert (world_ok (mkWorld mem (replicate 512 7) (w_task demo_world) [] demo_proc)) as Hw by (by destruct demo_world_ok).
  apply (kill_and_stop_hold (mkWorld mem (replicate 512 7) (w_task demo_world) [] demo_proc) w' Hw). apply (rtc_l _ _ (mkWorld mem (replicate 512 7) (w_task w') [] demo_proc)).
  - exists (Sigprocmask 2 0x20000 0). vm_compute. reflexivity.
  - apply rtc_once. exists (UserCode ∅ (replicate 512 7)). vm_compute. reflexivity.
Defined.

Lemma delivery_lowest_first_witness :
  let bad := no_frame (w_proc demo_world) (w_task demo_world) demo_regs in
  runs (deliver_user_signals demo_regs) bad (λ o w', delivered demo_world demo_regs o w' ∧ ¬ bad) demo_world.
Proof. exact (delivery_lowest_first demo_world demo_regs demo_world_ok eq_refl). Defined.

Lemma sigframe_roundtrip_witness :
  wp (setup_frame demo_regs 10 demo_act 5) (λ r w1, ∃ new, r = inr new ∧ rip new = handler demo_act ∧ rdi new = 10 ∧
    rsp new + FRAME_SIZE ≤ 0x20f00 - 128 ∧ (rsp new + 8) mod 16 = 0 ∧
    ∀ w2 regs2, rsp regs2 = rsp new + 8 → same_access (w_mem w1) (w_mem w2) →
      (∀ x, rsp new + 8 ≤ x < rsp new + 8 + (UC_SIZE + FXSAVE_SIZE) → byte_at (w_mem w2) x = byte_at (w_mem w1) x) →
      wp (restore_frame regs2) (λ r' w3, r' = inr (demo_regs, 5) ∧ w_fpu w3 = w_fpu demo_world) w2) demo_world.
Proof.
  apply (sigframe_roundtrip demo_world demo_regs 10 demo_act 5 0x20f00); [done|done|by split|vm_compute; reflexivity| | |done].
  - apply Forall_replicate. unfold is_byte. lia.
  - repeat apply Forall_cons_2; [by split..|by apply Forall_nil].
Defined.
