(* ===== verification/Pipe.v ===== *)
(** * Pipes and FIFOs

    Models [kernel/src/fs/pipe.rs] and the wait queue of [kernel/src/sync/waitq.rs]
    with their concurrency.  The kernel is not preemptive and runs its tasks on
    one processor ([sched/mod.rs], [arch/x86_64/ap.rs]), so a call runs until it
    returns or blocks in [WaitQueue::wait]; such a stretch is a turn.  Turns of
    any number of calls interleave with ends being opened and closed and with
    signals.  Two histories record, with the call, the bytes accepted and handed
    out. *)

From S2P Require Import Prelude Errno.

Definition PIPE_CAPACITY : Z := 65536.
Definition PIPE_BUF : Z := 4096.

Record Inner := mkInner { data : list Z; readers : Z; writers : Z }.

Definition len (l : list Z) : Z := Z.of_nat (length l).

Definition set_data (d : list Z) (g : Inner) : Inner := mkInner d (readers g) (writers g).

Definition new_pipe : Inner := mkInner [] 0 0.

(** [Pipe::open] and the drop of a [PipeEnd]. *)
Definition open_end (write : bool) (g : Inner) : option Inner :=
  if write then w ← add64 (writers g) 1; Some (mkInner (data g) (readers g) w)
  else r ← add64 (readers g) 1; Some (mkInner (data g) r (writers g)).
Definition drop_end (write : bool) (g : Inner) : option Inner :=
  if write then w ← sub64 (writers g) 1; Some (mkInner (data g) (readers g) w)
  else r ← sub64 (readers g) 1; Some (mkInner (data g) r (writers g)).

Definition has_readers (g : Inner) : bool := 0 <? readers g.
Definition has_writers (g : Inner) : bool := 0 <? writers g.

(** ** Waiting

    One pass of [WaitQueue::wait]: its condition, whether a deliverable signal
    is pending, and whether the deadline has passed. *)

Inductive Wait := Ready | Interrupted | TimedOut | Asleep.

Definition wait_pass (cond signal late : bool) : Wait :=
  if cond then Ready else if signal then Interrupted else if late then TimedOut else Asleep.

(** ** Calls

    A call in progress, as it is when it is about to run: [read], [write] from
    [written] bytes on, [open_fifo], and [open_fifo] once its end is open. *)

Inductive PipeCall :=
  | Reading (write_end nonblock : bool) (n : Z)
  | Writing (write_end nonblock : bool) (buf : list Z) (written : Z)
  | Opening (write nonblock : bool)
  | Opened (write : bool).

Inductive Turn :=
  | Returns (r : KResult Z)
  | Blocks (c : PipeCall).

(** The outcome of a turn: how it ends, the pipe, the bytes it accepted and the
    bytes it handed out, whether it woke the queue and whether it raised
    [SIGPIPE]. *)
Record Moved := mkMoved {
  ends : Turn; pipe : Inner; accepted : list Z; handed : list Z; wakes : bool; sigpipe : bool }.

Definition idle_turn (t : Turn) (g : Inner) : Moved := mkMoved t g [] [] false false.

Definition read_ready (g : Inner) : bool := negb (bool_decide (data g = [])) || (writers g =? 0).

(** A turn of [PipeEnd::read] with a buffer of [n] bytes, from the head of its
    loop.  The condition it waits for is false where it waits, so the wait ends
    by a signal or in sleep, and a call that slept is back at the loop's head. *)
Definition read_turn (write_end nonblock signal : bool) (n : Z) (g : Inner) : Moved :=
  if write_end then idle_turn (Returns (inl EBADF)) g
  else if n =? 0 then idle_turn (Returns (inr 0)) g
  else match data g with
  | [] =>
      if writers g =? 0 then idle_turn (Returns (inr 0)) g
      else if nonblock then idle_turn (Returns (inl EAGAIN)) g
      else match wait_pass (read_ready g) signal false with
           | Interrupted => idle_turn (Returns (inl EINTR)) g
           | _ => idle_turn (Blocks (Reading write_end nonblock n)) g
           end
  | d =>
      let k := Z.to_nat (Z.min n (len d)) in
      mkMoved (Returns (inr (len (take k d)))) (set_data (drop k d) g) [] (take k d) true false
  end.

(** ** Writing *)

Definition pipe_space (g : Inner) : option Z := sub64 PIPE_CAPACITY (len (data g)).

Definition needed (rest : list Z) : Z := if len rest <=? PIPE_BUF then len rest else 1.

Definition write_ready (rest : list Z) (g : Inner) : option bool :=
  if readers g =? 0 then Some true else s ← pipe_space g; Some (needed rest <=? s).

Definition cut_short (written : Z) (e : Errno) : Turn :=
  Returns (if 0 <? written then inr written else inl e).

(** The loop of [PipeEnd::write] from [written] on; [acc] is what this turn has
    accepted so far and [woke] whether it has woken the queue.  A deadline of 0
    has always passed.  [None] is a panic. *)
Fixpoint pipe_write_loop (fuel : nat) (nonblock signal : bool) (buf : list Z) (written : Z)
    (acc : list Z) (woke : bool) (g : Inner) : option Moved :=
  let out t p := Some (mkMoved t g acc [] woke p) in
  match fuel with
  | O => None
  | S fuel =>
      if written <? len buf then
        let rest := drop (Z.to_nat written) buf in
        ready ← write_ready rest g;
        match wait_pass ready signal nonblock with
        | Asleep => out (Blocks (Writing true nonblock buf written)) false
        | Interrupted => out (cut_short written EINTR) false
        | TimedOut => out (cut_short written EAGAIN) false
        | Ready =>
            if readers g =? 0 then out (cut_short written EPIPE) true
            else
              s ← pipe_space g;
              let n := Z.min (len rest) s in
              let bytes := take (Z.to_nat n) rest in
              pipe_write_loop fuel nonblock signal buf (written + n) (acc ++ bytes) true (set_data (data g ++ bytes) g)
        end
      else out (Returns (inr written)) false
  end.

Definition write_turn (write_end nonblock signal : bool) (buf : list Z) (written : Z) (g : Inner) : option Moved :=
  if negb write_end then Some (idle_turn (Returns (inl EBADF)) g)
  else pipe_write_loop (S (length buf)) nonblock signal buf written [] false g.

(** ** Opening a FIFO *)

Definition open_ready (write : bool) (g : Inner) : bool := if write then has_readers g else has_writers g.

(** The wait of [open_fifo]; an interrupted open drops its end again. *)
Definition opened_turn (write woke signal : bool) (g : Inner) : option Moved :=
  match wait_pass (open_ready write g) signal false with
  | Ready => Some (mkMoved (Returns (inr 0)) g [] [] woke false)
  | Interrupted => g' ← drop_end write g; Some (mkMoved (Returns (inl EINTR)) g' [] [] true false)
  | _ => Some (mkMoved (Blocks (Opened write)) g [] [] woke false)
  end.

Definition open_fifo (write nonblock signal : bool) (g : Inner) : option Moved :=
  if nonblock && write && negb (has_readers g) then Some (idle_turn (Returns (inl ENXIO)) g)
  else
    g' ← open_end write g;
    if nonblock then Some (mkMoved (Returns (inr 0)) g' [] [] true false)
    else opened_turn write true signal g'.

Definition turn (signal : bool) (c : PipeCall) (g : Inner) : option Moved :=
  match c with
  | Reading w nb n => Some (read_turn w nb signal n g)
  | Writing w nb buf written => write_turn w nb signal buf written g
  | Opening w nb => open_fifo w nb signal g
  | Opened w => opened_turn w false signal g
  end.

(** ** Polling *)

Definition POLL_IN : Z := 1.
Definition POLL_OUT : Z := 4.
Definition POLL_ERR : Z := 8.
Definition POLL_HUP : Z := 16.

Definition poll (write_end : bool) (g : Inner) : option Z :=
  if write_end then
    if readers g =? 0 then Some (Z.lor POLL_ERR POLL_OUT)
    else s ← pipe_space g; Some (if PIPE_BUF <=? s then POLL_OUT else 0)
  else
    let p := if bool_decide (data g = []) then 0 else Z.lor 0 POLL_IN in
    Some (if writers g =? 0 then Z.lor p POLL_HUP else p).

(** ** The system

    The calls on a pipe with, for each, the state it will run from, its result,
    whether it sleeps on the queue and whether a deliverable signal is pending. *)

Record Entry := mkEntry { call : PipeCall; result : option (KResult Z); asleep : bool; signal : bool }.

Record Sys := mkSys { inner : Inner; entries : list Entry; sent : list (nat * Z); recv : list (nat * Z) }.

Definition tagged (i : nat) (bs : list Z) : list (nat * Z) := pair i <$> bs.

(** [WaitQueue::wake_all]. *)
Definition awake (e : Entry) : Entry := mkEntry (call e) (result e) false (signal e).
Definition wake_all (es : list Entry) : list Entry := awake <$> es.

Definition after (t : Turn) (p : bool) (e : Entry) : Entry :=
  match t with
  | Returns r => mkEntry (call e) (Some r) false (signal e || p)
  | Blocks c => mkEntry c None true (signal e || p)
  end.

Definition take_turn (i : nat) (e : Entry) (m : Moved) (s : Sys) : Sys :=
  mkSys (pipe m) (<[i := after (ends m) (sigpipe m) e]> (if wakes m then wake_all (entries s) else entries s))
    (sent s ++ tagged i (accepted m)) (recv s ++ tagged i (handed m)).

Definition fresh (c : PipeCall) : Prop :=
  match c with
  | Reading _ _ n => 0 ≤ n
  | Writing _ _ _ written => written = 0
  | Opening _ _ => True
  | Opened _ => False
  end.

(** The ends [open_fifo] holds while it waits, which nobody else can close. *)
Definition holds_end (write : bool) (e : Entry) : bool :=
  match call e, result e with Opened w, None => Bool.eqb w write | _, _ => false end.
Definition opening (write : bool) (es : list Entry) : Z := Z.of_nat (length (filter (λ e, holds_end write e = true) es)).
Definition ends_of (write : bool) (g : Inner) : Z := if write then writers g else readers g.

(** Calls start and take turns; ends are opened and closed; a signal, deliverable
    or not, wakes its task.  An end may be closed here while a read or a write
    on it is running, which the reference counts of the code rule out. *)
Inductive pipe_step : Sys → Sys → Prop :=
  | ps_start s c sg : fresh c → pipe_step s (mkSys (inner s) (entries s ++ [mkEntry c None false sg]) (sent s) (recv s))
  | step_turn s i e m : entries s !! i = Some e → result e = None → asleep e = false →
      turn (signal e) (call e) (inner s) = Some m → pipe_step s (take_turn i e m s)
  | step_signal s i e sg : entries s !! i = Some e →
      pipe_step s (mkSys (inner s) (<[i := mkEntry (call e) (result e) false (signal e || sg)]> (entries s)) (sent s) (recv s))
  | step_open s write g : open_end write (inner s) = Some g → pipe_step s (mkSys g (wake_all (entries s)) (sent s) (recv s))
  | step_close s write g : opening write (entries s) < ends_of write (inner s) → drop_end write (inner s) = Some g →
      pipe_step s (mkSys g (wake_all (entries s)) (sent s) (recv s)).

Definition fresh_sys : Sys := mkSys new_pipe [] [] [].

Definition reachable (s : Sys) : Prop := rtc pipe_step fresh_sys s.
