(* ===== verification/PipeProofs.v ===== *)
(** * Pipes and FIFOs: correctness

    Over every interleaving of [pipe_step]: bytes come out in the order they went
    in, within the capacity, and each call is told what it moved; writes of at
    most [PIPE_BUF] bytes are atomic; no turn panics or spins; no wake-up is lost,
    so a reader and a writer never wait for each other. *)

From S2P Require Import Prelude Errno Pipe.

(** ** Lists *)

Lemma len_nonneg l : 0 ≤ len l.
Proof. unfold len. lia. Qed.

Lemma len_app l k : len (l ++ k) = len l + len k.
Proof. unfold len. rewrite length_app. lia. Qed.

Lemma len_nil l : len l = 0 ↔ l = [].
Proof. unfold len. destruct l; simpl; split; [done|done|lia|done]. Qed.

Lemma len_take n l : 0 ≤ n → len (take (Z.to_nat n) l) = Z.min n (len l).
Proof. unfold len. rewrite length_take. lia. Qed.

Lemma len_drop n l : 0 ≤ n ≤ len l → len (drop (Z.to_nat n) l) = len l - n.
Proof. unfold len. rewrite length_drop. lia. Qed.

Lemma take_extend {A} w n (l : list A) : 0 ≤ w → 0 ≤ n →
  take (Z.to_nat (w + n)) l = take (Z.to_nat w) l ++ take (Z.to_nat n) (drop (Z.to_nat w) l).
Proof. intros. rewrite Z2Nat.inj_add by lia. by rewrite take_take_drop. Qed.

(** ** The write loop *)

Record counts_ok (g : Inner) : Prop := {
  ok_len : len (data g) ≤ PIPE_CAPACITY;
  ok_readers : 0 ≤ readers g;
  ok_writers : 0 ≤ writers g;
}.

Lemma pipe_space_ok g : counts_ok g → pipe_space g = Some (PIPE_CAPACITY - len (data g)).
Proof. intros []. by apply sub64_ok. Qed.

Lemma write_ready_total rest g : counts_ok g → ∃ b, write_ready rest g = Some b.
Proof. intros Hg. unfold write_ready. case_match; [by eexists|]. rewrite pipe_space_ok by done. by eexists. Qed.

(** How a write that has written [w] bytes in all may stop. *)
Definition stopped (nb sg : bool) (buf : list Z) (w : Z) (g : Inner) (raised : bool) (t : Turn) : Prop :=
  match t with
  | Returns (inr k) => k = w ∧ (w < len buf → readers g = 0 ∨ sg = true ∨ nb = true)
  | Returns (inl e) => w = 0 ∧
      ((e = EPIPE ∧ readers g = 0 ∧ raised = true) ∨ (e = EINTR ∧ sg = true) ∨ (e = EAGAIN ∧ nb = true))
  | Blocks c => c = Writing true nb buf w ∧ w < len buf ∧ nb = false ∧
      write_ready (drop (Z.to_nat w) buf) g = Some false
  end.

(** What a write does from [w] on: it accepts a prefix [bytes] of the rest of
    the buffer and says so; a small rest goes as a whole or not at all. *)
Record write_result (nb sg : bool) (buf : list Z) (w : Z) (g : Inner) (bytes : list Z) (woke : bool) (m : Moved) : Prop := {
  wr_prefix : bytes = take (Z.to_nat (len bytes)) (drop (Z.to_nat w) buf);
  wr_bound : w + len bytes ≤ len buf;
  wr_pipe : pipe m = set_data (data g ++ bytes) g;
  wr_ok : counts_ok (pipe m);
  wr_handed : handed m = [];
  wr_wakes : wakes m = woke || negb (bool_decide (bytes = []));
  wr_small : len buf - w ≤ PIPE_BUF → bytes = [] ∨ w + len bytes = len buf;
  wr_ends : stopped nb sg buf (w + len bytes) (pipe m) (sigpipe m) (ends m);
}.

Lemma set_data_same g : set_data (data g ++ []) g = g.
Proof. rewrite app_nil_r. by destruct g. Qed.

Lemma write_stops nb sg buf w g acc woke t p :
  counts_ok g → 0 ≤ w ≤ len buf → stopped nb sg buf w g p t →
  write_result nb sg buf w g [] woke (mkMoved t g acc [] woke p).
Proof.
  intros Hg Hw Ht. assert (Hz : w + len [] = w) by (unfold len; simpl; lia).
  split; rewrite ?Hz, ?set_data_same; simpl; auto; try lia.
  by rewrite orb_false_r.
Qed.

Lemma cut_short_stopped w e buf nb sg g p :
  0 ≤ w →
  (e = EPIPE ∧ readers g = 0 ∧ p = true) ∨ (e = EINTR ∧ sg = true) ∨ (e = EAGAIN ∧ nb = true) →
  stopped nb sg buf w g p (cut_short w e).
Proof.
  intros Hw He. unfold cut_short, stopped. destruct (Z.ltb_spec 0 w).
  - split; [done|]. naive_solver.
  - split; [lia|done].
Qed.

(** One more chunk in front of a result. *)
Lemma write_result_cons nb sg buf w n g bytes woke m :
  counts_ok g → 0 ≤ w → 0 < n → w + n ≤ len buf →
  (len buf - w ≤ PIPE_BUF → w + n = len buf) →
  let chunk := take (Z.to_nat n) (drop (Z.to_nat w) buf) in
  write_result nb sg buf (w + n) (set_data (data g ++ chunk) g) bytes true m →
  write_result nb sg buf w g (chunk ++ bytes) woke m.
Proof.
  intros Hg Hw Hn Hb Hs chunk [P1 P2 P3 P4 P5 P6 P7 P8].
  assert (Hc : len chunk = n).
  { unfold chunk. rewrite len_take, len_drop by lia. lia. }
  assert (Hl : w + len (chunk ++ bytes) = w + n + len bytes) by (rewrite len_app; lia).
  assert (Hne : chunk ++ bytes ≠ []).
  { intros [E _]%app_eq_nil. rewrite E in Hc. unfold len in Hc; simpl in Hc; lia. }
  split; rewrite ?Hl; auto.
  - rewrite len_app, Hc, Z2Nat.inj_add by (pose proof (len_nonneg bytes); lia).
    rewrite <- take_take_drop, drop_drop. fold chunk. f_equal.
    rewrite P1 at 1. by rewrite Z2Nat.inj_add by lia.
  - rewrite P3. unfold set_data; simpl. by rewrite app_assoc.
  - rewrite P6, (bool_decide_false (chunk ++ bytes = [])) by exact Hne. by destruct woke.
  - intros Hsm. right. specialize (Hs Hsm). pose proof (len_nonneg bytes). lia.
Qed.

Lemma pipe_write_loop_spec fuel : ∀ nb sg buf w acc woke g,
  counts_ok g → 0 ≤ w ≤ len buf → len buf - w < Z.of_nat fuel →
  ∃ m bytes, pipe_write_loop fuel nb sg buf w acc woke g = Some m ∧
    accepted m = acc ++ bytes ∧ write_result nb sg buf w g bytes woke m.
Proof.
  induction fuel as [|fuel IH]; intros nb sg buf w acc woke g Hg Hw Hf; [lia|]. simpl.
  destruct (Z.ltb_spec w (len buf)).
  2:{ eexists _, []. split; [done|]. rewrite app_nil_r. split; [done|]. apply write_stops; [done|lia|]. split; [done|lia]. }
  destruct (write_ready_total (drop (Z.to_nat w) buf) g Hg) as [b Hb]. rewrite Hb. simpl.
  assert (Hd : len (drop (Z.to_nat w) buf) = len buf - w) by (apply len_drop; lia).
  destruct b; simpl.
  - destruct (Z.eqb_spec (readers g) 0) as [Hr|Hr].
    + eexists _, []. split; [done|]. rewrite app_nil_r. split; [done|].
      apply write_stops, cut_short_stopped; auto; lia.
    + unfold write_ready in Hb. rewrite (proj2 (Z.eqb_neq _ _) Hr), pipe_space_ok in Hb by done. simpl in Hb.
      injection Hb as Hb%Z.leb_le. rewrite pipe_space_ok by done. simpl. unfold needed in Hb. rewrite Hd in *.
      set (n := Z.min (len buf - w) (PIPE_CAPACITY - len (data g))).
      assert (Hn : 0 < n ∧ w + n ≤ len buf ∧ (len buf - w ≤ PIPE_BUF → w + n = len buf)).
      { unfold n. destruct (Z.leb_spec (len buf - w) PIPE_BUF); lia. }
      destruct Hn as (Hn1 & Hn2 & Hn3).
      set (chunk := take (Z.to_nat n) (drop (Z.to_nat w) buf)).
      assert (Hg' : counts_ok (set_data (data g ++ chunk) g)).
      { destruct Hg as [G1 G2 G3]. split; simpl; [|done..]. rewrite len_app. unfold chunk. rewrite len_take, Hd by lia. lia. }
      destruct (IH nb sg buf (w + n) (acc ++ chunk) true _ Hg') as (m & bytes & E & Ha & Hm); [lia..|].
      exists m, (chunk ++ bytes). split; [done|]. split; [by rewrite Ha, app_assoc|].
      apply (write_result_cons nb sg buf w n g bytes woke m); [done|lia|done|done|done|exact Hm].
  - destruct sg; [|destruct nb]; simpl; eexists _, []; (split; [done|]); rewrite app_nil_r; (split; [done|]);
      apply write_stops; try apply cut_short_stopped; simpl; auto; lia.
Qed.

(** ** Turns *)

Definition call_ready (c : PipeCall) (g : Inner) : option bool :=
  match c with
  | Reading _ _ _ => Some (read_ready g)
  | Writing _ _ buf w => write_ready (drop (Z.to_nat w) buf) g
  | Opened w => Some (open_ready w g)
  | Opening _ _ => Some true
  end.

Definition call_wf (c : PipeCall) : Prop :=
  match c with
  | Reading _ _ n => 0 ≤ n
  | Writing we _ buf w => 0 ≤ w ≤ len buf ∧ (we = false → w = 0) ∧ (len buf ≤ PIPE_BUF → w = 0)
  | _ => True
  end.

(** What the call is told agrees with what the turn moved. *)
Definition told (c : PipeCall) (m : Moved) : Prop :=
  match c with
  | Reading _ _ n => accepted m = [] ∧
      match ends m with
      | Returns (inr k) => len (handed m) = k ∧ k ≤ n
      | Returns (inl _) => handed m = []
      | Blocks c' => handed m = [] ∧ c' = c
      end
  | Writing we nb buf w => handed m = [] ∧ w + len (accepted m) ≤ len buf ∧
      accepted m = take (Z.to_nat (len (accepted m))) (drop (Z.to_nat w) buf) ∧
      (len buf - w ≤ PIPE_BUF → accepted m = [] ∨ w + len (accepted m) = len buf) ∧
      match ends m with
      | Returns (inr k) => k = w + len (accepted m)
      | Returns (inl _) => w + len (accepted m) = 0
      | Blocks c' => we = true ∧ c' = Writing we nb buf (w + len (accepted m)) ∧ w + len (accepted m) < len buf
      end
  | Opening w _ | Opened w => accepted m = [] ∧ handed m = [] ∧
      match ends m with Blocks c' => c' = Opened w | _ => True end
  end.

(** The ends a waiting [open_fifo] holds, before and after a turn. *)
Definition held_ends (b : bool) (c : PipeCall) : Z :=
  match c with Opened w => if Bool.eqb w b then 1 else 0 | _ => 0 end.
Definition held_after (b : bool) (t : Turn) : Z :=
  match t with Blocks c => held_ends b c | Returns _ => 0 end.

Record turn_result (c : PipeCall) (g : Inner) (m : Moved) : Prop := {
  tr_ok : counts_ok (pipe m);
  tr_wakes : wakes m = false → pipe m = g;
  tr_fifo : data g ++ accepted m = handed m ++ data (pipe m);
  tr_told : told c m;
  tr_ends : ∀ b, ends_of b g + held_after b (ends m) ≤ ends_of b (pipe m) + held_ends b c;
  tr_sleep : match ends m with Blocks c' => call_ready c' (pipe m) = Some false | _ => True end;
}.

(** A turn that moves nothing. *)
Ltac still := split; simpl; rewrite ?app_nil_r; first [done | by intros; lia | idtac].

Lemma read_turn_result we nb sg n g : counts_ok g → 0 ≤ n →
  turn_result (Reading we nb n) g (read_turn we nb sg n g).
Proof.
  intros Hg Hn. unfold read_turn. destruct we; [by still|].
  destruct (Z.eqb_spec n 0) as [->|]; [by still|].
  destruct (data g) as [|b d] eqn:Hd.
  - destruct (Z.eqb_spec (writers g) 0); [split; simpl; rewrite ?Hd; try done; intros; lia|].
    assert (Hr : read_ready g = false).
    { unfold read_ready. rewrite Hd, bool_decide_true by done. by apply Z.eqb_neq. }
    rewrite Hr. destruct nb, sg; split; simpl; rewrite ?Hd, ?Hr; try done; intros; lia.
  - rewrite <- Hd. set (k := Z.min n (len (data g))). destruct Hg as [G1 G2 G3].
    assert (Hk : 0 ≤ k) by (pose proof (len_nonneg (data g)); lia).
    split; simpl; [| done | by rewrite app_nil_r, take_drop | | | done].
    + split; simpl; [|done..]. rewrite len_drop; lia.
    + split; [done|]. split; [done|]. rewrite len_take; lia.
    + intros []; simpl; lia.
Qed.

Lemma write_turn_result we nb sg buf w g : counts_ok g → call_wf (Writing we nb buf w) →
  ∃ m, write_turn we nb sg buf w g = Some m ∧ turn_result (Writing we nb buf w) g m.
Proof.
  intros Hg (Hw & Hwe & _). unfold write_turn. destruct we; simpl negb; cbn iota.
  - destruct (pipe_write_loop_spec (S (length buf)) nb sg buf w [] false g) as (m & bytes & E & Ha & Hm);
      [done|lia|unfold len; lia|].
    simpl in Ha. subst bytes. exists m. split; [done|]. destruct Hm as [P1 P2 P3 P4 P5 P6 P7 P8].
    split; [done| |by rewrite P3, P5| | |].
    + rewrite P6. destruct (decide (accepted m = [])) as [E0|]; [|by rewrite bool_decide_false].
      intros _. by rewrite P3, E0, set_data_same.
    + unfold told. do 4 (split; [done|]). unfold stopped in P8. repeat case_match; naive_solver.
    + intros b. rewrite P3. unfold stopped in P8. assert (held_after b (ends m) = 0) as ->.
      { destruct (ends m) as [|c]; [done|]. by destruct P8 as [-> _]. }
      destruct b; simpl; lia.
    + unfold stopped in P8. repeat case_match; [done..|]. by destruct P8 as (-> & _ & _ & ?).
  - rewrite Hwe by done. eexists. split; [done|]. still.
    unfold len; simpl. split_and!; auto; lia.
Qed.

Lemma opened_turn_result w woke sg g c :
  counts_ok g → 0 < ends_of w g → (c = Opened w ∨ ∃ nb, c = Opening w nb) →
  ∃ m, opened_turn w woke sg g = Some m ∧ counts_ok (pipe m) ∧ (wakes m = false → woke = false ∧ pipe m = g) ∧
    data (pipe m) = data g ∧ told c m ∧
    (∀ b, ends_of b g + held_after b (ends m) ≤ ends_of b (pipe m) + held_ends b (Opened w)) ∧
    match ends m with Blocks c' => call_ready c' (pipe m) = Some false | _ => True end.
Proof.
  intros Hg Hh Hc. pose proof Hg as [G1 G2 G3]. unfold opened_turn, wait_pass.
  assert (Ht : ∀ m, accepted m = [] → handed m = [] →
    match ends m with Blocks c' => c' = Opened w | _ => True end → told c m) by (destruct Hc as [->|[nb ->]]; done).
  destruct (open_ready w g) eqn:Hr; [|destruct sg].
  - eexists. split; [done|]. split; [done|]. split; [done|]. split; [done|]. split; [by apply Ht|].
    split; [|done]. intros b. simpl. case_match; lia.
  - unfold drop_end. destruct w; simpl in Hh; rewrite sub64_ok by lia; eexists; (split; [done|]);
      (split; [split; simpl; lia|]);
      (split; [done|]); (split; [done|]); (split; [by apply Ht|]); (split; [|done]); intros []; simpl; lia.
  - eexists. split; [done|]. split; [done|]. split; [done|]. split; [done|]. split; [by apply Ht|].
    split; [intros b; simpl; lia|]. simpl. by rewrite Hr.
Qed.

Definition ends_fit (g : Inner) : Prop := readers g + 1 < U64 ∧ writers g + 1 < U64.

Lemma open_end_result w g g' : counts_ok g → open_end w g = Some g' →
  counts_ok g' ∧ data g' = data g ∧ ∀ b, ends_of b g' = ends_of b g + held_ends b (Opened w).
Proof.
  intros [G1 G2 G3]. unfold open_end, add64. destruct w; case_match; simpl; intros; simplify_eq;
    (split_and!; [split; simpl; lia|done|]); intros []; simpl; lia.
Qed.

Lemma open_end_room w g : ends_fit g → is_Some (open_end w g).
Proof. intros [R1 R2]. unfold open_end. destruct w; rewrite add64_ok by lia; by eexists. Qed.

(** Every turn of a call on a pipe ends as it should; it does not panic unless
    the count of ends is about to overflow. *)
Lemma turn_total sg c g : counts_ok g → ends_fit g ∨ is_Some (turn sg c g) → call_wf c → (∀ b, held_ends b c ≤ ends_of b g) →
  ∃ m, turn sg c g = Some m ∧ turn_result c g m.
Proof.
  intros Hg Hroom Hc Hh. destruct c as [we nb n|we nb buf w|w nb|w]; simpl in *.
  - eexists. split; [done|]. by apply read_turn_result.
  - by apply write_turn_result.
  - unfold open_fifo in *. case_match; [eexists; split; [done|]; by still|].
    destruct (open_end w g) as [g'|] eqn:Ho.
    2:{ destruct Hroom as [[? E]%(open_end_room w)|[? E]]; [congruence|done]. }
    destruct (open_end_result w g g' Hg Ho) as (Hg' & Hd & He).
    simpl. destruct nb.
    + eexists. split; [done|]. split; simpl; rewrite ?app_nil_r; try done. intros b. rewrite He.
      pose proof (Hh b). simpl in *. case_match; lia.
    + destruct (opened_turn_result w true sg g' (Opening w false)) as (m & -> & H1 & H2 & H3 & H4 & H5 & H6);
        [done|rewrite He; simpl; rewrite eqb_reflx; destruct Hg, w; simpl; lia|eauto|].
      exists m. split; [done|]. destruct H4 as (A1 & A2 & A3).
      split; [done| | |done| |done].
      * by intros [? _]%H2.
      * by rewrite A1, A2, app_nil_r, H3.
      * intros b. specialize (H5 b). rewrite He in H5. simpl in *. lia.
  - destruct (opened_turn_result w false sg g (Opened w)) as (m & -> & H1 & H2 & H3 & H4 & H5 & H6); [done| |eauto|].
    { specialize (Hh w). simpl in Hh. rewrite eqb_reflx in Hh. lia. }
    exists m. split; [done|]. destruct H4 as (A1 & A2 & A3). split; [done| | |done|done|done].
    * by intros [_ ?]%H2.
    * by rewrite A1, A2, app_nil_r, H3.
Qed.

(** ** The system *)

Definition by_call (i : nat) (l : list (nat * Z)) : list Z := (filter (λ p, p.1 = i) l).*2.

Lemma by_call_app i l k : by_call i (l ++ k) = by_call i l ++ by_call i k.
Proof. unfold by_call. by rewrite filter_app, fmap_app. Qed.

Lemma by_call_tagged i bs : by_call i (tagged i bs) = bs.
Proof.
  unfold by_call, tagged. induction bs as [|b bs IH]; [done|]. simpl.
  rewrite filter_cons_True by done. simpl. by f_equal.
Qed.

Lemma by_call_other i j bs : i ≠ j → by_call i (tagged j bs) = [].
Proof.
  intros. unfold by_call, tagged. induction bs as [|b bs IH]; [done|]. simpl.
  by rewrite filter_cons_False.
Qed.

Lemma tagged_bytes i bs : (tagged i bs).*2 = bs.
Proof. unfold tagged. rewrite <- list_fmap_compose. by apply list_fmap_id. Qed.

(** The bytes of [buf] are in [l] in one piece, or not at all. *)
Definition whole (i : nat) (buf : list Z) (l : list (nat * Z)) : Prop :=
  by_call i l = [] ∨
  ∃ pre post, l = pre ++ tagged i buf ++ post ∧ by_call i pre = [] ∧ by_call i post = [].

(** What a call has been told is what the histories say it moved. *)
Definition accounted (i : nat) (e : Entry) (snt rcv : list (nat * Z)) : Prop :=
  match call e with
  | Writing _ _ buf w => by_call i rcv = [] ∧
      match result e with
      | None => by_call i snt = take (Z.to_nat w) buf
      | Some (inr k) => 0 ≤ k ≤ len buf ∧ by_call i snt = take (Z.to_nat k) buf
      | Some (inl _) => by_call i snt = []
      end
  | Reading _ _ n => by_call i snt = [] ∧
      match result e with
      | Some (inr k) => len (by_call i rcv) = k ∧ k ≤ n
      | _ => by_call i rcv = []
      end
  | _ => by_call i snt = [] ∧ by_call i rcv = []
  end.

Definition atomic (i : nat) (e : Entry) (snt : list (nat * Z)) : Prop :=
  match call e with
  | Writing _ _ buf _ => len buf ≤ PIPE_BUF → whole i buf snt
  | _ => True
  end.

(** A call asleep on the queue has nothing to wake up for. *)
Definition rightly_asleep (e : Entry) (g : Inner) : Prop :=
  asleep e = true → result e = None → call_ready (call e) g = Some false.

Record entry_ok (i : nat) (e : Entry) (g : Inner) (snt rcv : list (nat * Z)) : Prop := {
  eo_wf : call_wf (call e);
  eo_accounted : accounted i e snt rcv;
  eo_atomic : atomic i e snt;
  eo_asleep : rightly_asleep e g;
}.

Record sys_ok (s : Sys) : Prop := {
  so_counts : counts_ok (inner s);
  so_fifo : (sent s).*2 = (recv s).*2 ++ data (inner s);
  so_ids : Forall (λ p, (p.1 < length (entries s))%nat) (sent s ++ recv s);
  so_entries : ∀ i e, entries s !! i = Some e → entry_ok i e (inner s) (sent s) (recv s);
  so_open : ∀ b, opening b (entries s) ≤ ends_of b (inner s);
}.

Lemma whole_other i j buf bs l : i ≠ j → whole i buf l → whole i buf (l ++ tagged j bs).
Proof.
  intros Hij [H|(pre & post & -> & H1 & H2)]; [left|right].
  - by rewrite by_call_app, H, by_call_other.
  - exists pre, (post ++ tagged j bs). rewrite <- !app_assoc. split_and!; [done..|].
    by rewrite by_call_app, H2, by_call_other.
Qed.

(** Turns of other calls leave an entry's account alone. *)
Lemma entry_ok_other i j e g g' snt rcv bs bs' :
  i ≠ j → (asleep e = true → g' = g) → entry_ok i e g snt rcv →
  entry_ok i e g' (snt ++ tagged j bs) (rcv ++ tagged j bs').
Proof.
  intros Hij Hg [E1 E2 E3 E4].
  assert (Hs : by_call i (snt ++ tagged j bs) = by_call i snt) by (by rewrite by_call_app, by_call_other, app_nil_r).
  assert (Hr : by_call i (rcv ++ tagged j bs') = by_call i rcv) by (by rewrite by_call_app, by_call_other, app_nil_r).
  split; [done|by unfold accounted; rewrite Hs, Hr| |].
  - unfold atomic in *. case_match; try done. intros. apply whole_other; auto.
  - intros Ha. rewrite (Hg Ha). by apply E4.
Qed.

Lemma entry_ok_awake i e g g' snt rcv sg :
  entry_ok i e g snt rcv → entry_ok i (mkEntry (call e) (result e) false sg) g' snt rcv.
Proof. intros [E1 E2 E3 E4]. by split. Qed.

Lemma told_wf c m : call_wf c → told c m → match ends m with Blocks c' => call_wf c' | _ => True end.
Proof.
  destruct c as [we nb n|we nb buf w|w nb|w]; simpl; intros Hc Ht; destruct (ends m) as [|c']; try done.
  - by destruct Ht as (_ & _ & ->).
  - destruct Ht as (_ & H1 & _ & H2 & -> & -> & H3), Hc as (C1 & C2 & C3). simpl.
    pose proof (len_nonneg (accepted m)). split; [lia|]. split; [done|].
    intros Hs. destruct H2 as [H2|]; [lia| |lia]. rewrite H2. unfold len; simpl. specialize (C3 Hs). lia.
  - by destruct Ht as (_ & _ & ->).
  - by destruct Ht as (_ & _ & ->).
Qed.

Lemma accounted_turn i e m snt rcv :
  call_wf (call e) → result e = None → told (call e) m → accounted i e snt rcv →
  accounted i (after (ends m) (sigpipe m) e) (snt ++ tagged i (accepted m)) (rcv ++ tagged i (handed m)).
Proof.
  intros Hc Hr Ht Ha. unfold accounted in *. rewrite Hr in Ha. rewrite !by_call_app, !by_call_tagged.
  destruct (call e) as [we nb n|we nb buf w|w nb|w] eqn:Hce; simpl in Hc, Ht.
  - destruct Ha as [-> ->], Ht as [-> Ht]. unfold after. destruct (ends m) as [[|k]|c']; simpl.
    + by rewrite Hce, Ht.
    + by rewrite Hce.
    + by destruct Ht as [-> ->].
  - destruct Ha as [-> Hs], Ht as (-> & Hb & Hp & _ & Ht), Hc as (C1 & _). pose proof (len_nonneg (accepted m)).
    assert (Hx : by_call i snt ++ accepted m = take (Z.to_nat (w + len (accepted m))) buf).
    { rewrite take_extend by lia. by rewrite Hs, <- Hp. }
    unfold after. destruct (ends m) as [[|k]|c']; simpl.
    + rewrite Hce, Hx, Ht. done.
    + rewrite Hce, Hx, Ht. split; [done|]. split; [lia|done].
    + destruct Ht as (_ & -> & _). by rewrite Hx.
  - destruct Ha as [-> ->], Ht as (-> & -> & Ht). unfold after. destruct (ends m); simpl; [by rewrite Hce|by rewrite Ht].
  - destruct Ha as [-> ->], Ht as (-> & -> & Ht). unfold after. destruct (ends m); simpl; [by rewrite Hce|by rewrite Ht].
Qed.

(** A small write that is about to run has put nothing in yet, and its turn puts
    in all of it or nothing. *)
Lemma atomic_turn i e m snt rcv :
  call_wf (call e) → result e = None → told (call e) m → accounted i e snt rcv →
  atomic i (after (ends m) (sigpipe m) e) (snt ++ tagged i (accepted m)).
Proof.
  intros Hc Hr Ht Ha. unfold atomic.
  assert (Hafter : ∀ we nb buf w', call (after (ends m) (sigpipe m) e) = Writing we nb buf w' →
    ∃ w, call e = Writing we nb buf w).
  { intros we nb buf w' E. destruct (call e) eqn:Hce; unfold after in E; simpl in Ht; destruct (ends m) as [|c'];
      simpl in E; rewrite ?Hce in E; destruct_and?; subst; simplify_eq; eauto. }
  destruct (call (after _ _ _)) as [|we nb buf w'| |] eqn:Hn; try done. intros Hs.
  destruct (Hafter _ _ _ _ eq_refl) as [w Hce]. unfold accounted in Ha. rewrite Hce, Hr in *. simpl in Hc, Ht.
  destruct Hc as (C1 & _ & C3), Ha as [_ Ha], Ht as (_ & Hb & Hp & Hw & _). rewrite (C3 Hs) in *. simpl in Ha.
  destruct Hw as [->|Hw]; [lia|left; by rewrite app_nil_r|right].
  exists snt, []. rewrite app_nil_r. split_and!; [|done..]. do 2 f_equal. rewrite Hp.
  rewrite firstn_all2; [done|]. unfold len in *. rewrite length_drop. lia.
Qed.

Lemma entry_ok_turn i e m g snt rcv :
  result e = None → entry_ok i e g snt rcv → turn_result (call e) g m →
  entry_ok i (after (ends m) (sigpipe m) e) (pipe m) (snt ++ tagged i (accepted m)) (rcv ++ tagged i (handed m)).
Proof.
  intros Hr [E1 E2 E3 E4] [T1 T2 T3 T4 T5 T6]. split.
  - pose proof (told_wf _ _ E1 T4). unfold after. by destruct (ends m).
  - by apply accounted_turn.
  - by eapply atomic_turn.
  - unfold rightly_asleep, after. by destruct (ends m).
Qed.

Lemma opening_insert b es i e e' : es !! i = Some e →
  opening b (<[i := e']> es) + (if holds_end b e then 1 else 0) = opening b es + (if holds_end b e' then 1 else 0).
Proof.
  intros Hi. pose proof (lookup_lt_Some _ _ _ Hi). rewrite insert_take_drop by done.
  rewrite <- (take_drop_middle es i e Hi) at 3. unfold opening.
  rewrite !filter_app, !length_app, !filter_cons.
  repeat case_decide; repeat case_match; simplify_eq; simpl; try congruence; lia.
Qed.

Lemma opening_nonneg b es : 0 ≤ opening b es.
Proof. unfold opening. lia. Qed.

Lemma opening_wake b es : opening b (wake_all es) = opening b es.
Proof.
  unfold opening. induction es as [|e es IH]; [done|]. simpl. rewrite !filter_cons.
  replace (holds_end b (awake e)) with (holds_end b e) by done. case_decide; simpl; lia.
Qed.

Lemma holds_end_held b e : result e = None → (if holds_end b e then 1 else 0) = held_ends b (call e).
Proof. intros Hr. unfold holds_end, held_ends. rewrite Hr. by destruct (call e) as [| | |[]], b. Qed.

Lemma held_le s i e b : sys_ok s → entries s !! i = Some e → result e = None → held_ends b (call e) ≤ ends_of b (inner s).
Proof.
  intros Hs Hi Hr. pose proof (so_open _ Hs b). rewrite <- holds_end_held by done.
  pose proof (opening_insert b _ i e (mkEntry (call e) (Some (inr 0)) false false) Hi) as Ho.
  pose proof (opening_nonneg b (<[i:=mkEntry (call e) (Some (inr 0)) false false]> (entries s))).
  assert (holds_end b (mkEntry (call e) (Some (inr 0)) false false) = false) as Hn
    by (unfold holds_end; simpl; by destruct (call e)).
  rewrite Hn in Ho. lia.
Qed.

Lemma holds_after b e t p : (if holds_end b (after t p e) then 1 else 0) = held_after b t.
Proof. unfold after, holds_end, held_after. destruct t as [|[| | |[]]]; simpl; [by destruct (call e)|by destruct b..]. Qed.

Lemma tagged_ids i n bs : (i < n)%nat → Forall (λ p, (p.1 < n)%nat) (tagged i bs).
Proof. intros. unfold tagged. apply Forall_fmap, Forall_true. simpl. done. Qed.

Lemma lookup_woken (b : bool) es j e' : (if b then wake_all es else es) !! j = Some e' →
  ∃ e, es !! j = Some e ∧ e' = (if b then awake e else e).
Proof.
  destruct b; [|eauto]. unfold wake_all. rewrite list_lookup_fmap. intros (e & ? & ->)%fmap_Some. eauto.
Qed.

Lemma woken_length (b : bool) es : length (if b then wake_all es else es) = length es.
Proof. destruct b; [|done]. apply length_fmap. Qed.

Lemma sys_ok_turn s i e m :
  sys_ok s → entries s !! i = Some e → result e = None →
  turn_result (call e) (inner s) m → sys_ok (take_turn i e m s).
Proof.
  intros Hs Hi Hr Ht. pose proof Hs as [S1 S2 S3 S4 S5]. pose proof Ht as [T1 T2 T3 T4 T5 T6].
  pose proof (lookup_lt_Some _ _ _ Hi) as Hlt. unfold take_turn. split; simpl; [done| | | |].
  - rewrite !fmap_app, !tagged_bytes, S2, <- !app_assoc. f_equal. by rewrite T3.
  - rewrite length_insert, woken_length. rewrite !Forall_app in *. destruct S3. auto using tagged_ids.
  - intros j e'. destruct (decide (i = j)) as [<-|Hij].
    + rewrite list_lookup_insert_eq by (by rewrite woken_length). intros [= <-]. eapply entry_ok_turn; eauto.
    + rewrite list_lookup_insert_ne by done. intros (e0 & He0 & ->)%lookup_woken.
      destruct (wakes m) eqn:Hw.
      * apply entry_ok_other with (g := inner s); [done|done|]. by apply (entry_ok_awake _ _ (inner s)), S4.
      * apply entry_ok_other with (g := inner s); [done|auto|]. by apply S4.
  - intros b. assert (Hi' : ∃ e0, (if wakes m then wake_all (entries s) else entries s) !! i = Some e0 ∧
      holds_end b e0 = holds_end b e).
    { destruct (wakes m); [|eauto]. exists (awake e). unfold wake_all. by rewrite list_lookup_fmap, Hi. }
    destruct Hi' as (e0 & Hi0 & Heq). pose proof (opening_insert b _ i e0 (after (ends m) (sigpipe m) e) Hi0) as Ho.
    rewrite Heq, holds_after, holds_end_held in Ho by done.
    assert (opening b (if wakes m then wake_all (entries s) else entries s) = opening b (entries s)) as Hop
      by (destruct (wakes m); [apply opening_wake|done]).
    specialize (S5 b). specialize (T5 b). lia.
Qed.

(** Steps that move no byte: the pipe keeps its data and every entry is kept,
    started, or woken. *)
Lemma sys_ok_woken s g : sys_ok s → counts_ok g → data g = data (inner s) →
  (∀ b, opening b (entries s) ≤ ends_of b g) → sys_ok (mkSys g (wake_all (entries s)) (sent s) (recv s)).
Proof.
  intros [S1 S2 S3 S4 S5] Hg Hd Ho. split; simpl; [done|by rewrite Hd|by rewrite (woken_length true)| |].
  - intros i e' (e & He & ->)%(lookup_woken true). by apply (entry_ok_awake _ _ (inner s)), S4.
  - intros b. by rewrite opening_wake.
Qed.

Lemma by_call_fresh i l : Forall (λ p, (p.1 < i)%nat) l → by_call i l = [].
Proof.
  intros Hl. unfold by_call. induction Hl as [|p l Hp _ IH]; [done|]. rewrite filter_cons_False by lia. done.
Qed.

Lemma fresh_entry_ok i c g snt rcv sg :
  fresh c → by_call i snt = [] → by_call i rcv = [] → entry_ok i (mkEntry c None false sg) g snt rcv.
Proof.
  intros Hc H1 H2. split; [|unfold accounted|unfold atomic|done]; destruct c; simpl in *; try done; subst.
  - pose proof (len_nonneg buf). split; [lia|done].
  - by rewrite H1, H2.
  - by left.
Qed.

Lemma sys_ok_start s c sg : sys_ok s → fresh c →
  sys_ok (mkSys (inner s) (entries s ++ [mkEntry c None false sg]) (sent s) (recv s)).
Proof.
  intros [S1 S2 S3 S4 S5] Hc. pose proof S3 as [I1 I2]%Forall_app. split; simpl; [done|done| | |].
  - rewrite length_app. eapply Forall_impl; [exact S3|]. simpl. lia.
  - intros i e [He|[Hi He]]%lookup_app_Some; [by apply S4|].
    destruct (i - length (entries s))%nat eqn:E; simplify_eq/=.
    assert (i = length (entries s)) as -> by lia. apply fresh_entry_ok; auto using by_call_fresh.
  - intros b. unfold opening. rewrite filter_app, length_app. specialize (S5 b). unfold opening in S5.
    rewrite filter_cons_False; [simpl; lia|]. unfold holds_end; simpl. by destruct c.
Qed.

Lemma sys_ok_signal s i e sg : sys_ok s → entries s !! i = Some e →
  sys_ok (mkSys (inner s) (<[i := mkEntry (call e) (result e) false (signal e || sg)]> (entries s)) (sent s) (recv s)).
Proof.
  intros [S1 S2 S3 S4 S5] Hi. pose proof (lookup_lt_Some _ _ _ Hi). split; simpl; [done|done|by rewrite length_insert| |].
  - intros j e'. destruct (decide (i = j)) as [<-|Hij].
    + rewrite list_lookup_insert_eq by done. intros [= <-]. by apply (entry_ok_awake _ _ (inner s)), S4.
    + rewrite list_lookup_insert_ne by done. apply S4.
  - intros b. pose proof (opening_insert b _ i e (mkEntry (call e) (result e) false (signal e || sg)) Hi) as Ho.
    replace (holds_end b (mkEntry _ _ _ _)) with (holds_end b e) in Ho by done. specialize (S5 b). lia.
Qed.

Lemma drop_end_result w g g' : counts_ok g → drop_end w g = Some g' →
  counts_ok g' ∧ data g' = data g ∧ ∀ b, ends_of b g' = ends_of b g - held_ends b (Opened w).
Proof.
  intros [G1 G2 G3]. unfold drop_end, sub64. destruct w; case_match eqn:E; simpl; intros; simplify_eq;
    apply Z.leb_le in E; (split_and!; [split; simpl; lia|done|]); intros []; simpl; lia.
Qed.

Lemma sys_ok_step s s' : sys_ok s → pipe_step s s' → sys_ok s'.
Proof.
  intros Hs Hstep. pose proof Hs as [S1 S2 S3 S4 S5].
  destruct Hstep as [s c sg Hc|s i e m Hi Hr Ha Ht|s i e sg Hi|s w g Hg|s w g Ho Hg].
  - by apply sys_ok_start.
  - destruct (turn_total (signal e) (call e) (inner s)) as (m' & E & Hm); [done|by right; eexists|by apply S4 in Hi as []|
      intros b; by eapply held_le|]. assert (m' = m) as -> by congruence. by apply sys_ok_turn.
  - by apply sys_ok_signal.
  - destruct (open_end_result w _ _ S1 Hg) as (H1 & H2 & H3). apply sys_ok_woken; [done..|].
    intros b. rewrite H3. specialize (S5 b). simpl. case_match; lia.
  - destruct (drop_end_result w _ _ S1 Hg) as (H1 & H2 & H3). apply sys_ok_woken; [done..|].
    intros b. rewrite H3. specialize (S5 b). simpl. destruct (Bool.eqb w b) eqn:E; [|lia].
    apply eqb_prop in E as ->. lia.
Qed.

Lemma fresh_sys_ok : sys_ok fresh_sys.
Proof.
  split; simpl; [by split|done|by constructor|done|]. intros b. unfold opening, ends_of; simpl. by destruct b.
Qed.

Lemma reachable_ok s : reachable s → sys_ok s.
Proof.
  unfold reachable. intros Hr. assert (∀ s0, sys_ok s0 → rtc pipe_step s0 s → sys_ok s) as H; [|by eapply H; [apply fresh_sys_ok|]].
  clear Hr. intros s0 H0 Hr. induction Hr; eauto using sys_ok_step.
Qed.

(** ** The properties *)

(** C28. First in, first out: over every interleaving of calls, signals, opens and
    closes, the bytes accepted so far are the bytes handed out followed by the
    bytes in the pipe, in order; the pipe never holds more than its capacity; and
    every [read] and [write] has been told exactly the bytes it moved, which for
    a write are a prefix of its buffer. *)
Theorem pipe_fifo s : reachable s →
  (sent s).*2 = (recv s).*2 ++ data (inner s) ∧ len (data (inner s)) ≤ PIPE_CAPACITY ∧
  ∀ i e, entries s !! i = Some e → accounted i e (sent s) (recv s).
Proof.
  intros [S1 S2 S3 S4 S5]%reachable_ok. split; [done|]. split; [by apply S1|]. intros i e He. by apply S4 in He as [].
Qed.

(** C29. A write of at most [PIPE_BUF] bytes is atomic: whatever other calls do
    meanwhile, its bytes enter the pipe in one piece, next to each other and
    complete, or none of them does. *)
Theorem pipe_writes_atomic s i e we nb buf w : reachable s →
  entries s !! i = Some e → call e = Writing we nb buf w → len buf ≤ PIPE_BUF → whole i buf (sent s).
Proof.
  intros Hs%reachable_ok Hi Hc. pose proof (eo_atomic _ _ _ _ _ (so_entries _ Hs i e Hi)) as Ha.
  unfold atomic in Ha. by rewrite Hc in Ha.
Qed.

(** No turn of a call panics or spins: as long as the number of ends fits the
    counter, an unfinished call that runs returns or blocks, with the free space
    never computed below zero and no end dropped that is not there. *)
Theorem pipe_turns_end s i e : reachable s → ends_fit (inner s) →
  entries s !! i = Some e → result e = None → is_Some (turn (signal e) (call e) (inner s)).
Proof.
  intros Hs%reachable_ok Hroom Hi Hr. destruct (turn_total (signal e) (call e) (inner s)) as (m & -> & _); [|by left| | |by eexists].
  - by apply so_counts.
  - by apply so_entries in Hi as [].
  - intros b. by eapply held_le.
Qed.

(** C30. No wake-up is lost: a call asleep on the pipe's queue waits for a
    condition that is false.  So a reader and a writer never wait for each
    other: one of them can run. *)
Theorem pipe_no_lost_wakeup s : reachable s →
  (∀ i e, entries s !! i = Some e → rightly_asleep e (inner s)) ∧
  ∀ i j r w we nb n we' nb' buf k, entries s !! i = Some r → entries s !! j = Some w →
    call r = Reading we nb n → call w = Writing we' nb' buf k → result r = None → result w = None →
    asleep r = false ∨ asleep w = false.
Proof.
  intros Hs%reachable_ok.
  assert (Ha : ∀ i e, entries s !! i = Some e → rightly_asleep e (inner s)) by (intros i e He; by apply (so_entries _ Hs) in He as []).
  split; [done|]. intros i j r w we nb n we' nb' buf k Hi Hj Cr Cw Rr Rw.
  destruct (asleep r) eqn:Ar; [|by left]. right. destruct (asleep w) eqn:Aw; [|done]. exfalso.
  pose proof (Ha i r Hi Ar Rr) as H1. pose proof (Ha j w Hj Aw Rw) as H2.
  rewrite Cr in H1. rewrite Cw in H2. simpl in H1, H2. injection H1 as [Hd _]%orb_false_elim.
  unfold write_ready in H2. case_match; [done|]. rewrite pipe_space_ok in H2 by apply Hs. simpl in H2. injection H2 as H2%Z.leb_gt.
  apply negb_false_iff, bool_decide_eq_true in Hd. rewrite Hd in H2. unfold needed, PIPE_BUF, PIPE_CAPACITY in H2.
  change (len []) with 0 in H2. case_match; lia.
Qed.

(** ** What callers learn *)

Lemma read_turn_results nb sg n g : 0 < n →
  match ends (read_turn false nb sg n g) with
  | Returns (inr 0) => data g = [] ∧ writers g = 0
  | Returns (inr k) => handed (read_turn false nb sg n g) = take (Z.to_nat n) (data g)
  | Returns (inl e) => data g = [] ∧ writers g ≠ 0 ∧ ((e = EAGAIN ∧ nb = true) ∨ (e = EINTR ∧ sg = true))
  | Blocks _ => data g = [] ∧ writers g ≠ 0 ∧ nb = false ∧ sg = false
  end.
Proof.
  intros Hn. unfold read_turn. rewrite (proj2 (Z.eqb_neq n 0)) by lia. destruct (data g) as [|b d] eqn:Hd.
  - destruct (Z.eqb_spec (writers g) 0); [done|].
    assert (read_ready g = false) as -> by (unfold read_ready; rewrite Hd, bool_decide_true by done; by apply Z.eqb_neq).
    destruct nb, sg; simpl; naive_solver.
  - simpl. set (k := Z.to_nat _). assert (Hk : take k (b :: d) = take (Z.to_nat n) (b :: d)).
    { unfold k, len. destruct (Z.le_gt_cases n (Z.of_nat (length (b :: d)))); [by rewrite Z.min_l by lia|].
      rewrite Z.min_r by lia. rewrite !take_ge; [done|lia|lia]. }
    assert (0 < len (take k (b :: d))) by (unfold k; rewrite len_take; unfold len; simpl; lia).
    destruct (len (take k (b :: d))) eqn:E; [lia|done|done].
Qed.

(** [poll] on a read end reports something exactly when [read] would not wait. *)
Lemma poll_read_truthful g : ∃ p, poll false g = Some p ∧ (p ≠ 0 ↔ read_ready g = true).
Proof.
  unfold poll, read_ready. eexists. split; [done|].
  destruct (bool_decide (data g = [])), (writers g =? 0); vm_compute; split; intros; congruence.
Qed.

(** ** A run *)

Definition demo_asleep : Sys :=
  mkSys (mkInner [] 1 1)
    [mkEntry (Reading false false 2) None true false; mkEntry (Writing true false [7; 8; 9] 0) None false false] [] [].

Definition demo_done : Sys :=
  mkSys (mkInner [7; 8; 9] 1 1)
    [mkEntry (Reading false false 2) None false false; mkEntry (Writing true false [7; 8; 9] 0) (Some (inr 3)) false false]
    [(1%nat, 7); (1%nat, 8); (1%nat, 9)] [].

Lemma demo_asleep_reachable : reachable demo_asleep.
Proof.
  eapply rtc_l; [eapply (step_open _ false); reflexivity|].
  eapply rtc_l; [eapply (step_open _ true); reflexivity|].
  eapply rtc_l; [apply (ps_start _ (Reading false false 2) false); simpl; lia|].
  eapply rtc_l; [eapply (step_turn _ 0); reflexivity|].
  eapply rtc_l; [by apply (ps_start _ (Writing true false [7; 8; 9] 0) false)|].
  apply rtc_refl.
Qed.

Lemma demo_done_reachable : reachable demo_done.
Proof.
  eapply rtc_r; [exact demo_asleep_reachable|]. exact (step_turn demo_asleep 1 _ _ eq_refl eq_refl eq_refl eq_refl).
Qed.

Lemma pipe_fifo_witness : reachable demo_done ∧ [7; 8; 9] = [] ++ data (inner demo_done).
Proof. split; [exact demo_done_reachable|]. exact (proj1 (pipe_fifo demo_done demo_done_reachable)). Defined.

Lemma pipe_writes_atomic_witness : whole 1 [7; 8; 9] (sent demo_done).
Proof.
  exact (pipe_writes_atomic demo_done 1 _ true false [7; 8; 9] 0 demo_done_reachable eq_refl eq_refl ltac:(vm_compute; congruence)).
Defined.

Lemma pipe_turns_end_witness : is_Some (turn false (Writing true false [7; 8; 9] 0) (inner demo_asleep)).
Proof.
  exact (pipe_turns_end demo_asleep 1 _ demo_asleep_reachable ltac:(split; vm_compute; reflexivity) eq_refl eq_refl).
Defined.

Lemma pipe_no_lost_wakeup_witness : call_ready (Reading false false 2) (inner demo_asleep) = Some false.
Proof. exact (proj1 (pipe_no_lost_wakeup demo_asleep demo_asleep_reachable) 0%nat _ eq_refl eq_refl eq_refl). Defined.
