(* ===== verification/FdTable.v ===== *)
(** * File descriptor tables

    Models [kernel/src/proc/fdtable.rs] over an arbitrary type of open files, and
    proves that a table implements a finite map from descriptors to entries in
    which [alloc] takes the lowest free number, over every sequence of calls. *)

From S2P Require Import Prelude Errno.

Definition MAX_FDS : Z := 1024.

Section FdTable.
Context {F : Type}.

Record FdEntry := mkFd { fd_file : F; cloexec : bool }.

Record FdTable := mkTable { slots : list (option FdEntry) }.

Definition new_table : FdTable := mkTable [].

(** [slots.get(i)], flattened: an empty slot and one past the end look alike. *)
Definition slot (t : FdTable) (i : Z) : option FdEntry := mjoin (slots t !! Z.to_nat i).

(** [set]: [resize] when the index is past the end, then the assignment. *)
Definition set_fd (fd : Z) (f : F) (ce : bool) (t : FdTable) : FdTable :=
  let n := Z.to_nat fd in
  let l := if (length (slots t) <=? n)%nat then slots t ++ replicate (S n - length (slots t)) None else slots t in
  mkTable (<[n := Some (mkFd f ce)]> l).

(** The search of [alloc] over [min .. MAX_FDS], [n] numbers long. *)
Fixpoint find_free (n : nat) (i : Z) (t : FdTable) : option Z :=
  match n with
  | O => None
  | S n => if bool_decide (slot t i = None) then Some i else find_free n (i + 1) t
  end.

Definition alloc_fd (f : F) (ce : bool) (min : Z) (t : FdTable) : KResult Z * FdTable :=
  match find_free (Z.to_nat (MAX_FDS - min)) min t with
  | None => (inl EMFILE, t)
  | Some fd => (inr fd, set_fd fd f ce t)
  end.

Definition fd_entry (fd : Z) (t : FdTable) : KResult FdEntry :=
  if fd <? 0 then inl EBADF else match slot t fd with None => inl EBADF | Some e => inr e end.

Definition get_fd (fd : Z) (t : FdTable) : KResult F :=
  match fd_entry fd t with inl e => inl e | inr e => inr (fd_file e) end.

Definition set_cloexec (fd : Z) (on : bool) (t : FdTable) : KResult unit * FdTable :=
  if fd <? 0 then (inl EBADF, t)
  else match slot t fd with
       | Some e => (inr tt, mkTable (<[Z.to_nat fd := Some (mkFd (fd_file e) on)]> (slots t)))
       | None => (inl EBADF, t)
       end.

Definition close_fd (fd : Z) (t : FdTable) : KResult F * FdTable :=
  if fd <? 0 then (inl EBADF, t)
  else match slot t fd with
       | Some e => (inr (fd_file e), mkTable (<[Z.to_nat fd := None]> (slots t)))
       | None => (inl EBADF, t)
       end.

Definition dup2 (old new : Z) (t : FdTable) : KResult Z * FdTable :=
  match get_fd old t with
  | inl e => (inl e, t)
  | inr f =>
      if (new <? 0) || (MAX_FDS <=? new) then (inl EBADF, t)
      else (inr new, if negb (old =? new) then set_fd new f false t else t)
  end.

Definition close_on_exec (t : FdTable) : FdTable :=
  mkTable ((λ s, match s with Some e => if cloexec e then None else s | None => None end) <$> slots t).

Definition fd_count (t : FdTable) : nat := length (filter is_Some (slots t)).
Definition clear_fds (t : FdTable) : FdTable := mkTable [].

(** ** Specification: a finite map *)

Inductive FdOp :=
  | OAlloc (f : F) (ce : bool) (min : Z)
  | OGet (fd : Z)
  | OCloexec (fd : Z) (on : bool)
  | OClose (fd : Z)
  | ODup2 (old new : Z)
  | OExec
  | OClear.

Inductive FdAns := ANum (r : KResult Z) | AFile (r : KResult F) | AUnit (r : KResult unit).

Definition run_fd (o : FdOp) (t : FdTable) : FdAns * FdTable :=
  match o with
  | OAlloc f ce min => let r := alloc_fd f ce min t in (ANum r.1, r.2)
  | OGet fd => (AFile (get_fd fd t), t)
  | OCloexec fd on => let r := set_cloexec fd on t in (AUnit r.1, r.2)
  | OClose fd => let r := close_fd fd t in (AFile r.1, r.2)
  | ODup2 old new => let r := dup2 old new t in (ANum r.1, r.2)
  | OExec => (AUnit (inr tt), close_on_exec t)
  | OClear => (AUnit (inr tt), clear_fds t)
  end.

Fixpoint run_fds (os : list FdOp) (t : FdTable) : list FdAns * FdTable :=
  match os with
  | [] => ([], t)
  | o :: os => let r := run_fd o t in let rs := run_fds os r.2 in (r.1 :: rs.1, rs.2)
  end.

(** The callers' arguments: [min] is unsigned. *)
Definition fd_arg (o : FdOp) : Prop := match o with OAlloc _ _ min => 0 ≤ min | _ => True end.

Inductive fd_spec : gmap Z FdEntry → FdOp → FdAns → gmap Z FdEntry → Prop :=
  | spec_alloc m f ce min fd : min ≤ fd < MAX_FDS → m !! fd = None → (∀ j, min ≤ j < fd → is_Some (m !! j)) →
      fd_spec m (OAlloc f ce min) (ANum (inr fd)) (<[fd := mkFd f ce]> m)
  | spec_full m f ce min : (∀ j, min ≤ j < MAX_FDS → is_Some (m !! j)) → fd_spec m (OAlloc f ce min) (ANum (inl EMFILE)) m
  | spec_get m fd e : m !! fd = Some e → fd_spec m (OGet fd) (AFile (inr (fd_file e))) m
  | spec_get_bad m fd : m !! fd = None → fd_spec m (OGet fd) (AFile (inl EBADF)) m
  | spec_cloexec m fd on e : m !! fd = Some e → fd_spec m (OCloexec fd on) (AUnit (inr tt)) (<[fd := mkFd (fd_file e) on]> m)
  | spec_cloexec_bad m fd on : m !! fd = None → fd_spec m (OCloexec fd on) (AUnit (inl EBADF)) m
  | spec_close m fd e : m !! fd = Some e → fd_spec m (OClose fd) (AFile (inr (fd_file e))) (delete fd m)
  | spec_close_bad m fd : m !! fd = None → fd_spec m (OClose fd) (AFile (inl EBADF)) m
  | spec_dup2 m old new e : m !! old = Some e → 0 ≤ new < MAX_FDS → old ≠ new →
      fd_spec m (ODup2 old new) (ANum (inr new)) (<[new := mkFd (fd_file e) false]> m)
  | spec_dup2_same m fd e : m !! fd = Some e → fd < MAX_FDS → fd_spec m (ODup2 fd fd) (ANum (inr fd)) m
  | spec_dup2_bad m old new : m !! old = None ∨ new < 0 ∨ MAX_FDS ≤ new → fd_spec m (ODup2 old new) (ANum (inl EBADF)) m
  | spec_exec m : fd_spec m OExec (AUnit (inr tt)) (filter (λ p, cloexec p.2 = false) m)
  | spec_clear m : fd_spec m OClear (AUnit (inr tt)) ∅.

Inductive fd_specs : gmap Z FdEntry → list FdOp → list FdAns → gmap Z FdEntry → Prop :=
  | specs_nil m : fd_specs m [] [] m
  | specs_cons m o a m' os rs m'' : fd_spec m o a m' → fd_specs m' os rs m'' → fd_specs m (o :: os) (a :: rs) m''.

(** ** Simulation *)

Record fd_rel (t : FdTable) (m : gmap Z FdEntry) : Prop := {
  fr_len : (length (slots t) <= Z.to_nat MAX_FDS)%nat;
  fr_lookup : ∀ i, 0 ≤ i → m !! i = slot t i;
  fr_neg : ∀ i, i < 0 → m !! i = None;
}.

Lemma slot_insert l i j (s : option FdEntry) : 0 ≤ i → 0 ≤ j → (Z.to_nat i < length l)%nat →
  slot (mkTable (<[Z.to_nat i := s]> l)) j = if decide (i = j) then s else slot (mkTable l) j.
Proof.
  intros Hi Hj Hl. unfold slot. simpl. case_decide as E; [subst; by rewrite list_lookup_insert_eq|].
  rewrite list_lookup_insert_ne by lia. done.
Qed.

Lemma slot_lt t i e : slot t i = Some e → (Z.to_nat i < length (slots t))%nat.
Proof. unfold slot. destruct (slots t !! Z.to_nat i) eqn:E; [|done]. intros _. by eapply lookup_lt_Some. Qed.

(** Writing an existing slot is an insertion or a deletion of the map. *)
Lemma fd_rel_update t m i s : fd_rel t m → 0 ≤ i → (Z.to_nat i < length (slots t))%nat →
  fd_rel (mkTable (<[Z.to_nat i := s]> (slots t))) (partial_alter (λ _, s) i m).
Proof.
  intros [R1 R2 R3] Hi Hl. split; simpl.
  - by rewrite length_insert.
  - intros j Hj. rewrite slot_insert by done. case_decide as E; [subst; by rewrite lookup_partial_alter_eq|].
    rewrite lookup_partial_alter_ne by done. by apply R2.
  - intros j Hj. rewrite lookup_partial_alter_ne by lia. by apply R3.
Qed.

Lemma fd_rel_resize t m n : fd_rel t m → (length (slots t) + n <= Z.to_nat MAX_FDS)%nat →
  fd_rel (mkTable (slots t ++ replicate n None)) m.
Proof.
  intros [R1 R2 R3] Hn. split; simpl; [rewrite length_app, length_replicate; lia| |done].
  intros i Hi. rewrite R2 by done. unfold slot. simpl.
  destruct (decide (Z.to_nat i < length (slots t))%nat); [by rewrite lookup_app_l|].
  rewrite lookup_app_r by lia. rewrite (lookup_ge_None_2 (slots t)) by lia.
  destruct (replicate n None !! _) as [s|] eqn:E; [|done]. by apply lookup_replicate in E as [-> _].
Qed.

Lemma fd_rel_set t m fd f ce : fd_rel t m → 0 ≤ fd < MAX_FDS →
  fd_rel (set_fd fd f ce t) (<[fd := mkFd f ce]> m).
Proof.
  intros R Hfd. unfold set_fd. destruct (Nat.leb_spec (length (slots t)) (Z.to_nat fd)).
  - set (n := (S (Z.to_nat fd) - length (slots t))%nat).
    apply (fd_rel_update (mkTable (slots t ++ replicate n None)) m fd (Some (mkFd f ce))); [|lia|].
    + apply fd_rel_resize; [done|]. lia.
    + simpl. rewrite length_app, length_replicate. lia.
  - apply (fd_rel_update t m fd (Some (mkFd f ce))); [done|lia|done].
Qed.

Lemma find_free_spec n : ∀ i t,
  match find_free n i t with
  | Some fd => i ≤ fd < i + Z.of_nat n ∧ slot t fd = None ∧ ∀ j, i ≤ j < fd → slot t j ≠ None
  | None => ∀ j, i ≤ j < i + Z.of_nat n → slot t j ≠ None
  end.
Proof.
  induction n as [|n IH]; intros i t; simpl; [lia|].
  case_bool_decide as E; [split; [lia|]; split; [done|lia]|].
  specialize (IH (i + 1) t). destruct (find_free n (i + 1) t) as [fd|].
  - destruct IH as (H1 & H2 & H3). split; [lia|]. split; [done|]. intros j Hj.
    destruct (decide (j = i)) as [->|]; [done|]. apply H3. lia.
  - intros j Hj. destruct (decide (j = i)) as [->|]; [done|]. apply IH. lia.
Qed.

Lemma fd_alloc_refines t m f ce min : fd_rel t m → 0 ≤ min →
  ∃ m', fd_spec m (OAlloc f ce min) (ANum (alloc_fd f ce min t).1) m' ∧ fd_rel (alloc_fd f ce min t).2 m'.
Proof.
  intros R Hmin. unfold alloc_fd. pose proof (find_free_spec (Z.to_nat (MAX_FDS - min)) min t) as Hf.
  destruct (find_free _ _ _) as [fd|]; simpl.
  - destruct Hf as (H1 & H2 & H3). exists (<[fd := mkFd f ce]> m). split; [|apply fd_rel_set; [done|lia]].
    apply spec_alloc; [lia| |].
    + rewrite (fr_lookup _ _ R) by lia. done.
    + intros j Hj. rewrite (fr_lookup _ _ R) by lia. apply not_eq_None_Some, H3. done.
  - exists m. split; [|done]. apply spec_full. intros j Hj. rewrite (fr_lookup _ _ R) by lia.
    apply not_eq_None_Some, Hf. lia.
Qed.

(** What the map holds at any number, negative ones included. *)
Lemma fd_entry_lookup t m fd : fd_rel t m →
  fd_entry fd t = match m !! fd with Some e => inr e | None => inl EBADF end.
Proof.
  intros R. unfold fd_entry. destruct (Z.ltb_spec fd 0).
  - by rewrite (fr_neg _ _ R).
  - rewrite (fr_lookup _ _ R) by lia. by destruct (slot t fd).
Qed.

Lemma fd_exec_refines t m : fd_rel t m → fd_rel (close_on_exec t) (filter (λ p, cloexec p.2 = false) m).
Proof.
  intros [R1 R2 R3]. split; unfold close_on_exec; simpl; [by rewrite length_fmap| |].
  - intros i Hi. unfold slot at 1; simpl. rewrite list_lookup_fmap. rewrite map_lookup_filter, R2 by done.
    unfold slot. destruct (slots t !! Z.to_nat i) as [[e|]|]; simpl; try done.
    destruct (cloexec e) eqn:E; simpl; rewrite ?E; reflexivity.
  - intros i Hi. rewrite map_lookup_filter, R3 by done. done.
Qed.

Lemma fd_step_refines o t m : fd_arg o → fd_rel t m →
  ∃ m', fd_spec m o (run_fd o t).1 m' ∧ fd_rel (run_fd o t).2 m'.
Proof.
  intros Ho R. destruct o as [f ce min|fd|fd on|fd|old new| |]; simpl.
  - by apply fd_alloc_refines.
  - exists m. split; [|done]. unfold get_fd. rewrite (fd_entry_lookup _ _ _ R).
    destruct (m !! fd) eqn:E; [by apply spec_get|by apply spec_get_bad].
  - unfold set_cloexec. destruct (Z.ltb_spec fd 0); [exists m; split; [apply spec_cloexec_bad; by apply R|done]|].
    rewrite <- (fr_lookup _ _ R) by lia. destruct (m !! fd) as [e|] eqn:E; simpl.
    + eexists. split; [by apply spec_cloexec|]. apply (fd_rel_update t m fd (Some (mkFd (fd_file e) on))); [done|lia|].
      eapply slot_lt. rewrite <- (fr_lookup _ _ R) by lia. done.
    + exists m. split; [by apply spec_cloexec_bad|done].
  - unfold close_fd. destruct (Z.ltb_spec fd 0); [exists m; split; [apply spec_close_bad; by apply R|done]|].
    rewrite <- (fr_lookup _ _ R) by lia. destruct (m !! fd) as [e|] eqn:E; simpl.
    + eexists. split; [by apply spec_close|]. apply (fd_rel_update t m fd None); [done|lia|].
      eapply slot_lt. rewrite <- (fr_lookup _ _ R) by lia. done.
    + exists m. split; [by apply spec_close_bad|done].
  - unfold dup2, get_fd. rewrite (fd_entry_lookup _ _ _ R). destruct (m !! old) as [e|] eqn:E; simpl.
    2:{ exists m. split; [by apply spec_dup2_bad; left|done]. }
    destruct (Z.ltb_spec new 0); simpl; [exists m; split; [apply spec_dup2_bad; auto|done]|].
    destruct (Z.leb_spec MAX_FDS new); simpl; [exists m; split; [apply spec_dup2_bad; auto|done]|].
    destruct (Z.eqb_spec old new) as [->|]; simpl.
    + exists m. split; [by eapply spec_dup2_same|done].
    + eexists. split; [by eapply spec_dup2|]. by apply fd_rel_set.
  - eexists. split; [apply spec_exec|]. by apply fd_exec_refines.
  - eexists. split; [apply spec_clear|]. split; simpl; [lia|intros; unfold slot; by rewrite lookup_empty|done].
Qed.

Lemma fd_new_rel : fd_rel new_table ∅.
Proof. split; simpl; [lia|intros; unfold slot; by rewrite lookup_empty|done]. Qed.

(** C31. A descriptor table refines a finite map: for every sequence of calls on a
    new table, the answers are those of a map from descriptors to open files in
    which [alloc] takes the lowest free number from its minimum on, [EMFILE] and
    [EBADF] are returned exactly where the map says, and at most [MAX_FDS]
    slots exist. *)
Theorem fd_table_refines os : Forall fd_arg os →
  ∃ m, fd_specs ∅ os (run_fds os new_table).1 m ∧ fd_rel (run_fds os new_table).2 m.
Proof.
  assert (H : ∀ t m, fd_rel t m → Forall fd_arg os →
    ∃ m', fd_specs m os (run_fds os t).1 m' ∧ fd_rel (run_fds os t).2 m').
  { induction os as [|o os IH]; intros t m R Ho; simpl; [eexists; by split; [constructor|]|].
    apply Forall_cons in Ho as [Ho Hos]. destruct (fd_step_refines o t m Ho R) as (m1 & S1 & R1).
    destruct (IH _ _ R1 Hos) as (m2 & S2 & R2). exists m2. split; [|done]. by econstructor. }
  apply H, fd_new_rel.
Qed.

End FdTable.
Arguments FdEntry : clear implicits.
Arguments FdTable : clear implicits.
Arguments FdOp : clear implicits.
Arguments FdAns : clear implicits.

(** Two descriptors are taken, the first is closed and its number used again. *)
Lemma fd_table_refines_witness :
  let os := [OAlloc 10 false 0; OAlloc 11 true 0; OClose 0; OAlloc 12 false 0; OExec; OGet 1; ODup2 0 5] in
  (run_fds os new_table).1 =
    [ANum (inr 0); ANum (inr 1); AFile (inr 10); ANum (inr 0); AUnit (inr tt); AFile (inl EBADF); ANum (inr 5)] ∧
  ∃ m, fd_specs ∅ os (run_fds os new_table).1 m ∧ fd_rel (run_fds os new_table).2 m.
Proof.
  intros os. split; [reflexivity|]. apply (fd_table_refines os). repeat (apply Forall_cons; split; [simpl; lia || exact I|]).
  apply Forall_nil. exact I.
Defined.
