(* ===== verification/Arith.v ===== *)
(** * Shell arithmetic

    Models [lib/sh/src/arith.rs], the evaluator of [$(( ... ))]: the lexer, number
    literals, and the precedence-climbing parser that evaluates as it parses.
    Text is the list of its characters; the variables are an interface. *)

From Stdlib Require Import Strings.String.
From S2P Require Import Prelude Text.

(** The trait [Vars]. *)
Class Vars (V : Type) := {
  vget : V → list Z → option (list Z);
  vset : V → list Z → list Z → V;
}.

(** ** 64-bit signed integers *)

Definition I64_MIN : Z := - 2 ^ 63.
Definition I64_MAX : Z := 2 ^ 63 - 1.
Definition wrap (n : Z) : Z := (n + 2 ^ 63) mod 2 ^ 64 - 2 ^ 63.

(** [wrapping_pow], by squaring. *)
Fixpoint wpow (a : Z) (p : positive) : Z :=
  match p with
  | xH => a
  | xO p => wpow (wrap (a * a)) p
  | xI p => wrap (a * wpow (wrap (a * a)) p)
  end.
Definition wrapping_pow (a n : Z) : Z := match n with Zpos p => wpow a p | _ => 1 end.

(** ** Tokens *)

Inductive AOp :=
  | OShlEq | OShrEq | OPow | OShl | OShr | OLe | OGe | OEq | ONe | OAnd | OOr
  | OAddEq | OSubEq | OMulEq | ODivEq | ORemEq | OBandEq | OBorEq | OXorEq | OInc | ODec
  | OAdd | OSub | OMul | ODiv | ORem | OLt | OGt | OBand | OBor | OXor
  | ONot | OCompl | OQuest | OColon | OAssign | OComma.

#[export] Instance AOp_eq_dec : EqDecision AOp.
Proof. solve_decision. Defined.

Definition op_text (o : AOp) : list Z :=
  txt match o with
  | OShlEq => "<<=" | OShrEq => ">>=" | OPow => "**" | OShl => "<<" | OShr => ">>" | OLe => "<=" | OGe => ">="
  | OEq => "==" | ONe => "!=" | OAnd => "&&" | OOr => "||" | OAddEq => "+=" | OSubEq => "-=" | OMulEq => "*="
  | ODivEq => "/=" | ORemEq => "%=" | OBandEq => "&=" | OBorEq => "|=" | OXorEq => "^=" | OInc => "++" | ODec => "--"
  | OAdd => "+" | OSub => "-" | OMul => "*" | ODiv => "/" | ORem => "%" | OLt => "<" | OGt => ">" | OBand => "&"
  | OBor => "|" | OXor => "^" | ONot => "!" | OCompl => "~" | OQuest => "?" | OColon => ":" | OAssign => "=" | OComma => ","
  end%string.

Definition OPS : list AOp :=
  [OShlEq; OShrEq; OPow; OShl; OShr; OLe; OGe; OEq; ONe; OAnd; OOr; OAddEq; OSubEq; OMulEq; ODivEq; ORemEq; OBandEq;
   OBorEq; OXorEq; OInc; ODec; OAdd; OSub; OMul; ODiv; ORem; OLt; OGt; OBand; OBor; OXor; ONot; OCompl; OQuest; OColon;
   OAssign; OComma].

Inductive Tok := TNum (n : Z) | TName (n : list Z) | TOp (o : AOp) | TLParen | TRParen.

#[export] Instance Tok_eq_dec : EqDecision Tok.
Proof. solve_decision. Defined.

(** The error messages. *)
Inductive AErr :=
  | InvalidOperator (rest : list Z)
  | ValueTooGreat (t : list Z)
  | InvalidNumber (v : list Z)
  | OperandExpected (t : option Tok)
  | MissingParen
  | VariableExpected
  | ColonExpected
  | DivisionByZero
  | ExponentNegative
  | UnknownOperator (o : AOp)
  | SyntaxError (src : list Z).

(** ** Numbers *)

Definition to_digit (radix c : Z) : option Z :=
  let d := if is_ascii_digit c then c - 48
           else if is_ascii_lower c then c - 87 else if is_ascii_upper c then c - 55 else radix in
  if d <? radix then Some d else None.

(** Digits after the sign, with every intermediate value in range. *)
Fixpoint radix_digits (radix : Z) (neg : bool) (acc : Z) (l : list Z) : option Z :=
  match l with
  | [] => Some acc
  | c :: l =>
      d ← to_digit radix c;
      let acc' := if neg then acc * radix - d else acc * radix + d in
      if (I64_MIN <=? acc') && (acc' <=? I64_MAX) then radix_digits radix neg acc' l else None
  end.

(** [i64::from_str_radix]. *)
Definition from_str_radix (radix : Z) (l : list Z) : option Z :=
  match l with
  | [] => None
  | c :: l' =>
      if (c =? 43) || (c =? 45) then
        match l' with [] => None | _ => radix_digits radix (c =? 45) 0 l' end
      else radix_digits radix false 0 l
  end.

(** [split_once('#')]. *)
Fixpoint split_hash (l : list Z) : option (list Z * list Z) :=
  match l with
  | [] => None
  | c :: l => if c =? 35 then Some ([], l) else r ← split_hash l; Some (c :: r.1, r.2)
  end.

Definition or_bad (t : list Z) (o : option Z) : AErr + Z := match o with Some n => inr n | None => inl (ValueTooGreat t) end.

Definition parse_num (t : list Z) : AErr + Z :=
  match (match strip_prefix (txt "0x") t with Some h => Some h | None => strip_prefix (txt "0X") t end) with
  | Some h => or_bad t (from_str_radix 16 h)
  | None =>
      match split_hash t with
      | Some (base, digits) =>
          match parse_uint (U32 - 1) base with
          | Some b => if between 2 b 36 then or_bad t (from_str_radix b digits) else inl (ValueTooGreat t)
          | None => inl (ValueTooGreat t)
          end
      | None =>
          if (1 <? length t)%nat && starts_with (txt "0") t then or_bad t (from_str_radix 8 (tail t))
          else or_bad t (from_str_radix 10 t)
      end
  end.

(** ** The lexer *)

Definition is_ascii_alphabetic (c : Z) : bool := is_ascii_lower c || is_ascii_upper c.
Definition is_ascii_alphanumeric (c : Z) : bool := is_ascii_alphabetic c || is_ascii_digit c.

(** The longest prefix whose characters satisfy [p], and the rest. *)
Fixpoint span (p : Z → bool) (l : list Z) : list Z * list Z :=
  match l with
  | [] => ([], [])
  | c :: l' => if p c then let r := span p l' in (c :: r.1, r.2) else ([], l)
  end.

Definition num_char (c : Z) : bool := is_ascii_alphanumeric c || (c =? 35).
Definition name_char (c : Z) : bool := (c =? 95) || is_ascii_alphanumeric c.

Definition find_op (rest : list Z) : option AOp :=
  snd <$> list_find (λ o, starts_with (op_text o) rest = true) OPS.

(** [lex] on the characters that are left, which get fewer with every token. *)
Fixpoint lex_go (fuel : nat) (c : list Z) (out : list Tok) : option (AErr + list Tok) :=
  match fuel with
  | O => None
  | S fuel =>
      match c with
      | [] => Some (inr out)
      | ch :: c' =>
          if is_whitespace ch then lex_go fuel c' out
          else if is_ascii_digit ch then
            let r := span num_char c in
            match parse_num r.1 with
            | inl e => Some (inl e)
            | inr n => lex_go fuel r.2 (out ++ [TNum n])
            end
          else if (ch =? 95) || is_ascii_alphabetic ch then
            let r := span name_char c in lex_go fuel r.2 (out ++ [TName r.1])
          else if ch =? 36 then lex_go fuel c' out
          else if ch =? 40 then lex_go fuel c' (out ++ [TLParen])
          else if ch =? 41 then lex_go fuel c' (out ++ [TRParen])
          else
            let rest := take 3 c in
            match find_op rest with
            | None => Some (inl (InvalidOperator rest))
            | Some op => lex_go fuel (drop (length (op_text op)) c) (out ++ [TOp op])
            end
      end
  end.

Definition lex (s : list Z) : option (AErr + list Tok) := lex_go (S (length s)) s [].

(** ** Operators *)

(** Precedence and right associativity. *)
Definition binding (o : AOp) : option (Z * bool) :=
  match o with
  | OComma => Some (1, false)
  | OAssign | OAddEq | OSubEq | OMulEq | ODivEq | ORemEq | OShlEq | OShrEq | OBandEq | OBorEq | OXorEq => Some (2, true)
  | OQuest => Some (3, true)
  | OOr => Some (4, false)
  | OAnd => Some (5, false)
  | OBor => Some (6, false)
  | OXor => Some (7, false)
  | OBand => Some (8, false)
  | OEq | ONe => Some (9, false)
  | OLt | OGt | OLe | OGe => Some (10, false)
  | OShl | OShr => Some (11, false)
  | OAdd | OSub => Some (12, false)
  | OMul | ODiv | ORem => Some (13, false)
  | OPow => Some (14, true)
  | ONot | OCompl | OColon | OInc | ODec => None
  end.

(** [&op[..op.len() - 1]] of a compound assignment. *)
Definition base_op (o : AOp) : AOp :=
  match o with
  | OAddEq => OAdd | OSubEq => OSub | OMulEq => OMul | ODivEq => ODiv | ORemEq => ORem | OShlEq => OShl | OShrEq => OShr
  | OBandEq => OBand | OBorEq => OBor | OXorEq => OXor | o => o
  end.

Definition apply (op : AOp) (a b : Z) : AErr + Z :=
  match op with
  | OAdd => inr (wrap (a + b))
  | OSub => inr (wrap (a - b))
  | OMul => inr (wrap (a * b))
  | ODiv => if b =? 0 then inl DivisionByZero else inr (wrap (Z.quot a b))
  | ORem => if b =? 0 then inl DivisionByZero else inr (wrap (Z.rem a b))
  | OPow => if b <? 0 then inl ExponentNegative else inr (wrapping_pow a (Z.min b (U32 - 1)))
  | OShl => inr (wrap (Z.shiftl a ((b mod U32) mod 64)))
  | OShr => inr (Z.shiftr a ((b mod U32) mod 64))
  | OLt => inr (Z.b2z (a <? b))
  | OGt => inr (Z.b2z (b <? a))
  | OLe => inr (Z.b2z (a <=? b))
  | OGe => inr (Z.b2z (b <=? a))
  | OEq => inr (Z.b2z (a =? b))
  | ONe => inr (Z.b2z (negb (a =? b)))
  | OBand => inr (Z.land a b)
  | OBor => inr (Z.lor a b)
  | OXor => inr (Z.lxor a b)
  | OComma => inr b
  | _ => inl (UnknownOperator op)
  end.

(** [i64::to_string]. *)
Definition i64_string (n : Z) : list Z := if n <? 0 then 45 :: dec (- n) else dec n.

(** ** The parser *)

Section Parser.
Context {V : Type} `{Vars V}.

Record P := mkP { toks : list Tok; pos : nat; vars : V; live : bool }.

Definition peek (p : P) : option Tok := toks p !! pos p.
Definition advance (n : nat) (p : P) : P := mkP (toks p) (pos p + n) (vars p) (live p).
Definition set_live (b : bool) (p : P) : P := mkP (toks p) (pos p) (vars p) b.
Definition set_vars (v : V) (p : P) : P := mkP (toks p) (pos p) v (live p).

Definition var (n : list Z) (v : V) : AErr + Z :=
  match vget v n with
  | None => inr 0
  | Some s =>
      if bool_decide (trim s = []) then inr 0
      else match parse_num (trim s) with inl _ => inl (InvalidNumber s) | inr n => inr n end
  end.

Definition assign (n : list Z) (k : Z) : Exec P unit :=
  modify (λ p, if live p then set_vars (vset (vars p) n (i64_string k)) p else p).

Definition lift {A} (r : AErr + A) : Exec P (AErr + A) := mret r.

Definition var_m (n : list Z) : Exec P (AErr + Z) := v ← gets vars; lift (var n v).

Definition step_value (op : AOp) (v : Z) : Z := if bool_decide (op = OInc) then wrap (v + 1) else wrap (v - 1).

(** [primary], [expr] and the loop of [expr]; [unary] is [primary].  [None] is
    running out of fuel. *)
Fixpoint primary (fuel : nat) : Exec P (AErr + Z) :=
  match fuel with
  | O => panic
  | S fuel =>
      t ← gets peek;
      match t with
      | None => lift (inl (OperandExpected None))
      | Some tok =>
          _ ← modify (advance 1);
          match tok with
          | TNum n => lift (inr n)
          | TLParen =>
              v ←? expr fuel 0;
              t ← gets peek;
              if bool_decide (t = Some TRParen) then _ ← modify (advance 1); lift (inr v)
              else lift (inl MissingParen)
          | TName n =>
              t ← gets peek;
              match t with
              | Some (TOp (OInc as op)) | Some (TOp (ODec as op)) =>
                  _ ← modify (advance 1);
                  v ←? var_m n;
                  _ ← assign n (step_value op v);
                  lift (inr v)
              | _ => var_m n
              end
          | TOp OSub => v ←? primary fuel; lift (inr (wrap (- v)))
          | TOp OAdd => primary fuel
          | TOp ONot => v ←? primary fuel; lift (inr (Z.b2z (v =? 0)))
          | TOp OCompl => v ←? primary fuel; lift (inr (Z.lnot v))
          | TOp (OInc as op) | TOp (ODec as op) =>
              t ← gets peek;
              match t with
              | Some (TName n) =>
                  _ ← modify (advance 1);
                  v ←? var_m n;
                  _ ← assign n (step_value op v);
                  lift (inr (step_value op v))
              | _ => lift (inl VariableExpected)
              end
          | TOp o => lift (inl (OperandExpected (Some (TOp o))))
          | TRParen => lift (inl (OperandExpected (Some TRParen)))
          end
      end
  end
with expr (fuel : nat) (min : Z) : Exec P (AErr + Z) :=
  match fuel with
  | O => panic
  | S fuel =>
      p ← get;
      let plain := lhs ←? primary fuel; expr_loop fuel min lhs in
      match toks p !! pos p, toks p !! (pos p + 1)%nat with
      | Some (TName n), Some (TOp op) =>
          match binding op with
          | Some (2, _) =>
              if min <=? 2 then
                _ ← modify (advance 2);
                rhs ←? expr fuel 2;
                v ←? (if bool_decide (op = OAssign) then lift (inr rhs)
                      else old ←? var_m n; lift (apply (base_op op) old rhs));
                _ ← assign n v;
                lift (inr v)
              else plain
          | _ => plain
          end
      | _, _ => plain
      end
  end
with expr_loop (fuel : nat) (min lhs : Z) : Exec P (AErr + Z) :=
  match fuel with
  | O => panic
  | S fuel =>
      t ← gets peek;
      match t with
      | Some (TOp op) =>
          match binding op with
          | None => lift (inr lhs)
          | Some (prec, rassoc) =>
              if (prec <? min) || (prec =? 2) then lift (inr lhs)
              else
                _ ← modify (advance 1);
                saved ← gets live;
                let next_min := if rassoc : bool then prec else prec + 1 in
                match op with
                | OQuest =>
                    _ ← modify (set_live (saved && negb (lhs =? 0)));
                    a ←? expr fuel 0;
                    t ← gets peek;
                    if bool_decide (t = Some (TOp OColon)) then
                      _ ← modify (advance 1);
                      _ ← modify (set_live (saved && (lhs =? 0)));
                      b ←? expr fuel 3;
                      _ ← modify (set_live saved);
                      expr_loop fuel min (if negb (lhs =? 0) then a else b)
                    else lift (inl ColonExpected)
                | OAnd | OOr =>
                    let short := if bool_decide (op = OAnd) then lhs =? 0 else negb (lhs =? 0) in
                    _ ← modify (set_live (saved && negb short));
                    rhs ←? expr fuel next_min;
                    _ ← modify (set_live saved);
                    expr_loop fuel min
                      (Z.b2z (if bool_decide (op = OAnd) then negb (lhs =? 0) && negb (rhs =? 0)
                              else negb (lhs =? 0) || negb (rhs =? 0)))
                | _ =>
                    rhs ←? expr fuel next_min;
                    v ←? lift (apply op lhs rhs);
                    expr_loop fuel min v
                end
          end
      | _ => lift (inr lhs)
      end
  end.

(** Fuel for a list of tokens: three calls for each. *)
Definition parse_fuel (t : list Tok) : nat := 3 * length t + 2.

Definition eval (src : list Z) (vs : V) : option ((AErr + Z) * V) :=
  r ← lex src;
  match r with
  | inl e => Some (inl e, vs)
  | inr [] => Some (inr 0, vs)
  | inr t =>
      '(r, p) ← expr (parse_fuel t) 0 (mkP t 0 vs true);
      Some (match r with
            | inl e => inl e
            | inr v => if bool_decide (pos p = length t) then inr v else inl (SyntaxError src)
            end, vars p)
  end.
End Parser.
Arguments P : clear implicits.
