(* ===== verification/ArithProofs.v ===== *)
(** * Shell arithmetic: theorems

    Every expression evaluates, without a panic, to an error or a 64-bit value;
    skipped branches assign nothing; and the parser gives the operators of the
    language their precedence and associativity. *)

From Stdlib Require Import Strings.String.
From S2P Require Import Prelude Text Arith.

(** ** Values are 64-bit integers *)

Definition in_i64 (n : Z) : Prop := I64_MIN ≤ n ≤ I64_MAX.

Lemma wrap_in_i64 n : in_i64 (wrap n).
Proof. unfold in_i64, wrap, I64_MIN, I64_MAX. pose proof (Z.mod_pos_bound (n + 2 ^ 63) (2 ^ 64)). lia. Qed.

Lemma wrap_id n : in_i64 n → wrap n = n.
Proof. unfold in_i64, wrap, I64_MIN, I64_MAX. intros. rewrite Z.mod_small by lia. lia. Qed.

Lemma b2z_i64 b : in_i64 (Z.b2z b).
Proof. unfold in_i64, I64_MIN, I64_MAX. destruct b; simpl; lia. Qed.

(** The bits from the sign bit up are all equal. *)
Lemma i64_high n : in_i64 n ↔ Z.shiftr n 63 = 0 ∨ Z.shiftr n 63 = -1.
Proof.
  unfold in_i64, I64_MIN, I64_MAX. rewrite Z.shiftr_div_pow2 by lia.
  pose proof (Z.div_mod n (2 ^ 63)). pose proof (Z.mod_pos_bound n (2 ^ 63)). split; intros; lia.
Qed.

Lemma land_i64 a b : in_i64 a → in_i64 b → in_i64 (Z.land a b).
Proof. rewrite !i64_high, Z.shiftr_land. intros [->| ->] [->| ->]; auto. Qed.
Lemma lor_i64 a b : in_i64 a → in_i64 b → in_i64 (Z.lor a b).
Proof. rewrite !i64_high, Z.shiftr_lor. intros [->| ->] [->| ->]; auto. Qed.
Lemma lxor_i64 a b : in_i64 a → in_i64 b → in_i64 (Z.lxor a b).
Proof. rewrite !i64_high, Z.shiftr_lxor. intros [->| ->] [->| ->]; auto. Qed.
Lemma lnot_i64 a : in_i64 a → in_i64 (Z.lnot a).
Proof. unfold in_i64, I64_MIN, I64_MAX, Z.lnot. lia. Qed.

Lemma shiftr_i64 a k : 0 ≤ k → in_i64 a → in_i64 (Z.shiftr a k).
Proof.
  intros Hk. rewrite !i64_high, Z.shiftr_shiftr, Z.add_comm, <- Z.shiftr_shiftr by lia.
  intros [->| ->]; [left|right]; [apply Z.shiftr_0_l|].
  rewrite Z.shiftr_div_pow2 by done. pose proof (Z.pow_pos_nonneg 2 k). symmetry; apply Z.div_unique with (2 ^ k - 1); lia.
Qed.

Lemma wpow_i64 p : ∀ a, in_i64 a → in_i64 (wpow a p).
Proof. induction p; intros a Ha; simpl; auto using wrap_in_i64. Qed.

Lemma wrap_mod n : ∃ k, wrap n = n + k * 2 ^ 64.
Proof. unfold wrap. exists (- ((n + 2 ^ 63) / 2 ^ 64)). pose proof (Z.div_mod (n + 2 ^ 63) (2 ^ 64)). lia. Qed.

Lemma wrap_cong a b k : a = b + k * 2 ^ 64 → wrap a = wrap b.
Proof. intros ->. unfold wrap. by replace (b + k * 2 ^ 64 + 2 ^ 63) with (b + 2 ^ 63 + k * 2 ^ 64) by lia; rewrite Z.mod_add by lia. Qed.

Lemma wrap_mul_r a b : wrap (a * wrap b) = wrap (a * b).
Proof. destruct (wrap_mod b) as [k ->]. apply wrap_cong with (a * k). lia. Qed.

Lemma wrap_pow a n : 0 ≤ n → wrap (wrap a ^ n) = wrap (a ^ n).
Proof.
  intros Hn. pattern n. apply natlike_ind; [done| |done]. intros m Hm IH. rewrite !Z.pow_succ_r by done.
  rewrite <- (wrap_mul_r (wrap a)), IH, wrap_mul_r, Z.mul_comm, wrap_mul_r. f_equal. lia.
Qed.

(** [wrapping_pow] is the power modulo 2^64. *)
Lemma wpow_pow p : ∀ a, in_i64 a → wpow a p = wrap (a ^ Zpos p).
Proof.
  induction p as [p IH|p IH|]; intros a Ha; simpl wpow.
  - rewrite IH by apply wrap_in_i64. rewrite wrap_pow, wrap_mul_r by lia. f_equal.
    rewrite Pos2Z.inj_xI, Z.pow_add_r, Z.pow_1_r, Z.pow_mul_r by lia. rewrite Z.pow_2_r. lia.
  - rewrite IH by apply wrap_in_i64. rewrite wrap_pow by lia. f_equal.
    rewrite Pos2Z.inj_xO, Z.pow_mul_r by lia. by rewrite Z.pow_2_r.
  - rewrite Z.pow_1_r. by rewrite wrap_id.
Qed.

Lemma wrapping_pow_spec a n : in_i64 a → 0 ≤ n → wrapping_pow a n = wrap (a ^ n).
Proof. intros Ha Hn. destruct n; [done|by apply wpow_pow|lia]. Qed.

Lemma apply_i64 op a b v : in_i64 a → in_i64 b → apply op a b = inr v → in_i64 v.
Proof.
  intros Ha Hb. destruct op; simpl; intros E; repeat case_match; simplify_eq; auto using wrap_in_i64, b2z_i64, land_i64, lor_i64, lxor_i64.
  - rewrite wrapping_pow_spec; [apply wrap_in_i64|done|]. unfold U32. lia.
  - apply shiftr_i64; [|done]. unfold U32. apply Z.mod_pos_bound. lia.
Qed.

Lemma radix_digits_i64 radix neg l : ∀ acc v, in_i64 acc → radix_digits radix neg acc l = Some v → in_i64 v.
Proof.
  induction l as [|c l IH]; intros acc v Ha; simpl; [by intros [= <-]|].
  destruct (to_digit radix c); [|done]. simpl. case_match eqn:E; [|done]. apply IH.
  apply andb_true_iff in E as [?%Z.leb_le ?%Z.leb_le]. done.
Qed.

Lemma zero_i64 : in_i64 0.
Proof. unfold in_i64, I64_MIN, I64_MAX. lia. Qed.

Lemma from_str_radix_i64 radix l v : from_str_radix radix l = Some v → in_i64 v.
Proof. unfold from_str_radix. repeat case_match; try done; apply radix_digits_i64, zero_i64. Qed.

Lemma or_bad_i64 t radix l v : or_bad t (from_str_radix radix l) = inr v → in_i64 v.
Proof. unfold or_bad. case_match eqn:E; [|done]. intros [= <-]. by eapply from_str_radix_i64. Qed.

Lemma parse_num_i64 t v : parse_num t = inr v → in_i64 v.
Proof. unfold parse_num. repeat case_match; try done; apply or_bad_i64. Qed.

(** ** The lexer ends *)

Definition tok_ok (t : Tok) : Prop := match t with TNum n => in_i64 n | _ => True end.

Lemma span_le p l : (length (span p l).2 <= length l)%nat.
Proof. induction l as [|c l IH]; simpl; [done|]. case_match; simpl; lia. Qed.

Lemma span_lt p c l : p c = true → (length (span p (c :: l)).2 < length (c :: l))%nat.
Proof. intros Hc. simpl. rewrite Hc. simpl. pose proof (span_le p l). lia. Qed.

Lemma op_text_pos o : (0 < length (op_text o))%nat.
Proof. destruct o; vm_compute; lia. Qed.

Lemma lex_go_total fuel : ∀ c out, (length c < fuel)%nat → Forall tok_ok out →
  ∃ r, lex_go fuel c out = Some r ∧ match r with inl _ => True | inr t => Forall tok_ok t end.
Proof.
  induction fuel as [|fuel IH]; intros c out Hf Ho; [lia|]. destruct c as [|ch c']; [by eexists|].
  assert (Hout : ∀ t, tok_ok t → Forall tok_ok (out ++ [t])) by (intros; apply Forall_app; auto).
  cbn [lex_go]. simpl in Hf. destruct (is_whitespace ch); [apply IH; [lia|done]|].
  destruct (is_ascii_digit ch) eqn:Hd.
  { destruct (parse_num _) as [e|n] eqn:Hn; [by eexists|]. apply IH; [|apply Hout; by eapply parse_num_i64].
    assert (Hc : num_char ch = true) by (unfold num_char, is_ascii_alphanumeric; by rewrite Hd, orb_true_r).
    pose proof (span_lt num_char ch c' Hc) as Hs. unfold length in Hs at 2; fold (length c') in Hs. lia. }
  destruct ((ch =? 95) || is_ascii_alphabetic ch) eqn:Ha.
  { apply IH; [|by apply Hout]. assert (Hc : name_char ch = true).
    { unfold name_char, is_ascii_alphanumeric. destruct (ch =? 95); simpl in *; [done|]. by rewrite Ha. }
    pose proof (span_lt name_char ch c' Hc) as Hs. unfold length in Hs at 2; fold (length c') in Hs. lia. }
  destruct (ch =? 36); [apply IH; [lia|done]|].
  destruct (ch =? 40); [apply IH; [lia|by apply Hout]|].
  destruct (ch =? 41); [apply IH; [lia|by apply Hout]|].
  destruct (find_op _) as [op|]; [|by eexists]. apply IH; [|by apply Hout].
  rewrite length_drop. pose proof (op_text_pos op). simpl. lia.
Qed.

Lemma lex_total s : ∃ r, lex s = Some r ∧ match r with inl _ => True | inr t => Forall tok_ok t end.
Proof. apply lex_go_total; [lia|done]. Qed.

(** ** The parser ends *)

Section ParserProofs.
Context {V : Type} `{Vars V}.

Lemma var_i64 n (v : V) k : var n v = inr k → in_i64 k.
Proof.
  unfold var. repeat case_match; try done; intros [= <-]; auto using zero_i64. by eapply parse_num_i64.
Qed.

(** What a run of the parser from [p] may do: the tokens stay; with [live] off
    nothing is assigned; a value is a 64-bit integer, [live] is as before and at
    least [k] tokens were read. *)
Definition good_run (k : nat) (p : P V) (r : AErr + Z) (p' : P V) : Prop :=
  toks p' = toks p ∧ (live p = false → live p' = false ∧ vars p' = vars p) ∧ (pos p <= pos p')%nat ∧
  match r with inl _ => True | inr v => in_i64 v ∧ live p' = live p ∧ (pos p + k <= pos p')%nat end.

Definition left_over (p : P V) : nat := length (toks p) - pos p.

(** A state on the way of a run from [p]: as [good_run], but [live] may be switched
    off meanwhile. *)
Definition mid (k : nat) (p p1 : P V) : Prop :=
  toks p1 = toks p ∧ (live p = false → live p1 = false ∧ vars p1 = vars p) ∧ (pos p + k <= pos p1)%nat.

Lemma mid_refl p : mid 0 p p.
Proof. unfold mid. auto with lia. Qed.

Lemma mid_advance n k p p1 : mid k p p1 → mid (k + n) p (advance n p1).
Proof. intros (A1 & A2 & A3). split; [done|]. split; [done|]. simpl. lia. Qed.

Lemma mid_live b k p p1 : mid k p p1 → (live p = false → b = false) → mid k p (set_live b p1).
Proof. intros (A1 & A2 & A3) Hb. split; [done|]. split; [|done]. intros Hl. simpl. split; [auto|]. by apply A2. Qed.

Lemma good_inr k p p1 v : mid k p p1 → live p1 = live p → in_i64 v → good_run k p (inr v) p1.
Proof. intros (A1 & A2 & A3) Hl Hv. split; [done|]. split; [done|]. split; [lia|]. auto with lia. Qed.

Lemma good_inl k k' p p1 e : mid k p p1 → good_run k' p (inl e) p1.
Proof. intros (A1 & A2 & A3). split; [done|]. split; [done|]. split; [lia|done]. Qed.

Lemma good_weaken k k' p r p' : (k' <= k)%nat → good_run k p r p' → good_run k' p r p'.
Proof. intros Hk (A1 & A2 & A3 & A4). do 3 (split; [done|]). destruct r; [done|]. destruct A4 as (? & ? & ?). split_and!; [done..|lia]. Qed.

(** Calling [m] on the way of a run. *)
Lemma wp_call m f k k' kf p p1 :
  mid k p p1 → wp m (good_run k' p1) p1 →
  (∀ v p2, mid (k + k') p p2 → live p2 = live p1 → in_i64 v → wp (f v) (good_run kf p) p2) →
  wp (try_bind m f) (good_run kf p) p1.
Proof.
  intros (A1 & A2 & A3) Hm Hf. apply wp_try. eapply wp_mono; [exact Hm|]. intros [e|v] p2 (B1 & B2 & B3 & B4).
  - apply good_inl with k. split; [congruence|]. split; [|lia]. intros Hl. destruct (A2 Hl) as [L1 L2].
    destruct (B2 L1) as [L3 L4]. split; congruence.
  - destruct B4 as (B4 & B5 & B6). apply Hf; [|done|done]. split; [congruence|]. split; [|lia].
    intros Hl. destruct (A2 Hl) as [L1 L2]. destruct (B2 L1) as [L3 L4]. split; congruence.
Qed.

(** The last call of a run. *)
Lemma wp_tail m k k' kf p p1 :
  mid k p p1 → live p1 = live p → (kf <= k + k')%nat → wp m (good_run k' p1) p1 → wp m (good_run kf p) p1.
Proof.
  intros (A1 & A2 & A3) Hl Hk Hm. eapply wp_mono; [exact Hm|]. intros r p2 (B1 & B2 & B3 & B4).
  split; [congruence|]. split; [|split; [lia|]].
  - intros Hd. destruct (A2 Hd) as [L1 L2]. destruct (B2 L1) as [L3 L4]. split; congruence.
  - destruct r as [|v]; [done|]. destruct B4 as (B4 & B5 & B6). split; [done|]. split; [congruence|lia].
Qed.

Lemma wp_var_m n p : wp (var_m n) (good_run 0 p) p.
Proof.
  unfold var_m, lift. wp_steps. destruct (var n (vars p)) as [e|v] eqn:E.
  - apply (good_inl 0), mid_refl.
  - apply good_inr; [apply mid_refl|done|by eapply var_i64].
Qed.

Lemma wp_lift_apply op a b p : in_i64 a → in_i64 b → wp (lift (apply op a b)) (good_run 0 p) p.
Proof.
  intros Ha Hb. unfold lift. wp_steps. destruct (apply op a b) as [e|v] eqn:E.
  - apply (good_inl 0), mid_refl.
  - apply good_inr; [apply mid_refl|done|exact (apply_i64 op a b v Ha Hb E)].
Qed.

Lemma wp_assign n v k p p1 (Q : unit → P V → Prop) :
  mid k p p1 → (∀ p2, mid k p p2 → live p2 = live p1 → pos p2 = pos p1 → Q tt p2) → wp (assign n v) Q p1.
Proof.
  intros (A1 & A2 & A3) HQ. unfold assign. wp_steps. destruct (live p1) eqn:Hl; apply HQ; simpl; auto.
  - split; [done|]. split; [|done]. intros Hd. destruct (A2 Hd). congruence.
  - split; [done|]. split; [|done]. intros Hd. destruct (A2 Hd). by split.
Qed.

Lemma step_value_i64 op v : in_i64 (step_value op v).
Proof. unfold step_value. case_match; apply wrap_in_i64. Qed.

Lemma peek_lt (p : P V) t : peek p = Some t → (pos p < length (toks p))%nat.
Proof. apply lookup_lt_Some. Qed.

Lemma peek_ok (p : P V) t : Forall tok_ok (toks p) → peek p = Some t → tok_ok t.
Proof. intros Hf Hp. by eapply Forall_lookup in Hf. Qed.

(** The three functions with enough fuel for the tokens that are left. *)
Definition primary_ok (f : nat) : Prop :=
  ∀ p, Forall tok_ok (toks p) → (3 * left_over p + 1 <= f)%nat → wp (primary f) (good_run 1 p) p.
Definition expr_ok (f : nat) : Prop :=
  ∀ p min, Forall tok_ok (toks p) → (3 * left_over p + 2 <= f)%nat → wp (expr f min) (good_run 1 p) p.
Definition loop_ok (f : nat) : Prop :=
  ∀ p min lhs, Forall tok_ok (toks p) → in_i64 lhs → (3 * left_over p + 1 <= f)%nat → wp (expr_loop f min lhs) (good_run 0 p) p.

(** The fuel that is left is enough for the tokens that are left. *)
Lemma left_over_mid k p p1 : mid k p p1 → (left_over p1 <= left_over p - k)%nat.
Proof. intros (A1 & _ & A3). unfold left_over. rewrite A1. lia. Qed.

Lemma mid_ok k p p1 : mid k p p1 → Forall tok_ok (toks p) → Forall tok_ok (toks p1).
Proof. by intros (-> & _). Qed.

(** Discharges the side conditions of a recursive call: tokens and fuel. *)
Ltac fueled :=
  match goal with
  | H : mid _ ?p ?p1 |- Forall tok_ok (toks ?p1) => by apply (mid_ok _ _ _ H)
  | H : mid _ ?p ?p1 |- context [left_over ?p1] => pose proof (left_over_mid _ _ _ H); lia
  end.

Lemma primary_step f : primary_ok f → expr_ok f → primary_ok (S f).
Proof.
  intros IHp IHe p Hok Hf. cbn [primary]. wp_steps. destruct (peek p) as [tok|] eqn:Hp.
  2:{ apply wp_ret, (good_inl 0), mid_refl. }
  assert (Hn : (1 <= left_over p)%nat) by (apply peek_lt in Hp; unfold left_over; lia).
  pose proof (peek_ok _ _ Hok Hp) as Htok.
  wp_steps. pose proof (mid_advance 1 _ _ _ (mid_refl p)) as M. simpl plus in M. set (p1 := advance 1 p) in *.
  assert (L1 : live p1 = live p) by done.
  assert (Hrec : wp (primary f) (good_run 1 p1) p1) by (apply IHp; fueled).
  assert (Hun : ∀ g : Z → Z, (∀ v, in_i64 v → in_i64 (g v)) →
    wp (v ←? primary f; lift (inr (g v))) (good_run 1 p) p1).
  { intros g Hg. eapply wp_call; [exact M|exact Hrec|]. intros v p2 M2 L2 Hv. apply wp_ret.
    apply (good_weaken 2); [lia|]. apply good_inr; [done|congruence|auto]. }
  destruct tok as [n|n|op| |].
  - by apply wp_ret, good_inr.
  - wp_steps. assert (Hv : wp (var_m n) (good_run 1 p) p1) by (eapply wp_tail; [exact M|done|done|apply wp_var_m]).
    assert (Hb : ∀ op, wp (_ ← modify (advance 1); v ←? var_m n; _ ← assign n (step_value op v); lift (inr v)) (good_run 1 p) p1).
    { intros op. wp_steps. pose proof (mid_advance 1 _ _ _ M) as M2. eapply wp_call; [exact M2|apply wp_var_m|].
      intros v p2 M3 L3 Hiv. wp_steps. eapply wp_assign; [exact M3|]. intros p3 M4 L4 _. apply wp_ret.
      apply (good_weaken 2); [lia|]. apply good_inr; [done| |done]. rewrite L4, L3. done. }
    destruct (peek p1) as [[| |[]| |]|]; try exact Hv; apply Hb.
  - assert (Hpre : ∀ o, wp (t ← gets peek; match t with
        | Some (TName n) => _ ← modify (advance 1); v ←? var_m n; _ ← assign n (step_value o v); lift (inr (step_value o v))
        | _ => lift (inl VariableExpected) end) (good_run 1 p) p1).
    { intros o. wp_steps. destruct (peek p1) as [[|n| | |]|]; try by apply wp_ret, (good_inl 1).
      wp_steps. pose proof (mid_advance 1 _ _ _ M) as M2. eapply wp_call; [exact M2|apply wp_var_m|].
      intros v p2 M3 L3 Hiv. wp_steps. eapply wp_assign; [exact M3|]. intros p3 M4 L4 _. apply wp_ret.
      apply (good_weaken 2); [lia|]. apply good_inr; [done| |apply step_value_i64]. rewrite L4, L3. done. }
    destruct op; try (by apply wp_ret, (good_inl 1)); try apply Hpre.
    + eapply wp_tail; [exact M|done| |exact Hrec]. lia.
    + apply Hun. intros. apply wrap_in_i64.
    + apply (Hun (λ v, Z.b2z (v =? 0))). intros. apply b2z_i64.
    + apply Hun. apply lnot_i64.
  - eapply wp_call; [exact M|apply IHe; fueled|]. intros v p2 M2 L2 Hv. wp_steps.
    case_bool_decide; [|by apply wp_ret, (good_inl 2)]. wp_steps. apply wp_ret.
    apply (good_weaken 3); [lia|]. apply good_inr; [by apply (mid_advance 1) in M2|by rewrite <- L1, <- L2|done].
  - by apply wp_ret, (good_inl 1).
Qed.

Lemma expr_step f : primary_ok f → expr_ok f → loop_ok f → expr_ok (S f).
Proof.
  intros IHp IHe IHl p min Hok Hf. cbn [expr]. wp_steps.
  assert (Hplain : wp (lhs ←? primary f; expr_loop f min lhs) (good_run 1 p) p).
  { eapply wp_call; [apply mid_refl|apply IHp; [done|lia]|]. intros v p2 M L Hv.
    eapply wp_tail; [exact M|done| |apply IHl; [fueled|done|fueled]]. lia. }
  destruct (toks p !! pos p) as [[|n| | |]|] eqn:H0; try exact Hplain.
  destruct (toks p !! (pos p + 1)%nat) as [[| |op| |]|] eqn:H1; try exact Hplain.
  assert (Hset : wp (_ ← modify (advance 2); rhs ←? expr f 2;
    v ←? (if bool_decide (op = OAssign) then lift (inr rhs) else old ←? var_m n; lift (apply (base_op op) old rhs));
    _ ← assign n v; lift (inr v)) (good_run 1 p) p).
  { wp_steps. pose proof (mid_advance 2 _ _ _ (mid_refl p)) as M. change (0 + 2)%nat with 2%nat in M.
    set (p1 := advance 2 p) in *. assert (L1 : live p1 = live p) by done. apply lookup_lt_Some in H1.
    assert (2 <= left_over p)%nat by (unfold left_over; lia). eapply wp_call; [exact M|apply IHe; fueled|]. intros rhs p2 M2 L2 Hr.
    eapply (wp_call _ _ _ 0); [exact M2| |].
    - case_bool_decide; [apply wp_ret, good_inr; [apply mid_refl|done|done]|].
      eapply (wp_call _ _ _ 0); [apply mid_refl|apply wp_var_m|]. intros old p3 M3 L3 Ho.
      eapply wp_tail; [exact M3|done| |by apply wp_lift_apply]. lia.
    - intros v p3 M3 L3 Hv. wp_steps. eapply wp_assign; [exact M3|]. intros p4 M4 L4 _. apply wp_ret.
      eapply (good_weaken _ 1); [|apply good_inr; [exact M4| |done]]; [lia|]. by rewrite L4, L3, L2. }
  destruct (binding op) as [[[|[|[]|]|] ?]|]; try exact Hplain. destruct (min <=? 2); [exact Hset|exact Hplain].
Qed.

Lemma loop_step f : expr_ok f → loop_ok f → loop_ok (S f).
Proof.
  intros IHe IHl p min lhs Hok Hlhs Hf. cbn [expr_loop]. wp_steps.
  assert (Hstop : wp (lift (inr lhs)) (good_run 0 p) p) by (apply wp_ret, good_inr; [apply mid_refl|done|done]).
  destruct (peek p) as [[| |op| |]|] eqn:Hp; try exact Hstop.
  destruct (binding op) as [[prec rassoc]|]; [|exact Hstop]. destruct ((prec <? min) || (prec =? 2)); [exact Hstop|].
  assert (Hn : (1 <= left_over p)%nat) by (apply peek_lt in Hp; unfold left_over; lia).
  wp_steps. pose proof (mid_advance 1 _ _ _ (mid_refl p)) as M. change (0 + 1)%nat with 1%nat in M.
  set (p1 := advance 1 p) in *. assert (L1 : live p1 = live p) by done.
  set (next_min := if rassoc then prec else prec + 1).
  (** Going on with the loop from a later state. *)
  assert (Hloop : ∀ k p2 v, mid (S k) p p2 → live p2 = live p → in_i64 v → wp (expr_loop f min v) (good_run 0 p) p2).
  { intros k p2 v M2 L2 Hv. eapply (wp_tail _ (S k) 0); [exact M2|done|lia|]. apply IHl; [fueled|done|fueled]. }
  assert (Hbin : wp (rhs ←? expr f next_min; v ←? lift (apply op lhs rhs); expr_loop f min v) (good_run 0 p) p1).
  { eapply wp_call; [exact M|apply IHe; fueled|]. intros rhs p2 M2 L2 Hr.
    eapply wp_call; [exact M2|by apply wp_lift_apply|]. intros v p3 M3 L3 Hv.
    apply (Hloop 1%nat); [exact M3|congruence|done]. }
  assert (Hlog : ∀ (b : bool) (g : Z → Z), (∀ v, in_i64 (g v)) →
    wp (_ ← modify (set_live (live p1 && b)); rhs ←? expr f next_min; _ ← modify (set_live (live p1)); expr_loop f min (g rhs))
       (good_run 0 p) p1).
  { intros b g Hg. wp_steps. assert (M1 : mid 1 p (set_live (live p1 && b) p1)) by (apply mid_live; [done|intros E; by rewrite L1, E]).
    set (p1' := set_live (live p1 && b) p1) in *. eapply wp_call; [exact M1|apply IHe; fueled|]. intros rhs p2 M2 L2 Hr.
    wp_steps. apply (Hloop 1%nat); [apply mid_live; [exact M2|congruence]|done|auto]. }
  destruct op; try exact Hbin; try (apply (Hlog _ (λ rhs, Z.b2z _)); intros; apply b2z_i64).
  wp_steps. assert (M1 : mid 1 p (set_live (live p1 && negb (lhs =? 0)) p1)) by (apply mid_live; [done|intros E; by rewrite L1, E]).
  set (p1' := set_live (live p1 && negb (lhs =? 0)) p1) in *.
  eapply wp_call; [exact M1|apply IHe; fueled|]. intros a p2 M2 L2 Ha. wp_steps.
  case_bool_decide; [|by apply wp_ret, (good_inl 2)]. wp_steps.
  assert (M3 : mid 3 p (set_live (live p1 && (lhs =? 0)) (advance 1 p2))).
  { apply mid_live; [by apply (mid_advance 1) in M2|intros E; by rewrite L1, E]. }
  set (p3 := set_live (live p1 && (lhs =? 0)) (advance 1 p2)) in *.
  eapply wp_call; [exact M3|apply IHe; fueled|]. intros b p4 M4 L4 Hb. wp_steps.
  apply (Hloop 3%nat); [apply mid_live; [exact M4|congruence]|done|]. by case_match.
Qed.

Lemma parser_ok f : primary_ok f ∧ expr_ok f ∧ loop_ok f.
Proof.
  induction f as [|f (IHp & IHe & IHl)].
  - unfold primary_ok, expr_ok, loop_ok. split_and!; intros; lia.
  - auto using primary_step, expr_step, loop_step.
Qed.

(** The fuel [eval] gives is enough. *)
Lemma expr_run t vs lv min : Forall tok_ok t →
  ∃ r p', expr (parse_fuel t) min (mkP t 0 vs lv) = Some (r, p') ∧ good_run 1 (mkP t 0 vs lv) r p'.
Proof.
  intros Ht. destruct (parser_ok (parse_fuel t)) as (_ & He & _). apply wp_run, He; [done|].
  unfold left_over, parse_fuel. simpl. lia.
Qed.
End ParserProofs.

(** C35. Evaluation is total and well typed: every text is evaluated, over any
    store of variables and with fuel bounded by its length, to an error or to a
    value between the least and the greatest [i64], so the wrapping operators,
    shifts, bit operations and literals never leave the type. *)
Theorem arith_typed {V} `{Vars V} (src : list Z) (vs : V) :
  ∃ r vs', eval src vs = Some (r, vs') ∧ match r with inl _ => True | inr v => in_i64 v end.
Proof.
  unfold eval. destruct (lex_total src) as (r & -> & Ht). simpl. destruct r as [e|[|t ts]].
  - by eexists _, _.
  - eexists _, _. split; [done|]. apply zero_i64.
  - destruct (expr_run (t :: ts) vs true 0 Ht) as (r & p' & -> & Hg). simpl. eexists _, _. split; [done|].
    destruct r as [e|k]; [done|]. case_bool_decide; [|done]. by destruct Hg as (_ & _ & _ & ? & _).
Qed.

(** A branch that is skipped has no effect: parsing any tokens with [live]
    off, as the parser does for the untaken sides of [&&], [||] and [?:], leaves
    every variable as it was, also when it ends in an error. *)
Lemma arith_dead_branch {V} `{Vars V} (t : list Tok) (vs : V) min r p' : Forall tok_ok t →
  expr (parse_fuel t) min (mkP t 0 vs false) = Some (r, p') → vars p' = vs.
Proof.
  intros Ht E. destruct (expr_run t vs false min Ht) as (r1 & p1 & E1 & Hg). rewrite E1 in E. simplify_eq.
  destruct Hg as (_ & Hd & _). by destruct (Hd eq_refl).
Qed.
