(* ===== verification/ArithSpec.v ===== *)
(** * Shell arithmetic: precedence

    Expressions as trees, their meaning by recursion on the tree, and their text
    with parentheses where the precedences need them and around an assignment to
    the left of a comma.  Evaluating the text of a tree gives its meaning. *)

From Stdlib Require Import Strings.String.
From S2P Require Import Prelude Text Arith ArithProofs.

(** ** Trees and their meaning *)

Inductive UnOp := UNeg | UPlus | UNot | UCompl.

Inductive Exp :=
  | ENum (n : Z)
  | EVar (x : list Z)
  | EStep (pre : bool) (op : AOp) (x : list Z)
  | EUn (u : UnOp) (e : Exp)
  | EBin (op : AOp) (a b : Exp)
  | ELog (isand : bool) (a b : Exp)
  | ECond (c a b : Exp)
  | ESet (x : list Z) (op : AOp) (e : Exp).

Definition un_op (u : UnOp) : AOp := match u with UNeg => OSub | UPlus => OAdd | UNot => ONot | UCompl => OCompl end.
Definition un_val (u : UnOp) (v : Z) : Z :=
  match u with UNeg => wrap (- v) | UPlus => v | UNot => Z.b2z (v =? 0) | UCompl => Z.lnot v end.

Section Meaning.
Context {V : Type} `{Vars V}.

Definition store (live : bool) (x : list Z) (v : Z) (vs : V) : V := if live then vset vs x (i64_string v) else vs.

(** The value, or the error, and the variables afterwards; [live] is off in the
    branches that are skipped. *)
Fixpoint meaning (live : bool) (e : Exp) (vs : V) : (AErr + Z) * V :=
  match e with
  | ENum n => (inr n, vs)
  | EVar x => (var x vs, vs)
  | EStep pre op x =>
      match var x vs with
      | inl e => (inl e, vs)
      | inr v => (inr (if pre then step_value op v else v), store live x (step_value op v) vs)
      end
  | EUn u e =>
      match meaning live e vs with
      | (inl er, vs) => (inl er, vs)
      | (inr v, vs) => (inr (un_val u v), vs)
      end
  | EBin op a b =>
      match meaning live a vs with
      | (inl er, vs) => (inl er, vs)
      | (inr x, vs) =>
          match meaning live b vs with
          | (inl er, vs) => (inl er, vs)
          | (inr y, vs) => (apply op x y, vs)
          end
      end
  | ELog isand a b =>
      match meaning live a vs with
      | (inl er, vs) => (inl er, vs)
      | (inr x, vs) =>
          let short := if isand then x =? 0 else negb (x =? 0) in
          match meaning (live && negb short) b vs with
          | (inl er, vs) => (inl er, vs)
          | (inr y, vs) =>
              (inr (Z.b2z (if isand then negb (x =? 0) && negb (y =? 0) else negb (x =? 0) || negb (y =? 0))), vs)
          end
      end
  | ECond c a b =>
      match meaning live c vs with
      | (inl er, vs) => (inl er, vs)
      | (inr x, vs) =>
          match meaning (live && negb (x =? 0)) a vs with
          | (inl er, vs) => (inl er, vs)
          | (inr y, vs) =>
              match meaning (live && (x =? 0)) b vs with
              | (inl er, vs) => (inl er, vs)
              | (inr z, vs) => (inr (if negb (x =? 0) then y else z), vs)
              end
          end
      end
  | ESet x op e =>
      match meaning live e vs with
      | (inl er, vs) => (inl er, vs)
      | (inr rhs, vs) =>
          match (if bool_decide (op = OAssign) then inr rhs
                 else match var x vs with inl e => inl e | inr old => apply (base_op op) old rhs end) with
          | inl er => (inl er, vs)
          | inr v => (inr v, store live x v vs)
          end
      end
  end.
End Meaning.

(** ** Printing *)

(** The binary operators of C by how tightly they bind, loosest first, with the
    power of the shell on top: commas at level 1, assignments at level 2, the
    conditional at level 3, and so on. *)
Definition levels : list (list AOp) :=
  [[OComma];
   [OAssign; OAddEq; OSubEq; OMulEq; ODivEq; ORemEq; OShlEq; OShrEq; OBandEq; OBorEq; OXorEq];
   [OQuest]; [OOr]; [OAnd]; [OBor]; [OXor]; [OBand]; [OEq; ONe]; [OLt; OGt; OLe; OGe]; [OShl; OShr]; [OAdd; OSub];
   [OMul; ODiv; ORem]; [OPow]].

Fixpoint level_in (k : Z) (ls : list (list AOp)) (o : AOp) : Z :=
  match ls with
  | [] => 15
  | l :: ls => if bool_decide (o ∈ l) then k else level_in (k + 1) ls o
  end.
Definition prec (o : AOp) : Z := level_in 1 levels o.

(** Assignments, the conditional and the power group to the right. *)
Definition rassoc (o : AOp) : bool := bool_decide (prec o = 2) || bool_decide (o ∈ [OQuest; OPow]).

(** Operators of [EBin] and of [ESet]. *)
Definition bin_op (o : AOp) : bool :=
  bool_decide (o ∈ [OComma; OBor; OXor; OBand; OEq; ONe; OLt; OGt; OLe; OGe; OShl; OShr; OAdd; OSub; OMul; ODiv; ORem; OPow]).
Definition set_op (o : AOp) : bool := bool_decide (prec o = 2).

(** The table of the parser is this one. *)
Lemma binding_levels o : binding o = if bool_decide (prec o = 15) then None else Some (prec o, rassoc o).
Proof. by destruct o. Qed.

Lemma binding_prec o q r : binding o = Some (q, r) → prec o = q ∧ rassoc o = r.
Proof. rewrite binding_levels. case_bool_decide; [done|]. by intros [= <- <-]. Qed.

Definition paren (b : bool) (t : list Tok) : list Tok := if b then TLParen :: t ++ [TRParen] else t.

(** The tokens of [e] where an operand of level [p] is expected: 15 for the
    operand of a unary operator, 0 where anything goes.  An assignment to the left
    of a comma gets parentheses, although it binds more tightly. *)
Fixpoint toks_of (p : Z) (e : Exp) : list Tok :=
  match e with
  | ENum n => [TNum n]
  | EVar x => [TName x]
  | EStep true op x => [TOp op; TName x]
  | EStep false op x => [TName x; TOp op]
  | EUn u e => TOp (un_op u) :: toks_of 15 e
  | EBin op a b =>
      let q := prec op in
      paren (q <? p) (toks_of (if rassoc op then q + 1 else q) a ++ TOp op :: toks_of (if rassoc op then q else q + 1) b)
  | ELog isand a b =>
      let op := if isand then OAnd else OOr in
      paren (prec op <? p) (toks_of (prec op) a ++ TOp op :: toks_of (prec op + 1) b)
  | ECond c a b => paren (3 <? p) (toks_of 4 c ++ TOp OQuest :: toks_of 0 a ++ TOp OColon :: toks_of 3 b)
  | ESet x op e => paren (negb ((p =? 0) || (p =? 2))) (TName x :: TOp op :: toks_of 2 e)
  end.

(** Trees that are expressions of the language: numbers in range, and operators
    where they belong. *)
Fixpoint wf_exp (e : Exp) : Prop :=
  match e with
  | ENum n => 0 ≤ n ≤ I64_MAX
  | EVar x => True
  | EStep _ op x => op = OInc ∨ op = ODec
  | EUn _ e => wf_exp e
  | EBin op a b => bin_op op = true ∧ wf_exp a ∧ wf_exp b
  | ELog _ a b => wf_exp a ∧ wf_exp b
  | ECond c a b => wf_exp c ∧ wf_exp a ∧ wf_exp b
  | ESet _ op e => set_op op = true ∧ wf_exp e
  end.

(** ** More fuel gives the same answer *)

Section Fuel.
Context {V : Type} `{Vars V}.

Definition run_refines {A} (m m' : Exec (P V) A) : Prop := ∀ p r, m p = Some r → m' p = Some r.

Lemma refines_refl {A} (m : Exec (P V) A) : run_refines m m.
Proof. by intros p r. Qed.

Lemma refines_bind {A B} (m m' : Exec (P V) A) (f f' : A → Exec (P V) B) :
  run_refines m m' → (∀ a, run_refines (f a) (f' a)) → run_refines (m ≫= f) (m' ≫= f').
Proof.
  intros Hm Hf p r. unfold mbind, exec_bind. destruct (m p) as [[a p']|] eqn:E; [|done].
  rewrite (Hm _ _ E). apply Hf.
Qed.

Lemma refines_try {A B} (m m' : Exec (P V) (AErr + A)) (f f' : A → Exec (P V) (AErr + B)) :
  run_refines m m' → (∀ a, run_refines (f a) (f' a)) → run_refines (try_bind m f) (try_bind m' f').
Proof. intros Hm Hf. apply refines_bind; [done|]. intros [e|a]; [apply refines_refl|apply Hf]. Qed.

Ltac refine_steps :=
  repeat first
    [ match goal with |- run_refines ?m ?m => apply refines_refl end
    | assumption
    | match goal with H : ∀ _, run_refines _ _ |- _ => apply H | H : ∀ _ _, run_refines _ _ |- _ => apply H end
    | match goal with
      | |- run_refines (try_bind _ _) _ => apply refines_try; [|intros ?]
      | |- run_refines (_ ≫= _) _ => apply refines_bind; [|intros ?]
      end
    | match goal with |- run_refines (match ?x with _ => _ end) _ => destruct x end ].

Definition fuel_refines (f f' : nat) : Prop :=
  run_refines (primary f) (primary f') ∧ (∀ min, run_refines (expr f min) (expr f' min)) ∧
  (∀ min lhs, run_refines (expr_loop f min lhs) (expr_loop f' min lhs)).

Lemma fuel_refines_S f f' : fuel_refines f f' → fuel_refines (S f) (S f').
Proof.
  intros (IHp & IHe & IHl). split; [|split].
  - cbn [primary]. refine_steps.
  - intros min. cbn [expr]. refine_steps.
  - intros min lhs. cbn [expr_loop]. refine_steps.
Qed.

Lemma fuel_mono f : fuel_refines f (S f).
Proof. induction f as [|f IH]; [done|]. by apply fuel_refines_S. Qed.

Lemma fuel_le f f' : (f <= f')%nat → fuel_refines f f'.
Proof.
  induction 1 as [|f' _ (A & B & C)]; [split_and!; intros; apply refines_refl|].
  destruct (fuel_mono f') as (A' & B' & C'). split_and!; intros; intros p r E; auto.
  - by apply B', B.
  - by apply C', C.
Qed.
End Fuel.

(** ** Runs of the parser *)

Section Runs.
Context {V : Type} `{Vars V}.

Definition Out : Type := (AErr + Z) * P V.
Definition PRun (p : P V) (o : Out) : Prop := ∃ f, primary f p = Some o.
Definition ERun (min : Z) (p : P V) (o : Out) : Prop := ∃ f, expr f min p = Some o.
Definition LRun (min lhs : Z) (p : P V) (o : Out) : Prop := ∃ f, expr_loop f min lhs p = Some o.

(** The parser in front of the tokens [l]. *)
Definition at_ (pre l : list Tok) (vs : V) (lv : bool) : P V := mkP (pre ++ l) (length pre) vs lv.

Lemma peek_at pre l vs lv : peek (at_ pre l vs lv) = head l.
Proof. unfold peek, at_; simpl. rewrite lookup_app_r, Nat.sub_diag by lia. by destruct l. Qed.

Lemma peek_cons pre t l vs lv : peek (at_ pre (t :: l) vs lv) = Some t.
Proof. by rewrite peek_at. Qed.

Lemma second_at pre l vs lv : toks (at_ pre l vs lv) !! (pos (at_ pre l vs lv) + 1)%nat = l !! 1%nat.
Proof. simpl. rewrite lookup_app_r by lia. f_equal. lia. Qed.

Lemma advance_at pre t l vs lv : advance 1 (at_ pre (t :: l) vs lv) = at_ (pre ++ [t]) l vs lv.
Proof. unfold advance, at_; simpl. rewrite <- app_assoc, length_app. done. Qed.

Lemma advance2_at pre t u l vs lv : advance 2 (at_ pre (t :: u :: l) vs lv) = at_ (pre ++ [t; u]) l vs lv.
Proof. unfold advance, at_; simpl. rewrite <- app_assoc, length_app. done. Qed.

Lemma primary_le f f' p o : (f <= f')%nat → primary f p = Some o → primary f' p = Some o.
Proof. intros Hf. by apply (proj1 (fuel_le f f' Hf)). Qed.
Lemma expr_le f f' min p o : (f <= f')%nat → expr f min p = Some o → expr f' min p = Some o.
Proof. intros Hf. by apply (proj1 (proj2 (fuel_le f f' Hf))). Qed.
Lemma loop_le f f' min lhs p o : (f <= f')%nat → expr_loop f min lhs p = Some o → expr_loop f' min lhs p = Some o.
Proof. intros Hf. by apply (proj2 (proj2 (fuel_le f f' Hf))). Qed.

(** Going on after a call: an error ends the run. *)
Definition next (o : Out) (K : Z → P V → Out → Prop) (out : Out) : Prop :=
  match o.1 with inl _ => out = o | inr v => K v o.2 out end.

(** [name op=] ahead, with an assignment operator. *)
Definition set_ahead (l : list Tok) : bool :=
  match l with TName _ :: TOp o :: _ => set_op o | _ => false end.

Lemma set_op_binding o : set_op o = match binding o with Some (q, _) => q =? 2 | None => false end.
Proof. by destruct o. Qed.

Definition plain_expr (f : nat) (min : Z) : Exec (P V) (AErr + Z) := lhs ←? primary f; expr_loop f min lhs.
Definition set_expr (f : nat) (x : list Z) (op : AOp) : Exec (P V) (AErr + Z) :=
  _ ← modify (advance 2);
  rhs ←? expr f 2;
  v ←? (if bool_decide (op = OAssign) then lift (inr rhs) else old ←? var_m x; lift (apply (base_op op) old rhs));
  _ ← assign x v;
  lift (inr v).

Lemma expr_at f min pre l vs lv :
  expr (S f) min (at_ pre l vs lv) =
  match l with
  | TName x :: TOp op :: _ => if set_op op && (min <=? 2) then set_expr f x op else plain_expr f min
  | _ => plain_expr f min
  end (at_ pre l vs lv).
Proof.
  change (expr (S f) min (at_ pre l vs lv)) with
    (match toks (at_ pre l vs lv) !! pos (at_ pre l vs lv), toks (at_ pre l vs lv) !! (pos (at_ pre l vs lv) + 1)%nat with
     | Some (TName x), Some (TOp op) =>
         match binding op with
         | Some (2, _) => if min <=? 2 then set_expr f x op else plain_expr f min
         | _ => plain_expr f min
         end
     | _, _ => plain_expr f min
     end (at_ pre l vs lv)).
  assert (E0 : toks (at_ pre l vs lv) !! pos (at_ pre l vs lv) = head l) by apply peek_at.
  rewrite E0, second_at. destruct l as [|[|x| | |] [|[| |op| |] l]]; try done. simpl. by destruct op.
Qed.

Lemma expr_plain f min pre l vs lv : set_ahead l = false →
  expr (S f) min (at_ pre l vs lv) = plain_expr f min (at_ pre l vs lv).
Proof. intros Hs. rewrite expr_at. destruct l as [|[|x| | |] [|[| |op| |] l]]; try done. simpl in Hs. by rewrite Hs. Qed.

Lemma ERun_plain min pre l vs lv o out : set_ahead l = false →
  PRun (at_ pre l vs lv) o → next o (LRun min) out → ERun min (at_ pre l vs lv) out.
Proof.
  intros Hs [f1 H1] Ho. destruct o as [[e|v] p1]; unfold next in Ho; simpl in Ho.
  - subst out. exists (S f1). rewrite expr_plain by done. unfold plain_expr, try_bind, mbind, exec_bind. by rewrite H1.
  - destruct Ho as [f2 H2]. exists (S (f1 `max` f2)). rewrite expr_plain by done. unfold plain_expr, try_bind, mbind, exec_bind.
    rewrite (primary_le f1 _ _ _ (Nat.le_max_l _ _) H1). by apply (loop_le f2); [lia|].
Qed.

Lemma bind_gets {A B} (g : P V → A) (k : A → Exec (P V) B) p : (gets g ≫= k) p = k (g p) p.
Proof. done. Qed.
Lemma bind_modify {B} (g : P V → P V) (k : unit → Exec (P V) B) p : (modify g ≫= k) p = k tt (g p).
Proof. done. Qed.

(** The loop behind an operator it goes on with; [saved] is [live] before it. *)
Definition loop_op (f : nat) (min lhs : Z) (o : AOp) (nm : Z) (saved : bool) : Exec (P V) (AErr + Z) :=
  match o with
  | OQuest =>
      _ ← modify (set_live (saved && negb (lhs =? 0)));
      a ←? expr f 0;
      t ← gets peek;
      if bool_decide (t = Some (TOp OColon)) then
        _ ← modify (advance 1);
        _ ← modify (set_live (saved && (lhs =? 0)));
        b ←? expr f 3;
        _ ← modify (set_live saved);
        expr_loop f min (if negb (lhs =? 0) then a else b)
      else lift (inl ColonExpected)
  | OAnd | OOr =>
      _ ← modify (set_live (saved && negb (if bool_decide (o = OAnd) then lhs =? 0 else negb (lhs =? 0))));
      rhs ←? expr f nm;
      _ ← modify (set_live saved);
      expr_loop f min (Z.b2z (if bool_decide (o = OAnd) then negb (lhs =? 0) && negb (rhs =? 0)
                              else negb (lhs =? 0) || negb (rhs =? 0)))
  | _ => rhs ←? expr f nm; v ←? lift (apply o lhs rhs); expr_loop f min v
  end.

Lemma loop_S f min lhs (p : P V) :
  expr_loop (S f) min lhs p =
  match peek p with
  | Some (TOp o) =>
      match binding o with
      | Some (q, r) =>
          if (q <? min) || (q =? 2) then Some (inr lhs, p)
          else loop_op f min lhs o (if r : bool then q else q + 1) (live p) (advance 1 p)
      | None => Some (inr lhs, p)
      end
  | _ => Some (inr lhs, p)
  end.
Proof.
  cbn [expr_loop]. rewrite bind_gets. destruct (peek p) as [[| |o| |]|]; try reflexivity.
  destruct (binding o) as [[q r]|]; [|reflexivity]. destruct ((q <? min) || (q =? 2)); [reflexivity|].
  rewrite bind_modify, bind_gets. by destruct o.
Qed.

(** The loop stops where the next operator binds less. *)
Definition stops (min : Z) (l : list Tok) : Prop :=
  match l with TOp o :: _ => match binding o with Some (q, _) => q < min ∨ q = 2 | None => True end | _ => True end.

Lemma LRun_stop min lhs pre l vs lv : stops min l → LRun min lhs (at_ pre l vs lv) (inr lhs, at_ pre l vs lv).
Proof.
  intros Hs. exists 1%nat. rewrite loop_S, peek_at. destruct l as [|[| |o| |] l]; try done. simpl in *.
  destruct (binding o) as [[q r]|]; [|done].
  assert ((q <? min) || (q =? 2) = true) as -> by (apply orb_true_iff; rewrite Z.ltb_lt, Z.eqb_eq; tauto). done.
Qed.

Definition next_min (o : AOp) : Z := if rassoc o then prec o else prec o + 1.

(** What the loop does at an operator that binds enough. *)
Lemma loop_at f min lhs o pre l vs lv : min ≤ prec o → set_op o = false → is_Some (binding o) →
  expr_loop (S f) min lhs (at_ pre (TOp o :: l) vs lv) =
  loop_op f min lhs o (next_min o) lv (at_ (pre ++ [TOp o]) l vs lv).
Proof.
  intros Hmin Hset [[q r] Hb]. rewrite loop_S, peek_cons. cbn iota. rewrite advance_at.
  destruct (binding_prec o q r Hb) as [Eq Er]. unfold next_min. rewrite Eq in *. rewrite Er.
  rewrite set_op_binding, Hb in Hset. rewrite Hb. cbn beta iota.
  by rewrite Hset, (proj2 (Z.ltb_ge q min)) by lia.
Qed.

Lemma bin_op_binding o : bin_op o = true → is_Some (binding o) ∧ set_op o = false ∧ o ≠ OQuest ∧ o ≠ OAnd ∧ o ≠ OOr.
Proof. destruct o; simpl; intros; try done; split_and!; try done; by eexists. Qed.

Lemma LRun_bin min lhs o pre l vs lv r out : bin_op o = true → min ≤ prec o →
  ERun (next_min o) (at_ (pre ++ [TOp o]) l vs lv) r →
  next r (λ y p1 out, next (apply o lhs y, p1) (LRun min) out) out →
  LRun min lhs (at_ pre (TOp o :: l) vs lv) out.
Proof.
  intros Hb Hmin [f1 H1] Hn. destruct (bin_op_binding o Hb) as (B1 & B2 & B3 & B4 & B5).
  assert (Hbody : ∀ f, expr_loop (S f) min lhs (at_ pre (TOp o :: l) vs lv) =
    (rhs ←? expr f (next_min o); v ←? lift (apply o lhs rhs); expr_loop f min v) (at_ (pre ++ [TOp o]) l vs lv)).
  { intros f. rewrite loop_at by done. unfold loop_op. by destruct o. }
  destruct r as [[e|y] p1]; unfold next in Hn; simpl in Hn.
  - subst out. exists (S f1). rewrite Hbody. unfold try_bind, mbind, exec_bind. by rewrite H1.
  - destruct (apply o lhs y) as [e|v] eqn:Ha; simpl in Hn.
    + subst out. exists (S f1). rewrite Hbody. unfold try_bind, mbind, exec_bind. rewrite H1. by rewrite Ha.
    + destruct Hn as [f2 H2]. exists (S (f1 `max` f2)). rewrite Hbody. unfold try_bind, mbind, exec_bind.
      rewrite (expr_le f1 (f1 `max` f2) _ _ _ ltac:(lia) H1). rewrite Ha. simpl. by apply (loop_le f2); [lia|].
Qed.

Definition log_op (isand : bool) : AOp := if isand then OAnd else OOr.

Lemma LRun_log isand min lhs pre l vs lv r out : min ≤ prec (log_op isand) →
  ERun (prec (log_op isand) + 1)
    (at_ (pre ++ [TOp (log_op isand)]) l vs (lv && negb (if isand then lhs =? 0 else negb (lhs =? 0)))) r →
  next r (λ y p1 out, LRun min
    (Z.b2z (if isand then negb (lhs =? 0) && negb (y =? 0) else negb (lhs =? 0) || negb (y =? 0))) (set_live lv p1) out) out →
  LRun min lhs (at_ pre (TOp (log_op isand) :: l) vs lv) out.
Proof.
  intros Hmin [f1 H1] Hn. set (lv' := lv && negb (if isand then lhs =? 0 else negb (lhs =? 0))) in *.
  assert (Hbody : ∀ f, expr_loop (S f) min lhs (at_ pre (TOp (log_op isand) :: l) vs lv) =
    (rhs ←? expr f (prec (log_op isand) + 1); _ ← modify (set_live lv);
     expr_loop f min (Z.b2z (if isand then negb (lhs =? 0) && negb (rhs =? 0) else negb (lhs =? 0) || negb (rhs =? 0))))
    (at_ (pre ++ [TOp (log_op isand)]) l vs lv')).
  { intros f. rewrite loop_at by (destruct isand; done || by eexists). by destruct isand. }
  destruct r as [[e|y] p1]; unfold next in Hn; simpl in Hn.
  - subst out. exists (S f1). rewrite Hbody. unfold try_bind, mbind, exec_bind. by rewrite H1.
  - destruct Hn as [f2 H2]. exists (S (f1 `max` f2)). rewrite Hbody. unfold try_bind, mbind, exec_bind.
    rewrite (expr_le f1 (f1 `max` f2) _ _ _ ltac:(lia) H1). cbn beta iota. by apply (loop_le f2); [lia|].
Qed.

Lemma LRun_cond min lhs pre la lb vs lv out ra : min ≤ 3 →
  ERun 0 (at_ (pre ++ [TOp OQuest]) la vs (lv && negb (lhs =? 0))) ra →
  next ra (λ a p1 out, ∃ pre' vs1 lv1 rb, p1 = at_ pre' (TOp OColon :: lb) vs1 lv1 ∧
    ERun 3 (at_ (pre' ++ [TOp OColon]) lb vs1 (lv && (lhs =? 0))) rb ∧
    next rb (λ b p2 out, LRun min (if negb (lhs =? 0) then a else b) (set_live lv p2) out) out) out →
  LRun min lhs (at_ pre (TOp OQuest :: la) vs lv) out.
Proof.
  intros Hmin [f1 H1] Hn.
  assert (Hbody : ∀ f, expr_loop (S f) min lhs (at_ pre (TOp OQuest :: la) vs lv) =
    (a ←? expr f 0; t ← gets peek;
     if bool_decide (t = Some (TOp OColon)) then
       _ ← modify (advance 1); _ ← modify (set_live (lv && (lhs =? 0)));
       b ←? expr f 3; _ ← modify (set_live lv); expr_loop f min (if negb (lhs =? 0) then a else b)
     else lift (inl ColonExpected)) (at_ (pre ++ [TOp OQuest]) la vs (lv && negb (lhs =? 0)))).
  { intros f. by rewrite loop_at by (done || by eexists). }
  destruct ra as [[e|a] p1]; unfold next at 1 in Hn; simpl in Hn.
  - subst out. exists (S f1). rewrite Hbody. unfold try_bind, mbind, exec_bind. by rewrite H1.
  - destruct Hn as (pre' & vs1 & lv1 & rb & -> & [f2 H2] & Hn).
    assert (∃ f, (f1 <= f)%nat ∧ (f2 <= f)%nat ∧ match rb.1 with
      | inl _ => out = rb | inr b => expr_loop f min (if negb (lhs =? 0) then a else b) (set_live lv rb.2) = Some out end)
      as (f & L1 & L2 & Hf).
    { destruct rb as [[e|b] p2]; unfold next in Hn; simpl in *; [exists (f1 `max` f2)%nat; auto with lia|].
      destruct Hn as [f3 H3]. exists (f1 `max` f2 `max` f3)%nat. split; [lia|]. split; [lia|]. by apply (loop_le f3); [lia|]. }
    exists (S f). rewrite Hbody. unfold try_bind at 1. unfold mbind at 1, exec_bind at 1.
    rewrite (expr_le f1 f _ _ _ L1 H1). cbn beta iota. rewrite bind_gets, peek_cons, bool_decide_true by done.
    rewrite bind_modify, advance_at, bind_modify. change (set_live ?b (at_ ?x ?y ?z ?w)) with (at_ x y z b).
    unfold try_bind, mbind, exec_bind. rewrite (expr_le f2 f _ _ _ L2 H2). by destruct rb as [[e|b] p2]; simpl in *; [subst|].
Qed.

(** ** Operands *)

(** [primary] behind its first token. *)
Definition primary_tok (f : nat) (tok : Tok) : Exec (P V) (AErr + Z) :=
  match tok with
  | TNum n => lift (inr n)
  | TLParen =>
      v ←? expr f 0;
      t ← gets peek;
      if bool_decide (t = Some TRParen) then _ ← modify (advance 1); lift (inr v) else lift (inl MissingParen)
  | TName n =>
      t ← gets peek;
      match t with
      | Some (TOp (OInc as op)) | Some (TOp (ODec as op)) =>
          _ ← modify (advance 1); v ←? var_m n; _ ← assign n (step_value op v); lift (inr v)
      | _ => var_m n
      end
  | TOp OSub => v ←? primary f; lift (inr (wrap (- v)))
  | TOp OAdd => primary f
  | TOp ONot => v ←? primary f; lift (inr (Z.b2z (v =? 0)))
  | TOp OCompl => v ←? primary f; lift (inr (Z.lnot v))
  | TOp (OInc as op) | TOp (ODec as op) =>
      t ← gets peek;
      match t with
      | Some (TName n) => _ ← modify (advance 1); v ←? var_m n; _ ← assign n (step_value op v); lift (inr (step_value op v))
      | _ => lift (inl VariableExpected)
      end
  | TOp o => lift (inl (OperandExpected (Some (TOp o))))
  | TRParen => lift (inl (OperandExpected (Some TRParen)))
  end.

Lemma primary_at f pre tok l vs lv :
  primary (S f) (at_ pre (tok :: l) vs lv) = primary_tok f tok (at_ (pre ++ [tok]) l vs lv).
Proof. cbn [primary]. rewrite bind_gets, peek_cons. cbn iota. by rewrite bind_modify, advance_at. Qed.

Lemma PRun_num n pre l vs lv : PRun (at_ pre (TNum n :: l) vs lv) (inr n, at_ (pre ++ [TNum n]) l vs lv).
Proof. exists 1%nat. by rewrite primary_at. Qed.

Definition step_ahead (l : list Tok) : bool :=
  match l with TOp OInc :: _ | TOp ODec :: _ => true | _ => false end.

Lemma PRun_var x pre l vs lv : step_ahead l = false →
  PRun (at_ pre (TName x :: l) vs lv) (var x vs, at_ (pre ++ [TName x]) l vs lv).
Proof.
  intros Hs. exists 1%nat. rewrite primary_at. unfold primary_tok. rewrite bind_gets, peek_at.
  destruct l as [|[| |[]| |] l]; done.
Qed.

Lemma assign_at x v pre l (vs : V) lv : assign x v (at_ pre l vs lv) = Some (tt, at_ pre l (store lv x v vs) lv).
Proof. unfold assign, modify, store. simpl. by destruct lv. Qed.

Lemma PRun_step (pre_ : bool) op x pre l vs lv : op = OInc ∨ op = ODec →
  PRun (at_ pre (toks_of 15 (EStep pre_ op x) ++ l) vs lv)
    (match var x vs with
     | inl e => (inl e, at_ (pre ++ toks_of 15 (EStep pre_ op x)) l vs lv)
     | inr v => (inr (if pre_ then step_value op v else v), at_ (pre ++ toks_of 15 (EStep pre_ op x)) l (store lv x (step_value op v) vs) lv)
     end).
Proof.
  intros Hop. exists 1%nat. destruct pre_; simpl toks_of; simpl app; rewrite primary_at; unfold primary_tok;
    destruct Hop as [-> | ->]; rewrite bind_gets, peek_cons; cbn iota; rewrite bind_modify, advance_at, <- app_assoc;
    simpl app; unfold var_m, gets, lift, mret, exec_ret, try_bind, mbind, exec_bind; cbn beta iota;
    cbn [vars at_]; destruct (var x vs) as [e|v]; try done; by rewrite assign_at.
Qed.

Lemma PRun_un u pre l vs lv r : PRun (at_ (pre ++ [TOp (un_op u)]) l vs lv) r →
  PRun (at_ pre (TOp (un_op u) :: l) vs lv) (match r.1 with inl e => r | inr v => (inr (un_val u v), r.2) end).
Proof.
  intros [f Hf]. exists (S f). rewrite primary_at.
  destruct u; simpl; unfold try_bind, mbind, exec_bind; simpl in Hf; rewrite Hf; by destruct r as [[|] ?].
Qed.

Lemma PRun_paren pre l vs lv vs' r m : ERun 0 (at_ (pre ++ [TLParen]) (m ++ TRParen :: l) vs lv) r →
  match r.1 with inl _ => True | inr _ => r.2 = at_ (pre ++ TLParen :: m) (TRParen :: l) vs' lv end →
  PRun (at_ pre (TLParen :: m ++ TRParen :: l) vs lv)
    (match r.1 with inl e => r | inr v => (inr v, at_ (pre ++ TLParen :: m ++ [TRParen]) l vs' lv) end).
Proof.
  intros [f Hf] Hr. exists (S f). rewrite primary_at. unfold primary_tok, try_bind. unfold mbind at 1, exec_bind at 1.
  rewrite Hf. destruct r as [[e|v] p]; simpl in *; [done|].
  subst p. rewrite bind_gets, peek_cons. rewrite bool_decide_true by done.
  rewrite bind_modify, advance_at, <- app_assoc. done.
Qed.

Lemma ERun_set min x op pre l vs lv r out : set_op op = true → min ≤ 2 →
  ERun 2 (at_ (pre ++ [TName x; TOp op]) l vs lv) r →
  match r with
  | (inl _, _) => out = r
  | (inr rhs, p1) => ∃ pre' l' vs', p1 = at_ pre' l' vs' lv ∧
      out = match (if bool_decide (op = OAssign) then inr rhs
                   else match var x vs' with inl e => inl e | inr old => apply (base_op op) old rhs end) with
            | inl e => (inl e, at_ pre' l' vs' lv)
            | inr v => (inr v, at_ pre' l' (store lv x v vs') lv)
            end
  end →
  ERun min (at_ pre (TName x :: TOp op :: l) vs lv) out.
Proof.
  intros Hop Hmin [f Hf] Hr. exists (S f). rewrite expr_at. cbn iota.
  rewrite Hop, (proj2 (Z.leb_le min 2)) by done. change (true && true) with true. cbn iota. unfold set_expr.
  rewrite bind_modify, advance2_at. unfold try_bind at 1. unfold mbind at 1, exec_bind at 1. rewrite Hf.
  destruct r as [[e|rhs] p1]; [by subst|]. destruct Hr as (pre' & l' & vs' & -> & ->). cbn beta iota.
  case_bool_decide; unfold try_bind, var_m, gets, lift, mret, exec_ret, mbind, exec_bind; cbn beta iota; [by rewrite assign_at|].
  cbn [vars at_]. destruct (var x vs') as [e|old]; [done|]. destruct (apply (base_op op) old rhs); [done|]. by rewrite assign_at.
Qed.
End Runs.

(** ** The parser computes the meaning *)

(** What may follow an operand of level [p]. *)
Definition follow (p : Z) (l : list Tok) : Prop :=
  match l with
  | TOp o :: _ =>
      match binding o with
      | Some (q, r) => q ≠ 2 ∧ (q < p ∨ (q = p ∧ r = false))
      | None => o = OColon
      end
  | _ => True
  end.

Lemma follow_weaken p p' l : p < p' → follow p l → follow p' l.
Proof. unfold follow. intros Hp. repeat case_match; try done. intros [? [?|[-> ->]]]; split; auto; left; lia. Qed.

Lemma follow_15 p l : p ≤ 15 → follow p l → follow 15 l.
Proof. intros Hp. destruct (decide (p = 15)) as [->|]; [done|]. apply follow_weaken. lia. Qed.

Lemma follow_step p l : follow p l → step_ahead l = false.
Proof. destruct l as [|[| |[]| |] l]; simpl; done. Qed.

Lemma follow_set p x l : follow p l → set_ahead (TName x :: l) = false.
Proof. destruct l as [|[| |[]| |] l]; simpl; try done; lia. Qed.

Lemma left_below_pow o q : binding o = Some (q, false) → q < prec OPow.
Proof. destruct o; intros [=]; subst; reflexivity. Qed.

(** The level of the right operand: what follows the whole stops it. *)
Lemma follow_right p op l : bin_op op = true → p ≤ prec op → follow p l →
  follow (next_min op) l ∧ stops (next_min op) l.
Proof.
  intros Hb Hp Hf. assert (Hle : p ≤ next_min op) by (unfold next_min; case_match; lia).
  assert (Hs : ∀ o l', l = TOp o :: l' → match binding o with Some (q, _) => q < next_min op | None => True end).
  { intros o l' ->. simpl in Hf. destruct (binding o) as [[q r]|] eqn:Eo; [|done]. destruct Hf as (_ & [?|[-> ->]]); [lia|].
    destruct (rassoc op) eqn:Er; unfold next_min in *; rewrite Er in *; [|lia].
    assert (op = OPow) as -> by (destruct op; done). by apply left_below_pow in Eo. }
  split; destruct l as [|[| |o| |] l]; try done; specialize (Hs o l eq_refl); simpl in *;
    destruct (binding o) as [[q r]|]; auto; destruct Hf; auto.
Qed.

Section Correct.
Context {V : Type} `{Vars V}.

Definition correct (min p : Z) (e : Exp) (pre rest : list Tok) (vs : V) (lv : bool) : Prop :=
  match meaning lv e vs with
  | (inl er, vs') => ∃ q, ERun min (at_ pre (toks_of p e ++ rest) vs lv) (inl er, q) ∧ vars q = vs'
  | (inr v, vs') => ∀ out, LRun min v (at_ (pre ++ toks_of p e) rest vs' lv) out →
      ERun min (at_ pre (toks_of p e ++ rest) vs lv) out
  end.

Definition expr_correct (e : Exp) : Prop := ∀ min p pre rest vs lv,
  0 ≤ min ≤ p → p ≤ 15 → (p = 2 → min = 2) → follow p rest → correct min p e pre rest vs lv.

Definition operand_correct (ts : list Tok) (e : Exp) : Prop := ∀ pre rest vs lv, follow 15 rest →
  match meaning lv e vs with
  | (inl er, vs') => ∃ q, PRun (at_ pre (ts ++ rest) vs lv) (inl er, q) ∧ vars q = vs'
  | (inr v, vs') => PRun (at_ pre (ts ++ rest) vs lv) (inr v, at_ (pre ++ ts) rest vs' lv)
  end.

(** Where the loop has nothing to add. *)
Lemma correct_stop min p e pre rest vs lv v vs' : correct min p e pre rest vs lv → stops min rest →
  meaning lv e vs = (inr v, vs') →
  ERun min (at_ pre (toks_of p e ++ rest) vs lv) (inr v, at_ (pre ++ toks_of p e) rest vs' lv).
Proof. unfold correct. intros Hc Hs Hm. rewrite Hm in Hc. apply Hc. by apply LRun_stop. Qed.

(** An operand is an expression of every level. *)
Lemma operand_expr ts e min p pre rest vs lv : operand_correct ts e → toks_of p e = ts →
  (∀ rest, follow 15 rest → set_ahead (ts ++ rest) = false) →
  p ≤ 15 → follow p rest → correct min p e pre rest vs lv.
Proof.
  intros Ho <- Hs Hp Hf. apply follow_15 in Hf; [|done]. specialize (Ho pre rest vs lv Hf). unfold correct.
  destruct (meaning lv e vs) as [[er|v] vs'].
  - destruct Ho as (q & Hq & <-). exists q. split; [|done]. eapply ERun_plain; [by apply Hs|exact Hq|done].
  - intros out Hout. eapply ERun_plain; [by apply Hs|exact Ho|exact Hout].
Qed.

Lemma LRun_det min lhs (p : P V) o o' : LRun min lhs p o → LRun min lhs p o' → o = o'.
Proof.
  intros [f Hf] [f' Hf']. apply (loop_le f (f `max` f')) in Hf; [|lia]. apply (loop_le f' (f `max` f')) in Hf'; [|lia]. congruence.
Qed.

(** After an operand of level [q] or less, an operand of the next level stops. *)
Lemma follow_left p q l : p ≤ q → follow p l → follow (q + 1) l ∧ stops (q + 1) l.
Proof.
  intros Hp Hf. split; [apply (follow_weaken p); [lia|done]|].
  destruct l as [|[| |o| |] l]; try done. simpl in *. destruct (binding o) as [[q' r]|]; [|done]. left. lia.
Qed.

Lemma follow_else p l : p ≤ 3 → follow p l → follow 3 l ∧ stops 3 l.
Proof.
  intros Hp Hf. split; [destruct (decide (p = 3)) as [->|]; [done|apply (follow_weaken p); [lia|done]]|].
  destruct l as [|[| |o| |] l]; try done. simpl in *. destruct (binding o) as [[q' r]|] eqn:Eo; [|done].
  left. destruct Hf as (_ & [?|[-> ->]]); [lia|]. destruct o; simpl in Eo; simplify_eq; lia.
Qed.

Lemma follow_rhs p l : p = 0 ∨ p = 2 → follow p l → follow 2 l ∧ stops 2 l ∧ stops p l.
Proof.
  intros Hp Hf. split; [destruct Hp as [->| ->]; [apply (follow_weaken 0); [lia|done]|done]|].
  destruct l as [|[| |o| |] l]; try done. simpl in *. destruct (binding o) as [[q r]|] eqn:Eo; [|done].
  destruct Hf as (? & Hf). destruct Hp as [->| ->]; destruct Hf as [?|[-> ->]]; auto; try done;
    destruct o; simpl in Eo; simplify_eq; lia.
Qed.

Lemma bin_levels op l : bin_op op = true →
  let la := if rassoc op then prec op + 1 else prec op in
  prec op ≤ la ≤ 15 ∧ la ≠ 2 ∧ 0 ≤ prec op ≤ next_min op ∧ next_min op ≤ 15 ∧ follow la (TOp op :: l).
Proof.
  intros Hb. destruct op; try discriminate Hb; vm_compute; repeat split; try congruence; auto.
Qed.

(** A binary operator where its level needs no parentheses. *)
Lemma bin_correct op a b min p pre rest vs lv :
  expr_correct a → expr_correct b → bin_op op = true → 0 ≤ min ≤ p → p ≤ prec op → follow p rest →
  let ts := toks_of (if rassoc op then prec op + 1 else prec op) a ++ TOp op :: toks_of (next_min op) b in
  match meaning lv (EBin op a b) vs with
  | (inl er, vs') => ∃ q, ERun min (at_ pre (ts ++ rest) vs lv) (inl er, q) ∧ vars q = vs'
  | (inr v, vs') => ∀ out, LRun min v (at_ (pre ++ ts) rest vs' lv) out → ERun min (at_ pre (ts ++ rest) vs lv) out
  end.
Proof.
  intros Ha Hb Hop Hmin Hp Hf. set (la := if rassoc op then prec op + 1 else prec op).
  intros ts. destruct (follow_right p op rest Hop Hp Hf) as [F1 F2].
  set (tb := toks_of (next_min op) b) in *.
  assert (Ets : ts ++ rest = toks_of la a ++ TOp op :: tb ++ rest) by (unfold ts; by rewrite <- app_assoc).
  assert (Ca : correct min la a pre (TOp op :: tb ++ rest) vs lv).
  { destruct (bin_levels op (tb ++ rest) Hop) as (L1 & L2 & L3 & L4 & L5). fold la in L1, L2, L5. apply Ha; [lia|lia|done|done]. }
  rewrite Ets. unfold correct in Ca. simpl meaning. destruct (meaning lv a vs) as [[er|x] vs1]; [exact Ca|].
  assert (Cb : correct (next_min op) (next_min op) b ((pre ++ toks_of la a) ++ [TOp op]) rest vs1 lv).
  { destruct (bin_levels op [] Hop) as (L1 & L2 & L3 & L4 & L5). apply Hb; [lia|done|done|done]. }
  destruct (meaning lv b vs1) as [[er|y] vs2] eqn:Mb.
  - unfold correct in Cb. rewrite Mb in Cb. destruct Cb as (q & Hq & Hvs). exists q. split; [|done].
    apply Ca. eapply LRun_bin; [done|lia|exact Hq|done].
  - pose proof (correct_stop _ _ _ _ _ _ _ _ _ Cb F2 Mb) as Hq.
    assert (Epre : ((pre ++ toks_of la a) ++ [TOp op]) ++ tb = pre ++ ts) by (unfold ts; by rewrite <- !app_assoc).
    fold tb in Hq. rewrite Epre in Hq. destruct (apply op x y) as [er|v] eqn:Eop.
    + exists (at_ (pre ++ ts) rest vs2 lv). split; [|done]. apply Ca. eapply LRun_bin; [done|lia|exact Hq|].
      unfold next; simpl. by rewrite Eop.
    + intros out Hout. apply Ca. eapply LRun_bin; [done|lia|exact Hq|]. unfold next; simpl. by rewrite Eop.
Qed.

Lemma log_correct isand a b min p pre rest vs lv :
  expr_correct a → expr_correct b → 0 ≤ min ≤ p → p ≤ prec (log_op isand) → follow p rest →
  let ts := toks_of (prec (log_op isand)) a ++ TOp (log_op isand) :: toks_of (prec (log_op isand) + 1) b in
  match meaning lv (ELog isand a b) vs with
  | (inl er, vs') => ∃ q, ERun min (at_ pre (ts ++ rest) vs lv) (inl er, q) ∧ vars q = vs'
  | (inr v, vs') => ∀ out, LRun min v (at_ (pre ++ ts) rest vs' lv) out → ERun min (at_ pre (ts ++ rest) vs lv) out
  end.
Proof.
  intros Ha Hb Hmin Hp Hf ts. destruct (follow_left p _ rest Hp Hf) as [F1 F2].
  set (la := prec (log_op isand)) in *. set (tb := toks_of (la + 1) b) in *.
  assert (Hla : 4 ≤ la ≤ 5) by (unfold la; destruct isand; vm_compute; split; congruence).
  assert (Ets : ts ++ rest = toks_of la a ++ TOp (log_op isand) :: tb ++ rest) by (unfold ts; by rewrite <- app_assoc).
  assert (Ca : correct min la a pre (TOp (log_op isand) :: tb ++ rest) vs lv).
  { apply Ha; [lia|lia|lia|]. unfold la. destruct isand; simpl; split; auto; lia. }
  rewrite Ets. unfold correct in Ca. simpl meaning. destruct (meaning lv a vs) as [[er|x] vs1]; [exact Ca|].
  set (lv' := lv && negb (if isand then x =? 0 else negb (x =? 0))).
  assert (Cb : correct (la + 1) (la + 1) b ((pre ++ toks_of la a) ++ [TOp (log_op isand)]) rest vs1 lv')
    by (apply Hb; [lia|lia|lia|done]).
  destruct (meaning lv' b vs1) as [[er|y] vs2] eqn:Mb.
  - unfold correct in Cb. rewrite Mb in Cb. destruct Cb as (q & Hq & Hvs). exists q. split; [|done].
    apply Ca. eapply LRun_log; [fold la; lia|exact Hq|reflexivity].
  - pose proof (correct_stop _ _ _ _ _ _ _ _ _ Cb F2 Mb) as Hq. fold tb in Hq.
    assert (Epre : ((pre ++ toks_of la a) ++ [TOp (log_op isand)]) ++ tb = pre ++ ts) by (unfold ts; by rewrite <- !app_assoc).
    rewrite Epre in Hq. intros out Hout. apply Ca. eapply LRun_log; [fold la; lia|exact Hq|exact Hout].
Qed.

Lemma cond_correct c a b min p pre rest vs lv :
  expr_correct c → expr_correct a → expr_correct b → 0 ≤ min ≤ p → p ≤ 3 → follow p rest →
  let ts := toks_of 4 c ++ TOp OQuest :: toks_of 0 a ++ TOp OColon :: toks_of 3 b in
  match meaning lv (ECond c a b) vs with
  | (inl er, vs') => ∃ q, ERun min (at_ pre (ts ++ rest) vs lv) (inl er, q) ∧ vars q = vs'
  | (inr v, vs') => ∀ out, LRun min v (at_ (pre ++ ts) rest vs' lv) out → ERun min (at_ pre (ts ++ rest) vs lv) out
  end.
Proof.
  intros Hc Ha Hb Hmin Hp Hf ts. destruct (follow_else p rest Hp Hf) as [F1 F2].
  set (lb := toks_of 3 b ++ rest) in *. set (la := toks_of 0 a ++ TOp OColon :: lb).
  assert (Ets : ts ++ rest = toks_of 4 c ++ TOp OQuest :: la) by (unfold ts, la, lb; rewrite <- !app_assoc; simpl; by rewrite <- !app_assoc).
  assert (Cc : correct min 4 c pre (TOp OQuest :: la) vs lv) by (apply Hc; simpl; lia).
  rewrite Ets. unfold correct in Cc. simpl meaning. destruct (meaning lv c vs) as [[er|x] vs1]; [exact Cc|].
  assert (Ca : correct 0 0 a ((pre ++ toks_of 4 c) ++ [TOp OQuest]) (TOp OColon :: lb) vs1 (lv && negb (x =? 0)))
    by (apply Ha; simpl; done || lia).
  destruct (meaning (lv && negb (x =? 0)) a vs1) as [[er|y] vs2] eqn:Ma.
  { unfold correct in Ca. rewrite Ma in Ca. destruct Ca as (q & Hq & Hvs). exists q. split; [|done].
    apply Cc. eapply (LRun_cond _ _ _ _ lb); [lia|exact Hq|reflexivity]. }
  pose proof (correct_stop _ _ _ _ _ _ _ _ _ Ca I Ma) as Hq.
  set (pa := ((pre ++ toks_of 4 c) ++ [TOp OQuest]) ++ toks_of 0 a) in *.
  assert (Cb : correct 3 3 b (pa ++ [TOp OColon]) rest vs2 (lv && (x =? 0))) by (apply Hb; done || lia).
  destruct (meaning (lv && (x =? 0)) b vs2) as [[er|z] vs3] eqn:Mb.
  - unfold correct in Cb. rewrite Mb in Cb. destruct Cb as (q & Hq' & Hvs). exists q. split; [|done].
    apply Cc. eapply (LRun_cond _ _ _ _ lb); [lia|exact Hq|]. exists pa, vs2, (lv && negb (x =? 0)), (inl er, q). done.
  - pose proof (correct_stop _ _ _ _ _ _ _ _ _ Cb F2 Mb) as Hq'.
    assert (Epre : (pa ++ [TOp OColon]) ++ toks_of 3 b = pre ++ ts) by (unfold pa, ts; by rewrite <- !app_assoc).
    rewrite Epre in Hq'. intros out Hout. apply Cc. eapply (LRun_cond _ _ _ _ lb); [lia|exact Hq|].
    exists pa, vs2, (lv && negb (x =? 0)). eexists. split; [done|]. split; [exact Hq'|exact Hout].
Qed.

Lemma set_correct x op e min p pre rest vs lv :
  expr_correct e → set_op op = true → 0 ≤ min ≤ p → p = 0 ∨ p = 2 → (p = 2 → min = 2) → follow p rest →
  let ts := TName x :: TOp op :: toks_of 2 e in
  match meaning lv (ESet x op e) vs with
  | (inl er, vs') => ∃ q, ERun min (at_ pre (ts ++ rest) vs lv) (inl er, q) ∧ vars q = vs'
  | (inr v, vs') => ∀ out, LRun min v (at_ (pre ++ ts) rest vs' lv) out → ERun min (at_ pre (ts ++ rest) vs lv) out
  end.
Proof.
  intros He Hop Hmin Hp H2 Hf ts. destruct (follow_rhs p rest Hp Hf) as (F1 & F2 & F3).
  assert (min = p) as -> by lia.
  assert (Ce : correct 2 2 e (pre ++ [TName x; TOp op]) rest vs lv) by (apply He; done || lia).
  simpl meaning. destruct (meaning lv e vs) as [[er|rhs] vs1] eqn:Me.
  { unfold correct in Ce. rewrite Me in Ce. destruct Ce as (q & Hq & Hvs). exists q. split; [|done].
    eapply ERun_set; [done|lia|exact Hq|done]. }
  pose proof (correct_stop _ _ _ _ _ _ _ _ _ Ce F2 Me) as Hq.
  assert (Epre : (pre ++ [TName x; TOp op]) ++ toks_of 2 e = pre ++ ts) by (unfold ts; by rewrite <- app_assoc).
  rewrite Epre in Hq. destruct (if bool_decide (op = OAssign) then _ else _) as [er|v] eqn:Ev.
  - exists (at_ (pre ++ ts) rest vs1 lv). split; [|done]. eapply ERun_set; [done|lia|exact Hq|].
    exists (pre ++ ts), rest, vs1. split; [done|]. by rewrite Ev.
  - intros out Hout. assert (out = (inr v, at_ (pre ++ ts) rest (store lv x v vs1) lv)) as ->
      by (eapply LRun_det; [exact Hout|by apply LRun_stop]).
    eapply ERun_set; [done|lia|exact Hq|]. exists (pre ++ ts), rest, vs1. split; [done|]. by rewrite Ev.
Qed.

(** From the levels where [e] needs no parentheses to all of them. *)
Lemma all_levels e (bare : Z → bool) :
  (∀ p, toks_of p e = paren (negb (bare p)) (toks_of 0 e)) → bare 0 = true → bare 15 = false →
  (∀ min p pre rest vs lv, 0 ≤ min ≤ p → (p = 2 → min = 2) → follow p rest → bare p = true →
    correct min p e pre rest vs lv) →
  expr_correct e ∧ operand_correct (toks_of 15 e) e.
Proof.
  intros Ht H0 H15 Hbare.
  assert (Hw : ∀ p, bare p = false → toks_of p e = TLParen :: toks_of 0 e ++ [TRParen]) by (intros p E; by rewrite Ht, E).
  assert (Hop : operand_correct (TLParen :: toks_of 0 e ++ [TRParen]) e).
  { intros pre rest vs lv Hf. assert (C0 : correct 0 0 e (pre ++ [TLParen]) (TRParen :: rest) vs lv) by (apply Hbare; done || lia).
    simpl app. rewrite <- app_assoc. simpl app. destruct (meaning lv e vs) as [[er|v] vs'] eqn:Hm.
    - unfold correct in C0. rewrite Hm in C0. destruct C0 as (q & Hq & Hvs). exists q. split; [|done].
      exact (PRun_paren pre rest vs lv vs' (inl er, q) (toks_of 0 e) Hq I).
    - apply (correct_stop _ _ _ _ _ _ _ _ _ C0 I) in Hm.
      assert (E : (pre ++ [TLParen]) ++ toks_of 0 e = pre ++ TLParen :: toks_of 0 e) by (by rewrite <- app_assoc).
      rewrite E in Hm. exact (PRun_paren pre rest vs lv vs' (inr v, _) (toks_of 0 e) Hm eq_refl). }
  split; [|by rewrite Hw].
  intros min p pre rest vs lv Hmin Hp H2 Hf. destruct (bare p) eqn:Eb; [by apply Hbare|].
  by eapply operand_expr; [exact Hop|by apply Hw| | |].
Qed.

(** From an operand to every level. *)
Lemma operand_levels ts e : operand_correct ts e → (∀ p, toks_of p e = ts) →
  (∀ rest, follow 15 rest → set_ahead (ts ++ rest) = false) → expr_correct e ∧ operand_correct (toks_of 15 e) e.
Proof.
  intros Ho Ht Hs. split; [|by rewrite Ht]. intros min p pre rest vs lv _ Hp _ Hf. by eapply operand_expr.
Qed.

Lemma exp_correct e : wf_exp e → expr_correct e ∧ operand_correct (toks_of 15 e) e.
Proof.
  induction e as [n|x|pre_ op x|u e IH|op a IHa b IHb|isand a IHa b IHb|c IHc a IHa b IHb|x op e IH]; simpl wf_exp.
  - intros _. apply (operand_levels [TNum n]); [|done|done]. intros pre rest vs lv _. apply PRun_num.
  - intros _. apply (operand_levels [TName x]); [|done|intros rest; apply follow_set].
    intros pre rest vs lv Hf%follow_step. simpl meaning. pose proof (PRun_var x pre rest vs lv Hf) as Hr.
    destruct (var x vs) as [er|v]; [eexists; split; [exact Hr|done]|exact Hr].
  - intros Hop. apply (operand_levels (toks_of 15 (EStep pre_ op x))); [|by destruct pre_| ].
    + intros pre rest vs lv _. simpl meaning. pose proof (PRun_step pre_ op x pre rest vs lv Hop) as Hr.
      destruct (var x vs) as [er|v]; [eexists; split; [exact Hr|done]|exact Hr].
    + intros rest _. destruct pre_; [done|]. by destruct Hop as [-> | ->].
  - intros Hwf. destruct (IH Hwf) as [_ Ho]. apply (operand_levels (TOp (un_op u) :: toks_of 15 e)); [|done|done].
    intros pre rest vs lv Hf. specialize (Ho (pre ++ [TOp (un_op u)]) rest vs lv Hf). simpl meaning. simpl app.
    destruct (meaning lv e vs) as [[er|v] vs'].
    + destruct Ho as (q & Hq & Hvs). exists q. split; [|done]. exact (PRun_un u _ _ _ _ _ Hq).
    + rewrite <- app_assoc in Ho. exact (PRun_un u _ _ _ _ _ Ho).
  - intros (Hop & Ha & Hb). destruct (bin_levels op [] Hop) as (L1 & _ & L3 & _). 
    assert (prec op < 15) by (destruct op; try discriminate Hop; vm_compute; done).
    apply (all_levels _ (λ p, negb (prec op <? p))); [intros p|..].
    + rewrite negb_involutive. simpl. by rewrite (proj2 (Z.ltb_ge (prec op) 0)) by lia.
    + by rewrite (proj2 (Z.ltb_ge (prec op) 0)) by lia.
    + by rewrite (proj2 (Z.ltb_lt (prec op) 15)) by lia.
    + intros min p pre rest vs lv Hmin _ Hf Hp%negb_true_iff. unfold correct. cbn [toks_of]. rewrite Hp.
      apply Z.ltb_ge in Hp. apply (bin_correct op a b min p pre rest vs lv); [by apply IHa|by apply IHb|done..].
  - intros (Ha & Hb). assert (HL : 4 ≤ prec (log_op isand) ≤ 5) by (destruct isand; vm_compute; split; congruence).
    apply (all_levels _ (λ p, negb (prec (log_op isand) <? p))); [intros p|..].
    + rewrite negb_involutive. simpl. fold (log_op isand). by rewrite (proj2 (Z.ltb_ge (prec (log_op isand)) 0)) by lia.
    + by rewrite (proj2 (Z.ltb_ge (prec (log_op isand)) 0)) by lia.
    + by rewrite (proj2 (Z.ltb_lt (prec (log_op isand)) 15)) by lia.
    + intros min p pre rest vs lv Hmin _ Hf Hp%negb_true_iff. unfold correct. cbn [toks_of]. fold (log_op isand). rewrite Hp.
      apply Z.ltb_ge in Hp. apply (log_correct isand a b min p pre rest vs lv); [by apply IHa|by apply IHb|done..].
  - intros (Hc & Ha & Hb). apply (all_levels _ (λ p, negb (3 <? p))); [intros p|done|done|].
    + by rewrite negb_involutive.
    + intros min p pre rest vs lv Hmin _ Hf Hp%negb_true_iff. unfold correct. cbn [toks_of]. rewrite Hp.
      apply Z.ltb_ge in Hp. apply (cond_correct c a b min p pre rest vs lv); [by apply IHc|by apply IHa|by apply IHb|done..].
  - intros (Hop & He). apply (all_levels _ (λ p, (p =? 0) || (p =? 2))); [done|done|done|].
    intros min p pre rest vs lv Hmin H2 Hf Hp. unfold correct. cbn [toks_of]. rewrite Hp.
    apply (set_correct x op e min p pre rest vs lv); [by apply IH|done|done| |done|done].
    apply orb_true_iff in Hp as [?%Z.eqb_eq|?%Z.eqb_eq]; auto.
Qed.
End Correct.
