(* ===== verification/ArithText.v ===== *)
(** * Shell arithmetic: from text to values

    The text of an expression, its tokens separated by blanks, is read back by
    the lexer; with the parser this gives the evaluator's round trip. *)

From Stdlib Require Import Strings.String.
From S2P Require Import Prelude Text Arith ArithProofs ArithSpec.

(** ** Numbers *)

Lemma dec_go_head fuel : ∀ n acc, 0 < n < 10 ^ Z.of_nat fuel → ∃ c l, dec_go fuel n acc = c :: l ∧ c ≠ 48.
Proof.
  induction fuel as [|fuel IH]; intros n acc Hn; [simpl in Hn; lia|]. cbn [dec_go]. destruct (Z.ltb_spec n 10).
  - eexists _, _. split; [done|]. rewrite Z.mod_small by lia. lia.
  - rewrite Nat2Z.inj_succ, Z.pow_succ_r in Hn by lia. apply IH.
    pose proof (Z.div_mod n 10). pose proof (Z.mod_pos_bound n 10). lia.
Qed.

Lemma radix_parse_digits l : ∀ acc v, Forall (λ c, is_ascii_digit c = true) l → 0 ≤ acc →
  parse_digits I64_MAX acc l = Some v → radix_digits 10 false acc l = Some v.
Proof.
  induction l as [|c l IH]; intros acc v Hd Ha; [done|]. apply Forall_cons in Hd as [Hc Hd].
  cbn [parse_digits radix_digits]. rewrite Hc. unfold to_digit. rewrite Hc.
  assert (48 ≤ c ≤ 57) by (unfold is_ascii_digit, between in Hc; lia).
  rewrite (proj2 (Z.ltb_lt _ _)) by lia. cbn [mbind option_bind].
  destruct (Z.leb_spec (acc * 10 + (c - 48)) I64_MAX); [|done].
  rewrite (proj2 (Z.leb_le I64_MIN _)) by (unfold I64_MIN; lia). apply IH; [done|lia].
Qed.

Lemma split_hash_digits l : Forall (λ c, is_ascii_digit c = true) l → split_hash l = None.
Proof.
  induction 1 as [|c l Hc _ IH]; [done|]. simpl. rewrite IH.
  rewrite (proj2 (Z.eqb_neq c 35)); [done|]. unfold is_ascii_digit, between in Hc. lia.
Qed.

Lemma dec_digits_i64 n : 0 ≤ n ≤ I64_MAX →
  parse_digits I64_MAX 0 (dec n) = Some n ∧ dec n ≠ [] ∧ Forall (λ c, is_ascii_digit c = true) (dec n).
Proof.
  intros Hn. destruct (parse_dec_go I64_MAX 64 n []) as (l & Hl & Hp & Hne & Hd); [done|done| |].
  - assert (I64_MAX < 10 ^ Z.of_nat 64) by (vm_compute; reflexivity). lia.
  - rewrite app_nil_r in Hl. unfold dec. by rewrite Hl.
Qed.

(** A decimal literal has no leading zero, so it is not read as octal. *)
Lemma parse_num_dec n : 0 ≤ n ≤ I64_MAX → parse_num (dec n) = inr n.
Proof.
  intros Hn. destruct (dec_digits_i64 n Hn) as (Hp & Hne & Hd).
  assert (Hr : from_str_radix 10 (dec n) = Some n).
  { apply radix_parse_digits in Hp; [|done|done]. unfold from_str_radix. destruct (dec n) as [|c l]; [done|].
    apply Forall_cons in Hd as [Hc _]. unfold is_ascii_digit, between in Hc.
    rewrite (proj2 (Z.eqb_neq c 43)), (proj2 (Z.eqb_neq c 45)) by lia. done. }
  destruct (decide (n = 0)) as [->|Hn0]; [reflexivity|].
  assert (Hh : ∃ c l, dec n = c :: l ∧ c ≠ 48).
  { apply dec_go_head. assert (I64_MAX < 10 ^ Z.of_nat 64) by (vm_compute; reflexivity). lia. }
  destruct Hh as (c & l & E & Hc). unfold parse_num. rewrite (split_hash_digits _ Hd), Hr, E.
  assert (Hz : ∀ x, strip_prefix (48 :: x) (c :: l) = None).
  { intros x. cbn [strip_prefix]. by rewrite (proj2 (Z.eqb_neq 48 c)) by congruence. }
  change (txt "0x") with [48; 120]. change (txt "0X") with [48; 88]. rewrite !Hz.
  unfold starts_with. change (txt "0") with [48]. rewrite Hz. by rewrite andb_false_r.
Qed.

(** ** Tokens *)

Definition tok_text (t : Tok) : list Z :=
  match t with TNum n => dec n | TName x => x | TOp o => op_text o | TLParen => [40] | TRParen => [41] end.

Definition render (ts : list Tok) : list Z := concat ((λ t, tok_text t ++ [32]) <$> ts).

Definition name_ok (x : list Z) : Prop :=
  match x with
  | [] => False
  | c :: l => (c =? 95) || is_ascii_alphabetic c = true ∧ Forall (λ c, name_char c = true) l
  end.

Definition tok_wf (t : Tok) : Prop :=
  match t with TNum n => 0 ≤ n ≤ I64_MAX | TName x => name_ok x | _ => True end.

Lemma span_app p l c r : Forall (λ c, p c = true) l → p c = false → span p (l ++ c :: r) = (l, c :: r).
Proof. intros Hl Hc. induction Hl as [|d l Hd _ IH]; simpl; [by rewrite Hc|]. by rewrite Hd, IH. Qed.

Lemma digit_num_char c : is_ascii_digit c = true → num_char c = true.
Proof. intros Hc. unfold num_char, is_ascii_alphanumeric. by rewrite Hc, orb_true_r. Qed.

Lemma find_op_text o r : find_op (take 3 (op_text o ++ 32 :: r)) = Some o.
Proof. destruct o; destruct r; reflexivity. Qed.

Lemma name_start c : (c =? 95) || is_ascii_alphabetic c = true →
  is_whitespace c = false ∧ is_ascii_digit c = false ∧ name_char c = true.
Proof.
  intros Hc. unfold is_ascii_alphabetic, is_ascii_lower, is_ascii_upper, between in Hc.
  split_and!; [unfold is_whitespace, between; lia|unfold is_ascii_digit, between; lia|].
  unfold name_char, is_ascii_alphanumeric, is_ascii_alphabetic, is_ascii_lower, is_ascii_upper, between. lia.
Qed.

Lemma digit_start c : is_ascii_digit c = true → is_whitespace c = false.
Proof. unfold is_ascii_digit, is_whitespace, between. lia. Qed.

Lemma lex_num f c l out : is_ascii_digit c = true →
  lex_go (S f) (c :: l) out =
  match parse_num (span num_char (c :: l)).1 with
  | inl e => Some (inl e)
  | inr n => lex_go f (span num_char (c :: l)).2 (out ++ [TNum n])
  end.
Proof. intros Hc. cbn [lex_go]. by rewrite (digit_start c Hc), Hc. Qed.

Lemma lex_name f c l out : (c =? 95) || is_ascii_alphabetic c = true →
  lex_go (S f) (c :: l) out = lex_go f (span name_char (c :: l)).2 (out ++ [TName (span name_char (c :: l)).1]).
Proof. intros Hc. destruct (name_start c Hc) as (N1 & N2 & _). cbn [lex_go]. by rewrite N1, N2, Hc. Qed.

(** One token and the blank behind it. *)
Lemma lex_token f t r out : tok_wf t →
  lex_go (S (S f)) (tok_text t ++ 32 :: r) out = lex_go f r (out ++ [t]).
Proof.
  intros Ht. assert (Hsp : ∀ o, lex_go (S f) (32 :: r) o = lex_go f r o) by done.
  destruct t as [n|x|o| |]; simpl tok_text; simpl in Ht.
  - destruct (dec_digits_i64 n Ht) as (_ & Hne & Hd).
    assert (Hs : span num_char (dec n ++ 32 :: r) = (dec n, 32 :: r)).
    { apply span_app; [|done]. eapply Forall_impl; [exact Hd|]. intros c. apply digit_num_char. }
    destruct (dec n) as [|c l] eqn:E; [done|]. apply Forall_cons in Hd as [Hc _]. simpl app in *.
    rewrite lex_num, Hs by done. cbn [fst snd]. rewrite <- E, parse_num_dec by done. apply Hsp.
  - destruct x as [|c l]; [done|]. destruct Ht as [Hc Hl]. destruct (name_start c Hc) as (N1 & N2 & N3).
    assert (Hs : span name_char ((c :: l) ++ 32 :: r) = (c :: l, 32 :: r)) by (apply span_app; [by constructor|done]).
    simpl app in *. rewrite lex_name, Hs by done. apply Hsp.
  - pose proof (find_op_text o r) as Ho. destruct o; cbn [lex_go op_text txt app] in *; try reflexivity.
  - done.
  - done.
Qed.

Lemma render_cons t ts : render (t :: ts) = tok_text t ++ 32 :: render ts.
Proof. unfold render. simpl. by rewrite <- app_assoc. Qed.

Lemma tok_text_pos t : tok_wf t → (0 < length (tok_text t))%nat.
Proof.
  destruct t as [n|x|o| |]; simpl; intros Ht; try lia; [|by destruct x; simpl in *; [|lia]|apply op_text_pos].
  destruct (dec_digits_i64 n Ht) as (_ & Hne & _). destruct (dec n); [done|simpl; lia].
Qed.

Lemma lex_render ts : Forall tok_wf ts → lex (render ts) = Some (inr ts).
Proof.
  assert (H : ∀ f out, Forall tok_wf ts → (length (render ts) < f)%nat → lex_go f (render ts) out = Some (inr (out ++ ts))).
  { induction ts as [|t ts IH]; intros f out Ht Hf.
    - destruct f; [simpl in Hf; lia|]. simpl. by rewrite app_nil_r.
    - apply Forall_cons in Ht as [Ht Hts]. rewrite render_cons in *. rewrite length_app in Hf. simpl in Hf.
      pose proof (tok_text_pos t Ht). destruct f as [|[|f]]; [lia|lia|].
      rewrite lex_token, IH by (done || lia). by rewrite <- app_assoc. }
  intros Ht. unfold lex. by rewrite H by (done || lia).
Qed.

(** ** Expressions *)

Fixpoint names_ok (e : Exp) : Prop :=
  match e with
  | ENum _ => True
  | EVar x | EStep _ _ x => name_ok x
  | EUn _ e => names_ok e
  | EBin _ a b | ELog _ a b => names_ok a ∧ names_ok b
  | ECond c a b => names_ok c ∧ names_ok a ∧ names_ok b
  | ESet x _ e => name_ok x ∧ names_ok e
  end.

Lemma paren_wf b ts : Forall tok_wf ts → Forall tok_wf (paren b ts).
Proof. destruct b; [|done]. intros. simpl. constructor; [done|]. apply Forall_app. split; [done|]. by repeat constructor. Qed.

Lemma toks_wf e : ∀ p, wf_exp e → names_ok e → Forall tok_wf (toks_of p e).
Proof.
  induction e; intros p Hw Hn; cbn [toks_of]; simpl in Hw, Hn; destruct_and?; repeat case_match;
    try apply paren_wf; repeat first [apply Forall_app; split | apply Forall_cons; split | apply Forall_nil]; simpl; auto.
Qed.

Lemma toks_ok ts : Forall tok_wf ts → Forall tok_ok ts.
Proof. intros Ht. eapply Forall_impl; [exact Ht|]. intros [n| | | |]; simpl; try done. unfold in_i64, I64_MIN. lia. Qed.

Lemma toks_nonempty p e : toks_of p e ≠ [].
Proof.
  destruct e as [| |[]| |op a b|i a b|c a b|]; cbn [toks_of]; try done; unfold paren;
    [destruct (_ <? _)|destruct (_ <? _)|destruct (_ <? _)|destruct (negb _)]; try done; intros [_ ?]%app_eq_nil; done.
Qed.

(** Evaluation is a run of the parser over the tokens, which must use them up. *)
Lemma eval_run {V} `{Vars V} (ts : list Tok) (vs : V) r p : ts ≠ [] → Forall tok_wf ts → ERun 0 (at_ [] ts vs true) (r, p) →
  eval (render ts) vs = Some (match r with
                              | inl e => inl e
                              | inr v => if bool_decide (pos p = length ts) then inr v else inl (SyntaxError (render ts))
                              end, vars p).
Proof.
  intros Hne Ht [f Hf]. unfold eval. rewrite lex_render by done. cbn [mbind option_bind]. change (at_ [] ts vs true) with (mkP ts 0 vs true) in Hf.
  destruct (expr_run ts vs true 0 (toks_ok _ Ht)) as (r' & p' & Er & _). destruct ts as [|t ts]; [done|].
  assert ((r, p) = (r', p')) as [= -> ->]; [|by rewrite Er].
  apply (expr_le f (f `max` parse_fuel (t :: ts))) in Hf; [|lia]. apply (expr_le _ (f `max` parse_fuel (t :: ts))) in Er; [|lia]. congruence.
Qed.

(** An assignment ends where its right-hand side does, also before a comma. *)
Lemma set_stops {V} `{Vars V} x op a tl (vs : V) : wf_exp a → set_op op = true →
  let ts := TName x :: TOp op :: toks_of 2 a in
  match meaning true (ESet x op a) vs with
  | (inl er, vs') => ∃ q, ERun 0 (at_ [] (ts ++ TOp OComma :: tl) vs true) (inl er, q) ∧ vars q = vs'
  | (inr v, vs') => ERun 0 (at_ [] (ts ++ TOp OComma :: tl) vs true) (inr v, at_ ts (TOp OComma :: tl) vs' true)
  end.
Proof.
  intros Hw Hop ts. destruct (exp_correct (V := V) a Hw) as [Hc _].
  assert (Ce : correct 2 2 a [TName x; TOp op] (TOp OComma :: tl) vs true) by (apply Hc; [lia|lia|done|split; [done|by left]]).
  simpl meaning. destruct (meaning true a vs) as [[er|rhs] vs1] eqn:Me.
  { unfold correct in Ce. rewrite Me in Ce. destruct Ce as (q & Hq & Hvs). exists q. split; [|done]. by eapply (ERun_set 0 x op [] _ vs true (inl er, q)). }
  pose proof (correct_stop _ _ _ _ _ _ _ _ _ Ce ltac:(by left) Me) as Hq.
  assert (∀ out, out = match (if bool_decide (op = OAssign) then inr rhs
                   else match var x vs1 with inl e => inl e | inr old => apply (base_op op) old rhs end) with
            | inl e => (inl e, at_ ts (TOp OComma :: tl) vs1 true)
            | inr v => (inr v, at_ ts (TOp OComma :: tl) (store true x v vs1) true)
            end → ERun 0 (at_ [] (ts ++ TOp OComma :: tl) vs true) out) as Hset.
  { intros out ->. eapply (ERun_set 0 x op [] _ vs true); [done|lia|exact Hq|]. by exists ts, (TOp OComma :: tl), vs1. }
  destruct (if bool_decide (op = OAssign) then _ else _) as [er|v]; [|by apply Hset].
  exists (at_ ts (TOp OComma :: tl) vs1 true). split; [by apply Hset|done].
Qed.

(** C34. The evaluator gives operators their precedence and associativity.  The
    text of an expression tree has parentheses where an operand binds less than
    its place asks for by the precedences of C, and around an assignment to the
    left of a comma.  Evaluating it gives the meaning of the tree: its value or
    its error, and the same assignments.  The parentheses left of a comma, which
    C does not ask for, are needed here: without them the assignment is made and
    the evaluation then fails with a syntax error. *)
Theorem arith_roundtrip {V} `{Vars V} (e : Exp) (vs : V) : wf_exp e → names_ok e →
  eval (render (toks_of 0 e)) vs = Some (meaning true e vs) ∧
  ∀ x op a b, e = EBin OComma (ESet x op a) b →
    let text := render ((TName x :: TOp op :: toks_of 2 a) ++ TOp OComma :: toks_of 2 b) in
    eval text vs = Some (match meaning true (ESet x op a) vs with
                         | (inl er, vs') => (inl er, vs')
                         | (inr _, vs') => (inl (SyntaxError text), vs')
                         end).
Proof.
  intros Hw Hn. split.
  - pose proof (toks_wf e 0 Hw Hn) as Ht. destruct (exp_correct (V := V) e Hw) as [Hc _].
    assert (correct 0 0 e [] [] vs true) as C by (apply (Hc 0 0 [] [] vs true); done || lia). destruct (meaning true e vs) as [[er|v] vs'] eqn:Hm.
    + unfold correct in C. rewrite Hm in C. destruct C as (q & Hq & <-). rewrite app_nil_r in Hq. by rewrite (eval_run _ _ _ _ (toks_nonempty 0 e) Ht Hq).
    + apply (correct_stop _ _ _ _ _ _ _ _ _ C I) in Hm. rewrite app_nil_r in Hm. rewrite (eval_run _ _ _ _ (toks_nonempty 0 e) Ht Hm). simpl. by rewrite bool_decide_true.
  - intros x op a b -> text. simpl in Hw, Hn. destruct Hw as (_ & (Hop & Ha) & Hb), Hn as ((Hx & Hna) & Hnb).
    assert (Forall tok_wf ((TName x :: TOp op :: toks_of 2 a) ++ TOp OComma :: toks_of 2 b)) as Ht.
    { apply Forall_app. split; repeat (apply Forall_cons; split); try done; by apply toks_wf. }
    assert ((TName x :: TOp op :: toks_of 2 a) ++ TOp OComma :: toks_of 2 b ≠ []) as Hne by done.
    pose proof (set_stops x op a (toks_of 2 b) vs Ha Hop) as Hs. cbv zeta in Hs. destruct (meaning true (ESet x op a) vs) as [[er|v] vs'].
    + destruct Hs as (q & Hq & <-). unfold text. by rewrite (eval_run _ _ _ _ Hne Ht Hq).
    + unfold text. rewrite (eval_run _ _ _ _ Hne Ht Hs). rewrite bool_decide_false; [done|]. cbn [pos at_]. rewrite length_app. cbn [length]. lia.
Qed.

(** ** Runs *)

(** A store of variables: the latest assignment first. *)
#[export] Instance list_vars : Vars (list (list Z * list Z)) := {
  vget vs n := snd <$> (snd <$> list_find (λ p, p.1 = n) vs);
  vset vs n x := (n, x) :: vs;
}.

(** [x = 2 + 3 * (4 - 1) && (y += 1)] over no variables. *)
Definition demo_exp : Exp :=
  ESet (txt "x") OAssign (ELog true (EBin OAdd (ENum 2) (EBin OMul (ENum 3) (EBin OSub (ENum 4) (ENum 1)))) (ESet (txt "y") OAddEq (ENum 1))).

Lemma arith_roundtrip_witness :
  render (toks_of 0 demo_exp) = txt "x = 2 + 3 * ( 4 - 1 ) && ( y += 1 ) " ∧
  eval (render (toks_of 0 demo_exp)) [] = Some (inr 1, [(txt "x", txt "1"); (txt "y", txt "1")]).
Proof.
  split; [reflexivity|]. destruct (arith_roundtrip demo_exp []) as [-> _]; [| |reflexivity].
  - simpl. unfold I64_MAX. repeat split; lia.
  - simpl. repeat split; repeat constructor.
Defined.

(** An assignment ends its expression, so a comma behind it is an error. *)
Lemma comma_after_assignment :
  fst <$> eval (txt "a = 1, a + 1") [] = Some (inl (SyntaxError (txt "a = 1, a + 1"))).
Proof. reflexivity. Qed.

(** A skipped operand is still evaluated for its errors. *)
Lemma skipped_division : fst <$> eval (txt "0 && 1 / 0") [] = Some (inl DivisionByZero).
Proof. reflexivity. Qed.
