(* ===== verification/EventFd.v ===== *)
(** * Event counters

    Models [kernel/src/fs/eventfd.rs].  As in [Pipe], a call runs in turns until
    it returns or sleeps; the counter is the whole state. *)

From S2P Require Import Prelude Errno Pipe.

Definition EFD_SEMAPHORE : Z := 1.
Definition EFD_NONBLOCK : Z := 2048.
Definition COUNT_MAX : Z := u64_max - 1.

Record EventFd := mkEvent { ev_count : Z; semaphore : bool; ev_nonblock : bool }.

(** [new]: the initial value is 32 bits wide. *)
Definition new_event (initval flags : Z) : EventFd :=
  mkEvent initval (negb (Z.land flags EFD_SEMAPHORE =? 0)) (negb (Z.land flags EFD_NONBLOCK =? 0)).

Definition with_count (c : Z) (e : EventFd) : EventFd := mkEvent c (semaphore e) (ev_nonblock e).

Inductive EvCall := EvRead (buflen : Z) | EvWrite (buf : list Z) | EvNonblock (on : bool).

(** How a turn ends: the value a read copies out, or nothing for a write. *)
Inductive EvTurn := EvDone (val : option Z) | EvErr (e : Errno) | EvSleep.

(** Where the counter does not allow the call. *)
Definition ev_wait (signal : bool) (e : EventFd) : EvTurn :=
  if ev_nonblock e then EvErr EAGAIN
  else match wait_pass false signal false with Interrupted => EvErr EINTR | _ => EvSleep end.

Definition event_read (buflen : Z) (signal : bool) (e : EventFd) : EvTurn * EventFd :=
  if buflen <? 8 then (EvErr EINVAL, e)
  else if 0 <? ev_count e then
    if semaphore e then (EvDone (Some 1), with_count (ev_count e - 1) e)
    else (EvDone (Some (ev_count e)), with_count 0 e)
  else (ev_wait signal e, e).

(** [None] is the panic of a subtraction below zero or an overflow. *)
Definition event_write (buf : list Z) (signal : bool) (e : EventFd) : option (EvTurn * EventFd) :=
  if Z.of_nat (length buf) <? 8 then Some (EvErr EINVAL, e)
  else
    let add := le_val (take 8 buf) in
    if add =? u64_max then Some (EvErr EINVAL, e)
    else
      room ← sub64 COUNT_MAX (ev_count e);
      if add <=? room then c ← add64 (ev_count e) add; Some (EvDone None, with_count c e)
      else Some (ev_wait signal e, e).

Definition event_poll (e : EventFd) : Z :=
  Z.lor (if 0 <? ev_count e then POLL_IN else 0) (if ev_count e <? COUNT_MAX then POLL_OUT else 0).

(** The request [FIONBIO] of [ioctl], once its argument is read. *)
Definition set_nonblock (on : bool) (e : EventFd) : EventFd := mkEvent (ev_count e) (semaphore e) on.

Definition event_turn (c : EvCall) (signal : bool) (e : EventFd) : option (EvTurn * EventFd) :=
  match c with
  | EvRead n => Some (event_read n signal e)
  | EvWrite buf => event_write buf signal e
  | EvNonblock on => Some (EvDone None, set_nonblock on e)
  end.

(** A history: turns of any calls, one after another. *)
Fixpoint event_run (cs : list (EvCall * bool)) (e : EventFd) : option (list EvTurn * EventFd) :=
  match cs with
  | [] => Some ([], e)
  | (c, sg) :: cs =>
      '(t, e') ← event_turn c sg e;
      '(ts, e'') ← event_run cs e';
      Some (t :: ts, e'')
  end.

(** What finished calls put in and took out. *)
Fixpoint put_in (cs : list (EvCall * bool)) (ts : list EvTurn) : Z :=
  match cs, ts with
  | (EvWrite buf, _) :: cs, EvDone _ :: ts => le_val (take 8 buf) + put_in cs ts
  | _ :: cs, _ :: ts => put_in cs ts
  | _, _ => 0
  end.
Fixpoint taken_out (ts : list EvTurn) : Z :=
  match ts with
  | EvDone (Some v) :: ts => v + taken_out ts
  | _ :: ts => taken_out ts
  | [] => 0
  end.

(** ** The invariant *)

Definition counter_ok (e : EventFd) : Prop := 0 ≤ ev_count e ≤ COUNT_MAX.

Definition call_bytes (c : EvCall * bool) : Prop := match c.1 with EvWrite buf => Forall is_byte buf | _ => True end.

Lemma le_val_nonneg l : Forall is_byte l → 0 ≤ le_val l.
Proof. induction 1 as [|b l Hb _ IH]; simpl; [done|]. unfold is_byte in Hb. lia. Qed.

Lemma ev_wait_done sg e v : ev_wait sg e ≠ EvDone v.
Proof. unfold ev_wait. destruct (ev_nonblock e), sg; done. Qed.

(** A read takes a positive amount when it can, a write sleeps only where its
    amount does not fit, and what is taken and put is what the counter changes by. *)
Lemma event_turn_ok c sg e : counter_ok e → call_bytes (c, sg) →
  ∃ t e', event_turn c sg e = Some (t, e') ∧ counter_ok e' ∧
    semaphore e' = semaphore e ∧
    ev_count e + put_in [(c, sg)] [t] = taken_out [t] + ev_count e' ∧
    (∀ v, t = EvDone (Some v) → 0 < v ∧ (semaphore e = true → v = 1)) ∧
    (t = EvSleep → e' = e ∧ match c with
      | EvRead _ => ev_count e = 0
      | EvWrite buf => COUNT_MAX < ev_count e + le_val (take 8 buf)
      | EvNonblock _ => False end).
Proof.
  intros [H0 H1] Hb. destruct c as [n|buf|on]; simpl.
  - unfold event_read. destruct (n <? 8); [eexists _, _; split; [done|]; split_and!; done || lia|].
    destruct (Z.ltb_spec 0 (ev_count e)); [destruct (semaphore e) eqn:Es|]; eexists _, _; (split; [done|]);
      unfold counter_ok; simpl; rewrite ?Es.
    + split_and!; [lia|lia|done|lia|intros v [= <-]; split; [lia|done]|done].
    + split_and!; [lia|unfold COUNT_MAX, u64_max, U64; lia|done|lia|intros v [= <-]; split; [lia|done]|done].
    + split_and!; [done|done|done| |intros v E; by apply ev_wait_done in E|intros _; split; [done|lia]].
      pose proof (ev_wait_done sg e) as Hw. destruct (ev_wait sg e) as [v| |]; [by destruct (Hw v)|lia..].
  - unfold event_write. destruct (_ <? 8); [eexists _, _; split; [done|]; split_and!; done || (simpl; lia)|].
    assert (Ha : 0 ≤ le_val (take 8 buf)) by (apply le_val_nonneg, Forall_take, Hb).
    destruct (Z.eqb_spec (le_val (take 8 buf)) u64_max); [eexists _, _; split; [done|]; split_and!; done || (simpl; lia)|].
    rewrite sub64_ok by done. cbn [mbind option_bind].
    destruct (Z.leb_spec (le_val (take 8 buf)) (COUNT_MAX - ev_count e)).
    + rewrite add64_ok by (unfold COUNT_MAX, u64_max in *; lia). cbn [mbind option_bind].
      eexists _, _. split; [done|]. unfold counter_ok; simpl. split_and!; done || lia.
    + eexists _, _. split; [done|]. split_and!; [done..| |intros v E; by apply ev_wait_done in E|intros _; split; [done|lia]].
      pose proof (ev_wait_done sg e) as Hw. destruct (ev_wait sg e) as [v| |]; [by destruct (Hw v)|simpl; lia..].
  - eexists _, _. split; [done|]. split_and!; done || (simpl; lia).
Qed.

Lemma put_in_cons c cs t ts : put_in (c :: cs) (t :: ts) = put_in [c] [t] + put_in cs ts.
Proof. destruct c as [[] ?], t as [[]| |]; simpl; lia. Qed.

Lemma taken_out_cons t ts : taken_out (t :: ts) = taken_out [t] + taken_out ts.
Proof. destruct t as [[]| |]; simpl; lia. Qed.

(** The counter conserves what is put in: over every sequence of turns of
    reads, writes and mode changes no turn panics, the counter stays below its
    limit, the initial value and everything written equal everything read and
    what is left, and reads return positive values, one each in semaphore mode. *)
Theorem eventfd_conserves cs initval flags : 0 ≤ initval < U32 → Forall call_bytes cs →
  ∃ ts e, event_run cs (new_event initval flags) = Some (ts, e) ∧ counter_ok e ∧
    initval + put_in cs ts = taken_out ts + ev_count e ∧
    Forall (λ t, ∀ v, t = EvDone (Some v) → 0 < v ∧ (semaphore e = true → v = 1)) ts.
Proof.
  intros Hi Hcs. assert (Hgen : ∀ e0, counter_ok e0 → ∃ ts e, event_run cs e0 = Some (ts, e) ∧ counter_ok e ∧
    semaphore e = semaphore e0 ∧ ev_count e0 + put_in cs ts = taken_out ts + ev_count e ∧
    Forall (λ t, ∀ v, t = EvDone (Some v) → 0 < v ∧ (semaphore e0 = true → v = 1)) ts).
  { induction Hcs as [|[c sg] cs Hc Hcs IH]; intros e0 He0.
    - exists [], e0. simpl. split_and!; done || lia.
    - destruct (event_turn_ok c sg e0 He0 Hc) as (t & e1 & E1 & O1 & S1 & C1 & V1 & _).
      destruct (IH e1 O1) as (ts & e & E & O & S & C & V). exists (t :: ts), e.
      cbn [event_run]. rewrite E1. cbn [mbind option_bind]. rewrite E. cbn [mbind option_bind].
      rewrite put_in_cons, taken_out_cons. split; [done|]. split; [done|]. split; [congruence|]. split; [lia|].
      constructor; [done|]. by rewrite <- S1. }
  destruct (Hgen (new_event initval flags)) as (ts & e & E & O & S & C & V).
  { unfold counter_ok, new_event, COUNT_MAX, u64_max, U64, U32 in *; simpl; lia. }
  exists ts, e. split; [done|]. split; [done|]. split; [done|]. by rewrite S.
Qed.

(** A semaphore of two: a write of three, two reads, and a mode change. *)
Lemma eventfd_conserves_witness :
  let cs := [(EvWrite [3; 0; 0; 0; 0; 0; 0; 0], false); (EvRead 8, false); (EvNonblock true, false); (EvRead 8, false); (EvRead 4, false)] in
  fst <$> event_run cs (new_event 2 1) = Some [EvDone None; EvDone (Some 1); EvDone None; EvDone (Some 1); EvErr EINVAL] ∧
  ∃ ts e, event_run cs (new_event 2 1) = Some (ts, e) ∧ counter_ok e ∧ 2 + put_in cs ts = taken_out ts + ev_count e ∧
    Forall (λ t, ∀ v, t = EvDone (Some v) → 0 < v ∧ (semaphore e = true → v = 1)) ts.
Proof.
  intros cs. split; [reflexivity|]. apply (eventfd_conserves cs 2 1); [unfold U32; lia|].
  repeat first [apply Forall_nil_2 | apply Forall_cons_2 | exact I | unfold is_byte; lia | progress cbn].
Defined.
