(* ===== verification/ArchivePath.v ===== *)
(** * Member names of archives

    Models [lib/archive/src/path.rs], which keeps extraction inside its
    destination: names are split at slashes, made relative, and refused when a
    component is two dots.  Text is the list of its characters. *)

From Stdlib Require Import Strings.String.
From S2P Require Import Prelude Text.

Inductive PathError := ParentReference | Invalid.

Record SafePath := mkSafe { path : list Z; stripped_root : bool; trailing_slash : bool }.

Definition SEP : Z := 47.

(** [parts.join("/")]. *)
Fixpoint join_slash (parts : list (list Z)) : list Z :=
  match parts with
  | [] => []
  | [c] => c
  | c :: rest => c ++ SEP :: join_slash rest
  end.

(** [ends_with('/')]. *)
Definition ends_slash (name : list Z) : bool := bool_decide (last name = Some SEP).

(** The loop over the components. *)
Fixpoint collect (cs : list (list Z)) : PathError + list (list Z) :=
  match cs with
  | [] => inr []
  | c :: cs =>
      if bool_decide (c = []) || bool_decide (c = txt ".") then collect cs
      else if bool_decide (c = txt "..") then inl ParentReference
      else match collect cs with inl e => inl e | inr parts => inr (c :: parts) end
  end.

Definition sanitize (name : list Z) : PathError + SafePath :=
  if bool_decide (name = []) || bool_decide (0 ∈ name) then inl Invalid
  else match collect (split_char SEP name) with
       | inl e => inl e
       | inr parts => inr (mkSafe (join_slash parts) (bool_decide (head name = Some SEP)) (ends_slash name))
       end.

Definition strip_components (name : list Z) (n : nat) : option (list Z) :=
  if (n =? 0)%nat then Some name
  else
    let parts := filter (λ c, c ≠ []) (split_char SEP name) in
    if (length parts <=? n)%nat then None
    else let s := join_slash (drop n parts) in Some (if ends_slash name then s ++ [SEP] else s).

(** [trim_end_matches('/')]. *)
Definition trim_end_slash (s : list Z) : list Z := reverse (drop_while (λ c, c =? SEP) (reverse s)).

Definition is_under (p prefix : list Z) : bool :=
  let p := trim_end_slash p in
  let q := trim_end_slash prefix in
  bool_decide (q = []) || bool_decide (p = q) ||
  (starts_with q p && bool_decide (p !! length q = Some SEP)).

(** ** What a path names

    Walking a relative path from a directory, given by the components below the
    root: empty components and dots stay, two dots go up. *)
Fixpoint walk_path (dir : list (list Z)) (cs : list (list Z)) : list (list Z) :=
  match cs with
  | [] => dir
  | c :: cs =>
      if bool_decide (c = []) || bool_decide (c = txt ".") then walk_path dir cs
      else if bool_decide (c = txt "..") then walk_path (removelast dir) cs
      else walk_path (dir ++ [c]) cs
  end.

Definition resolve (dir : list (list Z)) (p : list Z) : list (list Z) := walk_path dir (split_char SEP p).

Definition normal (c : list Z) : Prop := c ≠ [] ∧ c ≠ txt "." ∧ c ≠ txt ".." ∧ SEP ∉ c.

Lemma split_char_no_slash l : Forall (λ c, SEP ∉ c) (split_char SEP l).
Proof.
  induction l as [|d l IH]; cbn [split_char]; [repeat constructor; apply not_elem_of_nil|].
  destruct (Z.eqb_spec d SEP) as [->|Hd]; [constructor; [apply not_elem_of_nil|done]|].
  destruct IH as [|p ps Hp Hps]; repeat constructor; try done; apply not_elem_of_cons; auto using not_elem_of_nil.
Qed.

Lemma collect_spec cs parts : collect cs = inr parts → Forall (λ c, SEP ∉ c) cs →
  Forall normal parts ∧ txt ".." ∉ cs ∧ ∀ dir, walk_path dir cs = dir ++ parts.
Proof.
  revert parts. induction cs as [|c cs IH]; intros parts; cbn [collect walk_path].
  { intros [= <-] _. split; [done|]. split; [apply not_elem_of_nil|]. intros. by rewrite app_nil_r. }
  intros Hc [Hs1 Hs]%Forall_cons. rewrite not_elem_of_cons.
  destruct (bool_decide (c = []) || bool_decide (c = txt ".")) eqn:E1.
  - destruct (IH _ Hc Hs) as (H1 & H2 & H3). split; [done|]. split; [|done]. split; [|done].
    intros <-. discriminate E1.
  - destruct (bool_decide (c = txt "..")) eqn:E2; [done|]. destruct (collect cs) as [e|ps]; [done|]. injection Hc as <-.
    destruct (IH _ eq_refl Hs) as (H1 & H2 & H3). apply orb_false_iff in E1 as [E0 E1].
    apply bool_decide_eq_false in E0, E1, E2. split; [|split].
    + constructor; [|done]. unfold normal. auto.
    + auto.
    + intros dir. by rewrite H3, <- app_assoc.
Qed.

Lemma collect_error cs e : collect cs = inl e → e = ParentReference ∧ txt ".." ∈ cs.
Proof.
  induction cs as [|c cs IH]; cbn [collect]; [done|]. rewrite elem_of_cons.
  destruct (bool_decide (c = []) || bool_decide (c = txt ".")); [intros [-> ?]%IH; auto|].
  destruct (bool_decide (c = txt "..")) eqn:E2; [apply bool_decide_eq_true in E2 as ->; intros [= <-]; auto|].
  destruct (collect cs); [|done]. intros [= ->]. destruct (IH eq_refl) as [-> ?]. auto.
Qed.

Lemma no_slash_Forall c : SEP ∉ c → Forall (λ d, d ≠ SEP) c.
Proof. intros Hc. apply Forall_forall. intros d Hd ->. done. Qed.

(** Joining the components and splitting again gives them back. *)
Lemma split_join parts : parts ≠ [] → Forall normal parts → split_char SEP (join_slash parts) = parts.
Proof.
  intros Hne Hn. induction Hn as [|c parts (N1 & N2 & N3 & N4) Hn IH]; [done|].
  apply no_slash_Forall in N4. destruct parts as [|d parts]; [by apply split_char_word|].
  change (join_slash (c :: d :: parts)) with (c ++ SEP :: join_slash (d :: parts)).
  by rewrite split_char_cons, IH.
Qed.

Lemma walk_path_normal parts : Forall normal parts → ∀ dir, walk_path dir parts = dir ++ parts.
Proof.
  induction 1 as [|c parts (N1 & N2 & N3 & N4) Hn IH]; intros dir; cbn [walk_path]; [by rewrite app_nil_r|].
  rewrite !bool_decide_false by done. cbn [orb]. by rewrite IH, <- app_assoc.
Qed.

(** C36. A sanitized member name stays inside the destination: its components are
    neither empty nor dots and hold no slash, it resolves from any directory to
    a path below that directory, which is where the name itself, read as a
    relative path, leads without ever going up.  A name is refused exactly when
    it is empty or holds a NUL, which makes it invalid, or else has a component
    of two dots; every other name is accepted. *)
Theorem sanitize_confined name :
  match sanitize name with
  | inr s => name ≠ [] ∧ 0 ∉ name ∧ txt ".." ∉ split_char SEP name ∧
      ∃ parts, Forall normal parts ∧ path s = join_slash parts ∧
      ∀ dir, resolve dir (path s) = dir ++ parts ∧ resolve dir name = dir ++ parts
  | inl Invalid => name = [] ∨ 0 ∈ name
  | inl ParentReference => name ≠ [] ∧ 0 ∉ name ∧ txt ".." ∈ split_char SEP name
  end.
Proof.
  unfold sanitize. destruct (bool_decide (name = []) || bool_decide (0 ∈ name)) eqn:E.
  { apply orb_true_iff in E as [?%bool_decide_eq_true|?%bool_decide_eq_true]; auto. }
  apply orb_false_iff in E as [Hne%bool_decide_eq_false Hnul%bool_decide_eq_false].
  destruct (collect (split_char SEP name)) as [e|parts] eqn:Hc; [by apply collect_error in Hc as [-> ?]|].
  destruct (collect_spec _ _ Hc (split_char_no_slash name)) as (H1 & H2 & H3). simpl. split_and!; [done..|].
  exists parts. split_and!; [done..|]. intros dir. unfold resolve. split; [|apply H3].
  destruct parts as [|c parts]; [cbn; by rewrite app_nil_r|]. by rewrite split_join, walk_path_normal.
Qed.
