(* ===== verification/ArchiveTime.v ===== *)
(** * Calendar and MS-DOS times

    Models [lib/archive/src/time.rs].  Arithmetic is on [i64], where [/] rounds
    towards zero and an overflow is a panic, [None]; a step that cannot overflow
    on any argument has no check. *)

From S2P Require Import Prelude.

Definition fits_i64 (n : Z) : option Z := if (- 2 ^ 63 <=? n) && (n <? 2 ^ 63) then Some n else None.

Definition days_from_civil (y m d : Z) : option Z :=
  y ← (if m <=? 2 then fits_i64 (y - 1) else Some y);
  a ← (if 0 <=? y then Some y else fits_i64 (y - 399));
  let era := Z.quot a 400 in
  let yoe := y - era * 400 in
  let mp := Z.rem (m + 9) 12 in
  let doy := Z.quot (153 * mp + 2) 5 + d - 1 in
  let doe := yoe * 365 + Z.quot yoe 4 - Z.quot yoe 100 + doy in
  b ← fits_i64 (era * 146097);
  b ← fits_i64 (b + doe);
  fits_i64 (b - 719468).

Definition civil_from_days (z : Z) : option (Z * Z * Z) :=
  z ← fits_i64 (z + 719468);
  a ← (if 0 <=? z then Some z else fits_i64 (z - 146096));
  let era := Z.quot a 146097 in
  let doe := z - era * 146097 in
  let yoe := Z.quot (doe - Z.quot doe 1460 + Z.quot doe 36524 - Z.quot doe 146096) 365 in
  let y := yoe + era * 400 in
  let doy := doe - (365 * yoe + Z.quot yoe 4 - Z.quot yoe 100) in
  let mp := Z.quot (5 * doy + 2) 153 in
  let d := doy - Z.quot (153 * mp + 2) 5 + 1 in
  let m := if mp <? 10 then mp + 3 else mp - 9 in
  Some (if m <=? 2 then y + 1 else y, m, d).

Definition clamp (n lo hi : Z) : Z := if n <? lo then lo else if hi <? n then hi else n.

Definition unix_to_dos (t : Z) : option (Z * Z) :=
  min ← days_from_civil 1980 1 1;
  max ← days_from_civil 2107 12 31;
  let t := clamp t (min * 86400) (max * 86400 + 86399) in
  let secs := t mod 86400 in
  '(y, m, d) ← civil_from_days (t / 86400);
  let date := Z.lor (Z.lor (Z.shiftl (y - 1980) 9) (Z.shiftl m 5)) d in
  let time := Z.lor (Z.lor (Z.shiftl (Z.quot secs 3600) 11) (Z.shiftl (Z.rem (Z.quot secs 60) 60) 5)) (Z.quot (Z.rem secs 60) 2) in
  Some (date mod 65536, time mod 65536).

Definition dos_to_unix (date time : Z) : option Z :=
  let y := 1980 + Z.shiftr date 9 in
  let m := clamp (Z.land (Z.shiftr date 5) 15) 1 12 in
  let d := Z.max (Z.land date 31) 1 in
  let h := Z.min (Z.land (Z.shiftr time 11) 31) 23 in
  let mi := Z.min (Z.land (Z.shiftr time 5) 63) 59 in
  let s := Z.min (Z.land time 31 * 2) 59 in
  days ← days_from_civil y m d;
  Some (days * 86400 + h * 3600 + mi * 60 + s).

(** ** The Gregorian calendar, day by day *)

Definition leap (y : Z) : bool := (y mod 4 =? 0) && (negb (y mod 100 =? 0) || (y mod 400 =? 0)).

Definition month_days (lp : bool) (m : Z) : Z :=
  if m =? 2 then (if lp then 29 else 28)
  else if (m =? 4) || (m =? 6) || (m =? 9) || (m =? 11) then 30 else 31.

Definition next_in (lp : bool) (date : Z * Z * Z) : Z * Z * Z :=
  let '(y, m, d) := date in
  if d <? month_days lp m then (y, m, d + 1)
  else if m <? 12 then (y, m + 1, 1) else (y + 1, 1, 1).

Definition next_day (date : Z * Z * Z) : Z * Z * Z := next_in (leap date.1.1) date.

Definition valid_date (date : Z * Z * Z) : Prop :=
  let '(y, m, d) := date in 1 ≤ m ≤ 12 ∧ 1 ≤ d ≤ month_days (leap y) m.

(** ** Years of an era

    The code counts years from March.  Year [y] of an era of 400 years starts on
    day [year_start y] of the era and has a leap day at its end when the
    calendar year it ends in is a leap year. *)

Definition year_start (y : Z) : Z := 365 * y + y / 4 - y / 100.
Definition year_len (y : Z) : Z := if leap (y + 1) then 366 else 365.
Definition year_of (doe : Z) : Z := (doe - doe / 1460 + doe / 36524 - doe / 146096) / 365.

(** Month and day of day [doy] of a year counted from March. *)
Definition month_of (doy : Z) : Z := let mp := (5 * doy + 2) / 153 in if mp <? 10 then mp + 3 else mp - 9.
Definition day_of (doy : Z) : Z := doy - (153 * ((5 * doy + 2) / 153) + 2) / 5 + 1.

Lemma leap_era y e : leap (y + 400 * e) = leap y.
Proof.
  unfold leap. assert ((y + 400 * e) mod 4 = y mod 4 ∧ (y + 400 * e) mod 100 = y mod 100 ∧ (y + 400 * e) mod 400 = y mod 400)
    as (-> & -> & ->); [|done]. split_and!; Z.to_euclidean_division_equations; lia.
Qed.

(** The leap rule by cases, for arithmetic. *)
Lemma leap_cases y : (leap y = true ∧ y mod 4 = 0 ∧ (y mod 100 ≠ 0 ∨ y mod 400 = 0)) ∨
  (leap y = false ∧ (y mod 4 ≠ 0 ∨ (y mod 100 = 0 ∧ y mod 400 ≠ 0))).
Proof. unfold leap. destruct (Z.eqb_spec (y mod 4) 0), (Z.eqb_spec (y mod 100) 0), (Z.eqb_spec (y mod 400) 0); simpl; auto 6. Qed.

Lemma year_len_bounds y : 365 ≤ year_len y ≤ 366.
Proof. unfold year_len. destruct (leap (y + 1)); lia. Qed.

Lemma year_of_spec doe : 0 ≤ doe < 146097 →
  0 ≤ year_of doe < 400 ∧ 0 ≤ doe - year_start (year_of doe) < year_len (year_of doe).
Proof.
  intros Hd. set (y := year_of doe). assert (Hy : 0 ≤ y < 400) by (unfold y, year_of; Z.to_euclidean_division_equations; lia).
  split; [done|]. unfold year_len. destruct (leap_cases (y + 1)) as [(-> & ? & ?)|(-> & ?)]; unfold y, year_of, year_start in *;
    Z.to_euclidean_division_equations; lia.
Qed.

Lemma year_of_unique y k : 0 ≤ y < 400 → 0 ≤ k < year_len y → year_of (year_start y + k) = y.
Proof.
  intros Hy. unfold year_len. destruct (leap_cases (y + 1)) as [(-> & ? & ?)|(-> & ?)]; intros Hk; unfold year_of, year_start;
    Z.to_euclidean_division_equations; lia.
Qed.

(** ** Months *)

(** The twelve months from March on. *)
Lemma month_cases doy : 0 ≤ doy < 366 → let mp := (5 * doy + 2) / 153 in
  0 ≤ mp ≤ 11 ∧ (mp < 10 → month_of doy = mp + 3) ∧ (10 ≤ mp → month_of doy = mp - 9) ∧
  day_of doy = doy - (153 * mp + 2) / 5 + 1.
Proof.
  intros Hd mp. assert (0 ≤ mp ≤ 11) by (unfold mp; Z.to_euclidean_division_equations; lia).
  unfold month_of, day_of. fold mp. split_and!; try lia; intros; destruct (Z.ltb_spec mp 10); lia.
Qed.

(** Day [doy] has its number back. *)
Lemma day_number doy : 0 ≤ doy < 366 →
  (153 * ((month_of doy + 9) mod 12) + 2) / 5 + day_of doy - 1 = doy ∧ 1 ≤ month_of doy ≤ 12.
Proof.
  intros Hd. destruct (month_cases doy Hd) as (H1 & H2 & H3 & H4). set (mp := (5 * doy + 2) / 153) in *.
  assert (Hm : (month_of doy + 9) mod 12 = mp).
  { destruct (Z.lt_ge_cases mp 10); [rewrite H2 by done|rewrite H3 by done]; Z.to_euclidean_division_equations; lia. }
  rewrite Hm, H4. split; [lia|]. destruct (Z.lt_ge_cases mp 10); [rewrite H2 by done|rewrite H3 by done]; lia.
Qed.

(** The calendar year of day [doy] of the year [y] counted from March. *)
Definition date_of (y doy : Z) : Z * Z * Z := (if month_of doy <=? 2 then y + 1 else y, month_of doy, day_of doy).

(** Each day of a year that starts in March of year 0 and ends in a February
    with or without a leap day. *)
Definition day_ok (lp : bool) (doy : Z) : bool :=
  let '(y, m, d) := date_of 0 doy in
  (1 <=? m) && (m <=? 12) && (1 <=? d) && (d <=? month_days lp m) &&
  bool_decide (next_in lp (y, m, d) = if doy + 1 <? (if lp then 366 else 365) then date_of 0 (doy + 1) else date_of 1 0).

Definition year_ok (lp : bool) : bool :=
  forallb (λ n, day_ok lp (Z.of_nat n)) (seq 0 (if lp then 366 else 365)).

Lemma year_checked lp : year_ok lp = true.
Proof. destruct lp; vm_compute; reflexivity. Qed.

Lemma day_checked (lp : bool) doy : 0 ≤ doy < (if lp then 366 else 365) → day_ok lp doy = true.
Proof.
  intros Hd. pose proof (year_checked lp) as Hy. unfold year_ok in Hy. rewrite forallb_forall in Hy.
  rewrite <- (Z2Nat.id doy) by lia. apply Hy, in_seq. destruct lp; lia.
Qed.

Lemma date_of_shift y doy : date_of y doy = (y + (date_of 0 doy).1.1, month_of doy, day_of doy).
Proof. unfold date_of. simpl. f_equal. f_equal. case_match; lia. Qed.

(** Only February depends on the year. *)
Lemma month_days_other lp lp' m : m ≠ 2 → month_days lp m = month_days lp' m.
Proof. intros Hm. unfold month_days. by rewrite (proj2 (Z.eqb_neq m 2)). Qed.

Lemma next_in_shift lp y k m d : next_in lp (k + y, m, d) = (k + (next_in lp (y, m, d)).1.1, (next_in lp (y, m, d)).1.2, (next_in lp (y, m, d)).2).
Proof. unfold next_in. repeat case_match; simpl; f_equal; f_equal; lia. Qed.

(** Within a year the next day is the next date, and after its last day comes the
    first of March. *)
Lemma next_date y doy : 0 ≤ doy < year_len y →
  valid_date (date_of y doy) ∧
  next_day (date_of y doy) = if doy + 1 <? year_len y then date_of y (doy + 1) else date_of (y + 1) 0.
Proof.
  unfold year_len. intros Hd. pose proof (day_checked (leap (y + 1)) doy Hd) as Hok. unfold day_ok in Hok.
  destruct (date_of 0 doy) as [[y0 m] d] eqn:E0. unfold date_of in E0. injection E0 as Ey Em Edd.
  assert (Hlp : month_days (leap (if m <=? 2 then y + 1 else y)) m = month_days (leap (y + 1)) m).
  { destruct (Z.leb_spec m 2); [done|]. apply month_days_other. lia. }
  rewrite !andb_true_iff, !Z.leb_le, bool_decide_eq_true in Hok. destruct Hok as ((((O1 & O2) & O3) & O4) & O5).
  assert (Hdate : date_of y doy = (y + y0, m, d)).
  { rewrite date_of_shift. unfold date_of. simpl. subst. done. }
  assert (Hy : y + y0 = if m <=? 2 then y + 1 else y) by (subst; case_match; lia).
  rewrite Hdate. split; [unfold valid_date; rewrite Hy, Hlp; lia|].
  assert (Hnext : next_day (y + y0, m, d) = next_in (leap (y + 1)) (y + y0, m, d)).
  { unfold next_day, next_in. simpl. by rewrite Hy, Hlp. }
  rewrite Hnext, next_in_shift, O5. destruct (doy + 1 <? _).
  - by rewrite (date_of_shift y).
  - done.
Qed.

(** ** Eras *)

Lemma fits_i64_ok n : - 2 ^ 63 ≤ n < 2 ^ 63 → fits_i64 n = Some n.
Proof. intros. unfold fits_i64. by rewrite (proj2 (Z.leb_le _ _)), (proj2 (Z.ltb_lt _ _)) by lia. Qed.

(** The quotient that rounds towards zero, corrected below zero, is the floor. *)
Lemma quot_floor n k : 0 < k → Z.quot (if 0 <=? n then n else n - (k - 1)) k = n / k.
Proof.
  intros Hk. destruct (Z.leb_spec 0 n); [by rewrite Z.quot_div_nonneg by lia|].
  Z.to_euclidean_division_equations; nia.
Qed.

Definition SPAN : Z := 2 ^ 61.

(** Day [z] is day [doe] of its era. *)
Lemma civil_eq z : - SPAN ≤ z ≤ SPAN →
  let era := (z + 719468) / 146097 in
  let doe := (z + 719468) mod 146097 in
  civil_from_days z = Some (date_of (year_of doe + 400 * era) (doe - year_start (year_of doe))).
Proof.
  intros Hz era doe. unfold SPAN in Hz. unfold civil_from_days. rewrite fits_i64_ok by lia. cbn [mbind option_bind].
  assert (Ha : (if 0 <=? z + 719468 then Some (z + 719468) else fits_i64 (z + 719468 - 146096)) =
    Some (if 0 <=? z + 719468 then z + 719468 else z + 719468 - (146097 - 1))).
  { case_match; [done|]. by rewrite fits_i64_ok by lia. }
  rewrite Ha. cbn [mbind option_bind]. rewrite quot_floor by lia. fold era.
  assert (Hdoe : z + 719468 - era * 146097 = doe) by (unfold era, doe; Z.to_euclidean_division_equations; lia). rewrite Hdoe.
  assert (Hd : 0 ≤ doe < 146097) by (apply Z.mod_pos_bound; lia).
  assert (Hyo : Z.quot (doe - Z.quot doe 1460 + Z.quot doe 36524 - Z.quot doe 146096) 365 = year_of doe).
  { unfold year_of. rewrite (Z.quot_div_nonneg doe 1460), (Z.quot_div_nonneg doe 36524), (Z.quot_div_nonneg doe 146096) by lia. apply Z.quot_div_nonneg; [|lia]. Z.to_euclidean_division_equations; lia. }
  rewrite Hyo. destruct (year_of_spec doe Hd) as [Hy Hk]. rewrite (Z.quot_div_nonneg (year_of doe) 4), (Z.quot_div_nonneg (year_of doe) 100) by lia.
  fold (year_start (year_of doe)). set (doy := doe - year_start (year_of doe)) in *.
  pose proof (year_len_bounds (year_of doe)) as Hl.
  rewrite (Z.quot_div_nonneg (5 * doy + 2) 153) by lia. destruct (month_cases doy) as (M1 & _); [lia|].
  rewrite (Z.quot_div_nonneg (153 * ((5 * doy + 2) / 153) + 2) 5), (Z.mul_comm era 400) by lia. reflexivity.
Qed.

(** The day number of a date of an era. *)
Lemma days_eq y era doy : 0 ≤ y < 400 → 0 ≤ doy < year_len y → - SPAN ≤ era * 146097 ≤ SPAN →
  let '(cy, m, d) := date_of (y + 400 * era) doy in
  days_from_civil cy m d = Some (era * 146097 + year_start y + doy - 719468).
Proof.
  intros Hy Hd He. unfold SPAN in He. assert (Hd' : 0 ≤ doy < 366) by (pose proof (year_len_bounds y); lia).
  destruct (day_number doy Hd') as [Hn Hm]. unfold date_of, days_from_civil.
  assert (E1 : (if month_of doy <=? 2 then fits_i64 ((if month_of doy <=? 2 then y + 400 * era + 1 else y + 400 * era) - 1)
    else Some (if month_of doy <=? 2 then y + 400 * era + 1 else y + 400 * era)) = Some (y + 400 * era)).
  { destruct (month_of doy <=? 2); [|done]. rewrite fits_i64_ok by lia. f_equal. lia. }
  rewrite E1. cbn [mbind option_bind].
  assert (E2 : (if 0 <=? y + 400 * era then Some (y + 400 * era) else fits_i64 (y + 400 * era - 399)) =
    Some (if 0 <=? y + 400 * era then y + 400 * era else y + 400 * era - (400 - 1))).
  { destruct (0 <=? y + 400 * era); [done|]. by rewrite fits_i64_ok by lia. }
  rewrite E2. cbn [mbind option_bind]. rewrite quot_floor by lia.
  assert (E3 : (y + 400 * era) / 400 = era) by (Z.to_euclidean_division_equations; lia). rewrite E3.
  assert (E4 : y + 400 * era - era * 400 = y) by lia. rewrite E4.
  rewrite Z.rem_mod_nonneg, (Z.quot_div_nonneg y 4), (Z.quot_div_nonneg y 100) by lia.
  pose proof (Z.mod_pos_bound (month_of doy + 9) 12). rewrite (Z.quot_div_nonneg (153 * _ + 2) 5) by lia.
  assert (Hs : 0 ≤ year_start y ≤ 146097) by (unfold year_start; Z.to_euclidean_division_equations; lia).
  rewrite (fits_i64_ok (era * 146097)) by lia. cbn [mbind option_bind]. unfold year_start in *.
  rewrite fits_i64_ok by lia. cbn [mbind option_bind]. rewrite fits_i64_ok by lia. f_equal. lia.
Qed.

(** C37. The calendar functions compute the Gregorian calendar, over more than
    10^15 years to both sides of 1970: day 0 is the first of January 1970, every
    day has a valid date, the date of the next day is the next date (months of
    their lengths, leap years by the rule of 4, 100 and 400), and a date gives
    its day number back.  No step overflows. *)
Theorem civil_calendar z : - SPAN < z < SPAN - 719468 →
  civil_from_days 0 = Some (1970, 1, 1) ∧
  ∃ y m d, civil_from_days z = Some (y, m, d) ∧ valid_date (y, m, d) ∧
    civil_from_days (z + 1) = Some (next_day (y, m, d)) ∧ days_from_civil y m d = Some z.
Proof.
  intros Hz. split; [vm_compute; reflexivity|]. set (z' := z + 719468). set (era := z' / 146097). set (doe := z' mod 146097).
  assert (Hdm : z' = 146097 * era + doe) by (apply Z.div_mod; lia).
  assert (Hd : 0 ≤ doe < 146097) by (apply Z.mod_pos_bound; lia).
  destruct (year_of_spec doe Hd) as [Hy Hk]. set (y := year_of doe) in *. set (doy := doe - year_start y) in *.
  assert (Hlen : year_len (y + 400 * era) = year_len y).
  { unfold year_len. replace (y + 400 * era + 1) with (y + 1 + 400 * era) by lia. by rewrite leap_era. }
  pose proof (civil_eq z ltac:(lia)) as Hc. fold z' era doe in Hc. cbn zeta in Hc. fold y doy in Hc.
  destruct (next_date (y + 400 * era) doy) as [Hv Hn]; [by rewrite Hlen|].
  pose proof (days_eq y era doy Hy Hk ltac:(unfold SPAN in *; lia)) as Hdays.
  destruct (date_of (y + 400 * era) doy) as [[cy m] d]. exists cy, m, d. split; [done|]. split; [done|].
  split; [|rewrite Hdays; f_equal; lia].
  rewrite civil_eq by lia. rewrite Hn, Hlen. replace (z + 1 + 719468) with (z' + 1) by lia.
  destruct (decide (doe = 146096)) as [E|E].
  - replace ((z' + 1) / 146097) with (era + 1) by (Z.to_euclidean_division_equations; lia).
    replace ((z' + 1) mod 146097) with 0 by (Z.to_euclidean_division_equations; lia).
    assert (Ey : y = 399 ∧ doy = 365 ∧ year_len y = 366) by (unfold doy, y; rewrite E; done). destruct Ey as (-> & -> & ->).
    change (year_of 0) with 0. change (year_start 0) with 0. simpl. f_equal. f_equal. lia.
  - replace ((z' + 1) / 146097) with era by (Z.to_euclidean_division_equations; lia).
    replace ((z' + 1) mod 146097) with (doe + 1) by (Z.to_euclidean_division_equations; lia).
    destruct (Z.ltb_spec (doy + 1) (year_len y)).
    + assert (Eyr : year_of (doe + 1) = y).
      { replace (doe + 1) with (year_start y + (doy + 1)) by lia. apply year_of_unique; lia. }
      rewrite Eyr. f_equal. f_equal. lia.
    + assert (Hst : doe + 1 = year_start (y + 1) ∧ y + 1 < 400).
      { unfold doy, year_len in *. destruct (leap_cases (y + 1)) as [(Hl & ? & ?)|(Hl & ?)]; rewrite Hl in *;
          unfold year_start in *; Z.to_euclidean_division_equations; lia. }
      assert (Eyr : year_of (doe + 1) = y + 1).
      { destruct Hst as [-> ?]. rewrite <- (Z.add_0_r (year_start (y + 1))). apply year_of_unique; [lia|].
        pose proof (year_len_bounds (y + 1)). lia. }
      rewrite Eyr. f_equal. destruct Hst as [-> _]. f_equal; lia.
Qed.

Lemma civil_calendar_witness : civil_from_days 20706 = Some (2026, 9, 10) ∧ civil_from_days (20706 + 1) = Some (2026, 9, 11) ∧
  (civil_from_days 0 = Some (1970, 1, 1) ∧
   ∃ y m d, civil_from_days 20706 = Some (y, m, d) ∧ valid_date (y, m, d) ∧
     civil_from_days (20706 + 1) = Some (next_day (y, m, d)) ∧ days_from_civil y m d = Some 20706).
Proof. split; [reflexivity|]. split; [reflexivity|]. apply (civil_calendar 20706). unfold SPAN. lia. Defined.

(** ** MS-DOS times *)

Definition DOS_MIN : Z := 3652 * 86400.
Definition DOS_MAX : Z := 50402 * 86400 + 86399.

(** Three fields packed into a word and taken out again. *)
Lemma pack_fields a i b j c : 0 ≤ i → 0 ≤ j ≤ i → 0 ≤ b < 2 ^ (i - j) → 0 ≤ c < 2 ^ j →
  Z.lor (Z.lor (Z.shiftl a i) (Z.shiftl b j)) c = a * 2 ^ i + b * 2 ^ j + c.
Proof.
  intros Hi Hj Hb Hc. assert (Hbj : 0 ≤ b * 2 ^ j + c < 2 ^ i).
  { replace (2 ^ i) with (2 ^ (i - j) * 2 ^ j) by (rewrite <- Z.pow_add_r by lia; f_equal; lia).
    pose proof (Z.pow_pos_nonneg 2 j). nia. }
  rewrite <- Z.lor_assoc, (lor_shiftl_add b j c) by lia. rewrite lor_shiftl_add by done. lia.
Qed.

(** Every day has a valid date with its number. *)
Lemma date_total z : - SPAN < z < SPAN - 719468 →
  ∃ y m d, civil_from_days z = Some (y, m, d) ∧ valid_date (y, m, d) ∧ days_from_civil y m d = Some z.
Proof.
  intros Hz. rewrite civil_eq by (unfold SPAN in *; lia). cbn zeta. set (z' := z + 719468) in *.
  assert (Hdm : z' = 146097 * (z' / 146097) + z' mod 146097) by (apply Z.div_mod; lia).
  assert (Hd : 0 ≤ z' mod 146097 < 146097) by (apply Z.mod_pos_bound; lia).
  set (era := z' / 146097) in *. set (doe := z' mod 146097) in *.
  destruct (year_of_spec doe Hd) as [Hy Hk]. set (y := year_of doe) in *. set (doy := doe - year_start y) in *.
  assert (Hlen : year_len (y + 400 * era) = year_len y).
  { unfold year_len. replace (y + 400 * era + 1) with (y + 1 + 400 * era) by lia. by rewrite leap_era. }
  destruct (next_date (y + 400 * era) doy) as [Hv _]; [by rewrite Hlen|].
  pose proof (days_eq y era doy Hy Hk ltac:(unfold SPAN in *; lia)) as Hdays.
  destruct (date_of (y + 400 * era) doy) as [[cy m] d]. exists cy, m, d. split; [done|]. split; [done|].
  rewrite Hdays. f_equal. lia.
Qed.

(** The fields of packed words. *)
Lemma dos_fields y m d h mi s2 : 1980 ≤ y ≤ 2107 → 1 ≤ m ≤ 12 → 1 ≤ d ≤ 31 → 0 ≤ h ≤ 23 → 0 ≤ mi ≤ 59 → 0 ≤ s2 ≤ 29 →
  let date := (y - 1980) * 512 + m * 32 + d in
  let time := h * 2048 + mi * 32 + s2 in
  1980 + Z.shiftr date 9 = y ∧ clamp (Z.land (Z.shiftr date 5) 15) 1 12 = m ∧ Z.max (Z.land date 31) 1 = d ∧
  Z.min (Z.land (Z.shiftr time 11) 31) 23 = h ∧ Z.min (Z.land (Z.shiftr time 5) 63) 59 = mi ∧
  Z.min (Z.land time 31 * 2) 59 = s2 * 2.
Proof.
  intros. change 15 with (Z.ones 4). change 31 with (Z.ones 5). change 63 with (Z.ones 6).
  rewrite !Z.land_ones, !Z.shiftr_div_pow2 by lia. change (2 ^ 9) with 512. change (2 ^ 5) with 32.
  change (2 ^ 4) with 16. change (2 ^ 11) with 2048. change (2 ^ 6) with 64. unfold clamp, date, time.
  split_and!; repeat case_match; Z.to_euclidean_division_equations; lia.
Qed.

(** The years a word has room for. *)
Lemma dos_years z y m d : 3652 ≤ z ≤ 50402 → civil_from_days z = Some (y, m, d) → 1980 ≤ y ≤ 2107.
Proof.
  intros Hz. rewrite civil_eq by (unfold SPAN; lia). cbn zeta. set (z' := z + 719468).
  set (era := z' / 146097). set (doe := z' mod 146097). intros E.
  assert (Hd : 0 ≤ doe < 146097) by (apply Z.mod_pos_bound; lia).
  destruct (year_of_spec doe Hd) as [Hy Hk]. pose proof (year_len_bounds (year_of doe)) as Hl.
  set (doy := doe - year_start (year_of doe)) in *. destruct (month_cases doy ltac:(lia)) as (M1 & M2 & M3 & _).
  unfold date_of in E. injection E as Ey _ _.
  set (mp := (5 * doy + 2) / 153) in *. destruct (Z.lt_ge_cases mp 10) as [Hmp|Hmp].
  - rewrite M2, (proj2 (Z.leb_gt (mp + 3) 2)) in Ey by lia. unfold mp, doy, era, doe, z', year_start, year_of in *.
    Z.to_euclidean_division_equations; lia.
  - rewrite M3, (proj2 (Z.leb_le (mp - 9) 2)) in Ey by lia. unfold mp, doy, era, doe, z', year_start, year_of in *.
    Z.to_euclidean_division_equations; lia.
Qed.

(** A time survives its MS-DOS form: for every second from 1980 to 2107 the
    date and time words are 16 bits wide and give back the time, rounded down to
    the two seconds of the format. *)
Lemma dos_time_roundtrip t : DOS_MIN ≤ t ≤ DOS_MAX →
  ∃ date time, unix_to_dos t = Some (date, time) ∧ 0 ≤ date < 65536 ∧ 0 ≤ time < 65536 ∧
    dos_to_unix date time = Some (t - t mod 2).
Proof.
  unfold DOS_MIN, DOS_MAX. intros Ht. unfold unix_to_dos.
  change (days_from_civil 1980 1 1) with (Some 3652). change (days_from_civil 2107 12 31) with (Some 50402).
  cbn [mbind option_bind]. assert (clamp t (3652 * 86400) (50402 * 86400 + 86399) = t) as ->.
  { unfold clamp. destruct (Z.ltb_spec t (3652 * 86400)), (Z.ltb_spec (50402 * 86400 + 86399) t); lia. }
  set (z := t / 86400). set (secs := t mod 86400). assert (Hs : 0 ≤ secs < 86400) by (apply Z.mod_pos_bound; lia).
  assert (Htz : t = 86400 * z + secs) by (apply Z.div_mod; lia). assert (Hz : 3652 ≤ z ≤ 50402) by lia.
  destruct (date_total z) as (y & m & d & Hc & (Hm & Hdv) & Hdays); [unfold SPAN; lia|].
  pose proof (dos_years z y m d Hz Hc) as Hy. rewrite Hc. cbn [mbind option_bind].
  assert (Hd31 : 1 ≤ d ≤ 31) by (unfold month_days in Hdv; repeat case_match; lia).
  rewrite (Z.rem_mod_nonneg secs 60), (Z.quot_div_nonneg secs 3600), (Z.quot_div_nonneg secs 60) by lia.
  pose proof (Z.mod_pos_bound secs 60). rewrite (Z.quot_div_nonneg (secs mod 60) 2), (Z.rem_mod_nonneg (secs / 60) 60) by
    (Z.to_euclidean_division_equations; lia).
  rewrite (pack_fields (y - 1980) 9 m 5 d) by (change (2 ^ (9 - 5)) with 16; change (2 ^ 5) with 32; lia).
  set (h := secs / 3600). set (mi := (secs / 60) mod 60). set (s2 := secs mod 60 / 2).
  assert (Hf : 0 ≤ h ≤ 23 ∧ 0 ≤ mi ≤ 59 ∧ 0 ≤ s2 ≤ 29 ∧ h * 3600 + mi * 60 + s2 * 2 = secs - secs mod 2)
    by (unfold h, mi, s2; Z.to_euclidean_division_equations; lia).
  rewrite (pack_fields h 11 mi 5 s2) by (change (2 ^ (11 - 5)) with 64; change (2 ^ 5) with 32; lia).
  change (2 ^ 9) with 512. change (2 ^ 5) with 32. change (2 ^ 11) with 2048.
  set (date := (y - 1980) * 512 + m * 32 + d). set (time := h * 2048 + mi * 32 + s2).
  assert (Hw : 0 ≤ date < 65536 ∧ 0 ≤ time < 65536) by (unfold date, time; lia).
  rewrite !Z.mod_small by lia. exists date, time. split; [done|]. split; [lia|]. split; [lia|].
  destruct (dos_fields y m d h mi s2) as (F1 & F2 & F3 & F4 & F5 & F6); [lia..|]. fold date time in F1, F2, F3, F4, F5, F6.
  unfold dos_to_unix. rewrite F1, F2, F3, F4, F5, F6, Hdays. cbn [mbind option_bind]. f_equal.
  assert (t mod 2 = secs mod 2) by (rewrite Htz; Z.to_euclidean_division_equations; lia). lia.
Qed.

Lemma dos_time_roundtrip_witness :
  unix_to_dos 1789110847 = Some (23851, 14787) ∧ dos_to_unix 23851 14787 = Some 1789110846 ∧
  ∃ date time, unix_to_dos 1789110847 = Some (date, time) ∧ 0 ≤ date < 65536 ∧ 0 ≤ time < 65536 ∧
    dos_to_unix date time = Some (1789110847 - 1789110847 mod 2).
Proof.
  split; [reflexivity|]. split; [reflexivity|]. apply (dos_time_roundtrip 1789110847). unfold DOS_MIN, DOS_MAX. lia.
Defined.
