(* ===== verification/SshWire.v ===== *)
(** * SSH binary encodings

    Models [kernel/src/ssh/wire.rs]: the reader over a received packet and the
    writer of the encodings of RFC 4251.  Bytes are [Z]; a slice access out of
    range is the error [Truncated]. *)

From S2P Require Import Prelude Text.

Inductive Truncated := truncated.

Record Reader := mkReader { rd_bytes : list Z; rd_pos : nat }.

Definition Read (A : Type) : Type := Exec Reader (Truncated + A).

Definition advance_by (n : nat) (r : Reader) : Reader := mkReader (rd_bytes r) (rd_pos r + n).

(** [b.get(pos..pos + n)]. *)
Definition rd_slice (r : Reader) (n : nat) : option (list Z) :=
  if (rd_pos r + n <=? length (rd_bytes r))%nat then Some (take n (drop (rd_pos r) (rd_bytes r))) else None.

Definition ok_or_truncated {A} (o : option A) : Read A :=
  mret match o with Some a => inr a | None => inl truncated end.

Definition read_u8 : Read Z :=
  r ← get;
  v ←? ok_or_truncated (rd_bytes r !! rd_pos r);
  _ ← modify (advance_by 1);
  mret (inr v).

Definition read_bool : Read bool := v ←? read_u8; mret (inr (negb (v =? 0))).

(** [from_be_bytes]. *)
Definition be_val (l : list Z) : Z := fold_left (λ a b, 256 * a + b) l 0.

Definition read_u32 : Read Z :=
  r ← get;
  s ←? ok_or_truncated (rd_slice r 4);
  _ ← modify (advance_by 4);
  mret (inr (be_val s)).

Definition read_bytes (n : nat) : Read (list Z) :=
  r ← get;
  s ←? ok_or_truncated (rd_slice r n);
  _ ← modify (advance_by n);
  mret (inr s).

Definition read_string : Read (list Z) := n ←? read_u32; read_bytes (Z.to_nat n).

Definition read_utf8 : Read (list (list Z)) := s ←? read_string; mret (inr (from_utf8_lossy s)).

Definition wire_rest (r : Reader) : list Z := drop (rd_pos r `min` length (rd_bytes r)) (rd_bytes r).

(** ** Writing *)

(** [to_be_bytes] of a [u32]. *)
Definition to_be32 (v : Z) : list Z := reverse (le_bytes 4 (v mod U32)).

Definition write_u8 (v : Z) (b : list Z) : list Z := b ++ [v].
Definition write_bool (v : bool) (b : list Z) : list Z := b ++ [Z.b2z v].
Definition write_u32 (v : Z) (b : list Z) : list Z := b ++ to_be32 v.
Definition write_raw (v b : list Z) : list Z := b ++ v.
Definition write_string (v b : list Z) : list Z := write_u32 (Z.of_nat (length v)) b ++ v.

Definition write_mpint (v b : list Z) : list Z :=
  let v := drop_while (λ c, c =? 0) v in
  let b := match v with
           | c :: _ => if negb (Z.land c 128 =? 0) then write_u32 (Z.of_nat (length v) + 1) b ++ [0]
                       else write_u32 (Z.of_nat (length v)) b
           | [] => write_u32 (Z.of_nat (length v)) b
           end in
  b ++ v.

(** ** Messages *)

Inductive Field := FU8 (v : Z) | FBool (v : bool) | FU32 (v : Z) | FString (v : list Z).
Inductive Kind := KU8 | KBool | KU32 | KString.

Definition kind_of (f : Field) : Kind :=
  match f with FU8 _ => KU8 | FBool _ => KBool | FU32 _ => KU32 | FString _ => KString end.

Definition write_field (b : list Z) (f : Field) : list Z :=
  match f with FU8 v => write_u8 v b | FBool v => write_bool v b | FU32 v => write_u32 v b | FString v => write_string v b end.
Definition write_fields (fs : list Field) : list Z := fold_left write_field fs [].

Definition read_field (k : Kind) : Read Field :=
  match k with
  | KU8 => v ←? read_u8; mret (inr (FU8 v))
  | KBool => v ←? read_bool; mret (inr (FBool v))
  | KU32 => v ←? read_u32; mret (inr (FU32 v))
  | KString => v ←? read_string; mret (inr (FString v))
  end.

Fixpoint read_fields (ks : list Kind) : Read (list Field) :=
  match ks with
  | [] => mret (inr [])
  | k :: ks => f ←? read_field k; fs ←? read_fields ks; mret (inr (f :: fs))
  end.

Definition field_ok (f : Field) : Prop :=
  match f with
  | FU8 v => is_byte v
  | FBool _ => True
  | FU32 v => 0 ≤ v < U32
  | FString v => Forall is_byte v ∧ Z.of_nat (length v) < U32
  end.

(** The bytes of one field. *)
Definition field_bytes (f : Field) : list Z :=
  match f with FU8 v => [v] | FBool v => [Z.b2z v] | FU32 v => to_be32 v | FString v => to_be32 (Z.of_nat (length v)) ++ v end.

Lemma write_field_app b f : write_field b f = b ++ field_bytes f.
Proof. destruct f; simpl; unfold write_string, write_u32; rewrite <- ?app_assoc; done. Qed.

Lemma write_fields_bytes fs : write_fields fs = concat (field_bytes <$> fs).
Proof.
  unfold write_fields. assert (H : ∀ b, fold_left write_field fs b = b ++ concat (field_bytes <$> fs)); [|apply H].
  induction fs as [|f fs IH]; intros b; simpl; [by rewrite app_nil_r|]. by rewrite IH, write_field_app, <- app_assoc.
Qed.

Lemma be_val_app l k : be_val (l ++ [k]) = 256 * be_val l + k.
Proof. unfold be_val. by rewrite fold_left_app. Qed.

Lemma be_val_reverse l : be_val (reverse l) = le_val l.
Proof. induction l as [|b l IH]; [done|]. rewrite reverse_cons, be_val_app, IH. simpl. lia. Qed.

Lemma length_to_be32 v : length (to_be32 v) = 4%nat.
Proof. unfold to_be32. by rewrite length_reverse, length_le_bytes. Qed.

Lemma to_be32_val v : 0 ≤ v < U32 → be_val (to_be32 v) = v.
Proof.
  intros Hv. unfold to_be32. rewrite be_val_reverse, le_val_bytes. rewrite (Z.mod_small v U32) by done.
  apply Z.mod_small. unfold U32 in Hv. simpl. lia.
Qed.

(** Reading where the bytes [x] are next. *)
Definition at_bytes (pre x post : list Z) : Reader := mkReader (pre ++ x ++ post) (length pre).

Lemma rd_slice_at pre x post : rd_slice (at_bytes pre x post) (length x) = Some x.
Proof.
  unfold rd_slice, at_bytes; simpl. rewrite !length_app, (proj2 (Nat.leb_le _ _)) by lia.
  by rewrite drop_app_length, take_app_length.
Qed.

Lemma advance_bytes pre x post : advance_by (length x) (at_bytes pre x post) = mkReader (pre ++ x ++ post) (length (pre ++ x)).
Proof. unfold advance_by, at_bytes; simpl. by rewrite length_app. Qed.

Lemma read_bytes_at pre x post : read_bytes (length x) (at_bytes pre x post) = Some (inr x, mkReader (pre ++ x ++ post) (length (pre ++ x))).
Proof.
  unfold read_bytes, get, ok_or_truncated, try_bind, mbind, exec_bind, mret, exec_ret, modify. cbn beta iota.
  by rewrite rd_slice_at, advance_bytes.
Qed.

Lemma read_u32_at pre v post : 0 ≤ v < U32 →
  read_u32 (at_bytes pre (to_be32 v) post) = Some (inr v, mkReader (pre ++ to_be32 v ++ post) (length (pre ++ to_be32 v))).
Proof.
  intros Hv. unfold read_u32, get, ok_or_truncated, try_bind, mbind, exec_bind, mret, exec_ret, modify. cbn beta iota.
  rewrite <- (length_to_be32 v), rd_slice_at, advance_bytes. by rewrite to_be32_val.
Qed.

Lemma read_u8_at pre v post : read_u8 (at_bytes pre [v] post) = Some (inr v, mkReader (pre ++ [v] ++ post) (length (pre ++ [v]))).
Proof.
  unfold read_u8, get, ok_or_truncated, try_bind, mbind, exec_bind, mret, exec_ret, modify. cbn beta iota.
  unfold at_bytes; simpl. rewrite list_lookup_middle by done. unfold advance_by; simpl. by rewrite length_app.
Qed.

(** The bytes [x] and [y] next, read one after the other. *)
Lemma at_bytes_app pre x y post : at_bytes pre (x ++ y) post = at_bytes pre x (y ++ post).
Proof. unfold at_bytes. by rewrite <- app_assoc. Qed.

Lemma at_bytes_next pre x y post : mkReader (pre ++ x ++ y ++ post) (length (pre ++ x)) = at_bytes (pre ++ x) y post.
Proof. unfold at_bytes. by rewrite <- !app_assoc. Qed.

Lemma read_string_at pre v post : Z.of_nat (length v) < U32 →
  let x := to_be32 (Z.of_nat (length v)) ++ v in
  read_string (at_bytes pre x post) = Some (inr v, mkReader (pre ++ x ++ post) (length (pre ++ x))).
Proof.
  intros Hl x. unfold x. rewrite at_bytes_app. unfold read_string, try_bind, mbind, exec_bind.
  rewrite read_u32_at by lia. rewrite Nat2Z.id, at_bytes_next, read_bytes_at. by rewrite <- !app_assoc.
Qed.

Lemma read_field_at pre f post : field_ok f →
  read_field (kind_of f) (at_bytes pre (field_bytes f) post) =
  Some (inr f, mkReader (pre ++ field_bytes f ++ post) (length (pre ++ field_bytes f))).
Proof.
  destruct f as [v|v|v|v]; intros Hf; cbn [kind_of read_field field_bytes field_ok] in *;
    unfold read_bool, try_bind, mbind, exec_bind.
  - by rewrite read_u8_at.
  - rewrite read_u8_at. by destruct v.
  - by rewrite read_u32_at.
  - by rewrite read_string_at by apply Hf.
Qed.

(** C38. Messages survive the wire: whatever fields are written, bytes, booleans,
    32-bit numbers and strings, reading their kinds from the packet, with
    anything in front and behind, gives the fields back and stops behind them. *)
Theorem wire_roundtrip fs pre post : Forall field_ok fs →
  read_fields (kind_of <$> fs) (at_bytes pre (write_fields fs) post) =
  Some (inr fs, mkReader (pre ++ write_fields fs ++ post) (length (pre ++ write_fields fs))).
Proof.
  rewrite write_fields_bytes. revert pre. induction fs as [|f fs IH]; intros pre Hf.
  { simpl. unfold at_bytes. by rewrite app_nil_r. }
  apply Forall_cons in Hf as [Hf Hfs]. rewrite !fmap_cons. cbn [read_fields]. simpl concat. rewrite at_bytes_app.
  unfold try_bind, mbind, exec_bind. rewrite read_field_at by done. cbn beta iota.
  rewrite at_bytes_next, IH by done. unfold mret, exec_ret. by rewrite <- !app_assoc.
Qed.

Lemma wire_roundtrip_witness :
  let fs := [FU8 20; FBool true; FU32 65536; FString [97; 98; 99]] in
  write_fields fs = [20; 1; 0; 1; 0; 0; 0; 0; 0; 3; 97; 98; 99] ∧
  read_fields (kind_of <$> fs) (at_bytes [5] (write_fields fs) [9; 9]) =
    Some (inr fs, mkReader ([5] ++ write_fields fs ++ [9; 9]) (length ([5] ++ write_fields fs))).
Proof.
  intros fs. split; [reflexivity|]. apply (wire_roundtrip fs [5] [9; 9]).
  repeat first [apply Forall_nil_2 | apply Forall_cons_2 | exact I | split | unfold is_byte; lia | unfold U32; simpl; lia | progress cbn].
Defined.

(** ** Multiple-precision integers *)

Lemma be_val_zeros v : be_val (drop_while (λ c, c =? 0) v) = be_val v.
Proof.
  induction v as [|c v IH]; [done|]. simpl drop_while. destruct (Z.eqb_spec c 0) as [->|]; [|done]. rewrite IH. done.
Qed.

(** An [mpint] is a string that holds the value, is not negative (its first bit is
    clear) and has no more leading zeros than that asks for. *)
Lemma mpint_string v : Forall is_byte v → Z.of_nat (length v) + 1 < U32 →
  ∃ x, write_mpint v [] = field_bytes (FString x) ∧ be_val x = be_val v ∧
    match x with [] => True | c :: x' => Z.land c 128 = 0 ∧ (c = 0 → match x' with [] => False | d :: _ => Z.land d 128 ≠ 0 end) end.
Proof.
  intros Hb Hl. unfold write_mpint. pose proof (be_val_zeros v) as Hv.
  assert (Hnz : match drop_while (λ c, c =? 0) v with [] => True | c :: _ => c ≠ 0 end).
  { clear. induction v as [|c v IH]; simpl; [done|]. destruct (Z.eqb_spec c 0); done. }
  destruct (drop_while (λ c, c =? 0) v) as [|c w]; [by exists []|].
  destruct (Z.eqb_spec (Z.land c 128) 0) as [Hc|Hc]; cbn [negb].
  - exists (c :: w). split; [done|]. split; [done|]. split; [done|]. intros ->. done.
  - exists (0 :: c :: w). split; [|split; [by rewrite <- Hv|done]].
    unfold write_u32. rewrite app_nil_l, <- app_assoc. cbn [field_bytes app]. f_equal. f_equal. simpl length. lia.
Qed.
