(* ===== verification/Bytes.v ===== *)
(** * Byte buffers

    What on-disk formats use of [Vec<u8>] and [&[u8]]: bytes by index, slices,
    [copy_from_slice] into a range, little-endian fields, and bit maps.  Bytes
    are [Z]; an index is a [Z] whose bounds the callers check or prove. *)

From S2P Require Import Prelude.

Definition zlen {A} (l : list A) : Z := Z.of_nat (length l).

(** [b[i]], where it exists. *)
Definition byte (b : list Z) (i : Z) : Z := nth (Z.to_nat i) b 0.

(** [&b[o..o + n]] and [b[o..o + v.len()].copy_from_slice(v)], in range. *)
Definition seg (b : list Z) (o n : Z) : list Z := take (Z.to_nat n) (drop (Z.to_nat o) b).
Definition paste (b : list Z) (o : Z) (v : list Z) : list Z :=
  take (Z.to_nat o) b ++ v ++ drop (Z.to_nat o + length v) b.

(** The range check that makes an access panic. *)
Definition in_range (b : list Z) (o n : Z) : bool := (0 <=? o) && (0 <=? n) && (o + n <=? zlen b).

Definition get_seg (b : list Z) (o n : Z) : option (list Z) :=
  if in_range b o n then Some (seg b o n) else None.
Definition put_seg (b : list Z) (o : Z) (v : list Z) : option (list Z) :=
  if in_range b o (zlen v) then Some (paste b o v) else None.

(** A little-endian field of [n] bytes. *)
Definition field (n : nat) (b : list Z) (o : Z) : Z := le_val (seg b o (Z.of_nat n)).
Definition rd (n : nat) (b : list Z) (o : Z) : option Z :=
  if in_range b o (Z.of_nat n) then Some (field n b o) else None.
Definition wr (n : nat) (b : list Z) (o v : Z) : option (list Z) := put_seg b o (le_bytes n v).

(** [vec![0u8; n]]. *)
Definition zeros (n : Z) : list Z := replicate (Z.to_nat n) 0.

(** Bit [i] of a map, [b[i / 8] & (1 << (i % 8))], and the two updates. *)
Definition bit (b : list Z) (i : Z) : bool := Z.testbit (byte b (i / 8)) (i mod 8).
Definition set_bit (b : list Z) (i : Z) : list Z :=
  paste b (i / 8) [Z.lor (byte b (i / 8)) (Z.shiftl 1 (i mod 8))].
Definition clear_bit (b : list Z) (i : Z) : list Z :=
  paste b (i / 8) [Z.ldiff (byte b (i / 8)) (Z.shiftl 1 (i mod 8))].

(** ** Lengths and bytes *)

Lemma zlen_nonneg {A} (l : list A) : 0 ≤ zlen l.
Proof. unfold zlen. lia. Qed.

Lemma zlen_app {A} (l k : list A) : zlen (l ++ k) = zlen l + zlen k.
Proof. unfold zlen. rewrite length_app. lia. Qed.

Lemma zlen_cons {A} (x : A) l : zlen (x :: l) = 1 + zlen l.
Proof. unfold zlen. simpl. lia. Qed.

Lemma zlen_zeros n : 0 ≤ n → zlen (zeros n) = n.
Proof. unfold zlen, zeros. rewrite length_replicate. lia. Qed.

Lemma zlen_le_bytes n v : zlen (le_bytes n v) = Z.of_nat n.
Proof. unfold zlen. by rewrite length_le_bytes. Qed.

Lemma zlen_seg b o n : 0 ≤ o → 0 ≤ n → o + n ≤ zlen b → zlen (seg b o n) = n.
Proof. unfold zlen, seg. intros. rewrite length_take, length_drop. lia. Qed.

Lemma zlen_paste b o v : 0 ≤ o → o + zlen v ≤ zlen b → zlen (paste b o v) = zlen b.
Proof. unfold zlen, paste. intros. rewrite !length_app, length_take, length_drop. lia. Qed.

Lemma nth_take_lt {A} (d : A) (k i : nat) (l : list A) :
  (i < k)%nat → nth i (take k l) d = nth i l d.
Proof.
  intros. rewrite !nth_lookup. by rewrite lookup_take_lt.
Qed.

Lemma nth_drop_add {A} (d : A) (k i : nat) (l : list A) : nth i (drop k l) d = nth (k + i) l d.
Proof. rewrite !nth_lookup. by rewrite lookup_drop. Qed.

Lemma byte_app_l b c i : 0 ≤ i < zlen b → byte (b ++ c) i = byte b i.
Proof. unfold byte, zlen. intros. apply app_nth1. lia. Qed.

Lemma byte_app_r b c i : zlen b ≤ i → byte (b ++ c) i = byte c (i - zlen b).
Proof. unfold byte, zlen. intros. rewrite app_nth2 by lia. f_equal. lia. Qed.

Lemma byte_seg b o n i : 0 ≤ o → 0 ≤ i < n → byte (seg b o n) i = byte b (o + i).
Proof.
  unfold byte, seg. intros. rewrite nth_take_lt, nth_drop_add by lia. f_equal. lia.
Qed.

Lemma byte_zeros n i : byte (zeros n) i = 0.
Proof. unfold byte, zeros. rewrite nth_lookup. destruct (_ !! _) eqn:E; [|done]. by apply lookup_replicate in E as [-> _]. Qed.

Lemma byte_overflow b i : zlen b ≤ i → byte b i = 0.
Proof. unfold byte, zlen. intros. apply nth_overflow. lia. Qed.

Lemma byte_paste b o v i :
  0 ≤ o → o + zlen v ≤ zlen b → 0 ≤ i →
  byte (paste b o v) i = if (o <=? i) && (i <? o + zlen v) then byte v (i - o) else byte b i.
Proof.
  unfold paste. intros Ho Hb Hi.
  assert (zlen (take (Z.to_nat o) b) = o) as Ht.
  { unfold zlen in *. rewrite length_take. lia. }
  destruct (Z.leb_spec o i); simpl; [|rewrite byte_app_l by lia; unfold byte; apply nth_take_lt; lia].
  rewrite byte_app_r by lia. rewrite Ht. destruct (Z.ltb_spec i (o + zlen v)).
  - by rewrite byte_app_l by lia.
  - rewrite byte_app_r by lia. unfold byte, zlen in *. rewrite nth_drop_add. f_equal. lia.
Qed.

Lemma byte_paste_in b o v i :
  0 ≤ o → o + zlen v ≤ zlen b → o ≤ i < o + zlen v → byte (paste b o v) i = byte v (i - o).
Proof. intros. rewrite byte_paste by lia. by rewrite (proj2 (Z.leb_le _ _)), (proj2 (Z.ltb_lt _ _)) by lia. Qed.

Lemma byte_paste_out b o v i :
  0 ≤ o → o + zlen v ≤ zlen b → 0 ≤ i → i < o ∨ o + zlen v ≤ i → byte (paste b o v) i = byte b i.
Proof.
  intros. rewrite byte_paste by lia. destruct (Z.leb_spec o i), (Z.ltb_spec i (o + zlen v)); simpl; first [done|lia].
Qed.

Lemma bytes_ext b c :
  zlen b = zlen c → (∀ i, 0 ≤ i < zlen b → byte b i = byte c i) → b = c.
Proof.
  unfold zlen, byte. intros Hl Hb. apply (nth_ext _ _ 0 0); [lia|].
  intros n Hn. specialize (Hb (Z.of_nat n)). rewrite Nat2Z.id in Hb. apply Hb. lia.
Qed.

Lemma is_byte_byte b i : Forall is_byte b → is_byte (byte b i).
Proof.
  intros Hb. unfold byte. destruct (nth_in_or_default (Z.to_nat i) b 0) as [Hin| ->]; [|done].
  rewrite Forall_forall in Hb. apply Hb. by apply list_elem_of_In.
Qed.

Lemma is_byte_seg b o n : Forall is_byte b → Forall is_byte (seg b o n).
Proof. intros. by apply Forall_take, Forall_drop. Qed.

Lemma is_byte_paste b o v : Forall is_byte b → Forall is_byte v → Forall is_byte (paste b o v).
Proof. intros. unfold paste. rewrite !Forall_app. auto using Forall_take, Forall_drop. Qed.

Lemma is_byte_zeros n : Forall is_byte (zeros n).
Proof. apply Forall_replicate. unfold is_byte. lia. Qed.

(** ** Segments of pasted buffers *)

Lemma seg_full b n : n = zlen b → seg b 0 n = b.
Proof. intros ->. unfold seg, zlen. by rewrite drop_0, take_ge by lia. Qed.

Lemma seg_seg b o n p m : 0 ≤ o → 0 ≤ p → 0 ≤ m → p + m ≤ n → seg (seg b o n) p m = seg b (o + p) m.
Proof.
  intros. unfold seg. rewrite skipn_firstn_comm, take_take, drop_drop. f_equal; [lia|]. f_equal. lia.
Qed.

Lemma seg_paste_same b o v : 0 ≤ o → o + zlen v ≤ zlen b → seg (paste b o v) o (zlen v) = v.
Proof.
  intros. pose proof (zlen_nonneg v).
  apply bytes_ext; rewrite zlen_seg by (rewrite ?zlen_paste; lia); [done|].
  intros i Hi. rewrite byte_seg, byte_paste_in by lia. f_equal. lia.
Qed.

Lemma seg_paste_other b o v p n :
  0 ≤ o → o + zlen v ≤ zlen b → 0 ≤ p → 0 ≤ n → p + n ≤ zlen b → p + n ≤ o ∨ o + zlen v ≤ p →
  seg (paste b o v) p n = seg b p n.
Proof.
  intros. pose proof (zlen_nonneg v).
  apply bytes_ext; rewrite !zlen_seg by (rewrite ?zlen_paste; lia); [done|].
  intros i Hi. rewrite !byte_seg, byte_paste_out by lia. done.
Qed.

Lemma paste_seg_id b o n : 0 ≤ o → 0 ≤ n → o + n ≤ zlen b → paste b o (seg b o n) = b.
Proof.
  intros. pose proof (zlen_seg b o n ltac:(lia) ltac:(lia) ltac:(lia)) as Hs.
  apply bytes_ext; rewrite zlen_paste by lia; [done|].
  intros i Hi. rewrite byte_paste by lia. rewrite Hs.
  destruct (Z.leb_spec o i), (Z.ltb_spec i (o + n)); simpl; try done.
  rewrite byte_seg by lia. f_equal. lia.
Qed.

(** ** Fields *)

Lemma in_range_true b o n : 0 ≤ o → 0 ≤ n → o + n ≤ zlen b → in_range b o n = true.
Proof. unfold in_range. intros. by rewrite !(proj2 (Z.leb_le _ _)) by lia. Qed.

Lemma get_seg_ok b o n : 0 ≤ o → 0 ≤ n → o + n ≤ zlen b → get_seg b o n = Some (seg b o n).
Proof. intros. unfold get_seg. by rewrite in_range_true. Qed.

Lemma put_seg_ok b o v : 0 ≤ o → o + zlen v ≤ zlen b → put_seg b o v = Some (paste b o v).
Proof. intros. unfold put_seg. rewrite in_range_true; [done|lia|apply zlen_nonneg|lia]. Qed.

Lemma rd_ok n b o : 0 ≤ o → o + Z.of_nat n ≤ zlen b → rd n b o = Some (field n b o).
Proof. intros. unfold rd. by rewrite in_range_true by lia. Qed.

Lemma wr_ok n b o v : 0 ≤ o → o + Z.of_nat n ≤ zlen b → wr n b o v = Some (paste b o (le_bytes n v)).
Proof. intros. unfold wr. apply put_seg_ok; [done|]. by rewrite zlen_le_bytes. Qed.

Lemma field_same n b o v :
  0 ≤ o → o + Z.of_nat n ≤ zlen b → field n (paste b o (le_bytes n v)) o = v mod 256 ^ Z.of_nat n.
Proof.
  intros Ho Hr. unfold field. pose proof (seg_paste_same b o (le_bytes n v) Ho) as Hs.
  rewrite zlen_le_bytes in Hs. rewrite (Hs Hr). apply le_val_bytes.
Qed.

Lemma field_other n m b o p v :
  0 ≤ o → o + Z.of_nat n ≤ zlen b → 0 ≤ p → p + Z.of_nat m ≤ zlen b →
  p + Z.of_nat m ≤ o ∨ o + Z.of_nat n ≤ p →
  field m (paste b o (le_bytes n v)) p = field m b p.
Proof. intros. unfold field. rewrite seg_paste_other; rewrite ?zlen_le_bytes; lia || done. Qed.

Lemma field_range n b o :
  Forall is_byte b → 0 ≤ o → o + Z.of_nat n ≤ zlen b → 0 ≤ field n b o < 256 ^ Z.of_nat n.
Proof.
  intros Hb Ho Hr. pose proof (le_val_range _ (is_byte_seg b o (Z.of_nat n) Hb)) as H.
  unfold field. pose proof (zlen_seg b o (Z.of_nat n) Ho ltac:(lia) Hr) as Hs. unfold zlen in Hs.
  by rewrite Hs in H.
Qed.

Lemma field_ext n b c o p :
  0 ≤ o → 0 ≤ p → o + Z.of_nat n ≤ zlen b → p + Z.of_nat n ≤ zlen c →
  (∀ i, 0 ≤ i < Z.of_nat n → byte b (o + i) = byte c (p + i)) → field n b o = field n c p.
Proof.
  intros. unfold field. f_equal. apply bytes_ext; rewrite !zlen_seg by lia; [done|].
  intros i Hi. rewrite !byte_seg by lia. auto.
Qed.

Lemma field_all0 n b o : Forall (λ x, x = 0) b → field n b o = 0.
Proof.
  intros Hb. unfold field. assert (∀ l, Forall (λ x, x = 0) l → le_val l = 0) as Hz.
  { induction 1 as [|x l -> _ IH]; [done|]. simpl. lia. }
  apply Hz. by apply Forall_take, Forall_drop.
Qed.

Lemma le_val0 l : Forall is_byte l → le_val l = 0 → Forall (λ x, x = 0) l.
Proof.
  induction 1 as [|x l Hx Hl IH]; [done|]. simpl. intros H0. pose proof (le_val_range l Hl). unfold is_byte in Hx.
  constructor; [lia|]. apply IH. lia.
Qed.

Lemma field0_byte n b o i :
  Forall is_byte b → 0 ≤ o → o + Z.of_nat n ≤ zlen b → field n b o = 0 → o ≤ i < o + Z.of_nat n → byte b i = 0.
Proof.
  intros Hb Ho Hl Hf Hi. apply le_val0 in Hf; [|by apply Forall_take, Forall_drop].
  rewrite Forall_lookup in Hf. assert (byte (seg b o (Z.of_nat n)) (i - o) = byte b i) as <-.
  { rewrite byte_seg by lia. f_equal. lia. }
  unfold byte. destruct (seg b o (Z.of_nat n) !! Z.to_nat (i - o)) as [x|] eqn:E; [|by apply nth_overflow, lookup_ge_None].
  rewrite (nth_lookup_Some _ _ 0 x E). by apply (Hf _ x E).
Qed.

Lemma field_zeros n m o : 0 ≤ o → field n (zeros m) o = 0.
Proof. intros _. apply field_all0. by apply Forall_replicate. Qed.

(** ** Bit maps *)

Lemma bit_other b k v i :
  0 ≤ k < zlen b → 0 ≤ i → i / 8 ≠ k → bit (paste b k [v]) i = bit b i.
Proof.
  intros. unfold bit. pose proof (Z.div_pos i 8). change (zlen [v]) with 1 in *.
  rewrite byte_paste_out; try done; change (zlen [v]) with 1; lia.
Qed.

Lemma bit_paste_same b k v j :
  0 ≤ k < zlen b → j / 8 = k → bit (paste b k [v]) j = Z.testbit v (j mod 8).
Proof.
  intros Hk Hj. unfold bit. rewrite Hj.
  rewrite byte_paste_in by (change (zlen [v]) with 1; lia). by rewrite Z.sub_diag.
Qed.

Lemma bit_set b i j : 0 ≤ i → i / 8 < zlen b → 0 ≤ j → bit (set_bit b i) j = bit b j || (i =? j).
Proof.
  intros Hi Hb Hj. unfold set_bit. pose proof (Z.div_pos i 8).
  destruct (decide (j / 8 = i / 8)) as [E|E].
  - rewrite bit_paste_same by lia. unfold bit. rewrite E.
    rewrite Z.lor_spec. f_equal. rewrite Z.shiftl_1_l. rewrite Z.pow2_bits_eqb by (apply Z.mod_pos_bound; lia).
    apply eq_true_iff_eq. rewrite !Z.eqb_eq. Z.to_euclidean_division_equations; lia.
  - rewrite bit_other by lia. destruct (Z.eqb_spec i j) as [->|]; [lia|]. by rewrite orb_false_r.
Qed.

Lemma bit_clear b i j : 0 ≤ i → i / 8 < zlen b → 0 ≤ j → bit (clear_bit b i) j = bit b j && negb (i =? j).
Proof.
  intros Hi Hb Hj. unfold clear_bit. pose proof (Z.div_pos i 8).
  destruct (decide (j / 8 = i / 8)) as [E|E].
  - rewrite bit_paste_same by lia. unfold bit. rewrite E.
    rewrite Z.ldiff_spec. f_equal. f_equal. rewrite Z.shiftl_1_l. rewrite Z.pow2_bits_eqb by (apply Z.mod_pos_bound; lia).
    apply eq_true_iff_eq. rewrite !Z.eqb_eq. Z.to_euclidean_division_equations; lia.
  - rewrite bit_other by lia. destruct (Z.eqb_spec i j) as [->|]; [lia|]. by rewrite andb_true_r.
Qed.

Lemma is_byte_bit_op b k v :
  Forall is_byte b → 0 ≤ v < 256 → Forall is_byte (paste b k [v]).
Proof. intros. apply is_byte_paste; [done|]. by apply Forall_singleton. Qed.

Lemma zlen_set_bit b i : 0 ≤ i → i / 8 < zlen b → zlen (set_bit b i) = zlen b.
Proof. intros. pose proof (Z.div_pos i 8). apply zlen_paste; [lia|]. change (zlen [_]) with 1. lia. Qed.

Lemma zlen_clear_bit b i : 0 ≤ i → i / 8 < zlen b → zlen (clear_bit b i) = zlen b.
Proof. intros. pose proof (Z.div_pos i 8). apply zlen_paste; [lia|]. change (zlen [_]) with 1. lia. Qed.

Lemma is_byte_land_bound v : (∀ j, 8 ≤ j → Z.testbit v j = false) → 0 ≤ v → is_byte v.
Proof.
  intros Hb Hv. split; [done|]. destruct (decide (v = 0)) as [->|]; [lia|].
  apply Z.log2_lt_pow2 with (b := 8); [lia|].
  destruct (Z.lt_ge_cases (Z.log2 v) 8); [done|].
  specialize (Hb (Z.log2 v) ltac:(lia)). rewrite Z.bit_log2 in Hb by lia. done.
Qed.

Lemma is_byte_high v j : is_byte v → 8 ≤ j → Z.testbit v j = false.
Proof.
  intros [Hv1 Hv2] Hj. rewrite <- (Z.mod_small v (2 ^ 8)) by (simpl; lia). apply Z.mod_pow2_bits_high. lia.
Qed.

Lemma is_byte_set_bit b i : Forall is_byte b → Forall is_byte (set_bit b i).
Proof.
  intros Hb. apply is_byte_bit_op; [done|]. pose proof (is_byte_byte b (i / 8) Hb) as Hx.
  apply is_byte_land_bound.
  - intros j Hj. rewrite Z.lor_spec, is_byte_high by done. rewrite Z.shiftl_1_l.
    apply Z.pow2_bits_false. pose proof (Z.mod_pos_bound i 8). lia.
  - apply Z.lor_nonneg. split; [by destruct Hx|]. rewrite Z.shiftl_1_l. apply Z.pow_nonneg. lia.
Qed.

Lemma is_byte_clear_bit b i : Forall is_byte b → Forall is_byte (clear_bit b i).
Proof.
  intros Hb. apply is_byte_bit_op; [done|]. pose proof (is_byte_byte b (i / 8) Hb) as Hx.
  apply is_byte_land_bound.
  - intros j Hj. by rewrite Z.ldiff_spec, is_byte_high by done.
  - apply Z.ldiff_nonneg. left. by destruct Hx.
Qed.

#[export] Hint Rewrite @zlen_app @zlen_cons zlen_le_bytes : zlen.
