(* ===== verification/Ext2.v ===== *)
(** * The ext2 file system: definitions

    [lib/ext2/src/lib.rs], all of it: on-disk structures, mounting, the block
    and inode bit maps, the block map with its three levels of indirection,
    file data, directories, the namespace operations and mkfs.  The device is
    a class, as the source has it ([trait Device]).

    The superblock and an inode are their bytes, as in the source ([raw]), with
    a table of fields for the accessor methods.  The superblock always has 1024
    bytes, so its accessors are total; an inode has as many bytes as the
    superblock says, so its accessors may panic.  Arithmetic that cannot
    overflow for values of its operands' types is written without a check. *)

From S2P Require Import Prelude Text Bytes.

(** ** Constants and errors *)

Definition ROOT_INO : Z := 2.
Definition MAGIC : Z := 0xEF53.
Definition INCOMPAT_FILETYPE : Z := 0x0002.
Definition RO_SPARSE_SUPER : Z := 0x0001.
Definition RO_LARGE_FILE : Z := 0x0002.
Definition RO_SUPPORTED : Z := Z.lor RO_SPARSE_SUPER RO_LARGE_FILE.
Definition STATE_VALID : Z := 1.

Definition S_IFMT : Z := 0xF000.
Definition S_IFSOCK : Z := 0xC000.
Definition S_IFLNK : Z := 0xA000.
Definition S_IFREG : Z := 0x8000.
Definition S_IFBLK : Z := 0x6000.
Definition S_IFDIR : Z := 0x4000.
Definition S_IFCHR : Z := 0x2000.
Definition S_IFIFO : Z := 0x1000.

Definition FT_UNKNOWN : Z := 0.
Definition FT_REG : Z := 1.
Definition FT_DIR : Z := 2.
Definition FT_CHR : Z := 3.
Definition FT_BLK : Z := 4.
Definition FT_FIFO : Z := 5.
Definition FT_SOCK : Z := 6.
Definition FT_SYMLINK : Z := 7.

Definition ft_from_mode (mode : Z) : Z :=
  let k := Z.land mode S_IFMT in
  if k =? S_IFREG then FT_REG
  else if k =? S_IFDIR then FT_DIR
  else if k =? S_IFCHR then FT_CHR
  else if k =? S_IFBLK then FT_BLK
  else if k =? S_IFIFO then FT_FIFO
  else if k =? S_IFSOCK then FT_SOCK
  else if k =? S_IFLNK then FT_SYMLINK
  else FT_UNKNOWN.

Inductive Error :=
  | Io | Corrupt | Unsupported | NotFound | Exists | NotDir | IsDir | NotEmpty
  | NoSpace | NameTooLong | TooManyLinks | ReadOnly | Invalid | FileTooBig.

(** [trait Device]: byte-addressed storage. *)
Class Device (D : Type) := {
  dev_read : Z → Z → Exec D (Error + list Z);
  dev_write : Z → list Z → Exec D (Error + unit);
  dev_flush : Exec D (Error + unit);
  dev_size : D → Z;
}.

(** Checked arithmetic: the exact result, if it has the type. *)
Definition chk16 (x : Z) : option Z := if (0 <=? x) && (x <? 2 ^ 16) then Some x else None.
Definition chk32 (x : Z) : option Z := if (0 <=? x) && (x <? U32) then Some x else None.
Definition div_up (a b : Z) : Z := (a + b - 1) / b.

(** ** On-disk structures *)

Inductive SbField :=
  | s_inodes_count | s_blocks_count | s_r_blocks_count | s_free_blocks | s_free_inodes
  | s_first_data_block | s_log_block_size | s_blocks_per_group | s_inodes_per_group
  | s_wtime | s_magic | s_state | s_rev_level | s_first_ino | s_inode_size
  | s_feature_incompat | s_feature_ro_compat.

Definition sb_off (f : SbField) : Z :=
  match f with
  | s_inodes_count => 0 | s_blocks_count => 4 | s_r_blocks_count => 8 | s_free_blocks => 12
  | s_free_inodes => 16 | s_first_data_block => 20 | s_log_block_size => 24
  | s_blocks_per_group => 32 | s_inodes_per_group => 40 | s_wtime => 48 | s_magic => 56
  | s_state => 58 | s_rev_level => 76 | s_first_ino => 84 | s_inode_size => 88
  | s_feature_incompat => 96 | s_feature_ro_compat => 100
  end.

Definition sb_width (f : SbField) : nat :=
  match f with s_magic | s_state | s_inode_size => 2 | _ => 4 end.

Definition Superblock : Type := list Z.
Definition sb_get (f : SbField) (sb : Superblock) : Z := field (sb_width f) sb (sb_off f).
Definition sb_set (f : SbField) (v : Z) (sb : Superblock) : Superblock :=
  paste sb (sb_off f) (le_bytes (sb_width f) v).

Definition first_ino (sb : Superblock) : Z :=
  if sb_get s_rev_level sb =? 0 then 11 else sb_get s_first_ino sb.
Definition inode_size (sb : Superblock) : Z :=
  if sb_get s_rev_level sb =? 0 then 128 else sb_get s_inode_size sb.

Fixpoint until_zero (l : list Z) : list Z :=
  match l with
  | [] => []
  | b :: l' => if b =? 0 then [] else b :: until_zero l'
  end.
Definition volume_name (sb : Superblock) : list (list Z) := from_utf8_lossy (until_zero (seg sb 120 16)).
Definition sb_uuid (sb : Superblock) : list Z := seg sb 104 16.

Record GroupDesc := mkGroup {
  block_bitmap : Z; inode_bitmap : Z; inode_table : Z;
  free_blocks : Z; free_inodes : Z; used_dirs : Z;
}.

Definition decode (b : list Z) : GroupDesc :=
  mkGroup (field 4 b 0) (field 4 b 4) (field 4 b 8) (field 2 b 12) (field 2 b 14) (field 2 b 16).
Definition encode (g : GroupDesc) : list Z :=
  le_bytes 4 (block_bitmap g) ++ le_bytes 4 (inode_bitmap g) ++ le_bytes 4 (inode_table g)
  ++ le_bytes 2 (free_blocks g) ++ le_bytes 2 (free_inodes g) ++ le_bytes 2 (used_dirs g) ++ zeros 14.

Definition with_free_blocks (v : Z) (g : GroupDesc) : GroupDesc :=
  mkGroup (block_bitmap g) (inode_bitmap g) (inode_table g) v (free_inodes g) (used_dirs g).
Definition with_free_inodes (v : Z) (g : GroupDesc) : GroupDesc :=
  mkGroup (block_bitmap g) (inode_bitmap g) (inode_table g) (free_blocks g) v (used_dirs g).
Definition with_used_dirs (v : Z) (g : GroupDesc) : GroupDesc :=
  mkGroup (block_bitmap g) (inode_bitmap g) (inode_table g) (free_blocks g) (free_inodes g) v.

Inductive IField :=
  | i_mode | i_uid_lo | i_size_lo | i_atime | i_ctime | i_mtime | i_dtime | i_gid_lo
  | i_links | i_sectors | i_block (k : Z) | i_size_hi | i_uid_hi | i_gid_hi.

Definition i_off (f : IField) : Z :=
  match f with
  | i_mode => 0 | i_uid_lo => 2 | i_size_lo => 4 | i_atime => 8 | i_ctime => 12 | i_mtime => 16
  | i_dtime => 20 | i_gid_lo => 24 | i_links => 26 | i_sectors => 28 | i_block k => 40 + k * 4
  | i_size_hi => 108 | i_uid_hi => 120 | i_gid_hi => 122
  end.

Definition i_width (f : IField) : nat :=
  match f with i_mode | i_uid_lo | i_gid_lo | i_links | i_uid_hi | i_gid_hi => 2 | _ => 4 end.

Definition Inode : Type := list Z.
Definition iget (f : IField) (i : Inode) : option Z := rd (i_width f) i (i_off f).
Definition iset (f : IField) (v : Z) (i : Inode) : option Inode := wr (i_width f) i (i_off f) v.

Definition new_inode (n : Z) : Inode := zeros n.

Definition is_kind (k : Z) (i : Inode) : option bool :=
  m ← iget i_mode i; Some (Z.land m S_IFMT =? k).
Definition is_dir (i : Inode) : option bool := is_kind S_IFDIR i.
Definition is_symlink (i : Inode) : option bool := is_kind S_IFLNK i.

Definition uid (i : Inode) : option Z :=
  lo ← iget i_uid_lo i; hi ← iget i_uid_hi i; Some (Z.lor lo (Z.shiftl hi 16)).
Definition set_uid (v : Z) (i : Inode) : option Inode :=
  i ← iset i_uid_lo v i; iset i_uid_hi (Z.shiftr v 16) i.
Definition gid (i : Inode) : option Z :=
  lo ← iget i_gid_lo i; hi ← iget i_gid_hi i; Some (Z.lor lo (Z.shiftl hi 16)).
Definition set_gid (v : Z) (i : Inode) : option Inode :=
  i ← iset i_gid_lo v i; iset i_gid_hi (Z.shiftr v 16) i.

Definition size (i : Inode) : option Z :=
  lo ← iget i_size_lo i;
  reg ← is_kind S_IFREG i;
  if (reg : bool) then hi ← iget i_size_hi i; Some (Z.lor lo (Z.shiftl hi 32)) else Some lo.
Definition set_size (v : Z) (i : Inode) : option Inode :=
  i ← iset i_size_lo v i;
  reg ← is_kind S_IFREG i;
  if (reg : bool) then iset i_size_hi (Z.shiftr v 32) i else Some i.

Definition rdev (i : Inode) : option Z :=
  old ← iget (i_block 0) i; if negb (old =? 0) then Some old else iget (i_block 1) i.
Definition set_rdev (v : Z) (i : Inode) : option Inode :=
  if (v <? 0x10000) && (Z.shiftr (Z.land v 0xFF00) 8 <? 256) then iset (i_block 0) v i
  else iset (i_block 1) v i.

Definition is_fast_symlink (i : Inode) : option bool :=
  l ← is_symlink i;
  if (l : bool) then n ← iget i_sectors i; Some (n =? 0) else Some false.

(** Times and ownership of a new inode, in the order of [create], [mkdir] and
    [symlink]. *)
Definition init_inode (n mode u g links now : Z) : option Inode :=
  i ← iset i_mode mode (new_inode n);
  i ← set_uid u i;
  i ← set_gid g i;
  i ← iset i_links links i;
  i ← iset i_atime now i;
  i ← iset i_ctime now i;
  iset i_mtime now i.

Record DirEntry := mkEntry { e_ino : Z; e_name : list Z; e_type : Z }.

Record Attr := mkAttr {
  a_mode : option Z; a_uid : option Z; a_gid : option Z; a_size : option Z;
  a_atime : option Z; a_mtime : option Z; a_ctime : option Z;
}.

Record Stats := mkStats {
  st_block_size : Z; st_blocks : Z; st_free_blocks : Z; st_reserved : Z;
  st_inodes : Z; st_free_inodes : Z;
}.

(** The least power of [p] that is not below [group].  Every step multiplies a
    [u32] by at least 3, so that 32 of them end or overflow. *)
Fixpoint power_up (fuel : nat) (x p group : Z) : option Z :=
  match fuel with
  | O => None
  | S f => if x <? group then x' ← chk32 (x * p); power_up f x' p group else Some x
  end.

Fixpoint power_of_one (ps : list Z) (group : Z) : option bool :=
  match ps with
  | [] => Some false
  | p :: ps => x ← power_up 32 p p group; if x =? group then Some true else power_of_one ps group
  end.

(** [None] is the overflow of the product, for groups near the end of a [u32]. *)
Definition has_super_backup (group : Z) (sparse : bool) : option bool :=
  if negb sparse || (group <=? 1) then Some true else power_of_one [3; 5; 7] group.

(** ** The mounted file system *)

Section ext2.
Context {D : Type} `{Device D}.

(** [clock] is the time source, any [u32] at each reading; [readings] counts
    them. *)
Record Ext2 := mkExt2 {
  dev : D;
  sb : Superblock;
  bs : Z;
  groups : list GroupDesc;
  gdt_dirty : bool;
  sb_dirty : bool;
  read_only : bool;
  clock : nat → Z;
  readings : nat;
  clean_at_mount : bool;
}.

Definition with_dev (d : D) (s : Ext2) : Ext2 :=
  mkExt2 d (sb s) (bs s) (groups s) (gdt_dirty s) (sb_dirty s) (read_only s) (clock s) (readings s) (clean_at_mount s).
Definition with_sb (b : Superblock) (s : Ext2) : Ext2 :=
  mkExt2 (dev s) b (bs s) (groups s) (gdt_dirty s) true (read_only s) (clock s) (readings s) (clean_at_mount s).
Definition with_groups (g : list GroupDesc) (s : Ext2) : Ext2 :=
  mkExt2 (dev s) (sb s) (bs s) g true (sb_dirty s) (read_only s) (clock s) (readings s) (clean_at_mount s).
Definition gdt_synced (s : Ext2) : Ext2 :=
  mkExt2 (dev s) (sb s) (bs s) (groups s) false true (read_only s) (clock s) (readings s) (clean_at_mount s).
Definition sb_synced (s : Ext2) : Ext2 :=
  mkExt2 (dev s) (sb s) (bs s) (groups s) (gdt_dirty s) false (read_only s) (clock s) (readings s) (clean_at_mount s).
Definition ticked (s : Ext2) : Ext2 :=
  mkExt2 (dev s) (sb s) (bs s) (groups s) (gdt_dirty s) (sb_dirty s) (read_only s) (clock s) (S (readings s)) (clean_at_mount s).

Notation Op A := (Exec Ext2 (Error + A)).

Definition ok {S A} (a : A) : Exec S (Error + A) := mret (inr a).
Definition err {S A} (e : Error) : Exec S (Error + A) := mret (inl e).

Definition on_dev {A} (m : Exec D A) : Exec Ext2 A := λ s,
  match m (dev s) with
  | Some (a, d) => Some (a, with_dev d s)
  | None => None
  end.

Definition sbv (f : SbField) (s : Ext2) : Z := sb_get f (sb s).

Definition stats (s : Ext2) : Stats :=
  mkStats (bs s) (sbv s_blocks_count s) (sbv s_free_blocks s) (sbv s_r_blocks_count s)
    (sbv s_inodes_count s) (sbv s_free_inodes s).

Definition now : Exec Ext2 Z :=
  s ← get; _ ← modify ticked; mret (clock s (readings s)).

Definition check_rw : Op unit :=
  ro ← gets read_only; if (ro : bool) then err ReadOnly else ok tt.

(** *** Blocks *)

Definition bad_block (blk : Z) (s : Ext2) : bool := (blk =? 0) || (sbv s_blocks_count s <=? blk).

Definition read_block (blk : Z) : Op (list Z) :=
  s ← get;
  if bad_block blk s then err Corrupt else on_dev (dev_read (blk * bs s) (bs s)).

Definition write_block (blk : Z) (buf : list Z) : Op unit :=
  s ← get;
  if bad_block blk s then err Corrupt
  else v ← need (get_seg buf 0 (bs s)); on_dev (dev_write (blk * bs s) v).

Definition zero_block (blk : Z) : Op unit :=
  s ← get; write_block blk (zeros (bs s)).

(** *** Synchronisation *)

Definition gdt_bytes (s : Ext2) : Z := div_up (zlen (groups s) * 32) (bs s) * bs s.
Definition gdt_image (s : Ext2) : list Z :=
  concat (encode <$> groups s) ++ zeros (gdt_bytes s - zlen (groups s) * 32).

Definition sync_gdt : Op unit :=
  s ← get;
  if gdt_dirty s then
    _ ←? on_dev (dev_write ((sbv s_first_data_block s + 1) * bs s) (gdt_image s));
    _ ← modify gdt_synced; ok tt
  else ok tt.

Definition sync_sb : Op unit :=
  s ← get;
  if sb_dirty s then
    t ← now;
    _ ← modify (λ s, with_sb (sb_set s_wtime t (sb s)) s);
    raw ← gets sb;
    _ ←? on_dev (dev_write 1024 raw);
    _ ← modify sb_synced; ok tt
  else ok tt.

Definition sync : Op unit :=
  ro ← gets read_only;
  if (ro : bool) then ok tt else
  _ ←? sync_gdt;
  _ ←? sync_sb;
  on_dev dev_flush.

Definition unmount : Op unit :=
  s ← get;
  _ ← (if read_only s then mret tt
       else modify (with_sb (sb_set s_state (Z.lor (sbv s_state s) STATE_VALID) (sb s))));
  sync.

(** [open]: the device moves into the file system, so it is lost on error. *)
Definition open (d : D) (clk : nat → Z) : option (Error + Ext2) :=
  '(r, d) ← dev_read 1024 1024 d;
  match r with
  | inl e => Some (inl e)
  | inr raw =>
    if negb (sb_get s_magic raw =? MAGIC) then Some (inl Corrupt) else
    if negb (Z.ldiff (sb_get s_feature_incompat raw) INCOMPAT_FILETYPE =? 0) then Some (inl Unsupported) else
    let ro := negb (Z.ldiff (sb_get s_feature_ro_compat raw) RO_SUPPORTED =? 0) in
    let log := sb_get s_log_block_size raw in
    if 64 <=? log then None else
    let b := Z.shiftl 1024 log mod U64 in
    if negb ((1024 <=? b) && (b <=? 65536)) || (sb_get s_blocks_per_group raw =? 0)
       || (sb_get s_inodes_per_group raw =? 0) then Some (inl Corrupt) else
    blocks ← chk32 (sb_get s_blocks_count raw - sb_get s_first_data_block raw);
    let ngroups := div_up blocks (sb_get s_blocks_per_group raw) in
    let gbytes := div_up (ngroups * 32) b * b in
    '(r, d) ← dev_read ((sb_get s_first_data_block raw + 1) * b) gbytes d;
    match r with
    | inl e => Some (inl e)
    | inr gdt =>
      let gs := (λ g, decode (seg gdt (g * 32) 32)) <$> seqZ 0 ngroups in
      let clean := negb (Z.land (sb_get s_state raw) STATE_VALID =? 0) in
      let fs := mkExt2 d raw b gs false false ro clk 0 clean in
      if ro then Some (inr fs) else
      let fs := with_sb (sb_set s_state (Z.ldiff (sbv s_state fs) STATE_VALID) raw) fs in
      '(r, fs) ← sync fs;
      match r with inl e => Some (inl e) | inr _ => Some (inr fs) end
    end
  end.

(** *** Inodes *)

Definition inode_location (ino : Z) : Op (Z * Z) :=
  s ← get;
  if (ino =? 0) || (sbv s_inodes_count s <? ino) then err Invalid else
  let ipg := sbv s_inodes_per_group s in
  let isz := inode_size (sb s) in
  g ← need (groups s !! Z.to_nat ((ino - 1) / ipg));
  ok (inode_table g * bs s + (ino - 1) mod ipg * isz, isz).

(** The 512-byte sectors around an inode. *)
Definition sector_of (off : Z) : Z := Z.ldiff off 511.
Definition span_of (off isz : Z) : Z := div_up (off + isz - sector_of off) 512 * 512.

Definition read_inode (ino : Z) : Op Inode :=
  loc ←? inode_location ino;
  let '(off, isz) := loc in
  let sec := sector_of off in
  buf ←? on_dev (dev_read sec (span_of off isz));
  raw ← need (get_seg buf (off - sec) isz);
  ok raw.

Definition write_inode (ino : Z) (inode : Inode) : Op unit :=
  loc ←? inode_location ino;
  let '(off, isz) := loc in
  let sec := sector_of off in
  buf ←? on_dev (dev_read sec (span_of off isz));
  v ← need (get_seg inode 0 isz);
  buf' ← need (put_seg buf (off - sec) v);
  on_dev (dev_write sec buf').

(** *** Bit maps *)

Definition group_blocks (g : Z) : Exec Ext2 Z :=
  s ← get;
  let bpg := sbv s_blocks_per_group s in
  start ← need (chk32 (sbv s_first_data_block s + g * bpg));
  n ← need (chk32 (sbv s_blocks_count s - start));
  mret (Z.min n bpg).

(** [find]: the first candidate whose bit is clear; an index outside the map
    panics. *)
Fixpoint find_clear (b : list Z) (cands : list Z) : option (option Z) :=
  match cands with
  | [] => Some None
  | i :: l => if zlen b <=? i / 8 then None
              else if bit b i then find_clear b l else Some (Some i)
  end.

Definition set_group (g : Z) (f : GroupDesc → GroupDesc) : Exec Ext2 unit :=
  modify (λ s, with_groups (alter f (Z.to_nat g) (groups s)) s).
Definition set_sbv (f : SbField) (v : Z) : Exec Ext2 unit :=
  modify (λ s, with_sb (sb_set f v (sb s)) s).

(** The body of the loops over groups in [alloc_block]: group [g] from bit
    [start_bit] on; [None] goes on to the next group. *)
Definition alloc_block_in (g start_bit : Z) : Op (option Z) :=
  s ← get;
  d ← need (groups s !! Z.to_nat g);
  if free_blocks d =? 0 then ok None else
  bitmap ←? read_block (block_bitmap d);
  nbits ← group_blocks g;
  found ← need (find_clear bitmap (seqZ start_bit (nbits - start_bit) ++ seqZ 0 start_bit));
  match found with
  | None => _ ← set_group g (with_free_blocks 0); ok None
  | Some i =>
    _ ←? write_block (block_bitmap d) (set_bit bitmap i);
    _ ← set_group g (with_free_blocks (free_blocks d - 1));
    fb ← gets (sbv s_free_blocks);
    _ ← set_sbv s_free_blocks (fb - 1);
    blk ← need (chk32 (sbv s_first_data_block s + g * sbv s_blocks_per_group s + i));
    ok (Some blk)
  end.

Fixpoint alloc_block_loop (steps : list Z) (goal_group goal_bit : Z) : Op Z :=
  match steps with
  | [] => err NoSpace
  | step :: rest =>
    s ← get;
    let g := (goal_group + step) mod zlen (groups s) in
    r ←? alloc_block_in g (if step =? 0 then goal_bit else 0);
    match r with
    | Some blk => ok blk
    | None => alloc_block_loop rest goal_group goal_bit
    end
  end.

Definition alloc_block (goal : Z) : Op Z :=
  _ ←? check_rw;
  s ← get;
  if sbv s_free_blocks s =? 0 then err NoSpace else
  let bpg := sbv s_blocks_per_group s in
  let first := sbv s_first_data_block s in
  last ← need (chk32 (sbv s_blocks_count s - 1));
  let goal := Z.min (Z.max goal first) last in
  rel ← need (chk32 (goal - first));
  alloc_block_loop (seqZ 0 (zlen (groups s))) (rel / bpg) (rel mod bpg).

Definition free_block (blk : Z) : Op unit :=
  s ← get;
  let first := sbv s_first_data_block s in
  if (blk <? first) || (sbv s_blocks_count s <=? blk) then err Corrupt else
  let bpg := sbv s_blocks_per_group s in
  let g := (blk - first) / bpg in
  let i := (blk - first) mod bpg in
  d ← need (groups s !! Z.to_nat g);
  bitmap ←? read_block (block_bitmap d);
  _ ← need (if i / 8 <? zlen bitmap then Some tt else None);
  if negb (bit bitmap i) then err Corrupt else
  _ ←? write_block (block_bitmap d) (clear_bit bitmap i);
  n ← need (chk16 (free_blocks d + 1));
  _ ← set_group g (with_free_blocks n);
  fb ← gets (sbv s_free_blocks);
  fb' ← need (chk32 (fb + 1));
  _ ← set_sbv s_free_blocks fb';
  ok tt.

(** [max_by_key] over the groups: the last group with the greatest pair. *)
Definition key_le (a b : GroupDesc) : bool :=
  (free_inodes a <? free_inodes b)
  || ((free_inodes a =? free_inodes b) && (free_blocks a <=? free_blocks b)).
Fixpoint emptiest_from (best : Z) (bd : GroupDesc) (i : Z) (l : list GroupDesc) : Z :=
  match l with
  | [] => best
  | d :: l' => if key_le bd d then emptiest_from i d (i + 1) l' else emptiest_from best bd (i + 1) l'
  end.
Definition emptiest (l : list GroupDesc) : Z :=
  match l with [] => 0 | d :: l' => emptiest_from 0 d 1 l' end.

Definition alloc_inode_in (g : Z) (dir : bool) : Op (option Z) :=
  s ← get;
  let ipg := sbv s_inodes_per_group s in
  d ← need (groups s !! Z.to_nat g);
  if free_inodes d =? 0 then ok None else
  bitmap ←? read_block (inode_bitmap d);
  first_ok ← need (if g =? 0 then chk32 (first_ino (sb s) - 1) else Some 0);
  found ← need (find_clear bitmap (seqZ first_ok (ipg - first_ok)));
  match found with
  | None => _ ← set_group g (with_free_inodes 0); ok None
  | Some i =>
    _ ←? write_block (inode_bitmap d) (set_bit bitmap i);
    _ ← set_group g (with_free_inodes (free_inodes d - 1));
    _ ← (if dir then n ← need (chk16 (used_dirs d + 1)); set_group g (with_used_dirs n) else mret tt);
    fi ← gets (sbv s_free_inodes);
    fi' ← need (chk32 (fi - 1));
    _ ← set_sbv s_free_inodes fi';
    ino ← need (chk32 (g * ipg + i + 1));
    ok (Some ino)
  end.

Fixpoint alloc_inode_loop (steps : list Z) (start : Z) (dir : bool) : Op Z :=
  match steps with
  | [] => err NoSpace
  | step :: rest =>
    s ← get;
    r ←? alloc_inode_in ((start + step) mod zlen (groups s)) dir;
    match r with
    | Some ino => ok ino
    | None => alloc_inode_loop rest start dir
    end
  end.

Definition alloc_inode (parent : Z) (dir : bool) : Op Z :=
  _ ←? check_rw;
  s ← get;
  if sbv s_free_inodes s =? 0 then err NoSpace else
  let pg := (Z.max parent 1 - 1) / sbv s_inodes_per_group s in
  alloc_inode_loop (seqZ 0 (zlen (groups s))) (if dir then emptiest (groups s) else pg) dir.

Definition free_inode (ino : Z) (dir : bool) : Op unit :=
  s ← get;
  let ipg := sbv s_inodes_per_group s in
  rel ← need (chk32 (ino - 1));
  let g := rel / ipg in
  let i := rel mod ipg in
  d ← need (groups s !! Z.to_nat g);
  bitmap ←? read_block (inode_bitmap d);
  _ ← need (if i / 8 <? zlen bitmap then Some tt else None);
  if negb (bit bitmap i) then err Corrupt else
  _ ←? write_block (inode_bitmap d) (clear_bit bitmap i);
  n ← need (chk16 (free_inodes d + 1));
  _ ← set_group g (with_free_inodes n);
  _ ← (if dir then set_group g (with_used_dirs (sat_sub (used_dirs d) 1)) else mret tt);
  fi ← gets (sbv s_free_inodes);
  fi' ← need (chk32 (fi + 1));
  _ ← set_sbv s_free_inodes fi';
  ok tt.

End ext2.
