(* ===== verification/Ext2Fs.v ===== *)
(** * The ext2 file system: files and names

    The second half of [lib/ext2/src/lib.rs]: the block map and its inverse
    ([bmap], [free_from]), file data, directories and the namespace operations.
    A function that takes [&mut Inode] runs on the pair of the file system and
    that inode, because its changes count also when it returns an error. *)

From S2P Require Import Prelude Text Bytes Ext2.

Section fs.
Context {D : Type} `{Device D}.

Notation Op A := (Exec (@Ext2 D) (Error + A)).
Notation IOp A := (Exec (@Ext2 D * Inode) (Error + A)).

Definition on_fs {A} (m : Exec (@Ext2 D) A) : Exec (@Ext2 D * Inode) A := λ '(s, i),
  match m s with Some (a, s') => Some (a, (s', i)) | None => None end.
Definition of_inode {A} (f : Inode → option A) : Exec (@Ext2 D * Inode) A := λ '(s, i),
  match f i with Some a => Some (a, (s, i)) | None => None end.
Definition on_inode (f : Inode → option Inode) : Exec (@Ext2 D * Inode) unit := λ '(s, i),
  match f i with Some i' => Some (tt, (s, i')) | None => None end.

(** A call with [&mut inode]: the result and the inode afterwards. *)
Definition with_inode {A} (i : Inode) (m : Exec (@Ext2 D * Inode) A) : Exec (@Ext2 D) (A * Inode) := λ s,
  match m (s, i) with Some (a, (s', i')) => Some ((a, i'), s') | None => None end.

(** The call followed by [?]: the value with the inode, or the error. *)
Definition try_inode {A} (i : Inode) (m : IOp A) : Op (A * Inode) :=
  r ← with_inode i m;
  mret match r with (inl e, _) => inl e | (inr a, i') => inr (a, i') end.

(** ** The block map *)

Definition ptrs_per_block (s : @Ext2 D) : Z := bs s / 4.
Definition sectors_per_block (s : @Ext2 D) : Z := bs s / 512.

Definition read_ptr (blk idx : Z) : Op Z :=
  b ←? read_block blk;
  v ← need (rd 4 b (idx * 4));
  ok v.

Definition write_ptr (blk idx v : Z) : Op unit :=
  b ←? read_block blk;
  b' ← need (wr 4 b (idx * 4) v);
  write_block blk b'.

Definition add_sectors : Exec (@Ext2 D * Inode) unit :=
  s ← gets fst;
  n ← of_inode (iget i_sectors);
  n' ← need (chk32 (n + sectors_per_block s));
  on_inode (iset i_sectors n').

Definition sub_sectors : Exec (@Ext2 D * Inode) unit :=
  s ← gets fst;
  n ← of_inode (iget i_sectors);
  on_inode (iset i_sectors (sat_sub n (sectors_per_block s))).

(** The slot of the inode and the indices below it that lead to a file block. *)
Definition block_path (p fblk : Z) : option (Z * list Z) :=
  if fblk <? 12 then Some (fblk, [])
  else if fblk <? 12 + p then Some (12, [fblk - 12])
  else if fblk <? 12 + p + p * p then
    let r := fblk - 12 - p in Some (13, [r / p; r mod p])
  else if fblk <? 12 + p + p * p + p * p * p then
    let r := fblk - 12 - p - p * p in Some (14, [r / (p * p); (r / p) mod p; r mod p])
  else None.

Fixpoint bmap_walk (path : list Z) (cur : Z) (alloc : bool) : IOp Z :=
  match path with
  | [] => ok cur
  | idx :: rest =>
    next ←? on_fs (read_ptr cur idx);
    if next =? 0 then
      if alloc then
        goal ← need (chk32 (cur + 1));
        blk ←? on_fs (alloc_block goal);
        _ ←? on_fs (zero_block blk);
        _ ←? on_fs (write_ptr cur idx blk);
        _ ← add_sectors;
        bmap_walk rest blk alloc
      else ok 0
    else bmap_walk rest next alloc
  end.

Definition bmap (ino fblk : Z) (alloc : bool) : IOp Z :=
  s ← gets fst;
  rel ← need (chk32 (ino - 1));
  goal ← need (chk32 (sbv s_first_data_block s + rel / sbv s_inodes_per_group s * sbv s_blocks_per_group s));
  match block_path (ptrs_per_block s) fblk with
  | None => err FileTooBig
  | Some (slot, path) =>
    cur ← of_inode (iget (i_block slot));
    if cur =? 0 then
      if alloc then
        blk ←? on_fs (alloc_block goal);
        _ ←? (if path then ok tt else on_fs (zero_block blk));
        _ ← on_inode (iset (i_block slot) blk);
        _ ← add_sectors;
        bmap_walk path blk alloc
      else ok 0
    else bmap_walk path cur alloc
  end.

(** The loop of [free_tree] over the entries of a pointer block [b]. *)
Fixpoint free_kids (free_child : Z → Z → IOp bool) (per from : Z) (ks : list Z)
    (b : list Z) (changed : bool) : IOp (list Z * bool) :=
  match ks with
  | [] => ok (b, changed)
  | i :: rest =>
    child ← need (rd 4 b (i * 4));
    if (child =? 0) || (i * per + per <=? from) then free_kids free_child per from rest b changed
    else
      free ←? free_child child (sat_sub from (i * per));
      if (free : bool) then
        _ ←? on_fs (free_block child);
        _ ← sub_sectors;
        b' ← need (wr 4 b (i * 4) 0);
        free_kids free_child per from rest b' true
      else free_kids free_child per from rest b changed
  end.

(** Depth 1 is a block of data pointers; the callers pass 1, 2 or 3. *)
Fixpoint free_tree (depth : nat) (blk from : Z) : IOp bool :=
  match depth with
  | O => panic
  | S d =>
    s ← gets fst;
    let p := ptrs_per_block s in
    b ←? on_fs (read_block blk);
    r ←? free_kids (if d then λ _ _, ok true else free_tree d) (p ^ Z.of_nat d) from (seqZ 0 p) b false;
    let '(b', changed) := r in
    _ ←? (if (changed : bool) then on_fs (write_block blk b') else ok tt);
    ok (forallb (Z.eqb 0) b')
  end.

Fixpoint free_direct (ks : list Z) : IOp unit :=
  match ks with
  | [] => ok tt
  | i :: rest =>
    b ← of_inode (iget (i_block i));
    if b =? 0 then free_direct rest
    else
      _ ←? on_fs (free_block b);
      _ ← on_inode (iset (i_block i) 0);
      _ ← sub_sectors;
      free_direct rest
  end.

(** One of the three indirect trees: its slot, the first file block it covers
    and its depth. *)
Definition free_indirect (from slot base : Z) (depth : nat) : IOp unit :=
  s ← gets fst;
  root ← of_inode (iget (i_block slot));
  if (root =? 0) || (base + ptrs_per_block s ^ Z.of_nat depth <=? from) then ok tt
  else
    emptied ←? free_tree depth root (sat_sub from base);
    if (emptied : bool) then
      _ ←? on_fs (free_block root);
      _ ← on_inode (iset (i_block slot) 0);
      _ ← sub_sectors;
      ok tt
    else ok tt.

Definition free_from (from : Z) : IOp unit :=
  s ← gets fst;
  let p := ptrs_per_block s in
  _ ←? free_direct (seqZ (Z.min from 12) (12 - Z.min from 12));
  _ ←? free_indirect from 12 12 1;
  _ ←? free_indirect from 13 (12 + p) 2;
  free_indirect from 14 (12 + p + p * p) 3.

(** ** File data *)

(** The loop of [read], with [acc] the bytes copied so far. *)
Fixpoint read_loop (fuel : nat) (ino off n : Z) (acc : list Z) : IOp (list Z) :=
  match fuel with
  | O => panic
  | S f =>
    let done := zlen acc in
    if n <=? done then ok acc else
    s ← gets fst;
    let pos := off + done in
    let boff := pos mod bs s in
    let chunk := Z.min (bs s - boff) (n - done) in
    pb ←? bmap ino (pos / bs s) false;
    if pb =? 0 then read_loop f ino off n (acc ++ zeros chunk)
    else
      b ←? on_fs (read_block pb);
      if (boff =? 0) && (chunk =? bs s) then read_loop f ino off n (acc ++ b)
      else v ← need (get_seg b boff chunk); read_loop f ino off n (acc ++ v)
  end.

(** [read] into a buffer of [len] bytes gives the bytes it fills. *)
Definition read (ino off len : Z) : Op (list Z) :=
  inode ←? read_inode ino;
  d ← need (is_dir inode);
  if (d : bool) then err IsDir else
  sz ← need (size inode);
  if sz <=? off then ok [] else
  let n := Z.min len (sz - off) in
  r ←? try_inode inode (read_loop (S (Z.to_nat n)) ino off n []);
  ok r.1.

Fixpoint write_loop (fuel : nat) (ino off : Z) (data : list Z) (done : Z) : IOp Z :=
  match fuel with
  | O => panic
  | S f =>
    if zlen data <=? done then ok done else
    s ← gets fst;
    let pos := off + done in
    let fblk := pos / bs s in
    let boff := pos mod bs s in
    let chunk := Z.min (bs s - boff) (zlen data - done) in
    old ←? bmap ino fblk false;
    r ← bmap ino fblk true;
    match r with
    | inl NoSpace => if 0 <? done then ok done else err NoSpace
    | inl e => err e
    | inr pb =>
      _ ←? (if (boff =? 0) && (chunk =? bs s) then on_fs (write_block pb (seg data done chunk))
            else
              b ←? (if old =? 0 then ok (zeros (bs s)) else on_fs (read_block pb));
              b' ← need (put_seg b boff (seg data done chunk));
              on_fs (write_block pb b'));
      sz ← of_inode size;
      _ ← (if sz <? pos + chunk then on_inode (set_size (pos + chunk)) else mret tt);
      write_loop f ino off data (done + chunk)
    end
  end.

Definition write_into (ino off : Z) (data : list Z) : IOp Z :=
  write_loop (S (length data)) ino off data 0.

(** [set_mtime] and [set_ctime] to the time. *)
Definition stamp (i : Inode) : Exec (@Ext2 D) Inode :=
  t ← now; i ← need (iset i_mtime t i); need (iset i_ctime t i).

Definition write (ino off : Z) (data : list Z) : Op Z :=
  _ ←? check_rw;
  inode ←? read_inode ino;
  d ← need (is_dir inode);
  if (d : bool) then err IsDir else
  s ← get;
  let max := if Z.land (sbv s_feature_ro_compat s) RO_LARGE_FILE =? 0 then U32 - 1 else 2 ^ 40 in
  if (u64_max <? off + zlen data) || (max <? off + zlen data) then err FileTooBig else
  r ← with_inode inode (write_into ino off data);
  let '(res, inode) := r in
  let finish (written : Z) : Op Z :=
    inode ← stamp inode;
    _ ←? write_inode ino inode;
    if (written =? 0) && negb (zlen data =? 0) then err NoSpace else ok written in
  match res with
  | inr n => finish n
  | inl NoSpace => finish 0
  | inl e => _ ←? write_inode ino inode; err e
  end.

Definition truncate_inode (ino size' : Z) : IOp unit :=
  s ← gets fst;
  old ← of_inode size;
  _ ←? (if size' <? old then
          fast ← of_inode is_fast_symlink;
          if (fast : bool) then ok tt else
          _ ←? free_from (div_up size' (bs s));
          let tail := size' mod bs s in
          if tail =? 0 then ok tt else
          pb ←? bmap ino (size' / bs s) false;
          if pb =? 0 then ok tt else
          b ←? on_fs (read_block pb);
          b' ← need (put_seg b tail (zeros (bs s - tail)));
          on_fs (write_block pb b')
        else ok tt);
  _ ← on_inode (set_size size');
  ok tt.

Definition truncate (ino size' : Z) : Op unit :=
  _ ←? check_rw;
  inode ←? read_inode ino;
  d ← need (is_dir inode);
  if (d : bool) then err IsDir else
  r ←? try_inode inode (truncate_inode ino size');
  inode ← stamp r.2;
  write_inode ino inode.

End fs.
