(* ===== verification/Ext2Names.v ===== *)
(** * The ext2 file system: directories and the namespace

    The directory functions of [lib/ext2/src/lib.rs], from [parse_dir_block] to
    [set_attr].  Names are their UTF-8 bytes. *)

From S2P Require Import Prelude Text Bytes Ext2 Ext2Fs.

(** ** Directory blocks *)

(** [parse_dir_block] with its callback on (offset, inode, record length, name,
    type): the callback updates [A] and says whether to go on. *)
Fixpoint parse_loop {A} (fuel : nat) (bs : Z) (b : list Z)
    (f : Z → Z → Z → list Z → Z → A → A * bool) (off : Z) (a : A) : option (Error + A) :=
  match fuel with
  | O => None
  | S n =>
    if bs <? off + 8 then Some (inr a) else
    ino ← rd 4 b off;
    rec_len ← rd 2 b (off + 4);
    name_len ← rd 1 b (off + 6);
    ftype ← rd 1 b (off + 7);
    if (rec_len <? 8) || (bs <? off + rec_len) || (rec_len <? 8 + name_len)
       || negb (rec_len mod 4 =? 0) then Some (inl Corrupt) else
    name ← get_seg b (off + 8) name_len;
    let '(a', more) := f off ino rec_len name ftype a in
    if (more : bool) then parse_loop n bs b f (off + rec_len) a' else Some (inr a')
  end.

(** Every record has at least 8 bytes. *)
Definition parse_dir_block {A} (bs : Z) (b : list Z)
    (f : Z → Z → Z → list Z → Z → A → A * bool) (a : A) : option (Error + A) :=
  parse_loop (S (Z.to_nat (bs / 8))) bs b f 0 a.

(** The space an entry needs: header and name, rounded up to 4. *)
Definition entry_len (n : Z) : Z := Z.ldiff (8 + n + 3) 3.

Definition write_entry (b : list Z) (off ino rec_len : Z) (name : list Z) (ftype : Z) : option (list Z) :=
  b ← wr 4 b off ino;
  b ← wr 2 b (off + 4) rec_len;
  b ← wr 1 b (off + 6) (zlen name);
  b ← wr 1 b (off + 7) ftype;
  put_seg b (off + 8) name.

(** The callbacks of [lookup], [readdir], [add_entry], [remove_entry] and
    [set_entry]. *)
Definition on_lookup (name : list Z) (off ino rec_len : Z) (n : list Z) (ft : Z) (hit : option Z) : option Z * bool :=
  if negb (ino =? 0) && str_eqb n name then (Some ino, false) else (hit, true).
Definition on_readdir (off ino rec_len : Z) (n : list Z) (ft : Z) (out : list DirEntry) : list DirEntry * bool :=
  (if negb (ino =? 0) then out ++ [mkEntry ino (concat (from_utf8_lossy n)) ft] else out, true).
Definition on_add (need_len off ino rec_len : Z) (n : list Z) (ft : Z) (slot : option (Z * Z * Z)) : option (Z * Z * Z) * bool :=
  let used := if ino =? 0 then 0 else entry_len (zlen n) in
  if need_len <=? rec_len - used then (Some (off, used, rec_len), false) else (slot, true).
Definition on_remove (name : list Z) (off ino rec_len : Z) (n : list Z) (ft : Z)
    (st : option Z * option (Z * Z * Z * option Z)) : option Z * option (Z * Z * Z * option Z) * bool :=
  if negb (ino =? 0) && str_eqb n name then ((st.1, Some (off, ino, rec_len, st.1)), false)
  else ((Some off, st.2), true).
Definition on_set (name : list Z) (off ino rec_len : Z) (n : list Z) (ft : Z) (hit : option Z) : option Z * bool :=
  if negb (ino =? 0) && str_eqb n name then (Some off, false) else (hit, true).

(** The updates of a block that [add_entry], [remove_entry] and [set_entry]
    make where their callback found a place. *)
Definition add_in_block (b : list Z) (off used rec_len : Z) (name : list Z) (ino ftype : Z) : option (list Z) :=
  let new_off := if used =? 0 then off else off + used in
  b ← (if used =? 0 then Some b else wr 2 b (off + 4) used);
  write_entry b new_off ino (rec_len - (new_off - off)) name ftype.
Definition remove_in_block (b : list Z) (off rec_len : Z) (prev : option Z) : option (list Z) :=
  match prev with
  | Some p => plen ← rd 2 b (p + 4); n ← chk16 (plen + rec_len); wr 2 b (p + 4) n
  | None => wr 4 b off 0
  end.
Definition set_in_block (b : list Z) (off ino ftype : Z) : option (list Z) :=
  b ← wr 4 b off ino; wr 1 b (off + 7) ftype.

Section names.
Context {D : Type} `{Device D}.

Notation Op A := (Exec (@Ext2 D) (Error + A)).
Notation IOp A := (Exec (@Ext2 D * Inode) (Error + A)).

Definition dir_block_count (sz : Z) (s : @Ext2 D) : Z := sz / bs s.

(** The loop over the mapped blocks of a directory: [body] gets the block's
    number and bytes and says whether to go on. *)
Fixpoint dir_loop {A} (dir : Z) (fblks : list Z) (body : A → Z → list Z → IOp (A * bool)) (a : A) : IOp A :=
  match fblks with
  | [] => ok a
  | k :: rest =>
    pb ←? bmap dir k false;
    if pb =? 0 then dir_loop dir rest body a else
    b ←? on_fs (read_block pb);
    r ←? body a pb b;
    let '(a', more) := r in
    if (more : bool) then dir_loop dir rest body a' else ok a'
  end.

Definition dir_blocks {A} (dir : Z) (body : A → Z → list Z → IOp (A * bool)) (a : A) : IOp A :=
  sz ← of_inode size;
  s ← gets fst;
  dir_loop dir (seqZ 0 (dir_block_count sz s)) body a.

(** The parse of one block by a callback, from the state [a]. *)
Definition scan {A} (b : list Z) (f : Z → Z → Z → list Z → Z → A → A * bool) (a : A) : IOp A :=
  s ← gets fst; need (parse_dir_block (bs s) b f a).

Definition readdir (dir : Z) : Op (list DirEntry) :=
  inode ←? read_inode dir;
  d ← need (is_dir inode);
  if negb d then err NotDir else
  r ←? try_inode inode
         (dir_blocks dir (λ out _ b, out' ←? scan b on_readdir out; ok (out', true)) []);
  ok r.1.

Definition lookup_body (name : list Z) (_ : option Z) (_ : Z) (b : list Z) : IOp (option Z * bool) :=
  hit ←? scan b (on_lookup name) None; ok (hit, bool_decide (hit = None)).

Definition lookup_name (dir : Z) (name : list Z) : Op Z :=
  inode ←? read_inode dir;
  d ← need (is_dir inode);
  if negb d then err NotDir else
  r ←? try_inode inode (dir_blocks dir (lookup_body name) None);
  match r.1 with Some i => ok i | None => err NotFound end.

(** [stamp] and [write_inode] of the inode at hand. *)
Definition stamp_and_write (ino : Z) : IOp unit :=
  i ← gets snd;
  i' ← on_fs (stamp i);
  _ ← on_inode (λ _, Some i');
  on_fs (write_inode ino i').

Definition add_body (dir : Z) (name : list Z) (ino ftype : Z) (_ : bool) (pb : Z) (b : list Z) : IOp (bool * bool) :=
  slot ←? scan b (on_add (entry_len (zlen name))) None;
  match slot with
  | None => ok (false, true)
  | Some (off, used, rec_len) =>
    b' ← need (add_in_block b off used rec_len name ino ftype);
    _ ←? on_fs (write_block pb b');
    _ ←? stamp_and_write dir;
    ok (true, false)
  end.

Definition add_entry_inode (dir : Z) (name : list Z) (ino ftype : Z) : IOp unit :=
  sz ← of_inode size;
  s ← gets fst;
  added ←? dir_blocks dir (add_body dir name ino ftype) false;
  if (added : bool) then ok tt else
  pb ←? bmap dir (dir_block_count sz s) true;
  b ← need (write_entry (zeros (bs s)) 0 ino (bs s) name ftype);
  _ ←? on_fs (write_block pb b);
  sz ← of_inode size;
  _ ← on_inode (set_size (sz + bs s));
  stamp_and_write dir.

Definition add_entry (dir : Z) (name : list Z) (ino ftype : Z) : Op unit :=
  if (zlen name =? 0) || (255 <? zlen name) then err NameTooLong else
  dinode ←? read_inode dir;
  _ ←? try_inode dinode (add_entry_inode dir name ino ftype);
  ok tt.

Definition remove_body (dir : Z) (name : list Z) (_ : option Z) (pb : Z) (b : list Z) : IOp (option Z * bool) :=
  r ←? scan b (on_remove name) (None, None);
  match r.2 with
  | None => ok (None, true)
  | Some (off, ino, rec_len, prev) =>
    b' ← need (remove_in_block b off rec_len prev);
    _ ←? on_fs (write_block pb b');
    _ ←? stamp_and_write dir;
    ok (Some ino, false)
  end.

Definition remove_entry (dir : Z) (name : list Z) : Op Z :=
  dinode ←? read_inode dir;
  r ←? try_inode dinode (dir_blocks dir (remove_body dir name) None);
  match r.1 with Some ino => ok ino | None => err NotFound end.

Definition set_body (name : list Z) (ino ftype : Z) (_ : bool) (pb : Z) (b : list Z) : IOp (bool * bool) :=
  hit ←? scan b (on_set name) None;
  match hit with
  | None => ok (false, true)
  | Some off =>
    b' ← need (set_in_block b off ino ftype);
    _ ←? on_fs (write_block pb b');
    ok (true, false)
  end.

Definition set_entry (dir : Z) (name : list Z) (ino ftype : Z) : Op unit :=
  dinode ←? read_inode dir;
  r ←? try_inode dinode (dir_blocks dir (set_body name ino ftype) false);
  if (r.1 : bool) then ok tt else err NotFound.

Definition DOT : list Z := [46].
Definition DOTDOT : list Z := [46; 46].

Definition dir_is_empty (dir : Z) : Op bool :=
  l ←? readdir dir;
  ok (forallb (λ e, str_eqb (e_name e) DOT || str_eqb (e_name e) DOTDOT) l).

(** ** Inodes that go away *)

Fixpoint clear_blocks (ks : list Z) (i : Inode) : option Inode :=
  match ks with
  | [] => Some i
  | k :: rest => i ← iset (i_block k) 0 i; clear_blocks rest i
  end.

Definition is_special (i : Inode) : option bool :=
  m ← iget i_mode i;
  let k := Z.land m S_IFMT in
  Some ((k =? S_IFCHR) || (k =? S_IFBLK) || (k =? S_IFIFO) || (k =? S_IFSOCK)).

Definition release (ino : Z) (dir : bool) : Op unit :=
  inode ←? read_inode ino;
  fast ← need (is_fast_symlink inode);
  special ← need (is_special inode);
  inode ←? (if fast || special then ok inode
            else r ←? try_inode inode (free_from 0); ok r.2);
  inode ← need (set_size 0 inode);
  t ← now;
  inode ← need (iset i_dtime t inode);
  inode ← need (iset i_mode 0 inode);
  inode ← need (clear_blocks (seqZ 0 15) inode);
  inode ← need (iset i_sectors 0 inode);
  _ ←? write_inode ino inode;
  free_inode ino dir.

Definition evict (ino : Z) : Op unit :=
  inode ←? read_inode ino;
  links ← need (iget i_links inode);
  mode ← need (iget i_mode inode);
  if (0 <? links) || (mode =? 0) then ok tt else
  d ← need (is_dir inode);
  release ino d.

(** [set_links] of an inode read afresh. *)
Definition bump_links (ino : Z) (f : Z → option Z) : Op unit :=
  inode ←? read_inode ino;
  n ← need (iget i_links inode);
  n' ← need (f n);
  inode ← need (iset i_links n' inode);
  write_inode ino inode.

Definition one_more (n : Z) : option Z := chk16 (n + 1).
Definition one_less (n : Z) : option Z := Some (sat_sub n 1).

(** [self.lookup(dir, name).is_ok()]: any error counts as absent. *)
Definition exists_name (dir : Z) (name : list Z) : Exec (@Ext2 D) bool :=
  r ← lookup_name dir name;
  mret match r with inr _ => true | inl _ => false end.

(** ** The namespace operations *)

Definition mkdir (parent : Z) (name : list Z) (mode u g : Z) : Op Z :=
  _ ←? check_rw;
  if 255 <? zlen name then err NameTooLong else
  pinode ←? read_inode parent;
  d ← need (is_dir pinode);
  if negb d then err NotDir else
  ex ← exists_name parent name;
  if (ex : bool) then err Exists else
  links ← need (iget i_links pinode);
  if 32000 <=? links then err TooManyLinks else
  ino ←? alloc_inode parent true;
  isz ← gets (λ s, inode_size (sb s));
  t ← now;
  inode ← need (init_inode isz (Z.lor S_IFDIR (Z.land mode 0xFFF)) u g 2 t);
  r ← with_inode inode (bmap ino 0 true);
  match r with
  | (inl e, _) => _ ←? free_inode ino true; err e
  | (inr blk, inode) =>
    bsz ← gets bs;
    b ← need (write_entry (zeros bsz) 0 ino 12 DOT FT_DIR);
    b ← need (write_entry b 12 parent (bsz - 12) DOTDOT FT_DIR);
    _ ←? write_block blk b;
    inode ← need (set_size bsz inode);
    _ ←? write_inode ino inode;
    _ ←? add_entry parent name ino FT_DIR;
    _ ←? bump_links parent one_more;
    ok ino
  end.

Definition create (dir : Z) (name : list Z) (mode u g rd : Z) : Op Z :=
  _ ←? check_rw;
  if Z.land mode S_IFMT =? S_IFDIR then mkdir dir name mode u g else
  if 255 <? zlen name then err NameTooLong else
  dinode ←? read_inode dir;
  d ← need (is_dir dinode);
  if negb d then err NotDir else
  ex ← exists_name dir name;
  if (ex : bool) then err Exists else
  ino ←? alloc_inode dir false;
  isz ← gets (λ s, inode_size (sb s));
  t ← now;
  inode ← need (init_inode isz mode u g 1 t);
  inode ← need (if (Z.land mode S_IFMT =? S_IFCHR) || (Z.land mode S_IFMT =? S_IFBLK)
                then set_rdev rd inode else Some inode);
  _ ←? write_inode ino inode;
  r ← add_entry dir name ino (ft_from_mode mode);
  match r with
  | inl e => _ ←? free_inode ino false; err e
  | inr _ => ok ino
  end.

Definition symlink (dir : Z) (name target : list Z) (u g : Z) : Op Z :=
  _ ←? check_rw;
  bsz ← gets bs;
  if (zlen target =? 0) || (bsz <=? zlen target) then err NameTooLong else
  ex ← exists_name dir name;
  if (ex : bool) then err Exists else
  ino ←? alloc_inode dir false;
  isz ← gets (λ s, inode_size (sb s));
  t ← now;
  inode ← need (init_inode isz (Z.lor S_IFLNK 0x1FF) u g 1 t);
  inode ←? (if zlen target <? 60 then inode ← need (put_seg inode 40 target); ok inode
            else
              r ←? try_inode inode (bmap ino 0 true);
              b ← need (put_seg (zeros bsz) 0 target);
              _ ←? write_block r.1 b;
              ok r.2);
  inode ← need (set_size (zlen target) inode);
  _ ←? write_inode ino inode;
  _ ←? add_entry dir name ino FT_SYMLINK;
  ok ino.

Definition readlink (ino : Z) : Op (list (list Z)) :=
  inode ←? read_inode ino;
  l ← need (is_symlink inode);
  if negb l then err Invalid else
  len ← need (size inode);
  fast ← need (is_fast_symlink inode);
  if (fast : bool) then v ← need (get_seg inode 40 (Z.min len 60)); ok (from_utf8_lossy v) else
  r ←? try_inode inode (bmap ino 0 false);
  b ←? read_block r.1;
  bsz ← gets bs;
  v ← need (get_seg b 0 (Z.min len bsz));
  ok (from_utf8_lossy v).

Definition link (dir : Z) (name : list Z) (ino : Z) : Op unit :=
  _ ←? check_rw;
  inode ←? read_inode ino;
  d ← need (is_dir inode);
  if (d : bool) then err IsDir else
  links ← need (iget i_links inode);
  if 32000 <=? links then err TooManyLinks else
  ex ← exists_name dir name;
  if (ex : bool) then err Exists else
  mode ← need (iget i_mode inode);
  _ ←? add_entry dir name ino (ft_from_mode mode);
  n ← need (chk16 (links + 1));
  inode ← need (iset i_links n inode);
  t ← now;
  inode ← need (iset i_ctime t inode);
  write_inode ino inode.

Definition unlink (dir : Z) (name : list Z) (in_use : bool) : Op Z :=
  _ ←? check_rw;
  ino ←? lookup_name dir name;
  inode ←? read_inode ino;
  d ← need (is_dir inode);
  if (d : bool) then err IsDir else
  _ ←? remove_entry dir name;
  links ← need (iget i_links inode);
  inode ← need (iset i_links (sat_sub links 1) inode);
  t ← now;
  inode ← need (iset i_ctime t inode);
  _ ←? write_inode ino inode;
  _ ←? (if (sat_sub links 1 =? 0) && negb in_use then evict ino else ok tt);
  ok ino.

Definition rmdir (parent : Z) (name : list Z) : Op unit :=
  _ ←? check_rw;
  if str_eqb name DOT || str_eqb name DOTDOT then err Invalid else
  ino ←? lookup_name parent name;
  inode ←? read_inode ino;
  d ← need (is_dir inode);
  if negb d then err NotDir else
  e ←? dir_is_empty ino;
  if negb e then err NotEmpty else
  _ ←? remove_entry parent name;
  _ ←? bump_links ino (λ _, Some 0);
  _ ←? release ino true;
  bump_links parent one_less.

(** The target of a rename goes away: its inode was read as [ex]. *)
Definition drop_target (ndir existing : Z) (ex : Inode) (ex_dir : bool) : Op unit :=
  if ex_dir then
    ex ← need (iset i_links 0 ex);
    _ ←? write_inode existing ex;
    _ ←? release existing true;
    bump_links ndir one_less
  else
    n ← need (iget i_links ex);
    ex ← need (iset i_links (sat_sub n 1) ex);
    _ ←? write_inode existing ex;
    if sat_sub n 1 =? 0 then release existing false else ok tt.

(** The end of [rename]: the old name goes, [..] and the link counts of the
    parents follow a directory that moved. *)
Definition rename_finish (odir : Z) (oname : list Z) (ndir ino : Z) (moved : bool) : Op unit :=
  _ ←? remove_entry odir oname;
  _ ←? (if moved then
          _ ←? set_entry ino DOTDOT ndir FT_DIR;
          _ ←? bump_links odir one_less;
          bump_links ndir one_more
        else ok tt);
  i ←? read_inode ino;
  t ← now;
  i ← need (iset i_ctime t i);
  write_inode ino i.

Definition rename (odir : Z) (oname : list Z) (ndir : Z) (nname : list Z) : Op unit :=
  _ ←? check_rw;
  if 255 <? zlen nname then err NameTooLong else
  ino ←? lookup_name odir oname;
  inode ←? read_inode ino;
  isdir ← need (is_dir inode);
  mode ← need (iget i_mode inode);
  let moved := isdir && negb (odir =? ndir) in
  r ← lookup_name ndir nname;
  match r with
  | inl _ =>
    _ ←? add_entry ndir nname ino (ft_from_mode mode);
    rename_finish odir oname ndir ino moved
  | inr existing =>
    if existing =? ino then ok tt else
    ex ←? read_inode existing;
    exdir ← need (is_dir ex);
    if isdir && negb exdir then err NotDir else
    if negb isdir && exdir then err IsDir else
    empty ←? (if isdir && exdir then dir_is_empty existing else ok true);
    if negb empty then err NotEmpty else
    _ ←? set_entry ndir nname ino (ft_from_mode mode);
    _ ←? drop_target ndir existing ex exdir;
    rename_finish odir oname ndir ino moved
  end.

(** A field that [set_attr] sets when it is given. *)
Definition when_some {A} (o : option A) (f : A → Inode → option Inode) (i : Inode) : option Inode :=
  match o with Some a => f a i | None => Some i end.

Definition set_attr (ino : Z) (a : Attr) : Op unit :=
  _ ←? check_rw;
  inode ←? read_inode ino;
  inode ←? match a_size a with
           | None => ok inode
           | Some sz =>
             d ← need (is_dir inode);
             if (d : bool) then err IsDir else
             r ←? try_inode inode (truncate_inode ino sz); ok r.2
           end;
  inode ← need (when_some (a_mode a)
                  (λ m i, old ← iget i_mode i; iset i_mode (Z.lor (Z.land old S_IFMT) (Z.land m 0xFFF)) i) inode);
  inode ← need (when_some (a_uid a) set_uid inode);
  inode ← need (when_some (a_gid a) set_gid inode);
  inode ← need (when_some (a_atime a) (iset i_atime) inode);
  inode ← need (when_some (a_mtime a) (iset i_mtime) inode);
  t ← now;
  inode ← need (iset i_ctime (default t (a_ctime a)) inode);
  write_inode ino inode.

End names.
