(* ===== verification/Ext2Disk.v ===== *)
(** * The ext2 file system: disk, geometry and block I/O

    The reference device is a list of bytes.  It answers the requests the
    [Device] trait documents (whole sectors within the device) and panics on
    any other, so that a result on it also shows that only such requests are
    made.  This file has the geometry of a file system, the block view of the
    disk, and what the primitive reads and writes do to it. *)

From S2P Require Import Prelude Text Bytes Ext2 Ext2Fs.

Definition aligned (x : Z) : bool := x mod 512 =? 0.

#[export] Instance ram_device : Device (list Z) := {
  dev_read off n := λ d,
    if aligned off && aligned n && in_range d off n then Some (inr (seg d off n), d) else None;
  dev_write off v := λ d,
    if aligned off && aligned (zlen v) && in_range d off (zlen v) then Some (inr tt, paste d off v) else None;
  dev_flush := λ d, Some (inr tt, d);
  dev_size := zlen;
}.

(** A mounted file system over the reference device. *)
Definition Fs : Type := @Ext2 (list Z).

(** ** Geometry

    What mounting fixes: block size, counts and the places of bit maps and
    inode tables. *)

Record Geo := mkGeo {
  g_disk : Z; g_bs : Z; g_blocks : Z; g_first : Z; g_bpg : Z; g_ipg : Z; g_isz : Z;
  g_inodes : Z; g_first_ino : Z; g_groups : list (Z * Z * Z);
}.

Definition places (d : GroupDesc) : Z * Z * Z := (block_bitmap d, inode_bitmap d, inode_table d).

Definition geo_of (s : Fs) : Geo :=
  mkGeo (zlen (dev s)) (bs s) (sbv s_blocks_count s) (sbv s_first_data_block s)
    (sbv s_blocks_per_group s) (sbv s_inodes_per_group s) (inode_size (sb s))
    (sbv s_inodes_count s) (first_ino (sb s)) (places <$> groups s).

Definition g_count (G : Geo) : Z := zlen (g_groups G).
(** Blocks of an inode table and of the group descriptors. *)
Definition g_itb (G : Geo) : Z := div_up (g_ipg G * g_isz G) (g_bs G).
Definition g_gdtb (G : Geo) : Z := div_up (g_count G * 32) (g_bs G).

(** The metadata extents of the groups: first block and length. *)
Definition extents_of (itb : Z) (t : Z * Z * Z) : list (Z * Z) :=
  let '(bb, ib, it) := t in [(bb, 1); (ib, 1); (it, itb)].
Definition extents (G : Geo) : list (Z * Z) := concat (extents_of (g_itb G) <$> g_groups G).
Definition in_ext (e : Z * Z) (b : Z) : Prop := e.1 ≤ b < e.1 + e.2.

(** Blocks that never hold file data: the superblock, the descriptors and the
    extents. *)
Definition is_meta (G : Geo) (b : Z) : Prop :=
  b ≤ g_first G + g_gdtb G ∨ ∃ e, e ∈ extents G ∧ in_ext e b.

Record geo_ok (G : Geo) : Prop := {
  go_bs : 1024 ≤ g_bs G ≤ 65536;
  go_bs_mul : g_bs G mod 1024 = 0;
  go_disk : g_blocks G * g_bs G ≤ g_disk G;
  go_first : 0 ≤ g_first G < g_blocks G;
  go_blocks : g_blocks G < U32;
  go_bpg : 0 < g_bpg G ≤ 8 * g_bs G;
  go_bpg16 : g_bpg G < 2 ^ 16;
  go_ipg : 0 < g_ipg G ≤ 8 * g_bs G;
  go_ipg16 : g_ipg G < 2 ^ 16;
  go_isz : 128 ≤ g_isz G ≤ g_bs G;
  go_count : g_count G = div_up (g_blocks G - g_first G) (g_bpg G);
  go_inodes : 0 < g_inodes G ≤ g_count G * g_ipg G;
  go_inodes32 : g_count G * g_ipg G < U32;
  go_first_ino : 0 < g_first_ino G;
  go_inside : Forall (λ e, g_first G + g_gdtb G < e.1 ∧ e.1 + e.2 ≤ g_blocks G) (extents G);
  go_disjoint : ∀ i j e f b, extents G !! i = Some e → extents G !! j = Some f →
    in_ext e b → in_ext f b → i = j;
}.

(** ** The block view *)

Definition blk (s : Fs) (b : Z) : list Z := seg (dev s) (b * bs s) (bs s).

Definition block_of (s : Fs) (i : Z) : Z := i / bs s.

(** Only bytes of blocks in [P] differ. *)
Definition differ_in (P : Z → Prop) (s s' : Fs) : Prop :=
  ∀ i, 0 ≤ i → ¬ P (i / bs s) → byte (dev s') i = byte (dev s) i.

(** The invariant that every state of a mounted file system has. *)
Record disk_ok (G : Geo) (s : Fs) : Prop := {
  dk_geo : geo_of s = G;
  dk_sb : zlen (sb s) = 1024;
  dk_sb_bytes : Forall is_byte (sb s);
  dk_bytes : Forall is_byte (dev s);
}.

Lemma geo_blocks G s : disk_ok G s → sbv s_blocks_count s = g_blocks G.
Proof. by intros [<- _ _ _]. Qed.
Lemma geo_first G s : disk_ok G s → sbv s_first_data_block s = g_first G.
Proof. by intros [<- _ _ _]. Qed.
Lemma geo_bs G s : disk_ok G s → bs s = g_bs G.
Proof. by intros [<- _ _ _]. Qed.
Lemma geo_bpg G s : disk_ok G s → sbv s_blocks_per_group s = g_bpg G.
Proof. by intros [<- _ _ _]. Qed.
Lemma geo_ipg G s : disk_ok G s → sbv s_inodes_per_group s = g_ipg G.
Proof. by intros [<- _ _ _]. Qed.
Lemma geo_isz G s : disk_ok G s → inode_size (sb s) = g_isz G.
Proof. by intros [<- _ _ _]. Qed.
Lemma geo_inodes G s : disk_ok G s → sbv s_inodes_count s = g_inodes G.
Proof. by intros [<- _ _ _]. Qed.
Lemma geo_first_ino G s : disk_ok G s → first_ino (sb s) = g_first_ino G.
Proof. by intros [<- _ _ _]. Qed.
Lemma geo_disk G s : disk_ok G s → zlen (dev s) = g_disk G.
Proof. by intros [<- _ _ _]. Qed.
Lemma geo_groups G s : disk_ok G s → places <$> groups s = g_groups G.
Proof. by intros [<- _ _ _]. Qed.
Lemma geo_ng G s : disk_ok G s → zlen (groups s) = g_count G.
Proof. intros [<- _ _ _]. unfold g_count, zlen. simpl. by rewrite length_fmap. Qed.

(** Rewrites every field of the state that the geometry fixes. *)
Ltac geo H :=
  rewrite ?(geo_blocks _ _ H), ?(geo_first _ _ H), ?(geo_bs _ _ H), ?(geo_bpg _ _ H), ?(geo_ipg _ _ H),
    ?(geo_isz _ _ H), ?(geo_inodes _ _ H), ?(geo_first_ino _ _ H), ?(geo_disk _ _ H), ?(geo_ng _ _ H).

(** ** Backups of the superblock *)

Lemma power_up_least p group fuel : ∀ k, 3 ≤ p ≤ 7 → 0 ≤ k → group < 2 ^ 29 → group ≤ p ^ (k + Z.of_nat fuel) →
  ∃ k', power_up (S fuel) (p ^ k) p group = Some (p ^ k') ∧ k ≤ k' ∧ group ≤ p ^ k' ∧ ∀ j, k ≤ j < k' → p ^ j < group.
Proof.
  induction fuel as [|fuel IH]; intros k Hp Hk Hg Hle; cbn [power_up]; (destruct (Z.ltb_spec (p ^ k) group) as [Hlt|Hge]; [|by exists k; split_and!; [..|lia]]).
  { rewrite Z.add_0_r in Hle. lia. }
  pose proof (Z.pow_nonneg p k ltac:(lia)). unfold chk32, U32. rewrite (proj2 (Z.leb_le _ _)), (proj2 (Z.ltb_lt _ _)) by nia. cbn [andb mbind option_bind].
  rewrite Z.mul_comm, <- Z.pow_succ_r by done. destruct (IH (Z.succ k)) as (k' & E & Hk' & Hg' & Hbel); [done|lia|done|by replace (_ + _) with (k + Z.of_nat (S fuel)) by lia|].
  exists k'. split_and!; [done|lia|done|]. intros j Hj. destruct (decide (j = k)) as [->|]; [done|]. apply Hbel. lia.
Qed.

Lemma power_of_one_spec ps group : Forall (λ p, 3 ≤ p ≤ 7) ps → group < 2 ^ 29 →
  ∃ b, power_of_one ps group = Some b ∧ (b = true ↔ ∃ p k, p ∈ ps ∧ 1 ≤ k ∧ group = p ^ k).
Proof.
  intros Hps Hg. induction Hps as [|p ps Hp Hps (b & Eb & Hb)]; cbn [power_of_one].
  { exists false. split; [done|]. split; [done|]. by intros (? & ? & ?%not_elem_of_nil & _). }
  destruct (power_up_least p group 31 1 Hp ltac:(lia) Hg) as (k & E & Hk & Hle & Hbel).
  { pose proof (Z.pow_le_mono_l 3 p (1 + Z.of_nat 31) ltac:(lia)). change (2 ^ 29) with 536870912 in Hg. change (3 ^ (1 + Z.of_nat 31)) with 1853020188851841 in *. lia. }
  rewrite Z.pow_1_r in E. rewrite E. cbn [mbind option_bind]. destruct (Z.eqb_spec (p ^ k) group) as [Heq|Hne].
  { exists true. split; [done|]. split; [|done]. intros _. exists p, k. split; [by left|]. done. }
  exists b. split; [done|]. rewrite Hb. split; intros (q & j & Hin & Hj & Hq); exists q, j; (split; [|done]); [by right|].
  apply elem_of_cons in Hin as [->|]; [|done]. exfalso. destruct (Z.lt_trichotomy j k) as [Hlt|[->|Hgt]]; [specialize (Hbel j ltac:(lia)); lia|done|].
  pose proof (Z.pow_lt_mono_r p k j ltac:(lia) ltac:(lia) Hgt). lia.
Qed.

(** The copies of the superblock are in groups 0 and 1 and in the powers of 3, 5
    and 7. *)
Lemma super_backups group : group < 2 ^ 29 →
  ∃ b, has_super_backup group true = Some b ∧ (b = true ↔ group ≤ 1 ∨ ∃ p k, p ∈ [3; 5; 7] ∧ 1 ≤ k ∧ group = p ^ k).
Proof.
  intros Hg. unfold has_super_backup. cbn [negb orb]. destruct (Z.leb_spec group 1) as [Hle|Hgt].
  { exists true. split; [done|]. split; [by left|done]. }
  destruct (power_of_one_spec [3; 5; 7] group) as (b & -> & Hb); [by repeat constructor|done|]. exists b. split; [done|]. rewrite Hb. split; [by right|].
  intros [?|?]; [lia|done].
Qed.

(** ** Symbolic execution *)

Lemma wp_ok {S A} (a : A) Q (s : S) : Q (inr a) s → wp (ok a) Q s.
Proof. done. Qed.
Lemma wp_err {S A} (e : Error) Q (s : S) : Q (inl e) s → wp (@err S A e) Q s.
Proof. done. Qed.
Lemma wp_eq {S A} (m : Exec S A) Q s a s' : m s = Some (a, s') → Q a s' → wp m Q s.
Proof. intros Hm HQ. unfold wp. by rewrite Hm. Qed.

Ltac e2_step :=
  match goal with
  | |- wp (ok _) _ _ => apply wp_ok
  | |- wp (err _) _ _ => apply wp_err
  | |- wp (try_bind _ _) _ _ => apply wp_try
  | |- runs (ok _) _ _ _ => apply wp_runs, wp_ok
  | |- runs (err _) _ _ _ => apply wp_runs, wp_err
  | |- runs (try_bind _ _) _ _ _ => apply runs_try
  | _ => wp_step
  end.
Ltac e2_steps := repeat (e2_step; cbn beta iota).

(** ** Superblock fields *)

Lemma sb_field_in f : 0 ≤ sb_off f ∧ sb_off f + Z.of_nat (sb_width f) ≤ 1024.
Proof. destruct f; simpl; lia. Qed.

Lemma sb_get_set_same f v b :
  zlen b = 1024 → sb_get f (sb_set f v b) = v mod 256 ^ Z.of_nat (sb_width f).
Proof. intros Hb. destruct (sb_field_in f). apply field_same; lia. Qed.

Lemma sb_get_set_other f g v b : zlen b = 1024 → f ≠ g → sb_get f (sb_set g v b) = sb_get f b.
Proof.
  intros Hb Hfg. destruct (sb_field_in f), (sb_field_in g).
  apply field_other; try lia. destruct f, g; simpl; try lia; done.
Qed.

Lemma zlen_sb_set f v b : zlen b = 1024 → zlen (sb_set f v b) = 1024.
Proof.
  intros Hb. destruct (sb_field_in f). unfold sb_set. rewrite zlen_paste; rewrite ?zlen_le_bytes; lia.
Qed.

Lemma is_byte_sb_set f v b : Forall is_byte b → Forall is_byte (sb_set f v b).
Proof. intros. apply is_byte_paste; [done|apply le_bytes_byte]. Qed.

Lemma sbv_range G s f : disk_ok G s → 0 ≤ sbv f s < 256 ^ Z.of_nat (sb_width f).
Proof.
  intros Hd. destruct (sb_field_in f). pose proof (dk_sb _ _ Hd).
  apply field_range; [apply (dk_sb_bytes _ _ Hd)|lia|lia].
Qed.

(** The fields that operations change. *)
Definition mutable (f : SbField) : bool :=
  match f with s_free_blocks | s_free_inodes | s_wtime | s_state => true | _ => false end.

Lemma disk_ok_set_sb G s f v :
  disk_ok G s → mutable f = true → disk_ok G (with_sb (sb_set f v (sb s)) s).
Proof.
  intros [Hg Hl Hb Hd] Hf. split; simpl; [|by apply zlen_sb_set|by apply is_byte_sb_set|done].
  rewrite <- Hg. unfold geo_of, sbv, inode_size, first_ino. simpl.
  by rewrite !sb_get_set_other by (done || by destruct f).
Qed.

Lemma disk_ok_set_groups G s gs :
  disk_ok G s → places <$> gs = places <$> groups s → disk_ok G (with_groups gs s).
Proof. intros [Hg Hl Hb Hd] Hp. split; try done. rewrite <- Hg. unfold geo_of. simpl. by rewrite Hp. Qed.

Lemma disk_ok_set_dev G s d :
  disk_ok G s → zlen d = zlen (dev s) → Forall is_byte d → disk_ok G (with_dev d s).
Proof. intros [Hg Hl Hb Hd] Hz Hd'. split; try done. rewrite <- Hg. unfold geo_of. simpl. by rewrite Hz. Qed.

(** ** Block I/O *)

Lemma mul_block b n i : 0 < n → b * n ≤ i < b * n + n → i / n = b.
Proof. intros. symmetry. apply Z.div_unique with (i - b * n); lia. Qed.

Section io.
Context (G : Geo) (HG : geo_ok G).

Definition good_block (b : Z) : Prop := 0 < b < g_blocks G.

Lemma bs_pos : 0 < g_bs G.
Proof using HG. pose proof (go_bs G HG). lia. Qed.

Lemma block_inside s b : disk_ok G s → 0 ≤ b < g_blocks G →
  0 ≤ b * g_bs G ∧ b * g_bs G + g_bs G ≤ zlen (dev s).
Proof using HG.
  intros Hd Hb. geo Hd. pose proof (go_bs G HG). pose proof (go_disk G HG). nia.
Qed.

Lemma zlen_blk s b : disk_ok G s → 0 ≤ b < g_blocks G → zlen (blk s b) = g_bs G.
Proof using HG.
  intros Hd Hb. destruct (block_inside s b Hd Hb). pose proof bs_pos. unfold blk. geo Hd.
  by apply zlen_seg; lia.
Qed.

Lemma is_byte_blk s b : disk_ok G s → Forall is_byte (blk s b).
Proof. intros Hd. apply is_byte_seg, (dk_bytes _ _ Hd). Qed.

Lemma byte_blk s b i : disk_ok G s → 0 ≤ b → 0 ≤ i < g_bs G → byte (blk s b) i = byte (dev s) (b * g_bs G + i).
Proof using HG. intros Hd Hb Hi. unfold blk. geo Hd. pose proof bs_pos. apply byte_seg; nia. Qed.

Lemma aligned_mul k : aligned (k * g_bs G) = true.
Proof using HG.
  unfold aligned. apply Z.eqb_eq. pose proof (go_bs_mul G HG) as Hm.
  apply Z.mod_divide in Hm as [x Hx]; [|lia]. rewrite Hx.
  replace (k * (x * 1024)) with (k * x * 2 * 512) by lia. apply Z.mod_mul. lia.
Qed.

Lemma aligned_bs : aligned (g_bs G) = true.
Proof using HG. rewrite <- (Z.mul_1_l (g_bs G)). apply aligned_mul. Qed.

Lemma good_not_bad s b : disk_ok G s → good_block b → bad_block b s = false.
Proof.
  intros Hd [Hb1 Hb2]. unfold bad_block. geo Hd.
  rewrite (proj2 (Z.eqb_neq _ _)), (proj2 (Z.leb_gt _ _)) by lia. done.
Qed.

Lemma read_block_eq s b : disk_ok G s → good_block b → read_block b s = Some (inr (blk s b), s).
Proof using HG.
  intros Hd Hb. unfold read_block. unfold get, mbind, exec_bind. rewrite (good_not_bad s b Hd Hb).
  destruct (block_inside s b Hd ltac:(unfold good_block in Hb; lia)) as [H1 H2]. unfold on_dev, blk. geo Hd.
  cbn [dev_read ram_device]. rewrite aligned_mul, aligned_bs, in_range_true by (pose proof bs_pos; lia). simpl. by destruct s.
Qed.

(** A block write. *)
Definition put_block (b : Z) (v : list Z) (s : Fs) : Fs := with_dev (paste (dev s) (b * bs s) v) s.

Lemma write_block_eq s b v :
  disk_ok G s → good_block b → zlen v = g_bs G → write_block b v s = Some (inr tt, put_block b v s).
Proof using HG.
  intros Hd Hb Hv. unfold write_block. unfold get, need, mbind, exec_bind. rewrite (good_not_bad s b Hd Hb).
  destruct (block_inside s b Hd ltac:(unfold good_block in Hb; lia)) as [H1 H2]. unfold on_dev, put_block. geo Hd.
  pose proof bs_pos. rewrite get_seg_ok, seg_full by lia. cbn [dev_write ram_device]. 
  rewrite Hv, aligned_mul, aligned_bs, in_range_true by lia. done.
Qed.

Lemma disk_ok_put_block s b v :
  disk_ok G s → good_block b → zlen v = g_bs G → Forall is_byte v → disk_ok G (put_block b v s).
Proof using HG.
  intros Hd Hb Hv Hb'. destruct (block_inside s b Hd ltac:(unfold good_block in Hb; lia)).
  apply disk_ok_set_dev; [done| |]; geo Hd.
  - rewrite zlen_paste; [apply (geo_disk _ _ Hd)|lia|lia].
  - apply is_byte_paste; [apply (dk_bytes _ _ Hd)|done].
Qed.

Lemma blk_put_same s b v : disk_ok G s → good_block b → zlen v = g_bs G → blk (put_block b v s) b = v.
Proof using HG.
  intros Hd Hb Hv. destruct (block_inside s b Hd ltac:(unfold good_block in Hb; lia)).
  unfold blk, put_block. cbn [dev bs with_dev]. geo Hd. rewrite <- Hv at 3. apply seg_paste_same; lia.
Qed.

Lemma differ_put s b v : disk_ok G s → good_block b → zlen v = g_bs G → differ_in (eq b) s (put_block b v s).
Proof using HG.
  intros Hd Hb Hv i Hi Hne. destruct (block_inside s b Hd ltac:(unfold good_block in Hb; lia)).
  unfold put_block. cbn [dev with_dev]. geo Hd. rewrite (geo_bs _ _ Hd) in Hne. apply byte_paste_out; [lia|lia|lia|].
  destruct (Z.lt_ge_cases i (b * g_bs G)); [by left|]. right. rewrite Hv.
  destruct (Z.lt_ge_cases i (b * g_bs G + g_bs G)); [|lia]. destruct Hne. symmetry. apply mul_block; [apply bs_pos|lia].
Qed.

Lemma differ_refl P s : differ_in P s s.
Proof. by intros i _ _. Qed.

Lemma differ_trans P Q s s' s'' :
  bs s' = bs s → differ_in P s s' → differ_in Q s' s'' → differ_in (λ b, P b ∨ Q b) s s''.
Proof.
  intros Hb H1 H2 i Hi Hn. rewrite H2, H1; [done|done|tauto|done|]. rewrite Hb. tauto.
Qed.

Lemma differ_mono (P Q : Z → Prop) s s' : (∀ b, P b → Q b) → differ_in P s s' → differ_in Q s s'.
Proof. intros HPQ Hd i Hi Hn. apply Hd; auto. Qed.

Lemma differ_blk P s s' b :
  disk_ok G s → disk_ok G s' → differ_in P s s' → 0 ≤ b < g_blocks G → ¬ P b → blk s' b = blk s b.
Proof using HG.
  intros Hd Hd' Hdf Hb Hn. pose proof bs_pos. apply bytes_ext; [by rewrite !zlen_blk|].
  rewrite zlen_blk by done. intros i Hi. rewrite !byte_blk by (done || lia).
  apply Hdf; [nia|]. rewrite (geo_bs _ _ Hd). by rewrite (mul_block b) by lia.
Qed.

Lemma blk_put_other s b v c :
  disk_ok G s → good_block b → zlen v = g_bs G → Forall is_byte v → 0 ≤ c < g_blocks G → b ≠ c →
  blk (put_block b v s) c = blk s c.
Proof using HG.
  intros. apply (differ_blk (eq b)); try done; [by apply disk_ok_put_block|by apply differ_put].
Qed.
End io.
