(* ===== verification/Ext2Alloc.v ===== *)
(** * The ext2 file system: the block bit maps

    [alloc_block] and [free_block] against the set of free blocks: the counters
    of the groups and of the superblock are the numbers of clear bits, an
    allocation takes a free block and fails only when there is none. *)

From S2P Require Import Prelude Text Bytes Ext2 Ext2Fs Ext2Disk.

(** ** Counting *)

Fixpoint countp (p : Z → bool) (l : list Z) : Z :=
  match l with [] => 0 | x :: l' => (if p x then 1 else 0) + countp p l' end.

Definition total (f : GroupDesc → Z) (l : list GroupDesc) : Z := foldr (λ d n, f d + n) 0 l.

Lemma countp_bounds p l : 0 ≤ countp p l ≤ zlen l.
Proof. induction l as [|x l IH]; [done|]. rewrite zlen_cons. simpl. destruct (p x); lia. Qed.

Lemma countp_ext p q l : (∀ x, x ∈ l → p x = q x) → countp p l = countp q l.
Proof.
  induction l as [|x l IH]; [done|]. intros H. simpl. rewrite (H x) by left. rewrite IH; [done|].
  intros y Hy. apply H. by right.
Qed.

Lemma countp_flip p q l x :
  NoDup l → x ∈ l → p x = true → q x = false → (∀ y, y ∈ l → y ≠ x → p y = q y) → countp p l = countp q l + 1.
Proof.
  induction 1 as [|y l Hy Hnd IH]; intros Hx Hp Hq Hs; [by apply elem_of_nil in Hx|].
  apply elem_of_cons in Hx as [->|Hx]; simpl.
  - rewrite Hp, Hq. rewrite (countp_ext p q); [lia|]. intros z Hz. apply Hs; [by right|]. by intros ->.
  - rewrite (Hs y) by (left || by intros ->). rewrite IH; try done; [lia|]. intros z Hz. apply Hs. by right.
Qed.

Lemma countp_0 p l : countp p l = 0 → ∀ x, x ∈ l → p x = false.
Proof.
  induction l as [|y l IH]; intros Hc x Hx; [by apply elem_of_nil in Hx|]. simpl in Hc.
  pose proof (countp_bounds p l). destruct (p y) eqn:E; [lia|].
  apply elem_of_cons in Hx as [->|Hx]; [done|]. apply IH; [lia|done].
Qed.

Lemma countp_pos p l : countp p l ≠ 0 → ∃ x, x ∈ l ∧ p x = true.
Proof.
  induction l as [|y l IH]; simpl; [done|]. destruct (p y) eqn:E.
  - intros _. exists y. split; [left|done].
  - intros Hc. destruct IH as (x & Hx & Hp); [lia|]. exists x. split; [by right|done].
Qed.

Lemma total_alter f h (n : nat) l d :
  l !! n = Some d → total f (alter h n l) = total f l - f d + f (h d).
Proof.
  revert n. induction l as [|x l IH]; intros [|n] Hl; try done.
  - injection Hl as ->. change (alter h 0%nat (d :: l)) with (h d :: l). cbn [total foldr]. lia.
  - change (alter h (S n) (x :: l)) with (x :: alter h n l). cbn [total foldr]. fold (total f (alter h n l)).
    rewrite (IH n Hl). unfold total. lia.
Qed.

Lemma total_nonneg f l : (∀ d, d ∈ l → 0 ≤ f d) → 0 ≤ total f l.
Proof.
  induction l as [|x l IH]; [done|]. intros H. cbn [total foldr]. fold (total f l).
  pose proof (H x ltac:(left)). specialize (IH ltac:(intros d Hd; apply H; by right)). lia.
Qed.

Lemma total_0 f l : (∀ d, d ∈ l → 0 ≤ f d) → total f l = 0 → ∀ d, d ∈ l → f d = 0.
Proof.
  induction l as [|x l IH]; intros H Ht d Hd; [by apply elem_of_nil in Hd|].
  cbn [total foldr] in Ht. fold (total f l) in Ht. pose proof (H x ltac:(left)).
  assert (∀ d, d ∈ l → 0 ≤ f d) as H' by (intros y Hy; apply H; by right).
  pose proof (total_nonneg f l H'). apply elem_of_cons in Hd as [->|Hd]; [lia|]. apply IH; [done|lia|done].
Qed.

Lemma total_alter_same f (l l' : list GroupDesc) : f <$> l = f <$> l' → total f l = total f l'.
Proof.
  revert l'. induction l as [|x l IH]; intros [|y l'] He; try done.
  rewrite !fmap_cons in He. injection He as E1 E2. cbn [total foldr]. rewrite E1. f_equal. by apply IH.
Qed.

Lemma fmap_alter_same {B} (f : GroupDesc → B) h (n : nat) (l : list GroupDesc) :
  (∀ d, f (h d) = f d) → f <$> alter h n l = f <$> l.
Proof.
  intros Hf. revert n. induction l as [|x l IH]; intros [|n]; try done.
  - change (alter h 0%nat (x :: l)) with (h x :: l). rewrite !fmap_cons. by rewrite Hf.
  - change (alter h (S n) (x :: l)) with (x :: alter h n l). rewrite !fmap_cons. by rewrite IH.
Qed.

(** ** The first clear bit *)

Lemma find_clear_spec b cands :
  (∀ i, i ∈ cands → i / 8 < zlen b) →
  ∃ r, find_clear b cands = Some r ∧
    match r with
    | Some i => i ∈ cands ∧ bit b i = false
    | None => ∀ i, i ∈ cands → bit b i = true
    end.
Proof.
  induction cands as [|x l IH]; intros Hc; simpl.
  { exists None. split; [done|]. intros i Hi. by apply elem_of_nil in Hi. }
  rewrite (proj2 (Z.leb_gt _ _)) by (apply Hc; left). destruct (bit b x) eqn:E.
  - destruct IH as (r & -> & Hr); [intros i Hi; apply Hc; by right|]. exists r. split; [done|].
    destruct r as [i|]; [destruct Hr; split; [by right|done]|].
    intros i Hi. apply elem_of_cons in Hi as [->|Hi]; auto.
  - exists (Some x). split; [done|]. split; [left|done].
Qed.

(** Bits [0 .. n) in the order in which an allocation tries them. *)
Lemma rotated_elem start n i :
  0 ≤ start ≤ n → i ∈ seqZ start (n - start) ++ seqZ 0 start ↔ 0 ≤ i < n.
Proof. intros. rewrite elem_of_app, !elem_of_seqZ. lia. Qed.

Definition clear_bits (bm : list Z) (n : Z) : Z := countp (λ i, negb (bit bm i)) (seqZ 0 n).

Lemma clear_bits_set bm n i :
  0 ≤ i < n → i / 8 < zlen bm → bit bm i = false → clear_bits bm n = clear_bits (set_bit bm i) n + 1.
Proof.
  intros Hi Hz Hb. apply (countp_flip _ _ _ i); [apply NoDup_seqZ|apply elem_of_seqZ; lia|by rewrite Hb| |].
  - rewrite bit_set, Z.eqb_refl, orb_true_r by lia. done.
  - intros j Hj%elem_of_seqZ Hne. rewrite bit_set by lia. rewrite (proj2 (Z.eqb_neq i j)) by done. by rewrite orb_false_r.
Qed.

Lemma clear_bits_clear bm n i :
  0 ≤ i < n → i / 8 < zlen bm → bit bm i = true → clear_bits (clear_bit bm i) n = clear_bits bm n + 1.
Proof.
  intros Hi Hz Hb. apply (countp_flip _ _ _ i); [apply NoDup_seqZ|apply elem_of_seqZ; lia| |by rewrite Hb|].
  - rewrite bit_clear, Z.eqb_refl, andb_false_r by lia. done.
  - intros j Hj%elem_of_seqZ Hne. rewrite bit_clear by lia. rewrite (proj2 (Z.eqb_neq i j)) by done. by rewrite andb_true_r.
Qed.

Lemma clear_bits_bounds bm n : 0 ≤ n → 0 ≤ clear_bits bm n ≤ n.
Proof. intros. unfold clear_bits. pose proof (countp_bounds (λ i, negb (bit bm i)) (seqZ 0 n)) as Hb.
  unfold zlen in Hb. rewrite length_seqZ in Hb. lia. Qed.

(** ** Groups and their places *)

Section groups.
Context (G : Geo) (HG : geo_ok G).

Definition group_size (g : Z) : Z := Z.min (g_blocks G - (g_first G + g * g_bpg G)) (g_bpg G).
Definition place (g : Z) : Z * Z * Z := default (0, 0, 0) (g_groups G !! Z.to_nat g).
Definition bb_of (g : Z) : Z := (place g).1.1.
Definition ib_of (g : Z) : Z := (place g).1.2.
Definition it_of (g : Z) : Z := (place g).2.

Definition is_group (g : Z) : Prop := 0 ≤ g < g_count G.

Lemma place_lookup g : is_group g → g_groups G !! Z.to_nat g = Some (place g).
Proof.
  intros Hg. unfold place, is_group, g_count, zlen in *.
  destruct (lookup_lt_is_Some_2 (g_groups G) (Z.to_nat g)) as [t Ht]; [lia|]. by rewrite Ht.
Qed.

Lemma group_lookup s g : disk_ok G s → is_group g → ∃ d, groups s !! Z.to_nat g = Some d ∧ places d = place g.
Proof.
  intros Hd Hg. pose proof (place_lookup g Hg) as Hp. rewrite <- (geo_groups _ _ Hd), list_lookup_fmap in Hp.
  destruct (groups s !! Z.to_nat g) as [d|]; [|done]. injection Hp as Hp. by exists d.
Qed.

Lemma group_places s (n : nat) d : disk_ok G s → groups s !! n = Some d → places d = place (Z.of_nat n) ∧ is_group (Z.of_nat n).
Proof.
  intros Hd Hn. pose proof (lookup_lt_Some _ _ _ Hn). pose proof (geo_ng _ _ Hd) as Hc. unfold zlen in Hc.
  assert (is_group (Z.of_nat n)) as Hg by (unfold is_group; lia). split; [|done].
  destruct (group_lookup s _ Hd Hg) as (d' & Hd' & Hp). rewrite Nat2Z.id in Hd'. congruence.
Qed.

(** The extents of a group, by their index in the list. *)
Lemma concat_triples (l : list (Z * Z * Z)) itb (n k : nat) t :
  l !! n = Some t → (k < 3)%nat → concat (extents_of itb <$> l) !! (3 * n + k)%nat = extents_of itb t !! k.
Proof.
  revert n. induction l as [|x l IH]; intros n Hn Hk; [done|].
  rewrite fmap_cons. cbn [concat]. destruct n as [|n].
  - injection Hn as ->. replace (3 * 0 + k)%nat with k by lia. apply lookup_app_l. destruct t as [[a b] c]. done.
  - rewrite lookup_app_r by (destruct x as [[a b] c]; simpl; lia).
    replace (3 * S n + k - length (extents_of itb x))%nat with (3 * n + k)%nat by (destruct x as [[a b] c]; simpl; lia).
    by apply IH.
Qed.

Definition ext_of (g : Z) (k : nat) : Z * Z :=
  match k with O => (bb_of g, 1) | 1%nat => (ib_of g, 1) | _ => (it_of g, g_itb G) end.

Lemma extent_lookup g k : is_group g → (k < 3)%nat → extents G !! (3 * Z.to_nat g + k)%nat = Some (ext_of g k).
Proof.
  intros Hg Hk. unfold extents. rewrite (concat_triples _ _ _ _ _ (place_lookup g Hg) Hk).
  unfold ext_of, bb_of, ib_of, it_of. destruct (place g) as [[a b] c]. destruct k as [|[|[|k]]]; try done. lia.
Qed.

Lemma ext_inside g k : is_group g → (k < 3)%nat →
  g_first G + g_gdtb G < (ext_of g k).1 ∧ (ext_of g k).1 + (ext_of g k).2 ≤ g_blocks G.
Proof using HG.
  intros Hg Hk. pose proof (go_inside G HG) as Hi. rewrite Forall_lookup in Hi. eapply Hi, extent_lookup; done.
Qed.

Lemma ext_disjoint g k g' k' b :
  is_group g → is_group g' → (k < 3)%nat → (k' < 3)%nat →
  in_ext (ext_of g k) b → in_ext (ext_of g' k') b → g = g' ∧ k = k'.
Proof using HG.
  intros Hg Hg' Hk Hk' H1 H2.
  pose proof (go_disjoint G HG _ _ _ _ b (extent_lookup g k Hg Hk) (extent_lookup g' k' Hg' Hk') H1 H2) as He.
  unfold is_group in *. split; lia.
Qed.

Lemma ext_meta g k b : is_group g → (k < 3)%nat → in_ext (ext_of g k) b → is_meta G b.
Proof.
  intros Hg Hk Hb. right. exists (ext_of g k). split; [|done]. eapply list_elem_of_lookup_2, extent_lookup; done.
Qed.

Lemma gdtb_nonneg : 0 ≤ g_gdtb G.
Proof using HG. pose proof (go_bs G HG). apply Z.div_pos; [|lia]. unfold g_count. pose proof (zlen_nonneg (g_groups G)). lia. Qed.

Lemma bb_good g : is_group g → good_block G (bb_of g).
Proof using HG.
  intros Hg. pose proof (ext_inside g 0 Hg ltac:(lia)). pose proof (go_first G HG). pose proof gdtb_nonneg.
  unfold good_block, ext_of in *. simpl in *. lia.
Qed.

Lemma ib_good g : is_group g → good_block G (ib_of g).
Proof using HG.
  intros Hg. pose proof (ext_inside g 1 Hg ltac:(lia)). pose proof (go_first G HG). pose proof gdtb_nonneg.
  unfold good_block, ext_of in *. simpl in *. lia.
Qed.

Lemma bb_inj g g' : is_group g → is_group g' → bb_of g = bb_of g' → g = g'.
Proof using HG.
  intros Hg Hg' He. refine (proj1 (ext_disjoint g 0 g' 0 (bb_of g) Hg Hg' _ _ _ _)); try lia;
  unfold in_ext, ext_of; simpl; lia.
Qed.

Lemma bb_not_ib g g' : is_group g → is_group g' → bb_of g ≠ ib_of g'.
Proof using HG.
  intros Hg Hg' He. assert (0 = 1)%nat as Hx; [|done].
  refine (proj2 (ext_disjoint g 0 g' 1 (bb_of g) Hg Hg' _ _ _ _)); try lia; unfold in_ext, ext_of; simpl; lia.
Qed.

Lemma bb_meta g : is_group g → is_meta G (bb_of g).
Proof. intros Hg. apply (ext_meta g 0); [done|lia|]. unfold in_ext, ext_of. simpl. lia. Qed.

Lemma ib_meta g : is_group g → is_meta G (ib_of g).
Proof. intros Hg. apply (ext_meta g 1); [done|lia|]. unfold in_ext, ext_of. simpl. lia. Qed.

(** The group and the bit of a block. *)
Definition group_of (b : Z) : Z := (b - g_first G) / g_bpg G.
Definition bit_of (b : Z) : Z := (b - g_first G) mod g_bpg G.

Lemma group_range g : is_group g → g_first G + g * g_bpg G < g_blocks G.
Proof using HG.
  unfold is_group. rewrite (go_count G HG). unfold div_up. pose proof (go_bpg G HG). pose proof (go_first G HG).
  intros [Hg1 Hg2]. assert (g * g_bpg G < g_blocks G - g_first G); [|lia].
  set (n := g_blocks G - g_first G) in *. set (p := g_bpg G) in *.
  pose proof (Z.mul_div_le (n + p - 1) p ltac:(lia)). nia.
Qed.

Lemma group_size_bounds g : is_group g → 0 < group_size g ≤ g_bpg G.
Proof using HG. intros Hg. pose proof (group_range g Hg). pose proof (go_bpg G HG). unfold group_size. lia. Qed.

Lemma block_group b : g_first G ≤ b < g_blocks G → is_group (group_of b) ∧ 0 ≤ bit_of b < group_size (group_of b).
Proof using HG.
  intros Hb. pose proof (go_bpg G HG). unfold is_group, group_of, bit_of, group_size. rewrite (go_count G HG). unfold div_up.
  set (n := g_blocks G) in *. set (f := g_first G) in *. set (p := g_bpg G) in *.
  pose proof (Z.div_mod (b - f) p ltac:(lia)). pose proof (Z.mod_pos_bound (b - f) p ltac:(lia)).
  pose proof (Z.div_pos (b - f) p ltac:(lia) ltac:(lia)).
  split; [split; [done|]|].
  - apply Z.div_lt_upper_bound; [lia|]. pose proof (Z.div_mod (n - f + p - 1) p ltac:(lia)).
    pose proof (Z.mod_pos_bound (n - f + p - 1) p ltac:(lia)). nia.
  - nia.
Qed.

Lemma block_at g i : is_group g → 0 ≤ i < group_size g →
  let b := g_first G + g * g_bpg G + i in
  g_first G ≤ b < g_blocks G ∧ group_of b = g ∧ bit_of b = i.
Proof using HG.
  intros Hg Hi. pose proof (group_size_bounds g Hg). pose proof (go_bpg G HG). unfold group_size, is_group in *.
  cbv zeta. split; [nia|]. unfold group_of, bit_of.
  replace (g_first G + g * g_bpg G + i - g_first G) with (i + g * g_bpg G) by lia.
  rewrite Z.div_add, Z.mod_add by lia. rewrite Z.div_small, Z.mod_small by lia. split; lia.
Qed.

Lemma block_eq b b' : group_of b = group_of b' → bit_of b = bit_of b' → b = b'.
Proof using HG.
  unfold group_of, bit_of. pose proof (go_bpg G HG). intros H1 H2.
  pose proof (Z.div_mod (b - g_first G) (g_bpg G) ltac:(lia)).
  pose proof (Z.div_mod (b' - g_first G) (g_bpg G) ltac:(lia)). rewrite H1, H2 in *. lia.
Qed.

(** ** Free blocks *)

Definition isfree (s : Fs) (b : Z) : bool :=
  (g_first G <=? b) && (b <? g_blocks G) && negb (bit (blk s (bb_of (group_of b))) (bit_of b)).

(** The bit map of a group has room for its blocks. *)
Lemma bit_in_map s g i : disk_ok G s → is_group g → 0 ≤ i < group_size g → i / 8 < zlen (blk s (bb_of g)).
Proof using HG.
  intros Hd Hg Hi. pose proof (bb_good g Hg) as [Hb1 Hb2]. rewrite (zlen_blk G HG s _ Hd) by lia.
  pose proof (group_size_bounds g Hg). pose proof (go_bpg G HG). apply Z.div_lt_upper_bound; lia.
Qed.

Record blocks_ok (s : Fs) : Prop := {
  bo_disk : disk_ok G s;
  bo_rw : read_only s = false;
  bo_count : ∀ (n : nat) d, groups s !! n = Some d →
    free_blocks d = clear_bits (blk s (block_bitmap d)) (group_size (Z.of_nat n));
  bo_total : sbv s_free_blocks s = total free_blocks (groups s);
  bo_data : ∀ b, isfree s b = true → ¬ is_meta G b;
}.

(** What block allocation leaves alone: the inode side and the clock. *)
Definition inode_side (s : Fs) :=
  ((λ d, (free_inodes d, used_dirs d)) <$> groups s, sbv s_free_inodes s, clock s).

Definition is_bb (b : Z) : Prop := ∃ g, is_group g ∧ b = bb_of g.

Record took (b : Z) (s s' : Fs) : Prop := {
  tk_ok : blocks_ok s';
  tk_free : ∀ c, isfree s' c = isfree s c && negb (b =? c);
  tk_disk : differ_in is_bb s s';
  tk_rest : inode_side s' = inode_side s;
}.

Record gave (b : Z) (s s' : Fs) : Prop := {
  gv_ok : blocks_ok s';
  gv_free : ∀ c, isfree s' c = isfree s c || (b =? c);
  gv_disk : differ_in is_bb s s';
  gv_rest : inode_side s' = inode_side s;
}.

Lemma isfree_range s b : isfree s b = true → g_first G ≤ b < g_blocks G.
Proof. unfold isfree. rewrite !andb_true_iff, Z.leb_le, Z.ltb_lt. lia. Qed.

Lemma free_good s b : blocks_ok s → isfree s b = true → good_block G b.
Proof using HG.
  intros Hs Hf. pose proof (isfree_range s b Hf). pose proof (bo_data s Hs b Hf) as Hm.
  pose proof (go_first G HG). pose proof gdtb_nonneg. unfold good_block. split; [|lia].
  destruct (Z.lt_ge_cases (g_first G + g_gdtb G) b); [lia|]. destruct Hm. by left.
Qed.

Lemma free_blocks_nonneg s d : blocks_ok s → d ∈ groups s → 0 ≤ free_blocks d < 2 ^ 16.
Proof using HG.
  intros Hs [n Hn]%list_elem_of_lookup_1. rewrite (bo_count s Hs n d Hn).
  destruct (group_places s n d (bo_disk s Hs) Hn) as [_ Hg]. pose proof (group_size_bounds _ Hg).
  pose proof (clear_bits_bounds (blk s (block_bitmap d)) (group_size (Z.of_nat n)) ltac:(lia)).
  pose proof (go_bpg16 G HG). lia.
Qed.

(** No space left means no free block. *)
Lemma none_free s b : blocks_ok s → sbv s_free_blocks s = 0 → isfree s b = false.
Proof using HG.
  intros Hs Hz. destruct (isfree s b) eqn:E; [|done]. exfalso.
  pose proof (isfree_range s b E) as Hr. destruct (block_group b Hr) as [Hg Hi].
  destruct (group_lookup s _ (bo_disk s Hs) Hg) as (d & Hd & Hp).
  assert (free_blocks d = 0) as H0.
  { apply (total_0 free_blocks (groups s)); [|by rewrite <- (bo_total s Hs)|by eapply list_elem_of_lookup_2].
    intros d' Hd'. pose proof (free_blocks_nonneg s d' Hs Hd'). lia. }
  rewrite (bo_count s Hs _ d Hd) in H0. rewrite Z2Nat.id in H0 by (unfold is_group in Hg; lia).
  pose proof (countp_0 _ _ H0 (bit_of b) ltac:(apply elem_of_seqZ; lia)) as Hb. cbn beta in Hb.
  unfold isfree in E. rewrite !andb_true_iff in E. destruct E as [_ E].
  replace (block_bitmap d) with (bb_of (group_of b)) in Hb by (unfold bb_of; by rewrite <- Hp). congruence.
Qed.
End groups.
