(* ===== verification/Ext2Blocks.v ===== *)
(** * The ext2 file system: allocating and freeing blocks

    [alloc_block] and [free_block] refine taking a block from, and giving it
    back to, the set of free blocks. *)

From S2P Require Import Prelude Text Bytes Ext2 Ext2Fs Ext2Disk Ext2Alloc.

Section blocks.
Context (G : Geo) (HG : geo_ok G).

(** One bit map replaced, with the counters that go with it. *)
Definition flip (g : Z) (bm : list Z) (n fb : Z) (s : Fs) : Fs :=
  with_sb (sb_set s_free_blocks fb (sb s))
    (with_groups (alter (with_free_blocks n) (Z.to_nat g) (groups s)) (put_block (bb_of G g) bm s)).

Lemma flip_disk s g bm n fb :
  disk_ok G s → is_group G g → zlen bm = g_bs G → Forall is_byte bm →
  disk_ok G (flip g bm n fb s) ∧ differ_in (is_bb G) s (flip g bm n fb s).
Proof using HG.
  intros Hd Hg Hz Hb. pose proof (bb_good G HG g Hg) as Hgood. unfold flip. split.
  - refine (disk_ok_set_sb G (with_groups (alter (with_free_blocks n) (Z.to_nat g) (groups s)) (put_block (bb_of G g) bm s))
              s_free_blocks fb _ eq_refl).
    apply (disk_ok_set_groups G (put_block (bb_of G g) bm s)).
    + by apply disk_ok_put_block.
    + by apply fmap_alter_same.
  - eapply differ_mono; [|by apply (differ_put G HG s (bb_of G g) bm)]. intros b <-. by exists g.
Qed.

Lemma flip_blk s g bm n fb g' :
  disk_ok G s → is_group G g → is_group G g' → zlen bm = g_bs G → Forall is_byte bm →
  blk (flip g bm n fb s) (bb_of G g') = if decide (g' = g) then bm else blk s (bb_of G g').
Proof using HG.
  intros Hd Hg Hg' Hz Hb. pose proof (bb_good G HG g Hg) as Hgood. pose proof (bb_good G HG g' Hg') as [? ?].
  change (blk (flip g bm n fb s)) with (blk (put_block (bb_of G g) bm s)).
  destruct (decide (g' = g)) as [->|Hne]; [by apply (blk_put_same G HG)|].
  apply (blk_put_other G HG); try done; [lia|]. intros He. by apply Hne, (bb_inj G HG).
Qed.

Lemma flip_isfree s g bm n fb c :
  disk_ok G s → is_group G g → zlen bm = g_bs G → Forall is_byte bm →
  isfree G (flip g bm n fb s) c =
  if decide (group_of G c = g) then (g_first G <=? c) && (c <? g_blocks G) && negb (bit bm (bit_of G c))
  else isfree G s c.
Proof using HG.
  intros Hd Hg Hz Hb. unfold isfree.
  destruct (Z.leb_spec (g_first G) c); simpl; [|by destruct (decide _)].
  destruct (Z.ltb_spec c (g_blocks G)); simpl; [|by destruct (decide _)].
  destruct (block_group G HG c ltac:(lia)) as [Hgc _]. rewrite flip_blk by done. by destruct (decide _).
Qed.

Lemma flip_ok s g bm d :
  blocks_ok G s → is_group G g → zlen bm = g_bs G → Forall is_byte bm →
  groups s !! Z.to_nat g = Some d →
  let n := clear_bits bm (group_size G g) in
  let fb := sbv s_free_blocks s - free_blocks d + n in
  0 ≤ fb < U32 →
  (∀ c, isfree G (flip g bm n fb s) c = true → ¬ is_meta G c) →
  blocks_ok G (flip g bm n fb s).
Proof using HG.
  intros Hs Hg Hz Hb Hd n fb Hfb Hm. pose proof (bo_disk _ _ Hs) as Hdk.
  destruct (flip_disk s g bm n fb Hdk Hg Hz Hb) as [Hdk' _]. split; [done|apply (bo_rw _ _ Hs)| | |done].
  - intros m d' Hm'. destruct (group_places G _ m d' Hdk' Hm') as [Hp Hgm].
    replace (block_bitmap d') with (bb_of G (Z.of_nat m)) by (unfold bb_of; by rewrite <- Hp).
    rewrite flip_blk by done. change (groups (flip g bm n fb s)) with (alter (with_free_blocks n) (Z.to_nat g) (groups s)) in Hm'.
    destruct (decide (Z.of_nat m = g)) as [<-|Hne].
    + rewrite Nat2Z.id in Hm', Hd. rewrite list_lookup_alter, decide_True, Hd in Hm' by done. by injection Hm' as <-.
    + rewrite list_lookup_alter_ne in Hm' by (unfold is_group in Hg; lia). rewrite (bo_count _ _ Hs m d' Hm').
      destruct (group_places G s m d' Hdk Hm') as [Hp' _]. unfold bb_of. by rewrite <- Hp'.
  - change (sbv s_free_blocks (flip g bm n fb s)) with (sb_get s_free_blocks (sb_set s_free_blocks fb (sb s))).
    rewrite sb_get_set_same by apply (dk_sb _ _ Hdk). change (256 ^ Z.of_nat (sb_width s_free_blocks)) with U32.
    rewrite Z.mod_small by done. change (groups (flip g bm n fb s)) with (alter (with_free_blocks n) (Z.to_nat g) (groups s)).
    rewrite (total_alter _ _ _ _ _ Hd). simpl. unfold fb. rewrite (bo_total _ _ Hs). lia.
Qed.

Lemma flip_rest s g bm n fb : disk_ok G s → inode_side (flip g bm n fb s) = inode_side s.
Proof.
  intros Hd. unfold inode_side. f_equal. f_equal.
  - change (groups (flip g bm n fb s)) with (alter (with_free_blocks n) (Z.to_nat g) (groups s)).
    by apply fmap_alter_same.
  - unfold sbv. change (sb (flip g bm n fb s)) with (sb_set s_free_blocks fb (sb s)).
    apply sb_get_set_other; [apply (dk_sb _ _ Hd)|done].
Qed.

(** ** Allocation *)

Lemma took_flip s g d i :
  blocks_ok G s → is_group G g → groups s !! Z.to_nat g = Some d → 0 ≤ i < group_size G g →
  bit (blk s (bb_of G g)) i = false → 0 < sbv s_free_blocks s →
  isfree G s (g_first G + g * g_bpg G + i) = true ∧
  took G (g_first G + g * g_bpg G + i) s
    (flip g (set_bit (blk s (bb_of G g)) i) (free_blocks d - 1) (sbv s_free_blocks s - 1) s).
Proof using HG.
  intros Hs Hg Hd Hi Hb Hfb. pose proof (bo_disk _ _ Hs) as Hdk. set (bm := blk s (bb_of G g)) in *.
  pose proof (bit_in_map G HG s g i Hdk Hg Hi) as Hin. fold bm in Hin.
  pose proof (bb_good G HG g Hg) as Hgood. destruct (group_places G s _ d Hdk Hd) as [Hp _].
  rewrite Z2Nat.id in Hp by (unfold is_group in Hg; lia).
  assert (zlen bm = g_bs G) as Hz by (apply (zlen_blk G HG); [done|unfold good_block in Hgood; lia]).
  assert (zlen (set_bit bm i) = g_bs G) as Hz' by (rewrite zlen_set_bit; lia).
  assert (Forall is_byte (set_bit bm i)) as Hby by (apply is_byte_set_bit, (is_byte_blk G); done).
  destruct (block_at G HG g i Hg Hi) as (Hr & Hgo & Hbo). set (b := g_first G + g * g_bpg G + i) in *.
  assert (free_blocks d - 1 = clear_bits (set_bit bm i) (group_size G g)) as Hn.
  { rewrite (bo_count _ _ Hs _ d Hd). rewrite Z2Nat.id by (unfold is_group in Hg; lia).
    replace (block_bitmap d) with (bb_of G g) by (unfold bb_of; by rewrite <- Hp). fold bm.
    rewrite (clear_bits_set bm _ i) by done. lia. }
  assert (∀ c, isfree G (flip g (set_bit bm i) (free_blocks d - 1) (sbv s_free_blocks s - 1) s) c
               = isfree G s c && negb (b =? c)) as Hfree.
  { intros c. rewrite flip_isfree by done. destruct (decide (group_of G c = g)) as [He|Hne].
    - unfold isfree. rewrite He. fold bm. destruct (Z.leb_spec (g_first G) c); [|done].
      destruct (Z.ltb_spec c (g_blocks G)); [|done]. simpl. destruct (block_group G HG c ltac:(lia)) as [_ Hbc].
      rewrite bit_set by lia. rewrite negb_orb. f_equal. f_equal. apply eq_true_iff_eq. rewrite !Z.eqb_eq.
      split; [|congruence]. intros. apply (block_eq G HG); congruence.
    - rewrite (proj2 (Z.eqb_neq b c)); [by rewrite andb_true_r|]. intros <-. done. }
  split.
  { unfold isfree. rewrite Hgo, Hbo. fold bm. rewrite Hb.
    by rewrite (proj2 (Z.leb_le _ _)), (proj2 (Z.ltb_lt _ _)) by lia. }
  split; [|done|by apply flip_disk|by apply flip_rest].
  pose proof (flip_ok s g (set_bit bm i) d Hs Hg Hz' Hby Hd) as Hok. cbv zeta in Hok.
  rewrite <- Hn in Hok. replace (sbv s_free_blocks s - free_blocks d + (free_blocks d - 1)) with (sbv s_free_blocks s - 1) in Hok by lia.
  apply Hok.
  - pose proof (sbv_range G s s_free_blocks Hdk) as Hsb. change (256 ^ _) with U32 in Hsb. lia.
  - intros c. rewrite Hfree, andb_true_iff. intros [Hf _]. by apply (bo_data _ _ Hs).
Qed.

Lemma chk32_ok x : 0 ≤ x < U32 → chk32 x = Some x.
Proof. intros. unfold chk32. by rewrite (proj2 (Z.leb_le _ _)), (proj2 (Z.ltb_lt _ _)) by lia. Qed.

Lemma chk16_ok x : 0 ≤ x < 2 ^ 16 → chk16 x = Some x.
Proof. intros. unfold chk16. by rewrite (proj2 (Z.leb_le _ _)), (proj2 (Z.ltb_lt _ _)) by lia. Qed.

Lemma group_blocks_eq s g : disk_ok G s → is_group G g → group_blocks g s = Some (group_size G g, s).
Proof using HG.
  intros Hd Hg. unfold group_blocks, get, need, mbind, exec_bind, mret, exec_ret. geo Hd.
  pose proof (group_range G HG g Hg). pose proof (go_first G HG). pose proof (go_bpg G HG). pose proof (go_blocks G HG).
  unfold is_group in Hg. rewrite !chk32_ok by nia. done.
Qed.

Lemma wp_alloc_block_in s g start Q :
  blocks_ok G s → is_group G g → 0 ≤ start ≤ group_size G g → 0 < sbv s_free_blocks s →
  (∀ d, groups s !! Z.to_nat g = Some d → free_blocks d = 0 → Q (inr None) s) →
  (∀ b s', isfree G s b = true → took G b s s' → Q (inr (Some b)) s') →
  wp (alloc_block_in g start) Q s.
Proof using HG.
  intros Hs Hg Hst Hfb Hnone Hsome. pose proof (bo_disk _ _ Hs) as Hdk.
  destruct (group_lookup G s g Hdk Hg) as (d & Hd & Hp). unfold alloc_block_in. e2_steps. rewrite Hd. e2_steps.
  destruct (Z.eqb_spec (free_blocks d) 0) as [Hz|Hnz]; [by e2_steps; apply (Hnone d)|].
  replace (block_bitmap d) with (bb_of G g) by (unfold bb_of; by rewrite <- Hp).
  apply wp_try. unfold wp at 1. rewrite (read_block_eq G HG s _ Hdk (bb_good G HG g Hg)).
  apply wp_bind. unfold wp at 1. rewrite (group_blocks_eq s g Hdk Hg).
  pose proof (rotated_elem start (group_size G g)) as Hrot.
  destruct (find_clear_spec (blk s (bb_of G g)) (seqZ start (group_size G g - start) ++ seqZ 0 start)) as (r & -> & Hr).
  { intros i Hi%Hrot; [|done]. by apply (bit_in_map G HG). }
  e2_steps. destruct r as [i|].
  - destruct Hr as [Hi Hbit]. apply Hrot in Hi; [|done].
    destruct (took_flip s g d i Hs Hg Hd Hi Hbit Hfb) as [Hfree Htook].
    apply wp_try. unfold wp at 1. rewrite (write_block_eq G HG s); [|done|by apply bb_good|].
    2:{ rewrite zlen_set_bit; [|lia|by apply (bit_in_map G HG)]. apply (zlen_blk G HG); [done|].
        pose proof (bb_good G HG g Hg). unfold good_block in *. lia. }
    unfold set_group, set_sbv. e2_steps. geo Hdk.
    pose proof (isfree_range G s _ Hfree) as Hrange. pose proof (go_first G HG). pose proof (go_blocks G HG).
    rewrite chk32_ok by lia. e2_steps. by apply Hsome.
  - exfalso. rewrite (bo_count _ _ Hs _ d Hd) in Hnz.
    destruct (countp_pos _ _ Hnz) as (i & Hi%elem_of_seqZ & Hbit). apply negb_true_iff in Hbit.
    rewrite Z2Nat.id in Hi by (unfold is_group in Hg; lia).
    replace (block_bitmap d) with (bb_of G g) in Hbit by (unfold bb_of; by rewrite <- Hp).
    rewrite Hr in Hbit; [done|]. apply Hrot; [done|]. lia.
Qed.

Lemma wp_alloc_block_loop s steps gg gb Q :
  blocks_ok G s → 0 < sbv s_free_blocks s → is_group G gg → 0 ≤ gb ≤ group_size G gg →
  (∀ k, k ∈ steps → 0 ≤ k) → 
  ((∀ k d, k ∈ steps → groups s !! Z.to_nat ((gg + k) mod g_count G) = Some d → free_blocks d = 0) → Q (inl NoSpace) s) →
  (∀ b s', isfree G s b = true → took G b s s' → Q (inr b) s') →
  wp (alloc_block_loop steps gg gb) Q s.
Proof using HG.
  intros Hs Hfb Hg Hgb. revert Q. induction steps as [|k steps IH]; intros Q Hk Hnone Hsome.
  { simpl. e2_steps. apply Hnone. intros k d Hin. by apply elem_of_nil in Hin. }
  simpl. e2_steps. pose proof (bo_disk _ _ Hs) as Hdk. geo Hdk.
  assert (is_group G ((gg + k) mod g_count G)) as Hgk by (apply Z.mod_pos_bound; unfold is_group in Hg; lia).
  apply wp_alloc_block_in; try done.
  - destruct (Z.eqb_spec k 0) as [->|]; [|pose proof (group_size_bounds G HG _ Hgk); lia].
    rewrite Z.add_0_r, Z.mod_small by (unfold is_group in Hg; lia). done.
  - intros d Hd Hz. apply IH; [intros j Hj; apply Hk; by right| |done].
    intros Hall. apply Hnone. intros j d' Hj Hd'. apply elem_of_cons in Hj as [->|Hj]; [congruence|by eapply Hall].
Qed.

Lemma wp_alloc_block s goal Q :
  blocks_ok G s → 0 ≤ goal →
  (sbv s_free_blocks s = 0 → Q (inl NoSpace) s) →
  (∀ b s', isfree G s b = true → took G b s s' → Q (inr b) s') →
  wp (alloc_block goal) Q s.
Proof using HG.
  intros Hs Hgoal Hnone Hsome. pose proof (bo_disk _ _ Hs) as Hdk. unfold alloc_block, check_rw.
  e2_steps. rewrite (bo_rw _ _ Hs). e2_steps. destruct (Z.eqb_spec (sbv s_free_blocks s) 0) as [Hz|Hnz].
  { e2_steps. by apply Hnone. }
  geo Hdk. pose proof (go_first G HG). pose proof (go_blocks G HG). rewrite chk32_ok by lia. e2_steps.
  set (b := Z.min (Z.max goal (g_first G)) (g_blocks G - 1)). rewrite chk32_ok by lia. e2_steps.
  destruct (block_group G HG b ltac:(lia)) as [Hg Hi].
  change ((b - g_first G) / g_bpg G) with (group_of G b). change ((b - g_first G) mod g_bpg G) with (bit_of G b).
  pose proof (sbv_range G s s_free_blocks Hdk). apply wp_alloc_block_loop; try done; [lia|lia| |].
  - intros k Hk%elem_of_seqZ. lia.
  - intros Hall. exfalso. apply Hnz. rewrite (bo_total _ _ Hs).
    assert (∀ d, d ∈ groups s → free_blocks d = 0) as Hz0.
    { intros d [n Hn]%list_elem_of_lookup_1. destruct (group_places G s n d Hdk Hn) as [_ Hgn].
      unfold is_group in *. set (q := group_of G b) in *.
      apply (Hall ((Z.of_nat n - q) mod g_count G) d).
      - apply elem_of_seqZ. pose proof (Z.mod_pos_bound (Z.of_nat n - q) (g_count G)). lia.
      - rewrite Zplus_mod_idemp_r. replace (q + (Z.of_nat n - q)) with (Z.of_nat n) by lia.
        by rewrite Z.mod_small, Nat2Z.id by lia. }
    clear -Hz0. induction (groups s) as [|d l IH]; [done|]. cbn [total foldr]. fold (total free_blocks l).
    rewrite (Hz0 d) by left. rewrite IH; [done|]. intros y Hy. apply Hz0. by right.
Qed.
(** ** Freeing *)

(** Counters of at most the group sizes add up to at most all blocks. *)
Lemma total_le f (l : list GroupDesc) (n : nat) :
  (∀ i d, l !! i = Some d → f d ≤ group_size G (Z.of_nat (n + i))) →
  Z.of_nat n * g_bpg G ≤ g_blocks G - g_first G →
  total f l ≤ g_blocks G - g_first G - Z.of_nat n * g_bpg G.
Proof using HG.
  revert n. induction l as [|d l IH]; intros n Hl Hn; [cbn; lia|]. cbn [total foldr]. fold (total f l).
  pose proof (Hl 0%nat d eq_refl) as H0. rewrite Nat.add_0_r in H0. unfold group_size in H0.
  pose proof (go_bpg G HG). destruct (Z.lt_ge_cases (g_blocks G - g_first G) (Z.of_nat (S n) * g_bpg G)) as [Hlast|Hmore].
  - assert (total f l ≤ 0); [|lia]. clear IH. assert (∀ d', d' ∈ l → f d' ≤ 0) as Hneg.
    { intros d' [i Hi]%list_elem_of_lookup_1. pose proof (Hl (S i) d' Hi) as Hs. unfold group_size in Hs.
      assert (Z.of_nat (S n) * g_bpg G ≤ Z.of_nat (n + S i) * g_bpg G) by (apply Z.mul_le_mono_nonneg_r; lia). lia. }
    clear -Hneg. induction l as [|x l IH]; [cbn; lia|]. cbn [total foldr]. fold (total f l).
    pose proof (Hneg x ltac:(left)). specialize (IH ltac:(intros y Hy; apply Hneg; by right)). lia.
  - specialize (IH (S n)). rewrite Nat2Z.inj_succ in *.
    specialize (IH ltac:(intros i d' Hi; specialize (Hl (S i) d' Hi); by rewrite Nat.add_succ_r in Hl) ltac:(lia)). lia.
Qed.

Lemma free_room s b d :
  blocks_ok G s → g_first G ≤ b < g_blocks G → isfree G s b = false →
  groups s !! Z.to_nat (group_of G b) = Some d →
  free_blocks d + 1 ≤ group_size G (group_of G b) ∧ sbv s_free_blocks s + 1 < U32.
Proof using HG.
  intros Hs Hb Hf Hd. pose proof (bo_disk _ _ Hs) as Hdk. pose proof (go_blocks G HG). pose proof (go_first G HG).
  destruct (block_group G HG b Hb) as [Hg Hi]. pose proof (group_size_bounds G HG _ Hg).
  assert (free_blocks d + 1 ≤ group_size G (group_of G b)) as Hroom.
  { rewrite (bo_count _ _ Hs _ d Hd). rewrite Z2Nat.id by (unfold is_group in Hg; lia).
    destruct (group_places G s _ d Hdk Hd) as [Hp _]. rewrite Z2Nat.id in Hp by (unfold is_group in Hg; lia).
    replace (block_bitmap d) with (bb_of G (group_of G b)) by (unfold bb_of; by rewrite <- Hp).
    rewrite <- (clear_bits_clear _ _ (bit_of G b)); [apply clear_bits_bounds; lia|done|by apply (bit_in_map G HG)|].
    unfold isfree in Hf. rewrite (proj2 (Z.leb_le _ _)), (proj2 (Z.ltb_lt _ _)) in Hf by lia. by apply negb_false_iff in Hf. }
  split; [done|]. rewrite (bo_total _ _ Hs).
  pose proof (total_alter free_blocks (with_free_blocks (free_blocks d + 1)) _ _ _ Hd) as Ht. simpl in Ht.
  assert (total free_blocks (alter (with_free_blocks (free_blocks d + 1)) (Z.to_nat (group_of G b)) (groups s))
    ≤ g_blocks G - g_first G - Z.of_nat 0 * g_bpg G); [|unfold U32 in *; lia].
  apply total_le; [|lia]. intros i d' Hd'. simpl. destruct (decide (i = Z.to_nat (group_of G b))) as [->|Hne].
  - rewrite list_lookup_alter, decide_True, Hd in Hd' by done. injection Hd' as <-. simpl.
    by rewrite Z2Nat.id by (unfold is_group in Hg; lia).
  - rewrite list_lookup_alter_ne in Hd' by done. rewrite (bo_count _ _ Hs i d' Hd').
    destruct (group_places G s i d' Hdk Hd') as [_ Hgi]. pose proof (group_size_bounds G HG _ Hgi). apply clear_bits_bounds. lia.
Qed.

Lemma gave_flip s b d :
  blocks_ok G s → g_first G ≤ b < g_blocks G → isfree G s b = false → ¬ is_meta G b →
  groups s !! Z.to_nat (group_of G b) = Some d →
  gave G b s (flip (group_of G b) (clear_bit (blk s (bb_of G (group_of G b))) (bit_of G b))
                (free_blocks d + 1) (sbv s_free_blocks s + 1) s).
Proof using HG.
  intros Hs Hb Hf Hm Hd. pose proof (bo_disk _ _ Hs) as Hdk. destruct (block_group G HG b Hb) as [Hg Hi].
  destruct (free_room s b d Hs Hb Hf Hd) as [_ Hroom]. set (g := group_of G b) in *. set (bm := blk s (bb_of G g)) in *.
  pose proof (bit_in_map G HG s g _ Hdk Hg Hi) as Hin. fold bm in Hin.
  pose proof (bb_good G HG g Hg) as Hgood. destruct (group_places G s _ d Hdk Hd) as [Hp _].
  rewrite Z2Nat.id in Hp by (unfold is_group in Hg; lia).
  assert (zlen bm = g_bs G) as Hz by (apply (zlen_blk G HG); [done|unfold good_block in Hgood; lia]).
  assert (zlen (clear_bit bm (bit_of G b)) = g_bs G) as Hz' by (rewrite zlen_clear_bit; lia).
  assert (Forall is_byte (clear_bit bm (bit_of G b))) as Hby by (apply is_byte_clear_bit, (is_byte_blk G); done).
  assert (bit bm (bit_of G b) = true) as Hbit.
  { unfold isfree in Hf. fold g in Hf. fold bm in Hf.
    rewrite (proj2 (Z.leb_le _ _)), (proj2 (Z.ltb_lt _ _)) in Hf by lia. by apply negb_false_iff in Hf. }
  assert (free_blocks d + 1 = clear_bits (clear_bit bm (bit_of G b)) (group_size G g)) as Hn.
  { rewrite (bo_count _ _ Hs _ d Hd). rewrite Z2Nat.id by (unfold is_group in Hg; lia).
    replace (block_bitmap d) with (bb_of G g) by (unfold bb_of; by rewrite <- Hp). fold bm.
    by rewrite (clear_bits_clear bm _ (bit_of G b)) by done. }
  assert (∀ c, isfree G (flip g (clear_bit bm (bit_of G b)) (free_blocks d + 1) (sbv s_free_blocks s + 1) s) c
               = isfree G s c || (b =? c)) as Hfree.
  { intros c. rewrite flip_isfree by done. destruct (decide (group_of G c = g)) as [He|Hne].
    - unfold isfree. rewrite He. fold bm. destruct (Z.leb_spec (g_first G) c); [|by rewrite (proj2 (Z.eqb_neq b c)) by lia].
      destruct (Z.ltb_spec c (g_blocks G)); [|by rewrite (proj2 (Z.eqb_neq b c)) by lia]. simpl.
      destruct (block_group G HG c ltac:(lia)) as [_ Hbc].
      rewrite bit_clear by lia. rewrite negb_andb, negb_involutive. f_equal. apply eq_true_iff_eq. rewrite !Z.eqb_eq.
      split; [|congruence]. intros. apply (block_eq G HG); [by rewrite He|done].
    - rewrite (proj2 (Z.eqb_neq b c)); [by rewrite orb_false_r|]. intros <-. done. }
  split; [|done|by apply flip_disk|by apply flip_rest].
  pose proof (flip_ok s g _ d Hs Hg Hz' Hby Hd) as Hok. cbv zeta in Hok.
  rewrite <- Hn in Hok. replace (sbv s_free_blocks s - free_blocks d + (free_blocks d + 1)) with (sbv s_free_blocks s + 1) in Hok by lia.
  apply Hok.
  - pose proof (sbv_range G s s_free_blocks Hdk). lia.
  - intros c. rewrite Hfree, orb_true_iff, Z.eqb_eq. intros [Hc| ->]; [by apply (bo_data _ _ Hs)|done].
Qed.

Lemma wp_free_block s b Q :
  blocks_ok G s → g_first G ≤ b < g_blocks G → isfree G s b = false → ¬ is_meta G b →
  (∀ s', gave G b s s' → Q (inr tt) s') →
  wp (free_block b) Q s.
Proof using HG.
  intros Hs Hb Hf Hm HQ. pose proof (bo_disk _ _ Hs) as Hdk. destruct (block_group G HG b Hb) as [Hg Hi].
  destruct (group_lookup G s _ Hdk Hg) as (d & Hd & Hp).
  pose proof (gave_flip s b d Hs Hb Hf Hm Hd) as Hgave. destruct (free_room s b d Hs Hb Hf Hd) as [Hr1 Hr2].
  pose proof (bb_good G HG _ Hg) as Hgood. pose proof (group_size_bounds G HG _ Hg). pose proof (go_bpg16 G HG).
  pose proof (free_blocks_nonneg G HG s d Hs ltac:(by eapply list_elem_of_lookup_2)).
  pose proof (sbv_range G s s_free_blocks Hdk). unfold free_block. e2_steps. geo Hdk.
  rewrite (proj2 (Z.ltb_ge _ _)), (proj2 (Z.leb_gt _ _)) by lia. simpl.
  change ((b - g_first G) / g_bpg G) with (group_of G b). change ((b - g_first G) mod g_bpg G) with (bit_of G b).
  rewrite Hd. e2_steps. replace (block_bitmap d) with (bb_of G (group_of G b)) by (unfold bb_of; by rewrite <- Hp).
  eapply wp_eq; [by apply (read_block_eq G HG)|]. cbn beta iota. pose proof (bit_in_map G HG s _ _ Hdk Hg Hi).
  rewrite (proj2 (Z.ltb_lt _ _)) by done. e2_steps.
  unfold isfree in Hf. rewrite (proj2 (Z.leb_le _ _)), (proj2 (Z.ltb_lt _ _)) in Hf by lia. simpl in Hf.
  rewrite Hf. e2_steps.
  eapply wp_eq; [apply (write_block_eq G HG); [done|done|]|].
  { rewrite zlen_clear_bit by lia. apply (zlen_blk G HG); [done|]. unfold good_block in Hgood. lia. }
  cbn beta iota. rewrite chk16_ok by lia. unfold set_group, set_sbv. e2_steps.
  change (sbv s_free_blocks (with_groups _ (put_block _ _ s))) with (sbv s_free_blocks s).
  rewrite chk32_ok by lia. e2_steps. by apply HQ.
Qed.

(** A block that is free is not freed again. *)
Lemma wp_free_block_twice s b Q :
  blocks_ok G s → isfree G s b = true → Q (inl Corrupt) s → wp (free_block b) Q s.
Proof using HG.
  intros Hs Hf HQ. pose proof (bo_disk _ _ Hs) as Hdk. pose proof (isfree_range G s b Hf) as Hb.
  destruct (block_group G HG b Hb) as [Hg Hi]. destruct (group_lookup G s _ Hdk Hg) as (d & Hd & Hp).
  unfold free_block. e2_steps. geo Hdk. rewrite (proj2 (Z.ltb_ge _ _)), (proj2 (Z.leb_gt _ _)) by lia. simpl.
  change ((b - g_first G) / g_bpg G) with (group_of G b). change ((b - g_first G) mod g_bpg G) with (bit_of G b).
  rewrite Hd. e2_steps. replace (block_bitmap d) with (bb_of G (group_of G b)) by (unfold bb_of; by rewrite <- Hp).
  eapply wp_eq; [by apply (read_block_eq G HG), bb_good|]. cbn beta iota. pose proof (bit_in_map G HG s _ _ Hdk Hg Hi).
  rewrite (proj2 (Z.ltb_lt _ _)) by done. e2_steps.
  unfold isfree in Hf. rewrite (proj2 (Z.leb_le _ _)), (proj2 (Z.ltb_lt _ _)) in Hf by lia. simpl in Hf.
  rewrite Hf. by e2_steps.
Qed.
End blocks.
