(* ===== verification/Ext2Inode.v ===== *)
(** * The ext2 file system: inodes

    [read_inode] and [write_inode] move exactly the bytes of one record of an
    inode table, and records do not overlap; reading and writing the fields of a
    record, and the rules for symbolic execution of code that holds an inode. *)

From S2P Require Import Prelude Text Bytes Ext2 Ext2Fs Ext2Disk Ext2Alloc.

Lemma paste_in_seg d sec span o v :
  0 ≤ sec → sec ≤ o → o + zlen v ≤ sec + span → sec + span ≤ zlen d →
  paste d sec (paste (seg d sec span) (o - sec) v) = paste d o v.
Proof.
  intros H1 H2 H3 H4. pose proof (zlen_nonneg v). assert (zlen (seg d sec span) = span) as Hs by (apply zlen_seg; lia).
  assert (zlen (paste (seg d sec span) (o - sec) v) = span) as Hp by (rewrite zlen_paste; lia).
  apply bytes_ext; rewrite !zlen_paste by lia; [done|]. intros i Hi.
  rewrite (byte_paste d o v) by lia. rewrite byte_paste, Hp by lia.
  destruct (Z.leb_spec sec i), (Z.ltb_spec i (sec + span)); simpl.
  2-4: destruct (Z.leb_spec o i), (Z.ltb_spec i (o + zlen v)); simpl; first [done|lia].
  rewrite byte_paste by lia.
  destruct (Z.leb_spec o i), (Z.leb_spec (o - sec) (i - sec)); try lia; simpl.
  - destruct (Z.ltb_spec i (o + zlen v)), (Z.ltb_spec (i - sec) (o - sec + zlen v)); try lia.
    + f_equal. lia.
    + rewrite byte_seg by lia. f_equal. lia.
  - rewrite byte_seg by lia. f_equal. lia.
Qed.

Lemma sector_bounds off isz :
  0 ≤ off → 0 < isz →
  0 ≤ sector_of off ≤ off ∧ sector_of off mod 512 = 0 ∧
  off + isz ≤ sector_of off + span_of off isz ∧ span_of off isz mod 512 = 0 ∧
  (∀ e, e mod 512 = 0 → off + isz ≤ e → sector_of off + span_of off isz ≤ e).
Proof.
  intros Ho Hi. unfold span_of, div_up, sector_of.
  replace (Z.ldiff off 511) with (off / 512 * 512).
  2:{ change 511 with (Z.ones 9). rewrite Z.ldiff_ones_r, Z.shiftr_div_pow2, Z.shiftl_mul_pow2 by lia. done. }
  split_and!; try (Z.to_euclidean_division_equations; lia).
  intros e He Hle. Z.to_euclidean_division_equations. lia.
Qed.

Section inodes.
Context (G : Geo) (HG : geo_ok G).

Definition is_ino (ino : Z) : Prop := 1 ≤ ino ≤ g_inodes G.
Definition ino_group (ino : Z) : Z := (ino - 1) / g_ipg G.
Definition ino_off (ino : Z) : Z :=
  it_of G (ino_group ino) * g_bs G + (ino - 1) mod g_ipg G * g_isz G.
Definition inode_at (s : Fs) (ino : Z) : Inode := seg (dev s) (ino_off ino) (g_isz G).
Definition put_inode (ino : Z) (raw : Inode) (s : Fs) : Fs := with_dev (paste (dev s) (ino_off ino) raw) s.

Definition is_it (b : Z) : Prop := ∃ g, is_group G g ∧ in_ext (ext_of G g 2) b.

Lemma ino_group_ok ino : is_ino ino → is_group G (ino_group ino).
Proof using HG.
  intros Hi. pose proof (go_inodes G HG). pose proof (go_ipg G HG). unfold is_group, ino_group, is_ino in *. split.
  - apply Z.div_pos; lia.
  - apply Z.div_lt_upper_bound; nia.
Qed.

(** The bytes of an inode lie in the blocks of its group's table. *)
Lemma ino_off_range ino :
  is_ino ino →
  it_of G (ino_group ino) * g_bs G ≤ ino_off ino ∧
  ino_off ino + g_isz G ≤ (it_of G (ino_group ino) + g_itb G) * g_bs G.
Proof using HG.
  intros Hi. pose proof (go_ipg G HG). pose proof (go_isz G HG). pose proof (go_bs G HG). unfold ino_off.
  pose proof (Z.mod_pos_bound (ino - 1) (g_ipg G) ltac:(lia)).
  assert (g_ipg G * g_isz G ≤ g_itb G * g_bs G).
  { unfold g_itb, div_up. set (x := g_ipg G * g_isz G). pose proof (Z.div_mod (x + g_bs G - 1) (g_bs G) ltac:(lia)).
    pose proof (Z.mod_pos_bound (x + g_bs G - 1) (g_bs G) ltac:(lia)). lia. }
  split; nia.
Qed.

Lemma it_bounds g : is_group G g → 0 < it_of G g ∧ it_of G g + g_itb G ≤ g_blocks G.
Proof using HG.
  intros Hg. pose proof (ext_inside G HG g 2 Hg ltac:(lia)) as [H1 H2]. simpl in *.
  pose proof (go_first G HG). pose proof (gdtb_nonneg G HG). lia.
Qed.

Lemma ino_inside s ino : disk_ok G s → is_ino ino → 0 ≤ ino_off ino ∧ ino_off ino + g_isz G ≤ zlen (dev s).
Proof using HG.
  intros Hd Hi. destruct (ino_off_range ino Hi). destruct (it_bounds _ (ino_group_ok ino Hi)).
  pose proof (go_disk G HG). pose proof (go_bs G HG). geo Hd. nia.
Qed.

Lemma zlen_inode_at s ino : disk_ok G s → is_ino ino → zlen (inode_at s ino) = g_isz G.
Proof using HG. intros Hd Hi. destruct (ino_inside s ino Hd Hi). pose proof (go_isz G HG). apply zlen_seg; lia. Qed.

Lemma is_byte_inode_at s ino : disk_ok G s → Forall is_byte (inode_at s ino).
Proof. intros Hd. apply is_byte_seg, (dk_bytes _ _ Hd). Qed.

Lemma inode_location_eq s ino :
  disk_ok G s → is_ino ino → inode_location ino s = Some (inr (ino_off ino, g_isz G), s).
Proof using HG.
  intros Hd Hi. unfold inode_location, get, need, mbind, exec_bind. geo Hd. pose proof (ino_group_ok ino Hi) as Hg.
  unfold is_ino in Hi. rewrite (proj2 (Z.eqb_neq _ _)), (proj2 (Z.ltb_ge _ _)) by lia. simpl.
  destruct (group_lookup G s _ Hd Hg) as (d & Hl & Hp). unfold ino_group in Hl. rewrite Hl.
  unfold ok, mret, exec_ret, ino_off, it_of. rewrite <- Hp. done.
Qed.

(** The sectors around an inode, as a request to the device. *)
Lemma ino_sectors s ino :
  disk_ok G s → is_ino ino →
  let sec := sector_of (ino_off ino) in let span := span_of (ino_off ino) (g_isz G) in
  0 ≤ sec ≤ ino_off ino ∧ aligned sec = true ∧ aligned span = true ∧ 0 ≤ span ∧
  ino_off ino + g_isz G ≤ sec + span ∧ sec + span ≤ zlen (dev s).
Proof using HG.
  intros Hd Hi sec span. destruct (ino_off_range ino Hi) as [H1 H2]. destruct (it_bounds _ (ino_group_ok ino Hi)) as [H3 H4].
  pose proof (go_isz G HG). pose proof (go_bs G HG). destruct (ino_inside s ino Hd Hi).
  destruct (sector_bounds (ino_off ino) (g_isz G)) as (S1 & S2 & S3 & S4 & S5); [lia|lia|]. fold sec span in S1, S2, S3, S4, S5.
  assert (sec + span ≤ (it_of G (ino_group ino) + g_itb G) * g_bs G) as He.
  { apply S5; [|lia]. pose proof (aligned_mul G HG (it_of G (ino_group ino) + g_itb G)) as Ha. by apply Z.eqb_eq in Ha. }
  pose proof (go_disk G HG). unfold aligned. rewrite !(proj2 (Z.eqb_eq _ 0)) by done. geo Hd.
  split_and!; try done; nia.
Qed.

Lemma read_inode_eq s ino : disk_ok G s → is_ino ino → read_inode ino s = Some (inr (inode_at s ino), s).
Proof using HG.
  intros Hd Hi. destruct (ino_sectors s ino Hd Hi) as (H1 & H2 & H3 & H4 & H5 & H6). pose proof (go_isz G HG).
  unfold read_inode, try_bind, mbind, exec_bind. rewrite (inode_location_eq s ino Hd Hi). unfold on_dev.
  cbn [dev_read ram_device]. rewrite H2, H3, in_range_true by lia. cbn [andb]. unfold need.
  rewrite get_seg_ok by (rewrite ?zlen_seg; lia). rewrite seg_seg by lia. unfold inode_at, ok, mret, exec_ret.
  replace (sector_of (ino_off ino) + (ino_off ino - sector_of (ino_off ino))) with (ino_off ino) by lia. by destruct s.
Qed.

Lemma write_inode_eq s ino raw :
  disk_ok G s → is_ino ino → zlen raw = g_isz G → write_inode ino raw s = Some (inr tt, put_inode ino raw s).
Proof using HG.
  intros Hd Hi Hr. destruct (ino_sectors s ino Hd Hi) as (H1 & H2 & H3 & H4 & H5 & H6). pose proof (go_isz G HG).
  unfold write_inode, try_bind, mbind, exec_bind. rewrite (inode_location_eq s ino Hd Hi). unfold on_dev.
  cbn [dev_read ram_device]. rewrite H2, H3, in_range_true by lia. cbn [andb]. unfold need.
  rewrite get_seg_ok, seg_full by lia. rewrite put_seg_ok by (rewrite ?zlen_seg; lia).
  cbn [dev_write ram_device with_dev dev]. rewrite zlen_paste by (rewrite ?zlen_seg; lia). rewrite zlen_seg by lia.
  rewrite H2, H3, in_range_true by lia. cbn [andb]. unfold put_inode. rewrite paste_in_seg by lia. done.
Qed.

Lemma disk_ok_put_inode s ino raw :
  disk_ok G s → is_ino ino → zlen raw = g_isz G → Forall is_byte raw → disk_ok G (put_inode ino raw s).
Proof using HG.
  intros Hd Hi Hr Hb. destruct (ino_inside s ino Hd Hi). apply disk_ok_set_dev; [done| |].
  - rewrite zlen_paste; lia.
  - apply is_byte_paste; [apply (dk_bytes _ _ Hd)|done].
Qed.

Lemma differ_put_inode s ino raw :
  disk_ok G s → is_ino ino → zlen raw = g_isz G → differ_in is_it s (put_inode ino raw s).
Proof using HG.
  intros Hd Hi Hr i H0 Hn. destruct (ino_inside s ino Hd Hi). destruct (ino_off_range ino Hi) as [H3 H4].
  unfold put_inode. cbn [dev with_dev]. apply byte_paste_out; [lia|lia|lia|]. rewrite Hr. rewrite (geo_bs _ _ Hd) in Hn.
  destruct (Z.lt_ge_cases i (ino_off ino)); [by left|]. destruct (Z.lt_ge_cases i (ino_off ino + g_isz G)); [|by right].
  destruct Hn. exists (ino_group ino). split; [by apply ino_group_ok|]. unfold in_ext, ext_of. simpl.
  pose proof (go_bs G HG). split; [apply Z.div_le_lower_bound|apply Z.div_lt_upper_bound]; nia.
Qed.

Lemma inode_at_put_same s ino raw :
  disk_ok G s → is_ino ino → zlen raw = g_isz G → inode_at (put_inode ino raw s) ino = raw.
Proof using HG.
  intros Hd Hi Hr. destruct (ino_inside s ino Hd Hi). unfold inode_at, put_inode. cbn [dev with_dev].
  rewrite <- Hr. apply seg_paste_same; lia.
Qed.

(** Records of different inodes do not overlap. *)
Lemma ino_apart i j :
  is_ino i → is_ino j → i ≠ j → ino_off i + g_isz G ≤ ino_off j ∨ ino_off j + g_isz G ≤ ino_off i.
Proof using HG.
  intros Hi Hj Hne. pose proof (go_ipg G HG). pose proof (go_isz G HG). pose proof (go_bs G HG).
  destruct (decide (ino_group i = ino_group j)) as [He|Hg].
  - unfold ino_off. rewrite He. assert ((i - 1) mod g_ipg G ≠ (j - 1) mod g_ipg G).
    { intros Hm. pose proof (Z.div_mod (i - 1) (g_ipg G) ltac:(lia)). pose proof (Z.div_mod (j - 1) (g_ipg G) ltac:(lia)).
      unfold ino_group in He. rewrite He, Hm in *. lia. }
    nia.
  - destruct (ino_off_range i Hi), (ino_off_range j Hj).
    pose proof (ino_group_ok i Hi) as Gi. pose proof (ino_group_ok j Hj) as Gj.
    destruct (Z.lt_ge_cases (ino_off i + g_isz G - 1) (ino_off j)); [left; lia|].
    destruct (Z.lt_ge_cases (ino_off j + g_isz G - 1) (ino_off i)); [right; lia|]. exfalso.
    assert (∃ b, in_ext (ext_of G (ino_group i) 2) b ∧ in_ext (ext_of G (ino_group j) 2) b) as (b & Hbi & Hbj).
    { exists (Z.max (ino_off i) (ino_off j) / g_bs G). unfold in_ext, ext_of. simpl.
      split; (split; [apply Z.div_le_lower_bound|apply Z.div_lt_upper_bound]); nia. }
    destruct (ext_disjoint G HG _ 2 _ 2 b Gi Gj ltac:(lia) ltac:(lia) Hbi Hbj). done.
Qed.

Lemma inode_at_put_other s i j raw :
  disk_ok G s → is_ino i → is_ino j → i ≠ j → zlen raw = g_isz G → inode_at (put_inode i raw s) j = inode_at s j.
Proof using HG.
  intros Hd Hi Hj Hne Hr. destruct (ino_inside s i Hd Hi), (ino_inside s j Hd Hj). pose proof (go_isz G HG).
  unfold inode_at, put_inode. cbn [dev with_dev]. apply seg_paste_other; try lia.
  destruct (ino_apart i j Hi Hj Hne); lia.
Qed.

(** Changes outside the tables do not change inodes. *)
Lemma differ_inode P s s' ino :
  disk_ok G s → disk_ok G s' → differ_in P s s' → is_ino ino → (∀ b, P b → ¬ is_it b) →
  inode_at s' ino = inode_at s ino.
Proof using HG.
  intros Hd Hd' Hdf Hi HP. destruct (ino_off_range ino Hi). pose proof (go_isz G HG). pose proof (go_bs G HG).
  apply bytes_ext; [by rewrite !zlen_inode_at|]. rewrite zlen_inode_at by done. intros i Hr.
  destruct (ino_inside s ino Hd Hi). unfold inode_at. rewrite !byte_seg by lia. apply Hdf; [lia|]. rewrite (geo_bs _ _ Hd).
  intros Hb. apply (HP _ Hb). exists (ino_group ino). split; [by apply ino_group_ok|]. unfold in_ext, ext_of. simpl.
  split; [apply Z.div_le_lower_bound|apply Z.div_lt_upper_bound]; nia.
Qed.

Lemma is_it_meta b : is_it b → is_meta G b.
Proof. intros (g & Hg & Hb). by apply (ext_meta G g 2); [done|lia|]. Qed.

Lemma bb_not_it b : is_bb G b → ¬ is_it b.
Proof using HG.
  intros (g & Hg & ->) (g' & Hg' & Hb). assert (0 = 2)%nat; [|done].
  refine (proj2 (ext_disjoint G HG g 0 g' 2 (bb_of G g) Hg Hg' _ _ _ Hb)); try lia. unfold in_ext, ext_of. simpl. lia.
Qed.
End inodes.

(** ** Fields *)

Definition field_ok (f : IField) : Prop := match f with i_block k => 0 ≤ k < 15 | _ => True end.

Definition fget (f : IField) (raw : Inode) : Z := field (i_width f) raw (i_off f).
Definition fset (f : IField) (v : Z) (raw : Inode) : Inode := paste raw (i_off f) (le_bytes (i_width f) v).

(** The largest value of a field, plus one. *)
Definition i_bound (f : IField) : Z := 256 ^ Z.of_nat (i_width f).

Lemma i_field_in f : field_ok f → 0 ≤ i_off f ∧ i_off f + Z.of_nat (i_width f) ≤ 128.
Proof. destruct f; simpl; lia. Qed.

Lemma iget_ok f raw : 128 ≤ zlen raw → field_ok f → iget f raw = Some (fget f raw).
Proof. intros Hz Hf. destruct (i_field_in f Hf). apply rd_ok; lia. Qed.

Lemma iset_ok f v raw : 128 ≤ zlen raw → field_ok f → iset f v raw = Some (fset f v raw).
Proof. intros Hz Hf. destruct (i_field_in f Hf). apply wr_ok; lia. Qed.

Lemma zlen_fset f v raw : 128 ≤ zlen raw → field_ok f → zlen (fset f v raw) = zlen raw.
Proof. intros Hz Hf. destruct (i_field_in f Hf). apply zlen_paste; rewrite ?zlen_le_bytes; lia. Qed.

Lemma is_byte_fset f v raw : Forall is_byte raw → Forall is_byte (fset f v raw).
Proof. intros. apply is_byte_paste; [done|apply le_bytes_byte]. Qed.

Lemma fget_range f raw : 128 ≤ zlen raw → field_ok f → Forall is_byte raw → 0 ≤ fget f raw < i_bound f.
Proof. intros Hz Hf Hb. destruct (i_field_in f Hf). apply field_range; [done|lia|lia]. Qed.

Lemma fget_same f v raw : 128 ≤ zlen raw → field_ok f → 0 ≤ v < i_bound f → fget f (fset f v raw) = v.
Proof.
  intros Hz Hf Hv. destruct (i_field_in f Hf). unfold fget, fset. rewrite field_same by lia. by apply Z.mod_small.
Qed.

Lemma fget_wrap f v raw : 128 ≤ zlen raw → field_ok f → fget f (fset f v raw) = v mod i_bound f.
Proof. intros Hz Hf. destruct (i_field_in f Hf). unfold fget, fset. by rewrite field_same by lia. Qed.

Lemma fields_apart f g :
  field_ok f → field_ok g → f ≠ g →
  i_off f + Z.of_nat (i_width f) ≤ i_off g ∨ i_off g + Z.of_nat (i_width g) ≤ i_off f.
Proof.
  intros Hf Hg Hne. destruct f, g; simpl in *; try lia; try done. destruct (decide (k = k0)) as [->|]; [done|lia].
Qed.

Lemma fget_other f g v raw : 128 ≤ zlen raw → field_ok f → field_ok g → f ≠ g → fget f (fset g v raw) = fget f raw.
Proof.
  intros Hz Hf Hg Hne. destruct (i_field_in f Hf), (i_field_in g Hg). apply field_other; try lia.
  by apply fields_apart.
Qed.

(** ** Kinds and sizes *)

Definition kind (raw : Inode) : Z := Z.land (fget i_mode raw) S_IFMT.
Definition fsize (raw : Inode) : Z :=
  if kind raw =? S_IFREG then Z.lor (fget i_size_lo raw) (Z.shiftl (fget i_size_hi raw) 32) else fget i_size_lo raw.

Lemma is_kind_eq k raw : 128 ≤ zlen raw → is_kind k raw = Some (kind raw =? k).
Proof. intros. unfold is_kind. by rewrite iget_ok. Qed.

Lemma size_eq raw : 128 ≤ zlen raw → size raw = Some (fsize raw).
Proof.
  intros. unfold size. rewrite !iget_ok by done. cbn. rewrite is_kind_eq by done. cbn. unfold fsize.
  by destruct (kind raw =? S_IFREG).
Qed.

Definition fset_size (v : Z) (raw : Inode) : Inode :=
  if kind raw =? S_IFREG then fset i_size_hi (Z.shiftr v 32) (fset i_size_lo v raw) else fset i_size_lo v raw.

Lemma kind_fset f v raw : 128 ≤ zlen raw → field_ok f → f ≠ i_mode → kind (fset f v raw) = kind raw.
Proof. intros. unfold kind. by rewrite fget_other. Qed.

Lemma set_size_eq v raw : 128 ≤ zlen raw → set_size v raw = Some (fset_size v raw).
Proof.
  intros Hz. unfold set_size. rewrite iset_ok by done. cbn. rewrite is_kind_eq by (by rewrite zlen_fset). cbn.
  rewrite kind_fset by done. unfold fset_size. destruct (kind raw =? S_IFREG); [|done].
  by rewrite iset_ok by (by rewrite ?zlen_fset).
Qed.

Lemma zlen_fset_size v raw : 128 ≤ zlen raw → zlen (fset_size v raw) = zlen raw.
Proof. intros. unfold fset_size. destruct (_ =? _); by rewrite !zlen_fset by (by rewrite ?zlen_fset). Qed.

Lemma is_byte_fset_size v raw : Forall is_byte raw → Forall is_byte (fset_size v raw).
Proof. intros. unfold fset_size. destruct (_ =? _); auto using is_byte_fset. Qed.

Lemma kind_fset_size v raw : 128 ≤ zlen raw → kind (fset_size v raw) = kind raw.
Proof. intros. unfold fset_size. destruct (_ =? _); by rewrite !kind_fset by (by rewrite ?zlen_fset). Qed.

Lemma fget_fset_size f v raw :
  128 ≤ zlen raw → field_ok f → f ≠ i_size_lo → f ≠ i_size_hi → fget f (fset_size v raw) = fget f raw.
Proof. intros. unfold fset_size. destruct (_ =? _); by rewrite !fget_other by (by rewrite ?zlen_fset). Qed.

Lemma lor_high lo hi : 0 ≤ lo < 2 ^ 32 → Z.lor lo (Z.shiftl hi 32) = lo + hi * 2 ^ 32.
Proof. intros. rewrite Z.lor_comm, lor_shiftl_add by lia. lia. Qed.

(** The size of a regular file has 64 bits, that of other files 32. *)
Definition size_bound (raw : Inode) : Z := if kind raw =? S_IFREG then U64 else U32.

Lemma fsize_fset_size v raw :
  128 ≤ zlen raw → Forall is_byte raw → 0 ≤ v < size_bound raw → fsize (fset_size v raw) = v.
Proof.
  intros Hz Hb Hv. unfold fsize. rewrite kind_fset_size by done. unfold fset_size, size_bound in *.
  destruct (kind raw =? S_IFREG).
  - rewrite fget_other by (by rewrite ?zlen_fset). rewrite !fget_wrap by (by rewrite ?zlen_fset).
    change (i_bound _) with (2 ^ 32). pose proof (Z.mod_pos_bound v (2 ^ 32) ltac:(lia)). rewrite lor_high by lia.
    rewrite Z.shiftr_div_pow2 by lia. rewrite (Z.mod_small (v / 2 ^ 32)).
    2:{ split; [apply Z.div_pos; lia|]. apply Z.div_lt_upper_bound; unfold U64 in *; lia. }
    pose proof (Z.div_mod v (2 ^ 32) ltac:(lia)). lia.
  - by rewrite fget_same.
Qed.

Lemma fsize_range raw : 128 ≤ zlen raw → Forall is_byte raw → 0 ≤ fsize raw < size_bound raw.
Proof.
  intros Hz Hb. unfold fsize, size_bound. pose proof (fget_range i_size_lo raw Hz I Hb) as Hlo.
  pose proof (fget_range i_size_hi raw Hz I Hb) as Hhi. change (i_bound _) with (2 ^ 32) in *. destruct (_ =? _); [|done].
  rewrite lor_high by lia. unfold U64. lia.
Qed.

Lemma fsize_fget raw raw' :
  fget i_mode raw' = fget i_mode raw → fget i_size_lo raw' = fget i_size_lo raw →
  fget i_size_hi raw' = fget i_size_hi raw → fsize raw' = fsize raw ∧ kind raw' = kind raw.
Proof. intros H1 H2 H3. unfold fsize, kind. by rewrite H1, H2, H3. Qed.

(** ** Execution with an inode at hand *)

Section rules.
Context {D : Type} `{Device D}.
Implicit Types s : @Ext2 D.

Lemma wp_on_fs {A} (m : Exec (@Ext2 D) A) Q s (i : Inode) : wp m (λ a s', Q a (s', i)) s → wp (on_fs m) Q (s, i).
Proof. unfold wp, on_fs. by destruct (m s) as [[a s']|]. Qed.

Lemma wp_of_inode {A} (f : Inode → option A) a Q s i : f i = Some a → Q a (s, i) → wp (of_inode f) Q (s, i).
Proof. unfold wp, of_inode. by intros ->. Qed.

Lemma wp_on_inode f i' Q s (i : Inode) : f i = Some i' → Q tt (s, i') → wp (on_inode f) Q (s, i).
Proof. unfold wp, on_inode. by intros ->. Qed.

Lemma wp_with_inode {A} (i : Inode) (m : Exec (@Ext2 D * Inode) A) Q s :
  wp m (λ a t, Q (a, t.2) t.1) (s, i) → wp (with_inode i m) Q s.
Proof. unfold wp, with_inode. by destruct (m (s, i)) as [[a [s' i']]|]. Qed.

Lemma wp_try_inode {A} (i : Inode) (m : Exec (@Ext2 D * Inode) (Error + A)) Q s :
  wp m (λ r t, match r with inl e => Q (inl e) t.1 | inr a => Q (inr (a, t.2)) t.1 end) (s, i) →
  wp (try_inode i m) Q s.
Proof.
  intros Hm. unfold try_inode. apply wp_bind, wp_with_inode. eapply wp_mono; [exact Hm|]. by intros [e|a] [s' i'].
Qed.
End rules.

Ltac ie_step :=
  match goal with
  | |- wp (on_fs _) _ _ => apply wp_on_fs
  | |- wp (with_inode _ _) _ _ => apply wp_with_inode
  | |- wp (try_inode _ _) _ _ => apply wp_try_inode
  | _ => e2_step
  end.
Ltac ie_steps := repeat (ie_step; cbn beta iota).
