(* ===== verification/Ext2Tree.v ===== *)
(** * The ext2 file system: the block trees of inodes

    A block of a file is named by its position: a slot of the inode and the
    indices below it.  The invariant says that the blocks at all positions of
    all inodes are allocated, are not metadata and are pairwise different; this
    file shows how a new block, a data write and a removal change the trees. *)

From S2P Require Import Prelude Text Bytes Ext2 Ext2Fs Ext2Disk Ext2Alloc Ext2Inode.

Definition Pos : Type := Z * list Z.

Section tree.
Context (G : Geo) (HG : geo_ok G).

Definition pp : Z := g_bs G / 4.

Definition ptr (s : Fs) (b i : Z) : Z := field 4 (blk s b) (i * 4).
Definition iblk (raw : Inode) (k : Z) : Z := field 4 raw (40 + k * 4).

Fixpoint walk (s : Fs) (cur : Z) (path : list Z) : Z :=
  match path with
  | [] => cur
  | i :: rest => if cur =? 0 then 0 else walk s (ptr s cur i) rest
  end.

Definition node (s : Fs) (raw : Inode) (p : Pos) : Z := walk s (iblk raw p.1) p.2.

Definition depth (slot : Z) : nat := Z.to_nat (slot - 11).

Definition valid (p : Pos) : Prop :=
  0 ≤ p.1 < 15 ∧ (length p.2 ≤ depth p.1)%nat ∧ Forall (λ i, 0 ≤ i < pp) p.2.
Definition leaf (p : Pos) : Prop := length p.2 = depth p.1.

(** A block that holds part of a file. *)
Definition in_file (s : Fs) (b : Z) : Prop :=
  g_first G ≤ b < g_blocks G ∧ isfree G s b = false ∧ ¬ is_meta G b.

(** The inodes whose blocks are looked at, by number. *)
Definition Inodes : Type := Z → option Inode.
Definition upd (R : Inodes) (ino : Z) (raw : Inode) : Inodes := λ j, if decide (j = ino) then Some raw else R j.

Record trees_ok (s : Fs) (R : Inodes) : Prop := {
  to_raw : ∀ ino raw, R ino = Some raw → zlen raw = g_isz G ∧ Forall is_byte raw;
  to_node : ∀ ino raw p, R ino = Some raw → valid p → node s raw p ≠ 0 → in_file s (node s raw p);
  to_inj : ∀ ino raw p ino' raw' p', R ino = Some raw → R ino' = Some raw' → valid p → valid p' →
    node s raw p = node s raw' p' → node s raw p ≠ 0 → ino = ino' ∧ p = p';
}.

Lemma upd_same R ino raw : upd R ino raw ino = Some raw.
Proof. unfold upd. by rewrite decide_True. Qed.
Lemma upd_other R ino raw j : j ≠ ino → upd R ino raw j = R j.
Proof. intros. unfold upd. by rewrite decide_False. Qed.

(** ** Walks *)

Lemma walk_0 s path : walk s 0 path = 0.
Proof. by destruct path. Qed.

Lemma walk_app s cur p q : walk s cur (p ++ q) = walk s (walk s cur p) q.
Proof.
  revert cur. induction p as [|i p IH]; intros cur; [done|]. simpl. destruct (Z.eqb_spec cur 0) as [->|]; [|apply IH].
  by rewrite walk_0.
Qed.

Lemma node_app s raw slot p q : node s raw (slot, p ++ q) = walk s (node s raw (slot, p)) q.
Proof. apply walk_app. Qed.

Lemma walk_ext s s' cur path :
  (∀ k, (k < length path)%nat → walk s cur (take k path) ≠ 0 →
     blk s' (walk s cur (take k path)) = blk s (walk s cur (take k path))) →
  walk s' cur path = walk s cur path.
Proof.
  revert cur. induction path as [|i path IH]; intros cur Hk; [done|]. simpl.
  destruct (Z.eqb_spec cur 0) as [|Hc]; [done|].
  assert (ptr s' cur i = ptr s cur i) as Hp.
  { unfold ptr. pose proof (Hk 0%nat ltac:(simpl; lia) Hc) as H0. simpl in H0. by rewrite H0. }
  rewrite Hp. apply IH. intros k Hlt Hn. specialize (Hk (S k)). simpl in Hk.
  rewrite (proj2 (Z.eqb_neq cur 0)) in Hk by done. apply Hk; [lia|done].
Qed.

(** Only the disk matters. *)
Lemma walk_dev s s' cur path : dev s' = dev s → bs s' = bs s → walk s' cur path = walk s cur path.
Proof. intros Hd Hb. apply walk_ext. intros k _ _. unfold blk. by rewrite Hd, Hb. Qed.

Lemma valid_take slot path k : valid (slot, path) → valid (slot, take k path).
Proof.
  intros (H1 & H2 & H3). split; [done|]. cbn [fst snd] in *. split; [rewrite length_take; lia|by apply Forall_take].
Qed.

Lemma valid_prefix slot p q : valid (slot, p ++ q) → valid (slot, p).
Proof. intros Hv. rewrite <- (take_app_length p q). by apply valid_take. Qed.

(** A part of the trees read through blocks that did not change is the same. *)
Lemma node_same s s' R ino raw slot path :
  trees_ok s R → R ino = Some raw → valid (slot, path) →
  (∀ k, (k < length path)%nat → in_file s (node s raw (slot, take k path)) →
     blk s' (node s raw (slot, take k path)) = blk s (node s raw (slot, take k path))) →
  node s' raw (slot, path) = node s raw (slot, path).
Proof.
  intros Ht HR Hv Hs. apply walk_ext. intros k Hk Hn. apply (Hs k Hk).
  apply (to_node _ _ Ht ino raw); [done|by apply valid_take|done].
Qed.

Lemma in_file_good s b : in_file s b → good_block G b.
Proof using HG.
  intros (H1 & _ & H2). unfold good_block. split; [|lia]. pose proof (go_first G HG). pose proof (gdtb_nonneg G HG).
  destruct (Z.lt_ge_cases (g_first G + g_gdtb G) b); [lia|]. destruct H2. by left.
Qed.

Lemma iblk_range raw k : zlen raw = g_isz G → Forall is_byte raw → 0 ≤ k < 15 → 0 ≤ iblk raw k < U32.
Proof using HG.
  intros Hz Hb Hk. pose proof (go_isz G HG). pose proof (field_range 4 raw (40 + k * 4) Hb ltac:(lia) ltac:(simpl; lia)) as Hf.
  done.
Qed.

Lemma pp_range : 256 ≤ pp ∧ pp * 4 = g_bs G.
Proof using HG.
  pose proof (go_bs G HG). pose proof (go_bs_mul G HG). unfold pp. split; Z.to_euclidean_division_equations; lia.
Qed.

(** ** A new block *)

(** The blocks that differ when block [b] was allocated, cleared and linked
    from pointer block [c]. *)
Definition grown (b c : Z) (x : Z) : Prop := is_bb G x ∨ x = b ∨ x = c.

Record hooked (s s' : Fs) (b c i : Z) : Prop := {
  li_disk : disk_ok G s';
  li_differ : differ_in (grown b c) s s';
  li_new : blk s' b = zeros (g_bs G);
  li_ptr : ∀ j, 0 ≤ j < pp → ptr s' c j = if decide (j = i) then b else ptr s c j;
}.

Lemma file_not_bb s b : in_file s b → ¬ is_bb G b.
Proof. intros (_ & _ & Hm) (g & Hg & ->). by apply Hm, bb_meta. Qed.

Lemma grown_same s s' b c x :
  disk_ok G s → disk_ok G s' → differ_in (grown b c) s s' → isfree G s b = true → in_file s x → x ≠ c → blk s' x = blk s x.
Proof using HG.
  intros Hd Hd' Hdf Hb Hx Hc. pose proof (in_file_good s x Hx) as [? ?].
  apply (differ_blk G HG (grown b c)); try done; [lia|].
  intros [Hbb|[->| ->]]; [by apply (file_not_bb s x)| |done]. destruct Hx as (_ & Hf & _). congruence.
Qed.

Lemma walk_fresh s b path : blk s b = zeros (g_bs G) → Forall (λ i, 0 ≤ i < pp) path → path ≠ [] → walk s b path = 0.
Proof.
  intros Hb Hp Hn. destruct path as [|i path]; [done|]. simpl. destruct (b =? 0); [done|].
  apply Forall_cons in Hp as [Hi _]. unfold ptr. rewrite Hb, field_zeros by lia. apply walk_0.
Qed.

(** Linking [b] at index [i] of the pointer block at [(slot, path)] of [ino]
    changes that position and no other. *)
Lemma node_linked s s' R ino raw slot path i b :
  disk_ok G s → trees_ok s R → R ino = Some raw → valid (slot, path ++ [i]) → isfree G s b = true →
  node s raw (slot, path) ≠ 0 → ptr s (node s raw (slot, path)) i = 0 →
  hooked s s' b (node s raw (slot, path)) i →
  ∀ ino' raw' q, R ino' = Some raw' → valid q →
    node s' raw' q = if decide (ino' = ino ∧ q = (slot, path ++ [i])) then b else node s raw' q.
Proof using HG.
  intros Hd Ht HR Hv Hb Hc Hz Hl ino' raw' [sl q] HR' Hq. set (c := node s raw (slot, path)) in *.
  pose proof (valid_prefix slot path [i] Hv) as Hvp. pose proof (li_disk _ _ _ _ _ Hl) as Hd'.
  (* a walk that does not go through [c] *)
  assert (∀ inoz rawz slz z, R inoz = Some rawz → valid (slz, z) →
    (∀ k, (k < length z)%nat → ¬ (inoz = ino ∧ slz = slot ∧ take k z = path)) →
    node s' rawz (slz, z) = node s rawz (slz, z)) as Haway.
  { intros inoz rawz slz z HRz Hvz Hk. apply (node_same s s' R inoz); try done. intros k Hlt Hin.
    apply (grown_same s s' b c); try done; [apply (li_differ _ _ _ _ _ Hl)|]. intros He.
    destruct (to_inj _ _ Ht inoz rawz (slz, take k z) ino raw (slot, path)) as [-> Hp]; try done; [by apply valid_take| |].
    - by rewrite He.
    - injection Hp as -> Hp. by apply (Hk k). }
  assert (node s' raw (slot, path) = c) as Hc'.
  { apply (Haway ino); try done. intros k Hlt (_ & _ & He). apply (f_equal length) in He. rewrite length_take in He. lia. }
  destruct (decide (ino' = ino ∧ sl = slot ∧ q ≠ path ∧ path `prefix_of` q)) as [(-> & -> & Hr & [r ->])|Hno]; cycle 1.
  - rewrite decide_False.
    2:{ intros [-> [= -> ->]]. apply Hno. split_and!; try done; [|by exists [i]].
        intros He. apply (f_equal length) in He. rewrite length_app in He. simpl in He. lia. }
    apply (Haway ino'); try done. intros k Hlt (-> & -> & He). apply Hno. split_and!; try done.
    + intros ->. apply (f_equal length) in He. rewrite length_take in He. lia.
    + exists (drop k q). by rewrite <- He, take_drop.
  - assert (r ≠ []) as Hr' by (intros ->; by rewrite app_nil_r in Hr). clear Hr. rewrite HR in HR'. injection HR' as <-. destruct r as [|j r]; [done|]. rewrite !node_app, Hc'. fold c.
    destruct Hq as (Hq1 & Hq2 & Hq3). cbn [fst snd] in *. apply Forall_app in Hq3 as [Hq3 [Hj Hq4]%Forall_cons].
    simpl. rewrite (proj2 (Z.eqb_neq c 0)) by done. rewrite (li_ptr _ _ _ _ _ Hl j Hj). destruct (decide (j = i)) as [->|Hji].
    + rewrite Hz, walk_0. destruct r as [|j' r].
      * by rewrite decide_True.
      * rewrite decide_False. 2:{ intros [_ [= Hap]]. by apply app_inv_head in Hap. }
        apply walk_fresh; [apply (li_new _ _ _ _ _ Hl)|done|done].
    + rewrite decide_False. 2:{ intros [_ [= Hap]]. apply app_inv_head in Hap. by injection Hap as ->. }
      apply walk_ext. intros k Hk Hn.
      assert (walk s (ptr s c j) (take k r) = node s raw (slot, path ++ j :: take k r)) as He.
      { rewrite node_app. fold c. simpl. by rewrite (proj2 (Z.eqb_neq c 0)) by done. }
      assert (valid (slot, path ++ j :: take k r)) as Hvk.
      { split; [done|]. cbn [fst snd]. rewrite length_app in *. simpl in *. rewrite length_take. split; [lia|].
        apply Forall_app. split; [done|]. apply Forall_cons. split; [done|]. by apply Forall_take. }
      rewrite He in *. apply (grown_same s s' b c); try done; [apply (li_differ _ _ _ _ _ Hl)|by apply (to_node _ _ Ht ino)|].
      intros Hec. destruct (to_inj _ _ Ht ino raw _ ino raw (slot, path) HR HR Hvk Hvp Hec Hn) as [_ Hp].
      injection Hp as Hp. apply (f_equal length) in Hp. rewrite length_app in Hp. simpl in Hp. lia.
Qed.
(** Only the block pointers of an inode matter. *)
Lemma node_iblk s raw raw' p : iblk raw' p.1 = iblk raw p.1 → node s raw' p = node s raw p.
Proof. unfold node. by intros ->. Qed.

(** The same for a block that an empty slot of the inode gets. *)
Lemma node_rooted s s' R ino raw raw' slot b :
  disk_ok G s → disk_ok G s' → trees_ok s R → R ino = Some raw → isfree G s b = true →
  iblk raw slot = 0 → differ_in (grown b b) s s' → ((0 < depth slot)%nat → blk s' b = zeros (g_bs G)) →
  (∀ k, 0 ≤ k < 15 → iblk raw' k = if decide (k = slot) then b else iblk raw k) →
  ∀ ino' raw1, upd R ino raw' ino' = Some raw1 → ∃ raw0, R ino' = Some raw0 ∧
    ∀ q, valid q → node s' raw1 q = if decide (ino' = ino ∧ q = (slot, [])) then b else node s raw0 q.
Proof using HG.
  intros Hd Hd' Ht HR Hb Hz Hdf Hnew Hblk.
  assert (∀ inoz rawz q, R inoz = Some rawz → valid q → node s' rawz q = node s rawz q) as Hsame.
  { intros inoz rawz [sl q] HRz Hv. apply (node_same s s' R inoz); try done. intros k Hk Hin.
    apply (grown_same s s' b b); try done. intros He. destruct Hin as (_ & Hf & _). congruence. }
  intros ino' raw1 H1. destruct (decide (ino' = ino)) as [->|Hne].
  - rewrite upd_same in H1. injection H1 as <-. exists raw. split; [done|]. intros [sl q] Hv.
    destruct (decide (sl = slot)) as [->|Hsl].
    + assert (iblk raw' slot = b) as Hr by (rewrite Hblk by apply Hv; by rewrite decide_True).
      destruct q as [|j q].
      * rewrite decide_True by done. by unfold node.
      * rewrite decide_False by (by intros [_ [=]]). unfold node. cbn [fst snd]. rewrite Hr, Hz, walk_0.
        destruct Hv as (_ & Hv2 & Hv3). cbn [fst snd] in *.
        apply walk_fresh; [|done|done]. apply Hnew. simpl in Hv2. lia.
    + rewrite decide_False by (by intros [_ [= ? _]]). rewrite (node_iblk s' raw raw').
      2:{ cbn [fst]. rewrite Hblk by apply Hv. by rewrite decide_False. }
      by apply (Hsame ino).
  - rewrite upd_other in H1 by done. exists raw1. split; [done|]. intros q Hv.
    rewrite decide_False by (by intros [? _]). by apply (Hsame ino').
Qed.

(** One more block, at one position, that was free before. *)
Definition grows (s : Fs) (R : Inodes) (s' : Fs) (R' : Inodes) (ino : Z) (p : Pos) (b : Z) : Prop :=
  ∀ ino' raw1, R' ino' = Some raw1 → ∃ raw0, R ino' = Some raw0 ∧
    ∀ q, valid q → node s' raw1 q = if decide (ino' = ino ∧ q = p) then b else node s raw0 q.

Lemma trees_grow s R s' R' ino p b :
  blocks_ok G s → trees_ok s R → isfree G s b = true → grows s R s' R' ino p b →
  (∀ c, isfree G s' c = isfree G s c && negb (b =? c)) →
  (∀ j raw, R' j = Some raw → zlen raw = g_isz G ∧ Forall is_byte raw) →
  trees_ok s' R'.
Proof using HG.
  intros Hs Ht Hb Hg Hfree Hraw.
  assert (∀ j raw1 raw0 q, R' j = Some raw1 → R j = Some raw0 → valid q → node s raw0 q ≠ 0 → node s raw0 q ≠ b) as Hold.
  { intros j raw1 raw0 q _ H0 Hq Hn He. destruct (to_node _ _ Ht j raw0 q H0 Hq Hn) as (_ & Hf & _). congruence. }
  split; [done| |].
  - intros j raw1 q H1 Hq Hn. destruct (Hg j raw1 H1) as (raw0 & H0 & He). rewrite He in * by done.
    destruct (decide _) as [_|_].
    + split; [by apply (isfree_range G s)|]. split; [by rewrite Hfree, Z.eqb_refl, andb_false_r|]. by apply (bo_data _ _ Hs).
    + destruct (to_node _ _ Ht j raw0 q H0 Hq Hn) as (A & B & C). split; [done|]. split; [by rewrite Hfree, B|done].
  - intros j raw1 q j' raw1' q' H1 H1' Hq Hq' He Hn.
    destruct (Hg j raw1 H1) as (raw0 & H0 & E0). destruct (Hg j' raw1' H1') as (raw0' & H0' & E0').
    rewrite (E0 q Hq) in *. rewrite (E0' q' Hq') in *.
    destruct (decide (j = ino ∧ q = p)) as [[-> ->]|_], (decide (j' = ino ∧ q' = p)) as [[-> ->]|_]; try done.
    + exfalso. by apply (Hold j' raw1' raw0' q'); [| | |rewrite <- He|].
    + exfalso. by apply (Hold j raw1 raw0 q).
    + by apply (to_inj _ _ Ht j raw0 q j' raw0' q').
Qed.

(** ** Data *)

(** A block at a leaf is not read as a pointer block. *)
Lemma node_leaf_write s s' R ino raw p :
  disk_ok G s → disk_ok G s' → trees_ok s R → R ino = Some raw → valid p → leaf p → node s raw p ≠ 0 →
  differ_in (eq (node s raw p)) s s' →
  ∀ ino' raw' q, R ino' = Some raw' → valid q → node s' raw' q = node s raw' q.
Proof using HG.
  intros Hd Hd' Ht HR Hp Hleaf Hn Hdf ino' raw' [sl q] HR' Hq. apply (node_same s s' R ino'); try done.
  intros k Hk Hin. pose proof (in_file_good s _ Hin) as [? ?].
  apply (differ_blk G HG (eq (node s raw p))); try done; [lia|]. intros He.
  destruct (to_inj _ _ Ht ino raw p ino' raw' (sl, take k q)) as [_ ->]; try done; [by apply valid_take|].
  destruct Hq as (_ & Hq & _). unfold leaf in Hleaf. cbn [fst snd] in *. rewrite length_take in Hleaf. lia.
Qed.

(** The invariant only sees the blocks of the trees and the free blocks. *)
Lemma trees_same s R s' R' :
  trees_ok s R → (∀ b, isfree G s' b = isfree G s b) →
  (∀ j raw1, R' j = Some raw1 → zlen raw1 = g_isz G ∧ Forall is_byte raw1 ∧
     ∃ raw0, R j = Some raw0 ∧ ∀ q, valid q → node s' raw1 q = node s raw0 q) →
  trees_ok s' R'.
Proof.
  intros Ht Hf HR. split.
  - intros j raw1 H1. by destruct (HR j raw1 H1) as (? & ? & _).
  - intros j raw1 q H1 Hq Hn. destruct (HR j raw1 H1) as (_ & _ & raw0 & H0 & He). rewrite He in * by done.
    destruct (to_node _ _ Ht j raw0 q H0 Hq Hn) as (A & B & C). split; [done|]. split; [by rewrite Hf|done].
  - intros j raw1 q j' raw1' q' H1 H1' Hq Hq' He Hn.
    destruct (HR j raw1 H1) as (_ & _ & raw0 & H0 & E0). destruct (HR j' raw1' H1') as (_ & _ & raw0' & H0' & E0').
    rewrite (E0 q Hq) in *. rewrite (E0' q' Hq') in *. by apply (to_inj _ _ Ht j raw0 q j' raw0' q').
Qed.

(** Fields other than the block slots do not matter. *)
Lemma trees_fields s R ino raw raw' :
  trees_ok s (upd R ino raw) → zlen raw' = g_isz G → Forall is_byte raw' → (∀ k, 0 ≤ k < 15 → iblk raw' k = iblk raw k) →
  trees_ok s (upd R ino raw').
Proof.
  intros Ht Hz Hb Hib. apply (trees_same s (upd R ino raw)); [done|done|]. intros j rawj Hj. destruct (decide (j = ino)) as [->|Hne].
  - rewrite upd_same in Hj. injection Hj as <-. split_and!; try done. exists raw. rewrite upd_same. split; [done|].
    intros q Hq. by apply node_iblk, Hib, Hq.
  - assert (upd R ino raw j = Some rawj) as Hj' by (by rewrite upd_other in * ). destruct (to_raw _ _ Ht j rawj Hj'). split_and!; try done. by exists rawj.
Qed.
End tree.
