(* ===== verification/Ext2Map.v ===== *)
(** * The ext2 file system: the block map

    [bmap] finds the block at the position of a file block.  When it has to
    allocate, the tree of the file gets the missing blocks of the path, each
    taken from the free blocks; nothing else of any file changes. *)

From S2P Require Import Prelude Text Bytes Ext2 Ext2Fs Ext2Disk Ext2Alloc Ext2Blocks Ext2Inode Ext2Tree.

(** ** Positions of file blocks *)

Section paths.
Context (G : Geo) (HG : geo_ok G).

Definition fpos (fblk : Z) : option Pos := block_path (pp G) fblk.

Lemma fpos_valid fblk p : 0 ≤ fblk → fpos fblk = Some p → valid G p ∧ leaf p.
Proof using HG.
  intros Hf. destruct (pp_range G HG) as [Hp _]. unfold fpos, block_path.
  repeat case_match; intros [= <-]; unfold valid, leaf, depth; cbn [fst snd length].
  all: try match goal with H : (_ <? _) = true |- _ => apply Z.ltb_lt in H end.
  all: repeat match goal with H : (_ <? _) = false |- _ => apply Z.ltb_ge in H end.
  - split; [|lia]. split_and!; [lia|lia|lia|constructor].
  - split; [|done]. split_and!; [lia|lia|done|repeat constructor; lia].
  - split; [|done]. split_and!; [lia|lia|done|]. repeat constructor; try (apply Z.mod_pos_bound; lia).
    + apply Z.div_pos; lia.
    + apply Z.div_lt_upper_bound; lia.
  - split; [|done]. split_and!; [lia|lia|done|]. repeat constructor; try (apply Z.mod_pos_bound; lia).
    + apply Z.div_pos; nia.
    + apply Z.div_lt_upper_bound; nia.
Qed.

Lemma fpos_inj f f' p : 0 ≤ f → 0 ≤ f' → fpos f = Some p → fpos f' = Some p → f = f'.
Proof using HG.
  intros Hf Hf'. destruct (pp_range G HG) as [Hp _]. set (n := pp G) in *. unfold fpos, block_path. fold n.
  repeat match goal with |- context [?a <? ?b] => destruct (Z.ltb_spec a b) end;
    intros E1 E2; try discriminate; rewrite <- E2 in E1; try discriminate E1; injection E1; intros; try lia.
  - pose proof (Z.div_mod (f - 12 - n) n ltac:(lia)). pose proof (Z.div_mod (f' - 12 - n) n ltac:(lia)). nia.
  - set (r := f - 12 - n - n * n) in *. set (r' := f' - 12 - n - n * n) in *.
    pose proof (Z.div_mod r n ltac:(lia)). pose proof (Z.div_mod r' n ltac:(lia)).
    rewrite <- !Z.div_div in * by lia.
    pose proof (Z.div_mod (r / n) n ltac:(lia)). pose proof (Z.div_mod (r' / n) n ltac:(lia)). nia.
Qed.
End paths.

(** ** Finding a block *)

Section bmap.
Context (G : Geo) (HG : geo_ok G).
Implicit Types (s : Fs) (R : Inodes).

Lemma ptrs_eq s : disk_ok G s → ptrs_per_block s = pp G.
Proof. intros Hd. unfold ptrs_per_block, pp. by geo Hd. Qed.

Definition spb : Z := g_bs G / 512.

Lemma spb_eq s : disk_ok G s → sectors_per_block s = spb.
Proof. intros Hd. unfold sectors_per_block, spb. by geo Hd. Qed.

Lemma spb_range : 2 ≤ spb ≤ 128.
Proof using HG. pose proof (go_bs G HG). pose proof (go_bs_mul G HG). unfold spb. Z.to_euclidean_division_equations; lia. Qed.

Lemma read_ptr_eq s b i :
  disk_ok G s → good_block G b → 0 ≤ i < pp G → read_ptr b i s = Some (inr (ptr s b i), s).
Proof using HG.
  intros Hd Hb Hi. unfold read_ptr, try_bind, mbind, exec_bind. rewrite (read_block_eq G HG s b Hd Hb).
  destruct (pp_range G HG) as [_ Hp]. unfold need. rewrite rd_ok; [done|lia|].
  rewrite (zlen_blk G HG) by (done || unfold good_block in Hb; lia). simpl. lia.
Qed.

(** The position of [bmap]'s result, [None] when the file would be too big. *)
Lemma bmap_walk_find s R ino raw slot pre path :
  disk_ok G s → trees_ok G s R → R ino = Some raw → valid G (slot, pre ++ path) → node s raw (slot, pre) ≠ 0 →
  bmap_walk path (node s raw (slot, pre)) false (s, raw) = Some (inr (node s raw (slot, pre ++ path)), (s, raw)).
Proof using HG.
  intros Hd Ht HR. revert pre. induction path as [|i path IH]; intros pre Hv Hn; [by rewrite app_nil_r|].
  pose proof (valid_prefix G slot pre (i :: path) Hv) as Hvp.
  pose proof (in_file_good G HG s _ (to_node _ _ _ Ht ino raw _ HR Hvp Hn)) as Hgood.
  assert (0 ≤ i < pp G) as Hi. { destruct Hv as (_ & _ & Hv). apply Forall_app in Hv as [_ Hv]. by apply Forall_cons in Hv as [? _]. }
  simpl. unfold try_bind at 1, mbind at 1, exec_bind at 1, on_fs at 1. rewrite (read_ptr_eq s _ i Hd Hgood Hi).
  assert (ptr s (node s raw (slot, pre)) i = node s raw (slot, pre ++ [i])) as He.
  { rewrite node_app. simpl. by rewrite (proj2 (Z.eqb_neq _ 0)). }
  rewrite He. replace (pre ++ i :: path) with ((pre ++ [i]) ++ path) in * by (by rewrite <- app_assoc). destruct (Z.eqb_spec (node s raw (slot, pre ++ [i])) 0) as [Hz|Hnz].
  - rewrite (node_app s raw slot (pre ++ [i])), Hz, walk_0. done.
  - apply IH; done.
Qed.

Lemma goal_ok s ino :
  disk_ok G s → is_ino G ino →
  chk32 (ino - 1) = Some (ino - 1) ∧
  ∃ goal, chk32 (g_first G + (ino - 1) / g_ipg G * g_bpg G) = Some goal ∧ 0 ≤ goal.
Proof using HG.
  intros Hd Hi. pose proof (ino_group_ok G HG ino Hi) as Hg. pose proof (group_range G HG _ Hg).
  pose proof (go_first G HG). pose proof (go_blocks G HG). pose proof (go_bpg G HG). pose proof (go_inodes G HG). pose proof (go_inodes32 G HG).
  unfold is_ino, is_group, ino_group in *. split; [apply chk32_ok; lia|].
  exists (g_first G + (ino - 1) / g_ipg G * g_bpg G). split; [apply chk32_ok; nia|nia].
Qed.

Lemma raw_big s R ino raw : trees_ok G s R → R ino = Some raw → 128 ≤ zlen raw.
Proof using HG. intros Ht HR. destruct (to_raw _ _ _ Ht ino raw HR) as [-> _]. pose proof (go_isz G HG). lia. Qed.

Definition found (s : Fs) (raw : Inode) (fblk : Z) : Error + Z :=
  match fpos G fblk with None => inl FileTooBig | Some p => inr (node s raw p) end.

Lemma bmap_find s R ino raw fblk :
  disk_ok G s → trees_ok G s R → R ino = Some raw → is_ino G ino → 0 ≤ fblk →
  bmap ino fblk false (s, raw) = Some (found s raw fblk, (s, raw)).
Proof using HG.
  intros Hd Ht HR Hi Hf. destruct (goal_ok s ino Hd Hi) as [G1 (goal & G2 & _)].
  unfold bmap, gets, need, mbind, exec_bind. cbn [fst]. rewrite (ptrs_eq s Hd). geo Hd. rewrite G1, G2. unfold found, fpos.
  destruct (block_path (pp G) fblk) as [[slot path]|] eqn:E; [|done].
  destruct (fpos_valid G HG fblk _ Hf E) as [Hv Hl]. unfold of_inode.
  rewrite iget_ok; [|by eapply raw_big|by apply Hv]. change (fget (i_block slot) raw) with (node s raw (slot, [])).
  destruct (Z.eqb_spec (node s raw (slot, [])) 0) as [Hz|Hnz].
  - unfold ok, mret, exec_ret. rewrite <- (app_nil_l path), node_app, Hz, walk_0. done.
  - exact (bmap_walk_find s R ino raw slot [] path Hd Ht HR Hv Hnz).
Qed.
End bmap.

Section grow.
Context (G : Geo) (HG : geo_ok G).
Implicit Types (s : Fs) (R : Inodes).

(** ** Writes outside the bit maps *)

Lemma blocks_ok_frame P s s' :
  blocks_ok G s → disk_ok G s' → differ_in P s s' → (∀ b, P b → ¬ is_bb G b) →
  groups s' = groups s → sb s' = sb s → read_only s' = read_only s →
  blocks_ok G s' ∧ ∀ b, isfree G s' b = isfree G s b.
Proof using HG.
  intros Hs Hd' Hdf HP Hg Hsb Hro. pose proof (bo_disk _ _ Hs) as Hd.
  assert (∀ g, is_group G g → blk s' (bb_of G g) = blk s (bb_of G g)) as Hbb.
  { intros g Hgg. pose proof (bb_good G HG g Hgg) as [? ?]. apply (differ_blk G HG P); try done; [lia|].
    intros Hb. apply (HP _ Hb). by exists g. }
  assert (∀ b, isfree G s' b = isfree G s b) as Hf.
  { intros b. unfold isfree. destruct (Z.leb_spec (g_first G) b); [|done]. destruct (Z.ltb_spec b (g_blocks G)); [|done].
    destruct (block_group G HG b ltac:(lia)) as [Hgg _]. by rewrite Hbb. }
  split; [|done]. split; [done|by rewrite Hro; apply (bo_rw _ _ Hs)| | |].
  - intros n d Hn. rewrite Hg in Hn. rewrite (bo_count _ _ Hs n d Hn). destruct (group_places G s n d Hd Hn) as [Hp Hgn].
    replace (block_bitmap d) with (bb_of G (Z.of_nat n)) by (unfold bb_of; by rewrite <- Hp). by rewrite Hbb.
  - unfold sbv. rewrite Hsb, Hg. apply (bo_total _ _ Hs).
  - intros b. rewrite Hf. apply (bo_data _ _ Hs).
Qed.

Lemma put_block_frame s b v :
  blocks_ok G s → good_block G b → ¬ is_bb G b → zlen v = g_bs G → Forall is_byte v →
  blocks_ok G (put_block b v s) ∧ (∀ c, isfree G (put_block b v s) c = isfree G s c).
Proof using HG.
  intros Hs Hb Hn Hz Hv. pose proof (bo_disk _ _ Hs) as Hd.
  apply (blocks_ok_frame (eq b) s); try done; [by apply (disk_ok_put_block G HG)|by apply (differ_put G HG)|by intros ? <-].
Qed.

(** ** One step *)

Lemma ptr_range s b i : disk_ok G s → good_block G b → 0 ≤ i < pp G → 0 ≤ ptr s b i < U32.
Proof using HG.
  intros Hd Hb Hi. destruct (pp_range G HG) as [_ Hp].
  pose proof (field_range 4 (blk s b) (i * 4) (is_byte_blk G s b Hd) ltac:(lia)) as Hf. apply Hf.
  rewrite (zlen_blk G HG) by (done || unfold good_block in Hb; lia). simpl. lia.
Qed.

Lemma zeros_block : zlen (zeros (g_bs G)) = g_bs G ∧ Forall is_byte (zeros (g_bs G)).
Proof using HG. pose proof (go_bs G HG). split; [apply zlen_zeros; lia|apply is_byte_zeros]. Qed.

(** The state after a block was taken, cleared and linked. *)
Definition link_state (b c i : Z) (s1 : Fs) : Fs :=
  let s2 := put_block b (zeros (g_bs G)) s1 in
  put_block c (paste (blk s2 c) (i * 4) (le_bytes 4 b)) s2.

Lemma link_state_ok s s1 b c i :
  blocks_ok G s → isfree G s b = true → took G b s s1 → in_file G s c → 0 ≤ i < pp G →
  let s3 := link_state b c i s1 in
  blocks_ok G s3 ∧ (∀ x, isfree G s3 x = isfree G s1 x) ∧ hooked G s s3 b c i ∧ inode_side s3 = inode_side s.
Proof using HG.
  intros Hs Hb Htk Hc Hi s3. pose proof (tk_ok _ _ _ _ Htk) as Hs1. pose proof (bo_disk _ _ Hs) as Hd.
  pose proof (free_good G HG s b Hs Hb) as Hgb. pose proof (in_file_good G HG s c Hc) as Hgc.
  assert (b ≠ c) as Hbc by (intros ->; destruct Hc as (_ & Hf & _); congruence).
  assert (¬ is_bb G b) as Hnb by (intros (g & Hg & ->); by apply (bo_data _ _ Hs _ Hb), bb_meta).
  pose proof (file_not_bb G s c Hc) as Hnc. destruct zeros_block as [Hz1 Hz2]. destruct (pp_range G HG) as [_ Hp].
  destruct (put_block_frame s1 b _ Hs1 Hgb Hnb Hz1 Hz2) as [Hs2 Hf2]. set (s2 := put_block b (zeros (g_bs G)) s1) in *.
  pose proof (bo_disk _ _ Hs1) as Hd1. pose proof (bo_disk _ _ Hs2) as Hd2.
  assert (zlen (blk s2 c) = g_bs G) as Hzc by (apply (zlen_blk G HG); [done|unfold good_block in Hgc; lia]).
  set (v := paste (blk s2 c) (i * 4) (le_bytes 4 b)).
  assert (zlen v = g_bs G) as Hzv by (unfold v; rewrite zlen_paste; rewrite ?zlen_le_bytes; simpl; lia).
  assert (Forall is_byte v) as Hbv by (apply is_byte_paste; [by apply (is_byte_blk G)|apply le_bytes_byte]).
  destruct (put_block_frame s2 c v Hs2 Hgc Hnc Hzv Hbv) as [Hs3 Hf3]. fold s3 in Hs3, Hf3. pose proof (bo_disk _ _ Hs3) as Hd3.
  split; [done|]. split; [intros x; by rewrite Hf3, Hf2|]. split; [|apply (tk_rest _ _ _ _ Htk)].
  assert (blk s2 c = blk s c) as Hc2.
  { unfold s2. rewrite (blk_put_other G HG) by (done || unfold good_block in *; lia).
    apply (differ_blk G HG (is_bb G)); try done; [apply (tk_disk _ _ _ _ Htk)|unfold good_block in *; lia]. }
  split; [done| | |].
  - intros x Hx Hn. unfold grown in Hn. rewrite (geo_bs _ _ Hd) in Hn.
    pose proof (differ_put G HG s2 c v Hd2 Hgc Hzv) as D3. pose proof (differ_put G HG s1 b _ Hd1 Hgb Hz1) as D2.
    fold s2 in D2. change (put_block c v s2) with s3 in D3.
    rewrite (D3 x Hx) by (rewrite (geo_bs _ _ Hd2); intros He; apply Hn; by right; right).
    rewrite (D2 x Hx) by (rewrite (geo_bs _ _ Hd1); intros He; apply Hn; by right; left).
    apply (tk_disk _ _ _ _ Htk); [done|]. rewrite (geo_bs _ _ Hd). tauto.
  - unfold s3, link_state. fold s2. fold v. rewrite (blk_put_other G HG) by (done || unfold good_block in *; lia || by intros ->).
    by apply (blk_put_same G HG).
  - intros j Hj. unfold ptr. unfold s3, link_state. fold s2. fold v. rewrite (blk_put_same G HG) by done. unfold v.
    pose proof (go_blocks G HG). destruct (decide (j = i)) as [->|Hji].
    + rewrite field_same by (rewrite ?Hzc; simpl; lia). apply Z.mod_small. unfold good_block, U32 in *. simpl. lia.
    + rewrite field_other by (rewrite ?Hzc; simpl; lia). by rewrite Hc2.
Qed.
(** ** What a mapping changes *)

Definition keeps (raw raw' : Inode) : Prop :=
  ∀ f, field_ok f → f ≠ i_sectors → (∀ k, f ≠ i_block k) → fget f raw' = fget f raw.

(** From [(s, raw)] to [(s', raw')] at most [n] blocks were put on the path to
    [tgt] in the tree of [ino]. *)
Record mapping R (ino : Z) (tgt : Pos) (n : Z) s (raw : Inode) s' (raw' : Inode) : Prop := {
  mp_ok : blocks_ok G s';
  mp_trees : trees_ok G s' (upd R ino raw');
  mp_other : ∀ j raw0 q, j ≠ ino → R j = Some raw0 → valid G q → node s' raw0 q = node s raw0 q;
  mp_nodes : ∀ q, valid G q → node s' raw' q = node s raw q ∨
    (q.1 = tgt.1 ∧ q.2 `prefix_of` tgt.2 ∧ node s raw q = 0 ∧ isfree G s (node s' raw' q) = true);
  mp_new : node s raw tgt = 0 → tgt.2 ≠ [] → node s' raw' tgt ≠ 0 → blk s' (node s' raw' tgt) = zeros (g_bs G);
  mp_data : ∀ x, in_file G s x → (∀ k, (k < length tgt.2)%nat → x ≠ node s raw (tgt.1, take k tgt.2)) → blk s' x = blk s x;
  mp_free : ∀ x, isfree G s x = false → isfree G s' x = false;
  mp_side : inode_side s' = inode_side s;
  mp_differ : differ_in (λ x, is_bb G x ∨ ¬ is_meta G x) s s';
  mp_keeps : keeps raw raw';
  mp_sectors : fget i_sectors raw' ≤ fget i_sectors raw + n * spb G;
}.

Lemma trees_ok_ext s R R' : (∀ j, R' j = R j) → trees_ok G s R → trees_ok G s R'.
Proof.
  intros He [H1 H2 H3]. split.
  - intros j raw. rewrite He. apply H1.
  - intros j raw p. rewrite He. apply H2.
  - intros j raw p j' raw' p'. rewrite !He. apply H3.
Qed.

Lemma upd_upd R ino a b j : upd (upd R ino a) ino b j = upd R ino b j.
Proof. unfold upd. by destruct (decide _). Qed.

Lemma upd_id R ino a j : R ino = Some a → upd R ino a j = R j.
Proof. intros HR. unfold upd. by destruct (decide _) as [->|]. Qed.

Lemma mapping_refl R ino tgt n s raw :
  blocks_ok G s → trees_ok G s R → R ino = Some raw → 0 ≤ n → mapping R ino tgt n s raw s raw.
Proof using HG.
  intros Hs Ht HR Hn. pose proof spb_range G HG. split; try done.
  - by apply (trees_ok_ext s R); [intros j; apply upd_id|].
  - by left.
  - nia.
Qed.

Lemma mapping_file R ino tgt n s raw s' raw' x : mapping R ino tgt n s raw s' raw' → in_file G s x → in_file G s' x.
Proof. intros Hm (H1 & H2 & H3). split; [done|]. split; [by apply (mp_free _ _ _ _ _ _ _ _ Hm)|done]. Qed.

Lemma mapping_trans R ino tgt n m s raw s1 raw1 s2 raw2 :
  valid G tgt → blocks_ok G s → trees_ok G s R → R ino = Some raw →
  mapping R ino tgt n s raw s1 raw1 → mapping (upd R ino raw1) ino tgt m s1 raw1 s2 raw2 →
  mapping R ino tgt (n + m) s raw s2 raw2.
Proof using HG.
  intros Hv Hs Ht HR H1 H2. pose proof (bo_disk _ _ Hs) as Hd. pose proof (bo_disk _ _ (mp_ok _ _ _ _ _ _ _ _ H1)) as Hd1.
  assert (∀ x, isfree G s1 x = true → isfree G s x = true) as Hback.
  { intros x Hx. destruct (isfree G s x) eqn:E; [done|]. by rewrite (mp_free _ _ _ _ _ _ _ _ H1 x E) in Hx. }
  split.
  - apply (mp_ok _ _ _ _ _ _ _ _ H2).
  - eapply trees_ok_ext; [|apply (mp_trees _ _ _ _ _ _ _ _ H2)]. intros j. by rewrite upd_upd.
  - intros j raw0 q Hj HRj Hq. rewrite (mp_other _ _ _ _ _ _ _ _ H2 j raw0 q) by (rewrite ?upd_other; done).
    by apply (mp_other _ _ _ _ _ _ _ _ H1 j).
  - intros q Hq. destruct (mp_nodes _ _ _ _ _ _ _ _ H1 q Hq) as [E1|(A1 & B1 & C1 & F1)],
      (mp_nodes _ _ _ _ _ _ _ _ H2 q Hq) as [E2|(A2 & B2 & C2 & F2)].
    + left. by rewrite E2.
    + right. split_and!; try done; [by rewrite <- E1|by apply Hback].
    + right. split_and!; try done. by rewrite E2.
    + right. split_and!; try done. by apply Hback.
  - intros Hz Hne Hnz. destruct (decide (node s1 raw1 tgt = 0)) as [Hz1|Hnz1]; [by apply (mp_new _ _ _ _ _ _ _ _ H2)|].
    destruct (mp_nodes _ _ _ _ _ _ _ _ H2 tgt Hv) as [->|(_ & _ & ? & _)]; [|done].
    rewrite <- (mp_new _ _ _ _ _ _ _ _ H1) by done. pose proof (mp_trees _ _ _ _ _ _ _ _ H1) as Ht1.
    apply (mp_data _ _ _ _ _ _ _ _ H2).
    + by apply (to_node _ _ _ Ht1 ino raw1); [apply upd_same| |].
    + intros k Hk He. destruct tgt as [sl q]. cbn [fst snd] in *.
      destruct (to_inj _ _ _ Ht1 ino raw1 (sl, q) ino raw1 (sl, take k q)) as [_ Hp]; try done; try apply upd_same; [by apply valid_take|].
      injection Hp as Hp. apply (f_equal length) in Hp. rewrite length_take in Hp. lia.
  - intros x Hx Hk. rewrite (mp_data _ _ _ _ _ _ _ _ H2 x); [by apply (mp_data _ _ _ _ _ _ _ _ H1)|by eapply mapping_file|].
    intros k Hlt He. destruct tgt as [sl q]. cbn [fst snd] in *.
    destruct (mp_nodes _ _ _ _ _ _ _ _ H1 (sl, take k q)) as [E1|(_ & _ & _ & F1)]; [by apply valid_take| |].
    + by apply (Hk k Hlt); rewrite <- E1.
    + destruct Hx as (_ & Hx & _). rewrite <- He in F1. congruence.
  - intros x Hx. apply (mp_free _ _ _ _ _ _ _ _ H2). by apply (mp_free _ _ _ _ _ _ _ _ H1).
  - by rewrite (mp_side _ _ _ _ _ _ _ _ H2), (mp_side _ _ _ _ _ _ _ _ H1).
  - eapply differ_mono; [|eapply differ_trans; [|apply (mp_differ _ _ _ _ _ _ _ _ H1)|apply (mp_differ _ _ _ _ _ _ _ _ H2)]].
    + intros b. cbn beta. tauto.
    + by rewrite (geo_bs _ _ Hd), (geo_bs _ _ Hd1).
  - intros f Hf H3 H4. by rewrite (mp_keeps _ _ _ _ _ _ _ _ H2), (mp_keeps _ _ _ _ _ _ _ _ H1).
  - pose proof (mp_sectors _ _ _ _ _ _ _ _ H1). pose proof (mp_sectors _ _ _ _ _ _ _ _ H2). lia.
Qed.

(** ** A step of the walk *)

Definition charged (raw : Inode) : Inode := fset i_sectors (fget i_sectors raw + spb G) raw.

Lemma iblk_fget raw k : iblk raw k = fget (i_block k) raw.
Proof. done. Qed.

Lemma counted_raw raw :
  zlen raw = g_isz G → Forall is_byte raw → zlen (charged raw) = g_isz G ∧ Forall is_byte (charged raw) ∧
  (∀ k, 0 ≤ k < 15 → iblk (charged raw) k = iblk raw k) ∧ keeps raw (charged raw).
Proof using HG.
  intros Hz Hb. pose proof (go_isz G HG). unfold charged. split_and!.
  - rewrite zlen_fset; [done|lia|done].
  - by apply is_byte_fset.
  - intros k Hk. rewrite !iblk_fget. apply fget_other; [lia|done|done|done].
  - intros f Hf Hne _. apply fget_other; [lia|done|done|done].
Qed.

Lemma linked_mapping R ino tgt s raw s1 slot pre i b :
  blocks_ok G s → trees_ok G s R → R ino = Some raw → valid G tgt →
  tgt.1 = slot → pre ++ [i] `prefix_of` tgt.2 → node s raw (slot, pre) ≠ 0 → ptr s (node s raw (slot, pre)) i = 0 →
  isfree G s b = true → took G b s s1 → fget i_sectors raw + spb G < U32 →
  let s3 := link_state b (node s raw (slot, pre)) i s1 in
  mapping R ino tgt 1 s raw s3 (charged raw) ∧ node s3 (charged raw) (slot, pre ++ [i]) = b.
Proof using HG.
  intros Hs Ht HR Hv Hsl Hpre Hc Hz Hb Htk Hsec s3. pose proof (bo_disk _ _ Hs) as Hd.
  destruct tgt as [sl path]. cbn [fst snd] in Hsl, Hpre. subst sl. destruct Hpre as [rest Hpath].
  assert (valid G (slot, pre ++ [i])) as Hvi by (rewrite Hpath in Hv; by apply valid_prefix in Hv).
  pose proof (valid_prefix G slot pre [i] Hvi) as Hvp. assert (0 ≤ i < pp G) as Hi.
  { destruct Hvi as (_ & _ & Hf). apply Forall_app in Hf as [_ Hf]. by apply Forall_cons in Hf as [? _]. }
  set (c := node s raw (slot, pre)) in *. pose proof (to_node _ _ _ Ht ino raw _ HR Hvp Hc) as Hcf. fold c in Hcf.
  destruct (link_state_ok s s1 b c i Hs Hb Htk Hcf Hi) as (Hs3 & Hf3 & Hl & Hside). fold s3 in Hs3, Hf3, Hl, Hside.
  destruct (to_raw _ _ _ Ht ino raw HR) as [Hzr Hbr]. destruct (counted_raw raw Hzr Hbr) as (Hz' & Hb' & Hib & Hkp).
  pose proof (node_linked G HG s s3 R ino raw slot pre i b Hd Ht HR Hvi Hb Hc Hz Hl) as Hnode.
  assert (∀ q, valid G q → node s3 (charged raw) q = if decide (q = (slot, pre ++ [i])) then b else node s raw q) as Hme.
  { intros q Hq. rewrite (node_iblk s3 raw (charged raw)) by (apply Hib, Hq). rewrite (Hnode ino raw q HR Hq).
    destruct (decide (q = _)); [by rewrite decide_True|]. rewrite decide_False; [done|]. by intros [_ ?]. }
  assert (∀ j raw0 q, j ≠ ino → R j = Some raw0 → valid G q → node s3 raw0 q = node s raw0 q) as Hoth.
  { intros j raw0 q Hj HRj Hq. rewrite (Hnode j raw0 q HRj Hq). rewrite decide_False; [done|]. by intros [? _]. }
  assert (node s raw (slot, pre ++ [i]) = 0) as Hz0.
  { rewrite node_app. fold c. simpl. by rewrite (proj2 (Z.eqb_neq c 0)), Hz. }
  split; [|by rewrite Hme, decide_True]. split; try done.
  - apply (trees_grow G HG s R s3 _ ino (slot, pre ++ [i]) b); try done.
    + intros j raw1 Hj. destruct (decide (j = ino)) as [->|Hne].
      * rewrite upd_same in Hj. injection Hj as <-. exists raw. split; [done|]. intros q Hq. rewrite Hme by done.
        destruct (decide (q = _)); [by rewrite decide_True|]. rewrite decide_False; [done|]. by intros [_ ?].
      * rewrite upd_other in Hj by done. exists raw1. split; [done|]. intros q Hq. rewrite decide_False by (by intros [? _]). by apply (Hoth j).
    + intros x. rewrite Hf3. apply (tk_free _ _ _ _ Htk).
    + intros j raw1 Hj. destruct (decide (j = ino)) as [->|Hne].
      * rewrite upd_same in Hj. by injection Hj as <-.
      * rewrite upd_other in Hj by done. by apply (to_raw _ _ _ Ht j).
  - intros q Hq. rewrite Hme by done. destruct (decide (q = _)) as [->|]; [|by left]. right. cbn [fst snd].
    split_and!; try done. by exists rest.
  - intros _ _. rewrite Hme by done. destruct (decide (_ = _)) as [_|Hne]; [|].
    + intros _. apply (li_new _ _ _ _ _ _ Hl).
    + intros Hnz. exfalso. apply Hnz. rewrite Hpath. rewrite node_app, Hz0. apply walk_0.
  - intros x Hx Hk. apply (grown_same G HG s s3 b c); try done; [by apply (bo_disk _ _ Hs3)|apply (li_differ _ _ _ _ _ _ Hl)|].
    intros ->. cbn [fst snd] in Hk. apply (Hk (length pre)).
    + rewrite Hpath, !length_app. simpl. lia.
    + by rewrite Hpath, <- app_assoc, take_app_length.
  - intros x Hx. rewrite Hf3, (tk_free _ _ _ _ Htk), Hx. done.
  - eapply differ_mono; [|apply (li_differ _ _ _ _ _ _ Hl)]. intros x [Hx|[->| ->]]; [by left| |].
    + right. by apply (bo_data _ _ Hs).
    + right. by destruct Hcf as (_ & _ & ?).
  - unfold charged. pose proof (spb_range G HG). pose proof (go_isz G HG).
    rewrite fget_same; [lia|lia|done|]. pose proof (fget_range i_sectors raw ltac:(lia) I Hbr). change (i_bound i_sectors) with U32 in *. lia.
Qed.
(** ** The first step, at a slot of the inode *)

Definition rooted (slot b : Z) (raw : Inode) : Inode := charged (fset (i_block slot) b raw).

Lemma rooted_raw slot b raw :
  zlen raw = g_isz G → Forall is_byte raw → 0 ≤ slot < 15 → 0 ≤ b < U32 →
  zlen (rooted slot b raw) = g_isz G ∧ Forall is_byte (rooted slot b raw) ∧
  (∀ k, 0 ≤ k < 15 → iblk (rooted slot b raw) k = if decide (k = slot) then b else iblk raw k) ∧
  keeps raw (rooted slot b raw) ∧
  fget i_sectors (fset (i_block slot) b raw) = fget i_sectors raw.
Proof using HG.
  intros Hz Hb Hs Hv. pose proof (go_isz G HG). unfold rooted.
  assert (zlen (fset (i_block slot) b raw) = g_isz G) as Hz1 by (rewrite zlen_fset; [done|lia|done]).
  destruct (counted_raw (fset (i_block slot) b raw) Hz1) as (A & B & C & E); [by apply is_byte_fset|].
  split_and!; [done|done| | |].
  - intros k Hk. rewrite C by done. rewrite !iblk_fget. destruct (decide (k = slot)) as [->|Hne].
    + apply fget_same; [lia|done|done].
    + apply fget_other; [lia|done|done|congruence].
  - intros f Hf H1 H2. rewrite E by done. apply fget_other; [lia|done|done|by apply H2].
  - apply fget_other; [lia|done|done|done].
Qed.

Lemma rooted_mapping R ino s raw s1 s2 slot path b :
  blocks_ok G s → trees_ok G s R → R ino = Some raw → valid G (slot, path) → leaf (slot, path) →
  iblk raw slot = 0 → isfree G s b = true → took G b s s1 → fget i_sectors raw + spb G < U32 →
  s2 = (if path then s1 else put_block b (zeros (g_bs G)) s1) →
  mapping R ino (slot, path) 1 s raw s2 (rooted slot b raw) ∧ node s2 (rooted slot b raw) (slot, []) = b.
Proof using HG.
  intros Hs Ht HR Hv Hleaf Hz Hb Htk Hsec E2. pose proof (bo_disk _ _ Hs) as Hd. pose proof (tk_ok _ _ _ _ Htk) as Hs1.
  pose proof (free_good G HG s b Hs Hb) as Hgb. pose proof (go_blocks G HG).
  assert (¬ is_bb G b) as Hnb by (intros (g & Hg & ->); by apply (bo_data _ _ Hs _ Hb), bb_meta).
  destruct zeros_block as [Hz1 Hz2]. destruct (to_raw _ _ _ Ht ino raw HR) as [Hzr Hbr].
  destruct (rooted_raw slot b raw Hzr Hbr ltac:(apply Hv) ltac:(unfold good_block in Hgb; lia)) as (Hz' & Hb' & Hib & Hkp & Hsc).
  destruct (put_block_frame s1 b _ Hs1 Hgb Hnb Hz1 Hz2) as [Hsp Hfp].
  assert (blocks_ok G s2 ∧ (∀ x, isfree G s2 x = isfree G s1 x) ∧ differ_in (grown G b b) s s2 ∧
          (path ≠ [] → blk s2 b = zeros (g_bs G)) ∧ inode_side s2 = inode_side s) as (Hs2 & Hf2 & Hdf & Hnew & Hside).
  { pose proof (bo_disk _ _ Hs1) as Hd1. destruct path as [|i path]; subst s2.
    - split_and!; try done; [|apply (tk_rest _ _ _ _ Htk)]. eapply differ_mono; [|apply (tk_disk _ _ _ _ Htk)]. by left.
    - split_and!; try done; [| |apply (tk_rest _ _ _ _ Htk)].
      + eapply differ_mono; [|eapply differ_trans; [|apply (tk_disk _ _ _ _ Htk)|by apply (differ_put G HG)]].
        * intros x [Hx| <-]; [by left|by right; left].
        * by rewrite (geo_bs _ _ Hd), (geo_bs _ _ Hd1).
      + intros _. by apply (blk_put_same G HG). }
  pose proof (bo_disk _ _ Hs2) as Hd2.
  assert ((0 < depth slot)%nat → blk s2 b = zeros (g_bs G)) as Hnew'.
  { intros Hdep. apply Hnew. intros ->. unfold leaf in Hleaf. simpl in Hleaf. lia. }
  pose proof (node_rooted G HG s s2 R ino raw (rooted slot b raw) slot b Hd Hd2 Ht HR Hb Hz Hdf Hnew' Hib) as Hg.
  assert (∀ q, valid G q → node s2 (rooted slot b raw) q = if decide (q = (slot, [])) then b else node s raw q) as Hme.
  { intros q Hq. destruct (Hg ino _ (upd_same _ _ _)) as (raw0 & H0 & He). rewrite HR in H0. injection H0 as <-.
    rewrite He by done. destruct (decide (q = _)); [by rewrite decide_True|]. rewrite decide_False; [done|]. by intros [_ ?]. }
  assert (valid G (slot, [])) as Hv0 by (by apply (valid_prefix G slot [] path)).
  split; [|by rewrite Hme, decide_True]. split; try done.
  - apply (trees_grow G HG s R s2 _ ino (slot, []) b); try done.
    + intros x. rewrite Hf2. apply (tk_free _ _ _ _ Htk).
    + intros j raw1 Hj. destruct (decide (j = ino)) as [->|Hne].
      * rewrite upd_same in Hj. by injection Hj as <-.
      * rewrite upd_other in Hj by done. by apply (to_raw _ _ _ Ht j).
  - intros j raw0 q Hj HRj Hq. destruct (Hg j raw0) as (raw0' & H0 & He); [by rewrite upd_other|].
    rewrite HRj in H0. injection H0 as <-. rewrite He by done. rewrite decide_False; [done|]. by intros [? _].
  - intros q Hq. rewrite Hme by done. destruct (decide (q = _)) as [->|]; [|by left]. right. cbn [fst snd].
    split_and!; try done. apply prefix_nil.
  - intros H0 Hne Hnz. cbn [snd] in Hne. rewrite Hme in * by done. destruct (decide (_ = _)) as [[= ->]|]; done.
  - intros x Hx Hk. apply (grown_same G HG s s2 b b); try done. intros ->. destruct Hx as (_ & Hx & _). congruence.
  - intros x Hx. rewrite Hf2, (tk_free _ _ _ _ Htk), Hx. done.
  - eapply differ_mono; [|exact Hdf]. intros x [Hx|[->| ->]]; [by left| |]; right; by apply (bo_data _ _ Hs).
  - unfold rooted, charged. rewrite Hsc. pose proof (spb_range G HG). pose proof (go_isz G HG).
    rewrite fget_same; [lia|rewrite zlen_fset; [lia|lia|apply Hv]|done|].
    pose proof (fget_range i_sectors raw ltac:(lia) I Hbr). change (i_bound i_sectors) with U32 in *. lia.
Qed.

(** ** Allocating along the path *)

Lemma wp_add_sectors s (raw : Inode) Q :
  disk_ok G s → zlen raw = g_isz G → Forall is_byte raw → fget i_sectors raw + spb G < U32 →
  Q tt (s, charged raw) → wp add_sectors Q (s, raw).
Proof using HG.
  intros Hd Hz Hb Hr HQ. pose proof (go_isz G HG). pose proof (spb_range G HG).
  pose proof (fget_range i_sectors raw ltac:(lia) I Hb). unfold add_sectors. ie_steps. cbn [fst].
  eapply wp_of_inode; [apply iget_ok; [lia|done]|]. rewrite (spb_eq G s Hd), chk32_ok by lia. ie_steps.
  eapply wp_on_inode; [apply iset_ok; [lia|done]|]. done.
Qed.

(** The outcome of a call with [alloc]: the block, or no space left. *)
Definition alloc_post R (ino : Z) (tgt : Pos) (n : Z) s (raw : Inode) (r : Error + Z) (t : Fs * Inode) : Prop :=
  mapping R ino tgt n s raw t.1 t.2 ∧
  match r with
  | inr b => b = node t.1 t.2 tgt ∧ b ≠ 0
  | inl e => e = NoSpace ∧ sbv s_free_blocks t.1 = 0 ∧ node t.1 t.2 tgt = 0
  end.

Lemma wp_bmap_walk R ino slot path pre s raw Q :
  blocks_ok G s → trees_ok G s R → R ino = Some raw → valid G (slot, pre ++ path) →
  node s raw (slot, pre) ≠ 0 → fget i_sectors raw + zlen path * spb G < U32 →
  (∀ r t, alloc_post R ino (slot, pre ++ path) (zlen path) s raw r t → Q r t) →
  wp (bmap_walk path (node s raw (slot, pre)) true) Q (s, raw).
Proof using HG.
  revert R pre s raw Q. induction path as [|i path IH]; intros R pre s raw Q Hs Ht HR Hv Hn Hsec HQ.
  { simpl. ie_steps. apply HQ. rewrite app_nil_r. split; [by apply mapping_refl|done]. }
  pose proof (bo_disk _ _ Hs) as Hd. pose proof (valid_prefix G slot pre (i :: path) Hv) as Hvp.
  pose proof (to_node _ _ _ Ht ino raw _ HR Hvp Hn) as Hcf. pose proof (in_file_good G HG s _ Hcf) as Hgood.
  assert (0 ≤ i < pp G) as Hi. { destruct Hv as (_ & _ & Hv). apply Forall_app in Hv as [_ Hv]. by apply Forall_cons in Hv as [? _]. }
  destruct (to_raw _ _ _ Ht ino raw HR) as [Hzr Hbr]. rewrite zlen_cons in *. pose proof (zlen_nonneg path). pose proof (spb_range G HG).
  replace (pre ++ i :: path) with ((pre ++ [i]) ++ path) in * by (by rewrite <- app_assoc).
  assert (ptr s (node s raw (slot, pre)) i = node s raw (slot, pre ++ [i])) as He.
  { rewrite node_app. simpl. by rewrite (proj2 (Z.eqb_neq _ 0)). }
  simpl. ie_steps. eapply wp_eq; [by apply (read_ptr_eq G HG)|]. cbn beta iota.
  destruct (Z.eqb_spec (ptr s (node s raw (slot, pre)) i) 0) as [Hz|Hnz].
  - rewrite chk32_ok by (pose proof (go_blocks G HG); unfold good_block in Hgood; lia). ie_steps.
    apply (wp_alloc_block G HG); [done|unfold good_block in Hgood; lia| |].
    + intros Hnone. apply HQ. split; [apply mapping_refl; [done|done|done|lia]|]. split_and!; try done.
      cbn [fst snd]. by rewrite (node_app s raw slot (pre ++ [i])), <- He, Hz, walk_0.
    + intros b s1 Hb Htk. cbn beta iota. pose proof (tk_ok _ _ _ _ Htk) as Hs1. pose proof (bo_disk _ _ Hs1) as Hd1.
      pose proof (free_good G HG s b Hs Hb) as Hgb. destruct zeros_block as [Hz1 Hz2].
      assert (¬ is_bb G b) as Hnb by (intros (g & Hg & ->); by apply (bo_data _ _ Hs _ Hb), bb_meta).
      destruct (put_block_frame s1 b _ Hs1 Hgb Hnb Hz1 Hz2) as [Hs2 _]. pose proof (bo_disk _ _ Hs2) as Hd2.
      unfold zero_block. ie_steps. rewrite (geo_bs _ _ Hd1). eapply wp_eq; [by apply (write_block_eq G HG)|]. cbn beta iota.
      unfold write_ptr. ie_steps. eapply wp_eq; [by apply (read_block_eq G HG)|]. cbn beta iota.
      destruct (pp_range G HG) as [_ Hpp]. set (c := node s raw (slot, pre)) in *. set (s2 := put_block b (zeros (g_bs G)) s1) in *.
      assert (zlen (blk s2 c) = g_bs G) as Hzc by (apply (zlen_blk G HG); [done|unfold good_block in Hgood; lia]).
      rewrite wr_ok by (rewrite ?Hzc; simpl; lia). ie_steps.
      eapply wp_eq; [apply (write_block_eq G HG); [done|done|]|].
      { rewrite zlen_paste; rewrite ?zlen_le_bytes; simpl; lia. }
      cbn beta iota. destruct (linked_mapping R ino (slot, (pre ++ [i]) ++ path) s raw s1 slot pre i b) as [Hm Hnb1]; try done; [by exists path|lia|].
      cbv zeta in Hm, Hnb1. fold c in Hm, Hnb1. change (link_state b c i s1) with (put_block c (paste (blk s2 c) (i * 4) (le_bytes 4 b)) s2) in Hm, Hnb1.
      set (s3 := put_block c (paste (blk s2 c) (i * 4) (le_bytes 4 b)) s2) in *.
      ie_steps. apply wp_add_sectors; [apply (bo_disk _ _ (mp_ok _ _ _ _ _ _ _ _ Hm))|done|done|lia|].
      rewrite <- Hnb1. apply (IH (upd R ino (charged raw))); [apply (mp_ok _ _ _ _ _ _ _ _ Hm)|apply (mp_trees _ _ _ _ _ _ _ _ Hm)|apply upd_same|done| | |].
      * rewrite Hnb1. unfold good_block in Hgb. lia.
      * pose proof (mp_sectors _ _ _ _ _ _ _ _ Hm). lia.
      * intros r t [Hm2 Hr]. apply HQ. split; [by eapply mapping_trans|done].
  - rewrite He in *. apply (IH R (pre ++ [i])); try done; [lia|]. intros r t [Hm2 Hr]. apply HQ. split; [|done].
    destruct Hm2; split; try done. lia.
Qed.

Lemma wp_bmap_alloc R ino fblk s raw Q :
  blocks_ok G s → trees_ok G s R → R ino = Some raw → is_ino G ino → 0 ≤ fblk →
  fget i_sectors raw + 4 * spb G < U32 →
  match fpos G fblk with
  | None => Q (inl FileTooBig) (s, raw)
  | Some p => ∀ r t, alloc_post R ino p 4 s raw r t → Q r t
  end →
  wp (bmap ino fblk true) Q (s, raw).
Proof using HG.
  intros Hs Ht HR Hi Hf Hsec HQ. pose proof (bo_disk _ _ Hs) as Hd. destruct (goal_ok G HG s ino Hd Hi) as [G1 (goal & G2 & Hgoal)].
  unfold bmap. ie_steps. cbn [fst]. rewrite (ptrs_eq G s Hd). geo Hd. rewrite G1. ie_steps. rewrite G2. ie_steps.
  unfold fpos in HQ. destruct (block_path (pp G) fblk) as [[slot path]|] eqn:E; [|by ie_steps].
  destruct (fpos_valid G HG fblk _ Hf E) as [Hv Hl]. destruct (to_raw _ _ _ Ht ino raw HR) as [Hzr Hbr].
  pose proof (go_isz G HG). pose proof (spb_range G HG).
  assert (zlen path ≤ 3) as Hlen. { destruct Hv as (Hv1 & Hv2 & _). unfold depth in Hv2. cbn [fst snd] in *. unfold zlen. lia. }
  pose proof (zlen_nonneg path).
  ie_steps. eapply wp_of_inode; [apply iget_ok; [lia|apply Hv]|]. change (fget (i_block slot) raw) with (node s raw (slot, [])).
  assert (∀ r t n, n ≤ 4 → alloc_post R ino (slot, path) n s raw r t → Q r t) as HQ'.
  { intros r t n Hn [Hm Hr]. apply HQ. split; [|done]. destruct Hm. split; try done. nia. }
  destruct (Z.eqb_spec (node s raw (slot, [])) 0) as [Hz|Hnz].
  - ie_steps. apply (wp_alloc_block G HG); [done|done| |].
    + intros Hnone. apply (HQ' _ _ 0); [lia|]. split; [by apply mapping_refl|]. split_and!; try done.
      cbn [fst snd]. by rewrite <- (app_nil_l path), node_app, Hz, walk_0.
    + intros b s1 Hb Htk. cbn beta iota. pose proof (tk_ok _ _ _ _ Htk) as Hs1. pose proof (bo_disk _ _ Hs1) as Hd1.
      pose proof (free_good G HG s b Hs Hb) as Hgb. destruct zeros_block as [Hz1 Hz2].
      set (s2 := if path then s1 else put_block b (zeros (g_bs G)) s1).
      destruct (rooted_mapping R ino s raw s1 s2 slot path b) as [Hm Hnb]; try done; [lia|].
      pose proof (mp_ok _ _ _ _ _ _ _ _ Hm) as Hs2. pose proof (bo_disk _ _ Hs2) as Hd2.
      destruct (rooted_raw slot b raw Hzr Hbr ltac:(apply Hv) ltac:(pose proof (go_blocks G HG); unfold good_block in Hgb; lia)) as (_ & _ & _ & _ & Hsc).
      assert (wp (if path then ok tt else on_fs (zero_block b)) (λ r t, r = inr tt ∧ t = (s2, raw)) (s1, raw)) as Hzero.
      { destruct path; [by ie_steps|]. unfold zero_block. ie_steps. rewrite (geo_bs _ _ Hd1).
        by eapply wp_eq; [by apply (write_block_eq G HG)|]. }
      ie_steps. eapply wp_mono; [exact Hzero|]. intros r0 t0 [-> ->]. cbn beta iota. ie_steps.
      eapply wp_on_inode; [apply iset_ok; [lia|apply Hv]|]. ie_steps.
      apply wp_add_sectors; [done|rewrite zlen_fset; [done|lia|apply Hv]|by apply is_byte_fset|lia|].
      change (charged (fset (i_block slot) b raw)) with (rooted slot b raw). rewrite <- Hnb at 1.
      apply (wp_bmap_walk (upd R ino (rooted slot b raw)) ino slot path []); try done.
      * apply (mp_trees _ _ _ _ _ _ _ _ Hm).
      * apply upd_same.
      * rewrite Hnb. unfold good_block in Hgb. lia.
      * pose proof (mp_sectors _ _ _ _ _ _ _ _ Hm). nia.
      * intros r t [Hm2 Hr]. apply (HQ' r t (1 + zlen path)); [lia|]. split; [|done]. by eapply mapping_trans.
  - apply (wp_bmap_walk R ino slot path []); try done; [nia|]. intros r t Hp. by apply (HQ' r t (zlen path)); [lia|].
Qed.
End grow.
