(* ===== verification/Ext2File.v ===== *)
(** * The ext2 file system: the bytes of a file

    The content of a file as a function of its block tree and the disk, what
    mapping a block, writing one and changing inode fields do to it, and the
    loops of [read] and [write_into] against it. *)

From S2P Require Import Prelude Text Bytes Ext2 Ext2Fs Ext2Disk Ext2Alloc Ext2Blocks Ext2Inode Ext2Tree Ext2Map.

Section data.
Context (G : Geo) (HG : geo_ok G).
Implicit Types (s : Fs) (R : Inodes).

(** Byte [pos] of a file; holes are zero. *)
Definition fbyte (s : Fs) (raw : Inode) (pos : Z) : Z :=
  match fpos G (pos / g_bs G) with
  | None => 0
  | Some p => if node s raw p =? 0 then 0 else byte (blk s (node s raw p)) (pos mod g_bs G)
  end.

Definition fdata (s : Fs) (raw : Inode) (off n : Z) : list Z := fbyte s raw <$> seqZ off n.

(** The largest file the block map can address. *)
Definition max_blocks : Z := 12 + pp G + pp G * pp G + pp G * pp G * pp G.
Definition max_size : Z := max_blocks * g_bs G.

Lemma fpos_some f : 0 ≤ f < max_blocks → ∃ p, fpos G f = Some p.
Proof.
  intros Hf. unfold fpos, block_path, max_blocks in *. repeat case_match; eauto.
  repeat match goal with H : (_ <? _) = false |- _ => apply Z.ltb_ge in H end. lia.
Qed.

Lemma block_some pos : 0 ≤ pos < max_size → ∃ p, fpos G (pos / g_bs G) = Some p.
Proof using HG.
  intros Hp. pose proof (bs_pos G HG). apply fpos_some. split; [apply Z.div_pos; lia|].
  apply Z.div_lt_upper_bound; unfold max_size in *; lia.
Qed.

Lemma fbyte_same s s' raw raw' pos :
  0 ≤ pos →
  (∀ p, valid G p → leaf p → node s' raw' p = node s raw p ∧ (node s raw p ≠ 0 → blk s' (node s raw p) = blk s (node s raw p))) →
  fbyte s' raw' pos = fbyte s raw pos.
Proof using HG.
  intros Hp Hs. unfold fbyte. pose proof (bs_pos G HG). destruct (fpos G (pos / g_bs G)) as [p|] eqn:E; [|done].
  destruct (fpos_valid G HG (pos / g_bs G) p ltac:(apply Z.div_pos; lia) E) as [Hv Hl]. destruct (Hs p Hv Hl) as [-> Hb].
  destruct (Z.eqb_spec (node s raw p) 0); [done|]. by rewrite Hb.
Qed.

Lemma fbyte_iblk s raw raw' pos :
  0 ≤ pos → (∀ k, 0 ≤ k < 15 → iblk raw' k = iblk raw k) → fbyte s raw' pos = fbyte s raw pos.
Proof using HG.
  intros Hp Hi. apply fbyte_same; [done|]. intros p Hv _. split; [|done]. apply node_iblk, Hi, Hv.
Qed.

Lemma fbyte_dev s s' raw pos : dev s' = dev s → bs s' = bs s → fbyte s' raw pos = fbyte s raw pos.
Proof.
  intros Hd Hb. unfold fbyte. destruct (fpos _ _) as [p|]; [|done]. unfold node. rewrite (walk_dev s s') by done.
  unfold blk. by rewrite Hd, Hb.
Qed.

(** Leaves are not on the way to other leaves. *)
Lemma leaf_not_inner s R ino raw p ino' raw' tgt :
  trees_ok G s R → R ino = Some raw → R ino' = Some raw' → valid G p → leaf p → valid G tgt → node s raw p ≠ 0 →
  ∀ k, (k < length tgt.2)%nat → node s raw p ≠ node s raw' (tgt.1, take k tgt.2).
Proof.
  intros Ht HR HR' Hv Hl Hvt Hn k Hk He. destruct tgt as [sl q]. cbn [fst snd] in *.
  destruct (to_inj _ _ _ Ht ino raw p ino' raw' (sl, take k q) HR HR' Hv ltac:(by apply valid_take) He Hn) as [_ ->].
  unfold leaf in Hl. cbn [fst snd] in Hl. rewrite length_take in Hl. destruct Hvt as (_ & Hvt & _). cbn [fst snd] in Hvt. lia.
Qed.

(** After a mapping, the other leaves hold what they held. *)
Lemma mapping_leaf R ino tgt n s raw s' raw' p :
  trees_ok G s R → R ino = Some raw → valid G tgt → leaf tgt → mapping G R ino tgt n s raw s' raw' →
  valid G p → leaf p → p ≠ tgt →
  node s' raw' p = node s raw p ∧ (node s raw p ≠ 0 → blk s' (node s raw p) = blk s (node s raw p)).
Proof using HG.
  intros Ht HR Hvt Hlt Hm Hv Hl Hne. destruct (mp_nodes _ _ _ _ _ _ _ _ _ Hm p Hv) as [He|(H1 & [r H2] & _ & _)].
  - split; [done|]. intros Hn. apply (mp_data _ _ _ _ _ _ _ _ _ Hm); [by apply (to_node _ _ _ Ht ino)|].
    by apply (leaf_not_inner s R ino raw p ino raw).
  - exfalso. apply Hne. unfold leaf in *. destruct p as [sl q], tgt as [sl' q']. cbn [fst snd] in *. subst sl' q'.
    assert (r = []) as ->; [|by rewrite app_nil_r]. rewrite length_app in Hlt. destruct r; [done|]. simpl in Hlt. lia.
Qed.

Lemma mapping_other_leaf R ino tgt n s raw s' raw' j rawj p :
  trees_ok G s R → R ino = Some raw → valid G tgt → mapping G R ino tgt n s raw s' raw' →
  j ≠ ino → R j = Some rawj → valid G p → leaf p →
  node s' rawj p = node s rawj p ∧ (node s rawj p ≠ 0 → blk s' (node s rawj p) = blk s (node s rawj p)).
Proof using HG.
  intros Ht HR Hvt Hm Hj HRj Hv Hl. split; [by apply (mp_other _ _ _ _ _ _ _ _ _ Hm j)|]. intros Hn.
  apply (mp_data _ _ _ _ _ _ _ _ _ Hm); [by apply (to_node _ _ _ Ht j)|]. by apply (leaf_not_inner s R j rawj p ino raw).
Qed.

(** ** Writing a block *)

(** One step of a write: file block [fblk] of [ino] is mapped and gets the
    bytes [v]. *)
Lemma fill_block R ino n s raw s1 raw1 fblk p v :
  blocks_ok G s → trees_ok G s R → R ino = Some raw → 0 ≤ fblk → fpos G fblk = Some p →
  mapping G R ino p n s raw s1 raw1 → node s1 raw1 p ≠ 0 → zlen v = g_bs G → Forall is_byte v →
  let s2 := put_block (node s1 raw1 p) v s1 in
  blocks_ok G s2 ∧ (∀ x, isfree G s2 x = isfree G s1 x) ∧ trees_ok G s2 (upd R ino raw1) ∧
  (∀ pos, 0 ≤ pos → fbyte s2 raw1 pos =
     if decide (pos / g_bs G = fblk) then byte v (pos mod g_bs G) else fbyte s raw pos) ∧
  (∀ j rawj pos, j ≠ ino → R j = Some rawj → 0 ≤ pos → fbyte s2 rawj pos = fbyte s rawj pos) ∧
  inode_side s2 = inode_side s ∧ differ_in (λ x, is_bb G x ∨ ¬ is_meta G x) s s2 ∧
  (∀ j rawj q, j ≠ ino → R j = Some rawj → valid G q → node s2 rawj q = node s rawj q).
Proof using HG.
  intros Hs Ht HR Hf Hp Hm Hn Hz Hv s2. destruct (fpos_valid G HG fblk p Hf Hp) as [Hvp Hlp].
  pose proof (mp_ok _ _ _ _ _ _ _ _ _ Hm) as Hs1. pose proof (mp_trees _ _ _ _ _ _ _ _ _ Hm) as Ht1.
  pose proof (bo_disk _ _ Hs) as Hd. pose proof (bo_disk _ _ Hs1) as Hd1.
  set (pb := node s1 raw1 p) in *. pose proof (to_node _ _ _ Ht1 ino raw1 p (upd_same _ _ _) Hvp Hn) as Hin. fold pb in Hin.
  pose proof (in_file_good G HG s1 pb Hin) as Hg. pose proof (file_not_bb G s1 pb Hin) as Hnb.
  destruct (put_block_frame G HG s1 pb v Hs1 Hg Hnb Hz Hv) as [Hs2 Hf2]. fold s2 in Hs2, Hf2. pose proof (bo_disk _ _ Hs2) as Hd2.
  pose proof (differ_put G HG s1 pb v Hd1 Hg Hz) as Hdf. fold s2 in Hdf.
  assert (∀ j rawj q, upd R ino raw1 j = Some rawj → valid G q → node s2 rawj q = node s1 rawj q) as Hnode.
  { intros j rawj q. apply (node_leaf_write G HG s1 s2 _ ino raw1 p); try done. apply upd_same. }
  assert (∀ j rawj q, upd R ino raw1 j = Some rawj → valid G q → (j, q) ≠ (ino, p) → node s1 rawj q ≠ 0 →
            blk s2 (node s1 rawj q) = blk s1 (node s1 rawj q)) as Hblk.
  { intros j rawj q HRj Hq Hne Hnz. pose proof (in_file_good G HG s1 _ (to_node _ _ _ Ht1 j rawj q HRj Hq Hnz)) as [? ?].
    apply (differ_blk G HG (eq pb)); try done; [lia|]. intros He. apply Hne.
    destruct (to_inj _ _ _ Ht1 j rawj q ino raw1 p HRj (upd_same _ _ _) Hq Hvp) as [-> ->]; by rewrite <- ?He. }
  split_and!; try done.
  - apply (trees_same G s1 (upd R ino raw1)); try done. intros j rawj HRj. destruct (to_raw _ _ _ Ht1 j rawj HRj).
    split_and!; try done. exists rawj. split; [done|]. intros q Hq. by apply (Hnode j).
  - intros pos Hpos. destruct (decide (pos / g_bs G = fblk)) as [He|Hne].
    + unfold fbyte. rewrite He, Hp. rewrite (Hnode ino raw1 p (upd_same _ _ _) Hvp). fold pb.
      rewrite (proj2 (Z.eqb_neq pb 0)) by done. unfold s2. by rewrite (blk_put_same G HG).
    + unfold fbyte. destruct (fpos G (pos / g_bs G)) as [q|] eqn:E; [|done]. pose proof (bs_pos G HG).
      assert (0 ≤ pos / g_bs G) as H0 by (apply Z.div_pos; lia).
      destruct (fpos_valid G HG _ q H0 E) as [Hvq Hlq].
      assert (q ≠ p) as Hqp by (intros ->; by apply Hne, (fpos_inj G HG _ _ p)).
      destruct (mapping_leaf R ino p n s raw s1 raw1 q Ht HR Hvp Hlp Hm Hvq Hlq Hqp) as [E1 E2].
      rewrite (Hnode ino raw1 q (upd_same _ _ _) Hvq), E1. destruct (Z.eqb_spec (node s raw q) 0) as [|Hnz]; [done|].
      rewrite <- E1, (Hblk ino raw1 q), E1, E2; try done; [apply upd_same|congruence|by rewrite E1].
  - intros j rawj pos Hj HRj Hpos. apply fbyte_same; [done|]. intros q Hvq Hlq.
    destruct (mapping_other_leaf R ino p n s raw s1 raw1 j rawj q Ht HR Hvp Hm Hj HRj Hvq Hlq) as [E1 E2].
    assert (upd R ino raw1 j = Some rawj) as HR1 by (by rewrite upd_other). rewrite (Hnode j rawj q HR1 Hvq), E1. split; [done|].
    intros Hnz. rewrite <- E2 by done. rewrite <- E1. apply (Hblk j); try done; [congruence|by rewrite E1].
  - by rewrite <- (mp_side _ _ _ _ _ _ _ _ _ Hm).
  - eapply differ_mono; [|eapply differ_trans; [|apply (mp_differ _ _ _ _ _ _ _ _ _ Hm)|exact Hdf]].
    + intros x [Hx| <-]; [done|]. right. by destruct Hin as (_ & _ & ?).
    + by rewrite (geo_bs _ _ Hd), (geo_bs _ _ Hd1).
  - intros j rawj q Hj HRj Hq. rewrite (Hnode j) by (done || by rewrite upd_other). by apply (mp_other _ _ _ _ _ _ _ _ _ Hm j).
Qed.
End data.

Section file.
Context (G : Geo) (HG : geo_ok G).
Implicit Types (s : Fs) (R : Inodes).

(** ** Reading *)

Lemma zlen_fdata s raw off n : 0 ≤ n → zlen (fdata G s raw off n) = n.
Proof. intros. unfold fdata, zlen. rewrite length_fmap, length_seqZ. lia. Qed.

Lemma byte_fdata s raw off n i : 0 ≤ i < n → byte (fdata G s raw off n) i = fbyte G s raw (off + i).
Proof.
  intros Hi. unfold fdata, byte. rewrite nth_lookup, list_lookup_fmap, lookup_seqZ_lt by lia. simpl. f_equal. lia.
Qed.

Lemma fdata_app s raw off a b : 0 ≤ a → 0 ≤ b → fdata G s raw off (a + b) = fdata G s raw off a ++ fdata G s raw (off + a) b.
Proof. intros. unfold fdata. by rewrite seqZ_app, fmap_app by lia. Qed.

(** The part of a file inside one block. *)
Lemma in_block pos i : 0 ≤ pos → 0 ≤ i → pos mod g_bs G + i < g_bs G →
  (pos + i) / g_bs G = pos / g_bs G ∧ (pos + i) mod g_bs G = pos mod g_bs G + i.
Proof using HG.
  intros Hp Hi Hlt. pose proof (bs_pos G HG). pose proof (Z.div_mod pos (g_bs G) ltac:(lia)).
  pose proof (Z.mod_pos_bound pos (g_bs G) ltac:(lia)). split.
  - symmetry. apply Z.div_unique with (pos mod g_bs G + i); lia.
  - symmetry. apply Z.mod_unique with (pos / g_bs G); lia.
Qed.

Lemma fdata_block s raw pos chunk p :
  disk_ok G s → 0 ≤ pos → 0 ≤ chunk → pos mod g_bs G + chunk ≤ g_bs G → fpos G (pos / g_bs G) = Some p →
  (node s raw p ≠ 0 → good_block G (node s raw p)) →
  fdata G s raw pos chunk =
    if node s raw p =? 0 then zeros chunk else seg (blk s (node s raw p)) (pos mod g_bs G) chunk.
Proof using HG.
  intros Hd Hp Hc Hin Hf Hg. pose proof (bs_pos G HG). pose proof (Z.mod_pos_bound pos (g_bs G) ltac:(lia)).
  assert (∀ i, 0 ≤ i < chunk → fbyte G s raw (pos + i) =
    if node s raw p =? 0 then 0 else byte (blk s (node s raw p)) (pos mod g_bs G + i)) as Hb.
  { intros i Hi. destruct (in_block pos i Hp ltac:(lia) ltac:(lia)) as [E1 E2]. unfold fbyte. by rewrite E1, E2, Hf. }
  destruct (Z.eqb_spec (node s raw p) 0) as [Hz|Hnz].
  - apply bytes_ext; rewrite zlen_fdata, ?zlen_zeros by lia; [done|]. intros i Hi. rewrite byte_fdata, byte_zeros by lia. by apply Hb.
  - destruct (Hg Hnz). assert (zlen (blk s (node s raw p)) = g_bs G) as Hz by (apply (zlen_blk G HG); [done|lia]).
    apply bytes_ext; rewrite zlen_fdata, ?zlen_seg by lia; [done|]. intros i Hi. rewrite byte_fdata, byte_seg by lia. by apply Hb.
Qed.

Lemma fbyte_is_byte s raw pos : disk_ok G s → is_byte (fbyte G s raw pos).
Proof.
  intros Hd. unfold fbyte. destruct (fpos _ _); [|done]. destruct (_ =? _); [done|]. apply is_byte_byte, (is_byte_blk G), Hd.
Qed.

Lemma read_loop_eq s R ino raw off n fuel acc :
  disk_ok G s → trees_ok G s R → R ino = Some raw → is_ino G ino → 0 ≤ off → off + n ≤ max_size G →
  acc = fdata G s raw off (zlen acc) → zlen acc ≤ n → n - zlen acc < Z.of_nat fuel →
  read_loop fuel ino off n acc (s, raw) = Some (inr (fdata G s raw off n), (s, raw)).
Proof using HG.
  intros Hd Ht HR Hi Hoff Hmax. revert acc. induction fuel as [|fuel IH]; intros acc Hacc Hle Hf; [lia|].
  simpl. destruct (Z.leb_spec n (zlen acc)) as [Hdone|Hmore].
  { unfold ok, mret, exec_ret. replace n with (zlen acc) by lia. by rewrite <- Hacc. }
  pose proof (zlen_nonneg acc). unfold gets, mbind at 1, exec_bind at 1. cbn [fst]. geo Hd.
  set (pos := off + zlen acc). set (boff := pos mod g_bs G). set (chunk := Z.min (g_bs G - boff) (n - zlen acc)).
  pose proof (bs_pos G HG). pose proof (Z.mod_pos_bound pos (g_bs G) ltac:(lia)) as Hb. fold boff in Hb.
  unfold try_bind at 1, mbind at 1, exec_bind at 1.
  rewrite (bmap_find G HG s R ino raw) by (done || apply Z.div_pos; lia).
  destruct (block_some G HG pos ltac:(lia)) as [p Hp]. unfold found. rewrite Hp.
  destruct (fpos_valid G HG (pos / g_bs G) p ltac:(apply Z.div_pos; lia) Hp) as [Hv _].
  assert (node s raw p ≠ 0 → good_block G (node s raw p)) as Hgood.
  { intros Hn. by apply (in_file_good G HG s), (to_node _ _ _ Ht ino). }
  pose proof (fdata_block s raw pos chunk p Hd ltac:(lia) ltac:(lia) ltac:(lia) Hp Hgood) as Hchunk. fold boff in Hchunk.
  assert (∀ v, v = fdata G s raw pos chunk → read_loop fuel ino off n (acc ++ v) (s, raw) = Some (inr (fdata G s raw off n), (s, raw))) as Hgo.
  { intros v ->. apply IH.
    - rewrite zlen_app, zlen_fdata, fdata_app by lia. by rewrite <- Hacc at 1.
    - rewrite zlen_app, zlen_fdata; lia.
    - rewrite zlen_app, zlen_fdata; lia. }
  destruct (Z.eqb_spec (node s raw p) 0) as [Hz|Hnz]; [by apply Hgo|].
  unfold try_bind at 1, mbind at 1, exec_bind at 1, on_fs at 1. rewrite (read_block_eq G HG s _ Hd (Hgood Hnz)).
  destruct (Hgood Hnz). assert (zlen (blk s (node s raw p)) = g_bs G) as Hzb by (apply (zlen_blk G HG); [done|lia]).
  destruct ((boff =? 0) && (chunk =? g_bs G)) eqn:E.
  - apply andb_true_iff in E as [E1%Z.eqb_eq E2%Z.eqb_eq]. apply Hgo. rewrite Hchunk, E1, E2. by rewrite seg_full.
  - unfold need, mbind at 1, exec_bind at 1. rewrite get_seg_ok by lia. by apply Hgo.
Qed.

(** ** Writing *)

(** The fields of an inode that a write does not touch. *)
Definition same_id (raw raw' : Inode) : Prop :=
  ∀ f, field_ok f → f ≠ i_sectors → f ≠ i_size_lo → f ≠ i_size_hi → f ≠ i_mtime → f ≠ i_ctime →
    (∀ k, f ≠ i_block k) → fget f raw' = fget f raw.

Record progress R (ino : Z) s0 (raw0 : Inode) (off : Z) (data : list Z) (done : Z) s (raw : Inode) : Prop := {
  pg_ok : blocks_ok G s;
  pg_trees : trees_ok G s (upd R ino raw);
  pg_mine : ∀ pos, 0 ≤ pos → fbyte G s raw pos =
    if decide (off ≤ pos < off + done) then byte data (pos - off) else fbyte G s0 raw0 pos;
  pg_others : ∀ j rawj pos, j ≠ ino → R j = Some rawj → 0 ≤ pos → fbyte G s rawj pos = fbyte G s0 rawj pos;
  pg_size : fsize raw = if decide (done = 0) then fsize raw0 else Z.max (fsize raw0) (off + done);
  pg_same : same_id raw0 raw;
  pg_side : inode_side s = inode_side s0;
  pg_differ : differ_in (λ x, is_bb G x ∨ ¬ is_meta G x) s0 s;
}.

(** How a write of a chunk into one block fits the bytes of the file. *)
Lemma chunk_bytes s raw pos chunk (old d : list Z) :
  0 ≤ pos → 0 < chunk → pos mod g_bs G + chunk ≤ g_bs G → zlen old = g_bs G → zlen d = chunk →
  (∀ i, 0 ≤ i < g_bs G → byte old i = fbyte G s raw (pos / g_bs G * g_bs G + i)) →
  ∀ x, 0 ≤ x →
  (if decide (x / g_bs G = pos / g_bs G) then byte (paste old (pos mod g_bs G) d) (x mod g_bs G) else fbyte G s raw x) =
  (if decide (pos ≤ x < pos + chunk) then byte d (x - pos) else fbyte G s raw x).
Proof using HG.
  intros Hp Hc Hin Hz Hzd Hold x Hx. pose proof (bs_pos G HG).
  pose proof (Z.div_mod pos (g_bs G) ltac:(lia)). pose proof (Z.mod_pos_bound pos (g_bs G) ltac:(lia)).
  pose proof (Z.div_mod x (g_bs G) ltac:(lia)). pose proof (Z.mod_pos_bound x (g_bs G) ltac:(lia)).
  set (q := pos / g_bs G) in *. set (r := x / g_bs G) in *. set (po := pos mod g_bs G) in *. set (xo := x mod g_bs G) in *.
  destruct (decide (r = q)) as [He|Hne].
  - rewrite He in *. rewrite byte_paste by lia. destruct (decide (pos ≤ x < pos + chunk)).
    + rewrite (proj2 (Z.leb_le _ _)), (proj2 (Z.ltb_lt _ _)) by lia. simpl. f_equal. lia.
    + assert ((po <=? xo) && (xo <? po + zlen d) = false) as ->.
      { destruct (Z.leb_spec po xo), (Z.ltb_spec xo (po + zlen d)); simpl; try done. lia. }
      rewrite Hold by lia. f_equal. lia.
  - rewrite decide_False; [done|]. intros Hr. assert (q * g_bs G ≤ x < q * g_bs G + g_bs G) by lia.
    apply Hne. symmetry. unfold r. symmetry. apply mul_block; lia.
Qed.

Lemma same_id_keeps raw raw1 raw2 : same_id raw raw1 → keeps raw1 raw2 → same_id raw raw2.
Proof. intros H1 H2 f Hf ? ? ? ? ? Hk. by rewrite H2, H1. Qed.

(** One iteration, from a mapped block to the next round. *)
Lemma progress_step R ino s0 raw0 off data done s raw n s1 raw1 p v chunk :
  disk_ok G s0 → trees_ok G s0 R → R ino = Some raw0 → 0 ≤ off → 0 ≤ done → 0 < chunk → done + chunk ≤ zlen data →
  let pos := off + done in
  progress R ino s0 raw0 off data done s raw → fpos G (pos / g_bs G) = Some p →
  pos mod g_bs G + chunk ≤ g_bs G → pos + chunk < size_bound raw0 →
  mapping G (upd R ino raw) ino p n s raw s1 raw1 → node s1 raw1 p ≠ 0 → zlen v = g_bs G → Forall is_byte v →
  (∀ x, 0 ≤ x → (if decide (x / g_bs G = pos / g_bs G) then byte v (x mod g_bs G) else fbyte G s raw x) =
     (if decide (pos ≤ x < pos + chunk) then byte data (x - off) else fbyte G s raw x)) →
  let raw2 := if fsize raw1 <? pos + chunk then fset_size (pos + chunk) raw1 else raw1 in
  progress R ino s0 raw0 off data (done + chunk) (put_block (node s1 raw1 p) v s1) raw2 ∧
  fget i_sectors raw2 = fget i_sectors raw1.
Proof using HG.
  intros Hd0 Ht0 HR0 Hoff Hdone Hc Hlen pos Hpg Hp Hin Hbnd Hm Hn Hz Hv Hbytes raw2.
  pose proof (bs_pos G HG). pose proof (go_isz G HG).
  destruct (fill_block G HG (upd R ino raw) ino n s raw s1 raw1 (pos / g_bs G) p v) as (F1 & F2 & F3 & F4 & F5 & F6 & F7 & _);
    try done; [apply (pg_ok _ _ _ _ _ _ _ _ _ Hpg)|apply (pg_trees _ _ _ _ _ _ _ _ _ Hpg)|apply upd_same|apply Z.div_pos; lia|].
  destruct (to_raw _ _ _ F3 ino raw1 (upd_same _ _ _)) as [Hz1 Hb1].
  destruct (to_raw _ _ _ Ht0 ino raw0 HR0) as [Hz0 Hb0].
  pose proof (mp_keeps _ _ _ _ _ _ _ _ _ Hm) as Hkp.
  destruct (fsize_fget raw raw1) as [Hsz1 Hkd1]; try (by apply Hkp).
  assert (kind raw = kind raw0) as Hkd by (unfold kind; by rewrite (pg_same _ _ _ _ _ _ _ _ _ Hpg)).
  assert (size_bound raw1 = size_bound raw0) as Hsb by (unfold size_bound; by rewrite Hkd1, Hkd).
  assert (zlen raw2 = g_isz G ∧ Forall is_byte raw2 ∧ (∀ k, 0 ≤ k < 15 → iblk raw2 k = iblk raw1 k) ∧
          fget i_sectors raw2 = fget i_sectors raw1 ∧ fsize raw2 = Z.max (fsize raw1) (pos + chunk) ∧ same_id raw1 raw2)
    as (Hz2 & Hb2 & Hib2 & Hsec2 & Hsz2 & Hid2).
  { unfold raw2. destruct (Z.ltb_spec (fsize raw1) (pos + chunk)).
    - split_and!.
      + rewrite zlen_fset_size; lia.
      + by apply is_byte_fset_size.
      + intros k Hk. rewrite !iblk_fget. apply fget_fset_size; [lia|done|done|done].
      + apply fget_fset_size; [lia|done|done|done].
      + rewrite fsize_fset_size; [lia|lia|done|lia].
      + intros f Hf ? ? ? ? ? ?. apply fget_fset_size; [lia|done|done|done].
    - split_and!; try done. lia. }
  split; [|done]. split.
  - done.
  - apply (trees_same G (put_block (node s1 raw1 p) v s1) (upd (upd R ino raw) ino raw1)); try done. intros j rawj Hj.
    destruct (decide (j = ino)) as [->|Hne].
    + rewrite upd_same in Hj. injection Hj as <-. split_and!; try done. exists raw1. rewrite upd_same. split; [done|].
      intros q Hq. apply node_iblk, Hib2, Hq.
    + rewrite upd_other in Hj by done. assert (upd (upd R ino raw) ino raw1 j = Some rawj) as Hj' by (by rewrite !upd_other).
      destruct (to_raw _ _ _ F3 j rawj Hj'). split_and!; try done. by exists rawj.
  - intros x Hx. rewrite (fbyte_iblk G HG _ raw1 raw2) by done. rewrite F4, Hbytes by done.
    rewrite (pg_mine _ _ _ _ _ _ _ _ _ Hpg x Hx). unfold pos.
    repeat destruct (decide _); try done; lia.
  - intros j rawj x Hj HRj Hx. rewrite (F5 j rawj x) by (rewrite ?upd_other; done). by apply (pg_others _ _ _ _ _ _ _ _ _ Hpg j).
  - rewrite Hsz2, Hsz1, (pg_size _ _ _ _ _ _ _ _ _ Hpg). unfold pos.
    repeat destruct (decide _); lia.
  - intros f Hf ? ? ? ? ? ?. rewrite Hid2, Hkp by done. by apply (pg_same _ _ _ _ _ _ _ _ _ Hpg).
  - by rewrite F6, (pg_side _ _ _ _ _ _ _ _ _ Hpg).
  - eapply differ_mono; [|eapply differ_trans; [|apply (pg_differ _ _ _ _ _ _ _ _ _ Hpg)|exact F7]].
    + intros x. cbn beta. tauto.
    + by rewrite (geo_bs _ _ Hd0), (geo_bs _ _ (bo_disk _ _ (pg_ok _ _ _ _ _ _ _ _ _ Hpg))).
Qed.
(** A mapping that failed leaves the bytes as they were. *)
Lemma progress_failed R ino s0 raw0 off data done s raw n s1 raw1 p fblk :
  disk_ok G s0 → progress R ino s0 raw0 off data done s raw → 0 ≤ fblk → fpos G fblk = Some p →
  mapping G (upd R ino raw) ino p n s raw s1 raw1 → node s1 raw1 p = 0 →
  progress R ino s0 raw0 off data done s1 raw1.
Proof using HG.
  intros Hd0 Hpg Hf Hp Hm Hz. destruct (fpos_valid G HG fblk p Hf Hp) as [Hv Hl].
  pose proof (pg_trees _ _ _ _ _ _ _ _ _ Hpg) as Ht. pose proof (bo_disk _ _ (pg_ok _ _ _ _ _ _ _ _ _ Hpg)) as Hd.
  pose proof (mp_keeps _ _ _ _ _ _ _ _ _ Hm) as Hkp. destruct (fsize_fget raw raw1) as [Hsz1 _]; try (by apply Hkp). split.
  - apply (mp_ok _ _ _ _ _ _ _ _ _ Hm).
  - eapply trees_ok_ext; [|apply (mp_trees _ _ _ _ _ _ _ _ _ Hm)]. intros j. by rewrite upd_upd.
  - intros pos Hpos. rewrite <- (pg_mine _ _ _ _ _ _ _ _ _ Hpg pos Hpos). apply (fbyte_same G HG); [done|]. intros q Hq Hlq.
    destruct (decide (q = p)) as [->|Hne]; [|by apply (mapping_leaf G HG (upd R ino raw) ino p n); try done; apply upd_same].
    assert (node s raw p = 0) as Hz0 by (destruct (mp_nodes _ _ _ _ _ _ _ _ _ Hm p Hv) as [<-|(_ & _ & ? & _)]; done).
    by rewrite Hz0.
  - intros j rawj pos Hj HRj Hpos. rewrite <- (pg_others _ _ _ _ _ _ _ _ _ Hpg j rawj pos Hj HRj Hpos).
    apply (fbyte_same G HG); [done|]. intros q Hq Hlq.
    apply (mapping_other_leaf G HG (upd R ino raw) ino p n s raw s1 raw1 j); try done; [apply upd_same|by rewrite upd_other].
  - rewrite Hsz1. apply (pg_size _ _ _ _ _ _ _ _ _ Hpg).
  - eapply same_id_keeps; [apply (pg_same _ _ _ _ _ _ _ _ _ Hpg)|done].
  - rewrite (mp_side _ _ _ _ _ _ _ _ _ Hm). apply (pg_side _ _ _ _ _ _ _ _ _ Hpg).
  - eapply differ_mono; [|eapply differ_trans; [|apply (pg_differ _ _ _ _ _ _ _ _ _ Hpg)|apply (mp_differ _ _ _ _ _ _ _ _ _ Hm)]].
    + intros x. cbn beta. tauto.
    + by rewrite (geo_bs _ _ Hd0), (geo_bs _ _ Hd).
Qed.

Definition write_post R (ino : Z) s0 (raw0 : Inode) (off : Z) (data : list Z) (r : Error + Z) (t : Fs * Inode) : Prop :=
  match r with
  | inr m => 0 ≤ m ≤ zlen data ∧ progress R ino s0 raw0 off data m t.1 t.2 ∧
             (m < zlen data → 0 < m ∧ sbv s_free_blocks t.1 = 0)
  | inl e => e = NoSpace ∧ progress R ino s0 raw0 off data 0 t.1 t.2 ∧ sbv s_free_blocks t.1 = 0 ∧ 0 < zlen data
  end.

(** Room for the sector counter up to the last block of a write. *)
Definition sectors_room (raw : Inode) (pos stop : Z) : Prop :=
  pos < stop → fget i_sectors raw + 4 * spb G * ((stop - 1) / g_bs G - pos / g_bs G + 1) < U32.

(** The block that the write puts into place. *)
Lemma write_chunk R ino s0 raw0 off data done s raw p (n : Z) s1 raw1 chunk :
  progress R ino s0 raw0 off data done s raw → Forall is_byte data → 0 ≤ off → 0 ≤ done →
  let pos := off + done in let boff := pos mod g_bs G in
  fpos G (pos / g_bs G) = Some p → 0 < chunk → boff + chunk ≤ g_bs G → done + chunk ≤ zlen data →
  mapping G (upd R ino raw) ino p n s raw s1 raw1 → node s1 raw1 p ≠ 0 →
  ∃ v, zlen v = g_bs G ∧ Forall is_byte v ∧
    (∀ x, 0 ≤ x → (if decide (x / g_bs G = pos / g_bs G) then byte v (x mod g_bs G) else fbyte G s raw x) =
       (if decide (pos ≤ x < pos + chunk) then byte data (x - off) else fbyte G s raw x)) ∧
    (boff = 0 → chunk = g_bs G → v = seg data done chunk) ∧
    (node s raw p = 0 → v = paste (zeros (g_bs G)) boff (seg data done chunk)) ∧
    (node s raw p ≠ 0 → node s1 raw1 p = node s raw p ∧ v = paste (blk s1 (node s1 raw1 p)) boff (seg data done chunk)).
Proof using HG.
  intros Hpg Hdata Hoff Hdone pos boff Hp Hc Hin Hlen Hm Hn. pose proof (bs_pos G HG).
  pose proof (pg_trees _ _ _ _ _ _ _ _ _ Hpg) as Ht. pose proof (bo_disk _ _ (pg_ok _ _ _ _ _ _ _ _ _ Hpg)) as Hd.
  pose proof (Z.mod_pos_bound pos (g_bs G) ltac:(lia)) as Hb. fold boff in Hb.
  destruct (fpos_valid G HG (pos / g_bs G) p ltac:(apply Z.div_pos; lia) Hp) as [Hv Hl].
  set (old := if node s raw p =? 0 then zeros (g_bs G) else blk s (node s raw p)).
  assert (zlen (seg data done chunk) = chunk) as Hzd by (apply zlen_seg; lia).
  assert (zlen old = g_bs G ∧ Forall is_byte old) as [Hzo Hbo].
  { unfold old. destruct (Z.eqb_spec (node s raw p) 0) as [|Hnz]; [by apply zeros_block|].
    pose proof (in_file_good G HG s _ (to_node _ _ _ Ht ino raw p (upd_same _ _ _) Hv Hnz)) as [? ?].
    split; [apply (zlen_blk G HG); [done|lia]|by apply (is_byte_blk G)]. }
  assert (∀ i, 0 ≤ i < g_bs G → byte old i = fbyte G s raw (pos / g_bs G * g_bs G + i)) as Hold.
  { intros i Hi. unfold fbyte. rewrite (mul_block (pos / g_bs G)) by lia. rewrite Hp.
    replace ((pos / g_bs G * g_bs G + i) mod g_bs G) with i by (rewrite Z.add_comm, Z.mod_add, Z.mod_small; lia).
    unfold old. destruct (_ =? 0); [by rewrite byte_zeros|done]. }
  exists (paste old boff (seg data done chunk)). split_and!.
  - rewrite zlen_paste; lia.
  - apply is_byte_paste; [done|by apply is_byte_seg].
  - intros x Hx. rewrite (chunk_bytes s raw pos chunk old (seg data done chunk)) by (done || lia).
    destruct (decide _); [|done]. rewrite byte_seg by lia. f_equal. lia.
  - intros H0 H1. rewrite H0, H1 in *. apply bytes_ext; rewrite zlen_paste, ?zlen_seg by lia; [lia|].
    intros i Hi. rewrite byte_paste_in by lia. f_equal. lia.
  - intros Hz. unfold old. by rewrite (proj2 (Z.eqb_eq _ 0)).
  - intros Hnz. destruct (mp_nodes _ _ _ _ _ _ _ _ _ Hm p Hv) as [He|(_ & _ & ? & _)]; [|done]. split; [done|]. rewrite He.
    unfold old. rewrite (proj2 (Z.eqb_neq _ 0)) by done. f_equal. symmetry. apply (mp_data _ _ _ _ _ _ _ _ _ Hm).
    + by apply (to_node _ _ _ Ht ino); [apply upd_same| |].
    + by apply (leaf_not_inner G s (upd R ino raw) ino raw p ino raw); try done; apply upd_same.
Qed.
Lemma room_step raw raw2 pos chunk stop :
  0 ≤ pos → pos mod g_bs G + chunk = g_bs G → sectors_room raw pos stop →
  fget i_sectors raw2 ≤ fget i_sectors raw + 4 * spb G → sectors_room raw2 (pos + chunk) stop.
Proof using HG.
  intros Hp Hc Hr Hle Hlt. pose proof (bs_pos G HG). pose proof (spb_range G HG). pose proof (Z.div_mod pos (g_bs G) ltac:(lia)).
  assert ((pos + chunk) / g_bs G = pos / g_bs G + 1) as -> by (symmetry; apply Z.div_unique with 0; lia).
  specialize (Hr ltac:(pose proof (Z.mod_pos_bound pos (g_bs G)); lia)). lia.
Qed.

Lemma room_now raw pos stop : 0 ≤ pos < stop → sectors_room raw pos stop → fget i_sectors raw + 4 * spb G < U32.
Proof using HG.
  intros Hp Hr. specialize (Hr ltac:(lia)). pose proof (spb_range G HG). pose proof (bs_pos G HG).
  assert (pos / g_bs G ≤ (stop - 1) / g_bs G) by (apply Z.div_le_mono; lia). nia.
Qed.

Lemma wp_file_write_loop R ino s0 raw0 off data fuel done s raw Q :
  disk_ok G s0 → trees_ok G s0 R → R ino = Some raw0 → is_ino G ino → Forall is_byte data → 0 ≤ off →
  off + zlen data ≤ max_size G → off + zlen data < size_bound raw0 →
  progress R ino s0 raw0 off data done s raw → 0 ≤ done ≤ zlen data → zlen data - done < Z.of_nat fuel →
  sectors_room raw (off + done) (off + zlen data) →
  (∀ r t, write_post R ino s0 raw0 off data r t → Q r t) →
  wp (write_loop fuel ino off data done) Q (s, raw).
Proof using HG.
  intros Hd0 Ht0 HR0 Hi Hdata Hoff Hmax Hbnd. revert done s raw. induction fuel as [|fuel IH]; intros done s raw Hpg Hdone Hfuel Hroom HQ; [lia|].
  simpl. destruct (Z.leb_spec (zlen data) done) as [Hend|Hmore].
  { ie_steps. apply HQ. split_and!; try done; lia. }
  pose proof (pg_ok _ _ _ _ _ _ _ _ _ Hpg) as Hs. pose proof (pg_trees _ _ _ _ _ _ _ _ _ Hpg) as Ht. pose proof (bo_disk _ _ Hs) as Hd.
  ie_steps. cbn [fst]. geo Hd. set (pos := off + done). set (boff := pos mod g_bs G). set (chunk := Z.min (g_bs G - boff) (zlen data - done)).
  pose proof (bs_pos G HG). pose proof (Z.mod_pos_bound pos (g_bs G) ltac:(lia)) as Hb. fold boff in Hb.
  assert (0 ≤ pos / g_bs G) as Hfb by (apply Z.div_pos; lia).
  destruct (block_some G HG pos ltac:(lia)) as [p Hp].
  eapply wp_eq; [by apply (bmap_find G HG s (upd R ino raw)); try done; apply upd_same|]. cbn beta iota. unfold found. rewrite Hp.
  ie_steps. apply (wp_bmap_alloc G HG (upd R ino raw)); try done; [apply upd_same|by apply (room_now raw pos (off + zlen data)); [lia|]|].
  rewrite Hp. intros r [s1 raw1] [Hm Hr]. cbn [fst snd] in Hm, Hr. pose proof (mp_ok _ _ _ _ _ _ _ _ _ Hm) as Hs1. pose proof (bo_disk _ _ Hs1) as Hd1.
  destruct r as [e|pb].
  { destruct Hr as (-> & Hfree & Hnz). pose proof (progress_failed R ino s0 raw0 off data done s raw 4 s1 raw1 p _ Hd0 Hpg Hfb Hp Hm Hnz) as Hpg1.
    destruct (Z.ltb_spec 0 done); ie_steps; apply HQ; split_and!; try done; try lia.
    by replace done with 0 in Hpg1 by lia. }
  destruct Hr as [-> Hnz]. destruct (fpos_valid G HG _ p Hfb Hp) as [Hv Hl].
  pose proof (mp_trees _ _ _ _ _ _ _ _ _ Hm) as Ht1. destruct (to_raw _ _ _ Ht1 ino raw1 (upd_same _ _ _)) as [Hz1 Hb1].
  pose proof (in_file_good G HG s1 _ (to_node _ _ _ Ht1 ino raw1 p (upd_same _ _ _) Hv Hnz)) as Hgood. pose proof (go_isz G HG).
  destruct (write_chunk R ino s0 raw0 off data done s raw p 4 s1 raw1 chunk) as (v & Hzv & Hbv & Hbytes & V1 & V2 & V3); try done; try (fold pos; fold boff; lia).
  fold pos in V1, V2, V3, Hbytes. fold boff in V1, V2, V3.
  assert (zlen (seg data done chunk) = chunk) as Hzd by (apply zlen_seg; lia).
  assert (zlen (blk s1 (node s1 raw1 p)) = g_bs G) as Hzb by (apply (zlen_blk G HG); [done|unfold good_block in Hgood; lia]).
  ie_steps. match goal with |- wp ?m ?QQ (s1, raw1) => assert (QQ (inr tt) (put_block (node s1 raw1 p) v s1, raw1) → wp m QQ (s1, raw1)) as Hput end.
  { intros HQ1. destruct ((boff =? 0) && (chunk =? g_bs G)) eqn:E.
    - apply andb_true_iff in E as [E1%Z.eqb_eq E2%Z.eqb_eq]. rewrite <- V1 by done. ie_steps.
      eapply wp_eq; [by apply (write_block_eq G HG)|]. done.
    - ie_steps. destruct (Z.eqb_spec (node s raw p) 0) as [Hold0|Hold0].
      + ie_steps. rewrite put_seg_ok by (rewrite ?zlen_zeros; lia). ie_steps. rewrite <- (V2 Hold0).
        eapply wp_eq; [by apply (write_block_eq G HG)|]. done.
      + ie_steps. eapply wp_eq; [by apply (read_block_eq G HG)|]. cbn beta iota. rewrite put_seg_ok by lia. ie_steps.
        destruct (V3 Hold0) as [_ <-]. eapply wp_eq; [by apply (write_block_eq G HG)|]. done. }
  apply Hput. clear Hput. cbn beta iota. destruct (progress_step R ino s0 raw0 off data done s raw 4 s1 raw1 p v chunk) as [Hpg2 Hsec2];
    try done; try (fold pos; fold boff; lia). cbv zeta in Hpg2, Hsec2. fold pos in Hpg2, Hsec2.
  ie_steps. eapply wp_of_inode; [apply size_eq; lia|]. ie_steps.
  set (raw2 := if fsize raw1 <? pos + chunk then fset_size (pos + chunk) raw1 else raw1) in *.
  match goal with |- wp ?m ?QQ ?st => assert (QQ tt (st.1, raw2) → wp m QQ st) as Hset end.
  { unfold raw2. cbn [fst]. intros HQ1. destruct (fsize raw1 <? pos + chunk); [|by ie_steps].
    eapply wp_on_inode; [apply set_size_eq; lia|]. done. }
  apply Hset. clear Hset. cbn [fst].
  apply IH; try done; try lia. destruct (Z.min_spec (g_bs G - boff) (zlen data - done)) as [[Hlt Hmin]|[Hge Hmin]].
  - replace (off + (done + chunk)) with (pos + chunk) by lia. apply (room_step raw raw2); [lia|fold boff; lia|done|].
    rewrite Hsec2. pose proof (mp_sectors _ _ _ _ _ _ _ _ _ Hm). lia.
  - intros Hlt. lia.
Qed.
End file.
