(* ===== verification/Ext2Spec.v ===== *)
(** * The ext2 file system: files as byte strings

    The contract of file data: a file is a string of bytes, [read] returns part
    of it, [write] replaces part of it, and no operation on one file changes
    another. *)

From S2P Require Import Prelude Text Bytes Ext2 Ext2Fs Ext2Disk Ext2Alloc Ext2Blocks Ext2Inode Ext2Tree Ext2Map Ext2File.

(** ** The abstract file *)

(** [write(2)] on a byte string: a gap before [off] is filled with zeros. *)
Definition write_at (l : list Z) (off : Z) (d : list Z) : list Z :=
  match d with
  | [] => l
  | _ => let l' := l ++ zeros (off - zlen l) in
         take (Z.to_nat off) l' ++ d ++ drop (Z.to_nat off + length d) l'
  end.

(** [truncate(2)]: cut, or extend with zeros. *)
Definition resize_to (l : list Z) (n : Z) : list Z := take (Z.to_nat n) l ++ zeros (n - zlen l).

Lemma zlen_zeros_max n : zlen (zeros n) = Z.max 0 n.
Proof. unfold zlen, zeros. rewrite length_replicate. lia. Qed.

Lemma write_at_eq l off d :
  d ≠ [] → write_at l off d =
  take (Z.to_nat off) (l ++ zeros (off - zlen l)) ++ d ++ drop (Z.to_nat off + length d) (l ++ zeros (off - zlen l)).
Proof. by destruct d. Qed.

Lemma zlen_write_at l off d : d ≠ [] → 0 ≤ off → zlen (write_at l off d) = Z.max (zlen l) (off + zlen d).
Proof.
  intros Hd Ho. rewrite write_at_eq by done. rewrite !zlen_app. set (k := l ++ zeros (off - zlen l)).
  assert (zlen k = Z.max (zlen l) off) as Hk by (unfold k; rewrite zlen_app, zlen_zeros_max; lia).
  unfold zlen in *. rewrite length_take, length_drop. lia.
Qed.

Lemma byte_write_at l off d i :
  d ≠ [] → 0 ≤ off → 0 ≤ i → byte (write_at l off d) i = if decide (off ≤ i < off + zlen d) then byte d (i - off) else byte l i.
Proof.
  intros Hd Ho Hi. rewrite write_at_eq by done. set (k := l ++ zeros (off - zlen l)).
  assert (zlen k = Z.max (zlen l) off) as Hk by (unfold k; rewrite zlen_app, zlen_zeros_max; lia).
  assert (∀ j, 0 ≤ j → byte k j = byte l j) as Hkb.
  { intros j Hj. unfold k. destruct (Z.lt_ge_cases j (zlen l)); [by rewrite byte_app_l|].
    by rewrite byte_app_r, byte_zeros, byte_overflow. }
  assert (zlen (take (Z.to_nat off) k) = off) as Ht by (unfold zlen in *; rewrite length_take; lia).
  destruct (Z.lt_ge_cases i off) as [H1|H1].
  - rewrite decide_False by lia. rewrite byte_app_l by lia. rewrite <- Hkb by done. unfold byte. apply nth_take_lt. lia.
  - rewrite byte_app_r, Ht by lia. destruct (Z.lt_ge_cases i (off + zlen d)) as [H2|H2].
    + by rewrite decide_True, byte_app_l by lia.
    + rewrite decide_False, byte_app_r by lia. rewrite <- Hkb by done. unfold byte, zlen in *. rewrite nth_drop_add. f_equal. lia.
Qed.

Section spec.
Context (G : Geo) (HG : geo_ok G).
Implicit Types (s : Fs) (R : Inodes).

Definition is_special_kind (k : Z) : bool :=
  (k =? S_IFCHR) || (k =? S_IFBLK) || (k =? S_IFIFO) || (k =? S_IFSOCK).

(** The block slots of an inode hold block numbers. *)
Definition has_tree (raw : Inode) : bool :=
  negb ((kind raw =? S_IFLNK) && (fget i_sectors raw =? 0)) && negb (is_special_kind (kind raw)).

Definition ino_used (s : Fs) (ino : Z) : bool :=
  bit (blk s (ib_of G (ino_group G ino))) ((ino - 1) mod g_ipg G).

Definition is_inob (ino : Z) : bool := (1 <=? ino) && (ino <=? g_inodes G).

Definition tree_inodes (s : Fs) : Inodes := λ ino,
  if is_inob ino && ino_used s ino && has_tree (inode_at G s ino) then Some (inode_at G s ino) else None.

Record files_ok (s : Fs) : Prop := {
  fo_blocks : blocks_ok G s;
  fo_trees : trees_ok G s (tree_inodes s);
  fo_tail : ∀ ino raw pos, tree_inodes s ino = Some raw → kind raw = S_IFREG → fsize raw ≤ pos → fbyte G s raw pos = 0;
}.

(** The bytes of a file, a directory or a long symbolic link. *)
Definition contents (s : Fs) (ino : Z) : option (list Z) :=
  raw ← tree_inodes s ino; Some (fdata G s raw 0 (fsize raw)).

Lemma is_inob_true ino : is_inob ino = true ↔ is_ino G ino.
Proof. unfold is_inob, is_ino. rewrite andb_true_iff, !Z.leb_le. done. Qed.

Lemma tree_inodes_Some s ino raw :
  tree_inodes s ino = Some raw → is_ino G ino ∧ raw = inode_at G s ino ∧ has_tree raw = true ∧ ino_used s ino = true.
Proof.
  unfold tree_inodes. destruct (is_inob ino) eqn:E1; [|done]. destruct (ino_used s ino) eqn:E2; [|done].
  destruct (has_tree _) eqn:E3; [|done]. simpl. intros [= <-]. split_and!; try done. by apply is_inob_true.
Qed.

(** ** States that differ in an inode record *)

Lemma put_inode_frame s R ino raw :
  blocks_ok G s → trees_ok G s R → is_ino G ino → zlen raw = g_isz G → Forall is_byte raw →
  let s' := put_inode G ino raw s in
  blocks_ok G s' ∧ trees_ok G s' R ∧
  (∀ j rawj q, R j = Some rawj → valid G q → node s' rawj q = node s rawj q) ∧
  (∀ j rawj pos, R j = Some rawj → 0 ≤ pos → fbyte G s' rawj pos = fbyte G s rawj pos).
Proof using HG.
  intros Hs Ht Hi Hz Hb s'. pose proof (bo_disk _ _ Hs) as Hd.
  pose proof (differ_put_inode G HG s ino raw Hd Hi Hz) as Hdf. fold s' in Hdf.
  pose proof (disk_ok_put_inode G HG s ino raw Hd Hi Hz Hb) as Hd'. fold s' in Hd'.
  destruct (blocks_ok_frame G HG (is_it G) s s') as [Hs' Hf]; try done.
  { intros b Hb' Hbb. by apply (bb_not_it G HG b). }
  assert (∀ x, in_file G s x → blk s' x = blk s x) as Hblk.
  { intros x Hx. pose proof (in_file_good G HG s x Hx) as [? ?]. apply (differ_blk G HG (is_it G)); try done; [lia|].
    intros Hit. destruct Hx as (_ & _ & Hm). by apply Hm, is_it_meta. }
  assert (∀ j rawj q, R j = Some rawj → valid G q → node s' rawj q = node s rawj q) as Hnode.
  { intros j rawj [sl q] HR Hq. apply (node_same G s s' R j); try done. intros k _ Hin. by apply Hblk. }
  split_and!; try done.
  - apply (trees_same G s R); try done. intros j rawj HR. destruct (to_raw _ _ _ Ht j rawj HR). split_and!; try done.
    exists rawj. split; [done|]. intros q Hq. by apply (Hnode j).
  - intros j rawj pos HR Hpos. apply (fbyte_same G HG); [done|]. intros q Hq _. rewrite (Hnode j) by done. split; [done|].
    intros Hn. by apply Hblk, (to_node _ _ _ Ht j).
Qed.

Lemma ib_not_it b g : is_group G g → b = ib_of G g → ¬ is_it G b.
Proof using HG.
  intros Hg -> (g' & Hg' & Hb). assert (1 = 2)%nat; [|done].
  refine (proj2 (ext_disjoint G HG g 1 g' 2 (ib_of G g) Hg Hg' _ _ _ Hb)); try lia. unfold in_ext, ext_of. simpl. lia.
Qed.

Lemma used_put_inode s ino raw j :
  disk_ok G s → is_ino G ino → is_ino G j → zlen raw = g_isz G → Forall is_byte raw →
  ino_used (put_inode G ino raw s) j = ino_used s j.
Proof using HG.
  intros Hd Hi Hj Hz Hb. unfold ino_used. pose proof (ino_group_ok G HG j Hj) as Hg. pose proof (ib_good G HG _ Hg) as [? ?].
  f_equal. apply (differ_blk G HG (is_it G)); try done.
  - by apply (disk_ok_put_inode G HG).
  - by apply (differ_put_inode G HG).
  - lia.
  - by eapply ib_not_it.
Qed.

Lemma tree_inodes_put s ino raw j :
  disk_ok G s → is_ino G ino → zlen raw = g_isz G → Forall is_byte raw →
  tree_inodes (put_inode G ino raw s) j =
    if decide (j = ino) then (if ino_used s ino && has_tree raw then Some raw else None) else tree_inodes s j.
Proof using HG.
  intros Hd Hi Hz Hb. unfold tree_inodes. destruct (is_inob j) eqn:Ej; cycle 1.
  { rewrite decide_False; [done|]. intros ->. by rewrite (proj2 (is_inob_true _) Hi) in Ej. }
  apply is_inob_true in Ej. rewrite used_put_inode by done. destruct (decide (j = ino)) as [->|Hne].
  - by rewrite (inode_at_put_same G HG).
  - by rewrite (inode_at_put_other G HG).
Qed.

(** The inode side of the disk through a change of data and bit maps. *)
Lemma differ_maps s s' :
  disk_ok G s → disk_ok G s' → differ_in (λ x, is_bb G x ∨ ¬ is_meta G x) s s' → ∀ g, is_group G g → blk s' (ib_of G g) = blk s (ib_of G g).
Proof using HG.
  intros Hd Hd' Hdf g Hg. pose proof (ib_good G HG _ Hg) as [? ?]. apply (differ_blk G HG (λ x, is_bb G x ∨ ¬ is_meta G x)); try done; [lia|].
  intros [(g' & Hgg & He)|Hbm]; [by apply (bb_not_ib G HG g' g)|by apply Hbm, ib_meta].
Qed.

Lemma differ_inodes s s' :
  disk_ok G s → disk_ok G s' → differ_in (λ x, is_bb G x ∨ ¬ is_meta G x) s s' →
  (∀ j, is_ino G j → inode_at G s' j = inode_at G s j ∧ ino_used s' j = ino_used s j).
Proof using HG.
  intros Hd Hd' Hdf j Hj. split.
  - apply (differ_inode G HG (λ x, is_bb G x ∨ ¬ is_meta G x)); try done. intros b [Hb|Hb] Hit; [by apply (bb_not_it G HG b)|]. by apply Hb, is_it_meta.
  - unfold ino_used. f_equal. pose proof (ino_group_ok G HG j Hj) as Hg. pose proof (ib_good G HG _ Hg) as [? ?].
    apply (differ_blk G HG (λ x, is_bb G x ∨ ¬ is_meta G x)); try done; [lia|]. intros [(g & Hgg & He)|Hb].
    + by apply (bb_not_ib G HG g (ino_group G j)).
    + by apply Hb, ib_meta.
Qed.

(** ** Reading *)

Lemma seg_fdata s raw n o m : 0 ≤ o → 0 ≤ m → o + m ≤ n → seg (fdata G s raw 0 n) o m = fdata G s raw o m.
Proof.
  intros. apply bytes_ext; [rewrite zlen_seg; rewrite ?zlen_fdata; lia|]. intros i Hi.
  rewrite zlen_seg in Hi by (rewrite ?zlen_fdata; lia). rewrite byte_seg, !byte_fdata by lia. f_equal.
Qed.

Lemma is_byte_fdata s raw o n : disk_ok G s → Forall is_byte (fdata G s raw o n).
Proof.
  intros Hd. unfold fdata. apply Forall_fmap. apply Forall_forall. intros x _. by apply fbyte_is_byte.
Qed.

(** The result of [read]: the bytes from [off] on, as many as fit. *)
Lemma read_eq s ino raw off len :
  files_ok s → tree_inodes s ino = Some raw → kind raw ≠ S_IFDIR → 0 ≤ off → 0 ≤ len →
  Z.min (off + len) (fsize raw) ≤ max_size G →
  read ino off len s = Some (inr (seg (fdata G s raw 0 (fsize raw)) off len), s).
Proof using HG.
  intros Hf HR Hk Hoff Hlen Hmax. pose proof (fo_trees _ Hf) as Ht. pose proof (bo_disk _ _ (fo_blocks _ Hf)) as Hd.
  destruct (tree_inodes_Some s ino raw HR) as (Hi & Hraw & _). destruct (to_raw _ _ _ Ht ino raw HR) as [Hz Hb]. pose proof (go_isz G HG).
  pose proof (fsize_range raw ltac:(lia) Hb) as Hsz.
  unfold read, try_bind, mbind, exec_bind. rewrite (read_inode_eq G HG s ino Hd Hi), <- Hraw. unfold need, is_dir.
  rewrite is_kind_eq by lia. rewrite (proj2 (Z.eqb_neq _ _)) by done. rewrite size_eq by lia.
  destruct (Z.leb_spec (fsize raw) off) as [Hpast|Hin].
  - unfold ok, mret, exec_ret, seg. rewrite drop_ge, take_nil; [done|].
    pose proof (zlen_fdata G s raw 0 (fsize raw)) as Hl. unfold zlen in Hl. lia.
  - unfold try_inode, with_inode, mbind, exec_bind, mret, exec_ret.
    rewrite (read_loop_eq G HG s (tree_inodes s)); try done; try lia.
    + cbn. unfold ok, mret, exec_ret. f_equal. f_equal. f_equal. destruct (Z.min_spec len (fsize raw - off)) as [[Hlt ->]|[Hge ->]].
      * by rewrite seg_fdata by lia.
      * rewrite <- (seg_fdata s raw (fsize raw) off (fsize raw - off)) by lia. unfold seg.
        rewrite !take_ge; [done| |]; rewrite length_drop; pose proof (zlen_fdata G s raw 0 (fsize raw)) as Hl; unfold zlen in Hl; lia.
    + unfold zlen. simpl. lia.
    + unfold zlen. simpl. lia.
Qed.
(** ** Writing *)

Definition stamped (t : Z) (raw : Inode) : Inode := fset i_ctime t (fset i_mtime t raw).

Lemma stamp_eq s raw : 128 ≤ zlen raw → stamp raw s = Some (stamped (clock s (readings s)) raw, ticked s).
Proof.
  intros Hz. unfold stamp, now, get, modify, need, mbind, exec_bind, mret, exec_ret.
  rewrite iset_ok by done. by rewrite iset_ok by (rewrite ?zlen_fset; done).
Qed.

Lemma stamped_raw t raw :
  zlen raw = g_isz G → Forall is_byte raw →
  zlen (stamped t raw) = g_isz G ∧ Forall is_byte (stamped t raw) ∧
  (∀ f, field_ok f → f ≠ i_mtime → f ≠ i_ctime → fget f (stamped t raw) = fget f raw).
Proof using HG.
  intros Hz Hb. pose proof (go_isz G HG). unfold stamped. assert (zlen (fset i_mtime t raw) = g_isz G) as H1 by (rewrite zlen_fset; [done|lia|done]).
  split_and!; [rewrite zlen_fset; [done|lia|done]|by apply is_byte_fset, is_byte_fset|].
  intros f Hf N1 N2. rewrite !fget_other; try done; lia.
Qed.

Lemma blocks_ok_ticked s : blocks_ok G s → blocks_ok G (ticked s).
Proof. intros [[A1 A2 A3 A4] B C D E]. split; try done. Qed.

Lemma trees_ok_ticked s R : trees_ok G s R → trees_ok G (ticked s) R.
Proof.
  intros Ht. apply (trees_same G s R); try done. intros j raw HR. destruct (to_raw _ _ _ Ht j raw HR). split_and!; try done.
  exists raw. split; [done|]. intros q _. by apply walk_dev.
Qed.

(** Every file but [ino] is as it was. *)
Definition others_same (ino : Z) (s s' : Fs) : Prop :=
  ∀ j, j ≠ ino → contents s' j = contents s j ∧ (is_ino G j → inode_at G s' j = inode_at G s j).

(** ** Writing an inode back *)

(** The inodes with trees after [ino] got the record [raw]. *)
Definition set_tree (R : Inodes) (ino : Z) (raw : Inode) : Inodes :=
  λ j, if decide (j = ino) then (if has_tree raw then Some raw else None) else R j.

(** The end of an operation that changed the tree and the record of one inode:
    the record goes to disk. *)
Record committed (ino : Z) (raw : Inode) s0 s s' : Prop := {
  cm_ok : files_ok s';
  cm_trees : ∀ j, tree_inodes s' j = set_tree (tree_inodes s0) ino raw j;
  cm_mine : contents s' ino = if has_tree raw then Some (fdata G s raw 0 (fsize raw)) else None;
  cm_other : others_same ino s0 s';
  cm_raw : inode_at G s' ino = raw;
  cm_free : ∀ x, isfree G s' x = isfree G s x;
  cm_maps : ∀ g, is_group G g → blk s' (ib_of G g) = blk s (ib_of G g);
  cm_nodes : ∀ j rawj q, j ≠ ino → tree_inodes s0 j = Some rawj → valid G q → node s' rawj q = node s rawj q;
}.

Lemma commit s0 ino s raw :
  files_ok s0 → is_ino G ino → blocks_ok G s → trees_ok G s (set_tree (tree_inodes s0) ino raw) →
  zlen raw = g_isz G → Forall is_byte raw → ino_used s ino = true →
  (∀ j, j ≠ ino → is_ino G j → inode_at G s j = inode_at G s0 j ∧ ino_used s j = ino_used s0 j) →
  (∀ j rawj pos, j ≠ ino → tree_inodes s0 j = Some rawj → 0 ≤ pos → fbyte G s rawj pos = fbyte G s0 rawj pos) →
  (has_tree raw = true → kind raw = S_IFREG → ∀ pos, fsize raw ≤ pos → fbyte G s raw pos = 0) →
  committed ino raw s0 s (put_inode G ino raw s).
Proof using HG.
  intros Hf Hi Hs Ht Hz Hb Hused Hino Hoth Htail. set (s' := put_inode G ino raw s). pose proof (bo_disk _ _ Hs) as Hd. pose proof (go_isz G HG).
  destruct (put_inode_frame s _ ino raw Hs Ht Hi Hz Hb) as (P1 & P2 & P3 & P4). fold s' in P1, P2, P3, P4.
  pose proof (disk_ok_put_inode G HG s ino raw Hd Hi Hz Hb) as Hd'. pose proof (differ_put_inode G HG s ino raw Hd Hi Hz) as Hdf. fold s' in Hd', Hdf.
  assert (∀ j, tree_inodes s' j = set_tree (tree_inodes s0) ino raw j) as HR'.
  { intros j. unfold s'. rewrite tree_inodes_put by done. unfold set_tree. destruct (decide (j = ino)) as [->|Hne]; [by rewrite Hused|].
    unfold tree_inodes. destruct (is_inob j) eqn:Ej; [|done]. apply is_inob_true in Ej. by destruct (Hino j Hne Ej) as [-> ->]. }
  assert (∀ j rawj, j ≠ ino → tree_inodes s0 j = Some rawj → set_tree (tree_inodes s0) ino raw j = Some rawj) as Hset.
  { intros j rawj Hj HRj. unfold set_tree. by rewrite decide_False. }
  assert (∀ j rawj pos, j ≠ ino → tree_inodes s0 j = Some rawj → 0 ≤ pos → fbyte G s' rawj pos = fbyte G s0 rawj pos) as Hothers.
  { intros j rawj pos Hj HRj Hpos. rewrite (P4 j) by (done || by apply Hset). by apply (Hoth j). }
  split; try done.
  - split; [done|by eapply trees_ok_ext|]. intros j rawj pos Hj Hk Hpos. rewrite HR' in Hj. destruct (to_raw _ _ _ Ht j rawj Hj) as [Hzj Hbj].
    pose proof (fsize_range rawj ltac:(lia) Hbj). rewrite (P4 j) by (done || lia). unfold set_tree in Hj. destruct (decide (j = ino)) as [->|Hne].
    + destruct (has_tree raw) eqn:E; [|done]. injection Hj as <-. by apply Htail.
    + rewrite (Hoth j) by (done || lia). by apply (fo_tail _ Hf j).
  - unfold contents. rewrite HR'. unfold set_tree. rewrite decide_True by done. destruct (has_tree raw) eqn:E; [|done]. cbn. f_equal.
    unfold fdata. apply list_fmap_ext. intros k x Hx%lookup_seqZ. apply (P4 ino); [|lia]. unfold set_tree. by rewrite decide_True, E.
  - intros j Hj. split.
    + unfold contents. rewrite HR'. unfold set_tree. rewrite decide_False by done. destruct (tree_inodes s0 j) as [rawj|] eqn:E; [|done].
      cbn. f_equal. unfold fdata. apply list_fmap_ext. intros k x Hx%lookup_seqZ. apply (Hothers j); [done|done|lia].
    + intros Hij. unfold s'. rewrite (inode_at_put_other G HG) by done. by apply Hino.
  - by apply (inode_at_put_same G HG).
  - destruct (blocks_ok_frame G HG (is_it G) s s') as [_ Hfr]; try done. intros y Hy Hbb. by apply (bb_not_it G HG y).
  - intros g Hg. pose proof (ib_good G HG _ Hg) as [? ?]. apply (differ_blk G HG (is_it G)); try done; [lia|by eapply ib_not_it].
  - intros j rawj q Hj HRj. apply (P3 j). by apply Hset.
Qed.

(** The same for an operation on a file or directory that sets its times. *)
Record updates (ino : Z) (l : list Z) s0 s' : Prop := {
  up_ok : files_ok s';
  up_mine : contents s' ino = Some l;
  up_other : others_same ino s0 s';
  up_id : same_id (inode_at G s0 ino) (inode_at G s' ino);
  up_maps : ∀ g, is_group G g → blk s' (ib_of G g) = blk s0 (ib_of G g);
  up_side : inode_side s' = inode_side s0;
}.

Lemma commit_stamped s0 ino raw0 s raw t (l : list Z) :
  files_ok s0 → tree_inodes s0 ino = Some raw0 → kind raw0 = S_IFREG ∨ kind raw0 = S_IFDIR →
  blocks_ok G s → trees_ok G s (upd (tree_inodes s0) ino raw) → same_id raw0 raw →
  differ_in (λ x, is_bb G x ∨ ¬ is_meta G x) s0 s → inode_side s = inode_side s0 →
  (∀ j rawj pos, j ≠ ino → tree_inodes s0 j = Some rawj → 0 ≤ pos → fbyte G s rawj pos = fbyte G s0 rawj pos) →
  fsize raw = zlen l → (∀ pos, 0 ≤ pos → pos < zlen l ∨ kind raw0 = S_IFREG → fbyte G s raw pos = byte l pos) →
  let s' := put_inode G ino (stamped t raw) (ticked s) in
  updates ino l s0 s' ∧ (∀ x, isfree G s' x = isfree G s x) ∧
  (∀ j rawj q, j ≠ ino → tree_inodes s0 j = Some rawj → valid G q → node s' rawj q = node s rawj q).
Proof using HG.
  intros Hf HR Hreg Hs Ht Hid Hdf Hside Hoth Hsz Hbytes s'. pose proof (bo_disk _ _ (fo_blocks _ Hf)) as Hd0.
  destruct (tree_inodes_Some s0 ino raw0 HR) as (Hi & Hraw0 & Htree0 & Hused0).
  destruct (to_raw _ _ _ Ht ino raw (upd_same _ _ _)) as [Hz Hb]. destruct (stamped_raw t raw Hz Hb) as (Hz' & Hb' & Hst).
  pose proof (go_isz G HG). pose proof (blocks_ok_ticked s Hs) as Hst1. pose proof (bo_disk _ _ Hst1) as Hdt.
  pose proof (differ_inodes s0 (ticked s) Hd0 Hdt Hdf) as Hino. pose proof (zlen_nonneg l).
  assert (∀ k, 0 ≤ k < 15 → iblk (stamped t raw) k = iblk raw k) as Hib by (intros k Hk; rewrite !iblk_fget; by apply Hst).
  assert (kind (stamped t raw) = kind raw0) as Hkd by (unfold kind; rewrite Hst by done; by rewrite Hid).
  assert (has_tree (stamped t raw) = true) as Htree by (unfold has_tree; rewrite Hkd; by destruct Hreg as [->| ->]).
  assert (fsize (stamped t raw) = zlen l) as Hsz' by (rewrite <- Hsz; apply fsize_fget; by apply Hst).
  assert (∀ pos, 0 ≤ pos → fbyte G (ticked s) (stamped t raw) pos = fbyte G s raw pos) as Hfb.
  { intros pos Hpos. rewrite (fbyte_dev G s (ticked s)) by done. by rewrite (fbyte_iblk G HG s raw) by done. }
  assert (trees_ok G (ticked s) (set_tree (tree_inodes s0) ino (stamped t raw))) as Ht'.
  { apply (trees_same G s (upd (tree_inodes s0) ino raw)); try done. intros j rawj Hj. unfold set_tree in Hj. rewrite Htree in Hj.
    destruct (decide (j = ino)) as [->|Hne].
    - injection Hj as <-. split_and!; try done. exists raw. rewrite upd_same. split; [done|].
      intros q Hq. rewrite (node_iblk _ raw) by (by apply Hib, Hq). by apply walk_dev.
    - assert (upd (tree_inodes s0) ino raw j = Some rawj) as Hj' by (by rewrite upd_other).
      destruct (to_raw _ _ _ Ht j rawj Hj'). split_and!; try done. exists rawj. split; [done|]. intros q _. by apply walk_dev. }
  pose proof (commit s0 ino (ticked s) (stamped t raw) Hf Hi Hst1 Ht' Hz' Hb') as Hc. fold s' in Hc. destruct Hc as [C1 C2 C3 C4 C5 C6 C7 C8].
  - by rewrite (proj2 (Hino ino Hi)).
  - intros j _. apply Hino.
  - intros j rawj pos Hj HRj Hpos. rewrite (fbyte_dev G s (ticked s)) by done. by apply (Hoth j).
  - intros _ Hk pos Hpos. rewrite Hkd in Hk. rewrite Hsz' in Hpos. rewrite Hfb by lia. rewrite Hbytes by (lia || by right). by apply byte_overflow.
  - split; [|split; [done|]]; cycle 1.
    { intros j rawj q Hj HRj Hq. rewrite (C8 j) by done. by apply walk_dev. }
    split; try done.
    + rewrite C3, Htree, Hsz'. f_equal. apply bytes_ext; rewrite zlen_fdata by lia; [done|]. intros i Hil. rewrite byte_fdata by lia.
      rewrite Hfb by lia. apply Hbytes; [lia|left; lia].
    + rewrite C5, <- Hraw0. intros f Hff ? ? ? ? ? ?. rewrite Hst by done. by apply Hid.
    + intros g Hg. rewrite C7 by done. by apply (differ_maps s0 (ticked s)).
Qed.
Definition write_limit (s : Fs) : Z :=
  if Z.land (sbv s_feature_ro_compat s) RO_LARGE_FILE =? 0 then U32 - 1 else 2 ^ 40.

(** No free block is left. *)
Definition full (s : Fs) : Prop := ∀ b, isfree G s b = false.

Lemma progress_bytes s ino raw off data m s1 raw1 :
  files_ok s → tree_inodes s ino = Some raw → kind raw = S_IFREG → 0 ≤ off → 0 ≤ m ≤ zlen data →
  progress G (tree_inodes s) ino s raw off data m s1 raw1 →
  let l := write_at (fdata G s raw 0 (fsize raw)) off (take (Z.to_nat m) data) in
  fsize raw1 = zlen l ∧ ∀ pos, 0 ≤ pos → fbyte G s1 raw1 pos = byte l pos.
Proof using HG.
  intros Hf HR Hreg Hoff Hm Hpg l. destruct (to_raw _ _ _ (fo_trees _ Hf) ino raw HR) as [Hz Hb]. pose proof (go_isz G HG).
  pose proof (fsize_range raw ltac:(lia) Hb). set (old := fdata G s raw 0 (fsize raw)) in *.
  assert (zlen old = fsize raw) as Hzo by (apply zlen_fdata; lia).
  assert (∀ pos, 0 ≤ pos → fbyte G s raw pos = byte old pos) as Hold.
  { intros pos Hpos. destruct (Z.lt_ge_cases pos (fsize raw)); [by unfold old; rewrite byte_fdata by lia|].
    rewrite byte_overflow by lia. by apply (fo_tail _ Hf ino). }
  assert (zlen (take (Z.to_nat m) data) = m) as Hzm by (unfold zlen in *; rewrite length_take; lia).
  rewrite (pg_size _ _ _ _ _ _ _ _ _ _ Hpg). destruct (decide (m = 0)) as [->|Hm0].
  - unfold l. rewrite take_0. cbn [write_at]. split; [done|]. intros pos Hpos.
    rewrite (pg_mine _ _ _ _ _ _ _ _ _ _ Hpg) by done. rewrite decide_False by lia. by apply Hold.
  - assert (take (Z.to_nat m) data ≠ []) as Hne by (intros He; rewrite He in Hzm; unfold zlen in Hzm; simpl in Hzm; lia).
    split; [unfold l; rewrite zlen_write_at; [lia|done|lia]|]. intros pos Hpos. unfold l. rewrite byte_write_at by (done || lia).
    rewrite (pg_mine _ _ _ _ _ _ _ _ _ _ Hpg) by done. rewrite Hzm.
    destruct (decide _); [|by apply Hold]. unfold byte. rewrite nth_take_lt; [done|lia].
Qed.

Lemma wp_write s ino raw off data Q :
  files_ok s → tree_inodes s ino = Some raw → kind raw = S_IFREG → 0 ≤ off → Forall is_byte data →
  off + zlen data ≤ max_size G → off + zlen data ≤ write_limit s → sectors_room G raw off (off + zlen data) →
  (∀ r s',
     match r with
     | inr n => 0 ≤ n ≤ zlen data ∧ (n < zlen data → 0 < n ∧ full s') ∧
         updates ino (write_at (fdata G s raw 0 (fsize raw)) off (take (Z.to_nat n) data)) s s'
     | inl e => e = NoSpace ∧ full s' ∧ updates ino (fdata G s raw 0 (fsize raw)) s s'
     end → Q r s') →
  wp (write ino off data) Q s.
Proof using HG.
  intros Hf HR Hreg Hoff Hdata Hmax Hlim Hroom HQ. pose proof (fo_blocks _ Hf) as Hs. pose proof (bo_disk _ _ Hs) as Hd.
  destruct (tree_inodes_Some s ino raw HR) as (Hi & Hraw & _). destruct (to_raw _ _ _ (fo_trees _ Hf) ino raw HR) as [Hz Hb].
  pose proof (go_isz G HG). assert (write_limit s ≤ 2 ^ 40) as Hl40 by (unfold write_limit; destruct (_ =? _); unfold U32; lia).
  unfold write, check_rw. ie_steps. rewrite (bo_rw _ _ Hs). ie_steps. eapply wp_eq; [by apply (read_inode_eq G HG)|]. cbn beta iota.
  rewrite <- Hraw. unfold is_dir. rewrite is_kind_eq, Hreg by lia. change (S_IFREG =? S_IFDIR) with false. ie_steps. fold (write_limit s). pose proof (zlen_nonneg data).
  rewrite !(proj2 (Z.ltb_ge _ _)) by (unfold u64_max, U64; lia). cbn beta iota delta [orb]. ie_steps.
  assert (∀ m s1 raw1, 0 ≤ m ≤ zlen data → progress G (tree_inodes s) ino s raw off data m s1 raw1 →
    (m < zlen data → full s1) → (m = 0 → 0 < zlen data → full s1) →
    wp (inode ← stamp raw1; _ ←? write_inode ino inode; if (m =? 0) && negb (zlen data =? 0) then err NoSpace else ok m) Q s1) as Hfin.
  { intros m s1 raw1 Hm Hpg Hfull1 Hfull2. pose proof (pg_ok _ _ _ _ _ _ _ _ _ _ Hpg) as Hs1. pose proof (pg_trees _ _ _ _ _ _ _ _ _ _ Hpg) as Ht1.
    destruct (to_raw _ _ _ Ht1 ino raw1 (upd_same _ _ _)) as [Hz1 Hb1]. destruct (stamped_raw (clock s1 (readings s1)) raw1 Hz1 Hb1) as (Hz2 & Hb2 & _).
    destruct (progress_bytes s ino raw off data m s1 raw1 Hf HR Hreg Hoff Hm Hpg) as [Hsz Hby].
    destruct (commit_stamped s ino raw s1 raw1 (clock s1 (readings s1)) _ Hf HR (or_introl Hreg) Hs1 Ht1 (pg_same _ _ _ _ _ _ _ _ _ _ Hpg)
      (pg_differ _ _ _ _ _ _ _ _ _ _ Hpg) (pg_side _ _ _ _ _ _ _ _ _ _ Hpg) (pg_others _ _ _ _ _ _ _ _ _ _ Hpg) Hsz (λ pos Hp _, Hby pos Hp)) as (Hup & Hfr & _).
    set (s' := put_inode G ino (stamped (clock s1 (readings s1)) raw1) (ticked s1)) in *.
    assert (full s1 → full s') as Hfull by (intros Hfu b; rewrite Hfr; apply Hfu).
    ie_steps. eapply wp_eq; [apply stamp_eq; lia|]. cbn beta iota. ie_steps.
    eapply wp_eq; [apply (write_inode_eq G HG); [apply (bo_disk _ _ (blocks_ok_ticked s1 Hs1))|done|done]|]. cbn beta iota. fold s'.
    destruct (Z.eqb_spec m 0) as [->|Hm0]; cbn [andb].
    - destruct (Z.eqb_spec (zlen data) 0) as [Hd0|Hd0]; cbn [negb]; ie_steps; apply HQ; try done.
      + split; [lia|]. split; [lia|done].
      + split; [done|]. split; [apply Hfull, Hfull2; lia|]. by rewrite take_0 in Hup.
    - ie_steps. apply HQ; try done. split; [lia|]. split; [|done]. intros Hlt. split; [lia|]. by apply Hfull, Hfull1. }
  unfold write_into. apply (wp_file_write_loop G HG (tree_inodes s) ino s raw off data); try done; try lia.
  - apply (fo_trees _ Hf).
  - unfold size_bound. rewrite Hreg. simpl. unfold U64. lia.
  - split; try done.
    + eapply trees_ok_ext; [|apply (fo_trees _ Hf)]. intros j. by apply upd_id.
    + intros pos Hpos. by rewrite decide_False by lia.
  - unfold zlen. lia.
  - by rewrite Z.add_0_r.
  - intros r [s1 raw1] Hpost. cbn [fst snd]. unfold write_post in Hpost. destruct r as [e|m].
    + destruct Hpost as (-> & Hpg & Hfree & Hlen). cbn [fst snd] in *. apply Hfin; [lia|done| |]; intros; intros b;
        by apply (none_free G HG); [apply (pg_ok _ _ _ _ _ _ _ _ _ _ Hpg)|].
    + destruct Hpost as (Hm & Hpg & Hfree). cbn [fst snd] in *. apply Hfin; [lia|done| |].
      * intros Hlt b. destruct (Hfree Hlt). by apply (none_free G HG); [apply (pg_ok _ _ _ _ _ _ _ _ _ _ Hpg)|].
      * intros -> Hlt. lia.
Qed.
End spec.
