(* ===== verification/Ext2Free.v ===== *)
(** * The ext2 file system: freeing the blocks of a file

    [free_from] removes exactly the file blocks from a given one on, and the
    pointer blocks that have nothing left below them.  While it runs, pointer
    blocks it has changed in memory are not yet on disk, so the disk has
    pointers to blocks that are already free; the invariant is that of the disk
    with the pending blocks written over it. *)

From S2P Require Import Prelude Text Bytes Ext2 Ext2Fs Ext2Disk Ext2Alloc Ext2Blocks Ext2Inode Ext2Tree Ext2Map Ext2File.

(** ** Pending writes *)

Lemma paste_comm d a v b w :
  0 ≤ a → 0 ≤ b → a + zlen v ≤ zlen d → b + zlen w ≤ zlen d → a + zlen v ≤ b ∨ b + zlen w ≤ a →
  paste (paste d b w) a v = paste (paste d a v) b w.
Proof.
  intros Ha Hb Hla Hlb Hdis. pose proof (zlen_nonneg v). pose proof (zlen_nonneg w).
  apply bytes_ext; rewrite !zlen_paste by (rewrite ?zlen_paste; lia); [done|]. intros i Hi.
  rewrite !byte_paste by (rewrite ?zlen_paste; lia).
  destruct (Z.leb_spec a i), (Z.ltb_spec i (a + zlen v)), (Z.leb_spec b i), (Z.ltb_spec i (b + zlen w)); simpl; try done; lia.
Qed.

Lemma paste_twice d a v w :
  0 ≤ a → a + zlen v ≤ zlen d → zlen w = zlen v → paste (paste d a w) a v = paste d a v.
Proof.
  intros Ha Hl Hw. pose proof (zlen_nonneg v). apply bytes_ext; rewrite !zlen_paste by (rewrite ?zlen_paste; lia); [done|].
  intros i Hi. rewrite !byte_paste by (rewrite ?zlen_paste; lia). rewrite Hw.
  by destruct ((a <=? i) && (i <? a + zlen v)).
Qed.

Definition Overlay : Type := list (Z * list Z).
Definition ap (ov : Overlay) (s : Fs) : Fs := foldr (λ e s, put_block e.1 e.2 s) s ov.

Section overlay.
Context (G : Geo) (HG : geo_ok G).
Implicit Types (s : Fs) (R : Inodes).

Definition pending_ok (e : Z * list Z) : Prop :=
  good_block G e.1 ∧ ¬ is_bb G e.1 ∧ zlen e.2 = g_bs G ∧ Forall is_byte e.2.

Lemma blocks_apart a b : a ≠ b → a * g_bs G + g_bs G ≤ b * g_bs G ∨ b * g_bs G + g_bs G ≤ a * g_bs G.
Proof using HG. intros Hne. pose proof (bs_pos G HG). destruct (Z.lt_ge_cases a b); [left|right]; nia. Qed.

Lemma put_block_comm s x v y w :
  disk_ok G s → good_block G x → good_block G y → x ≠ y → zlen v = g_bs G → zlen w = g_bs G →
  put_block x v (put_block y w s) = put_block y w (put_block x v s).
Proof using HG.
  intros Hd Hx Hy Hne Hv Hw. unfold put_block. cbn [dev bs with_dev]. geo Hd.
  destruct (block_inside G HG s x Hd ltac:(unfold good_block in Hx; lia)).
  destruct (block_inside G HG s y Hd ltac:(unfold good_block in Hy; lia)).
  unfold with_dev. cbn. f_equal. apply paste_comm; try lia. rewrite Hv, Hw. by apply blocks_apart.
Qed.

Lemma put_block_twice s x v w :
  disk_ok G s → good_block G x → zlen v = g_bs G → zlen w = g_bs G → put_block x v (put_block x w s) = put_block x v s.
Proof using HG.
  intros Hd Hx Hv Hw. unfold put_block. cbn [dev bs with_dev]. geo Hd.
  destruct (block_inside G HG s x Hd ltac:(unfold good_block in Hx; lia)).
  unfold with_dev. cbn. f_equal. apply paste_twice; lia.
Qed.

Lemma ap_frame ov s :
  Forall pending_ok ov → blocks_ok G s →
  blocks_ok G (ap ov s) ∧ (∀ x, isfree G (ap ov s) x = isfree G s x) ∧ inode_side (ap ov s) = inode_side s.
Proof using HG.
  intros Hov Hs. induction Hov as [|[x v] ov (H1 & H2 & H3 & H4) _ IH]; [done|]. destruct IH as (I1 & I2 & I3).
  simpl. destruct (put_block_frame G HG (ap ov s) x v I1 H1 H2 H3 H4) as [J1 J2].
  split_and!; [done|intros c; by rewrite J2|done].
Qed.

Lemma ap_blk ov s c :
  Forall pending_ok ov → blocks_ok G s → good_block G c → c ∉ ov.*1 → blk (ap ov s) c = blk s c.
Proof using HG.
  intros Hov Hs Hc. induction Hov as [|[x v] ov (H1 & H2 & H3 & H4) Hov IH]; [done|]. rewrite fmap_cons. intros [Hx Hn]%not_elem_of_cons.
  simpl. destruct (ap_frame ov s Hov Hs) as (I1 & _ & _). cbn [fst snd] in *.
  rewrite (blk_put_other G HG); [by apply IH|apply (bo_disk _ _ I1)|done|done|done|unfold good_block in Hc; lia|congruence].
Qed.

Lemma ap_put ov s c v :
  Forall pending_ok ov → blocks_ok G s → pending_ok (c, v) → c ∉ ov.*1 → ap ov (put_block c v s) = put_block c v (ap ov s).
Proof using HG.
  intros Hov Hs Hp. induction Hov as [|[x w] ov Hx Hov IH]; [done|]. rewrite fmap_cons. intros [Hne Hn]%not_elem_of_cons.
  simpl. rewrite IH by done. destruct (ap_frame ov s Hov Hs) as (I1 & _ & _). destruct Hx as (? & ? & ? & ?), Hp as (? & ? & ? & ?).
  cbn [fst snd] in *. apply put_block_comm; [apply (bo_disk _ _ I1)|done|done|congruence|done|done].
Qed.

Lemma gave_put b s s' x v : pending_ok (x, v) → disk_ok G s → gave G b s s' → gave G b (put_block x v s) (put_block x v s').
Proof using HG.
  intros (H1 & H2 & H3 & H4) Hd Hg. cbn [fst snd] in *. pose proof (gv_ok _ _ _ _ Hg) as Hs'. pose proof (bo_disk _ _ Hs') as Hd'.
  destruct (put_block_frame G HG s' x v Hs' H1 H2 H3 H4) as [J1 J2]. split; [done| | |apply (gv_rest _ _ _ _ Hg)].
  - intros c. rewrite J2, (gv_free _ _ _ _ Hg). f_equal. symmetry. unfold isfree.
    destruct (Z.leb_spec (g_first G) c); [|done]. destruct (Z.ltb_spec c (g_blocks G)); [|done].
    destruct (block_group G HG c ltac:(lia)) as [Hgg _]. rewrite (blk_put_other G HG); try done.
    + pose proof (bb_good G HG _ Hgg). unfold good_block in *. lia.
    + intros ->. apply H2. by exists (group_of G c).
  - intros i Hi Hn. destruct (block_inside G HG s x Hd ltac:(unfold good_block in H1; lia)).
    destruct (block_inside G HG s' x Hd' ltac:(unfold good_block in H1; lia)).
    unfold put_block. cbn [dev with_dev]. geo Hd. geo Hd'. rewrite !byte_paste by lia. destruct (_ && _); [done|].
    by apply (gv_disk _ _ _ _ Hg).
Qed.

Lemma gave_ap ov b s s' : Forall pending_ok ov → blocks_ok G s → gave G b s s' → gave G b (ap ov s) (ap ov s').
Proof using HG.
  intros Hov Hs Hg. induction Hov as [|[x v] ov Hx Hov IH]; [done|]. simpl. apply gave_put; [done| |done].
  by apply (bo_disk _ _ (proj1 (ap_frame ov s Hov Hs))).
Qed.

(** ** Removing a block *)

(** Pointer [i] of block [c] is cleared and the block [b] it named is free. *)
Record unlinked (V V' : Fs) (b c i : Z) : Prop := {
  un_ok : blocks_ok G V';
  un_free : ∀ x, isfree G V' x = isfree G V x || (b =? x);
  un_differ : differ_in (λ x, is_bb G x ∨ x = c) V V';
  un_ptr : ∀ j, 0 ≤ j < pp G → ptr V' c j = if decide (j = i) then 0 else ptr V c j;
}.

Lemma unlinked_same V V' b c i x :
  disk_ok G V → unlinked V V' b c i → in_file G V x → x ≠ c → blk V' x = blk V x.
Proof using HG.
  intros Hd Hu Hx Hc. pose proof (in_file_good G HG V x Hx) as [? ?].
  apply (differ_blk G HG (λ x, is_bb G x ∨ x = c)); try done; [apply (bo_disk _ _ (un_ok _ _ _ _ _ Hu))|apply (un_differ _ _ _ _ _ Hu)|lia|].
  intros [Hbb|?]; [by apply (file_not_bb G V x)|done].
Qed.

(** Nothing hangs below a position. *)
Definition bare (V : Fs) (raw : Inode) (q : Pos) : Prop :=
  ∀ j r, valid G (q.1, q.2 ++ j :: r) → node V raw (q.1, q.2 ++ j :: r) = 0.

Lemma node_unlinked V V' R ino raw slot pre i :
  disk_ok G V → trees_ok G V R → R ino = Some raw → valid G (slot, pre ++ [i]) →
  node V raw (slot, pre) ≠ 0 → node V raw (slot, pre ++ [i]) ≠ 0 → bare V raw (slot, pre ++ [i]) →
  unlinked V V' (node V raw (slot, pre ++ [i])) (node V raw (slot, pre)) i →
  ∀ j rawj q, R j = Some rawj → valid G q →
    node V' rawj q = if decide (j = ino ∧ q = (slot, pre ++ [i])) then 0 else node V rawj q.
Proof using HG.
  intros Hd Ht HR Hv Hc Hb Hbare Hu j rawj [sl q] HRj Hq. set (c := node V raw (slot, pre)) in *.
  pose proof (valid_prefix G slot pre [i] Hv) as Hvp.
  assert (∀ inoz rawz slz z, R inoz = Some rawz → valid G (slz, z) →
    (∀ k, (k < length z)%nat → ¬ (inoz = ino ∧ slz = slot ∧ take k z = pre)) →
    node V' rawz (slz, z) = node V rawz (slz, z)) as Haway.
  { intros inoz rawz slz z HRz Hvz Hk. apply (node_same G V V' R inoz); try done. intros k Hlt Hin.
    apply (unlinked_same V V' _ c i _ Hd Hu Hin). intros He.
    destruct (to_inj _ _ _ Ht inoz rawz (slz, take k z) ino raw (slot, pre)) as [-> Hp]; try done; [by apply valid_take|by rewrite He|].
    injection Hp as -> Hp. by apply (Hk k). }
  assert (node V' raw (slot, pre) = c) as Hc'.
  { apply (Haway ino); try done. intros k Hlt (_ & _ & He). apply (f_equal length) in He. rewrite length_take in He. lia. }
  destruct (decide (j = ino ∧ sl = slot ∧ q ≠ pre ∧ pre `prefix_of` q)) as [(-> & -> & Hr & [r ->])|Hno]; cycle 1.
  - rewrite decide_False.
    2:{ intros [-> [= -> ->]]. apply Hno. split_and!; try done; [|by exists [i]].
        intros He. apply (f_equal length) in He. rewrite length_app in He. simpl in He. lia. }
    apply (Haway j); try done. intros k Hlt (-> & -> & He). apply Hno. split_and!; try done.
    + intros ->. apply (f_equal length) in He. rewrite length_take in He. lia.
    + exists (drop k q). by rewrite <- He, take_drop.
  - rewrite HR in HRj. injection HRj as <-. destruct r as [|k r]; [by rewrite app_nil_r in Hr|]. rewrite node_app, Hc'.
    pose proof Hq as (Hq1 & Hq2 & Hq3). cbn [fst snd] in *. apply Forall_app in Hq3 as [Hq3 [Hk Hq4]%Forall_cons].
    simpl. rewrite (proj2 (Z.eqb_neq c 0)) by done. rewrite (un_ptr _ _ _ _ _ Hu k Hk). destruct (decide (k = i)) as [->|Hki].
    + rewrite walk_0. destruct r as [|k' r]; [by rewrite decide_True|].
      rewrite decide_False by (intros [_ [= Hap]]; by apply app_inv_head in Hap).
      specialize (Hbare k' r). cbn [fst snd] in Hbare. rewrite <- app_assoc in Hbare. simpl in Hbare. by rewrite Hbare.
    + rewrite decide_False by (intros [_ [= Hap]]; apply app_inv_head in Hap; by injection Hap as ->).
      rewrite node_app. fold c. simpl. rewrite (proj2 (Z.eqb_neq c 0)) by done. apply walk_ext. intros m Hm Hn.
      assert (walk V (ptr V c k) (take m r) = node V raw (slot, pre ++ k :: take m r)) as He.
      { rewrite node_app. fold c. simpl. by rewrite (proj2 (Z.eqb_neq c 0)) by done. }
      assert (valid G (slot, pre ++ k :: take m r)) as Hvk.
      { split; [done|]. cbn [fst snd]. rewrite length_app in *. simpl in *. rewrite length_take. split; [lia|].
        apply Forall_app. split; [done|]. apply Forall_cons. split; [done|]. by apply Forall_take. }
      rewrite He in *. apply (unlinked_same V V' _ c i _ Hd Hu); [by apply (to_node _ _ _ Ht ino)|].
      intros Hec. destruct (to_inj _ _ _ Ht ino raw _ ino raw (slot, pre) HR HR Hvk Hvp Hec Hn) as [_ Hp].
      injection Hp as Hp. apply (f_equal length) in Hp. rewrite length_app in Hp. simpl in Hp. lia.
Qed.

(** One block fewer. *)
Lemma trees_shrink V R V' R' ino raw p :
  trees_ok G V R → R ino = Some raw → valid G p → node V raw p ≠ 0 →
  (∀ x, isfree G V' x = isfree G V x || (node V raw p =? x)) →
  (∀ j raw1, R' j = Some raw1 → zlen raw1 = g_isz G ∧ Forall is_byte raw1 ∧ ∃ raw0, R j = Some raw0 ∧
     ∀ q, valid G q → node V' raw1 q = if decide (j = ino ∧ q = p) then 0 else node V raw0 q) →
  trees_ok G V' R'.
Proof.
  intros Ht HR Hp Hn Hf HR'. split.
  - intros j raw1 H1. by destruct (HR' j raw1 H1) as (? & ? & _).
  - intros j raw1 q H1 Hq Hnz. destruct (HR' j raw1 H1) as (_ & _ & raw0 & H0 & He). rewrite He in * by done.
    destruct (decide _) as [|Hne]; [done|]. destruct (to_node _ _ _ Ht j raw0 q H0 Hq Hnz) as (A & B & C).
    split; [done|]. split; [|done]. rewrite Hf, B. simpl. apply Z.eqb_neq. intros Heq. apply Hne.
    destruct (to_inj _ _ _ Ht ino raw p j raw0 q HR H0 Hp Hq Heq Hn) as [-> ->]. done.
  - intros j raw1 q j' raw1' q' H1 H1' Hq Hq' He Hnz.
    destruct (HR' j raw1 H1) as (_ & _ & raw0 & H0 & E0). destruct (HR' j' raw1' H1') as (_ & _ & raw0' & H0' & E0').
    rewrite (E0 q Hq) in *. rewrite (E0' q' Hq') in *.
    destruct (decide (j = ino ∧ q = p)); [done|]. destruct (decide (j' = ino ∧ q' = p)); [done|].
    by apply (to_inj _ _ _ Ht j raw0 q j' raw0' q').
Qed.
End overlay.

Section free.
Context (G : Geo) (HG : geo_ok G).
Implicit Types (s V : Fs) (R : Inodes).

(** The number of a file block below a position: its indices as digits. *)
Fixpoint val (l : list Z) : Z :=
  match l with [] => 0 | i :: r => i * pp G ^ zlen r + val r end.

Lemma val_bound l : Forall (λ i, 0 ≤ i < pp G) l → 0 ≤ val l < pp G ^ zlen l.
Proof using HG.
  destruct (pp_range G HG) as [Hp _]. induction 1 as [|i r Hi _ IH]; [done|]. cbn [val]. rewrite zlen_cons.
  pose proof (zlen_nonneg r). rewrite Z.pow_add_r by lia. rewrite Z.pow_1_r.
  pose proof (Z.pow_pos_nonneg (pp G) (zlen r) ltac:(lia) ltac:(lia)). nia.
Qed.

(** ** What removing blocks below a position changes *)

Definition below (p q : Pos) : Prop := q.1 = p.1 ∧ ∃ i r, q.2 = p.2 ++ i :: r.

Record shrunk R (ino : Z) (p : Pos) (cut : list Z → bool) V (raw : Inode) V' (raw' : Inode) : Prop := {
  sh_ok : blocks_ok G V';
  sh_trees : trees_ok G V' (upd R ino raw');
  sh_other : ∀ j rawj q, j ≠ ino → R j = Some rawj → valid G q → node V' rawj q = node V rawj q;
  sh_out : ∀ q, valid G q → ¬ below p q → node V' raw' q = node V raw q;
  sh_in : ∀ q, valid G q → node V' raw' q = node V raw q ∨ node V' raw' q = 0;
  sh_leaf : ∀ r, valid G (p.1, p.2 ++ r) → leaf (p.1, p.2 ++ r) → r ≠ [] →
    node V' raw' (p.1, p.2 ++ r) = if cut r then 0 else node V raw (p.1, p.2 ++ r);
  sh_data : ∀ x, in_file G V x → isfree G V' x = false →
    (∀ r, valid G (p.1, p.2 ++ r) → ¬ leaf (p.1, p.2 ++ r) → x ≠ node V raw (p.1, p.2 ++ r)) → blk V' x = blk V x;
  sh_free : ∀ x, isfree G V x = true → isfree G V' x = true;
  sh_gone : ∀ q, valid G q → node V raw q ≠ 0 → node V' raw' q = 0 → isfree G V' (node V raw q) = true;
  sh_side : inode_side V' = inode_side V;
  sh_differ : differ_in (λ x, is_bb G x ∨ ¬ is_meta G x) V V';
  sh_keeps : keeps raw raw';
  sh_iblk : ∀ k, 0 ≤ k < 15 → iblk raw' k = iblk raw k;
}.

Lemma shrunk_refl R ino p cut V raw :
  blocks_ok G V → trees_ok G V R → R ino = Some raw →
  (∀ r, valid G (p.1, p.2 ++ r) → leaf (p.1, p.2 ++ r) → r ≠ [] → cut r = true → node V raw (p.1, p.2 ++ r) = 0) →
  shrunk R ino p cut V raw V raw.
Proof.
  intros Hs Ht HR Hcut. split; try done.
  - by apply (trees_ok_ext G V R); [intros j; apply upd_id|].
  - by left.
  - intros r Hv Hl Hr. destruct (cut r) eqn:E; [by apply Hcut|done].
Qed.

Lemma shrunk_trans R ino p cut1 cut2 cut V raw V1 raw1 V2 raw2 :
  disk_ok G V → trees_ok G V R → R ino = Some raw →
  shrunk R ino p cut1 V raw V1 raw1 → shrunk (upd R ino raw1) ino p cut2 V1 raw1 V2 raw2 →
  (∀ r, cut r = cut1 r || cut2 r) →
  shrunk R ino p cut V raw V2 raw2.
Proof using HG.
  intros Hd Ht HR H1 H2 Hcut. pose proof (bo_disk _ _ (sh_ok _ _ _ _ _ _ _ _ H1)) as Hd1. split.
  - apply (sh_ok _ _ _ _ _ _ _ _ H2).
  - eapply trees_ok_ext; [|apply (sh_trees _ _ _ _ _ _ _ _ H2)]. intros j. by rewrite upd_upd.
  - intros j rawj q Hj HRj Hq. rewrite (sh_other _ _ _ _ _ _ _ _ H2 j rawj q) by (rewrite ?upd_other; done).
    by apply (sh_other _ _ _ _ _ _ _ _ H1 j).
  - intros q Hq Hb. rewrite (sh_out _ _ _ _ _ _ _ _ H2) by done. by apply (sh_out _ _ _ _ _ _ _ _ H1).
  - intros q Hq. destruct (sh_in _ _ _ _ _ _ _ _ H2 q Hq) as [->| ->]; [|by right]. by apply (sh_in _ _ _ _ _ _ _ _ H1).
  - intros r Hv Hl Hr. rewrite (sh_leaf _ _ _ _ _ _ _ _ H2 r Hv Hl Hr), (sh_leaf _ _ _ _ _ _ _ _ H1 r Hv Hl Hr), Hcut.
    by destruct (cut1 r), (cut2 r).
  - intros x Hx Hf Hn. assert (isfree G V1 x = false) as Hf1.
    { destruct (isfree G V1 x) eqn:E; [|done]. by rewrite (sh_free _ _ _ _ _ _ _ _ H2 x E) in Hf. }
    rewrite (sh_data _ _ _ _ _ _ _ _ H2 x); [by apply (sh_data _ _ _ _ _ _ _ _ H1)| |done|].
    + destruct Hx as (A & _ & C). done.
    + intros r Hv Hl. destruct (sh_in _ _ _ _ _ _ _ _ H1 _ Hv) as [->| ->]; [by apply Hn|].
      pose proof (in_file_good G HG V x Hx) as [? _]. lia.
  - intros x Hx. apply (sh_free _ _ _ _ _ _ _ _ H2). by apply (sh_free _ _ _ _ _ _ _ _ H1).
  - intros q Hq Hn Hz. destruct (decide (node V1 raw1 q = 0)) as [Hz1|Hn1].
    + apply (sh_free _ _ _ _ _ _ _ _ H2). by apply (sh_gone _ _ _ _ _ _ _ _ H1).
    + destruct (sh_in _ _ _ _ _ _ _ _ H1 q Hq) as [He|]; [|done]. rewrite <- He in *. by apply (sh_gone _ _ _ _ _ _ _ _ H2).
  - by rewrite (sh_side _ _ _ _ _ _ _ _ H2), (sh_side _ _ _ _ _ _ _ _ H1).
  - eapply differ_mono; [|eapply differ_trans; [|apply (sh_differ _ _ _ _ _ _ _ _ H1)|apply (sh_differ _ _ _ _ _ _ _ _ H2)]].
    + intros b. cbn beta. tauto.
    + by rewrite (geo_bs _ _ Hd), (geo_bs _ _ Hd1).
  - intros f Hf H3 H4. by rewrite (sh_keeps _ _ _ _ _ _ _ _ H2), (sh_keeps _ _ _ _ _ _ _ _ H1).
  - intros k Hk. by rewrite (sh_iblk _ _ _ _ _ _ _ _ H2), (sh_iblk _ _ _ _ _ _ _ _ H1).
Qed.

(** Removing below a child is removing below its parent; the child stays. *)
Definition cut_child (i : Z) (cut : list Z → bool) (r : list Z) : bool :=
  match r with [] => false | j :: r' => bool_decide (j = i) && cut r' end.
Definition proper (cut : list Z → bool) (r : list Z) : bool := match r with [] => false | _ => cut r end.

Lemma shrunk_child R ino slot pre i cut V raw V' raw' :
  shrunk R ino (slot, pre ++ [i]) cut V raw V' raw' → shrunk R ino (slot, pre) (cut_child i (proper cut)) V raw V' raw'.
Proof.
  intros H1. destruct H1 as [A B C E F L X Y Y' Z1 Z2 Z3 Z4]. cbn [fst snd] in *. split; try done.
  - intros q Hq Hb. apply E; [done|]. intros (Hs & k & r & Hr). cbn [fst snd] in *. apply Hb. split; [done|]. cbn [fst snd].
    exists i, (k :: r). by rewrite Hr, <- app_assoc.
  - intros r Hv Hl Hr. cbn [fst snd] in *. destruct r as [|j r]; [done|]. cbn [cut_child].
    destruct (decide (j = i ∧ r ≠ [])) as [[-> Hr']|Hne].
    + rewrite bool_decide_true by done. cbn [andb]. destruct r as [|k r]; [done|].
      specialize (L (k :: r)). rewrite <- app_assoc in L. cbn [app] in L. by apply L.
    + replace (bool_decide (j = i) && proper cut r) with false.
      2:{ destruct (decide (j = i)); [|by rewrite bool_decide_false]. destruct r; [by rewrite andb_false_r|]. destruct Hne. by split. }
      apply E; [done|]. intros (_ & k & r' & Hr'). cbn [fst snd] in Hr'.
      rewrite <- app_assoc in Hr'. apply app_inv_head in Hr'. injection Hr' as -> ->. by apply Hne.
  - intros x Hx Hf Hn. apply X; [done|done|]. intros r Hv Hl. rewrite <- app_assoc in *. by apply Hn.
Qed.

Lemma shrunk_cut R ino p cut cut' V raw V' raw' :
  (∀ r, valid G (p.1, p.2 ++ r) → leaf (p.1, p.2 ++ r) → r ≠ [] →
     node V raw (p.1, p.2 ++ r) ≠ 0 → cut' r = cut r) →
  shrunk R ino p cut V raw V' raw' → shrunk R ino p cut' V raw V' raw'.
Proof.
  intros Hc H1. destruct H1 as [A B C E F L X Y Y' Z1 Z2 Z3 Z4]. split; try done. intros r Hv Hl Hr. rewrite (L r Hv Hl Hr).
  destruct (decide (node V raw (p.1, p.2 ++ r) = 0)) as [Hz|Hn].
  - rewrite Hz. by destruct (cut r), (cut' r).
  - by rewrite (Hc r).
Qed.

(** ** Sectors *)

Definition uncounted (raw : Inode) : Inode := fset i_sectors (sat_sub (fget i_sectors raw) (spb G)) raw.

Lemma uncounted_raw raw :
  zlen raw = g_isz G → Forall is_byte raw → zlen (uncounted raw) = g_isz G ∧ Forall is_byte (uncounted raw) ∧
  (∀ k, 0 ≤ k < 15 → iblk (uncounted raw) k = iblk raw k) ∧ keeps raw (uncounted raw).
Proof using HG.
  intros Hz Hb. pose proof (go_isz G HG). unfold uncounted. split_and!.
  - rewrite zlen_fset; [done|lia|done].
  - by apply is_byte_fset.
  - intros k Hk. rewrite !iblk_fget. apply fget_other; [lia|done|done|done].
  - intros f Hf Hne _. apply fget_other; [lia|done|done|done].
Qed.

Lemma wp_sub_sectors s (raw : Inode) Q :
  disk_ok G s → zlen raw = g_isz G → Q tt (s, uncounted raw) → wp sub_sectors Q (s, raw).
Proof using HG.
  intros Hd Hz HQ. pose proof (go_isz G HG). unfold sub_sectors. ie_steps. cbn [fst].
  eapply wp_of_inode; [apply iget_ok; [lia|done]|]. rewrite (spb_eq G s Hd). ie_steps.
  eapply wp_on_inode; [apply iset_ok; [lia|done]|]. done.
Qed.

(** ** One block *)

(** The child at index [i] has nothing below it, its block was freed and its
    pointer cleared in the pending parent block. *)
Lemma shrunk_one R ino slot pre i V raw V' :
  blocks_ok G V → trees_ok G V R → R ino = Some raw → valid G (slot, pre ++ [i]) →
  node V raw (slot, pre) ≠ 0 → node V raw (slot, pre ++ [i]) ≠ 0 → bare G V raw (slot, pre ++ [i]) →
  unlinked G V V' (node V raw (slot, pre ++ [i])) (node V raw (slot, pre)) i → inode_side V' = inode_side V →
  shrunk R ino (slot, pre) (cut_child i (λ _, true)) V raw V' (uncounted raw).
Proof using HG.
  intros Hs Ht HR Hv Hc Hb Hbare Hu Hside. pose proof (bo_disk _ _ Hs) as Hd. pose proof (valid_prefix G slot pre [i] Hv) as Hvp.
  pose proof (node_unlinked G HG V V' R ino raw slot pre i Hd Ht HR Hv Hc Hb Hbare Hu) as Hnode.
  destruct (to_raw _ _ _ Ht ino raw HR) as [Hz Hbr]. destruct (uncounted_raw raw Hz Hbr) as (Hz' & Hb' & Hib & Hkp).
  assert (∀ q, valid G q → node V' (uncounted raw) q = if decide (q = (slot, pre ++ [i])) then 0 else node V raw q) as Hme.
  { intros q Hq. rewrite (node_iblk V' raw (uncounted raw)) by (apply Hib, Hq). rewrite (Hnode ino raw q HR Hq).
    destruct (decide (q = _)); [by rewrite decide_True|]. rewrite decide_False; [done|]. by intros [_ ?]. }
  assert (∀ j rawj q, j ≠ ino → R j = Some rawj → valid G q → node V' rawj q = node V rawj q) as Hoth.
  { intros j rawj q Hj HRj Hq. rewrite (Hnode j rawj q HRj Hq). rewrite decide_False; [done|]. by intros [? _]. }
  pose proof (to_node _ _ _ Ht ino raw _ HR Hvp Hc) as Hcf.
  split; try done.
  - apply (un_ok _ _ _ _ _ _ Hu).
  - apply (trees_shrink G V R V' _ ino raw (slot, pre ++ [i])); try done; [apply (un_free _ _ _ _ _ _ Hu)|].
    intros j raw1 Hj. destruct (decide (j = ino)) as [->|Hne].
    + rewrite upd_same in Hj. injection Hj as <-. split_and!; try done. exists raw. split; [done|]. intros q Hq. rewrite Hme by done.
      destruct (decide (q = _)); [by rewrite decide_True|]. rewrite decide_False; [done|]. by intros [_ ?].
    + rewrite upd_other in Hj by done. destruct (to_raw _ _ _ Ht j raw1 Hj). split_and!; try done. exists raw1. split; [done|].
      intros q Hq. rewrite decide_False by (by intros [? _]). by apply (Hoth j).
  - intros q Hq Hnb. rewrite Hme by done. destruct (decide (q = _)) as [->|]; [|done]. destruct Hnb. split; [done|]. by exists i, [].
  - intros q Hq. rewrite Hme by done. destruct (decide (q = _)); [by right|by left].
  - intros r Hvr Hl Hr. cbn [fst snd] in *. destruct r as [|j r]; [done|]. cbn [cut_child]. rewrite andb_true_r. rewrite Hme by done.
    destruct (decide (j = i)) as [->|Hne].
    + rewrite bool_decide_true by done. destruct r as [|k r]; [by rewrite decide_True|].
      destruct (decide _); [done|]. specialize (Hbare k r). cbn [fst snd] in Hbare. rewrite <- app_assoc in Hbare. by apply Hbare.
    + rewrite bool_decide_false by done. rewrite decide_False; [done|]. intros [= Hap]. apply app_inv_head in Hap. by injection Hap as ->.
  - intros x Hx Hf Hn. apply (unlinked_same G HG V V' _ _ i x Hd Hu Hx). specialize (Hn []). rewrite app_nil_r in Hn. apply Hn; [done|].
    unfold leaf. cbn [fst snd]. destruct Hv as (_ & Hv & _). cbn [fst snd] in Hv. rewrite length_app in Hv. simpl in Hv. lia.
  - intros x Hx. by rewrite (un_free _ _ _ _ _ _ Hu), Hx.
  - intros q Hq Hn. rewrite Hme by done. destruct (decide (q = _)) as [->|]; [|done]. intros _.
    by rewrite (un_free _ _ _ _ _ _ Hu), Z.eqb_refl, orb_true_r.
  - eapply differ_mono; [|apply (un_differ _ _ _ _ _ _ Hu)]. intros x [Hx| ->]; [by left|]. right. by destruct Hcf as (_ & _ & ?).
Qed.
Lemma unlink_state ov c b i x s1 s2 :
  blocks_ok G s1 → Forall (pending_ok G) ((c, b) :: ov) → gave G x s1 s2 → 0 ≤ i < pp G →
  let b1 := paste b (i * 4) (le_bytes 4 0) in
  pending_ok G (c, b1) ∧ unlinked G (ap ((c, b) :: ov) s1) (ap ((c, b1) :: ov) s2) x c i ∧
  inode_side (ap ((c, b1) :: ov) s2) = inode_side (ap ((c, b) :: ov) s1).
Proof using HG.
  intros Hs1 Hpend Hg Hi b1. pose proof Hpend as [(P1 & P2 & P3 & P4) Hov]%Forall_cons. cbn [fst snd] in *.
  destruct (pp_range G HG) as [_ Hpp]. pose proof (gv_ok _ _ _ _ Hg) as Hs2.
  assert (pending_ok G (c, b1)) as Hp1.
  { split_and!; [done|done|cbn [snd]; unfold b1; rewrite zlen_paste; rewrite ?zlen_le_bytes; simpl; lia|].
    apply is_byte_paste; [done|apply le_bytes_byte]. }
  split; [done|]. pose proof Hp1 as (_ & _ & P3' & P4'). cbn [snd] in P3', P4'.
  destruct (ap_frame G HG ((c, b) :: ov) s1 Hpend Hs1) as (F1 & F2 & F3).
  destruct (ap_frame G HG ((c, b1) :: ov) s2 ltac:(by constructor) Hs2) as (F1' & F2' & F3').
  destruct (ap_frame G HG ov s1 Hov Hs1) as (A1 & _ & _). destruct (ap_frame G HG ov s2 Hov Hs2) as (A2 & _ & _).
  pose proof (gave_ap G HG ov x s1 s2 Hov Hs1 Hg) as Hgap.
  split; [|by rewrite F3', F3, (gv_rest _ _ _ _ Hg)]. split; [done| | |].
  - intros y. by rewrite F2', F2, (gv_free _ _ _ _ Hg).
  - intros k Hk Hn. rewrite (geo_bs _ _ (bo_disk _ _ F1)) in Hn. cbn [ap foldr fst snd]. fold (ap ov s1) (ap ov s2).
    rewrite (differ_put G HG (ap ov s2) c b1); [|apply (bo_disk _ _ A2)|done|done|done|rewrite (geo_bs _ _ (bo_disk _ _ A2)); intros He; apply Hn; by right].
    rewrite (differ_put G HG (ap ov s1) c b); [|apply (bo_disk _ _ A1)|done|done|done|rewrite (geo_bs _ _ (bo_disk _ _ A1)); intros He; apply Hn; by right].
    apply (gv_disk _ _ _ _ Hgap); [done|]. rewrite (geo_bs _ _ (bo_disk _ _ A1)). tauto.
  - intros j Hj. unfold ptr. cbn [ap foldr fst snd]. fold (ap ov s1) (ap ov s2).
    rewrite !(blk_put_same G HG); [|apply (bo_disk _ _ A1)|done|done|apply (bo_disk _ _ A2)|done|done]. unfold b1.
    destruct (decide (j = i)) as [->|Hne].
    + rewrite field_same by (simpl; lia). done.
    + by rewrite field_other by (simpl; lia).
Qed.

(** ** Trees *)

Definition ancestors (ov : Overlay) V (raw : Inode) (slot : Z) (pre : list Z) : Prop :=
  ∀ c, c ∈ ov.*1 → ∃ k, (k < length pre)%nat ∧ c = node V raw (slot, take k pre).

Lemma not_below_prefix slot pre k : ¬ below (slot, pre) (slot, take k pre).
Proof.
  intros (_ & i & r & Hr). cbn [fst snd] in Hr. apply (f_equal length) in Hr. rewrite length_take, length_app in Hr. simpl in Hr. lia.
Qed.

Lemma ancestors_kept R ino cut ov V raw V' raw' slot pre pre' :
  valid G (slot, pre') → (∀ k, ¬ below (slot, pre) (slot, take k pre')) →
  shrunk R ino (slot, pre) cut V raw V' raw' → ancestors ov V raw slot pre' → ancestors ov V' raw' slot pre'.
Proof.
  intros Hv Hnb Hsh Ha c Hc. destruct (Ha c Hc) as (k & Hk & ->). exists k. split; [done|]. symmetry.
  apply (sh_out _ _ _ _ _ _ _ _ Hsh); [by apply valid_take|done].
Qed.

Lemma ancestors_fresh R ino ov V raw slot pre :
  trees_ok G V R → R ino = Some raw → valid G (slot, pre) → node V raw (slot, pre) ≠ 0 → ancestors ov V raw slot pre →
  node V raw (slot, pre) ∉ ov.*1.
Proof.
  intros Ht HR Hv Hn Ha Hin. destruct (Ha _ Hin) as (k & Hk & He).
  destruct (to_inj _ _ _ Ht ino raw (slot, pre) ino raw (slot, take k pre) HR HR Hv ltac:(by apply valid_take) He Hn) as [_ Hp].
  injection Hp as Hp. apply (f_equal length) in Hp. rewrite length_take in Hp. lia.
Qed.

(** The contract of [free_tree] for a subtree of height [d], under the pending
    blocks of its ancestors. *)
Definition tree_spec (d : nat) (m : Z → Z → Exec (Fs * Inode) (Error + bool)) : Prop :=
  ∀ R ino slot pre ov s raw from (Q : Error + bool → Fs * Inode → Prop),
  blocks_ok G s → Forall (pending_ok G) ov → trees_ok G (ap ov s) R → R ino = Some raw → valid G (slot, pre) →
  depth slot = (length pre + d)%nat → node (ap ov s) raw (slot, pre) ≠ 0 → ancestors ov (ap ov s) raw slot pre → 0 ≤ from →
  (∀ emptied s' raw', blocks_ok G s' → (∀ x, x ∈ ov.*1 → blk s' x = blk s x) →
     shrunk R ino (slot, pre) (λ r, from <=? val r) (ap ov s) raw (ap ov s') raw' →
     (emptied = true → bare G (ap ov s') raw' (slot, pre)) → (d = 0%nat ∨ from = 0 → emptied = true) → Q (inr emptied) (s', raw')) →
  wp (m (node (ap ov s) raw (slot, pre)) from) Q (s, raw).

Lemma leaf_spec : tree_spec 0 (λ _ _, ok true).
Proof using HG.
  intros R ino slot pre ov s raw from Q Hs Hov Ht HR Hv Hd Hn Ha Hf HQ. ie_steps.
  assert (∀ j r, ¬ valid G (slot, pre ++ j :: r)) as Hno.
  { intros j r (_ & Hl & _). cbn [fst snd] in Hl. rewrite length_app in Hl. simpl in Hl. lia. }
  apply HQ; try done.
  - apply shrunk_refl; try done; [by apply (ap_frame G HG)|]. intros r Hvr _ Hr. destruct r as [|j r]; [done|]. by destruct (Hno j r).
  - intros _ j r Hvr. by destruct (Hno j r).
Qed.

(** Which blocks below the entries [ks] of a pointer block go. *)
Definition cut_kids (ks : list Z) (per from : Z) (r : list Z) : bool :=
  match r with [] => false | i :: r' => bool_decide (i ∈ ks) && (from <=? i * per + val r') end.

Lemma node_below0 V raw slot pre i r : node V raw (slot, pre ++ [i]) = 0 → node V raw (slot, pre ++ i :: r) = 0.
Proof. intros Hx. replace (pre ++ i :: r) with ((pre ++ [i]) ++ r) by (by rewrite <- app_assoc). by rewrite node_app, Hx, walk_0. Qed.

(** A child that was pruned to nothing and freed. *)
Lemma shrunk_gone R ino slot pre i cut V raw V1 raw1 V2 :
  disk_ok G V → trees_ok G V R → R ino = Some raw → valid G (slot, pre ++ [i]) →
  node V raw (slot, pre) ≠ 0 → node V raw (slot, pre ++ [i]) ≠ 0 → (leaf (slot, pre ++ [i]) → cut [] = true) →
  shrunk R ino (slot, pre ++ [i]) cut V raw V1 raw1 → bare G V1 raw1 (slot, pre ++ [i]) →
  unlinked G V1 V2 (node V raw (slot, pre ++ [i])) (node V raw (slot, pre)) i → inode_side V2 = inode_side V1 →
  shrunk R ino (slot, pre) (cut_child i cut) V raw V2 (uncounted raw1).
Proof using HG.
  intros Hd Ht HR Hv Hc Hx Hcut H1 Hbare Hu Hside. pose proof (valid_prefix G slot pre [i] Hv) as Hvp.
  assert (node V1 raw1 (slot, pre ++ [i]) = node V raw (slot, pre ++ [i])) as Ex.
  { apply (sh_out _ _ _ _ _ _ _ _ H1); [done|]. rewrite <- (take_ge (pre ++ [i]) (length (pre ++ [i]))) at 2 by lia. apply not_below_prefix. }
  assert (node V1 raw1 (slot, pre) = node V raw (slot, pre)) as Ec.
  { apply (sh_out _ _ _ _ _ _ _ _ H1); [done|]. rewrite <- (take_app_length pre [i]) at 2. apply not_below_prefix. }
  rewrite <- Ex, <- Ec in Hu. pose proof (sh_trees _ _ _ _ _ _ _ _ H1) as Ht1.
  pose proof (shrunk_one (upd R ino raw1) ino slot pre i V1 raw1 V2 (sh_ok _ _ _ _ _ _ _ _ H1) Ht1 (upd_same R ino raw1) Hv
    ltac:(by rewrite Ec) ltac:(by rewrite Ex) Hbare Hu Hside) as H2.
  pose proof (shrunk_child _ _ _ _ _ _ _ _ _ _ H1) as H1'.
  eapply shrunk_cut; [|exact (shrunk_trans _ _ _ _ _ (λ r, cut_child i (proper cut) r || cut_child i (λ _, true) r) _ _ _ _ _ _ Hd Ht HR H1' H2 ltac:(done))].
  intros [|j r] Hvr Hlr Hr Hn; [done|]. cbn [cut_child fst snd] in *. destruct (decide (j = i)) as [->|]; [|by rewrite !bool_decide_false].
  rewrite !bool_decide_true by done. cbn [andb]. rewrite orb_true_r. destruct r as [|k r]; [by apply Hcut|].
  pose proof (sh_leaf _ _ _ _ _ _ _ _ H1 (k :: r)) as Hl. cbn [fst snd] in Hl. rewrite <- app_assoc in Hl. specialize (Hl Hvr Hlr ltac:(done)).
  specialize (Hbare k r). cbn [fst snd] in Hbare. rewrite <- app_assoc in Hbare. cbn [app] in *. rewrite (Hbare Hvr) in Hl.
  destruct (cut (k :: r)); [done|]. by rewrite <- Hl in Hn.
Qed.

Section kids.
Context (d : nat) (m : Z → Z → Exec (Fs * Inode) (Error + bool)) (Hm : tree_spec d m).
Context (ino slot : Z) (pre : list Z) (ov : Overlay) (c from : Z).
Context (Hv : valid G (slot, pre)) (Hdep : depth slot = (length pre + S d)%nat) (Hc0 : c ≠ 0) (Hfrom : 0 ≤ from).

Definition per : Z := pp G ^ Z.of_nat d.

(** The loop over the children runs with the parent block [b] pending. *)
Record running R s (raw : Inode) (b : list Z) : Prop := {
  rn_ok : blocks_ok G s;
  rn_pend : Forall (pending_ok G) ((c, b) :: ov);
  rn_trees : trees_ok G (ap ((c, b) :: ov) s) R;
  rn_raw : R ino = Some raw;
  rn_node : node (ap ((c, b) :: ov) s) raw (slot, pre) = c;
  rn_up : ancestors ov (ap ((c, b) :: ov) s) raw slot pre;
}.

Lemma child_valid i : 0 ≤ i < pp G → valid G (slot, pre ++ [i]).
Proof using Hv Hdep.
  intros Hi. destruct Hv as (V1 & V2 & V3). split; [done|]. cbn [fst snd] in *. rewrite length_app. simpl. split; [lia|].
  apply Forall_app. split; [done|]. by apply Forall_singleton.
Qed.

Lemma child_val i r : valid G (slot, pre ++ i :: r) → leaf (slot, pre ++ i :: r) → 0 ≤ val r < per.
Proof using HG Hdep.
  intros Hvr Hlr. assert (length r = d) as Hlen.
  { unfold leaf in Hlr. cbn [fst snd] in Hlr. rewrite length_app in Hlr. simpl in Hlr. lia. }
  assert (Forall (λ i, 0 ≤ i < pp G) r) as Hr. { destruct Hvr as (_ & _ & Hr). apply Forall_app in Hr as [_ Hr]. by apply Forall_cons in Hr as [_ ?]. }
  pose proof (val_bound r Hr) as Hb. unfold zlen in Hb. by rewrite Hlen in Hb.
Qed.

Lemma child_ptr R s raw b i :
  running R s raw b → 0 ≤ i < pp G → field 4 b (i * 4) = node (ap ((c, b) :: ov) s) raw (slot, pre ++ [i]).
Proof using HG Hc0.
  intros Hr Hi. pose proof (rn_pend _ _ _ _ Hr) as [(P1 & P2 & P3 & P4) Hov]%Forall_cons. cbn [fst snd] in *.
  rewrite node_app, (rn_node _ _ _ _ Hr). simpl. rewrite (proj2 (Z.eqb_neq c 0)) by done. unfold ptr. f_equal. symmetry.
  apply (blk_put_same G HG); [|done|done]. apply (bo_disk _ _ (proj1 (ap_frame G HG ov s Hov (rn_ok _ _ _ _ Hr)))).
Qed.

Lemma running_shrunk R s raw b s' raw' b' cut :
  running R s raw b → blocks_ok G s' → pending_ok G (c, b') →
  shrunk R ino (slot, pre) cut (ap ((c, b) :: ov) s) raw (ap ((c, b') :: ov) s') raw' → running (upd R ino raw') s' raw' b'.
Proof using HG Hv Hdep.
  intros Hr Hs' Hp Hsh. pose proof (rn_pend _ _ _ _ Hr) as [_ Hov]%Forall_cons. split; try done.
  - by constructor.
  - apply (sh_trees _ _ _ _ _ _ _ _ Hsh).
  - apply upd_same.
  - rewrite (sh_out _ _ _ _ _ _ _ _ Hsh); [apply (rn_node _ _ _ _ Hr)|done|].
    rewrite <- (take_ge pre (length pre)) at 2 by lia. apply not_below_prefix.
  - eapply ancestors_kept; [done|intros k; apply not_below_prefix|exact Hsh|apply (rn_up _ _ _ _ Hr)].
Qed.

(** What one turn of the loop does to the child at [i]. *)
Definition turn R s (raw : Inode) (b : list Z) (i : Z) s' (raw' : Inode) (b' : list Z) : Prop :=
  blocks_ok G s' ∧ pending_ok G (c, b') ∧ (∀ x, x ∈ c :: ov.*1 → blk s' x = blk s x) ∧
  shrunk R ino (slot, pre) (cut_child i (λ r, sat_sub from (i * per) <=? val r)) (ap ((c, b) :: ov) s) raw (ap ((c, b') :: ov) s') raw' ∧
  (from = 0 → node (ap ((c, b') :: ov) s') raw' (slot, pre ++ [i]) = 0).

Lemma turn_skip R s raw b i :
  running R s raw b → 0 ≤ i → node (ap ((c, b) :: ov) s) raw (slot, pre ++ [i]) = 0 ∨ i * per + per ≤ from →
  turn R s raw b i s raw b.
Proof using HG Hdep Hfrom.
  intros Hr Hi0 Hi. pose proof (rn_pend _ _ _ _ Hr) as [? _]%Forall_cons. assert (0 < per) as Hper.
  { destruct (pp_range G HG). apply Z.pow_pos_nonneg; lia. }
  split_and!; [apply (rn_ok _ _ _ _ Hr)|done|done| |intros ->; destruct Hi; [done|nia]].
  apply shrunk_refl; [apply (ap_frame G HG); apply Hr|apply Hr|apply Hr|]. intros [|j r] Hvr Hlr _; [done|]. cbn [cut_child fst snd] in *.
  destruct (decide (j = i)) as [->|]; [|by rewrite bool_decide_false]. rewrite bool_decide_true by done. cbn [andb]. intros Hle%Z.leb_le.
  destruct Hi as [Hi|Hi]; [by apply node_below0|]. pose proof (child_val i r Hvr Hlr). unfold sat_sub in Hle. lia.
Qed.

Lemma ancestors_child R s raw b i :
  running R s raw b → ancestors ((c, b) :: ov) (ap ((c, b) :: ov) s) raw slot (pre ++ [i]).
Proof.
  intros Hr y Hy. rewrite fmap_cons in Hy. cbn [fst] in Hy. apply elem_of_cons in Hy as [->|Hy].
  - exists (length pre). rewrite length_app. simpl. split; [lia|]. rewrite take_app_length. symmetry. apply (rn_node _ _ _ _ Hr).
  - destruct (rn_up _ _ _ _ Hr y Hy) as (k & Hk & ->). exists k. rewrite length_app. split; [lia|]. by rewrite take_app_le by lia.
Qed.

Lemma wp_turn {A} R s raw b i ch (k : list Z → bool → Exec (Fs * Inode) (Error + A)) Q :
  running R s raw b → 0 ≤ i < pp G → from < i * per + per →
  let x := node (ap ((c, b) :: ov) s) raw (slot, pre ++ [i]) in x ≠ 0 →
  (∀ s' raw' b' ch', turn R s raw b i s' raw' b' → ch' = true ∨ (b' = b ∧ ch' = ch) → wp (k b' ch') Q (s', raw')) →
  wp (free ←? m x (sat_sub from (i * per));
      if (free : bool) then
        _ ←? on_fs (free_block x); _ ← sub_sectors; b' ← need (wr 4 b (i * 4) 0); k b' true
      else k b ch) Q (s, raw).
Proof using HG Hm Hv Hdep Hc0.
  intros Hr Hi Hcut x Hx0 Hk. pose proof (rn_pend _ _ _ _ Hr) as Hpend. pose proof Hpend as [Hp Hov]%Forall_cons.
  destruct (ap_frame G HG _ s Hpend (rn_ok _ _ _ _ Hr)) as (HsV & _ & _). pose proof (child_valid i Hi) as Hvi.
  destruct (pp_range G HG) as [_ Hpp]. ie_steps.
  apply (Hm R ino slot (pre ++ [i]) ((c, b) :: ov)); try done; try apply Hr.
  - rewrite length_app. simpl. lia.
  - by apply (ancestors_child R).
  - unfold sat_sub. lia.
  - intros emptied s1 raw1 Hs1 Hreal Hsh Hbare H0. cbn beta iota. rewrite fmap_cons in Hreal. cbn [fst] in Hreal.
    pose proof (sh_trees _ _ _ _ _ _ _ _ Hsh) as Ht1. destruct (to_raw _ _ _ Ht1 ino raw1 (upd_same _ _ _)) as [Hz1 _].
    destruct emptied; cycle 1.
    { apply Hk; [|by right]. split_and!; try done; [|intros Hf0; specialize (H0 ltac:(right; unfold sat_sub, per in *; pose proof (Z.pow_nonneg (pp G) (Z.of_nat d) ltac:(lia)); nia)); done]. eapply shrunk_cut; [|apply shrunk_child, Hsh].
      intros [|j r] Hvr Hlr _ _; [done|]. cbn [cut_child fst snd] in *. destruct r as [|]; [|done]. exfalso.
      unfold leaf in Hlr. cbn [fst snd] in Hlr. rewrite length_app in Hlr. simpl in Hlr. by specialize (H0 ltac:(left; lia)). }
    assert (node (ap ((c, b) :: ov) s1) raw1 (slot, pre ++ [i]) = x) as Hx1.
    { apply (sh_out _ _ _ _ _ _ _ _ Hsh); [done|]. rewrite <- (take_ge (pre ++ [i]) (length (pre ++ [i]))) at 2 by lia. apply not_below_prefix. }
    destruct (to_node _ _ _ Ht1 ino raw1 (slot, pre ++ [i]) (upd_same _ _ _) Hvi) as (X1 & X2 & X3); [by rewrite Hx1|]. rewrite Hx1 in X1, X2, X3.
    destruct (ap_frame G HG _ s1 Hpend Hs1) as (_ & F1 & _). rewrite F1 in X2. ie_steps.
    apply (wp_free_block G HG); try done. intros s2 Hg. cbn beta iota. ie_steps.
    apply wp_sub_sectors; [apply (bo_disk _ _ (gv_ok _ _ _ _ Hg))|done|]. destruct Hp as (P1 & P2 & P3 & P4). cbn [fst snd] in *.
    rewrite wr_ok by (simpl; lia). ie_steps. destruct (unlink_state ov c b i x s1 s2 Hs1 Hpend Hg Hi) as (U1 & U2 & U3).
    set (b1 := paste b (i * 4) (le_bytes 4 0)) in *.
    assert (shrunk R ino (slot, pre) (cut_child i (λ r, sat_sub from (i * per) <=? val r)) (ap ((c, b) :: ov) s) raw
              (ap ((c, b1) :: ov) s2) (uncounted raw1)) as Hsh2.
    { apply (shrunk_gone R ino slot pre i _ _ _ (ap ((c, b) :: ov) s1) raw1); try done; try apply Hr; [apply (bo_disk _ _ HsV)| | |by apply Hbare|].
      - by rewrite (rn_node _ _ _ _ Hr).
      - intros Hl. unfold leaf in Hl. cbn [fst snd] in Hl. rewrite length_app in Hl. simpl in Hl. apply Z.leb_le.
        assert (per = 1) as Hper by (unfold per; by replace d with 0%nat by lia). unfold sat_sub. simpl. lia.
      - by rewrite (rn_node _ _ _ _ Hr). }
    apply Hk; [|by left]. split_and!; [apply (gv_ok _ _ _ _ Hg)|done| |done|].
    + intros y Hy. rewrite <- Hreal by done.
      assert (good_block G y ∧ ¬ is_bb G y) as [Y1 Y2].
      { change (c :: ov.*1) with (((c, b) :: ov).*1) in Hy. apply list_elem_of_fmap in Hy as (e & -> & He).
        rewrite Forall_forall in Hpend. destruct (Hpend e He) as (? & ? & _). done. }
      apply (differ_blk G HG (is_bb G)); [apply (bo_disk _ _ Hs1)|apply (bo_disk _ _ (gv_ok _ _ _ _ Hg))|apply (gv_disk _ _ _ _ Hg)|unfold good_block in Y1; lia|done].
    + intros _. pose proof (running_shrunk _ _ _ _ _ _ _ _ Hr (gv_ok _ _ _ _ Hg) U1 Hsh2) as Hr2.
      rewrite <- (child_ptr _ _ _ _ i Hr2 Hi). unfold b1. by rewrite field_same by (simpl; lia).
Qed.

Lemma wp_free_kids ks R s raw b ch Q :
  running R s raw b → NoDup ks → Forall (λ i, 0 ≤ i < pp G) ks →
  (∀ s' raw' b' ch', blocks_ok G s' → pending_ok G (c, b') → (∀ x, x ∈ c :: ov.*1 → blk s' x = blk s x) →
     shrunk R ino (slot, pre) (cut_kids ks per from) (ap ((c, b) :: ov) s) raw (ap ((c, b') :: ov) s') raw' →
     ch' = true ∨ (b' = b ∧ ch' = ch) →
     (from = 0 → ∀ i, i ∈ ks → node (ap ((c, b') :: ov) s') raw' (slot, pre ++ [i]) = 0) → Q (inr (b', ch')) (s', raw')) →
  wp (free_kids m per from ks b ch) Q (s, raw).
Proof using HG Hm Hv Hdep Hc0 Hfrom.
  revert R s raw b ch Q. induction ks as [|i ks IH]; intros R s raw b ch Q Hr Hnd Hks HQ.
  { simpl. ie_steps. pose proof (rn_pend _ _ _ _ Hr) as [? _]%Forall_cons. apply HQ; try done; [apply Hr| |by right|by intros _ i ?%elem_of_nil].
    apply shrunk_refl; [apply (ap_frame G HG); apply Hr|apply Hr|apply Hr|].
    intros [|j r] _ _ _; [done|]. cbn [cut_kids]. rewrite bool_decide_false; [done|]. apply not_elem_of_nil. }
  apply NoDup_cons in Hnd as [Hni Hnd]. apply Forall_cons in Hks as [Hi Hks]. pose proof (rn_pend _ _ _ _ Hr) as [(_ & _ & P3 & _) _]%Forall_cons.
  destruct (pp_range G HG) as [_ Hpp]. cbn [snd] in P3.
  assert (∀ s1 raw1 b1 ch1, turn R s raw b i s1 raw1 b1 → ch1 = true ∨ (b1 = b ∧ ch1 = ch) →
    wp (free_kids m per from ks b1 ch1) Q (s1, raw1)) as Hrest.
  { intros s1 raw1 b1 ch1 (Hs1 & Hp1 & Hreal & Hsh & Hz1) Hch. apply (IH (upd R ino raw1)); try done; [by eapply running_shrunk|].
    intros s2 raw2 b2 ch2 Hs2 Hp2 Hreal2 Hsh2 Hch2 Hz2. apply HQ; try done.
    - intros x Hxin. by rewrite Hreal2, Hreal.
    - eapply shrunk_cut; [|eapply (shrunk_trans R ino (slot, pre) _ _ (λ r, cut_child i (λ r, sat_sub from (i * per) <=? val r) r || cut_kids ks per from r));
        [apply (bo_disk _ _ (proj1 (ap_frame G HG _ _ (rn_pend _ _ _ _ Hr) (rn_ok _ _ _ _ Hr))))|apply Hr|apply Hr|exact Hsh|exact Hsh2|done]].
      intros [|j r] Hvr Hlr Hne _; [done|]. cbn [cut_kids cut_child fst snd] in *. destruct (decide (j = i)) as [->|Hji].
      + rewrite !bool_decide_true, (bool_decide_false (i ∈ ks)) by (done || left). cbn [andb orb]. rewrite orb_false_r.
        pose proof (child_val i r Hvr Hlr). unfold sat_sub. apply eq_true_iff_eq. rewrite !Z.leb_le. lia.
      + rewrite (bool_decide_false (j = i)) by done. cbn [andb orb]. f_equal. apply bool_decide_ext. rewrite elem_of_cons. naive_solver.
    - destruct Hch2 as [?|[-> ->]]; [by left|done].
    - intros Hf0 j [->|Hj]%elem_of_cons; [|by apply Hz2]. destruct (sh_in _ _ _ _ _ _ _ _ Hsh2 (slot, pre ++ [i]) (child_valid i Hi)) as [->| ->]; auto. }
  simpl. rewrite rd_ok by (simpl; lia). ie_steps. rewrite (child_ptr R s raw b i Hr Hi).
  destruct (Z.eqb_spec (node (ap ((c, b) :: ov) s) raw (slot, pre ++ [i])) 0) as [Hx0|Hx0]; cbn [orb].
  { apply Hrest; [by apply turn_skip; [|lia|left]|by right]. }
  destruct (Z.leb_spec (i * per + per) from) as [Hkeep|Hcut].
  { apply Hrest; [by apply turn_skip; [|lia|right]|by right]. }
  by apply (wp_turn R).
Qed.
End kids.

(** ** A tree *)

Lemma all_zero b : zlen b = g_bs G → Forall is_byte b → (∀ i, 0 ≤ i < pp G → field 4 b (i * 4) = 0) → forallb (Z.eqb 0) b = true.
Proof using HG.
  intros Hz Hb Hp. destruct (pp_range G HG) as [_ Hpp]. apply forallb_forall. intros x Hx%list_elem_of_In. apply Z.eqb_eq.
  apply list_elem_of_lookup in Hx as [k Hk]. pose proof (lookup_lt_Some _ _ _ Hk) as Hlt.
  assert (byte b (Z.of_nat k) = x) as <- by (unfold byte; rewrite Nat2Z.id; by apply nth_lookup_Some).
  set (i := Z.of_nat k / 4). pose proof (Z.div_mod (Z.of_nat k) 4 ltac:(lia)) as Hdm. fold i in Hdm. pose proof (Z.mod_pos_bound (Z.of_nat k) 4 ltac:(lia)).
  symmetry. apply (field0_byte 4 b (i * 4)); [done|lia|unfold zlen in *; simpl; lia|apply Hp; unfold zlen in *; lia|simpl; lia].
Qed.

Lemma put_block_id s x : disk_ok G s → good_block G x → put_block x (blk s x) s = s.
Proof using HG.
  intros Hd Hx. destruct (block_inside G HG s x Hd ltac:(unfold good_block in Hx; lia)). pose proof (geo_bs _ _ Hd) as Hb. pose proof (bs_pos G HG).
  unfold put_block, blk. destruct s. unfold with_dev. cbn in *. f_equal. apply paste_seg_id; lia.
Qed.

Lemma tree_start R ino slot pre ov s raw :
  let c := node (ap ov s) raw (slot, pre) in
  blocks_ok G s → Forall (pending_ok G) ov → trees_ok G (ap ov s) R → R ino = Some raw → valid G (slot, pre) → c ≠ 0 →
  ancestors ov (ap ov s) raw slot pre → ap ((c, blk s c) :: ov) s = ap ov s ∧ running ino slot pre ov c R s raw (blk s c).
Proof using HG.
  intros c Hs Hov Ht HR Hv Hc Ha. pose proof (ancestors_fresh R ino ov _ raw slot pre Ht HR Hv Hc Ha) as Hfr.
  pose proof (to_node _ _ _ Ht ino raw _ HR Hv Hc) as Hin. fold c in Hin, Hfr. pose proof (in_file_good G HG _ _ Hin) as Hg.
  assert (ap ((c, blk s c) :: ov) s = ap ov s) as He.
  { cbn [ap foldr fst snd]. fold (ap ov s). rewrite <- (ap_blk G HG ov s c Hov Hs Hg Hfr).
    apply put_block_id; [|done]. apply (bo_disk _ _ (proj1 (ap_frame G HG ov s Hov Hs))). }
  split; [done|]. split; rewrite ?He; try done. constructor; [|done]. split_and!; [done| | |].
  - by apply (file_not_bb G (ap ov s)).
  - cbn [snd]. apply (zlen_blk G HG); [apply (bo_disk _ _ Hs)|unfold good_block in Hg; lia].
  - apply (is_byte_blk G), (bo_disk _ _ Hs).
Qed.

(** Writing the pending block, or having nothing to write. *)
Lemma tree_commit ov c b b' ch s s' :
  blocks_ok G s' → Forall (pending_ok G) ((c, b') :: ov) → c ∉ ov.*1 → b = blk s c → blk s' c = blk s c → ch = true ∨ (b' = b ∧ ch = false) →
  let s2 := if (ch : bool) then put_block c b' s' else s' in
  blocks_ok G s2 ∧ ap ov s2 = ap ((c, b') :: ov) s' ∧ (∀ x, x ∈ ov.*1 → blk s2 x = blk s' x).
Proof using HG.
  intros Hs' Hpend Hfr -> Hreal Hch s2. pose proof Hpend as [Hp Hov]%Forall_cons. pose proof Hp as (P1 & P2 & P3 & P4). cbn [fst snd] in *.
  destruct ch; subst s2.
  - destruct (put_block_frame G HG s' c b' Hs' P1 P2 P3 P4) as [J1 _]. split_and!; [done|by apply (ap_put G HG)|].
    intros x Hx. pose proof Hx as Hx'. apply list_elem_of_fmap in Hx' as (e & -> & He). rewrite Forall_forall in Hov. destruct (Hov e He) as (E1 & _).
    apply (blk_put_other G HG); [apply (bo_disk _ _ Hs')|done|done|done|unfold good_block in E1; lia|]. by intros ->.
  - destruct Hch as [?|[-> _]]; [done|]. split_and!; [done| |done]. cbn [ap foldr fst snd]. fold (ap ov s').
    rewrite <- Hreal, <- (ap_blk G HG ov s' c Hov Hs' P1 Hfr). symmetry. apply put_block_id; [|done].
    apply (bo_disk _ _ (proj1 (ap_frame G HG ov s' Hov Hs'))).
Qed.

Lemma tree_spec_free d : tree_spec (S d) (free_tree (S d)).
Proof using HG.
  assert (∀ d m, tree_spec d m → tree_spec (S d) (λ blk from, s ← gets fst; let p := ptrs_per_block s in
    b ←? on_fs (read_block blk);
    r ←? free_kids m (p ^ Z.of_nat d) from (seqZ 0 p) b false;
    let '(b', changed) := r in
    _ ←? (if (changed : bool) then on_fs (write_block blk b') else ok tt);
    ok (forallb (Z.eqb 0) b'))) as Hstep.
  { clear d. intros d m Hm R ino slot pre ov s raw from Q Hs Hov Ht HR Hv Hdep Hc0 Ha Hf HQ.
    pose proof (ancestors_fresh R ino ov _ raw slot pre Ht HR Hv Hc0 Ha) as Hfr.
    destruct (tree_start R ino slot pre ov s raw Hs Hov Ht HR Hv Hc0 Ha) as [He Hr]. set (c := node (ap ov s) raw (slot, pre)) in *.
    pose proof (bo_disk _ _ Hs) as Hd. ie_steps. cbn [fst]. unfold ptrs_per_block. geo Hd. fold (pp G).
    pose proof (rn_pend _ _ _ _ _ _ _ _ _ Hr) as [(P1 & P2 & P3 & P4) _]%Forall_cons. cbn [fst snd] in *.
    apply wp_try, wp_on_fs. eapply wp_eq; [by apply (read_block_eq G HG)|]. cbn beta iota. ie_steps.
    apply (wp_free_kids d m Hm ino slot pre ov c from Hv Hdep Hc0 Hf _ R); [done|apply NoDup_seqZ| |].
    { apply Forall_forall. intros i Hi%elem_of_seqZ. lia. }
    rewrite He. intros s' raw' b' ch Hs' Hp' Hreal Hsh Hch Hz. cbn beta iota.
    assert (Forall (pending_ok G) ((c, b') :: ov)) as Hpend' by (by constructor).
    destruct (tree_commit ov c (blk s c) b' ch s s' Hs' Hpend' Hfr eq_refl (Hreal c ltac:(left)) Hch) as (C1 & C2 & C3).
    assert (wp (if ch then on_fs (write_block c b') else ok tt) (λ r t, r = inr tt ∧ t = (if ch then put_block c b' s' else s', raw')) (s', raw')) as Hw.
    { destruct ch; ie_steps; [|done]. eapply wp_eq; [apply (write_block_eq G HG); [apply (bo_disk _ _ Hs')|apply Hp'|apply Hp']|]. done. }
    apply wp_try. eapply wp_mono; [exact Hw|]. intros r t [-> ->]. cbn beta iota. ie_steps.
    pose proof (running_shrunk d ino slot pre ov c Hv Hdep R s raw (blk s c) s' raw' b' _ Hr Hs' Hp' ltac:(rewrite He; exact Hsh)) as Hr'.
    apply HQ; rewrite ?C2; try done.
    - intros x Hx. rewrite C3 by done. apply Hreal. by right.
    - eapply shrunk_cut; [|exact Hsh]. intros [|i r] Hvr Hlr Hne _; [done|]. cbn [cut_kids val fst snd] in *.
      rewrite bool_decide_true; [|apply elem_of_seqZ; destruct Hvr as (_ & _ & Hvr); apply Forall_app in Hvr as [_ [Hi _]%Forall_cons]; lia].
      unfold leaf in Hlr. cbn [fst snd] in Hlr. rewrite length_app in Hlr. simpl in Hlr. unfold zlen, per. by replace (length r) with d by lia.
    - intros Hall i r Hvr. cbn [fst snd] in *. apply node_below0.
      assert (0 ≤ i < pp G) as Hi. { destruct Hvr as (_ & _ & Hvr). by apply Forall_app in Hvr as [_ [Hi _]%Forall_cons]. }
      rewrite <- (child_ptr ino slot pre ov c Hc0 _ _ _ _ i Hr' Hi). apply field_all0.
      apply Forall_forall. intros y Hy%list_elem_of_In. rewrite forallb_forall in Hall. symmetry. by apply Z.eqb_eq, Hall.
    - intros [|Hf0]; [done|]. apply (all_zero b'); [apply Hp'|apply Hp'|]. intros i Hi. rewrite (child_ptr ino slot pre ov c Hc0 _ _ _ _ i Hr' Hi). apply Hz; [done|]. apply elem_of_seqZ. lia. }
  induction d as [|d IH].
  - apply (Hstep 0%nat (λ _ _, ok true)), leaf_spec.
  - apply (Hstep (S d) (free_tree (S d))), IH.
Qed.
End free.
