(* ===== verification/Ext2Trunc.v ===== *)
(** * The ext2 file system: truncation

    [free_from] removes the file blocks from a given one on, over the direct
    slots and the three trees, and [truncate] is cutting or zero extension of
    the file's bytes. *)

From S2P Require Import Prelude Text Bytes Ext2 Ext2Fs Ext2Disk Ext2Alloc Ext2Blocks Ext2Inode Ext2Tree Ext2Map Ext2File Ext2Spec Ext2Free.

Section trunc.
Context (G : Geo) (HG : geo_ok G).
Implicit Types (s : Fs) (R : Inodes).

(** ** What removing blocks of a file changes *)

(** The leaves in [cut] were removed from the file [ino]. *)
Record trimmed R (ino : Z) (cut : Pos → bool) s (raw : Inode) s' (raw' : Inode) : Prop := {
  tr_ok : blocks_ok G s';
  tr_trees : trees_ok G s' (upd R ino raw');
  tr_other : ∀ j rawj q, j ≠ ino → R j = Some rawj → valid G q → node s' rawj q = node s rawj q;
  tr_in : ∀ q, valid G q → node s' raw' q = node s raw q ∨ node s' raw' q = 0;
  tr_leaf : ∀ q, valid G q → leaf q → node s' raw' q = if cut q then 0 else node s raw q;
  tr_data : ∀ x, in_file G s x → isfree G s' x = false →
    (∀ q, valid G q → ¬ leaf q → x ≠ node s raw q) → blk s' x = blk s x;
  tr_free : ∀ x, isfree G s x = true → isfree G s' x = true;
  tr_gone : ∀ q, valid G q → node s raw q ≠ 0 → node s' raw' q = 0 → isfree G s' (node s raw q) = true;
  tr_side : inode_side s' = inode_side s;
  tr_differ : differ_in (λ x, is_bb G x ∨ ¬ is_meta G x) s s';
  tr_keeps : keeps raw raw';
}.

Lemma trimmed_refl R ino cut s raw :
  blocks_ok G s → trees_ok G s R → R ino = Some raw →
  (∀ q, valid G q → leaf q → cut q = true → node s raw q = 0) → trimmed R ino cut s raw s raw.
Proof.
  intros Hs Ht HR Hcut. split; try done.
  - by apply (trees_ok_ext G s R); [intros j; apply upd_id|].
  - by left.
  - intros q Hv Hl. destruct (cut q) eqn:E; [by apply Hcut|done].
Qed.

Lemma trimmed_trans R ino cut1 cut2 s raw s1 raw1 s2 raw2 :
  blocks_ok G s → trimmed R ino cut1 s raw s1 raw1 → trimmed (upd R ino raw1) ino cut2 s1 raw1 s2 raw2 →
  trimmed R ino (λ q, cut1 q || cut2 q) s raw s2 raw2.
Proof using HG.
  intros Hs H1 H2. pose proof (bo_disk _ _ (tr_ok _ _ _ _ _ _ _ H1)) as Hd1. split.
  - apply (tr_ok _ _ _ _ _ _ _ H2).
  - eapply trees_ok_ext; [|apply (tr_trees _ _ _ _ _ _ _ H2)]. intros j. by rewrite upd_upd.
  - intros j rawj q Hj HRj Hq. rewrite (tr_other _ _ _ _ _ _ _ H2 j rawj q) by (rewrite ?upd_other; done).
    by apply (tr_other _ _ _ _ _ _ _ H1 j).
  - intros q Hq. destruct (tr_in _ _ _ _ _ _ _ H2 q Hq) as [->| ->]; [|by right]. by apply (tr_in _ _ _ _ _ _ _ H1).
  - intros q Hv Hl. rewrite (tr_leaf _ _ _ _ _ _ _ H2 q Hv Hl), (tr_leaf _ _ _ _ _ _ _ H1 q Hv Hl).
    by destruct (cut1 q), (cut2 q).
  - intros x Hx Hf Hn. assert (isfree G s1 x = false) as Hf1.
    { destruct (isfree G s1 x) eqn:E; [|done]. by rewrite (tr_free _ _ _ _ _ _ _ H2 x E) in Hf. }
    rewrite (tr_data _ _ _ _ _ _ _ H2 x); [by apply (tr_data _ _ _ _ _ _ _ H1)| |done|].
    + destruct Hx as (A & _ & C). done.
    + intros q Hv Hl. destruct (tr_in _ _ _ _ _ _ _ H1 q Hv) as [->| ->]; [by apply Hn|].
      pose proof (in_file_good G HG s x Hx) as [? _]. lia.
  - intros x Hx. apply (tr_free _ _ _ _ _ _ _ H2). by apply (tr_free _ _ _ _ _ _ _ H1).
  - intros q Hq Hn Hz. destruct (decide (node s1 raw1 q = 0)) as [Hz1|Hn1].
    + apply (tr_free _ _ _ _ _ _ _ H2). by apply (tr_gone _ _ _ _ _ _ _ H1).
    + destruct (tr_in _ _ _ _ _ _ _ H1 q Hq) as [He|]; [|done]. rewrite <- He in *. by apply (tr_gone _ _ _ _ _ _ _ H2).
  - by rewrite (tr_side _ _ _ _ _ _ _ H2), (tr_side _ _ _ _ _ _ _ H1).
  - eapply differ_mono; [|eapply differ_trans; [|apply (tr_differ _ _ _ _ _ _ _ H1)|apply (tr_differ _ _ _ _ _ _ _ H2)]].
    + intros b. cbn beta. tauto.
    + by rewrite (geo_bs _ _ (bo_disk _ _ Hs)), (geo_bs _ _ Hd1).
  - intros f Hf H3 H4. by rewrite (tr_keeps _ _ _ _ _ _ _ H2), (tr_keeps _ _ _ _ _ _ _ H1).
Qed.

Lemma trimmed_cut R ino cut cut' s raw s' raw' :
  (∀ q, valid G q → leaf q → node s raw q ≠ 0 → cut' q = cut q) →
  trimmed R ino cut s raw s' raw' → trimmed R ino cut' s raw s' raw'.
Proof.
  intros Hc H1. destruct H1 as [A B C E L X Y Y' Z1 Z2 Z3]. split; try done. intros q Hv Hl. rewrite (L q Hv Hl).
  destruct (decide (node s raw q = 0)) as [Hz|Hn].
  - rewrite Hz. by destruct (cut q), (cut' q).
  - by rewrite (Hc q).
Qed.

(** ** A whole slot *)

Definition at_slot (slot : Z) (cut : list Z → bool) (q : Pos) : bool := (q.1 =? slot) && cut q.2.

Lemma trimmed_tree R ino slot cut s raw s' raw' :
  (0 < depth slot)%nat → shrunk G R ino (slot, []) cut s raw s' raw' → trimmed R ino (at_slot slot cut) s raw s' raw'.
Proof.
  intros Hdep H1. destruct H1 as [A B C E F L X Y Y' Z1 Z2 Z3 Z4]. cbn [fst snd] in *. split; try done.
  - intros [sl q] Hv Hl. unfold at_slot. cbn [fst snd]. destruct (Z.eqb_spec sl slot) as [->|Hne]; cbn [andb].
    + apply L; try done. intros ->. unfold leaf in Hl. cbn [fst snd length] in Hl. lia.
    + apply E; [done|]. by intros [? _].
  - intros x Hx Hf Hn. apply X; [done|done|]. intros r Hv Hl. by apply Hn.
Qed.

(** The block of a slot, with nothing below it, is freed and the slot cleared. *)
Definition unrooted (slot : Z) (raw : Inode) : Inode := uncounted G (fset (i_block slot) 0 raw).

Lemma unrooted_raw slot raw :
  zlen raw = g_isz G → Forall is_byte raw → 0 ≤ slot < 15 →
  zlen (unrooted slot raw) = g_isz G ∧ Forall is_byte (unrooted slot raw) ∧
  (∀ k, 0 ≤ k < 15 → iblk (unrooted slot raw) k = if decide (k = slot) then 0 else iblk raw k) ∧ keeps raw (unrooted slot raw).
Proof using HG.
  intros Hz Hb Hs. pose proof (go_isz G HG). assert (zlen (fset (i_block slot) 0 raw) = g_isz G) as Hz1 by (rewrite zlen_fset; [done|lia|done]).
  pose proof (is_byte_fset (i_block slot) 0 raw Hb) as Hb1. destruct (uncounted_raw G HG _ Hz1 Hb1) as (U1 & U2 & U3 & U4).
  split_and!; [done|done| |].
  - intros k Hk. rewrite U3 by done. rewrite !iblk_fget. destruct (decide (k = slot)) as [->|Hne].
    + apply fget_same; [lia|done|done].
    + apply fget_other; [lia|done|done|congruence].
  - intros f Hf N1 N2. rewrite U4 by done. apply fget_other; [lia|done|done|apply N2].
Qed.

Lemma trimmed_root R ino slot s raw s' :
  blocks_ok G s → trees_ok G s R → R ino = Some raw → 0 ≤ slot < 15 →
  iblk raw slot ≠ 0 → bare G s raw (slot, []) → gave G (iblk raw slot) s s' →
  trimmed R ino (at_slot slot (λ _, true)) s raw s' (unrooted slot raw).
Proof using HG.
  intros Hs Ht HR Hslot Hb Hbare Hg. pose proof (bo_disk _ _ Hs) as Hd. pose proof (gv_ok _ _ _ _ Hg) as Hs'. pose proof (bo_disk _ _ Hs') as Hd'.
  destruct (to_raw _ _ _ Ht ino raw HR) as [Hz Hbr]. destruct (unrooted_raw slot raw Hz Hbr Hslot) as (Hz' & Hb' & Hib & Hkp).
  assert (valid G (slot, [])) as Hv0. { split; [done|]. cbn. split; [lia|constructor]. }
  assert (∀ x, in_file G s x → blk s' x = blk s x) as Hblk.
  { intros x Hx. pose proof (in_file_good G HG s x Hx) as [? ?].
    apply (differ_blk G HG (is_bb G)); try done; [apply (gv_disk _ _ _ _ Hg)|lia|by apply (file_not_bb G s)]. }
  assert (∀ j rawj q, R j = Some rawj → valid G q → node s' rawj q = node s rawj q) as Hsame.
  { intros j rawj [sl q] HRj Hq. apply (node_same G s s' R j); try done. intros k _ Hin. by apply Hblk. }
  assert (∀ q, valid G q → node s' (unrooted slot raw) q = if decide (q = (slot, [])) then 0 else node s raw q) as Hme.
  { intros [sl q] Hq. destruct (decide (sl = slot)) as [->|Hne].
    - assert (node s' (unrooted slot raw) (slot, q) = 0) as ->.
      { unfold node. cbn [fst snd]. rewrite Hib by done. rewrite decide_True by done. apply walk_0. }
      destruct q as [|i r]; [by rewrite decide_True|]. rewrite decide_False by done. symmetry. by apply Hbare.
    - rewrite decide_False by congruence. rewrite (node_iblk s' raw); [by apply (Hsame ino)|]. rewrite Hib by apply Hq. by rewrite decide_False. }
  split; try done.
  - apply (trees_shrink G s R s' _ ino raw (slot, [])); try done; [apply (gv_free _ _ _ _ Hg)|].
    intros j raw1 Hj. destruct (decide (j = ino)) as [->|Hne].
    + rewrite upd_same in Hj. injection Hj as <-. split_and!; try done. exists raw. split; [done|]. intros q Hq. rewrite Hme by done.
      destruct (decide (q = _)); [by rewrite decide_True|]. rewrite decide_False; [done|]. by intros [_ ?].
    + rewrite upd_other in Hj by done. destruct (to_raw _ _ _ Ht j raw1 Hj). split_and!; try done. exists raw1. split; [done|].
      intros q Hq. rewrite decide_False by (by intros [? _]). by apply (Hsame j).
  - intros j rawj q _. apply Hsame.
  - intros q Hq. rewrite Hme by done. destruct (decide _); [by right|by left].
  - intros [sl q] Hq Hl. rewrite Hme by done. unfold at_slot. cbn [fst snd]. rewrite andb_true_r.
    destruct (Z.eqb_spec sl slot) as [->|Hne]; [|by rewrite decide_False by congruence].
    destruct (decide _) as [|Hqn]; [done|]. destruct q as [|i r]; [done|]. by apply Hbare.
  - intros x Hx _ _. by apply Hblk.
  - intros x Hx. by rewrite (gv_free _ _ _ _ Hg), Hx.
  - intros q Hq Hn. rewrite Hme by done. destruct (decide (q = _)) as [->|]; [|done]. intros _.
    by rewrite (gv_free _ _ _ _ Hg), Z.eqb_refl, orb_true_r.
  - apply (gv_rest _ _ _ _ Hg).
  - eapply differ_mono; [|apply (gv_disk _ _ _ _ Hg)]. intros x Hx. by left.
Qed.

Lemma wp_root_gone {A} R ino slot s raw (k : Exec (Fs * Inode) (Error + A)) Q :
  blocks_ok G s → trees_ok G s R → R ino = Some raw → 0 ≤ slot < 15 → iblk raw slot ≠ 0 → bare G s raw (slot, []) →
  (∀ s', trimmed R ino (at_slot slot (λ _, true)) s raw s' (unrooted slot raw) → wp k Q (s', unrooted slot raw)) →
  wp (_ ←? on_fs (free_block (iblk raw slot)); _ ← on_inode (iset (i_block slot) 0); _ ← sub_sectors; k) Q (s, raw).
Proof using HG.
  intros Hs Ht HR Hslot Hb Hbare Hk. destruct (to_raw _ _ _ Ht ino raw HR) as [Hz _]. pose proof (go_isz G HG).
  assert (valid G (slot, [])) as Hv0. { split; [done|]. cbn. split; [lia|constructor]. }
  destruct (to_node _ _ _ Ht ino raw (slot, []) HR Hv0 Hb) as (X1 & X2 & X3). ie_steps.
  apply (wp_free_block G HG); try done. intros s' Hg. cbn beta iota. ie_steps.
  eapply wp_on_inode; [apply iset_ok; [lia|done]|]. ie_steps.
  apply (wp_sub_sectors G HG); [apply (bo_disk _ _ (gv_ok _ _ _ _ Hg))|rewrite zlen_fset; [done|lia|done]|].
  apply Hk. by apply trimmed_root.
Qed.

Lemma wp_free_direct ks R ino s raw Q :
  blocks_ok G s → trees_ok G s R → R ino = Some raw → Forall (λ k, 0 ≤ k < 12) ks →
  (∀ s' raw', trimmed R ino (λ q, bool_decide (q.1 ∈ ks)) s raw s' raw' → Q (inr tt) (s', raw')) →
  wp (free_direct ks) Q (s, raw).
Proof using HG.
  revert R s raw. induction ks as [|k ks IH]; intros R s raw Hs Ht HR Hks HQ.
  { simpl. ie_steps. apply HQ, trimmed_refl; done. }
  apply Forall_cons in Hks as [Hk Hks]. destruct (to_raw _ _ _ Ht ino raw HR) as [Hz _]. pose proof (go_isz G HG).
  assert (∀ s1 raw1, trimmed R ino (at_slot k (λ _, true)) s raw s1 raw1 → wp (free_direct ks) Q (s1, raw1)) as Hrest.
  { intros s1 raw1 H1. apply (IH (upd R ino raw1)); [apply (tr_ok _ _ _ _ _ _ _ H1)|apply (tr_trees _ _ _ _ _ _ _ H1)|apply upd_same|done|].
    intros s2 raw2 H2. apply HQ. eapply trimmed_cut; [|exact (trimmed_trans _ _ _ _ _ _ _ _ _ _ Hs H1 H2)].
    intros q _ _ _. unfold at_slot. rewrite andb_true_r. destruct (Z.eqb_spec q.1 k) as [->|Hne]; cbn [orb].
    - apply bool_decide_true. by left.
    - apply bool_decide_ext. rewrite elem_of_cons. naive_solver. }
  simpl. ie_steps. eapply wp_of_inode; [apply iget_ok; [lia|simpl; lia]|]. cbn beta. rewrite <- iblk_fget.
  destruct (Z.eqb_spec (iblk raw k) 0) as [H0|H0].
  - apply Hrest, trimmed_refl; try done. intros [sl q] _ _ Hq. unfold at_slot in Hq. rewrite andb_true_r in Hq. apply Z.eqb_eq in Hq.
    cbn [fst] in Hq. subst sl. unfold node. cbn [fst snd]. rewrite H0. apply walk_0.
  - apply (wp_root_gone R ino); try done; [lia| |auto]. intros j r (_ & Hl & _). unfold depth in Hl. cbn [fst snd length] in Hl. simpl in Hl. lia.
Qed.

Lemma wp_free_indirect from slot base d R ino s raw Q :
  blocks_ok G s → trees_ok G s R → R ino = Some raw → 12 ≤ slot < 15 → depth slot = S d → 0 ≤ from → 0 ≤ base →
  (∀ s' raw', trimmed R ino (at_slot slot (λ r, from <=? base + val G r)) s raw s' raw' → (from = 0 → iblk raw' slot = 0) → Q (inr tt) (s', raw')) →
  wp (free_indirect from slot base (S d)) Q (s, raw).
Proof using HG.
  intros Hs Ht HR Hslot Hdep Hfrom Hbase HQ. destruct (pp_range G HG) as [Hpp _]. destruct (to_raw _ _ _ Ht ino raw HR) as [Hz _]. pose proof (go_isz G HG).
  pose proof (bo_disk _ _ Hs) as Hd. assert (valid G (slot, [])) as Hv0. { split; [cbn; lia|]. cbn. split; [lia|constructor]. }
  assert (∀ r, valid G (slot, r) → leaf (slot, r) → 0 ≤ val G r < pp G ^ Z.of_nat (S d)) as Hval.
  { intros r (_ & _ & Hr) Hl. unfold leaf in Hl. cbn [fst snd] in *. rewrite <- Hdep, <- Hl. by apply (val_bound G HG). }
  unfold free_indirect. ie_steps. cbn [fst]. eapply wp_of_inode; [apply iget_ok; [lia|simpl; lia]|]. cbn beta. rewrite <- iblk_fget.
  rewrite (ptrs_eq G s Hd). destruct (Z.eqb_spec (iblk raw slot) 0) as [H0|H0]; cbn [orb].
  { ie_steps. apply HQ; [|done]. apply trimmed_refl; try done. intros [sl q] _ _ Hq. unfold at_slot in Hq. apply andb_true_iff in Hq as [Hq _]. apply Z.eqb_eq in Hq.
    cbn [fst] in Hq. subst sl. unfold node. cbn [fst snd]. rewrite H0. apply walk_0. }
  destruct (Z.leb_spec (base + pp G ^ Z.of_nat (S d)) from) as [Hkeep|Hcut].
  { ie_steps. apply HQ; [|pose proof (Z.pow_pos_nonneg (pp G) (Z.of_nat (S d)) ltac:(lia) ltac:(lia)); lia]. apply trimmed_refl; try done. intros [sl q] Hv Hl Hq. unfold at_slot in Hq. cbn [fst snd] in Hq. apply andb_true_iff in Hq as [Hq1 Hq2].
    apply Z.eqb_eq in Hq1 as ->. apply Z.leb_le in Hq2. specialize (Hval q Hv Hl). lia. }
  apply wp_try. apply (tree_spec_free G HG d R ino slot [] [] s raw); try done.
  { intros c Hc. by apply elem_of_nil in Hc. }
  { unfold sat_sub. lia. }
  cbn [ap foldr]. intros emptied s1 raw1 Hs1 _ Hsh Hbare Hall. cbn beta iota.
  pose proof (trimmed_tree R ino slot _ s raw s1 raw1 ltac:(lia) Hsh) as H1.
  assert (trimmed R ino (at_slot slot (λ r, from <=? base + val G r)) s raw s1 raw1) as H1'.
  { eapply trimmed_cut; [|exact H1]. intros [sl q] Hv Hl _. unfold at_slot. cbn [fst snd]. destruct (Z.eqb_spec sl slot) as [->|]; [|done]. cbn [andb].
    specialize (Hval q Hv Hl). unfold sat_sub. apply eq_true_iff_eq. rewrite !Z.leb_le. lia. }
  destruct emptied; [|ie_steps; apply HQ; [done|intros ->; by specialize (Hall ltac:(right; unfold sat_sub; lia))]]. pose proof (sh_iblk _ _ _ _ _ _ _ _ _ Hsh slot ltac:(lia)) as Hroot. rewrite <- Hroot in *.
  apply (wp_root_gone (upd R ino raw1) ino); try done; [apply (sh_trees _ _ _ _ _ _ _ _ _ Hsh)|apply upd_same|lia|by apply Hbare|].
  destruct (to_raw _ _ _ (sh_trees _ _ _ _ _ _ _ _ _ Hsh) ino raw1 (upd_same _ _ _)) as [Hz1 Hb1].
  intros s2 H2. ie_steps. apply HQ; [|intros _; destruct (unrooted_raw slot raw1 Hz1 Hb1 ltac:(lia)) as (_ & _ & -> & _); [by rewrite decide_True|lia]]. eapply trimmed_cut; [|exact (trimmed_trans _ _ _ _ _ _ _ _ _ _ Hs H1' H2)].
  intros [sl q] Hv Hl Hn. unfold at_slot. cbn [fst snd]. destruct (Z.eqb_spec sl slot) as [->|]; [|done]. cbn [andb]. rewrite orb_true_r.
  pose proof (tr_leaf _ _ _ _ _ _ _ H1' (slot, q) Hv Hl) as Hq. unfold at_slot in Hq. cbn [fst snd] in Hq. rewrite Z.eqb_refl in Hq. cbn [andb] in Hq.
  destruct (from <=? base + val G q); [done|]. destruct q as [|i r].
  - unfold leaf in Hl. cbn [fst snd length] in Hl. lia.
  - pose proof (Hbare eq_refl i r Hv) as Hb0. cbn [fst snd app] in Hb0. rewrite Hb0 in Hq. by rewrite <- Hq in Hn.
Qed.

(** ** The file *)

(** The number of the file block at a leaf. *)
Definition slot_base (slot : Z) : Z :=
  if slot <? 12 then slot else if slot =? 12 then 12 else if slot =? 13 then 12 + pp G else 12 + pp G + pp G * pp G.
Definition fno (q : Pos) : Z := slot_base q.1 + val G q.2.

Lemma fno_fpos f p : 0 ≤ f → fpos G f = Some p → fno p = f.
Proof using HG.
  intros Hf. destruct (pp_range G HG) as [Hp _]. unfold fpos, block_path. set (n := pp G) in *.
  repeat match goal with |- context [?a <? ?b] => destruct (Z.ltb_spec a b) end; intros [= <-]; unfold fno, slot_base; cbn [fst snd val].
  - rewrite (proj2 (Z.ltb_lt f 12)) by lia. lia.
  - change (12 <? 12) with false. change (12 =? 12) with true. cbn beta iota. change (zlen []) with 0. rewrite Z.pow_0_r. lia.
  - change (13 <? 12) with false. change (13 =? 12) with false. change (13 =? 13) with true. cbn beta iota.
    fold n. change (zlen [_]) with 1. change (zlen []) with 0. pose proof (Z.div_mod (f - 12 - n) n ltac:(lia)). nia.
  - change (14 <? 12) with false. change (14 =? 12) with false. change (14 =? 13) with false. cbn beta iota. fold n.
    change (zlen [_; _]) with 2. change (zlen [_]) with 1. change (zlen []) with 0. set (r := f - 12 - n - n * n) in *.
    pose proof (Z.div_mod r n ltac:(lia)). pose proof (Z.div_mod (r / n) n ltac:(lia)). rewrite <- !Z.div_div in * by lia. nia.
Qed.

Lemma wp_free_from from R ino s raw Q :
  blocks_ok G s → trees_ok G s R → R ino = Some raw → 0 ≤ from →
  (∀ s' raw', trimmed R ino (λ q, from <=? fno q) s raw s' raw' → (from = 0 → ∀ q, valid G q → node s' raw' q = 0) → Q (inr tt) (s', raw')) →
  wp (free_from from) Q (s, raw).
Proof using HG.
  intros Hs Ht HR Hfrom HQ. destruct (pp_range G HG) as [Hp _]. pose proof (bo_disk _ _ Hs) as Hd. unfold free_from. ie_steps. cbn [fst].
  rewrite (ptrs_eq G s Hd). apply (wp_free_direct _ R ino); try done.
  { apply Forall_forall. intros k Hk%elem_of_seqZ. lia. }
  intros s1 raw1 H1. cbn beta iota. ie_steps. pose proof (tr_ok _ _ _ _ _ _ _ H1) as Hs1.
  apply (wp_free_indirect _ _ _ _ (upd R ino raw1) ino); try done; [apply (tr_trees _ _ _ _ _ _ _ H1)|apply upd_same|].
  intros s2 raw2 H2 Z2. cbn beta iota. ie_steps. pose proof (trimmed_trans _ _ _ _ _ _ _ _ _ _ Hs H1 H2) as H12. clear H1 H2.
  pose proof (tr_ok _ _ _ _ _ _ _ H12) as Hs2.
  apply (wp_free_indirect _ _ _ _ (upd R ino raw2) ino); try done; [apply (tr_trees _ _ _ _ _ _ _ H12)|apply upd_same|lia|].
  intros s3 raw3 H3 Z3. cbn beta iota. ie_steps. pose proof (trimmed_trans _ _ _ _ _ _ _ _ _ _ Hs H12 H3) as H13.
  assert (from = 0 → iblk raw3 12 = 0) as Z2'.
  { intros Hf0. destruct (tr_in _ _ _ _ _ _ _ H3 (12, [])) as [Hn|Hn]; [|unfold node in Hn; cbn [fst snd walk] in Hn; rewrite Hn; by apply Z2|done].
    split; [cbn; lia|]. cbn. split; [lia|constructor]. }
  clear H12 H3.
  pose proof (tr_ok _ _ _ _ _ _ _ H13) as Hs3.
  apply (wp_free_indirect _ _ _ _ (upd R ino raw3) ino); try done; [apply (tr_trees _ _ _ _ _ _ _ H13)|apply upd_same|nia|].
  intros s4 raw4 H4 Z4. pose proof (trimmed_trans _ _ _ _ _ _ _ _ _ _ Hs H13 H4) as H14. apply HQ; cycle 1.
  { intros Hf0 [sl q] Hq. unfold node. cbn [fst snd]. enough (iblk raw4 sl = 0) as -> by apply walk_0.
    pose proof (proj1 Hq) as Hsl. cbn [fst] in Hsl. assert (valid G (sl, [])) as Hv0 by (split; [done|]; cbn; split; [lia|constructor]).
    destruct (decide (sl < 12)) as [Hlt|]; [|destruct (decide (sl = 14)) as [->|]; [by apply Z4|]].
    - pose proof (tr_leaf _ _ _ _ _ _ _ H14 (sl, []) Hv0 ltac:(unfold leaf, depth; cbn; lia)) as Hn.
      cbn beta in Hn. rewrite bool_decide_true in Hn by (apply elem_of_seqZ; cbn [fst]; lia). exact Hn.
    - destruct (tr_in _ _ _ _ _ _ _ H4 (sl, []) Hv0) as [Hn|Hn]; [|done]. unfold node in Hn. cbn [fst snd walk] in Hn. rewrite Hn.
      destruct (decide (sl = 13)) as [->|]; [by apply Z3|]. assert (sl = 12) as -> by lia. by apply Z2'. }
  eapply trimmed_cut; [|exact H14]. intros [sl q] (Hv & Hl & Hr) Hleaf _. unfold at_slot, fno, slot_base. cbn [fst snd] in *.
  unfold leaf, depth in *. cbn [fst snd] in *.
  destruct (Z.ltb_spec sl 12) as [Hlt|Hge].
  - rewrite !(proj2 (Z.eqb_neq _ _)) by lia. cbn [andb]. rewrite !orb_false_r. assert (q = []) as -> by (destruct q; [done|simpl in *; lia]). cbn [val].
    destruct (Z.leb_spec from (sl + 0)); symmetry; [apply bool_decide_true|apply bool_decide_false]; rewrite elem_of_seqZ; lia.
  - rewrite bool_decide_false by (rewrite elem_of_seqZ; lia). cbn [orb].
    destruct (Z.eqb_spec sl 12), (Z.eqb_spec sl 13), (Z.eqb_spec sl 14); try lia; cbn [andb orb]; by rewrite ?orb_false_r.
Qed.

(** ** Truncation of the bytes *)

(** The file [ino] now reads as [f]; nothing else changed but bit maps and data. *)
Record edited R (ino : Z) (f : Z → Z) s (raw : Inode) s' (raw' : Inode) : Prop := {
  ed_ok : blocks_ok G s';
  ed_trees : trees_ok G s' (upd R ino raw');
  ed_mine : ∀ pos, 0 ≤ pos → fbyte G s' raw' pos = f pos;
  ed_other : ∀ j rawj pos, j ≠ ino → R j = Some rawj → 0 ≤ pos → fbyte G s' rawj pos = fbyte G s rawj pos;
  ed_free : ∀ x, isfree G s x = true → isfree G s' x = true;
  ed_side : inode_side s' = inode_side s;
  ed_differ : differ_in (λ x, is_bb G x ∨ ¬ is_meta G x) s s';
  ed_keeps : keeps raw raw';
}.

Lemma edited_refl R ino s raw : blocks_ok G s → trees_ok G s R → R ino = Some raw → edited R ino (fbyte G s raw) s raw s raw.
Proof. intros Hs Ht HR. split; try done. by apply (trees_ok_ext G s R); [intros j; apply upd_id|]. Qed.

(** A leaf's block is not a pointer block. *)
Lemma leaf_not_pointer R s j rawj p ino raw q :
  trees_ok G s R → R j = Some rawj → R ino = Some raw → valid G p → leaf p → node s rawj p ≠ 0 →
  valid G q → ¬ leaf q → node s rawj p ≠ node s raw q.
Proof.
  intros Ht HRj HR Hp Hl Hn Hq Hnl He. destruct (to_inj _ _ _ Ht j rawj p ino raw q HRj HR Hp Hq He Hn) as [_ ->]. done.
Qed.

Lemma trimmed_edited R ino from s raw s' raw' :
  blocks_ok G s → trees_ok G s R → R ino = Some raw → 0 ≤ from → trimmed R ino (λ q, from <=? fno q) s raw s' raw' →
  edited R ino (λ pos, if from <=? pos / g_bs G then 0 else fbyte G s raw pos) s raw s' raw'.
Proof using HG.
  intros Hs Ht HR Hfrom H1. pose proof (tr_trees _ _ _ _ _ _ _ H1) as Ht'. pose proof (bs_pos G HG).
  assert (∀ j rawj rawj' p, R j = Some rawj → upd R ino raw' j = Some rawj' → valid G p → leaf p → node s rawj p ≠ 0 →
    node s' rawj' p = node s rawj p → blk s' (node s rawj p) = blk s (node s rawj p)) as Hblk.
  { intros j rawj rawj' p HRj HRj' Hp Hl Hn He. apply (tr_data _ _ _ _ _ _ _ H1); [by apply (to_node _ _ _ Ht j)| |].
    - rewrite <- He. by apply (to_node _ _ _ Ht' j rawj' p); rewrite ?He.
    - intros q Hq Hnl. by apply (leaf_not_pointer R s j rawj p ino raw q). }
  split; try apply H1.
  - intros pos Hpos. unfold fbyte. assert (0 ≤ pos / g_bs G) as H0 by (apply Z.div_pos; lia).
    destruct (fpos G (pos / g_bs G)) as [p|] eqn:E; [|by destruct (_ <=? _)]. destruct (fpos_valid G HG _ p H0 E) as [Hp Hl].
    pose proof (tr_leaf _ _ _ _ _ _ _ H1 p Hp Hl) as He. cbn beta in He. rewrite (fno_fpos _ _ H0 E) in He.
    destruct (from <=? pos / g_bs G); rewrite He; [done|]. destruct (Z.eqb_spec (node s raw p) 0) as [|Hn]; [done|].
    by rewrite (Hblk ino raw raw' p HR (upd_same _ _ _) Hp Hl Hn He).
  - intros j rawj pos Hj HRj Hpos. apply (fbyte_same G HG); [done|]. intros p Hp Hl.
    pose proof (tr_other _ _ _ _ _ _ _ H1 j rawj p Hj HRj Hp) as He. split; [done|]. intros Hn.
    by apply (Hblk j rawj rawj p); rewrite ?upd_other.
Qed.

(** Zeroing the rest of a block. *)
Lemma edited_tail R ino f s0 raw0 s raw pos p :
  blocks_ok G s0 → edited R ino f s0 raw0 s raw → 0 ≤ pos → fpos G (pos / g_bs G) = Some p → node s raw p ≠ 0 →
  let tail := pos mod g_bs G in
  edited R ino (λ i, if decide (i / g_bs G = pos / g_bs G ∧ pos ≤ i) then 0 else f i) s0 raw0
    (put_block (node s raw p) (paste (blk s (node s raw p)) tail (zeros (g_bs G - tail))) s) raw.
Proof using HG.
  intros Hs0 H1 Hpos Hp Hn tail. pose proof (bs_pos G HG). pose proof (Z.mod_pos_bound pos (g_bs G) ltac:(lia)) as Htail. fold tail in Htail.
  pose proof (ed_ok _ _ _ _ _ _ _ H1) as Hs. pose proof (ed_trees _ _ _ _ _ _ _ H1) as Ht. pose proof (bo_disk _ _ Hs) as Hd.
  assert (0 ≤ pos / g_bs G) as H0 by (apply Z.div_pos; lia). destruct (fpos_valid G HG _ p H0 Hp) as [Hv Hl].
  pose proof (in_file_good G HG s _ (to_node _ _ _ Ht ino raw p (upd_same _ _ _) Hv Hn)) as Hg.
  set (b := blk s (node s raw p)) in *. assert (zlen b = g_bs G) as Hzb by (apply (zlen_blk G HG); [done|unfold good_block in Hg; lia]).
  set (b' := paste b tail (zeros (g_bs G - tail))). assert (zlen b' = g_bs G) as Hzb' by (unfold b'; rewrite zlen_paste; rewrite ?zlen_zeros_max; lia).
  assert (Forall is_byte b') as Hbb'.
  { apply is_byte_paste; [by apply (is_byte_blk G)|]. apply Forall_replicate. done. }
  pose proof (mapping_refl G HG (upd R ino raw) ino p 0 s raw Hs Ht (upd_same _ _ _) ltac:(lia)) as Hm.
  destruct (fill_block G HG (upd R ino raw) ino 0 s raw s raw (pos / g_bs G) p b' Hs Ht (upd_same _ _ _) H0 Hp Hm Hn Hzb' Hbb') as (F1 & F2 & F3 & F4 & F5 & F6 & F7 & _).
  split; try done.
  - eapply trees_ok_ext; [|exact F3]. intros j. by rewrite upd_upd.
  - intros i Hi. rewrite F4 by done. pose proof (Z.div_mod i (g_bs G) ltac:(lia)) as Ei. pose proof (Z.div_mod pos (g_bs G) ltac:(lia)) as Ep. fold tail in Ep.
    pose proof (Z.mod_pos_bound i (g_bs G) ltac:(lia)). rewrite <- (ed_mine _ _ _ _ _ _ _ H1 i Hi).
    destruct (decide (i / g_bs G = pos / g_bs G)) as [He|Hne]; cycle 1.
    { rewrite decide_False by tauto. done. }
    unfold b'. rewrite byte_paste by (rewrite ?zlen_zeros_max; lia). rewrite zlen_zeros_max. rewrite He in Ei.
    destruct (decide (_ ∧ pos ≤ i)) as [[_ Hle]|Hgt].
    + rewrite (proj2 (Z.leb_le _ _)), (proj2 (Z.ltb_lt _ _)) by lia. cbn [andb]. apply byte_zeros.
    + rewrite (proj2 (Z.leb_gt _ _)) by (apply not_and_r in Hgt as [?|?]; [done|lia]). cbn [andb]. unfold fbyte. rewrite He, Hp.
      by rewrite (proj2 (Z.eqb_neq _ 0)) by done.
  - intros j rawj i Hj HRj Hi. rewrite (F5 j) by (done || by rewrite upd_other). by apply (ed_other _ _ _ _ _ _ _ H1 j).
  - intros x Hx. rewrite F2. by apply (ed_free _ _ _ _ _ _ _ H1).
  - rewrite F6. apply H1.
  - eapply differ_mono; [|eapply differ_trans; [|apply (ed_differ _ _ _ _ _ _ _ H1)|exact F7]].
    + intros x. cbn beta. tauto.
    + by rewrite (geo_bs _ _ (bo_disk _ _ Hs0)), (geo_bs _ _ Hd).
  - apply H1.
Qed.

Lemma zlen_resize l n : 0 ≤ n → zlen (resize_to l n) = n.
Proof. intros Hn. unfold resize_to. rewrite zlen_app, zlen_zeros_max. unfold zlen. rewrite length_take. lia. Qed.

Lemma byte_resize l n i : 0 ≤ i → byte (resize_to l n) i = if i <? n then byte l i else 0.
Proof.
  intros Hi. unfold resize_to, byte. destruct (Z.ltb_spec i n) as [Hlt|Hge].
  - destruct (Z.lt_ge_cases i (zlen l)) as [Hl|Hl]; unfold zlen in Hl.
    + rewrite app_nth1 by (rewrite length_take; lia). apply nth_take_lt. lia.
    + rewrite app_nth2 by (rewrite length_take; lia). rewrite (nth_overflow l) by lia.
      replace (Z.to_nat i - _)%nat with (Z.to_nat (i - zlen l)) by (unfold zlen; rewrite length_take; lia). apply byte_zeros.
  - destruct (Z.lt_ge_cases n 0).
    + rewrite (Z2Nat.nonpos n) by lia. rewrite take_0. cbn [app]. apply byte_zeros.
    + apply nth_overflow. pose proof (zlen_resize l n ltac:(lia)) as Hz. unfold zlen, resize_to in Hz. lia.
Qed.

Lemma div_up_le a b n : 0 < b → 0 ≤ a → (div_up a b <=? n) = (a <=? n * b).
Proof.
  intros Hb Ha. unfold div_up. apply eq_true_iff_eq. rewrite !Z.leb_le. split; intros Hle.
  - pose proof (Z.div_mod (a + b - 1) b ltac:(lia)). pose proof (Z.mod_pos_bound (a + b - 1) b ltac:(lia)). nia.
  - apply Z.lt_succ_r. apply Z.div_lt_upper_bound; nia.
Qed.

(** The body of [truncate] on the inode. *)
Lemma wp_truncate_inode s ino raw n Q :
  files_ok G s → tree_inodes G s ino = Some raw → kind raw = S_IFREG → 0 ≤ n ≤ max_size G → n < U64 →
  (∀ s' raw', edited (tree_inodes G s) ino (λ pos, if pos <? n then fbyte G s raw pos else 0) s raw s' raw' →
     Q (inr tt) (s', fset_size n raw')) →
  wp (truncate_inode ino n) Q (s, raw).
Proof using HG.
  intros Hf HR Hreg Hn H64 HQ. pose proof (fo_blocks _ _ Hf) as Hs. pose proof (bo_disk _ _ Hs) as Hd. pose proof (fo_trees _ _ Hf) as Ht.
  destruct (tree_inodes_Some G s ino raw HR) as (Hi & Hraw & _). destruct (to_raw _ _ _ Ht ino raw HR) as [Hz Hb].
  pose proof (go_isz G HG). pose proof (bs_pos G HG). pose proof (fsize_range raw ltac:(lia) Hb) as Hsz.
  unfold truncate_inode. ie_steps. cbn [fst]. eapply wp_of_inode; [apply size_eq; lia|]. cbn beta.
  assert (∀ s' raw', edited (tree_inodes G s) ino (λ pos, if pos <? n then fbyte G s raw pos else 0) s raw s' raw' →
    wp (on_inode (set_size n)) (λ _, wp (ok tt) Q) (s', raw')) as Hend.
  { intros s' raw' He. destruct (to_raw _ _ _ (ed_trees _ _ _ _ _ _ _ He) ino raw' (upd_same _ _ _)) as [Hz' _]. ie_steps.
    eapply wp_on_inode; [apply set_size_eq; lia|]. ie_steps. by apply HQ. }
  assert (∀ f s' raw', (∀ pos, 0 ≤ pos → f pos = if pos <? n then fbyte G s raw pos else 0) → edited (tree_inodes G s) ino f s raw s' raw' →
    wp (on_inode (set_size n)) (λ _, wp (ok tt) Q) (s', raw')) as Hend'.
  { intros f s' raw' Hff He. apply Hend. destruct He. split; try done. intros pos Hpos. by rewrite <- Hff, ed_mine0. }
  clear Hend. destruct (Z.ltb_spec n (fsize raw)) as [Hlt|Hge]; cycle 1.
  { ie_steps. apply (Hend' (fbyte G s raw)); [|by apply edited_refl]. intros pos Hpos. destruct (Z.ltb_spec pos n); [done|].
    apply (fo_tail _ _ Hf ino); [done|done|lia]. }
  ie_steps. eapply wp_of_inode; [unfold is_fast_symlink, is_symlink; rewrite is_kind_eq by lia; rewrite Hreg; reflexivity|]. cbn beta iota. ie_steps.
  geo Hd. assert (0 ≤ div_up n (g_bs G)) as Hfrom by (apply Z.div_pos; lia).
  apply (wp_free_from _ (tree_inodes G s) ino); try done. intros s1 raw1 H1 _. cbn beta iota. ie_steps.
  pose proof (trimmed_edited _ _ _ _ _ _ _ Hs Ht HR Hfrom H1) as E1. clear H1. set (from := div_up n (g_bs G)) in *.
  assert (∀ pos, 0 ≤ pos → (from <=? pos / g_bs G) = (n <=? pos) ∨
    (pos / g_bs G = n / g_bs G ∧ n mod g_bs G ≠ 0 ∧ (from <=? pos / g_bs G) = false)) as Hcut.
  { intros pos Hpos. unfold from. rewrite div_up_le by lia. pose proof (Z.div_mod pos (g_bs G) ltac:(lia)). pose proof (Z.div_mod n (g_bs G) ltac:(lia)).
    pose proof (Z.mod_pos_bound pos (g_bs G) ltac:(lia)). pose proof (Z.mod_pos_bound n (g_bs G) ltac:(lia)).
    destruct (decide (pos / g_bs G = n / g_bs G ∧ n mod g_bs G ≠ 0)) as [[He Hne]|Hno]; [right; split_and!; [done|done|]|left].
    { rewrite He. apply Z.leb_gt. nia. }
    apply eq_true_iff_eq. rewrite !Z.leb_le.
    destruct (Z.lt_trichotomy (pos / g_bs G) (n / g_bs G)) as [?|[He|?]]; [nia| |nia].
    assert (n mod g_bs G = 0) by (destruct (decide (n mod g_bs G = 0)); [done|tauto]). rewrite He in *. lia. }
  set (tail := n mod g_bs G) in *. destruct (Z.eqb_spec tail 0) as [Ht0|Ht0].
  { ie_steps. eapply Hend'; [|exact E1]. intros pos Hpos. cbn beta. destruct (Hcut pos Hpos) as [->|(_ & ? & _)]; [|done].
    destruct (Z.leb_spec n pos), (Z.ltb_spec pos n); (done || lia). }
  assert (∃ p, fpos G (n / g_bs G) = Some p) as [p Hp].
  { apply (fpos_some G). split; [apply Z.div_pos; lia|]. apply Z.div_lt_upper_bound; [lia|]. unfold max_size in *.
    destruct (decide (n = max_blocks G * g_bs G)) as [He|]; [|lia]. unfold tail in Ht0. by rewrite He, Z.mod_mul in Ht0 by lia. }
  pose proof (ed_ok _ _ _ _ _ _ _ E1) as Hs1. pose proof (ed_trees _ _ _ _ _ _ _ E1) as Ht1. pose proof (bo_disk _ _ Hs1) as Hd1.
  assert (0 ≤ n / g_bs G) as Hnb by (apply Z.div_pos; lia). destruct (fpos_valid G HG _ p Hnb Hp) as [Hv Hl].
  ie_steps. eapply wp_eq; [by apply (bmap_find G HG s1 (upd (tree_inodes G s) ino raw1)), Hnb; [| |apply upd_same|]|].
  unfold found. rewrite Hp. cbn beta iota. destruct (Z.eqb_spec (node s1 raw1 p) 0) as [Hn0|Hn0].
  { ie_steps. eapply Hend'; [|exact E1]. intros pos Hpos. cbn beta. destruct (Hcut pos Hpos) as [->|(He & _ & Hc)].
    - destruct (Z.leb_spec n pos), (Z.ltb_spec pos n); (done || lia).
    - rewrite Hc. destruct (Z.ltb_spec pos n); [done|]. pose proof (ed_mine _ _ _ _ _ _ _ E1 pos Hpos) as Hm. cbn beta in Hm.
      rewrite Hc in Hm. rewrite <- Hm. unfold fbyte. by rewrite He, Hp, Hn0. }
  pose proof (in_file_good G HG s1 _ (to_node _ _ _ Ht1 ino raw1 p (upd_same _ _ _) Hv Hn0)) as Hg.
  pose proof (Z.mod_pos_bound n (g_bs G) ltac:(lia)) as Htl. fold tail in Htl.
  assert (zlen (blk s1 (node s1 raw1 p)) = g_bs G) as Hzb by (apply (zlen_blk G HG); [done|unfold good_block in Hg; lia]).
  ie_steps. eapply wp_eq; [by apply (read_block_eq G HG)|]. cbn beta iota. ie_steps.
  rewrite put_seg_ok by (rewrite ?zlen_zeros_max; lia). ie_steps.
  eapply wp_eq; [apply (write_block_eq G HG); [done|done|rewrite zlen_paste; rewrite ?zlen_zeros_max; lia]|]. cbn beta iota.
  pose proof (edited_tail _ _ _ _ _ _ _ n p Hs E1 ltac:(lia) Hp Hn0) as E2. cbn zeta in E2. fold tail in E2.
  apply wp_bind. eapply Hend'; [|exact E2]. intros pos Hpos. cbn beta. destruct (Hcut pos Hpos) as [->|(He & _ & ->)].
  - destruct (decide _) as [[_ ?]|], (Z.leb_spec n pos), (Z.ltb_spec pos n); (done || lia).
  - destruct (decide _) as [[_ ?]|Hno], (Z.ltb_spec pos n); try done; (lia || by destruct Hno).
Qed.

Lemma wp_truncate s ino raw n Q :
  files_ok G s → tree_inodes G s ino = Some raw → kind raw = S_IFREG → 0 ≤ n ≤ max_size G → n < U64 →
  (∀ s', updates G ino (resize_to (fdata G s raw 0 (fsize raw)) n) s s' → (∀ x, isfree G s x = true → isfree G s' x = true) → Q (inr tt) s') →
  wp (truncate ino n) Q s.
Proof using HG.
  intros Hf HR Hreg Hn H64 HQ. pose proof (fo_blocks _ _ Hf) as Hs. pose proof (bo_disk _ _ Hs) as Hd.
  destruct (tree_inodes_Some G s ino raw HR) as (Hi & Hraw & _). destruct (to_raw _ _ _ (fo_trees _ _ Hf) ino raw HR) as [Hz Hb].
  pose proof (go_isz G HG). pose proof (fsize_range raw ltac:(lia) Hb) as Hsz.
  unfold truncate, check_rw. ie_steps. rewrite (bo_rw _ _ Hs). ie_steps. eapply wp_eq; [by apply (read_inode_eq G HG)|]. cbn beta iota.
  rewrite <- Hraw. unfold is_dir. rewrite is_kind_eq, Hreg by lia. change (S_IFREG =? S_IFDIR) with false. ie_steps.
  apply (wp_truncate_inode s ino raw n); try done. intros s1 raw1 E1. ie_steps. cbn [fst snd].
  pose proof (ed_ok _ _ _ _ _ _ _ E1) as Hs1. destruct (to_raw _ _ _ (ed_trees _ _ _ _ _ _ _ E1) ino raw1 (upd_same _ _ _)) as [Hz1 Hb1].
  assert (kind raw1 = S_IFREG) as Hreg1 by (unfold kind; rewrite (ed_keeps _ _ _ _ _ _ _ E1) by done; exact Hreg).
  set (raw2 := fset_size n raw1). set (l := resize_to (fdata G s raw 0 (fsize raw)) n).
  assert (zlen raw2 = g_isz G) as Hz2 by (unfold raw2; rewrite zlen_fset_size; lia).
  assert (Forall is_byte raw2) as Hb2 by (by apply is_byte_fset_size).
  assert (∀ k, 0 ≤ k < 15 → iblk raw2 k = iblk raw1 k) as Hib.
  { intros k Hk. rewrite !iblk_fget. apply fget_fset_size; [lia|done|done|done]. }
  assert (same_id raw raw2) as Hid.
  { intros f Hff ? ? ? ? ? Hk. unfold raw2. rewrite fget_fset_size by (done || lia). by rewrite (ed_keeps _ _ _ _ _ _ _ E1). }
  assert (trees_ok G s1 (upd (tree_inodes G s) ino raw2)) as Ht2.
  { by apply (trees_fields G s1 _ ino raw1); [apply (ed_trees _ _ _ _ _ _ _ E1)|..]. }
  assert (fsize raw2 = zlen l) as Hsz2.
  { unfold raw2, l. rewrite zlen_resize by lia. apply fsize_fset_size; [lia|done|]. unfold size_bound. rewrite Hreg1. simpl. lia. }
  assert (∀ pos, 0 ≤ pos → fbyte G s1 raw2 pos = byte l pos) as Hby.
  { intros pos Hpos. rewrite (fbyte_iblk G HG s1 raw1) by done. rewrite (ed_mine _ _ _ _ _ _ _ E1 pos Hpos). unfold l. rewrite byte_resize by done.
    destruct (pos <? n); [|done]. destruct (Z.lt_ge_cases pos (fsize raw)); [by rewrite byte_fdata by lia|].
    rewrite byte_overflow by (rewrite zlen_fdata; lia). by apply (fo_tail _ _ Hf ino). }
  set (t := clock s1 (readings s1)).
  destruct (commit_stamped G HG s ino raw s1 raw2 t l Hf HR (or_introl Hreg) Hs1 Ht2 Hid (ed_differ _ _ _ _ _ _ _ E1) (ed_side _ _ _ _ _ _ _ E1)
    (ed_other _ _ _ _ _ _ _ E1) Hsz2 (λ pos Hp _, Hby pos Hp)) as (Hup & Hfr & _).
  pose proof (blocks_ok_ticked G s1 Hs1) as Hst. destruct (stamped_raw G HG t raw2 Hz2 Hb2) as (Hz3 & Hb3 & _).
  eapply wp_eq; [apply stamp_eq; lia|]. cbn beta iota.
  eapply wp_eq; [apply (write_inode_eq G HG); [apply (bo_disk _ _ Hst)|done|done]|]. fold t.
  apply HQ; [done|]. intros x Hx. rewrite Hfr. by apply (ed_free _ _ _ _ _ _ _ E1).
Qed.
End trunc.
