(* ===== verification/Ext2Dirent.v ===== *)
(** * The ext2 file system: directory blocks

    A directory block is tiled by records.  [parse_dir_block] visits them in
    order, and the updates of [add_entry], [remove_entry] and [set_entry] give
    blocks that are tiled again and hold the entries they should. *)

From S2P Require Import Prelude Text Bytes Ext2 Ext2Fs Ext2Names.

(** ** Records *)

Record Rec := mkRec { r_ino : Z; r_len : Z; r_name : list Z; r_type : Z }.

Definition rec_ok (r : Rec) : Prop :=
  8 + zlen (r_name r) ≤ r_len r ∧ r_len r mod 4 = 0 ∧ r_len r < 65536 ∧
  0 ≤ r_ino r < U32 ∧ 0 ≤ r_type r < 256 ∧ zlen (r_name r) < 256.

(** Record [r] lies at offset [o] of [b]. *)
Definition rec_at (b : list Z) (o : Z) (r : Rec) : Prop :=
  rec_ok r ∧ field 4 b o = r_ino r ∧ field 2 b (o + 4) = r_len r ∧ field 1 b (o + 6) = zlen (r_name r) ∧
  field 1 b (o + 7) = r_type r ∧ seg b (o + 8) (zlen (r_name r)) = r_name r.

(** The records [l] tile [b] from [o] to [e]. *)
Fixpoint tiled (b : list Z) (o : Z) (l : list Rec) (e : Z) : Prop :=
  match l with
  | [] => o = e
  | r :: l' => rec_at b o r ∧ tiled b (o + r_len r) l' e
  end.

Definition span_len (l : list Rec) : Z := foldr (λ r n, r_len r + n) 0 l.

Lemma rec_len_pos r : rec_ok r → 8 ≤ r_len r.
Proof. intros (? & _). pose proof (zlen_nonneg (r_name r)). lia. Qed.

Lemma tiled_end b o l e : tiled b o l e → e = o + span_len l ∧ 8 * zlen l ≤ span_len l.
Proof.
  revert o. induction l as [|r l IH]; intros o; simpl; [intros ->; unfold zlen; simpl; lia|]. intros [Hr Ht]. destruct (IH _ Ht) as [-> Hl].
  rewrite zlen_cons. pose proof (rec_len_pos r (proj1 Hr)). lia.
Qed.

Lemma tiled_app b o l k e : tiled b o (l ++ k) e ↔ tiled b o l (o + span_len l) ∧ tiled b (o + span_len l) k e.
Proof.
  revert o. induction l as [|r l IH]; intros o; simpl.
  - rewrite Z.add_0_r. naive_solver.
  - rewrite (IH (o + r_len r)). rewrite Z.add_assoc. naive_solver.
Qed.

Lemma span_len_app l k : span_len (l ++ k) = span_len l + span_len k.
Proof. induction l as [|r l IH]; simpl; lia. Qed.

(** Only the bytes of the records matter. *)
Lemma rec_at_ext b c o r :
  0 ≤ o → o + r_len r ≤ zlen b → zlen c = zlen b → (∀ i, o ≤ i < o + r_len r → byte c i = byte b i) → rec_at b o r → rec_at c o r.
Proof.
  intros Ho Hl Hz Hb (H0 & H1 & H2 & H3 & H4 & H5). pose proof H0 as (Hn & _). pose proof (zlen_nonneg (r_name r)).
  split_and!; [done| | | | |].
  - rewrite <- H1. apply field_ext; try (simpl; lia). intros i Hi. apply Hb. simpl in Hi. lia.
  - rewrite <- H2. apply field_ext; try (simpl; lia). intros i Hi. apply Hb. simpl in Hi. lia.
  - rewrite <- H3. apply field_ext; try (simpl; lia). intros i Hi. apply Hb. simpl in Hi. lia.
  - rewrite <- H4. apply field_ext; try (simpl; lia). intros i Hi. apply Hb. simpl in Hi. lia.
  - rewrite <- H5 at 2. apply bytes_ext; rewrite !zlen_seg by lia; [done|]. intros i Hi. rewrite !byte_seg by lia. apply Hb. lia.
Qed.

Lemma tiled_ext b c o l e :
  0 ≤ o → e ≤ zlen b → zlen c = zlen b → (∀ i, o ≤ i < e → byte c i = byte b i) → tiled b o l e → tiled c o l e.
Proof.
  intros Ho He Hz. revert o Ho. induction l as [|r l IH]; intros o Ho Hb; simpl; [done|]. intros [Hr Ht].
  destruct (tiled_end _ _ _ _ Ht) as [-> Hl]. pose proof (rec_len_pos r (proj1 Hr)). pose proof (zlen_nonneg l). split.
  - apply (rec_at_ext b); try done; [lia|]. intros i Hi. apply Hb. lia.
  - apply IH; [lia| |done]. intros i Hi. apply Hb. lia.
Qed.

(** ** Parsing *)

(** What the callback makes of a list of records. *)
Fixpoint visit {A} (f : Z → Z → Z → list Z → Z → A → A * bool) (o : Z) (l : list Rec) (a : A) : A :=
  match l with
  | [] => a
  | r :: l' => let '(a', more) := f o (r_ino r) (r_len r) (r_name r) (r_type r) a in
               if (more : bool) then visit f (o + r_len r) l' a' else a'
  end.

Lemma parse_visit {A} fuel b (f : Z → Z → Z → list Z → Z → A → A * bool) o l a :
  tiled b o l (zlen b) → 0 ≤ o → (length l < fuel)%nat →
  parse_loop fuel (zlen b) b f o a = Some (inr (visit f o l a)).
Proof.
  revert fuel o a. induction l as [|r l IH]; intros fuel o a; (destruct fuel as [|fuel]; [simpl; lia|]); simpl.
  - intros -> Ho _. by rewrite (proj2 (Z.ltb_lt _ _)) by lia.
  - intros [(Hok & H1 & H2 & H3 & H4 & H5) Ht] Ho Hf. destruct (tiled_end _ _ _ _ Ht) as [He Hl]. pose proof (rec_len_pos r Hok).
    pose proof (zlen_nonneg l). pose proof (zlen_nonneg (r_name r)). pose proof Hok as (Hn & Hm & _).
    rewrite (proj2 (Z.ltb_ge _ _)) by lia. rewrite !rd_ok by (simpl; lia). cbn [mbind option_bind].
    rewrite H1, H2, H3, H4. rewrite !(proj2 (Z.ltb_ge _ _)) by lia. rewrite Hm. cbn [orb negb Z.eqb].
    rewrite get_seg_ok by lia. cbn [mbind option_bind]. rewrite H5.
    destruct (f _ _ _ _ _ _) as [a' more]. destruct more; [|done]. apply IH; [done|lia|lia].
Qed.

(** The fuel of [parse_dir_block] is enough for every tiled block. *)
Lemma parse_block {A} b (f : Z → Z → Z → list Z → Z → A → A * bool) l a :
  tiled b 0 l (zlen b) → parse_dir_block (zlen b) b f a = Some (inr (visit f 0 l a)).
Proof.
  intros Ht. apply parse_visit; [done|lia|]. destruct (tiled_end _ _ _ _ Ht) as [He Hl]. unfold zlen in Hl.
  assert (Z.of_nat (length l) ≤ zlen b / 8) by (apply Z.div_le_lower_bound; lia). lia.
Qed.

(** ** Entries *)

(** The live entries of a block: name, inode and type. *)
Definition Entry : Type := list Z * (Z * Z).
Definition live (r : Rec) : option Entry := if r_ino r =? 0 then None else Some (r_name r, (r_ino r, r_type r)).
Definition entries (l : list Rec) : list Entry := omap live l.

Lemma entries_app l k : entries (l ++ k) = entries l ++ entries k.
Proof. apply omap_app. Qed.

(** Is [r] the live record of a name? *)
Definition names (name : list Z) (r : Rec) : bool := negb (r_ino r =? 0) && str_eqb (r_name r) name.

Lemma entries_none name l : name ∉ (entries l).*1 → Forall (λ r, names name r = false) l.
Proof.
  induction l as [|r l IH]; [constructor|]. unfold entries. simpl. unfold live, names in *. destruct (Z.eqb_spec (r_ino r) 0) as [H0|H0]; simpl.
  - intros Hn. constructor; [by rewrite H0|by apply IH].
  - rewrite not_elem_of_cons. intros [H1 H2]. constructor; [|by apply IH]. rewrite (proj2 (Z.eqb_neq _ _)) by done. cbn [negb andb].
    unfold str_eqb. apply bool_decide_false. congruence.
Qed.

Lemma entries_find name i t l :
  (name, (i, t)) ∈ entries l → ∃ l1 r l2, l = l1 ++ r :: l2 ∧ names name r = true ∧ Forall (λ r, names name r = false) l1.
Proof.
  induction l as [|r l IH]; [by intros ?%elem_of_nil|]. destruct (names name r) eqn:En.
  { intros _. by exists [], r, l. }
  intros Hin. assert ((name, (i, t)) ∈ entries l) as Hin'.
  { unfold entries in Hin. simpl in Hin. unfold live, names in *. destruct (Z.eqb_spec (r_ino r) 0); [done|]. simpl in *.
    apply elem_of_cons in Hin as [[= -> _ _]|?]; [|done]. unfold str_eqb in En. by rewrite bool_decide_true in En. }
  destruct (IH Hin') as (l1 & r' & l2 & -> & H1 & H2). exists (r :: l1), r', l2. split_and!; [done|done|by constructor].
Qed.

Lemma names_true name r : names name r = true → r_ino r ≠ 0 ∧ r_name r = name.
Proof.
  unfold names, str_eqb. intros [H1 H2]%andb_true_iff. apply negb_true_iff, Z.eqb_neq in H1. by apply bool_decide_eq_true in H2.
Qed.

Lemma entries_hit name l1 r l2 :
  names name r = true → entries (l1 ++ r :: l2) = entries l1 ++ (name, (r_ino r, r_type r)) :: entries l2.
Proof.
  intros [H0 <-]%names_true. rewrite entries_app. f_equal. unfold entries. simpl. unfold live. by rewrite (proj2 (Z.eqb_neq _ _)).
Qed.

(** [lookup]'s callback, and [set_entry]'s. *)
Lemma visit_lookup_none name o l a : Forall (λ r, names name r = false) l → visit (on_lookup name) o l a = a.
Proof.
  intros Hl. revert o. induction Hl as [|r l Hr _ IH]; intros o; [done|]. simpl. unfold on_lookup at 1. unfold names in Hr. rewrite Hr. apply IH.
Qed.

Lemma visit_lookup_hit name o l1 r l2 a :
  Forall (λ r, names name r = false) l1 → names name r = true → visit (on_lookup name) o (l1 ++ r :: l2) a = Some (r_ino r).
Proof.
  intros Hl Hr. revert o. induction Hl as [|r' l1 Hr' _ IH]; intros o; simpl; unfold on_lookup at 1.
  - unfold names in Hr. by rewrite Hr.
  - unfold names in Hr'. rewrite Hr'. apply IH.
Qed.

Lemma visit_set_none name o l a : Forall (λ r, names name r = false) l → visit (on_set name) o l a = a.
Proof.
  intros Hl. revert o. induction Hl as [|r l Hr _ IH]; intros o; [done|]. simpl. unfold on_set at 1. unfold names in Hr. rewrite Hr. apply IH.
Qed.

Lemma visit_set_hit name o l1 r l2 a :
  Forall (λ r, names name r = false) l1 → names name r = true → visit (on_set name) o (l1 ++ r :: l2) a = Some (o + span_len l1).
Proof.
  intros Hl Hr. revert o. induction Hl as [|r' l1 Hr' _ IH]; intros o; simpl; unfold on_set at 1.
  - unfold names in Hr. rewrite Hr. by rewrite Z.add_0_r.
  - unfold names in Hr'. rewrite Hr', IH. f_equal. lia.
Qed.

(** [remove_entry]'s callback remembers the record before. *)
Definition last_off (o : Z) (l : list Rec) (prev : option Z) : option Z :=
  match last l with None => prev | Some r => Some (o + span_len l - r_len r) end.

Lemma last_off_cons o r l prev : last_off o (r :: l) prev = last_off (o + r_len r) l (Some o).
Proof.
  unfold last_off. destruct l as [|r' l]; [simpl; f_equal; lia|]. rewrite last_cons.
  destruct (last (r' :: l)) as [x|] eqn:E; [|by apply last_None in E]. simpl. f_equal. lia.
Qed.

Lemma visit_remove_none name o l p : Forall (λ r, names name r = false) l → (visit (on_remove name) o l (p, None)).2 = None.
Proof.
  intros Hl. revert o p. induction Hl as [|r l Hr _ IH]; intros o p; [done|]. simpl. unfold on_remove at 1. unfold names in Hr. rewrite Hr. apply IH.
Qed.

Lemma visit_remove_hit name o l1 r l2 p :
  Forall (λ r, names name r = false) l1 → names name r = true →
  (visit (on_remove name) o (l1 ++ r :: l2) (p, None)).2 = Some (o + span_len l1, r_ino r, r_len r, last_off o l1 p).
Proof.
  intros Hl Hr. revert o p. induction Hl as [|r' l1 Hr' _ IH]; intros o p; simpl; unfold on_remove at 1.
  - unfold names in Hr. rewrite Hr. simpl. by rewrite Z.add_0_r.
  - unfold names in Hr'. rewrite Hr', IH. cbn [fst]. rewrite last_off_cons. by rewrite Z.add_assoc.
Qed.

(** [add_entry]'s callback takes the first record with enough space behind its
    name. *)
Definition used_len (r : Rec) : Z := if r_ino r =? 0 then 0 else entry_len (zlen (r_name r)).

Lemma visit_add n o l a :
  visit (on_add n) o l a = a ∨
  ∃ l1 r l2, l = l1 ++ r :: l2 ∧ n ≤ r_len r - used_len r ∧ visit (on_add n) o l a = Some (o + span_len l1, used_len r, r_len r).
Proof.
  revert o. induction l as [|r l IH]; intros o; [by left|]. simpl. unfold on_add at 1 3. fold (used_len r).
  destruct (Z.leb_spec n (r_len r - used_len r)) as [Hle|Hgt].
  - right. exists [], r, l. split_and!; [done|done|]. simpl. by rewrite Z.add_0_r.
  - destruct (IH (o + r_len r)) as [->|(l1 & r' & l2 & -> & H1 & ->)]; [by left|]. right. exists (r :: l1), r', l2.
    split_and!; [done|done|]. simpl. by rewrite Z.add_assoc.
Qed.

(** ** Writing records *)

Lemma paste_app b o v w :
  0 ≤ o → o + zlen v + zlen w ≤ zlen b → paste (paste b o v) (o + zlen v) w = paste b o (v ++ w).
Proof.
  intros Ho Hl. pose proof (zlen_nonneg v). pose proof (zlen_nonneg w).
  apply bytes_ext; rewrite !zlen_paste by (rewrite ?zlen_paste, ?zlen_app; lia); [done|]. intros i Hi.
  rewrite !byte_paste by (rewrite ?zlen_paste, ?zlen_app; lia). rewrite zlen_app.
  destruct (Z.leb_spec (o + zlen v) i), (Z.ltb_spec i (o + zlen v + zlen w)), (Z.leb_spec o i), (Z.ltb_spec i (o + zlen v)), (Z.ltb_spec i (o + (zlen v + zlen w)));
    cbn [andb]; try lia; try done.
  - rewrite byte_app_r by lia. f_equal. lia.
  - by rewrite byte_app_l by lia.
Qed.

Definition header (ino len : Z) (name : list Z) (ty : Z) : list Z :=
  le_bytes 4 ino ++ le_bytes 2 len ++ le_bytes 1 (zlen name) ++ le_bytes 1 ty ++ name.

Lemma zlen_header ino len name ty : zlen (header ino len name ty) = 8 + zlen name.
Proof. unfold header. rewrite !zlen_app, !zlen_le_bytes. lia. Qed.

Lemma write_entry_eq b o ino len name ty :
  0 ≤ o → o + 8 + zlen name ≤ zlen b → write_entry b o ino len name ty = Some (paste b o (header ino len name ty)).
Proof.
  intros Ho Hl. pose proof (zlen_nonneg name). unfold write_entry.
  rewrite wr_ok by (simpl; lia). cbn [mbind option_bind].
  rewrite wr_ok by (rewrite ?zlen_paste; rewrite ?zlen_le_bytes; simpl; lia). cbn [mbind option_bind].
  replace (o + 4) with (o + zlen (le_bytes 4 ino)) by (rewrite zlen_le_bytes; lia).
  rewrite paste_app by (rewrite ?zlen_le_bytes; simpl; lia). set (h1 := le_bytes 4 ino ++ le_bytes 2 len).
  assert (zlen h1 = 6) as Hh1 by done. rewrite wr_ok by (rewrite ?zlen_paste; simpl; lia). cbn [mbind option_bind].
  replace (o + 6) with (o + zlen h1) by lia. rewrite paste_app by (rewrite ?zlen_le_bytes; simpl; lia).
  set (h2 := h1 ++ le_bytes 1 (zlen name)). assert (zlen h2 = 7) as Hh2 by done.
  rewrite wr_ok by (rewrite ?zlen_paste; simpl; lia). cbn [mbind option_bind].
  replace (o + 7) with (o + zlen h2) by lia. rewrite paste_app by (rewrite ?zlen_le_bytes; simpl; lia).
  set (h3 := h2 ++ le_bytes 1 ty). assert (zlen h3 = 8) as Hh3 by done.
  rewrite put_seg_ok by (rewrite ?zlen_paste; simpl; lia).
  replace (o + 8) with (o + zlen h3) by lia. rewrite paste_app by lia. unfold h3, h2, h1, header. by rewrite <- !app_assoc.
Qed.

Lemma seg_paste_in b o v p n :
  0 ≤ o → o + zlen v ≤ zlen b → 0 ≤ p → 0 ≤ n → p + n ≤ zlen v → seg (paste b o v) (o + p) n = seg v p n.
Proof.
  intros. apply bytes_ext; rewrite !zlen_seg by (rewrite ?zlen_paste; lia); [done|]. intros i Hi.
  rewrite !byte_seg, byte_paste_in by lia. f_equal. lia.
Qed.

Lemma field_paste_in n b o v p :
  0 ≤ o → o + zlen v ≤ zlen b → 0 ≤ p → p + Z.of_nat n ≤ zlen v → field n (paste b o v) (o + p) = field n v p.
Proof. intros. unfold field. by rewrite seg_paste_in by lia. Qed.

Lemma seg_mid a b c : seg (a ++ b ++ c) (zlen a) (zlen b) = b.
Proof. unfold seg, zlen. rewrite !Nat2Z.id, drop_app_length, take_app_length. done. Qed.

(** A record is there after it was written. *)
Lemma rec_at_header b o r :
  0 ≤ o → o + r_len r ≤ zlen b → rec_ok r → rec_at (paste b o (header (r_ino r) (r_len r) (r_name r) (r_type r))) o r.
Proof.
  intros Ho Hl Hr. pose proof Hr as (H1 & H2 & H3 & H4 & H5 & H6). pose proof (zlen_nonneg (r_name r)).
  set (h := header _ _ _ _). assert (zlen h = 8 + zlen (r_name r)) as Hh by apply zlen_header.
  split_and!; [done| | | | |].
  - rewrite <- (Z.add_0_r o) at 2. rewrite field_paste_in by (simpl; lia). unfold field, h, header.
    pose proof (seg_mid [] (le_bytes 4 (r_ino r))) as Hs. cbn [app] in Hs. rewrite Hs, le_val_bytes. by apply Z.mod_small.
  - rewrite field_paste_in by (simpl; lia). unfold field, h, header.
    pose proof (seg_mid (le_bytes 4 (r_ino r)) (le_bytes 2 (r_len r))) as Hs. rewrite Hs, le_val_bytes. apply Z.mod_small. pose proof (rec_len_pos r Hr). simpl. lia.
  - rewrite field_paste_in by (simpl; lia). unfold field, h, header. rewrite app_assoc.
    pose proof (seg_mid (le_bytes 4 (r_ino r) ++ le_bytes 2 (r_len r)) (le_bytes 1 (zlen (r_name r)))) as Hs. rewrite Hs, le_val_bytes. apply Z.mod_small. simpl. lia.
  - rewrite field_paste_in by (simpl; lia). unfold field, h, header. rewrite app_assoc, app_assoc.
    pose proof (seg_mid ((le_bytes 4 (r_ino r) ++ le_bytes 2 (r_len r)) ++ le_bytes 1 (zlen (r_name r))) (le_bytes 1 (r_type r))) as Hs. rewrite Hs, le_val_bytes. apply Z.mod_small. simpl. lia.
  - rewrite seg_paste_in by lia. unfold h, header. rewrite !app_assoc. rewrite <- (app_nil_r (r_name r)) at 2. rewrite <- app_assoc.
    exact (seg_mid (((le_bytes 4 (r_ino r) ++ le_bytes 2 (r_len r)) ++ le_bytes 1 (zlen (r_name r))) ++ le_bytes 1 (r_type r)) (r_name r) []).
Qed.

(** ** Updates of a block *)

Lemma entry_len_spec n : 0 ≤ n → 8 + n ≤ entry_len n < 12 + n ∧ entry_len n mod 4 = 0.
Proof.
  intros Hn. unfold entry_len. change 3 with (Z.ones 2) at 2 4 6. rewrite Z.ldiff_ones_r by lia. rewrite Z.shiftl_mul_pow2, Z.shiftr_div_pow2 by lia.
  change (2 ^ 2) with 4. rewrite Z.mod_mul by lia. split; [|done]. Z.to_euclidean_division_equations; lia.
Qed.

(** Replacing one record by others of the same length. *)
Lemma tiled_replace b c l1 r m l2 :
  let o := span_len l1 in
  tiled b 0 (l1 ++ r :: l2) (zlen b) → zlen c = zlen b → (∀ i, 0 ≤ i < zlen b → i < o ∨ o + r_len r ≤ i → byte c i = byte b i) →
  tiled c o m (o + r_len r) → tiled c 0 (l1 ++ m ++ l2) (zlen b).
Proof.
  intros o [H1 H2]%tiled_app Hz Hb Hm. rewrite Z.add_0_l in *. fold o in H1, H2. destruct H2 as [Hr H2].
  destruct (tiled_end _ _ _ _ H1) as [_ Hl1]. pose proof (zlen_nonneg l1). destruct (tiled_end _ _ _ _ H2) as [He Hl2]. pose proof (zlen_nonneg l2).
  pose proof (rec_len_pos r (proj1 Hr)). destruct (tiled_end _ _ _ _ Hm) as [Hem _]. fold o in Hl1.
  apply tiled_app. rewrite Z.add_0_l. fold o. split; [|apply tiled_app; rewrite <- Hem; split; [done|]].
  - apply (tiled_ext b); try done; [lia|]. intros i Hi. apply Hb; lia.
  - apply (tiled_ext b); try done; [lia|]. intros i Hi. apply Hb; lia.
Qed.

Definition with_len (n : Z) (r : Rec) : Rec := mkRec (r_ino r) n (r_name r) (r_type r).

Lemma rec_at_with_len b o r n :
  0 ≤ o → o + r_len r ≤ zlen b → rec_at b o r → rec_ok (with_len n r) → rec_at (paste b (o + 4) (le_bytes 2 n)) o (with_len n r).
Proof.
  intros Ho Hl (H0 & H1 & H2 & H3 & H4 & H5) Hn. pose proof H0 as (Hlen & _). pose proof Hn as (Hn1 & _ & Hn2 & _). cbn [with_len r_len r_name] in Hn1, Hn2. pose proof (zlen_nonneg (r_name r)).
  split_and!; cbn [with_len r_ino r_len r_name r_type]; [done| | | | |].
  - rewrite <- H1. apply field_other; simpl; lia.
  - rewrite field_same by (simpl; lia). apply Z.mod_small. simpl. lia.
  - rewrite <- H3. apply field_other; simpl; lia.
  - rewrite <- H4. apply field_other; simpl; lia.
  - rewrite <- H5 at 2. apply seg_paste_other; rewrite ?zlen_le_bytes; simpl; lia.
Qed.

Lemma rec_at_ino b o r i :
  0 ≤ o → o + r_len r ≤ zlen b → rec_at b o r → 0 ≤ i < U32 → rec_at (paste b o (le_bytes 4 i)) o (mkRec i (r_len r) (r_name r) (r_type r)).
Proof.
  intros Ho Hl (H0 & H1 & H2 & H3 & H4 & H5) Hi. pose proof H0 as (Hlen & ? & ? & ? & ? & ?). pose proof (zlen_nonneg (r_name r)).
  split_and!; cbn [r_ino r_len r_name r_type]; [unfold rec_ok; cbn; split_and!; lia| | | | |].
  - rewrite field_same by (simpl; lia). by apply Z.mod_small.
  - rewrite <- H2. apply field_other; simpl; lia.
  - rewrite <- H3. apply field_other; simpl; lia.
  - rewrite <- H4. apply field_other; simpl; lia.
  - rewrite <- H5 at 2. apply seg_paste_other; rewrite ?zlen_le_bytes; simpl; lia.
Qed.

Lemma rec_at_type b o r t :
  0 ≤ o → o + r_len r ≤ zlen b → rec_at b o r → 0 ≤ t < 256 → rec_at (paste b (o + 7) (le_bytes 1 t)) o (mkRec (r_ino r) (r_len r) (r_name r) t).
Proof.
  intros Ho Hl (H0 & H1 & H2 & H3 & H4 & H5) Hi. pose proof H0 as (Hlen & ? & ? & ? & ? & ?). pose proof (zlen_nonneg (r_name r)).
  split_and!; cbn [r_ino r_len r_name r_type]; [unfold rec_ok; cbn; split_and!; lia| | | | |].
  - rewrite <- H1. apply field_other; simpl; lia.
  - rewrite <- H2. apply field_other; simpl; lia.
  - rewrite <- H3. apply field_other; simpl; lia.
  - rewrite field_same by (simpl; lia). by apply Z.mod_small.
  - rewrite <- H5 at 2. apply seg_paste_other; rewrite ?zlen_le_bytes; simpl; lia.
Qed.

Section edits.
Context (b : list Z) (Hbytes : Forall is_byte b).

(** The result of an edit of a tiled block: the same size, tiled by [l]. *)
Definition edited_block (b' : list Z) (l : list Rec) : Prop :=
  zlen b' = zlen b ∧ Forall is_byte b' ∧ tiled b' 0 l (zlen b).

Lemma mid_bounds l1 r l2 : tiled b 0 (l1 ++ r :: l2) (zlen b) → 0 ≤ span_len l1 ∧ span_len l1 + r_len r ≤ zlen b ∧ rec_at b (span_len l1) r.
Proof.
  intros [H1 [Hr H2]]%tiled_app. rewrite Z.add_0_l in *. destruct (tiled_end _ _ _ _ H1) as [_ Hl1]. pose proof (zlen_nonneg l1).
  destruct (tiled_end _ _ _ _ H2) as [He Hl2]. pose proof (zlen_nonneg l2). split_and!; [lia|lia|done].
Qed.

Lemma add_in_block_ok l1 r l2 name ino ty :
  tiled b 0 (l1 ++ r :: l2) (zlen b) → entry_len (zlen name) ≤ r_len r - used_len r →
  zlen name < 256 → Forall is_byte name → 0 < ino < U32 → 0 ≤ ty < 256 →
  ∃ b' m, add_in_block b (span_len l1) (used_len r) (r_len r) name ino ty = Some b' ∧
    edited_block b' (l1 ++ m ++ l2) ∧ entries m = entries [r] ++ [(name, (ino, ty))].
Proof using Hbytes.
  intros Ht Hfit Hn Hnb Hino Hty. destruct (mid_bounds l1 r l2 Ht) as (Ho & Hl & Hr). pose proof Hr as ((Hr1 & Hr2 & Hr3 & Hr4 & Hr5 & Hr6) & _).
  set (o := span_len l1) in *. destruct (entry_len_spec (zlen name) (zlen_nonneg name)) as [[E1 E2] E3].
  destruct (entry_len_spec (zlen (r_name r)) (zlen_nonneg (r_name r))) as [[F1 F2] F3]. pose proof (zlen_nonneg name). pose proof (zlen_nonneg (r_name r)).
  assert (∀ i len nm t, Forall is_byte nm → Forall is_byte (header i len nm t)) as Hhb.
  { intros. unfold header. repeat (apply Forall_app; split); try apply le_bytes_byte; done. }
  unfold add_in_block, used_len in *. destruct (Z.eqb_spec (r_ino r) 0) as [Hi0|Hi0].
  - change (0 =? 0) with true. cbn beta iota. cbn [mbind option_bind]. rewrite Z.sub_diag, Z.sub_0_r. rewrite write_entry_eq by lia.
    eexists _, [mkRec ino (r_len r) name ty]. split; [done|]. split.
    + split_and!; [rewrite zlen_paste; rewrite ?zlen_header; lia|apply is_byte_paste; [done|by apply Hhb]|].
      apply (tiled_replace b _ l1 r [mkRec ino (r_len r) name ty] l2 Ht); [rewrite zlen_paste; rewrite ?zlen_header; lia| |].
      * intros i Hi Hout. fold o in Hout. apply byte_paste_out; rewrite ?zlen_header; lia.
      * fold o. split; [|done]. apply (rec_at_header b o (mkRec ino (r_len r) name ty)); [done|done|].
        split_and!; cbn; lia.
    + unfold entries. cbn. unfold live. rewrite Hi0. cbn. by rewrite (proj2 (Z.eqb_neq _ _)) by lia.
  - set (u := entry_len (zlen (r_name r))) in *. rewrite (proj2 (Z.eqb_neq u 0)) by lia. rewrite wr_ok by (simpl; lia). cbn [mbind option_bind].
    set (b1 := paste b (o + 4) (le_bytes 2 u)). assert (zlen b1 = zlen b) as Hz1 by (unfold b1; rewrite zlen_paste; rewrite ?zlen_le_bytes; simpl; lia).
    rewrite write_entry_eq by lia. replace (r_len r - (o + u - o)) with (r_len r - u) by lia.
    assert (rec_ok (with_len u r)) as Hu by (split_and!; cbn; lia).
    assert (rec_ok (mkRec ino (r_len r - u) name ty)) as Hnew.
    { split_and!; cbn; try lia. rewrite Zminus_mod, Hr2, F3. done. }
    set (b2 := paste b1 (o + u) _). assert (zlen b2 = zlen b) as Hz2 by (unfold b2; rewrite zlen_paste; rewrite ?zlen_header; lia).
    eexists b2, [with_len u r; mkRec ino (r_len r - u) name ty]. split; [done|]. split.
    + split_and!; [done|apply is_byte_paste; [apply is_byte_paste; [done|apply le_bytes_byte]|by apply Hhb]|].
      apply (tiled_replace b _ l1 r [_; _] l2 Ht Hz2); fold o.
      * intros i Hi Hout. unfold b2. rewrite byte_paste_out by (rewrite ?zlen_header; lia). apply byte_paste_out; rewrite ?zlen_le_bytes; simpl; lia.
      * simpl. split_and!; [| |lia].
        -- apply (rec_at_ext b1); [done|cbn; lia|lia| |by apply rec_at_with_len]. cbn. intros i Hi. apply byte_paste_out; rewrite ?zlen_header; lia.
        -- apply (rec_at_header b1 (o + u) (mkRec ino (r_len r - u) name ty)); [lia|cbn; lia|done].
    + unfold entries. cbn. unfold live. cbn. rewrite (proj2 (Z.eqb_neq (r_ino r) 0)) by done. cbn. by rewrite (proj2 (Z.eqb_neq _ _)) by lia.
Qed.

Lemma remove_in_block_ok l1 r l2 :
  tiled b 0 (l1 ++ r :: l2) (zlen b) → zlen b < 65536 →
  ∃ b' l, remove_in_block b (span_len l1) (r_len r) (last_off 0 l1 None) = Some b' ∧
    edited_block b' l ∧ entries l = entries l1 ++ entries l2.
Proof using Hbytes.
  intros Ht Hsmall. destruct (mid_bounds l1 r l2 Ht) as (Ho & Hl & Hr). pose proof Hr as (Hok & _). pose proof (rec_len_pos r Hok) as Hrl.
  destruct l1 as [|q l0 _] using rev_ind.
  - cbn [remove_in_block last_off last span_len foldr] in *. rewrite wr_ok by (simpl; lia).
    set (r0 := mkRec 0 (r_len r) (r_name r) (r_type r)). eexists _, (r0 :: l2). split; [done|]. split; [|done].
    split_and!; [rewrite zlen_paste; rewrite ?zlen_le_bytes; simpl; lia|apply is_byte_paste; [done|apply le_bytes_byte]|].
    apply (tiled_replace b _ [] r [r0] l2 Ht); [rewrite zlen_paste; rewrite ?zlen_le_bytes; simpl; lia| |].
    + intros i Hi Hout. cbn [span_len foldr] in Hout. apply byte_paste_out; rewrite ?zlen_le_bytes; simpl; lia.
    + split; [|done]. by apply rec_at_ino.
  - rewrite <- app_assoc in Ht. cbn [app] in Ht. destruct (mid_bounds l0 q (r :: l2) Ht) as (Ho' & Hl' & Hq). pose proof Hq as (Hqok & _ & Hq2 & _).
    assert (span_len (l0 ++ [q]) = span_len l0 + r_len q) as Hsp by (rewrite span_len_app; simpl; lia).
    unfold last_off. rewrite last_snoc. rewrite Hsp in *. replace (0 + (span_len l0 + r_len q) - r_len q) with (span_len l0) by lia.
    set (o := span_len l0) in *. pose proof Hqok as (Q1 & Q2 & Q3 & Q4 & Q5 & Q6). destruct Hok as (R1 & R2 & R3 & _). pose proof (zlen_nonneg (r_name q)).
    unfold remove_in_block. rewrite rd_ok by (simpl; lia). cbn [mbind option_bind]. rewrite Hq2. unfold chk16.
    rewrite (proj2 (andb_true_iff _ _)) by (split; [apply Z.leb_le; lia|apply Z.ltb_lt; lia]). cbn [mbind option_bind].
    rewrite wr_ok by (simpl; lia). set (n := r_len q + r_len r).
    assert (rec_ok (with_len n q)) as Hn.
    { split_and!; cbn; try lia. unfold n. by rewrite Zplus_mod, Q2, R2. }
    assert (Hrec := rec_at_with_len b o q n Ho' ltac:(lia) Hq Hn). set (b' := paste b (o + 4) (le_bytes 2 n)) in *.
    assert (zlen b' = zlen b) as Hz by (unfold b'; rewrite zlen_paste; rewrite ?zlen_le_bytes; simpl; lia).
    assert (∀ i, 0 ≤ i → i < o ∨ o + r_len q ≤ i → byte b' i = byte b i) as Hout.
    { intros i Hi Hio. apply byte_paste_out; rewrite ?zlen_le_bytes; simpl; lia. }
    exists b', (l0 ++ with_len n q :: l2). split; [done|]. split.
    + split_and!; [done|apply is_byte_paste; [done|apply le_bytes_byte]|]. apply tiled_app in Ht as [T1 [_ [_ T2]]]. rewrite Z.add_0_l in *. fold o in T1, T2.
      destruct (tiled_end _ _ _ _ T2) as [He He2]. pose proof (zlen_nonneg l2).
      apply tiled_app. rewrite Z.add_0_l. fold o. split; [|split].
      * apply (tiled_ext b); try done; [lia|]. intros i Hi. apply Hout; lia.
      * exact Hrec.
      * cbn [with_len r_len]. unfold n. rewrite Z.add_assoc. apply (tiled_ext b); try done; [lia|]. intros i Hi. apply Hout; lia.
    + rewrite !entries_app. rewrite <- app_assoc. f_equal. unfold entries. cbn. unfold live. cbn. by destruct (r_ino q =? 0).
Qed.

Lemma set_in_block_ok l1 r l2 ino ty :
  tiled b 0 (l1 ++ r :: l2) (zlen b) → 0 ≤ ino < U32 → 0 ≤ ty < 256 →
  ∃ b', set_in_block b (span_len l1) ino ty = Some b' ∧ edited_block b' (l1 ++ mkRec ino (r_len r) (r_name r) ty :: l2).
Proof using Hbytes.
  intros Ht Hino Hty. destruct (mid_bounds l1 r l2 Ht) as (Ho & Hl & Hr). pose proof Hr as (Hok & _). pose proof (rec_len_pos r Hok).
  set (o := span_len l1) in *. unfold set_in_block. rewrite wr_ok by (simpl; lia). cbn [mbind option_bind].
  pose proof (rec_at_ino b o r ino Ho Hl Hr Hino) as H1. set (b1 := paste b o (le_bytes 4 ino)) in *.
  assert (zlen b1 = zlen b) as Hz1 by (unfold b1; rewrite zlen_paste; rewrite ?zlen_le_bytes; simpl; lia).
  rewrite wr_ok by (simpl; lia). pose proof (rec_at_type b1 o (mkRec ino (r_len r) (r_name r) (r_type r)) ty Ho ltac:(cbn [r_len]; lia) H1 Hty) as H2. cbn [r_ino r_len r_name] in H2.
  set (b2 := paste b1 (o + 7) (le_bytes 1 ty)) in *. assert (zlen b2 = zlen b) as Hz2 by (unfold b2; rewrite zlen_paste; rewrite ?zlen_le_bytes; simpl; lia).
  exists b2. split; [done|]. split_and!; [done|apply is_byte_paste; [apply is_byte_paste|]; [done|apply le_bytes_byte|apply le_bytes_byte]|].
  apply (tiled_replace b _ l1 r [_] l2 Ht Hz2); fold o; [|by split].
  intros i Hi Hout. unfold b2. rewrite byte_paste_out by (rewrite ?zlen_le_bytes; simpl; lia).
  apply byte_paste_out; rewrite ?zlen_le_bytes; simpl; lia.
Qed.
End edits.
