(* ===== verification/Ext2Dir.v ===== *)
(** * The ext2 file system: directories

    A directory is a file whose blocks are tiled by records; it denotes a
    finite map from names to inode numbers and types.  [lookup], [add_entry],
    [remove_entry] and [set_entry] are the operations of that map, and change no
    other file. *)

From S2P Require Import Prelude Text Bytes Ext2 Ext2Fs Ext2Names Ext2Disk Ext2Alloc Ext2Blocks Ext2Inode Ext2Tree Ext2Map Ext2File Ext2Spec Ext2Dirent.

Notation Dir := (gmap (list Z) (Z * Z)).

Section dir.
Context (G : Geo) (HG : geo_ok G).
Implicit Types (s : Fs) (R : Inodes).

(** ** Updates that leave the inode record alone *)

Lemma commit_kept s0 ino raw s (l : list Z) :
  files_ok G s0 → tree_inodes G s0 ino = Some raw → kind raw = S_IFDIR →
  blocks_ok G s → trees_ok G s (tree_inodes G s0) →
  differ_in (λ x, is_bb G x ∨ ¬ is_meta G x) s0 s → inode_side s = inode_side s0 →
  (∀ j rawj pos, j ≠ ino → tree_inodes G s0 j = Some rawj → 0 ≤ pos → fbyte G s rawj pos = fbyte G s0 rawj pos) →
  fsize raw = zlen l → (∀ pos, 0 ≤ pos < zlen l → fbyte G s raw pos = byte l pos) →
  updates G ino l s0 s.
Proof using HG.
  intros Hf HR Hdir Hs Ht Hdf Hside Hoth Hsz Hbytes. pose proof (bo_disk _ _ (fo_blocks _ _ Hf)) as Hd0. pose proof (bo_disk _ _ Hs) as Hd.
  destruct (tree_inodes_Some G s0 ino raw HR) as (Hi & Hraw & _). pose proof (differ_inodes G HG s0 s Hd0 Hd Hdf) as Hino. pose proof (zlen_nonneg l).
  pose proof (go_isz G HG).
  assert (∀ j, tree_inodes G s j = tree_inodes G s0 j) as HR'.
  { intros j. unfold tree_inodes. destruct (is_inob G j) eqn:Ej; [|done]. apply is_inob_true in Ej. by destruct (Hino j Ej) as [-> ->]. }
  split; try done.
  - split; [done|by eapply trees_ok_ext|]. intros j rawj pos Hj Hk Hpos. rewrite HR' in Hj.
    destruct (decide (j = ino)) as [->|Hne]; [rewrite HR in Hj; injection Hj as <-; by rewrite Hk in Hdir|].
    destruct (to_raw _ _ _ Ht j rawj Hj) as [Hzj Hbj]. pose proof (fsize_range rawj ltac:(lia) Hbj).
    rewrite (Hoth j) by (done || lia). by apply (fo_tail _ _ Hf j).
  - unfold contents. rewrite HR', HR. cbn. rewrite Hsz. f_equal. apply bytes_ext; rewrite zlen_fdata by lia; [done|].
    intros i Hil. rewrite byte_fdata by lia. by apply Hbytes; lia.
  - intros j Hj. split; [|intros Hij; by apply Hino]. unfold contents. rewrite HR'. destruct (tree_inodes G s0 j) as [rawj|] eqn:E; [|done].
    cbn. f_equal. unfold fdata. apply list_fmap_ext. intros k x Hx%lookup_seqZ. apply (Hoth j); [done|done|lia].
  - destruct (Hino ino Hi) as [-> _]. by intros f.
  - by apply (differ_maps G HG).
Qed.

(** ** The directory of a byte string *)

Record dir_tiles (c : list Z) (ls : list (list Rec)) : Prop := {
  dt_len : zlen c = zlen ls * g_bs G;
  dt_tile : ∀ (k : nat) l, ls !! k = Some l → tiled (seg c (Z.of_nat k * g_bs G) (g_bs G)) 0 l (g_bs G);
}.

Definition dents (ls : list (list Rec)) : list Entry := concat (entries <$> ls).

Definition is_dirmap (c : list Z) (m : Dir) : Prop :=
  ∃ ls, dir_tiles c ls ∧ NoDup (dents ls).*1 ∧ m = list_to_map (dents ls).

Lemma tiled_not_zero b l : tiled b 0 l (g_bs G) → ∃ i, 0 ≤ i < g_bs G ∧ byte b i ≠ 0.
Proof using HG.
  intros Ht. pose proof (bs_pos G HG). destruct l as [|r l]; [simpl in Ht; lia|]. destruct Ht as [Hr Ht]. pose proof (rec_len_pos r (proj1 Hr)) as Hl.
  destruct (tiled_end _ _ _ _ Ht) as [He Hl2]. pose proof (zlen_nonneg l).
  destruct Hr as (_ & _ & Hlen & _). destruct (decide (byte b 4 = 0)) as [H4|]; [|exists 4; split; [lia|done]].
  destruct (decide (byte b 5 = 0)) as [H5|]; [|exists 5; split; [lia|done]]. exfalso.
  assert (field 2 b (0 + 4) = 0) as Hz0; [|lia]. unfold field. assert (seg b (0 + 4) (Z.of_nat 2) = take 2 (drop 4 b)) as -> by done.
  unfold byte in H4, H5. change (Z.to_nat 4) with 4%nat in H4. change (Z.to_nat 5) with 5%nat in H5.
  destruct (drop 4 b) as [|x [|y d]] eqn:E; [done| |].
  - rewrite <- (Nat.add_0_r 4), <- nth_drop_add, E in H4. simpl in H4. subst x. done.
  - change 5%nat with (4 + 1)%nat in H5. rewrite <- nth_drop_add, E in H5. rewrite <- (Nat.add_0_r 4), <- nth_drop_add, E in H4. simpl in *. by subst x y.
Qed.

(** The directory [ino] is mounted in [s] with tiles [ls]. *)
Record dir_at s (ino : Z) (raw : Inode) (ls : list (list Rec)) : Prop := {
  da_files : files_ok G s;
  da_raw : tree_inodes G s ino = Some raw;
  da_dir : kind raw = S_IFDIR;
  da_tiles : dir_tiles (fdata G s raw 0 (fsize raw)) ls;
}.

Lemma dir_small : U32 ≤ max_size G.
Proof using HG.
  unfold max_size, max_blocks. destruct (pp_range G HG) as [Hp _]. pose proof (go_bs G HG). unfold U32.
  assert (256 * 256 * 256 ≤ pp G * pp G * pp G) by nia. nia.
Qed.

Section at_dir.
Context (s : Fs) (ino : Z) (raw : Inode) (ls : list (list Rec)) (Hdir : dir_at s ino raw ls).

Lemma dir_facts : blocks_ok G s ∧ disk_ok G s ∧ trees_ok G s (tree_inodes G s) ∧ is_ino G ino ∧ raw = inode_at G s ino ∧
  zlen raw = g_isz G ∧ Forall is_byte raw ∧ 128 ≤ zlen raw ∧ 0 ≤ fsize raw < U32 ∧ fsize raw = zlen ls * g_bs G.
Proof using HG Hdir.
  pose proof (da_files _ _ _ _ Hdir) as Hf. pose proof (da_raw _ _ _ _ Hdir) as HR. destruct (tree_inodes_Some G s ino raw HR) as (Hi & Hraw & _).
  destruct (to_raw _ _ _ (fo_trees _ _ Hf) ino raw HR) as [Hz Hb]. pose proof (go_isz G HG). pose proof (fsize_range raw ltac:(lia) Hb) as Hsz.
  unfold size_bound in Hsz. rewrite (da_dir _ _ _ _ Hdir) in Hsz. change (S_IFDIR =? S_IFREG) with false in Hsz.
  pose proof (dt_len _ _ (da_tiles _ _ _ _ Hdir)) as Hl. rewrite zlen_fdata in Hl by lia.
  split_and!; try done; try lia; [apply (fo_blocks _ _ Hf)|apply (bo_disk _ _ (fo_blocks _ _ Hf))|apply (fo_trees _ _ Hf)].
Qed.

(** Each block of a directory is mapped. *)
Lemma dir_block (k : nat) l :
  ls !! k = Some l → ∃ p, fpos G (Z.of_nat k) = Some p ∧ valid G p ∧ node s raw p ≠ 0 ∧ good_block G (node s raw p) ∧
    zlen (blk s (node s raw p)) = g_bs G ∧ Forall is_byte (blk s (node s raw p)) ∧
    blk s (node s raw p) = seg (fdata G s raw 0 (fsize raw)) (Z.of_nat k * g_bs G) (g_bs G) ∧
    tiled (blk s (node s raw p)) 0 l (g_bs G).
Proof using HG Hdir.
  intros Hk. destruct dir_facts as (Hs & Hd & Ht & Hi & Hraw & Hz & Hb & Hz128 & Hsz & Hlen). pose proof (bs_pos G HG) as Hbs. pose proof dir_small.
  pose proof (lookup_lt_Some _ _ _ Hk) as Hlt. assert (Z.of_nat k * g_bs G + g_bs G ≤ fsize raw) as Hin by (unfold zlen in Hlen; nia).
  destruct (fpos_some G (Z.of_nat k)) as [p Hp].
  { split; [lia|]. apply (Z.mul_lt_mono_pos_r (g_bs G)); [lia|]. unfold max_size in *. lia. }
  destruct (fpos_valid G HG (Z.of_nat k) p ltac:(lia) Hp) as [Hv Hl]. pose proof (dt_tile _ _ (da_tiles _ _ _ _ Hdir) k l Hk) as Htile.
  set (c := fdata G s raw 0 (fsize raw)) in *. assert (zlen c = fsize raw) as Hzc by (apply zlen_fdata; lia).
  assert (∀ i, 0 ≤ i < g_bs G → byte (seg c (Z.of_nat k * g_bs G) (g_bs G)) i = if node s raw p =? 0 then 0 else byte (blk s (node s raw p)) i) as Hby.
  { intros i Hil. rewrite byte_seg by lia. unfold c. rewrite byte_fdata by lia. unfold fbyte. rewrite Z.add_0_l.
    replace ((Z.of_nat k * g_bs G + i) / g_bs G) with (Z.of_nat k) by (symmetry; rewrite Z.div_add_l by lia; rewrite Z.div_small by lia; lia).
    rewrite Hp. replace ((Z.of_nat k * g_bs G + i) mod g_bs G) with i; [done|]. rewrite Z.add_comm, Z.mod_add by lia. by rewrite Z.mod_small. }
  assert (node s raw p ≠ 0) as Hn.
  { intros H0. destruct (tiled_not_zero _ _ Htile) as (i & Hil & Hne). apply Hne. rewrite Hby by done. by rewrite H0. }
  pose proof (in_file_good G HG s _ (to_node _ _ _ Ht ino raw p (da_raw _ _ _ _ Hdir) Hv Hn)) as Hg.
  assert (zlen (blk s (node s raw p)) = g_bs G) as Hzb by (apply (zlen_blk G HG); [done|unfold good_block in Hg; lia]).
  assert (blk s (node s raw p) = seg c (Z.of_nat k * g_bs G) (g_bs G)) as He.
  { apply bytes_ext; [rewrite zlen_seg; lia|]. rewrite Hzb. intros i Hil. rewrite Hby by done. by rewrite (proj2 (Z.eqb_neq _ 0)). }
  exists p. split_and!; try done; [by apply (is_byte_blk G)|by rewrite He].
Qed.

(** The loop over the blocks, as long as the body only looks. *)
Lemma wp_dir_loop {A} (body : A → Z → list Z → Exec (Fs * Inode) (Error + (A * bool))) (I : list (list Rec) → A → Prop) a0 Q :
  I [] a0 → (∀ a, I ls a → Q (inr a) (s, raw)) →
  (∀ pre l post a p, ls = pre ++ l :: post → I pre a → fpos G (zlen pre) = Some p → node s raw p ≠ 0 →
     tiled (blk s (node s raw p)) 0 l (g_bs G) → zlen (blk s (node s raw p)) = g_bs G →
     wp (body a (node s raw p) (blk s (node s raw p)))
       (λ r t, match r with
               | inl e => Q (inl e) t
               | inr (a', true) => t = (s, raw) ∧ I (pre ++ [l]) a'
               | inr (a', false) => Q (inr a') t
               end) (s, raw)) →
  wp (dir_blocks ino body a0) Q (s, raw).
Proof using HG Hdir.
  intros HI0 Hend Hbody. destruct dir_facts as (Hs & Hd & Ht & Hi & Hraw & Hz & Hb & Hz128 & Hsz & Hlen). pose proof (bs_pos G HG).
  unfold dir_blocks, dir_block_count. ie_steps. eapply wp_of_inode; [by apply size_eq|]. cbn beta. ie_steps. cbn [fst]. geo Hd. rewrite Hlen, Z.div_mul by lia.
  assert (∀ post pre a, ls = pre ++ post → I pre a → wp (dir_loop ino (seqZ (zlen pre) (zlen post)) body a) Q (s, raw)) as Hgo.
  { induction post as [|l post IH]; intros pre a Hls HI.
    - ie_steps. apply Hend. by rewrite Hls, app_nil_r.
    - rewrite zlen_cons. pose proof (zlen_nonneg post). rewrite seqZ_cons by lia. cbn [dir_loop].
      assert (ls !! length pre = Some l) as Hk by (rewrite Hls, lookup_app_r by lia; by rewrite Nat.sub_diag).
      destruct (dir_block _ l Hk) as (p & Hp & Hv & Hn & Hg & Hzb & Hbb & _ & Htile). change (Z.of_nat (length pre)) with (zlen pre) in Hp. ie_steps.
      eapply wp_eq; [apply (bmap_find G HG s (tree_inodes G s)); try done; [apply (da_raw _ _ _ _ Hdir)|apply zlen_nonneg]|].
      unfold found. rewrite Hp. cbn beta iota. rewrite (proj2 (Z.eqb_neq _ 0)) by done. ie_steps.
      eapply wp_eq; [by apply (read_block_eq G HG)|]. cbn beta iota. ie_steps.
      eapply wp_mono; [by apply (Hbody pre l post a p)|]. intros [e|[a' [|]]] t; cbn beta iota; [done| |intros HQ; by ie_steps].
      intros [-> HI']. replace (Z.pred (1 + zlen post)) with (zlen post) by lia. replace (Z.succ (zlen pre)) with (zlen (pre ++ [l])) by (rewrite zlen_app; done).
      apply IH; [by rewrite Hls, <- app_assoc|done]. }
  by apply (Hgo ls []).
Qed.

Lemma wp_scan {A} b l (f : Z → Z → Z → list Z → Z → A → A * bool) a Q :
  tiled b 0 l (g_bs G) → zlen b = g_bs G → Q (inr (visit f 0 l a)) (s, raw) → wp (scan b f a) Q (s, raw).
Proof using HG Hdir.
  intros Ht Hz HQ. destruct dir_facts as (_ & Hd & _). unfold scan. ie_steps. cbn [fst]. geo Hd. rewrite <- Hz at 1. rewrite (parse_block b f l) by (by rewrite Hz).
  by ie_steps.
Qed.
End at_dir.

(** ** The map *)

Lemma dents_app a b : dents (a ++ b) = dents a ++ dents b.
Proof. unfold dents. by rewrite fmap_app, concat_app. Qed.

Lemma dents_mid pre l post : dents (pre ++ l :: post) ≡ₚ entries l ++ dents (pre ++ post).
Proof. rewrite !dents_app. unfold dents at 2. simpl. fold (dents post). rewrite !(assoc_L (++)). by rewrite (comm (++) (dents pre)). Qed.

Definition the_dir (ls : list (list Rec)) : Dir := list_to_map (dents ls).

Lemma the_dir_lookup ls name v : NoDup (dents ls).*1 → the_dir ls !! name = Some v ↔ (name, v) ∈ dents ls.
Proof. intros Hn. symmetry. by apply elem_of_list_to_map. Qed.

Lemma the_dir_none ls name : the_dir ls !! name = None ↔ name ∉ (dents ls).*1.
Proof. symmetry. apply not_elem_of_list_to_map. Qed.

(** What an edit of one block means for the map. *)
Lemma the_dir_insert ls ls' name v :
  NoDup (dents ls).*1 → name ∉ (dents ls).*1 → dents ls' ≡ₚ (name, v) :: dents ls →
  NoDup (dents ls').*1 ∧ the_dir ls' = <[name := v]> (the_dir ls).
Proof.
  intros Hn Hnew Hp. assert (NoDup (dents ls').*1) as Hn' by (rewrite Hp, fmap_cons; by constructor).
  split; [done|]. unfold the_dir. etrans; [exact (list_to_map_proper _ _ Hn' Hp)|done].
Qed.

Lemma the_dir_delete ls ls' name v :
  NoDup (dents ls).*1 → dents ls ≡ₚ (name, v) :: dents ls' →
  NoDup (dents ls').*1 ∧ the_dir ls' = delete name (the_dir ls) ∧ the_dir ls !! name = Some v.
Proof.
  intros Hn Hp. pose proof Hn as Hn2. rewrite Hp, fmap_cons in Hn2. apply NoDup_cons in Hn2 as [Hnot Hn'].
  split; [done|]. assert (the_dir ls = <[name := v]> (the_dir ls')) as -> by exact (list_to_map_proper _ _ Hn Hp). split; [|by rewrite lookup_insert_eq].
  rewrite delete_insert_eq. symmetry. apply delete_id. by apply not_elem_of_list_to_map.
Qed.

(** ** Lookup *)

Lemma entries_in name l : name ∈ (entries l).*1 → ∃ l1 r l2, l = l1 ++ r :: l2 ∧ names name r = true ∧ Forall (λ r, names name r = false) l1.
Proof. intros [[n [i t]] [-> Hin]]%list_elem_of_fmap. by apply (entries_find n i t). Qed.

Lemma dents_hit pre l1 r l2 post name :
  names name r = true → (name, (r_ino r, r_type r)) ∈ dents (pre ++ (l1 ++ r :: l2) :: post).
Proof. intros Hr. rewrite dents_mid, (entries_hit name l1 r l2 Hr). apply elem_of_app. left. apply elem_of_app. right. left. Qed.

Lemma wp_lookup s ino raw ls name Q :
  dir_at s ino raw ls → NoDup (dents ls).*1 →
  Q (match the_dir ls !! name with Some (i, _) => inr i | None => inl NotFound end) s →
  wp (lookup_name ino name) Q s.
Proof using HG.
  intros Hdir Hnd HQ. destruct (dir_facts s ino raw ls Hdir) as (Hs & Hd & Ht & Hi & Hraw & Hz & Hb & Hz128 & Hsz & Hlen).
  unfold lookup_name. ie_steps. eapply wp_eq; [by apply (read_inode_eq G HG)|]. cbn beta iota. rewrite <- Hraw. unfold is_dir.
  rewrite is_kind_eq, (da_dir _ _ _ _ Hdir) by done. change (S_IFDIR =? S_IFDIR) with true. ie_steps. cbn [negb]. ie_steps.
  apply (wp_dir_loop s ino raw ls Hdir _ (λ pre a, a = None ∧ name ∉ (dents pre).*1)).
  - split; [done|]. apply not_elem_of_nil.
  - intros a [-> Hno]. cbn [fst]. ie_steps. apply the_dir_none in Hno. by rewrite Hno in HQ.
  - intros pre l post a p Hls [-> Hno] Hp Hn Htile Hzb. unfold lookup_body. ie_steps. apply (wp_scan s ino raw ls Hdir _ l); [done|done|].
    cbn beta iota. ie_steps. destruct (decide (name ∈ (entries l).*1)) as [Hin|Hout].
    + destruct (entries_in name l Hin) as (l1 & r & l2 & -> & Hr & Hl1). rewrite (visit_lookup_hit name 0 l1 r l2 None Hl1 Hr).
      rewrite bool_decide_false by done. ie_steps. cbn [fst].
      assert (the_dir ls !! name = Some (r_ino r, r_type r)) as Hm by (apply the_dir_lookup; [done|rewrite Hls; by apply dents_hit]).
      rewrite Hm in HQ. by ie_steps.
    + rewrite (visit_lookup_none name 0 l None (entries_none name l Hout)). rewrite bool_decide_true by done.
      split; [done|]. split; [done|]. rewrite dents_app, fmap_app. unfold dents at 2. simpl. rewrite app_nil_r. rewrite not_elem_of_app. done.
Qed.
End dir.

Section ops.
Context (G : Geo) (HG : geo_ok G).
Implicit Types (s : Fs) (R : Inodes).

(** The block trees of the other files stay where they are. *)
Definition nodes_kept (ino : Z) s s' : Prop :=
  ∀ j rawj q, j ≠ ino → tree_inodes G s j = Some rawj → valid G q → node s' rawj q = node s rawj q.

Lemma nodes_through ino s s2 s' :
  nodes_kept ino s s2 → (∀ j rawj q, j ≠ ino → tree_inodes G s j = Some rawj → valid G q → node s' rawj q = node s2 rawj q) → nodes_kept ino s s'.
Proof. intros H1 H2 j rawj q Hj HR Hq. by rewrite (H2 j), (H1 j). Qed.

(** ** A block of a directory is rewritten *)

Lemma dir_tiles_edit c pre l post b' l' :
  dir_tiles G c (pre ++ l :: post) → zlen b' = g_bs G → tiled b' 0 l' (g_bs G) →
  dir_tiles G (paste c (zlen pre * g_bs G) b') (pre ++ l' :: post).
Proof using HG.
  intros [Hl Ht] Hz Hb. pose proof (bs_pos G HG). rewrite zlen_app, zlen_cons in Hl. pose proof (zlen_nonneg pre). pose proof (zlen_nonneg post).
  assert (zlen pre * g_bs G + g_bs G ≤ zlen c) as Hin by nia. split.
  - rewrite zlen_paste by nia. rewrite zlen_app, zlen_cons. lia.
  - intros k x Hk. destruct (decide (k = length pre)) as [->|Hne].
    + rewrite lookup_app_r, Nat.sub_diag in Hk by lia. injection Hk as <-. change (Z.of_nat (length pre)) with (zlen pre).
      pose proof (seg_paste_same c (zlen pre * g_bs G) b' ltac:(nia) ltac:(lia)) as He. rewrite Hz in He. by rewrite He.
    + pose proof (lookup_lt_Some _ _ _ Hk) as Hlt. rewrite length_app in Hlt. simpl in Hlt.
      assert ((pre ++ l :: post) !! k = Some x) as Hk'.
      { destruct (decide (k < length pre)%nat); [by rewrite lookup_app_l in * by lia|]. rewrite lookup_app_r in * by lia.
        by destruct (k - length pre)%nat eqn:E; [lia|]. }
      rewrite seg_paste_other; [by apply Ht|lia|nia|lia|lia|unfold zlen in *; nia|]. rewrite Hz. unfold zlen in *. destruct (decide (k < length pre)%nat); [left|right]; nia.
Qed.

Lemma dir_edit s ino raw ls pre l post p b' l' :
  dir_at G s ino raw ls → ls = pre ++ l :: post → fpos G (zlen pre) = Some p → node s raw p ≠ 0 →
  edited_block (blk s (node s raw p)) b' l' → zlen (blk s (node s raw p)) = g_bs G →
  let s2 := put_block (node s raw p) b' s in let c := paste (fdata G s raw 0 (fsize raw)) (zlen pre * g_bs G) b' in
  blocks_ok G s2 ∧ trees_ok G s2 (tree_inodes G s) ∧ differ_in (λ x, is_bb G x ∨ ¬ is_meta G x) s s2 ∧ inode_side s2 = inode_side s ∧
  (∀ j rawj pos, j ≠ ino → tree_inodes G s j = Some rawj → 0 ≤ pos → fbyte G s2 rawj pos = fbyte G s rawj pos) ∧
  fsize raw = zlen c ∧ (∀ pos, 0 ≤ pos < zlen c → fbyte G s2 raw pos = byte c pos) ∧ dir_tiles G c (pre ++ l' :: post) ∧ nodes_kept ino s s2.
Proof using HG.
  intros Hdir Hls Hp Hn (Hz' & Hb' & Htile) Hzb s2 c. destruct (dir_facts G HG s ino raw ls Hdir) as (Hs & Hd & Ht & Hi & Hraw & Hz & Hb & Hz128 & Hsz & Hlen).
  pose proof (bs_pos G HG). pose proof (zlen_nonneg pre). pose proof (zlen_nonneg post). pose proof (da_raw _ _ _ _ _ Hdir) as HR. rewrite Hzb in *.
  assert (zlen pre * g_bs G + g_bs G ≤ fsize raw) as Hin by (rewrite Hlen, Hls, zlen_app, zlen_cons; nia).
  pose proof (mapping_refl G HG (tree_inodes G s) ino p 0 s raw Hs Ht HR ltac:(lia)) as Hm.
  destruct (fill_block G HG (tree_inodes G s) ino 0 s raw s raw (zlen pre) p b' Hs Ht HR ltac:(lia) Hp Hm Hn Hz' Hb') as (F1 & F2 & F3 & F4 & F5 & F6 & F7 & F8).
  fold s2 in F1, F2, F3, F4, F5, F6, F7, F8. assert (zlen (fdata G s raw 0 (fsize raw)) = fsize raw) as Hzc by (apply zlen_fdata; lia).
  assert (zlen c = fsize raw) as Hzc' by (unfold c; rewrite zlen_paste; lia).
  split_and!; try done.
  - eapply trees_ok_ext; [|exact F3]. intros j. symmetry. by apply upd_id.
  - intros pos Hpos. rewrite F4 by lia. unfold c. rewrite byte_paste by lia. rewrite Hz'. pose proof (Z.div_mod pos (g_bs G) ltac:(lia)). pose proof (Z.mod_pos_bound pos (g_bs G) ltac:(lia)).
    destruct (decide (pos / g_bs G = zlen pre)) as [He|Hne].
    + rewrite (proj2 (Z.leb_le _ _)), (proj2 (Z.ltb_lt _ _)) by lia. cbn [andb]. f_equal. lia.
    + rewrite byte_fdata by lia. destruct (Z.leb_spec (zlen pre * g_bs G) pos), (Z.ltb_spec pos (zlen pre * g_bs G + g_bs G)); cbn [andb]; try done.
      destruct Hne. nia.
  - subst ls. by apply (dir_tiles_edit _ pre l post), Htile; [apply (da_tiles _ _ _ _ _ Hdir)|].
Qed.

Lemma wp_stamp_and_write s ino raw Q :
  disk_ok G s → is_ino G ino → zlen raw = g_isz G → Forall is_byte raw →
  Q (inr tt) (put_inode G ino (stamped (clock s (readings s)) raw) (ticked s), stamped (clock s (readings s)) raw) →
  wp (stamp_and_write ino) Q (s, raw).
Proof using HG.
  intros Hd Hi Hz Hb HQ. pose proof (go_isz G HG). destruct (stamped_raw G HG (clock s (readings s)) raw Hz Hb) as (Hz' & _).
  assert (disk_ok G (ticked s)) as Hdt by (destruct Hd; split; done).
  unfold stamp_and_write. ie_steps. cbn [snd]. eapply wp_eq; [apply stamp_eq; lia|]. ie_steps.
  eapply wp_on_inode; [done|]. ie_steps. eapply wp_eq; [by apply (write_inode_eq G HG)|]. done.
Qed.

(** ** Adding *)

(** A new block at the end. *)
Lemma dir_tiles_snoc c ls b l : dir_tiles G c ls → zlen b = g_bs G → tiled b 0 l (g_bs G) → dir_tiles G (c ++ b) (ls ++ [l]).
Proof using HG.
  intros [Hl Htl] Hz Hb. pose proof (bs_pos G HG). split; [rewrite !zlen_app; change (zlen [l]) with 1; lia|]. intros k x Hk.
  destruct (decide (k < length ls)%nat).
  - rewrite lookup_app_l in Hk by done. assert (seg (c ++ b) (Z.of_nat k * g_bs G) (g_bs G) = seg c (Z.of_nat k * g_bs G) (g_bs G)) as ->; [|by apply Htl].
    apply bytes_ext; rewrite !zlen_seg by (rewrite ?zlen_app; unfold zlen in *; nia); [done|]. intros j Hj. rewrite !byte_seg by nia.
    apply byte_app_l. unfold zlen in *. nia.
  - pose proof (lookup_lt_Some _ _ _ Hk) as Hlt. rewrite length_app in Hlt. simpl in Hlt. assert (k = length ls) as -> by lia.
    rewrite lookup_app_r, Nat.sub_diag in Hk by lia. injection Hk as <-. change (Z.of_nat (length ls)) with (zlen ls). rewrite <- Hl.
    assert (seg (c ++ b) (zlen c) (g_bs G) = b) as ->; [|done]. rewrite <- Hz. rewrite <- (app_nil_r b) at 1. apply seg_mid.
Qed.

(** Blocks that the inode on disk does not know yet are not part of the trees. *)
Lemma trees_drop R ino raw s1 raw1 :
  trees_ok G s1 (upd R ino raw1) → R ino = Some raw → zlen raw = g_isz G → Forall is_byte raw →
  (∀ k, 0 ≤ k < 15 → iblk raw k = iblk raw1 k ∨ iblk raw k = 0) → trees_ok G s1 R.
Proof.
  intros Ht1 HR Hz Hb Hk.
  assert (∀ j rawj, R j = Some rawj → ∃ rawj', upd R ino raw1 j = Some rawj' ∧ ∀ q, valid G q → node s1 rawj q = node s1 rawj' q ∨ node s1 rawj q = 0) as Hsub.
  { intros j rawj Hj. destruct (decide (j = ino)) as [->|Hne].
    - rewrite HR in Hj. injection Hj as <-. exists raw1. split; [apply upd_same|]. intros [sl q] Hq. unfold node. cbn [fst snd].
      destruct (Hk sl ltac:(apply Hq)) as [->| ->]; [by left|right]. apply walk_0.
    - exists rawj. split; [by rewrite upd_other|]. by left. }
  split.
  - intros j rawj Hj. destruct (decide (j = ino)) as [->|Hne]; [rewrite HR in Hj; by injection Hj as <-|].
    apply (to_raw _ _ _ Ht1 j). by rewrite upd_other.
  - intros j rawj q Hj Hq Hn. destruct (Hsub j rawj Hj) as (rawj' & Hj' & Hs). destruct (Hs q Hq) as [He|]; [|done]. rewrite He in *. by apply (to_node _ _ _ Ht1 j rawj').
  - intros j rawj q j2 rawj2 q2 Hj Hj2 Hq Hq2 He Hn. destruct (Hsub j rawj Hj) as (r1 & Hr1 & Hs1). destruct (Hsub j2 rawj2 Hj2) as (r2 & Hr2 & Hs2).
    destruct (Hs1 q Hq) as [E1|]; [|done]. destruct (Hs2 q2 Hq2) as [E2|]; [|congruence].
    apply (to_inj _ _ _ Ht1 j r1 q j2 r2 q2 Hr1 Hr2 Hq Hq2); congruence.
Qed.

(** What [add_entry] promises. *)
Definition added s ino (c : list Z) (ls : list (list Rec)) (name : list Z) (v : Z * Z) (r : Error + unit) s' : Prop :=
  match r with
  | inr _ => ∃ c' ls', updates G ino c' s s' ∧ dir_tiles G c' ls' ∧ NoDup (dents ls').*1 ∧ the_dir ls' = <[name := v]> (the_dir ls) ∧
      nodes_kept ino s s'
  | inl e => e = NoSpace ∧ full G s' ∧ updates G ino c s s' ∧ nodes_kept ino s s'
  end.

Section add.
Context (s : Fs) (ino : Z) (raw : Inode) (ls : list (list Rec)) (name : list Z) (i t : Z).
Context (Hdir : dir_at G s ino raw ls) (Hnd : NoDup (dents ls).*1) (Hnew : name ∉ (dents ls).*1).
Context (Hname : 0 < zlen name < 256) (Hnb : Forall is_byte name) (Hi : 0 < i < U32) (Ht : 0 ≤ t < 256).

Lemma wp_add_body pre l post p a Q :
  ls = pre ++ l :: post → fpos G (zlen pre) = Some p → node s raw p ≠ 0 → tiled (blk s (node s raw p)) 0 l (g_bs G) → zlen (blk s (node s raw p)) = g_bs G →
  Q (inr (false, true)) (s, raw) →
  (∀ s' raw', added s ino (fdata G s raw 0 (fsize raw)) ls name (i, t) (inr tt) s' → Q (inr (true, false)) (s', raw')) →
  wp (add_body ino name i t a (node s raw p) (blk s (node s raw p))) Q (s, raw).
Proof using HG Hdir Hnd Hnew Hname Hnb Hi Ht.
  intros Hls Hp Hn Htile Hzb HQ0 HQ1. destruct (dir_facts G HG s ino raw ls Hdir) as (Hs & Hd & Htr & Hino & Hraw & Hz & Hb & Hz128 & Hsz & Hlen).
  pose proof (da_raw _ _ _ _ _ Hdir) as HR. pose proof (da_files _ _ _ _ _ Hdir) as Hf. set (b := blk s (node s raw p)) in *.
  unfold add_body. ie_steps. apply (wp_scan G HG s ino raw ls Hdir b l); [done|done|]. cbn beta iota.
  destruct (visit_add (entry_len (zlen name)) 0 l None) as [->|(l1 & r & l2 & -> & Hfit & ->)]; [by ie_steps|].
  rewrite Z.add_0_l. rewrite <- Hzb in Htile. assert (Forall is_byte b) as Hbb by (by apply (is_byte_blk G)).
  destruct (add_in_block_ok b Hbb l1 r l2 name i t Htile Hfit ltac:(lia) Hnb Hi Ht) as (b' & m & -> & Hed & Hm). ie_steps.
  destruct (dir_edit s ino raw ls pre (l1 ++ r :: l2) post p b' _ Hdir Hls Hp Hn Hed Hzb) as (E1 & E2 & E3 & E4 & E5 & E6 & E7 & E8 & E9).
  destruct (fpos_valid G HG _ p (zlen_nonneg pre) Hp) as [Hv _].
  pose proof (in_file_good G HG s _ (to_node _ _ _ Htr ino raw p HR Hv Hn)) as Hg.
  eapply wp_eq; [apply (write_block_eq G HG); [done|done|destruct Hed as (-> & _); done]|]. cbn beta iota. ie_steps.
  apply wp_stamp_and_write; [apply (bo_disk _ _ E1)|done|done|done|]. ie_steps. apply HQ1. set (s2 := put_block _ _ _) in *.
  assert (trees_ok G s2 (upd (tree_inodes G s) ino raw)) as E2' by (eapply trees_ok_ext; [|exact E2]; intros j; by apply upd_id).
  destruct (commit_stamped G HG s ino raw s2 raw (clock s2 (readings s2)) _ Hf HR (or_intror (da_dir _ _ _ _ _ Hdir)) E1 E2' ltac:(by intros f) E3 E4 E5 E6) as (Hup & _ & Hnd2).
  { intros pos Hpos [Hlt|Hreg]; [by apply E7|]. by rewrite (da_dir _ _ _ _ _ Hdir) in Hreg. }
  eexists _, _. split; [exact Hup|]. split; [exact E8|]. apply and_assoc. split; [|by apply (nodes_through ino s s2)].
  apply (the_dir_insert ls); try done. rewrite Hls, !dents_mid. rewrite (entries_app l1), (entries_app m), Hm.
  change (r :: l2) with ([r] ++ l2). rewrite !entries_app. solve_Permutation.
Qed.

(** The only record of a new block. *)
Lemma new_block_ok :
  g_bs G < 65536 → ∃ b, write_entry (zeros (g_bs G)) 0 i (g_bs G) name t = Some b ∧ zlen b = g_bs G ∧ Forall is_byte b ∧
    tiled b 0 [mkRec i (g_bs G) name t] (g_bs G).
Proof using HG Hname Hnb Hi Ht.
  intros Hsmall. pose proof (go_bs G HG). pose proof (go_bs_mul G HG) as Hmul. assert (zlen (zeros (g_bs G)) = g_bs G) as Hzz by (apply zlen_zeros; lia).
  rewrite write_entry_eq by lia. eexists. split; [done|]. split_and!.
  - rewrite zlen_paste; rewrite ?zlen_header; lia.
  - apply is_byte_paste; [apply is_byte_zeros|]. unfold header. repeat (apply Forall_app; split); try apply le_bytes_byte; done.
  - simpl. split; [|lia]. apply (rec_at_header (zeros (g_bs G)) 0 (mkRec i (g_bs G) name t)); [lia|cbn [r_len]; lia|].
    split_and!; cbn [r_len r_name r_ino r_type]; try lia. Z.to_euclidean_division_equations; lia.
Qed.


Context (Hbs : g_bs G < 65536) (Hsec : fget i_sectors raw + 4 * spb G < U32) (Hroom : fsize raw + g_bs G < U32).

(** The directory grows by a block. *)
Lemma append_done p s1 raw1 b :
  fpos G (zlen ls) = Some p → mapping G (tree_inodes G s) ino p 4 s raw s1 raw1 → node s1 raw1 p ≠ 0 →
  zlen b = g_bs G → Forall is_byte b → tiled b 0 [mkRec i (g_bs G) name t] (g_bs G) →
  let s2 := put_block (node s1 raw1 p) b s1 in let raw2 := fset_size (fsize raw + g_bs G) raw1 in
  fsize raw1 = fsize raw ∧ disk_ok G s2 ∧ zlen raw2 = g_isz G ∧ Forall is_byte raw2 ∧
  added s ino (fdata G s raw 0 (fsize raw)) ls name (i, t) (inr tt) (put_inode G ino (stamped (clock s2 (readings s2)) raw2) (ticked s2)).
Proof using HG Hdir Hnd Hnew Hroom Hi Hbs.
  intros Hp Hm Hn Hzb Hbb Htile s2 raw2. destruct (dir_facts G HG s ino raw ls Hdir) as (Hs & Hd & Htr & Hino & Hraw & Hz & Hb & Hz128 & Hsz & Hlen).
  pose proof (da_raw _ _ _ _ _ Hdir) as HR. pose proof (da_files _ _ _ _ _ Hdir) as Hf. pose proof (bs_pos G HG). pose proof (go_isz G HG).
  destruct (fill_block G HG (tree_inodes G s) ino 4 s raw s1 raw1 (zlen ls) p b Hs Htr HR (zlen_nonneg ls) Hp Hm Hn Hzb Hbb) as (F1 & F2 & F3 & F4 & F5 & F6 & F7 & F8).
  fold s2 in F1, F2, F3, F4, F5, F6, F7, F8. destruct (to_raw _ _ _ F3 ino raw1 (upd_same _ _ _)) as [Hz1 Hb1].
  pose proof (mp_keeps _ _ _ _ _ _ _ _ _ Hm) as Hk. assert (fsize raw1 = fsize raw ∧ kind raw1 = kind raw) as [Hsz1 Hkd1] by (apply fsize_fget; by apply Hk).
  set (c := fdata G s raw 0 (fsize raw)). assert (zlen c = fsize raw) as Hzc by (apply zlen_fdata; lia).
  assert (zlen raw2 = g_isz G) as Hz2 by (unfold raw2; rewrite zlen_fset_size; lia). assert (Forall is_byte raw2) as Hb2 by (by apply is_byte_fset_size).
  assert (∀ k, 0 ≤ k < 15 → iblk raw2 k = iblk raw1 k) as Hib by (intros k Hkr; rewrite !iblk_fget; apply fget_fset_size; [lia|done|done|done]).
  pose proof (trees_fields G s2 _ ino raw1 raw2 F3 Hz2 Hb2 Hib) as F3'.
  assert (same_id raw raw2) as Hid by (intros f Hff ? ? ? ? ? ?; unfold raw2; rewrite fget_fset_size by (done || lia); by apply Hk).
  assert (fsize raw2 = zlen (c ++ b)) as Hsz2.
  { unfold raw2. rewrite zlen_app, Hzc, Hzb. apply fsize_fset_size; [lia|done|]. unfold size_bound. rewrite Hkd1, (da_dir _ _ _ _ _ Hdir). simpl. lia. }
  split_and!; [done|apply (bo_disk _ _ F1)|done|done|].
  destruct (commit_stamped G HG s ino raw s2 raw2 (clock s2 (readings s2)) (c ++ b) Hf HR (or_intror (da_dir _ _ _ _ _ Hdir)) F1 F3' Hid F7 F6 F5 Hsz2) as (Hup & _ & Hnd2).
  { intros pos Hpos [Hlt|Hreg]; [|by rewrite (da_dir _ _ _ _ _ Hdir) in Hreg]. rewrite zlen_app in Hlt. rewrite (fbyte_iblk G HG s2 raw1) by done. rewrite F4 by done.
    pose proof (Z.div_mod pos (g_bs G) ltac:(lia)). pose proof (Z.mod_pos_bound pos (g_bs G) ltac:(lia)).
    destruct (decide (pos / g_bs G = zlen ls)) as [He|Hne].
    - rewrite byte_app_r by nia. f_equal. nia.
    - assert (pos < zlen c) by (destruct (Z.lt_trichotomy (pos / g_bs G) (zlen ls)) as [?|[?|?]]; [nia|done|nia]).
      rewrite byte_app_l by lia. unfold c. by rewrite byte_fdata by lia. }
  eexists (c ++ b), (ls ++ [[mkRec i (g_bs G) name t]]). split; [done|]. split; [apply dir_tiles_snoc; [apply (da_tiles _ _ _ _ _ Hdir)|done|done]|].
  apply and_assoc. split; [|by apply (nodes_through ino s s2)].
  apply (the_dir_insert ls); try done. rewrite dents_app. unfold dents at 2. simpl. unfold entries. cbn. unfold live. cbn. rewrite (proj2 (Z.eqb_neq i 0)) by lia.
  cbn. symmetry. apply Permutation_cons_append.
Qed.

(** There was no space for it. *)
Lemma append_full p s1 raw1 :
  fpos G (zlen ls) = Some p → mapping G (tree_inodes G s) ino p 4 s raw s1 raw1 → sbv s_free_blocks s1 = 0 → node s1 raw1 p = 0 →
  added s ino (fdata G s raw 0 (fsize raw)) ls name (i, t) (inl NoSpace) s1.
Proof using HG Hdir.
  intros Hp Hm Hfree Hn. destruct (dir_facts G HG s ino raw ls Hdir) as (Hs & Hd & Htr & Hino & Hraw & Hz & Hb & Hz128 & Hsz & Hlen).
  pose proof (da_raw _ _ _ _ _ Hdir) as HR. pose proof (da_files _ _ _ _ _ Hdir) as Hf.
  destruct (fpos_valid G HG _ p (zlen_nonneg ls) Hp) as [Hvp Hlp]. pose proof (mp_ok _ _ _ _ _ _ _ _ _ Hm) as Hs1.
  assert (∀ k, 0 ≤ k < 15 → iblk raw k = iblk raw1 k ∨ iblk raw k = 0) as Hk.
  { intros k Hk. destruct (mp_nodes _ _ _ _ _ _ _ _ _ Hm (k, [])) as [He|(_ & _ & He & _)]; [split; [done|cbn; split; [lia|constructor]]|by left|by right]. }
  split; [done|]. split; [intros x; by apply (none_free G HG)|]. split; [|intros j rawj q Hj HRj; by apply (mp_other _ _ _ _ _ _ _ _ _ Hm j)].
  apply (commit_kept G HG s ino raw s1); try done; try apply Hm; [by apply Hdir| | | |].
  - by apply (trees_drop _ ino raw s1 raw1); [apply (mp_trees _ _ _ _ _ _ _ _ _ Hm)|..].
  - intros j rawj pos Hj HRj Hpos. apply (fbyte_same G HG); [done|]. intros q Hq Hl.
    by apply (mapping_other_leaf G HG (tree_inodes G s) ino p 4 s raw s1 raw1 j).
  - rewrite zlen_fdata; lia.
  - intros pos Hpos. rewrite zlen_fdata in Hpos by lia. rewrite byte_fdata by lia. rewrite Z.add_0_l. apply (fbyte_same G HG); [lia|]. intros q Hq Hl.
    assert (node s1 raw q = node s raw q) as He.
    { destruct q as [sl q]. destruct (Hk sl ltac:(apply Hq)) as [E|E].
      - rewrite (node_iblk s1 raw1 raw) by done. destruct (decide ((sl, q) = p)) as [<-|Hne].
        + rewrite Hn. destruct (mp_nodes _ _ _ _ _ _ _ _ _ Hm (sl, q) Hq) as [Ee|(_ & _ & Ee & _)]; congruence.
        + by apply (mapping_leaf G HG (tree_inodes G s) ino p 4 s raw s1 raw1 (sl, q)).
      - unfold node. cbn [fst snd]. by rewrite E, !walk_0. }
    split; [done|]. intros Hnz. destruct (decide (q = p)) as [->|Hne].
    + destruct (mp_nodes _ _ _ _ _ _ _ _ _ Hm p Hq) as [Ee|(_ & _ & Ee & _)]; congruence.
    + by apply (mapping_leaf G HG (tree_inodes G s) ino p 4 s raw s1 raw1 q).
Qed.

Lemma wp_add_entry Q :
  (∀ r s', added s ino (fdata G s raw 0 (fsize raw)) ls name (i, t) r s' → Q r s') → wp (add_entry ino name i t) Q s.
Proof using HG Hdir Hnd Hnew Hname Hnb Hi Ht Hbs Hsec Hroom.
  intros HQ. destruct (dir_facts G HG s ino raw ls Hdir) as (Hs & Hd & Htr & Hino & Hraw & Hz & Hb & Hz128 & Hsz & Hlen).
  pose proof (da_raw _ _ _ _ _ Hdir) as HR. pose proof (bs_pos G HG). pose proof (dir_small G HG).
  unfold add_entry. rewrite (proj2 (Z.eqb_neq _ 0)), (proj2 (Z.ltb_ge _ _)) by lia. cbn [orb]. ie_steps.
  eapply wp_eq; [by apply (read_inode_eq G HG)|]. cbn beta iota. rewrite <- Hraw. ie_steps. unfold add_entry_inode. ie_steps.
  eapply wp_of_inode; [by apply size_eq|]. cbn beta. ie_steps. cbn [fst].
  apply (wp_dir_loop G HG s ino raw ls Hdir _ (λ _ a, a = false)); [done| |].
  - intros a ->. cbn beta iota. ie_steps. unfold dir_block_count. geo Hd. rewrite Hlen, Z.div_mul by lia.
    apply (wp_bmap_alloc G HG (tree_inodes G s)); try done; [apply zlen_nonneg|].
    destruct (fpos G (zlen ls)) as [p|] eqn:Hp; cycle 1.
    { destruct (fpos_some G (zlen ls)) as [p Hp2]; [|congruence]. split; [apply zlen_nonneg|]. apply (Z.mul_lt_mono_pos_r (g_bs G)); [lia|]. unfold max_size in *. lia. }
    intros [e|pb] [s1 raw1] [Hm Hr]; cbn [fst snd] in *; cbn beta iota.
    + destruct Hr as (-> & Hfree & Hn). apply HQ. by apply (append_full p s1 raw1).
    + destruct Hr as (-> & Hn). destruct (new_block_ok Hbs) as (b & -> & Hzb & Hbb & Htile). ie_steps.
      destruct (append_done p s1 raw1 b Hp Hm Hn Hzb Hbb Htile) as (Hsz1 & Hd2 & Hz2 & Hb2 & Hadd).
      destruct (fpos_valid G HG _ p (zlen_nonneg ls) Hp) as [Hv _]. pose proof (mp_trees _ _ _ _ _ _ _ _ _ Hm) as Ht1.
      destruct (to_raw _ _ _ Ht1 ino raw1 (upd_same _ _ _)) as [Hz1 _].
      pose proof (in_file_good G HG s1 _ (to_node _ _ _ Ht1 ino raw1 p (upd_same _ _ _) Hv Hn)) as Hg.
      eapply wp_eq; [apply (write_block_eq G HG); [apply (bo_disk _ _ (mp_ok _ _ _ _ _ _ _ _ _ Hm))|done|done]|]. cbn beta iota. ie_steps.
      eapply wp_of_inode; [apply size_eq; lia|]. cbn beta. ie_steps. rewrite Hsz1. eapply wp_on_inode; [apply set_size_eq; lia|]. ie_steps.
      apply wp_stamp_and_write; [done|done|done|done|]. ie_steps. by apply HQ.
  - intros pre l post a p Hls -> Hp Hn Htile Hzb. apply (wp_add_body pre l post p); try done.
    intros s' raw' Hadd. cbn beta iota. ie_steps. by apply HQ.
Qed.
End add.

(** ** Removing *)

Definition removed s ino (ls : list (list Rec)) (name : list Z) (r : Error + Z) s' : Prop :=
  match r with
  | inr i => ∃ t c' ls', the_dir ls !! name = Some (i, t) ∧ updates G ino c' s s' ∧ dir_tiles G c' ls' ∧ NoDup (dents ls').*1 ∧
      the_dir ls' = delete name (the_dir ls) ∧ nodes_kept ino s s'
  | inl e => e = NotFound ∧ the_dir ls !! name = None ∧ s' = s
  end.

Lemma not_in_block pre l name : name ∉ (dents pre).*1 → name ∉ (entries l).*1 → name ∉ (dents (pre ++ [l])).*1.
Proof. intros H1 H2. rewrite dents_app, fmap_app. unfold dents at 2. simpl. rewrite app_nil_r. by rewrite not_elem_of_app. Qed.

Lemma wp_remove_entry s ino raw ls name Q :
  dir_at G s ino raw ls → NoDup (dents ls).*1 → g_bs G < 65536 →
  (∀ r s', removed s ino ls name r s' → Q r s') → wp (remove_entry ino name) Q s.
Proof using HG.
  intros Hdir Hnd Hbs HQ. destruct (dir_facts G HG s ino raw ls Hdir) as (Hs & Hd & Htr & Hino & Hraw & Hz & Hb & Hz128 & Hsz & Hlen).
  pose proof (da_raw _ _ _ _ _ Hdir) as HR. pose proof (da_files _ _ _ _ _ Hdir) as Hf.
  unfold remove_entry. ie_steps. eapply wp_eq; [by apply (read_inode_eq G HG)|]. cbn beta iota. rewrite <- Hraw. ie_steps.
  apply (wp_dir_loop G HG s ino raw ls Hdir _ (λ pre a, a = None ∧ name ∉ (dents pre).*1)).
  { split; [done|]. apply not_elem_of_nil. }
  { intros a [-> Hno]. cbn [fst]. ie_steps. apply HQ. split_and!; [done|by apply the_dir_none|done]. }
  intros pre l post a p Hls [-> Hno] Hp Hn Htile Hzb. unfold remove_body. ie_steps.
  apply (wp_scan G HG s ino raw ls Hdir _ l); [done|done|]. cbn beta iota. destruct (decide (name ∈ (entries l).*1)) as [Hin|Hout]; cycle 1.
  { rewrite (visit_remove_none name 0 l None (entries_none name l Hout)). ie_steps. split; [done|]. split; [done|]. by apply not_in_block. }
  destruct (entries_in name l Hin) as (l1 & r & l2 & -> & Hr & Hl1). rewrite (visit_remove_hit name 0 l1 r l2 None Hl1 Hr). rewrite Z.add_0_l.
  set (b := blk s (node s raw p)) in *. rewrite <- Hzb in Htile, Hbs. assert (Forall is_byte b) as Hbb by (by apply (is_byte_blk G)).
  destruct (remove_in_block_ok b Hbb l1 r l2 Htile Hbs) as (b' & l' & -> & Hed & Hl'). ie_steps.
  destruct (dir_edit s ino raw ls pre (l1 ++ r :: l2) post p b' _ Hdir Hls Hp Hn Hed Hzb) as (E1 & E2 & E3 & E4 & E5 & E6 & E7 & E8 & E9).
  destruct (fpos_valid G HG _ p (zlen_nonneg pre) Hp) as [Hv _].
  pose proof (in_file_good G HG s _ (to_node _ _ _ Htr ino raw p HR Hv Hn)) as Hg.
  eapply wp_eq; [apply (write_block_eq G HG); [done|done|destruct Hed as (-> & _); done]|]. cbn beta iota. ie_steps.
  apply wp_stamp_and_write; [apply (bo_disk _ _ E1)|done|done|done|]. ie_steps. cbn [fst]. ie_steps. apply HQ. set (s2 := put_block _ _ _) in *.
  assert (trees_ok G s2 (upd (tree_inodes G s) ino raw)) as E2' by (eapply trees_ok_ext; [|exact E2]; intros j; by apply upd_id).
  destruct (commit_stamped G HG s ino raw s2 raw (clock s2 (readings s2)) _ Hf HR (or_intror (da_dir _ _ _ _ _ Hdir)) E1 E2' ltac:(by intros f) E3 E4 E5 E6) as (Hup & _ & Hnd2).
  { intros pos Hpos [Hlt|Hreg]; [by apply E7|]. by rewrite (da_dir _ _ _ _ _ Hdir) in Hreg. }
  destruct (the_dir_delete ls (pre ++ l' :: post) name (r_ino r, r_type r) Hnd) as (D1 & D2 & D3).
  { rewrite Hls, !dents_mid, (entries_hit name l1 r l2 Hr), Hl'. solve_Permutation. }
  exists (r_type r), (paste (fdata G s raw 0 (fsize raw)) (zlen pre * g_bs G) b'), (pre ++ l' :: post).
  split_and!; try done. by apply (nodes_through ino s s2).
Qed.

(** ** Replacing *)

Definition replaced s ino (ls : list (list Rec)) (name : list Z) (v : Z * Z) (r : Error + unit) s' : Prop :=
  match r with
  | inr _ => ∃ c' ls', is_Some (the_dir ls !! name) ∧ updates G ino c' s s' ∧ dir_tiles G c' ls' ∧ NoDup (dents ls').*1 ∧
      the_dir ls' = <[name := v]> (the_dir ls) ∧ nodes_kept ino s s'
  | inl e => e = NotFound ∧ the_dir ls !! name = None ∧ s' = s
  end.

Lemma wp_set_entry s ino raw ls name i t Q :
  dir_at G s ino raw ls → NoDup (dents ls).*1 → 0 < i < U32 → 0 ≤ t < 256 →
  (∀ r s', replaced s ino ls name (i, t) r s' → Q r s') → wp (set_entry ino name i t) Q s.
Proof using HG.
  intros Hdir Hnd Hi Ht HQ. destruct (dir_facts G HG s ino raw ls Hdir) as (Hs & Hd & Htr & Hino & Hraw & Hz & Hb & Hz128 & Hsz & Hlen).
  pose proof (da_raw _ _ _ _ _ Hdir) as HR. pose proof (da_files _ _ _ _ _ Hdir) as Hf.
  unfold set_entry. ie_steps. eapply wp_eq; [by apply (read_inode_eq G HG)|]. cbn beta iota. rewrite <- Hraw. ie_steps.
  apply (wp_dir_loop G HG s ino raw ls Hdir _ (λ pre a, a = false ∧ name ∉ (dents pre).*1)).
  { split; [done|]. apply not_elem_of_nil. }
  { intros a [-> Hno]. cbn [fst]. ie_steps. apply HQ. split_and!; [done|by apply the_dir_none|done]. }
  intros pre l post a p Hls [-> Hno] Hp Hn Htile Hzb. unfold set_body. ie_steps.
  apply (wp_scan G HG s ino raw ls Hdir _ l); [done|done|]. cbn beta iota. destruct (decide (name ∈ (entries l).*1)) as [Hin|Hout]; cycle 1.
  { rewrite (visit_set_none name 0 l None (entries_none name l Hout)). ie_steps. split; [done|]. split; [done|]. by apply not_in_block. }
  destruct (entries_in name l Hin) as (l1 & r & l2 & -> & Hr & Hl1). rewrite (visit_set_hit name 0 l1 r l2 None Hl1 Hr). rewrite Z.add_0_l.
  set (b := blk s (node s raw p)) in *. rewrite <- Hzb in Htile. assert (Forall is_byte b) as Hbb by (by apply (is_byte_blk G)).
  destruct (set_in_block_ok b Hbb l1 r l2 i t Htile ltac:(lia) Ht) as (b' & -> & Hed). ie_steps.
  destruct (dir_edit s ino raw ls pre (l1 ++ r :: l2) post p b' _ Hdir Hls Hp Hn Hed Hzb) as (E1 & E2 & E3 & E4 & E5 & E6 & E7 & E8 & E9).
  destruct (fpos_valid G HG _ p (zlen_nonneg pre) Hp) as [Hv _].
  pose proof (in_file_good G HG s _ (to_node _ _ _ Htr ino raw p HR Hv Hn)) as Hg.
  eapply wp_eq; [apply (write_block_eq G HG); [done|done|destruct Hed as (-> & _); done]|]. cbn beta iota. ie_steps. cbn [fst]. ie_steps. apply HQ.
  set (r' := mkRec i (r_len r) (r_name r) t) in *. destruct (names_true name r Hr) as [_ Hrn].
  assert (names name r' = true) as Hr'.
  { unfold names, r'. cbn. rewrite (proj2 (Z.eqb_neq i 0)) by lia. unfold str_eqb. by rewrite bool_decide_true. }
  set (ls0 := pre ++ (l1 ++ l2) :: post).
  destruct (the_dir_delete ls ls0 name (r_ino r, r_type r) Hnd) as (D1 & D2 & D3).
  { unfold ls0. rewrite Hls, !dents_mid, (entries_hit name l1 r l2 Hr), entries_app. solve_Permutation. }
  destruct (the_dir_insert ls0 (pre ++ (l1 ++ r' :: l2) :: post) name (i, t) D1) as [I1 I2].
  { apply the_dir_none. rewrite D2. apply lookup_delete_eq. }
  { unfold ls0. rewrite !dents_mid, (entries_hit name l1 r' l2 Hr'), entries_app. solve_Permutation. }
  eexists _, _. split; [by rewrite D3|]. split; [apply (commit_kept G HG s ino raw); [done|done|apply Hdir|done|done|done|done|done|exact E6|exact E7]|]. split; [exact E8|]. split; [done|].
  split; [by rewrite I2, D2, insert_delete_eq|done].
Qed.
End ops.
