(* ===== verification/Ext2Inodes.v ===== *)
(** * The ext2 file system: allocating and freeing inodes

    [alloc_inode] and [free_inode] take an inode number from, and give it back
    to, the set of unused ones, with the counters of groups and superblock. *)

From S2P Require Import Prelude Text Bytes Ext2 Ext2Fs Ext2Disk Ext2Alloc Ext2Blocks Ext2Inode Ext2Tree Ext2Map Ext2File Ext2Spec.

Section inodes.
Context (G : Geo) (HG : geo_ok G).
Implicit Types (s : Fs) (R : Inodes).

(** The inode bit maps and counters agree; the reserved inodes are in use. *)
Record inodes_ok s : Prop := {
  io_count : ∀ (n : nat) d, groups s !! n = Some d → free_inodes d = clear_bits (blk s (inode_bitmap d)) (g_ipg G);
  io_total : sbv s_free_inodes s = total free_inodes (groups s);
  io_all : g_inodes G = g_count G * g_ipg G;
  io_first : g_first_ino G ≤ g_ipg G;
  io_reserved : ∀ i, 0 ≤ i < g_first_ino G - 1 → bit (blk s (ib_of G 0)) i = true;
}.

Definition is_ib (b : Z) : Prop := ∃ g, is_group G g ∧ b = ib_of G g.

(** One inode became used ([v]) or unused. *)
Record ino_set (ino : Z) (v : bool) s s' : Prop := {
  is_blocks : blocks_ok G s';
  is_inodes : inodes_ok s';
  is_free : ∀ b, isfree G s' b = isfree G s b;
  is_used : ∀ j, is_ino G j → ino_used G s' j = if decide (j = ino) then v else ino_used G s j;
  is_differ : differ_in is_ib s s';
  is_clock : clock s' = clock s ∧ readings s' = readings s;
}.

(** ** A bit map with its counters *)

Definition desc_ok (f : GroupDesc → GroupDesc) : Prop := ∀ d, places (f d) = places d ∧ free_blocks (f d) = free_blocks d.

Definition iflip (g : Z) (bm : list Z) (f : GroupDesc → GroupDesc) (fi : Z) (s : Fs) : Fs :=
  with_sb (sb_set s_free_inodes fi (sb s))
    (with_groups (alter f (Z.to_nat g) (groups s)) (put_block (ib_of G g) bm s)).

Lemma iflip_disk s g bm f fi :
  disk_ok G s → is_group G g → zlen bm = g_bs G → Forall is_byte bm → desc_ok f →
  disk_ok G (iflip g bm f fi s) ∧ differ_in is_ib s (iflip g bm f fi s).
Proof using HG.
  intros Hd Hg Hz Hb Hf. pose proof (ib_good G HG g Hg) as Hgood. unfold iflip. split.
  - refine (disk_ok_set_sb G (with_groups (alter f (Z.to_nat g) (groups s)) (put_block (ib_of G g) bm s)) s_free_inodes fi _ eq_refl).
    apply (disk_ok_set_groups G (put_block (ib_of G g) bm s)); [by apply disk_ok_put_block|]. apply fmap_alter_same. intros d. apply Hf.
  - eapply differ_mono; [|by apply (differ_put G HG s (ib_of G g) bm)]. intros b <-. by exists g.
Qed.

Lemma ib_inj g g' : is_group G g → is_group G g' → ib_of G g = ib_of G g' → g = g'.
Proof using HG.
  intros Hg Hg' He. refine (proj1 (ext_disjoint G HG g 1 g' 1 (ib_of G g) Hg Hg' _ _ _ _)); try lia; unfold in_ext, ext_of; simpl; lia.
Qed.

Lemma iflip_blk s g bm f fi g' :
  disk_ok G s → is_group G g → is_group G g' → zlen bm = g_bs G → Forall is_byte bm →
  blk (iflip g bm f fi s) (ib_of G g') = if decide (g' = g) then bm else blk s (ib_of G g').
Proof using HG.
  intros Hd Hg Hg' Hz Hb. pose proof (ib_good G HG g Hg) as Hgood. pose proof (ib_good G HG g' Hg') as [? ?].
  change (blk (iflip g bm f fi s)) with (blk (put_block (ib_of G g) bm s)).
  destruct (decide (g' = g)) as [->|Hne]; [by apply (blk_put_same G HG)|].
  apply (blk_put_other G HG); try done; [lia|]. intros He. by apply Hne, ib_inj.
Qed.

Lemma ib_not_bb g : is_group G g → ¬ is_bb G (ib_of G g).
Proof using HG. intros Hg (g' & Hg' & He). by apply (bb_not_ib G HG g' g). Qed.

Lemma iflip_blocks s g bm f fi :
  blocks_ok G s → is_group G g → zlen bm = g_bs G → Forall is_byte bm → desc_ok f →
  blocks_ok G (iflip g bm f fi s) ∧ ∀ b, isfree G (iflip g bm f fi s) b = isfree G s b.
Proof using HG.
  intros Hs Hg Hz Hb Hf. pose proof (bo_disk _ _ Hs) as Hd. destruct (iflip_disk s g bm f fi Hd Hg Hz Hb Hf) as [Hd' Hdf].
  destruct (put_block_frame G HG s (ib_of G g) bm Hs (ib_good G HG g Hg) (ib_not_bb g Hg) Hz Hb) as [Hp Hfree].
  assert (∀ b, isfree G (iflip g bm f fi s) b = isfree G s b) as Hfr by exact Hfree.
  split; [|done]. split; [done|apply (bo_rw _ _ Hs)| | |].
  - intros n d' Hn. change (groups (iflip g bm f fi s)) with (alter f (Z.to_nat g) (groups s)) in Hn.
    change (blk (iflip g bm f fi s)) with (blk (put_block (ib_of G g) bm s)).
    assert (∃ d, groups s !! n = Some d ∧ places d' = places d ∧ free_blocks d' = free_blocks d) as (d & Hd1 & Hp1 & Hf1).
    { destruct (decide (n = Z.to_nat g)) as [->|Hne].
      - rewrite list_lookup_alter, decide_True in Hn by done. destruct (groups s !! Z.to_nat g) as [d|]; [|done]. injection Hn as <-. exists d. split; [done|]. apply Hf.
      - rewrite list_lookup_alter_ne in Hn by done. by exists d'. }
    rewrite Hf1. injection Hp1 as Hbb _ _. rewrite Hbb. by apply (bo_count _ _ Hp n d).
  - change (sbv s_free_blocks (iflip g bm f fi s)) with (sb_get s_free_blocks (sb_set s_free_inodes fi (sb s))).
    rewrite sb_get_set_other by (done || apply (dk_sb _ _ Hd)). change (groups (iflip g bm f fi s)) with (alter f (Z.to_nat g) (groups s)).
    change (sb_get s_free_blocks (sb s)) with (sbv s_free_blocks s). rewrite (bo_total _ _ Hs). apply total_alter_same. symmetry. apply fmap_alter_same. intros d. apply Hf.
  - intros b. rewrite Hfr. apply (bo_data _ _ Hs).
Qed.

Lemma iflip_inodes s g bm f fi d :
  blocks_ok G s → inodes_ok s → is_group G g → zlen bm = g_bs G → Forall is_byte bm → desc_ok f →
  groups s !! Z.to_nat g = Some d → free_inodes (f d) = clear_bits bm (g_ipg G) →
  fi = sbv s_free_inodes s - free_inodes d + free_inodes (f d) → 0 ≤ fi < U32 →
  (∀ i, 0 ≤ i < g_first_ino G - 1 → g = 0 → bit bm i = true) → inodes_ok (iflip g bm f fi s).
Proof using HG.
  intros Hs Hio Hg Hz Hb Hf Hd Hn Hfi Hr Hres. pose proof (bo_disk _ _ Hs) as Hdk. destruct (iflip_disk s g bm f fi Hdk Hg Hz Hb Hf) as [Hdk' _].
  assert (is_group G 0) as Hg0 by (unfold is_group in *; lia).
  split; [| |apply Hio|apply Hio|].
  - intros m d' Hm'. destruct (group_places G _ m d' Hdk' Hm') as [Hp Hgm].
    replace (inode_bitmap d') with (ib_of G (Z.of_nat m)) by (unfold ib_of; by rewrite <- Hp).
    rewrite iflip_blk by done. change (groups (iflip g bm f fi s)) with (alter f (Z.to_nat g) (groups s)) in Hm'.
    destruct (decide (Z.of_nat m = g)) as [<-|Hne].
    + rewrite Nat2Z.id in Hm', Hd. rewrite list_lookup_alter, decide_True, Hd in Hm' by done. by injection Hm' as <-.
    + rewrite list_lookup_alter_ne in Hm' by (unfold is_group in Hg; lia). rewrite (io_count _ Hio m d' Hm').
      destruct (group_places G s m d' Hdk Hm') as [Hp' _]. unfold ib_of. by rewrite <- Hp'.
  - change (sbv s_free_inodes (iflip g bm f fi s)) with (sb_get s_free_inodes (sb_set s_free_inodes fi (sb s))).
    rewrite sb_get_set_same by apply (dk_sb _ _ Hdk). change (256 ^ Z.of_nat (sb_width s_free_inodes)) with U32.
    rewrite Z.mod_small by done. change (groups (iflip g bm f fi s)) with (alter f (Z.to_nat g) (groups s)).
    rewrite (total_alter _ _ _ _ _ Hd). rewrite Hfi, (io_total _ Hio). lia.
  - intros i Hi. rewrite iflip_blk by done. destruct (decide (0 = g)) as [<-|]; [by apply Hres|by apply (io_reserved _ Hio)].
Qed.

(** ** Numbers *)

Lemma ino_parts ino : is_ino G ino → 0 ≤ (ino - 1) mod g_ipg G < g_ipg G ∧ ino = ino_group G ino * g_ipg G + (ino - 1) mod g_ipg G + 1.
Proof using HG.
  intros Hi. pose proof (go_ipg G HG). unfold ino_group. pose proof (Z.div_mod (ino - 1) (g_ipg G) ltac:(lia)). pose proof (Z.mod_pos_bound (ino - 1) (g_ipg G) ltac:(lia)). lia.
Qed.

Lemma ino_at g i s :
  inodes_ok s → is_group G g → 0 ≤ i < g_ipg G →
  let ino := g * g_ipg G + i + 1 in is_ino G ino ∧ ino_group G ino = g ∧ (ino - 1) mod g_ipg G = i ∧ 0 < ino < U32.
Proof using HG.
  intros Hio Hg Hi ino. pose proof (go_ipg G HG). pose proof (go_inodes32 G HG). unfold is_group in Hg.
  assert (ino - 1 = g * g_ipg G + i) as He by (unfold ino; lia). unfold is_ino, ino_group. rewrite He, (io_all _ Hio).
  rewrite Z.div_add_l, (Z.div_small i) by lia.
  assert ((g * g_ipg G + i) mod g_ipg G = i) as -> by (rewrite Z.add_comm, Z.mod_add by lia; by apply Z.mod_small). unfold ino. split_and!; nia || lia.
Qed.

Lemma map_in s g i : disk_ok G s → is_group G g → 0 ≤ i < g_ipg G → zlen (blk s (ib_of G g)) = g_bs G ∧ i / 8 < zlen (blk s (ib_of G g)).
Proof using HG.
  intros Hd Hg Hi. pose proof (ib_good G HG g Hg) as Hb. unfold good_block in Hb. rewrite (zlen_blk G HG s _ Hd) by lia.
  pose proof (go_ipg G HG). split; [done|]. apply Z.div_lt_upper_bound; lia.
Qed.

(** Setting or clearing the bit of one inode. *)
Lemma iflip_used s g i bm f fi (v : bool) :
  disk_ok G s → inodes_ok s → is_group G g → 0 ≤ i < g_ipg G → zlen bm = g_bs G → Forall is_byte bm →
  (∀ k, 0 ≤ k → bit bm k = if decide (k = i) then v else bit (blk s (ib_of G g)) k) →
  ∀ j, is_ino G j → ino_used G (iflip g bm f fi s) j = if decide (j = g * g_ipg G + i + 1) then v else ino_used G s j.
Proof using HG.
  intros Hd Hio Hg Hi Hz Hb Hbit j Hj. unfold ino_used. pose proof (ino_group_ok G HG j Hj) as Hgj. destruct (ino_parts j Hj) as [Hm Hjeq].
  destruct (ino_at g i s Hio Hg Hi) as (_ & A1 & A2 & _). rewrite iflip_blk by done.
  destruct (decide (ino_group G j = g)) as [<-|Hne].
  - rewrite Hbit by lia. destruct (decide ((j - 1) mod g_ipg G = i)) as [<-|Hi2]; [by rewrite decide_True|]. rewrite decide_False; [done|]. lia.
  - rewrite decide_False; [done|]. intros ->. done.
Qed.

Lemma total_free_room s : blocks_ok G s → inodes_ok s → ∀ (n : nat) d, groups s !! n = Some d → 0 ≤ free_inodes d ≤ g_ipg G.
Proof using HG.
  intros Hs Hio n d Hd. rewrite (io_count _ Hio n d Hd). pose proof (go_ipg G HG). apply clear_bits_bounds. lia.
Qed.

Lemma total_max f (m : Z) (l : list GroupDesc) : (∀ (n : nat) d, l !! n = Some d → f d ≤ m) → total f l ≤ zlen l * m.
Proof.
  induction l as [|d l IH]; intros Hl; [done|]. cbn [total foldr]. fold (total f l). rewrite zlen_cons.
  pose proof (Hl 0%nat d eq_refl). specialize (IH ltac:(intros n x Hx; by apply (Hl (S n)))). lia.
Qed.

(** ** Allocation *)

Lemma alter_alter (f h : GroupDesc → GroupDesc) (n : nat) (l : list GroupDesc) : alter f n (alter h n l) = alter (f ∘ h) n l.
Proof. revert n. induction l as [|x l IH]; intros [|n]; try done. change (x :: alter f n (alter h n l) = x :: alter (f ∘ h) n l). by rewrite IH. Qed.

Lemma took_ino s g d i f :
  blocks_ok G s → inodes_ok s → is_group G g → groups s !! Z.to_nat g = Some d → 0 ≤ i < g_ipg G → bit (blk s (ib_of G g)) i = false →
  desc_ok f → free_inodes (f d) = free_inodes d - 1 → 0 < sbv s_free_inodes s →
  let ino := g * g_ipg G + i + 1 in
  is_ino G ino ∧ ino_used G s ino = false ∧ ino_set ino true s (iflip g (set_bit (blk s (ib_of G g)) i) f (sbv s_free_inodes s - 1) s).
Proof using HG.
  intros Hs Hio Hg Hd Hi Hb Hf Hn Hfi ino. pose proof (bo_disk _ _ Hs) as Hdk. destruct (map_in s g i Hdk Hg Hi) as [Hz Hin].
  set (bm := blk s (ib_of G g)) in *. destruct (ino_at g i s Hio Hg Hi) as (A0 & A1 & A2 & A3). fold ino in A0, A1, A2, A3.
  assert (zlen (set_bit bm i) = g_bs G) as Hz' by (rewrite zlen_set_bit; lia).
  assert (Forall is_byte (set_bit bm i)) as Hby by (apply is_byte_set_bit, (is_byte_blk G); done).
  destruct (iflip_blocks s g (set_bit bm i) f (sbv s_free_inodes s - 1) Hs Hg Hz' Hby Hf) as [B1 B2].
  destruct (iflip_disk s g (set_bit bm i) f (sbv s_free_inodes s - 1) Hdk Hg Hz' Hby Hf) as [_ B3].
  destruct (group_places G s _ d Hdk Hd) as [Hp _]. rewrite Z2Nat.id in Hp by (unfold is_group in Hg; lia).
  split; [done|]. split; [unfold ino_used; by rewrite A1, A2|]. split; try done.
  - apply (iflip_inodes s g _ f _ d); try done.
    + rewrite Hn, (io_count _ Hio _ d Hd). replace (inode_bitmap d) with (ib_of G g) by (unfold ib_of; by rewrite <- Hp). fold bm.
      rewrite (clear_bits_set bm _ i) by done. lia.
    + rewrite Hn. lia.
    + pose proof (sbv_range G s s_free_inodes Hdk) as Hsb. change (256 ^ _) with U32 in Hsb. lia.
    + intros k Hk ->. rewrite bit_set by lia. unfold bm. by rewrite (io_reserved _ Hio).
  - apply iflip_used; try done. intros k Hk. rewrite bit_set by lia. fold bm. destruct (decide (k = i)) as [->|]; [by rewrite Z.eqb_refl, orb_true_r|].
    rewrite (proj2 (Z.eqb_neq i k)) by done. by rewrite orb_false_r.
Qed.

Lemma wp_alloc_inode_in s g (dir : bool) Q :
  blocks_ok G s → inodes_ok s → is_group G g → 0 < sbv s_free_inodes s → (dir = true → ∀ d, d ∈ groups s → 0 ≤ used_dirs d < 2 ^ 16 - 1) →
  (∀ d, groups s !! Z.to_nat g = Some d → free_inodes d = 0 → Q (inr None) s) →
  (∀ ino s', is_ino G ino → ino_used G s ino = false → ino_set ino true s s' → Q (inr (Some ino)) s') →
  wp (alloc_inode_in g dir) Q s.
Proof using HG.
  intros Hs Hio Hg Hfi Hud Hnone Hsome. pose proof (bo_disk _ _ Hs) as Hdk. destruct (group_lookup G s g Hdk Hg) as (d & Hd & Hp).
  pose proof (go_ipg G HG). pose proof (go_first_ino G HG). pose proof (io_first _ Hio).
  unfold alloc_inode_in. e2_steps. rewrite Hd. e2_steps.
  destruct (Z.eqb_spec (free_inodes d) 0) as [Hz|Hnz]; [by e2_steps; apply (Hnone d)|].
  replace (inode_bitmap d) with (ib_of G g) by (unfold ib_of; by rewrite <- Hp).
  e2_steps. eapply wp_eq; [by apply (read_block_eq G HG), ib_good|]. cbn beta iota. geo Hdk.
  set (lo := if g =? 0 then g_first_ino G - 1 else 0).
  assert ((if g =? 0 then chk32 (g_first_ino G - 1) else Some 0) = Some lo) as ->.
  { unfold lo. destruct (g =? 0); [|done]. apply chk32_ok. unfold U32. pose proof (go_ipg16 G HG). lia. }
  assert (0 ≤ lo ≤ g_ipg G) as Hlo by (unfold lo; destruct (g =? 0); lia). e2_steps.
  destruct (find_clear_spec (blk s (ib_of G g)) (seqZ lo (g_ipg G - lo))) as (r & -> & Hr).
  { intros i Hi%elem_of_seqZ. apply (map_in s g i Hdk Hg). lia. }
  e2_steps. destruct r as [i|].
  - destruct Hr as [Hi%elem_of_seqZ Hbit]. assert (0 ≤ i < g_ipg G) as Hi' by lia. destruct (map_in s g i Hdk Hg Hi') as [Hzm Hin].
    destruct (ino_at g i s Hio Hg Hi') as (_ & _ & _ & Hrange).
    e2_steps. eapply wp_eq; [apply (write_block_eq G HG); [done|by apply ib_good|rewrite zlen_set_bit; lia]|]. cbn beta iota.
    unfold set_group, set_sbv. e2_steps. pose proof (sbv_range G s s_free_inodes Hdk) as Hsb. change (256 ^ _) with U32 in Hsb.
    destruct dir.
    + pose proof (Hud eq_refl d ltac:(by eapply list_elem_of_lookup_2)). rewrite chk16_ok by lia. e2_steps.
      change (sbv s_free_inodes (with_groups _ (with_groups _ (put_block _ _ s)))) with (sbv s_free_inodes s).
      rewrite chk32_ok by lia. e2_steps. rewrite chk32_ok by lia. e2_steps.
      destruct (took_ino s g d i (with_used_dirs (used_dirs d + 1) ∘ with_free_inodes (free_inodes d - 1)) Hs Hio Hg Hd Hi' Hbit ltac:(done) ltac:(done) Hfi) as (T1 & T2 & T3).
      apply Hsome; [done|done|]. unfold iflip in T3. rewrite <- alter_alter in T3. exact T3.
    + e2_steps. change (sbv s_free_inodes (with_groups _ (put_block _ _ s))) with (sbv s_free_inodes s). rewrite chk32_ok by lia. e2_steps. rewrite chk32_ok by lia. e2_steps.
      destruct (took_ino s g d i (with_free_inodes (free_inodes d - 1)) Hs Hio Hg Hd Hi' Hbit ltac:(done) ltac:(done) Hfi) as (T1 & T2 & T3). by apply Hsome.
  - exfalso. rewrite (io_count _ Hio _ d Hd) in Hnz.
    destruct (countp_pos _ _ Hnz) as (i & Hi%elem_of_seqZ & Hbit). apply negb_true_iff in Hbit.
    replace (inode_bitmap d) with (ib_of G g) in Hbit by (unfold ib_of; by rewrite <- Hp).
    destruct (decide (lo ≤ i)); [rewrite Hr in Hbit; [done|apply elem_of_seqZ; lia]|].
    unfold lo in *. destruct (Z.eqb_spec g 0) as [->|]; [|lia]. rewrite (io_reserved _ Hio) in Hbit; [done|lia].
Qed.

Definition dirs_room s : Prop := ∀ d, d ∈ groups s → 0 ≤ used_dirs d < 2 ^ 16 - 1.

Lemma wp_alloc_inode_loop s steps start (dir : bool) Q :
  blocks_ok G s → inodes_ok s → 0 < sbv s_free_inodes s → (dir = true → dirs_room s) → 0 < g_count G →
  ((∀ k d, k ∈ steps → groups s !! Z.to_nat ((start + k) mod g_count G) = Some d → free_inodes d = 0) → Q (inl NoSpace) s) →
  (∀ ino s', is_ino G ino → ino_used G s ino = false → ino_set ino true s s' → Q (inr ino) s') →
  wp (alloc_inode_loop steps start dir) Q s.
Proof using HG.
  intros Hs Hio Hfi Hud Hc. revert Q. induction steps as [|k steps IH]; intros Q Hnone Hsome.
  { simpl. e2_steps. apply Hnone. intros k d Hin. by apply elem_of_nil in Hin. }
  simpl. e2_steps. pose proof (bo_disk _ _ Hs) as Hdk. geo Hdk.
  assert (is_group G ((start + k) mod g_count G)) as Hgk by (apply Z.mod_pos_bound; lia).
  apply wp_alloc_inode_in; try done.
  intros d Hd Hz. apply IH; [|done].
  intros Hall. apply Hnone. intros j d' Hj Hd'. apply elem_of_cons in Hj as [->|Hj]; [congruence|by eapply Hall].
Qed.

(** All inodes are in use. *)
Definition no_inode s : Prop := ∀ j, is_ino G j → ino_used G s j = true.

Lemma no_inode_0 s : blocks_ok G s → inodes_ok s → sbv s_free_inodes s = 0 → no_inode s.
Proof using HG.
  intros Hs Hio H0 j Hj. pose proof (bo_disk _ _ Hs) as Hdk. pose proof (ino_group_ok G HG j Hj) as Hg. destruct (group_lookup G s _ Hdk Hg) as (d & Hd & Hp).
  rewrite (io_total _ Hio) in H0. assert (free_inodes d = 0) as Hz.
  { apply (total_0 _ (groups s)); [|done|by eapply list_elem_of_lookup_2]. intros d' [n Hn]%list_elem_of_lookup_1. by apply (total_free_room s Hs Hio n). }
  rewrite (io_count _ Hio _ d Hd) in Hz. destruct (ino_parts j Hj) as [Hm _]. unfold ino_used.
  pose proof (countp_0 _ _ Hz ((j - 1) mod g_ipg G) ltac:(apply elem_of_seqZ; lia)) as Hb. cbv beta in Hb.
  replace (inode_bitmap d) with (ib_of G (ino_group G j)) in Hb by (unfold ib_of; by rewrite <- Hp). by apply negb_false_iff in Hb.
Qed.

Lemma wp_alloc_inode s parent (dir : bool) Q :
  blocks_ok G s → inodes_ok s → (dir = true → dirs_room s) →
  (no_inode s → Q (inl NoSpace) s) →
  (∀ ino s', is_ino G ino → ino_used G s ino = false → ino_set ino true s s' → Q (inr ino) s') →
  wp (alloc_inode parent dir) Q s.
Proof using HG.
  intros Hs Hio Hud Hnone Hsome. pose proof (bo_disk _ _ Hs) as Hdk. pose proof (sbv_range G s s_free_inodes Hdk).
  unfold alloc_inode, check_rw. e2_steps. rewrite (bo_rw _ _ Hs). e2_steps. destruct (Z.eqb_spec (sbv s_free_inodes s) 0) as [Hz|Hnz].
  { e2_steps. by apply Hnone, no_inode_0. }
  geo Hdk. assert (0 < g_count G) as Hc by (pose proof (go_inodes G HG); pose proof (go_ipg G HG); nia).
  set (start := if dir then _ else _). clearbody start. apply wp_alloc_inode_loop; try done; [lia|].
  intros Hall. exfalso. apply Hnz. rewrite (io_total _ Hio).
  assert (∀ d, d ∈ groups s → free_inodes d = 0) as Hz0.
  { intros d [n Hn]%list_elem_of_lookup_1. destruct (group_places G s n d Hdk Hn) as [_ Hgn]. unfold is_group in *.
    apply (Hall ((Z.of_nat n - start) mod g_count G) d).
    - apply elem_of_seqZ. pose proof (Z.mod_pos_bound (Z.of_nat n - start) (g_count G)). lia.
    - rewrite Zplus_mod_idemp_r. replace (start + (Z.of_nat n - start)) with (Z.of_nat n) by lia. by rewrite Z.mod_small, Nat2Z.id by lia. }
  clear -Hz0. induction (groups s) as [|d l IH]; [done|]. cbn [total foldr]. fold (total free_inodes l).
  rewrite (Hz0 d) by left. rewrite IH; [done|]. intros y Hy. apply Hz0. by right.
Qed.

(** ** Freeing *)

Lemma gave_ino s ino d f :
  let g := ino_group G ino in let i := (ino - 1) mod g_ipg G in
  blocks_ok G s → inodes_ok s → is_ino G ino → g_first_ino G ≤ ino → groups s !! Z.to_nat g = Some d → bit (blk s (ib_of G g)) i = true →
  desc_ok f → free_inodes (f d) = free_inodes d + 1 →
  free_inodes d + 1 ≤ g_ipg G ∧ sbv s_free_inodes s + 1 < U32 ∧
  ino_set ino false s (iflip g (clear_bit (blk s (ib_of G g)) i) f (sbv s_free_inodes s + 1) s).
Proof using HG.
  intros g i Hs Hio Hino Hfirst Hd Hb Hf Hn. pose proof (bo_disk _ _ Hs) as Hdk. destruct (ino_parts ino Hino) as [Hi Heq]. fold g i in Hi, Heq.
  pose proof (ino_group_ok G HG ino Hino) as Hg. fold g in Hg. destruct (map_in s g i Hdk Hg Hi) as [Hz Hin]. set (bm := blk s (ib_of G g)) in *.
  assert (zlen (clear_bit bm i) = g_bs G) as Hz' by (rewrite zlen_clear_bit; lia).
  assert (Forall is_byte (clear_bit bm i)) as Hby by (apply is_byte_clear_bit, (is_byte_blk G); done).
  destruct (group_places G s _ d Hdk Hd) as [Hp _]. rewrite Z2Nat.id in Hp by (unfold is_group in Hg; lia). pose proof (go_ipg G HG).
  assert (free_inodes d + 1 = clear_bits (clear_bit bm i) (g_ipg G)) as Hcount.
  { rewrite (io_count _ Hio _ d Hd). replace (inode_bitmap d) with (ib_of G g) by (unfold ib_of; by rewrite <- Hp). fold bm.
    by rewrite (clear_bits_clear bm _ i) by done. }
  assert (free_inodes d + 1 ≤ g_ipg G) as Hle by (rewrite Hcount; apply clear_bits_bounds; lia).
  assert (sbv s_free_inodes s + 1 < U32) as Hsum.
  { rewrite (io_total _ Hio). pose proof (total_alter free_inodes f _ _ _ Hd) as Ht. rewrite Hn in Ht. pose proof (go_inodes32 G HG).
    assert (total free_inodes (alter f (Z.to_nat g) (groups s)) ≤ zlen (alter f (Z.to_nat g) (groups s)) * g_ipg G) as Hmax.
    { apply total_max. intros n x Hx. destruct (decide (n = Z.to_nat g)) as [->|Hne].
      - rewrite list_lookup_alter, decide_True, Hd in Hx by done. injection Hx as <-. lia.
      - rewrite list_lookup_alter_ne in Hx by done. by apply (total_free_room s Hs Hio n). }
    assert (zlen (alter f (Z.to_nat g) (groups s)) = g_count G) as Hzl by (unfold zlen; rewrite length_alter; by apply (geo_ng _ _ Hdk)).
    rewrite Hzl in Hmax. lia. }
  split; [done|]. split; [done|].
  destruct (iflip_blocks s g (clear_bit bm i) f (sbv s_free_inodes s + 1) Hs Hg Hz' Hby Hf) as [B1 B2].
  destruct (iflip_disk s g (clear_bit bm i) f (sbv s_free_inodes s + 1) Hdk Hg Hz' Hby Hf) as [_ B3].
  split; try done.
  - apply (iflip_inodes s g _ f _ d); try done; [by rewrite Hn|lia|pose proof (sbv_range G s s_free_inodes Hdk); lia|].
    intros k Hk Hg0. rewrite bit_clear by lia. unfold bm. rewrite Hg0, (io_reserved _ Hio) by done. rewrite (proj2 (Z.eqb_neq i k)); [done|]. rewrite Hg0 in Heq. lia.
  - intros j Hj. rewrite (iflip_used s g i _ f _ false); try done; [by rewrite <- Heq|]. intros k Hk. rewrite bit_clear by lia. fold bm.
    destruct (decide (k = i)) as [->|]; [by rewrite Z.eqb_refl, andb_false_r|]. rewrite (proj2 (Z.eqb_neq i k)) by done. by rewrite andb_true_r.
Qed.

Lemma wp_free_inode s ino (dir : bool) Q :
  blocks_ok G s → inodes_ok s → is_ino G ino → g_first_ino G ≤ ino → ino_used G s ino = true →
  (∀ s', ino_set ino false s s' → Q (inr tt) s') →
  wp (free_inode ino dir) Q s.
Proof using HG.
  intros Hs Hio Hino Hfirst Hused HQ. pose proof (bo_disk _ _ Hs) as Hdk. pose proof (ino_group_ok G HG ino Hino) as Hg.
  destruct (group_lookup G s _ Hdk Hg) as (d & Hd & Hp). destruct (ino_parts ino Hino) as [Hi _]. destruct (map_in s _ _ Hdk Hg Hi) as [Hzm Hin].
  pose proof (go_inodes G HG). pose proof (go_inodes32 G HG). pose proof (go_ipg16 G HG). pose proof (sbv_range G s s_free_inodes Hdk).
  pose proof (total_free_room s Hs Hio _ d Hd).
  unfold free_inode. e2_steps. rewrite chk32_ok by (unfold is_ino in Hino; lia). e2_steps. geo Hdk.
  change ((ino - 1) / g_ipg G) with (ino_group G ino). rewrite Hd. e2_steps.
  replace (inode_bitmap d) with (ib_of G (ino_group G ino)) by (unfold ib_of; by rewrite <- Hp).
  eapply wp_eq; [by apply (read_block_eq G HG), ib_good|]. cbn beta iota. rewrite (proj2 (Z.ltb_lt _ _)) by done. e2_steps.
  unfold ino_used in Hused. rewrite Hused. cbn [negb]. e2_steps.
  eapply wp_eq; [apply (write_block_eq G HG); [done|by apply ib_good|rewrite zlen_clear_bit; lia]|]. cbn beta iota.
  destruct dir.
  - destruct (gave_ino s ino d (with_used_dirs (sat_sub (used_dirs d) 1) ∘ with_free_inodes (free_inodes d + 1)) Hs Hio Hino Hfirst Hd Hused ltac:(done) ltac:(done)) as (R1 & R2 & R3).
    rewrite chk16_ok by lia. unfold set_group, set_sbv. e2_steps.
    change (sbv s_free_inodes (with_groups _ (with_groups _ (put_block _ _ s)))) with (sbv s_free_inodes s). rewrite chk32_ok by lia. e2_steps.
    apply HQ. unfold iflip in R3. rewrite <- alter_alter in R3. exact R3.
  - destruct (gave_ino s ino d (with_free_inodes (free_inodes d + 1)) Hs Hio Hino Hfirst Hd Hused ltac:(done) ltac:(done)) as (R1 & R2 & R3).
    rewrite chk16_ok by lia. unfold set_group, set_sbv. e2_steps.
    change (sbv s_free_inodes (with_groups _ (put_block _ _ s))) with (sbv s_free_inodes s). rewrite chk32_ok by lia. e2_steps. by apply HQ.
Qed.

(** ** What the maps leave alone *)

Lemma ino_set_frame ino v s s' R :
  blocks_ok G s → trees_ok G s R → ino_set ino v s s' →
  trees_ok G s' R ∧ (∀ j rawj pos, R j = Some rawj → 0 ≤ pos → fbyte G s' rawj pos = fbyte G s rawj pos) ∧
  (∀ j, is_ino G j → inode_at G s' j = inode_at G s j).
Proof using HG.
  intros Hs Ht Hset. pose proof (bo_disk _ _ Hs) as Hd. pose proof (bo_disk _ _ (is_blocks _ _ _ _ Hset)) as Hd'. pose proof (is_differ _ _ _ _ Hset) as Hdf.
  assert (∀ x, in_file G s x → blk s' x = blk s x) as Hblk.
  { intros x Hx. pose proof (in_file_good G HG s x Hx) as [? ?]. apply (differ_blk G HG is_ib); try done; [lia|].
    intros (g & Hg & ->). destruct Hx as (_ & _ & Hm). by apply Hm, ib_meta. }
  assert (∀ j rawj q, R j = Some rawj → valid G q → node s' rawj q = node s rawj q) as Hnode.
  { intros j rawj [sl q] HR Hq. apply (node_same G s s' R j); try done. intros k _ Hin. by apply Hblk. }
  split_and!.
  - apply (trees_same G s R); [done|apply (is_free _ _ _ _ Hset)|]. intros j rawj HR. destruct (to_raw _ _ _ Ht j rawj HR). split_and!; try done.
    exists rawj. split; [done|]. intros q Hq. by apply (Hnode j).
  - intros j rawj pos HR Hpos. apply (fbyte_same G HG); [done|]. intros q Hq _. rewrite (Hnode j) by done. split; [done|].
    intros Hn. by apply Hblk, (to_node _ _ _ Ht j).
  - intros j Hj. apply (differ_inode G HG is_ib); try done. intros b (g & Hg & ->) Hit. by eapply (ib_not_it G HG).
Qed.
End inodes.
