(* ===== verification/Ext2Links.v ===== *)
(** * The ext2 file system: names and link counts

    The entries of all directories, how often each inode is named, and the
    invariant of a whole file system: files, inode maps, directories, and link
    counts that are the number of names.  Adding and removing a name, writing an
    inode record and giving an inode back are changes of that invariant. *)

From S2P Require Import Prelude Text Bytes Ext2 Ext2Fs Ext2Names Ext2Disk Ext2Alloc Ext2Blocks Ext2Inode Ext2Tree Ext2Map Ext2File Ext2Spec Ext2Dirent Ext2Dir Ext2Inodes.

(** ** Sums *)

Definition sumz (f : Z → Z) (l : list Z) : Z := foldr (λ x n, f x + n) 0 l.

Lemma sumz_ext f h l : (∀ x, x ∈ l → f x = h x) → sumz f l = sumz h l.
Proof.
  induction l as [|x l IH]; intros Hl; [done|]. cbn [sumz foldr]. fold (sumz f l) (sumz h l). rewrite (Hl x) by left.
  rewrite IH; [done|]. intros y Hy. apply Hl. by right.
Qed.

Lemma sumz_update f h l d : NoDup l → d ∈ l → (∀ x, x ∈ l → x ≠ d → f x = h x) → sumz f l = sumz h l - h d + f d.
Proof.
  induction 1 as [|x l Hx Hnd IH]; intros Hd Hs; [by apply elem_of_nil in Hd|]. cbn [sumz foldr]. fold (sumz f l) (sumz h l).
  apply elem_of_cons in Hd as [->|Hd].
  - rewrite (sumz_ext f h l); [lia|]. intros y Hy. apply Hs; [by right|]. by intros ->.
  - rewrite (Hs x) by (left || by intros ->). rewrite IH; [lia|done|]. intros y Hy. apply Hs. by right.
Qed.

Lemma sumz_nonneg f l : (∀ x, x ∈ l → 0 ≤ f x) → 0 ≤ sumz f l.
Proof.
  induction l as [|x l IH]; intros Hl; [done|]. cbn [sumz foldr]. fold (sumz f l). pose proof (Hl x ltac:(left)).
  specialize (IH ltac:(intros y Hy; apply Hl; by right)). lia.
Qed.

Lemma sumz_ge f l d : (∀ x, x ∈ l → 0 ≤ f x) → d ∈ l → f d ≤ sumz f l.
Proof.
  induction l as [|x l IH]; intros Hl Hd; [by apply elem_of_nil in Hd|]. cbn [sumz foldr]. fold (sumz f l).
  assert (∀ y, y ∈ l → 0 ≤ f y) as Hl' by (intros y Hy; apply Hl; by right). pose proof (Hl x ltac:(left)). pose proof (sumz_nonneg f l Hl').
  apply elem_of_cons in Hd as [->|Hd]; [lia|]. specialize (IH Hl' Hd). lia.
Qed.

(** How often inode [i] is named in a list of entries. *)
Definition nrefs (i : Z) (l : list Entry) : Z := foldr (λ (e : Entry) n, (if e.2.1 =? i then 1 else 0) + n) 0 l.

Lemma nrefs_cons i e l : nrefs i (e :: l) = (if e.2.1 =? i then 1 else 0) + nrefs i l.
Proof. done. Qed.

#[export] Instance nrefs_proper i : Proper ((≡ₚ) ==> (=)) (nrefs i).
Proof. induction 1 as [|e l l' _ IH|e e' l|l l' l'' _ IH1 _ IH2]; rewrite ?nrefs_cons; lia || congruence. Qed.

Lemma nrefs_nonneg i l : 0 ≤ nrefs i l.
Proof. induction l as [|e l IH]; [done|]. rewrite nrefs_cons. destruct (_ =? _); lia. Qed.

Lemma nrefs_pos i l e : e ∈ l → e.2.1 = i → 1 ≤ nrefs i l.
Proof.
  intros He Hi. induction l as [|x l IH]; [by apply elem_of_nil in He|]. rewrite nrefs_cons. pose proof (nrefs_nonneg i l).
  apply elem_of_cons in He as [->|He]; [rewrite Hi, Z.eqb_refl; lia|]. specialize (IH He). destruct (_ =? _); lia.
Qed.

Lemma nrefs_app i l k : nrefs i (l ++ k) = nrefs i l + nrefs i k.
Proof. induction l as [|e l IH]; [done|]. cbn [app]. rewrite !nrefs_cons. lia. Qed.

(** ** The entries of a directory *)

(** What a walk over all records collects. *)
Definition on_collect (off ino rec_len : Z) (n : list Z) (ft : Z) (acc : list Entry) : list Entry * bool :=
  (if ino =? 0 then acc else acc ++ [(n, (ino, ft))], true).

Definition block_entries (bs : Z) (b : list Z) : list Entry :=
  match parse_dir_block bs b on_collect [] with Some (inr l) => l | _ => [] end.

Definition dir_entries (bs : Z) (c : list Z) : list Entry :=
  concat ((λ k, block_entries bs (seg c (k * bs) bs)) <$> seqZ 0 (zlen c / bs)).

Lemma visit_collect o l acc : visit on_collect o l acc = acc ++ entries l.
Proof.
  revert o acc. induction l as [|r l IH]; intros o acc; [by rewrite app_nil_r|]. simpl. rewrite IH. unfold entries. simpl. unfold live.
  destruct (r_ino r =? 0); [done|]. by rewrite <- app_assoc.
Qed.

Section links.
Context (G : Geo) (HG : geo_ok G).
Implicit Types (s : Fs) (R : Inodes).

Lemma dir_entries_tiles c ls : dir_tiles G c ls → dir_entries (g_bs G) c = dents ls.
Proof using HG.
  intros [Hl Ht]. pose proof (bs_pos G HG). unfold dir_entries, dents. rewrite Hl, Z.div_mul by lia. f_equal. apply list_eq. intros k.
  rewrite !list_lookup_fmap. destruct (ls !! k) as [l|] eqn:E; cycle 1.
  { apply lookup_ge_None in E. rewrite (lookup_ge_None_2 (seqZ 0 (zlen ls))); [done|]. rewrite length_seqZ. unfold zlen. lia. }
  pose proof (lookup_lt_Some _ _ _ E). rewrite lookup_seqZ_lt by (unfold zlen; lia). cbn. f_equal. rewrite Z.add_0_l. specialize (Ht k l E).
  set (b := seg c (Z.of_nat k * g_bs G) (g_bs G)) in *. assert (zlen b = g_bs G) as Hz by (apply zlen_seg; unfold zlen in *; nia).
  unfold block_entries. rewrite <- Hz. rewrite (parse_block b on_collect l []) by (by rewrite Hz). by rewrite visit_collect.
Qed.

(** The entries of inode [d], none when it is not a directory. *)
Definition dir_ents s (d : Z) : list Entry :=
  match tree_inodes G s d with
  | Some raw => if kind raw =? S_IFDIR then dir_entries (g_bs G) (fdata G s raw 0 (fsize raw)) else []
  | None => []
  end.

Definition refs s (i : Z) : Z := sumz (λ d, nrefs i (dir_ents s d)) (seqZ 1 (g_inodes G)).

(** ** The invariant *)

(** Everything but the link counts. *)
Record fs_core s : Prop := {
  fs_files : files_ok G s;
  fs_inodes : inodes_ok G s;
  fs_dirs : ∀ d raw, tree_inodes G s d = Some raw → kind raw = S_IFDIR →
    ∃ ls, dir_tiles G (fdata G s raw 0 (fsize raw)) ls ∧ NoDup (dents ls).*1;
  fs_named : ∀ d e, e ∈ dir_ents s d → is_ino G e.2.1;
}.

(** An inode in use has as many links as names, others have no name. *)
Definition nlinks s (i : Z) : Z := if ino_used G s i then fget i_links (inode_at G s i) else 0.
Definition links_ok s : Prop := ∀ i, is_ino G i → refs s i = nlinks s i.

Definition fs_ok s : Prop := fs_core s ∧ links_ok s.

(** Directory [d] is the map [m]. *)
Definition has_dir s (d : Z) (m : Dir) : Prop :=
  ∃ raw, tree_inodes G s d = Some raw ∧ kind raw = S_IFDIR ∧ m = list_to_map (dir_ents s d).

Lemma has_dir_at s d m :
  fs_core s → has_dir s d m → ∃ raw ls, dir_at G s d raw ls ∧ NoDup (dents ls).*1 ∧ m = the_dir ls ∧ dir_ents s d = dents ls.
Proof using HG.
  intros Hfs (raw & HR & Hk & ->). destruct (fs_dirs _ Hfs d raw HR Hk) as (ls & Ht & Hn).
  assert (dir_ents s d = dents ls) as He by (unfold dir_ents; rewrite HR, Hk; by apply dir_entries_tiles).
  exists raw, ls. rewrite He. split; [|done]. split; try done. apply (fs_files _ Hfs).
Qed.

Lemma at_has_dir s d raw ls : dir_at G s d raw ls → dir_ents s d = dents ls ∧ has_dir s d (the_dir ls).
Proof using HG.
  intros Hd. pose proof (da_raw _ _ _ _ _ Hd) as HR. pose proof (da_dir _ _ _ _ _ Hd) as Hk.
  assert (dir_ents s d = dents ls) as He by (unfold dir_ents; rewrite HR, Hk; apply dir_entries_tiles, (da_tiles _ _ _ _ _ Hd)).
  split; [done|]. exists raw. unfold the_dir. by rewrite He.
Qed.

(** A named inode is in use. *)
Lemma named_used s d m name i t :
  fs_ok s → has_dir s d m → m !! name = Some (i, t) → is_ino G i ∧ ino_used G s i = true ∧ 1 ≤ fget i_links (inode_at G s i).
Proof using HG.
  intros [Hfs Hlinks] Hd Hm. pose proof Hd as (raw & HR & _ & Hmap). subst m. apply elem_of_list_to_map_2 in Hm.
  pose proof (fs_named _ Hfs d _ Hm) as Hi. cbn in Hi. pose proof (Hlinks i Hi) as Hl. unfold nlinks in Hl.
  assert (1 ≤ refs s i) as Hr.
  { destruct (tree_inodes_Some G s d raw HR) as (Hd1 & _). unfold is_ino in Hd1.
    etrans; [|apply (sumz_ge (λ d, nrefs i (dir_ents s d)) _ d); [intros; apply nrefs_nonneg|apply elem_of_seqZ; lia]]. by eapply nrefs_pos. }
  destruct (ino_used G s i); [|lia]. split_and!; [done|done|lia].
Qed.

(** ** One directory changes *)

Lemma refs_update s s' d i :
  is_ino G d → (∀ j, is_ino G j → j ≠ d → dir_ents s' j = dir_ents s j) →
  refs s' i = refs s i - nrefs i (dir_ents s d) + nrefs i (dir_ents s' d).
Proof.
  intros Hd Hs. unfold is_ino in Hd. apply (sumz_update (λ d, nrefs i (dir_ents s' d)) (λ d, nrefs i (dir_ents s d))).
  - apply NoDup_seqZ.
  - apply elem_of_seqZ. lia.
  - intros x Hx%elem_of_seqZ Hne. rewrite Hs; [done|unfold is_ino; lia|done].
Qed.

Lemma refs_same s s' i : (∀ j, is_ino G j → dir_ents s' j = dir_ents s j) → refs s' i = refs s i.
Proof. intros Hs. apply sumz_ext. intros x Hx%elem_of_seqZ. rewrite Hs; [done|unfold is_ino; lia]. Qed.

(** Contents, kind and use decide the entries. *)
Lemma dir_ents_contents s s' d :
  contents G s' d = contents G s d → (is_ino G d → kind (inode_at G s' d) = kind (inode_at G s d)) → dir_ents s' d = dir_ents s d.
Proof.
  unfold contents, dir_ents. intros Hc Hk. destruct (tree_inodes G s' d) as [raw'|] eqn:E', (tree_inodes G s d) as [raw|] eqn:E; try done.
  destruct (tree_inodes_Some G s' d raw' E') as (Hi & -> & _). destruct (tree_inodes_Some G s d raw E) as (_ & -> & _). rewrite (Hk Hi).
  cbn in Hc. injection Hc as Hc. by rewrite Hc.
Qed.

(** ** Preservation *)

Lemma inodes_ok_side s s' :
  disk_ok G s → disk_ok G s' → inodes_ok G s → (∀ g, is_group G g → blk s' (ib_of G g) = blk s (ib_of G g)) →
  inode_side s' = inode_side s → inodes_ok G s'.
Proof using HG.
  intros Hd Hd' Hio Hmap Hside. injection Hside as Hgs Hsb _. pose proof (go_inodes G HG). pose proof (go_ipg G HG).
  assert (free_inodes <$> groups s' = free_inodes <$> groups s) as Hfi.
  { transitivity (fst <$> ((λ d, (free_inodes d, used_dirs d)) <$> groups s')); [by rewrite <- list_fmap_compose|]. rewrite Hgs. by rewrite <- list_fmap_compose. }
  split; try apply Hio.
  - intros n d' Hn. destruct (group_places G s' n d' Hd' Hn) as [Hp Hg]. replace (inode_bitmap d') with (ib_of G (Z.of_nat n)) by (unfold ib_of; by rewrite <- Hp).
    rewrite Hmap by done. destruct (group_lookup G s _ Hd Hg) as (d & Hdl & Hpd). rewrite Nat2Z.id in Hdl.
    assert (free_inodes d' = free_inodes d) as ->.
    { assert ((free_inodes <$> groups s') !! n = (free_inodes <$> groups s) !! n) as He by (by rewrite Hfi).
      rewrite !list_lookup_fmap, Hn, Hdl in He. by injection He. }
    rewrite (io_count _ _ Hio n d Hdl). unfold ib_of. by rewrite <- Hpd.
  - rewrite Hsb, (io_total _ _ Hio). by apply total_alter_same.
  - intros i Hi. rewrite Hmap; [by apply (io_reserved _ _ Hio)|]. unfold is_group. nia.
Qed.

Lemma used_maps s s' : (∀ g, is_group G g → blk s' (ib_of G g) = blk s (ib_of G g)) → ∀ j, is_ino G j → ino_used G s' j = ino_used G s j.
Proof using HG. intros Hm j Hj. unfold ino_used. by rewrite Hm by (by apply (ino_group_ok G HG)). Qed.

(** What changed between two file systems: the entries of [d] and the link
    count of [i]; nothing else about names. *)
Record dir_moved (d : Z) (l : list Entry) s s' : Prop := {
  dm_core : fs_core s';
  dm_mine : dir_ents s' d = l;
  dm_other : ∀ j, is_ino G j → j ≠ d → dir_ents s' j = dir_ents s j;
  dm_dir : has_dir s' d (list_to_map l);
  dm_used : ∀ j, is_ino G j → ino_used G s' j = ino_used G s j;
  dm_links : ∀ j, is_ino G j → nlinks s' j = nlinks s j;
  dm_others : others_same G d s s';
  dm_id : same_id (inode_at G s d) (inode_at G s' d);
  dm_nodes : nodes_kept G d s s';
}.

Lemma core_dir s s' d raw ls c' ls' :
  fs_core s → dir_at G s d raw ls → updates G d c' s s' → dir_tiles G c' ls' → NoDup (dents ls').*1 →
  (∀ e, e ∈ dents ls' → is_ino G e.2.1) → nodes_kept G d s s' → dir_moved d (dents ls') s s'.
Proof using HG.
  intros Hfs Hdir Hup Ht Hn Hino Hnodes. destruct (dir_facts G HG s d raw ls Hdir) as (Hs & Hd & _ & Hi & Hraw & _).
  pose proof (up_ok _ _ _ _ _ Hup) as Hf'. pose proof (bo_disk _ _ (fo_blocks _ _ Hf')) as Hd'. pose proof (up_other _ _ _ _ _ Hup) as Hoth.
  assert (∀ j, is_ino G j → ino_used G s' j = ino_used G s j) as Hused by (apply used_maps, Hup).
  assert (∀ j, is_ino G j → fget i_links (inode_at G s' j) = fget i_links (inode_at G s j) ∧ kind (inode_at G s' j) = kind (inode_at G s j)) as Hkeep.
  { intros j Hj. unfold kind. destruct (decide (j = d)) as [->|Hne]; [by rewrite !(up_id _ _ _ _ _ Hup) by done|].
    by destruct (Hoth j Hne) as [_ ->]. }
  assert (∀ j, j ≠ d → dir_ents s' j = dir_ents s j) as Hents.
  { intros j Hj. apply dir_ents_contents; [by apply Hoth|]. intros Hij. by apply Hkeep. }
  pose proof (up_mine _ _ _ _ _ Hup) as Hm. unfold contents in Hm. destruct (tree_inodes G s' d) as [raw'|] eqn:HR'; [|done]. cbn in Hm. injection Hm as Hm.
  destruct (tree_inodes_Some G s' d raw' HR') as (_ & Hraw' & _).
  assert (kind raw' = S_IFDIR) as Hk' by (rewrite Hraw', (proj2 (Hkeep d Hi)), <- Hraw; apply Hdir).
  assert (dir_at G s' d raw' ls') as Hdir' by (split; [done|done|done|by rewrite Hm]). destruct (at_has_dir s' d raw' ls' Hdir') as [He Hhas].
  split; try done.
  - split; [done|apply (inodes_ok_side s s'); try done; [apply Hfs|apply Hup|apply Hup]| |].
    + intros j rawj HRj Hkj. destruct (decide (j = d)) as [->|Hne].
      { rewrite HR' in HRj. injection HRj as <-. exists ls'. by rewrite Hm. }
      destruct (tree_inodes_Some G s' j rawj HRj) as (Hij & Hrj & _). destruct (Hoth j Hne) as [Hc _]. unfold contents in Hc. rewrite HRj in Hc.
      destruct (tree_inodes G s j) as [raw0|] eqn:E; [|done]. cbn in Hc. injection Hc as Hc. rewrite Hc.
      apply (fs_dirs _ Hfs j raw0 E). destruct (tree_inodes_Some G s j raw0 E) as (_ & -> & _). rewrite <- (proj2 (Hkeep j Hij)), <- Hrj. done.
    + intros j e Hej. destruct (decide (j = d)) as [->|Hne]; [rewrite He in Hej; by apply Hino|]. rewrite Hents in Hej by done. by apply (fs_named _ Hfs j).
  - intros j Hj Hne. by apply Hents.
  - intros j Hj. unfold nlinks. rewrite Hused by done. by destruct (Hkeep j Hj) as [-> _].
  - apply Hup.
Qed.

(** The record of one inode changes, or appears. *)
Record inode_moved (i : Z) (raw : Inode) s s' : Prop := {
  im_core : fs_core s';
  im_raw : inode_at G s' i = raw;
  im_ents : ∀ j, is_ino G j → j ≠ i → dir_ents s' j = dir_ents s j;
  im_links : ∀ j, is_ino G j → j ≠ i → nlinks s' j = nlinks s j;
  im_used : ∀ j, is_ino G j → j ≠ i → ino_used G s' j = ino_used G s j;
  im_others : others_same G i s s';
}.

Lemma core_inode s0 s s' i raw :
  fs_core s0 → is_ino G i → blocks_ok G s → inodes_ok G s → committed G i raw s0 s s' → inode_side s' = inode_side s →
  (∀ j, is_ino G j → j ≠ i → ino_used G s j = ino_used G s0 j) →
  (has_tree raw = true → kind raw = S_IFDIR → ∃ ls, dir_tiles G (fdata G s raw 0 (fsize raw)) ls ∧ NoDup (dents ls).*1 ∧ ∀ e, e ∈ dents ls → is_ino G e.2.1) →
  inode_moved i raw s0 s' ∧ ino_used G s' i = ino_used G s i ∧
  dir_ents s' i = (if has_tree raw then if kind raw =? S_IFDIR then dir_entries (g_bs G) (fdata G s raw 0 (fsize raw)) else [] else []).
Proof using HG.
  intros Hfs Hi Hs Hio [C1 C2 C3 C4 C5 C6 C7 C8] Hside Hused Hnew. pose proof (bo_disk _ _ Hs) as Hd. pose proof (bo_disk _ _ (fo_blocks _ _ C1)) as Hd'.
  pose proof (used_maps s s' C7) as Hu.
  assert (∀ j, j ≠ i → dir_ents s' j = dir_ents s0 j) as Hents.
  { intros j Hj. apply dir_ents_contents; [by apply C4|]. intros Hij. f_equal. by apply C4. }
  assert (dir_ents s' i = (if has_tree raw then if kind raw =? S_IFDIR then dir_entries (g_bs G) (fdata G s raw 0 (fsize raw)) else [] else [])) as Hme.
  { unfold dir_ents. pose proof (C2 i) as HRi. unfold set_tree in HRi. rewrite decide_True in HRi by done. unfold contents in C3. rewrite HRi in *.
    destruct (has_tree raw); [|done]. cbn in C3. injection C3 as ->. done. }
  split_and!; [|by apply Hu|done]. split; try done.
  - split; [done|by apply (inodes_ok_side s s')| |].
    + intros j rawj HRj Hkj. pose proof (C2 j) as Hset. rewrite HRj in Hset. unfold set_tree in Hset. destruct (decide (j = i)) as [->|Hne].
      * destruct (has_tree raw) eqn:E; [|done]. injection Hset as <-. destruct (Hnew eq_refl Hkj) as (ls & Hl1 & Hl2 & _). exists ls.
        unfold contents in C3. rewrite HRj in C3. cbn in C3. injection C3 as ->. done.
      * destruct (C4 j Hne) as [Hc _]. unfold contents in Hc. rewrite HRj, <- Hset in Hc. cbn in Hc. injection Hc as ->. by apply (fs_dirs _ Hfs j).
    + intros j e Hej. destruct (decide (j = i)) as [->|Hne]; [|rewrite Hents in Hej by done; by apply (fs_named _ Hfs j)].
      rewrite Hme in Hej. destruct (has_tree raw); [|by apply elem_of_nil in Hej]. destruct (Z.eqb_spec (kind raw) S_IFDIR) as [Hk|]; [|by apply elem_of_nil in Hej].
      destruct (Hnew eq_refl Hk) as (ls & Hl1 & _ & Hl3). apply Hl3. by rewrite <- (dir_entries_tiles _ ls Hl1).
  - intros j Hj Hne. by apply Hents.
  - intros j Hj Hne. unfold nlinks. rewrite Hu, Hused by done. by destruct (C4 j Hne) as [_ ->].
  - intros j Hj Hne. by rewrite Hu, Hused.
Qed.
End links.

Section change.
Context (G : Geo) (HG : geo_ok G).
Implicit Types (s : Fs) (R : Inodes).

(** ** Names *)

(** The directory can take another block. *)
Definition room s (d : Z) : Prop :=
  fget i_sectors (inode_at G s d) + 4 * spb G < U32 ∧ fsize (inode_at G s d) + g_bs G < U32.

(** A name that [add_entry] takes. *)
Definition good_name (name : list Z) : Prop := 0 < zlen name < 256 ∧ Forall is_byte name.

Lemma fs_lookup s d m name Q :
  fs_core G s → has_dir G s d m → Q (match m !! name with Some (i, _) => inr i | None => inl NotFound end) s →
  wp (lookup_name d name) Q s.
Proof using HG.
  intros Hfs Hd HQ. destruct (has_dir_at G HG s d m Hfs Hd) as (raw & ls & Hdir & Hn & -> & _). by apply (wp_lookup G HG s d raw ls).
Qed.

Lemma fs_exists s d m name Q :
  fs_core G s → has_dir G s d m → Q (bool_decide (is_Some (m !! name))) s → wp (exists_name d name) Q s.
Proof using HG.
  intros Hfs Hd HQ. unfold exists_name. e2_steps. apply (fs_lookup s d m); [done|done|]. destruct (m !! name) as [[i t]|]; e2_steps; exact HQ.
Qed.

Lemma list_map_perm (l l' : list Entry) : NoDup l.*1 → NoDup l'.*1 → (list_to_map l : Dir) = list_to_map l' → l ≡ₚ l'.
Proof. intros. by apply (list_to_map_inj (M := gmap (list Z))). Qed.

Lemma fs_add_entry s d m name i t Q :
  fs_core G s → has_dir G s d m → m !! name = None → good_name name → is_ino G i → 0 ≤ t < 256 → g_bs G < 65536 → room s d →
  (∀ l s', dir_moved G d l s s' → l ≡ₚ (name, (i, t)) :: dir_ents G s d → list_to_map l = <[name := (i, t)]> m → Q (inr tt) s') →
  (∀ s', dir_moved G d (dir_ents G s d) s s' → full G s' → Q (inl NoSpace) s') →
  wp (add_entry d name i t) Q s.
Proof using HG.
  intros Hfs Hd Hm [Hl Hnb] Hi Ht Hbs [Hr1 Hr2] Hok Hfull. destruct (has_dir_at G HG s d m Hfs Hd) as (raw & ls & Hdir & Hn & -> & He).
  destruct (dir_facts G HG s d raw ls Hdir) as (_ & _ & _ & _ & Hraw & _). rewrite <- Hraw in Hr1, Hr2. apply the_dir_none in Hm.
  pose proof (go_inodes32 G HG). pose proof (go_inodes G HG). assert (0 < i < U32) as Hi32 by (unfold is_ino, U32 in *; lia).
  assert (∀ e, e ∈ dents ls → is_ino G e.2.1) as Hino by (intros e; rewrite <- He; apply (fs_named _ _ Hfs)).
  apply (wp_add_entry G HG s d raw ls name i t); try done. intros [e|[]] s'; cbn.
  - intros (-> & Hf & Hup & Hnk). apply Hfull; [|done]. rewrite He. apply (core_dir G HG s s' d raw ls _ ls Hfs Hdir Hup); try done. apply Hdir.
  - intros (c' & ls' & Hup & Ht' & Hn' & Heq & Hnk).
    assert (dents ls' ≡ₚ (name, (i, t)) :: dents ls) as Hp.
    { apply list_map_perm; [done|by rewrite fmap_cons; constructor|exact Heq]. }
    apply (Hok (dents ls')); [|by rewrite He|exact Heq]. apply (core_dir G HG s s' d raw ls c' ls' Hfs Hdir Hup); try done.
    intros e. rewrite Hp. intros [->|Hin]%elem_of_cons; [done|by apply Hino].
Qed.

Lemma fs_remove_entry s d m name i t Q :
  fs_core G s → has_dir G s d m → m !! name = Some (i, t) → g_bs G < 65536 →
  (∀ l s', dir_moved G d l s s' → dir_ents G s d ≡ₚ (name, (i, t)) :: l → list_to_map l = delete name m → Q (inr i) s') →
  wp (remove_entry d name) Q s.
Proof using HG.
  intros Hfs Hd Hm Hbs Hok. destruct (has_dir_at G HG s d m Hfs Hd) as (raw & ls & Hdir & Hn & -> & He).
  assert (∀ e, e ∈ dents ls → is_ino G e.2.1) as Hino by (intros e; rewrite <- He; apply (fs_named _ _ Hfs)).
  apply (wp_remove_entry G HG s d raw ls name); try done. intros [e|i'] s'; cbn; [by intros (_ & ? & _); congruence|].
  intros (t' & c' & ls' & Hm' & Hup & Ht' & Hn' & Heq & Hnk). rewrite Hm in Hm'. injection Hm' as <- <-.
  assert (name ∉ (dents ls').*1) as Hnot by (apply the_dir_none; rewrite Heq; apply lookup_delete_eq).
  assert (dents ls ≡ₚ (name, (i, t)) :: dents ls') as Hp.
  { apply list_map_perm; [done|by rewrite fmap_cons; constructor|]. cbn. change (the_dir ls = <[name := (i, t)]> (the_dir ls')).
    rewrite Heq. by rewrite insert_delete_id. }
  apply (Hok (dents ls')); [|by rewrite He|exact Heq]. apply (core_dir G HG s s' d raw ls c' ls' Hfs Hdir Hup); try done.
  intros e He'. apply Hino. rewrite Hp. by right.
Qed.

Lemma nrefs_replace (l l' : list Entry) (m : Dir) name e te i t j :
  NoDup l.*1 → NoDup l'.*1 → m = list_to_map l → m !! name = Some (e, te) → list_to_map l' = <[name := (i, t)]> m →
  nrefs j l' = nrefs j l + (if i =? j then 1 else 0) - (if e =? j then 1 else 0).
Proof.
  intros Hn Hn' Hm Hl Hm'. set (r := map_to_list (delete name m)).
  assert (l ≡ₚ (name, (e, te)) :: r) as ->.
  { rewrite <- (map_to_list_to_map l Hn), <- Hm. rewrite <- (insert_delete_id m name (e, te)) at 1 by done. apply map_to_list_insert, lookup_delete_eq. }
  assert (l' ≡ₚ (name, (i, t)) :: r) as ->.
  { rewrite <- (map_to_list_to_map l' Hn'), Hm', <- insert_delete_eq. apply map_to_list_insert, lookup_delete_eq. }
  rewrite !nrefs_cons. cbn [fst snd]. lia.
Qed.

Lemma fs_set_entry s d m name e te i t Q :
  fs_core G s → has_dir G s d m → m !! name = Some (e, te) → is_ino G i → 0 ≤ t < 256 →
  (∀ l s', dir_moved G d l s s' → list_to_map l = <[name := (i, t)]> m →
     (∀ j, nrefs j l = nrefs j (dir_ents G s d) + (if i =? j then 1 else 0) - (if e =? j then 1 else 0)) → Q (inr tt) s') →
  wp (set_entry d name i t) Q s.
Proof using HG.
  intros Hfs Hd Hm Hi Ht Hok. destruct (has_dir_at G HG s d m Hfs Hd) as (raw & ls & Hdir & Hn & -> & He).
  pose proof (go_inodes32 G HG). pose proof (go_inodes G HG). assert (0 < i < U32) as Hi32 by (unfold is_ino, U32 in *; lia).
  apply (wp_set_entry G HG s d raw ls name i t); try done. intros [er|[]] s'; cbn; [by intros (_ & ? & _); congruence|].
  intros (c' & ls' & _ & Hup & Ht' & Hn' & Heq & Hnk). apply (Hok (dents ls')); [|exact Heq|].
  - apply (core_dir G HG s s' d raw ls c' ls' Hfs Hdir Hup); try done. intros [n v] Hin. apply the_dir_lookup in Hin; [|done]. rewrite Heq in Hin.
    destruct (decide (n = name)) as [->|Hne]; [rewrite lookup_insert_eq in Hin; by injection Hin as <-|]. rewrite lookup_insert_ne in Hin by done.
    apply the_dir_lookup in Hin; [|done]. rewrite <- He in Hin. by apply (fs_named _ _ Hfs d _ Hin).
  - intros j. rewrite He. by apply (nrefs_replace (dents ls) (dents ls') (the_dir ls) name e te i t).
Qed.

(** ** Frames *)

Lemma trees_sub s R R' : (∀ j raw, R' j = Some raw → R j = Some raw) → trees_ok G s R → trees_ok G s R'.
Proof.
  intros Hsub [H1 H2 H3]. split.
  - intros j raw Hj. by apply (H1 j), Hsub.
  - intros j raw p Hj. by apply (H2 j), Hsub.
  - intros j raw p j' raw' p' Hj Hj'. apply H3; by apply Hsub.
Qed.

(** Nothing about files and names changed. *)
Lemma core_frame s s' :
  fs_core G s → blocks_ok G s' → inodes_ok G s' → trees_ok G s' (tree_inodes G s) →
  (∀ j, is_ino G j → inode_at G s' j = inode_at G s j ∧ ino_used G s' j = ino_used G s j) →
  (∀ j raw pos, tree_inodes G s j = Some raw → 0 ≤ pos → fbyte G s' raw pos = fbyte G s raw pos) →
  fs_core G s' ∧ (∀ j, dir_ents G s' j = dir_ents G s j) ∧ (∀ j, contents G s' j = contents G s j).
Proof using HG.
  intros Hfs Hs Hio Ht Hino Hby. pose proof (fs_files _ _ Hfs) as Hf. pose proof (go_isz G HG).
  assert (∀ j, tree_inodes G s' j = tree_inodes G s j) as HR.
  { intros j. unfold tree_inodes. destruct (is_inob G j) eqn:E; [|done]. apply is_inob_true in E. by destruct (Hino j E) as [-> ->]. }
  assert (∀ j raw, tree_inodes G s j = Some raw → fdata G s' raw 0 (fsize raw) = fdata G s raw 0 (fsize raw)) as Hdata.
  { intros j raw Hj. unfold fdata. apply list_fmap_ext. intros k x Hx%lookup_seqZ. apply (Hby j); [done|lia]. }
  assert (∀ j, contents G s' j = contents G s j) as Hc.
  { intros j. unfold contents. rewrite HR. destruct (tree_inodes G s j) as [raw|] eqn:E; [|done]. cbn. by rewrite (Hdata j). }
  assert (∀ j, dir_ents G s' j = dir_ents G s j) as He.
  { intros j. apply dir_ents_contents; [done|]. intros Hj. by rewrite (proj1 (Hino j Hj)). }
  split_and!; [|done|done]. split; [|done| |].
  - split; [done|by apply (trees_ok_ext G s' (tree_inodes G s))|]. intros j raw pos Hj Hk Hp. rewrite HR in Hj. destruct (to_raw _ _ _ Ht j raw Hj) as [Hz Hb].
    pose proof (fsize_range raw ltac:(lia) Hb). rewrite (Hby j) by (done || lia). by apply (fo_tail _ _ Hf j).
  - intros j raw Hj Hk. rewrite HR in Hj. rewrite (Hdata j) by done. by apply (fs_dirs _ _ Hfs j).
  - intros j e. rewrite He. apply (fs_named _ _ Hfs).
Qed.

(** ** An inode goes away *)

Lemma core_freed s s' i :
  fs_core G s → is_ino G i → ino_set G i false s s' →
  fs_core G s' ∧ dir_ents G s' i = [] ∧ others_same G i s s' ∧ contents G s' i = None ∧ (∀ j, j ≠ i → dir_ents G s' j = dir_ents G s j).
Proof using HG.
  intros Hfs Hi Hset. pose proof (fs_files _ _ Hfs) as Hf. pose proof (fo_trees _ _ Hf) as Ht.
  destruct (ino_set_frame G HG i false s s' _ (fo_blocks _ _ Hf) Ht Hset) as (F1 & F2 & F3).
  assert (tree_inodes G s' i = None) as HRi.
  { unfold tree_inodes. rewrite (proj2 (is_inob_true G i) Hi). rewrite (is_used _ _ _ _ _ Hset i Hi), decide_True by done. done. }
  assert (∀ j, j ≠ i → tree_inodes G s' j = tree_inodes G s j) as HRj.
  { intros j Hj. unfold tree_inodes. destruct (is_inob G j) eqn:E; [|done]. apply is_inob_true in E.
    by rewrite (is_used _ _ _ _ _ Hset j E), decide_False, F3. }
  assert (∀ j raw, tree_inodes G s' j = Some raw → j ≠ i ∧ tree_inodes G s j = Some raw) as Hsub.
  { intros j raw Hj. destruct (decide (j = i)) as [->|Hne]; [congruence|]. by rewrite <- HRj. }
  assert (∀ j raw, tree_inodes G s j = Some raw → fdata G s' raw 0 (fsize raw) = fdata G s raw 0 (fsize raw)) as Hdata.
  { intros j raw Hj. unfold fdata. apply list_fmap_ext. intros k x Hx%lookup_seqZ. apply (F2 j); [done|lia]. }
  assert (others_same G i s s') as Hoth.
  { intros j Hj. split; [|apply F3]. unfold contents. rewrite HRj by done. destruct (tree_inodes G s j) as [raw|] eqn:E; [|done]. cbn. by rewrite (Hdata j). }
  assert (∀ j, j ≠ i → dir_ents G s' j = dir_ents G s j) as Hents.
  { intros j Hj. apply dir_ents_contents; [by apply Hoth|]. intros Hij. by rewrite F3. }
  assert (dir_ents G s' i = []) as Hi0 by (unfold dir_ents; by rewrite HRi).
  split_and!; [|done|done|unfold contents; by rewrite HRi|done]. split.
  - split; [apply Hset| |].
    + apply (trees_sub s' (tree_inodes G s)); [|done]. intros j raw Hj. by apply Hsub.
    + intros j raw pos [_ Hj]%Hsub Hk Hp. destruct (to_raw _ _ _ Ht j raw Hj) as [Hz Hb]. pose proof (go_isz G HG).
      pose proof (fsize_range raw ltac:(lia) Hb). rewrite (F2 j) by (done || lia). by apply (fo_tail _ _ Hf j).
  - apply Hset.
  - intros j raw [_ Hj]%Hsub Hk. rewrite (Hdata j) by done. by apply (fs_dirs _ _ Hfs j).
  - intros j e. destruct (decide (j = i)) as [->|Hne]; [rewrite Hi0; by intros ?%elem_of_nil|]. rewrite Hents by done. apply (fs_named _ _ Hfs).
Qed.
End change.
