(* ===== verification/Ext2Create.v ===== *)
(** * The ext2 file system: new files and names

    [create] and [link] on a whole file system: exactly one name appears, the
    link counts stay exact, and a failed call leaves every file as it was. *)

From S2P Require Import Prelude Text Bytes Ext2 Ext2Fs Ext2Names Ext2Disk Ext2Alloc Ext2Blocks Ext2Inode Ext2Tree Ext2Map Ext2File Ext2Spec Ext2Dirent Ext2Dir Ext2Inodes Ext2Links.

(** ** Records with several fields set *)

Definition fsets (l : list (IField * Z)) (raw : Inode) : Inode := foldl (λ r fv, fset fv.1 fv.2 r) raw l.

Lemma fsets_ok l raw :
  128 ≤ zlen raw → Forall field_ok l.*1 → Forall is_byte raw →
  zlen (fsets l raw) = zlen raw ∧ Forall is_byte (fsets l raw) ∧ ∀ f, field_ok f → f ∉ l.*1 → fget f (fsets l raw) = fget f raw.
Proof.
  revert raw. induction l as [|[g v] l IH]; intros raw Hz Hl Hb; [done|]. apply Forall_cons in Hl as [Hg Hl]. cbn in Hg.
  assert (zlen (fset g v raw) = zlen raw) as Hz1 by (by apply zlen_fset).
  destruct (IH (fset g v raw) ltac:(lia) Hl (is_byte_fset g v raw Hb)) as (I1 & I2 & I3). cbn [fsets foldl fst snd] in *. fold (fsets l (fset g v raw)).
  split_and!; [by rewrite I1|done|]. intros f Hf Hn. rewrite fmap_cons in Hn. apply not_elem_of_cons in Hn as [Hne Hn]. cbn in Hne. rewrite I3 by done. by apply fget_other.
Qed.

Lemma fsets_get l1 f v l2 raw :
  128 ≤ zlen raw → Forall field_ok (l1 ++ (f, v) :: l2).*1 → Forall is_byte raw → f ∉ l2.*1 →
  fget f (fsets (l1 ++ (f, v) :: l2) raw) = v mod i_bound f.
Proof.
  intros Hz Hl Hb Hn. rewrite fmap_app, fmap_cons in Hl. apply Forall_app in Hl as [H1 H2]. apply Forall_cons in H2 as [Hf H2]. cbn in Hf.
  destruct (fsets_ok l1 raw Hz H1 Hb) as (A1 & A2 & _). unfold fsets. rewrite foldl_app. cbn [foldl fst snd]. fold (fsets l1 raw).
  set (r := fset f v (fsets l1 raw)). assert (zlen r = zlen raw) as Hr by (unfold r; rewrite zlen_fset; lia || done).
  fold (fsets l2 r). destruct (fsets_ok l2 r ltac:(lia) H2 (is_byte_fset f v _ A2)) as (_ & _ & H). rewrite H by done.
  apply fget_wrap; [lia|done].
Qed.

Definition fresh_fields (mode u g links t : Z) : list (IField * Z) :=
  [(i_mode, mode); (i_uid_lo, u); (i_uid_hi, Z.shiftr u 16); (i_gid_lo, g); (i_gid_hi, Z.shiftr g 16);
   (i_links, links); (i_atime, t); (i_ctime, t); (i_mtime, t)].
Definition fresh (n mode u g links t : Z) : Inode := fsets (fresh_fields mode u g links t) (zeros n).

Lemma init_inode_eq n mode u g links t : 128 ≤ n → init_inode n mode u g links t = Some (fresh n mode u g links t).
Proof.
  intros Hn. unfold init_inode, set_uid, set_gid, new_inode. assert (zlen (zeros n) = n) as Hz by (rewrite zlen_zeros_max; lia).
  assert (∀ f v r, 128 ≤ zlen r → field_ok f → 128 ≤ zlen (fset f v r)) as K by (intros; by rewrite zlen_fset).
  assert (128 ≤ zlen (zeros n)) as H0 by lia.
  repeat (rewrite iset_ok by (repeat apply K; done); cbn [mbind option_bind]). done.
Qed.

(** What a new inode is. *)
Record new_file (raw : Inode) (n mode u g links : Z) : Prop := {
  nf_len : zlen raw = n;
  nf_bytes : Forall is_byte raw;
  nf_mode : fget i_mode raw = mode;
  nf_links : fget i_links raw = links;
  nf_uid : uid raw = Some u;
  nf_gid : gid raw = Some g;
  nf_sectors : fget i_sectors raw = 0;
  nf_size : fsize raw = 0;
  nf_blocks : has_tree raw = true → ∀ k, 0 ≤ k < 15 → iblk raw k = 0;
}.

Lemma id_halves v : 0 ≤ v < U32 → Z.lor (v mod 2 ^ 16) (Z.shiftl (Z.shiftr v 16 mod 2 ^ 16) 16) = v.
Proof.
  intros Hv. rewrite Z.shiftr_div_pow2 by lia. rewrite (Z.mod_small (v / 2 ^ 16)).
  - rewrite Z.lor_comm, lor_shiftl_add by (try lia; apply Z.mod_pos_bound; lia). pose proof (Z.div_mod v (2 ^ 16)). lia.
  - unfold U32 in Hv. split; [apply Z.div_pos; lia|apply Z.div_lt_upper_bound; lia].
Qed.

Lemma fget_zeros f n : fget f (zeros n) = 0.
Proof. apply field_all0. by apply Forall_replicate. Qed.

Lemma fresh_ok n mode u g links t :
  128 ≤ n → 0 ≤ mode < 2 ^ 16 → 0 ≤ u < U32 → 0 ≤ g < U32 → 0 ≤ links < 2 ^ 16 →
  new_file (fresh n mode u g links t) n mode u g links ∧ ∀ k, 0 ≤ k < 15 → iblk (fresh n mode u g links t) k = 0.
Proof.
  intros Hn Hm Hu Hg Hl. assert (zlen (zeros n) = n) as Hz by (rewrite zlen_zeros_max; lia). set (l := fresh_fields mode u g links t).
  assert (Forall field_ok l.*1) as Hf by (repeat constructor). pose proof (is_byte_zeros n) as Hb.
  destruct (fsets_ok l (zeros n) ltac:(lia) Hf Hb) as (F1 & F2 & F3). fold (fresh n mode u g links t) in *. set (raw := fsets l (zeros n)) in *.
  change (fresh n mode u g links t) with raw.
  assert (∀ l1 f v l2, l = l1 ++ (f, v) :: l2 → f ∉ l2.*1 → fget f raw = v mod i_bound f) as Hget.
  { intros l1 f v l2 El Hnot. unfold raw. rewrite El in *. by apply fsets_get; [lia|..]. }
  assert (∀ f, field_ok f → f ∉ l.*1 → fget f raw = 0) as H0 by (intros f ? ?; rewrite F3 by done; apply fget_zeros).
  assert (fget i_mode raw = mode) as Hmode by (rewrite (Hget [] i_mode mode _ eq_refl) by (cbn; set_solver); by apply Z.mod_small).
  split; cycle 1. { intros k Hk. rewrite iblk_fget. apply H0; [done|]. cbn. set_solver. }
  split; try done; [lia| | | | | |].
  - rewrite (Hget [_;_;_;_;_] i_links links _ eq_refl) by (cbn; set_solver). by apply Z.mod_small.
  - unfold uid. rewrite !iget_ok by (lia || done). cbn [mbind option_bind]. rewrite (Hget [_] i_uid_lo u _ eq_refl), (Hget [_;_] i_uid_hi _ _ eq_refl) by (cbn; set_solver).
    f_equal. by apply id_halves.
  - unfold gid. rewrite !iget_ok by (lia || done). cbn [mbind option_bind]. rewrite (Hget [_;_;_] i_gid_lo g _ eq_refl), (Hget [_;_;_;_] i_gid_hi _ _ eq_refl) by (cbn; set_solver).
    f_equal. by apply id_halves.
  - apply H0; [done|cbn; set_solver].
  - unfold fsize. rewrite (H0 i_size_lo), (H0 i_size_hi) by (done || (cbn; set_solver)). by destruct (_ =? _).
  - intros _ k Hk. rewrite iblk_fget. apply H0; [done|]. cbn. set_solver.
Qed.

Definition mode_kind (mode : Z) : Z := Z.land mode S_IFMT.

Section create.
Context (G : Geo) (HG : geo_ok G).
Implicit Types (s : Fs) (R : Inodes).

(** ** A record for a new inode *)

Lemma node_0 s raw q : (∀ k, 0 ≤ k < 15 → iblk raw k = 0) → valid G q → node s raw q = 0.
Proof. intros H0 Hq. unfold node. rewrite H0 by apply Hq. apply walk_0. Qed.

Lemma fbyte_0 s raw pos : (∀ k, 0 ≤ k < 15 → iblk raw k = 0) → 0 ≤ pos → fbyte G s raw pos = 0.
Proof using HG.
  intros H0 Hpos. unfold fbyte. pose proof (bs_pos G HG). destruct (fpos G (pos / g_bs G)) as [p|] eqn:E; [|done].
  destruct (fpos_valid G HG _ p (Z.div_pos pos (g_bs G) Hpos ltac:(lia)) E) as [Hv _]. by rewrite (node_0 s raw p H0 Hv).
Qed.

Lemma trees_new s R ino raw :
  trees_ok G s R → zlen raw = g_isz G → Forall is_byte raw → (∀ k, 0 ≤ k < 15 → iblk raw k = 0) → trees_ok G s (upd R ino raw).
Proof.
  intros Ht Hz Hb H0.
  assert (∀ j rawj q, upd R ino raw j = Some rawj → valid G q → node s rawj q ≠ 0 → R j = Some rawj) as Hold.
  { intros j rawj q. unfold upd. destruct (decide (j = ino)); [|done]. intros [= <-] Hq Hn. by rewrite node_0 in Hn. }
  split.
  - intros j rawj. unfold upd. destruct (decide (j = ino)); [by intros [= <-]|apply Ht].
  - intros j rawj q Hj Hq Hn. apply (to_node _ _ _ Ht j); [by apply (Hold j rawj q)|done|done].
  - intros j rawj q j' rawj' q' Hj Hj' Hq Hq' He Hn. apply (to_inj _ _ _ Ht j rawj q j' rawj' q'); try done; [by apply (Hold j rawj q)|].
    apply (Hold j' rawj' q'); [done|done|congruence].
Qed.

Lemma unused_none s i : ino_used G s i = false → tree_inodes G s i = None ∧ dir_ents G s i = [].
Proof.
  intros Hu. assert (tree_inodes G s i = None) as HR. { unfold tree_inodes. rewrite Hu. by rewrite andb_false_r. }
  split; [done|]. unfold dir_ents. by rewrite HR.
Qed.

(** An unused inode is not a reserved one. *)
Lemma unused_first s i : inodes_ok G s → is_ino G i → ino_used G s i = false → g_first_ino G ≤ i.
Proof using HG.
  intros Hio Hi Hu. destruct (Z.le_gt_cases (g_first_ino G) i) as [|Hlt]; [done|]. exfalso. pose proof (io_first _ _ Hio). pose proof (go_ipg G HG).
  unfold is_ino in Hi. pose proof (io_reserved _ _ Hio (i - 1) ltac:(lia)) as Hr. unfold ino_used, ino_group in Hu.
  rewrite Z.div_small, Z.mod_small in Hu by lia. congruence.
Qed.

Lemma has_dir_same s s' d m :
  has_dir G s d m → is_ino G d → ino_used G s' d = ino_used G s d → inode_at G s' d = inode_at G s d → dir_ents G s' d = dir_ents G s d → has_dir G s' d m.
Proof.
  intros (raw & HR & Hk & ->) Hd Hu Hi He. exists raw. split_and!; [|done|by rewrite He]. rewrite <- HR. unfold tree_inodes. by rewrite Hu, Hi.
Qed.

Lemma dir_used s d m : has_dir G s d m → is_ino G d ∧ ino_used G s d = true.
Proof. intros (raw & HR & _). by destruct (tree_inodes_Some G s d raw HR) as (? & _ & _ & ?). Qed.

Lemma inodes_ok_ticked s : inodes_ok G s → inodes_ok G (ticked s).
Proof. by intros [A B C D E]. Qed.

Lemma fresh_commit s s1 i raw mode u g links :
  fs_core G s → is_ino G i → ino_used G s i = false → ino_set G i true s s1 → new_file raw (g_isz G) mode u g links → kind raw ≠ S_IFDIR →
  let s2 := put_inode G i raw (ticked s1) in
  inode_moved G i raw s s2 ∧ ino_used G s2 i = true ∧ dir_ents G s2 i = [] ∧ contents G s2 i = (if has_tree raw then Some [] else None).
Proof using HG.
  intros Hfs Hi Hu Hset Hnf Hk s2. pose proof (fs_files _ _ Hfs) as Hf. destruct (unused_none s i Hu) as [HRi _].
  destruct (ino_set_frame G HG i true s s1 _ (fo_blocks _ _ Hf) (fo_trees _ _ Hf) Hset) as (F1 & F2 & F3). pose proof (is_blocks _ _ _ _ _ Hset) as Hs1.
  pose proof (nf_len _ _ _ _ _ _ Hnf) as Hz. pose proof (nf_bytes _ _ _ _ _ _ Hnf) as Hb.
  assert (trees_ok G (ticked s1) (set_tree (tree_inodes G s) i raw)) as Ht.
  { apply trees_ok_ticked. destruct (has_tree raw) eqn:E.
    - eapply trees_ok_ext; [|apply (trees_new s1 _ i raw F1 Hz Hb (nf_blocks _ _ _ _ _ _ Hnf E))]. intros j. unfold set_tree, upd. by rewrite E.
    - eapply trees_ok_ext; [|exact F1]. intros j. unfold set_tree. rewrite E. destruct (decide (j = i)) as [->|]; done. }
  assert (∀ j, is_ino G j → ino_used G (ticked s1) j = if decide (j = i) then true else ino_used G s j) as Hus by apply Hset.
  assert (committed G i raw s (ticked s1) s2) as Hc.
  { apply (commit G HG s i (ticked s1) raw); try done.
    - by apply blocks_ok_ticked.
    - rewrite Hus by done. by rewrite decide_True.
    - intros j Hj Hij. split; [exact (F3 j Hij)|]. rewrite Hus by done. by rewrite decide_False.
    - intros j rawj pos Hj HRj Hpos. rewrite (fbyte_dev G s1 (ticked s1)) by done. by apply (F2 j).
    - intros E _ pos Hpos. rewrite (nf_size _ _ _ _ _ _ Hnf) in Hpos. apply fbyte_0; [by apply (nf_blocks _ _ _ _ _ _ Hnf)|done]. }
  destruct (core_inode G HG s (ticked s1) s2 i raw Hfs Hi) as (M1 & M2 & M3); try done.
  - by apply blocks_ok_ticked.
  - apply inodes_ok_ticked, Hset.
  - intros j Hj Hne. rewrite Hus by done. by rewrite decide_False.
  - split_and!; [done| | |].
    + rewrite M2, Hus by done. by rewrite decide_True.
    + rewrite M3. rewrite (proj2 (Z.eqb_neq _ _)) by done. by destruct (has_tree raw).
    + rewrite (cm_mine _ _ _ _ _ _ Hc), (nf_size _ _ _ _ _ _ Hnf). done.
Qed.

(** ** [create] *)

Lemma wp_now Q s : Q (clock s (readings s)) (ticked s) → wp now Q s.
Proof. done. Qed.

(** The inodes in use, except those in [X], are as they were. *)
Definition kept (X : list Z) s s' : Prop :=
  ∀ j, is_ino G j → ino_used G s j = true → j ∉ X →
    ino_used G s' j = true ∧ inode_at G s' j = inode_at G s j ∧ contents G s' j = contents G s j.

(** What [create] promises: the new inode is an empty file with one name; on an
    error there is a reason and nothing changed. *)
Definition created s (d : Z) (m : Dir) (name : list Z) (mode u g : Z) (r : Error + Z) s' : Prop :=
  fs_ok G s' ∧ kept [d] s s' ∧ same_id (inode_at G s d) (inode_at G s' d) ∧
  match r with
  | inr i => is_ino G i ∧ ino_used G s i = false ∧ m !! name = None ∧ has_dir G s' d (<[name := (i, ft_from_mode mode)]> m) ∧
      (∀ j, is_ino G j → ino_used G s' j = bool_decide (j = i) || ino_used G s j) ∧
      new_file (inode_at G s' i) (g_isz G) mode u g 1 ∧
      contents G s' i = if has_tree (inode_at G s' i) then Some [] else None
  | inl e => has_dir G s' d m ∧ (∀ j, is_ino G j → ino_used G s' j = ino_used G s j) ∧
      match e with
      | NameTooLong => 255 < zlen name
      | Exists => is_Some (m !! name)
      | NoSpace => no_inode G s ∨ full G s'
      | _ => False
      end
  end.

Lemma same_id_refl raw : same_id raw raw.
Proof. by intros f. Qed.

Lemma kept_refl X s : kept X s s.
Proof. done. Qed.

(** The name went into the directory. *)
Lemma create_done s d m name mode u g i raw s2 l s3 :
  fs_ok G s → has_dir G s d m → m !! name = None → is_ino G i → ino_used G s i = false →
  new_file raw (g_isz G) mode u g 1 → inode_moved G i raw s s2 → ino_used G s2 i = true → dir_ents G s2 i = [] →
  contents G s2 i = (if has_tree raw then Some [] else None) →
  dir_moved G d l s2 s3 → l ≡ₚ (name, (i, ft_from_mode mode)) :: dir_ents G s2 d → list_to_map l = <[name := (i, ft_from_mode mode)]> m →
  created s d m name mode u g (inr i) s3.
Proof using HG.
  intros [Hfs Hlinks] Hd Hm Hi Hu Hnf H2 Hu2 He2 Hc2 H3 Hl Hmap. destruct (dir_used s d m Hd) as [Hid Hud]. assert (d ≠ i) as Hdi by congruence.
  destruct (unused_none s i Hu) as [_ He]. destruct H2 as [A1 A2 A3 A4 A5 A6], H3 as [B1 B2 B3 B4 B5 B6 B7 B8 B9].
  assert (inode_at G s3 i = raw) as Hraw by (rewrite <- A2; by apply B7).
  split_and!; [split; [done|]|..].
  - intros j Hj. rewrite (refs_update G s2 s3 d j Hid B3), B2, Hl, nrefs_cons. cbn [fst snd].
    rewrite (refs_same G s s2); [|intros k Hk; destruct (decide (k = i)) as [->|]; [congruence|by apply A3]].
    rewrite Hlinks, B6 by done. unfold nlinks at 2. destruct (Z.eqb_spec i j) as [<-|Hne]; [|rewrite <- A4 by done; unfold nlinks; lia].
    unfold nlinks. rewrite Hu, Hu2, A2, (nf_links _ _ _ _ _ _ Hnf). lia.
  - intros j Hj Huj Hn. apply not_elem_of_cons in Hn as [Hn _]. assert (j ≠ i) as Hji by congruence.
    destruct (A6 j Hji) as [X1 X2], (B7 j Hn) as [Y1 Y2]. rewrite B5, A5, Y1, X1, Y2, X2 by done. done.
  - destruct (A6 d Hdi) as [_ X2]. by rewrite <- X2.
  - done.
  - done.
  - done.
  - by rewrite <- Hmap.
  - intros j Hj. rewrite B5 by done. case_bool_decide as Hji; [by subst|by apply A5].
  - by rewrite Hraw.
  - rewrite Hraw. destruct (B7 i) as [-> _]; [congruence|done].
Qed.

(** There was no space for the name: the inode is given back. *)
Lemma create_undone s d m name mode u g i raw s2 s3 s4 :
  fs_ok G s → has_dir G s d m → is_ino G i → ino_used G s i = false → inode_moved G i raw s s2 → dir_ents G s2 i = [] →
  dir_moved G d (dir_ents G s2 d) s2 s3 → full G s3 → ino_set G i false s3 s4 → created s d m name mode u g (inl NoSpace) s4.
Proof using HG.
  intros [Hfs Hlinks] Hd Hi Hu H2 He2 H3 Hfull Hset. destruct (dir_used s d m Hd) as [Hid Hud]. assert (d ≠ i) as Hdi by congruence.
  destruct (unused_none s i Hu) as [_ He]. destruct H2 as [A1 A2 A3 A4 A5 A6], H3 as [B1 B2 B3 B4 B5 B6 B7 B8 B9].
  destruct (core_freed G HG s3 s4 i B1 Hi Hset) as (C1 & C2 & C3 & C4 & C5). pose proof (is_used _ _ _ _ _ Hset) as C6.
  assert (∀ j, is_ino G j → dir_ents G s4 j = dir_ents G s j) as Hents.
  { intros j Hj. destruct (decide (j = i)) as [->|Hji]; [congruence|]. rewrite C5, <- A3 by done. destruct (decide (j = d)) as [->|]; [done|by apply B3]. }
  assert (∀ j, is_ino G j → ino_used G s4 j = ino_used G s j) as Hused.
  { intros j Hj. rewrite C6 by done. case_decide as Hji; [by subst|]. by rewrite B5, A5. }
  split_and!; [split; [done|]|..].
  - intros j Hj. rewrite (refs_same G s s4 j Hents), Hlinks by done. destruct (decide (j = i)) as [->|Hji].
    + unfold nlinks. by rewrite Hused, Hu.
    + rewrite <- A4, <- B6 by done. unfold nlinks. destruct (C3 j Hji) as [_ ->]; [|done]. by rewrite C6, decide_False.
  - intros j Hj Huj Hn. apply not_elem_of_cons in Hn as [Hn _]. assert (j ≠ i) as Hji by congruence.
    destruct (A6 j Hji) as [X1 X2], (B7 j Hn) as [Y1 Y2], (C3 j Hji) as [Z1 Z2]. rewrite Hused, Z1, Y1, X1, Z2, Y2, X2 by done. done.
  - destruct (A6 d Hdi) as [_ X2], (C3 d Hdi) as [_ Z2]. rewrite Z2, <- X2 by done. done.
  - apply (has_dir_same s3); [|done|by rewrite C6, decide_False|by apply C3|by apply C5].
    replace m with (list_to_map (dir_ents G s2 d) : Dir); [done|]. rewrite A3 by done. by destruct Hd as (? & _ & _ & ->).
  - done.
  - right. intros b. rewrite (is_free _ _ _ _ _ Hset). apply Hfull.
Qed.

Lemma new_file_rdev raw mode u g links rd :
  new_file raw (g_isz G) mode u g links → (mode_kind mode =? S_IFCHR) || (mode_kind mode =? S_IFBLK) = true →
  ∃ raw', set_rdev rd raw = Some raw' ∧ new_file raw' (g_isz G) mode u g links.
Proof using HG.
  intros [A1 A2 A3 A4 A5 A6 A7 A8 A9] Hk. pose proof (go_isz G HG). assert (128 ≤ zlen raw) as Hz by lia.
  assert (∃ k, 0 ≤ k < 15 ∧ set_rdev rd raw = Some (fset (i_block k) rd raw)) as (k & Hr & Hset).
  { unfold set_rdev. destruct (_ && _); [exists 0|exists 1]; (split; [lia|]); apply iset_ok; [done|cbn; lia|done|cbn; lia]. }
  assert (∀ f, field_ok f → (∀ j, f ≠ i_block j) → fget f (fset (i_block k) rd raw) = fget f raw) as Ho by (intros f Hf Hn; by apply fget_other).
  rewrite Hset. eexists. split; [done|]. split.
  - by rewrite zlen_fset.
  - by apply is_byte_fset.
  - by rewrite Ho.
  - by rewrite Ho.
  - rewrite <- A5. unfold uid. rewrite !iget_ok by (rewrite ?zlen_fset; done). by rewrite !Ho.
  - rewrite <- A6. unfold gid. rewrite !iget_ok by (rewrite ?zlen_fset; done). by rewrite !Ho.
  - by rewrite Ho.
  - rewrite <- A8. apply fsize_fget; by apply Ho.
  - intros Ht. exfalso. revert Ht. unfold has_tree, kind. rewrite (Ho i_mode), A3 by done. fold (mode_kind mode). unfold is_special_kind.
    apply orb_true_iff in Hk as [-> | ->]; by rewrite ?orb_true_r, ?orb_true_l, andb_false_r.
Qed.

Lemma wp_create s d m name mode u g rd Q :
  fs_ok G s → has_dir G s d m → room G s d → g_bs G < 65536 → name ≠ [] → Forall is_byte name →
  0 ≤ mode < 2 ^ 16 → mode_kind mode ≠ S_IFDIR → 0 ≤ u < U32 → 0 ≤ g < U32 →
  (∀ r s', created s d m name mode u g r s' → Q r s') → wp (create d name mode u g rd) Q s.
Proof using HG.
  intros Hok Hd Hroom Hbs Hne Hnb Hmode Hkind Hu Hg HQ. pose proof Hok as [Hfs Hlinks]. pose proof (fs_files _ _ Hfs) as Hf. pose proof (fo_blocks _ _ Hf) as Hs.
  pose proof (bo_disk _ _ Hs) as Hdk. destruct (dir_used s d m Hd) as [Hid Hud]. pose proof (go_isz G HG).
  assert (∀ e, match e with NameTooLong => 255 < zlen name | Exists => is_Some (m !! name) | NoSpace => no_inode G s | _ => False end → Q (inl e) s) as Hfail.
  { intros e He. apply HQ. split_and!; [done|apply kept_refl|apply same_id_refl|done|done|]. destruct e; try done. by left. }
  unfold create, check_rw. e2_steps. rewrite (bo_rw _ _ Hs). e2_steps. fold (mode_kind mode). rewrite (proj2 (Z.eqb_neq _ _)) by done.
  destruct (Z.ltb_spec 255 (zlen name)) as [Hlong|Hshort]; [e2_steps; by apply Hfail|]. e2_steps.
  eapply wp_eq; [by apply (read_inode_eq G HG)|]. cbn beta iota. destruct Hd as (raw & HR & Hk & Hmeq). assert (has_dir G s d m) as Hd by (by exists raw).
  destruct (tree_inodes_Some G s d raw HR) as (_ & Hraw & _). destruct (to_raw _ _ _ (fo_trees _ _ Hf) d raw HR) as [Hz Hb]. rewrite <- Hraw.
  unfold is_dir. rewrite is_kind_eq, Hk by lia. change (S_IFDIR =? S_IFDIR) with true. e2_steps. cbn [negb]. e2_steps. apply (fs_exists G HG s d m); [done|done|]. cbn beta. case_bool_decide as Hex; [e2_steps; by apply Hfail|].
  assert (m !! name = None) as Hnone by (by apply eq_None_not_Some). e2_steps.
  apply (wp_alloc_inode G HG s d false); [done|apply Hfs|done| |].
  { intros Hno. cbn beta iota. e2_steps. by apply Hfail. }
  intros i s1 Hi Hui Hset. cbn beta iota. e2_steps. pose proof (is_blocks _ _ _ _ _ Hset) as Hs1. geo (bo_disk _ _ Hs1). apply wp_now. cbn beta. e2_steps.
  rewrite init_inode_eq by lia. e2_steps. set (t := clock s1 (readings s1)).
  destruct (fresh_ok (g_isz G) mode u g 1 t) as [Hnf0 _]; try done; [lia|].
  assert (∃ raw1, (if (mode_kind mode =? S_IFCHR) || (mode_kind mode =? S_IFBLK) then set_rdev rd (fresh (g_isz G) mode u g 1 t) else Some (fresh (g_isz G) mode u g 1 t)) = Some raw1 ∧
    new_file raw1 (g_isz G) mode u g 1) as (raw1 & -> & Hnf).
  { destruct (_ || _) eqn:E; [by apply new_file_rdev|by eexists]. }
  clear Hnf0. e2_steps. assert (kind raw1 ≠ S_IFDIR) as Hk1 by (unfold kind; by rewrite (nf_mode _ _ _ _ _ _ Hnf)).
  eapply wp_eq; [apply (write_inode_eq G HG); [by apply blocks_ok_ticked|done|apply Hnf]|]. cbn beta iota. e2_steps.
  destruct (fresh_commit s s1 i raw1 mode u g 1 Hfs Hi Hui Hset Hnf Hk1) as (M1 & M2 & M3 & M4). set (s2 := put_inode G i raw1 (ticked s1)) in *.
  assert (d ≠ i) as Hdi by congruence. destruct (im_others _ _ _ _ _ M1 d Hdi) as [_ Hat]. specialize (Hat Hid).
  assert (has_dir G s2 d m) as Hd2 by (apply (has_dir_same s); [done|done|by apply M1|done|by apply M1]).
  apply (fs_add_entry G HG s2 d m); try done; [apply M1| | | | |].
  - split; [|done]. destruct name; [done|]. rewrite zlen_cons in *. pose proof (zlen_nonneg name). lia.
  - unfold ft_from_mode, FT_REG, FT_DIR, FT_CHR, FT_BLK, FT_FIFO, FT_SOCK, FT_SYMLINK, FT_UNKNOWN. repeat case_match; lia.
  - unfold room in *. by rewrite Hat.
  - intros l s3 D1 D2 D3. cbn beta iota. e2_steps. apply HQ. by apply (create_done s d m name mode u g i raw1 s2 l s3).
  - intros s3 D1 Hfull. cbn beta iota. e2_steps. pose proof (dm_core _ _ _ _ _ D1) as Hc3.
    apply (wp_free_inode G HG s3 i); [apply Hc3|apply Hc3|done|by apply (unused_first s i (fs_inodes _ _ Hfs))|rewrite (dm_used _ _ _ _ _ D1) by done; done|].
    intros s4 Hset4. cbn beta iota. e2_steps. apply HQ. by apply (create_undone s d m name mode u g i raw1 s2 s3 s4).
Qed.
End create.
