(* ===== verification/Ext2Link.v ===== *)
(** * The ext2 file system: [link] and [unlink]

    A second name for a file: the link count stays the number of names, and
    nothing else about the file changes.  A name goes away; the last name of a
    file that nobody holds open takes the inode and all its blocks with it. *)

From S2P Require Import Prelude Text Bytes Ext2 Ext2Fs Ext2Names Ext2Disk Ext2Alloc Ext2Blocks Ext2Inode Ext2Tree Ext2Map Ext2File Ext2Spec Ext2Free Ext2Trunc Ext2Dirent Ext2Dir Ext2Inodes Ext2Links Ext2Create.

(** At most the link count and the time of change differ. *)
Definition body_same (raw raw' : Inode) : Prop :=
  ∀ f, field_ok f → f ≠ i_links → f ≠ i_ctime → fget f raw' = fget f raw.

Lemma body_same_refl raw : body_same raw raw.
Proof. done. Qed.

Lemma body_same_facts raw raw' :
  body_same raw raw' → kind raw' = kind raw ∧ fsize raw' = fsize raw ∧ has_tree raw' = has_tree raw ∧ ∀ k, 0 ≤ k < 15 → iblk raw' k = iblk raw k.
Proof.
  intros Hb. destruct (fsize_fget raw raw') as [Hs Hk]; [by apply Hb..|]. split_and!; [done|done| |].
  - unfold has_tree. rewrite Hk. by rewrite (Hb i_sectors).
  - intros k Hkr. rewrite !iblk_fget. by apply Hb.
Qed.

Lemma body_same_fset raw f v : 128 ≤ zlen raw → f = i_links ∨ f = i_ctime → body_same raw (fset f v raw).
Proof. intros Hz [->| ->] g Hg N1 N2; by apply fget_other. Qed.

Lemma body_same_trans raw1 raw2 raw3 : body_same raw1 raw2 → body_same raw2 raw3 → body_same raw1 raw3.
Proof. intros H1 H2 f Hf N1 N2. by rewrite H2, H1. Qed.

Section link.
Context (G : Geo) (HG : geo_ok G).
Implicit Types (s : Fs) (R : Inodes).

(** ** A record with another link count *)

(** The clock may have been read. *)
Definition clocked s s1 : Prop := s1 = s ∨ s1 = ticked s.

Lemma clocked_same s s1 :
  clocked s s1 → fs_core G s →
  blocks_ok G s1 ∧ inodes_ok G s1 ∧ (∀ R, trees_ok G s R → trees_ok G s1 R) ∧ (∀ j, inode_at G s1 j = inode_at G s j) ∧
  (∀ j, ino_used G s1 j = ino_used G s j) ∧ (∀ raw pos, fbyte G s1 raw pos = fbyte G s raw pos) ∧ (∀ b, isfree G s1 b = isfree G s b).
Proof.
  intros [->| ->] [Hf Hio _ _]; [split_and!; try done; apply Hf|]. split_and!; try done.
  - apply blocks_ok_ticked, Hf.
  - by apply inodes_ok_ticked.
  - intros R. apply trees_ok_ticked.
  - intros raw pos. by apply fbyte_dev.
Qed.

Lemma record_moved s s1 i raw :
  fs_core G s → clocked s s1 → is_ino G i → ino_used G s i = true → zlen raw = g_isz G → Forall is_byte raw → body_same (inode_at G s i) raw →
  let s' := put_inode G i raw s1 in
  inode_moved G i raw s s' ∧ ino_used G s' i = true ∧ dir_ents G s' i = dir_ents G s i ∧ contents G s' i = contents G s i ∧
  (∀ b, isfree G s' b = isfree G s b) ∧ ∀ r q, tree_inodes G s i = Some r → valid G q → node s' r q = node s r q.
Proof using HG.
  intros Hfs Hck Hi Hu Hz Hb Hsame s'. destruct (clocked_same s s1 Hck Hfs) as (K1 & K2 & K3 & K4 & K5 & K6 & K7). pose proof (fs_files _ _ Hfs) as Hf.
  destruct (body_same_facts _ _ Hsame) as (Hk & Hsz & Htr & Hib). pose proof (go_isz G HG).
  assert (tree_inodes G s i = if has_tree raw then Some (inode_at G s i) else None) as HRi.
  { unfold tree_inodes. by rewrite (proj2 (is_inob_true G i) Hi), Hu, Htr. }
  assert (trees_ok G s1 (set_tree (tree_inodes G s) i raw)) as Ht.
  { apply K3. destruct (has_tree raw) eqn:E.
    - eapply trees_ok_ext; [|apply (trees_fields G s (tree_inodes G s) i (inode_at G s i) raw); [|done|done|done]].
      + intros j. unfold set_tree, upd. by rewrite E.
      + eapply trees_ok_ext; [|apply (fo_trees _ _ Hf)]. intros j. by apply upd_id.
    - eapply trees_ok_ext; [|apply (fo_trees _ _ Hf)]. intros j. unfold set_tree. rewrite E. destruct (decide (j = i)) as [->|]; done. }
  assert (∀ pos, 0 ≤ pos → fbyte G s1 raw pos = fbyte G s (inode_at G s i) pos) as Hfb.
  { intros pos Hpos. rewrite K6. by apply (fbyte_iblk G HG). }
  assert (0 ≤ fsize raw) as Hsz0 by (apply fsize_range; [lia|done]).
  assert (fdata G s1 raw 0 (fsize raw) = fdata G s (inode_at G s i) 0 (fsize (inode_at G s i))) as Hdata.
  { rewrite <- Hsz. unfold fdata. apply list_fmap_ext. intros k x Hx%lookup_seqZ. apply Hfb. lia. }
  assert (committed G i raw s s1 s') as Hc.
  { apply (commit G HG s i s1 raw); try done.
    - by rewrite K5.
    - intros E Hreg pos Hpos. rewrite Hfb by lia. apply (fo_tail _ _ Hf i); [by rewrite HRi, E|congruence|by rewrite <- Hsz]. }
  destruct (core_inode G HG s s1 s' i raw Hfs Hi) as (M1 & M2 & M3); try done.
  - intros E Hdir. rewrite Hdata. destruct (fs_dirs _ _ Hfs i (inode_at G s i)) as (ls & L1 & L2); [by rewrite HRi, E|congruence|].
    exists ls. split_and!; [done|done|]. intros e He. apply (fs_named _ _ Hfs i). unfold dir_ents. rewrite HRi, E, <- Hk, Hdir. by rewrite (dir_entries_tiles G HG _ ls).
  - split_and!; [done| | | | |].
    + by rewrite M2, K5.
    + rewrite M3. unfold dir_ents. rewrite HRi, Hdata. destruct (has_tree raw); [by rewrite <- Hk|done].
    + rewrite (cm_mine _ _ _ _ _ _ Hc), Hdata. unfold contents. rewrite HRi. by destruct (has_tree raw).
    + intros b. by rewrite (cm_free _ _ _ _ _ _ Hc), K7.
    + intros r q HR Hq. destruct (put_inode_frame G HG s1 (tree_inodes G s) i raw K1 (K3 _ (fo_trees _ _ Hf)) Hi Hz Hb) as (_ & _ & P3 & _).
      unfold s'. rewrite (P3 i r q HR Hq). by destruct Hck as [->| ->]; [|apply walk_dev].
Qed.

(** What setting the link count of [i] to [n] changes. *)
Record counted (i n : Z) s s' : Prop := {
  ct_moved : inode_moved G i (inode_at G s' i) s s';
  ct_body : body_same (inode_at G s i) (inode_at G s' i);
  ct_links : nlinks G s' i = n;
  ct_used : ino_used G s' i = true;
  ct_ents : dir_ents G s' i = dir_ents G s i;
  ct_contents : contents G s' i = contents G s i;
  ct_free : ∀ b, isfree G s' b = isfree G s b;
  ct_nodes : ∀ r q, tree_inodes G s i = Some r → valid G q → node s' r q = node s r q;
}.

Lemma counted_by s s1 i raw n :
  fs_core G s → clocked s s1 → is_ino G i → ino_used G s i = true → zlen raw = g_isz G → Forall is_byte raw → body_same (inode_at G s i) raw →
  fget i_links raw = n → counted i n s (put_inode G i raw s1).
Proof using HG.
  intros Hfs Hck Hi Hu Hz Hb Hsame Hn. destruct (record_moved s s1 i raw) as (M1 & M2 & M3 & M4 & M5 & M6); try done.
  pose proof (im_raw _ _ _ _ _ M1) as Hr. split; rewrite ?Hr; try done. unfold nlinks. by rewrite M2, Hr.
Qed.

Lemma counted_dir d n s s' m : is_ino G d → counted d n s s' → has_dir G s d m → has_dir G s' d m.
Proof.
  intros Hd [_ Hbody _ Hu' He _ _ _] (raw & HR & Hk & Hm). destruct (tree_inodes_Some G s d raw HR) as (_ & -> & _ & Hu).
  destruct (body_same_facts _ _ Hbody) as (Hkd & _ & Htr & _). exists (inode_at G s' d). split_and!; [|congruence|by rewrite He].
  revert HR. unfold tree_inodes. rewrite Hu', Hu, Htr. by destruct (_ && _).
Qed.

Lemma wp_bump_links s i f n Q :
  fs_core G s → is_ino G i → ino_used G s i = true → f (fget i_links (inode_at G s i)) = Some n → 0 ≤ n < 2 ^ 16 →
  (∀ s', counted i n s s' → Q (inr tt) s') → wp (bump_links i f) Q s.
Proof using HG.
  intros Hfs Hi Hu Hf Hn HQ. pose proof (bo_disk _ _ (fo_blocks _ _ (fs_files _ _ Hfs))) as Hdk. pose proof (go_isz G HG). set (raw := inode_at G s i) in *.
  assert (zlen raw = g_isz G) as Hz by (by apply (zlen_inode_at G HG)). assert (Forall is_byte raw) as Hb by (by apply is_byte_inode_at).
  assert (zlen (fset i_links n raw) = g_isz G) as Hz' by (rewrite zlen_fset; [done|lia|done]).
  unfold bump_links. e2_steps. eapply wp_eq; [by apply (read_inode_eq G HG)|]. cbn beta iota. fold raw. rewrite iget_ok by (lia || done). e2_steps.
  rewrite Hf. e2_steps. rewrite iset_ok by (lia || done). e2_steps. eapply wp_eq; [by apply (write_inode_eq G HG)|]. apply HQ.
  apply (counted_by s); try done; [by left|by apply is_byte_fset|apply body_same_fset; [lia|by left]|apply fget_same; [lia|done|done]].
Qed.

(** ** [link] *)

(** What [link] promises. *)
Definition linked s (d : Z) (m : Dir) (name : list Z) (i : Z) (r : Error + unit) s' : Prop :=
  fs_ok G s' ∧ kept G [d; i] s s' ∧ (∀ j, is_ino G j → ino_used G s' j = ino_used G s j) ∧
  same_id (inode_at G s d) (inode_at G s' d) ∧ contents G s' i = contents G s i ∧
  match r with
  | inr _ => m !! name = None ∧ has_dir G s' d (<[name := (i, ft_from_mode (fget i_mode (inode_at G s i)))]> m) ∧
      body_same (inode_at G s i) (inode_at G s' i) ∧ nlinks G s' i = nlinks G s i + 1
  | inl e => has_dir G s' d m ∧ inode_at G s' i = inode_at G s i ∧
      match e with
      | IsDir => kind (inode_at G s i) = S_IFDIR
      | TooManyLinks => 32000 ≤ nlinks G s i
      | Exists => is_Some (m !! name)
      | NameTooLong => ¬ 0 < zlen name < 256
      | NoSpace => full G s'
      | _ => False
      end
  end.

Lemma add_entry_long d name i t s : ¬ 0 < zlen name < 256 → add_entry d name i t s = Some (inl NameTooLong, s).
Proof.
  intros Hn. unfold add_entry. pose proof (zlen_nonneg name). destruct (Z.eqb_spec (zlen name) 0); [done|]. by rewrite (proj2 (Z.ltb_lt 255 (zlen name))) by lia.
Qed.

Lemma has_dir_ents s d m : has_dir G s d m → m = list_to_map (dir_ents G s d).
Proof. by intros (? & _ & _ & ?). Qed.

(** The entries of [d] changed and the count of [i] followed. *)
Lemma relinked s d m i delta l s2 s3 :
  fs_ok G s → has_dir G s d m → is_ino G i → ino_used G s i = true → i ≠ d →
  dir_moved G d l s s2 → (∀ j, nrefs j l = nrefs j (dir_ents G s d) + if i =? j then delta else 0) → counted i (nlinks G s i + delta) s2 s3 →
  fs_ok G s3 ∧ kept G [d; i] s s3 ∧ (∀ j, is_ino G j → ino_used G s3 j = ino_used G s j) ∧
  same_id (inode_at G s d) (inode_at G s3 d) ∧ has_dir G s3 d (list_to_map l) ∧ contents G s3 i = contents G s i ∧ body_same (inode_at G s i) (inode_at G s3 i).
Proof using HG.
  intros [Hfs Hlinks] Hd Hi Hu Hid [B1 B2 B3 B4 B5 B6 B7 B8 B9] Hl [[A1 A2 A3 A4 A5 A6] Hbody Hn Hu3 He3 Hc3 _]. destruct (dir_used G s d m Hd) as [Hdi Hud].
  destruct (B7 i Hid) as [Hci Hat]. specialize (Hat Hi).
  assert (∀ j, is_ino G j → ino_used G s3 j = ino_used G s j) as Hused.
  { intros j Hj. destruct (decide (j = i)) as [->|]; [congruence|]. by rewrite A5, B5. }
  split_and!; [split; [done|]|..]; try done.
  - intros j Hj. rewrite (refs_same G s2 s3); [|intros k Hk; destruct (decide (k = i)) as [->|]; [done|by apply A3]].
    rewrite (refs_update G s s2 d j Hdi B3), B2, Hl, (Hlinks j Hj). destruct (Z.eqb_spec i j) as [<-|Hne]; [lia|].
    rewrite A4, B6 by done. lia.
  - intros j Hj Huj Hn'. apply not_elem_of_cons in Hn' as [Hnd Hn']. apply not_elem_of_cons in Hn' as [Hni _].
    destruct (B7 j Hnd) as [X1 X2], (A6 j Hni) as [Y1 Y2]. rewrite Hused, Y1, Y2, X1, X2 by done. done.
  - destruct (A6 d ltac:(done)) as [_ ->]; done.
  - apply (has_dir_same G s2); [done|done|by apply A5|by apply A6|by apply A3].
  - congruence.
  - by rewrite <- Hat.
Qed.

(** A directory whose entries are as before. *)
Lemma dir_kept s d m s' :
  fs_ok G s → has_dir G s d m → dir_moved G d (dir_ents G s d) s s' → fs_ok G s' ∧ has_dir G s' d m ∧ kept G [d] s s'.
Proof.
  intros [Hfs Hlinks] Hd [B1 B2 B3 B4 B5 B6 B7 B8 B9]. split_and!.
  - split; [done|]. intros j Hj. rewrite (refs_same G s s'), B6 by done || (intros k Hk; destruct (decide (k = d)) as [->|]; [done|by apply B3]). by apply Hlinks.
  - by rewrite (has_dir_ents s d m Hd).
  - intros j Hj Huj Hn. apply not_elem_of_cons in Hn as [Hn _]. destruct (B7 j Hn) as [X1 X2]. by rewrite B5, X1, X2.
Qed.

Lemma wp_link s d m name i Q :
  fs_ok G s → has_dir G s d m → room G s d → g_bs G < 65536 → Forall is_byte name → is_ino G i → ino_used G s i = true →
  (∀ r s', linked s d m name i r s' → Q r s') → wp (link d name i) Q s.
Proof using HG.
  intros Hok Hd Hroom Hbs Hnb Hi Hu HQ. pose proof Hok as [Hfs Hlinks]. pose proof (fs_files _ _ Hfs) as Hf. pose proof (fo_blocks _ _ Hf) as Hs.
  pose proof (bo_disk _ _ Hs) as Hdk. pose proof (go_isz G HG). set (raw := inode_at G s i).
  assert (zlen raw = g_isz G) as Hz by (by apply (zlen_inode_at G HG)). assert (Forall is_byte raw) as Hb by (by apply is_byte_inode_at).
  assert (nlinks G s i = fget i_links raw) as Hnl by (unfold nlinks; by rewrite Hu).
  assert (∀ e, match e with IsDir => kind raw = S_IFDIR | TooManyLinks => 32000 ≤ nlinks G s i | Exists => is_Some (m !! name)
    | NameTooLong => ¬ 0 < zlen name < 256 | _ => False end → Q (inl e) s) as Hfail.
  { intros e He. apply HQ. split_and!; try done. by destruct e. }
  unfold link, check_rw. e2_steps. rewrite (bo_rw _ _ Hs). e2_steps. eapply wp_eq; [by apply (read_inode_eq G HG)|]. cbn beta iota. fold raw.
  unfold is_dir. rewrite is_kind_eq by lia. e2_steps. destruct (Z.eqb_spec (kind raw) S_IFDIR) as [Hdir|Hnd]; [e2_steps; by apply Hfail|].
  rewrite !iget_ok by (lia || done). e2_steps. rewrite <- Hnl. destruct (Z.leb_spec 32000 (nlinks G s i)) as [Hmany|Hfew]; [e2_steps; by apply Hfail|]. e2_steps.
  apply (fs_exists G HG s d m); [done|done|]. cbn beta. case_bool_decide as Hex; [e2_steps; by apply Hfail|].
  assert (m !! name = None) as Hnone by (by apply eq_None_not_Some). e2_steps.
  destruct (decide (0 < zlen name < 256)) as [Hlen|Hlen]; cycle 1.
  { eapply wp_eq; [by apply add_entry_long|]. cbn beta iota. by apply Hfail. }
  assert (i ≠ d) as Hid.
  { intros ->. destruct Hd as (raw' & HR & Hk & _). destruct (tree_inodes_Some G s d raw' HR) as (_ & -> & _). done. }
  assert (0 ≤ nlinks G s i) as Hn0 by (rewrite Hnl; apply fget_range; [lia|done|done]).
  apply (fs_add_entry G HG s d m); try done.
  - unfold ft_from_mode, FT_REG, FT_DIR, FT_CHR, FT_BLK, FT_FIFO, FT_SOCK, FT_SYMLINK, FT_UNKNOWN. repeat case_match; lia.
  - intros l s2 D1 D2 D3. cbn beta iota. e2_steps. rewrite chk16_ok by lia. e2_steps. rewrite iset_ok by (lia || done). e2_steps. apply wp_now. cbn beta. e2_steps.
    set (raw1 := fset i_links (nlinks G s i + 1) raw). assert (zlen raw1 = g_isz G) as Hz1 by (unfold raw1; rewrite zlen_fset; [done|lia|done]).
    rewrite iset_ok by (lia || done). e2_steps. set (raw2 := fset i_ctime _ raw1). assert (zlen raw2 = g_isz G) as Hz2 by (unfold raw2; rewrite zlen_fset; [done|lia|done]).
    pose proof (dm_core _ _ _ _ _ D1) as Hfs2. destruct (dm_others _ _ _ _ _ D1 i Hid) as [Hcon Hat]. specialize (Hat Hi). fold raw in Hat.
    assert (body_same raw raw2) as Hbody.
    { apply (body_same_trans _ raw1); apply body_same_fset; [lia|by left|lia|by right]. }
    eapply wp_eq; [apply (write_inode_eq G HG); [apply blocks_ok_ticked, Hfs2|done|done]|].
    set (s3 := put_inode G i raw2 (ticked s2)). assert (counted i (nlinks G s i + 1) s2 s3) as Hct.
    { apply counted_by; try done; [by right|by rewrite (dm_used _ _ _ _ _ D1)|by apply is_byte_fset, is_byte_fset|by rewrite Hat|].
      unfold raw2. rewrite fget_other by (lia || done). apply fget_same; [lia|done|]. change (i_bound i_links) with (2 ^ 16). lia. }
    destruct (relinked s d m i 1 l s2 s3 Hok Hd Hi Hu Hid D1) as (L1 & L2 & L3 & L4 & L5 & L6 & L7); [|done|].
    { intros j. rewrite D2, nrefs_cons. cbn [fst snd]. lia. }
    apply HQ. rewrite D3 in L5. split_and!; try done. apply Hct.
  - intros s2 D1 Hfull. cbn beta iota. apply HQ. destruct (dir_kept s d m s2 Hok Hd D1) as (K1 & K2 & K3). destruct D1 as [_ _ _ _ B5 _ B7 B8].
    split_and!; try done; [|by apply B7|by apply B7]. intros j Hj Huj Hn. apply K3; [done|done|]. apply not_elem_of_cons in Hn as [Hn _]. apply not_elem_of_cons. split; [done|apply not_elem_of_nil].
Qed.
End link.

(** ** The record of an inode that is given back *)

Lemma clear_blocks_eq ks raw :
  128 ≤ zlen raw → Forall (λ k, 0 ≤ k < 15) ks → clear_blocks ks raw = Some (fsets ((λ k, (i_block k, 0)) <$> ks) raw).
Proof.
  intros Hz Hk. revert raw Hz. induction Hk as [|k ks Hk _ IH]; intros raw Hz; [done|]. cbn [clear_blocks]. rewrite iset_ok by done. cbn [mbind option_bind].
  rewrite IH; [done|]. by rewrite zlen_fset.
Qed.

Definition wiped (t : Z) (raw : Inode) : Inode :=
  fsets ([(i_dtime, t); (i_mode, 0)] ++ ((λ k, (i_block k, 0)) <$> seqZ 0 15) ++ [(i_sectors, 0)]) (fset_size 0 raw).

Lemma wiped_ok t raw :
  128 ≤ zlen raw → Forall is_byte raw →
  zlen (wiped t raw) = zlen raw ∧ Forall is_byte (wiped t raw) ∧ kind (wiped t raw) = 0 ∧ fsize (wiped t raw) = 0 ∧
  ∀ k, 0 ≤ k < 15 → iblk (wiped t raw) k = 0.
Proof.
  intros Hz Hb. set (l := [(i_dtime, t); (i_mode, 0)] ++ ((λ k, (i_block k, 0)) <$> seqZ 0 15) ++ [(i_sectors, 0)]).
  assert (Forall field_ok l.*1) as Hf.
  { unfold l. rewrite !fmap_app, <- list_fmap_compose. repeat (apply Forall_app; split); by repeat constructor. }
  assert (zlen (fset_size 0 raw) = zlen raw) as Hz0 by (by apply zlen_fset_size).
  destruct (fsets_ok l (fset_size 0 raw) ltac:(lia) Hf (is_byte_fset_size 0 raw Hb)) as (F1 & F2 & F3). change (fsets l (fset_size 0 raw)) with (wiped t raw) in *.
  assert (∀ l1 f v l2, l = l1 ++ (f, v) :: l2 → f ∉ l2.*1 → fget f (wiped t raw) = v mod i_bound f) as Hget.
  { intros l1 f v l2 El Hn. unfold wiped. fold l. rewrite El in *. apply fsets_get; [lia|done|by apply is_byte_fset_size|done]. }
  assert (fget i_mode (wiped t raw) = 0) as Hm.
  { rewrite (Hget [(i_dtime, t)] i_mode 0 _ eq_refl); [done|]. cbn. set_solver. }
  assert (kind (wiped t raw) = 0) as Hk by (unfold kind; by rewrite Hm).
  split_and!; [lia|done|done| |].
  - unfold fsize. rewrite Hk. change (0 =? S_IFREG) with false. cbn iota. rewrite F3; [|done|cbn; set_solver].
    unfold fset_size. destruct (_ =? _); [rewrite fget_other by (rewrite ?zlen_fset; done)|]; by rewrite fget_same.
  - intros k Hkr. rewrite iblk_fget. assert (k ∈ seqZ 0 15) as Hin by (apply elem_of_seqZ; lia).
    apply list_elem_of_split in Hin as (l1 & l2 & He). pose proof (NoDup_seqZ 0 15) as Hnd. rewrite He in Hnd.
    apply NoDup_app in Hnd as (_ & _ & Hnd). apply NoDup_cons in Hnd as [Hnot _].
    rewrite (Hget ([(i_dtime, t); (i_mode, 0)] ++ ((λ k, (i_block k, 0)) <$> l1)) (i_block k) 0 (((λ k, (i_block k, 0)) <$> l2) ++ [(i_sectors, 0)])); [done| |].
    + unfold l. rewrite He, fmap_app, fmap_cons. by rewrite <- !app_assoc.
    + rewrite fmap_app, <- list_fmap_compose. intros [Hx|Hx]%elem_of_app; [|by apply list_elem_of_singleton in Hx].
      apply list_elem_of_fmap in Hx as (x & [= ->] & Hx). done.
Qed.

Section unlink.
Context (G : Geo) (HG : geo_ok G).
Implicit Types (s : Fs) (R : Inodes).

(** ** [release] *)

(** Every block that belonged to [i] is free: data and indirect blocks. *)
Definition freed (i : Z) s s' : Prop :=
  ∀ raw q, tree_inodes G s i = Some raw → valid G q → node s raw q ≠ 0 → isfree G s' (node s raw q) = true.

(** What remains after inode [i] was given back. *)
Record released (i : Z) s s' : Prop := {
  re_core : fs_core G s';
  re_ents : ∀ j, is_ino G j → dir_ents G s' j = if decide (j = i) then [] else dir_ents G s j;
  re_others : others_same G i s s';
  re_used : ∀ j, is_ino G j → ino_used G s' j = if decide (j = i) then false else ino_used G s j;
  re_free : ∀ x, isfree G s x = true → isfree G s' x = true;
  re_gone : freed i s s';
}.

Lemma wipe_commit s s1 i raw t :
  fs_core G s → is_ino G i → ino_used G s i = true → blocks_ok G s1 → zlen raw = g_isz G → Forall is_byte raw →
  trees_ok G s1 (upd (tree_inodes G s) i (wiped t raw)) → differ_in (λ x, is_bb G x ∨ ¬ is_meta G x) s s1 → inode_side s1 = inode_side s →
  (∀ j rawj pos, j ≠ i → tree_inodes G s j = Some rawj → 0 ≤ pos → fbyte G s1 rawj pos = fbyte G s rawj pos) →
  let s2 := put_inode G i (wiped t raw) (ticked s1) in
  inode_moved G i (wiped t raw) s s2 ∧ ino_used G s2 i = true ∧ dir_ents G s2 i = [] ∧ ∀ x, isfree G s2 x = isfree G s1 x.
Proof using HG.
  intros Hfs Hi Hu Hs1 Hz Hb Ht Hdf Hside Hoth s2. pose proof (fs_files _ _ Hfs) as Hf. pose proof (go_isz G HG).
  pose proof (bo_disk _ _ (fo_blocks _ _ Hf)) as Hd. pose proof (bo_disk _ _ Hs1) as Hd1. pose proof (blocks_ok_ticked G s1 Hs1) as Hst.
  destruct (wiped_ok t raw ltac:(lia) Hb) as (W1 & W2 & W3 & W4 & W5). set (w := wiped t raw) in *.
  pose proof (differ_inodes G HG s s1 Hd Hd1 Hdf) as Hino.
  assert (has_tree w = true) as Htree by (unfold has_tree; by rewrite W3).
  assert (committed G i w s (ticked s1) s2) as Hc.
  { apply (commit G HG s i (ticked s1) w); try done.
    - apply trees_ok_ticked. eapply trees_ok_ext; [|exact Ht]. intros j. unfold set_tree, upd. by rewrite Htree.
    - lia.
    - change (ino_used G (ticked s1) i) with (ino_used G s1 i). by rewrite (proj2 (Hino i Hi)).
    - intros j _ Hj. apply (Hino j Hj).
    - intros j rawj pos Hj HR Hp. rewrite (fbyte_dev G s1 (ticked s1)) by done. by apply (Hoth j). }
  destruct (core_inode G HG s (ticked s1) s2 i w Hfs Hi) as (M1 & M2 & M3); try done.
  - apply inodes_ok_ticked, (inodes_ok_side G HG s s1); try done; [apply Hfs|by apply (differ_maps G HG)].
  - intros j Hj _. apply (Hino j Hj).
  - split_and!; [done| | |].
    + rewrite M2. change (ino_used G (ticked s1) i) with (ino_used G s1 i). by rewrite (proj2 (Hino i Hi)).
    + by rewrite M3, Htree, W3.
    + apply (cm_free _ _ _ _ _ _ Hc).
Qed.

Lemma released_by i w s s1 s2 s3 :
  fs_core G s → is_ino G i → inode_moved G i w s s2 → dir_ents G s2 i = [] → (∀ x, isfree G s2 x = isfree G s1 x) → ino_set G i false s2 s3 →
  (∀ x, isfree G s x = true → isfree G s1 x = true) →
  (∀ raw q, tree_inodes G s i = Some raw → valid G q → node s raw q ≠ 0 → isfree G s1 (node s raw q) = true) → released i s s3.
Proof using HG.
  intros Hfs Hi [A1 A2 A3 A4 A5 A6] He Hfr Hset Hfree Hgone. destruct (core_freed G HG s2 s3 i A1 Hi Hset) as (C1 & C2 & C3 & C4 & C5).
  split; [done| | | | |].
  - intros j Hj. destruct (decide (j = i)) as [->|Hne]; [done|]. by rewrite C5, A3.
  - intros j Hj. destruct (C3 j Hj) as [-> H1], (A6 j Hj) as [-> H2]. split; [done|]. intros Hij. by rewrite H1, H2.
  - intros j Hj. rewrite (is_used _ _ _ _ _ Hset j Hj). destruct (decide (j = i)); [done|by apply A5].
  - intros x Hx. rewrite (is_free _ _ _ _ _ Hset), Hfr. by apply Hfree.
  - intros raw q HR Hq Hn. rewrite (is_free _ _ _ _ _ Hset), Hfr. by apply Hgone.
Qed.

Lemma fast_eq raw : 128 ≤ zlen raw → is_fast_symlink raw = Some ((kind raw =? S_IFLNK) && (fget i_sectors raw =? 0)).
Proof. intros Hz. unfold is_fast_symlink, is_symlink. rewrite is_kind_eq by done. cbn. destruct (_ =? _); [|done]. by rewrite iget_ok. Qed.

Lemma special_eq raw : 128 ≤ zlen raw → is_special raw = Some (is_special_kind (kind raw)).
Proof. intros Hz. unfold is_special. by rewrite iget_ok. Qed.

(** The fields are wiped in the order of the code. *)
Lemma wp_wipe i (dir : bool) raw s Q :
  128 ≤ zlen raw →
  wp (write_inode i (wiped (clock s (readings s)) raw))
    (λ r s', match r with inl e => Q (inl e) s' | inr _ => wp (free_inode i dir) Q s' end) (ticked s) →
  wp (inode ← need (set_size 0 raw); t ← now; inode ← need (iset i_dtime t inode); inode ← need (iset i_mode 0 inode);
      inode ← need (clear_blocks (seqZ 0 15) inode); inode ← need (iset i_sectors 0 inode); _ ←? write_inode i inode; free_inode i dir) Q s.
Proof.
  intros Hz HQ. assert (∀ f v r, 128 ≤ zlen r → field_ok f → 128 ≤ zlen (fset f v r)) as K by (intros; by rewrite zlen_fset).
  assert (128 ≤ zlen (fset_size 0 raw)) as Hz0 by (by rewrite zlen_fset_size).
  e2_steps. rewrite set_size_eq by done. e2_steps. apply wp_now. cbn beta. e2_steps. rewrite iset_ok by done. e2_steps. rewrite iset_ok by (by repeat apply K). e2_steps.
  set (r2 := fset i_mode 0 _). assert (128 ≤ zlen r2) as Hz2 by (by repeat apply K).
  rewrite clear_blocks_eq; [|done|apply Forall_forall; intros k Hk%elem_of_seqZ; lia]. e2_steps.
  rewrite iset_ok; [|by unfold r2; cbn; repeat apply K|done]. e2_steps. exact HQ.
Qed.

Lemma wp_release_inode s i (dir : bool) Q :
  fs_core G s → is_ino G i → ino_used G s i = true → g_first_ino G ≤ i →
  (∀ s', released i s s' → Q (inr tt) s') → wp (release i dir) Q s.
Proof using HG.
  intros Hfs Hi Hu Hfirst HQ. pose proof (fs_files _ _ Hfs) as Hf. pose proof (fo_blocks _ _ Hf) as Hs. pose proof (bo_disk _ _ Hs) as Hdk.
  pose proof (go_isz G HG). set (raw := inode_at G s i).
  assert (zlen raw = g_isz G) as Hz by (by apply (zlen_inode_at G HG)). assert (Forall is_byte raw) as Hb by (by apply is_byte_inode_at).
  assert (tree_inodes G s i = if has_tree raw then Some raw else None) as HRi by (unfold tree_inodes; by rewrite (proj2 (is_inob_true G i) Hi), Hu).
  assert (∀ s1 raw1 t, blocks_ok G s1 → zlen raw1 = g_isz G → Forall is_byte raw1 → trees_ok G s1 (upd (tree_inodes G s) i (wiped t raw1)) →
    differ_in (λ x, is_bb G x ∨ ¬ is_meta G x) s s1 → inode_side s1 = inode_side s →
    (∀ j rawj pos, j ≠ i → tree_inodes G s j = Some rawj → 0 ≤ pos → fbyte G s1 rawj pos = fbyte G s rawj pos) →
    (∀ x, isfree G s x = true → isfree G s1 x = true) →
    (∀ raw q, tree_inodes G s i = Some raw → valid G q → node s raw q ≠ 0 → isfree G s1 (node s raw q) = true) →
    wp (write_inode i (wiped t raw1)) (λ r s', match r with inl e => Q (inl e) s' | inr _ => wp (free_inode i dir) Q s' end) (ticked s1)) as Hend.
  { intros s1 raw1 t Hs1 Hz1 Hb1 Ht1 Hdf Hside Hoth Hfree Hgone. destruct (wiped_ok t raw1 ltac:(lia) Hb1) as (W1 & _).
    destruct (wipe_commit s s1 i raw1 t) as (M1 & M2 & M3 & M4); try done. e2_steps.
    eapply wp_eq; [apply (write_inode_eq G HG); [by apply blocks_ok_ticked|done|lia]|]. cbn beta iota. set (s2 := put_inode G i _ _) in *.
    pose proof (im_core _ _ _ _ _ M1) as Hc2. apply (wp_free_inode G HG s2 i); [apply Hc2|apply Hc2|done|done|done|].
    intros s3 Hset. apply HQ. by apply (released_by i (wiped t raw1) s s1 s2 s3). }
  unfold release. e2_steps. eapply wp_eq; [by apply (read_inode_eq G HG)|]. cbn beta iota. fold raw. e2_steps. rewrite fast_eq by lia. e2_steps. rewrite special_eq by lia. e2_steps.
  assert ((kind raw =? S_IFLNK) && (fget i_sectors raw =? 0) || is_special_kind (kind raw) = negb (has_tree raw)) as ->.
  { unfold has_tree. by rewrite negb_andb, !negb_involutive. }
  destruct (has_tree raw) eqn:Etr; cbn [negb].
  - ie_steps. apply (wp_free_from G HG 0 (tree_inodes G s) i s raw); [done|apply (fo_trees _ _ Hf)|done|done|]. intros s1 raw1 H1 H0. specialize (H0 eq_refl).
    pose proof (trimmed_edited G HG (tree_inodes G s) i 0 s raw s1 raw1 Hs (fo_trees _ _ Hf) HRi ltac:(lia) H1) as H2.
    destruct (to_raw _ _ _ (tr_trees _ _ _ _ _ _ _ _ H1) i raw1 (upd_same _ _ _)) as [Hz1 Hb1]. cbn beta iota. apply wp_ok. cbn beta iota. cbn [fst snd]. apply wp_wipe; [lia|].
    destruct (wiped_ok (clock s1 (readings s1)) raw1 ltac:(lia) Hb1) as (W1 & W2 & _ & _ & W5).
    apply Hend; try done; [apply H1| |apply H1|apply H1|apply H2|apply H1|].
    + apply (trees_fields G s1 (tree_inodes G s) i raw1); [apply H1|lia|done|]. intros k Hk. rewrite W5 by done. symmetry.
      apply (H0 (k, [])). split; [done|]. cbn. split; [lia|constructor].
    + intros raw' q HR. rewrite HRi in HR. injection HR as <-. intros Hq Hn. apply (tr_gone _ _ _ _ _ _ _ _ H1 q Hq Hn). by apply H0.
  - apply wp_ok. cbn beta iota. apply wp_wipe; [lia|]. destruct (wiped_ok (clock s (readings s)) raw ltac:(lia) Hb) as (W1 & W2 & _ & _ & W5). apply Hend; try done.
    + apply trees_new; [apply (fo_trees _ _ Hf)|lia|done|done].
    + intros raw' q HR. by rewrite HRi in HR.
Qed.

Lemma wp_evict s i Q :
  fs_core G s → is_ino G i → ino_used G s i = true → g_first_ino G ≤ i →
  (if (0 <? fget i_links (inode_at G s i)) || (fget i_mode (inode_at G s i) =? 0) then Q (inr tt) s else ∀ s', released i s s' → Q (inr tt) s') →
  wp (evict i) Q s.
Proof using HG.
  intros Hfs Hi Hu Hfirst HQ. pose proof (bo_disk _ _ (fo_blocks _ _ (fs_files _ _ Hfs))) as Hdk. pose proof (go_isz G HG).
  assert (128 ≤ zlen (inode_at G s i)) as Hz by (rewrite (zlen_inode_at G HG) by done; lia).
  unfold evict. e2_steps. eapply wp_eq; [by apply (read_inode_eq G HG)|]. cbn beta iota. rewrite !iget_ok by done. e2_steps.
  destruct (_ || _); [by e2_steps|]. unfold is_dir. rewrite is_kind_eq by done. e2_steps. by apply wp_release_inode.
Qed.

(** The blocks that are given back are those the file had before its name went. *)
Lemma freed_through s d l s2 i n s3 s4 :
  dir_moved G d l s s2 → i ≠ d → is_ino G i → counted G i n s2 s3 → released i s3 s4 → freed i s s4.
Proof.
  intros D1 Hid Hi Hct HR raw q HRi Hq Hn. destruct (tree_inodes_Some G s i raw HRi) as (_ & Hraw & _).
  destruct (dm_others _ _ _ _ _ D1 i Hid) as [Hc2 Hat]. specialize (Hat Hi).
  assert (tree_inodes G s2 i = Some raw) as HR2.
  { unfold contents in Hc2. rewrite HRi in Hc2. destruct (tree_inodes G s2 i) as [r2|] eqn:E; [|done]. destruct (tree_inodes_Some G s2 i r2 E) as (_ & -> & _). congruence. }
  pose proof (ct_contents _ _ _ _ _ Hct) as Hc3. unfold contents in Hc3. rewrite HR2 in Hc3. destruct (tree_inodes G s3 i) as [r3|] eqn:E3; [|done].
  destruct (tree_inodes_Some G s3 i r3 E3) as (_ & Hr3 & _). destruct (body_same_facts _ _ (ct_body _ _ _ _ _ Hct)) as (_ & _ & _ & Hib).
  assert (node s3 r3 q = node s raw q) as He.
  { transitivity (node s3 raw q); [|by rewrite (ct_nodes _ _ _ _ _ Hct), (dm_nodes _ _ _ _ _ D1 i)]. destruct q as [sl q].
    apply node_iblk. rewrite Hr3, Hraw, <- Hat. apply Hib, Hq. }
  rewrite <- He. apply (re_gone _ _ _ HR); [done|done|by rewrite He].
Qed.

(** ** [unlink] *)

(** What [unlink] promises when it takes a name of inode [i]: the inode goes
    with its last name unless it is in use. *)
Definition unlink_post s (d : Z) (m : Dir) (name : list Z) (in_use : bool) (r : Error + Z) s' : Prop :=
  match r with
  | inl e => s' = s ∧
      match e with
      | NotFound => m !! name = None
      | IsDir => ∃ i t, m !! name = Some (i, t) ∧ kind (inode_at G s i) = S_IFDIR
      | _ => False
      end
  | inr i => ∃ t, m !! name = Some (i, t) ∧
      fs_ok G s' ∧ kept G [d; i] s s' ∧ (∀ j, is_ino G j → j ≠ i → ino_used G s' j = ino_used G s j) ∧
      same_id (inode_at G s d) (inode_at G s' d) ∧ has_dir G s' d (delete name m) ∧
      if (nlinks G s i =? 1) && negb in_use && negb (fget i_mode (inode_at G s i) =? 0)
      then ino_used G s' i = false ∧ freed i s s'
      else ino_used G s' i = true ∧ contents G s' i = contents G s i ∧ body_same (inode_at G s i) (inode_at G s' i) ∧
           nlinks G s' i = nlinks G s i + -1
  end.

(** Giving back an inode without names that is no directory keeps the counts. *)
Lemma release_links s i s' : fs_ok G s → is_ino G i → dir_ents G s i = [] → refs G s i = 0 → released i s s' → fs_ok G s'.
Proof.
  intros [Hfs Hlinks] Hi He Hr [R1 R2 R3 R4 R5 R6]. split; [done|]. intros j Hj. rewrite (refs_same G s s').
  - unfold nlinks. rewrite R4 by done. destruct (decide (j = i)) as [->|Hne]; [done|]. destruct (R3 j Hne) as [_ ->]; [|done]. by apply Hlinks.
  - intros k Hk. rewrite R2 by done. destruct (decide (k = i)) as [->|]; done.
Qed.

Lemma wp_unlink_name s d m name (in_use : bool) Q :
  fs_ok G s → has_dir G s d m → g_bs G < 65536 → (∀ i t, m !! name = Some (i, t) → g_first_ino G ≤ i) →
  (∀ r s', unlink_post s d m name in_use r s' → Q r s') → wp (unlink d name in_use) Q s.
Proof using HG.
  intros Hok Hd Hbs Hfirst HQ. pose proof Hok as [Hfs Hlinks]. pose proof (fs_files _ _ Hfs) as Hf. pose proof (fo_blocks _ _ Hf) as Hs.
  pose proof (bo_disk _ _ Hs) as Hdk. pose proof (go_isz G HG).
  unfold unlink, check_rw. e2_steps. rewrite (bo_rw _ _ Hs). e2_steps. apply (fs_lookup G HG s d m); [done|done|].
  destruct (m !! name) as [[i t]|] eqn:Hm; cycle 1. { cbn beta iota. apply HQ. done. }
  cbn beta iota. e2_steps. destruct (named_used G HG s d m name i t Hok Hd Hm) as (Hi & Hu & Hpos). set (raw := inode_at G s i) in *.
  assert (zlen raw = g_isz G) as Hz by (by apply (zlen_inode_at G HG)). assert (Forall is_byte raw) as Hb by (by apply is_byte_inode_at).
  assert (nlinks G s i = fget i_links raw) as Hnl by (unfold nlinks; by rewrite Hu).
  eapply wp_eq; [by apply (read_inode_eq G HG)|]. cbn beta iota. fold raw. unfold is_dir. rewrite is_kind_eq by lia. e2_steps.
  destruct (Z.eqb_spec (kind raw) S_IFDIR) as [Hdir|Hnd]. { e2_steps. apply HQ. split; [done|]. by exists i, t. }
  assert (i ≠ d) as Hid.
  { intros ->. destruct Hd as (raw' & HR & Hk & _). destruct (tree_inodes_Some G s d raw' HR) as (_ & -> & _). done. }
  e2_steps. apply (fs_remove_entry G HG s d m name i t); [done|done|done|done|]. intros l s2 D1 D2 D3. cbn beta iota. e2_steps.
  rewrite iget_ok by (lia || done). e2_steps. assert (sat_sub (fget i_links raw) 1 = nlinks G s i - 1) as -> by (unfold sat_sub; lia).
  rewrite iset_ok by (lia || done). e2_steps. apply wp_now. cbn beta. e2_steps.
  set (raw1 := fset i_links (nlinks G s i - 1) raw). assert (zlen raw1 = g_isz G) as Hz1 by (unfold raw1; rewrite zlen_fset; [done|lia|done]).
  rewrite iset_ok by (lia || done). e2_steps. set (raw2 := fset i_ctime _ raw1). assert (zlen raw2 = g_isz G) as Hz2 by (unfold raw2; rewrite zlen_fset; [done|lia|done]).
  pose proof (dm_core _ _ _ _ _ D1) as Hfs2. destruct (dm_others _ _ _ _ _ D1 i Hid) as [Hcon Hat]. specialize (Hat Hi). fold raw in Hat.
  assert (body_same raw raw2) as Hbody. { apply (body_same_trans _ raw1); apply body_same_fset; [lia|by left|lia|by right]. }
  eapply wp_eq; [apply (write_inode_eq G HG); [apply blocks_ok_ticked, Hfs2|done|done]|]. cbn beta iota.
  set (s3 := put_inode G i raw2 (ticked s2)) in *.
  assert (counted G i (nlinks G s i + -1) s2 s3) as Hct.
  { apply (counted_by G HG); try done; [by right|by rewrite (dm_used _ _ _ _ _ D1)|by apply is_byte_fset, is_byte_fset|by rewrite Hat|].
    pose proof (fget_range i_links raw ltac:(lia) I Hb) as Hr. change (i_bound i_links) with (2 ^ 16) in Hr.
    unfold raw2. rewrite fget_other by (lia || done). apply fget_same; [lia|done|]. change (i_bound i_links) with (2 ^ 16). lia. }
  destruct (relinked G HG s d m i (-1) l s2 s3 Hok Hd Hi Hu Hid D1) as (L1 & L2 & L3 & L4 & L5 & L6 & L7); [|done|].
  { intros j. rewrite D2, nrefs_cons. cbn [fst snd]. destruct (_ =? _); lia. }
  pose proof (ct_used _ _ _ _ _ Hct) as M2. pose proof (ct_links _ _ _ _ _ Hct) as L8. fold raw in L7.
  rewrite D3 in L5. e2_steps.
  assert ((nlinks G s i =? 1) && negb in_use && negb (fget i_mode raw =? 0) = false → unlink_post s d m name in_use (inr i) s3) as Hstay.
  { intros E. exists t. fold raw. rewrite E. split_and!; try done. by intros j Hj _; apply L3. }
  assert (fget i_links (inode_at G s3 i) = nlinks G s i + -1) as Hcount by (rewrite <- L8; unfold nlinks; by rewrite M2).
  destruct (Z.eqb_spec (nlinks G s i) 1) as [H1|Hn1]; cycle 1.
  { rewrite (proj2 (Z.eqb_neq _ 0)) by lia. cbn [andb]. e2_steps. apply HQ. by apply Hstay. }
  rewrite (proj2 (Z.eqb_eq _ 0)) by lia. cbn [andb] in *. destruct in_use; cbn [negb]. { e2_steps. apply HQ. by apply Hstay. }
  assert (fget i_mode (inode_at G s3 i) = fget i_mode raw) as Hmode by (by apply L7).
  apply wp_evict; [apply L1|done|done|by eapply Hfirst|]. rewrite Hcount, Hmode. rewrite (proj2 (Z.ltb_ge _ _)) by lia. cbn [orb].
  destruct (Z.eqb_spec (fget i_mode raw) 0) as [H0|H0]. { cbn beta iota. e2_steps. apply HQ. by apply Hstay. }
  intros s4 R. cbn beta iota. e2_steps. apply HQ. exists t. fold raw. rewrite H1. rewrite (proj2 (Z.eqb_neq _ 0)) by done. cbn [andb negb Z.eqb].
  assert (dir_ents G s3 i = []) as He3.
  { unfold dir_ents. destruct (tree_inodes G s3 i) as [raw3|] eqn:E; [|done]. destruct (tree_inodes_Some G s3 i raw3 E) as (_ & -> & _).
    destruct (body_same_facts _ _ L7) as (-> & _). by rewrite (proj2 (Z.eqb_neq _ _)). }
  assert (fs_ok G s4) as Hok4. { apply (release_links s3 i); try done. rewrite (proj2 L1 i Hi). lia. }
  assert (∀ j, is_ino G j → j ≠ i → ino_used G s4 j = ino_used G s j ∧ contents G s4 j = contents G s3 j ∧ inode_at G s4 j = inode_at G s3 j) as Hoth.
  { intros j Hj Hne. destruct (re_others _ _ _ R j Hne) as [X1 X2]. rewrite (re_used _ _ _ R j Hj), decide_False, L3 by done. auto. }
  destruct (dir_used G s d m Hd) as [Hdi Hud]. destruct (Hoth d Hdi ltac:(done)) as (Z1 & Z2 & Z3).
  split_and!; try done.
  - intros j Hj Huj Hn. destruct (L2 j Hj Huj Hn) as (Y1 & Y2 & Y3). apply not_elem_of_cons in Hn as [_ Hn]. apply not_elem_of_cons in Hn as [Hn _].
    destruct (Hoth j Hj Hn) as (X1 & X2 & X3). rewrite X1, X2, X3. done.
  - intros j Hj Hne. by apply Hoth.
  - by rewrite Z3.
  - apply (has_dir_same G s3); [done|done|by rewrite Z1, L3|done|by rewrite (re_ents _ _ _ R), decide_False].
  - cbn. split; [by rewrite (re_used _ _ _ R), decide_True|]. by apply (freed_through s d l s2 i (nlinks G s i + -1) s3).
Qed.
End unlink.
