(* ===== verification/Ext2Mkdir.v ===== *)
(** * The ext2 file system: [mkdir], [readdir] and [rmdir]

    A new directory with its [.] and [..], named in its parent; the entries of a
    directory in their order; an empty directory taken away.  Link counts stay
    exact. *)

From S2P Require Import Prelude Text Bytes Ext2 Ext2Fs Ext2Names Ext2Disk Ext2Alloc Ext2Blocks Ext2Inode Ext2Tree Ext2Map Ext2File Ext2Spec Ext2Free Ext2Trunc Ext2Dirent Ext2Dir Ext2Inodes Ext2Links Ext2Create Ext2Link.

(** ** The block of a new directory *)

Definition dot_recs (bs i d : Z) : list Rec := [mkRec i 12 DOT FT_DIR; mkRec d (bs - 12) DOTDOT FT_DIR].
Definition dot_ents (i d : Z) : list Entry := [(DOT, (i, FT_DIR)); (DOTDOT, (d, FT_DIR))].

Lemma dots_block bs i d :
  1024 ≤ bs < 65536 → bs mod 4 = 0 → 0 < i < U32 → 0 < d < U32 →
  ∃ b0 b, write_entry (zeros bs) 0 i 12 DOT FT_DIR = Some b0 ∧ write_entry b0 12 d (bs - 12) DOTDOT FT_DIR = Some b ∧
    zlen b = bs ∧ Forall is_byte b ∧ tiled b 0 (dot_recs bs i d) bs.
Proof.
  intros Hbs Hmod Hi Hd. assert (zlen (zeros bs) = bs) as Hz by (rewrite zlen_zeros_max; lia).
  set (b0 := paste (zeros bs) 0 (header i 12 DOT FT_DIR)). set (b := paste b0 12 (header d (bs - 12) DOTDOT FT_DIR)).
  assert (zlen b0 = bs) as Hz0 by (unfold b0; rewrite zlen_paste; rewrite ?zlen_header; change (zlen DOT) with 1; lia).
  assert (zlen b = bs) as Hzb by (unfold b; rewrite zlen_paste; rewrite ?zlen_header; change (zlen DOTDOT) with 2; lia).
  exists b0, b. split_and!; [apply write_entry_eq; change (zlen DOT) with 1; lia|apply write_entry_eq; change (zlen DOTDOT) with 2; lia|done| |].
  - assert (∀ n l name t, Forall is_byte name → Forall is_byte (header n l name t)) as Hhb.
    { intros. unfold header. repeat (apply Forall_app; split); try apply le_bytes_byte; done. }
    apply is_byte_paste; [apply is_byte_paste; [apply is_byte_zeros|]|]; apply Hhb; repeat constructor; lia.
  - cbn [dot_recs tiled r_len]. split_and!; [| |lia].
    + apply (rec_at_ext b0); [lia|cbn [r_len]; lia|lia| |].
      * intros k Hk. cbn [r_len] in Hk. unfold b. rewrite byte_paste by (rewrite ?zlen_header; change (zlen DOTDOT) with 2; lia). rewrite (proj2 (Z.leb_gt 12 k)) by lia. done.
      * apply (rec_at_header (zeros bs) 0 (mkRec i 12 DOT FT_DIR)); [lia|cbn [r_len]; lia|].
        split_and!; cbn [r_len r_name r_ino r_type]; change (zlen DOT) with 1; unfold FT_DIR; try lia; done.
    + apply (rec_at_header b0 12 (mkRec d (bs - 12) DOTDOT FT_DIR)); [lia|cbn [r_len]; lia|].
      split_and!; cbn [r_len r_name r_ino r_type]; change (zlen DOTDOT) with 2; unfold FT_DIR; try lia. Z.to_euclidean_division_equations; lia.
Qed.

Lemma dots_dents bs i d : 0 < i → 0 < d → dents [dot_recs bs i d] = dot_ents i d.
Proof.
  intros Hi Hd. unfold dents, entries, dot_recs, dot_ents. cbn. unfold live. cbn. by rewrite !(proj2 (Z.eqb_neq _ 0)) by lia.
Qed.

Lemma dir_mode mode : 0 ≤ Z.lor S_IFDIR (Z.land mode 0xFFF) < 2 ^ 16 ∧ Z.land (Z.lor S_IFDIR (Z.land mode 0xFFF)) S_IFMT = S_IFDIR.
Proof.
  change 0xFFF with (Z.ones 12). rewrite Z.land_ones by lia. pose proof (Z.mod_pos_bound mode (2 ^ 12) ltac:(lia)) as Hm.
  change S_IFDIR with (Z.shiftl 4 12) at 1 2 3. split; [rewrite lor_shiftl_add by lia; lia|].
  rewrite Z.land_lor_distr_l. change S_IFMT with (Z.shiftl 15 12) at 2. replace (Z.land (mode mod 2 ^ 12) (Z.shiftl 15 12)) with 0; [done|].
  symmetry. apply Z.bits_inj'. intros n Hn. rewrite Z.land_spec, Z.bits_0. destruct (decide (n < 12)).
  - by rewrite Z.shiftl_spec_low, andb_false_r.
  - by rewrite Z.mod_pow2_bits_high by lia.
Qed.

Section mkdir.
Context (G : Geo) (HG : geo_ok G).
Implicit Types (s : Fs) (R : Inodes).

(** ** The new directory *)

(** After the allocation of the inode and of its first block. *)
Lemma grow_commit s s1 i d raw0 s2 raw2 b mode u g :
  fs_core G s → is_ino G i → is_ino G d → ino_used G s i = false → ino_set G i true s s1 →
  new_file raw0 (g_isz G) mode u g 2 → (∀ k, 0 ≤ k < 15 → iblk raw0 k = 0) → kind raw0 = S_IFDIR → i ≠ d →
  mapping G (upd (tree_inodes G s) i raw0) i (0, []) 4 (ticked s1) raw0 s2 raw2 → node s2 raw2 (0, []) ≠ 0 →
  zlen b = g_bs G → Forall is_byte b → tiled b 0 (dot_recs (g_bs G) i d) (g_bs G) →
  let s3 := put_block (node s2 raw2 (0, [])) b s2 in let raw3 := fset_size (g_bs G) raw2 in let s4 := put_inode G i raw3 s3 in
  disk_ok G s3 ∧ zlen raw3 = g_isz G ∧ keeps raw0 raw2 ∧ inode_moved G i raw3 s s4 ∧ ino_used G s4 i = true ∧
  dir_ents G s4 i = dot_ents i d ∧ has_dir G s4 i (list_to_map (dot_ents i d)).
Proof using HG.
  intros Hfs Hi Hid Hu Hset Hnf H0 Hk Hne Hm Hn Hzb Hbb Htile s3 raw3 s4. pose proof (fs_files _ _ Hfs) as Hf.
  pose proof (go_isz G HG). pose proof (go_bs G HG). pose proof (bs_pos G HG). pose proof (is_blocks _ _ _ _ _ Hset) as Hs1. pose proof (blocks_ok_ticked G s1 Hs1) as Hst.
  destruct (unused_none G s i Hu) as [HRi _]. pose proof (nf_len _ _ _ _ _ _ Hnf) as Hz0. pose proof (nf_bytes _ _ _ _ _ _ Hnf) as Hb0.
  destruct (ino_set_frame G HG i true s s1 _ (fo_blocks _ _ Hf) (fo_trees _ _ Hf) Hset) as (F1 & F2 & F3).
  set (R := upd (tree_inodes G s) i raw0) in *.
  assert (trees_ok G (ticked s1) R) as HtR by (apply trees_ok_ticked, trees_new; done).
  destruct (fill_block G HG R i 4 (ticked s1) raw0 s2 raw2 0 (0, []) b Hst HtR (upd_same _ _ _) ltac:(lia) eq_refl Hm Hn Hzb Hbb) as (B1 & B2 & B3 & B4 & B5 & B6 & B7 & _).
  fold s3 in B1, B2, B3, B4, B5, B6, B7. destruct (to_raw _ _ _ B3 i raw2 (upd_same _ _ _)) as [Hz2 Hb2].
  pose proof (mp_keeps _ _ _ _ _ _ _ _ _ Hm) as Hkeep. assert (fsize raw2 = fsize raw0 ∧ kind raw2 = kind raw0) as [Hsz2 Hk2] by (apply fsize_fget; by apply Hkeep).
  assert (zlen raw3 = g_isz G) as Hz3 by (unfold raw3; rewrite zlen_fset_size; lia). assert (Forall is_byte raw3) as Hb3 by (by apply is_byte_fset_size).
  assert (kind raw3 = S_IFDIR) as Hk3 by (unfold raw3; rewrite kind_fset_size by lia; congruence).
  assert (has_tree raw3 = true) as Htree by (unfold has_tree; by rewrite Hk3).
  assert (fsize raw3 = g_bs G) as Hsz3 by (apply fsize_fset_size; [lia|done|unfold size_bound; rewrite Hk2, Hk; simpl; unfold U32; lia]).
  assert (∀ k, 0 ≤ k < 15 → iblk raw3 k = iblk raw2 k) as Hib by (intros k Hkr; rewrite !iblk_fget; apply fget_fset_size; [lia|done|done|done]).
  pose proof (trees_fields G s3 R i raw2 raw3 B3 Hz3 Hb3 Hib) as Ht3.
  pose proof (differ_inodes G HG (ticked s1) s3 (bo_disk _ _ Hst) (bo_disk _ _ B1) B7) as Hino.
  assert (∀ j, is_ino G j → ino_used G s3 j = if decide (j = i) then true else ino_used G s j) as Hus.
  { intros j Hj. rewrite (proj2 (Hino j Hj)). exact (is_used _ _ _ _ _ Hset j Hj). }
  assert (fdata G s3 raw3 0 (fsize raw3) = b) as Hdata.
  { rewrite Hsz3. apply bytes_ext; rewrite zlen_fdata by lia; [done|]. intros k Hkr. rewrite byte_fdata, Z.add_0_l by lia. rewrite (fbyte_iblk G HG s3 raw2) by (done || lia).
    rewrite B4, Z.div_small, Z.mod_small by lia. by rewrite decide_True. }
  assert (committed G i raw3 s s3 s4) as Hc.
  { apply (commit G HG s i s3 raw3); try done.
    - eapply trees_ok_ext; [|exact Ht3]. intros j. unfold R. rewrite upd_upd. unfold set_tree, upd. by rewrite Htree.
    - rewrite Hus by done. by rewrite decide_True.
    - intros j Hj Hij. rewrite Hus, decide_False, (proj1 (Hino j Hij)) by done. split; [exact (F3 j Hij)|done].
    - intros j rawj pos Hj HRj Hpos. rewrite (B5 j) by (done || (unfold R; by rewrite upd_other)). rewrite (fbyte_dev G s1 (ticked s1)) by done. by apply (F2 j).
    - intros _ Hreg. by rewrite Hk3 in Hreg. }
  pose proof (go_inodes32 G HG). pose proof (go_inodes G HG). assert (0 < i ∧ 0 < d) as [Hi0 Hd0] by (unfold is_ino in *; lia).
  assert (dir_tiles G b [dot_recs (g_bs G) i d]) as Hdt.
  { apply (dir_tiles_snoc G HG [] [] b); [|done|done]. split; [done|]. by intros []. }
  assert (dents [dot_recs (g_bs G) i d] = dot_ents i d) as Hde by (by apply dots_dents).
  destruct (core_inode G HG s s3 s4 i raw3 Hfs Hi B1) as (M1 & M2 & M3); try done.
  - apply (inodes_ok_side G HG (ticked s1)); [apply (bo_disk _ _ Hst)|apply (bo_disk _ _ B1)|apply inodes_ok_ticked, Hset| |done]. apply (differ_maps G HG); [apply (bo_disk _ _ Hst)|apply (bo_disk _ _ B1)|done].
  - intros j Hj Hji. by rewrite Hus, decide_False.
  - intros _ _. rewrite Hdata. exists [dot_recs (g_bs G) i d]. rewrite Hde. split_and!; [done|by repeat constructor; set_solver|].
    intros e He. unfold dot_ents in He. apply elem_of_cons in He as [->|He]; [done|]. by apply list_elem_of_singleton in He as ->.
  - rewrite Htree, Hk3, Hdata, (dir_entries_tiles G HG b _ Hdt), Hde in M3. change (S_IFDIR =? S_IFDIR) with true in M3. cbn iota in M3.
    split_and!; try done; [apply (bo_disk _ _ B1)|by rewrite M2, Hus, decide_True|].
    exists raw3. split_and!; [|done|by rewrite M3]. rewrite (cm_trees _ _ _ _ _ _ Hc). unfold set_tree. by rewrite decide_True, Htree.
Qed.

(** ** No block for it: the inode is given back *)

Lemma grow_undone s s1 i d m raw0 s2 raw2 s3 :
  fs_ok G s → is_ino G i → ino_used G s i = false → ino_set G i true s s1 → has_dir G s d m →
  zlen raw0 = g_isz G → Forall is_byte raw0 → (∀ k, 0 ≤ k < 15 → iblk raw0 k = 0) →
  mapping G (upd (tree_inodes G s) i raw0) i (0, []) 4 (ticked s1) raw0 s2 raw2 → ino_set G i false s2 s3 →
  fs_ok G s3 ∧ kept G [] s s3 ∧ has_dir G s3 d m ∧ (∀ j, is_ino G j → ino_used G s3 j = ino_used G s j ∧ inode_at G s3 j = inode_at G s j).
Proof using HG.
  intros [Hfs Hlinks] Hi Hu Hset Hd Hz0 Hb0 H0 Hm Hset3. pose proof (fs_files _ _ Hfs) as Hf. destruct (dir_used G s d m Hd) as [Hid Hud].
  destruct (unused_none G s i Hu) as [HRi _]. pose proof (is_blocks _ _ _ _ _ Hset) as Hs1. pose proof (blocks_ok_ticked G s1 Hs1) as Hst.
  destruct (ino_set_frame G HG i true s s1 _ (fo_blocks _ _ Hf) (fo_trees _ _ Hf) Hset) as (F1 & F2 & F3).
  set (R := upd (tree_inodes G s) i raw0) in *. pose proof (mp_ok _ _ _ _ _ _ _ _ _ Hm) as Hs2.
  assert (∀ j raw, tree_inodes G s j = Some raw → R j = Some raw ∧ upd R i raw2 j = Some raw ∧ j ≠ i) as Hsub.
  { intros j raw Hj. assert (j ≠ i) by congruence. unfold R. by rewrite !upd_other. }
  assert (trees_ok G s2 (tree_inodes G s)) as Ht2.
  { apply (trees_sub G s2 (upd R i raw2)); [|apply (mp_trees _ _ _ _ _ _ _ _ _ Hm)]. intros j raw Hj. by apply Hsub. }
  assert (trees_ok G (ticked s1) R) as HtR by (apply trees_ok_ticked, trees_new; done).
  assert (valid G (0, [])) as Hv by (split; [cbn; lia|]; cbn; split; [lia|constructor]).
  destruct (ino_set_frame G HG i false s2 s3 _ Hs2 Ht2 Hset3) as (E1 & E2 & E3).
  pose proof (differ_inodes G HG (ticked s1) s2 (bo_disk _ _ Hst) (bo_disk _ _ Hs2) (mp_differ _ _ _ _ _ _ _ _ _ Hm)) as Hino.
  assert (∀ j, is_ino G j → inode_at G s3 j = inode_at G s j ∧ ino_used G s3 j = ino_used G s j) as Hsame.
  { intros j Hj. destruct (Hino j Hj) as [I1 I2]. split; [rewrite E3, I1 by done; exact (F3 j Hj)|].
    rewrite (is_used _ _ _ _ _ Hset3 j Hj), I2. case_decide; [by subst|]. pose proof (is_used _ _ _ _ _ Hset j Hj) as Hj2. rewrite decide_False in Hj2 by done. exact Hj2. }
  destruct (core_frame G HG s s3 Hfs) as (C1 & C2 & C3); [apply Hset3|apply Hset3|done|done| |].
  { intros j raw pos Hj Hp. destruct (Hsub j raw Hj) as (S1 & _ & S3). rewrite (E2 j) by done. etrans; [|by apply (F2 j)].
    rewrite <- (fbyte_dev G s1 (ticked s1)) by done. apply (fbyte_same G HG); [done|]. intros q Hq Hl.
    by apply (mapping_other_leaf G HG R i (0, []) 4 (ticked s1) raw0 s2 raw2 j raw q HtR (upd_same _ _ _)). }
  split_and!.
  - split; [done|]. intros j Hj. rewrite (refs_same G s s3) by done. rewrite (Hlinks j Hj). unfold nlinks. by destruct (Hsame j Hj) as [-> ->].
  - intros j Hj Huj _. destruct (Hsame j Hj) as [-> ->]. by rewrite C3.
  - apply (has_dir_same G s); try done; by apply Hsame.
  - intros j Hj. by destruct (Hsame j Hj).
Qed.

(** ** [mkdir] *)

(** What [mkdir] promises.  When the parent cannot take the name, the new
    inode stays allocated without one. *)
Definition mkdir_post s (d : Z) (m : Dir) (name : list Z) (mode u g : Z) (r : Error + Z) s' : Prop :=
  kept G [d] s s' ∧
  match r with
  | inr i => is_ino G i ∧ ino_used G s i = false ∧ m !! name = None ∧ fs_ok G s' ∧
      has_dir G s' d (<[name := (i, FT_DIR)]> m) ∧ has_dir G s' i (list_to_map (dot_ents i d)) ∧
      (∀ j, is_ino G j → ino_used G s' j = bool_decide (j = i) || ino_used G s j) ∧
      nlinks G s' d = nlinks G s d + 1 ∧ nlinks G s' i = 2 ∧
      fget i_mode (inode_at G s' i) = Z.lor S_IFDIR (Z.land mode 0xFFF) ∧ uid (inode_at G s' i) = Some u ∧ gid (inode_at G s' i) = Some g
  | inl e => has_dir G s' d m ∧
      match e with
      | NameTooLong => 255 < zlen name ∧ s' = s
      | Exists => is_Some (m !! name) ∧ s' = s
      | TooManyLinks => 32000 ≤ nlinks G s d ∧ s' = s
      | NoSpace =>
          (fs_ok G s' ∧ (∀ j, is_ino G j → ino_used G s' j = ino_used G s j) ∧ (no_inode G s ∨ full G s'))
          ∨ (full G s' ∧ fs_core G s' ∧ ∃ i, is_ino G i ∧ ino_used G s i = false ∧ ino_used G s' i = true ∧ refs G s' i = 1 ∧ nlinks G s' i = 2)
      | _ => False
      end
  end.

(** The state after the new directory was written, [s4], and what follows. *)
Section made.
Context (s : Fs) (d : Z) (m : Dir) (i : Z) (raw3 : Inode) (s4 : Fs).
Context (Hok : fs_ok G s) (Hd : has_dir G s d m) (Hi : is_ino G i) (Hu : ino_used G s i = false) (Hl3 : fget i_links raw3 = 2).
Context (M1 : inode_moved G i raw3 s s4) (M2 : ino_used G s4 i = true) (M3 : dir_ents G s4 i = dot_ents i d).

Lemma made_refs j : is_ino G j → refs G s4 j = nlinks G s j + (if i =? j then 1 else 0) + (if d =? j then 1 else 0).
Proof using Hok Hi Hu M1 M3.
  intros Hj. rewrite (refs_update G s s4 i j Hi); [|apply M1]. destruct (unused_none G s i Hu) as [_ ->]. rewrite M3.
  rewrite (proj2 Hok j Hj). unfold dot_ents. rewrite !nrefs_cons. cbn [nrefs foldr fst snd]. lia.
Qed.

Lemma made_neq : d ≠ i.
Proof using Hd Hu. destruct (dir_used G s d m Hd) as [_ Hud]. intros He. rewrite He, Hu in Hud. done. Qed.

Lemma made_done l name s5 s6 :
  dir_moved G d l s4 s5 → l ≡ₚ (name, (i, FT_DIR)) :: dir_ents G s4 d → counted G d (nlinks G s d + 1) s5 s6 →
  fs_ok G s6 ∧ kept G [d] s s6 ∧ has_dir G s6 d (list_to_map l) ∧ (∀ j, is_ino G j → ino_used G s6 j = bool_decide (j = i) || ino_used G s j) ∧
  nlinks G s6 d = nlinks G s d + 1 ∧ nlinks G s6 i = 2 ∧ inode_at G s6 i = raw3 ∧ (∀ mi, has_dir G s4 i mi → has_dir G s6 i mi).
Proof using HG Hok Hd Hi Hu Hl3 M1 M2 M3.
  pose proof made_neq as Hdi. destruct (dir_used G s d m Hd) as [Hid Hud]. pose proof M1 as [A1 A2 A3 A4 A5 A6].
  intros [B1 B2 B3 B4 B5 B6 B7 B8 B9] Hl Hct. pose proof Hct as [[C1 C2 C3 C4 C5 C6] Hbody Hn Hu6 He6 Hc6 _].
  assert (∀ j, is_ino G j → ino_used G s6 j = bool_decide (j = i) || ino_used G s j) as Hused.
  { intros j Hj. destruct (decide (j = d)) as [->|Hjd]; [by rewrite bool_decide_eq_false_2, Hud by congruence|]. rewrite C5, B5 by done.
    case_bool_decide as Hji; [by subst|]. by rewrite A5. }
  assert (inode_at G s6 i = raw3) as Hraw. { rewrite (proj2 (C6 i ltac:(done)) Hi), (proj2 (B7 i ltac:(done)) Hi). done. }
  assert (nlinks G s6 i = 2) as Hn2 by (unfold nlinks; by rewrite Hused, bool_decide_eq_true_2, Hraw).
  split_and!; try done.
  - split; [done|]. intros j Hj. rewrite (refs_same G s5 s6); [|intros k Hk; destruct (decide (k = d)) as [->|]; [done|by apply C3]].
    rewrite (refs_update G s4 s5 d j Hid B3), B2, Hl, nrefs_cons, made_refs by done. cbn [fst snd].
    destruct (Z.eqb_spec d j) as [<-|Hjd]; [rewrite (proj2 (Z.eqb_neq i d)) by done; lia|]. destruct (Z.eqb_spec i j) as [<-|Hji].
    + rewrite Hn2. unfold nlinks. rewrite Hu. lia.
    + rewrite C4, B6, A4 by done. lia.
  - intros j Hj Huj Hnot. apply not_elem_of_cons in Hnot as [Hjd _]. assert (j ≠ i) as Hji by congruence.
    destruct (A6 j Hji) as [X1 X2], (B7 j Hjd) as [Y1 Y2], (C6 j Hjd) as [Z1 Z2]. rewrite Hused, Z1, Z2, Y1, Y2, X1, X2 by done. by rewrite Huj, orb_true_r.
  - by apply (counted_dir G d (nlinks G s d + 1) s5).
  - intros mi Hmi. apply (has_dir_same G s4); [done|done| | |].
    + rewrite Hused by done. by rewrite bool_decide_eq_true_2, M2.
    + by rewrite Hraw, A2.
    + by rewrite C3, B3.
Qed.

Lemma made_leaks s5 :
  dir_moved G d (dir_ents G s4 d) s4 s5 → full G s5 →
  kept G [d] s s5 ∧ has_dir G s5 d m ∧ fs_core G s5 ∧ ino_used G s5 i = true ∧ refs G s5 i = 1 ∧ nlinks G s5 i = 2.
Proof using HG Hok Hd Hi Hu Hl3 M1 M2 M3.
  pose proof made_neq as Hdi. destruct (dir_used G s d m Hd) as [Hid Hud]. pose proof M1 as [A1 A2 A3 A4 A5 A6].
  intros [B1 B2 B3 B4 B5 B6 B7 B8 B9] Hfull. split_and!.
  - intros j Hj Huj Hnot. apply not_elem_of_cons in Hnot as [Hjd _]. assert (j ≠ i) as Hji by congruence.
    destruct (A6 j Hji) as [X1 X2], (B7 j Hjd) as [Y1 Y2]. by rewrite B5, A5, Y1, Y2, X1, X2.
  - rewrite A3 in B4 by done. by rewrite (has_dir_ents G s d m Hd).
  - done.
  - by rewrite B5.
  - rewrite (refs_same G s4 s5), made_refs; [|done|].
    + rewrite Z.eqb_refl. rewrite (proj2 (Z.eqb_neq d i)) by done. unfold nlinks. by rewrite Hu.
    + intros k Hk. destruct (decide (k = d)) as [->|]; [done|by apply B3].
  - rewrite B6 by done. unfold nlinks. by rewrite M2, A2.
Qed.
End made.

Lemma wp_mkdir_tail s d m name mode dm u g i s1 raw0 s2 raw2 Q :
  fs_ok G s → has_dir G s d m → room G s d → g_bs G < 65536 → 0 < zlen name < 256 → Forall is_byte name → m !! name = None → nlinks G s d < 32000 →
  is_ino G i → ino_used G s i = false → ino_set G i true s s1 → dm = Z.lor S_IFDIR (Z.land mode 0xFFF) →
  new_file raw0 (g_isz G) dm u g 2 → (∀ k, 0 ≤ k < 15 → iblk raw0 k = 0) → kind raw0 = S_IFDIR →
  mapping G (upd (tree_inodes G s) i raw0) i (0, []) 4 (ticked s1) raw0 s2 raw2 → node s2 raw2 (0, []) ≠ 0 →
  (∀ r s', mkdir_post s d m name mode u g r s' → Q r s') →
  wp (bsz ← gets bs; b ← need (write_entry (zeros bsz) 0 i 12 DOT FT_DIR); b ← need (write_entry b 12 d (bsz - 12) DOTDOT FT_DIR);
      _ ←? write_block (node s2 raw2 (0, [])) b; inode ← need (set_size bsz raw2); _ ←? write_inode i inode;
      _ ←? add_entry d name i FT_DIR; _ ←? bump_links d one_more; ok i) Q s2.
Proof using HG.
  intros Hok Hd Hroom Hbs Hlen Hnb Hnone Hfew Hi Hu Hset Hdm Hnf Hslots Hk0 Hm Hn HQ. destruct (dir_used G s d m Hd) as [Hid Hud]. pose proof Hok as [Hfs _].
  pose proof (go_bs G HG). pose proof (go_bs_mul G HG) as Hmul. pose proof (go_inodes32 G HG). pose proof (go_inodes G HG). pose proof (go_isz G HG).
  pose proof (mp_ok _ _ _ _ _ _ _ _ _ Hm) as Hs2. pose proof (mp_trees _ _ _ _ _ _ _ _ _ Hm) as Ht2. destruct (to_raw _ _ _ Ht2 i raw2 (upd_same _ _ _)) as [Hz2 Hb2].
  assert (d ≠ i) as Hdi by congruence. e2_steps. geo (bo_disk _ _ Hs2).
  destruct (dots_block (g_bs G) i d) as (b0 & b & -> & W2 & W3 & W4 & W5); [lia|Z.to_euclidean_division_equations; lia|unfold is_ino, U32 in *; lia|unfold is_ino, U32 in *; lia|].
  e2_steps. rewrite W2. e2_steps. assert (valid G (0, [])) as Hv by (split; [cbn; lia|]; cbn; split; [lia|constructor]).
  pose proof (in_file_good G HG s2 _ (to_node _ _ _ Ht2 i raw2 (0, []) (upd_same _ _ _) Hv Hn)) as Hgood.
  eapply wp_eq; [apply (write_block_eq G HG); [apply (bo_disk _ _ Hs2)|done|done]|]. cbn beta iota. e2_steps. rewrite set_size_eq by lia. e2_steps.
  destruct (grow_commit s s1 i d raw0 s2 raw2 b dm u g) as (D3 & Hz3 & Hkeep & M1 & M2 & M3 & M4); try done. set (s3 := put_block _ b s2) in *. set (raw3 := fset_size (g_bs G) raw2) in *.
  eapply wp_eq; [by apply (write_inode_eq G HG)|]. cbn beta iota. set (s4 := put_inode G i raw3 s3) in *. e2_steps.
  assert (∀ f, field_ok f → f ≠ i_size_lo → f ≠ i_size_hi → f ≠ i_sectors → (∀ k, f ≠ i_block k) → fget f raw3 = fget f raw0) as Hfl.
  { intros f Hf ? ? ? ?. unfold raw3. rewrite fget_fset_size by (done || lia). by apply Hkeep. }
  assert (fget i_links raw3 = 2) as Hl3 by (rewrite Hfl by done; apply Hnf).
  destruct (im_others _ _ _ _ _ M1 d Hdi) as [_ Hat]. specialize (Hat Hid).
  apply (fs_add_entry G HG s4 d m); try done; [apply M1|apply (has_dir_same G s); [done|done|by apply M1|done|by apply M1]|unfold room in *; by rewrite Hat| |].
  - intros l s5 D1 D2 Dm. cbn beta iota. e2_steps. pose proof (dm_core _ _ _ _ _ D1) as Hfs5.
    assert (nlinks G s5 d = nlinks G s d) as Hn5 by (rewrite (dm_links _ _ _ _ _ D1) by done; by apply M1).
    assert (ino_used G s5 d = true) as Hu5 by (rewrite (dm_used _ _ _ _ _ D1) by done; rewrite (im_used _ _ _ _ _ M1); done).
    assert (0 ≤ nlinks G s d) as Hpos. { unfold nlinks. rewrite Hud. apply fget_range; [rewrite (zlen_inode_at G HG); [lia|apply Hfs|done]|done|apply (is_byte_inode_at G), Hfs]. }
    apply (wp_bump_links G HG s5 d one_more (nlinks G s d + 1)); try done; [|lia|].
    { unfold nlinks in Hn5 at 1. rewrite Hu5 in Hn5. rewrite Hn5. apply chk16_ok. lia. }
    intros s6 Hct. cbn beta iota. e2_steps. destruct (made_done s d m i raw3 s4 Hok Hd Hi Hu Hl3 M1 M2 M3 l name s5 s6 D1 D2 Hct) as (K1 & K2 & K3 & K4 & K5 & K6 & K7 & K8).
    apply HQ. split; [done|]. rewrite Dm in K3. split_and!; try done; [by apply K8|rewrite K7..].
    + rewrite Hfl by done. rewrite (nf_mode _ _ _ _ _ _ Hnf). done.
    + rewrite <- (nf_uid _ _ _ _ _ _ Hnf). unfold uid. rewrite !iget_ok by (rewrite ?(nf_len _ _ _ _ _ _ Hnf); lia || done). by rewrite !Hfl.
    + rewrite <- (nf_gid _ _ _ _ _ _ Hnf). unfold gid. rewrite !iget_ok by (rewrite ?(nf_len _ _ _ _ _ _ Hnf); lia || done). by rewrite !Hfl.
  - intros s5 D1 Hfull. cbn beta iota. apply HQ. destruct (made_leaks s d m i raw3 s4 Hok Hd Hi Hu Hl3 M1 M2 M3 s5 D1 Hfull) as (L1 & L2 & L3 & L4 & L5 & L6).
    split; [done|]. split; [done|]. right. split_and!; [done|done|]. by exists i.
Qed.

Lemma wp_mkdir s d m name mode u g Q :
  fs_ok G s → has_dir G s d m → room G s d → dirs_room s → g_bs G < 65536 → name ≠ [] → Forall is_byte name → 0 ≤ u < U32 → 0 ≤ g < U32 →
  (∀ r s', mkdir_post s d m name mode u g r s' → Q r s') → wp (mkdir d name mode u g) Q s.
Proof using HG.
  intros Hok Hd Hroom Hdirs Hbs Hne Hnb Hug Hgg HQ. pose proof Hok as [Hfs Hlinks]. pose proof (fs_files _ _ Hfs) as Hf. pose proof (fo_blocks _ _ Hf) as Hs.
  pose proof (bo_disk _ _ Hs) as Hdk. destruct (dir_used G s d m Hd) as [Hid Hud]. pose proof (go_isz G HG). pose proof (go_bs G HG). pose proof (spb_range G HG).
  assert (nlinks G s d = fget i_links (inode_at G s d)) as Hnl by (unfold nlinks; by rewrite Hud).
  assert (∀ e, match e with NameTooLong => 255 < zlen name | Exists => is_Some (m !! name) | TooManyLinks => 32000 ≤ nlinks G s d | NoSpace => no_inode G s | _ => False end → Q (inl e) s) as Hfail.
  { intros e He. apply HQ. split; [done|]. split; [done|]. destruct e; try done. left. split_and!; [done|done|by left]. }
  unfold mkdir, check_rw. e2_steps. rewrite (bo_rw _ _ Hs). e2_steps.
  destruct (Z.ltb_spec 255 (zlen name)) as [Hlong|Hshort]; [e2_steps; by apply Hfail|]. e2_steps.
  eapply wp_eq; [by apply (read_inode_eq G HG)|]. cbn beta iota. destruct Hd as (raw & HR & Hk & Hmeq). assert (has_dir G s d m) as Hd by (by exists raw).
  destruct (tree_inodes_Some G s d raw HR) as (_ & Hraw & _). destruct (to_raw _ _ _ (fo_trees _ _ Hf) d raw HR) as [Hz Hb]. rewrite <- Hraw in *.
  unfold is_dir. rewrite is_kind_eq, Hk by lia. change (S_IFDIR =? S_IFDIR) with true. e2_steps. cbn [negb]. e2_steps.
  apply (fs_exists G HG s d m); [done|done|]. cbn beta. case_bool_decide as Hex; [e2_steps; by apply Hfail|].
  assert (m !! name = None) as Hnone by (by apply eq_None_not_Some). e2_steps. rewrite iget_ok by (lia || done). e2_steps. rewrite <- Hnl.
  destruct (Z.leb_spec 32000 (nlinks G s d)) as [Hmany|Hfew]; [e2_steps; by apply Hfail|]. e2_steps.
  apply (wp_alloc_inode G HG s d true); [done|apply Hfs|done| |]. { intros Hno. cbn beta iota. by apply Hfail. }
  intros i s1 Hi Hui Hset. cbn beta iota. e2_steps. pose proof (is_blocks _ _ _ _ _ Hset) as Hs1. geo (bo_disk _ _ Hs1). apply wp_now. cbn beta. e2_steps.
  rewrite init_inode_eq by lia. e2_steps. set (t := clock s1 (readings s1)). set (dm := Z.lor S_IFDIR (Z.land mode 4095)). set (raw0 := fresh _ _ _ _ _ _).
  destruct (dir_mode mode) as [Hdm Hdk1]. fold dm in Hdm, Hdk1.
  destruct (fresh_ok (g_isz G) dm u g 2 t) as [Hnf Hslots]; [lia|done|done|done|lia|]. fold raw0 in Hnf, Hslots.
  assert (kind raw0 = S_IFDIR) as Hk0 by (unfold kind; by rewrite (nf_mode _ _ _ _ _ _ Hnf)).
  destruct (ino_set_frame G HG i true s s1 _ (fo_blocks _ _ Hf) (fo_trees _ _ Hf) Hset) as (F1 & _).
  pose proof (nf_len _ _ _ _ _ _ Hnf) as Hz0. pose proof (nf_bytes _ _ _ _ _ _ Hnf) as Hb0. assert (d ≠ i) as Hdi by congruence.
  apply wp_with_inode. apply (wp_bmap_alloc G HG (upd (tree_inodes G s) i raw0)); [by apply blocks_ok_ticked|apply trees_ok_ticked, trees_new; done|apply upd_same|done|lia| |].
  { rewrite (nf_sectors _ _ _ _ _ _ Hnf). unfold U32. lia. }
  change (fpos G 0) with (Some (0, [] : list Z)). intros [e|pb] [s2 raw2] [Hm Hr]; cbn [fst snd] in *; cbn beta iota.
  - destruct Hr as (-> & Hfree & _). pose proof (mp_ok _ _ _ _ _ _ _ _ _ Hm) as Hs2. e2_steps.
    assert (inodes_ok G s2) as Hio2.
    { apply (inodes_ok_side G HG (ticked s1)); [apply (blocks_ok_ticked G s1 Hs1)|apply (bo_disk _ _ Hs2)|apply inodes_ok_ticked, Hset| |apply Hm].
      apply (differ_maps G HG); [apply (blocks_ok_ticked G s1 Hs1)|apply (bo_disk _ _ Hs2)|apply Hm]. }
    apply (wp_free_inode G HG s2 i); [done|done|done|by apply (unused_first G HG s i (fs_inodes _ _ Hfs))| |].
    { rewrite (proj2 (differ_inodes G HG (ticked s1) s2 (blocks_ok_ticked G s1 Hs1).(bo_disk _ _) (bo_disk _ _ Hs2) (mp_differ _ _ _ _ _ _ _ _ _ Hm) i Hi)).
      etrans; [exact (is_used _ _ _ _ _ Hset i Hi)|by rewrite decide_True]. }
    intros s3 Hset3. cbn beta iota. e2_steps. destruct (grow_undone s s1 i d m raw0 s2 raw2 s3) as (U1 & U2 & U3 & U4); try done.
    apply HQ. split; [intros j Hj Huj _; apply U2; [done|done|apply not_elem_of_nil]|]. split; [done|]. left. split_and!; [done|by intros j Hj; apply U4|].
    right. intros x. rewrite (is_free _ _ _ _ _ Hset3). by apply (none_free G HG).
  - destruct Hr as (-> & Hn). apply (wp_mkdir_tail s d m name mode dm u g i s1 raw0); try done.
    destruct name; [done|]. rewrite zlen_cons in *. pose proof (zlen_nonneg name). lia.
Qed.
End mkdir.

(** ** Names as text *)

(** Only an ASCII string is read as that string. *)
Lemma utf8_ascii f l x : Forall (λ b, b < 128) x → (length l ≤ f)%nat → concat (utf8_chars f l) = x ↔ l = x.
Proof.
  revert l x. induction f as [|f IH]; intros l x Hx Hl.
  { destruct l; [|simpl in Hl; lia]. done. }
  destruct l as [|b l]; [done|]. cbn [utf8_chars]. destruct (utf8_step b l) as [ok n] eqn:E. destruct (Z.ltb_spec b 128) as [Hb|Hb].
  - unfold utf8_step in E. rewrite (proj2 (Z.ltb_lt b 128)) in E by done. injection E as <- <-. cbn [take drop concat app].
    destruct x as [|y x]; [done|]. apply Forall_cons in Hx as [Hy Hx]. simpl in Hl. specialize (IH l x Hx ltac:(lia)). split.
    + intros [= -> He]. f_equal. by apply IH.
    + intros [= -> ->]. f_equal. by apply IH.
  - split.
    + intros He. exfalso. destruct ok; cbn [concat app REPLACEMENT] in He; subst x; apply Forall_cons in Hx as [Hx _]; lia.
    + intros <-. apply Forall_cons in Hx as [Hx _]. lia.
Qed.

Lemma lossy_ascii l x : Forall (λ b, b < 128) x → concat (from_utf8_lossy l) = x ↔ l = x.
Proof. intros Hx. by apply utf8_ascii. Qed.

Definition is_dots (n : list Z) : bool := str_eqb n DOT || str_eqb n DOTDOT.

Lemma is_dots_lossy n : is_dots (concat (from_utf8_lossy n)) = is_dots n.
Proof.
  unfold is_dots, str_eqb. f_equal; apply bool_decide_ext; apply lossy_ascii; repeat constructor; lia.
Qed.

Section rmdir.
Context (G : Geo) (HG : geo_ok G).
Implicit Types (s : Fs).

(** ** [readdir] *)

Definition show_entry (e : Entry) : DirEntry := mkEntry e.2.1 (concat (from_utf8_lossy e.1)) e.2.2.

Lemma visit_readdir o l out : visit on_readdir o l out = out ++ (show_entry <$> entries l).
Proof.
  revert o out. induction l as [|r l IH]; intros o out; [by rewrite app_nil_r|]. simpl. rewrite IH. unfold entries. simpl. unfold live.
  destruct (r_ino r =? 0); [done|]. cbn. by rewrite <- app_assoc.
Qed.

Lemma fs_readdir s d m Q :
  fs_core G s → has_dir G s d m → Q (inr (show_entry <$> dir_ents G s d)) s → wp (readdir d) Q s.
Proof using HG.
  intros Hfs Hd HQ. destruct (has_dir_at G HG s d m Hfs Hd) as (raw & ls & Hdir & Hn & -> & He).
  destruct (dir_facts G HG s d raw ls Hdir) as (Hs & Hdk & Ht & Hi & Hraw & Hz & Hb & Hz128 & Hsz & Hlen).
  unfold readdir. ie_steps. eapply wp_eq; [by apply (read_inode_eq G HG)|]. cbn beta iota. rewrite <- Hraw. unfold is_dir.
  rewrite is_kind_eq, (da_dir _ _ _ _ _ Hdir) by done. change (S_IFDIR =? S_IFDIR) with true. ie_steps. cbn [negb]. ie_steps.
  apply (wp_dir_loop G HG s d raw ls Hdir _ (λ pre a, a = show_entry <$> dents pre)); [done| |].
  - intros a ->. cbn [fst]. ie_steps. by rewrite <- He.
  - intros pre l post a p Hls -> Hp Hn0 Htile Hzb. ie_steps. apply (wp_scan G HG s d raw ls Hdir _ l); [done|done|]. cbn beta iota. ie_steps.
    split; [done|]. rewrite visit_readdir, dents_app, fmap_app. unfold dents at 3. simpl. by rewrite app_nil_r.
Qed.

Lemma fs_empty s d m Q :
  fs_core G s → has_dir G s d m → Q (inr (forallb (λ e : Entry, is_dots e.1) (dir_ents G s d))) s → wp (dir_is_empty d) Q s.
Proof using HG.
  intros Hfs Hd HQ. unfold dir_is_empty. e2_steps. apply (fs_readdir s d m); [done|done|]. cbn beta iota. e2_steps.
  assert (∀ l : list Entry, forallb (λ e, str_eqb (e_name e) DOT || str_eqb (e_name e) DOTDOT) (show_entry <$> l) = forallb (λ e : Entry, is_dots e.1) l) as ->; [|done].
  induction l as [|e l IH]; [done|]. cbn. f_equal; [|done]. apply is_dots_lossy.
Qed.

(** ** [rmdir] *)

(** Directory [i] is a child of [d]: its dots say so, and only they and its
    name count when it is empty. *)
Definition child_dir s (d i : Z) : Prop :=
  ∀ mi, has_dir G s i mi →
    (∃ t, mi !! DOT = Some (i, t)) ∧ (∃ t, mi !! DOTDOT = Some (d, t)) ∧
    (forallb (λ e : Entry, is_dots e.1) (dir_ents G s i) = true → nlinks G s i = 2).

Definition rmdir_post s (d : Z) (m : Dir) (name : list Z) (r : Error + unit) s' : Prop :=
  match r with
  | inl e => s' = s ∧
      match e with
      | Invalid => is_dots name = true
      | NotFound => m !! name = None
      | NotDir => ∃ i t, m !! name = Some (i, t) ∧ kind (inode_at G s i) ≠ S_IFDIR
      | NotEmpty => ∃ i t mi n, m !! name = Some (i, t) ∧ has_dir G s i mi ∧ is_Some (mi !! n) ∧ is_dots n = false
      | _ => False
      end
  | inr _ => ∃ i t, m !! name = Some (i, t) ∧ fs_ok G s' ∧ kept G [d; i] s s' ∧
      has_dir G s' d (delete name m) ∧ ino_used G s' i = false ∧ nlinks G s' d = nlinks G s d - 1 ∧
      (∀ j, is_ino G j → j ≠ i → ino_used G s' j = ino_used G s j) ∧
      freed G i s s'
  end.

Lemma dots_perm s i d mi :
  fs_core G s → has_dir G s i mi → forallb (λ e : Entry, is_dots e.1) (dir_ents G s i) = true →
  (∃ t, mi !! DOT = Some (i, t)) → (∃ t, mi !! DOTDOT = Some (d, t)) →
  ∃ t1 t2, dir_ents G s i ≡ₚ [(DOT, (i, t1)); (DOTDOT, (d, t2))].
Proof using HG.
  intros Hfs Hmi Hall [t1 H1] [t2 H2]. exists t1, t2. destruct (has_dir_at G HG s i mi Hfs Hmi) as (raw & ls & _ & Hn & Hm & He). rewrite He in *.
  apply list_map_perm; [done|by repeat constructor; set_solver|]. change (the_dir ls = list_to_map [(DOT, (i, t1)); (DOTDOT, (d, t2))]). rewrite <- Hm.
  apply map_eq. intros n. cbn. destruct (decide (n = DOT)) as [->|N1]; [by rewrite lookup_insert_eq|]. rewrite lookup_insert_ne by done.
  destruct (decide (n = DOTDOT)) as [->|N2]; [by rewrite lookup_insert_eq|]. rewrite lookup_insert_ne, lookup_empty by done.
  rewrite Hm. destruct (the_dir ls !! n) as [v|] eqn:E; [|done]. exfalso. apply the_dir_lookup in E; [|done].
  rewrite forallb_forall in Hall. specialize (Hall (n, v) (proj1 (list_elem_of_In _ _) E)). cbn in Hall. unfold is_dots, str_eqb in Hall.
  rewrite !bool_decide_eq_false_2 in Hall by done. done.
Qed.

Lemma not_empty (l : list Entry) :
  forallb (λ e : Entry, is_dots e.1) l = false → ∃ n, is_Some ((list_to_map l : Dir) !! n) ∧ is_dots n = false.
Proof.
  intros Hl. destruct (existsb (λ e : Entry, negb (is_dots e.1)) l) eqn:E.
  - apply existsb_exists in E as (e & He & Hd). exists e.1. split; [|by apply negb_true_iff]. destruct ((list_to_map l : Dir) !! e.1) eqn:En; [done|].
    apply not_elem_of_list_to_map in En. exfalso. apply En. apply list_elem_of_fmap. exists e. split; [done|by apply list_elem_of_In].
  - exfalso. rewrite <- not_true_iff_false in Hl. apply Hl, forallb_forall. intros e He. rewrite <- not_true_iff_false, existsb_exists in E.
    destruct (is_dots e.1) eqn:Ed; [done|]. exfalso. apply E. exists e. by rewrite Ed.
Qed.

(** The name, the directory and the link of the parent went. *)
Lemma rmdir_done s d m name i t l t1 t2 s2 s3 s4 s5 :
  fs_ok G s → has_dir G s d m → m !! name = Some (i, t) → is_ino G i → i ≠ d → nlinks G s i = 2 →
  dir_ents G s i ≡ₚ [(DOT, (i, t1)); (DOTDOT, (d, t2))] →
  dir_moved G d l s s2 → dir_ents G s d ≡ₚ (name, (i, t)) :: l → list_to_map l = delete name m →
  counted G i 0 s2 s3 → released G i s3 s4 → counted G d (nlinks G s d - 1) s4 s5 → rmdir_post s d m name (inr tt) s5.
Proof using HG.
  intros [Hfs Hlinks] Hd Hm Hi Hid H2 Hdots Hmv Hl Hmap Hc0 HR Hct.
  pose proof Hmv as [B1 B2 B3 B4 B5 B6 B7 B8 B9]. pose proof Hc0 as [[C1 C2 C3 C4 C5 C6] _ Cn Cu Ce Cc _ _].
  pose proof HR as [R1 R2 R3 R4 _ _]. pose proof Hct as [[D1 D2 D3 D4 D5 D6] Dbody Dn Du De Dc Df _].
  destruct (dir_used G s d m Hd) as [Hdi Hud]. exists i, t.
  assert (∀ j, is_ino G j → j ≠ i → ino_used G s5 j = ino_used G s j) as Hused.
  { intros j Hj Hji. destruct (decide (j = d)) as [->|Hjd]; [congruence|]. by rewrite D5, R4, decide_False, C5, B5. }
  assert (ino_used G s5 i = false) as Hu5 by (by rewrite D5, R4, decide_True).
  split_and!; try done.
  - split; [done|]. intros j Hj.
    rewrite (refs_same G s4 s5); [|intros k Hk; destruct (decide (k = d)) as [->|]; [done|by apply D3]].
    rewrite (refs_update G s3 s4 i j Hi); [|intros k Hk Hki; by rewrite R2, decide_False].
    rewrite R2, decide_True by done. rewrite (refs_same G s2 s3); [|intros k Hk; destruct (decide (k = i)) as [->|]; [done|by apply C3]].
    rewrite Ce, (B3 i Hi Hid), Hdots, (refs_update G s s2 d j Hdi B3), B2, Hl, (Hlinks j Hj), !nrefs_cons. cbn [fst snd nrefs foldr].
    destruct (Z.eqb_spec i j) as [<-|Hji].
    + rewrite (proj2 (Z.eqb_neq d i)) by done. unfold nlinks at 2. rewrite Hu5. lia.
    + destruct (Z.eqb_spec d j) as [<-|Hdj]; [lia|]. rewrite D4 by done. unfold nlinks at 2. rewrite R4, decide_False by done.
      rewrite (proj2 (R3 j ltac:(done)) Hj). fold (nlinks G s3 j). rewrite C4, B6 by done. lia.
  - intros j Hj Huj Hn'. apply not_elem_of_cons in Hn' as [Hnd Hn']. apply not_elem_of_cons in Hn' as [Hni _].
    destruct (B7 j Hnd) as [X1 X2], (C6 j Hni) as [Y1 Y2], (R3 j Hni) as [Z1 Z2], (D6 j Hnd) as [W1 W2].
    rewrite Hused, W1, W2, Z1, Z2, Y1, Y2, X1, X2 by done. done.
  - rewrite <- Hmap. assert (has_dir G s3 d (list_to_map l)) as H3.
    { apply (has_dir_same G s2); [done|done|by apply C5|by apply C6|by apply C3]. }
    assert (has_dir G s4 d (list_to_map l)) as H4.
    { apply (has_dir_same G s3); [done|done|by rewrite R4, decide_False|by apply R3|by rewrite R2, decide_False]. }
    by apply (counted_dir G d (nlinks G s d - 1) s4).
  - intros raw q HRi Hq Hn. rewrite Df. by apply (freed_through G s d l s2 i 0 s3 s4 Hmv Hid Hi Hc0 HR raw q).
Qed.

Lemma wp_rmdir s d m name Q :
  fs_ok G s → has_dir G s d m → g_bs G < 65536 →
  (∀ i t, m !! name = Some (i, t) → g_first_ino G ≤ i ∧ child_dir s d i) →
  (∀ r s', rmdir_post s d m name r s' → Q r s') → wp (rmdir d name) Q s.
Proof using HG.
  intros Hok Hd Hbs Hchild HQ. pose proof Hok as [Hfs Hlinks]. pose proof (fs_files _ _ Hfs) as Hf. pose proof (fo_blocks _ _ Hf) as Hs.
  pose proof (bo_disk _ _ Hs) as Hdk. pose proof (go_isz G HG). destruct (dir_used G s d m Hd) as [Hdi Hud].
  unfold rmdir, check_rw. e2_steps. rewrite (bo_rw _ _ Hs). e2_steps. fold (is_dots name). destruct (is_dots name) eqn:Edots; [e2_steps; by apply HQ|]. e2_steps.
  apply (fs_lookup G HG s d m); [done|done|]. destruct (m !! name) as [[i t]|] eqn:Hm; [|by apply HQ]. cbn beta iota. e2_steps.
  destruct (named_used G HG s d m name i t Hok Hd Hm) as (Hi & Hu & Hpos). destruct (Hchild i t eq_refl) as [Hfirst Hch]. set (raw := inode_at G s i) in *.
  assert (zlen raw = g_isz G) as Hz by (by apply (zlen_inode_at G HG)).
  eapply wp_eq; [by apply (read_inode_eq G HG)|]. cbn beta iota. fold raw. unfold is_dir. rewrite is_kind_eq by lia. e2_steps.
  destruct (Z.eqb_spec (kind raw) S_IFDIR) as [Hdir|Hnd]; cycle 1. { e2_steps. apply HQ. split; [done|]. by exists i, t. }
  cbn [negb]. e2_steps. assert (has_dir G s i (list_to_map (dir_ents G s i))) as Hmi.
  { exists raw. split_and!; try done. unfold tree_inodes. rewrite (proj2 (is_inob_true G i) Hi), Hu. fold raw. unfold has_tree. by rewrite Hdir. }
  apply (fs_empty s i _ _ Hfs Hmi). cbn beta iota. destruct (forallb _ _) eqn:Eempty; cycle 1.
  { e2_steps. apply HQ. split; [done|]. destruct (not_empty _ Eempty) as (n & Hn1 & Hn2). by exists i, t, (list_to_map (dir_ents G s i)), n. }
  assert (i ≠ d) as Hid.
  { intros ->. rewrite (has_dir_ents G s d m Hd) in Hm. apply elem_of_list_to_map_2 in Hm. rewrite forallb_forall in Eempty.
    specialize (Eempty _ (proj1 (list_elem_of_In _ _) Hm)). cbn in Eempty. congruence. }
  destruct (Hch _ Hmi) as (Hdot & Hdd & Hlk). specialize (Hlk Eempty). destruct (dots_perm s i d _ Hfs Hmi Eempty Hdot Hdd) as (t1 & t2 & Hperm).
  destruct Hdd as [td Hdd]. destruct (named_used G HG s i _ DOTDOT d td Hok Hmi Hdd) as (_ & _ & Hdl).
  assert (nlinks G s d = fget i_links (inode_at G s d)) as Hnl by (unfold nlinks; by rewrite Hud).
  cbn [negb]. e2_steps. apply (fs_remove_entry G HG s d m name i t); [done|done|done|done|]. intros l s2 D1 D2 D3. cbn beta iota. e2_steps. pose proof D1 as [B1 B2 B3 B4 B5 B6 B7 B8 B9].
  apply (wp_bump_links G HG s2 i (λ _, Some 0) 0); [done|done|by rewrite B5|done|lia|]. intros s3 Hct. cbn beta iota. e2_steps.
  apply (wp_release_inode G HG s3 i true); [apply Hct|done|apply Hct|done|]. intros s4 HR. cbn beta iota.
  assert (nlinks G s4 d = nlinks G s d ∧ ino_used G s4 d = true) as [Hn4 Hu4].
  { pose proof (ct_moved _ _ _ _ _ Hct) as [C1 C2 C3 C4 C5 C6]. assert (ino_used G s4 d = true) as Hu4 by (rewrite (re_used _ _ _ _ HR), decide_False, C5, B5 by done; done).
    split; [|done]. rewrite <- (B6 d), <- (C4 d) by done. unfold nlinks. rewrite Hu4, C5, B5, Hud by done. by rewrite (proj2 (re_others _ _ _ _ HR d ltac:(done)) Hdi). }
  assert (fget i_links (inode_at G s4 d) = nlinks G s d) as Hg4 by (rewrite <- Hn4; unfold nlinks; by rewrite Hu4).
  pose proof (fget_range i_links (inode_at G s d) ltac:(rewrite (zlen_inode_at G HG) by done; lia) I (is_byte_inode_at G s d Hdk)) as Hr. change (i_bound i_links) with (2 ^ 16) in Hr.
  apply (wp_bump_links G HG s4 d one_less (nlinks G s d - 1)); [apply HR|done|done|unfold one_less, sat_sub; f_equal; lia|lia|].
  intros s5 Hct5. apply HQ. by apply (rmdir_done s d m name i t l t1 t2 s2 s3 s4 s5).
Qed.
End rmdir.
