(* ===== verification/Ext2Rename.v ===== *)
(** * The ext2 file system: [rename]

    A name moves, possibly over another one.  The operation is a sequence of
    changes of directories and link counts that are each off by a known amount;
    [owes] keeps the books until they balance. *)

From S2P Require Import Prelude Text Bytes Ext2 Ext2Fs Ext2Names Ext2Disk Ext2Alloc Ext2Blocks Ext2Inode Ext2Tree Ext2Map Ext2File Ext2Spec Ext2Free Ext2Trunc Ext2Dirent Ext2Dir Ext2Inodes Ext2Links Ext2Create Ext2Link Ext2Mkdir.

Definition one (i j : Z) : Z := if i =? j then 1 else 0.

Lemma wp_try_assoc {S E A B C} (a : Exec S (E + A)) (b : A → Exec S (E + B)) (c : B → Exec S (E + C)) Q s :
  wp (x ←? a; b x) (λ r s', match r with inl e => Q (inl e) s' | inr y => wp (c y) Q s' end) s → wp (x ←? a; y ←? b x; c y) Q s.
Proof.
  unfold wp, try_bind, mbind, exec_bind. destruct (a s) as [[[e|x] s1]|]; [done| |done]. by destruct (b x s1) as [[[e|y] s2]|].
Qed.

Section rename.
Context (G : Geo) (HG : geo_ok G).
Implicit Types (s : Fs).

(** ** Books *)

(** The link count of [j] is [f j] more than the number of its names. *)
Definition owes s (f : Z → Z) : Prop := fs_core G s ∧ ∀ j, is_ino G j → nlinks G s j = refs G s j + f j.

Lemma owes_ok s f : (∀ j, is_ino G j → f j = 0) → owes s f → fs_ok G s.
Proof. intros H0 [Hc Hl]. split; [done|]. intros j Hj. rewrite Hl, H0 by done. lia. Qed.

Lemma ok_owes s : fs_ok G s → owes s (λ _, 0).
Proof. intros [Hc Hl]. split; [done|]. intros j Hj. rewrite Hl by done. lia. Qed.

(** Only the inodes in [X] change. *)
Record step (X : list Z) s s' : Prop := {
  st_dirs : ∀ j m, j ∉ X → has_dir G s j m → has_dir G s' j m;
  st_used : ∀ j, is_ino G j → j ∉ X → ino_used G s' j = ino_used G s j;
  st_other : ∀ j, j ∉ X → contents G s' j = contents G s j ∧ (is_ino G j → inode_at G s' j = inode_at G s j);
  st_links : ∀ j, is_ino G j → j ∉ X → nlinks G s' j = nlinks G s j;
  st_ents : ∀ j, is_ino G j → j ∉ X → dir_ents G s' j = dir_ents G s j;
}.

Lemma step_by x s s' :
  (∀ j, is_ino G j → j ≠ x → ino_used G s' j = ino_used G s j) → others_same G x s s' →
  (∀ j, is_ino G j → j ≠ x → dir_ents G s' j = dir_ents G s j) → step [x] s s'.
Proof.
  intros Hu Ho He. assert (∀ j, j ∉ [x] → j ≠ x) as Hx by (intros j Hn ->; apply Hn; left).
  split.
  - intros j m Hj%Hx Hd. destruct (dir_used G s j m Hd) as [Hi _]. apply (has_dir_same G s); [done|done|by apply Hu|by apply Ho|by apply He].
  - intros j Hi Hj%Hx. by apply Hu.
  - intros j Hj%Hx. by apply Ho.
  - intros j Hi Hj%Hx. unfold nlinks. rewrite Hu by done. by rewrite (proj2 (Ho j Hj) Hi).
  - intros j Hi Hj%Hx. by apply He.
Qed.

Lemma step_refl X s : step X s s.
Proof. by split. Qed.

Lemma step_trans X Y s1 s2 s3 : step X s1 s2 → step Y s2 s3 → step (X ++ Y) s1 s3.
Proof.
  intros [A1 A2 A3 A4 A5] [B1 B2 B3 B4 B5]. split.
  - intros j m [HX HY]%not_elem_of_app Hd. by apply B1, A1.
  - intros j Hi [HX HY]%not_elem_of_app. by rewrite B2, A2.
  - intros j [HX HY]%not_elem_of_app. destruct (A3 j HX) as [X1 X2], (B3 j HY) as [Y1 Y2]. rewrite Y1, X1. split; [done|]. intros Hi. by rewrite Y2, X2.
  - intros j Hi [HX HY]%not_elem_of_app. by rewrite B4, A4.
  - intros j Hi [HX HY]%not_elem_of_app. by rewrite B5, A5.
Qed.

Lemma step_mono X Y s s' : X ⊆ Y → step X s s' → step Y s s'.
Proof. intros Hs [A1 A2 A3 A4 A5]. split; intros; [apply A1|apply A2|apply A3|apply A4|apply A5]; set_solver. Qed.

Lemma step_kept X s s' : step X s s' → kept G X s s'.
Proof. intros [A1 A2 A3 A4 A5] j Hj Hu Hn. destruct (A3 j Hn) as [-> H2]. by rewrite A2, H2. Qed.

Lemma step_dir d l s s' : dir_moved G d l s s' → step [d] s s'.
Proof. intros [B1 B2 B3 B4 B5 B6 B7 B8 B9]. apply step_by; [|done|done]. intros j Hj _. by apply B5. Qed.

Lemma step_count i n s s' : counted G i n s s' → step [i] s s'.
Proof. intros [[A1 A2 A3 A4 A5 A6] _ _ _ _ _ _ _]. by apply step_by. Qed.

Lemma step_release i s s' : released G i s s' → step [i] s s'.
Proof.
  intros [R1 R2 R3 R4 _ _]. apply step_by; [|done|].
  - intros j Hj Hne. by rewrite R4, decide_False.
  - intros j Hj Hne. by rewrite R2, decide_False.
Qed.

Lemma owes_dir d l s s' f g :
  is_ino G d → owes s f → dir_moved G d l s s' → (∀ j, nrefs j l = nrefs j (dir_ents G s d) + g j) → owes s' (λ j, f j - g j).
Proof.
  intros Hd [Hc Hl] [B1 B2 B3 B4 B5 B6 B7 B8 B9] Hg. split; [done|]. intros j Hj. rewrite (refs_update G s s' d j Hd B3), B2, Hg, B6, Hl by done. lia.
Qed.

Lemma owes_count i n s s' f :
  owes s f → counted G i n s s' → owes s' (λ j, f j + if j =? i then n - nlinks G s i else 0).
Proof.
  intros [Hc Hl] [[A1 A2 A3 A4 A5 A6] _ Hn _ He _ _ _]. split; [done|]. intros j Hj.
  rewrite (refs_same G s s'); [|intros k Hk; destruct (decide (k = i)) as [->|]; [done|by apply A3]].
  destruct (Z.eqb_spec j i) as [->|Hne]; [rewrite Hn; specialize (Hl i Hj); lia|]. rewrite A4, Hl by done. lia.
Qed.

Lemma owes_release i s s' f :
  is_ino G i → owes s f → released G i s s' →
  owes s' (λ j, if j =? i then f i + nrefs i (dir_ents G s i) - nlinks G s i else f j + nrefs j (dir_ents G s i)).
Proof.
  intros Hi [Hc Hl] HR. pose proof HR as [R1 R2 R3 R4 _ _]. split; [done|]. intros j Hj.
  rewrite (refs_update G s s' i j Hi); [|intros k Hk Hki; by rewrite R2, decide_False]. rewrite R2, decide_True by done. cbn [nrefs foldr].
  destruct (Z.eqb_spec j i) as [->|Hne]; [unfold nlinks at 1; rewrite R4, decide_True by done; specialize (Hl i Hi); lia|].
  rewrite (st_links _ _ _ (step_release i s s' HR) j Hj ltac:(set_solver)), Hl by done. lia.
Qed.

(** ** The target goes *)

(** Of [d] at most the link count and the time of change differ. *)
Definition counted_keeps (d : Z) s s' : Prop :=
  (∀ m, has_dir G s d m → has_dir G s' d m) ∧ dir_ents G s' d = dir_ents G s d ∧ ino_used G s' d = true ∧ body_same (inode_at G s d) (inode_at G s' d).

Lemma nlinks_range s j : fs_core G s → is_ino G j → 0 ≤ nlinks G s j < 2 ^ 16.
Proof using HG.
  intros Hfs Hj. pose proof (bo_disk _ _ (fo_blocks _ _ (fs_files _ _ Hfs))) as Hdk. pose proof (go_isz G HG). unfold nlinks. destruct (ino_used G s j); [|lia].
  apply (fget_range i_links); [rewrite (zlen_inode_at G HG) by done; lia|done|by apply is_byte_inode_at].
Qed.

Definition settle (e : Z) (f : Z → Z) (j : Z) : Z := if j =? e then 0 else f j.

(** The target of the rename, which lost its name. *)
Definition dropped (e : Z) s s' : Prop :=
  if nlinks G s e =? 1 then ino_used G s' e = false
  else ino_used G s' e = true ∧ nlinks G s' e = nlinks G s e - 1 ∧ contents G s' e = contents G s e ∧ body_same (inode_at G s e) (inode_at G s' e).

Lemma drop_file s d e f Q :
  owes s f → is_ino G e → ino_used G s e = true → g_first_ino G ≤ e → kind (inode_at G s e) ≠ S_IFDIR → 1 ≤ nlinks G s e → f e = 1 →
  (∀ s', owes s' (settle e f) → step [e] s s' → dropped e s s' → Q (inr tt) s') →
  wp (drop_target d e (inode_at G s e) false) Q s.
Proof using HG.
  intros Ho Hi Hu Hfirst Hk Hn Hfe HQ. pose proof Ho as [Hfs _]. pose proof (bo_disk _ _ (fo_blocks _ _ (fs_files _ _ Hfs))) as Hdk. pose proof (go_isz G HG).
  set (raw := inode_at G s e) in *. assert (zlen raw = g_isz G) as Hz by (by apply (zlen_inode_at G HG)). assert (Forall is_byte raw) as Hb by (by apply is_byte_inode_at).
  assert (nlinks G s e = fget i_links raw) as Hnl by (unfold nlinks; by rewrite Hu).
  unfold drop_target. e2_steps. rewrite iget_ok by (lia || done). e2_steps. assert (sat_sub (fget i_links raw) 1 = nlinks G s e - 1) as -> by (unfold sat_sub; lia).
  rewrite iset_ok by (lia || done). e2_steps. set (raw1 := fset i_links _ raw). assert (zlen raw1 = g_isz G) as Hz1 by (unfold raw1; rewrite zlen_fset; [done|lia|done]).
  eapply wp_eq; [by apply (write_inode_eq G HG)|]. cbn beta iota. set (s1 := put_inode G e raw1 s).
  assert (counted G e (nlinks G s e - 1) s s1) as Hct.
  { apply (counted_by G HG); try done; [by left|by apply is_byte_fset|apply body_same_fset; [lia|by left]|].
    pose proof (fget_range i_links raw ltac:(lia) I Hb) as Hr. apply fget_same; [lia|done|lia]. }
  pose proof (owes_count e _ s s1 f Ho Hct) as Ho1. destruct (Z.eqb_spec (nlinks G s e - 1) 0) as [H0|H0]; cycle 1.
  { e2_steps. apply HQ; [|by eapply step_count|].
    - destruct Ho1 as [C L]. split; [done|]. intros j Hj. rewrite L by done. unfold settle. destruct (Z.eqb_spec j e) as [->|]; lia.
    - unfold dropped. rewrite (proj2 (Z.eqb_neq _ 1)) by lia. destruct Hct. done. }
  apply (wp_release_inode G HG s1 e false); [apply Hct|done|apply Hct|done|]. intros s2 HR. pose proof (owes_release e s1 s2 _ Hi Ho1 HR) as Ho2.
  assert (dir_ents G s1 e = []) as He.
  { rewrite (ct_ents _ _ _ _ _ Hct). unfold dir_ents. destruct (tree_inodes G s e) as [r|] eqn:E; [|done]. destruct (tree_inodes_Some G s e r E) as (_ & -> & _).
    fold raw. by rewrite (proj2 (Z.eqb_neq _ _)). }
  apply HQ.
  - destruct Ho2 as [C L]. split; [done|]. intros j Hj. rewrite L, He, (ct_links _ _ _ _ _ Hct) by done. unfold settle. cbn [nrefs foldr].
    destruct (Z.eqb_spec j e) as [->|]; rewrite ?Z.eqb_refl; lia.
  - apply (step_mono ([e] ++ [e])); [set_solver|]. eapply step_trans; [by eapply step_count|by apply step_release].
  - unfold dropped. rewrite (proj2 (Z.eqb_eq _ 1)) by lia. by rewrite (re_used _ _ _ _ HR), decide_True.
Qed.

Lemma drop_dir s d e f t1 t2 Q :
  owes s f → is_ino G e → ino_used G s e = true → g_first_ino G ≤ e → is_ino G d → ino_used G s d = true → d ≠ e →
  nlinks G s e = 2 → dir_ents G s e ≡ₚ [(DOT, (e, t1)); (DOTDOT, (d, t2))] → 1 ≤ nlinks G s d → f e = 1 →
  (∀ s', owes s' (settle e f) → step [e; d] s s' → ino_used G s' e = false → counted_keeps d s s' → nlinks G s' d = nlinks G s d - 1 → Q (inr tt) s') →
  wp (drop_target d e (inode_at G s e) true) Q s.
Proof using HG.
  intros Ho Hi Hu Hfirst Hd Hud Hde Hn Hdots Hnd Hfe HQ. pose proof Ho as [Hfs _]. pose proof (bo_disk _ _ (fo_blocks _ _ (fs_files _ _ Hfs))) as Hdk. pose proof (go_isz G HG).
  set (raw := inode_at G s e) in *. assert (zlen raw = g_isz G) as Hz by (by apply (zlen_inode_at G HG)). assert (Forall is_byte raw) as Hb by (by apply is_byte_inode_at).
  unfold drop_target. e2_steps. rewrite iset_ok by (lia || done). e2_steps. set (raw1 := fset i_links 0 raw).
  assert (zlen raw1 = g_isz G) as Hz1 by (unfold raw1; rewrite zlen_fset; [done|lia|done]).
  eapply wp_eq; [by apply (write_inode_eq G HG)|]. cbn beta iota. set (s1 := put_inode G e raw1 s). e2_steps.
  assert (counted G e 0 s s1) as Hct.
  { apply (counted_by G HG); try done; [by left|by apply is_byte_fset|apply body_same_fset; [lia|by left]|by apply fget_same; [lia|..]]. }
  pose proof (owes_count e 0 s s1 f Ho Hct) as Ho1. pose proof (step_count e 0 s s1 Hct) as St1.
  apply (wp_release_inode G HG s1 e true); [apply Hct|done|apply Hct|done|]. intros s2 HR. cbn beta iota. pose proof (owes_release e s1 s2 _ Hi Ho1 HR) as Ho2.
  pose proof (step_trans _ _ _ _ _ St1 (step_release e s1 s2 HR)) as St2. assert (d ∉ [e] ++ [e]) as Hdn by set_solver.
  assert (nlinks G s2 d = nlinks G s d) as Hn2 by (by apply St2). assert (ino_used G s2 d = true) as Hu2 by (rewrite (st_used _ _ _ St2) by done; done).
  pose proof (nlinks_range s d Hfs Hd) as Hr.
  apply (wp_bump_links G HG s2 d one_less (nlinks G s d - 1)); [apply HR|done|done| |lia|].
  { unfold one_less, sat_sub. rewrite <- Hn2. unfold nlinks. rewrite Hu2. f_equal. unfold nlinks in Hn2 at 1. rewrite Hu2 in Hn2. lia. }
  intros s3 Hct3. pose proof (owes_count d _ s2 s3 _ Ho2 Hct3) as [C3 L3]. pose proof (step_count _ _ _ _ Hct3) as St3.
  apply HQ.
  - assert (∀ j, nrefs j (dir_ents G s e) = one e j + one d j) as Hents by (intros j; rewrite Hdots, !nrefs_cons; cbn [nrefs foldr fst snd]; unfold one; lia).
    split; [done|]. intros j Hj. rewrite L3, Hn2, (ct_links _ _ _ _ _ Hct), (ct_ents _ _ _ _ _ Hct), !Hents by done. unfold settle, one.
    destruct (Z.eqb_spec j e) as [->|Hje]; [rewrite !Z.eqb_refl, (proj2 (Z.eqb_neq d e)), (proj2 (Z.eqb_neq e d)) by done; lia|].
    rewrite (proj2 (Z.eqb_neq e j)) by done. destruct (Z.eqb_spec j d) as [->|Hjd]; [rewrite Z.eqb_refl; lia|]. rewrite (proj2 (Z.eqb_neq d j)) by done. lia.
  - apply (step_mono (([e] ++ [e]) ++ [d])); [set_solver|]. by eapply step_trans.
  - rewrite (st_used _ _ _ St3) by (done || set_solver). by rewrite (re_used _ _ _ _ HR), decide_True.
  - destruct (st_other _ _ _ St2 d Hdn) as [X1 X2]. split_and!.
    + intros m Hm. apply (counted_dir G d (nlinks G s d - 1) s2); [done|done|]. by apply (st_dirs _ _ _ St2).
    + rewrite (ct_ents _ _ _ _ _ Hct3). by apply (st_ents _ _ _ St2).
    + apply Hct3.
    + rewrite <- (X2 Hd). apply Hct3.
  - apply Hct3.
Qed.

(** ** The old name goes *)

Lemma wp_touch s i Q :
  fs_core G s → is_ino G i → ino_used G s i = true → (∀ s', counted G i (nlinks G s i) s s' → Q (inr tt) s') →
  wp (x ←? read_inode i; t ← now; x ← need (iset i_ctime t x); write_inode i x) Q s.
Proof using HG.
  intros Hfs Hi Hu HQ. pose proof (fo_blocks _ _ (fs_files _ _ Hfs)) as Hs. pose proof (bo_disk _ _ Hs) as Hdk. pose proof (go_isz G HG). set (raw := inode_at G s i).
  assert (zlen raw = g_isz G) as Hz by (by apply (zlen_inode_at G HG)). assert (Forall is_byte raw) as Hb by (by apply is_byte_inode_at).
  e2_steps. eapply wp_eq; [by apply (read_inode_eq G HG)|]. cbn beta iota. fold raw. e2_steps. apply wp_now. cbn beta. e2_steps. rewrite iset_ok by (lia || done). e2_steps.
  set (raw1 := fset i_ctime _ raw). assert (zlen raw1 = g_isz G) as Hz1 by (unfold raw1; rewrite zlen_fset; [done|lia|done]).
  eapply wp_eq; [apply (write_inode_eq G HG); [by apply blocks_ok_ticked|done|done]|]. apply HQ.
  apply (counted_by G HG); try done; [by right|by apply is_byte_fset|apply body_same_fset; [lia|by right]|].
  unfold raw1. rewrite fget_other by (lia || done). unfold nlinks. by rewrite Hu.
Qed.

(** After the new name: the old one goes, and a directory that moved gets a new
    parent. *)
Definition finished s (odir : Z) (mo : Dir) (oname : list Z) (ndir i : Z) (moved : bool) s' : Prop :=
  fs_ok G s' ∧ step [odir; i; ndir] s s' ∧ has_dir G s' odir (delete oname mo) ∧ ino_used G s' i = true ∧ ino_used G s' odir = true ∧
  nlinks G s' i = nlinks G s i ∧
  if moved then
    (∀ m, has_dir G s ndir m → has_dir G s' ndir m) ∧ (∀ mi, has_dir G s i mi → has_dir G s' i (<[DOTDOT := (ndir, FT_DIR)]> mi)) ∧
    nlinks G s' odir = nlinks G s odir - 1 ∧ nlinks G s' ndir = nlinks G s ndir + 1
  else
    (∀ m, odir ≠ ndir → has_dir G s ndir m → has_dir G s' ndir m) ∧ (∀ mi, has_dir G s i mi → has_dir G s' i mi) ∧ contents G s' i = contents G s i ∧ body_same (inode_at G s i) (inode_at G s' i) ∧
    nlinks G s' odir = nlinks G s odir ∧ (odir ≠ ndir → nlinks G s' ndir = nlinks G s ndir).

Lemma finish_stay s odir mo oname ndir i t Q :
  owes s (λ j, - one i j) → has_dir G s odir mo → mo !! oname = Some (i, t) → g_bs G < 65536 → is_ino G i → ino_used G s i = true → i ≠ odir → i ≠ ndir → is_ino G ndir →
  (∀ s', finished s odir mo oname ndir i false s' → Q (inr tt) s') → wp (rename_finish odir oname ndir i false) Q s.
Proof using HG.
  intros Ho Hod Hmo Hbs Hi Hu Hio Hin Hni HQ. destruct (dir_used G s odir mo Hod) as [Hoi Huo]. unfold rename_finish. e2_steps.
  apply (fs_remove_entry G HG s odir mo oname i t); [apply Ho|done|done|done|]. intros l s1 D1 D2 D3. cbn beta iota. apply wp_try, wp_ok. cbn beta iota. pose proof (step_dir _ _ _ _ D1) as St1.
  assert (i ∉ [odir]) as Hi1 by set_solver. destruct (st_other _ _ _ St1 i Hi1) as [Hc1 Hr1]. specialize (Hr1 Hi).
  apply wp_touch; [apply D1|done|rewrite (st_used _ _ _ St1) by done; done|]. intros s2 Hct. pose proof (step_count _ _ _ _ Hct) as St2. rewrite (st_links _ _ _ St1) in Hct by done.
  pose proof (owes_dir odir l s s1 _ (λ j, - one i j) Hoi Ho D1) as Ho1. pose proof (dm_dir _ _ _ _ _ D1) as Hd1. rewrite D3 in Hd1.
  assert (odir ∉ [i]) as Hoi2 by set_solver. apply HQ. split_and!.
  - apply (owes_ok s2 _ ) with (2 := owes_count i _ s1 s2 _ (Ho1 ltac:(intros j; rewrite D2, nrefs_cons; cbn [fst snd]; unfold one; lia)) Hct). intros j Hj. cbn beta.
    rewrite (st_links _ _ _ St1) by done. destruct (_ =? _); lia.
  - apply (step_mono ([odir] ++ [i])); [set_solver|]. by eapply step_trans.
  - by apply (st_dirs _ _ _ St2).
  - apply Hct.
  - rewrite (st_used _ _ _ St2) by done. by rewrite (dm_used _ _ _ _ _ D1).
  - apply Hct.
  - intros m Hne Hm. apply (st_dirs _ _ _ St2); [set_solver|]. apply (st_dirs _ _ _ St1); [set_solver|done].
  - intros mi Hmi. apply (counted_dir G i _ s1 s2 _ Hi Hct). by apply (st_dirs _ _ _ St1).
  - rewrite (ct_contents _ _ _ _ _ Hct). done.
  - rewrite <- Hr1. apply Hct.
  - rewrite (st_links _ _ _ St2) by done. by apply (dm_links _ _ _ _ _ D1).
  - intros Hne. rewrite (st_links _ _ _ St2), (st_links _ _ _ St1) by (done || set_solver). done.
Qed.

Lemma bump_links_panics s i P Q : fs_core G s → is_ino G i → ino_used G s i = true → nlinks G s i = 2 ^ 16 - 1 → P → runs (bump_links i one_more) P Q s.
Proof using HG.
  intros Hfs Hi Hu Hn HP. pose proof (bo_disk _ _ (fo_blocks _ _ (fs_files _ _ Hfs))) as Hdk. pose proof (go_isz G HG). unfold nlinks in Hn. rewrite Hu in Hn.
  unfold bump_links. e2_steps. apply wp_runs. eapply wp_eq; [by apply (read_inode_eq G HG)|]. cbn beta iota.
  rewrite iget_ok by (rewrite ?(zlen_inode_at G HG) by done; lia || done). e2_steps. rewrite Hn. by apply runs_need.
Qed.

(** The count of the new parent is the last to change, and panics at its
    limit. *)
Lemma finish_move s odir mo oname ndir i t mi td P Q :
  owes s (λ j, - one i j) → has_dir G s odir mo → mo !! oname = Some (i, t) → g_bs G < 65536 → i ≠ odir → i ≠ ndir → odir ≠ ndir →
  is_ino G ndir → ino_used G s ndir = true → has_dir G s i mi → mi !! DOTDOT = Some (odir, td) → 1 ≤ nlinks G s odir → (nlinks G s ndir = 2 ^ 16 - 1 → P) →
  (∀ s', nlinks G s ndir < 2 ^ 16 - 1 → finished s odir mo oname ndir i true s' → Q (inr tt) s') → runs (rename_finish odir oname ndir i true) P Q s.
Proof using HG.
  intros Ho Hod Hmo Hbs Hio Hin Hon Hni Hnu Hid Hdd Hlo HP HQ. destruct (dir_used G s odir mo Hod) as [Hoi Huo]. destruct (dir_used G s i mi Hid) as [Hi Hu].
  unfold rename_finish. e2_steps.
  apply wp_runs, (fs_remove_entry G HG s odir mo oname i t); [apply Ho|done|done|done|]. intros l s1 D1 D2 D3. cbn beta iota. e2_steps. pose proof (step_dir _ _ _ _ D1) as St1.
  pose proof (owes_dir odir l s s1 _ (λ j, - one i j) Hoi Ho D1 ltac:(intros j; rewrite D2, nrefs_cons; cbn [fst snd]; unfold one; lia)) as Ho1.
  pose proof (dm_dir _ _ _ _ _ D1) as Hod1. rewrite D3 in Hod1. pose proof (st_dirs _ _ _ St1 i mi ltac:(set_solver) Hid) as Hid1.
  apply wp_runs, (fs_set_entry G HG s1 i mi DOTDOT odir td ndir FT_DIR); [apply D1|done|done|done|done|]. intros l2 s2 E1 E2 E3. cbn beta iota. e2_steps.
  pose proof (step_trans _ _ _ _ _ St1 (step_dir _ _ _ _ E1)) as St2. pose proof (dm_dir _ _ _ _ _ E1) as Hid2. rewrite E2 in Hid2.
  pose proof (owes_dir i l2 s1 s2 _ (λ j, one ndir j - one odir j) Hi Ho1 E1 ltac:(intros j; rewrite E3; unfold one; lia)) as Ho2.
  assert (nlinks G s2 odir = nlinks G s odir ∧ ino_used G s2 odir = true) as [Hlo2 Huo2].
  { rewrite (dm_links _ _ _ _ _ E1), (dm_links _ _ _ _ _ D1), (dm_used _ _ _ _ _ E1), (dm_used _ _ _ _ _ D1) by done. done. }
  pose proof (nlinks_range s odir (proj1 Ho) Hoi). pose proof (nlinks_range s ndir (proj1 Ho) Hni).
  apply wp_runs, (wp_bump_links G HG s2 odir one_less (nlinks G s odir - 1)); [apply E1|done|done| |lia|].
  { unfold one_less, sat_sub. unfold nlinks in Hlo2 at 1. rewrite Huo2 in Hlo2. f_equal. lia. }
  intros s3 Hct3. cbn beta iota. pose proof (owes_count _ _ _ _ _ Ho2 Hct3) as Ho3. pose proof (step_count _ _ _ _ Hct3) as St3.
  assert (nlinks G s3 ndir = nlinks G s ndir ∧ ino_used G s3 ndir = true) as [Hln3 Hun3].
  { rewrite (st_links _ _ _ St3), (st_links _ _ _ St2), (st_used _ _ _ St3), (st_used _ _ _ St2) by (done || set_solver). done. }
  assert (nlinks G s ndir = 2 ^ 16 - 1 ∨ nlinks G s ndir < 2 ^ 16 - 1) as [Hmax|Hln] by lia.
  { apply (bump_links_panics s3 ndir); [apply Hct3|done|done|lia|by apply HP]. }
  apply wp_runs, (wp_bump_links G HG s3 ndir one_more (nlinks G s ndir + 1)); [apply Hct3|done|done| |lia|].
  { unfold one_more. unfold nlinks in Hln3 at 1. rewrite Hun3 in Hln3. rewrite Hln3. apply chk16_ok. lia. }
  intros s4 Hct4. cbn beta iota. pose proof (owes_count _ _ _ _ _ Ho3 Hct4) as Ho4. pose proof (step_count _ _ _ _ Hct4) as St4.
  assert (nlinks G s4 i = nlinks G s i ∧ ino_used G s4 i = true) as [Hli4 Hui4].
  { rewrite (st_links _ _ _ St4), (st_links _ _ _ St3), (st_used _ _ _ St4), (st_used _ _ _ St3) by (done || set_solver).
    rewrite (dm_links _ _ _ _ _ E1), (dm_used _ _ _ _ _ E1), (st_links _ _ _ St1), (st_used _ _ _ St1) by (done || set_solver). done. }
  apply wp_runs, wp_touch; [apply Hct4|done|done|]. intros s5 Hct5. pose proof (owes_count _ _ _ _ _ Ho4 Hct5) as Ho5. pose proof (step_count _ _ _ _ Hct5) as St5.
  apply HQ; [done|]. split_and!.
  - apply (owes_ok _ _) with (2 := Ho5). intros j Hj. cbn beta. rewrite Hli4, Hln3, Hlo2. unfold one. clear - Hio Hin Hon.
    destruct (Z.eqb_spec j i) as [->|]; [|destruct (Z.eqb_spec j ndir) as [->|]; [|destruct (Z.eqb_spec j odir) as [->|]]];
      rewrite ?Z.eqb_refl; repeat match goal with |- context [?a =? ?b] => destruct (Z.eqb_spec a b); [congruence|] end; lia.
  - apply (step_mono ((((([odir] ++ [i]) ++ [odir]) ++ [ndir]) ++ [i]))); [set_solver|]. eapply step_trans; [|done]. eapply step_trans; [|done]. by eapply step_trans.
  - apply (st_dirs _ _ _ St5); [set_solver|]. apply (st_dirs _ _ _ St4); [set_solver|]. apply (counted_dir G odir _ s2 s3 _ Hoi Hct3).
    apply (st_dirs _ _ _ (step_dir _ _ _ _ E1)); [set_solver|done].
  - apply Hct5.
  - rewrite (st_used _ _ _ St5), (st_used _ _ _ St4) by (done || set_solver). apply Hct3.
  - rewrite (ct_links _ _ _ _ _ Hct5). done.
  - intros m Hm. apply (st_dirs _ _ _ St5); [set_solver|]. apply (counted_dir G ndir _ s3 s4 _ Hni Hct4). apply (st_dirs _ _ _ St3); [set_solver|].
    apply (st_dirs _ _ _ St2); [set_solver|done].
  - intros mi' Hmi'. apply (counted_dir G i _ s4 s5 _ Hi Hct5). apply (st_dirs _ _ _ St4); [set_solver|]. apply (st_dirs _ _ _ St3); [set_solver|].
    rewrite (has_dir_ents G s i mi' Hmi'), <- (has_dir_ents G s i mi Hid). done.
  - rewrite (st_links _ _ _ St5), (st_links _ _ _ St4) by (done || set_solver). apply Hct3.
  - rewrite (st_links _ _ _ St5) by (done || set_solver). apply Hct4.
Qed.

(** ** [rename] *)

(** The two directories after the move of [i]. *)
Definition moved_name s (odir : Z) (mo : Dir) (oname : list Z) (ndir : Z) (mn : Dir) (nname : list Z) (i : Z) s' : Prop :=
  let new := <[nname := (i, ft_from_mode (fget i_mode (inode_at G s i)))]> mn in
  if odir =? ndir then has_dir G s' ndir (delete oname new)
  else has_dir G s' odir (delete oname mo) ∧ has_dir G s' ndir new.

(** The object that moved: a file keeps its contents and links, a directory its
    entries but for [..]. *)
Definition moved_object s (odir ndir i : Z) s' : Prop :=
  ino_used G s' i = true ∧ nlinks G s' i = nlinks G s i ∧
  if kind (inode_at G s i) =? S_IFDIR
  then ∀ mi, has_dir G s i mi → has_dir G s' i (if odir =? ndir then mi else <[DOTDOT := (ndir, FT_DIR)]> mi)
  else contents G s' i = contents G s i ∧ body_same (inode_at G s i) (inode_at G s' i).

(** The new name refers to [i]. *)
Record claimed s (ndir : Z) (mn : Dir) (nname : list Z) (i : Z) (X : list Z) s' : Prop := {
  cl_owes : owes s' (λ j, - one i j);
  cl_step : step (ndir :: X) s s';
  cl_dir : has_dir G s' ndir (<[nname := (i, ft_from_mode (fget i_mode (inode_at G s i)))]> mn);
}.

(** What a directory that moves must satisfy: its [..] is right and it is
    neither parent. *)
Definition may_move s (odir ndir i : Z) : Prop :=
  kind (inode_at G s i) = S_IFDIR → i ≠ odir ∧ i ≠ ndir ∧ ∃ mi t, has_dir G s i mi ∧ mi !! DOTDOT = Some (odir, t).

Lemma rename_tail s odir mo oname ndir mn nname i t X sA P Q :
  fs_ok G s → has_dir G s odir mo → mo !! oname = Some (i, t) → has_dir G s ndir mn → g_bs G < 65536 → may_move s odir ndir i →
  (odir = ndir → oname ≠ nname) → i ∉ X → odir ∉ X → claimed s ndir mn nname i X sA →
  (kind (inode_at G s i) = S_IFDIR → odir ≠ ndir → nlinks G sA ndir = 2 ^ 16 - 1 → P) →
  (∀ s', (kind (inode_at G s i) = S_IFDIR → odir ≠ ndir → nlinks G sA ndir < 2 ^ 16 - 1) → fs_ok G s' → moved_name s odir mo oname ndir mn nname i s' → moved_object s odir ndir i s' →
     step [odir; i; ndir] sA s' → step ([odir; i; ndir] ++ X) s s' → (∀ j, j = odir ∨ j = ndir → ino_used G s' j = true) → Q (inr tt) s') →
  runs (rename_finish odir oname ndir i ((kind (inode_at G s i) =? S_IFDIR) && negb (odir =? ndir))) P Q sA.
Proof using HG.
  intros Hok Hod Hmo Hnd Hbs Hmv Hne HiX HoX [C1 C2 C3] HP HQ. destruct (dir_used G s odir mo Hod) as [Hoi Huo]. destruct (dir_used G s ndir mn Hnd) as [Hni Hnu].
  destruct (named_used G HG s odir mo oname i t Hok Hod Hmo) as (Hi & Hu & _). set (raw := inode_at G s i) in *.
  assert (i ≠ odir ∧ i ≠ ndir) as [Hio Hin].
  { destruct (decide (kind raw = S_IFDIR)) as [Hk|Hk]; [by destruct (Hmv Hk) as (? & ? & _)|].
    split; intros ->; [destruct Hod as (r & HR & Hkr & _)|destruct Hnd as (r & HR & Hkr & _)]; destruct (tree_inodes_Some G s _ r HR) as (_ & -> & _); done. }
  assert (i ∉ ndir :: X) as HiX' by set_solver. destruct (st_other _ _ _ C2 i HiX') as [Hci Hri]. specialize (Hri Hi).
  assert (ino_used G sA i = true) as HuA by (rewrite (st_used _ _ _ C2) by done; done). destruct (dir_used G sA ndir _ C3) as [_ HnuA].
  set (new := <[nname := (i, ft_from_mode (fget i_mode raw))]> mn) in *. set (moA := if odir =? ndir then new else mo).
  assert (has_dir G sA odir moA ∧ moA !! oname = Some (i, t)) as [HodA HmoA].
  { unfold moA. destruct (Z.eqb_spec odir ndir) as [He|He].
    - subst odir. split; [done|]. unfold new. rewrite lookup_insert_ne by (intros E; by apply (Hne eq_refl)).
      rewrite (has_dir_ents G s ndir mn Hnd), <- (has_dir_ents G s ndir mo Hod). done.
    - split; [|done]. apply (st_dirs _ _ _ C2); [set_solver|done]. }
  assert (∀ s', (kind raw = S_IFDIR → odir ≠ ndir → nlinks G sA ndir < 2 ^ 16 - 1) → finished sA odir moA oname ndir i ((kind raw =? S_IFDIR) && negb (odir =? ndir)) s' → Q (inr tt) s') as Hfin.
  { intros s' Hlim (F1 & F2 & F3 & F4 & F5 & F6 & F7). unfold moA in F3. apply HQ; try done.
    - unfold moved_name. fold raw. fold new. destruct (Z.eqb_spec odir ndir) as [He|He]; [by subst odir|]. split; [done|].
      destruct (_ && _) in F7; by apply F7.
    - split; [done|]. split; [rewrite F6; by apply (st_links _ _ _ C2)|]. fold raw. destruct (kind raw =? S_IFDIR); cbn [andb] in F7.
      + intros mi Hmi. pose proof (st_dirs _ _ _ C2 i mi HiX' Hmi). destruct (odir =? ndir); cbn [negb] in F7; by apply F7.
      + destruct F7 as (_ & _ & F8 & F9 & _). rewrite Hri in F9. split; [congruence|done].
    - apply (step_mono ((ndir :: X) ++ [odir; i; ndir])); [set_solver|]. by eapply step_trans.
    - intros j [->| ->]; [done|]. destruct (decide (odir = ndir)) as [<-|Hd]; [done|]. destruct (_ && _) in F7; by eapply dir_used, F7. }
  destruct (Z.eqb_spec (kind raw) S_IFDIR) as [Hk|Hk]; cbn [andb] in *; [|apply wp_runs, (finish_stay sA odir moA oname ndir i t); try done; intros s' Hs'; by apply Hfin].
  destruct (Z.eqb_spec odir ndir) as [He|He]; cbn [negb] in *; [apply wp_runs, (finish_stay sA odir moA oname ndir i t); try done; intros s' Hs'; by apply Hfin|].
  destruct (Hmv Hk) as (_ & _ & mi & td & Hmi & Hdd). apply (finish_move sA odir moA oname ndir i t mi td); try done; [by apply (st_dirs _ _ _ C2)| |by apply HP|intros; by apply Hfin].
  destruct (named_used G HG s i mi DOTDOT odir td Hok Hmi Hdd) as (_ & _ & Hl1). rewrite (st_links _ _ _ C2) by (done || set_solver). unfold nlinks. by rewrite Huo.
Qed.

(** What [rename] promises: the name moved and its old target lost a link, or
    there is a reason and no name and no file changed. *)
Definition rename_post s (odir : Z) (mo : Dir) (oname : list Z) (ndir : Z) (mn : Dir) (nname : list Z) (r : Error + unit) s' : Prop :=
  match r with
  | inl NoSpace => mn !! nname = None ∧ full G s' ∧ fs_ok G s' ∧ has_dir G s' ndir mn ∧ step [ndir] s s' ∧ ino_used G s' ndir = true
  | inl e => s' = s ∧
      match e with
      | NameTooLong => ¬ 0 < zlen nname < 256
      | NotFound => mo !! oname = None
      | NotDir => ∃ i t e te, mo !! oname = Some (i, t) ∧ mn !! nname = Some (e, te) ∧ kind (inode_at G s i) = S_IFDIR ∧ kind (inode_at G s e) ≠ S_IFDIR
      | IsDir => ∃ i t e te, mo !! oname = Some (i, t) ∧ mn !! nname = Some (e, te) ∧ kind (inode_at G s i) ≠ S_IFDIR ∧ kind (inode_at G s e) = S_IFDIR
      | NotEmpty => ∃ e te me n, mn !! nname = Some (e, te) ∧ has_dir G s e me ∧ is_Some (me !! n) ∧ is_dots n = false
      | _ => False
      end
  | inr _ => ∃ i t, mo !! oname = Some (i, t) ∧
      match mn !! nname with
      | None => fs_ok G s' ∧ moved_name s odir mo oname ndir mn nname i s' ∧ moved_object s odir ndir i s' ∧
          step [odir; i; ndir] s s' ∧ ∀ j, j = odir ∨ j = ndir → ino_used G s' j = true
      | Some (e, _) =>
          if e =? i then s' = s else
          fs_ok G s' ∧ moved_name s odir mo oname ndir mn nname i s' ∧ moved_object s odir ndir i s' ∧
          step [odir; i; ndir; e] s s' ∧ (∀ j, j = odir ∨ j = ndir → ino_used G s' j = true) ∧
          if kind (inode_at G s e) =? S_IFDIR then ino_used G s' e = false else dropped e s s'
      end
  end.

Lemma ft_range mode : 0 ≤ ft_from_mode mode < 256.
Proof. unfold ft_from_mode, FT_REG, FT_DIR, FT_CHR, FT_BLK, FT_FIFO, FT_SOCK, FT_SYMLINK, FT_UNKNOWN. repeat case_match; lia. Qed.

(** The target is replaced and dropped. *)
Lemma claim_over s ndir mn nname i e te Q :
  fs_ok G s → has_dir G s ndir mn → mn !! nname = Some (e, te) → is_ino G i → e ≠ i → e ≠ ndir → g_first_ino G ≤ e →
  (kind (inode_at G s e) = S_IFDIR → child_dir G s ndir e ∧ forallb (λ x : Entry, is_dots x.1) (dir_ents G s e) = true) →
  (∀ s', claimed s ndir mn nname i [e] s' → (kind (inode_at G s e) = S_IFDIR → nlinks G s' ndir = nlinks G s ndir - 1) → (if kind (inode_at G s e) =? S_IFDIR then ino_used G s' e = false else dropped e s s') → Q (inr tt) s') →
  wp (_ ←? set_entry ndir nname i (ft_from_mode (fget i_mode (inode_at G s i))); drop_target ndir e (inode_at G s e) (kind (inode_at G s e) =? S_IFDIR)) Q s.
Proof using HG.
  intros Hok Hnd Hmn Hi Hei Hen Hfirst Hdir HQ. pose proof Hok as [Hfs _]. destruct (dir_used G s ndir mn Hnd) as [Hni Hnu].
  destruct (named_used G HG s ndir mn nname e te Hok Hnd Hmn) as (He & Hue & Hle). set (ex := inode_at G s e) in *.
  assert (nlinks G s e = fget i_links ex) as Hnl by (unfold nlinks; by rewrite Hue).
  e2_steps. apply (fs_set_entry G HG s ndir mn nname e te); [done|done|done|done|apply ft_range|]. intros l s1 D1 D2 D3. cbn beta iota. pose proof (step_dir _ _ _ _ D1) as St1.
  pose proof (owes_dir ndir l s s1 _ (λ j, one i j - one e j) Hni (ok_owes s Hok) D1 ltac:(intros j; rewrite D3; unfold one; lia)) as Ho1.
  assert (e ∉ [ndir]) as Hen1 by set_solver. destruct (st_other _ _ _ St1 e Hen1) as [Hc1 Hr1]. specialize (Hr1 He). fold ex in Hr1.
  assert (nlinks G s1 e = nlinks G s e ∧ ino_used G s1 e = true) as [Hl1 Hu1]. { rewrite (st_links _ _ _ St1), (st_used _ _ _ St1) by done. done. }
  pose proof (dm_dir _ _ _ _ _ D1) as Hd1. rewrite D2 in Hd1. rewrite <- Hr1.
  assert (∀ j, is_ino G j → settle e (λ j, 0 - (one i j - one e j)) j = - one i j) as Hset.
  { intros j Hj. unfold settle, one. destruct (Z.eqb_spec j e) as [->|]; [by rewrite (proj2 (Z.eqb_neq i e))|]. rewrite (proj2 (Z.eqb_neq e j)) by done. lia. }
  assert (∀ s', owes s' (settle e (λ j, 0 - (one i j - one e j))) → owes s' (λ j, - one i j)) as Hset'.
  { intros s' [C L]. split; [done|]. intros j Hj. by rewrite L, Hset. }
  assert (0 - (one i e - one e e) = 1) as Hfe by (unfold one; rewrite Z.eqb_refl, (proj2 (Z.eqb_neq i e)) by done; lia).
  destruct (Z.eqb_spec (kind ex) S_IFDIR) as [Hk|Hk].
  - destruct (Hdir Hk) as [Hch Hemp].
    assert (has_dir G s e (list_to_map (dir_ents G s e))) as Hme.
    { exists ex. split_and!; try done. unfold tree_inodes. rewrite (proj2 (is_inob_true G e) He), Hue. fold ex. unfold has_tree. by rewrite Hk. }
    destruct (Hch _ Hme) as (Hdot & Hdd & Hlk). destruct (dots_perm G HG s e ndir _ Hfs Hme Hemp Hdot Hdd) as (t1 & t2 & Hperm). destruct Hdd as [td Hdd].
    destruct (named_used G HG s e _ DOTDOT ndir td Hok Hme Hdd) as (_ & _ & Hnl1). rewrite Hr1, Hk. change (S_IFDIR =? S_IFDIR) with true. rewrite <- Hr1.
    apply (drop_dir s1 ndir e (λ j, 0 - (one i j - one e j)) t1 t2); try done.
    + by rewrite (dm_used _ _ _ _ _ D1).
    + rewrite Hl1. by apply Hlk.
    + by rewrite (st_ents _ _ _ St1).
    + rewrite (dm_links _ _ _ _ _ D1) by done. unfold nlinks. by rewrite Hnu.
    + intros s' S1 S2 S3 (S4 & _) S5. apply HQ; [|by intros _; rewrite S5, (dm_links _ _ _ _ _ D1)|done]. split.
      * by apply Hset'.
      * apply (step_mono ([ndir] ++ [e; ndir])); [set_solver|]. by eapply step_trans.
      * by apply S4.
  - rewrite Hr1, (proj2 (Z.eqb_neq _ _)) by done. rewrite <- Hr1. apply (drop_file s1 ndir e (λ j, 0 - (one i j - one e j))); try done; [by rewrite Hr1|lia|].
    intros s' S1 S2 S3. apply HQ.
    + split.
      * by apply Hset'.
      * apply (step_mono ([ndir] ++ [e])); [set_solver|]. by eapply step_trans.
      * apply (st_dirs _ _ _ S2); [set_solver|done].
    + done.
    + unfold dropped in *. rewrite Hl1, Hc1, Hr1 in S3. done.
Qed.

(** A target that may be replaced. *)
Definition target_ok s (ndir : Z) (mn : Dir) (nname : list Z) : Prop :=
  ∀ e te, mn !! nname = Some (e, te) → g_first_ino G ≤ e ∧ (kind (inode_at G s e) = S_IFDIR → child_dir G s ndir e).

Lemma in_dir_not_empty s d m name v : has_dir G s d m → m !! name = Some v → is_dots name = false → forallb (λ x : Entry, is_dots x.1) (dir_ents G s d) = false.
Proof.
  intros Hd Hm Hn. apply not_true_iff_false. intros Hall. rewrite (has_dir_ents G s d m Hd) in Hm. apply elem_of_list_to_map_2 in Hm.
  rewrite forallb_forall in Hall. specialize (Hall _ (proj1 (list_elem_of_In _ _) Hm)). cbn in Hall. congruence.
Qed.

(** A directory gets a name in another directory, whose link count is at its
    limit. *)
Definition at_link_limit s (odir : Z) (mo : Dir) (oname : list Z) (ndir : Z) (mn : Dir) (nname : list Z) : Prop :=
  ∃ i t, mo !! oname = Some (i, t) ∧ kind (inode_at G s i) = S_IFDIR ∧ odir ≠ ndir ∧ mn !! nname = None ∧ nlinks G s ndir = 2 ^ 16 - 1.

(** The case with an old target [e]: a directory that is replaced leaves room
    for the link of the new one. *)
Lemma wp_rename_over s odir mo oname ndir mn nname i t e te Q :
  fs_ok G s → has_dir G s odir mo → has_dir G s ndir mn → mo !! oname = Some (i, t) → mn !! nname = Some (e, te) → e ≠ i → g_bs G < 65536 →
  is_dots oname = false → is_dots nname = false → may_move s odir ndir i → target_ok s ndir mn nname →
  (∀ r s', rename_post s odir mo oname ndir mn nname r s' → Q r s') →
  let isdir := kind (inode_at G s i) =? S_IFDIR in let ex := inode_at G s e in
  wp (exdir ← need (is_dir ex);
      if isdir && negb exdir then err NotDir else
      if negb isdir && exdir then err IsDir else
      empty ←? (if isdir && exdir then dir_is_empty e else ok true);
      if negb empty then err NotEmpty else
      _ ←? set_entry ndir nname i (ft_from_mode (fget i_mode (inode_at G s i)));
      _ ←? drop_target ndir e ex exdir;
      rename_finish odir oname ndir i (isdir && negb (odir =? ndir))) Q s.
Proof using HG.
  intros Hok Hod Hnd Hmo Hmn Hei Hbs Hdo Hdn Hmv Htg HQ isdir ex. pose proof Hok as [Hfs _].
  destruct (named_used G HG s odir mo oname i t Hok Hod Hmo) as (Hi & Hu & _). destruct (named_used G HG s ndir mn nname e te Hok Hnd Hmn) as (He & Hue & _).
  destruct (Htg e te Hmn) as [Hfirst Hch]. pose proof (go_isz G HG). destruct (dir_used G s ndir mn Hnd) as [Hni Hnu]. destruct (dir_used G s odir mo Hod) as [Hoi Huo].
  assert (128 ≤ zlen ex) as Hz by (unfold ex; rewrite (zlen_inode_at G HG); [lia|apply Hfs|done]).
  assert (∀ j m, has_dir G s j m → kind (inode_at G s j) = S_IFDIR) as Hdk.
  { intros j m (r & HR & Hk & _). by destruct (tree_inodes_Some G s j r HR) as (_ & <- & _). }
  assert ((kind (inode_at G s i) = S_IFDIR → kind ex = S_IFDIR) → (kind ex = S_IFDIR → forallb (λ x : Entry, is_dots x.1) (dir_ents G s e) = true) →
    wp (_ ←? set_entry ndir nname i (ft_from_mode (fget i_mode (inode_at G s i))); _ ←? drop_target ndir e ex (kind ex =? S_IFDIR);
        rename_finish odir oname ndir i (isdir && negb (odir =? ndir))) Q s) as Hgo.
  { intros Hsame Hemp. assert (e ≠ ndir ∧ e ≠ odir) as [Hen Heo].
    { split; intros ->; [pose proof (Hdk _ _ Hnd) as Hk|pose proof (Hdk _ _ Hod) as Hk]; specialize (Hemp Hk);
        [by rewrite (in_dir_not_empty s ndir mn nname (ndir, te)) in Hemp|by rewrite (in_dir_not_empty s odir mo oname (i, t)) in Hemp]. }
    apply wp_try_assoc. apply (claim_over s ndir mn nname i e te); try done; [intros Hk; split; [by apply Hch|by apply Hemp]|]. intros sA Hcl Hdown Hgone. cbn beta iota.
    apply runs_wp, (rename_tail s odir mo oname ndir mn nname i t [e] sA); try done.
    - intros -> ->. rewrite (has_dir_ents G s ndir mo Hod), <- (has_dir_ents G s ndir mn Hnd) in Hmo. congruence.
    - set_solver.
    - set_solver.
    - intros Hki _ Hmax. specialize (Hdown (Hsame Hki)). pose proof (nlinks_range s ndir Hfs Hni). lia.
    - intros s' _ F1 F2 F3 F4 F5 F6. apply HQ. exists i, t. split; [done|]. rewrite Hmn, (proj2 (Z.eqb_neq e i)) by done. split_and!; try done.
      assert (e ∉ [odir; i; ndir]) as Hex by set_solver. fold ex. fold ex in Hgone. destruct (kind ex =? S_IFDIR).
      + by rewrite (st_used _ _ _ F4).
      + destruct (st_other _ _ _ F4 e Hex) as [Y1 Y2]. unfold dropped in *. by rewrite (st_used _ _ _ F4), (st_links _ _ _ F4), Y1, Y2 by done. }
  e2_steps. unfold is_dir. rewrite is_kind_eq by done. e2_steps. fold ex in Hch.
  assert (∀ er, er ≠ NoSpace → match er with NotDir => kind (inode_at G s i) = S_IFDIR ∧ kind ex ≠ S_IFDIR | IsDir => kind (inode_at G s i) ≠ S_IFDIR ∧ kind ex = S_IFDIR
    | NotEmpty => ∃ me n, has_dir G s e me ∧ is_Some (me !! n) ∧ is_dots n = false | _ => False end → Q (inl er) s) as Hfail.
  { intros er Hns Her. apply HQ. destruct er; try done; (split; [done|]).
    - exists i, t, e, te. destruct Her. done.
    - exists i, t, e, te. destruct Her. done.
    - destruct Her as (me & n & ?). exists e, te, me, n. tauto. }
  unfold isdir in *. destruct (Z.eqb_spec (kind (inode_at G s i)) S_IFDIR) as [Hki|Hki], (Z.eqb_spec (kind ex) S_IFDIR) as [Hke|Hke]; cbn [andb negb] in *.
  - assert (has_dir G s e (list_to_map (dir_ents G s e))) as Hme.
    { exists ex. split_and!; try done. unfold tree_inodes. rewrite (proj2 (is_inob_true G e) He), Hue. fold ex. unfold has_tree. by rewrite Hke. }
    apply wp_try. apply (fs_empty G HG s e _ _ Hfs Hme). cbn beta iota. destruct (forallb _ _) eqn:E; cbn [negb]; [by apply Hgo|].
    e2_steps. apply Hfail; [done|]. destruct (not_empty _ E) as (n & ? & ?). by exists (list_to_map (dir_ents G s e)), n.
  - e2_steps. by apply Hfail.
  - e2_steps. by apply Hfail.
  - apply wp_try, wp_ok. cbn beta iota. cbn [negb]. by apply Hgo.
Qed.

Lemma runs_rename s odir mo oname ndir mn nname Q :
  fs_ok G s → has_dir G s odir mo → has_dir G s ndir mn → room G s ndir → g_bs G < 65536 → Forall is_byte nname →
  is_dots oname = false → is_dots nname = false →
  (∀ i t, mo !! oname = Some (i, t) → may_move s odir ndir i) → target_ok s ndir mn nname →
  (∀ r s', rename_post s odir mo oname ndir mn nname r s' → (r = inr tt → ¬ at_link_limit s odir mo oname ndir mn nname) → Q r s') →
  runs (rename odir oname ndir nname) (at_link_limit s odir mo oname ndir mn nname) Q s.
Proof using HG.
  intros Hok Hod Hnd Hroom Hbs Hnb Hdo Hdn Hmv Htg HQ. pose proof Hok as [Hfs _]. pose proof (fo_blocks _ _ (fs_files _ _ Hfs)) as Hs. pose proof (bo_disk _ _ Hs) as Hdk. pose proof (go_isz G HG).
  unfold rename, check_rw. e2_steps. rewrite (bo_rw _ _ Hs). e2_steps. destruct (Z.ltb_spec 255 (zlen nname)) as [Hlong|Hshort]; [e2_steps; apply HQ; [split; [done|lia]|done]|]. e2_steps.
  apply wp_runs, (fs_lookup G HG s odir mo); [done|done|]. destruct (mo !! oname) as [[i t]|] eqn:Hmo; [|by apply HQ]. cbn beta iota. e2_steps.
  destruct (named_used G HG s odir mo oname i t Hok Hod Hmo) as (Hi & Hu & _). specialize (Hmv i t eq_refl). set (raw := inode_at G s i) in *.
  assert (128 ≤ zlen raw) as Hz by (unfold raw; rewrite (zlen_inode_at G HG) by done; lia).
  assert (∀ v, mn !! nname = Some v → at_link_limit s odir mo oname ndir mn nname → False) as Hover by (intros v Hv (? & ? & _ & _ & _ & E & _); congruence).
  apply wp_runs; eapply wp_eq; [by apply (read_inode_eq G HG)|]. cbn beta iota. fold raw. unfold is_dir. rewrite is_kind_eq by done. e2_steps. rewrite iget_ok by done. e2_steps.
  apply wp_runs, (fs_lookup G HG s ndir mn); [done|done|]. destruct (mn !! nname) as [[e te]|] eqn:Hmn; cbn beta iota.
  - destruct (Z.eqb_spec e i) as [->|Hei]. { e2_steps. apply HQ; [|intros _ Hlim; by apply (Hover _ eq_refl)]. exists i, t. rewrite Hmn, Z.eqb_refl. done. }
    destruct (named_used G HG s ndir mn nname e te Hok Hnd Hmn) as (He & Hue & _). e2_steps. apply wp_runs; eapply wp_eq; [by apply (read_inode_eq G HG)|]. cbn beta iota.
    apply wp_runs, (wp_rename_over s odir mo oname ndir mn nname i t e te); try done. intros r s' Hr. apply HQ; [done|]. intros _ Hlim. by apply (Hover _ eq_refl).
  - destruct (decide (0 < zlen nname < 256)) as [Hlen|Hlen]; cycle 1.
    { e2_steps. apply wp_runs; eapply wp_eq; [by apply add_entry_long|]. by apply HQ. }
    destruct (dir_used G s ndir mn Hnd) as [Hni Hnu]. e2_steps. apply wp_runs, (fs_add_entry G HG s ndir mn); try done; [apply ft_range| |].
    + intros l s1 D1 D2 D3. cbn beta iota. pose proof (dm_dir _ _ _ _ _ D1) as Hd1. rewrite D3 in Hd1.
      apply (rename_tail s odir mo oname ndir mn nname i t [] s1); try done; [intros -> ->|set_solver|set_solver| | |]; rewrite ?(dm_links _ _ _ _ _ D1) by done.
      * rewrite (has_dir_ents G s ndir mo Hod), <- (has_dir_ents G s ndir mn Hnd) in Hmo. congruence.
      * split; [|by eapply step_dir|done].
        destruct (owes_dir ndir l s s1 _ (λ j, one i j) Hni (ok_owes s Hok) D1) as [C L]; [intros j; rewrite D2, nrefs_cons; cbn [fst snd]; unfold one; lia|].
        split; [done|]. intros j Hj. rewrite L by done. lia.
      * intros Hk Hne Hmax. by exists i, t.
      * intros s' Hlim F1 F2 F3 F4 F5 F6. apply HQ; [exists i, t; by rewrite Hmn|]. intros _ (i' & t' & Hmo' & Hk & Hne & _ & Hmax). simplify_eq. specialize (Hlim Hk Hne). lia.
    + intros s1 D1 Hfull. cbn beta iota. apply HQ; [|done]. destruct (dir_kept G s ndir mn s1 Hok Hnd D1) as (K1 & K2 & K3).
      split_and!; try done; [by eapply step_dir|by rewrite (dm_used _ _ _ _ _ D1)].
Qed.
End rename.
