(* ===== verification/Ext2Demo.v ===== *)
(** * The ext2 file system: a small example

    A file system of sixteen 1 KiB blocks with a root directory, a file and an
    empty directory, and a test for the invariant on file systems whose files use only direct
    blocks. *)

From S2P Require Import Prelude Text Bytes Ext2 Ext2Fs Ext2Names Ext2Disk Ext2Alloc Ext2Blocks Ext2Inode Ext2Tree Ext2Map Ext2File Ext2Spec Ext2Dirent Ext2Dir Ext2Inodes Ext2Links.

(** ** Files with direct blocks only *)

Section flat.
Context (G : Geo) (HG : geo_ok G).
Implicit Types s : Fs.

Definition no_indirect (raw : Inode) : Prop := iblk raw 12 = 0 ∧ iblk raw 13 = 0 ∧ iblk raw 14 = 0.

Lemma node_flat s raw q : no_indirect raw → valid G q → node s raw q ≠ 0 → q.2 = [] ∧ 0 ≤ q.1 < 12 ∧ node s raw q = iblk raw q.1.
Proof.
  destruct q as [sl q]. intros (H1 & H2 & H3) (Hs & Hl & _). unfold node. cbn [fst snd] in *. intros Hn.
  assert (iblk raw sl ≠ 0) as Hi by (intros He; apply Hn; by rewrite He, walk_0).
  assert (sl ≠ 12 ∧ sl ≠ 13 ∧ sl ≠ 14) by (split_and!; by intros ->). assert (sl < 12) by lia.
  destruct q as [|i q]; [|unfold depth in Hl; simpl in Hl; lia]. split_and!; [done|lia|lia|done].
Qed.

Lemma trees_flat s R :
  (∀ ino raw, R ino = Some raw → zlen raw = g_isz G ∧ Forall is_byte raw ∧ no_indirect raw) →
  (∀ ino raw k, R ino = Some raw → 0 ≤ k < 12 → iblk raw k ≠ 0 → in_file G s (iblk raw k)) →
  (∀ ino raw k ino' raw' k', R ino = Some raw → R ino' = Some raw' → 0 ≤ k < 12 → 0 ≤ k' < 12 →
     iblk raw k = iblk raw' k' → iblk raw k ≠ 0 → ino = ino' ∧ k = k') →
  trees_ok G s R.
Proof.
  intros Hraw Hin Hinj. split.
  - intros ino raw HR. by destruct (Hraw ino raw HR) as (? & ? & _).
  - intros ino raw p HR Hp Hn. destruct (Hraw ino raw HR) as (_ & _ & Hf).
    destruct (node_flat s raw p Hf Hp Hn) as (_ & Hk & He). rewrite He in *. by apply (Hin ino).
  - intros ino raw p ino' raw' p' HR HR' Hp Hp' He Hn. destruct (Hraw ino raw HR) as (_ & _ & Hf). destruct (Hraw ino' raw' HR') as (_ & _ & Hf').
    destruct (node_flat s raw p Hf Hp Hn) as (Hq & Hk & E1). destruct (node_flat s raw' p' Hf' Hp' ltac:(congruence)) as (Hq' & Hk' & E2).
    destruct (Hinj ino raw p.1 ino' raw' p'.1 HR HR' Hk Hk') as [-> Hs]; [congruence|congruence|]. split; [done|].
    destruct p, p'. cbn [fst snd] in *. congruence.
Qed.
End flat.

(** ** The example *)

Definition pad (n : Z) (l : list Z) : list Z := l ++ zeros (n - zlen l).

Definition demo_sb : list Z :=
  foldr (λ e b, sb_set e.1 e.2 b) (zeros 1024)
    [(s_inodes_count, 16); (s_blocks_count, 16); (s_free_blocks, 6); (s_free_inodes, 3); (s_first_data_block, 1);
     (s_blocks_per_group, 8192); (s_inodes_per_group, 16); (s_magic, MAGIC); (s_rev_level, 1); (s_first_ino, 11);
     (s_inode_size, 128); (s_feature_incompat, INCOMPAT_FILETYPE); (s_feature_ro_compat, RO_LARGE_FILE)].

Definition demo_inode (mode size nlink sectors blk0 : Z) : Inode :=
  foldr (λ e b, fset e.1 e.2 b) (zeros 128)
    [(i_mode, mode); (i_size_lo, size); (i_links, nlink); (i_sectors, sectors); (i_block 0, blk0)].

(** The bytes of [hello]. *)
Definition hello : list Z := [104; 101; 108; 108; 111].

Definition demo_inode_of (ino : Z) : Inode :=
  if ino =? 2 then demo_inode (S_IFDIR + 493) 1024 3 2 7
  else if ino =? 12 then demo_inode (S_IFREG + 420) 5 1 2 8
  else if ino =? 13 then demo_inode (S_IFDIR + 493) 1024 2 2 9 else zeros 128.

Definition demo_table : list Z := concat (demo_inode_of <$> seqZ 1 16).

(** [.] and [..] of the root, the file [f] and the directory [d]. *)
Definition demo_root : list Z :=
  [2;0;0;0; 12;0; 1; 2; 46;0;0;0; 2;0;0;0; 12;0; 2; 2; 46;46;0;0; 12;0;0;0; 12;0; 1; 1; 102;0;0;0; 13;0;0;0; 220;3; 1; 2; 100].

(** [.] and [..] of the directory [d]. *)
Definition demo_sub : list Z := [13;0;0;0; 12;0; 1; 2; 46;0;0;0; 2;0;0;0; 244;3; 2; 2; 46;46].

Definition demo_desc : GroupDesc := mkGroup 3 4 5 6 3 2.

Definition demo_dev : list Z :=
  zeros 1024 ++ demo_sb ++ pad 1024 (encode demo_desc) ++ pad 1024 [255; 129] ++ pad 1024 [255; 31]
  ++ demo_table ++ pad 1024 demo_root ++ pad 1024 hello ++ pad 1024 demo_sub ++ zeros (6 * 1024).

Definition demo : Fs := mkExt2 demo_dev demo_sb 1024 [demo_desc] false false false (λ n, 1000 + Z.of_nat n) 0 true.

Definition demo_geo : Geo := mkGeo 16384 1024 16 1 8192 16 128 16 11 [(3, 4, 5)].

Lemma demo_geo_ok : geo_ok demo_geo.
Proof.
  split; try done; try (vm_compute; done); try (split; vm_compute; done).
  - apply Forall_forall. intros e He. cbv in He. repeat (apply elem_of_cons in He as [->|He]; [cbv; done|]). by apply elem_of_nil in He.
  - intros i j e f b He Hf. change (extents demo_geo) with [(3, 1); (4, 1); (5, 2)] in *. unfold in_ext.
    destruct i as [|[|[|i]]], j as [|[|[|j]]]; simplify_eq/=; lia.
Qed.

Lemma forallb_seqZ (f : Z → bool) a n : forallb f (seqZ a n) = true → ∀ i, a ≤ i < a + n → f i = true.
Proof. intros Hf i Hi. rewrite forallb_forall in Hf. apply Hf, list_elem_of_In, elem_of_seqZ. lia. Qed.

Definition all_bytes (l : list Z) : bool := forallb (λ x, (0 <=? x) && (x <? 256)) l.

Lemma all_bytes_Forall l : all_bytes l = true → Forall is_byte l.
Proof.
  intros Hl. apply Forall_forall. intros x Hx%list_elem_of_In. unfold all_bytes in Hl. rewrite forallb_forall in Hl.
  specialize (Hl x Hx). apply andb_true_iff in Hl as [?%Z.leb_le ?%Z.ltb_lt]. unfold is_byte. lia.
Qed.

Lemma demo_disk_ok : disk_ok demo_geo demo.
Proof. split; [vm_compute; done|done|apply all_bytes_Forall; vm_compute; done|apply all_bytes_Forall; vm_compute; done]. Qed.

Lemma demo_inode_at ino : 1 ≤ ino ≤ 16 → inode_at demo_geo demo ino = demo_inode_of ino.
Proof.
  intros Hi.
  assert (forallb (λ i, bool_decide (inode_at demo_geo demo i = demo_inode_of i)) (seqZ 1 16) = true) as Hall by (vm_compute; done).
  pose proof (forallb_seqZ _ 1 16 Hall ino ltac:(lia)) as He. cbv beta in He. by apply bool_decide_eq_true in He.
Qed.

Lemma demo_isfree b : isfree demo_geo demo b = true → 10 ≤ b < 16.
Proof.
  intros Hb. pose proof (isfree_range _ _ _ Hb) as Hr. change (g_first demo_geo) with 1 in Hr. change (g_blocks demo_geo) with 16 in Hr.
  assert (forallb (λ b, implb (isfree demo_geo demo b) (10 <=? b)) (seqZ 1 15) = true) as Hall by (vm_compute; done).
  pose proof (forallb_seqZ _ 1 15 Hall b ltac:(lia)) as Hl. cbv beta in Hl. rewrite Hb in Hl. apply Z.leb_le in Hl. lia.
Qed.

Lemma demo_meta b : is_meta demo_geo b → b ≤ 6.
Proof.
  intros [Hb|(e & He & Hb)]; [change (g_first demo_geo + g_gdtb demo_geo) with 2 in Hb; lia|].
  change (extents demo_geo) with [(3, 1); (4, 1); (5, 2)] in He. unfold in_ext in Hb.
  repeat (apply elem_of_cons in He as [->|He]; [cbn in Hb; lia|]). by apply elem_of_nil in He.
Qed.

Lemma demo_blocks_ok : blocks_ok demo_geo demo.
Proof.
  split; [apply demo_disk_ok|done| |done|].
  - intros [|n] d Hd; [|done]. injection Hd as <-. vm_compute. done.
  - intros b Hb Hm%demo_meta. pose proof (demo_isfree b Hb). lia.
Qed.

(** The block at a slot of an inode. *)
Definition demo_first (ino : Z) : Z := if ino =? 2 then 7 else if ino =? 12 then 8 else if ino =? 13 then 9 else 0.

Lemma demo_slot ino k : 1 ≤ ino ≤ 16 → 0 ≤ k < 15 → iblk (demo_inode_of ino) k = if k =? 0 then demo_first ino else 0.
Proof.
  intros Hi Hk. apply Z.eqb_eq. revert ino Hi.
  assert (forallb (λ i, forallb (λ k, iblk (demo_inode_of i) k =? if k =? 0 then demo_first i else 0) (seqZ 0 15)) (seqZ 1 16) = true) as Hall by (vm_compute; done).
  intros ino Hi. pose proof (forallb_seqZ _ 1 16 Hall ino ltac:(lia)) as Hf. cbv beta in Hf. apply (forallb_seqZ _ 0 15 Hf). lia.
Qed.

Lemma demo_first_in ino : demo_first ino ≠ 0 → in_file demo_geo demo (demo_first ino).
Proof.
  assert (∀ b, 7 ≤ b ≤ 9 → in_file demo_geo demo b) as Hin.
  { intros b Hb. split; [change (g_blocks demo_geo) with 16; unfold good_block; cbn; lia|]. split; [|intros Hm%demo_meta; lia].
    destruct (isfree demo_geo demo b) eqn:E; [|done]. apply demo_isfree in E. lia. }
  unfold demo_first. intros Hne. apply Hin. destruct (_ =? _); [lia|]. destruct (_ =? _); [lia|]. destruct (_ =? _); [lia|done].
Qed.

Lemma demo_tree_inodes ino raw : tree_inodes demo_geo demo ino = Some raw → 1 ≤ ino ≤ 16 ∧ raw = demo_inode_of ino.
Proof.
  intros HR. destruct (tree_inodes_Some _ _ _ _ HR) as (Hi & -> & _). unfold is_ino in Hi. change (g_inodes demo_geo) with 16 in Hi.
  split; [done|by apply demo_inode_at].
Qed.

Lemma demo_trees_ok : trees_ok demo_geo demo (tree_inodes demo_geo demo).
Proof.
  apply trees_flat.
  - intros ino raw HR. pose proof (demo_tree_inodes ino raw HR) as [Hi ->]. unfold no_indirect. rewrite !demo_slot by lia.
    split_and!; try done; unfold demo_inode_of; destruct (ino =? 2), (ino =? 12), (ino =? 13); try done; apply all_bytes_Forall; vm_compute; done.
  - intros ino raw k HR Hk. pose proof (demo_tree_inodes ino raw HR) as [Hi ->]. rewrite demo_slot by lia. destruct (k =? 0); [apply demo_first_in|done].
  - intros ino raw k ino' raw' k' HR HR' Hk Hk'. pose proof (demo_tree_inodes ino raw HR) as [Hi ->]. pose proof (demo_tree_inodes ino' raw' HR') as [Hi' ->].
    rewrite !demo_slot by lia. unfold demo_first. destruct (Z.eqb_spec k 0), (Z.eqb_spec k' 0); try (intros; congruence).
    destruct (Z.eqb_spec ino 2), (Z.eqb_spec ino' 2), (Z.eqb_spec ino 12), (Z.eqb_spec ino' 12), (Z.eqb_spec ino 13), (Z.eqb_spec ino' 13); intros; try done; split; lia.
Qed.

Lemma demo_files_ok : files_ok demo_geo demo.
Proof.
  split; [apply demo_blocks_ok|apply demo_trees_ok|]. intros ino raw pos HR Hk Hpos. pose proof (demo_tree_inodes ino raw HR) as [Hi ->].
  unfold demo_inode_of in *. destruct (Z.eqb_spec ino 2); [by vm_compute in Hk|]. destruct (Z.eqb_spec ino 12); [|destruct (ino =? 13); by vm_compute in Hk].
  set (raw := demo_inode _ _ _ _ _) in *. change (fsize raw) with 5 in Hpos. change (g_bs demo_geo) with 1024 in *.
  unfold fbyte. change (g_bs demo_geo) with 1024. assert (0 ≤ pos / 1024) by (apply Z.div_pos; lia). destruct (fpos demo_geo (pos / 1024)) as [p|] eqn:E; [|done].
  destruct (fpos_valid _ demo_geo_ok (pos / 1024) p ltac:(done) E) as [Hv Hl].
  destruct (Z.eqb_spec (node demo raw p) 0) as [|Hn]; [done|].
  assert (no_indirect raw) as Hno by (split_and!; vm_compute; done). destruct (node_flat _ demo raw p Hno Hv Hn) as (Hq & Hk2 & He). rewrite He in *.
  pose proof (demo_slot 12 p.1 ltac:(lia) ltac:(lia)) as Hs. change (demo_inode_of 12) with raw in Hs. change (demo_first 12) with 8 in Hs.
  destruct (Z.eqb_spec p.1 0) as [Hp0|]; [|by rewrite Hs in Hn]. rewrite Hs. destruct p as [k q]. cbn [fst snd] in *. subst k q.
  pose proof (fpos_inj _ demo_geo_ok (pos / 1024) 0 (0, []) ltac:(done) ltac:(done) E ltac:(done)) as Hz.
  assert (blk demo 8 = pad 1024 hello) as -> by (apply (bool_decide_eq_true_1 _); vm_compute; done).
  pose proof (Z.div_mod pos 1024 ltac:(lia)). unfold pad, byte. rewrite app_nth2 by (change (length hello) with 5%nat; lia).
  replace (_ - _)%nat with (Z.to_nat (pos mod 1024 - 5)) by (change (length hello) with 5%nat; lia). apply byte_zeros.
Qed.

(** ** Its directories *)

Definition demo_recs (ino : Z) : list Rec :=
  if ino =? 2 then [mkRec 2 12 [46] 2; mkRec 2 12 [46; 46] 2; mkRec 12 12 [102] 1; mkRec 13 988 [100] 2]
  else [mkRec 13 12 [46] 2; mkRec 2 1012 [46; 46] 2].

Definition demo_ents (ino : Z) : list Entry :=
  if ino =? 2 then [([46], (2, 2)); ([46; 46], (2, 2)); ([102], (12, 1)); ([100], (13, 2))]
  else if ino =? 13 then [([46], (13, 2)); ([46; 46], (2, 2))] else [].

Lemma demo_data ino : ino = 2 ∨ ino = 13 → fdata demo_geo demo (demo_inode_of ino) 0 1024 = blk demo (demo_first ino).
Proof.
  intros Hi. assert (1 ≤ ino ≤ 16) as Hr by lia. assert (demo_first ino ≠ 0 ∧ 1 ≤ demo_first ino < 16) as [Hn Hb] by (destruct Hi as [->| ->]; vm_compute; done).
  assert (zlen (blk demo (demo_first ino)) = 1024) as Hz by (apply (zlen_blk _ demo_geo_ok); [apply demo_disk_ok|change (g_blocks demo_geo) with 16; lia]).
  apply bytes_ext; rewrite zlen_fdata by lia; [done|]. intros k Hk. rewrite byte_fdata, Z.add_0_l by lia. unfold fbyte. change (g_bs demo_geo) with 1024.
  rewrite Z.div_small, Z.mod_small by lia. change (fpos demo_geo 0) with (Some (0, [] : list Z)). unfold node. cbn [fst snd walk].
  rewrite demo_slot by lia. change (0 =? 0) with true. cbn iota. by rewrite (proj2 (Z.eqb_neq _ 0)).
Qed.

Definition rec_fits (b : list Z) (o : Z) (r : Rec) : bool :=
  bool_decide (8 + zlen (r_name r) ≤ r_len r) && (r_len r mod 4 =? 0) && (r_len r <? 65536) && bool_decide (0 ≤ r_ino r < U32) && bool_decide (0 ≤ r_type r < 256)
  && (zlen (r_name r) <? 256) && (field 4 b o =? r_ino r) && (field 2 b (o + 4) =? r_len r) && (field 1 b (o + 6) =? zlen (r_name r))
  && (field 1 b (o + 7) =? r_type r) && bool_decide (seg b (o + 8) (zlen (r_name r)) = r_name r).

Fixpoint tiles_fit (b : list Z) (o : Z) (l : list Rec) (e : Z) : bool :=
  match l with
  | [] => o =? e
  | r :: l' => rec_fits b o r && tiles_fit b (o + r_len r) l' e
  end.

Lemma tiles_fit_tiled b o l e : tiles_fit b o l e = true → tiled b o l e.
Proof.
  revert o. induction l as [|r l IH]; intros o; cbn [tiles_fit tiled]; [by intros ?%Z.eqb_eq|]. intros [Hr Hl]%andb_true_iff. split; [|by apply IH].
  unfold rec_fits in Hr. rewrite !andb_true_iff, !bool_decide_eq_true, !Z.eqb_eq, !Z.ltb_lt in Hr. destruct Hr as ((((((((((? & ?) & ?) & ?) & ?) & ?) & ?) & ?) & ?) & ?) & ?).
  by split_and!.
Qed.

Lemma demo_tiles ino : ino = 2 ∨ ino = 13 → dir_tiles demo_geo (fdata demo_geo demo (demo_inode_of ino) 0 1024) [demo_recs ino] ∧ dents [demo_recs ino] = demo_ents ino.
Proof.
  intros Hi. rewrite demo_data by done. split; [|by destruct Hi as [->| ->]].
  assert (zlen (blk demo (demo_first ino)) = 1024) as Hz.
  { apply (zlen_blk _ demo_geo_ok); [apply demo_disk_ok|]. destruct Hi as [->| ->]; vm_compute; done. }
  split; [by rewrite Hz|]. intros [|k] l Hl; [|done]. injection Hl as <-. change (g_bs demo_geo) with 1024. change (Z.of_nat 0 * 1024) with 0. rewrite seg_full by done.
  apply tiles_fit_tiled. destruct Hi as [->| ->]; vm_compute; done.
Qed.

Lemma demo_kind ino raw : tree_inodes demo_geo demo ino = Some raw → kind raw = S_IFDIR → (ino = 2 ∨ ino = 13) ∧ raw = demo_inode_of ino ∧ fsize raw = 1024.
Proof.
  intros HR Hk. pose proof (demo_tree_inodes ino raw HR) as [Hi ->]. unfold demo_inode_of in *.
  destruct (Z.eqb_spec ino 2); [split; [by left|done]|]. destruct (Z.eqb_spec ino 12); [by vm_compute in Hk|]. destruct (Z.eqb_spec ino 13); [split; [by right|done]|by vm_compute in Hk].
Qed.

Lemma demo_used ino : 1 ≤ ino ≤ 16 → ino_used demo_geo demo ino = (ino <? 14).
Proof.
  intros Hi. assert (forallb (λ i, Bool.eqb (ino_used demo_geo demo i) (i <? 14)) (seqZ 1 16) = true) as Hall by (vm_compute; done).
  pose proof (forallb_seqZ _ 1 16 Hall ino ltac:(lia)) as He. by apply eqb_prop in He.
Qed.

Lemma demo_dir ino : ino = 2 ∨ ino = 13 → tree_inodes demo_geo demo ino = Some (demo_inode_of ino) ∧ kind (demo_inode_of ino) = S_IFDIR.
Proof.
  intros Hi. unfold tree_inodes. rewrite demo_inode_at, demo_used by lia. destruct Hi as [->| ->]; vm_compute; done.
Qed.

Lemma demo_dir_ents ino : dir_ents demo_geo demo ino = demo_ents ino.
Proof.
  unfold dir_ents. destruct (tree_inodes demo_geo demo ino) as [raw|] eqn:E.
  - destruct (Z.eqb_spec (kind raw) S_IFDIR) as [Hk|Hk].
    + destruct (demo_kind ino raw E Hk) as (Hi & -> & ->). destruct (demo_tiles ino Hi) as [Ht He].
      by rewrite (dir_entries_tiles _ demo_geo_ok _ _ Ht).
    + unfold demo_ents. destruct (Z.eqb_spec ino 2) as [->|]; [|destruct (Z.eqb_spec ino 13) as [->|]; [|done]]; exfalso;
        [destruct (demo_dir 2) as [He Hd]|destruct (demo_dir 13) as [He Hd]]; auto; rewrite E in He; injection He as ->; done.
  - unfold demo_ents. destruct (Z.eqb_spec ino 2) as [->|]; [|destruct (Z.eqb_spec ino 13) as [->|]; [|done]]; exfalso;
      [destruct (demo_dir 2) as [He _]|destruct (demo_dir 13) as [He _]]; auto; congruence.
Qed.

Lemma demo_inodes_ok : inodes_ok demo_geo demo.
Proof.
  split; [|done|done|done|].
  - intros [|n] d Hd; [|done]. injection Hd as <-. vm_compute. done.
  - assert (forallb (λ i, bit (blk demo (ib_of demo_geo 0)) i) (seqZ 0 10) = true) as Hall by (vm_compute; done).
    intros i Hi. change (g_first_ino demo_geo - 1) with 10 in Hi. apply (forallb_seqZ _ 0 10 Hall). lia.
Qed.

Lemma demo_fs_ok : fs_ok demo_geo demo.
Proof.
  split.
  - split; [apply demo_files_ok|apply demo_inodes_ok| |].
    + intros d raw HR Hk. destruct (demo_kind d raw HR Hk) as (Hi & -> & ->). destruct (demo_tiles d Hi) as [Ht He]. exists [demo_recs d]. split; [done|].
      rewrite He. apply (bool_decide_eq_true_1 _). destruct Hi as [->| ->]; vm_compute; done.
    + intros d e He. rewrite demo_dir_ents in He. assert (forallb (λ e : Entry, bool_decide (1 ≤ e.2.1 ≤ 16)) (demo_ents d) = true) as Hall.
      { unfold demo_ents. destruct (_ =? _); [done|]. by destruct (_ =? _). }
      rewrite forallb_forall in Hall. specialize (Hall e (proj1 (list_elem_of_In _ _) He)). by apply bool_decide_eq_true in Hall.
  - intros i Hi. unfold is_ino in Hi. change (g_inodes demo_geo) with 16 in Hi. unfold refs. change (g_inodes demo_geo) with 16.
    rewrite (sumz_ext _ (λ d, nrefs i (demo_ents d))) by (intros x _; by rewrite demo_dir_ents). unfold nlinks. rewrite demo_used, demo_inode_at by done.
    assert (forallb (λ i, sumz (λ d, nrefs i (demo_ents d)) (seqZ 1 16) =? if i <? 14 then fget i_links (demo_inode_of i) else 0) (seqZ 1 16) = true) as Hall by (vm_compute; done).
    apply Z.eqb_eq, (forallb_seqZ _ 1 16 Hall). lia.
Qed.

Lemma demo_has_dir ino : ino = 2 ∨ ino = 13 → has_dir demo_geo demo ino (list_to_map (demo_ents ino)).
Proof. intros Hi. destruct (demo_dir ino Hi) as [H1 H2]. exists (demo_inode_of ino). by rewrite demo_dir_ents. Qed.
