(* ===== verification/Ext2Contract.v ===== *)
(** * The ext2 file system: the contract

    What the operations of [Ext2] promise their caller, the kernel's VFS node
    ([kernel/src/fs/ext2fs.rs]): each call returns without a panic, keeps the
    invariant of the whole file system, does what it should to the file or the
    directory it is about, and touches no other file. *)

From S2P Require Import Prelude Text Bytes Ext2 Ext2Fs Ext2Names Ext2Disk Ext2Alloc Ext2Blocks Ext2Inode Ext2Tree Ext2Map Ext2File Ext2Spec Ext2Free Ext2Trunc Ext2Dirent Ext2Dir Ext2Inodes Ext2Links Ext2Create Ext2Link Ext2Mkdir Ext2Rename Ext2Demo.

(** The call returns, and result and new state are as [P] says. *)
Definition ends {A} (m : Exec Fs (Error + A)) (s : Fs) (P : Error + A → Fs → Prop) : Prop :=
  ∃ r s', m s = Some (r, s') ∧ P r s'.

Section contract.
Context (G : Geo) (HG : geo_ok G).
Implicit Types (s : Fs).

(** ** Files *)

(** Inode [ino] is a regular file with bytes [l]. *)
Definition is_file s (ino : Z) (l : list Z) : Prop := contents G s ino = Some l ∧ kind (inode_at G s ino) = S_IFREG.

Lemma is_file_raw s ino l : is_file s ino l → ∃ raw, tree_inodes G s ino = Some raw ∧ raw = inode_at G s ino ∧ kind raw = S_IFREG ∧ l = fdata G s raw 0 (fsize raw).
Proof.
  intros [Hc Hk]. unfold contents in Hc. destruct (tree_inodes G s ino) as [raw|] eqn:E; [|done]. destruct (tree_inodes_Some G s ino raw E) as (_ & -> & _).
  cbn in Hc. injection Hc as <-. by eexists.
Qed.

(** The bytes of [ino] became [l'], and nothing else changed. *)
Definition became s (ino : Z) (l' : list Z) s' : Prop :=
  fs_ok G s' ∧ is_file s' ino l' ∧ same_id (inode_at G s ino) (inode_at G s' ino) ∧ kept G [ino] s s' ∧
  ∀ j, is_ino G j → ino_used G s' j = ino_used G s j.

Lemma updates_became s ino l l' s' : fs_ok G s → is_file s ino l → updates G ino l' s s' → became s ino l' s'.
Proof using HG.
  intros [Hfs Hlinks] Hfile [U1 U2 U3 U4 U5 U6]. destruct Hfile as [Hc Hk]. pose proof (fs_files _ _ Hfs) as Hf.
  pose proof (used_maps G HG s s' U5) as Hused.
  assert (kind (inode_at G s' ino) = S_IFREG) as Hk' by (unfold kind in *; by rewrite U4).
  assert (∀ j, j ≠ ino → dir_ents G s' j = dir_ents G s j) as He.
  { intros j Hj. apply dir_ents_contents; [by apply U3|]. intros Hi. by rewrite (proj2 (U3 j Hj) Hi). }
  assert (∀ t, kind (inode_at G t ino) = S_IFREG → dir_ents G t ino = []) as Hnone.
  { intros t Ht. unfold dir_ents. destruct (tree_inodes G t ino) as [r|] eqn:E; [|done]. destruct (tree_inodes_Some G t ino r E) as (_ & -> & _). by rewrite Ht. }
  assert (∀ j, dir_ents G s' j = dir_ents G s j) as Hents.
  { intros j. destruct (decide (j = ino)) as [->|]; [by rewrite !Hnone|by apply He]. }
  assert (fs_core G s') as Hcore.
  { split; [done|apply (inodes_ok_side G HG s s'); [apply (fo_blocks _ _ Hf)|apply (fo_blocks _ _ U1)|apply Hfs|done|done]| |].
    - intros j raw HR Hd. destruct (tree_inodes_Some G s' j raw HR) as (Hi & Hr & _). destruct (decide (j = ino)) as [->|Hj]; [by rewrite Hr, Hk' in Hd|].
      destruct (U3 j Hj) as [Hcj Hrj]. unfold contents in Hcj. rewrite HR in Hcj. destruct (tree_inodes G s j) as [raw0|] eqn:E; [|done]. cbn in Hcj. injection Hcj as ->.
      apply (fs_dirs _ _ Hfs j raw0 E). destruct (tree_inodes_Some G s j raw0 E) as (_ & -> & _). by rewrite <- Hrj, <- Hr.
    - intros j e. rewrite Hents. apply (fs_named _ _ Hfs). }
  split_and!; try done.
  - split; [done|]. intros j Hj. rewrite (refs_same G s s' j) by done. rewrite (Hlinks j Hj). unfold nlinks. rewrite Hused by done.
    destruct (decide (j = ino)) as [->|Hne]; [by rewrite U4|by rewrite (proj2 (U3 j Hne) Hj)].
  - intros j Hj Hu Hn. apply not_elem_of_cons in Hn as [Hn _]. destruct (U3 j Hn) as [-> H2]. by rewrite Hused, H2.
Qed.

(** C6. [read], within the sizes that the block map addresses, never panics and
    returns exactly the bytes of the file from the offset on, as many as there are
    up to the length asked for; the file system does not change. *)
Theorem ext2_read s ino l off len :
  fs_ok G s → is_file s ino l → 0 ≤ off → 0 ≤ len → Z.min (off + len) (zlen l) ≤ max_size G →
  ends (read ino off len) s (λ r s', r = inr (seg l off len) ∧ s' = s).
Proof using HG.
  intros [Hfs _] Hfile Hoff Hlen Hmax. destruct (is_file_raw s ino l Hfile) as (raw & HR & _ & Hk & ->). pose proof (fs_files _ _ Hfs) as Hf.
  destruct (to_raw _ _ _ (fo_trees _ _ Hf) ino raw HR) as [Hz Hb]. pose proof (go_isz G HG). pose proof (fsize_range raw ltac:(lia) Hb). rewrite zlen_fdata in Hmax by lia.
  eexists _, _. split; [apply (read_eq G HG s ino raw off len Hf HR); [by rewrite Hk|done|done|done]|done].
Qed.

(** C2. [write], up to the sizes that the block map addresses, the code allows and
    the sector counter of the inode can count, never panics.  It puts a prefix of
    the data at the offset, filling a gap with zeros, and the prefix is short (and
    not empty) only when the disk is full; when not even one byte fits, it says so
    and the bytes of the file are as before.  Every other file, every name and
    every link count stays, and the invariant of the file system holds again. *)
Theorem ext2_write s ino l off data :
  fs_ok G s → is_file s ino l → 0 ≤ off → Forall is_byte data → off + zlen data ≤ max_size G → off + zlen data ≤ write_limit s →
  sectors_room G (inode_at G s ino) off (off + zlen data) →
  ends (write ino off data) s (λ r s',
    match r with
    | inr n => 0 ≤ n ≤ zlen data ∧ (n < zlen data → 0 < n ∧ full G s') ∧ became s ino (write_at l off (take (Z.to_nat n) data)) s'
    | inl e => e = NoSpace ∧ full G s' ∧ became s ino l s'
    end).
Proof using HG.
  intros Hok Hfile Hoff Hd Hmax Hlim Hroom. destruct (is_file_raw s ino l Hfile) as (raw & HR & Hraw & Hk & Hl). rewrite <- Hraw in Hroom. pose proof (fs_files _ _ (proj1 Hok)) as Hf.
  apply wp_run. apply (wp_write G HG s ino raw off data); try done. rewrite <- Hl. intros [e|n] s'.
  - intros (-> & Hfull & Hup). split_and!; [done|done|]. by apply (updates_became s ino l).
  - intros (Hn & Hshort & Hup). split_and!; try lia; [done|]. by apply (updates_became s ino l).
Qed.

(** C5. [truncate] to a size that the block map addresses never panics or fails:
    it cuts the file or extends it with zeros, gives blocks back but takes none, and changes no other file, no name
    and no link count. *)
Theorem ext2_truncate s ino l n :
  fs_ok G s → is_file s ino l → 0 ≤ n ≤ max_size G → n < U64 →
  ends (truncate ino n) s (λ r s', r = inr tt ∧ became s ino (resize_to l n) s' ∧ ∀ b, isfree G s b = true → isfree G s' b = true).
Proof using HG.
  intros Hok Hfile Hn H64. destruct (is_file_raw s ino l Hfile) as (raw & HR & _ & Hk & Hl). pose proof (fs_files _ _ (proj1 Hok)) as Hf.
  apply wp_run. apply (wp_truncate G HG s ino raw n); try done. rewrite <- Hl. intros s' Hup Hfree. split_and!; [done| |done]. by apply (updates_became s ino l).
Qed.

(** ** Names *)

(** C7. [create] never panics.  It makes an inode that was not in use an empty
    file of the given mode and owner with one name, the given one; or it says
    that the name is taken or too long, or that there is no inode or no block
    left, and then no file, name or inode has changed.  Link counts stay exact. *)
Theorem ext2_create s d m name mode u g rdev :
  fs_ok G s → has_dir G s d m → room G s d → g_bs G < 65536 → name ≠ [] → Forall is_byte name →
  0 ≤ mode < 2 ^ 16 → mode_kind mode ≠ S_IFDIR → 0 ≤ u < U32 → 0 ≤ g < U32 →
  ends (create d name mode u g rdev) s (created G s d m name mode u g).
Proof using HG. intros. apply wp_run. by apply (wp_create G HG s d m name mode u g rdev). Qed.

(** C8. [mkdir] never panics.  It makes a directory with [.] and [..], names it
    in its parent and counts the link of [..]; or it fails for a reason.  When
    the parent has no room for the name, the new inode stays allocated. *)
Theorem ext2_mkdir s d m name mode u g :
  fs_ok G s → has_dir G s d m → room G s d → dirs_room s → g_bs G < 65536 → name ≠ [] → Forall is_byte name → 0 ≤ u < U32 → 0 ≤ g < U32 →
  ends (mkdir d name mode u g) s (mkdir_post G s d m name mode u g).
Proof using HG. intros. apply wp_run. by apply (wp_mkdir G HG s d m name mode u g). Qed.

(** C10. [link] never panics.  It adds exactly one name for the inode and counts
    it, and its contents and other attributes stay; directories, a full link
    count, a taken or unusable name and a full disk are refused, and then no
    name, no file and no link count has changed. *)
Theorem ext2_link s d m name i :
  fs_ok G s → has_dir G s d m → room G s d → g_bs G < 65536 → Forall is_byte name → is_ino G i → ino_used G s i = true →
  ends (link d name i) s (linked G s d m name i).
Proof using HG. intros. apply wp_run. by apply (wp_link G HG s d m name i). Qed.

(** C4. [unlink] never panics.  It removes exactly the given name.  A file with
    other names, or that is in use, keeps its inode and contents and has one
    link less; otherwise the inode is free again and so is every block of it.
    A directory or an absent name is refused and nothing changes. *)
Theorem ext2_unlink s d m name in_use :
  fs_ok G s → has_dir G s d m → g_bs G < 65536 → (∀ i t, m !! name = Some (i, t) → g_first_ino G ≤ i) →
  ends (unlink d name in_use) s (unlink_post G s d m name in_use).
Proof using HG. intros. apply wp_run. by apply (wp_unlink_name G HG s d m name in_use). Qed.

(** C9. [rmdir] never panics.  It removes an empty directory: its name, its
    inode, its blocks and the link its [..] was to the parent; anything else is
    refused with a reason and nothing changes. *)
Theorem ext2_rmdir s d m name :
  fs_ok G s → has_dir G s d m → g_bs G < 65536 → (∀ i t, m !! name = Some (i, t) → g_first_ino G ≤ i ∧ child_dir G s d i) →
  ends (rmdir d name) s (rmdir_post G s d m name).
Proof using HG. intros. apply wp_run. by apply (wp_rmdir G HG s d m name). Qed.

(** C3. [rename] of names other than [.] and [..], into a directory with room for
    another block, where a directory that moves is neither of the two parents and
    its [..] is the old one.  The object has its new name and not the old one; an old target loses a
    link and is released with its last one, whether it is in use or not; a
    directory that changes its parent gets a new [..]; link counts stay exact
    and no other inode changes.  A call that returns an error changes no name,
    no file and no link count.  The call panics in one case only, in which it
    never succeeds: a directory gets a new name in another directory whose
    16-bit link count is at its limit. *)
Theorem ext2_rename s odir mo oname ndir mn nname :
  fs_ok G s → has_dir G s odir mo → has_dir G s ndir mn → room G s ndir → g_bs G < 65536 → Forall is_byte nname →
  is_dots oname = false → is_dots nname = false → (∀ i t, mo !! oname = Some (i, t) → may_move G s odir ndir i) → target_ok G s ndir mn nname →
  let limit := at_link_limit G s odir mo oname ndir mn nname in
  runs (rename odir oname ndir nname) limit (λ r s', rename_post G s odir mo oname ndir mn nname r s' ∧ (r = inr tt → ¬ limit)) s.
Proof using HG. intros. by apply (runs_rename G HG s odir mo oname ndir mn nname). Qed.
End contract.

(** ** On the example *)

Lemma demo_file : is_file demo_geo demo 12 hello.
Proof.
  assert (tree_inodes demo_geo demo 12 = Some (demo_inode_of 12)) as HR by (unfold tree_inodes; rewrite demo_inode_at, demo_used by lia; vm_compute; done).
  split; [|rewrite demo_inode_at by lia; vm_compute; done]. unfold contents. rewrite HR. cbn [fmap option_fmap option_map]. apply (f_equal Some).
  change (fsize (demo_inode_of 12)) with 5. apply (bool_decide_eq_true_1 _). vm_compute. done.
Qed.

Lemma demo_dir_room ino : ino = 2 ∨ ino = 13 → room demo_geo demo ino.
Proof. intros Hi. unfold room. rewrite demo_inode_at by lia. destruct Hi as [->| ->]; vm_compute; done. Qed.

Lemma demo_child : child_dir demo_geo demo 2 13.
Proof.
  intros mi Hmi. rewrite (has_dir_ents _ _ _ _ Hmi), demo_dir_ents. split; [by exists 2|]. split; [by exists 2|]. intros _. unfold nlinks. by rewrite demo_used, demo_inode_at by lia.
Qed.

(** Reading three bytes from the second on gives [ell]. *)
Lemma ext2_read_witness : ends (read 12 1 3) demo (λ r s', r = inr [101; 108; 108] ∧ s' = demo).
Proof. apply (ext2_read demo_geo demo_geo_ok demo 12 hello 1 3); [apply demo_fs_ok|apply demo_file|lia|lia|vm_compute; done]. Defined.

(** Writing [abc] at the end. *)
Lemma ext2_write_witness : ends (write 12 5 [97; 98; 99]) demo (λ r s',
    match r with
    | inr n => 0 ≤ n ≤ 3 ∧ (n < 3 → 0 < n ∧ full demo_geo s') ∧ became demo_geo demo 12 (write_at hello 5 (take (Z.to_nat n) [97; 98; 99])) s'
    | inl e => e = NoSpace ∧ full demo_geo s' ∧ became demo_geo demo 12 hello s'
    end).
Proof.
  apply (ext2_write demo_geo demo_geo_ok demo 12 hello 5 [97; 98; 99]); [apply demo_fs_ok|apply demo_file|lia|by apply all_bytes_Forall|vm_compute; done|vm_compute; done|].
  intros _. rewrite demo_inode_at by lia. vm_compute. done.
Defined.

(** Cutting the file after two bytes. *)
Lemma ext2_truncate_witness : ends (truncate 12 2) demo (λ r s',
    r = inr tt ∧ became demo_geo demo 12 (resize_to hello 2) s' ∧ ∀ b, isfree demo_geo demo b = true → isfree demo_geo s' b = true).
Proof. apply (ext2_truncate demo_geo demo_geo_ok demo 12 hello 2); [apply demo_fs_ok|apply demo_file|vm_compute; done|done]. Defined.

(** The file [g] in the root. *)
Lemma ext2_create_witness :
  ends (create 2 [103] (S_IFREG + 420) 0 0 0) demo (created demo_geo demo 2 (list_to_map (demo_ents 2)) [103] (S_IFREG + 420) 0 0).
Proof.
  apply (ext2_create demo_geo demo_geo_ok); [apply demo_fs_ok|apply demo_has_dir; by left|apply demo_dir_room; by left|done|done|by apply all_bytes_Forall|done|done|done|done].
Defined.

(** The directory [g] in the root. *)
Lemma ext2_mkdir_witness : ends (mkdir 2 [103] 493 0 0) demo (mkdir_post demo_geo demo 2 (list_to_map (demo_ents 2)) [103] 493 0 0).
Proof.
  apply (ext2_mkdir demo_geo demo_geo_ok); [apply demo_fs_ok|apply demo_has_dir; by left|apply demo_dir_room; by left| |done|done|by apply all_bytes_Forall|done|done].
  intros d Hd. apply list_elem_of_singleton in Hd as ->. done.
Defined.

(** The name [g] for the file in the directory [d]. *)
Lemma ext2_link_witness : ends (link 13 [103] 12) demo (linked demo_geo demo 13 (list_to_map (demo_ents 13)) [103] 12).
Proof.
  apply (ext2_link demo_geo demo_geo_ok); [apply demo_fs_ok|apply demo_has_dir; by right|apply demo_dir_room; by right|done|by apply all_bytes_Forall|done|by rewrite demo_used by lia].
Defined.

(** The only name of the file goes. *)
Lemma ext2_unlink_witness : ends (unlink 2 [102] false) demo (unlink_post demo_geo demo 2 (list_to_map (demo_ents 2)) [102] false).
Proof.
  apply (ext2_unlink demo_geo demo_geo_ok); [apply demo_fs_ok|apply demo_has_dir; by left|done|]. intros i t Hm. vm_compute in Hm. injection Hm as <- <-. done.
Defined.

(** The empty directory goes. *)
Lemma ext2_rmdir_witness : ends (rmdir 2 [100]) demo (rmdir_post demo_geo demo 2 (list_to_map (demo_ents 2)) [100]).
Proof.
  apply (ext2_rmdir demo_geo demo_geo_ok); [apply demo_fs_ok|apply demo_has_dir; by left|done|]. intros i t Hm. vm_compute in Hm. injection Hm as <- <-.
  split; [done|apply demo_child].
Defined.

(** The file moves into the directory, under another name. *)
Lemma ext2_rename_witness :
  let mo := list_to_map (demo_ents 2) in let mn := list_to_map (demo_ents 13) in let limit := at_link_limit demo_geo demo 2 mo [102] 13 mn [103] in
  runs (rename 2 [102] 13 [103]) limit (λ r s', rename_post demo_geo demo 2 mo [102] 13 mn [103] r s' ∧ (r = inr tt → ¬ limit)) demo.
Proof.
  apply (ext2_rename demo_geo demo_geo_ok);
    [apply demo_fs_ok|apply demo_has_dir; by left|apply demo_has_dir; by right|apply demo_dir_room; by right|done|by apply all_bytes_Forall|done|done| |].
  - intros i t Hm. vm_compute in Hm. injection Hm as <- <-. intros Hk. rewrite demo_inode_at in Hk by lia. by vm_compute in Hk.
  - intros e te Hm. by vm_compute in Hm.
Defined.
